(* ===== verification/_CoqProject ===== *)
-Q . S2P
Prelude.v
Interfaces.v
TimeVal.v
HeapOrder.v
TimerHeap.v
TimerHeapProofs.v
TimerHeapSpec.v
TimerHeapExamples.v
Regions.v
Pool.v
PoolSpec.v
CachingPool.v
CachingPoolSpec.v
Bytes.v
Fifobuf.v
FifobufSpec.v
Array.v
Hash.v
HashSpec.v
PjString.v
PjStringSpec.v
RbTree.v
RbTreeShape.v
RbTreeInsert.v
RbTreeSpec.v
RbTreeErase.v
RbTreeExamples.v
PjList.v
PjListSpec.v
ZephyrTls.v
ZephyrTlsSpec.v
Except.v
ExceptSpec.v
Log.v
LogSpec.v
OsCore.v
OsCoreSpec.v
GrpLock.v
GrpLockSpec.v
GrpLockExamples.v
GrpLockThreads.v
GrpLockThreadsSpec.v
GrpLockDrain.v
StrMem.v
StrMemSpec.v
SockBsd.v
IoQueueData.v
IoQueue.v
IoQueueInv.v
IoQueueDispatch.v
IoQueuePoll.v
IoQueueKeys.v
IoQueueOps.v
IoQueuePollSpec.v
IoQueueRegister.v
IoQueueUnregister.v
IoQueueThreads.v
IoQueueStream.v
IoQueueWatch.v
IoQueueCreate.v
IoQueueExamples.v
ActiveSockData.v
ActiveSock.v
ActiveSockRead.v
ActiveSockStream.v
ActiveSockSend.v
ActiveSockAccept.v
ActiveSockExamples.v
SockAddr.v
SockAddrSpec.v
SockAddrParse.v
AddrResolv.v
SockAddrRoundtrip.v
SockNet.v
HostIp.v
SockAddrExamples.v
Dns.v
DnsSpec.v
DnsExamples.v
UtilText.v
