(* ===== verification/Prelude.v ===== *)
(** * Verification of PJLIB, as ported to Zephyr

    PJLIB ([src/pjproject/pjlib]) is the base library of PJSIP; the repository
    ports it to Zephyr on ARMv7-M (see [src/docs]).  This development models the
    part of PJLIB that does not depend on the operating system - memory,
    containers, timers, strings, exceptions, logging, locks - and the port's own
    thread-local storage with the start-up and shutdown of the library, and the I/O
    queue over the system's sockets with the active sockets on top of it, and the
    socket addresses with their resolution and the address of the host, as
    executable functions, and proves that they do what their headers promise.  Of
    the library next to it, PJLIB-UTIL ([src/pjproject/pjlib-util]), it models the
    DNS packets, base64 and the escaping of text: the code that takes its input
    from the network.

    ** The program and the files that model it

    Memory is handed out by _pools_ ([pool.c], [pool_i.h]); a pool takes blocks
    from a _factory_, most often the caching factory of [pool_caching.c] over
    [malloc] ([pool_policy_malloc.c]), or lives on a buffer of its caller
    ([pool_buf.c]).  The containers and the timer heap allocate from a pool and
    see nothing but two functions of it.

    - [Prelude]: machine integers ([u8], [u32], [i32], ..), C arrays whose accesses
      outside their bounds are [None], status codes, shared lemmas and tactics.
    - [Interfaces]: the class [PoolAllocator], what a container may ask of a pool,
      and [BlockFactory], what a pool may ask of its factory.  [Pool] implements
      the first over the second; [CachingPool] implements the second twice.
    - [TimeVal]: [pj_time_val] of [types.h] and [types.c].
    - [TimerHeap]: [timer.c], with [PJ_TIMER_USE_COPY] and without the linked list
      as [config.h] has it.  The state ([world]) is the heap structure with its
      four arrays, the store of the entries, which the application shares with
      the heap, the reference counts of group locks, the depth of the heap's lock
      and the number of clock readings; callbacks are an arbitrary function on
      that state.  [HeapOrder] and [TimerHeapProofs] hold the heap order and the
      invariant, [TimerHeapSpec] the theorems, [TimerHeapExamples] the witnesses.
    - [Regions], [Pool], [PoolSpec]: the pools over 32-bit addresses.
    - [CachingPool], [CachingPoolSpec]: the caching factory, the default policy and
      pools on a buffer.
    - [Bytes], [Fifobuf], [FifobufSpec]: the circular buffer of [fifobuf.c] over a
      byte memory.
    - [Array]: [array.c] over the bytes of an array.
    - [Hash], [HashSpec]: [hash.c] with the keyed SipHash of the configuration.
    - [PjString], [PjStringSpec]: [string.c] and the comparisons of [string_i.h] on
      the bytes of a string.  [StrMem], [StrMemSpec]: the functions
      that set, copy, append and duplicate strings, over a byte memory with the
      [pj_str_t] objects at their addresses.
    - [RbTree] ([rbtree.c], the nodes with their parent pointers as a store by
      address), [RbTreeShape] (which store is which tree), [RbTreeInsert],
      [RbTreeErase], [RbTreeSpec] (the operations), [RbTreeExamples] (the height, and
      the witnesses).
    - [PjList], [PjListSpec]: the circular lists of [list_i.h] over a store of nodes.
    - [ZephyrTls], [ZephyrTlsSpec]: the thread-local storage that the port has of its
      own in [os_core_unix.c]: 32 keys, 16 threads, generations.
    - [Except], [ExceptSpec]: [except.c] and the macros of [except.h], whose
      handlers are in the thread-local storage; a [PJ_TRY] block is a statement of a
      small language, and [exec] is the expansion of the macros.
    - [Log], [LogSpec]: [log.c], which suspends the messages of a thread through the
      thread-local storage, down to the bytes of a line.
    - [OsCore], [OsCoreSpec]: [pj_init], [pj_shutdown], [pj_atexit] and the
      registration of threads in [os_core_unix.c], over the three components above.
    - [GrpLock], [GrpLockSpec], [GrpLockExamples]: [lock.c] as one thread sees it, over
      the class [SystemLocks] of the system's mutexes and semaphores.
      [GrpLockThreads]: the same operations executed by several threads, one call of
      another function at a time, as a step function; the list is the linked list
      of the code, and may change while others wait.  What the threads may do is a
      rule beside it: [anything], [polite] (the lock is used by who has a reference,
      and not destroyed by force), [calm] (moreover the list is left alone).
      [GrpLockThreadsSpec], [GrpLockDrain]: the theorems, and runs by a schedule.
    - [SockBsd]: the calls of [sock_bsd.c] that the I/O queue makes, over the class
      [SystemSockets] of the system calls, and the descriptor sets of
      [sock_select.c].
    - [IoQueueData], [IoQueue], [IoQueueCreate]: the I/O queue of [ioqueue_select.c]
      and [ioqueue_common_abs.c].  The state ([world]) is the keys and the
      operation keys by their addresses, the queue with its lists of keys and
      descriptor sets, who holds which lock, and the callbacks made.  A callback
      is an arbitrary function [app] on that state and [others] is what the other
      threads do while this one waits.  A dispatch is in sections, each under the
      lock of the key, so that [IoQueueThreads] can let the sections of several
      threads follow each other in any order.
    - [IoQueueInv], [IoQueueDispatch], [IoQueuePoll], [IoQueueKeys]: the invariant of
      the queue and what each section, dispatch and change of a reference counter
      does to it.  [IoQueueOps], [IoQueuePollSpec], [IoQueueRegister],
      [IoQueueUnregister], [IoQueueThreads], [IoQueueStream], [IoQueueWatch] hold the
      theorems, [IoQueueExamples] a concrete system of sockets and the witnesses.
    - [ActiveSockData], [ActiveSock]: [activesock.c].  The active sockets and their
      read operations are kept beside the state of the system ([env]), so that the
      queue runs on the two together, and [activesock_app] is its function of
      callbacks; the application's own functions are an arbitrary function [user].
      [ActiveSockRead], [ActiveSockStream], [ActiveSockSend], [ActiveSockAccept] hold
      the theorems, [ActiveSockExamples] a system with memory and the witnesses.
    - [SockAddr]: a [pj_sockaddr] as its 28 bytes with the fields at their offsets,
      their comparison, classification, printing and parsing ([sock_common.c]), the
      byte order and text conversions of [sock_bsd.c], over the class
      [SystemAddresses].  [SockAddrSpec], [SockAddrParse] (the grammar of address
      strings) and [SockAddrRoundtrip] hold the theorems.
    - [AddrResolv]: [pj_getaddrinfo] and [pj_gethostbyname] of [addr_resolv_sock.c] and
      the functions of [sock_common.c] that set an address from a name.
    - [SockNet]: sockets with the bytes of their addresses, over the class
      [SystemNet]: binding to a random port, the size of the buffers, and
      [pj_sock_socketpair] made of loopback connections, as the port's configuration
      has it.
    - [HostIp]: the interface of the default route ([ip_helper_generic.c]) and the
      choice of the host's address by weights, [pj_gethostip].
    - [SockAddrExamples]: a system that satisfies the laws of these files, the
      witnesses, and the inputs on which the code differs from its documentation.
    - [Dns]: [dns.c] of PJLIB-UTIL.  A packet is its bytes and a pointer into it an
      offset; a name is a buffer of the pool with a length, and [fresh] says what a
      new buffer holds.  [DnsSpec] has the format as relations ([name_at] with its
      compression pointers, [packet_at]) and the theorems, [DnsExamples] the
      witnesses and the packets on which the code leaves the format.
    - [UtilText]: [base64.c] and [string.c] of PJLIB-UTIL, with their theorems.

    ** What the theorems show

    - Timers: scheduling and cancelling refine insertion and deletion on a finite
      map from entries to expiry times, with an exact count of the references on
      group locks; where the pool does not grant larger arrays nothing is scheduled.
      Polling is safe whatever the callbacks do within their contract
      ([WellBehaved]); when they leave the heap alone it fires expired entries in
      order, as many as a poll may and the earliest first.  The errors leave the
      heap alone, but for the lack of memory, after which the next entry is read
      out of bounds ([schedule_enomem_strands_entry]).
    - Pools: memory handed out is aligned, inside the blocks of the pool and
      disjoint from everything handed out before; it is refused only when the six
      blocks that are searched have no room and the factory does not grant the
      block computed, for requests whose block size does not wrap around; a pool
      gives back exactly what it took.  The caching factory hands a pool to one holder at a time, bounds
      its cache and returns everything.  The laws of the factory below are a class
      ([FactoryLaws]), which [default_policy_laws] derives from the contract of
      [malloc] and [free].
    - FIFO buffer: a refinement of a queue of disjoint chunks, with an exact
      available size.
    - Hash table: a refinement of a finite map over (folded) keys, with the memory
      that a new key takes from the pool and no result where the pool refuses it,
      as the code does not check ([set_without_memory]); complete iteration, termination of creation for every size, published hash vectors.
    - Strings: exact number parsing with its overflow behaviour, the round trip
      with printing, tokens against the words of a string, first occurrence,
      bounded copies, the order of comparison; duplicates in a pool are exact copies
      in memory of their own, and nothing in use changes, proved against the contract
      of a pool ([PoolLaws]) that [pj_pool_laws] derives from the theorems on pools.
    - Red-black tree: insertion, search, iteration and deletion on the sequence of
      the elements in order; insertion keeps the balance, and a balanced tree is at
      most 2 log2 (n + 1) levels high; deletion keeps the order but not the balance
      ([rbtree_erase_unbalances]).
    - Lists: each operation on the sequence of the nodes; erasing a node twice does
      no harm; the traversals end.
    - Thread-local storage: any sequence of operations of any threads, too short for
      a generation to wrap around, behaves as a value per key and thread.
    - Exceptions: what [setjmp] and [longjmp] do with the handlers is structured
      exception handling, except in a thread for which the table has no place
      ([throw_without_slot]).
    - Logging: a line fits its buffer and is terminated whatever goes into it; a
      thread that puts a line together does not log.
    - Start-up and shutdown: a session leaves no key, identifier or exit function
      behind; a start-up that fails does ([failed_init_leaks_keys]).
    - Locks: a group lock of lawful locks is a lawful lock, to any depth of chaining;
      the callbacks run once, with the last reference.  Between threads that do
      anything at any time: mutual exclusion by the group's own lock, and an exact
      owner and count.  Between polite threads: an exact reference counter, and no
      use of a destroyed lock.  Between calm ones: who is inside holds every member,
      all steps come to an end, and nobody is left waiting if the members that are
      taken directly are taken in order ([orderly]).  A change of the list while
      others wait breaks what the chained locks promise
      ([chain_lets_waiter_in], [unchain_waiter_spins]).
    - I/O queue: a poll of a single poller returns, touches no key that has been
      recycled and gives back every lock and every reference to keys and group
      locks, whatever the callbacks do within their contract ([WellBehaved]);
      requests as a decision function says, registration and unregistration on every
      branch; a key is not reused before its delay has passed; with concurrency
      not allowed the read callbacks of several threads come one at a time and in
      order; the bytes of a stream are taken in the order they were given, all of
      them as long as no send fails; no section of a dispatch forgets a pending operation, but for those that
      [connect_strands_write] and [post_completion_strands_read] describe.
    - Active sockets: from the socket through the queue to the application the bytes
      of a stream arrive in order, whatever part of them the application leaves in
      the buffer, and the buffer is never exceeded; a send of whole data hands over
      all of it and is reported with its length, except when another thread sends
      meanwhile ([send_data_shared]); a full buffer is taken for the end of the
      stream ([full_buffer_is_eof]); a failing listener gives up.
    - Socket addresses: comparison is a total order that agrees with equality of
      family, address and port; the classification is membership in the ranges;
      parsing accepts the strings of a grammar and nothing else, with what it gives;
      printing and parsing back give the same address, but for the IPv4 broadcast
      address ([broadcast_is_resolved]).  Resolution stores the first wanted answers
      without duplicates, and leaves the addresses of the other slots alone.  The pair of sockets
      leaves no descriptor open, whatever call fails.  The host's address is that of
      the default route if it is an ordinary one, else that of its name, else the
      loopback address.
    - DNS packets: the parser accepts the packets of the format and no other, whatever
      the bytes, without an access outside of the packet or of a name's buffer; a
      query that is made is parsed back, and the room that is asked for it is two
      bytes short ([make_query_overflows]); a duplicate is the same packet up to the
      case of its names, without the sections left out; a name with a null character
      is the same only up to it.
    - Text: base64 in both alphabets and percent escapes are decoded to what was
      encoded, the latter if the percent sign is escaped, too
      ([percent_not_escaped]); decoding stays within the output it asks for, whatever the input.

    ** Undefined behaviour, bounds and fuel

    A read or write outside an array, through a stale pointer or of an absent
    object is [None], so a theorem that an operation returns [Some _] is a
    memory-safety theorem.  Loops that are not structural take fuel, and the
    theorems prove that the fuel given is enough: [reheap_fuel] is the number of
    slots, and each iteration moves at least one level; a poll is bounded by
    [max_entries_per_poll]; [normalize_neg] by the milliseconds; the size of a hash
    table doubles at most 32 times; a 64-bit number has at most 20 digits; the loops
    over a list or a tree visit each node at most once; [strlen] reads different
    bytes, so no more than memory holds; a call through a lock goes as
    deep as group locks are chained to group locks; a dispatch makes at most one
    callback more than were put off before it, so a poll of sixteen events is done
    with seventeen turns more than the longest list of callbacks put off; the loop of
    a completed read has at most [max_loop] turns, sending the rest of some data as
    many as it has bytes, and accepting as many as errors in a row are allowed; the
    loops over addresses are over the bytes, the answers, the tries or the eight
    candidates there are; a name in a DNS packet follows at most
    [MAX_NAME_RECURSION] pointers, with no more labels between them than the packet
    has bytes; decoding consumes a character in each turn.
    The steps that are left to threads in a group lock are bounded by what each has
    still to take and to give back ([work_left]).
    [pj_assert] is compiled out, as in a release build, and [PJ_ASSERT_RETURN]
    returns.  The fields of a [pj_time_val] and the lengths in the macros of base64
    are exact integers, where C has [long] and [int]; so are the counters of a group
    lock between threads.

    ** What is not modelled

    Operations that only print (the dumps), everything that is a system call
    (creating threads and mutexes, sending and receiving, files, clocks), the debugging variant of
    group locks, the rest of PJLIB-UTIL (the resolver with its cache, the scanner,
    XML, JSON, HTTP, STUN and telnet) and the libraries above it.  [malloc], the clock, the callbacks,
    the mutexes and the process key are parameters with the laws the code relies on.
    In the model of several threads the members of a group lock are recursive
    mutexes, not group locks again, and chaining has the memory it needs.  A
    line of the log leaves out the colours.  Of the I/O queue: a lock of the
    application's own ([pj_ioqueue_set_lock]), the replacement of dead sockets on
    iOS and the other backends.  Of the active sockets: the background mode of iOS
    and [pj_activesock_create_udp], which makes the socket itself.  Of the sockets:
    [pj_inet_ntoa], [pj_sock_getpeername], [pj_sock_shutdown], the lists of socket
    options, the routes, and the interface enumerations and resolvers of other
    systems.
*)
From Stdlib Require Export ZArith Lia.
From stdpp Require Export base tactics option list gmap numbers sorting.

#[global] Open Scope Z_scope.

(** ** Status codes ([pjlib/include/pj/errno.h]) *)

Definition PJ_SUCCESS : Z := 0.
Definition PJ_ERRNO_START_STATUS : Z := 20000 + 50000.
Definition PJ_EUNKNOWN : Z := PJ_ERRNO_START_STATUS + 1.
Definition PJ_EINVAL : Z := PJ_ERRNO_START_STATUS + 4.
Definition PJ_ENOTFOUND : Z := PJ_ERRNO_START_STATUS + 6.
Definition PJ_ENOMEM : Z := PJ_ERRNO_START_STATUS + 7.
Definition PJ_EBUG : Z := PJ_ERRNO_START_STATUS + 8.
Definition PJ_ETOOMANY : Z := PJ_ERRNO_START_STATUS + 10.
Definition PJ_EINVALIDOP : Z := PJ_ERRNO_START_STATUS + 13.
Definition PJ_ETOOBIG : Z := PJ_ERRNO_START_STATUS + 17.
Definition PJ_ETOOSMALL : Z := PJ_ERRNO_START_STATUS + 19.
Definition PJ_EGONE : Z := PJ_ERRNO_START_STATUS + 23.

(** ** Machine integers

    The port targets ARMv7-M, an ILP32 machine: [int], [long], [size_t] and
    pointers are 32 bits wide.  An unsigned value of width [w] is a [Z] kept
    in [0, 2^w); [u8], [u16], [u32], [u64] are the conversions to those
    types and [i32] the conversion to a two's-complement [int]. *)

Definition wrap (w z : Z) : Z := z mod 2 ^ w.
Definition u8 (z : Z) : Z := wrap 8 z.
Definition u16 (z : Z) : Z := wrap 16 z.
Definition u32 (z : Z) : Z := wrap 32 z.
Definition u64 (z : Z) : Z := wrap 64 z.
Definition i32 (z : Z) : Z := (z + 2 ^ 31) mod 2 ^ 32 - 2 ^ 31.

Definition UINT_MAX : Z := 2 ^ 32 - 1.
Definition INT_MAX : Z := 2 ^ 31 - 1.

Lemma wrap_bound w z : 0 <= w -> 0 <= wrap w z < 2 ^ w.
Proof. intros ?. apply Z.mod_pos_bound, Z.pow_pos_nonneg; lia. Qed.

Lemma wrap_small w z : 0 <= z < 2 ^ w -> wrap w z = z.
Proof. apply Z.mod_small. Qed.

Lemma u32_bound z : 0 <= u32 z < 2 ^ 32.
Proof. by apply wrap_bound. Qed.

Lemma u32_small z : 0 <= z < 2 ^ 32 -> u32 z = z.
Proof. apply Z.mod_small. Qed.

Lemma u8_small z : 0 <= z < 256 -> u8 z = z.
Proof. apply Z.mod_small. Qed.

Lemma i32_small z : - 2 ^ 31 <= z < 2 ^ 31 -> i32 z = z.
Proof. intros. unfold i32. rewrite Z.mod_small; lia. Qed.

Lemma i32_bound z : - 2 ^ 31 <= i32 z < 2 ^ 31.
Proof.
  unfold i32. pose proof (Z.mod_pos_bound (z + 2 ^ 31) (2 ^ 32) ltac:(lia)). lia.
Qed.

(** ** C arrays

    An array is a list; reading or writing outside of it is undefined
    behaviour in C and is [None] here, so a theorem that an operation returns
    [Some _] is also a memory-safety theorem. *)

Definition in_range {A} (l : list A) (i : Z) : bool :=
  (0 <=? i) && (i <? Z.of_nat (length l)).

Definition arr_get {A} (l : list A) (i : Z) : option A :=
  if in_range l i then l !! Z.to_nat i else None.

Definition arr_set {A} (l : list A) (i : Z) (x : A) : option (list A) :=
  if in_range l i then Some (<[Z.to_nat i := x]> l) else None.

Declare Scope carr_scope.
Delimit Scope carr_scope with carr.
Notation "l .[ i ]" := (arr_get l i)
  (at level 1, left associativity, format "l .[ i ]") : carr_scope.
Notation "l .[ i <- x ]" := (arr_set l i x)
  (at level 1, left associativity, format "l .[ i  <-  x ]") : carr_scope.
#[global] Open Scope carr_scope.

Lemma in_range_true {A} (l : list A) i :
  in_range l i = true <-> 0 <= i < Z.of_nat (length l).
Proof. unfold in_range. rewrite andb_true_iff, Z.leb_le, Z.ltb_lt. lia. Qed.

Lemma arr_get_Some {A} (l : list A) i x :
  l.[i] = Some x <-> 0 <= i /\ l !! Z.to_nat i = Some x.
Proof.
  unfold arr_get. destruct (in_range l i) eqn:E.
  - apply in_range_true in E. intuition lia.
  - split; [done|]. intros [? H]. apply lookup_lt_Some in H.
    assert (in_range l i = true) by (apply in_range_true; lia). congruence.
Qed.

Lemma arr_get_nat {A} (l : list A) (n : nat) : l.[Z.of_nat n] = l !! n.
Proof.
  unfold arr_get. destruct (in_range l (Z.of_nat n)) eqn:E.
  - by rewrite Nat2Z.id.
  - symmetry. apply lookup_ge_None.
    destruct (decide (length l <= n)%nat); [done|].
    assert (in_range l (Z.of_nat n) = true) by (apply in_range_true; lia). congruence.
Qed.

Lemma arr_get_is_Some {A} (l : list A) i :
  0 <= i < Z.of_nat (length l) -> exists x, l.[i] = Some x.
Proof.
  intros. destruct (lookup_lt_is_Some_2 l (Z.to_nat i)) as [x Hx]; [lia|].
  exists x. apply arr_get_Some. split; [lia|done].
Qed.

Lemma arr_get_bound {A} (l : list A) i x :
  l.[i] = Some x -> 0 <= i < Z.of_nat (length l).
Proof. intros [? H]%arr_get_Some. apply lookup_lt_Some in H. lia. Qed.

Lemma arr_set_Some {A} (l l' : list A) i x :
  l.[i <- x] = Some l' <-> 0 <= i < Z.of_nat (length l) /\ l' = <[Z.to_nat i := x]> l.
Proof.
  unfold arr_set. destruct (in_range l i) eqn:E.
  - apply in_range_true in E. split; [intros [= <-]; done|]. by intros [_ ->].
  - split; [done|]. intros [H _]. apply in_range_true in H. congruence.
Qed.

Lemma arr_set_in {A} (l : list A) i x :
  0 <= i < Z.of_nat (length l) -> l.[i <- x] = Some (<[Z.to_nat i := x]> l).
Proof. intros. by apply arr_set_Some. Qed.

Lemma arr_set_length {A} (l l' : list A) i x :
  l.[i <- x] = Some l' -> length l' = length l.
Proof. intros [_ ->]%arr_set_Some. apply length_insert. Qed.

Lemma arr_get_insert_eq {A} (l : list A) i x :
  0 <= i < Z.of_nat (length l) -> (<[Z.to_nat i := x]> l).[i] = Some x.
Proof.
  intros. apply arr_get_Some. split; [lia|]. apply list_lookup_insert_eq. lia.
Qed.

Lemma arr_get_insert_ne {A} (l : list A) i j x :
  0 <= i -> i <> j -> (<[Z.to_nat i := x]> l).[j] = l.[j].
Proof.
  intros. unfold arr_get, in_range. rewrite length_insert.
  destruct ((0 <=? j) && (j <? Z.of_nat (length l))) eqn:E; [|done].
  apply andb_true_iff in E as [?%Z.leb_le ?%Z.ltb_lt].
  apply list_lookup_insert_ne. lia.
Qed.

(** Replacing one element of a list by another. *)
Lemma elem_of_insert_inv {A} (l : list A) s m y : y ∈ <[s := m]> l -> y = m \/ y ∈ l.
Proof.
  intros [i Hi]%list_elem_of_lookup.
  apply list_lookup_insert_Some in Hi as [(_ & <- & _)|[_ Hi]]; [by left|].
  right. by eapply list_elem_of_lookup_2.
Qed.

Lemma NoDup_insert_fresh {A} (l : list A) s m : NoDup l -> m ∉ l -> NoDup (<[s := m]> l).
Proof.
  intros Hl Hm. rewrite NoDup_alt in *. intros i j y Hi Hj.
  apply list_lookup_insert_Some in Hi as [(<- & <- & _)|[? Hi]];
    apply list_lookup_insert_Some in Hj as [(<- & E & _)|[? Hj]]; subst; try done.
  - destruct Hm. by eapply list_elem_of_lookup_2.
  - destruct Hm. by eapply list_elem_of_lookup_2.
  - by eapply Hl.
Qed.

(** A sorted list stays sorted under a relation weaker on its elements. *)
Lemma StronglySorted_impl_in {A} (R S : A -> A -> Prop) (l : list A) :
  (forall x y, x ∈ l -> y ∈ l -> R x y -> S x y) -> StronglySorted R l -> StronglySorted S l.
Proof.
  intros H Hs. induction Hs as [|x l Hs IH Hx]; constructor.
  - apply IH. intros. apply H; by try apply list_elem_of_further.
  - rewrite Forall_forall in *. intros y Hy. apply H; [by left|by right|]. by apply Hx.
Qed.

Lemma elem_of_concat {A} (ls : list (list A)) x :
  x ∈ concat ls <-> exists i l, ls !! i = Some l /\ x ∈ l.
Proof.
  induction ls as [|l ls IH]; simpl.
  - rewrite elem_of_nil. split; [done|]. by intros (i & l & ? & _).
  - rewrite elem_of_app, IH. split.
    + intros [?|(i & k & ? & ?)]; [by exists 0%nat, l|by exists (S i), k].
    + intros ([|i] & k & Hk & ?); simpl in Hk; [left; by simplify_eq|right; eauto].
Qed.

Lemma concat_insert_perm {A} (fl : list (list A)) i l l' :
  fl !! i = Some l -> l' ++ concat fl ≡ₚ l ++ concat (<[i := l']> fl).
Proof.
  revert i. induction fl as [|k fl IH]; intros i; [done|].
  destruct i as [|i]; simpl; intros Hl.
  - simplify_eq. rewrite !app_assoc. f_equiv. apply Permutation_app_comm.
  - rewrite (Permutation_app_comm k), (Permutation_app_comm k), !app_assoc. by rewrite IH.
Qed.

(** ** The automation of the development

    [bind_inv] splits a bind of the undefined-behaviour (option) monad in a
    hypothesis and [bind_step] performs one in the goal; [pj] is the hint database
    of the component files. *)

Create HintDb pj.
Create Rewrite HintDb pj.
#[export] Hint Resolve u32_bound i32_bound : pj.

Ltac bind_inv H :=
  let x := fresh "x" in let E := fresh "E" in
  apply bind_Some in H as (x & E & H).

(** One step of a computation in the option monad. *)
Lemma bind_some_eq {A B} (f : A -> option B) x : (Some x ≫= f) = f x.
Proof. done. Qed.

Ltac bind_step := rewrite bind_some_eq; cbv beta zeta.

(** Two steps known together, before the rest. *)
Lemma bind_seq {A B C} (m : option A) (f : A -> option B) (K : B -> option C) y :
  m ≫= f = Some y -> (m ≫= fun x => f x ≫= K) = K y.
Proof. destruct m as [x|]; simpl; [by intros ->|done]. Qed.

(** Linear arithmetic with divisions and remainders by constants. *)
Ltac div_lia := Z.to_euclidean_division_equations; lia.

(** Case analysis on every [if] over an integer comparison, with the
    comparison turned into its meaning. *)
Ltac zcase :=
  match goal with
  | |- context [if ?a <? ?b then _ else _] => destruct (Z.ltb_spec a b)
  | |- context [if ?a <=? ?b then _ else _] => destruct (Z.leb_spec a b)
  | |- context [if ?a =? ?b then _ else _] => destruct (Z.eqb_spec a b)
  | H : context [if ?a <? ?b then _ else _] |- _ => destruct (Z.ltb_spec a b)
  | H : context [if ?a <=? ?b then _ else _] |- _ => destruct (Z.leb_spec a b)
  | H : context [if ?a =? ?b then _ else _] |- _ => destruct (Z.eqb_spec a b)
  end.
