(* ===== verification/Interfaces.v ===== *)
(** * Interfaces between the components

    What a client of a memory pool relies on: [pj_pool_alloc] and
    [pj_pool_calloc] either return the address of fresh memory or NULL
    ([None]), and change nothing but the pool.  The containers that grow
    (the timer heap, the hash table) are written and proved against this
    class; [Pool] declares the instance for the pools of [pool.c]. *)
From S2P Require Import Prelude.

Class PoolAllocator (P : Type) := {
  pool_alloc : P -> Z -> option Z * P;
  pool_calloc : P -> Z -> Z -> option Z * P
}.

(** A pool that always has room, and one that never has: the two extreme
    clients' views, used to evaluate the models. *)
Definition roomy_pool : PoolAllocator nat := {|
  pool_alloc := fun n _ => (Some (Z.of_nat (S n)), S n);
  pool_calloc := fun n _ _ => (Some (Z.of_nat (S n)), S n)
|}.

Definition empty_pool : PoolAllocator nat := {|
  pool_alloc := fun n _ => (None, n);
  pool_calloc := fun n _ _ => (None, n)
|}.

(** What a pool relies on: the functions of a [pj_pool_factory_policy],
    [block_alloc], [block_free] and [callback], over the state of the factory.
    The callback is told the size that could not be had; one that throws does
    not return, and the state it leaves is then that of the handler. *)
Class BlockFactory (F : Type) := {
  block_alloc : F -> Z -> option Z * F;
  block_free : F -> Z -> Z -> F;
  pool_callback : F -> Z -> F
}.
