(* ===== verification/TimeVal.v ===== *)
(** * Time values

    [pj_time_val] with the comparison and arithmetic macros of
    [pjlib/include/pj/types.h] and [pj_time_val_normalize] of
    [pjlib/src/pj/types.c].  The fields are C [long]s; signed overflow is
    undefined in C, and the arithmetic here is exact. *)
From S2P Require Import Prelude.

Record pj_time_val := mk_time_val { sec : Z; msec : Z }.

#[export] Instance pj_time_val_eq_dec : EqDecision pj_time_val.
Proof. solve_decision. Defined.

Definition PJ_TIME_VAL_MSEC (t : pj_time_val) : Z := sec t * 1000 + msec t.

Definition PJ_TIME_VAL_EQ (t1 t2 : pj_time_val) : bool :=
  (sec t1 =? sec t2) && (msec t1 =? msec t2).

Definition PJ_TIME_VAL_GT (t1 t2 : pj_time_val) : bool :=
  (sec t2 <? sec t1) || ((sec t1 =? sec t2) && (msec t2 <? msec t1)).

Definition PJ_TIME_VAL_GTE (t1 t2 : pj_time_val) : bool :=
  PJ_TIME_VAL_GT t1 t2 || PJ_TIME_VAL_EQ t1 t2.

Definition PJ_TIME_VAL_LT (t1 t2 : pj_time_val) : bool :=
  negb (PJ_TIME_VAL_GTE t1 t2).

Definition PJ_TIME_VAL_LTE (t1 t2 : pj_time_val) : bool :=
  negb (PJ_TIME_VAL_GT t1 t2).

(** The [do .. while (msec <= -1000)] loop of the normalisation; [fuel]
    bounds the number of iterations, and a run out of it is [None]. *)
Fixpoint normalize_neg (fuel : nat) (t : pj_time_val) : option pj_time_val :=
  match fuel with
  | O => None
  | S fuel =>
      let t' := mk_time_val (sec t - 1) (msec t + 1000) in
      if msec t' <=? -1000 then normalize_neg fuel t' else Some t'
  end.

Definition pj_time_val_normalize (t : pj_time_val) : option pj_time_val :=
  t1 ← (if 1000 <=? msec t
        then Some (mk_time_val (sec t + Z.quot (msec t) 1000) (Z.rem (msec t) 1000))
        else if msec t <=? -1000
        then normalize_neg (Z.to_nat (- msec t / 1000)) t
        else Some t);
  Some (if (1 <=? sec t1) && (msec t1 <? 0)
        then mk_time_val (sec t1 - 1) (msec t1 + 1000)
        else if (sec t1 <? 0) && (0 <? msec t1)
        then mk_time_val (sec t1 + 1) (msec t1 - 1000)
        else t1).

Definition PJ_TIME_VAL_ADD (t1 t2 : pj_time_val) : option pj_time_val :=
  pj_time_val_normalize (mk_time_val (sec t1 + sec t2) (msec t1 + msec t2)).

Definition PJ_TIME_VAL_SUB (t1 t2 : pj_time_val) : option pj_time_val :=
  pj_time_val_normalize (mk_time_val (sec t1 - sec t2) (msec t1 - msec t2)).

(** The order the comparisons decide, in the form [lia] reads. *)
Definition time_le (t1 t2 : pj_time_val) : Prop :=
  sec t1 < sec t2 \/ sec t1 = sec t2 /\ msec t1 <= msec t2.

(** A normalised value: less than a second of milliseconds, of the sign of
    the seconds. *)
Definition normalized (t : pj_time_val) : Prop :=
  -1000 < msec t < 1000 /\ (0 < sec t -> 0 <= msec t) /\ (sec t < 0 -> msec t <= 0).

Lemma time_val_gt_spec t1 t2 : PJ_TIME_VAL_GT t1 t2 = true <-> ~ time_le t1 t2.
Proof. unfold PJ_TIME_VAL_GT, time_le. lia. Qed.

Lemma time_val_lte_spec t1 t2 : PJ_TIME_VAL_LTE t1 t2 = true <-> time_le t1 t2.
Proof. unfold PJ_TIME_VAL_LTE, PJ_TIME_VAL_GT, time_le. lia. Qed.

Lemma time_val_gte_spec t1 t2 : PJ_TIME_VAL_GTE t1 t2 = true <-> time_le t2 t1.
Proof. unfold PJ_TIME_VAL_GTE, PJ_TIME_VAL_GT, PJ_TIME_VAL_EQ, time_le. lia. Qed.

Lemma time_val_lt_spec t1 t2 : PJ_TIME_VAL_LT t1 t2 = true <-> ~ time_le t2 t1.
Proof.
  unfold PJ_TIME_VAL_LT. rewrite negb_true_iff, <-not_true_iff_false, time_val_gte_spec. done.
Qed.

Lemma time_val_lt_false t1 t2 : PJ_TIME_VAL_LT t1 t2 = false <-> time_le t2 t1.
Proof.
  unfold PJ_TIME_VAL_LT. rewrite negb_false_iff. apply time_val_gte_spec.
Qed.

Lemma not_time_le t1 t2 : ~ time_le t1 t2 -> time_le t2 t1.
Proof. unfold time_le. lia. Qed.

#[export] Instance time_le_preorder : PreOrder time_le.
Proof. split; unfold Reflexive, Transitive, time_le; intros; lia. Qed.

#[export] Instance time_le_total : Total time_le.
Proof. unfold Total, time_le. lia. Qed.

#[export] Hint Extern 2 (time_le _ _) => unfold time_le in *; lia : pj.

(** With the fuel the definition gives it, the loop ends, and takes away
    whole seconds only. *)
Lemma normalize_neg_spec fuel t :
  msec t <= -1000 -> - msec t / 1000 <= Z.of_nat fuel ->
  exists t', normalize_neg fuel t = Some t' /\
    PJ_TIME_VAL_MSEC t' = PJ_TIME_VAL_MSEC t /\ -1000 < msec t' <= 0.
Proof.
  revert t. induction fuel as [|fuel IH]; intros t Hm Hf; [div_lia|].
  simpl. destruct (Z.leb_spec (msec t + 1000) (-1000)).
  - edestruct (IH (mk_time_val (sec t - 1) (msec t + 1000))) as (t' & -> & ? & ?); simpl; [lia|div_lia|].
    exists t'. unfold PJ_TIME_VAL_MSEC in *. simpl in *. split_and!; try done; lia.
  - eexists. split; [done|]. unfold PJ_TIME_VAL_MSEC. simpl. lia.
Qed.

Lemma normalize_spec t :
  exists t', pj_time_val_normalize t = Some t' /\
    PJ_TIME_VAL_MSEC t' = PJ_TIME_VAL_MSEC t /\ normalized t'.
Proof.
  unfold pj_time_val_normalize.
  assert (exists t1, (if 1000 <=? msec t
        then Some (mk_time_val (sec t + Z.quot (msec t) 1000) (Z.rem (msec t) 1000))
        else if msec t <=? -1000
        then normalize_neg (Z.to_nat (- msec t / 1000)) t
        else Some t) = Some t1 /\ PJ_TIME_VAL_MSEC t1 = PJ_TIME_VAL_MSEC t /\
        -1000 < msec t1 < 1000) as (t1 & -> & Hm & Hb).
  { zcase; [|zcase].
    - eexists. split; [done|]. unfold PJ_TIME_VAL_MSEC. simpl.
      pose proof (Z.quot_rem' (msec t) 1000).
      pose proof (Z.rem_bound_pos (msec t) 1000). lia.
    - destruct (normalize_neg_spec (Z.to_nat (- msec t / 1000)) t) as (t1 & ? & ? & ?); [lia..|].
      exists t1. split_and!; try done; lia.
    - exists t. split_and!; try done; lia. }
  simpl. eexists. split; [done|].
  unfold PJ_TIME_VAL_MSEC, normalized in *.
  destruct ((1 <=? sec t1) && (msec t1 <? 0)) eqn:E1; simpl; [lia|].
  destruct ((sec t1 <? 0) && (0 <? msec t1)) eqn:E2; simpl; lia.
Qed.

Lemma time_val_sub_total t1 t2 : exists t, PJ_TIME_VAL_SUB t1 t2 = Some t.
Proof.
  destruct (normalize_spec (mk_time_val (sec t1 - sec t2) (msec t1 - msec t2))) as (t & ? & _).
  by exists t.
Qed.

Lemma time_val_add_total t1 t2 : exists t, PJ_TIME_VAL_ADD t1 t2 = Some t.
Proof.
  destruct (normalize_spec (mk_time_val (sec t1 + sec t2) (msec t1 + msec t2))) as (t & ? & _).
  by exists t.
Qed.

(** [pj_time_val_normalize] returns for every value, keeps the duration it
    stands for, and leaves less than a second of milliseconds, of the sign of
    the seconds; the sums and differences of time values are exact. *)
Theorem time_val_arith_exact t1 t2 :
  exists a s, PJ_TIME_VAL_ADD t1 t2 = Some a /\ PJ_TIME_VAL_SUB t1 t2 = Some s /\
    PJ_TIME_VAL_MSEC a = PJ_TIME_VAL_MSEC t1 + PJ_TIME_VAL_MSEC t2 /\
    PJ_TIME_VAL_MSEC s = PJ_TIME_VAL_MSEC t1 - PJ_TIME_VAL_MSEC t2 /\
    normalized a /\ normalized s.
Proof.
  destruct (normalize_spec (mk_time_val (sec t1 + sec t2) (msec t1 + msec t2))) as (a & Ha & Ea & Na).
  destruct (normalize_spec (mk_time_val (sec t1 - sec t2) (msec t1 - msec t2))) as (s & Hs & Es & Ns).
  exists a, s. unfold PJ_TIME_VAL_ADD, PJ_TIME_VAL_SUB, PJ_TIME_VAL_MSEC in *. simpl in *.
  split_and!; try done; lia.
Qed.
