(* ===== verification/HeapOrder.v ===== *)
(** * Sifting in an array heap

    The order argument of the timer heap, apart from its data: a list laid
    out as a binary heap (the children of index [p] are [2p+1] and [2p+2])
    with one element out of place, and what moving that element one level up
    or down does to it. *)
From S2P Require Import Prelude.

Definition swapl {X} (L : list X) (i j : nat) : list X :=
  match L !! i, L !! j with
  | Some x, Some y => <[i := y]> (<[j := x]> L)
  | _, _ => L
  end.

Definition child_of (p i : nat) : Prop := (i = 2 * p + 1 \/ i = 2 * p + 2)%nat.

Section swap.
Context {X : Type}.
Implicit Types L : list X.

Lemma lookup_swapl L i j k :
  (i < length L)%nat -> (j < length L)%nat ->
  swapl L i j !! k = if decide (k = i) then L !! j else if decide (k = j) then L !! i else L !! k.
Proof.
  intros Hi Hj. unfold swapl.
  destruct (lookup_lt_is_Some_2 L i Hi) as [x Hx], (lookup_lt_is_Some_2 L j Hj) as [y Hy].
  rewrite Hx, Hy. repeat case_decide; subst.
  - rewrite list_lookup_insert_eq; [done|]. by rewrite length_insert.
  - rewrite list_lookup_insert_ne by done. by rewrite list_lookup_insert_eq.
  - by rewrite !list_lookup_insert_ne by done.
Qed.

Lemma length_swapl L i j : length (swapl L i j) = length L.
Proof. unfold swapl. repeat case_match; by rewrite ?length_insert. Qed.

Lemma elem_of_swapl L i j x :
  (i < length L)%nat -> (j < length L)%nat -> x ∈ swapl L i j <-> x ∈ L.
Proof.
  intros Hi Hj. rewrite !list_elem_of_lookup. setoid_rewrite lookup_swapl; [|done..].
  split; intros [k Hk].
  - repeat case_decide; eauto.
  - destruct (decide (k = i)) as [->|]; [exists j|destruct (decide (k = j)) as [->|]; [exists i|exists k]];
      repeat case_decide; congruence.
Qed.

Lemma NoDup_swapl L i j :
  (i < length L)%nat -> (j < length L)%nat -> NoDup L -> NoDup (swapl L i j).
Proof.
  intros Hi Hj. rewrite !NoDup_alt. intros HL a b x.
  rewrite !lookup_swapl by done. intros Ha Hb.
  repeat case_decide; subst; try done; naive_solver.
Qed.
End swap.

Section order.
Context {X : Type} (R : relation X) `{!PreOrder R}.
Implicit Types L : list X.

Definition heap_order L : Prop := forall p i x y,
  child_of p i -> L !! p = Some x -> L !! i = Some y -> R x y.

(** Grandparent and grandchildren of the misplaced index [s] are in order. *)
Definition around L (s : nat) : Prop := forall g i x y,
  child_of g s -> child_of s i -> L !! g = Some x -> L !! i = Some y -> R x y.

(** In order but for the pair of [s] and its parent. *)
Definition up_inv L (s : nat) : Prop :=
  (forall p i x y, child_of p i -> i <> s -> L !! p = Some x -> L !! i = Some y -> R x y)
  /\ around L s.

(** In order but for the pairs of [s] and its children. *)
Definition down_inv L (s : nat) : Prop :=
  (forall p i x y, child_of p i -> p <> s -> L !! p = Some x -> L !! i = Some y -> R x y)
  /\ around L s.

Lemma up_done L s :
  up_inv L s ->
  (forall p x y, child_of p s -> L !! p = Some x -> L !! s = Some y -> R x y) ->
  heap_order L.
Proof.
  intros [H _] Hs p i x y Hc ??. destruct (decide (i = s)) as [->|]; eauto.
Qed.

Lemma down_done L s :
  down_inv L s ->
  (forall i x y, child_of s i -> L !! s = Some x -> L !! i = Some y -> R x y) ->
  heap_order L.
Proof.
  intros [H _] Hs p i x y Hc ??. destruct (decide (p = s)) as [->|]; eauto.
Qed.

(** One level up: the parent [x] of the moved element [m] is larger. *)
Lemma up_step L s p x m :
  child_of p s -> L !! p = Some x -> L !! s = Some m -> R m x ->
  up_inv L s -> up_inv (swapl L s p) p.
Proof.
  intros Hps Hp Hs Hm [H1 H2].
  pose proof (lookup_lt_Some _ _ _ Hp). pose proof (lookup_lt_Some _ _ _ Hs).
  assert (s <> p) by (unfold child_of in *; lia).
  split.
  - intros q i a b Hqi Hi. rewrite !lookup_swapl by done.
    destruct (decide (i = s)) as [->|].
    { assert (q = p) as -> by (unfold child_of in *; lia).
      rewrite decide_False, decide_True by done. naive_solver. }
    rewrite (decide_False (P := i = p)) by done.
    destruct (decide (q = s)) as [->|].
    { intros. eapply H2; eauto. }
    destruct (decide (q = p)) as [->|]; [|eauto].
    intros ??. simplify_eq. trans x; [done|]. eauto.
  - intros g i a b Hg Hi. rewrite !lookup_swapl by done.
    assert (g <> s /\ g <> p /\ i <> p) as (?&?&?) by (unfold child_of in *; lia).
    rewrite (decide_False (P := g = s)), (decide_False (P := g = p)),
      (decide_False (P := i = p)) by done.
    destruct (decide (i = s)) as [->|].
    + intros. eapply (H1 g p); eauto.
    + intros. trans x; [eapply (H1 g p)|eapply (H1 p i)]; eauto.
Qed.

(** One level down: [x], the smaller child, is smaller than the moved
    element. *)
Lemma down_step L s c x m :
  child_of s c -> L !! c = Some x -> L !! s = Some m -> R x m ->
  (forall i y, child_of s i -> L !! i = Some y -> R x y) ->
  down_inv L s -> down_inv (swapl L s c) c.
Proof.
  intros Hsc Hc Hs Hm Hmin [H1 H2].
  pose proof (lookup_lt_Some _ _ _ Hc). pose proof (lookup_lt_Some _ _ _ Hs).
  assert (s <> c) by (unfold child_of in *; lia).
  split.
  - intros q i a b Hqi Hq. rewrite !lookup_swapl by done.
    rewrite (decide_False (P := q = c)) by done.
    destruct (decide (q = s)) as [->|].
    { destruct (decide (i = s)) as [->|]; [unfold child_of in *; lia|].
      destruct (decide (i = c)) as [->|]; [naive_solver|]. naive_solver. }
    destruct (decide (i = s)) as [->|].
    { intros. eapply H2; eauto. }
    destruct (decide (i = c)) as [->|]; [unfold child_of in *; lia|]. eauto.
  - intros g i a b Hg Hi. rewrite !lookup_swapl by done.
    assert (g = s) as -> by (unfold child_of in *; lia).
    assert (i <> s /\ i <> c) as [??] by (unfold child_of in *; lia).
    rewrite (decide_True (P := s = s)), (decide_False (P := i = s)), (decide_False (P := i = c)) by done.
    intros. eapply H1; eauto.
Qed.

Lemma heap_order_min L x i y :
  heap_order L -> L !! 0%nat = Some x -> L !! i = Some y -> R x y.
Proof.
  intros HL Hx. revert y. induction i as [i IH] using lt_wf_ind. intros y Hy.
  destruct (decide (i = 0)%nat) as [->|]; [by simplify_eq|].
  assert (exists p, child_of p i /\ (p < i)%nat) as (p & Hp & Hlt).
  { exists ((i - 1) / 2)%nat. unfold child_of.
    pose proof (Nat.div_mod_eq (i - 1) 2). pose proof (Nat.mod_upper_bound (i - 1) 2). lia. }
  destruct (lookup_lt_is_Some_2 L p) as [z Hz]; [apply lookup_lt_Some in Hy; lia|].
  trans z; eauto.
Qed.

Lemma heap_order_snoc L m :
  heap_order L -> up_inv (L ++ [m]) (length L).
Proof.
  intros HL. split.
  - intros p i x y Hc Hi Hp Hy.
    assert (i < length L)%nat.
    { apply lookup_lt_Some in Hy. rewrite length_app in Hy. simpl in *. lia. }
    assert (p < length L)%nat by (unfold child_of in *; lia).
    rewrite lookup_app_l in Hp, Hy by done. eauto.
  - intros g i x y _ Hi _ Hy. apply lookup_lt_Some in Hy.
    rewrite length_app in Hy. unfold child_of in *. simpl in *. lia.
Qed.

(** Filling the place [s] of a removed element with the last one, [m]. *)
Section remove.
Context (L : list X) (m : X) (s : nat).
Hypothesis HL : heap_order (L ++ [m]).
Hypothesis Hs : (s < length L)%nat.

Lemma heap_order_init : heap_order L.
Proof.
  intros p i x y ? Hp Hi. eapply HL; eauto; by apply lookup_app_l_Some.
Qed.

Lemma around_remove : around (<[s := m]> L) s.
Proof.
  intros g i x y Hg Hi. rewrite !list_lookup_insert_ne by (unfold child_of in *; lia).
  intros. destruct (lookup_lt_is_Some_2 L s Hs) as [z Hz].
  trans z; [eapply (heap_order_init g s)|eapply (heap_order_init s i)]; eauto.
Qed.

Lemma remove_down :
  (forall p x, child_of p s -> L !! p = Some x -> R x m) -> down_inv (<[s := m]> L) s.
Proof.
  intros Hm. split; [|apply around_remove].
  intros p i x y Hc Hp. rewrite list_lookup_insert_ne by done. intros Hx.
  destruct (decide (i = s)) as [->|].
  - rewrite list_lookup_insert_eq by done. naive_solver.
  - rewrite list_lookup_insert_ne by done. intros. eapply heap_order_init; eauto.
Qed.

Lemma remove_up p x :
  child_of p s -> L !! p = Some x -> R m x -> up_inv (<[s := m]> L) s.
Proof.
  intros Hps Hx Hm. split; [|apply around_remove].
  intros q i a b Hc Hi. rewrite (list_lookup_insert_ne _ _ i) by done.
  destruct (decide (q = s)) as [->|].
  - rewrite list_lookup_insert_eq by done. intros [= <-] Hb.
    destruct (lookup_lt_is_Some_2 L s Hs) as [z Hz].
    trans x; [done|]. trans z; [eapply (heap_order_init p s)|eapply (heap_order_init s i)]; eauto.
  - rewrite list_lookup_insert_ne by done. intros. eapply heap_order_init; eauto.
Qed.
End remove.
End order.
