(* ===== verification/TimerHeap.v ===== *)
(** * The timer heap ([pjlib/src/pj/timer.c])

    The heap of the default configuration: [PJ_TIMER_USE_COPY] on,
    [PJ_TIMER_USE_LINKED_LIST] off, [PJ_TIMER_DEBUG] on.  The state is the
    [pj_timer_heap_t] record; a [pj_timer_entry_dup *] points into
    [timer_dups] and is the index it points at, a [pj_timer_entry *] is a key
    of the application's memory [entries].  A NULL slot of [heap] and an
    uninitialised element of [timer_dups] are [None], and following one is
    undefined behaviour, as is every access outside an array. *)
From S2P Require Import Prelude Interfaces TimeVal.

(** ** Data *)

Record pj_timer_entry := mk_entry {
  user_data : Z;
  id : Z;
  cb : Z;
  _timer_id : Z
}.

Record pj_timer_entry_dup := mk_dup {
  dup : pj_timer_entry;
  entry : Z;
  _timer_value : pj_time_val;
  _grp_lock : Z;
  src_file : Z;
  src_line : Z
}.

Record pj_timer_heap_t := mk_heap {
  max_size : Z;
  cur_size : Z;
  max_entries_per_poll : Z;
  lock : Z;
  auto_delete_lock : bool;
  heap : list (option Z);
  timer_ids : list Z;
  timer_dups : list (option pj_timer_entry_dup);
  timer_ids_freelist : Z;
  callback : Z
}.

(** Everything an operation reads or writes: the heap, the application's
    entries, the pool, the number of clock readings taken, the acquisitions
    of [ht->lock] outstanding, the reference counts of the group locks and
    the entries whose callback has run. *)
Record world (P : Type) := mk_world {
  ht : pj_timer_heap_t;
  entries : gmap Z pj_timer_entry;
  pool : P;
  ticks : nat;
  lock_depth : Z;
  grp_refs : gmap Z Z;
  fired : list Z
}.
Arguments mk_world {P} _ _ _ _ _ _ _.
Arguments ht {P} _.
Arguments entries {P} _.
Arguments pool {P} _.
Arguments ticks {P} _.
Arguments lock_depth {P} _.
Arguments grp_refs {P} _.
Arguments fired {P} _.

Definition set_entry_timer_id (e : pj_timer_entry) (i : Z) : pj_timer_entry :=
  mk_entry (user_data e) (id e) (cb e) i.
Definition set_entry_id (e : pj_timer_entry) (i : Z) : pj_timer_entry :=
  mk_entry (user_data e) i (cb e) (_timer_id e).
Definition set_dup (d : pj_timer_entry_dup) (e : pj_timer_entry) : pj_timer_entry_dup :=
  mk_dup e (entry d) (_timer_value d) (_grp_lock d) (src_file d) (src_line d).
Definition set_dup_grp_lock (d : pj_timer_entry_dup) (g : Z) : pj_timer_entry_dup :=
  mk_dup (dup d) (entry d) (_timer_value d) g (src_file d) (src_line d).

Definition set_slots (h : pj_timer_heap_t) (hp : list (option Z)) (ids : list Z) : pj_timer_heap_t :=
  mk_heap (max_size h) (cur_size h) (max_entries_per_poll h) (lock h) (auto_delete_lock h)
    hp ids (timer_dups h) (timer_ids_freelist h) (callback h).
Definition set_freelist (h : pj_timer_heap_t) (ids : list Z) (f : Z) : pj_timer_heap_t :=
  mk_heap (max_size h) (cur_size h) (max_entries_per_poll h) (lock h) (auto_delete_lock h)
    (heap h) ids (timer_dups h) f (callback h).
Definition set_cur_size (h : pj_timer_heap_t) (n : Z) : pj_timer_heap_t :=
  mk_heap (max_size h) n (max_entries_per_poll h) (lock h) (auto_delete_lock h)
    (heap h) (timer_ids h) (timer_dups h) (timer_ids_freelist h) (callback h).
Definition set_dups (h : pj_timer_heap_t) (ds : list (option pj_timer_entry_dup)) : pj_timer_heap_t :=
  mk_heap (max_size h) (cur_size h) (max_entries_per_poll h) (lock h) (auto_delete_lock h)
    (heap h) (timer_ids h) ds (timer_ids_freelist h) (callback h).
Definition set_lock_fields (h : pj_timer_heap_t) (l : Z) (a : bool) : pj_timer_heap_t :=
  mk_heap (max_size h) (cur_size h) (max_entries_per_poll h) l a
    (heap h) (timer_ids h) (timer_dups h) (timer_ids_freelist h) (callback h).

(** ** The heap array: slots, ids and the free list *)

Definition HEAP_PARENT (X : Z) : Z := if X =? 0 then 0 else (X - 1) / 2.
Definition HEAP_LEFT (X : Z) : Z := (X + X) + 1.

(** [ht->heap[slot]], a pointer that is about to be followed. *)
Definition heap_at (h : pj_timer_heap_t) (slot : Z) : option Z := mjoin (heap h).[slot].

(** [*p] for a pointer into [timer_dups]. *)
Definition node_at (h : pj_timer_heap_t) (p : Z) : option pj_timer_entry_dup :=
  mjoin (timer_dups h).[p].

Definition node_time (h : pj_timer_heap_t) (p : Z) : option pj_time_val :=
  _timer_value <$> node_at h p.

Definition slot_time (h : pj_timer_heap_t) (slot : Z) : option pj_time_val :=
  heap_at h slot ≫= node_time h.

Definition copy_node (h : pj_timer_heap_t) (slot moved_node : Z) : option pj_timer_heap_t :=
  hp ← (heap h).[slot <- Some moved_node];
  d ← node_at h moved_node;
  ids ← (timer_ids h).[_timer_id (dup d) <- i32 slot];
  Some (set_slots h hp ids).

Definition pop_freelist (h : pj_timer_heap_t) : option (Z * pj_timer_heap_t) :=
  let new_id := timer_ids_freelist h in
  next ← (timer_ids h).[timer_ids_freelist h];
  Some (new_id, set_freelist h (timer_ids h) (- next)).

Definition push_freelist (h : pj_timer_heap_t) (old_id : Z) : option pj_timer_heap_t :=
  ids ← (timer_ids h).[old_id <- - timer_ids_freelist h];
  Some (set_freelist h ids old_id).

Fixpoint reheap_down (fuel : nat) (h : pj_timer_heap_t) (moved_node slot child : Z)
    : option pj_timer_heap_t :=
  if child <? cur_size h then
    match fuel with
    | O => None
    | S fuel =>
        child ← (if child + 1 <? cur_size h then
                   t1 ← slot_time h (child + 1);
                   t0 ← slot_time h child;
                   Some (if PJ_TIME_VAL_LT t1 t0 then child + 1 else child)
                 else Some child);
        tc ← slot_time h child;
        tm ← node_time h moved_node;
        if PJ_TIME_VAL_LT tc tm then
          c ← heap_at h child;
          h ← copy_node h slot c;
          reheap_down fuel h moved_node child (HEAP_LEFT child)
        else copy_node h slot moved_node
    end
  else copy_node h slot moved_node.

Fixpoint reheap_up (fuel : nat) (h : pj_timer_heap_t) (moved_node slot parent : Z)
    : option pj_timer_heap_t :=
  if 0 <? slot then
    match fuel with
    | O => None
    | S fuel =>
        tm ← node_time h moved_node;
        tp ← slot_time h parent;
        if PJ_TIME_VAL_LT tm tp then
          p ← heap_at h parent;
          h ← copy_node h slot p;
          reheap_up fuel h moved_node parent (HEAP_PARENT parent)
        else copy_node h slot moved_node
    end
  else copy_node h slot moved_node.

(** The iterations of either loop move one level up or down; the number of
    slots bounds them. *)
Definition reheap_fuel (h : pj_timer_heap_t) : nat := Z.to_nat (cur_size h).

(** The part of [remove_node] that closes the gap at [slot]: the last node
    takes the place, and is moved down or up from there. *)
Definition refill_slot (h : pj_timer_heap_t) (slot : Z) : option pj_timer_heap_t :=
  if slot <? cur_size h then
    moved_node ← heap_at h (cur_size h);
    h ← copy_node h slot moved_node;
    let parent := HEAP_PARENT slot in
    tm ← node_time h moved_node;
    tp ← slot_time h parent;
    if PJ_TIME_VAL_GTE tm tp
    then reheap_down (reheap_fuel h) h moved_node slot (HEAP_LEFT slot)
    else reheap_up (reheap_fuel h) h moved_node slot parent
  else Some h.

(** ** The operations *)

Definition F_DONT_CALL : Z := 1.
Definition F_DONT_ASSERT : Z := 2.
Definition F_SET_ID : Z := 4.
Definition DEFAULT_MAX_TIMED_OUT_PER_POLL : Z := 64.
Definition PJ_MAXINT32 : Z := 2147483647.

(** Sizes of the allocations on the ILP32 target. *)
Definition SIZEOF_PTR : Z := 4.
Definition SIZEOF_TIMER_ID : Z := 4.
Definition SIZEOF_DUP : Z := 40.
Definition SIZEOF_TIMER_HEAP : Z := 44.

Section operations.

(** The pool the heap grows from, the value of the [n]-th reading of
    [pj_gettickcount] and the application's callback functions. *)
Context {P : Type} `{!PoolAllocator P}.
Variable gettickcount : nat -> pj_time_val.
Variable run_cb : Z -> Z -> world P -> option (world P).

Definition set_ht (w : world P) (h : pj_timer_heap_t) : world P :=
  mk_world h (entries w) (pool w) (ticks w) (lock_depth w) (grp_refs w) (fired w).
Definition set_entries (w : world P) (es : gmap Z pj_timer_entry) : world P :=
  mk_world (ht w) es (pool w) (ticks w) (lock_depth w) (grp_refs w) (fired w).
Definition set_pool (w : world P) (p : P) : world P :=
  mk_world (ht w) (entries w) p (ticks w) (lock_depth w) (grp_refs w) (fired w).
Definition set_depth (w : world P) (n : Z) : world P :=
  mk_world (ht w) (entries w) (pool w) (ticks w) n (grp_refs w) (fired w).
Definition set_refs (w : world P) (g : gmap Z Z) : world P :=
  mk_world (ht w) (entries w) (pool w) (ticks w) (lock_depth w) g (fired w).
Definition log_fired (w : world P) (e : Z) : world P :=
  mk_world (ht w) (entries w) (pool w) (ticks w) (lock_depth w) (grp_refs w) (fired w ++ [e]).

Definition read_clock (w : world P) : pj_time_val * world P :=
  (gettickcount (ticks w),
   mk_world (ht w) (entries w) (pool w) (S (ticks w)) (lock_depth w) (grp_refs w) (fired w)).

Definition lock_timer_heap (w : world P) : world P :=
  if lock (ht w) =? 0 then w else set_depth w (lock_depth w + 1).

Definition unlock_timer_heap (w : world P) : world P :=
  if lock (ht w) =? 0 then w else set_depth w (lock_depth w - 1).

(** [pj_grp_lock_add_ref] and [pj_grp_lock_dec_ref]: the count of a live
    group lock; the lock is gone when it reaches zero. *)
Definition grp_lock_add_ref (w : world P) (g : Z) : option (world P) :=
  n ← grp_refs w !! g;
  Some (set_refs w (<[g := n + 1]> (grp_refs w))).

Definition grp_lock_dec_ref (w : world P) (g : Z) : option (world P) :=
  n ← grp_refs w !! g;
  Some (set_refs w (if n - 1 =? 0 then delete g (grp_refs w)
                    else <[g := n - 1]> (grp_refs w))).

Definition remove_node (w : world P) (slot : Z) : option (Z * world P) :=
  let h := ht w in
  removed_node ← heap_at h slot;
  d ← node_at h removed_node;
  h ← push_freelist h (_timer_id (dup d));
  let h := set_cur_size h (cur_size h - 1) in
  e ← entries w !! entry d;
  let es := if _timer_id (dup d) =? _timer_id e
            then <[entry d := set_entry_timer_id e (-1)]> (entries w)
            else entries w in
  ds ← (timer_dups h).[removed_node <- Some (set_dup d (set_entry_timer_id (dup d) (-1)))];
  let h := set_dups h ds in
  h ← refill_slot h slot;
  Some (removed_node, set_entries (set_ht w h) es).

(** The status, and the heap with whatever has been replaced by then: a
    failure half way keeps the new [heap] and [timer_dups] arrays. *)
Definition grow_heap (w : world P) : option (Z * world P) :=
  let h := ht w in
  let new_size := u32 (max_size h * 2) in
  let '(new_heap, p1) := pool_calloc (pool w) (u32 new_size) SIZEOF_PTR in
  match new_heap with
  | None => Some (PJ_ENOMEM, set_pool w p1)
  | Some _ =>
      let '(new_timer_dups, p2) := pool_alloc p1 (u32 (SIZEOF_DUP * new_size)) in
      match new_timer_dups with
      | None => Some (PJ_ENOMEM, set_pool w p2)
      | Some _ =>
          slots ← mapM (heap_at h) (seqZ 0 (cur_size h));
          let hp := map Some slots ++
                    replicate (Z.to_nat (new_size - cur_size h)) None in
          let ds := take (Z.to_nat (max_size h)) (timer_dups h) ++
                    replicate (Z.to_nat (new_size - max_size h)) None in
          let h := set_slots (set_dups h ds) hp (timer_ids h) in
          let '(new_timer_ids, p3) := pool_alloc p2 (u32 (new_size * SIZEOF_TIMER_ID)) in
          match new_timer_ids with
          | None => Some (PJ_ENOMEM, set_pool (set_ht w h) p3)
          | Some _ =>
              let ids := take (Z.to_nat (max_size h)) (timer_ids h) ++
                map (fun i => - i32 (i + 1)) (seqZ (max_size h) (new_size - max_size h)) in
              Some (PJ_SUCCESS, set_pool (set_ht w
                (mk_heap new_size (cur_size h) (max_entries_per_poll h) (lock h)
                   (auto_delete_lock h) (heap h) ids (timer_dups h)
                   (timer_ids_freelist h) (callback h))) p3)
          end
      end
  end.

Definition insert_node (w : world P) (new_node : Z) (future_time : pj_time_val)
    : option (Z * world P) :=
  '(status, w) ← (if max_size (ht w) <=? cur_size (ht w) + 2
                  then grow_heap w else Some (PJ_SUCCESS, w));
  if negb (status =? PJ_SUCCESS) then Some (status, w) else
  e ← entries w !! new_node;
  let timer_copy := _timer_id e in
  ds ← (timer_dups (ht w)).[timer_copy <- Some (mk_dup e new_node future_time 0 0 0)];
  let h := set_dups (ht w) ds in
  h ← reheap_up (reheap_fuel h) h timer_copy (cur_size h) (HEAP_PARENT (cur_size h));
  Some (PJ_SUCCESS, set_ht w (set_cur_size h (cur_size h + 1))).

Definition schedule_entry (w : world P) (ent : Z) (future_time : pj_time_val)
    : option (Z * world P) :=
  if cur_size (ht w) <? max_size (ht w) then
    '(new_id, h) ← pop_freelist (ht w);
    e ← entries w !! ent;
    let w := set_entries (set_ht w h) (<[ent := set_entry_timer_id e new_id]> (entries w)) in
    insert_node w ent future_time
  else Some (-1, w).

Definition cancel (w : world P) (ent flags : Z) : option (Z * world P) :=
  e ← entries w !! ent;
  timer_node_slot ← (timer_ids (ht w)).[_timer_id e];
  let forget := set_entries w (<[ent := set_entry_timer_id e (-1)]> (entries w)) in
  if timer_node_slot <? 0 then Some (0, forget) else
  p ← heap_at (ht w) timer_node_slot;
  d ← node_at (ht w) p;
  if negb (ent =? entry d) then Some (0, forget) else
  '(_, w) ← remove_node w timer_node_slot;
  w ← (if Z.land flags F_DONT_CALL =? 0 then
         if callback (ht w) =? 0 then None else run_cb (callback (ht w)) ent w
       else Some w);
  Some (1, w).

Definition pj_timer_heap_mem_size (count : Z) : Z :=
  u32 (SIZEOF_TIMER_HEAP + (count + 2) * (SIZEOF_PTR + SIZEOF_TIMER_ID + SIZEOF_DUP) + 132).

(** [pj_timer_heap_create]: the status and the heap, [None] for a NULL
    [*p_heap]. *)
Definition pj_timer_heap_create (p : P) (size : Z) : Z * option pj_timer_heap_t * P :=
  let size := u32 (size + 2) in
  let '(a, p) := pool_calloc p 1 SIZEOF_TIMER_HEAP in
  match a with None => (PJ_ENOMEM, None, p) | Some _ =>
  let '(a, p) := pool_calloc p size SIZEOF_PTR in
  match a with None => (PJ_ENOMEM, None, p) | Some _ =>
  let '(a, p) := pool_alloc p (u32 (SIZEOF_DUP * size)) in
  match a with None => (PJ_ENOMEM, None, p) | Some _ =>
  let '(a, p) := pool_alloc p (u32 (SIZEOF_TIMER_ID * size)) in
  match a with None => (PJ_ENOMEM, None, p) | Some _ =>
  (PJ_SUCCESS,
   Some (mk_heap size 0 DEFAULT_MAX_TIMED_OUT_PER_POLL 0 false
           (replicate (Z.to_nat size) None)
           (map (fun i => - i32 (i + 1)) (seqZ 0 size))
           (replicate (Z.to_nat size) None) 1 0), p)
  end end end end.

(** The lock to destroy ([pj_lock_destroy]), if any, and the heap after. *)
Definition pj_timer_heap_destroy (h : pj_timer_heap_t) : option Z * pj_timer_heap_t :=
  if negb (lock h =? 0) && auto_delete_lock h
  then (Some (lock h), set_lock_fields h 0 (auto_delete_lock h))
  else (None, h).

Definition pj_timer_heap_set_lock (h : pj_timer_heap_t) (l : Z) (auto_del : bool)
    : option Z * pj_timer_heap_t :=
  (if negb (lock h =? 0) && auto_delete_lock h then Some (lock h) else None,
   set_lock_fields h l auto_del).

Definition pj_timer_heap_set_max_timed_out_per_poll (h : pj_timer_heap_t) (count : Z)
    : Z * pj_timer_heap_t :=
  (max_entries_per_poll h,
   mk_heap (max_size h) (cur_size h) count (lock h) (auto_delete_lock h)
     (heap h) (timer_ids h) (timer_dups h) (timer_ids_freelist h) (callback h)).

Definition pj_timer_entry_init (i ud c : Z) : pj_timer_entry := mk_entry ud i c (-1).

Definition pj_timer_entry_running (e : pj_timer_entry) : bool := 1 <=? _timer_id e.

Definition schedule_w_grp_lock_dbg (w : world P) (ent : Z) (delay : pj_time_val)
    (set_id : bool) (id_val grp_lock sfile sline : Z) : option (Z * world P) :=
  if ent =? 0 then Some (PJ_EINVAL, w) else
  e ← entries w !! ent;
  if cb e =? 0 then Some (PJ_EINVAL, w) else
  let '(now, w) := read_clock w in
  expires ← PJ_TIME_VAL_ADD now delay;
  let w := lock_timer_heap w in
  if pj_timer_entry_running e then Some (PJ_EINVALIDOP, unlock_timer_heap w) else
  '(status, w) ← schedule_entry w ent expires;
  w ← (if status =? PJ_SUCCESS then
         e ← entries w !! ent;
         d ← node_at (ht w) (_timer_id e);
         let e' := if set_id then set_entry_id e id_val else e in
         let d' := mk_dup (if set_id then set_entry_id (dup d) id_val else dup d)
                     (entry d) (_timer_value d) grp_lock sfile sline in
         ds ← (timer_dups (ht w)).[_timer_id e <- Some d'];
         let w := set_entries (set_ht w (set_dups (ht w) ds)) (<[ent := e']> (entries w)) in
         if grp_lock =? 0 then Some w else grp_lock_add_ref w grp_lock
       else Some w);
  Some (status, unlock_timer_heap w).

Definition pj_timer_heap_schedule_dbg (w : world P) (ent : Z) (delay : pj_time_val)
    (sfile sline : Z) : option (Z * world P) :=
  schedule_w_grp_lock_dbg w ent delay false 1 0 sfile sline.

Definition pj_timer_heap_schedule_w_grp_lock_dbg (w : world P) (ent : Z) (delay : pj_time_val)
    (id_val grp_lock sfile sline : Z) : option (Z * world P) :=
  schedule_w_grp_lock_dbg w ent delay true id_val grp_lock sfile sline.

(** The group lock is read from the element of the id, which has not been
    initialised when the id has never been used; it is looked at only when the
    entry was in the heap. *)
Definition cancel_timer (w : world P) (ent flags id_val : Z) : option (Z * world P) :=
  if ent =? 0 then Some (PJ_EINVAL, w) else
  let w := lock_timer_heap w in
  e ← entries w !! ent;
  if (_timer_id e <? 1) || (max_size (ht w) <=? _timer_id e)
  then Some (0, unlock_timer_heap w) else
  timer_copy ← (timer_dups (ht w)).[_timer_id e];
  let grp_lock := from_option _grp_lock 0 timer_copy in
  '(count, w) ← cancel w ent (Z.lor flags F_DONT_CALL);
  w ← (if 0 <? count then
         w ← (if Z.land flags F_SET_ID =? 0 then Some w else
                e ← entries w !! ent;
                Some (set_entries w (<[ent := set_entry_id e id_val]> (entries w))));
         if grp_lock =? 0 then Some w else grp_lock_dec_ref w grp_lock
       else Some w);
  Some (count, unlock_timer_heap w).

Definition pj_timer_heap_cancel (w : world P) (ent : Z) : option (Z * world P) :=
  cancel_timer w ent 0 0.

Definition pj_timer_heap_cancel_if_active (w : world P) (ent id_val : Z) : option (Z * world P) :=
  cancel_timer w ent (Z.lor F_SET_ID F_DONT_ASSERT) id_val.

(** The body of the [while] loop of [pj_timer_heap_poll] up to the second
    [lock_timer_heap]: the first entry is removed and its callback runs with
    the heap unlocked. *)
Definition poll_entry (w : world P) : option (world P) :=
  '(node, w) ← remove_node w 0;
  d ← node_at (ht w) node;
  let ent := entry d in
  let grp_lock := _grp_lock d in
  ds ← (timer_dups (ht w)).[node <- Some (set_dup_grp_lock d 0)];
  let w := set_ht w (set_dups (ht w) ds) in
  e ← entries w !! ent;
  let valid := (cb (dup d) =? cb e) && (user_data (dup d) =? user_data e) in
  let w := unlock_timer_heap w in
  w ← (if valid && negb (cb e =? 0) then run_cb (cb e) ent (log_fired w ent) else Some w);
  w ← (if valid && negb (grp_lock =? 0) then grp_lock_dec_ref w grp_lock else Some w);
  Some (lock_timer_heap w).

(** The loop: the number of entries handled, the last clock reading and the
    state when it stops. *)
Fixpoint poll_loop (fuel : nat) (w : world P) (count : Z) (now min_time_node : pj_time_val)
    : option (Z * pj_time_val * world P) :=
  if negb (cur_size (ht w) =? 0) && PJ_TIME_VAL_LTE min_time_node now &&
     (count <? max_entries_per_poll (ht w)) then
    match fuel with
    | O => None
    | S fuel =>
        let count := u32 (count + 1) in
        w ← poll_entry w;
        if negb (cur_size (ht w) =? 0) then
          min_time_node ← slot_time (ht w) 0;
          let '(now, w) := read_clock w in
          poll_loop fuel w count now min_time_node
        else poll_loop fuel w count now min_time_node
    end
  else Some (count, now, w).

(** The end of [pj_timer_heap_poll]: the value written to [next_delay] after
    [count] entries; [want_delay] says whether [next_delay] is not NULL. *)
Definition poll_next_delay (w : world P) (count : Z) (now : pj_time_val) (want_delay : bool)
    : option (option pj_time_val * world P) :=
  if negb (cur_size (ht w) =? 0) && want_delay then
    t ← slot_time (ht w) 0;
    let '(now, w) := if 0 <? count then read_clock w else (now, w) in
    delay ← PJ_TIME_VAL_SUB t now;
    Some (Some (if (sec delay <? 0) || (msec delay <? 0)
                then mk_time_val 0 0 else delay), w)
  else if want_delay then Some (Some (mk_time_val PJ_MAXINT32 PJ_MAXINT32), w)
  else Some (None, w).

Definition pj_timer_heap_poll (w : world P) (want_delay : bool)
    : option (Z * option pj_time_val * world P) :=
  let w := lock_timer_heap w in
  if (cur_size (ht w) =? 0) && want_delay then
    Some (0, Some (mk_time_val PJ_MAXINT32 PJ_MAXINT32), unlock_timer_heap w)
  else
    let '(now, w) := read_clock w in
    min_time_node ← (if negb (cur_size (ht w) =? 0) then slot_time (ht w) 0
                     else Some (mk_time_val 0 0));
    '(count, now, w) ← poll_loop (Z.to_nat (max_entries_per_poll (ht w))) w 0 now min_time_node;
    '(next_delay, w) ← poll_next_delay w count now want_delay;
    Some (count, next_delay, unlock_timer_heap w).

Definition pj_timer_heap_count (w : world P) : Z * world P :=
  let w := lock_timer_heap w in
  let count := cur_size (ht w) in
  (count, unlock_timer_heap w).

Definition pj_timer_heap_earliest_time (w : world P)
    : option (Z * option pj_time_val * world P) :=
  let w := lock_timer_heap w in
  if cur_size (ht w) =? 0 then Some (PJ_ENOTFOUND, None, unlock_timer_heap w)
  else t ← slot_time (ht w) 0; Some (PJ_SUCCESS, Some t, unlock_timer_heap w).

End operations.
