(* ===== verification/TimerHeapProofs.v ===== *)
(** * Correctness of the timer heap

    The representation invariant of [TimerHeap] (slots, ids, free list and
    heap order agree), the behaviour of every operation on it, and the
    refinement of a finite map from the scheduled entries to their expiry. *)
From S2P Require Import Prelude Interfaces TimeVal HeapOrder TimerHeap.

(** ** The invariant of the arrays *)

Definition time_of (h : pj_timer_heap_t) (x : Z) : pj_time_val :=
  default (mk_time_val 0 0) (node_time h x).

(** The order of the heap: by expiry. *)
Definition expires_before (h : pj_timer_heap_t) (x y : Z) : Prop :=
  time_le (time_of h x) (time_of h y).

#[export] Instance expires_before_preorder h : PreOrder (expires_before h).
Proof.
  split; unfold expires_before; [intros ?; done|]. intros x y z ??. by trans (time_of h y).
Qed.

(** The first [length V] slots hold [V], but for slot [s], where the array may
    still hold something else; [s = length V] says there is no such slot. *)
Record rep (h : pj_timer_heap_t) (V : list Z) (s : nat) : Prop := {
  rep_slot i x : V !! i = Some x -> i <> s ->
    (heap h).[Z.of_nat i] = Some (Some x) /\ (timer_ids h).[x] = Some (Z.of_nat i);
  rep_node x : x ∈ V -> exists d, node_at h x = Some d /\ _timer_id (dup d) = x;
  rep_nodup : NoDup V;
  rep_ids x : x ∈ V -> 0 <= x < Z.of_nat (length (timer_ids h));
  rep_room : (length V <= length (heap h))%nat;
  rep_small : Z.of_nat (length V) <= INT_MAX
}.

(** What sifting leaves alone. *)
Definition slots_only (h h' : pj_timer_heap_t) (V : list Z) : Prop :=
  exists hp ids, h' = set_slots h hp ids /\ length hp = length (heap h) /\
    length ids = length (timer_ids h) /\
    forall x, x ∉ V -> ids.[x] = (timer_ids h).[x].

Lemma slots_only_refl h V : slots_only h h V.
Proof. exists (heap h), (timer_ids h). by destruct h. Qed.

Lemma slots_only_trans h1 h2 h3 V W :
  slots_only h1 h2 V -> slots_only h2 h3 W -> (forall x, x ∈ W -> x ∈ V) -> slots_only h1 h3 V.
Proof.
  intros (hp1 & i1 & -> & ? & ? & H1) (hp2 & i2 & -> & ? & ? & H2) HW.
  exists hp2, i2. simpl in *. split_and!; [done|congruence..|].
  intros x Hx. rewrite H2 by eauto. eauto.
Qed.

Lemma rep_weaken h V s : rep h V (length V) -> rep h V s.
Proof.
  intros [H1 H2 H3 H4 H5 H6]. split; try done.
  intros i x Hx _. apply H1; [done|]. apply lookup_lt_Some in Hx. lia.
Qed.

Lemma rep_slot_time h V s i x :
  rep h V s -> V !! i = Some x -> i <> s -> slot_time h (Z.of_nat i) = Some (time_of h x).
Proof.
  intros Hr Hx Hi. destruct (rep_slot _ _ _ Hr i x Hx Hi) as [Hs _].
  destruct (rep_node _ _ _ Hr x) as (d & Hd & _); [by eapply list_elem_of_lookup_2|].
  unfold slot_time, heap_at, time_of, node_time. rewrite Hs. simpl. by rewrite Hd.
Qed.

Lemma rep_node_time h V s x : rep h V s -> x ∈ V -> node_time h x = Some (time_of h x).
Proof.
  intros Hr Hx. destruct (rep_node _ _ _ Hr x Hx) as (d & Hd & _).
  unfold time_of, node_time. by rewrite Hd.
Qed.

(** [copy_node] into the open slot: the slot it copies from, if another, is
    the open one afterwards. *)
Lemma copy_node_rep h V s j c :
  rep h V s -> (s < length V)%nat -> V !! j = Some c ->
  exists h', copy_node h (Z.of_nat s) c = Some h' /\ slots_only h h' V /\
    rep h' (swapl V s j) (if decide (j = s) then length V else j).
Proof.
  intros Hr Hs Hj. destruct Hr as [H1 H2 H3 H4 H5 H6].
  assert (Hc : c ∈ V) by (by eapply list_elem_of_lookup_2).
  destruct (H2 c Hc) as (d & Hd & Ht). pose proof (H4 c Hc).
  assert (Hjl : (j < length V)%nat) by (by eapply lookup_lt_Some).
  unfold copy_node. rewrite arr_set_in by lia. simpl. rewrite Hd. simpl. rewrite Ht.
  rewrite arr_set_in by lia. simpl.
  rewrite i32_small by (unfold INT_MAX in *; lia).
  eexists. split; [done|]. split.
  { eexists _, _. split; [done|]. rewrite !length_insert. split_and!; [done..|].
    intros x Hx. apply arr_get_insert_ne; [lia|]. intros ->. done. }
  split; simpl; rewrite ?length_insert, ?length_swapl; try done.
  - intros i x. rewrite lookup_swapl by done. intros Hx Hi.
    destruct (decide (i = s)) as [->|].
    { simplify_eq. split; apply arr_get_insert_eq; lia. }
    destruct (decide (i = j)) as [->|]; [by rewrite decide_False in Hi by done|].
    destruct (H1 i x Hx) as [Ha Hb]; [done|].
    assert (x <> c). { intros ->. eapply NoDup_lookup in H3; [|exact Hx|exact Hj]. done. }
    rewrite !arr_get_insert_ne by lia. done.
  - intros x. rewrite elem_of_swapl by done. apply H2.
  - by apply NoDup_swapl.
  - intros x. rewrite elem_of_swapl by done. apply H4.
Qed.

Lemma swapl_same {X} (V : list X) s : swapl V s s = V.
Proof.
  unfold swapl. destruct (V !! s) eqn:E; [|done]. by rewrite !(list_insert_id _ _ _ E).
Qed.

Lemma copy_node_fill h V s m :
  rep h V s -> V !! s = Some m ->
  exists h', copy_node h (Z.of_nat s) m = Some h' /\ slots_only h h' V /\ rep h' V (length V).
Proof.
  intros Hr Hm. destruct (copy_node_rep h V s s m Hr) as (h' & ? & ? & H).
  { by eapply lookup_lt_Some. } { done. }
  rewrite swapl_same, decide_True in H by done. eauto.
Qed.

(** What a sift promises: the same nodes, in heap order, all slots filled. *)
Definition sifted (h h' : pj_timer_heap_t) (V V' : list Z) : Prop :=
  slots_only h h' V /\ rep h' V' (length V') /\
  heap_order (expires_before h) V' /\ V' ≡ₚ V.

Lemma sifted_step h h1 h' V V1 V' :
  slots_only h h1 V -> V1 ≡ₚ V -> sifted h1 h' V1 V' -> sifted h h' V V'.
Proof.
  intros Hs HP (H1 & H2 & H3 & H4).
  destruct Hs as (hp & ids & -> & Hl1 & Hl2 & Hx).
  split_and!; [|done..|by rewrite H4].
  eapply slots_only_trans; [|exact H1|].
  - exists hp, ids. done.
  - intros x. by rewrite HP.
Qed.

Lemma swapl_perm {X} (V : list X) i j :
  (i < length V)%nat -> (j < length V)%nat -> NoDup V -> swapl V i j ≡ₚ V.
Proof.
  intros. apply NoDup_Permutation; [by apply NoDup_swapl|done|].
  intros. by apply elem_of_swapl.
Qed.

Lemma HEAP_PARENT_child (s : nat) :
  (0 < s)%nat -> exists p, HEAP_PARENT (Z.of_nat s) = Z.of_nat p /\ child_of p s /\ (p < s)%nat.
Proof.
  intros. exists ((s - 1) / 2)%nat. unfold HEAP_PARENT, child_of.
  destruct (Z.eqb_spec (Z.of_nat s) 0); [lia|].
  rewrite Nat2Z.inj_div, Nat2Z.inj_sub by lia. split; [f_equal; lia|].
  pose proof (Nat.div_mod_eq (s - 1) 2). pose proof (Nat.mod_upper_bound (s - 1) 2). lia.
Qed.

Lemma reheap_up_spec fuel h V s m :
  rep h V s -> V !! s = Some m -> (s <= fuel)%nat -> up_inv (expires_before h) V s ->
  exists h' V', reheap_up fuel h m (Z.of_nat s) (HEAP_PARENT (Z.of_nat s)) = Some h' /\
    sifted h h' V V'.
Proof.
  revert h V s. induction fuel as [|fuel IH]; intros h V s Hr Hm Hf Hup.
  all: destruct (copy_node_fill h V s m Hr Hm) as (hf & Hfill & Hso & Hrf).
  { assert (s = 0)%nat as -> by lia. simpl.
    exists hf, V. split; [done|]. split_and!; [done..| |done].
    eapply up_done; [done|]. intros p ? ? ?. unfold child_of in *. lia. }
  simpl. destruct (Z.ltb_spec 0 (Z.of_nat s)).
  2: { exists hf, V. split; [done|]. split_and!; [done..| |done].
       eapply up_done; [done|]. intros p ? ? ?. unfold child_of in *. lia. }
  destruct (HEAP_PARENT_child s) as (p & -> & Hp & Hlt); [lia|].
  pose proof (lookup_lt_Some _ _ _ Hm).
  destruct (lookup_lt_is_Some_2 V p) as [x Hx]; [lia|].
  rewrite (rep_node_time h V s m) by (done || by eapply list_elem_of_lookup_2). simpl.
  rewrite (rep_slot_time h V s p x) by (done || lia). simpl.
  destruct (PJ_TIME_VAL_LT _ _) eqn:E.
  - apply time_val_lt_spec in E.
    destruct (rep_slot _ _ _ Hr p x Hx) as [Hh _]; [lia|].
    unfold heap_at. rewrite Hh. simpl.
    destruct (copy_node_rep h V s p x Hr) as (h1 & -> & Hs1 & Hr1); [done..|]. simpl.
    rewrite decide_False in Hr1 by lia.
    destruct (IH h1 (swapl V s p) p) as (h' & V' & ? & Hsift).
    + done.
    + rewrite lookup_swapl by lia. rewrite decide_False, decide_True by lia. done.
    + lia.
    + destruct Hs1 as (? & ? & -> & _). eapply (up_step _ V s p x m); try done.
      by apply not_time_le.
    + exists h', V'. split; [done|].
      apply (sifted_step h h1 h' V (swapl V s p)); [done| |done].
      apply swapl_perm; [lia|lia|apply Hr].
  - exists hf, V. split; [done|]. split_and!; [done..| |done].
    eapply up_done; [done|]. intros q a b Hq Ha Hb.
    assert (q = p) as -> by (unfold child_of in *; lia). simplify_eq.
    by apply time_val_lt_false in E.
Qed.

(** The choice of the smaller child in [reheap_down]. *)
Lemma smaller_child h V s :
  rep h V s -> (2 * s + 1 < length V)%nat -> cur_size h = Z.of_nat (length V) ->
  exists c x, child_of s c /\ V !! c = Some x /\
    (forall i y, child_of s i -> V !! i = Some y -> expires_before h x y) /\
    (if Z.of_nat s + Z.of_nat s + 1 + 1 <? Z.of_nat (length V) then
       t1 ← slot_time h (Z.of_nat s + Z.of_nat s + 1 + 1);
       t0 ← slot_time h (Z.of_nat s + Z.of_nat s + 1);
       Some (if PJ_TIME_VAL_LT t1 t0 then Z.of_nat s + Z.of_nat s + 1 + 1
             else Z.of_nat s + Z.of_nat s + 1)
     else Some (Z.of_nat s + Z.of_nat s + 1)) = Some (Z.of_nat c).
Proof.
  intros Hr Hl Hn.
  destruct (lookup_lt_is_Some_2 V (2 * s + 1)) as [x0 Hx0]; [lia|].
  replace (Z.of_nat s + Z.of_nat s + 1) with (Z.of_nat (2 * s + 1)) by lia.
  replace (Z.of_nat (2 * s + 1) + 1) with (Z.of_nat (2 * s + 2)) by lia.
  destruct (Z.ltb_spec (Z.of_nat (2 * s + 2)) (Z.of_nat (length V))).
  - destruct (lookup_lt_is_Some_2 V (2 * s + 2)) as [x1 Hx1]; [lia|].
    rewrite (rep_slot_time h V s (2 * s + 2) x1), (rep_slot_time h V s (2 * s + 1) x0) by (done || lia). simpl.
    destruct (PJ_TIME_VAL_LT _ _) eqn:E; [exists (2 * s + 2)%nat, x1|exists (2 * s + 1)%nat, x0].
    1: apply time_val_lt_spec, not_time_le in E.
    2: apply time_val_lt_false in E.
    all: split_and!; [unfold child_of; lia|done| |done].
    all: intros i y [-> | ->] Hy; simplify_eq; done.
  - exists (2 * s + 1)%nat, x0. split_and!; [unfold child_of; lia|done| |done].
    intros i y [-> | ->] Hy; simplify_eq; [done|]. apply lookup_lt_Some in Hy. lia.
Qed.

Lemma reheap_down_spec fuel h V s m :
  rep h V s -> V !! s = Some m -> cur_size h = Z.of_nat (length V) ->
  (length V <= s + fuel)%nat -> down_inv (expires_before h) V s ->
  exists h' V', reheap_down fuel h m (Z.of_nat s) (HEAP_LEFT (Z.of_nat s)) = Some h' /\
    sifted h h' V V'.
Proof.
  revert h V s. induction fuel as [|fuel IH]; intros h V s Hr Hm Hn Hf Hdn.
  all: destruct (copy_node_fill h V s m Hr Hm) as (hf & Hfill & Hso & Hrf).
  all: pose proof (lookup_lt_Some _ _ _ Hm).
  { lia. }
  simpl. unfold HEAP_LEFT. rewrite Hn.
  assert (Hstop : (forall i x y, child_of s i -> V !! s = Some x -> V !! i = Some y ->
                    expires_before h x y) -> sifted h hf V V).
  { intros Hch. split_and!; [done..| |done]. by eapply down_done. }
  destruct (Z.ltb_spec (Z.of_nat s + Z.of_nat s + 1) (Z.of_nat (length V))).
  2: { exists hf, V. split; [done|]. apply Hstop. intros i ? y Hc _ Hy.
       apply lookup_lt_Some in Hy. unfold child_of in *. lia. }
  destruct (smaller_child h V s Hr) as (c & x & Hc & Hx & Hmin & Heq); [lia|done|].
  rewrite Heq. simpl.
  assert (c <> s) by (unfold child_of in *; lia).
  rewrite (rep_slot_time h V s c x) by done. simpl.
  rewrite (rep_node_time h V s m) by (done || by eapply list_elem_of_lookup_2). simpl.
  destruct (PJ_TIME_VAL_LT _ _) eqn:E.
  - apply time_val_lt_spec in E.
    destruct (rep_slot _ _ _ Hr c x Hx) as [Hh _]; [done|].
    unfold heap_at. rewrite Hh. simpl.
    destruct (copy_node_rep h V s c x Hr) as (h1 & -> & Hs1 & Hr1); [done..|]. simpl.
    rewrite decide_False in Hr1 by done.
    pose proof (lookup_lt_Some _ _ _ Hx).
    destruct (IH h1 (swapl V s c) c) as (h' & V' & ? & Hsift); rewrite ?length_swapl.
    + done.
    + rewrite lookup_swapl by lia. rewrite decide_False, decide_True by lia. done.
    + destruct Hs1 as (? & ? & -> & _). done.
    + unfold child_of in *. lia.
    + destruct Hs1 as (? & ? & -> & _). eapply (down_step _ V s c x m); try done.
      by apply not_time_le.
    + exists h', V'. split; [done|].
      apply (sifted_step h h1 h' V (swapl V s c)); [done| |done].
      apply swapl_perm; [lia|lia|apply Hr].
  - exists hf, V. split; [done|]. apply Hstop. intros i a b Hi Ha Hb. simplify_eq.
    apply time_val_lt_false in E. trans x; [done|]. by eapply Hmin.
Qed.

(** ** The free list and the invariant of the heap *)

(** [F] is the chain of free ids from [f] to the terminator [e]: each element
    of [timer_ids] on it holds the negated next one. *)
Fixpoint free_chain (ids : list Z) (f : Z) (F : list Z) (e : Z) : Prop :=
  match F with
  | [] => f = e
  | x :: F' => f = x /\ exists n, ids.[x] = Some (- n) /\ free_chain ids n F' e
  end.

Lemma free_chain_frame ids ids' f F e :
  (forall x, x ∈ F -> ids'.[x] = ids.[x]) -> free_chain ids f F e -> free_chain ids' f F e.
Proof.
  revert f. induction F as [|x F IH]; intros f Hx; simpl; [done|].
  intros [-> (n & Hn & Hc)]. split; [done|]. exists n. split.
  - rewrite Hx; [done|]. by left.
  - apply IH; [|done]. intros. apply Hx. by right.
Qed.

Record arrays_ok (h : pj_timer_heap_t) (L F : list Z) : Prop := {
  hr_rep : rep h L (length L);
  hr_order : heap_order (expires_before h) L;
  hr_cur : cur_size h = Z.of_nat (length L);
  hr_ids : Z.of_nat (length (timer_ids h)) = max_size h;
  hr_slots : max_size h <= Z.of_nat (length (heap h));
  hr_dups : max_size h <= Z.of_nat (length (timer_dups h));
  hr_active x : x ∈ L -> 1 <= x;
  hr_chain : free_chain (timer_ids h) (timer_ids_freelist h) F (max_size h);
  hr_free x : x ∈ F -> 1 <= x < max_size h;
  hr_nodup : NoDup (L ++ F);
  hr_count : Z.of_nat (length L + length F) <= max_size h - 1;
  hr_small : max_size h <= INT_MAX
}.

(** Every id but 0 is in use or free, and there is always a free one. *)
Record heap_rep (h : pj_timer_heap_t) (L F : list Z) : Prop := {
  hr_arrays : arrays_ok h L F;
  hr_total : Z.of_nat (length L + length F) = max_size h - 1;
  hr_spare : cur_size h + 2 <= max_size h
}.

(** The fields no operation on the contents touches. *)
Record same_config (h h' : pj_timer_heap_t) : Prop := {
  sc_poll : max_entries_per_poll h' = max_entries_per_poll h;
  sc_lock : lock h' = lock h;
  sc_auto : auto_delete_lock h' = auto_delete_lock h;
  sc_callback : callback h' = callback h
}.

Lemma same_config_refl h : same_config h h.
Proof. by split. Qed.

Lemma same_config_trans h1 h2 h3 :
  same_config h1 h2 -> same_config h2 h3 -> same_config h1 h3.
Proof. intros [] []. split; congruence. Qed.
#[export] Hint Resolve same_config_refl : pj core.

Lemma hr_range h L F x : arrays_ok h L F -> x ∈ L -> 1 <= x < max_size h.
Proof.
  intros H Hx. pose proof (hr_active _ _ _ H x Hx).
  pose proof (rep_ids _ _ _ (hr_rep _ _ _ H) x Hx). rewrite (hr_ids _ _ _ H) in *. lia.
Qed.

Lemma node_at_set_dups h ds x d p :
  (timer_dups h).[p <- d] = Some ds ->
  node_at (set_dups h ds) x = if decide (x = p) then d else node_at h x.
Proof.
  intros [Hp ->]%arr_set_Some. unfold node_at. simpl. case_decide; subst.
  - by rewrite arr_get_insert_eq.
  - by rewrite arr_get_insert_ne by lia.
Qed.

Lemma heap_order_ext {X} (R R' : relation X) L :
  (forall x y, x ∈ L -> y ∈ L -> R x y -> R' x y) -> heap_order R L -> heap_order R' L.
Proof.
  intros HR HL p i x y ???. apply HR; [by eapply list_elem_of_lookup_2..|]. by eapply HL.
Qed.

(** Taking the element at [s] out of [L ++ [m]]: the last one replaces it. *)
Lemma take_out_perm {X} (L : list X) m s x :
  (L ++ [m]) !! s = Some x -> L ++ [m] ≡ₚ x :: <[s := m]> L.
Proof.
  intros Hs. destruct (decide (s < length L)%nat).
  - rewrite lookup_app_l in Hs by done. rewrite insert_take_drop by done.
    rewrite <-(take_drop_middle L s x Hs) at 1. solve_Permutation.
  - apply lookup_lt_Some in Hs as Hl. rewrite length_app in Hl. simpl in Hl.
    assert (s = length L) as -> by lia. rewrite lookup_app_r, Nat.sub_diag in Hs by lia. simplify_eq/=.
    rewrite list_insert_ge by lia. solve_Permutation.
Qed.

(** The arrays while a node is being taken out: the last slot is given up and
    the id [x] of the removed node is on the free list. *)
Lemma rep_take_out h L m s x ds ids d :
  rep h (L ++ [m]) (length (L ++ [m])) -> (L ++ [m]) !! s = Some x ->
  (timer_dups h).[x <- Some d] = Some ds ->
  ids = <[Z.to_nat x := - timer_ids_freelist h]> (timer_ids h) ->
  rep (set_dups (set_cur_size (set_freelist h ids x) (Z.of_nat (length L))) ds) (<[s := m]> L) s.
Proof.
  intros [H1 H2 H3 H4 H5 H6] Hs Hds ->.
  pose proof (take_out_perm L m s x Hs) as HP. rewrite HP in H3.
  apply NoDup_cons in H3 as [Hx H3].
  assert (Hin : forall y, y ∈ <[s := m]> L -> y ∈ (L ++ [m]) /\ y <> x).
  { intros y Hy. rewrite HP. split; [by right|]. by intros ->. }
  pose proof (H4 x (list_elem_of_lookup_2 _ _ _ Hs)).
  rewrite length_app in *. simpl in *. split; simpl; rewrite ?length_insert; try done; try lia.
  - intros i y Hy Hi. destruct (Hin y) as [_ Hne]; [by eapply list_elem_of_lookup_2|].
    rewrite list_lookup_insert_ne in Hy by done.
    destruct (H1 i y) as [Ha Hb].
    { by apply lookup_app_l_Some. } { apply lookup_lt_Some in Hy. lia. }
    split; [done|]. rewrite arr_get_insert_ne; [done|lia|congruence].
  - intros y [Hy Hne]%Hin. destruct (H2 y Hy) as (d' & Hd & Ht).
    exists d'. split; [|done]. rewrite (node_at_set_dups _ _ _ (Some d) x) by done.
    by rewrite decide_False.
  - intros y [Hy _]%Hin. by apply H4.
Qed.

(** The last node [m] takes the place of the removed one and sinks or rises
    to where it belongs. *)
Lemma refill_spec h L m s :
  rep h (<[s := m]> L) s -> (s < length L)%nat ->
  heap_order (expires_before h) (L ++ [m]) -> cur_size h = Z.of_nat (length L) ->
  (heap h).[Z.of_nat (length L)] = Some (Some m) ->
  exists h' V', refill_slot h (Z.of_nat s) = Some h' /\
    sifted h h' (<[s := m]> L) V'.
Proof.
  intros Hr1 Hs Ho Hn Hlast.
  set (V := <[s := m]> L) in *.
  assert (HVl : length V = length L) by apply length_insert.
  assert (HVs : V !! s = Some m) by (by apply list_lookup_insert_eq).
  unfold refill_slot, heap_at. rewrite Hn. destruct (Z.ltb_spec (Z.of_nat s) (Z.of_nat (length L))); [|lia].
  rewrite Hlast. simpl.
  destruct (copy_node_fill h V s m Hr1 HVs) as (h1 & -> & Hso & Hr2). simpl.
  assert (HmV : m ∈ V) by (by eapply list_elem_of_lookup_2).
  rewrite (rep_node_time h1 V (length V) m) by done. simpl.
  assert (cur_size h1 = Z.of_nat (length V) /\ expires_before h1 = expires_before h) as [Hn1 HR].
  { destruct Hso as (? & ? & -> & _). simpl. rewrite HVl. done. }
  unfold reheap_fuel. rewrite Hn1, Nat2Z.id.
  assert (Hfin : forall h', (exists V', sifted h1 h' V V') -> exists V', sifted h h' V V').
  { intros h' [V' ?]. exists V'. by apply (sifted_step h h1 h' V V). }
  destruct (decide (s = 0)%nat) as [->|].
  { change (HEAP_PARENT (Z.of_nat 0)) with (Z.of_nat 0).
    rewrite (rep_slot_time h1 V (length V) 0 m) by (done || lia). simpl.
    destruct (PJ_TIME_VAL_GTE _ _) eqn:E; [|by rewrite <-not_true_iff_false, time_val_gte_spec in E].
    edestruct (reheap_down_spec (length V) h1 V 0 m) as (h' & V' & -> & Hs').
    { by apply rep_weaken. } { done. } { done. } { lia. }
    { rewrite HR. apply (remove_down _ L m 0 Ho Hs). intros p ? Hp. unfold child_of in *. lia. }
    destruct (Hfin h') as [V'' ?]; eauto. }
  destruct (HEAP_PARENT_child s) as (p & Hpe & Hp & Hlt); [lia|]. rewrite Hpe.
  destruct (lookup_lt_is_Some_2 L p) as [xp Hxp]; [lia|].
  assert (HVp : V !! p = Some xp) by (unfold V; rewrite list_lookup_insert_ne by lia; done).
  rewrite (rep_slot_time h1 V (length V) p xp) by (done || lia). simpl.
  destruct (PJ_TIME_VAL_GTE _ _) eqn:E.
  - apply time_val_gte_spec in E.
    edestruct (reheap_down_spec (length V) h1 V s m) as (h' & V' & -> & Hs').
    { by apply rep_weaken. } { done. } { done. } { lia. }
    { rewrite HR. apply (remove_down _ L m s Ho Hs). intros q y Hq Hy.
      assert (q = p) as -> by (unfold child_of in *; lia). simplify_eq.
      rewrite <-HR. done. }
    destruct (Hfin h') as [V'' ?]; eauto.
  - rewrite <-not_true_iff_false, time_val_gte_spec in E. apply not_time_le in E.
    rewrite <-Hpe.
    edestruct (reheap_up_spec (length V) h1 V s m) as (h' & V' & -> & Hs').
    { by apply rep_weaken. } { done. } { lia. }
    { rewrite HR. apply (remove_up _ L m s Ho Hs p xp); [done..|]. rewrite <-HR. done. }
    destruct (Hfin h') as [V'' ?]; eauto.
Qed.

(** Both ways out of [remove_node] end in this state: [h1] is the heap with
    the node [x] on the free list, [h'] the same with its slots rearranged. *)
Lemma remove_node_rep h h' L0 m s x F ds ids d V' :
  heap_rep h (L0 ++ [m]) F -> (L0 ++ [m]) !! s = Some x ->
  (timer_dups h).[x <- Some d] = Some ds -> node_time h x = Some (_timer_value d) ->
  ids = <[Z.to_nat x := - timer_ids_freelist h]> (timer_ids h) ->
  sifted (set_dups (set_cur_size (set_freelist h ids x) (Z.of_nat (length L0))) ds) h'
    (<[s := m]> L0) V' ->
  heap_rep h' V' (x :: F) /\ L0 ++ [m] ≡ₚ x :: V' /\
  same_config h h' /\ max_size h' = max_size h /\
  (forall y, node_at h' y = if decide (y = x) then Some d else node_at h y).
Proof.
  intros Hh Hs Hds Ht -> (Hso & Hr' & Ho' & HP').
  assert (HxL : x ∈ (L0 ++ [m])) by (by eapply list_elem_of_lookup_2).
  pose proof (hr_range h _ F x (hr_arrays _ _ _ Hh) HxL) as Hxr.
  pose proof (take_out_perm L0 m s x Hs) as HP.
  destruct Hh as [[Hr Ho Hc Hids Hsl Hdu Hact Hch Hfr Hnd Hcnt Hsm] Htot Hsp].
  assert (HL : L0 ++ [m] ≡ₚ x :: V') by (by rewrite HP, HP').
  pose proof (Permutation_length HL) as Hlen. rewrite length_app in *. simpl in *.
  assert (Hnd' : NoDup (x :: (V' ++ F))) by (rewrite HL in Hnd; done).
  assert (Hin : forall y, y ∈ V' -> y ∈ (L0 ++ [m])) by (intros; rewrite HL; by right).
  destruct Hso as (hp & ids & -> & Hl1 & Hl2 & Hfrm). simpl in *. rewrite length_insert in Hl2.
  assert (Hxn : x ∉ V') by (apply NoDup_cons in Hnd' as [Hn _]; rewrite elem_of_app in Hn; tauto).
  assert (HF : forall y, y ∈ F -> (y ∉ V') /\ y <> x).
  { intros y Hy. apply NoDup_cons in Hnd' as [Hn Hnd']. apply NoDup_app in Hnd' as (_ & Hd & _).
    rewrite elem_of_app in Hn. split; [|intros ->; tauto]. intros ?. by eapply Hd. }
  apply arr_set_Some in Hds as Hds'. destruct Hds' as [Hxd Hds'].
  split; [|split_and!; try done]. 1: split; [split|..]; simpl; try done; try lia.
  - rewrite Hds', length_insert. done.
  - auto.
  - split; [done|]. exists (timer_ids_freelist h).
    rewrite Hfrm by (by rewrite <-HP'). split; [apply arr_get_insert_eq; lia|].
    eapply free_chain_frame; [|exact Hch]. intros y Hy. destruct (HF y Hy) as [Hy1 Hy2].
    rewrite Hfrm by (by rewrite <-HP'). apply arr_get_insert_ne; [lia|congruence].
  - intros y [->|Hy]%elem_of_cons; [lia|by apply Hfr].
  - by rewrite <-Permutation_middle.
  - intros y. by rewrite <-(node_at_set_dups h ds y (Some d) x Hds).
Qed.

Lemma remove_node_spec {P} (w : world P) L F s x d e :
  heap_rep (ht w) L F -> L !! s = Some x -> node_at (ht w) x = Some d ->
  entries w !! entry d = Some e -> _timer_id e = x ->
  exists h' L',
    remove_node w (Z.of_nat s) =
      Some (x, set_entries (set_ht w h') (<[entry d := set_entry_timer_id e (-1)]> (entries w))) /\
    heap_rep h' L' (x :: F) /\ L ≡ₚ x :: L' /\
    same_config (ht w) h' /\ max_size h' = max_size (ht w) /\
    (forall y, node_at h' y = if decide (y = x)
                 then Some (set_dup d (set_entry_timer_id (dup d) (-1)))
                 else node_at (ht w) y).
Proof.
  intros Hh Hs Hd He Hid. set (h := ht w) in *.
  assert (HxL : x ∈ L) by (by eapply list_elem_of_lookup_2).
  pose proof (hr_range h L F x (hr_arrays _ _ _ Hh) HxL) as Hxr.
  pose proof Hh as [[Hr Ho Hc Hids Hsl Hdu _ _ _ _ _ _] _ _].
  destruct (rep_slot _ _ _ Hr s x Hs) as [Hslot _]; [apply lookup_lt_Some in Hs; lia|].
  destruct (rep_node _ _ _ Hr x HxL) as (d' & Hd' & Htid). rewrite Hd in Hd'. injection Hd' as <-.
  destruct L as [|m L0 _] using rev_ind; [done|].
  pose proof (arr_set_in (timer_dups h) x (Some (set_dup d (set_entry_timer_id (dup d) (-1))))
    ltac:(lia)) as Hds.
  set (ds := <[Z.to_nat x := _]> (timer_dups h)) in Hds.
  set (ids := <[Z.to_nat x := - timer_ids_freelist h]> (timer_ids h)).
  pose proof (rep_take_out h L0 m s x ds ids _ Hr Hs Hds eq_refl) as Hr1.
  unfold remove_node, heap_at. fold h. rewrite Hslot. simpl. rewrite Hd. simpl.
  unfold push_freelist. rewrite Htid, arr_set_in by lia. simpl. fold ids.
  rewrite He. simpl. rewrite Hid, Z.eqb_refl, Hds. simpl.
  rewrite length_app in Hc. simpl in Hc.
  replace (cur_size h - 1) with (Z.of_nat (length L0)) by lia.
  set (h1 := set_dups (set_cur_size (set_freelist h ids x) (Z.of_nat (length L0))) ds) in *.
  assert (Ht : node_time h x = Some (_timer_value (set_dup d (set_entry_timer_id (dup d) (-1))))).
  { unfold node_time. by rewrite Hd. }
  assert (HR : forall a, time_of h1 a = time_of h a).
  { intros a. unfold time_of, node_time, h1.
    change (node_at (set_dups (set_cur_size (set_freelist h ids x) (Z.of_nat (length L0))) ds) a)
      with (node_at (set_dups h ds) a).
    rewrite (node_at_set_dups _ _ _ _ _ Hds). case_decide; [|done]. subst a. by rewrite Hd. }
  assert (Ho1 : heap_order (expires_before h1) (L0 ++ [m])).
  { eapply heap_order_ext; [|exact Ho]. intros a b _ _. unfold expires_before. by rewrite !HR. }
  assert (exists h' V', refill_slot h1 (Z.of_nat s) = Some h' /\ sifted h1 h' (<[s := m]> L0) V')
    as (h' & V' & Heq & Hsift).
  { destruct (decide (s < length L0)%nat).
    - apply refill_spec; try done.
      destruct (rep_slot _ _ _ Hr (length L0) m) as [Hl _]; [|rewrite length_app; simpl; lia|done].
      by rewrite lookup_app_r, Nat.sub_diag by lia.
    - exists h1, L0. split.
      { unfold refill_slot. destruct (Z.ltb_spec (Z.of_nat s) (cur_size h1)); [simpl in *; lia|done]. }
      apply lookup_lt_Some in Hs as Hsl'. rewrite length_app in Hsl'. simpl in Hsl'.
      assert (s = length L0) as -> by lia. rewrite list_insert_ge in * by lia.
      split_and!; [|done| |done].
      + apply slots_only_refl.
      + eapply heap_order_init; exact Ho1. }
  destruct (remove_node_rep h h' L0 m s x F ds ids _ V' Hh Hs Hds Ht eq_refl Hsift)
    as (? & ? & ? & ? & ?).
  exists h', V'. split; [|done].
  by rewrite Heq.
Qed.

(** ** Growing *)

Lemma free_chain_app ids f F m G e :
  free_chain ids f F m -> free_chain ids m G e -> free_chain ids f (F ++ G) e.
Proof.
  revert f. induction F as [|x F IH]; intros f; simpl; [by intros ->|].
  intros [-> (n & Hn & Hc)] HG. split; [done|]. exists n. auto.
Qed.

(** The fresh part of [timer_ids] is a chain that starts at the old
    terminator and ends at the new one. *)
Lemma free_chain_seqZ ids m (n : nat) :
  (forall i, m <= i < m + Z.of_nat n -> ids.[i] = Some (- (i + 1))) ->
  free_chain ids m (seqZ m (Z.of_nat n)) (m + Z.of_nat n).
Proof.
  revert m. induction n as [|n IH]; intros m Hi.
  - simpl. lia.
  - rewrite Nat2Z.inj_succ, seqZ_cons by lia. simpl. split; [done|].
    exists (m + 1). split; [rewrite Hi by lia; done|].
    replace (Z.pred (Z.succ (Z.of_nat n))) with (Z.of_nat n) by lia.
    replace (m + Z.succ (Z.of_nat n)) with (m + 1 + Z.of_nat n) by lia.
    replace (Z.succ m) with (m + 1) by lia.
    apply IH. intros. apply Hi. lia.
Qed.

Lemma mapM_heap_at h L :
  rep h L (length L) -> mapM (heap_at h) (seqZ 0 (Z.of_nat (length L))) = Some L.
Proof.
  intros Hr. apply mapM_Some_2, Forall2_same_length_lookup_2; [by rewrite length_seqZ, Nat2Z.id|].
  intros i a x Ha Hx. apply lookup_seqZ in Ha as [-> ?].
  destruct (rep_slot _ _ _ Hr i x Hx) as [Hs _]; [apply lookup_lt_Some in Hx; lia|].
  unfold heap_at. by rewrite Z.add_0_l, Hs.
Qed.

Lemma arr_get_app_l {A} (l k : list A) i :
  i < Z.of_nat (length l) -> (l ++ k).[i] = l.[i].
Proof.
  intros Hi. destruct (decide (0 <= i)) as [H0|H0].
  - rewrite <-(Z2Nat.id i) by done. rewrite !arr_get_nat. apply lookup_app_l. lia.
  - unfold arr_get, in_range. destruct (Z.leb_spec 0 i); [lia|done].
Qed.

Lemma arr_get_app_r {A} (l k : list A) i :
  Z.of_nat (length l) <= i -> (l ++ k).[i] = k.[i - Z.of_nat (length l)].
Proof.
  intros Hi. replace i with (Z.of_nat (Z.to_nat i)) at 1 by lia.
  replace (i - Z.of_nat (length l)) with (Z.of_nat (Z.to_nat i - length l)) by lia.
  rewrite !arr_get_nat. apply lookup_app_r. lia.
Qed.

Lemma arr_get_take {A} (l : list A) n i : i < n -> (take (Z.to_nat n) l).[i] = l.[i].
Proof.
  intros Hi. destruct (decide (0 <= i)) as [H0|H0].
  - rewrite <-(Z2Nat.id i) by done. rewrite !arr_get_nat. apply lookup_take_lt. lia.
  - unfold arr_get, in_range. destruct (Z.leb_spec 0 i); [lia|done].
Qed.

(** The heap with its arrays moved to larger ones. *)
Lemma rep_regrow h L hp ids ds n :
  rep h L (length L) -> (forall x, x ∈ L -> x < n) ->
  (exists k, hp = map Some L ++ k) ->
  (forall x, x < n -> ids.[x] = (timer_ids h).[x]) ->
  n <= Z.of_nat (length ids) ->
  (forall x, x < n -> mjoin ds.[x] = node_at h x) ->
  rep (set_dups (set_slots h hp ids) ds) L (length L).
Proof.
  intros Hr Hlt [k ->] Hids Hln Hds. pose proof Hr as [H1 H2 H3 H4 H5 H6].
  split; simpl; try done.
  - intros i x Hx Hi. destruct (H1 i x Hx Hi) as [_ Hb].
    assert (x ∈ L) by (by eapply list_elem_of_lookup_2). split.
    + apply lookup_lt_Some in Hx as ?. rewrite arr_get_app_l by (rewrite length_map; lia).
      rewrite arr_get_nat, list_lookup_fmap, Hx. done.
    + rewrite Hids by auto. done.
  - intros x Hx. unfold node_at. simpl. rewrite Hds by auto. auto.
  - intros x Hx. specialize (Hlt x Hx). specialize (H4 x Hx). lia.
  - rewrite length_app, length_map. lia.
Qed.

(** The arrays of [grow_heap] hold what the old ones held. *)
Lemma grow_dups h n x :
  0 <= max_size h -> x < max_size h -> max_size h <= Z.of_nat (length (timer_dups h)) ->
  mjoin (take (Z.to_nat (max_size h)) (timer_dups h) ++ replicate n None).[x] = node_at h x.
Proof.
  intros. rewrite arr_get_app_l by (rewrite length_take; lia).
  by rewrite arr_get_take.
Qed.

Lemma grow_ids h n i :
  Z.of_nat (length (timer_ids h)) = max_size h -> max_size h + Z.of_nat n <= INT_MAX ->
  i < max_size h + Z.of_nat n ->
  (take (Z.to_nat (max_size h)) (timer_ids h) ++
     map (fun i => - i32 (i + 1)) (seqZ (max_size h) (Z.of_nat n))).[i] =
  if i <? max_size h then (timer_ids h).[i] else Some (- (i + 1)).
Proof.
  intros Hl Hn Hi. rewrite take_ge by lia. destruct (Z.ltb_spec i (max_size h)).
  - by rewrite arr_get_app_l by lia.
  - rewrite arr_get_app_r by lia. rewrite Hl.
    replace (i - max_size h) with (Z.of_nat (Z.to_nat (i - max_size h))) by lia.
    rewrite arr_get_nat, list_lookup_fmap, lookup_seqZ_lt by lia. simpl.
    rewrite i32_small by (unfold INT_MAX in *; lia). do 2 f_equal. lia.
Qed.

Section grow.
Context {P : Type} `{!PoolAllocator P}.

(** The status of [grow_heap] and what it leaves: the same heap if it fails,
    even half way, twice the room if it succeeds. *)
(** The pool grants the three arrays of a heap for [n] ids. *)
Definition grow_granted (p : P) (n : Z) : bool :=
  match pool_calloc p n SIZEOF_PTR with
  | (Some _, p1) =>
      match pool_alloc p1 (SIZEOF_DUP * n) with
      | (Some _, p2) => match pool_alloc p2 (n * SIZEOF_TIMER_ID) with (Some _, _) => true | (None, _) => false end
      | (None, _) => false
      end
  | (None, _) => false
  end.

(** The sizes of the arrays after the heap has grown do not wrap around. *)
Definition can_double (h : pj_timer_heap_t) : Prop := SIZEOF_DUP * (max_size h * 2) < 2 ^ 32.

Lemma grow_heap_spec (w : world P) L F :
  arrays_ok (ht w) L F -> 2 <= max_size (ht w) -> can_double (ht w) ->
  exists st h' p', grow_heap w = Some (st, set_pool (set_ht w h') p') /\
    same_config (ht w) h' /\ timer_ids_freelist h' = timer_ids_freelist (ht w) /\
    (forall x, x < max_size (ht w) -> node_at h' x = node_at (ht w) x) /\
    if grow_granted (pool w) (max_size (ht w) * 2) then
      st = PJ_SUCCESS /\ max_size h' = max_size (ht w) * 2 /\
      arrays_ok h' L (F ++ seqZ (max_size (ht w)) (max_size (ht w)))
    else st = PJ_ENOMEM /\ arrays_ok h' L F /\ max_size h' = max_size (ht w) /\ timer_ids h' = timer_ids (ht w).
Proof.
  intros Ha Hmin Hmax. pose proof (fun x => hr_range _ _ _ x Ha) as Hrange.
  pose proof Ha as [Hr Ho Hc Hids Hsl Hdu Hact Hch Hfr Hnd Hcnt Hsm].
  unfold grow_heap, can_double in *. set (h := ht w) in *. cbv zeta.
  assert (Hu : u32 (max_size h * 2) = max_size h * 2) by (apply u32_small; unfold SIZEOF_DUP in *; lia).
  assert (Hu1 : u32 (SIZEOF_DUP * (max_size h * 2)) = SIZEOF_DUP * (max_size h * 2)).
  { apply u32_small. unfold SIZEOF_DUP in *. lia. }
  assert (Hu2 : u32 (max_size h * 2 * SIZEOF_TIMER_ID) = max_size h * 2 * SIZEOF_TIMER_ID).
  { apply u32_small. unfold SIZEOF_DUP, SIZEOF_TIMER_ID in *. lia. }
  assert (Hmax2 : max_size h * 2 <= INT_MAX) by (unfold SIZEOF_DUP, INT_MAX in *; lia).
  rewrite !Hu, Hu1, Hu2. unfold grow_granted.
  assert (Hsame : forall p, set_pool w p = set_pool (set_ht w h) p) by (intros; by destruct w).
  destruct (pool_calloc _ _ _) as [[a1|] p1].
  2: { exists PJ_ENOMEM, h, p1. rewrite Hsame. by split_and!. }
  destruct (pool_alloc p1 _) as [[a2|] p2].
  2: { exists PJ_ENOMEM, h, p2. rewrite Hsame. by split_and!. }
  rewrite Hc, (mapM_heap_at h L Hr). cbn [mbind option_bind].
  replace (max_size h * 2 - max_size h) with (max_size h) by lia.
  set (ds := take _ (timer_dups h) ++ _). set (hp := map Some L ++ _).
  assert (Hds : forall x, x < max_size h -> mjoin ds.[x] = node_at h x).
  { intros. apply grow_dups; lia. }
  assert (Hl : Z.of_nat (length hp) = max_size h * 2 /\ Z.of_nat (length ds) = max_size h * 2).
  { unfold hp, ds. rewrite !length_app, length_map, length_take, !length_replicate. lia. }
  assert (Hord : heap_order (fun x y => time_le (default (mk_time_val 0 0) (_timer_value <$> mjoin ds.[x]))
                                    (default (mk_time_val 0 0) (_timer_value <$> mjoin ds.[y]))) L).
  { eapply heap_order_ext; [|exact Ho]. intros x y Hx%Hrange Hy%Hrange.
    rewrite !Hds by lia. done. }
  assert (Hrep : forall ids, (forall x, x < max_size h -> ids.[x] = (timer_ids h).[x]) ->
    max_size h <= Z.of_nat (length ids) ->
    rep (set_dups (set_slots h hp ids) ds) L (length L)).
  { intros ids Hi Hle. eapply (rep_regrow h L hp ids ds (max_size h)); try done.
    - intros x ?%Hrange. lia.
    - by eexists. }
  destruct (pool_alloc p2 _) as [[a3|] p3].
  - eexists PJ_SUCCESS, _, p3. split; [reflexivity|]. simpl.
    split_and!; [done..|].
    set (ids := take _ (timer_ids h) ++ _).
    assert (Hi : forall i, i < max_size h * 2 ->
      ids.[i] = if i <? max_size h then (timer_ids h).[i] else Some (- (i + 1))).
    { intros i Hi. unfold ids.
      replace (max_size h * 2 - max_size h) with (Z.of_nat (Z.to_nat (max_size h))) by lia.
      apply grow_ids; lia. }
    assert (Hil : Z.of_nat (length ids) = max_size h * 2).
    { unfold ids. rewrite length_app, length_map, length_take, length_seqZ. lia. }
    assert (Hold : forall x, x < max_size h -> ids.[x] = (timer_ids h).[x]).
    { intros x Hx. rewrite Hi by lia. destruct (Z.ltb_spec x (max_size h)); [done|lia]. }
    split; simpl; try done; try lia.
    + destruct (Hrep ids Hold ltac:(lia)). by split.
    + eapply free_chain_app; [eapply free_chain_frame; [|exact Hch]|].
      { intros x ?%Hfr. apply Hold. lia. }
      replace (max_size h * 2) with (max_size h + Z.of_nat (Z.to_nat (max_size h))) by lia.
      rewrite <-(Z2Nat.id (max_size h)) at 3 by lia.
      apply free_chain_seqZ. intros i Hlt. rewrite Hi by lia.
      destruct (Z.ltb_spec i (max_size h)); [lia|done].
    + intros x [?%Hfr|[? ?]%elem_of_seqZ]%elem_of_app; lia.
    + rewrite app_assoc. apply NoDup_app. split_and!; [done| |apply NoDup_seqZ].
      intros x [?%Hrange|?%Hfr]%elem_of_app [? ?]%elem_of_seqZ; lia.
    + rewrite length_app, length_seqZ. lia.
  - eexists PJ_ENOMEM, _, p3. split; [reflexivity|].
    split_and!; try done.
    split; simpl; try done; try lia. apply (Hrep (timer_ids h)); [done|lia].
Qed.
End grow.

(** ** Scheduling *)

(** A new node [x] enters in the slot after the last one. *)
Lemma rep_snoc h L x d ds :
  rep h L (length L) -> x ∉ L -> 0 <= x < Z.of_nat (length (timer_ids h)) ->
  (timer_dups h).[x <- Some d] = Some ds -> _timer_id (dup d) = x ->
  (length L < length (heap h))%nat -> Z.of_nat (length L) < INT_MAX ->
  rep (set_dups h ds) (L ++ [x]) (length L).
Proof.
  intros [H1 H2 H3 H4 H5 H6] Hx Hxr Hds Hid Hroom Hsm.
  split; simpl; try done; rewrite ?length_app; simpl; try lia.
  - intros i y Hy Hi. assert (i < length L)%nat.
    { apply lookup_lt_Some in Hy. rewrite length_app in Hy. simpl in Hy. lia. }
    rewrite lookup_app_l in Hy by done. by apply H1.
  - intros y [Hy|Hy%list_elem_of_singleton]%elem_of_app.
    + rewrite (node_at_set_dups _ _ _ _ _ Hds). case_decide; [by subst|auto].
    + exists d. rewrite (node_at_set_dups _ _ _ _ _ Hds), decide_True by done. by subst.
  - apply NoDup_app. split_and!; [done| |apply NoDup_singleton].
    intros y Hy Hy2%list_elem_of_singleton. by subst.
  - intros y [Hy|Hy%list_elem_of_singleton]%elem_of_app; subst; auto.
Qed.

(** The state [insert_node] starts from: the id [x] has been taken off the
    free list and the node is not in the heap yet. *)
Lemma place_node_spec h L F x d :
  arrays_ok h L F -> (x ∉ L ++ F) -> 1 <= x < max_size h -> _timer_id (dup d) = x ->
  Z.of_nat (S (length L + length F)) <= max_size h - 1 ->
  exists ds h' L', (timer_dups h).[x <- Some d] = Some ds /\
    reheap_up (reheap_fuel (set_dups h ds)) (set_dups h ds) x (cur_size h)
      (HEAP_PARENT (cur_size h)) = Some h' /\
    arrays_ok (set_cur_size h' (cur_size h' + 1)) L' F /\ L' ≡ₚ x :: L /\
    cur_size h' = cur_size h /\ same_config h h' /\ max_size h' = max_size h /\
    (forall y, node_at h' y = if decide (y = x) then Some d else node_at h y).
Proof.
  intros Ha Hx Hxr Hid Hroom. pose proof (fun x => hr_range _ _ _ x Ha) as Hrange.
  pose proof Ha as [Hr Ho Hc Hids Hsl Hdu Hact Hch Hfr Hnd Hcnt Hsm].
  rewrite elem_of_app in Hx.
  pose proof (arr_set_in (timer_dups h) x (Some d) ltac:(lia)) as Hds.
  set (ds := <[Z.to_nat x := Some d]> (timer_dups h)) in Hds.
  assert (Hnode : forall y, node_at (set_dups h ds) y = if decide (y = x) then Some d else node_at h y).
  { intros y. apply (node_at_set_dups _ _ _ _ _ Hds). }
  assert (Hrs : rep (set_dups h ds) (L ++ [x]) (length L)).
  { apply (rep_snoc h L x d ds); try done; [tauto|lia..]. }
  destruct (reheap_up_spec (length L) (set_dups h ds) (L ++ [x]) (length L) x)
    as (h' & V' & Hre & Hso & Hr' & Ho' & HP).
  { done. } { by rewrite lookup_app_r, Nat.sub_diag by lia. } { done. }
  { apply heap_order_snoc. eapply heap_order_ext; [|exact Ho].
    intros a b Ha' Hb'. unfold expires_before, time_of, node_time.
    rewrite !Hnode, !decide_False by (intros ->; tauto). done. }
  exists ds, h', V'. unfold reheap_fuel. simpl. rewrite Hc, Nat2Z.id.
  split; [done|]. split; [done|].
  destruct Hso as (hp & ids & -> & Hl1 & Hl2 & Hfrm). simpl in *.
  assert (HL : V' ≡ₚ x :: L) by (rewrite HP; solve_Permutation).
  pose proof (Permutation_length HL) as Hlen. simpl in Hlen.
  split_and!; try done.
  split; simpl; try done; try lia.
  - destruct Hr'. by split.
  - unfold ds. rewrite length_insert. done.
  - intros y. rewrite HL, elem_of_cons. intros [->|?]; [lia|auto].
  - eapply free_chain_frame; [|exact Hch]. intros y Hy. apply Hfrm.
    rewrite elem_of_app, list_elem_of_singleton. apply NoDup_app in Hnd as (_ & Hd & _).
    intros [?| ->]; [by eapply Hd|tauto].
  - rewrite HL. simpl. apply NoDup_cons. split; [by rewrite elem_of_app|done].
Qed.

Lemma pop_freelist_spec h L F :
  heap_rep h L F -> exists x F' h', F = x :: F' /\ pop_freelist h = Some (x, h') /\
    arrays_ok h' L F' /\ (x ∉ L ++ F') /\ 1 <= x < max_size h /\
    max_size h' = max_size h /\ same_config h h' /\ (forall y, node_at h' y = node_at h y) /\
    cur_size h' = cur_size h /\ timer_ids h' = timer_ids h.
Proof.
  intros [[Hr Ho Hc Hids Hsl Hdu Hact Hch Hfr Hnd Hcnt Hsm] Htot Hsp].
  destruct F as [|x F]; [simpl in *; lia|]. destruct Hch as [Hf (n & Hn & Hch)].
  exists x, F. unfold pop_freelist. rewrite Hf, Hn. simpl. rewrite Z.opp_involutive.
  eexists. split; [done|]. split; [done|]. rewrite <-Permutation_middle in Hnd.
  apply NoDup_cons in Hnd as [Hx Hnd]. split_and!; try done; [|by apply Hfr; left..].
  split; simpl; try done; try (simpl in *; lia).
  - destruct Hr. by split.
  - intros y Hy. apply Hfr. by right.
Qed.

Section schedule.
Context {P : Type} `{!PoolAllocator P}.

(** There is room for one more node, or the pool grants it. *)
Definition has_room (w : world P) : bool :=
  (cur_size (ht w) + 2 <? max_size (ht w)) || grow_granted (pool w) (max_size (ht w) * 2).

(** Room for one more node: the heap as it is, or after growing. *)
Lemma make_room_spec (w : world P) L F x :
  arrays_ok (ht w) L F -> 2 <= max_size (ht w) ->
  can_double (ht w) -> (x ∉ L ++ F) -> 1 <= x < max_size (ht w) ->
  Z.of_nat (S (length L + length F)) = max_size (ht w) - 1 ->
  exists st h' p' F', (if max_size (ht w) <=? cur_size (ht w) + 2
                    then grow_heap w else Some (PJ_SUCCESS, w)) =
      Some (st, set_pool (set_ht w h') p') /\
    arrays_ok h' L F' /\ same_config (ht w) h' /\
    (forall y, y < max_size (ht w) -> node_at h' y = node_at (ht w) y) /\
    if has_room w then
      st = PJ_SUCCESS /\ (x ∉ L ++ F') /\ 1 <= x < max_size h' /\
      Z.of_nat (S (length L + length F')) = max_size h' - 1 /\ cur_size h' + 3 <= max_size h'
    else st = PJ_ENOMEM /\ F' = F /\ max_size h' = max_size (ht w) /\ timer_ids h' = timer_ids (ht w) /\
      timer_ids_freelist h' = timer_ids_freelist (ht w).
Proof.
  intros Ha Hmin Hmax Hx Hxr Hcnt. pose proof (hr_cur _ _ _ Ha) as Hc. unfold has_room.
  destruct (Z.leb_spec (max_size (ht w)) (cur_size (ht w) + 2)).
  - rewrite (proj2 (Z.ltb_ge _ _)) by lia. simpl orb.
    destruct (grow_heap_spec w L F Ha Hmin Hmax) as (st & h' & p' & Heq & Hcf & Hfl & Hnode & Hcase).
    destruct (grow_granted _ _); destruct Hcase as (-> & Hcase).
    + destruct Hcase as [Hms Ha']. pose proof (hr_cur _ _ _ Ha').
      exists PJ_SUCCESS, h', p', (F ++ seqZ (max_size (ht w)) (max_size (ht w))).
      split_and!; try done; try lia.
      * rewrite app_assoc, elem_of_app. intros [?|[? ?]%elem_of_seqZ]; [done|lia].
      * rewrite length_app, length_seqZ. lia.
    + destruct Hcase as (Ha' & Hms & Hti). exists PJ_ENOMEM, h', p', F. by split_and!.
  - rewrite (proj2 (Z.ltb_lt _ _)) by lia. simpl orb.
    exists PJ_SUCCESS, (ht w), (pool w), F. split; [by destruct w|]. split_and!; try done; lia.
Qed.

Lemma schedule_entry_spec (w : world P) L F ent e t :
  heap_rep (ht w) L F -> can_double (ht w) -> entries w !! ent = Some e -> has_room w = true ->
  exists h' p' x L' F',
    schedule_entry w ent t = Some (PJ_SUCCESS,
      set_pool (set_entries (set_ht w h') (<[ent := set_entry_timer_id e x]> (entries w))) p') /\
    heap_rep h' L' F' /\ L' ≡ₚ x :: L /\ (x ∉ L) /\ same_config (ht w) h' /\
    (forall y, y ∈ L -> node_at h' y = node_at (ht w) y) /\
    node_at h' x = Some (mk_dup (set_entry_timer_id e x) ent t 0 0 0).
Proof.
  intros Hh Hmax He Hroom. pose proof Hh as [Ha0 Htot Hsp].
  pose proof (fun y => hr_range _ _ _ y Ha0) as Hrange.
  destruct (pop_freelist_spec _ _ _ Hh) as (x & F1 & h1 & -> & Hpop & Ha1 & Hx1 & Hxr & Hm1 & Hcf1 & Hn1 & Hc1 & _).
  unfold schedule_entry. destruct (Z.ltb_spec (cur_size (ht w)) (max_size (ht w))); [|lia].
  rewrite Hpop. simpl. rewrite He. simpl.
  set (w1 := set_entries (set_ht w h1) _). unfold insert_node.
  simpl in Htot.
  destruct (make_room_spec w1 L F1 x) as (st & h2 & p2 & F2 & -> & Ha2 & Hcf2 & Hn2 & Hcase);
    unfold w1, can_double; simpl; rewrite ?Hm1; try done; try lia.
  assert (has_room w1 = true) as Hw1 by (unfold has_room, w1 in *; simpl; by rewrite Hm1, Hc1).
  fold w1 in Hcase. rewrite Hw1 in Hcase. destruct Hcase as (-> & Hx2 & Hxr2 & Hcnt2 & Hsp2).
  simpl. rewrite lookup_insert_eq. simpl.
  destruct (place_node_spec h2 L F2 x (mk_dup (set_entry_timer_id e x) ent t 0 0 0))
    as (ds & h3 & L' & -> & Hre & Ha3 & HP & Hc3 & Hcf3 & Hm3 & Hn3); try done; [lia|].
  simpl. rewrite Hre. simpl.
  exists (set_cur_size h3 (cur_size h3 + 1)), p2, x, L', F2.
  split; [done|]. rewrite elem_of_app in Hx1.
  split_and!; try done.
  - split; [done| |]; simpl; [|lia]. apply Permutation_length in HP. simpl in HP. lia.
  - tauto.
  - eapply same_config_trans; [exact Hcf1|]. eapply same_config_trans; [exact Hcf2|].
    destruct Hcf3. by split.
  - intros y Hy. rewrite <-Hn1. rewrite <-Hn2 by (simpl; rewrite Hm1; apply Hrange in Hy; lia).
    change (node_at (set_cur_size h3 _) y) with (node_at h3 y).
    rewrite Hn3, decide_False; [done|]. intros ->. tauto.
  - change (node_at (set_cur_size h3 _) x) with (node_at h3 x). by rewrite Hn3, decide_True.
Qed.

(** Without room the last id is gone from the free list, and stays with the entry. *)
Lemma schedule_entry_full (w : world P) L F ent e t :
  heap_rep (ht w) L F -> can_double (ht w) -> entries w !! ent = Some e -> has_room w = false ->
  exists h' p' x, schedule_entry w ent t = Some (PJ_ENOMEM,
      set_pool (set_entries (set_ht w h') (<[ent := set_entry_timer_id e x]> (entries w))) p') /\
    arrays_ok h' L [] /\ same_config (ht w) h' /\ max_size h' = max_size (ht w) /\
    (forall y, y < max_size (ht w) -> node_at h' y = node_at (ht w) y) /\
    1 <= x < max_size h' /\ (timer_ids h').[x] = Some (- max_size h') /\ timer_ids_freelist h' = max_size h' /\
    cur_size h' < max_size h'.
Proof.
  intros Hh Hmax He Hroom. pose proof Hh as [Ha0 Htot Hsp].
  destruct (pop_freelist_spec _ _ _ Hh) as (x & F1 & h1 & -> & Hpop & Ha1 & Hx1 & Hxr & Hm1 & Hcf1 & Hn1 & Hc1 & Hti).
  pose proof (hr_cur _ _ _ Ha0) as Hc0. simpl in Htot.
  assert (F1 = []) as ->.
  { unfold has_room in Hroom. apply orb_false_iff in Hroom as [Hroom%Z.ltb_ge _]. destruct F1; [done|]. simpl in Htot. lia. }
  simpl length in Htot. unfold schedule_entry. destruct (Z.ltb_spec (cur_size (ht w)) (max_size (ht w))); [|lia].
  rewrite Hpop. simpl. rewrite He. simpl.
  set (w1 := set_entries (set_ht w h1) _). unfold insert_node.
  destruct (make_room_spec w1 L [] x) as (st & h2 & p2 & F2 & -> & Ha2 & Hcf2 & Hn2 & Hcase);
    unfold w1, can_double; simpl; rewrite ?Hm1; try done; try lia.
  assert (has_room w1 = false) as Hw1 by (unfold has_room, w1 in *; simpl; by rewrite Hm1, Hc1).
  fold w1 in Hcase. rewrite Hw1 in Hcase. destruct Hcase as (-> & -> & Hm2 & Hti2 & Hfl2). simpl in *.
  pose proof (hr_chain _ _ _ Ha1) as Hend. simpl in Hend. rewrite Hm1 in *.
  pose proof (hr_cur _ _ _ Ha2).
  exists h2, p2, x. split_and!; try done; try lia.
  - by eapply same_config_trans.
  - intros y Hy. rewrite <-Hn1. by apply Hn2.
  - destruct (hr_chain _ _ _ Ha0) as [_ (n & Hn & Hch)]. simpl in Hch. subst n. by rewrite Hti2, Hti, Hn, Hm2.
Qed.
End schedule.
