(* ===== verification/TimerHeapSpec.v ===== *)
(** * What the timer heap promises

    The invariant over the heap and the application's memory, the abstract
    state (which entries are scheduled and when each expires) and the theorems
    on the public operations of [timer.c]. *)
From S2P Require Import Prelude Interfaces TimeVal HeapOrder TimerHeap TimerHeapProofs.

(** ** The invariant *)

Definition grp_of (h : pj_timer_heap_t) (x : Z) : Z := from_option _grp_lock 0 (node_at h x).

(** How often [g] occurs in a list of group locks. *)
Definition occ (g : Z) (l : list Z) : nat := length (filter (fun y => y = g) l).

(** [L] are the active timer ids in heap order of their slots, [F] the free
    ones; [ext] are references to group locks held by someone else, one for
    each occurrence. *)
Record timer_inv {P} (w : world P) (L F ext : list Z) : Prop := {
  ti_heap : heap_rep (ht w) L F;
  ti_node x : x ∈ L -> exists d e, node_at (ht w) x = Some d /\
    entries w !! entry d = Some e /\ _timer_id e = x /\
    cb (dup d) = cb e /\ user_data (dup d) = user_data e /\ cb e <> 0;
  ti_running p e : entries w !! p = Some e -> 1 <= _timer_id e ->
    _timer_id e ∈ L /\ exists d, node_at (ht w) (_timer_id e) = Some d /\ entry d = p;
  ti_refs g : g <> 0 -> (0 < occ g (map (grp_of (ht w)) L ++ ext))%nat ->
    exists n, grp_refs w !! g = Some n /\ Z.of_nat (occ g (map (grp_of (ht w)) L ++ ext)) <= n
}.

Definition timer_ok {P} (w : world P) (ext : list Z) : Prop :=
  exists L F, timer_inv w L F ext.

(** ** The abstract state *)

(** The entry [p] is in the heap and expires at [t]. *)
Definition scheduled (h : pj_timer_heap_t) (p : Z) (t : pj_time_val) : Prop :=
  exists i x d, 0 <= i < cur_size h /\ heap_at h i = Some x /\ node_at h x = Some d /\
    entry d = p /\ _timer_value d = t.

(** The heap stands for the finite map [m] from entries to expiry times. *)
Definition timer_abs {P} (w : world P) (m : gmap Z pj_time_val) : Prop :=
  forall p t, m !! p = Some t <-> scheduled (ht w) p t.

Lemma occ_perm g l l' : l ≡ₚ l' -> occ g l = occ g l'.
Proof. intros H. unfold occ. by rewrite H. Qed.

Lemma occ_cons g x l : occ g (x :: l) = ((if decide (x = g) then 1 else 0) + occ g l)%nat.
Proof. unfold occ. rewrite filter_cons. by case_decide. Qed.

Lemma scheduled_iff h L F p t :
  arrays_ok h L F ->
  scheduled h p t <-> exists x d, x ∈ L /\ node_at h x = Some d /\ entry d = p /\ _timer_value d = t.
Proof.
  intros Ha. pose proof (hr_rep _ _ _ Ha) as Hr. pose proof (hr_cur _ _ _ Ha) as Hc. split.
  - intros (i & x & d & Hi & Hx & Hd & <- & <-).
    destruct (lookup_lt_is_Some_2 L (Z.to_nat i)) as [y Hy]; [lia|].
    destruct (rep_slot _ _ _ Hr _ _ Hy) as [Hs _]; [lia|]. rewrite Z2Nat.id in Hs by lia.
    unfold heap_at in Hx. rewrite Hs in Hx. simpl in Hx. injection Hx as ->.
    exists x, d. split_and!; try done. by eapply list_elem_of_lookup_2.
  - intros (x & d & [i Hi]%list_elem_of_lookup & Hd & <- & <-).
    apply lookup_lt_Some in Hi as Hl.
    destruct (rep_slot _ _ _ Hr _ _ Hi) as [Hs _]; [lia|].
    exists (Z.of_nat i), x, d. split_and!; try done; try lia. unfold heap_at. by rewrite Hs.
Qed.

(** Two nodes of the heap never stand for the same entry. *)
Lemma node_entry_inj {P} (w : world P) L F ext x y d d' :
  timer_inv w L F ext -> x ∈ L -> y ∈ L -> node_at (ht w) x = Some d ->
  node_at (ht w) y = Some d' -> entry d = entry d' -> x = y.
Proof.
  intros Hi Hx Hy Hd Hd' He.
  destruct (ti_node _ _ _ _ Hi x Hx) as (d1 & e1 & Hd1 & He1 & Ht1 & _).
  destruct (ti_node _ _ _ _ Hi y Hy) as (d2 & e2 & Hd2 & He2 & Ht2 & _).
  rewrite Hd in Hd1. rewrite Hd' in Hd2. simplify_eq. rewrite He in He1. congruence.
Qed.

Lemma scheduled_fun {P} (w : world P) ext p t t' :
  timer_ok w ext -> scheduled (ht w) p t -> scheduled (ht w) p t' -> t = t'.
Proof.
  intros (L & F & Hi) H1 H2. pose proof (hr_arrays _ _ _ (ti_heap _ _ _ _ Hi)) as Ha.
  apply (scheduled_iff _ _ _ _ _ Ha) in H1 as (x & d & Hx & Hd & Hp & <-).
  apply (scheduled_iff _ _ _ _ _ Ha) in H2 as (y & d' & Hy & Hd' & Hp' & <-).
  assert (x = y) as -> by (eapply node_entry_inj; eauto; congruence). congruence.
Qed.

(** A running entry is one that is scheduled. *)
Lemma running_scheduled {P} (w : world P) ext p e :
  timer_ok w ext -> entries w !! p = Some e ->
  pj_timer_entry_running e = true <-> exists t, scheduled (ht w) p t.
Proof.
  intros (L & F & Hi) He. pose proof (hr_arrays _ _ _ (ti_heap _ _ _ _ Hi)) as Ha.
  unfold pj_timer_entry_running. rewrite Z.leb_le. split.
  - intros Hr. destruct (ti_running _ _ _ _ Hi p e He Hr) as (Hx & d & Hd & Hp).
    exists (_timer_value d). apply (scheduled_iff _ _ _ _ _ Ha). eauto 8.
  - intros [t (x & d & Hx & Hd & Hp & Ht)%(scheduled_iff _ _ _ _ _ Ha)].
    destruct (ti_node _ _ _ _ Hi x Hx) as (d1 & e1 & Hd1 & He1 & Ht1 & _).
    simplify_eq. by apply (hr_active _ _ _ Ha).
Qed.

(** ** How the invariant moves *)

(** Only the heap, the entries and the reference counts matter. *)
Lemma timer_inv_frame {P} (w w' : world P) L F ext :
  ht w' = ht w -> entries w' = entries w -> grp_refs w' = grp_refs w ->
  timer_inv w L F ext -> timer_inv w' L F ext.
Proof. intros H1 H2 H3 []. split; rewrite ?H1, ?H2, ?H3; done. Qed.

Lemma map_grp_of_ext h h' (L : list Z) :
  (forall y, y ∈ L -> node_at h' y = node_at h y) -> map (grp_of h') L = map (grp_of h) L.
Proof.
  intros H. apply list_fmap_ext. intros i x Hx. unfold grp_of. rewrite H; [done|].
  by eapply list_elem_of_lookup_2.
Qed.

(** Rewriting a node without changing its id or its time. *)
Lemma heap_rep_touch h L F x d' ds :
  heap_rep h L F -> (timer_dups h).[x <- Some d'] = Some ds ->
  (x ∈ L -> exists d, node_at h x = Some d /\ _timer_id (dup d') = _timer_id (dup d) /\
     _timer_value d' = _timer_value d) ->
  heap_rep (set_dups h ds) L F.
Proof.
  intros [[Hr Ho Hc Hids Hsl Hdu Hact Hch Hfr Hnd Hcnt Hsm] Htot Hsp] Hds Hx.
  pose proof (fun y => node_at_set_dups h ds y _ _ Hds) as Hn.
  split; [split|..]; simpl; try done.
  - destruct Hr as [H1 H2 H3 H4 H5 H6]. split; try done. intros y Hy.
    destruct (H2 y Hy) as (d & Hd & Ht). rewrite Hn. destruct (decide (y = x)) as [Hyx|]; [|by eauto].
    rewrite Hyx in *. destruct (Hx Hy) as (d1 & Hd1 & Ht1 & _). exists d'. split; [done|]. congruence.
  - eapply heap_order_ext; [|exact Ho].
    assert (HT : forall y, y ∈ L -> time_of (set_dups h ds) y = time_of h y).
    { intros y Hy. unfold time_of, node_time. rewrite Hn. destruct (decide (y = x)) as [->|]; [|done].
      destruct (Hx Hy) as (d1 & Hd1 & _ & Ht1). rewrite Hd1. simpl. done. }
    intros a b Ha Hb. unfold expires_before. by rewrite !HT.
  - apply arr_set_length in Hds. by rewrite Hds.
Qed.

(** A node enters: [d'] for the entry [ent], which becomes [e'], with a
    reference to its group lock. *)
Lemma timer_inv_insert {P} (w w' : world P) L F L' F' ext x ent e e' d' :
  timer_inv w L F ext -> entries w !! ent = Some e -> _timer_id e < 1 ->
  heap_rep (ht w') L' F' -> L' ≡ₚ x :: L -> x ∉ L ->
  (forall y, y ∈ L -> node_at (ht w') y = node_at (ht w) y) ->
  node_at (ht w') x = Some d' -> entry d' = ent ->
  entries w' = <[ent := e']> (entries w) -> _timer_id e' = x ->
  cb (dup d') = cb e' -> user_data (dup d') = user_data e' -> cb e' <> 0 ->
  (_grp_lock d' = 0 /\ grp_refs w' = grp_refs w \/
   exists n, 0 <= n /\ grp_refs w !! _grp_lock d' = Some n /\
     grp_refs w' = <[_grp_lock d' := n + 1]> (grp_refs w)) ->
  timer_inv w' L' F' ext /\
  (forall p t, scheduled (ht w') p t <->
     p = ent /\ t = _timer_value d' \/ p <> ent /\ scheduled (ht w) p t).
Proof.
  intros Hi He Hne Hh HP Hx Hold Hd' Hent Hes Ht Hcb Hud Hcb0 Hrefs.
  pose proof (hr_arrays _ _ _ Hh) as Ha'. pose proof (hr_arrays _ _ _ (ti_heap _ _ _ _ Hi)) as Ha.
  assert (Hsep : forall y d, y ∈ L -> node_at (ht w) y = Some d -> entry d <> ent).
  { intros y d Hy Hd Hc. destruct (ti_node _ _ _ _ Hi y Hy) as (d1 & e1 & Hd1 & He1 & Ht1 & _).
    rewrite Hd in Hd1. injection Hd1 as <-. rewrite Hc, He in He1. injection He1 as <-.
    pose proof (hr_active _ _ _ Ha _ Hy). lia. }
  split; [split|].
  - done.
  - intros y. rewrite HP. intros [->|Hy]%elem_of_cons.
    + exists d', e'. rewrite Hes, Hent, lookup_insert_eq. done.
    + destruct (ti_node _ _ _ _ Hi y Hy) as (d & e1 & Hd & He1 & Hr).
      exists d, e1. rewrite Hold, Hes, lookup_insert_ne; try done. by apply not_eq_sym, (Hsep y).
  - intros p e1. rewrite Hes, HP. intros [(<- & <-)|[Hp He1]]%lookup_insert_Some H1.
    + rewrite Ht. split; [by left|]. eauto.
    + destruct (ti_running _ _ _ _ Hi p e1 He1 H1) as (HL & d & Hd & Hdp).
      split; [by right|]. exists d. by rewrite Hold.
  - intros g Hg. erewrite occ_perm by (by rewrite HP). simpl.
    assert (Hgx : grp_of (ht w') x = _grp_lock d') by (unfold grp_of; by rewrite Hd').
    rewrite occ_cons, Hgx, (map_grp_of_ext (ht w) (ht w') L Hold).
    pose proof (ti_refs _ _ _ _ Hi g Hg) as Hr.
    destruct Hrefs as [[H0 ->]|(n & Hn & Hrn & ->)].
    + rewrite decide_False by congruence. done.
    + case_decide as Hc.
      * subst g. intros _. exists (n + 1). rewrite lookup_insert_eq. split; [done|].
        destruct (decide (0 < occ (_grp_lock d') (map (grp_of (ht w)) L ++ ext))%nat) as [Hpos|]; [|lia].
        destruct (Hr Hpos) as (n' & Hn' & Hle). simplify_eq. lia.
      * intros Hpos. rewrite lookup_insert_ne by done. by apply Hr.
  - intros p t. rewrite (scheduled_iff _ _ _ _ _ Ha'), (scheduled_iff _ _ _ _ _ Ha). split.
    + intros (y & d & Hy & Hd & <- & <-). rewrite HP in Hy. apply elem_of_cons in Hy as [->|Hy].
      * left. rewrite Hd' in Hd. by simplify_eq.
      * right. rewrite Hold in Hd by done. split; [by apply (Hsep y)|]. eauto 8.
    + intros [[-> ->]|(Hp & y & d & Hy & Hd & <- & <-)].
      * exists x, d'. split_and!; try done. rewrite HP. by left.
      * exists y, d. rewrite Hold by done. split_and!; try done. rewrite HP. by right.
Qed.

(** A node leaves: its reference becomes one of the outside world. *)
Lemma timer_inv_remove {P} (w w' : world P) L F L' ext x d e :
  timer_inv w L F ext -> node_at (ht w) x = Some d -> entries w !! entry d = Some e ->
  heap_rep (ht w') L' (x :: F) -> L ≡ₚ x :: L' ->
  (forall y, y <> x -> node_at (ht w') y = node_at (ht w) y) ->
  entries w' = <[entry d := set_entry_timer_id e (-1)]> (entries w) ->
  grp_refs w' = grp_refs w ->
  timer_inv w' L' (x :: F) (_grp_lock d :: ext) /\
  (forall p t, scheduled (ht w') p t <-> p <> entry d /\ scheduled (ht w) p t).
Proof.
  intros Hi Hd He Hh HP Hold Hes Hrefs.
  pose proof (hr_arrays _ _ _ Hh) as Ha'. pose proof (hr_arrays _ _ _ (ti_heap _ _ _ _ Hi)) as Ha.
  assert (HxL : x ∈ L) by (rewrite HP; by left).
  assert (Hsub : forall y, y ∈ L' -> y ∈ L /\ y <> x).
  { intros y Hy. split; [rewrite HP; by right|]. intros ->.
    pose proof (hr_nodup _ _ _ Ha) as Hnd. rewrite HP in Hnd. simpl in Hnd.
    apply NoDup_cons in Hnd as [Hn _]. rewrite elem_of_app in Hn. tauto. }
  assert (Hsep : forall y d', y ∈ L' -> node_at (ht w) y = Some d' -> entry d' <> entry d).
  { intros y d' Hy Hd' Hc. destruct (Hsub y Hy) as [HyL Hyx]. apply Hyx.
    by eapply (node_entry_inj w L F ext y x d' d). }
  split; [split|].
  - done.
  - intros y Hy. destruct (Hsub y Hy) as [HyL Hyx].
    destruct (ti_node _ _ _ _ Hi y HyL) as (d1 & e1 & Hd1 & He1 & Hr).
    exists d1, e1. rewrite Hold, Hes, lookup_insert_ne; try done. by apply not_eq_sym, (Hsep y).
  - intros p e1. rewrite Hes. intros [(<- & <-)|[Hp He1]]%lookup_insert_Some H1; [simpl in H1; lia|].
    destruct (ti_running _ _ _ _ Hi p e1 He1 H1) as (HL & d1 & Hd1 & Hdp).
    assert (_timer_id e1 <> x). { intros Hc. rewrite Hc in Hd1. simplify_eq. }
    rewrite HP in HL. apply elem_of_cons in HL as [?|HL]; [done|].
    split; [done|]. exists d1. by rewrite Hold.
  - intros g Hg. rewrite Hrefs.
    assert (Heq : occ g (map (grp_of (ht w')) L' ++ _grp_lock d :: ext) =
                  occ g (map (grp_of (ht w)) L ++ ext)).
    { rewrite (map_grp_of_ext (ht w) (ht w') L') by (intros y [_ ?]%Hsub; auto).
      apply occ_perm. rewrite HP. simpl. unfold grp_of at 2. rewrite Hd. simpl. solve_Permutation. }
    rewrite Heq. by apply (ti_refs _ _ _ _ Hi).
  - intros p t. rewrite (scheduled_iff _ _ _ _ _ Ha'), (scheduled_iff _ _ _ _ _ Ha). split.
    + intros (y & d1 & Hy & Hd1 & <- & <-). destruct (Hsub y Hy) as [HyL Hyx].
      rewrite Hold in Hd1 by done. split; [by apply (Hsep y)|]. eauto 8.
    + intros (Hp & y & d1 & Hy & Hd1 & <- & <-).
      assert (y <> x) by (intros ->; simplify_eq).
      exists y, d1. rewrite Hold by done. split_and!; try done.
      rewrite HP in Hy. by apply elem_of_cons in Hy as [?|?].
Qed.

(** A change of an entry the heap does not look at. *)
Lemma timer_inv_set_entry {P} (w : world P) L F ext p e e' :
  timer_inv w L F ext -> entries w !! p = Some e -> _timer_id e' = _timer_id e ->
  cb e' = cb e -> user_data e' = user_data e ->
  timer_inv (set_entries w (<[p := e']> (entries w))) L F ext.
Proof.
  intros [H1 H2 H3 H4] He Ht Hc Hu. split; simpl; try done.
  - intros x Hx. destruct (H2 x Hx) as (d & e1 & Hd & He1 & Hr).
    destruct (decide (p = entry d)) as [->|].
    + rewrite He in He1. injection He1 as <-. exists d, e'. rewrite lookup_insert_eq.
      rewrite Ht, Hc, Hu. done.
    + exists d, e1. by rewrite lookup_insert_ne.
  - intros q e1 [(<- & <-)|[? Hq]]%lookup_insert_Some Hid; [|by apply H3].
    rewrite Ht in *. by apply (H3 p e).
Qed.

(** Giving up a reference the outside world holds. *)
Lemma grp_lock_dec_ref_inv {P} (w : world P) L F ext g :
  timer_inv w L F (g :: ext) -> g <> 0 ->
  exists refs, grp_lock_dec_ref w g = Some (set_refs w refs) /\
    timer_inv (set_refs w refs) L F ext.
Proof.
  intros Hi Hg. pose proof (fun g' H => ti_refs _ _ _ _ Hi g' H) as Hr.
  assert (Hocc : forall g', occ g' (map (grp_of (ht w)) L ++ g :: ext) =
     ((if decide (g = g') then 1 else 0) + occ g' (map (grp_of (ht w)) L ++ ext))%nat).
  { intros g'. rewrite <-occ_cons. apply occ_perm. solve_Permutation. }
  destruct (Hr g Hg) as (n & Hn & Hle); [rewrite Hocc, decide_True by done; lia|].
  rewrite Hocc, decide_True in Hle by done.
  unfold grp_lock_dec_ref. rewrite Hn. simpl. eexists. split; [done|].
  destruct Hi as [H1 H2 H3 _]. split; simpl; try done.
  intros g' Hg' Hpos. destruct (decide (g = g')) as [<-|Hne].
  - destruct (Z.eqb_spec (n - 1) 0); [lia|]. rewrite lookup_insert_eq. exists (n - 1).
    split; [done|]. lia.
  - specialize (Hr g' Hg'). rewrite Hocc, decide_False in Hr by done.
    destruct (Hr Hpos) as (n' & Hn' & Hle'). exists n'. split; [|done].
    destruct (n - 1 =? 0); [by rewrite lookup_delete_ne|by rewrite lookup_insert_ne].
Qed.

Lemma timer_inv_drop_null {P} (w : world P) L F ext :
  timer_inv w L F (0 :: ext) -> timer_inv w L F ext.
Proof.
  intros [H1 H2 H3 H4]. split; try done. intros g Hg. specialize (H4 g Hg).
  replace (occ g (map (grp_of (ht w)) L ++ 0 :: ext)) with (occ g (map (grp_of (ht w)) L ++ ext)) in H4;
    [done|].
  rewrite (occ_perm g (map (grp_of (ht w)) L ++ 0 :: ext) (0 :: map (grp_of (ht w)) L ++ ext))
    by solve_Permutation.
  rewrite occ_cons, decide_False by done. done.
Qed.

Lemma timer_abs_insert {P} (w w' : world P) m ent t0 :
  timer_abs w m ->
  (forall p t, scheduled (ht w') p t <-> p = ent /\ t = t0 \/ p <> ent /\ scheduled (ht w) p t) ->
  timer_abs w' (<[ent := t0]> m).
Proof.
  intros Habs H p t. rewrite H, <-(Habs p t), lookup_insert_Some.
  split; (intros [[? ?]|[? ?]]; [left|right]; split; congruence).
Qed.

Lemma timer_abs_delete {P} (w w' : world P) m ent :
  timer_abs w m ->
  (forall p t, scheduled (ht w') p t <-> p <> ent /\ scheduled (ht w) p t) ->
  timer_abs w' (delete ent m).
Proof.
  intros Habs H p t. rewrite H, <-(Habs p t), lookup_delete_Some.
  split; intros [? ?]; split; congruence.
Qed.

(** ** The public operations *)

Lemma lock_unlock {P} (w w' : world P) :
  lock (ht w') = lock (ht w) -> lock_depth w' = lock_depth (lock_timer_heap w) ->
  lock_depth (unlock_timer_heap w') = lock_depth w.
Proof.
  unfold lock_timer_heap, unlock_timer_heap. intros ->. destruct (lock (ht w) =? 0); simpl; lia.
Qed.

Lemma ht_lock {P} (w : world P) : ht (lock_timer_heap w) = ht w.
Proof. unfold lock_timer_heap. by destruct (lock (ht w) =? 0). Qed.
Lemma ht_unlock {P} (w : world P) : ht (unlock_timer_heap w) = ht w.
Proof. unfold unlock_timer_heap. by destruct (lock (ht w) =? 0). Qed.
Lemma entries_lock {P} (w : world P) : entries (lock_timer_heap w) = entries w.
Proof. unfold lock_timer_heap. by destruct (lock (ht w) =? 0). Qed.
Lemma entries_unlock {P} (w : world P) : entries (unlock_timer_heap w) = entries w.
Proof. unfold unlock_timer_heap. by destruct (lock (ht w) =? 0). Qed.
Lemma refs_lock {P} (w : world P) : grp_refs (lock_timer_heap w) = grp_refs w.
Proof. unfold lock_timer_heap. by destruct (lock (ht w) =? 0). Qed.
Lemma refs_unlock {P} (w : world P) : grp_refs (unlock_timer_heap w) = grp_refs w.
Proof. unfold unlock_timer_heap. by destruct (lock (ht w) =? 0). Qed.
Lemma fired_lock {P} (w : world P) : fired (lock_timer_heap w) = fired w.
Proof. unfold lock_timer_heap. by destruct (lock (ht w) =? 0). Qed.
Lemma fired_unlock {P} (w : world P) : fired (unlock_timer_heap w) = fired w.
Proof. unfold unlock_timer_heap. by destruct (lock (ht w) =? 0). Qed.
Lemma pool_lock {P} (w : world P) : pool (lock_timer_heap w) = pool w.
Proof. unfold lock_timer_heap. by destruct (lock (ht w) =? 0). Qed.
Lemma ticks_lock {P} (w : world P) : ticks (lock_timer_heap w) = ticks w.
Proof. unfold lock_timer_heap. by destruct (lock (ht w) =? 0). Qed.
#[export] Hint Rewrite @ht_lock @ht_unlock @entries_lock @entries_unlock @refs_lock @refs_unlock
  @fired_lock @fired_unlock : pj.

(** The reference the scheduled entry takes on its group lock, and gives back. *)
Definition take_ref (refs : gmap Z Z) (g : Z) : gmap Z Z :=
  if g =? 0 then refs else match refs !! g with Some n => <[g := n + 1]> refs | None => refs end.
Definition drop_ref (refs : gmap Z Z) (g : Z) : gmap Z Z :=
  if g =? 0 then refs else
  match refs !! g with
  | Some n => if n - 1 =? 0 then delete g refs else <[g := n - 1]> refs
  | None => refs
  end.

(** Giving back a reference, which may be to no group lock at all. *)
Lemma drop_grp_ref {P} (w : world P) L F ext g :
  timer_inv w L F (g :: ext) ->
  exists w', (if g =? 0 then Some w else grp_lock_dec_ref w g) = Some w' /\
    timer_inv w' L F ext /\ ht w' = ht w /\ lock_depth w' = lock_depth w /\
    fired w' = fired w /\ entries w' = entries w /\ grp_refs w' = drop_ref (grp_refs w) g.
Proof.
  intros Hi. unfold drop_ref. destruct (Z.eqb_spec g 0) as [->|Hz].
  - apply timer_inv_drop_null in Hi. eauto 8.
  - destruct (grp_lock_dec_ref_inv _ _ _ _ _ Hi Hz) as (refs & E & Hi'). rewrite E. eexists. split_and!; try done.
    unfold grp_lock_dec_ref in E. destruct (grp_refs w !! g); [|done]. simpl in E. injection E as <-. done.
Qed.

Lemma timer_inv_unlock {P} (w : world P) L F ext :
  timer_inv w L F ext -> timer_inv (unlock_timer_heap w) L F ext.
Proof. apply timer_inv_frame; by autorewrite with pj. Qed.

Lemma timer_inv_lock {P} (w : world P) L F ext :
  timer_inv w L F ext -> timer_inv (lock_timer_heap w) L F ext.
Proof. apply timer_inv_frame; by autorewrite with pj. Qed.

Section operations.
Context {P : Type} `{!PoolAllocator P}.
Variable gettickcount : nat -> pj_time_val.

(** The group lock an entry was scheduled with. *)
Definition grp_lock_of (w : world P) (ent : Z) : Z :=
  match entries w !! ent with Some e => grp_of (ht w) (_timer_id e) | None => 0 end.

Lemma schedule_w_grp_lock_spec (w : world P) ext m ent e delay set_id id_val g f l :
  timer_ok w ext -> timer_abs w m -> can_double (ht w) -> has_room w = true ->
  ent <> 0 -> entries w !! ent = Some e -> cb e <> 0 -> pj_timer_entry_running e = false ->
  (g = 0 \/ exists n, 0 <= n /\ grp_refs w !! g = Some n) ->
  exists w' t, PJ_TIME_VAL_ADD (gettickcount (ticks w)) delay = Some t /\
    schedule_w_grp_lock_dbg gettickcount w ent delay set_id id_val g f l = Some (PJ_SUCCESS, w') /\
    timer_ok w' ext /\ timer_abs w' (<[ent := t]> m) /\
    grp_refs w' = take_ref (grp_refs w) g /\ grp_lock_of w' ent = g /\ lock_depth w' = lock_depth w.
Proof.
  intros (L & F & Hi) Habs Hmax Hroom Hent He Hcb Hrun Hg.
  destruct (normalize_spec (mk_time_val (sec (gettickcount (ticks w)) + sec delay)
    (msec (gettickcount (ticks w)) + msec delay))) as (t & Ht & _).
  fold (PJ_TIME_VAL_ADD (gettickcount (ticks w)) delay) in Ht.
  unfold pj_timer_entry_running in Hrun. apply Z.leb_gt in Hrun.
  set (w0 := lock_timer_heap (read_clock gettickcount w).2).
  assert (Hw0 : ht w0 = ht w /\ entries w0 = entries w /\ grp_refs w0 = grp_refs w /\ has_room w0 = has_room w)
    by (unfold w0, has_room; autorewrite with pj; by rewrite pool_lock).
  destruct Hw0 as (Hh0 & He0 & Hr0 & Hroom0).
  destruct (schedule_entry_spec w0 L F ent e t) as (h' & p' & x & L' & F' & Hse & Hh' & HP & Hx & Hcf & Hold & Hnx);
    rewrite ?Hh0, ?He0, ?Hroom0; try done.
  { apply Hi. }
  rewrite He0 in Hse. rewrite Hh0 in Hcf, Hold.
  unfold schedule_w_grp_lock_dbg. destruct (Z.eqb_spec ent 0); [done|].
  rewrite He. simpl. destruct (Z.eqb_spec (cb e) 0); [done|].
  rewrite Ht. simpl. unfold pj_timer_entry_running.
  destruct (Z.leb_spec 1 (_timer_id e)); [lia|].
  change (lock_timer_heap _) with w0. rewrite Hse. simpl.
  rewrite lookup_insert_eq. simpl. rewrite Hnx. simpl.
  pose proof (hr_range _ _ _ x (hr_arrays _ _ _ Hh') ltac:(rewrite HP; by left)) as Hxr.
  pose proof (hr_dups _ _ _ (hr_arrays _ _ _ Hh')) as Hdl.
  set (e1 := set_entry_timer_id e x).
  set (d' := mk_dup (if set_id then set_entry_id e1 id_val else e1) ent t g f l).
  pose proof (arr_set_in (timer_dups h') x (Some d') ltac:(lia)) as Hds.
  set (ds := <[Z.to_nat x := Some d']> (timer_dups h')) in Hds.
  change (if set_id then set_entry_id e1 id_val else e1) with (dup d'). fold d'.
  rewrite Hds. simpl.
  set (w1 := set_entries _ _).
  set (w2 := set_refs w1 (take_ref (grp_refs w) g)).
  assert (Hstep : (if g =? 0 then Some w1 else grp_lock_add_ref w1 g) = Some w2).
  { unfold w2, take_ref, grp_lock_add_ref. destruct (Z.eqb_spec g 0) as [->|].
    - rewrite <-Hr0. done.
    - destruct Hg as [?|(n' & ? & Hn')]; [done|]. unfold w1. simpl. by rewrite Hr0, Hn'. }
  rewrite Hstep. simpl. exists (unlock_timer_heap w2), t. split; [done|]. split; [done|].
  pose proof (fun y => node_at_set_dups h' ds y _ _ Hds) as Hn.
  destruct (timer_inv_insert w w2 L F L' F' ext x ent e (dup d') d') as [Hi' Hsch]; try done.
  - unfold w2. simpl. eapply heap_rep_touch; [done|done|]. intros _. eexists. split; [done|].
    by destruct set_id.
  - intros y Hy. unfold w2. simpl. rewrite Hn, decide_False by (by intros ->). by apply Hold.
  - unfold w2. simpl. by rewrite Hn, decide_True.
  - unfold w2. simpl. rewrite insert_insert_eq. done.
  - by destruct set_id.
  - by destruct set_id.
  - unfold w2, take_ref. simpl. destruct (Z.eqb_spec g 0); [by left|]. right.
    destruct Hg as [?|(n' & ? & Hn')]; [done|]. exists n'. by rewrite Hn'.
  - split; [by exists L', F'; apply timer_inv_unlock|]. split; [|split; [|split]].
    + eapply timer_abs_insert; [done|]. intros q s. autorewrite with pj. apply Hsch.
    + autorewrite with pj. done.
    + unfold grp_lock_of, grp_of. autorewrite with pj. unfold w2. simpl. rewrite lookup_insert_eq.
      replace (_timer_id _) with x by (by destruct set_id). by rewrite Hn, decide_True.
    + rewrite (lock_unlock (read_clock gettickcount w).2 w2); [done| |done].
      unfold w2. simpl. apply Hcf.
Qed.

(** The heap after a failed attempt to grow: the last id has left the free
    list, whose end is behind the table of the ids. *)
Record exhausted (h : pj_timer_heap_t) : Prop := {
  ex_free : timer_ids_freelist h = max_size h;
  ex_ids : Z.of_nat (length (timer_ids h)) = max_size h;
  ex_dups : max_size h <= Z.of_nat (length (timer_dups h));
  ex_cur : cur_size h < max_size h
}.

Lemma scheduled_same h h' L F F' p t :
  arrays_ok h L F -> arrays_ok h' L F' -> (forall y, y < max_size h -> node_at h' y = node_at h y) ->
  scheduled h' p t <-> scheduled h p t.
Proof.
  intros Ha Ha' Hn. rewrite (scheduled_iff _ _ _ _ _ Ha), (scheduled_iff _ _ _ _ _ Ha').
  split; intros (x & d & Hx & Hd & Hr); exists x, d; pose proof (hr_range _ _ _ x Ha Hx).
  - rewrite Hn in Hd by lia. done.
  - rewrite Hn by lia. done.
Qed.

Lemma schedule_full (w : world P) ext ent e delay set_id id_val g f l :
  timer_ok w ext -> can_double (ht w) -> has_room w = false ->
  ent <> 0 -> entries w !! ent = Some e -> cb e <> 0 -> pj_timer_entry_running e = false ->
  exists w' x, schedule_w_grp_lock_dbg gettickcount w ent delay set_id id_val g f l = Some (PJ_ENOMEM, w') /\
    entries w' = <[ent := set_entry_timer_id e x]> (entries w) /\ 1 <= x < max_size (ht w') /\
    (timer_ids (ht w')).[x] = Some (- max_size (ht w')) /\ exhausted (ht w') /\
    (forall p t, scheduled (ht w') p t <-> scheduled (ht w) p t) /\
    grp_refs w' = grp_refs w /\ lock_depth w' = lock_depth w.
Proof.
  intros (L & F & Hi) Hmax Hroom Hent He Hcb Hrun.
  destruct (time_val_add_total (gettickcount (ticks w)) delay) as [t Ht].
  set (w0 := lock_timer_heap (read_clock gettickcount w).2).
  assert (Hw0 : ht w0 = ht w /\ entries w0 = entries w /\ grp_refs w0 = grp_refs w /\ has_room w0 = has_room w)
    by (unfold w0, has_room; autorewrite with pj; by rewrite pool_lock).
  destruct Hw0 as (Hh0 & He0 & Hr0 & Hroom0).
  destruct (schedule_entry_full w0 L F ent e t) as
    (h' & p' & x & Hse & Ha' & Hcf & Hm & Hn & Hx & Hid & Hfl & Hcur); rewrite ?Hh0, ?He0, ?Hroom0; try done; [apply Hi|].
  rewrite Hh0 in Hcf, Hm, Hn.
  unfold schedule_w_grp_lock_dbg. destruct (Z.eqb_spec ent 0); [done|].
  rewrite He. simpl. destruct (Z.eqb_spec (cb e) 0); [done|]. rewrite Ht. simpl. rewrite Hrun.
  change (lock_timer_heap _) with w0. rewrite Hse. simpl.
  eexists _, x. split; [done|]. autorewrite with pj. simpl. rewrite He0, Hr0. split_and!; try done; try lia.
  - split; [done| | |done]; [by destruct Ha'|apply (hr_dups _ _ _ Ha')].
  - intros p s. apply (scheduled_same _ _ L F []); try done. apply (ti_heap _ _ _ _ Hi).
  - rewrite (lock_unlock (read_clock gettickcount w).2); [done| |done]. simpl. apply Hcf.
Qed.

(** What scheduling does: with room for the entry it is added with its expiry
    time and one reference on its group lock; without, nothing is scheduled and
    no reference taken. *)
Definition schedules (w : world P) (ext : list Z) (m : gmap Z pj_time_val) (ent : Z) (t : pj_time_val) (g : Z)
    (res : option (Z * world P)) : Prop :=
  exists st w', res = Some (st, w') /\ lock_depth w' = lock_depth w /\
  if has_room w then
    st = PJ_SUCCESS /\ timer_ok w' ext /\ timer_abs w' (<[ent := t]> m) /\
    grp_refs w' = take_ref (grp_refs w) g /\ grp_lock_of w' ent = g
  else st = PJ_ENOMEM /\ timer_abs w' m /\ grp_refs w' = grp_refs w.

Lemma schedule_spec (w : world P) ext m ent e delay t set_id id_val g f l :
  timer_ok w ext -> timer_abs w m -> can_double (ht w) ->
  ent <> 0 -> entries w !! ent = Some e -> cb e <> 0 -> pj_timer_entry_running e = false ->
  (g = 0 \/ exists n, 0 <= n /\ grp_refs w !! g = Some n) ->
  PJ_TIME_VAL_ADD (gettickcount (ticks w)) delay = Some t ->
  schedules w ext m ent t g (schedule_w_grp_lock_dbg gettickcount w ent delay set_id id_val g f l).
Proof.
  intros Hok Habs Hmax Hent He Hcb Hrun Hg Ht. unfold schedules. destruct (has_room w) eqn:Hroom.
  - destruct (schedule_w_grp_lock_spec w ext m ent e delay set_id id_val g f l)
      as (w' & t' & Ht' & Hs & H1 & H2 & H3 & H4 & H5); try done.
    rewrite Ht in Ht'. injection Ht' as <-. by eexists _, w'.
  - destruct (schedule_full w ext ent e delay set_id id_val g f l)
      as (w' & x & Hs & _ & _ & _ & _ & Hsch & Hr & Hd); try done.
    eexists _, w'. split_and!; try done. intros p s. rewrite Hsch. apply Habs.
Qed.

(** C1 Scheduling an entry that is not running, by either public function.  If the
    heap has room, or the pool grants the arrays for twice the ids, the entry is
    added to the scheduled entries with the expiry time now + delay, the
    invariant of the heap holds, and with a group lock one reference is taken on
    it; if the pool does not, the result is PJ_ENOMEM, the same entries are
    scheduled as before and no reference is taken.  The lock of the heap is
    released.  The arrays for twice the ids have to be smaller than the address
    space. *)
Theorem schedule_inserts (w : world P) ext m ent e delay id_val g f l :
  timer_ok w ext -> timer_abs w m -> can_double (ht w) ->
  ent <> 0 -> entries w !! ent = Some e -> cb e <> 0 -> pj_timer_entry_running e = false ->
  (g = 0 \/ exists n, 0 <= n /\ grp_refs w !! g = Some n) ->
  exists t, PJ_TIME_VAL_ADD (gettickcount (ticks w)) delay = Some t /\
    schedules w ext m ent t 0 (pj_timer_heap_schedule_dbg gettickcount w ent delay f l) /\
    schedules w ext m ent t g (pj_timer_heap_schedule_w_grp_lock_dbg gettickcount w ent delay id_val g f l).
Proof.
  intros Hok Habs Hmax Hent He Hcb Hrun Hg.
  destruct (time_val_add_total (gettickcount (ticks w)) delay) as [t Ht].
  exists t. split_and!; [done|..]; eapply schedule_spec; eauto.
Qed.

(** What the failing calls do: nothing but take and release the lock. *)
Theorem schedule_rejects (w : world P) ent e delay set_id id_val g f l :
  entries w !! ent = Some e ->
  (cb e = 0 \/ ent = 0 ->
     schedule_w_grp_lock_dbg gettickcount w ent delay set_id id_val g f l = Some (PJ_EINVAL, w)) /\
  (ent <> 0 -> cb e <> 0 -> pj_timer_entry_running e = true ->
     exists w', schedule_w_grp_lock_dbg gettickcount w ent delay set_id id_val g f l =
         Some (PJ_EINVALIDOP, w') /\
       ht w' = ht w /\ entries w' = entries w /\ grp_refs w' = grp_refs w /\
       lock_depth w' = lock_depth w).
Proof.
  intros He. unfold schedule_w_grp_lock_dbg. split.
  - intros Hc. destruct (Z.eqb_spec ent 0); [done|]. rewrite He. simpl.
    destruct (Z.eqb_spec (cb e) 0); [done|]. tauto.
  - intros Hent Hcb Hrun. destruct (Z.eqb_spec ent 0); [done|]. rewrite He. simpl.
    destruct (Z.eqb_spec (cb e) 0); [done|].
    destruct (normalize_spec (mk_time_val (sec (gettickcount (ticks w)) + sec delay)
      (msec (gettickcount (ticks w)) + msec delay))) as (t & Ht & _).
    unfold PJ_TIME_VAL_ADD. rewrite Ht. simpl. rewrite Hrun.
    eexists. split; [done|]. autorewrite with pj. split_and!; try done.
    rewrite (lock_unlock (read_clock gettickcount w).2); [done|by autorewrite with pj|done].
Qed.

Variable run_cb : Z -> Z -> world P -> option (world P).

(** [cancel] on an entry that is running, with [F_DONT_CALL]. *)
Lemma cancel_running (w : world P) L F ext ent e flags :
  timer_inv w L F ext -> entries w !! ent = Some e -> 1 <= _timer_id e ->
  exists d w' L', node_at (ht w) (_timer_id e) = Some d /\ entry d = ent /\
    cancel run_cb w ent (Z.lor flags F_DONT_CALL) = Some (1, w') /\
    timer_inv w' L' (_timer_id e :: F) (_grp_lock d :: ext) /\
    (forall p t, scheduled (ht w') p t <-> p <> ent /\ scheduled (ht w) p t) /\
    entries w' = <[ent := set_entry_timer_id e (-1)]> (entries w) /\
    grp_refs w' = grp_refs w /\ lock (ht w') = lock (ht w) /\ lock_depth w' = lock_depth w.
Proof.
  intros Hi He Hid. destruct (ti_running _ _ _ _ Hi ent e He Hid) as (HL & d & Hd & Hde).
  pose proof HL as HL'. apply list_elem_of_lookup in HL' as [s Hs].
  pose proof (ti_heap _ _ _ _ Hi) as Hh. pose proof (hr_rep _ _ _ (hr_arrays _ _ _ Hh)) as Hr.
  destruct (rep_slot _ _ _ Hr s _ Hs) as [Hsl Hti]; [apply lookup_lt_Some in Hs; lia|].
  destruct (remove_node_spec w L F s (_timer_id e) d e Hh Hs Hd) as
    (h' & L' & Hrm & Hh' & HP & Hcf & Hms & Hn); [by rewrite Hde|done|].
  unfold cancel. rewrite He. simpl. rewrite Hti. simpl.
  destruct (Z.ltb_spec (Z.of_nat s) 0); [lia|].
  unfold heap_at. rewrite Hsl. simpl. rewrite Hd. simpl. rewrite Hde, Z.eqb_refl. simpl.
  rewrite Hrm. simpl.
  assert ((Z.land (Z.lor flags F_DONT_CALL) F_DONT_CALL =? 0) = false) as ->.
  { apply Z.eqb_neq. intros Hz. apply (f_equal (fun z => Z.testbit z 0)) in Hz.
    rewrite Z.land_spec, Z.lor_spec, Z.bits_0 in Hz. change (Z.testbit F_DONT_CALL 0) with true in Hz.
    by rewrite orb_true_r in Hz. }
  simpl. eexists d, _, L'. split; [done|]. split; [done|]. split; [done|].
  destruct (timer_inv_remove w (set_entries (set_ht w h') (<[entry d := set_entry_timer_id e (-1)]> (entries w)))
     L F L' ext (_timer_id e) d e) as [Hi' Hsch]; try done.
  - by rewrite Hde.
  - intros y Hy. simpl. by rewrite Hn, decide_False.
  - rewrite Hde in Hsch. split_and!; try done.
    + simpl. by rewrite Hde.
    + apply Hcf.
Qed.

(** C2 Cancelling an entry returns 1 if it was running and 0 if not; the entry
    is not scheduled afterwards and no other entry is affected, exactly the
    reference on the group lock it was scheduled with is given back, the lock of
    the heap is released and the invariant holds. *)
Theorem cancel_deletes (w : world P) ext m ent e flags id_val :
  timer_ok w ext -> timer_abs w m -> ent <> 0 -> entries w !! ent = Some e ->
  exists w', cancel_timer run_cb w ent flags id_val =
      Some (if pj_timer_entry_running e then 1 else 0, w') /\
    timer_ok w' ext /\ timer_abs w' (delete ent m) /\ lock_depth w' = lock_depth w /\
    grp_refs w' = if pj_timer_entry_running e then drop_ref (grp_refs w) (grp_lock_of w ent) else grp_refs w.
Proof.
  intros (L & F & Hi) Habs Hent He. unfold cancel_timer, pj_timer_entry_running.
  destruct (Z.eqb_spec ent 0); [done|]. autorewrite with pj. rewrite He. simpl.
  destruct (Z.leb_spec 1 (_timer_id e)) as [Hid|Hid].
  2: { destruct (Z.ltb_spec (_timer_id e) 1); [|lia]. simpl.
       eexists. split; [done|].
       split; [by exists L, F; apply timer_inv_unlock, timer_inv_lock|].
       split; [|split; [by apply lock_unlock; autorewrite with pj|by autorewrite with pj]].
       eapply timer_abs_delete; [done|]. intros p t. autorewrite with pj.
       split; [|tauto]. intros Hs. split; [|done]. intros ->.
       pose proof (proj2 (running_scheduled w ext ent e (ex_intro _ L (ex_intro _ F Hi)) He)) as Hrs.
       specialize (Hrs (ex_intro _ t Hs)). apply Z.leb_le in Hrs. lia. }
  destruct (cancel_running (lock_timer_heap w) L F ext ent e flags) as
    (d & w1 & L' & Hd & Hde & Hc & Hi' & Hsch & Hes & Hrefs & Hlk & Hdp);
    [by apply timer_inv_lock|by autorewrite with pj|done|].
  autorewrite with pj in Hd, Hes, Hrefs, Hlk.
  destruct (ti_running _ _ _ _ Hi ent e He Hid) as (HL & _).
  pose proof (hr_range _ _ _ _ (hr_arrays _ _ _ (ti_heap _ _ _ _ Hi)) HL).
  destruct (Z.ltb_spec (_timer_id e) 1); [lia|].
  destruct (Z.leb_spec (max_size (ht w)) (_timer_id e)); [lia|]. simpl.
  unfold node_at in Hd. destruct (timer_dups (ht w)).[_timer_id e] as [[d'|]|] eqn:Hdd; try done.
  simpl in Hd. injection Hd as ->. simpl. rewrite Hc. simpl.
  set (w2 := if Z.land flags F_SET_ID =? 0 then w1 else
    set_entries w1 (<[ent := set_entry_id (set_entry_timer_id e (-1)) id_val]> (entries w1))).
  assert (Hw2 : (if Z.land flags F_SET_ID =? 0 then Some w1 else
                e ← entries w1 !! ent;
                Some (set_entries w1 (<[ent := set_entry_id e id_val]> (entries w1)))) = Some w2).
  { unfold w2. destruct (_ =? 0); [done|]. by rewrite Hes, lookup_insert_eq. }
  rewrite Hw2. simpl.
  assert (Hi2 : timer_inv w2 L' (_timer_id e :: F) (_grp_lock d :: ext)).
  { unfold w2. destruct (_ =? 0); [done|].
    eapply timer_inv_set_entry; [done|by rewrite Hes, lookup_insert_eq|done..]. }
  assert (Hht2 : ht w2 = ht w1 /\ lock_depth w2 = lock_depth w1 /\ grp_refs w2 = grp_refs w1)
    by (unfold w2; by destruct (_ =? 0)).
  destruct Hht2 as (Hht2 & Hdp2 & Hrf2).
  destruct (drop_grp_ref _ _ _ _ _ Hi2) as (w3 & -> & Hi3 & Hht3 & Hdp3 & _ & _ & Hrf3).
  simpl. eexists. split; [done|].
  split; [by exists L', (_timer_id e :: F); apply timer_inv_unlock|].
  split; [|split; [apply lock_unlock; congruence|]].
  - eapply timer_abs_delete; [done|]. intros p t. autorewrite with pj.
    rewrite Hht3, Hht2, Hsch. by autorewrite with pj.
  - autorewrite with pj. rewrite Hrf3, Hrf2, Hrefs. f_equal.
    unfold grp_lock_of, grp_of, node_at. by rewrite He, Hdd.
Qed.

(** ** Polling *)

(** The entry the heap would hand out next, when there is one: the first
    slot, and nothing scheduled expires before it. *)
Lemma heap_first (w : world P) L F ext :
  timer_inv w L F ext -> cur_size (ht w) <> 0 ->
  exists x d e, L !! 0%nat = Some x /\ x ∈ L /\ node_at (ht w) x = Some d /\
    entries w !! entry d = Some e /\ _timer_id e = x /\
    cb (dup d) = cb e /\ user_data (dup d) = user_data e /\ cb e <> 0 /\
    slot_time (ht w) 0 = Some (_timer_value d) /\
    scheduled (ht w) (entry d) (_timer_value d) /\
    (forall p t, scheduled (ht w) p t -> time_le (_timer_value d) t).
Proof.
  intros Hi Hc. pose proof (hr_arrays _ _ _ (ti_heap _ _ _ _ Hi)) as Ha.
  pose proof (hr_cur _ _ _ Ha) as Hcur.
  destruct L as [|x L]; [simpl in *; lia|].
  destruct (ti_node _ _ _ _ Hi x) as (d & e & Hd & He & Ht & Hcb & Hud & Hcb0); [by left|].
  assert (Htime : time_of (ht w) x = _timer_value d) by (unfold time_of, node_time; by rewrite Hd).
  exists x, d, e. split_and!; try done; [by left| | |].
  - rewrite <-Htime. by apply (rep_slot_time (ht w) (x :: L) (length (x :: L)) 0); [apply Ha| |].
  - apply (scheduled_iff _ _ _ _ _ Ha). exists x, d. split_and!; try done. by left.
  - intros p t (y & d' & [i Hy]%list_elem_of_lookup & Hd' & _ & <-)%(scheduled_iff _ _ _ _ _ Ha).
    pose proof (heap_order_min _ _ x i y (hr_order _ _ _ Ha) eq_refl Hy) as Hle.
    unfold expires_before in Hle. rewrite Htime in Hle.
    unfold time_of, node_time in Hle. rewrite Hd' in Hle. done.
Qed.

(** [poll_entry] up to the callback: the first entry is out of the heap, which
    is unlocked; its group lock reference is still held. *)
Lemma poll_entry_take (w : world P) L F ext :
  timer_inv w L F ext -> cur_size (ht w) <> 0 ->
  exists d e w1 L1 F1,
    slot_time (ht w) 0 = Some (_timer_value d) /\
    scheduled (ht w) (entry d) (_timer_value d) /\
    (forall p t, scheduled (ht w) p t -> time_le (_timer_value d) t) /\
    poll_entry run_cb w =
      (w2 ← (if negb (cb e =? 0) then run_cb (cb e) (entry d) (log_fired w1 (entry d)) else Some w1);
       w3 ← (if negb (_grp_lock d =? 0) then grp_lock_dec_ref w2 (_grp_lock d) else Some w2);
       Some (lock_timer_heap w3)) /\
    entries w !! entry d = Some e /\ cb e <> 0 /\ length L = S (length L1) /\
    timer_inv w1 L1 F1 (_grp_lock d :: ext) /\
    (forall p t, scheduled (ht w1) p t <-> p <> entry d /\ scheduled (ht w) p t) /\
    same_config (ht w) (ht w1) /\ lock_depth w1 = lock_depth (unlock_timer_heap w) /\
    fired w1 = fired w /\ ticks w1 = ticks w.
Proof.
  intros Hi Hc.
  destruct (heap_first w L F ext Hi Hc) as (x & d & e & Hx & HxL & Hd & He & Ht & Hcb & Hud & Hcb0 & Hst & Hs & Hmin).
  pose proof (ti_heap _ _ _ _ Hi) as Hh.
  destruct (remove_node_spec w L F 0 x d e Hh Hx Hd He Ht) as (h' & L1 & Hrm & Hh' & HP & Hcf & Hms & Hn).
  pose proof (hr_range _ _ _ x (hr_arrays _ _ _ Hh) HxL) as Hxr.
  pose proof (hr_dups _ _ _ (hr_arrays _ _ _ Hh')) as Hdl.
  set (d0 := set_dup d (set_entry_timer_id (dup d) (-1))) in *.
  pose proof (arr_set_in (timer_dups h') x (Some (set_dup_grp_lock d0 0)) ltac:(lia)) as Hds.
  set (ds := <[Z.to_nat x := Some (set_dup_grp_lock d0 0)]> (timer_dups h')) in Hds.
  set (w0 := set_entries (set_ht w (set_dups h' ds)) (<[entry d := set_entry_timer_id e (-1)]> (entries w))).
  assert (Hxn : x ∉ L1).
  { pose proof (hr_nodup _ _ _ (hr_arrays _ _ _ Hh)) as Hnd. rewrite HP in Hnd. simpl in Hnd.
    apply NoDup_cons in Hnd as [Hnd _]. rewrite elem_of_app in Hnd. tauto. }
  destruct (timer_inv_remove w w0 L F L1 ext x d e Hi Hd He) as [Hi1 Hsch]; try done.
  { eapply heap_rep_touch; [done|done|]. done. }
  { intros y Hy. unfold w0. simpl. rewrite (node_at_set_dups _ _ _ _ _ Hds), decide_False by done.
    by rewrite Hn, decide_False. }
  exists d, e, (unlock_timer_heap w0), L1, (x :: F).
  split_and!; try done.
  - unfold poll_entry. change (Z.of_nat 0) with 0 in Hrm. rewrite Hrm. cbn [mbind option_bind ht set_ht set_entries].
    rewrite Hn, decide_True by done. cbn [mbind option_bind].
    rewrite Hds. simpl. rewrite lookup_insert_eq. simpl.
    rewrite Hcb, Hud, !Z.eqb_refl. done.
  - apply Permutation_length in HP. done.
  - by apply timer_inv_unlock.
  - intros p t. autorewrite with pj. apply Hsch.
  - autorewrite with pj. destruct Hcf. by split.
  - unfold unlock_timer_heap. simpl. rewrite (sc_lock _ _ Hcf). by destruct (lock (ht w) =? 0).
  - autorewrite with pj. done.
  - unfold unlock_timer_heap. by destruct (_ =? 0).
Qed.

(** The contract of the application's callbacks: they leave a heap in order,
    give up no reference they do not own, leave the lock as they find it and
    do not raise the limit of the poll that runs them. *)
Class WellBehaved : Prop := well_behaved : forall c p (w : world P) ext,
  timer_ok w ext -> exists w', run_cb c p w = Some w' /\ timer_ok w' ext /\
    max_entries_per_poll (ht w') = max_entries_per_poll (ht w) /\
    lock (ht w') = lock (ht w) /\ lock_depth w' = lock_depth w.

Lemma timer_ok_log (w : world P) ext p : timer_ok w ext -> timer_ok (log_fired w p) ext.
Proof. intros (L & F & H). exists L, F. by eapply timer_inv_frame; [..|exact H]. Qed.

Lemma timer_ok_clock (w : world P) ext :
  timer_ok w ext -> timer_ok (read_clock gettickcount w).2 ext.
Proof. intros (L & F & H). exists L, F. by eapply timer_inv_frame; [..|exact H]. Qed.

Lemma depth_unlock_lock (w w' : world P) :
  lock (ht w') = lock (ht w) -> lock_depth w' = lock_depth (unlock_timer_heap w) ->
  lock_depth (lock_timer_heap w') = lock_depth w.
Proof.
  unfold lock_timer_heap, unlock_timer_heap. intros ->. destruct (lock (ht w) =? 0); simpl; lia.
Qed.

Lemma poll_entry_spec `{!WellBehaved} (w : world P) ext :
  timer_ok w ext -> cur_size (ht w) <> 0 ->
  exists w', poll_entry run_cb w = Some w' /\ timer_ok w' ext /\
    max_entries_per_poll (ht w') = max_entries_per_poll (ht w) /\
    lock (ht w') = lock (ht w) /\ lock_depth w' = lock_depth w.
Proof.
  intros (L & F & Hi) Hc.
  destruct (poll_entry_take w L F ext Hi Hc) as
    (d & e & w1 & L1 & F1 & _ & _ & _ & -> & _ & _ & _ & Hi1 & _ & Hcf & Hdp & _ & _).
  assert (Hok1 : timer_ok w1 (_grp_lock d :: ext)) by (by exists L1, F1).
  assert (exists w2, (if negb (cb e =? 0) then run_cb (cb e) (entry d) (log_fired w1 (entry d))
                      else Some w1) = Some w2 /\ timer_ok w2 (_grp_lock d :: ext) /\
      max_entries_per_poll (ht w2) = max_entries_per_poll (ht w) /\
      lock (ht w2) = lock (ht w) /\ lock_depth w2 = lock_depth w1) as (w2 & -> & (L2 & F2 & Hi2) & Hm2 & Hl2 & Hd2).
  { destruct Hcf as [Hm Hl _ _]. destruct (cb e =? 0); simpl; [by eauto 8|].
    destruct (well_behaved (cb e) (entry d) (log_fired w1 (entry d)) _ (timer_ok_log _ _ _ Hok1))
      as (w2 & ? & ? & Hm2 & Hl2 & ?).
    exists w2. split_and!; try done; by etrans. }
  simpl.
  rewrite if_negb. destruct (drop_grp_ref _ _ _ _ _ Hi2) as (w3 & -> & Hi3 & Hht3 & Hdp3 & _).
  simpl. eexists. split; [done|]. split; [by exists L2, F2; apply timer_inv_lock|].
  autorewrite with pj. rewrite Hht3. split_and!; try done.
  apply depth_unlock_lock; congruence.
Qed.

Lemma cur_size_nonneg (w : world P) ext : timer_ok w ext -> 0 <= cur_size (ht w).
Proof. intros (L & F & Hi). rewrite (hr_cur _ _ _ (hr_arrays _ _ _ (ti_heap _ _ _ _ Hi))). lia. Qed.

Lemma slot_time_first (w : world P) ext :
  timer_ok w ext -> cur_size (ht w) <> 0 -> exists t, slot_time (ht w) 0 = Some t /\
    (exists p, scheduled (ht w) p t) /\ (forall p t', scheduled (ht w) p t' -> time_le t t').
Proof.
  intros (L & F & Hi) Hc.
  destruct (heap_first w L F ext Hi Hc) as (x & d & e & _ & _ & _ & _ & _ & _ & _ & _ & ? & ? & ?).
  eauto 8.
Qed.

Lemma poll_loop_spec `{!WellBehaved} fuel (w : world P) ext count now mt :
  timer_ok w ext -> 0 <= count -> max_entries_per_poll (ht w) <= UINT_MAX ->
  Z.to_nat (max_entries_per_poll (ht w) - count) = fuel ->
  (count = 0 \/ count <= max_entries_per_poll (ht w)) ->
  exists n now' w', poll_loop gettickcount run_cb fuel w count now mt = Some (n, now', w') /\
    timer_ok w' ext /\ count <= n /\ (n = 0 \/ n <= max_entries_per_poll (ht w)) /\
    lock (ht w') = lock (ht w) /\ lock_depth w' = lock_depth w.
Proof.
  revert w count now mt. induction fuel as [|fuel IH]; intros w count now mt Hok Hc Hmx Hf Hle.
  all: simpl; destruct (Z.eqb_spec (cur_size (ht w)) 0) as [Hz|Hz]; simpl;
    [exists count, now, w; split_and!; done || lia|].
  all: destruct (PJ_TIME_VAL_LTE mt now); simpl; [|exists count, now, w; split_and!; done || lia].
  all: destruct (Z.ltb_spec count (max_entries_per_poll (ht w)));
    [|exists count, now, w; split_and!; done || lia].
  { lia. }
  destruct (poll_entry_spec w ext Hok Hz) as (w1 & -> & Hok1 & Hm1 & Hl1 & Hd1). simpl.
  rewrite u32_small by (unfold UINT_MAX in *; lia).
  assert (Hgo : forall (w2 : world P) now2 mt2, timer_ok w2 ext -> ht w2 = ht w1 -> lock_depth w2 = lock_depth w1 ->
    exists n now' w', poll_loop gettickcount run_cb fuel w2 (count + 1) now2 mt2 = Some (n, now', w') /\
    timer_ok w' ext /\ count <= n /\ (n = 0 \/ n <= max_entries_per_poll (ht w)) /\
    lock (ht w') = lock (ht w) /\ lock_depth w' = lock_depth w).
  { intros w2 now2 mt2 Hok2 Hht Hdp.
    destruct (IH w2 (count + 1) now2 mt2) as (n & now' & w' & Heq & Hok' & Hcn & Hn & Hl & Hd);
      rewrite ?Hht, ?Hm1; try done; try lia.
    exists n, now', w'. rewrite Hht in Hn, Hl. rewrite Hm1 in Hn.
    split_and!; try done; try lia; congruence. }
  destruct (Z.eqb_spec (cur_size (ht w1)) 0) as [Hz1|Hz1]; simpl; [by apply Hgo|].
  destruct (slot_time_first w1 ext Hok1 Hz1) as (t & -> & _). simpl.
  apply Hgo; [|done..]. by apply timer_ok_clock.
Qed.

Lemma poll_next_delay_spec (w : world P) ext n now want_delay :
  timer_ok w ext ->
  exists nd w', poll_next_delay gettickcount w n now want_delay = Some (nd, w') /\ timer_ok w' ext /\
    (want_delay = true <-> is_Some nd) /\ ht w' = ht w /\ lock_depth w' = lock_depth w /\
    fired w' = fired w /\
    (want_delay = true -> cur_size (ht w) = 0 -> nd = Some (mk_time_val PJ_MAXINT32 PJ_MAXINT32)).
Proof.
  intros Hok. unfold poll_next_delay.
  destruct want_delay; rewrite ?andb_true_r, ?andb_false_r.
  2: { eexists None, w. split_and!; try done. }
  destruct (Z.eqb_spec (cur_size (ht w)) 0) as [|Hz]; simpl.
  { eexists _, w. split_and!; try done. }
  destruct (slot_time_first w ext Hok Hz) as (t & -> & _). simpl.
  destruct (0 <? n); simpl;
    match goal with |- context [PJ_TIME_VAL_SUB ?a ?b] =>
      destruct (time_val_sub_total a b) as [s ->] end; simpl; eexists _, _; (split; [done|]);
    split_and!; try done. by apply (timer_ok_clock w).
Qed.

Lemma timer_ok_lock (w : world P) ext : timer_ok w ext -> timer_ok (lock_timer_heap w) ext.
Proof. intros (L & F & Hi). exists L, F. by apply timer_inv_lock. Qed.

Lemma timer_ok_unlock (w : world P) ext : timer_ok w ext -> timer_ok (unlock_timer_heap w) ext.
Proof. intros (L & F & Hi). exists L, F. by apply timer_inv_unlock. Qed.

(** [pj_timer_heap_poll] unfolded up to its loop. *)
Lemma poll_unfold (w : world P) ext want_delay :
  timer_ok w ext -> exists mt w1,
    ht w1 = ht w /\ entries w1 = entries w /\ timer_ok w1 ext /\ fired w1 = fired w /\
    lock_depth w1 = lock_depth (lock_timer_heap w) /\
    (cur_size (ht w) <> 0 -> slot_time (ht w) 0 = Some mt) /\
    pj_timer_heap_poll gettickcount run_cb w want_delay =
      if (cur_size (ht w) =? 0) && want_delay then
        Some (0, Some (mk_time_val PJ_MAXINT32 PJ_MAXINT32), unlock_timer_heap (lock_timer_heap w))
      else
        '(count, now, w2) ← poll_loop gettickcount run_cb (Z.to_nat (max_entries_per_poll (ht w))) w1 0
                             (gettickcount (ticks w)) mt;
        '(next_delay, w3) ← poll_next_delay gettickcount w2 count now want_delay;
        Some (count, next_delay, unlock_timer_heap w3).
Proof.
  intros Hok. unfold pj_timer_heap_poll. autorewrite with pj.
  assert (exists mt, (if negb (cur_size (ht w) =? 0) then slot_time (ht w) 0
    else Some (mk_time_val 0 0)) = Some mt) as [mt Hmt].
  { destruct (Z.eqb_spec (cur_size (ht w)) 0) as [|Hz]; simpl; [by eauto|].
    destruct (slot_time_first w ext Hok Hz) as (t & ? & _). eauto. }
  set (w1 := (read_clock gettickcount (lock_timer_heap w)).2).
  assert (Hht1 : ht w1 = ht w) by (unfold w1; simpl; by autorewrite with pj).
  assert (Htk : ticks (lock_timer_heap w) = ticks w) by apply ticks_lock.
  exists mt, w1. split_and!; try done.
  - unfold w1. simpl. by autorewrite with pj.
  - by apply timer_ok_clock, timer_ok_lock.
  - unfold w1. simpl. by autorewrite with pj.
  - intros Hz. destruct (Z.eqb_spec (cur_size (ht w)) 0); done.
  - destruct ((cur_size (ht w) =? 0) && want_delay); [done|].
    change (read_clock gettickcount (lock_timer_heap w))
      with (gettickcount (ticks (lock_timer_heap w)), w1).
    cbn iota beta. rewrite Hht1, Hmt, Htk. done.
Qed.

(** C3 Whatever the callbacks do, as long as they keep their contract,
    [pj_timer_heap_poll] returns: it never follows a stale slot, runs at most
    [max_entries_per_poll] callbacks, keeps the invariant and leaves the lock
    of the heap released. *)
Theorem poll_safe `{!WellBehaved} (w : world P) ext want_delay :
  timer_ok w ext -> 0 <= max_entries_per_poll (ht w) <= UINT_MAX ->
  exists n delay w', pj_timer_heap_poll gettickcount run_cb w want_delay = Some (n, delay, w') /\
    timer_ok w' ext /\ 0 <= n <= max_entries_per_poll (ht w) /\ lock_depth w' = lock_depth w /\
    (want_delay = true <-> is_Some delay).
Proof.
  intros Hok Hm.
  destruct (poll_unfold w ext want_delay Hok) as (mt & w1 & Hht1 & _ & Hok1 & _ & Hd1 & _ & ->).
  destruct ((cur_size (ht w) =? 0) && want_delay) eqn:E.
  { apply andb_true_iff in E as [_ ->]. eexists _, _, _. split; [done|].
    split_and!; try done; [by apply timer_ok_unlock, timer_ok_lock|lia|].
    apply lock_unlock; by autorewrite with pj. }
  destruct (poll_loop_spec (Z.to_nat (max_entries_per_poll (ht w))) w1 ext 0
    (gettickcount (ticks w)) mt) as (n & now' & w' & -> & Hok' & Hn0 & Hn & Hl & Hd);
    rewrite ?Hht1; try done; try lia.
  rewrite Hht1 in *. simpl.
  destruct (poll_next_delay_spec w' ext n now' want_delay Hok') as
    (nd & w2 & -> & Hok2 & Hnd & Hht2 & Hdp2 & _ & _).
  simpl. eexists n, nd, _. split; [done|].
  split; [by apply timer_ok_unlock|]. split; [destruct Hn; lia|]. split; [|done].
  apply lock_unlock; congruence.
Qed.

(** *** Polling with callbacks that leave the heap alone *)

Section passive.
Variable now : pj_time_val.
Hypothesis Hclock : forall n, gettickcount n = now.
Hypothesis Hpassive : forall c p (w : world P), run_cb c p w = Some w.

Lemma poll_entry_passive (w : world P) ext :
  timer_ok w ext -> cur_size (ht w) <> 0 ->
  exists p t w', poll_entry run_cb w = Some w' /\ timer_ok w' ext /\
    slot_time (ht w) 0 = Some t /\ scheduled (ht w) p t /\
    (forall q s, scheduled (ht w) q s -> time_le t s) /\
    (forall q s, scheduled (ht w') q s <-> q <> p /\ scheduled (ht w) q s) /\
    cur_size (ht w') = cur_size (ht w) - 1 /\ fired w' = fired w ++ [p] /\
    max_entries_per_poll (ht w') = max_entries_per_poll (ht w).
Proof.
  intros (L & F & Hi) Hc.
  destruct (poll_entry_take w L F ext Hi Hc) as
    (d & e & w1 & L1 & F1 & Hst & Hs & Hmin & -> & _ & Hcb & HL & Hi1 & Hsch & Hcf & _ & Hfi & _).
  destruct (Z.eqb_spec (cb e) 0); [done|]. simpl. rewrite Hpassive. simpl.
  assert (Hil : timer_inv (log_fired w1 (entry d)) L1 F1 (_grp_lock d :: ext))
    by (by eapply timer_inv_frame; [..|exact Hi1]).
  rewrite if_negb. destruct (drop_grp_ref _ _ _ _ _ Hil) as (w3 & -> & Hi3 & Hht3 & _ & Hfi3 & _).
  pose proof (hr_cur _ _ _ (hr_arrays _ _ _ (ti_heap _ _ _ _ Hi))).
  pose proof (hr_cur _ _ _ (hr_arrays _ _ _ (ti_heap _ _ _ _ Hi1))).
  simpl. exists (entry d), (_timer_value d), (lock_timer_heap w3). autorewrite with pj. rewrite Hht3.
  split_and!; try done; try lia.
  - by apply timer_ok_lock; exists L1, F1.
  - simpl. lia.
  - rewrite Hfi3. simpl. congruence.
  - apply Hcf.
Qed.

(** In the order of expiry, according to the schedule of [h]. *)
Definition expiry_sorted (h : pj_timer_heap_t) (ps : list Z) : Prop :=
  StronglySorted (fun p q => forall s t, scheduled h p s -> scheduled h q t -> time_le s t) ps.

(** What a run of the loop from [w] to [w'] that fires [ps] amounts to, when it
    may fire [limit] entries: [ps] are expired entries, each once and in order of
    expiry, no later than any that is left; the others are still scheduled, and
    none of them has expired unless the limit was reached. *)
Record drained (limit : Z) (w w' : world P) (ps : list Z) : Prop := {
  dr_fired : fired w' = fired w ++ ps;
  dr_sorted : expiry_sorted (ht w) ps;
  dr_once : NoDup ps;
  dr_expired p : p ∈ ps -> exists t, scheduled (ht w) p t /\ time_le t now;
  dr_left p t : scheduled (ht w') p t <-> scheduled (ht w) p t /\ p ∉ ps;
  dr_first p q s t : p ∈ ps -> scheduled (ht w) p s -> scheduled (ht w') q t -> time_le s t;
  dr_limit : Z.of_nat (length ps) <= limit;
  dr_all : Z.of_nat (length ps) < limit -> forall p t, scheduled (ht w') p t -> ~ time_le t now
}.

Lemma drained_nil limit (w : world P) : 0 <= limit ->
  (0 < limit -> forall p t, scheduled (ht w) p t -> ~ time_le t now) -> drained limit w w [].
Proof.
  intros H0 Hn. split; simpl; rewrite ?app_nil_r; try done.
  - constructor.
  - constructor.
  - by intros ? ?%elem_of_nil.
  - intros p t. rewrite elem_of_nil. tauto.
  - by intros ? ? ? ? ?%elem_of_nil.
Qed.

Lemma drained_view limit (w1 w1' w2 w2' : world P) ps :
  ht w1 = ht w2 -> fired w1 = fired w2 -> ht w1' = ht w2' -> fired w1' = fired w2' ->
  drained limit w1 w1' ps -> drained limit w2 w2' ps.
Proof. intros H1 H2 H3 H4 []. split; rewrite <-?H1, <-?H2, <-?H3, <-?H4; done. Qed.

(** One entry taken, the first to expire, and then the rest. *)
Lemma drained_cons limit (w w1 w' : world P) ext p t ps :
  timer_ok w ext -> scheduled (ht w) p t -> time_le t now ->
  (forall q s, scheduled (ht w) q s -> time_le t s) ->
  (forall q s, scheduled (ht w1) q s <-> q <> p /\ scheduled (ht w) q s) ->
  fired w1 = fired w ++ [p] -> drained (limit - 1) w1 w' ps -> drained limit w w' (p :: ps).
Proof.
  intros Hok Hp Hle Hmin Hsch Hfi [Hf Hs Hn He Hl Hfst Hlim Hall].
  assert (Hin : forall q, q ∈ ps -> q <> p) by (intros q (s & [? _]%Hsch & _)%He; done).
  split.
  - by rewrite Hf, Hfi, <-app_assoc.
  - constructor.
    + eapply StronglySorted_impl_in; [|exact Hs]. intros q r ?%Hin ?%Hin HR s s' ??.
      apply HR; by apply Hsch.
    + apply Forall_forall. intros q Hq s s' H1 H2. rewrite (scheduled_fun w ext p s t); eauto.
  - constructor; [|done]. intros Hps. by destruct (Hin p).
  - intros q [->|Hq]%elem_of_cons; [by exists t|]. destruct (He q Hq) as (s & [_ ?]%Hsch & ?). by exists s.
  - intros q s. rewrite Hl, Hsch, not_elem_of_cons. tauto.
  - intros q r s s' [->|Hq]%elem_of_cons Hqs Hr.
    + rewrite (scheduled_fun w ext p s t) by done. apply Hl in Hr as [[_ Hr]%Hsch _]. by eapply Hmin.
    + apply (Hfst q r); try done. apply Hsch. split; [by apply Hin|done].
  - simpl length. lia.
  - simpl length. intros Hlt. apply Hall. lia.
Qed.

Lemma poll_loop_passive fuel (w : world P) ext count mt :
  timer_ok w ext -> 0 <= count <= max_entries_per_poll (ht w) -> max_entries_per_poll (ht w) <= UINT_MAX ->
  max_entries_per_poll (ht w) - count <= Z.of_nat fuel ->
  (cur_size (ht w) <> 0 -> slot_time (ht w) 0 = Some mt) ->
  exists ps w', poll_loop gettickcount run_cb fuel w count now mt =
      Some (count + Z.of_nat (length ps), now, w') /\ timer_ok w' ext /\
      drained (max_entries_per_poll (ht w) - count) w w' ps.
Proof.
  revert w count mt. induction fuel as [|fuel IH]; intros w count mt Hok Hc Hu Hf Hst.
  all: assert (Hstop : (count < max_entries_per_poll (ht w) -> forall p t, scheduled (ht w) p t -> ~ time_le t now) ->
    exists ps w', Some (count, now, w) = Some (count + Z.of_nat (length ps), now, w') /\
      timer_ok w' ext /\ drained (max_entries_per_poll (ht w) - count) w w' ps)
    by (intros Hn; exists [], w; rewrite Z.add_0_r; split_and!; [done..|apply drained_nil; [lia|intros ?; apply Hn; lia]]).
  all: simpl; destruct (Z.eqb_spec (cur_size (ht w)) 0) as [Hz|Hz]; simpl;
    [apply Hstop; intros _ p t (i & ? & ? & ? & _); lia|].
  { rewrite (proj2 (Z.ltb_ge _ _)), andb_false_r by lia. apply Hstop. lia. }
  destruct (poll_entry_passive w ext Hok Hz) as
    (p & t & w1 & Hpe & Hok1 & Hst1 & Hp & Hmin & Hsch & Hcur & Hfi & Hmm).
  rewrite Hst in Hst1 by done. injection Hst1 as ->.
  destruct (PJ_TIME_VAL_LTE t now) eqn:El; simpl.
  2: { apply Hstop. intros _ q s Hq Hle. specialize (Hmin q s Hq).
       rewrite <-not_true_iff_false, time_val_lte_spec in El. apply El. by trans s. }
  apply time_val_lte_spec in El.
  destruct (Z.ltb_spec count (max_entries_per_poll (ht w))); [|apply Hstop; lia].
  rewrite Hpe. simpl. rewrite u32_small by (unfold UINT_MAX in *; lia).
  assert (Hgo : forall (w2 : world P) mt2, timer_ok w2 ext -> ht w2 = ht w1 -> fired w2 = fired w1 ->
    (cur_size (ht w1) <> 0 -> slot_time (ht w1) 0 = Some mt2) ->
    exists ps w', poll_loop gettickcount run_cb fuel w2 (count + 1) now mt2 =
      Some (count + Z.of_nat (length ps), now, w') /\ timer_ok w' ext /\
      drained (max_entries_per_poll (ht w) - count) w w' ps).
  { intros w2 mt2 Hok2 Hht Hf2 Hst2.
    destruct (IH w2 (count + 1) mt2) as (ps & w' & -> & Hok' & Hdr); rewrite ?Hht, ?Hmm; try done; try lia.
    exists (p :: ps), w'. split_and!; [|done|].
    - do 3 f_equal. simpl length. lia.
    - apply (drained_cons _ w w2 w' ext p t ps); try done; [by rewrite Hht|congruence|].
      rewrite Hht, Hmm in Hdr. by replace (max_entries_per_poll (ht w) - count - 1)
        with (max_entries_per_poll (ht w) - (count + 1)) by lia. }
  destruct (Z.eqb_spec (cur_size (ht w1)) 0) as [Hz1|Hz1]; simpl.
  { apply Hgo; try done; lia. }
  destruct (slot_time_first w1 ext Hok1 Hz1) as (s & Hs & _). rewrite Hs. simpl. rewrite Hclock.
  apply Hgo; try done. by apply timer_ok_clock.
Qed.
End passive.

(** C4 With callbacks that leave the heap alone and a stopped clock, one
    [pj_timer_heap_poll] fires expired entries, each once and in the order of their
    expiry, and leaves exactly the others scheduled.  It fires at most
    [max_entries_per_poll] of them, those that expire first; if it fires fewer,
    no expired entry is left. *)
Theorem poll_fires_expired now (w : world P) ext want_delay :
  (forall n, gettickcount n = now) -> (forall c p (v : world P), run_cb c p v = Some v) ->
  timer_ok w ext -> 0 <= max_entries_per_poll (ht w) <= UINT_MAX ->
  exists ps delay w', pj_timer_heap_poll gettickcount run_cb w want_delay =
      Some (Z.of_nat (length ps), delay, w') /\
    timer_ok w' ext /\ drained now (max_entries_per_poll (ht w)) w w' ps.
Proof.
  intros Hclock Hpass Hok Hm.
  destruct (poll_unfold w ext want_delay Hok) as (mt & w1 & Hht1 & _ & Hok1 & Hfi1 & _ & Hst & ->).
  destruct ((cur_size (ht w) =? 0) && want_delay) eqn:E.
  { apply andb_true_iff in E as [Hz%Z.eqb_eq ->]. eexists [], _, _. split; [done|].
    split; [by apply timer_ok_unlock, timer_ok_lock|].
    eapply (drained_view _ _ w w); [by autorewrite with pj..|]. apply drained_nil; [lia|].
    intros _ p t (i & ? & ? & ? & _). lia. }
  rewrite Hclock.
  destruct (poll_loop_passive now Hclock Hpass (Z.to_nat (max_entries_per_poll (ht w))) w1 ext 0 mt)
    as (ps & w' & -> & Hok' & Hdr); rewrite ?Hht1; try done; try lia.
  rewrite Hht1, Z.sub_0_r in Hdr. rewrite Z.add_0_l. simpl.
  destruct (poll_next_delay_spec w' ext (Z.of_nat (length ps)) now want_delay Hok') as
    (nd & w2 & -> & Hok2 & _ & Hht2 & _ & Hfi2 & _).
  simpl. exists ps, nd, (unlock_timer_heap w2). split; [done|].
  split; [by apply timer_ok_unlock|].
  eapply (drained_view _ _ w1 w'); autorewrite with pj; done.
Qed.

(** [pj_timer_heap_earliest_time] reports PJ_ENOTFOUND for an empty heap and
    otherwise the least of the expiry times; it changes nothing. *)
Theorem earliest_is_minimum (w : world P) ext m :
  timer_ok w ext -> timer_abs w m -> exists st t w',
    pj_timer_heap_earliest_time w = Some (st, t, w') /\
    ht w' = ht w /\ entries w' = entries w /\ lock_depth w' = lock_depth w /\
    match t with
    | None => st = PJ_ENOTFOUND /\ m = ∅
    | Some t => st = PJ_SUCCESS /\ (exists p, m !! p = Some t) /\
        forall p s, m !! p = Some s -> time_le t s
    end.
Proof.
  intros Hok Habs. unfold pj_timer_heap_earliest_time. autorewrite with pj.
  destruct (Z.eqb_spec (cur_size (ht w)) 0) as [Hz|Hz].
  - eexists _, None, _. split; [done|]. autorewrite with pj. split_and!; try done.
    + by apply lock_unlock; autorewrite with pj.
    + apply map_empty. intros p. apply eq_None_not_Some. intros [t (i & ? & ? & ? & _)%Habs]. lia.
  - destruct (slot_time_first w ext Hok Hz) as (t & -> & [p Hp] & Hmin). simpl.
    eexists _, (Some t), _. split; [done|]. autorewrite with pj. split_and!; try done.
    + by apply lock_unlock; autorewrite with pj.
    + exists p. by apply Habs.
    + intros q s ?%Habs. eauto.
Qed.

(** A heap that was just created. *)
Lemma create_heap_rep n :
  2 <= n <= INT_MAX ->
  heap_rep (mk_heap n 0 DEFAULT_MAX_TIMED_OUT_PER_POLL 0 false (replicate (Z.to_nat n) None)
     (map (fun i => - i32 (i + 1)) (seqZ 0 n)) (replicate (Z.to_nat n) None) 1 0) [] (seqZ 1 (n - 1)).
Proof.
  intros Hn.
  assert (Hids : forall i, 0 <= i < n ->
    (map (fun i => - i32 (i + 1)) (seqZ 0 n)).[i] = Some (- (i + 1))).
  { intros i Hi. apply arr_get_Some. split; [lia|]. rewrite list_lookup_fmap, lookup_seqZ_lt by lia.
    simpl. rewrite i32_small by (unfold INT_MAX in *; lia). f_equal. lia. }
  split; [split|..]; simpl; rewrite ?length_replicate, ?length_map, ?length_seqZ; try lia; try done.
  - split; simpl; try done; try lia; [by intros ??%elem_of_nil..|constructor|by intros ??%elem_of_nil].
  - by intros ??%elem_of_nil.
  - replace n with (1 + Z.of_nat (Z.to_nat (n - 1))) at 3 by lia.
    replace (n - 1) with (Z.of_nat (Z.to_nat (n - 1))) at 1 by lia.
    apply free_chain_seqZ. intros i Hi. apply Hids. lia.
  - intros x Hx%elem_of_seqZ. lia.
  - apply NoDup_seqZ.
Qed.

(** [pj_timer_heap_create] builds an empty heap that satisfies the
    invariant, whatever entries exist, provided none of them is running; it
    reports PJ_ENOMEM when the pool does not grant the memory. *)
Theorem create_ok (p : P) size (es : gmap Z pj_timer_entry) refs n :
  0 <= size <= INT_MAX - 2 ->
  (forall q e, es !! q = Some e -> pj_timer_entry_running e = false) ->
  match pj_timer_heap_create p size with
  | (st, Some h, p') => st = PJ_SUCCESS /\ max_size h = size + 2 /\
      pj_timer_heap_count (mk_world h es p' n 0 refs []) = (0, mk_world h es p' n 0 refs []) /\
      timer_ok (mk_world h es p' n 0 refs []) [] /\ timer_abs (mk_world h es p' n 0 refs []) ∅
  | (st, None, _) => st = PJ_ENOMEM
  end.
Proof.
  intros Hs Hes. unfold pj_timer_heap_create.
  rewrite (u32_small (size + 2)) by (unfold INT_MAX in *; lia).
  repeat match goal with
  | |- context [let '(_, _) := pool_calloc ?q ?a ?b in _] => destruct (pool_calloc q a b) as [[?|] ?]; [|done]
  | |- context [let '(_, _) := pool_alloc ?q ?a in _] => destruct (pool_alloc q a) as [[?|] ?]; [|done]
  end.
  split; [done|]. split; [done|]. split; [done|]. split.
  - exists [], (seqZ 1 (size + 2 - 1)). split; simpl; [apply create_heap_rep; lia|..].
    + by intros ??%elem_of_nil.
    + intros q e He Hr. apply Hes in He. apply Z.leb_gt in He. lia.
    + intros g _ Hg. unfold occ in Hg. simpl in Hg. lia.
  - intros q t. split; [by rewrite lookup_empty|]. intros (i & ? & ? & Hi & _). simpl in Hi. lia.
Qed.

(** In an exhausted heap every attempt to schedule an entry that is not running
    reads behind the table of the ids. *)
Lemma exhausted_schedule (w : world P) ent e delay set_id id_val g f l :
  exhausted (ht w) -> ent <> 0 -> entries w !! ent = Some e -> cb e <> 0 -> pj_timer_entry_running e = false ->
  schedule_w_grp_lock_dbg gettickcount w ent delay set_id id_val g f l = None.
Proof.
  intros [Hf Hi _ Hc] Hent He Hcb Hrun. unfold schedule_w_grp_lock_dbg. destruct (Z.eqb_spec ent 0); [done|].
  rewrite He. simpl. destruct (Z.eqb_spec (cb e) 0); [done|].
  destruct (time_val_add_total (gettickcount (ticks w)) delay) as [t ->]. simpl. rewrite Hrun.
  unfold schedule_entry. autorewrite with pj. simpl. rewrite (proj2 (Z.ltb_lt _ _)) by done.
  unfold pop_freelist. rewrite Hf. unfold arr_get, in_range. rewrite Hi, Z.ltb_irrefl, andb_false_r. done.
Qed.


End operations.
