(* ===== verification/TimerHeapExamples.v ===== *)
(** * The timer heap at concrete inputs

    A heap with room for its first entry, three timer entries and one group
    lock: the theorems of [TimerHeapSpec] applied to them. *)
From S2P Require Import Prelude Interfaces TimeVal HeapOrder TimerHeap TimerHeapProofs TimerHeapSpec.

#[local] Existing Instance roomy_pool.

Definition ex_clock (_ : nat) : pj_time_val := mk_time_val 100 0.
Definition ex_cb (_ _ : Z) (w : world nat) : option (world nat) := Some w.

Definition ex_entries : gmap Z pj_timer_entry :=
  <[16 := pj_timer_entry_init 0 7 9]> (<[32 := pj_timer_entry_init 0 7 9]>
  {[ 48 := pj_timer_entry_init 0 7 9 ]}).

Definition ex_heap : pj_timer_heap_t :=
  mk_heap 2 0 DEFAULT_MAX_TIMED_OUT_PER_POLL 0 false (replicate 2 None)
    (map (fun i => - i32 (i + 1)) (seqZ 0 2)) (replicate 2 None) 1 0.

Definition ex_world : world nat := mk_world ex_heap ex_entries 0%nat 0%nat 0 {[ 64 := 1 ]} [].

(** Entry 16 scheduled for second 105 and entry 32 for second 100. *)
Definition ex_sched (w : world nat) (ent s : Z) : world nat :=
  default w (snd <$> pj_timer_heap_schedule_w_grp_lock_dbg ex_clock w ent (mk_time_val s 0) 1 64 0 0).
Definition ex_world1 : world nat := Eval vm_compute in ex_sched ex_world 16 5.
Definition ex_world2 : world nat := Eval vm_compute in ex_sched ex_world1 32 0.

Lemma ex_world_ok : timer_ok ex_world [].
Proof.
  exists [], (seqZ 1 1). split.
  - apply (create_heap_rep 2). unfold INT_MAX. lia.
  - by intros ??%elem_of_nil.
  - simpl. unfold ex_entries. intros p e He. apply lookup_insert_Some in He as [[_ <-]|[_ He]]; [done|].
    apply lookup_insert_Some in He as [[_ <-]|[_ He]]; [done|].
    apply lookup_singleton_Some in He as [_ <-]. done.
  - intros g _ Hg. unfold occ in Hg. simpl in Hg. lia.
Qed.

Lemma ex_world_abs : timer_abs ex_world ∅.
Proof.
  intros q t. rewrite lookup_empty. split; [done|]. intros (i & ? & ? & Hi & _). simpl in Hi. lia.
Qed.

Lemma ex_sched_ok w m ent s e n :
  timer_ok w [] -> timer_abs w m -> can_double (ht w) -> has_room w = true -> ent <> 0 ->
  entries w !! ent = Some e -> cb e <> 0 -> pj_timer_entry_running e = false ->
  grp_refs w !! 64 = Some n -> 0 <= n ->
  timer_ok (ex_sched w ent s) [] /\
  timer_abs (ex_sched w ent s)
    (<[ent := default (ex_clock 0) (PJ_TIME_VAL_ADD (ex_clock 0) (mk_time_val s 0))]> m).
Proof.
  intros Hok Habs ????????.
  destruct (schedule_w_grp_lock_spec ex_clock w [] m ent e (mk_time_val s 0) true 1 64 0 0)
    as (w' & t & Ht & Hs & Hok' & Habs' & _); try done; [by right; exists n|].
  change (ex_clock (ticks w)) with (ex_clock 0) in Ht. rewrite Ht.
  unfold ex_sched, pj_timer_heap_schedule_w_grp_lock_dbg. rewrite Hs. done.
Qed.

Lemma ex_world1_ok : timer_ok ex_world1 [] /\ timer_abs ex_world1 {[ 16 := mk_time_val 105 0 ]}.
Proof.
  assert (ex_world1 = ex_sched ex_world 16 5) as -> by (vm_compute; reflexivity).
  apply (ex_sched_ok ex_world ∅ 16 5 (pj_timer_entry_init 0 7 9) 1 ex_world_ok ex_world_abs);
    vm_compute; done.
Qed.

Lemma ex_world2_ok : timer_ok ex_world2 [] /\
  timer_abs ex_world2 (<[ 32 := mk_time_val 100 0 ]> {[ 16 := mk_time_val 105 0 ]}).
Proof.
  assert (ex_world2 = ex_sched ex_world1 32 0) as -> by (vm_compute; reflexivity).
  destruct ex_world1_ok as [Hok Habs].
  apply (ex_sched_ok ex_world1 _ 32 0 (pj_timer_entry_init 0 7 9) 2 Hok Habs);
    vm_compute; done.
Qed.

Lemma schedule_inserts_witness : exists t,
  PJ_TIME_VAL_ADD (ex_clock 0) (mk_time_val 5 0) = Some t /\
  schedules ex_world [] ∅ 16 t 0 (pj_timer_heap_schedule_dbg ex_clock ex_world 16 (mk_time_val 5 0) 0 0) /\
  schedules ex_world [] ∅ 16 t 64
    (pj_timer_heap_schedule_w_grp_lock_dbg ex_clock ex_world 16 (mk_time_val 5 0) 1 64 0 0).
Proof.
  apply (schedule_inserts ex_clock ex_world [] ∅ 16 (pj_timer_entry_init 0 7 9)
    (mk_time_val 5 0) 1 64 0 0 ex_world_ok ex_world_abs); try done.
  right. by exists 1.
Defined.

(** The entry is scheduled, with one reference more on its group lock. *)
Example schedule_16 :
  match pj_timer_heap_schedule_w_grp_lock_dbg ex_clock ex_world 16 (mk_time_val 5 0) 1 64 0 0 with
  | Some (st, w) => st = PJ_SUCCESS /\ grp_refs w !! 64 = Some 2 /\ cur_size (ht w) = 1
  | None => False
  end.
Proof. vm_compute. done. Qed.

Lemma schedule_rejects_witness : exists w',
  schedule_w_grp_lock_dbg ex_clock ex_world1 16 (mk_time_val 5 0) true 1 64 0 0 =
    Some (PJ_EINVALIDOP, w') /\
  ht w' = ht ex_world1 /\ entries w' = entries ex_world1 /\ grp_refs w' = grp_refs ex_world1 /\
  lock_depth w' = lock_depth ex_world1.
Proof.
  apply (schedule_rejects ex_clock ex_world1 16 (mk_entry 7 1 9 1)); vm_compute; done.
Defined.

Lemma cancel_deletes_witness : exists w', cancel_timer ex_cb ex_world2 16 0 0 = Some (1, w') /\
  timer_ok w' [] /\
  timer_abs w' (delete 16 (<[ 32 := mk_time_val 100 0 ]> {[ 16 := mk_time_val 105 0 ]})) /\
  lock_depth w' = lock_depth ex_world2 /\ grp_refs w' = drop_ref (grp_refs ex_world2) 64.
Proof.
  destruct ex_world2_ok as [Hok Habs].
  apply (cancel_deletes ex_cb ex_world2 [] _ 16 (mk_entry 7 1 9 1) 0 0 Hok Habs); vm_compute; done.
Defined.

Lemma poll_safe_witness : exists n delay w',
  pj_timer_heap_poll ex_clock ex_cb ex_world2 true = Some (n, delay, w') /\
  timer_ok w' [] /\ 0 <= n <= max_entries_per_poll (ht ex_world2) /\
  lock_depth w' = lock_depth ex_world2 /\ (true = true <-> is_Some delay).
Proof.
  assert (Hwb : WellBehaved ex_cb) by (intros c p w ext Hok; exists w; split; done).
  apply (poll_safe ex_clock ex_cb ex_world2 [] true (proj1 ex_world2_ok)).
  vm_compute. split; discriminate.
Defined.

Lemma poll_fires_expired_witness : exists ps delay w',
  pj_timer_heap_poll ex_clock ex_cb ex_world2 true = Some (Z.of_nat (length ps), delay, w') /\
  timer_ok w' [] /\ drained (mk_time_val 100 0) 64 ex_world2 w' ps.
Proof.
  apply (poll_fires_expired ex_clock ex_cb (mk_time_val 100 0) ex_world2 [] true); try done.
  apply ex_world2_ok.
Defined.

(** It is entry 32 that has expired. *)
Example poll_fires_32 :
  match pj_timer_heap_poll ex_clock ex_cb ex_world2 true with
  | Some (n, d, w) => n = 1 /\ d = Some (mk_time_val 5 0) /\ fired w = [32]
  | None => False
  end.
Proof. vm_compute. done. Qed.

Lemma earliest_is_minimum_witness : exists st t w',
  pj_timer_heap_earliest_time ex_world2 = Some (st, t, w') /\
  ht w' = ht ex_world2 /\ entries w' = entries ex_world2 /\ lock_depth w' = lock_depth ex_world2 /\
  match t with
  | None => st = PJ_ENOTFOUND /\
      <[ 32 := mk_time_val 100 0 ]> {[ 16 := mk_time_val 105 0 ]} = (∅ : gmap Z pj_time_val)
  | Some t => st = PJ_SUCCESS /\
      (exists p, (<[ 32 := mk_time_val 100 0 ]> {[ 16 := mk_time_val 105 0 ]} : gmap Z _) !! p = Some t) /\
      forall p s, (<[ 32 := mk_time_val 100 0 ]> {[ 16 := mk_time_val 105 0 ]} : gmap Z _) !! p = Some s ->
        time_le t s
  end.
Proof.
  destruct ex_world2_ok as [Hok Habs]. apply (earliest_is_minimum ex_world2 [] _ Hok Habs).
Defined.

Lemma create_ok_witness :
  match pj_timer_heap_create 0%nat 6 with
  | (st, Some h, p') => st = PJ_SUCCESS /\ max_size h = 6 + 2 /\
      pj_timer_heap_count (mk_world h ∅ p' 0 0 ∅ []) = (0, mk_world h ∅ p' 0 0 ∅ []) /\
      timer_ok (mk_world h ∅ p' 0 0 ∅ []) [] /\ timer_abs (mk_world h ∅ p' 0 0 ∅ []) ∅
  | (st, None, _) => st = PJ_ENOMEM
  end.
Proof. apply (create_ok 0%nat 6 ∅ ∅ 0); [unfold INT_MAX; lia|done]. Defined.

