(* ===== verification/Regions.v ===== *)
(** * Memory regions

    Byte ranges as pairs of a start address and a length, and lists of ranges
    that do not overlap; the memory components of the library state what they
    own and what they hand out with them. *)
From S2P Require Import Prelude.

Definition region : Type := Z * Z.

Definition apart (r s : region) : Prop := r.1 + r.2 <= s.1 \/ s.1 + s.2 <= r.1.

(** [r] lies inside [s]. *)
Definition inside (r s : region) : Prop := s.1 <= r.1 /\ r.1 + r.2 <= s.1 + s.2.

Fixpoint all_apart (rs : list region) : Prop :=
  match rs with
  | [] => True
  | r :: rs => Forall (apart r) rs /\ all_apart rs
  end.

Definition total (rs : list region) : Z := foldr (fun r n => r.2 + n) 0 rs.

Lemma apart_sym r s : apart r s -> apart s r.
Proof. unfold apart. tauto. Qed.

Lemma apart_inside r r' s s' : inside r r' -> inside s s' -> apart r' s' -> apart r s.
Proof. unfold apart, inside. lia. Qed.

Lemma inside_refl r : inside r r.
Proof. unfold inside. lia. Qed.
#[export] Hint Resolve inside_refl : pj.

Lemma all_apart_app rs ss :
  all_apart (rs ++ ss) <->
  all_apart rs /\ all_apart ss /\ forall r s, r ∈ rs -> s ∈ ss -> apart r s.
Proof.
  induction rs as [|r rs IH]; simpl.
  - split; [intros ?; split_and!; try done|tauto]. by intros ?? ?%elem_of_nil.
  - rewrite IH, Forall_app. setoid_rewrite elem_of_cons. split.
    + intros [[H1 H2] (H3 & H4 & H5)]. rewrite Forall_forall in H2. split_and!; try done.
      intros a b [->|Ha] Hb; eauto.
    + intros ([H1 H2] & H3 & H4). split_and!; try done; [|by eauto].
      rewrite Forall_forall. intros b Hb. apply H4; [by left|done].
Qed.

Lemma all_apart_perm rs ss : rs ≡ₚ ss -> all_apart rs -> all_apart ss.
Proof.
  induction 1 as [|r rs ss HP IH|r s rs|rs ss ts _ IH1 _ IH2]; simpl; try tauto.
  - intros [H1 H2]. split; [by rewrite <-HP|auto].
  - intros [H1 [H2 H3]]. apply Forall_cons in H1 as [H1 H4]. split_and!; try done.
    constructor; [by apply apart_sym|done].
Qed.

#[export] Instance all_apart_proper : Proper ((≡ₚ) ==> iff) all_apart.
Proof. intros rs ss H. split; apply all_apart_perm; by rewrite H. Qed.

Lemma total_app rs ss : total (rs ++ ss) = total rs + total ss.
Proof. induction rs; simpl; lia. Qed.

#[export] Instance total_proper : Proper ((≡ₚ) ==> (=)) total.
Proof. intros rs ss H. induction H; simpl; lia. Qed.

(** Smaller regions in place of larger ones. *)
Lemma all_apart_inside rs ss : Forall2 inside rs ss -> all_apart ss -> all_apart rs.
Proof.
  induction 1 as [|r s rs ss Hrs HF IH]; simpl; [done|]. intros [Hs Hss]. split; [|by apply IH].
  rewrite Forall_forall in *. intros q Hq.
  apply list_elem_of_lookup in Hq as [i Hi].
  destruct (Forall2_lookup_l _ _ _ _ _ HF Hi) as (t & Ht & Hqt).
  apply list_elem_of_lookup_2 in Ht. eapply apart_inside; eauto.
Qed.

(** The list without the first occurrence of [r]. *)
Fixpoint remove_first (r : region) (rs : list region) : list region :=
  match rs with
  | [] => []
  | s :: rs => if decide (s = r) then rs else s :: remove_first r rs
  end.

Lemma remove_first_perm r rs ss : rs ≡ₚ r :: ss -> remove_first r rs ≡ₚ ss.
Proof.
  intros H. assert (Hr : r ∈ rs) by (rewrite H; by left).
  apply (Permutation_cons_inv (a := r)). rewrite <-H. clear H.
  induction rs as [|s rs IH]; simpl; [by apply elem_of_nil in Hr|].
  destruct (decide (s = r)) as [->|Hne]; [done|].
  apply elem_of_cons in Hr as [?|Hr]; [done|].
  rewrite Permutation_swap. by rewrite IH.
Qed.

(** Regions that do not overlap have no more bytes than there are addresses. *)
Lemma total_bound_sorted lo hi rs :
  StronglySorted (fun r s : region => r.1 <= s.1) rs ->
  Forall (fun r : region => lo <= r.1 /\ 0 < r.2 /\ r.1 + r.2 <= hi) rs -> all_apart rs ->
  lo <= hi -> total rs <= hi - lo.
Proof.
  revert lo. induction rs as [|r rs IH]; intros lo Hs HF Hap Hlo; simpl; [lia|].
  apply StronglySorted_inv in Hs as [Hs Hr]. apply Forall_cons in HF as [Hrb HF].
  destruct Hap as [Har Hap].
  assert (total rs <= hi - (r.1 + r.2)); [|lia]. apply IH; try done; [|lia].
  rewrite Forall_forall in *. intros s Hin. specialize (Hr s Hin). specialize (Har s Hin).
  specialize (HF s Hin). unfold apart in Har. lia.
Qed.

Lemma total_bound lo hi rs :
  Forall (fun r : region => lo <= r.1 /\ 0 < r.2 /\ r.1 + r.2 <= hi) rs -> all_apart rs ->
  lo <= hi -> total rs <= hi - lo.
Proof.
  intros HF Hap Hlo. set (R := fun r s : region => r.1 <= s.1).
  assert (Hdec : RelDecision R) by (intros r s; unfold R; apply _).
  assert (Htot : Total R) by (intros r s; unfold R; lia).
  assert (Htr : Transitive R) by (intros r s t; unfold R; lia).
  rewrite <-(merge_sort_Permutation R rs) in HF, Hap |- *.
  apply total_bound_sorted; try done. by apply StronglySorted_merge_sort.
Qed.
