(* ===== verification/Pool.v ===== *)
(** * Memory pools

    The pools of [pjlib/src/pj/pool.c] and [pjlib/include/pj/pool_i.h]: a pool
    is a list of blocks obtained from a factory; memory is taken from the
    blocks by moving a pointer and given back all at once.  Addresses are
    32-bit; the structure sizes are those of the ILP32 target. *)
From S2P Require Import Prelude Interfaces Regions.

(** ** Data *)

(** [pj_pool_block]; [hdr] is the address of the block itself. *)
Record pj_pool_block := mk_block { hdr : Z; buf : Z; cur : Z; end_ : Z }.

(** [pj_pool_t]; [addr] is the address of the pool, [block_list] its blocks
    from [block_list.next] to [block_list.prev].  The name is left out. *)
Record pj_pool_t := mk_pool {
  addr : Z;
  capacity : Z;
  increment_size : Z;
  block_list : list pj_pool_block;
  alignment : Z;
  factory_data : Z
}.

Definition SIZEOF_BLOCK : Z := 20.
Definition SIZEOF_POOL : Z := 84.
Definition PJ_POOL_ALIGNMENT : Z := 8.
Definition PJ_POOL_MAX_SEARCH_BLOCK_COUNT : Z := 5.

Definition set_blocks (p : pj_pool_t) (bs : list pj_pool_block) : pj_pool_t :=
  mk_pool (addr p) (capacity p) (increment_size p) bs (alignment p) (factory_data p).
Definition set_capacity (p : pj_pool_t) (c : Z) : pj_pool_t :=
  mk_pool (addr p) c (increment_size p) (block_list p) (alignment p) (factory_data p).
Definition set_cur (b : pj_pool_block) (c : Z) : pj_pool_block := mk_block (hdr b) (buf b) c (end_ b).

(** ** Operations on one block *)

Definition PJ_POOL_ALIGN_PTR (ptr al : Z) : Z := u32 (ptr + Z.land (- ptr) (al - 1)).
Definition PJ_IS_POWER_OF_TWO (v : Z) : bool := (0 <? v) && (Z.land v (v - 1) =? 0).

Definition pj_pool_alloc_from_block (b : pj_pool_block) (al size : Z) : option (Z * pj_pool_block) :=
  let ptr := PJ_POOL_ALIGN_PTR (cur b) al in
  if (cur b <=? ptr) && (ptr <=? end_ b) && (size <=? end_ b - ptr)
  then Some (ptr, set_cur b (ptr + size))
  else None.

Definition pj_pool_get_capacity (p : pj_pool_t) : Z := capacity p.

Definition pj_pool_get_used_size (p : pj_pool_t) : Z :=
  foldl (fun n b => u32 (n + ((cur b - buf b) + SIZEOF_BLOCK))) SIZEOF_POOL (block_list p).

(** ** Operations on the pool *)

Section pool.
(** [F] is the state of the factory; the class holds the members of its
    [pj_pool_factory_policy]. *)
Context {F : Type} `{!BlockFactory F}.

Definition pj_pool_create_block (f : F) (p : pj_pool_t) (size : Z)
    : option pj_pool_block * pj_pool_t * F :=
  let '(block, f) := block_alloc f size in
  match block with
  | None => (None, p, pool_callback f size)
  | Some a =>
      let b := mk_block a (u32 (a + SIZEOF_BLOCK)) (u32 (a + SIZEOF_BLOCK)) (u32 (a + size)) in
      (Some b, set_blocks (set_capacity p (u32 (capacity p + size))) (b :: block_list p), f)
  end.

(** The search of [pj_pool_allocate_find] through the blocks, from the
    [i]-th on: the memory and the blocks after the allocation. *)
Fixpoint find_in_blocks (i : Z) (bs : list pj_pool_block) (al size : Z)
    : option (Z * list pj_pool_block) :=
  match bs with
  | [] => None
  | b :: bs' =>
      match pj_pool_alloc_from_block b al size with
      | Some (p, b') => Some (p, b' :: bs')
      | None =>
          if PJ_POOL_MAX_SEARCH_BLOCK_COUNT <=? i then None else
          '(p, bs'') ← find_in_blocks (i + 1) bs' al size;
          Some (p, b :: bs'')
      end
  end.

(** The size of the block to create for a request. *)
Definition new_block_size (inc al size : Z) : Z :=
  if inc <? u32 (SIZEOF_BLOCK + al - 1 + size)
  then u32 (u32 (inc + SIZEOF_BLOCK + al - 1 + size) / inc * inc)
  else inc.

Definition pj_pool_allocate_find (f : F) (p : pj_pool_t) (al size : Z)
    : option Z * pj_pool_t * F :=
  match find_in_blocks 0 (block_list p) al size with
  | Some (ptr, bs) => (Some ptr, set_blocks p bs, f)
  | None =>
      if increment_size p =? 0 then (None, p, pool_callback f size) else
      let '(block, p, f) := pj_pool_create_block f p (new_block_size (increment_size p) al size) in
      match block with
      | None => (None, p, f)
      | Some b =>
          match pj_pool_alloc_from_block b al size with
          | Some (ptr, b') => (Some ptr, set_blocks p (b' :: tail (block_list p)), f)
          | None => (None, p, f)
          end
      end
  end.

Definition pj_pool_aligned_alloc (f : F) (p : pj_pool_t) (al size : Z)
    : option Z * pj_pool_t * F :=
  if negb (al =? 0) && negb (PJ_IS_POWER_OF_TWO al) then (None, p, f) else
  let al := if al =? 0 then alignment p else al in
  match b ← head (block_list p); pj_pool_alloc_from_block b al size with
  | Some (ptr, b') => (Some ptr, set_blocks p (b' :: tail (block_list p)), f)
  | None => pj_pool_allocate_find f p al size
  end.

Definition pj_pool_alloc (f : F) (p : pj_pool_t) (size : Z) : option Z * pj_pool_t * F :=
  pj_pool_aligned_alloc f p 0 size.

Definition pj_pool_calloc (f : F) (p : pj_pool_t) (count size : Z) : option Z * pj_pool_t * F :=
  if negb (count =? 0) && (UINT_MAX / count <? size)
  then (None, p, pool_callback f UINT_MAX)
  else pj_pool_alloc f p (u32 (size * count)).

Definition pj_pool_init_int (p : pj_pool_t) (increment al : Z) : pj_pool_t :=
  mk_pool (addr p) (capacity p) increment (block_list p)
    (if al =? 0 then PJ_POOL_ALIGNMENT else al) (factory_data p).

Definition pj_pool_create_int (f : F) (initial_size increment al : Z) : option pj_pool_t * F :=
  if negb (SIZEOF_POOL + SIZEOF_BLOCK <=? initial_size) then (None, f) else
  if negb (al =? 0) && negb (PJ_IS_POWER_OF_TWO al) then (None, f) else
  let '(buffer, f) := block_alloc f initial_size in
  match buffer with
  | None => (None, f)
  | Some a =>
      let h := u32 (a + SIZEOF_POOL) in
      let b := mk_block h (u32 (h + SIZEOF_BLOCK)) (u32 (h + SIZEOF_BLOCK)) (u32 (a + initial_size)) in
      let p := pj_pool_init_int (mk_pool a 0 0 [b] 0 0) increment al in
      (Some (set_capacity p initial_size), f)
  end.

(** The loop of [reset_pool]: blocks are freed from the back, but for the
    last one, which shares the memory of the pool. *)
Definition free_blocks (f : F) (bs : list pj_pool_block) : F :=
  foldr (fun b f => block_free f (hdr b) (u32 (end_ b - hdr b))) f bs.

Definition reset_pool (f : F) (p : pj_pool_t) : pj_pool_t * F :=
  match last (block_list p) with
  | None => (p, f)
  | Some b =>
      let f := free_blocks f (removelast (block_list p)) in
      (set_capacity (set_blocks p [set_cur b (buf b)]) (u32 (end_ b - addr p)), f)
  end.

Definition pj_pool_reset (f : F) (p : pj_pool_t) : pj_pool_t * F := reset_pool f p.

(** The pool is gone afterwards; [None] for following the pointer of an empty
    block list. *)
Definition pj_pool_destroy_int (f : F) (p : pj_pool_t) : option F :=
  let '(p, f) := reset_pool f p in
  b ← head (block_list p);
  Some (block_free f (addr p) (u32 (end_ b - addr p))).

End pool.

(** What the pools of this file are to the containers that allocate. *)
Definition pool_and_factory (F : Type) : Type := pj_pool_t * F.

#[export] Instance pj_pool_allocator {F} `{!BlockFactory F} : PoolAllocator (pool_and_factory F) := {
  pool_alloc := fun pf size => let '(a, p, f) := pj_pool_alloc pf.2 pf.1 size in (a, (p, f));
  pool_calloc := fun pf count size =>
    let '(a, p, f) := pj_pool_calloc pf.2 pf.1 count size in (a, (p, f))
}.
