(* ===== verification/PoolSpec.v ===== *)
(** * What a memory pool promises

    The invariant of a pool over the memory its factory has handed out, and
    the theorems on allocation, reset and destruction. *)
From S2P Require Import Prelude Interfaces Regions Pool.

(** ** The contract of a factory: [malloc] and [free]

    [live] are the regions handed out and not yet returned. *)
Class FactoryLaws (F : Type) `{!BlockFactory F} := {
  live : F -> list region;
  block_alloc_some f n a f' : 0 < n < 2 ^ 32 -> block_alloc f n = (Some a, f') ->
    0 < a /\ a + n < 2 ^ 32 /\ live f' ≡ₚ (a, n) :: live f /\ Forall (apart (a, n)) (live f);
  block_alloc_none f n f' : block_alloc f n = (None, f') -> live f' ≡ₚ live f;
  block_free_live f a n rs : live f ≡ₚ (a, n) :: rs -> live (block_free f a n) ≡ₚ rs;
  callback_live f n : live (pool_callback f n) ≡ₚ live f
}.

(** ** The invariant *)

Record block_wf (b : pj_pool_block) : Prop := {
  bw_hdr : 0 < hdr b;
  bw_buf : buf b = hdr b + SIZEOF_BLOCK;
  bw_cur : buf b <= cur b <= end_ b;
  bw_end : end_ b < 2 ^ 32
}.

Definition block_region (b : pj_pool_block) : region := (hdr b, end_ b - hdr b).

(** The regions a pool has from its factory: its further blocks, and the one
    it lives in itself. *)
Definition owned (a : Z) (bs : list pj_pool_block) (b0 : pj_pool_block) : list region :=
  map block_region bs ++ [(a, end_ b0 - a)].

#[global] Arguments owned : simpl never.

Definition power_of_two (al : Z) : Prop := exists k, 0 <= k < 32 /\ al = 2 ^ k.

Record pool_wf (p : pj_pool_t) (bs : list pj_pool_block) (b0 : pj_pool_block) : Prop := {
  pw_blocks : block_list p = bs ++ [b0];
  pw_first : hdr b0 = addr p + SIZEOF_POOL;
  pw_addr : 0 < addr p;
  pw_wf : Forall block_wf (block_list p);
  pw_align : power_of_two (alignment p);
  pw_inc : increment_size p = 0 \/ SIZEOF_BLOCK <= increment_size p < 2 ^ 32;
  pw_apart : all_apart (owned (addr p) bs b0);
  pw_capacity : capacity p = u32 (total (owned (addr p) bs b0))
}.

(** [A] is memory handed out by the pool and not taken back: each piece in
    the used part of a block, no two overlapping. *)
Record allocs_ok (p : pj_pool_t) (A : list region) : Prop := {
  ao_inside r : r ∈ A -> exists b, b ∈ block_list p /\ inside r (buf b, cur b - buf b);
  ao_size r : r ∈ A -> 0 <= r.2;
  ao_apart : all_apart A
}.

(** The pool is in order, [A] is its memory in use, and what it owns is live
    at the factory beside the regions [O] of others. *)
Definition pool_ok {F} `{!BlockFactory F} `{!FactoryLaws F}
    (f : F) (p : pj_pool_t) (A O : list region) : Prop :=
  exists bs b0, pool_wf p bs b0 /\ allocs_ok p A /\ live f ≡ₚ owned (addr p) bs b0 ++ O /\
    all_apart (live f).

(** ** One block *)

Lemma land_low_bits z k : 0 <= k -> Z.land z (2 ^ k - 1) = z mod 2 ^ k.
Proof. intros. rewrite <-Z.land_ones by done. by rewrite Z.ones_equiv, Z.sub_1_r. Qed.

Lemma is_power_of_two_spec al : PJ_IS_POWER_OF_TWO al = true -> al < 2 ^ 32 -> power_of_two al.
Proof.
  unfold PJ_IS_POWER_OF_TWO. intros [H0%Z.ltb_lt Hl%Z.eqb_eq]%andb_true_iff H32.
  exists (Z.log2 al). pose proof (Z.log2_spec al H0) as [H1 H2].
  pose proof (Z.log2_nonneg al) as Hn.
  assert (Z.log2 al < 32) by (apply Z.log2_lt_pow2; lia).
  split; [lia|]. destruct (decide (al = 2 ^ Z.log2 al)) as [|Hne]; [done|exfalso].
  assert (Hlog : Z.log2 (al - 1) = Z.log2 al).
  { apply Z.log2_unique; [done|lia]. }
  assert (Ht : Z.testbit (Z.land al (al - 1)) (Z.log2 al) = true).
  { rewrite Z.land_spec, Z.bit_log2 by lia. rewrite <-Hlog, Z.bit_log2; [done|].
    pose proof (Z.pow_pos_nonneg 2 (Z.log2 al)). lia. }
  by rewrite Hl, Z.bits_0 in Ht.
Qed.

(** The aligned pointer is the least multiple of the alignment from [ptr] on,
    or 0 when that is the end of the address space. *)
Lemma align_ptr_spec ptr al :
  power_of_two al -> 0 <= ptr < 2 ^ 32 ->
  PJ_POOL_ALIGN_PTR ptr al = 0 /\ 2 ^ 32 - al < ptr \/
  (ptr <= PJ_POOL_ALIGN_PTR ptr al < ptr + al /\ PJ_POOL_ALIGN_PTR ptr al < 2 ^ 32 /\
   PJ_POOL_ALIGN_PTR ptr al mod al = 0).
Proof.
  intros (k & Hk & ->) Hp. unfold PJ_POOL_ALIGN_PTR. rewrite land_low_bits by lia.
  pose proof (Z.pow_pos_nonneg 2 k ltac:(lia) ltac:(lia)) as Hpos.
  pose proof (Z.mod_pos_bound (- ptr) (2 ^ k) Hpos) as Hm.
  assert (Hdiv : (ptr + (- ptr) mod 2 ^ k) mod 2 ^ k = 0).
  { rewrite Zplus_mod_idemp_r. by rewrite Z.add_opp_diag_r, Z.mod_0_l by lia. }
  destruct (decide (ptr + (- ptr) mod 2 ^ k < 2 ^ 32)) as [Hlt|Hge].
  - right. rewrite u32_small by lia. lia.
  - left. assert (Hle : ptr + (- ptr) mod 2 ^ k <= 2 ^ 32).
    { apply Z.mod_divide in Hdiv as [q Hq]; [|lia].
      assert (2 ^ 32 = 2 ^ (32 - k) * 2 ^ k) as HP by (rewrite <-Z.pow_add_r by lia; f_equal; lia).
      assert (q < 2 ^ (32 - k) + 1).
      { apply Z.mul_lt_mono_pos_r with (2 ^ k); [done|].
        rewrite <-Hq, Z.mul_add_distr_r, <-HP. lia. }
      rewrite Hq, HP. apply Z.mul_le_mono_nonneg_r; lia. }
    assert (ptr + (- ptr) mod 2 ^ k = 2 ^ 32) as -> by lia. split; [done|lia].
Qed.

Lemma alloc_from_block_some b al size ptr b' :
  block_wf b -> power_of_two al -> 0 <= size ->
  pj_pool_alloc_from_block b al size = Some (ptr, b') ->
  b' = set_cur b (ptr + size) /\ block_wf b' /\ cur b <= ptr /\ ptr mod al = 0.
Proof.
  intros Hb Hal Hs. unfold pj_pool_alloc_from_block.
  destruct Hb as [H1 H2 H3 H4]. unfold SIZEOF_BLOCK in *.
  destruct (align_ptr_spec (cur b) al Hal) as [[-> ?]|(Hr & ? & Hm)]; [lia|..].
  - destruct (Z.leb_spec (cur b) 0); [lia|done].
  - set (q := PJ_POOL_ALIGN_PTR (cur b) al) in *.
    destruct (Z.leb_spec (cur b) q); [|lia]. destruct (Z.leb_spec q (end_ b)); [|done].
    destruct (Z.leb_spec size (end_ b - q)); [|done]. simpl. intros [= <- <-].
    split_and!; try done. split; simpl; unfold SIZEOF_BLOCK; lia.
Qed.

Lemma alloc_from_block_fits b al size :
  block_wf b -> power_of_two al -> cur b + (al - 1) + size <= end_ b -> 0 <= size ->
  exists ptr b', pj_pool_alloc_from_block b al size = Some (ptr, b').
Proof.
  intros [H1 H2 H3 H4] Hal Hfit Hs. unfold pj_pool_alloc_from_block, SIZEOF_BLOCK in *.
  destruct (align_ptr_spec (cur b) al Hal) as [[_ ?]|(Hr & ? & Hm)]; [lia|lia|].
  set (q := PJ_POOL_ALIGN_PTR (cur b) al) in *.
  destruct (Z.leb_spec (cur b) q); [|lia]. destruct (Z.leb_spec q (end_ b)); [|lia].
  destruct (Z.leb_spec size (end_ b - q)); [|lia]. simpl. eauto.
Qed.

(** ** Moving the pointer of a block *)

Definition span (b : pj_pool_block) : region := (buf b, end_ b - buf b).

Lemma spans_apart p bs b0 : pool_wf p bs b0 -> all_apart (map span (block_list p)).
Proof.
  intros [Hb Hf Ha Hwf _ _ Hap _]. eapply all_apart_inside; [|exact Hap].
  rewrite Hb in *. unfold owned. rewrite map_app. apply Forall_app in Hwf as [Hwf Hwf0].
  apply Forall2_app.
  - apply Forall2_fmap, Forall_Forall2_diag. eapply Forall_impl; [exact Hwf|].
    intros b [? ? ? ?]. unfold inside, span, block_region, SIZEOF_BLOCK in *. simpl. lia.
  - constructor; [|constructor]. apply Forall_singleton in Hwf0 as [? ? ? ?].
    unfold inside, span, SIZEOF_BLOCK, SIZEOF_POOL in *. simpl. lia.
Qed.

Lemma pool_wf_bump p bs b0 l1 b l2 c :
  pool_wf p bs b0 -> block_list p = l1 ++ b :: l2 -> block_wf (set_cur b c) ->
  exists bs' b0', pool_wf (set_blocks p (l1 ++ set_cur b c :: l2)) bs' b0' /\
    owned (addr p) bs' b0' = owned (addr p) bs b0.
Proof.
  intros [Hb Hf Ha Hwf Hal Hinc Hap Hcap] Hl Hbw.
  assert (Hwf' : Forall block_wf (l1 ++ set_cur b c :: l2)).
  { rewrite Hl in Hwf. apply Forall_app in Hwf as [? [? ?]%Forall_cons].
    apply Forall_app. split; [done|]. by constructor. }
  destruct l2 as [|x l2 _] using rev_ind.
  - rewrite Hb in Hl. apply app_inj_tail in Hl as [-> ->].
    exists l1, (set_cur b c). split; [by split|done].
  - rewrite Hb in Hl. rewrite app_comm_cons, app_assoc in Hl.
    apply app_inj_tail in Hl as [-> ->].
    assert (Ho : owned (addr p) (l1 ++ set_cur b c :: l2) x = owned (addr p) (l1 ++ b :: l2) x)
      by (unfold owned; by rewrite !map_app).
    exists (l1 ++ set_cur b c :: l2), x. split; [|done].
    split; simpl; rewrite ?Ho; try done. by rewrite <-app_assoc.
Qed.

Lemma allocs_bump p bs b0 A l1 b l2 ptr size :
  pool_wf p bs b0 -> allocs_ok p A -> block_list p = l1 ++ b :: l2 ->
  cur b <= ptr -> 0 <= size -> ptr + size <= end_ b ->
  allocs_ok (set_blocks p (l1 ++ set_cur b (ptr + size) :: l2)) ((ptr, size) :: A).
Proof.
  intros Hwf [Hin Hsz Hap] Hl Hc Hs He.
  pose proof (spans_apart _ _ _ Hwf) as Hsp. rewrite Hl, map_app in Hsp. simpl in Hsp.
  rewrite <-Permutation_middle in Hsp. destruct Hsp as [Hsp _]. rewrite Forall_forall in Hsp.
  pose proof (pw_wf _ _ _ Hwf) as HF. rewrite Forall_forall in HF. rewrite Hl in HF, Hin.
  assert (Hb : block_wf b) by (apply HF, elem_of_app; right; by left).
  split; simpl.
  - intros r [->|Hr]%elem_of_cons.
    + exists (set_cur b (ptr + size)). split; [apply elem_of_app; right; by left|].
      destruct Hb. unfold inside. simpl. lia.
    + destruct (Hin r Hr) as (x & Hx & Hi).
      apply elem_of_app in Hx as [Hx|[->|Hx]%elem_of_cons].
      * exists x. split; [apply elem_of_app; by left|done].
      * exists (set_cur b (ptr + size)). split; [apply elem_of_app; right; by left|].
        unfold inside in *. simpl in *. lia.
      * exists x. split; [apply elem_of_app; right; by right|done].
  - intros r [->|Hr]%elem_of_cons; [done|by apply Hsz].
  - split; [|done]. rewrite Forall_forall. intros r Hr. destruct (Hin r Hr) as (x & Hx & Hi).
    assert (Hxw := HF x Hx). assert (Hx' : x = b \/ x ∈ l1 ++ l2)
      by (rewrite elem_of_app in *; rewrite elem_of_cons in Hx; tauto).
    destruct Hx' as [->|Hx'].
    + unfold apart, inside in *. simpl in *. lia.
    + assert (apart (span b) (span x)) as Hbx.
      { apply Hsp. rewrite <-map_app. by apply list_elem_of_fmap_2. }
      destruct Hxw, Hb. unfold apart, inside, span in *. simpl in *. lia.
Qed.

(** ** Allocation *)

Lemma find_in_blocks_some i bs al size ptr bs' :
  find_in_blocks i bs al size = Some (ptr, bs') ->
  exists l1 b l2 b', bs = l1 ++ b :: l2 /\ bs' = l1 ++ b' :: l2 /\
    pj_pool_alloc_from_block b al size = Some (ptr, b').
Proof.
  revert i bs'. induction bs as [|b bs IH]; intros i bs'; simpl; [done|].
  destruct (pj_pool_alloc_from_block b al size) as [[q b']|] eqn:Eb.
  - intros [= <- <-]. exists [], b, bs, b'. done.
  - destruct (_ <=? i); [done|]. intros Hf. bind_inv Hf. destruct x as [q bs2].
    simplify_eq. destruct (IH _ _ E) as (l1 & c & l2 & c' & -> & -> & Hc).
    exists (b :: l1), c, l2, c'. done.
Qed.

(** Some aligned [size] bytes of the block are free. *)
Definition room_for (al size : Z) (b : pj_pool_block) : Prop :=
  exists ptr, cur b <= ptr /\ ptr mod al = 0 /\ ptr + size <= end_ b.

(** None of the blocks the search looks at, the first six, has room. *)
Definition crowded (p : pj_pool_t) (al size : Z) : Prop :=
  Forall (fun b => ~ room_for al size b)
    (take (S (Z.to_nat PJ_POOL_MAX_SEARCH_BLOCK_COUNT)) (block_list p)).

Lemma alloc_from_block_none b al size :
  block_wf b -> power_of_two al -> 0 <= size ->
  pj_pool_alloc_from_block b al size = None -> ~ room_for al size b.
Proof.
  intros [H1 H2 H3 H4] Hal Hs Hn (ptr & Hc & Hm & He). unfold pj_pool_alloc_from_block, SIZEOF_BLOCK in *.
  assert (Hq : PJ_POOL_ALIGN_PTR (cur b) al <= ptr /\ cur b <= PJ_POOL_ALIGN_PTR (cur b) al).
  { destruct (align_ptr_spec (cur b) al Hal) as [[_ Hbig]|(Hr & ? & Hmq)]; [lia|..].
    - destruct Hal as (k & Hk & ->). pose proof (Z.pow_pos_nonneg 2 k ltac:(lia) ltac:(lia)).
      apply Z.mod_divide in Hm as [q ->]; [|lia].
      assert (HP : 2 ^ 32 = 2 ^ (32 - k) * 2 ^ k) by (rewrite <-Z.pow_add_r by lia; f_equal; lia).
      set (P := 2 ^ k) in *. set (Q := 2 ^ (32 - k)) in *.
      assert (q < Q) by (apply (Z.mul_lt_mono_pos_r P); lia).
      assert (Q - 1 < q) by (apply (Z.mul_lt_mono_pos_r P); lia). lia.
    - split; [|lia]. destruct Hal as (k & Hk & ->). pose proof (Z.pow_pos_nonneg 2 k ltac:(lia) ltac:(lia)).
      apply Z.mod_divide in Hm as [q ->]; [|lia]. apply Z.mod_divide in Hmq as [r Hqr]; [|lia].
      rewrite Hqr in *. apply Z.mul_le_mono_nonneg_r; [lia|].
      assert (r - 1 < q); [|lia]. apply (Z.mul_lt_mono_pos_r (2 ^ k)); lia. }
  destruct (Z.leb_spec (cur b) (PJ_POOL_ALIGN_PTR (cur b) al)); [|lia].
  destruct (Z.leb_spec (PJ_POOL_ALIGN_PTR (cur b) al) (end_ b)); [|lia].
  destruct (Z.leb_spec size (end_ b - PJ_POOL_ALIGN_PTR (cur b) al)); [done|lia].
Qed.

Lemma find_in_blocks_none i bs al size :
  Forall block_wf bs -> power_of_two al -> 0 <= size -> 0 <= i <= PJ_POOL_MAX_SEARCH_BLOCK_COUNT ->
  find_in_blocks i bs al size = None ->
  Forall (fun b => ~ room_for al size b) (take (S (Z.to_nat (PJ_POOL_MAX_SEARCH_BLOCK_COUNT - i))) bs).
Proof.
  intros Hwf Hal Hs. revert i. induction Hwf as [|b bs Hb Hwf IH]; intros i Hi; simpl; [done|].
  destruct (pj_pool_alloc_from_block b al size) as [[q b']|] eqn:Eb; [done|].
  pose proof (alloc_from_block_none _ _ _ Hb Hal Hs Eb) as Hn. intros Hf.
  constructor; [done|]. destruct (Z.leb_spec PJ_POOL_MAX_SEARCH_BLOCK_COUNT i).
  - by replace (PJ_POOL_MAX_SEARCH_BLOCK_COUNT - i) with 0 by lia.
  - replace (Z.to_nat (PJ_POOL_MAX_SEARCH_BLOCK_COUNT - i))
      with (S (Z.to_nat (PJ_POOL_MAX_SEARCH_BLOCK_COUNT - (i + 1)))) by lia.
    apply IH; [lia|]. by destruct (find_in_blocks (i + 1) bs al size) as [[? ?]|].
Qed.

Lemma total_nonneg rs : Forall (fun r : region => 0 <= r.2) rs -> 0 <= total rs.
Proof. induction 1; simpl; lia. Qed.

Section alloc.
Context {F : Type} `{!BlockFactory F} `{!FactoryLaws F}.
Implicit Types (f : F) (p : pj_pool_t) (A O : list region).

(** The pool after an allocation of [size] bytes at [ptr]. *)
Record allocated f f' p p' A O (al size ptr : Z) : Prop := {
  al_ok : pool_ok f' p' ((ptr, size) :: A) O;
  al_aligned : ptr mod al = 0;
  al_notnull : 0 < ptr;
  al_config : increment_size p' = increment_size p /\ alignment p' = alignment p /\ addr p' = addr p
}.

Lemma take_from_block f p A O l1 b l2 al size ptr b' :
  pool_ok f p A O -> power_of_two al -> 0 <= size -> block_list p = l1 ++ b :: l2 ->
  pj_pool_alloc_from_block b al size = Some (ptr, b') ->
  allocated f f p (set_blocks p (l1 ++ b' :: l2)) A O al size ptr.
Proof.
  intros (bs & b0 & Hwf & HA & Hlive & Hap) Hal Hs Hl Hb.
  assert (Hbw : block_wf b).
  { pose proof (pw_wf _ _ _ Hwf) as HF. rewrite Hl, Forall_forall in HF.
    apply HF, elem_of_app. right. by left. }
  destruct (alloc_from_block_some _ _ _ _ _ Hbw Hal Hs Hb) as (-> & Hbw' & Hc & Hm).
  destruct (pool_wf_bump _ _ _ _ _ _ _ Hwf Hl Hbw') as (bs' & b0' & Hwf' & Ho).
  pose proof (bw_cur _ Hbw') as Hc'. simpl in Hc'. destruct Hbw. unfold SIZEOF_BLOCK in *.
  split; [|done|lia|done].
  exists bs', b0'. split_and!; try done.
  - eapply allocs_bump; try done. lia.
  - simpl. by rewrite Ho.
Qed.

(** A block from the factory, put in front. *)
Lemma create_block_ok f p A O n a f1 :
  pool_ok f p A O -> SIZEOF_BLOCK <= n < 2 ^ 32 -> block_alloc f n = (Some a, f1) ->
  pj_pool_create_block f p n =
    (Some (mk_block a (a + SIZEOF_BLOCK) (a + SIZEOF_BLOCK) (a + n)),
     set_blocks (set_capacity p (u32 (capacity p + n)))
       (mk_block a (a + SIZEOF_BLOCK) (a + SIZEOF_BLOCK) (a + n) :: block_list p), f1) /\
  pool_ok f1 (set_blocks (set_capacity p (u32 (capacity p + n)))
       (mk_block a (a + SIZEOF_BLOCK) (a + SIZEOF_BLOCK) (a + n) :: block_list p)) A O.
Proof.
  intros (bs & b0 & Hwf & HA & Hlive & Hap) Hn Hal.
  destruct (block_alloc_some f n a f1) as (Ha & Hend & Hl1 & Hfr); [unfold SIZEOF_BLOCK in *; lia|done|].
  unfold SIZEOF_BLOCK in *.
  unfold pj_pool_create_block. rewrite Hal.
  rewrite (u32_small (a + SIZEOF_BLOCK)), (u32_small (a + n)) by (unfold SIZEOF_BLOCK; lia).
  unfold SIZEOF_BLOCK. split; [done|].
  set (b := mk_block a (a + 20) (a + 20) (a + n)).
  assert (Hbr : block_region b = (a, n)) by (unfold block_region; simpl; f_equal; lia).
  assert (Hown : owned (addr p) (b :: bs) b0 = (a, n) :: owned (addr p) bs b0)
    by (unfold owned; cbn [map app]; by rewrite Hbr).
  exists (b :: bs), b0. destruct Hwf as [Hb Hf Had HF Hali Hinc Hapo Hcap]. split_and!.
  - split; cbn; rewrite ?Hown; try done.
    + by rewrite Hb.
    + constructor; [|done]. split; simpl; unfold SIZEOF_BLOCK; lia.
    + split; [|done]. rewrite Hlive, Forall_app in Hfr. apply Hfr.
    + rewrite Hcap. unfold u32, wrap. rewrite Zplus_mod_idemp_l. simpl. f_equal. lia.
  - destruct HA as [Hin Hsz Haa]. split; try done. intros r Hr.
    destruct (Hin r Hr) as (x & Hx & Hi). exists x. split; [by right|done].
  - cbn [addr set_blocks set_capacity]. rewrite Hown, Hl1, Hlive. done.
  - rewrite Hl1. split; [done|]. done.
Qed.

(** The size asked for is enough for the request, if the sum does not wrap. *)
Lemma new_block_size_enough inc al size :
  power_of_two al -> 0 <= size -> SIZEOF_BLOCK <= inc ->
  inc + SIZEOF_BLOCK + al - 1 + size < 2 ^ 32 ->
  SIZEOF_BLOCK + (al - 1) + size <= new_block_size inc al size < 2 ^ 32 /\
  SIZEOF_BLOCK <= new_block_size inc al size.
Proof.
  intros (k & Hk & ->) Hs Hinc Hb. unfold new_block_size, SIZEOF_BLOCK in *.
  pose proof (Z.pow_pos_nonneg 2 k ltac:(lia) ltac:(lia)) as Hpos.
  set (al := 2 ^ k) in *.
  rewrite (u32_small (20 + al - 1 + size)) by lia.
  rewrite (u32_small (inc + 20 + al - 1 + size)) by lia.
  destruct (Z.ltb_spec inc (20 + al - 1 + size)); [|lia].
  set (x := inc + 20 + al - 1 + size) in *.
  pose proof (Z.div_mod x inc ltac:(lia)). pose proof (Z.mod_pos_bound x inc ltac:(lia)).
  rewrite u32_small by lia. lia.
Qed.

(** How an allocation that finds no memory leaves the pool. *)
Definition nothing_allocated f' p p' A O : Prop :=
  pool_ok f' p' A O /\ increment_size p' = increment_size p /\ alignment p' = alignment p /\
  addr p' = addr p.

(** Why it finds none: the search meets no room, and the pool may not grow or
    the factory has no block of the size the request needs. *)
Definition out_of_memory f p (al size : Z) : Prop :=
  crowded p al size /\
  (increment_size p = 0 \/ exists f1, block_alloc f (new_block_size (increment_size p) al size) = (None, f1)).

Lemma pool_ok_frame f f' p A O : live f' ≡ₚ live f -> pool_ok f p A O -> pool_ok f' p A O.
Proof.
  intros Hl (bs & b0 & ? & ? & Hlive & Hap). exists bs, b0. split_and!; try done; by rewrite Hl.
Qed.

Lemma allocate_find_spec f p A O al size :
  pool_ok f p A O -> power_of_two al -> 0 <= size ->
  increment_size p + SIZEOF_BLOCK + al - 1 + size < 2 ^ 32 ->
  let '(r, p', f') := pj_pool_allocate_find f p al size in
  match r with
  | Some ptr => allocated f f' p p' A O al size ptr /\ (f' = f \/ crowded p al size)
  | None => nothing_allocated f' p p' A O /\ out_of_memory f p al size
  end.
Proof.
  intros Hok Hal Hs Hb. unfold pj_pool_allocate_find.
  destruct (find_in_blocks _ _ _ _) as [[ptr bs']|] eqn:Ef.
  { destruct (find_in_blocks_some _ _ _ _ _ _ Ef) as (l1 & b & l2 & b' & Hl & -> & Hbb).
    split; [by eapply take_from_block|by left]. }
  assert (Hcr : crowded p al size).
  { destruct Hok as (? & ? & Hwf & _). pose proof (pw_wf _ _ _ Hwf).
    by apply (find_in_blocks_none 0). }
  destruct (Z.eqb_spec (increment_size p) 0) as [Hz|Hz].
  { split; [|split; [done|by left]]. split; [|done]. eapply pool_ok_frame; [apply callback_live|done]. }
  assert (Hinc : SIZEOF_BLOCK <= increment_size p).
  { destruct Hok as (? & ? & Hwf & _). destruct (pw_inc _ _ _ Hwf); [done|lia]. }
  destruct (new_block_size_enough _ al size Hal Hs Hinc Hb) as [Hn Hn0].
  set (n := new_block_size _ _ _) in *.
  destruct (block_alloc f n) as [[a|] f1] eqn:Ea.
  - destruct (create_block_ok f p A O n a f1 Hok ltac:(lia) Ea) as [-> Hok1].
    set (b := mk_block _ _ _ _) in *.
    destruct (alloc_from_block_fits b al size) as (ptr & b' & Hbb); try done.
    + destruct Hok1 as (? & ? & Hwf & _). pose proof (pw_wf _ _ _ Hwf) as HF.
      by apply Forall_cons in HF as [? _].
    + simpl. lia.
    + rewrite Hbb. simpl.
      destruct (take_from_block _ _ _ _ [] b _ _ _ _ _ Hok1 Hal Hs eq_refl Hbb) as [H1 H2 H3 H4].
      split; [by split|by right].
  - unfold pj_pool_create_block. rewrite Ea. split; [|split; [done|right; by exists f1]]. split; [|done].
    eapply pool_ok_frame; [|done]. by rewrite callback_live, (block_alloc_none _ _ _ Ea).
Qed.

Lemma aligned_alloc_spec f p A O al size :
  pool_ok f p A O -> (al = 0 \/ power_of_two al) -> 0 <= size ->
  increment_size p + SIZEOF_BLOCK + Z.max al (alignment p) - 1 + size < 2 ^ 32 ->
  let '(r, p', f') := pj_pool_aligned_alloc f p al size in
  match r with
  | Some ptr => allocated f f' p p' A O (if al =? 0 then alignment p else al) size ptr /\ (f' = f \/ crowded p (if al =? 0 then alignment p else al) size)
  | None => nothing_allocated f' p p' A O /\ out_of_memory f p (if al =? 0 then alignment p else al) size
  end.
Proof.
  intros Hok Hal Hs Hb. unfold pj_pool_aligned_alloc.
  assert (negb (al =? 0) && negb (PJ_IS_POWER_OF_TWO al) = false) as ->.
  { destruct Hal as [->|Hp]; [done|]. apply andb_false_iff. right.
    destruct Hp as (k & Hk & ->). unfold PJ_IS_POWER_OF_TWO.
    pose proof (Z.pow_pos_nonneg 2 k ltac:(lia) ltac:(lia)).
    rewrite land_low_bits, Z.mod_same by lia. by destruct (Z.ltb_spec 0 (2 ^ k)); [|lia]. }
  set (al' := if al =? 0 then alignment p else al).
  assert (Hal' : power_of_two al' /\ al' <= Z.max al (alignment p)).
  { unfold al'. destruct Hok as (? & ? & Hwf & _). pose proof (pw_align _ _ _ Hwf).
    destruct (Z.eqb_spec al 0); split; try lia; [done|]. by destruct Hal. }
  destruct Hal' as [Hal' Hmax].
  destruct (head (block_list p) ≫= _) as [[ptr b']|] eqn:Eb.
  - destruct (block_list p) as [|b bs] eqn:El; [done|].
    split; [by apply (take_from_block f p A O [] b bs al' size ptr b')|by left].
  - apply allocate_find_spec; try done. lia.
Qed.

Lemma pool_params f p A O : pool_ok f p A O -> 0 < alignment p /\ 0 <= increment_size p.
Proof.
  intros (? & ? & Hwf & _). destruct (pw_align _ _ _ Hwf) as (k & Hk & ->).
  split; [by apply Z.pow_pos_nonneg; lia|]. destruct (pw_inc _ _ _ Hwf); unfold SIZEOF_BLOCK in *; lia.
Qed.

(** C26 [pj_pool_alloc] returns an aligned, non-NULL address of [size] bytes
    inside the blocks the pool owns, which overlap no memory the pool has handed
    out before, and keeps the pool in order, and it asks the factory for memory
    only when none of the six blocks it looks at has the room; it returns NULL
    only when moreover the pool may not grow or the factory refuses the block
    that the request needs, and then nothing is lost.  The request is one for
    which the size of that block does not wrap. *)
Theorem pool_alloc_sound f p A O size :
  pool_ok f p A O -> 0 <= size ->
  increment_size p + SIZEOF_BLOCK + alignment p - 1 + size < 2 ^ 32 ->
  let '(r, p', f') := pj_pool_alloc f p size in
  match r with
  | Some ptr => allocated f f' p p' A O (alignment p) size ptr /\ (f' = f \/ crowded p (alignment p) size)
  | None => nothing_allocated f' p p' A O /\ out_of_memory f p (alignment p) size
  end.
Proof.
  intros Hok Hs Hb. destruct (pool_params _ _ _ _ Hok).
  apply (aligned_alloc_spec f p A O 0 size Hok); [by left|done|].
  rewrite Z.max_r by lia. done.
Qed.

(** [pj_pool_calloc] refuses a request of more bytes than an address can
    count, so the memory it returns always has room for [count] elements of
    [size] bytes. *)
Theorem pool_calloc_exact f p A O count size :
  pool_ok f p A O -> 0 <= count < 2 ^ 32 -> 0 <= size < 2 ^ 32 ->
  (2 ^ 32 <= count * size ->
     pj_pool_calloc f p count size = (None, p, pool_callback f UINT_MAX)) /\
  (increment_size p + SIZEOF_BLOCK + alignment p - 1 + count * size < 2 ^ 32 ->
     let '(r, p', f') := pj_pool_calloc f p count size in
     forall ptr, r = Some ptr -> allocated f f' p p' A O (alignment p) (count * size) ptr).
Proof.
  intros Hok Hc Hs. destruct (pool_params _ _ _ _ Hok) as [Hal Hinc]. unfold pj_pool_calloc.
  assert (Hg : negb (count =? 0) && (UINT_MAX / count <? size) = true <-> 2 ^ 32 <= count * size).
  { destruct (Z.eqb_spec count 0) as [->|]; simpl; [lia|]. rewrite Z.ltb_lt. unfold UINT_MAX.
    pose proof (Z.div_mod (2 ^ 32 - 1) count ltac:(lia)).
    pose proof (Z.mod_pos_bound (2 ^ 32 - 1) count ltac:(lia)). nia. }
  split.
  - intros Ho. apply Hg in Ho. by rewrite Ho.
  - intros Hb. destruct (_ && _); [destruct Hg as [Hg _]; specialize (Hg eq_refl); unfold SIZEOF_BLOCK in *; lia|].
    assert (Hu : u32 (size * count) = count * size)
      by (rewrite u32_small; unfold SIZEOF_BLOCK in *; nia).
    rewrite Hu. unfold pj_pool_alloc.
    pose proof (aligned_alloc_spec f p A O 0 (count * size) Hok (or_introl eq_refl)) as Hsp.
    specialize (Hsp ltac:(nia) ltac:(lia)).
    destruct (pj_pool_aligned_alloc f p 0 (count * size)) as [[r p'] f'].
    intros ptr ->. apply Hsp.
Qed.

(** ** Reset and destruction *)

Lemma free_blocks_live f bs O :
  Forall block_wf bs -> live f ≡ₚ map block_region bs ++ O ->
  live (free_blocks f bs) ≡ₚ O.
Proof.
  revert f O. induction bs as [|b bs IH]; intros f O Hwf Hl; [done|].
  apply Forall_cons in Hwf as [Hb Hwf]. simpl.
  apply block_free_live. destruct Hb as [? ? ? ?]. unfold SIZEOF_BLOCK in *.
  rewrite u32_small by lia. fold (block_region b).
  apply IH; [done|]. rewrite Hl. simpl. by rewrite Permutation_middle.
Qed.

Lemma reset_pool_spec f p A O :
  pool_ok f p A O -> exists b0 f',
    reset_pool f p = (set_capacity (set_blocks p [b0]) (end_ b0 - addr p), f') /\
    (exists b, last (block_list p) = Some b /\ b0 = set_cur b (buf b)) /\
    0 < end_ b0 - addr p < 2 ^ 32 /\
    pool_ok f' (set_capacity (set_blocks p [b0]) (end_ b0 - addr p)) [] O.
Proof.
  intros (bs & b0 & Hwf & HA & Hlive & Hap). pose proof Hwf as [Hb Hf Had HF Hali Hinc Hapo Hcap].
  unfold reset_pool. rewrite Hb, last_snoc, removelast_last.
  rewrite Hb in HF. apply Forall_app in HF as [HF HF0]. apply Forall_singleton in HF0 as [H1 H2 H3 H4].
  unfold SIZEOF_BLOCK, SIZEOF_POOL in *. rewrite u32_small by lia.
  assert (Hl' : live (free_blocks f bs) ≡ₚ (addr p, end_ b0 - addr p) :: O).
  { apply free_blocks_live; [done|]. rewrite Hlive. unfold owned. by rewrite <-app_assoc. }
  exists (set_cur b0 (buf b0)), (free_blocks f bs). split_and!; simpl; try done; try lia.
  - by exists b0.
  - exists [], (set_cur b0 (buf b0)). unfold owned. simpl. split_and!.
    + split; simpl; try done.
      * constructor; [|done]. split; simpl; unfold SIZEOF_BLOCK; lia.
      * rewrite u32_small; lia.
    + split; try done; [by intros ? ?%elem_of_nil..].
    + done.
    + rewrite Hl'. rewrite Hlive in Hap. unfold owned in Hap. rewrite <-app_assoc in Hap.
      apply all_apart_app in Hap as (_ & Hap & _). done.
Qed.

(** After [pj_pool_reset] the pool is the one block it was created with,
    empty, its capacity the size it was created with, and every other block is
    back at the factory. *)
Theorem pool_reset_initial f p A O bs b0 :
  pool_ok f p A O -> pool_wf p bs b0 -> exists p' f', pj_pool_reset f p = (p', f') /\
    pool_ok f' p' [] O /\ block_list p' = [set_cur b0 (buf b0)] /\
    capacity p' = end_ b0 - addr p /\
    pj_pool_get_used_size p' = SIZEOF_POOL + SIZEOF_BLOCK /\
    live f' ≡ₚ (addr p, end_ b0 - addr p) :: O.
Proof.
  intros Hok Hwf. destruct (reset_pool_spec f p A O Hok) as (b & f' & Hr & (b1 & Hl & ->) & Hcap & Hok').
  rewrite (pw_blocks _ _ _ Hwf), last_snoc in Hl. injection Hl as <-.
  unfold pj_pool_reset. rewrite Hr. eexists _, f'. split; [done|]. split_and!; try done.
  - unfold pj_pool_get_used_size. simpl. by rewrite Z.sub_diag.
  - destruct Hok' as (bs' & b' & Hwf' & _ & Hlive & _).
    pose proof (pw_blocks _ _ _ Hwf') as Hb'. simpl in Hb'.
    destruct bs' as [|? [|??]]; [|done..]. injection Hb' as <-. done.
Qed.

(** Destroying a pool returns every region it had from the factory, and nothing
    else. *)
Lemma destroy_int_spec f p A O :
  pool_ok f p A O -> exists f', pj_pool_destroy_int f p = Some f' /\ live f' ≡ₚ O.
Proof.
  intros Hok. destruct (reset_pool_spec f p A O Hok) as (b0 & f' & Hr & _ & Hcap & Hok').
  unfold pj_pool_destroy_int. rewrite Hr. cbn [block_list set_blocks set_capacity head addr].
  simpl. eexists. split; [done|]. rewrite u32_small by lia. apply block_free_live.
  destruct Hok' as (bs' & b' & Hwf' & _ & Hlive & _).
  pose proof (pw_blocks _ _ _ Hwf') as Hb'. simpl in Hb'.
  destruct bs' as [|? [|??]]; [|done..]. injection Hb' as <-. done.
Qed.

(** [pj_pool_create_int] makes a pool in the first block, or fails and leaves
    the factory's memory as it was. *)
Lemma create_int_spec f initial inc al :
  all_apart (live f) -> initial < 2 ^ 32 -> (inc = 0 \/ SIZEOF_BLOCK <= inc < 2 ^ 32) ->
  0 <= al < 2 ^ 32 ->
  let '(r, f') := pj_pool_create_int f initial inc al in
  match r with
  | Some p => pool_ok f' p [] (live f) /\ capacity p = initial /\ increment_size p = inc /\
      alignment p = (if al =? 0 then PJ_POOL_ALIGNMENT else al) /\
      SIZEOF_POOL + SIZEOF_BLOCK <= initial /\ pj_pool_get_used_size p = SIZEOF_POOL + SIZEOF_BLOCK
  | None => live f' ≡ₚ live f
  end.
Proof.
  intros Hap Hi Hinc Hal. unfold pj_pool_create_int.
  destruct (Z.leb_spec (SIZEOF_POOL + SIZEOF_BLOCK) initial) as [Hsz|]; simpl; [|done].
  destruct (negb (al =? 0) && negb (PJ_IS_POWER_OF_TWO al)) eqn:Ep; [done|].
  destruct (block_alloc f initial) as [[a|] f'] eqn:Ea.
  2: by eapply block_alloc_none.
  unfold SIZEOF_POOL, SIZEOF_BLOCK in *.
  destruct (block_alloc_some f initial a f') as (Ha & Hend & Hl & Hfr); [lia|done|].
  rewrite !(u32_small (a + 84)), (u32_small (a + 84 + 20)), (u32_small (a + initial)) by lia.
  set (b := mk_block _ _ _ _). split_and!; try done.
  - exists [], b. unfold owned. simpl.
    replace (a + initial - a) with initial by lia. split_and!.
    + split; simpl; try done.
      * constructor; [|done]. split; simpl; unfold SIZEOF_BLOCK; lia.
      * destruct (Z.eqb_spec al 0); [by exists 3|]. simpl in Ep.
        apply is_power_of_two_spec; [|lia]. by destruct (PJ_IS_POWER_OF_TWO al).
      * rewrite u32_small; lia.
    + split; try done; by intros ? ?%elem_of_nil.
    + done.
    + rewrite Hl. split; done.
  - unfold pj_pool_get_used_size. simpl. by rewrite Z.sub_diag.
Qed.

(** *** The life of a pool *)

Inductive pool_op := Alloc (size : Z) | Calloc (count size : Z) | Reset.

Definition run_op (st : pj_pool_t * F) (op : pool_op) : pj_pool_t * F :=
  match op with
  | Alloc size => let '(_, p, f) := pj_pool_alloc st.2 st.1 size in (p, f)
  | Calloc count size => let '(_, p, f) := pj_pool_calloc st.2 st.1 count size in (p, f)
  | Reset => pj_pool_reset st.2 st.1
  end.

(** Requests whose block size can be computed without wrapping. *)
Definition op_fits (inc al : Z) (op : pool_op) : Prop :=
  match op with
  | Alloc size => 0 <= size /\ inc + SIZEOF_BLOCK + al - 1 + size < 2 ^ 32
  | Calloc count size => 0 <= count /\ 0 <= size /\
      inc + SIZEOF_BLOCK + al - 1 + count * size < 2 ^ 32
  | Reset => True
  end.

Lemma alloc_op_ok f p A O size :
  pool_ok f p A O -> 0 <= size -> increment_size p + SIZEOF_BLOCK + alignment p - 1 + size < 2 ^ 32 ->
  let '(_, p', f') := pj_pool_alloc f p size in
  (exists A', pool_ok f' p' A' O) /\ increment_size p' = increment_size p /\ alignment p' = alignment p.
Proof.
  intros Hok Hs Hb. destruct (pool_params _ _ _ _ Hok).
  pose proof (aligned_alloc_spec f p A O 0 size Hok (or_introl eq_refl) Hs) as Hsp.
  rewrite Z.max_r in Hsp by lia. specialize (Hsp Hb). unfold pj_pool_alloc.
  destruct (pj_pool_aligned_alloc f p 0 size) as [[[ptr|] p'] f'].
  - destruct Hsp as [[? _ _ (? & ? & _)] _]. eauto.
  - destruct Hsp as [(? & ? & ? & _) _]. eauto.
Qed.

Lemma run_op_ok f p A O op :
  pool_ok f p A O -> op_fits (increment_size p) (alignment p) op ->
  let '(p', f') := run_op (p, f) op in
  (exists A', pool_ok f' p' A' O) /\ increment_size p' = increment_size p /\ alignment p' = alignment p.
Proof.
  intros Hok Hfit. destruct (pool_params _ _ _ _ Hok). destruct op as [size|count size|]; simpl in *.
  - destruct Hfit as [Hs Hb]. pose proof (alloc_op_ok f p A O size Hok Hs Hb) as H1.
    by destruct (pj_pool_alloc f p size) as [[? ?] ?].
  - destruct Hfit as (Hc & Hs & Hb). unfold pj_pool_calloc. unfold SIZEOF_BLOCK in *.
    destruct (_ && _).
    { split; [|done]. exists A. eapply pool_ok_frame; [apply callback_live|done]. }
    rewrite u32_small by nia.
    pose proof (alloc_op_ok f p A O (size * count) Hok ltac:(nia) ltac:(unfold SIZEOF_BLOCK; lia)) as H1.
    by destruct (pj_pool_alloc f p (size * count)) as [[? ?] ?].
  - unfold pj_pool_reset. destruct (reset_pool_spec f p A O Hok) as (b0 & f' & -> & _ & _ & Hok').
    split; [by exists []|done].
Qed.

(** C27 Whatever is done with a pool between its creation and its destruction,
    the destruction gives back exactly the memory the pool had from its
    factory: nothing leaks and nothing of others is freed. *)
Theorem pool_lifetime_no_leak f initial inc al ops p f1 :
  all_apart (live f) -> initial < 2 ^ 32 -> (inc = 0 \/ SIZEOF_BLOCK <= inc < 2 ^ 32) ->
  0 <= al < 2 ^ 32 -> pj_pool_create_int f initial inc al = (Some p, f1) ->
  Forall (op_fits inc (if al =? 0 then PJ_POOL_ALIGNMENT else al)) ops ->
  let '(p', f') := foldl run_op (p, f1) ops in
  exists f2, pj_pool_destroy_int f' p' = Some f2 /\ live f2 ≡ₚ live f.
Proof.
  intros Hap Hi Hinc Hal Hc Hops. pose proof (create_int_spec f initial inc al Hap Hi Hinc Hal) as Hcr.
  rewrite Hc in Hcr. destruct Hcr as (Hok & _ & <- & Hali & _). rewrite <-Hali in Hops.
  clear Hc Hi Hinc Hali. revert p f1 Hok Hops. generalize (@nil region) as A.
  induction ops as [|op ops IH]; intros A p f1 Hok Hops; simpl.
  - destruct (destroy_int_spec f1 p A _ Hok) as (f2 & ? & ?). eauto.
  - apply Forall_cons in Hops as [Hop Hops].
    pose proof (run_op_ok f1 p A _ op Hok Hop) as Hrun.
    destruct (run_op (p, f1) op) as [p2 f2]. destruct Hrun as ([A' Hok'] & Hi' & Ha').
    apply (IH A' p2 f2 Hok'). by rewrite Hi', Ha'.
Qed.

End alloc.

(** ** The search through the blocks *)

(** The search stops after the sixth block, one more than
    PJ_POOL_MAX_SEARCH_BLOCK_COUNT: an allocation succeeds in the blocks there
    are exactly if one of the first six has room. *)
Theorem find_searches_six_blocks bs al size :
  is_Some (find_in_blocks 0 bs al size) <->
  exists b, b ∈ take (Z.to_nat PJ_POOL_MAX_SEARCH_BLOCK_COUNT + 1) bs /\
    is_Some (pj_pool_alloc_from_block b al size).
Proof.
  change 0 with (PJ_POOL_MAX_SEARCH_BLOCK_COUNT - Z.of_nat 5).
  change (Z.to_nat PJ_POOL_MAX_SEARCH_BLOCK_COUNT) with 5%nat. generalize 5%nat as n.
  induction bs as [|b bs IH]; intros n; simpl.
  - rewrite take_nil. split; [by intros []|]. by intros (b & ?%elem_of_nil & _).
  - rewrite Nat.add_1_r. simpl. setoid_rewrite elem_of_cons.
    destruct (pj_pool_alloc_from_block b al size) as [[q b']|] eqn:Eb.
    { split; [|by eauto]. intros _. exists b. split; [by left|]. by rewrite Eb. }
    destruct (Z.leb_spec PJ_POOL_MAX_SEARCH_BLOCK_COUNT (PJ_POOL_MAX_SEARCH_BLOCK_COUNT - Z.of_nat n)).
    + assert (n = 0%nat) as -> by lia. rewrite take_0. split; [by intros []|].
      intros (c & [->|?%elem_of_nil] & Hc); [rewrite Eb in Hc; by destruct Hc|done].
    + destruct n as [|n]; [lia|].
      replace (PJ_POOL_MAX_SEARCH_BLOCK_COUNT - Z.of_nat (S n) + 1)
        with (PJ_POOL_MAX_SEARCH_BLOCK_COUNT - Z.of_nat n) by lia.
      specialize (IH n). rewrite Nat.add_1_r in IH.
      transitivity (is_Some (find_in_blocks (PJ_POOL_MAX_SEARCH_BLOCK_COUNT - Z.of_nat n) bs al size)).
      { destruct (find_in_blocks _ bs al size) as [[??]|]; simpl; split; intros []; eauto; done. }
      rewrite IH. split; intros (c & Hc & Hs); exists c; [by eauto|].
      destruct Hc as [->|?]; [|done]. rewrite Eb in Hs. by destruct Hs.
Qed.

(** The computation of the block size wraps around for requests close to
    the size of the address space: the block asked for is then smaller than the
    header written into it, and the memory of the block ends before its buffer
    begins. *)
Theorem huge_request_undersized_block {F} `{!BlockFactory F} (f f1 : F) p a inc al size :
  increment_size p = inc -> 1 < inc < 2 ^ 31 -> find_in_blocks 0 (block_list p) al size = None ->
  al = 8 -> size = 2 ^ 32 - 28 -> block_alloc f 0 = (Some a, f1) -> 0 < a < 2 ^ 31 ->
  let '(r, p', f') := pj_pool_allocate_find f p al size in
  r = None /\ exists b bs, block_list p' = b :: bs /\ end_ b < buf b.
Proof.
  intros Hinc Hr Hnone -> -> Ha Hab. unfold pj_pool_allocate_find.
  rewrite Hnone, Hinc. destruct (Z.eqb_spec inc 0); [lia|].
  assert (new_block_size inc 8 (2 ^ 32 - 28) = 0) as ->.
  { unfold new_block_size, SIZEOF_BLOCK. change (u32 (20 + 8 - 1 + (2 ^ 32 - 28))) with (2 ^ 32 - 1).
    destruct (Z.ltb_spec inc (2 ^ 32 - 1)); [|lia].
    replace (inc + 20 + 8 - 1 + (2 ^ 32 - 28)) with (inc - 1 + 1 * 2 ^ 32) by lia.
    unfold u32 at 2. unfold wrap. rewrite Z.mod_add, Z.mod_small, Z.div_small by lia. done. }
  unfold pj_pool_create_block. rewrite Ha. unfold SIZEOF_BLOCK.
  rewrite (u32_small (a + 20)), (u32_small (a + 0)) by lia.
  set (b := mk_block _ _ _ _).
  assert (pj_pool_alloc_from_block b 8 (2 ^ 32 - 28) = None) as ->.
  { unfold pj_pool_alloc_from_block. simpl.
    destruct (Z.leb_spec (a + 20) (PJ_POOL_ALIGN_PTR (a + 20) 8)); [|done].
    destruct (Z.leb_spec (PJ_POOL_ALIGN_PTR (a + 20) 8) (a + 0)); [lia|done]. }
  split; [done|]. exists b, (block_list p). split; [done|]. simpl. lia.
Qed.

(** ** Memory pools at concrete inputs

    A factory that places each block above all live ones, and the theorems of
    [PoolSpec] applied to a pool from it. *)

Definition ex_top (l : list region) : Z := foldr (fun r m => Z.max (r.1 + r.2) m) 4096 l.

#[export] Instance ex_factory : BlockFactory (list region) := {
  block_alloc := fun l n =>
    if ex_top l + n <? 2 ^ 32 then (Some (ex_top l), (ex_top l, n) :: l) else (None, l);
  block_free := fun l a n => remove_first (a, n) l;
  pool_callback := fun l _ => l
}.

Lemma ex_top_above l : 4096 <= ex_top l /\ forall r, r ∈ l -> r.1 + r.2 <= ex_top l.
Proof.
  induction l as [|r l [IH1 IH2]]; simpl.
  - split; [lia|]. by intros ? ?%elem_of_nil.
  - split; [lia|]. intros s [->|Hs]%elem_of_cons; [lia|]. specialize (IH2 s Hs). lia.
Qed.

#[export] Instance ex_factory_laws : FactoryLaws (list region).
Proof.
  refine {| live := fun l : list region => l |}.
  - intros f n a f' Hn. simpl. destruct (Z.ltb_spec (ex_top f + n) (2 ^ 32)); [|done].
    intros [= <- <-]. destruct (ex_top_above f) as [H1 H2]. split_and!; try done; try lia.
    rewrite Forall_forall. intros r Hr. right. simpl. auto.
  - intros f n f'. simpl. destruct (_ <? _); [done|]. by intros [= <-].
  - intros f a n rs. apply remove_first_perm.
  - done.
Defined.

(** A pool of 256 bytes that grows by 128. *)
Definition ex_created : option pj_pool_t * list region := Eval vm_compute in
  pj_pool_create_int (F := list region) [] 256 128 0.
Definition ex_live : list region := ex_created.2.
Definition ex_pool : pj_pool_t := default (mk_pool 0 0 0 [] 0 0) ex_created.1.

Lemma ex_pool_wf : pool_wf ex_pool [] (mk_block 4180 4200 4200 4352).
Proof.
  split; try done.
  - constructor; [|done]. by split.
  - by exists 3.
  - by right.
Qed.

Lemma ex_pool_ok : pool_ok ex_live ex_pool [] [].
Proof.
  exists [], (mk_block 4180 4200 4200 4352). split_and!; try done; [apply ex_pool_wf|].
  split; try done; by intros ? ?%elem_of_nil.
Qed.

Lemma pool_alloc_sound_witness :
  let '(r, p', f') := pj_pool_alloc ex_live ex_pool 100 in
  match r with
  | Some ptr => allocated ex_live f' ex_pool p' [] [] 8 100 ptr /\ (f' = ex_live \/ crowded ex_pool 8 100)
  | None => nothing_allocated f' ex_pool p' [] [] /\ out_of_memory ex_live ex_pool 8 100
  end.
Proof. apply (pool_alloc_sound ex_live ex_pool [] [] 100 ex_pool_ok); done. Defined.

(** The first request fits the first block, the second makes a new one. *)
Example pool_alloc_twice :
  let '(r1, p1, f1) := pj_pool_alloc ex_live ex_pool 100 in
  let '(r2, p2, f2) := pj_pool_alloc f1 p1 100 in
  r1 = Some 4200 /\ r2 = Some 4376 /\ capacity p2 = 384 /\ pj_pool_get_used_size p2 = 328.
Proof. vm_compute. done. Qed.

Lemma pool_calloc_exact_witness :
  pj_pool_calloc ex_live ex_pool 65536 65536 = (None, ex_pool, pool_callback ex_live UINT_MAX) /\
  let '(r, p', f') := pj_pool_calloc ex_live ex_pool 5 20 in
  forall ptr, r = Some ptr -> allocated ex_live f' ex_pool p' [] [] 8 (5 * 20) ptr.
Proof.
  pose proof (pool_calloc_exact ex_live ex_pool [] [] 65536 65536 ex_pool_ok ltac:(lia) ltac:(lia)) as H1.
  pose proof (pool_calloc_exact ex_live ex_pool [] [] 5 20 ex_pool_ok ltac:(lia) ltac:(lia)) as H2.
  split; [apply (proj1 H1); lia|apply (proj2 H2); vm_compute; reflexivity].
Defined.

Lemma pool_reset_initial_witness : exists p' f', pj_pool_reset ex_live ex_pool = (p', f') /\
  pool_ok f' p' [] [] /\ block_list p' = [mk_block 4180 4200 4200 4352] /\
  capacity p' = 4352 - addr ex_pool /\
  pj_pool_get_used_size p' = SIZEOF_POOL + SIZEOF_BLOCK /\
  live f' ≡ₚ [(addr ex_pool, 4352 - addr ex_pool)].
Proof. apply (pool_reset_initial ex_live ex_pool [] [] [] _ ex_pool_ok ex_pool_wf). Defined.

Lemma pool_lifetime_no_leak_witness :
  let '(p', f') := foldl run_op (ex_pool, ex_live) [Alloc 100; Alloc 300; Reset; Calloc 4 8] in
  exists f2, pj_pool_destroy_int f' p' = Some f2 /\ live f2 ≡ₚ live [].
Proof.
  pose proof (pool_lifetime_no_leak (F := list region) [] 256 128 0
    [Alloc 100; Alloc 300; Reset; Calloc 4 8] ex_pool ex_live) as H.
  apply H; [done|lia|right; unfold SIZEOF_BLOCK; lia|lia|reflexivity|].
  repeat constructor; vm_compute; done.
Defined.

Lemma huge_request_witness :
  let '(r, p', f') := pj_pool_allocate_find ex_live ex_pool 8 (2 ^ 32 - 28) in
  r = None /\ exists b bs, block_list p' = b :: bs /\ end_ b < buf b.
Proof.
  apply (huge_request_undersized_block ex_live ((4352, 0) :: ex_live) ex_pool 4352 128 8 (2 ^ 32 - 28));
    vm_compute; done.
Defined.
