(* ===== verification/CachingPool.v ===== *)
(** * The caching pool factory and pools on a buffer

    [pjlib/src/pj/pool_caching.c]: a factory that keeps released pools in lists
    by size and hands them out again; [pjlib/src/pj/pool_policy_malloc.c] is
    the policy under it, and [pjlib/src/pj/pool_buf.c] makes a pool in memory
    of the caller.  The mutex of the factory is held throughout each operation
    and is not part of the state. *)
From S2P Require Import Prelude Interfaces Regions Pool.

Definition PJ_CACHING_POOL_ARRAY_SIZE : Z := 16.

Definition pool_sizes : list Z :=
  [256; 512; 1024; 2048; 4096; 8192; 12288; 16384;
   20480; 24576; 28672; 32768; 40960; 49152; 57344; 65536].

Definition START_SIZE : nat := 5.

(** The pools are objects with an address, in the store [pools]; the lists
    hold the addresses.  [backing] is the state of the policy's functions. *)
Record pj_caching_pool (F : Type) := mk_cpool {
  backing : F;
  pools : gmap Z pj_pool_t;
  cp_capacity : Z;
  max_capacity : Z;
  used_count : Z;
  free_list : list (list Z);
  used_list : list Z
}.
Arguments mk_cpool {F}.
Arguments backing {F}.
Arguments pools {F}.
Arguments cp_capacity {F}.
Arguments max_capacity {F}.
Arguments used_count {F}.
Arguments free_list {F}.
Arguments used_list {F}.

Definition set_factory_data (p : pj_pool_t) (i : Z) : pj_pool_t :=
  mk_pool (addr p) (capacity p) (increment_size p) (block_list p) (alignment p) i.

(** The two loops that look for the size class; [n] is the index plus one in
    the downward one. *)
Fixpoint search_down (n : nat) (initial_size : Z) : nat :=
  match n with
  | O => O
  | S m => if initial_size <=? nth m pool_sizes 0 then search_down m initial_size else S m
  end.

Fixpoint search_up (sizes : list Z) (idx : nat) (initial_size : Z) : nat :=
  match sizes with
  | [] => idx
  | s :: sizes => if s <? initial_size then search_up sizes (S idx) initial_size else idx
  end.

Definition size_index (initial_size : Z) : nat :=
  if initial_size <=? nth START_SIZE pool_sizes 0
  then search_down START_SIZE initial_size
  else search_up (drop (S START_SIZE) pool_sizes) (S START_SIZE) initial_size.

Section caching.
Context {F : Type} `{!BlockFactory F}.
Implicit Types cp : pj_caching_pool F.

Definition pj_caching_pool_init (f : F) (max : Z) : pj_caching_pool F :=
  mk_cpool f ∅ 0 max 0 (replicate (Z.to_nat PJ_CACHING_POOL_ARRAY_SIZE) []) [].

(** The pool an application gets: a cached one or a new one, if any. *)
Definition obtain_pool cp (idx : nat) (initial_size increment_sz al : Z)
    : option (option pj_pool_t * pj_caching_pool F) :=
  match nth idx (free_list cp) [] with
  | [] =>
      let initial_size := if (idx <? Z.to_nat PJ_CACHING_POOL_ARRAY_SIZE)%nat
                          then nth idx pool_sizes 0 else initial_size in
      let '(pool, f) := pj_pool_create_int (backing cp) initial_size increment_sz al in
      Some (pool, mk_cpool f (pools cp) (cp_capacity cp) (max_capacity cp) (used_count cp)
                    (free_list cp) (used_list cp))
  | a :: rest =>
      p ← pools cp !! a;
      let p := pj_pool_init_int p increment_sz al in
      let c := if pj_pool_get_capacity p <? cp_capacity cp
               then cp_capacity cp - pj_pool_get_capacity p else 0 in
      Some (Some p, mk_cpool (backing cp) (pools cp) c (max_capacity cp) (used_count cp)
                      (<[idx := rest]> (free_list cp)) (used_list cp))
  end.

Definition cpool_create_pool cp (initial_size increment_sz al : Z)
    : option (option Z * pj_caching_pool F) :=
  let idx := size_index initial_size in
  '(pool, cp) ← obtain_pool cp idx initial_size increment_sz al;
  match pool with
  | None => Some (None, cp)
  | Some p =>
      Some (Some (addr p),
       mk_cpool (backing cp) (<[addr p := set_factory_data p (Z.of_nat idx)]> (pools cp))
         (cp_capacity cp) (max_capacity cp) (u32 (used_count cp + 1)) (free_list cp)
         (used_list cp ++ [addr p]))
  end.

(** [pj_list_erase]: out of whichever list the pool is in. *)
Definition erase_pool cp (a : Z) : pj_caching_pool F :=
  mk_cpool (backing cp) (pools cp) (cp_capacity cp) (max_capacity cp) (used_count cp)
    (map (filter (fun x => x <> a)) (free_list cp)) (filter (fun x => x <> a) (used_list cp)).

Definition destroy_pool cp (a : Z) : option (pj_caching_pool F) :=
  p ← pools cp !! a;
  f ← pj_pool_destroy_int (backing cp) p;
  Some (mk_cpool f (delete a (pools cp)) (cp_capacity cp) (max_capacity cp) (used_count cp)
          (free_list cp) (used_list cp)).

Definition cpool_release_pool cp (a : Z) : option (pj_caching_pool F) :=
  p ← pools cp !! a;
  let cp := erase_pool cp a in
  let cp := mk_cpool (backing cp) (pools cp) (cp_capacity cp) (max_capacity cp)
              (u32 (used_count cp - 1)) (free_list cp) (used_list cp) in
  let pool_capacity := pj_pool_get_capacity p in
  if (nth 15 pool_sizes 0 <? pool_capacity) ||
     (max_capacity cp <? u32 (cp_capacity cp + pool_capacity))
  then destroy_pool cp a else
  let '(p, f) := pj_pool_reset (backing cp) p in
  let cp := mk_cpool f (<[a := p]> (pools cp)) (cp_capacity cp) (max_capacity cp) (used_count cp)
              (free_list cp) (used_list cp) in
  let pool_capacity := pj_pool_get_capacity p in
  let i := factory_data p in
  if PJ_CACHING_POOL_ARRAY_SIZE <=? i then destroy_pool cp a else
  l ← (free_list cp).[i];
  Some (mk_cpool (backing cp) (pools cp) (u32 (cp_capacity cp + pool_capacity)) (max_capacity cp)
          (used_count cp) (<[Z.to_nat i := a :: l]> (free_list cp)) (used_list cp)).

(** Erase and destroy the pools of a list, front to back. *)
Fixpoint destroy_list cp (l : list Z) : option (pj_caching_pool F) :=
  match l with
  | [] => Some cp
  | a :: l => cp ← destroy_pool (erase_pool cp a) a; destroy_list cp l
  end.

Definition pj_caching_pool_destroy cp : option (pj_caching_pool F) :=
  cp ← foldl (fun st l => cp ← st; destroy_list cp l) (Some cp) (free_list cp);
  destroy_list cp (used_list cp).

End caching.

(** ** The default policy *)

Section policy.
(** [malloc] and [free] of the C library over its state [M], [PJ_THROW], and the
    two optional members of the factory, which [pj_caching_pool_init] leaves
    NULL. *)
Context {M : Type} (malloc : M -> Z -> option Z * M) (free : M -> Z -> M) (throw : M -> M).
Context (on_block_alloc : option (M -> Z -> Z * M)) (on_block_free : option (M -> Z -> M)).

Definition call_on_block_free (m : M) (size : Z) : M :=
  match on_block_free with Some on_free => on_free m size | None => m end.

Definition default_block_alloc (m : M) (size : Z) : option Z * M :=
  let '(rc, m) := match on_block_alloc with Some on_alloc => on_alloc m size | None => (1, m) end in
  if rc =? 0 then (None, m) else
  let '(p, m) := malloc m size in
  match p with
  | None => (None, call_on_block_free m size)
  | Some a => (Some a, m)
  end.

Definition default_block_free (m : M) (mem size : Z) : M := free (call_on_block_free m size) mem.

Definition default_pool_callback (m : M) (size : Z) : M := throw m.

Definition pj_pool_factory_default_policy : BlockFactory M := {|
  block_alloc := default_block_alloc;
  block_free := default_block_free;
  pool_callback := default_pool_callback
|}.
End policy.

(** ** Pools on a buffer

    The thread-local pointer to the parameters of the pool being made is the
    whole state of this factory. *)
Record creation_param := mk_param { stack_buf : Z; param_size : Z }.

Definition stack_alloc (tls : option creation_param) (size : Z)
    : option Z * option creation_param :=
  match tls with
  | None => (None, None)
  | Some param => if negb (size <=? param_size param) then (None, None)
                  else (Some (stack_buf param), None)
  end.

(** The factory has no [block_free]. *)
#[export] Instance stack_based_factory : BlockFactory (option creation_param) := {|
  block_alloc := stack_alloc;
  block_free := fun tls _ _ => tls;
  pool_callback := fun tls _ => tls
|}.

Definition pj_pool_create_on_buf (b size : Z) : option pj_pool_t :=
  if (b =? 0) || (size =? 0) then None else
  let align_diff := Z.land b (PJ_POOL_ALIGNMENT - 1) in
  let pad := PJ_POOL_ALIGNMENT - align_diff in
  if negb (align_diff =? 0) && negb (pad <? size) then None else
  let '(b, size) := if align_diff =? 0 then (b, size) else (u32 (b + pad), u32 (size - pad)) in
  (pj_pool_create_int (Some (mk_param b size)) size 0 PJ_POOL_ALIGNMENT).1.
