(* ===== verification/CachingPoolSpec.v ===== *)
(** * What the caching pool promises

    The invariant of the factory, that its operations keep it, and that no
    memory is lost or handed out twice. *)
From S2P Require Import Prelude Interfaces Regions Pool PoolSpec CachingPool.

(** ** The memory of a set of pools *)

Definition first_block (p : pj_pool_t) : pj_pool_block :=
  default (mk_block 0 0 0 0) (last (block_list p)).
Definition more_blocks (p : pj_pool_t) : list pj_pool_block := removelast (block_list p).
Definition owned_of (p : pj_pool_t) : list region := owned (addr p) (more_blocks p) (first_block p).
Definition initial_size (p : pj_pool_t) : Z := end_ (first_block p) - addr p.
Definition wf (p : pj_pool_t) : Prop := pool_wf p (more_blocks p) (first_block p).

Definition all_owned (m : gmap Z pj_pool_t) : list region :=
  concat (map (fun ap => owned_of ap.2) (map_to_list m)).

Lemma wf_of p bs b0 : pool_wf p bs b0 -> bs = more_blocks p /\ b0 = first_block p.
Proof.
  intros Hwf. unfold more_blocks, first_block. rewrite (pw_blocks _ _ _ Hwf).
  by rewrite removelast_last, last_snoc.
Qed.

Lemma all_owned_insert m a p :
  m !! a = None -> all_owned (<[a := p]> m) ≡ₚ owned_of p ++ all_owned m.
Proof.
  intros Ha. unfold all_owned. by rewrite map_to_list_insert.
Qed.

Lemma all_owned_delete m a p :
  m !! a = Some p -> all_owned m ≡ₚ owned_of p ++ all_owned (delete a m).
Proof.
  intros Ha. rewrite <-(insert_delete_id m a p) at 1 by done.
  apply all_owned_insert, lookup_delete_eq.
Qed.

(** The pools of [m] are in order and own, together with [O], what is live. *)
Record mem_ok {F} `{!BlockFactory F} `{!FactoryLaws F}
    (f : F) (m : gmap Z pj_pool_t) (O : list region) : Prop := {
  mo_pool a p : m !! a = Some p -> addr p = a /\ wf p;
  mo_live : live f ≡ₚ all_owned m ++ O;
  mo_apart : all_apart (live f)
}.

Section mem.
Context {F : Type} `{!BlockFactory F} `{!FactoryLaws F}.
Implicit Types (f : F) (m : gmap Z pj_pool_t) (O : list region).

Lemma mem_ok_take f m O a p :
  mem_ok f m O -> m !! a = Some p -> pool_ok f p [] (all_owned (delete a m) ++ O).
Proof.
  intros [Hp Hl Ha] Hm. destruct (Hp a p Hm) as [_ Hwf].
  exists (more_blocks p), (first_block p). split_and!; try done.
  - split; try done; by intros ? ?%elem_of_nil.
  - rewrite Hl, (all_owned_delete m a p Hm), <-app_assoc. done.
Qed.

Lemma mem_ok_put f f' m O a p A :
  mem_ok f m O -> addr p = a -> pool_ok f' p A (all_owned (delete a m) ++ O) ->
  mem_ok f' (<[a := p]> m) O.
Proof.
  intros [Hp Hl Ha] Had (bs & b0 & Hwf & _ & Hl' & Ha'). destruct (wf_of _ _ _ Hwf) as [-> ->].
  split; [| |done].
  - intros b q [[<- <-]|[Hb Hq]]%lookup_insert_Some; [done|by apply Hp].
  - rewrite <-(insert_delete_eq m), all_owned_insert by apply lookup_delete_eq.
    rewrite Hl', <-app_assoc. done.
Qed.

Lemma mem_ok_del f f' m O a :
  mem_ok f m O -> live f' ≡ₚ all_owned (delete a m) ++ O -> mem_ok f' (delete a m) O.
Proof.
  intros [Hp Hl Ha] Hl'. split; [|done|].
  - intros b q [_ Hq]%lookup_delete_Some. by apply Hp.
  - rewrite Hl'. rewrite Hl in Ha. destruct (m !! a) as [p|] eqn:Hm.
    + rewrite (all_owned_delete m a p Hm), <-app_assoc in Ha. by apply all_apart_app in Ha as (_ & ? & _).
    + rewrite delete_id by done. done.
Qed.

(** The capacity is the exact number of bytes the pool has. *)
Lemma capacity_exact f p A O :
  pool_ok f p A O -> capacity p = total (owned_of p) /\ initial_size p <= capacity p.
Proof.
  intros (bs & b0 & Hwf & _). destruct (wf_of _ _ _ Hwf) as [-> ->].
  fold (owned_of p) in *. pose proof Hwf as [Hb Hf Had HF _ _ Hap Hcap].
  rewrite Hb in HF. apply Forall_app in HF as [HF HF0]. rewrite Forall_singleton in HF0.
  assert (Hpos : Forall (fun r : region => 0 <= r.1 /\ 0 < r.2 /\ r.1 + r.2 <= 2 ^ 32 - 1) (owned_of p)).
  { unfold owned_of, owned. apply Forall_app. split.
    - apply Forall_fmap. eapply Forall_impl; [exact HF|]. intros b [? ? ? ?].
      unfold SIZEOF_BLOCK, block_region in *. simpl. lia.
    - rewrite Forall_singleton. destruct HF0. unfold SIZEOF_BLOCK, SIZEOF_POOL in *. simpl. lia. }
  pose proof (total_bound 0 (2 ^ 32 - 1) _ Hpos Hap ltac:(lia)).
  assert (0 <= total (owned_of p)).
  { apply total_nonneg. eapply Forall_impl; [exact Hpos|]. simpl. lia. }
  fold (owned_of p) in Hcap. rewrite Hcap, u32_small by lia. split; [done|].
  unfold owned_of, owned, initial_size. rewrite total_app. simpl.
  assert (0 <= total (map block_region (more_blocks p))); [|lia].
  apply total_nonneg, Forall_fmap. eapply Forall_impl; [exact HF|]. intros b [? ? ? ?].
  unfold SIZEOF_BLOCK in *. simpl. lia.
Qed.

End mem.

(** ** The size classes *)

Lemma size_index_spec n :
  (size_index n <= 16)%nat /\
  (forall s, pool_sizes !! size_index n = Some s -> n <= s) /\
  (forall i s, (i < size_index n)%nat -> pool_sizes !! i = Some s -> s < n).
Proof.
  unfold size_index, START_SIZE. cbn [search_down]. unfold pool_sizes. cbn [nth drop search_up].
  repeat (zcase; try lia); (split_and!; [lia|simpl; intros s ?; simplify_eq; lia|]);
    intros i s Hi Hs; do 16 (destruct i as [|i]; [simpl in Hs; simplify_eq; lia|]); lia.
Qed.


(** ** The invariant of the factory *)

(** The bytes in the free lists, by size class. *)
Fixpoint cached (sizes : list Z) (fl : list (list Z)) : Z :=
  match sizes, fl with
  | s :: sizes, l :: fl => Z.of_nat (length l) * s + cached sizes fl
  | _, _ => 0
  end.

(** The pool was made for its size class, or is too large for any. *)
Definition size_class (p : pj_pool_t) : Prop :=
  0 <= factory_data p <= PJ_CACHING_POOL_ARRAY_SIZE /\
  (forall s, pool_sizes.[factory_data p] = Some s -> initial_size p = s) /\
  (factory_data p = PJ_CACHING_POOL_ARRAY_SIZE -> 65536 < initial_size p).

Record cpool_ok {F} `{!BlockFactory F} `{!FactoryLaws F}
    (cp : pj_caching_pool F) (O : list region) : Prop := {
  ck_mem : mem_ok (backing cp) (pools cp) O;
  ck_nodup : NoDup (used_list cp ++ concat (free_list cp));
  ck_dom a : a ∈ used_list cp ++ concat (free_list cp) <-> is_Some (pools cp !! a);
  ck_class a p : pools cp !! a = Some p -> size_class p;
  ck_free i l a : free_list cp !! i = Some l -> a ∈ l -> exists p,
    pools cp !! a = Some p /\ factory_data p = Z.of_nat i /\
    block_list p = [first_block p] /\ cur (first_block p) = buf (first_block p);
  ck_length : length (free_list cp) = 16%nat;
  ck_capacity : cp_capacity cp = cached pool_sizes (free_list cp);
  ck_max : cp_capacity cp <= max_capacity cp < 2 ^ 32 - 65536;
  ck_used : used_count cp = u32 (Z.of_nat (length (used_list cp)))
}.

Lemma cached_insert sizes fl i l l' s :
  fl !! i = Some l -> sizes !! i = Some s ->
  cached sizes (<[i := l']> fl) =
    cached sizes fl + (Z.of_nat (length l') - Z.of_nat (length l)) * s.
Proof.
  revert sizes i. induction fl as [|k fl IH]; intros sizes i; [done|].
  destruct sizes as [|t sizes]; [by destruct i|].
  destruct i as [|i]; simpl; intros Hl Hs.
  - simplify_eq. lia.
  - rewrite (IH sizes i Hl Hs). lia.
Qed.

Lemma cached_nonneg sizes fl : Forall (fun s => 0 <= s) sizes -> 0 <= cached sizes fl.
Proof.
  intros H. revert fl. induction H as [|s sizes Hs HF IH]; intros [|l fl]; simpl; try lia.
  specialize (IH fl). nia.
Qed.

#[global] Arguments cached : simpl never.

Lemma pool_sizes_get i s : pool_sizes.[i] = Some s -> 0 <= i < 16 /\ 256 <= s <= 65536.
Proof.
  intros H. pose proof (arr_get_bound _ _ _ H) as Hb. simpl in Hb. split; [done|].
  apply arr_get_Some in H as [_ H]. revert H. generalize (Z.to_nat i) as n. intros n H.
  do 16 (destruct n as [|n]; [simpl in H; simplify_eq; lia|]). done.
Qed.

Lemma pool_sizes_in i : 0 <= i < 16 -> exists s, pool_sizes.[i] = Some s.
Proof. intros. apply arr_get_is_Some. simpl. lia. Qed.

(** ** Making and reusing pools *)

Section factory.
Context {F : Type} `{!BlockFactory F} `{!FactoryLaws F}.
Implicit Types (f : F) (m : gmap Z pj_pool_t) (O : list region) (cp : pj_caching_pool F).

(** The settings of a pool that its memory does not depend on. *)
Definition same_memory (p p' : pj_pool_t) : Prop :=
  addr p' = addr p /\ capacity p' = capacity p /\ block_list p' = block_list p.

Lemma pool_ok_settings f p p' A O :
  pool_ok f p A O -> same_memory p p' -> power_of_two (alignment p') ->
  (increment_size p' = 0 \/ SIZEOF_BLOCK <= increment_size p' < 2 ^ 32) -> pool_ok f p' A O.
Proof.
  intros (bs & b0 & [H1 H2 H3 H4 _ _ H7 H8] & [H9 H10 H11] & ? & ?) (Ha & Hc & Hb) Hal Hinc.
  exists bs, b0. rewrite Ha. split_and!; try done.
  - split; try done; congruence.
  - split; try done. by rewrite Hb.
Qed.

Lemma own_first p : (addr p, initial_size p) ∈ owned_of p.
Proof. unfold owned_of, owned. apply elem_of_app. right. by left. Qed.

Lemma initial_size_pos p : wf p -> 0 < initial_size p.
Proof.
  intros [Hb Hf Ha HF _ _ _ _]. rewrite Hb in HF. apply Forall_app in HF as [_ HF].
  rewrite Forall_singleton in HF. destruct HF. unfold initial_size, SIZEOF_BLOCK, SIZEOF_POOL in *. lia.
Qed.

(** A new pool is at an address no pool of the factory has. *)
Lemma new_pool_fresh f f' m O p :
  mem_ok f m O -> pool_ok f' p [] (live f) -> m !! addr p = None.
Proof.
  intros Hm (bs & b0 & Hwf & _ & Hl & Hap). destruct (wf_of _ _ _ Hwf) as [-> ->].
  destruct (m !! addr p) as [q|] eqn:Hq; [exfalso|done].
  destruct (mo_pool _ _ _ Hm _ _ Hq) as [Haq Hwq].
  rewrite Hl in Hap. apply all_apart_app in Hap as (_ & _ & Hap).
  assert (Hin : (addr q, initial_size q) ∈ live f).
  { rewrite (mo_live _ _ _ Hm), (all_owned_delete m _ _ Hq).
    apply elem_of_app. left. apply elem_of_app. left. apply own_first. }
  specialize (Hap (addr p, initial_size p) (addr q, initial_size q) (own_first p) Hin).
  pose proof (initial_size_pos q Hwq). pose proof (initial_size_pos p Hwf).
  destruct Hap as [Hap|Hap]; simpl in Hap; lia.
Qed.

Lemma mem_ok_new f f' m O p :
  mem_ok f m O -> pool_ok f' p [] (live f) -> mem_ok f' (<[addr p := p]> m) O.
Proof.
  intros Hm Hok. pose proof (new_pool_fresh _ _ _ _ _ Hm Hok) as Hn.
  apply (mem_ok_put f f' m O (addr p) p []); try done. rewrite delete_id by done.
  destruct Hok as (bs & b0 & ? & ? & Hl & ?). exists bs, b0. split_and!; try done.
  by rewrite Hl, (mo_live _ _ _ Hm).
Qed.

(** What an application can rely on for a pool it is given. *)
Record handed_out cp cp' (a n inc : Z) : Prop := {
  ho_unused : a ∉ used_list cp;
  ho_used : used_list cp' = used_list cp ++ [a];
  ho_pool : exists p, pools cp' !! a = Some p /\ n <= capacity p /\ increment_size p = inc /\
    pj_pool_get_used_size p = SIZEOF_POOL + SIZEOF_BLOCK;
  ho_others b : b <> a -> pools cp' !! b = pools cp !! b
}.

Lemma used_count_snoc (l : list Z) a :
  u32 (u32 (Z.of_nat (length l)) + 1) = u32 (Z.of_nat (length (l ++ [a]))).
Proof. rewrite length_app. unfold u32, wrap. rewrite Zplus_mod_idemp_l. f_equal. simpl. lia. Qed.

Lemma create_new_ok cp O n n0 inc al p f' :
  cpool_ok cp O -> n0 <= n -> (inc = 0 \/ SIZEOF_BLOCK <= inc < 2 ^ 32) -> 0 <= al < 2 ^ 32 ->
  n < 2 ^ 32 -> nth (size_index n0) pool_sizes n = n ->
  (size_index n0 = 16%nat -> 65536 < n) ->
  pj_pool_create_int (backing cp) n inc al = (Some p, f') ->
  let cp' := mk_cpool f' (<[addr p := set_factory_data p (Z.of_nat (size_index n0))]> (pools cp))
    (cp_capacity cp) (max_capacity cp) (u32 (used_count cp + 1)) (free_list cp)
    (used_list cp ++ [addr p]) in
  cpool_ok cp' O /\ handed_out cp cp' (addr p) n0 inc.
Proof.
  intros Hck Hn Hinc Hal Hn32 Hnth H16 Hc. destruct (size_index_spec n0) as (Hi16 & _ & _).
  pose proof (create_int_spec (backing cp) n inc al (mo_apart _ _ _ (ck_mem _ _ Hck)) Hn32 Hinc Hal) as Hs.
  rewrite Hc in Hs. destruct Hs as (Hok & Hcap & Hip & _ & _ & Hus).
  set (q := set_factory_data p (Z.of_nat (size_index n0))).
  assert (Hokq : pool_ok f' q [] (live (backing cp))).
  { pose proof Hok as (? & ? & Hwf & _). eapply pool_ok_settings; [exact Hok|done|apply Hwf|apply Hwf]. }
  pose proof (new_pool_fresh _ _ _ _ _ (ck_mem _ _ Hck) Hok) as Hfresh.
  assert (Hin : addr p ∉ used_list cp ++ concat (free_list cp))
    by (rewrite (ck_dom _ _ Hck), Hfresh; by intros []).
  assert (Hinit : initial_size q = n).
  { destruct (capacity_exact _ _ _ _ Hokq) as [Hc1 _].
    assert (Hbl : length (block_list p) = 1%nat).
    { revert Hc. unfold pj_pool_create_int. repeat (case_match; try done). by intros [= <- <-]. }
    unfold owned_of, owned, more_blocks in Hc1. simpl in Hc1.
    destruct (block_list p) as [|b [|]]; try done. simpl in Hc1. unfold initial_size. simpl. lia. }
  cbv zeta. destruct Hck as [Hmem Hnd Hdom Hcl Hfr Hlen Hcc Hmx Huc]. split; split; simpl; try done.
  - apply (mem_ok_new (backing cp) f' (pools cp) O q); done.
  - rewrite <-app_assoc. cbn [app]. rewrite <-Permutation_middle. constructor; [done|]. done.
  - intros a. rewrite <-app_assoc. cbn [app]. rewrite <-Permutation_middle. rewrite elem_of_cons, Hdom.
    destruct (decide (a = addr p)) as [->|Hne].
    + rewrite lookup_insert_eq. split; [by eauto|by left].
    + rewrite lookup_insert_ne by done. split; [|by right]. by intros [?|?].
  - intros a r [[<- <-]|[_ Hr]]%lookup_insert_Some; [|by eapply Hcl].
    unfold size_class. rewrite Hinit. simpl. unfold PJ_CACHING_POOL_ARRAY_SIZE.
    split; [lia|]. split; [|intros; apply H16; lia].
    intros s Hs. rewrite arr_get_nat in Hs.
    rewrite (nth_lookup_Some _ _ n _ Hs) in Hnth. done.
  - intros i l a Hl Ha. destruct (Hfr i l a Hl Ha) as (r & Hr & ?). exists r.
    rewrite lookup_insert_ne; [done|]. intros Heq. rewrite <-Heq, Hfresh in Hr. done.
  - by rewrite Huc, (used_count_snoc _ (addr p)).
  - intros Ha. apply Hin, elem_of_app. by left.
  - exists q. rewrite lookup_insert_eq. split_and!; try done. simpl. lia.
  - intros b Hb. by rewrite lookup_insert_ne.
Qed.

(** A pool whose only block is the one it lives in. *)
Lemma single_block_capacity f p A O :
  pool_ok f p A O -> block_list p = [first_block p] -> capacity p = initial_size p.
Proof.
  intros Hok Hb. destruct (capacity_exact _ _ _ _ Hok) as [-> _].
  unfold owned_of, owned, more_blocks. rewrite Hb. simpl. unfold initial_size. lia.
Qed.

(** A pool in a free list: empty and of the size of its class. *)
Lemma free_pool cp O idx l a :
  cpool_ok cp O -> free_list cp !! idx = Some l -> a ∈ l ->
  exists p s, pools cp !! a = Some p /\ factory_data p = Z.of_nat idx /\
    pool_sizes !! idx = Some s /\ capacity p = s /\ block_list p = [first_block p] /\
    pj_pool_get_used_size p = SIZEOF_POOL + SIZEOF_BLOCK.
Proof.
  intros Hck Hl Ha. destruct (ck_free _ _ Hck _ _ _ Hl Ha) as (p & Hp & Hfd & Hb & Hcur).
  apply lookup_lt_Some in Hl. rewrite (ck_length _ _ Hck) in Hl.
  destruct (lookup_lt_is_Some_2 pool_sizes idx) as [s Hs]; [done|].
  exists p, s. split_and!; try done.
  - pose proof (mem_ok_take _ _ _ _ _ (ck_mem _ _ Hck) Hp) as Hok.
    rewrite (single_block_capacity _ _ _ _ Hok Hb).
    destruct (ck_class _ _ Hck _ _ Hp) as (_ & Hcl & _). apply Hcl.
    by rewrite Hfd, arr_get_nat.
  - unfold pj_pool_get_used_size. rewrite Hb. simpl. rewrite Hcur, Z.sub_diag. done.
Qed.

Lemma reuse_ok cp O idx a rest p n0 inc al :
  cpool_ok cp O -> free_list cp !! idx = Some (a :: rest) -> pools cp !! a = Some p ->
  (inc = 0 \/ SIZEOF_BLOCK <= inc < 2 ^ 32) -> (al = 0 \/ power_of_two al) ->
  (forall s, pool_sizes !! idx = Some s -> n0 <= s) ->
  let q := set_factory_data (pj_pool_init_int p inc al) (Z.of_nat idx) in
  let c := if pj_pool_get_capacity p <? cp_capacity cp
           then cp_capacity cp - pj_pool_get_capacity p else 0 in
  let cp' := mk_cpool (backing cp) (<[addr p := q]> (pools cp)) c (max_capacity cp)
    (u32 (used_count cp + 1)) (<[idx := rest]> (free_list cp)) (used_list cp ++ [addr p]) in
  cpool_ok cp' O /\ handed_out cp cp' (addr p) n0 inc.
Proof.
  intros Hck Hl Hp Hinc Hal Hn0.
  destruct (free_pool cp O idx _ a Hck Hl) as (p1 & s & Hp1 & Hfd & Hs & Hcap & Hb & Hus); [by left|].
  rewrite Hp in Hp1. injection Hp1 as <-.
  destruct (mo_pool _ _ _ (ck_mem _ _ Hck) _ _ Hp) as [Had Hwf]. rewrite !Had.
  cbv zeta. set (q := set_factory_data _ _).
  pose proof (mem_ok_take _ _ _ _ _ (ck_mem _ _ Hck) Hp) as Hok.
  assert (Hokq : pool_ok (backing cp) q [] (all_owned (delete a (pools cp)) ++ O)).
  { eapply pool_ok_settings; [exact Hok|done| |done]. simpl.
    destruct (Z.eqb_spec al 0); [by exists 3|]. by destruct Hal. }
  pose proof (concat_insert_perm _ _ _ rest Hl) as HP. cbn [app] in HP.
  rewrite Permutation_middle in HP. apply Permutation_app_inv_l in HP.
  pose proof (cached_insert pool_sizes (free_list cp) idx _ rest s Hl Hs) as Hca.
  rewrite length_cons, Nat2Z.inj_succ in Hca.
  replace (_ * s) with (- s) in Hca by ring.
  pose proof (cached_nonneg pool_sizes (<[idx := rest]> (free_list cp)) ltac:(repeat constructor; lia)).
  destruct (pool_sizes_get (Z.of_nat idx) s) as [_ Hsz]; [by rewrite arr_get_nat|].
  pose proof Hck as [Hmem Hnd Hdom Hcl Hfr Hlen Hcc Hmx Huc].
  rewrite HP, <-Permutation_middle in Hnd. apply NoDup_cons in Hnd as [Hna Hnd].
  setoid_rewrite HP in Hdom. setoid_rewrite <-Permutation_middle in Hdom.
  unfold pj_pool_get_capacity. rewrite Hcap.
  assert (Hc' : (if s <? cp_capacity cp then cp_capacity cp - s else 0) = cp_capacity cp - s)
    by (destruct (Z.ltb_spec s (cp_capacity cp)); lia).
  rewrite Hc'. split; split; cbn; try done; try lia.
  - by apply (mem_ok_put (backing cp) (backing cp) (pools cp) O a q []).
  - rewrite <-app_assoc. cbn [app]. rewrite <-Permutation_middle. by constructor.
  - intros b. rewrite <-app_assoc. cbn [app]. rewrite <-Permutation_middle, Hdom.
    destruct (decide (b = a)) as [->|]; [|by rewrite lookup_insert_ne].
    rewrite lookup_insert_eq, Hp. split; eauto.
  - intros b r [[<- <-]|[_ Hr]]%lookup_insert_Some; [|by eapply Hcl].
    destruct (Hcl a p Hp) as (H1 & H2 & H3). rewrite Hfd in *. by split.
  - intros i l b Hil Hbl.
    assert (b ∈ concat (<[idx := rest]> (free_list cp)))
      by (apply elem_of_concat; eauto).
    assert (Hba : b <> a) by (intros ->; apply Hna, elem_of_app; by right).
    rewrite lookup_insert_ne by done.
    apply list_lookup_insert_Some in Hil as [(<- & <- & _)|[_ Hil]]; [|by eapply Hfr].
    eapply Hfr; [exact Hl|by right].
  - by rewrite length_insert.
  - by rewrite Huc, (used_count_snoc _ a).
  - intros Ha. apply Hna, elem_of_app. by left.
  - exists q. rewrite lookup_insert_eq. split_and!; try done. simpl. rewrite Hcap. by apply Hn0.
  - intros b Hne. by rewrite lookup_insert_ne.
Qed.

(** A pool from the factory is one that no application holds, empty and
    with room for the requested size, whether it is new or comes from the
    cache; the other pools are untouched and the invariant is kept. *)
Theorem cpool_create_sound cp O n inc al :
  cpool_ok cp O -> 0 <= n < 2 ^ 32 -> (inc = 0 \/ SIZEOF_BLOCK <= inc < 2 ^ 32) ->
  (al = 0 \/ power_of_two al) ->
  exists r cp', cpool_create_pool cp n inc al = Some (r, cp') /\ cpool_ok cp' O /\
    match r with
    | Some a => handed_out cp cp' a n inc
    | None => used_list cp' = used_list cp /\ pools cp' = pools cp
    end.
Proof.
  intros Hck Hn Hinc Hal. destruct (size_index_spec n) as (H16 & Hfit & Hmin).
  assert (Hal' : 0 <= al < 2 ^ 32).
  { destruct Hal as [->|(k & Hk & ->)]; [lia|]. pose proof (Z.pow_lt_mono_r 2 k 32).
    pose proof (Z.pow_pos_nonneg 2 k). lia. }
  unfold cpool_create_pool, obtain_pool. rewrite nth_lookup.
  destruct (free_list cp !! size_index n) as [[|a rest]|] eqn:Hl; cbn [default from_option id].
  2: { destruct (ck_free _ _ Hck _ _ a Hl) as (p & Hp & _); [by left|]. rewrite Hp.
       destruct (mo_pool _ _ _ (ck_mem _ _ Hck) _ _ Hp) as [Had _].
       eexists (Some _), _. split; [done|]. by apply (reuse_ok cp O (size_index n) a rest p n inc al). }
  all: set (n' := if (_ <? _)%nat then _ else n).
  all: assert (Hn' : n <= n' < 2 ^ 32 /\ nth (size_index n) pool_sizes n' = n' /\
      (size_index n = 16%nat -> 65536 < n')).
  1,3: unfold n', PJ_CACHING_POOL_ARRAY_SIZE; rewrite nth_lookup;
    destruct (Nat.ltb_spec (size_index n) (Z.to_nat 16)) as [Hlt|Hge];
    [destruct (lookup_lt_is_Some_2 pool_sizes (size_index n)) as [s Hs]; [done|];
     destruct (pool_sizes_get (Z.of_nat (size_index n)) s) as [_ Hb]; [by rewrite arr_get_nat|];
     rewrite !nth_lookup, Hs; cbn; specialize (Hfit s Hs); split_and!; try lia
    |assert (size_index n = 16%nat) as Hi by lia; rewrite Hi; cbn;
     split_and!; try lia; intros _; apply (Hmin 15%nat); [lia|done]].
  all: destruct Hn' as ([Hn1 Hn2] & Hn3 & Hn4).
  all: destruct (pj_pool_create_int (backing cp) n' inc al) as [[p|] f'] eqn:Hc; simpl.
  1,3: eexists (Some _), _; (split; [done|]); by eapply (create_new_ok cp O n' n inc al p f').
  all: eexists None, _; (split; [done|]); (split; [|done]).
  all: pose proof (create_int_spec (backing cp) n' inc al
         (mo_apart _ _ _ (ck_mem _ _ Hck)) Hn2 Hinc Hal') as Hs; rewrite Hc in Hs.
  all: destruct Hck as [[Hm1 Hm2 Hm3] ? ? ? ? ? ? ? ?]; split; try done; split; try done; by rewrite Hs.
Qed.

(** ** Releasing pools *)

Lemma filter_ne_notin (l : list Z) a : a ∉ l -> filter (fun x => x <> a) l = l.
Proof.
  induction l as [|x l IH]; [done|]. rewrite not_elem_of_cons. intros [Hx Hl].
  rewrite filter_cons_True by done. by rewrite IH.
Qed.

Lemma filter_ne_perm (l : list Z) a : NoDup l -> a ∈ l -> l ≡ₚ a :: filter (fun x => x <> a) l.
Proof.
  intros Hn Ha. induction Hn as [|x l Hx Hn IH]; [by apply elem_of_nil in Ha|].
  apply elem_of_cons in Ha as [->|Ha].
  - rewrite filter_cons_False by tauto. by rewrite filter_ne_notin.
  - rewrite filter_cons_True by congruence. rewrite Permutation_swap. by rewrite <-IH.
Qed.

(** [pj_list_erase] of a pool in use. *)
Lemma erase_used cp O a :
  cpool_ok cp O -> a ∈ used_list cp -> exists ul,
    erase_pool cp a = mk_cpool (backing cp) (pools cp) (cp_capacity cp) (max_capacity cp)
      (used_count cp) (free_list cp) ul /\ used_list cp ≡ₚ a :: ul.
Proof.
  intros Hck Ha. pose proof (ck_nodup _ _ Hck) as Hnd. apply NoDup_app in Hnd as (Hu & Hd & _).
  exists (filter (fun x => x <> a) (used_list cp)). split; [|by apply filter_ne_perm].
  unfold erase_pool. f_equal. rewrite <-(map_id (free_list cp)) at 2. apply list_fmap_ext.
  intros i l Hl. apply filter_ne_notin. intros Hal. apply (Hd a Ha), elem_of_concat. eauto.
Qed.

Lemma used_count_pred (l l' : list Z) a :
  l ≡ₚ a :: l' -> u32 (u32 (Z.of_nat (length l)) - 1) = u32 (Z.of_nat (length l')).
Proof.
  intros ->. unfold u32, wrap. rewrite Zminus_mod_idemp_l. f_equal. rewrite length_cons. lia.
Qed.

Lemma release_destroyed cp O a p ul f' :
  cpool_ok cp O -> pools cp !! a = Some p -> used_list cp ≡ₚ a :: ul ->
  live f' ≡ₚ all_owned (delete a (pools cp)) ++ O ->
  cpool_ok (mk_cpool f' (delete a (pools cp)) (cp_capacity cp) (max_capacity cp)
    (u32 (used_count cp - 1)) (free_list cp) ul) O.
Proof.
  intros [Hmem Hnd Hdom Hcl Hfr Hlen Hcc Hmx Huc] Hp HP Hl.
  rewrite HP in Hnd. apply NoDup_cons in Hnd as [Hna Hnd]. setoid_rewrite HP in Hdom.
  split; cbn; try done.
  - by eapply mem_ok_del.
  - intros b. destruct (decide (b = a)) as [->|Hne].
    + rewrite lookup_delete_eq. split; [done|]. by intros [].
    + rewrite lookup_delete_ne, <-Hdom by done. cbn [app]. rewrite elem_of_cons. tauto.
  - intros b q [_ Hq]%lookup_delete_Some. by eapply Hcl.
  - intros i l b Hil Hb. destruct (Hfr i l b Hil Hb) as (q & Hq & ?). exists q.
    rewrite lookup_delete_ne; [done|]. intros ->. apply Hna, elem_of_app. right.
    apply elem_of_concat. eauto.
  - rewrite Huc. by eapply used_count_pred.
Qed.

Lemma release_cached cp O a p q l s ul f' :
  cpool_ok cp O -> pools cp !! a = Some p -> used_list cp ≡ₚ a :: ul ->
  pool_ok f' q [] (all_owned (delete a (pools cp)) ++ O) -> addr q = a ->
  factory_data q = factory_data p -> initial_size q = initial_size p ->
  block_list q = [first_block q] -> cur (first_block q) = buf (first_block q) ->
  free_list cp !! Z.to_nat (factory_data p) = Some l -> pool_sizes.[factory_data p] = Some s ->
  cp_capacity cp + s <= max_capacity cp ->
  cpool_ok (mk_cpool f' (<[a := q]> (pools cp)) (cp_capacity cp + s) (max_capacity cp)
    (u32 (used_count cp - 1)) (<[Z.to_nat (factory_data p) := a :: l]> (free_list cp)) ul) O.
Proof.
  intros [Hmem Hnd Hdom Hcl Hfr Hlen Hcc Hmx Huc] Hp HP Hok Had Hfd Hin Hb Hcur Hl Hs Hle.
  set (i := Z.to_nat (factory_data p)) in *.
  pose proof (concat_insert_perm _ _ _ (a :: l) Hl) as HC. cbn [app] in HC.
  rewrite Permutation_middle in HC. apply Permutation_app_inv_l in HC.
  rewrite HP in Hnd. cbn [app] in Hnd.
  setoid_rewrite HP in Hdom. cbn [app] in Hdom.
  apply arr_get_Some in Hs as [Hs0 Hs].
  split; cbn; try done.
  - by eapply mem_ok_put.
  - rewrite <-HC, <-Permutation_middle. done.
  - intros b. rewrite <-HC, <-Permutation_middle, Hdom.
    destruct (decide (b = a)) as [->|]; [|by rewrite lookup_insert_ne].
    rewrite lookup_insert_eq, Hp. split; eauto.
  - intros b r [[<- <-]|[_ Hr]]%lookup_insert_Some; [|by eapply Hcl].
    unfold size_class. rewrite Hfd, Hin. by apply (Hcl _ _ Hp).
  - intros j k b Hj Hbk. destruct (decide (b = a)) as [->|Hne].
    + exists q. rewrite lookup_insert_eq. split_and!; try done. rewrite Hfd.
      apply list_lookup_insert_Some in Hj as [(<- & _ & _)|[Hij Hj]]; [unfold i; lia|].
      apply NoDup_cons in Hnd as [Hna _]. destruct Hna. apply elem_of_app. right.
      apply elem_of_concat. eauto.
    + rewrite lookup_insert_ne by done.
      apply list_lookup_insert_Some in Hj as [(<- & <- & _)|[Hij Hj]]; [|by eapply Hfr].
      apply elem_of_cons in Hbk as [?|Hbk]; [done|]. by eapply Hfr.
  - by rewrite length_insert.
  - rewrite (cached_insert _ _ _ _ _ _ Hl Hs), length_cons, Nat2Z.inj_succ. lia.
  - destruct (pool_sizes_get (factory_data p) s); [by apply arr_get_Some|]. lia.
  - rewrite Huc. by eapply used_count_pred.
Qed.

(** Releasing a pool that an application holds destroys it or moves it to
    the cache, empty; the cache never holds more than [max_capacity] bytes, and
    the invariant is kept, so no memory is lost or shared. *)
Theorem cpool_release_sound cp O a :
  cpool_ok cp O -> a ∈ used_list cp -> exists cp', cpool_release_pool cp a = Some cp' /\
    cpool_ok cp' O /\ used_list cp ≡ₚ a :: used_list cp' /\
    (pools cp' !! a = None \/ a ∈ concat (free_list cp')) /\
    cached pool_sizes (free_list cp') <= max_capacity cp.
Proof.
  intros Hck Ha. destruct (erase_used _ _ _ Hck Ha) as (ul & He & HP).
  destruct (proj1 (ck_dom _ _ Hck a)) as [p Hp]; [apply elem_of_app; by left|].
  pose proof (mem_ok_take _ _ _ _ _ (ck_mem _ _ Hck) Hp) as Hok.
  destruct (mo_pool _ _ _ (ck_mem _ _ Hck) _ _ Hp) as [Had _].
  destruct (capacity_exact _ _ _ _ Hok) as [_ Hcap].
  destruct (ck_class _ _ Hck _ _ Hp) as (Hc1 & Hc2 & Hc3). pose proof (ck_max _ _ Hck) as Hmx.
  pose proof (ck_capacity _ _ Hck) as Hcc.
  pose proof (cached_nonneg pool_sizes (free_list cp) ltac:(repeat constructor; lia)) as Hnn.
  unfold cpool_release_pool. rewrite Hp, He. cbn [mbind option_bind backing pools cp_capacity
    max_capacity used_count free_list used_list]. unfold pj_pool_get_capacity.
  change (nth 15 pool_sizes 0) with 65536.
  destruct ((65536 <? capacity p) || _) eqn:Ed.
  { unfold destroy_pool. cbn [backing pools]. rewrite Hp. cbn [mbind option_bind].
    destruct (destroy_int_spec _ _ _ _ Hok) as (f' & -> & Hl). cbn.
    eexists. split; [done|]. split; [by eapply release_destroyed|]. cbn.
    split_and!; try done; [|lia]. left. apply lookup_delete_eq. }
  apply orb_false_iff in Ed as [Ed1%Z.ltb_ge Ed2%Z.ltb_ge].
  assert (Hpos : 0 <= initial_size p).
  { destruct (mo_pool _ _ _ (ck_mem _ _ Hck) _ _ Hp) as [_ Hwf]. pose proof (initial_size_pos p Hwf). lia. }
  rewrite u32_small in Ed2 by lia.
  destruct (reset_pool_spec _ _ _ _ Hok) as (b0 & f' & Hr & (b & Hlast & Hb0) & Hib & Hok').
  unfold pj_pool_reset. rewrite Hr. cbn [capacity set_capacity factory_data set_blocks].
  set (q := set_capacity _ _) in *.
  destruct (Z.leb_spec PJ_CACHING_POOL_ARRAY_SIZE (factory_data p)) as [H16|H16].
  { unfold PJ_CACHING_POOL_ARRAY_SIZE in *. assert (65536 < initial_size p) by (apply Hc3; lia). lia. }
  unfold PJ_CACHING_POOL_ARRAY_SIZE in *.
  destruct (pool_sizes_in (factory_data p)) as [s Hs]; [lia|]. specialize (Hc2 s Hs).
  assert (Hfb : first_block p = b) by (unfold first_block; by rewrite Hlast).
  assert (Hend : end_ b0 - addr p = s) by (rewrite <-Hc2; unfold initial_size; rewrite Hfb, Hb0; done).
  destruct (arr_get_is_Some (free_list cp) (factory_data p)) as [l Hl]; [rewrite (ck_length _ _ Hck); lia|].
  rewrite Hl. cbn [mbind option_bind]. rewrite Hend, u32_small by lia.
  apply arr_get_Some in Hl as [_ Hl].
  eexists. split; [done|].
  assert (Hck' := release_cached cp O a p q l s ul f' Hck Hp HP Hok' Had eq_refl).
  split; [apply Hck'; try done; try lia|]; cbn.
  - unfold initial_size. rewrite Hfb. unfold q, first_block. cbn. by rewrite Hb0.
  - unfold q, first_block. cbn. by rewrite Hb0.
  - split_and!; try done.
    + right. apply elem_of_concat. eexists _, _. split; [|by left].
      apply list_lookup_insert_eq. by eapply lookup_lt_Some.
    + rewrite (cached_insert _ _ _ _ _ s Hl), length_cons, Nat2Z.inj_succ; [lia|].
      by apply arr_get_Some in Hs as [_ ?].
Qed.

(** ** The end of the factory *)

Lemma destroy_list_spec l cp O :
  mem_ok (backing cp) (pools cp) O -> NoDup l -> (forall a, a ∈ l -> is_Some (pools cp !! a)) ->
  exists cp', destroy_list cp l = Some cp' /\ mem_ok (backing cp') (pools cp') O /\
    (forall b, pools cp' !! b = if decide (b ∈ l) then None else pools cp !! b) /\
    ((forall a, a ∈ l -> a ∉ used_list cp) -> used_list cp' = used_list cp).
Proof.
  revert cp. induction l as [|a l IH]; intros cp Hm Hnd Hin.
  - exists cp. split_and!; try done. 
  - apply NoDup_cons in Hnd as [Ha Hnd]. destruct (Hin a) as [p Hp]; [by left|].
    pose proof (mem_ok_take _ _ _ _ _ Hm Hp) as Hok.
    destruct (destroy_int_spec _ _ _ _ Hok) as (f' & Hd & Hl).
    cbn [destroy_list]. unfold destroy_pool at 1. cbn [pools backing erase_pool].
    rewrite Hp. cbn [mbind option_bind]. rewrite Hd. cbn [mbind option_bind].
    match goal with |- context [destroy_list ?c l] => destruct (IH c) as (cp' & -> & Hm' & Hpo & Hu) end;
      cbn [backing pools used_list]; [by eapply mem_ok_del|done| |].
    { intros b Hb. rewrite lookup_delete_ne; [apply Hin; by right|]. by intros ->. }
    exists cp'. split_and!; try done.
    + intros b. rewrite Hpo. cbn [pools]. destruct (decide (b = a)) as [->|Hne].
      * rewrite lookup_delete_eq, (decide_True (P := a ∈ a :: l)) by (by left). by case_decide.
      * rewrite lookup_delete_ne by done. destruct (decide (b ∈ l)).
        -- by rewrite decide_True by (by right).
        -- rewrite decide_False; [done|]. by intros [?|?]%elem_of_cons.
    + intros Hd'. cbn [used_list erase_pool] in Hu.
      assert (filter (fun x => x <> a) (used_list cp) = used_list cp) as Hf
        by (apply filter_ne_notin, Hd'; by left).
      rewrite Hf in Hu. apply Hu. intros b Hb. apply Hd'. by right.
Qed.

Lemma destroy_lists_spec ls cp O :
  mem_ok (backing cp) (pools cp) O -> NoDup (concat ls) ->
  (forall a, a ∈ concat ls -> is_Some (pools cp !! a)) ->
  (forall a, a ∈ concat ls -> a ∉ used_list cp) ->
  exists cp', foldl (fun st l => cp ← st; destroy_list cp l) (Some cp) ls = Some cp' /\
    mem_ok (backing cp') (pools cp') O /\ used_list cp' = used_list cp /\
    (forall b, pools cp' !! b = if decide (b ∈ concat ls) then None else pools cp !! b).
Proof.
  revert cp. induction ls as [|l ls IH]; intros cp Hm Hnd Hin Hu; simpl.
  - exists cp. split_and!; try done.
  - simpl in *. apply NoDup_app in Hnd as (Hnl & Hd & Hnd). setoid_rewrite elem_of_app in Hin.
    setoid_rewrite elem_of_app in Hu.
    destruct (destroy_list_spec l cp O Hm Hnl) as (cp1 & -> & Hm1 & Hp1 & Hu1); [eauto|].
    rewrite <-Hu1 by eauto. destruct (IH cp1 Hm1 Hnd) as (cp' & Hf & Hm' & Hu' & Hp').
    + intros a Ha. rewrite Hp1, decide_False; [eauto|]. intros ?. by eapply Hd.
    + rewrite Hu1 by eauto. eauto.
    + exists cp'. split_and!; try done. intros b. rewrite Hp', Hp1.
      destruct (decide (b ∈ l ++ concat ls)) as [[?|?]%elem_of_app|Hn];
        repeat case_decide; try done; rewrite elem_of_app in Hn; tauto.
Qed.

(** Destroying the factory destroys the cached pools and those still in use:
    everything it had from its policy is given back. *)
Theorem cpool_destroy_returns_all cp O :
  cpool_ok cp O -> exists cp', pj_caching_pool_destroy cp = Some cp' /\
    live (backing cp') ≡ₚ O /\ pools cp' = ∅.
Proof.
  intros Hck. pose proof (ck_nodup _ _ Hck) as Hnd. apply NoDup_app in Hnd as (Hu & Hd & Hf).
  pose proof (ck_dom _ _ Hck) as Hdom. setoid_rewrite elem_of_app in Hdom.
  unfold pj_caching_pool_destroy.
  destruct (destroy_lists_spec (free_list cp) cp O (ck_mem _ _ Hck) Hf) as (cp1 & -> & Hm1 & Hu1 & Hp1).
  { intros a Ha. apply Hdom. by right. }
  { intros a Ha Ha'. by eapply Hd. }
  cbn [mbind option_bind]. rewrite Hu1.
  destruct (destroy_list_spec (used_list cp) cp1 O Hm1 Hu) as (cp2 & -> & Hm2 & Hp2 & _).
  { intros a Ha. rewrite Hp1, decide_False by (by apply Hd). apply Hdom. by left. }
  assert (Hempty : pools cp2 = ∅).
  { apply map_empty. intros b. rewrite Hp2, Hp1. repeat case_decide; try done.
    apply eq_None_not_Some. intros ?%Hdom. tauto. }
  exists cp2. split_and!; try done. rewrite (mo_live _ _ _ Hm2), Hempty. done.
Qed.
End factory.

(** ** Pools on a buffer *)

Lemma create_on_buf_spec b size p :
  0 < b -> 0 <= size -> b + size < 2 ^ 32 -> pj_pool_create_on_buf b size = Some p ->
  exists a, b <= a /\ a mod PJ_POOL_ALIGNMENT = 0 /\ a + capacity p = b + size /\
    SIZEOF_POOL + SIZEOF_BLOCK <= capacity p /\
    p = mk_pool a (capacity p) 0
      [mk_block (a + SIZEOF_POOL) (a + SIZEOF_POOL + SIZEOF_BLOCK) (a + SIZEOF_POOL + SIZEOF_BLOCK)
         (b + size)] PJ_POOL_ALIGNMENT 0.
Proof.
  intros Hb Hs Hbs. unfold pj_pool_create_on_buf, PJ_POOL_ALIGNMENT.
  change (Z.land b (8 - 1)) with (Z.land b (2 ^ 3 - 1)). rewrite land_low_bits by lia.
  change (2 ^ 3) with 8. pose proof (Z.mod_pos_bound b 8 ltac:(lia)) as Hm.
  destruct (_ || _); [done|]. set (d := b mod 8) in *.
  destruct (negb (d =? 0) && negb (8 - d <? size)) eqn:Ep; [done|].
  set (bs := if d =? 0 then (b, size) else _).
  assert (exists a n, bs = (a, n) /\ b <= a /\ a mod 8 = 0 /\ a + n = b + size /\ 0 <= n)
    as (a & n & -> & Ha & Ham & Han & Hn).
  { unfold bs. destruct (Z.eqb_spec d 0) as [Hd|Hd]; simpl in Ep.
    - exists b, size. split_and!; done || lia.
    - destruct (Z.ltb_spec (8 - d) size); [|done].
      exists (b + (8 - d)), (size - (8 - d)). rewrite !u32_small by lia.
      split_and!; try done; try lia. unfold d in *. div_lia. }
  unfold pj_pool_create_int. change (negb (8 =? 0) && negb (PJ_IS_POWER_OF_TWO 8)) with false.
  destruct (Z.leb_spec (SIZEOF_POOL + SIZEOF_BLOCK) n) as [Hsz|]; cbn [negb]; [|done].
  cbn [block_alloc stack_based_factory stack_alloc param_size stack_buf].
  destruct (Z.leb_spec n n); [|lia]. cbn [negb fst]. intros [= <-].
  unfold SIZEOF_POOL, SIZEOF_BLOCK in *. exists a. cbn.
  rewrite !(u32_small (a + 84)), (u32_small (a + 84 + 20)), (u32_small (a + n)) by lia.
  rewrite Han. split_and!; done || lia.
Qed.

(** A pool made on a buffer lives inside the buffer, aligned, and everything
    allocated from it is an aligned part of the buffer behind the headers; when
    the buffer is used up the allocation fails and the pool is unchanged. *)
Theorem pool_on_buf_contained b size p n tls :
  0 < b -> 0 <= size -> b + size < 2 ^ 32 -> 0 <= n -> pj_pool_create_on_buf b size = Some p ->
  inside (addr p, capacity p) (b, size) /\ addr p mod PJ_POOL_ALIGNMENT = 0 /\
  let '(r, p', _) := pj_pool_alloc tls p n in
  match r with
  | Some ptr => inside (ptr, n) (b, size) /\ addr p + SIZEOF_POOL + SIZEOF_BLOCK <= ptr /\
      ptr mod PJ_POOL_ALIGNMENT = 0
  | None => p' = p
  end.
Proof.
  intros Hb Hs Hbs Hn Hc.
  destruct (create_on_buf_spec b size p Hb Hs Hbs Hc) as (a & Ha & Ham & Hcap & Hsz & ->).
  set (c := capacity p) in *. unfold inside. cbn [addr capacity fst snd].
  split; [lia|]. split; [done|]. unfold SIZEOF_POOL, SIZEOF_BLOCK in *.
  unfold pj_pool_alloc, pj_pool_aligned_alloc, pj_pool_allocate_find. cbn.
  set (b0 := mk_block _ _ _ _). destruct (pj_pool_alloc_from_block b0 PJ_POOL_ALIGNMENT n) as [[ptr b']|] eqn:E.
  - destruct (alloc_from_block_some b0 PJ_POOL_ALIGNMENT n ptr b') as (-> & Hbw & Hle & Hm);
      [|by exists 3|done|done|].
    + split; unfold SIZEOF_BLOCK; simpl; lia.
    + destruct Hbw as [_ _ Hc' _]. simpl in *. split_and!; try done; lia.
  - done.
Qed.

(** ** The default policy keeps the contract

    With [malloc] and [free] as the C library documents them, an exception that
    leaves the heap alone and no block callbacks, the policy of
    [pool_policy_malloc.c] is a factory in the sense of the pool theorems. *)
Section malloc.
Context {M : Type} (malloc : M -> Z -> option Z * M) (free : M -> Z -> M) (throw : M -> M).
Context (heap_live : M -> list region).
Context (malloc_some : forall m n a m', 0 < n < 2 ^ 32 -> malloc m n = (Some a, m') ->
  0 < a /\ a + n < 2 ^ 32 /\ heap_live m' ≡ₚ (a, n) :: heap_live m /\ Forall (apart (a, n)) (heap_live m)).
Context (malloc_none : forall m n m', malloc m n = (None, m') -> heap_live m' ≡ₚ heap_live m).
Context (free_live : forall m a n rs, heap_live m ≡ₚ (a, n) :: rs -> heap_live (free m a) ≡ₚ rs).
Context (throw_live : forall m, heap_live (throw m) ≡ₚ heap_live m).

Definition default_policy_laws :
  @FactoryLaws M (pj_pool_factory_default_policy malloc free throw None None).
Proof.
  refine {| live := heap_live |}; simpl; unfold default_block_alloc, default_block_free,
    call_on_block_free, default_pool_callback; simpl.
  - intros f n a f' Hn. destruct (malloc f n) as [[a'|] m] eqn:E; [|done].
    intros [= <- <-]. by apply malloc_some.
  - intros f n f'. destruct (malloc f n) as [[a'|] m] eqn:E; [done|].
    intros [= <-]. by eapply malloc_none.
  - intros f a n rs. apply free_live.
  - intros f _. apply throw_live.
Defined.
End malloc.

(** ** The caching pool at concrete inputs *)

Definition ex_cp0 : pj_caching_pool (list region) := pj_caching_pool_init [] 100000.

Lemma ex_cp0_ok : cpool_ok ex_cp0 [].
Proof.
  split; try done.
  - constructor.
  - intros a. split; [|by intros []]. by intros ?%elem_of_nil.
  - intros i l a Hl Ha. apply lookup_replicate in Hl as [-> _]. by apply elem_of_nil in Ha.
Qed.

(** One pool of 1000 bytes in use: its class has 1024 bytes. *)
Definition ex_cp1 : pj_caching_pool (list region) := Eval vm_compute in
  default ex_cp0 (snd <$> cpool_create_pool ex_cp0 1000 256 0).

Lemma ex_cp1_ok : cpool_ok ex_cp1 [] /\ 4096 ∈ used_list ex_cp1.
Proof.
  split; [|by left].
  pose proof (create_new_ok ex_cp0 [] 1024 1000 256 0) as H.
  destruct (pj_pool_create_int (backing ex_cp0) 1024 256 0) as [[p|] f'] eqn:Hp; [|by vm_compute in Hp].
  destruct (H p f' ex_cp0_ok) as [Hok _]; try done; try lia.
  { right. unfold SIZEOF_BLOCK. lia. }
  vm_compute in Hp. injection Hp as <- <-. 
  lazymatch type of Hok with cpool_ok ?c _ => replace ex_cp1 with c by (vm_compute; reflexivity) end.
  exact Hok.
Qed.

Lemma cpool_create_sound_witness : exists r cp',
  cpool_create_pool ex_cp1 500 128 16 = Some (r, cp') /\ cpool_ok cp' [] /\
  match r with
  | Some a => handed_out ex_cp1 cp' a 500 128
  | None => used_list cp' = used_list ex_cp1 /\ pools cp' = pools ex_cp1
  end.
Proof.
  apply (cpool_create_sound ex_cp1 [] 500 128 16 (proj1 ex_cp1_ok)).
  - lia.
  - right. unfold SIZEOF_BLOCK. lia.
  - right. by exists 4.
Defined.

Lemma cpool_release_sound_witness : exists cp', cpool_release_pool ex_cp1 4096 = Some cp' /\
  cpool_ok cp' [] /\ used_list ex_cp1 ≡ₚ 4096 :: used_list cp' /\
  (pools cp' !! 4096 = None \/ 4096 ∈ concat (free_list cp')) /\
  cached pool_sizes (free_list cp') <= max_capacity ex_cp1.
Proof. apply (cpool_release_sound ex_cp1 [] 4096 (proj1 ex_cp1_ok) (proj2 ex_cp1_ok)). Defined.

(** A released pool is handed out again. *)
Example pool_reused :
  match cpool_release_pool ex_cp1 4096 ≫= fun cp => cpool_create_pool cp 600 0 0 with
  | Some (Some a, cp) => a = 4096 /\ cp_capacity cp = 0 /\ used_list cp = [4096]
  | _ => False
  end.
Proof. vm_compute. done. Qed.

Lemma cpool_destroy_returns_all_witness : exists cp', pj_caching_pool_destroy ex_cp1 = Some cp' /\
  live (backing cp') ≡ₚ [] /\ pools cp' = ∅.
Proof. apply (cpool_destroy_returns_all ex_cp1 [] (proj1 ex_cp1_ok)). Defined.

Definition ex_buf_pool : pj_pool_t := Eval vm_compute in
  default (mk_pool 0 0 0 [] 0 0) (pj_pool_create_on_buf 1003 512).

Lemma pool_on_buf_contained_witness :
  inside (addr ex_buf_pool, capacity ex_buf_pool) (1003, 512) /\
  addr ex_buf_pool mod PJ_POOL_ALIGNMENT = 0 /\
  let '(r, p', _) := pj_pool_alloc None ex_buf_pool 64 in
  match r with
  | Some ptr => inside (ptr, 64) (1003, 512) /\ addr ex_buf_pool + SIZEOF_POOL + SIZEOF_BLOCK <= ptr /\
      ptr mod PJ_POOL_ALIGNMENT = 0
  | None => p' = ex_buf_pool
  end.
Proof.
  pose proof (pool_on_buf_contained 1003 512 ex_buf_pool 64 None) as H.
  apply H; [lia|lia|lia|lia|vm_compute; reflexivity].
Defined.
