(* ===== verification/Bytes.v ===== *)
(** * Byte memory

    A store of bytes by address, with the little-endian 32-bit loads and
    stores that [memcpy] of an [unsigned] amounts to on the target. *)
From S2P Require Import Prelude.

Abbreviation memory := (gmap Z Z).

Definition byte_of (v : Z) (i : Z) : Z := Z.land (Z.shiftr v (8 * i)) 255.

Definition store32 (m : memory) (a v : Z) : memory :=
  <[a := byte_of v 0]> (<[a + 1 := byte_of v 1]> (<[a + 2 := byte_of v 2]> (<[a + 3 := byte_of v 3]> m))).

Definition load32 (m : memory) (a : Z) : option Z :=
  b0 ← m !! a; b1 ← m !! (a + 1); b2 ← m !! (a + 2); b3 ← m !! (a + 3);
  Some (b0 + 256 * b1 + 65536 * b2 + 16777216 * b3).

Lemma byte_of_mod v i : 0 <= i -> byte_of v i = (v / 2 ^ (8 * i)) mod 256.
Proof.
  intros. unfold byte_of. rewrite Z.shiftr_div_pow2 by lia.
  change 255 with (Z.ones 8). by rewrite Z.land_ones by lia.
Qed.

Lemma load_store32 m a v : 0 <= v < 2 ^ 32 -> load32 (store32 m a v) a = Some v.
Proof.
  intros Hv. unfold load32, store32.
  rewrite (lookup_insert_ne _ a (a + 1)), (lookup_insert_ne _ a (a + 2)),
    (lookup_insert_ne _ a (a + 3)), (lookup_insert_ne _ (a + 1) (a + 2)),
    (lookup_insert_ne _ (a + 1) (a + 3)), (lookup_insert_ne _ (a + 2) (a + 3)) by lia.
  rewrite !lookup_insert_eq. cbn [mbind option_bind]. rewrite !byte_of_mod by lia.
  f_equal. change (2 ^ (8 * 0)) with 1. change (2 ^ (8 * 1)) with 256.
  change (2 ^ (8 * 2)) with 65536. change (2 ^ (8 * 3)) with 16777216. div_lia.
Qed.

Lemma store32_other m a v b : b < a \/ a + 4 <= b -> store32 m a v !! b = m !! b.
Proof. intros. unfold store32. by rewrite !lookup_insert_ne by lia. Qed.

Lemma load_store32_other m a v b :
  b + 4 <= a \/ a + 4 <= b -> load32 (store32 m a v) b = load32 m b.
Proof. intros. unfold load32. by rewrite !store32_other by lia. Qed.

(** The characters of hexadecimal digits, of [ctype.h]. *)
Definition pj_hex_digits : list Z := [48;49;50;51;52;53;54;55;56;57;97;98;99;100;101;102].
Definition hex_digit (v : Z) : Z := nth (Z.to_nat v) pj_hex_digits 0.

(** ** Buffers

    A buffer is the list of its bytes. *)

(** Writing bytes from an offset on; outside of the buffer is undefined. *)
Definition write_at (buf : list Z) (off : Z) (bs : list Z) : option (list Z) :=
  if (0 <=? off) && (off + Z.of_nat (length bs) <=? Z.of_nat (length buf)) then
    Some (take (Z.to_nat off) buf ++ bs ++ drop (Z.to_nat off + length bs) buf)
  else None.

(** Reading [n] bytes from an offset on. *)
Definition bytes_at (buf : list Z) (off n : Z) : option (list Z) :=
  if (0 <=? off) && (0 <=? n) && (off + n <=? Z.of_nat (length buf)) then
    Some (take (Z.to_nat n) (drop (Z.to_nat off) buf))
  else None.

(** The little-endian value of bytes, and the [n] bytes of a value. *)
Fixpoint of_le (bs : list Z) : Z :=
  match bs with
  | [] => 0
  | b :: bs => b + 256 * of_le bs
  end.

Fixpoint to_le (n : nat) (v : Z) : list Z :=
  match n with
  | O => []
  | S n => v mod 256 :: to_le n (v / 256)
  end.

Definition octets (l : list Z) : Prop := Forall (fun b => 0 <= b < 256) l.

Lemma write_at_length buf off bs buf' : write_at buf off bs = Some buf' -> length buf' = length buf.
Proof.
  unfold write_at. destruct (_ && _) eqn:E; [|done]. apply andb_true_iff in E as [E1%Z.leb_le E2%Z.leb_le].
  intros [= <-]. rewrite !length_app, length_take, length_drop. lia.
Qed.

Lemma write_at_in buf off bs :
  0 <= off -> off + Z.of_nat (length bs) <= Z.of_nat (length buf) ->
  write_at buf off bs = Some (take (Z.to_nat off) buf ++ bs ++ drop (Z.to_nat off + length bs) buf).
Proof. intros H1 H2. unfold write_at. by rewrite (proj2 (Z.leb_le _ _) H1), (proj2 (Z.leb_le _ _) H2). Qed.

Lemma bytes_at_in buf off n :
  0 <= off -> 0 <= n -> off + n <= Z.of_nat (length buf) ->
  bytes_at buf off n = Some (take (Z.to_nat n) (drop (Z.to_nat off) buf)).
Proof.
  intros H1 H2 H3. unfold bytes_at.
  by rewrite (proj2 (Z.leb_le _ _) H1), (proj2 (Z.leb_le _ _) H2), (proj2 (Z.leb_le _ _) H3).
Qed.

Lemma bytes_at_length buf off n bs : bytes_at buf off n = Some bs -> Z.of_nat (length bs) = n.
Proof.
  unfold bytes_at. destruct (_ && _) eqn:E; [|done]. intros [= <-].
  rewrite length_take, length_drop. lia.
Qed.

Lemma bytes_at_octets buf off n bs : octets buf -> bytes_at buf off n = Some bs -> octets bs.
Proof.
  unfold bytes_at. destruct (_ && _); [|done]. intros H [= <-]. by apply Forall_take, Forall_drop.
Qed.

(** What is read back after a write. *)
Lemma read_write_eq buf off bs buf' n :
  write_at buf off bs = Some buf' -> n = Z.of_nat (length bs) -> bytes_at buf' off n = Some bs.
Proof.
  intros E ->. pose proof (write_at_length _ _ _ _ E) as L. unfold write_at in E.
  destruct (_ && _) eqn:C; [|done]. apply andb_true_iff in C as [C1%Z.leb_le C2%Z.leb_le].
  rewrite bytes_at_in by lia. injection E as <-. f_equal.
  rewrite drop_app_length' by (rewrite length_take; lia). by rewrite take_app_length' by lia.
Qed.

Lemma read_write_other buf off bs buf' o n :
  write_at buf off bs = Some buf' -> o + n <= off \/ off + Z.of_nat (length bs) <= o ->
  bytes_at buf' o n = bytes_at buf o n.
Proof.
  intros E H. pose proof (write_at_length _ _ _ _ E) as L. unfold write_at in E.
  destruct (_ && _) eqn:C; [|done]. apply andb_true_iff in C as [C1%Z.leb_le C2%Z.leb_le].
  unfold bytes_at. rewrite L.
  destruct ((0 <=? o) && _ && _) eqn:D; [|done]. injection E as <-. f_equal. apply list_eq. intros i.
  destruct (decide (i < Z.to_nat n)%nat); [|by rewrite !lookup_take_ge by lia].
  rewrite !lookup_take_lt, !lookup_drop by lia. destruct H.
  - rewrite lookup_app_l by (rewrite length_take; lia). by rewrite lookup_take_lt by lia.
  - rewrite lookup_app_r, length_take by (rewrite length_take; lia).
    rewrite lookup_app_r by lia. rewrite lookup_drop. f_equal. lia.
Qed.

(** Writing behind what is written. *)
Lemma write_app (pre tl bs : list Z) p : p = Z.of_nat (length pre) -> (length bs <= length tl)%nat ->
  write_at (pre ++ tl) p bs = Some ((pre ++ bs) ++ drop (length bs) tl).
Proof.
  intros -> H. rewrite write_at_in by (rewrite ?length_app; lia). f_equal. rewrite Nat2Z.id.
  rewrite take_app_length, <- app_assoc. do 2 f_equal. rewrite drop_app_ge by lia. f_equal. lia.
Qed.

Lemma write_at_octets buf off bs buf' : write_at buf off bs = Some buf' -> octets buf -> octets bs -> octets buf'.
Proof.
  unfold write_at. destruct (_ && _); [|done]. intros [= <-] Hb Hs.
  apply Forall_app. split; [by apply Forall_take|]. apply Forall_app. split; [done|by apply Forall_drop].
Qed.

Lemma of_le_bound bs : octets bs -> 0 <= of_le bs < 2 ^ (8 * Z.of_nat (length bs)).
Proof.
  induction 1 as [|b bs Hb _ IH]; [done|]. cbn [of_le length].
  replace (8 * Z.of_nat (S (length bs))) with (8 + 8 * Z.of_nat (length bs)) by lia.
  rewrite Z.pow_add_r by lia. change (2 ^ 8) with 256. lia.
Qed.

Lemma length_to_le n v : length (to_le n v) = n.
Proof. revert v. induction n as [|n IH]; intros v; simpl; [done|]. by rewrite IH. Qed.

Lemma to_le_octets n v : octets (to_le n v).
Proof. revert v. induction n as [|n IH]; intros v; constructor; [div_lia|apply IH]. Qed.

Lemma to_of_le bs : octets bs -> to_le (length bs) (of_le bs) = bs.
Proof.
  induction 1 as [|b bs Hb _ IH]; [done|]. cbn [of_le length to_le]. f_equal.
  - rewrite Z.mul_comm, Z_mod_plus_full. by apply Z.mod_small.
  - etrans; [|exact IH]. f_equal. rewrite Z.mul_comm, Z_div_plus_full by lia. by rewrite Z.div_small.
Qed.

Lemma of_to_le n v : 0 <= v < 2 ^ (8 * Z.of_nat n) -> of_le (to_le n v) = v.
Proof.
  revert v. induction n as [|n IH]; intros v Hv; [simpl in *; lia|]. cbn [of_le to_le].
  replace (8 * Z.of_nat (S n)) with (8 + 8 * Z.of_nat n) in Hv by lia.
  rewrite Z.pow_add_r in Hv by lia. change (2 ^ 8) with 256 in Hv. rewrite IH by div_lia. div_lia.
Qed.

Lemma of_le_inj a b : octets a -> octets b -> length a = length b -> of_le a = of_le b -> a = b.
Proof. intros Ha Hb L E. rewrite <- (to_of_le a), <- (to_of_le b) by done. by rewrite L, E. Qed.

(** A fact about all bytes is checked on each. *)
Lemma all_bytes (P : Z -> bool) : forallb P (seqZ 0 256) = true -> forall b, 0 <= b < 256 -> P b = true.
Proof. intros H b Hb. rewrite forallb_forall in H. apply H, list_elem_of_In, elem_of_seqZ. lia. Qed.
