(* ===== verification/Fifobuf.v ===== *)
(** * FIFO buffers

    [pjlib/src/pj/fifobuf.c]: chunks are allocated from a circular buffer and
    freed in the order of their allocation; the size of a chunk is kept in the
    four bytes before it. *)
From S2P Require Import Prelude Regions Bytes.

Record pj_fifobuf_t := mk_fifobuf {
  first : Z;
  last : Z;
  ubegin : Z;
  uend : Z;
  full : bool
}.

Definition SZ : Z := 4.

Definition put_size (m : memory) (ptr size : Z) : memory := store32 m ptr size.
Definition get_size (m : memory) (ptr : Z) : option Z := load32 m ptr.

Definition pj_fifobuf_init (buffer size : Z) : pj_fifobuf_t :=
  let last := u32 (buffer + size) in
  mk_fifobuf buffer last buffer buffer (last =? buffer).

Definition pj_fifobuf_capacity (fb : pj_fifobuf_t) : Z :=
  let cap := u32 (last fb - first fb) in
  if 0 <? cap then u32 (cap - SZ) else 0.

Definition pj_fifobuf_available_size (fb : pj_fifobuf_t) : Z :=
  if full fb then 0 else
  if ubegin fb <=? uend fb then
    let s1 := u32 (last fb - uend fb) in
    let s2 := u32 (ubegin fb - first fb) in
    let s := if s1 <=? SZ then s2 else if s2 <=? SZ then s1
             else if s1 <? s2 then s2 else s1 in
    if SZ <=? s then s - SZ else 0
  else
    let s := u32 (ubegin fb - uend fb) in
    if SZ <=? s then s - SZ else 0.

(** The second half of [pj_fifobuf_alloc]: between the end of the used part,
    or the start of the buffer, and [ubegin]. *)
Definition alloc_before_ubegin (fb : pj_fifobuf_t) (m : memory) (size : Z)
    : option Z * pj_fifobuf_t * memory :=
  let start := if uend fb <=? ubegin fb then uend fb else first fb in
  let available := u32 (ubegin fb - start) in
  if u32 (size + SZ) <=? available then
    let uend' := u32 (start + u32 (size + SZ)) in
    (Some (start + SZ),
     mk_fifobuf (first fb) (last fb) (ubegin fb) uend'
       (if uend' =? ubegin fb then true else full fb),
     put_size m start (u32 (size + SZ)))
  else (None, fb, m).

Definition pj_fifobuf_alloc (fb : pj_fifobuf_t) (m : memory) (size : Z)
    : option Z * pj_fifobuf_t * memory :=
  if full fb then (None, fb, m) else
  if (ubegin fb <=? uend fb) && (u32 (size + SZ) <=? u32 (last fb - uend fb)) then
    let ptr := uend fb in
    let uend' := u32 (uend fb + u32 (size + SZ)) in
    let uend' := if uend' =? last fb then first fb else uend' in
    (Some (ptr + SZ),
     mk_fifobuf (first fb) (last fb) (ubegin fb) uend'
       (if uend' =? ubegin fb then true else full fb),
     put_size m ptr (u32 (size + SZ)))
  else alloc_before_ubegin fb m size.

(** The status and the buffer after; [None] when the header of the chunk is
    not in memory. *)
Definition pj_fifobuf_free (fb : pj_fifobuf_t) (m : memory) (b : Z) : option (Z * pj_fifobuf_t) :=
  let ptr := b - SZ in
  if (ptr <? first fb) || (last fb <=? ptr) then Some (PJ_EINVAL, fb) else
  if negb (ptr =? ubegin fb) && negb (ptr =? first fb) then Some (PJ_EINVAL, fb) else
  let end_ := if ubegin fb <? uend fb then uend fb else last fb in
  sz ← get_size m ptr;
  if end_ <? u32 (ptr + sz) then Some (PJ_EINVAL, fb) else
  let ubegin' := u32 (ptr + sz) in
  let ubegin' := if ubegin' =? last fb then first fb else ubegin' in
  Some (PJ_SUCCESS,
    if ubegin' =? uend fb then mk_fifobuf (first fb) (last fb) (first fb) (first fb) false
    else mk_fifobuf (first fb) (last fb) ubegin' (uend fb) false).

(** ** The abstract queue

    The chunks in use, oldest first: the address handed out and the size asked
    for.  The chunks of [Q] lie one after the other from [a] to [b]. *)
Fixpoint contig (m : memory) (a : Z) (Q : list region) (b : Z) : Prop :=
  match Q with
  | [] => a = b
  | (p, n) :: Q => p = a + SZ /\ 0 <= n /\ load32 m a = Some (n + SZ) /\ contig m (a + n + SZ) Q b
  end.

(** The used part in one piece, or in two: one from [ubegin] up to [e], and one
    from the start of the buffer to [uend]. *)
Inductive layout (fb : pj_fifobuf_t) (m : memory) : list region -> Prop :=
| linear Q : full fb = false -> ubegin fb <= uend fb < last fb -> contig m (ubegin fb) Q (uend fb) ->
    (Q = [] -> ubegin fb = first fb) -> layout fb m Q
| wrapped Q1 Q2 e : contig m (ubegin fb) Q1 e -> e <= last fb ->
    contig m (first fb) Q2 (uend fb) -> uend fb <= ubegin fb < last fb ->
    full fb = (uend fb =? ubegin fb) -> (Q2 = [] -> e = last fb /\ Q1 <> []) ->
    layout fb m (Q1 ++ Q2).

Record fifo_ok (fb : pj_fifobuf_t) (m : memory) (Q : list region) : Prop := {
  fo_first : 0 < first fb <= ubegin fb;
  fo_uend : first fb <= uend fb;
  fo_last : last fb < 2 ^ 32;
  fo_layout : layout fb m Q
}.

Lemma contig_le m a Q b : contig m a Q b -> a <= b.
Proof.
  revert a. induction Q as [|[p n] Q IH]; intros a; simpl; [lia|].
  intros (_ & ? & _ & H%IH). unfold SZ in *. lia.
Qed.

Lemma contig_snoc m a Q b n :
  contig m a Q b -> 0 <= n -> load32 m b = Some (n + SZ) ->
  contig m a (Q ++ [(b + SZ, n)]) (b + n + SZ).
Proof.
  revert a. induction Q as [|[p k] Q IH]; intros a; simpl.
  - intros -> ? ?. done.
  - intros (-> & ? & ? & Hc) ? ?. split_and!; eauto.
Qed.

Lemma contig_store m a Q b c v :
  contig m a Q b -> b <= c \/ c + 4 <= a -> contig (store32 m c v) a Q b.
Proof.
  revert a. induction Q as [|[p k] Q IH]; intros a; simpl; [done|].
  intros (-> & ? & Hl & Hc) Hd. pose proof (contig_le _ _ _ _ Hc). unfold SZ in *.
  split_and!; try done.
  - rewrite load_store32_other by lia. done.
  - apply IH; [done|lia].
Qed.

Lemma contig_region m a Q b r : contig m a Q b -> r ∈ Q -> a + SZ <= r.1 /\ r.1 + r.2 <= b /\ 0 <= r.2.
Proof.
  revert a. induction Q as [|[p k] Q IH]; intros a; simpl; [by intros _ ?%elem_of_nil|].
  intros (-> & ? & _ & Hc) [->|Hr]%elem_of_cons; simpl.
  - pose proof (contig_le _ _ _ _ Hc). unfold SZ in *. lia.
  - specialize (IH _ Hc Hr). unfold SZ in *. lia.
Qed.
