(* ===== verification/FifobufSpec.v ===== *)
(** * What a FIFO buffer promises

    The buffer refines a queue of chunks: allocation appends a chunk that
    overlaps no other, freeing removes the oldest one. *)
From S2P Require Import Prelude Regions Bytes Fifobuf.

Lemma contig_apart m a Q b : contig m a Q b -> all_apart Q.
Proof.
  revert a. induction Q as [|[p k] Q IH]; intros a; simpl; [done|].
  intros (-> & ? & _ & Hc). split; [|by eapply IH]. rewrite Forall_forall. intros r Hr.
  destruct (contig_region _ _ _ _ _ Hc Hr) as [? _]. left. unfold SZ in *. simpl. lia.
Qed.

(** The chunks in use lie in the buffer and do not overlap. *)
Lemma fifo_apart fb m Q :
  fifo_ok fb m Q -> all_apart Q /\ forall r, r ∈ Q -> inside r (first fb, last fb - first fb).
Proof.
  intros [H1 H2 H3 Hl].
  destruct Hl as [Q _ Hu Hc _|Q1 Q2 e Hc1 He Hc2 Hu _ _].
  - split; [by eapply contig_apart|]. intros r Hr.
    destruct (contig_region _ _ _ _ _ Hc Hr). unfold inside, SZ in *. simpl. lia.
  - split.
    + apply all_apart_app. split_and!; [by eapply contig_apart..|].
      intros r s Hr Hs. destruct (contig_region _ _ _ _ _ Hc1 Hr) as (? & ? & ?).
      destruct (contig_region _ _ _ _ _ Hc2 Hs) as (? & ? & ?). right. unfold SZ in *. lia.
    + intros r [Hr|Hr]%elem_of_app.
      * destruct (contig_region _ _ _ _ _ Hc1 Hr). unfold inside, SZ in *. simpl. lia.
      * destruct (contig_region _ _ _ _ _ Hc2 Hr). unfold inside, SZ in *. simpl. lia.
Qed.

(** The header of a chunk is inside the buffer, too. *)
Lemma chunk_header fb m Q p n :
  fifo_ok fb m Q -> (p, n) ∈ Q -> first fb <= p - SZ /\ 0 <= n.
Proof.
  intros [H1 H2 H3 Hl] Hin.
  destruct Hl as [Q _ Hu Hc _|Q1 Q2 e Hc1 He Hc2 Hu _ _].
  - destruct (contig_region _ _ _ _ _ Hc Hin). simpl in *. lia.
  - apply elem_of_app in Hin as [Hin|Hin].
    + destruct (contig_region _ _ _ _ _ Hc1 Hin). simpl in *. lia.
    + destruct (contig_region _ _ _ _ _ Hc2 Hin). simpl in *. lia.
Qed.

Lemma init_ok b size m :
  0 < b -> 0 < size -> b + size < 2 ^ 32 -> fifo_ok (pj_fifobuf_init b size) m [].
Proof.
  intros. unfold pj_fifobuf_init. rewrite u32_small by lia.
  split; simpl; try lia. apply linear; simpl; done || lia.
Qed.

(** Allocation in the second half. *)
Lemma alloc_before_spec fb m Q size :
  fifo_ok fb m Q -> full fb = false -> 0 <= size -> size + SZ < 2 ^ 32 ->
  let '(r, fb', m') := alloc_before_ubegin fb m size in
  match r with
  | Some ptr => fifo_ok fb' m' (Q ++ [(ptr, size)]) /\ first fb' = first fb /\ last fb' = last fb
  | None => fb' = fb /\ m' = m
  end.
Proof.
  intros [H1 H2 H3 Hl] Hf Hs Hw. unfold alloc_before_ubegin, put_size, SZ in *.
  rewrite (u32_small (size + 4)) by lia.
  destruct Hl as [Q _ Hu Hc He|Q1 Q2 e Hc1 He Hc2 Hu Hfl Hne].
  - destruct (Z.leb_spec (uend fb) (ubegin fb)) as [Hle|Hgt].
    { rewrite (u32_small (ubegin fb - uend fb)) by lia.
      destruct (Z.leb_spec (size + 4) (ubegin fb - uend fb)); [lia|done]. }
    rewrite (u32_small (ubegin fb - first fb)) by lia.
    destruct (Z.leb_spec (size + 4) (ubegin fb - first fb)); [|done].
    rewrite u32_small by lia. split_and!; try done.
    split; simpl; try lia. apply (wrapped _ _ Q [(first fb + 4, size)] (uend fb)); simpl; try done; try lia.
    + apply contig_store; [done|lia].
    + unfold SZ. rewrite load_store32 by lia. split_and!; done || lia.
    + rewrite Hf. by destruct (_ =? _).
  - assert (uend fb < ubegin fb) by (rewrite Hf in Hfl; symmetry in Hfl; apply Z.eqb_neq in Hfl; lia).
    destruct (Z.leb_spec (uend fb) (ubegin fb)); [|lia].
    rewrite (u32_small (ubegin fb - uend fb)) by lia.
    destruct (Z.leb_spec (size + 4) (ubegin fb - uend fb)); [|done].
    rewrite u32_small by lia. split_and!; try done.
    split; simpl; try lia. rewrite <-app_assoc.
    pose proof (contig_le _ _ _ _ Hc2).
    apply (wrapped _ _ Q1 (Q2 ++ [(uend fb + 4, size)]) e); simpl; try done; try lia.
    + apply contig_store; [done|lia].
    + replace (uend fb + (size + 4)) with (uend fb + size + SZ) by (unfold SZ; lia).
      apply contig_snoc; [apply contig_store; [done|lia]|done|].
      rewrite load_store32 by lia. by unfold SZ.
    + rewrite Hf. by destruct (uend fb + (size + 4) =? ubegin fb).
    + by intros [_ ?]%app_nil.
Qed.

Lemma alloc_spec fb m Q size :
  fifo_ok fb m Q -> 0 <= size -> size + SZ < 2 ^ 32 ->
  let '(r, fb', m') := pj_fifobuf_alloc fb m size in
  match r with
  | Some ptr => fifo_ok fb' m' (Q ++ [(ptr, size)]) /\ first fb' = first fb /\ last fb' = last fb
  | None => fb' = fb /\ m' = m
  end.
Proof.
  intros Hok Hs Hw. unfold pj_fifobuf_alloc. destruct (full fb) eqn:Hf; [done|].
  destruct (_ && _) eqn:E; [|by apply (alloc_before_spec fb m Q size)].
  apply andb_true_iff in E as [E1%Z.leb_le E2%Z.leb_le].
  destruct Hok as [H1 H2 H3 Hl]. unfold put_size, SZ in *.
  rewrite (u32_small (size + 4)) in * by lia.
  destruct Hl as [Q _ Hu Hc He|Q1 Q2 e Hc1 He Hc2 Hu Hfl Hne].
  2: { rewrite Hf in Hfl. symmetry in Hfl. apply Z.eqb_neq in Hfl. lia. }
  rewrite (u32_small (last fb - uend fb)) in E2 by lia. rewrite u32_small by lia.
  assert (Hc' : contig (store32 m (uend fb) (size + 4)) (ubegin fb) (Q ++ [(uend fb + 4, size)])
                  (uend fb + (size + 4))).
  { replace (uend fb + (size + 4)) with (uend fb + size + SZ) by (unfold SZ; lia).
    apply contig_snoc; [apply contig_store; [done|lia]|done|].
    rewrite load_store32 by lia. by unfold SZ. }
  split_and!; try done.
  destruct (Z.eqb_spec (uend fb + (size + 4)) (last fb)) as [Hlast|Hlast].
  - split; simpl; try lia. rewrite <-(app_nil_r (Q ++ _)).
    apply (wrapped _ _ _ [] (last fb)); simpl; try done; try lia.
    + by rewrite <-Hlast.
    + by destruct (first fb =? ubegin fb).
    + intros _. split; [done|]. by intros [_ ?]%app_nil.
  - split; simpl; try lia. apply linear; simpl; try done; try lia.
    + destruct (Z.eqb_spec (uend fb + (size + 4)) (ubegin fb)); [lia|done].
    + by intros [_ ?]%app_nil.
Qed.

(** [pj_fifobuf_free] on a chunk at [ubegin] or at the start of the buffer. *)
Lemma free_at fb m a n :
  0 < first fb <= a -> a < last fb < 2 ^ 32 -> (a = ubegin fb \/ a = first fb) ->
  load32 m a = Some (n + SZ) -> 0 <= n ->
  a + n + SZ <= (if ubegin fb <? uend fb then uend fb else last fb) <= last fb ->
  pj_fifobuf_free fb m (a + SZ) = Some (PJ_SUCCESS,
    let u := if a + n + SZ =? last fb then first fb else a + n + SZ in
    if u =? uend fb then mk_fifobuf (first fb) (last fb) (first fb) (first fb) false
    else mk_fifobuf (first fb) (last fb) u (uend fb) false).
Proof.
  intros H1 H2 Ha Hl Hn He. unfold pj_fifobuf_free, get_size, SZ in *.
  replace (a + 4 - 4) with a by lia.
  destruct (Z.ltb_spec a (first fb)); [lia|]. destruct (Z.leb_spec (last fb) a); [lia|]. simpl.
  assert (negb (a =? ubegin fb) && negb (a =? first fb) = false) as ->.
  { destruct Ha as [->| ->]; rewrite Z.eqb_refl; [done|by rewrite andb_false_r]. }
  rewrite Hl. simpl. rewrite u32_small by lia. replace (a + (n + 4)) with (a + n + 4) by lia.
  match goal with |- context [?e <? a + n + 4] => destruct (Z.ltb_spec e (a + n + 4)); [lia|done] end.
Qed.

Lemma contig_empty m a Q : contig m a Q a -> Q = [].
Proof.
  destruct Q as [|[p k] Q]; [done|]. simpl. intros (_ & ? & _ & Hc%contig_le). unfold SZ in *. lia.
Qed.

(** What is left in one piece, or nothing. *)
Lemma linear_ok f l u e m Q :
  0 < f <= u -> u <= e < l -> l < 2 ^ 32 -> contig m u Q e ->
  fifo_ok (if u =? e then mk_fifobuf f l f f false else mk_fifobuf f l u e false) m Q.
Proof.
  intros Hf Hu Hl Hc. destruct (Z.eqb_spec u e) as [->|Hne].
  - apply contig_empty in Hc as ->. split; simpl; try lia. apply linear; simpl; done || lia.
  - split; simpl; try lia. apply linear; simpl; try done. intros ->. simpl in Hc. lia.
Qed.

Lemma free_spec fb m Q ptr n :
  fifo_ok fb m ((ptr, n) :: Q) -> exists fb', pj_fifobuf_free fb m ptr = Some (PJ_SUCCESS, fb') /\
    fifo_ok fb' m Q /\ first fb' = first fb /\ last fb' = last fb.
Proof.
  intros [H1 H2 H3 Hl].
  inversion Hl as [Q' Hf Hu Hc He EQ|Q1 Q2 e Hc1 He Hc2 Hu Hfl Hne EQ]; subst.
  - simpl in Hc. destruct Hc as (-> & Hn & Hsz & Hc). pose proof (contig_le _ _ _ _ Hc).
    unfold SZ in *. rewrite free_at with (n := n); try done; try lia; unfold SZ in *.
    2: by destruct (Z.ltb_spec (ubegin fb) (uend fb)); lia.
    destruct (Z.eqb_spec (ubegin fb + n + 4) (last fb)); [lia|]. cbv zeta.
    eexists. split; [done|]. split; [apply linear_ok; done || lia|by case_match].
  - pose proof (contig_le _ _ _ _ Hc2) as Hle2. destruct Q1 as [|[p k] Q1]; simpl in EQ.
    + destruct Q2 as [|[p k] Q2]; simplify_eq. simpl in Hc1, Hc2. subst e.
      destruct Hc2 as (-> & Hn & Hsz & Hc). pose proof (contig_le _ _ _ _ Hc).
      unfold SZ in *. rewrite free_at with (n := n); try done; try lia; unfold SZ in *.
      2: by destruct (Z.ltb_spec (ubegin fb) (uend fb)); lia.
      destruct (Z.eqb_spec (first fb + n + 4) (last fb)); [lia|]. cbv zeta.
      eexists. split; [done|]. split; [apply linear_ok; done || lia|by case_match].
    + simplify_eq. simpl in Hc1. destruct Hc1 as (-> & Hn & Hsz & Hc).
      pose proof (contig_le _ _ _ _ Hc). unfold SZ in *.
      rewrite free_at with (n := n); try done; try lia; unfold SZ in *.
      2: by destruct (Z.ltb_spec (ubegin fb) (uend fb)); lia.
      cbv zeta. eexists. split; [done|]. split; [|by repeat case_match].
      destruct (Z.eqb_spec (ubegin fb + n + 4) (last fb)) as [Hlast|Hlast].
      * assert (e = last fb) as -> by lia. rewrite <-Hlast in Hc at 1.
        replace (last fb) with (ubegin fb + n + 4) in Hc by lia.
        apply contig_empty in Hc as ->. apply linear_ok; done || lia.
      * destruct (Z.eqb_spec (ubegin fb + n + 4) (uend fb)); [lia|].
        split; simpl; try lia. apply (wrapped _ _ Q1 Q2 e); simpl; try done; try lia.
        intros HQ. destruct (Hne HQ) as [-> _]. split; [done|]. intros ->. simpl in Hc. lia.
Qed.

(** C29 The buffer is a queue of chunks: an allocation returns memory inside the
    buffer that overlaps no chunk in use and appends it to the queue, or fails
    and changes nothing; freeing the oldest chunk always succeeds and removes
    it. *)
Theorem fifobuf_is_queue fb m Q :
  fifo_ok fb m Q ->
  (forall size, 0 <= size -> size + SZ < 2 ^ 32 ->
    let '(r, fb', m') := pj_fifobuf_alloc fb m size in
    match r with
    | Some ptr => fifo_ok fb' m' (Q ++ [(ptr, size)]) /\ Forall (apart (ptr, size)) Q /\
        inside (ptr - SZ, size + SZ) (first fb, last fb - first fb)
    | None => fb' = fb /\ m' = m
    end) /\
  (forall ptr n Q', Q = (ptr, n) :: Q' ->
    exists fb', pj_fifobuf_free fb m ptr = Some (PJ_SUCCESS, fb') /\ fifo_ok fb' m Q').
Proof.
  intros Hok. split.
  - intros size Hs Hw. pose proof (alloc_spec fb m Q size Hok Hs Hw) as Ha.
    destruct (pj_fifobuf_alloc fb m size) as [[[ptr|] fb'] m']; [|done].
    destruct Ha as (Hok' & Hf & Hl). split; [done|].
    destruct (fifo_apart _ _ _ Hok') as [Hap Hin]. rewrite <-Permutation_cons_append in Hap.
    destruct Hap as [Hap _]. split; [done|].
    destruct (chunk_header _ _ _ _ _ Hok' ltac:(apply elem_of_app; right; by left)) as [H1 H2].
    specialize (Hin (ptr, size)). rewrite elem_of_app in Hin.
    unfold inside in *. simpl in *. rewrite Hf, Hl in *. destruct Hin; [right; by left|]. lia.
  - intros ptr n Q' ->. destruct (free_spec fb m Q' ptr n Hok) as (fb' & ? & ? & _). eauto.
Qed.

(** [pj_fifobuf_available_size] is exact: a chunk of [n > 0] bytes can be
    allocated if and only if [n] is not larger. *)
Theorem available_size_exact fb m Q n :
  fifo_ok fb m Q -> 0 < n -> n + SZ < 2 ^ 32 ->
  is_Some (pj_fifobuf_alloc fb m n).1.1 <-> n <= pj_fifobuf_available_size fb.
Proof.
  intros [H1 H2 H3 Hl] Hn Hw. unfold pj_fifobuf_alloc, pj_fifobuf_available_size, alloc_before_ubegin, SZ in *.
  assert (Hu : ubegin fb < last fb /\ uend fb < last fb) by (destruct Hl; lia).
  destruct (full fb) eqn:Hf; simpl.
  { split; [by intros []|lia]. }
  rewrite (u32_small (n + 4)) by lia.
  destruct (Z.leb_spec (ubegin fb) (uend fb)); cbn [andb].
  - rewrite (u32_small (last fb - uend fb)), (u32_small (ubegin fb - first fb)) by lia.
    destruct (Z.leb_spec (n + 4) (last fb - uend fb)); simpl.
    + split; [intros _|by eauto]. repeat zcase; lia.
    + destruct (Z.leb_spec (uend fb) (ubegin fb)).
      * rewrite (u32_small (ubegin fb - uend fb)) by lia.
        destruct (Z.leb_spec (n + 4) (ubegin fb - uend fb)); [lia|]. simpl.
        assert (Hfirst : ubegin fb = first fb).
        { destruct Hl as [Q _ ? Hc HQ|Q1 Q2 e _ _ _ _ Hfl _].
          - apply HQ. replace (uend fb) with (ubegin fb) in Hc by lia. by eapply contig_empty.
          - rewrite Hf in Hfl. symmetry in Hfl. apply Z.eqb_neq in Hfl. lia. }
        split; [by intros []|]. repeat zcase; lia.
      * rewrite (u32_small (ubegin fb - first fb)) by lia.
        destruct (Z.leb_spec (n + 4) (ubegin fb - first fb)); simpl.
        -- split; [intros _|by eauto]. repeat zcase; lia.
        -- split; [by intros []|]. repeat zcase; lia.
  - rewrite (u32_small (ubegin fb - uend fb)) by lia.
    destruct (Z.leb_spec (uend fb) (ubegin fb)); [|lia].
    rewrite (u32_small (ubegin fb - uend fb)) by lia.
    destruct (Z.leb_spec (n + 4) (ubegin fb - uend fb)); simpl.
    + split; [intros _|by eauto]. repeat zcase; lia.
    + split; [by intros []|]. repeat zcase; lia.
Qed.

(** The size of a chunk is computed in 32 bits: a request of [2^32 - 4] bytes
    is taken for an empty chunk and granted, although the memory returned has
    no room for it. *)
Theorem huge_chunk_granted fb m Q :
  fifo_ok fb m Q -> full fb = false -> SZ < first fb ->
  exists ptr, (pj_fifobuf_alloc fb m (2 ^ 32 - SZ)).1.1 = Some ptr /\
    last fb - first fb < 2 ^ 32 - SZ.
Proof.
  intros [H1 H2 H3 Hl] Hf Hsz. unfold pj_fifobuf_alloc, alloc_before_ubegin. rewrite Hf.
  change (u32 (2 ^ 32 - SZ + SZ)) with 0.
  assert (Hlen : last fb - first fb < 2 ^ 32 - SZ) by (unfold SZ in *; lia).
  destruct (_ && _); [by eauto|].
  match goal with |- context [0 <=? u32 ?x] => destruct (Z.leb_spec 0 (u32 x)) as [|Hn] end; [by eauto|].
  pose proof (u32_bound (ubegin fb - (if uend fb <=? ubegin fb then uend fb else first fb))). lia.
Qed.

Lemma contig_head m a Q b p n : contig m a Q b -> (p, n) ∈ Q -> p - SZ = a -> exists Q', Q = (p, n) :: Q'.
Proof.
  destruct Q as [|[q k] Q]; [by intros _ ?%elem_of_nil|]. simpl. intros (-> & ? & _ & Hc) Hin Hp.
  apply elem_of_cons in Hin as [[= -> ->]|Hin]; [by eauto|].
  destruct (contig_region _ _ _ _ _ Hc Hin). unfold SZ in *. simpl in *. lia.
Qed.

(** The check for chunks freed out of order misses one case: a chunk at the
    start of the buffer is freed even when older ones are in use, and the used
    part then begins behind it, so the older chunks are lost. *)
Theorem newer_chunk_freed_first fb m p0 n0 Q p n :
  fifo_ok fb m ((p0, n0) :: Q) -> (p, n) ∈ Q -> p - SZ = first fb ->
  exists fb', pj_fifobuf_free fb m p = Some (PJ_SUCCESS, fb') /\
    (ubegin fb' = p + n \/ ubegin fb' = first fb) /\ p0 <> p.
Proof.
  intros [H1 H2 H3 Hl] Hin Hp.
  inversion Hl as [Q' Hf Hu Hc He EQ|Q1 Q2 e Hc1 He Hc2 Hu Hfl Hne EQ]; subst.
  - simpl in Hc. destruct Hc as (-> & ? & _ & Hc). destruct (contig_region _ _ _ _ _ Hc Hin).
    unfold SZ in *. simpl in *. lia.
  - destruct Q1 as [|[q k] Q1]; simpl in EQ.
    + destruct Q2 as [|[q k] Q2]; simplify_eq. simpl in Hc2. destruct Hc2 as (-> & ? & _ & Hc).
      destruct (contig_region _ _ _ _ _ Hc Hin). unfold SZ in *. simpl in *. lia.
    + simplify_eq. simpl in Hc1. destruct Hc1 as (-> & Hn & Hsz & Hc).
      pose proof (contig_le _ _ _ _ Hc). unfold SZ in *.
      apply elem_of_app in Hin as [Hin|Hin].
      { destruct (contig_region _ _ _ _ _ Hc Hin). unfold SZ in *. simpl in *. lia. }
      destruct (contig_head _ _ _ _ _ _ Hc2 Hin ltac:(unfold SZ; lia)) as [Q' ->].
      simpl in Hc2. destruct Hc2 as (-> & Hn2 & Hsz2 & Hc2). pose proof (contig_le _ _ _ _ Hc2).
      unfold SZ in Hp. replace (first fb + 4) with (first fb + SZ) by (unfold SZ; lia).
      rewrite (free_at fb m (first fb) n); try done; try lia; unfold SZ in *.
      * eexists. split; [done|]. cbv zeta.
        destruct (Z.eqb_spec (first fb + n + 4) (last fb)); [lia|].
        split; [|lia]. destruct (_ =? uend fb); simpl; lia.
      * destruct (Z.ltb_spec (ubegin fb) (uend fb)); lia.
Qed.

(** ** At a concrete input *)

(** A buffer of 100 bytes with a chunk of 60 bytes in it, and the buffer with a
    used part that wraps around. *)
Definition ex_fb0 : pj_fifobuf_t := Eval vm_compute in pj_fifobuf_init 1000 100.
Definition ex_fb1 : option Z * pj_fifobuf_t * memory := Eval vm_compute in pj_fifobuf_alloc ex_fb0 ∅ 60.
Definition ex_fb2 : option Z * pj_fifobuf_t * memory := Eval vm_compute in pj_fifobuf_alloc ex_fb1.1.2 ex_fb1.2 20.
Definition ex_fb3 : pj_fifobuf_t := Eval vm_compute in default ex_fb0 (snd <$> pj_fifobuf_free ex_fb2.1.2 ex_fb2.2 1004).
Definition ex_fb4 : option Z * pj_fifobuf_t * memory := Eval vm_compute in pj_fifobuf_alloc ex_fb3 ex_fb2.2 40.

Lemma ex_fb0_ok : fifo_ok ex_fb0 ∅ [].
Proof. apply (init_ok 1000 100); lia. Qed.

Lemma ex_fb4_ok : fifo_ok ex_fb4.1.2 ex_fb4.2 [(1068, 20); (1004, 40)].
Proof.
  pose proof (alloc_spec ex_fb0 ∅ [] 60 ex_fb0_ok ltac:(lia) ltac:(unfold SZ; lia)) as H1.
  assert (pj_fifobuf_alloc ex_fb0 ∅ 60 = ex_fb1) as E1 by (vm_compute; reflexivity).
  rewrite E1 in H1. cbn iota beta delta [ex_fb1] in H1. destruct H1 as [H1 _].
  pose proof (alloc_spec _ _ _ 20 H1 ltac:(lia) ltac:(unfold SZ; lia)) as H2.
  lazymatch type of H2 with context [pj_fifobuf_alloc ?a ?b ?c] =>
    assert (pj_fifobuf_alloc a b c = ex_fb2) as E2 by (vm_compute; reflexivity); rewrite E2 in H2 end.
  cbn iota beta delta [ex_fb2] in H2. destruct H2 as [H2 _].
  destruct (free_spec _ _ _ _ _ H2) as (fb & Hf & H3 & _).
  assert (fb = ex_fb3) as -> by (vm_compute in Hf; injection Hf as <-; reflexivity).
  pose proof (alloc_spec _ _ _ 40 H3 ltac:(lia) ltac:(unfold SZ; lia)) as H4.
  lazymatch type of H4 with context [pj_fifobuf_alloc ?a ?b ?c] =>
    assert (pj_fifobuf_alloc a b c = ex_fb4) as E4 by (vm_compute; reflexivity); rewrite E4 in H4 end.
  cbn iota beta delta [ex_fb4] in H4. destruct H4 as [H4 _]. exact H4.
Qed.

Lemma fifobuf_is_queue_witness : exists fb',
  pj_fifobuf_free ex_fb4.1.2 ex_fb4.2 1068 = Some (PJ_SUCCESS, fb') /\
  fifo_ok fb' ex_fb4.2 [(1004, 40)].
Proof. exact (proj2 (fifobuf_is_queue _ _ _ ex_fb4_ok) 1068 20 [(1004, 40)] eq_refl). Defined.

Lemma available_size_exact_witness :
  is_Some (pj_fifobuf_alloc ex_fb4.1.2 ex_fb4.2 16).1.1 <-> 16 <= pj_fifobuf_available_size ex_fb4.1.2.
Proof. apply (available_size_exact _ _ _ 16 ex_fb4_ok); unfold SZ; lia. Defined.

Lemma huge_chunk_granted_witness : exists ptr,
  (pj_fifobuf_alloc ex_fb0 ∅ (2 ^ 32 - SZ)).1.1 = Some ptr /\ last ex_fb0 - first ex_fb0 < 2 ^ 32 - SZ.
Proof. apply (huge_chunk_granted _ _ _ ex_fb0_ok); done. Defined.

Lemma newer_chunk_freed_first_witness : exists fb',
  pj_fifobuf_free ex_fb4.1.2 ex_fb4.2 1004 = Some (PJ_SUCCESS, fb') /\
  (ubegin fb' = 1004 + 40 \/ ubegin fb' = first ex_fb4.1.2) /\ 1068 <> 1004.
Proof. apply (newer_chunk_freed_first _ _ _ _ _ 1004 40 ex_fb4_ok); [by left|done]. Defined.
