(* ===== verification/Array.v ===== *)
(** * Arrays of elements

    [pjlib/src/pj/array.c]: insertion, deletion and search in an array of
    [count] elements of [elem_size] bytes each, by moving bytes.  The memory of
    the array is the list of its bytes; [memmove] outside of it is [None]. *)
From S2P Require Import Prelude.

Definition memmove (arr : list Z) (dst src n : Z) : option (list Z) :=
  if (0 <=? dst) && (0 <=? src) && (0 <=? n) &&
     (dst + n <=? Z.of_nat (length arr)) && (src + n <=? Z.of_nat (length arr))
  then Some (take (Z.to_nat dst) arr ++ take (Z.to_nat n) (drop (Z.to_nat src) arr) ++
             drop (Z.to_nat (dst + n)) arr)
  else None.

(** [memmove] of [elem_size] bytes from an object of its own. *)
Definition memcpy_in (arr : list Z) (dst : Z) (value : list Z) : option (list Z) :=
  if (0 <=? dst) && (dst + Z.of_nat (length value) <=? Z.of_nat (length arr))
  then Some (take (Z.to_nat dst) arr ++ value ++ drop (Z.to_nat dst + length value) arr)
  else None.

Definition pj_array_insert (arr : list Z) (elem_size count pos : Z) (value : list Z)
    : option (list Z) :=
  arr ← (if negb (count =? 0) && (pos <? count)
         then memmove arr (u32 (u32 (pos + 1) * elem_size)) (u32 (pos * elem_size))
                (u32 (u32 (count - pos) * elem_size))
         else Some arr);
  memcpy_in arr (u32 (pos * elem_size)) (take (Z.to_nat elem_size) value).

Definition pj_array_erase (arr : list Z) (elem_size count pos : Z) : option (list Z) :=
  if count =? 0 then Some arr else
  if pos <? count - 1
  then memmove arr (u32 (pos * elem_size)) (u32 (u32 (pos + 1) * elem_size))
         (u32 (u32 (u32 (count - pos) - 1) * elem_size))
  else Some arr.

(** The loop of [pj_array_find]: [off] is [char_array - array]. *)
Fixpoint find_loop (matching : list Z -> Z) (arr : list Z) (elem_size : Z) (n : nat) (off : Z)
    : Z * option Z :=
  match n with
  | O => (PJ_ENOTFOUND, None)
  | S n =>
      if matching (drop (Z.to_nat off) arr) =? PJ_SUCCESS then (PJ_SUCCESS, Some off)
      else find_loop matching arr elem_size n (off + elem_size)
  end.

Definition pj_array_find (matching : list Z -> Z) (arr : list Z) (elem_size count : Z)
    : Z * option Z :=
  find_loop matching arr elem_size (Z.to_nat count) 0.

(** ** The array as a list of elements *)

(** [arr] holds [els], each of [es] bytes, and then [rest]. *)
Definition holds (arr : list Z) (es : nat) (els : list (list Z)) (rest : list Z) : Prop :=
  arr = concat els ++ rest /\ Forall (fun e => length e = es) els.

Lemma length_concat_fixed (es : nat) els :
  Forall (fun e : list Z => length e = es) els -> length (concat els) = (length els * es)%nat.
Proof. induction 1 as [|e els He _ IH]; simpl; [done|]. rewrite length_app. lia. Qed.

Lemma concat_take_drop (es : nat) els pos rest :
  Forall (fun e : list Z => length e = es) els -> (pos <= length els)%nat ->
  take (pos * es) (concat els ++ rest) = concat (take pos els) /\
  drop (pos * es) (concat els ++ rest) = concat (drop pos els) ++ rest.
Proof.
  intros HF Hp.
  assert (Hl : length (concat (take pos els)) = (pos * es)%nat).
  { rewrite (length_concat_fixed es) by (by apply Forall_take). rewrite length_take. f_equal. lia. }
  rewrite <-(take_drop pos els) at 1 3. rewrite concat_app, <-app_assoc.
  rewrite <-Hl. by rewrite take_app_length, drop_app_length.
Qed.

Lemma memmove_ok arr dst src n :
  (dst + n <= length arr)%nat -> (src + n <= length arr)%nat ->
  memmove arr (Z.of_nat dst) (Z.of_nat src) (Z.of_nat n) =
    Some (take dst arr ++ take n (drop src arr) ++ drop (dst + n) arr).
Proof.
  intros. unfold memmove. rewrite !(proj2 (Z.leb_le _ _)) by lia. simpl.
  by rewrite !Nat2Z.id, <-Nat2Z.inj_add, Nat2Z.id.
Qed.

Lemma memcpy_in_ok arr dst v :
  (dst + length v <= length arr)%nat ->
  memcpy_in arr (Z.of_nat dst) v = Some (take dst arr ++ v ++ drop (dst + length v) arr).
Proof.
  intros. unfold memcpy_in. rewrite !(proj2 (Z.leb_le _ _)) by lia. simpl. by rewrite Nat2Z.id.
Qed.

(** Byte offsets, as long as the array fits the address space. *)
Lemma u32_mul_nat a b : Z.of_nat (a * b) < 2 ^ 32 -> u32 (Z.of_nat a * Z.of_nat b) = Z.of_nat (a * b).
Proof. intros. rewrite u32_small; lia. Qed.

Lemma u32_nat a : Z.of_nat a < 2 ^ 32 -> u32 (Z.of_nat a) = Z.of_nat a.
Proof. intros. apply u32_small. lia. Qed.

Section elements.
Variables (arr : list Z) (es : nat) (els : list (list Z)) (rest : list Z).
Hypothesis Hes : (0 < es)%nat.
Hypothesis Harr : holds arr es els rest.
Hypothesis H32 : Z.of_nat (length arr) < 2 ^ 32.

Lemma length_holds : length arr = (length els * es + length rest)%nat.
Proof. destruct Harr as [-> HF]. by rewrite length_app, (length_concat_fixed es). Qed.

Lemma scaled_le i j : (i <= j)%nat -> (i * es <= j * es)%nat.
Proof. intros. apply Nat.mul_le_mono_r. lia. Qed.

(** The elements from [pos] on, moved up by one. *)
Lemma move_up pos :
  (pos < length els)%nat -> (es <= length rest)%nat ->
  memmove arr (Z.of_nat (S pos * es)) (Z.of_nat (pos * es)) (Z.of_nat ((length els - pos) * es)) =
    Some (concat (take (S pos) els) ++ concat (drop pos els) ++ drop es rest).
Proof.
  intros Hlt Hr. pose proof length_holds as Hlen. destruct Harr as [Ha HF].
  pose proof (scaled_le (S pos) (length els) ltac:(lia)).
  rewrite memmove_ok by nia. f_equal. rewrite Ha.
  destruct (concat_take_drop es els (S pos) rest HF) as [-> _]; [lia|].
  destruct (concat_take_drop es els pos rest HF) as [_ ->]; [lia|].
  replace (S pos * es + (length els - pos) * es)%nat with (length els * es + es)%nat by nia.
  rewrite <-drop_drop. destruct (concat_take_drop es els (length els) rest HF) as [_ ->]; [lia|].
  rewrite drop_all. simpl. f_equal. rewrite take_app_le, take_ge; [done| |];
    rewrite (length_concat_fixed es), length_drop by (by apply Forall_drop); nia.
Qed.

(** The elements behind [pos], moved down by one. *)
Lemma move_down pos :
  (S pos < length els)%nat ->
  memmove arr (Z.of_nat (pos * es)) (Z.of_nat (S pos * es)) (Z.of_nat ((length els - pos - 1) * es)) =
    Some (concat (take pos els) ++ concat (drop (S pos) els) ++ concat (drop (length els - 1) els) ++ rest).
Proof.
  intros Hlt. pose proof length_holds as Hlen. destruct Harr as [Ha HF].
  pose proof (scaled_le (S pos) (length els) ltac:(lia)).
  rewrite memmove_ok by nia. f_equal. rewrite Ha.
  destruct (concat_take_drop es els pos rest HF) as [-> _]; [lia|].
  destruct (concat_take_drop es els (S pos) rest HF) as [_ ->]; [lia|].
  replace (pos * es + (length els - pos - 1) * es)%nat with ((length els - 1) * es)%nat by nia.
  destruct (concat_take_drop es els (length els - 1) rest HF) as [_ ->]; [lia|].
  f_equal. rewrite take_app_le, take_ge; [done| |];
    rewrite (length_concat_fixed es), length_drop by (by apply Forall_drop); nia.
Qed.

(** The value put into its place in [a]. *)
Lemma put_value a pos v :
  (pos <= length els)%nat -> length v = es -> (es <= length rest)%nat -> length a = length arr ->
  take (pos * es) a = concat (take pos els) ->
  drop (pos * es + es) a = concat (drop pos els) ++ drop es rest ->
  exists arr', memcpy_in a (Z.of_nat (pos * es)) v = Some arr' /\
    holds arr' es (take pos els ++ v :: drop pos els) (drop es rest) /\ length arr' = length arr.
Proof.
  intros Hp Hv Hr Ha Ht Hd. pose proof length_holds. pose proof (scaled_le pos (length els) Hp).
  destruct Harr as [_ HF].
  rewrite memcpy_in_ok by lia. eexists. split; [done|]. rewrite Hv, Ht, Hd. split; [split|].
  - rewrite concat_app. simpl. by rewrite <-!app_assoc.
  - apply Forall_app. split; [by apply Forall_take|]. constructor; [done|by apply Forall_drop].
  - rewrite !length_app, !length_drop, !(length_concat_fixed es), length_take, length_drop
      by (by apply Forall_take || by apply Forall_drop). nia.
Qed.

(** [pj_array_insert] makes room at [pos] and puts the value there: the
    elements before [pos] stay, those from [pos] on move up by one, and the
    array takes [elem_size] bytes of the memory behind it. *)
Theorem array_insert_spec pos v :
  (pos <= length els)%nat -> length v = es -> (es <= length rest)%nat ->
  exists arr', pj_array_insert arr (Z.of_nat es) (Z.of_nat (length els)) (Z.of_nat pos) v = Some arr' /\
    holds arr' es (take pos els ++ v :: drop pos els) (drop es rest) /\ length arr' = length arr.
Proof.
  intros Hp Hv Hr. pose proof length_holds as Hlen. pose proof (scaled_le pos (length els) Hp).
  pose proof Harr as [Ha HF]. assert (Z.of_nat (length els) < 2 ^ 32) by nia.
  unfold pj_array_insert. rewrite (take_ge v) by lia. rewrite (u32_mul_nat pos es) by lia.
  destruct (Z.ltb_spec (Z.of_nat pos) (Z.of_nat (length els))) as [Hlt|Hge].
  - destruct (Z.eqb_spec (Z.of_nat (length els)) 0); [lia|]. simpl.
    pose proof (scaled_le (S pos) (length els) ltac:(lia)).
    replace (Z.of_nat pos + 1) with (Z.of_nat (S pos)) by lia.
    rewrite <-Nat2Z.inj_sub, !u32_nat, !u32_mul_nat, move_up by nia. simpl.
    set (tl := concat (drop pos els) ++ drop es rest).
    destruct (concat_take_drop es (take (S pos) els) pos tl) as [Ht _];
      [by apply Forall_take|rewrite length_take; lia|].
    destruct (concat_take_drop es (take (S pos) els) (S pos) tl) as [_ Hd];
      [by apply Forall_take|rewrite length_take; lia|].
    apply put_value; try done.
    + unfold tl. rewrite !length_app, !length_drop, !(length_concat_fixed es), length_take, length_drop
        by (by apply Forall_take || by apply Forall_drop). nia.
    + rewrite Ht, take_take. do 2 f_equal. lia.
    + replace (pos * es + es)%nat with (S pos * es)%nat by lia.
      by rewrite Hd, drop_ge by (rewrite length_take; lia).
  - assert (pos = length els) as -> by lia. rewrite andb_false_r. simpl.
    destruct (concat_take_drop es els (length els) rest HF) as [Ht Hd]; [lia|].
    apply put_value; try done; rewrite Ha; [done|].
    by rewrite <-drop_drop, Hd, drop_all.
Qed.

(** [pj_array_erase] removes the element at [pos] and moves those behind it
    down by one; for an empty array it does nothing. *)
Theorem array_erase_spec pos :
  pj_array_erase arr (Z.of_nat es) 0 (Z.of_nat pos) = Some arr /\
  ((pos < length els)%nat -> exists arr' last,
    pj_array_erase arr (Z.of_nat es) (Z.of_nat (length els)) (Z.of_nat pos) = Some arr' /\
    holds arr' es (take pos els ++ drop (S pos) els) (last ++ rest) /\ length last = es).
Proof.
  split; [done|]. intros Hp. pose proof length_holds as Hlen.
  pose proof (scaled_le (S pos) (length els) ltac:(lia)). pose proof Harr as [Ha HF].
  assert (Z.of_nat (length els) < 2 ^ 32) by nia.
  assert (HF' : Forall (fun e => length e = es) (take pos els ++ drop (S pos) els))
    by (apply Forall_app; split; [by apply Forall_take|by apply Forall_drop]).
  assert (Hlast : length (concat (drop (length els - 1) els)) = es).
  { rewrite (length_concat_fixed es), length_drop by (by apply Forall_drop). nia. }
  unfold pj_array_erase. destruct (Z.eqb_spec (Z.of_nat (length els)) 0); [lia|].
  exists (concat (take pos els ++ drop (S pos) els) ++ concat (drop (length els - 1) els) ++ rest),
    (concat (drop (length els - 1) els)).
  split; [|done]. rewrite concat_app, <-app_assoc.
  destruct (Z.ltb_spec (Z.of_nat pos) (Z.of_nat (length els) - 1)) as [Hlt|Hge].
  - rewrite (u32_mul_nat pos es) by lia.
    replace (Z.of_nat pos + 1) with (Z.of_nat (S pos)) by lia.
    rewrite <-Nat2Z.inj_sub by lia. rewrite (u32_nat (length els - pos)) by lia.
    replace (Z.of_nat (length els - pos) - 1) with (Z.of_nat (length els - pos - 1)) by lia.
    rewrite !u32_nat, !u32_mul_nat by nia. apply move_down. lia.
  - assert (pos = length els - 1)%nat as -> by lia. f_equal.
    rewrite (drop_ge els (S (length els - 1))) by lia. cbn [concat app].
    by rewrite app_assoc, <-concat_app, take_drop.
Qed.

(** [pj_array_find] returns the offset of the first element that matches, or
    PJ_ENOTFOUND when there is none. *)
Theorem array_find_first matching :
  match pj_array_find matching arr (Z.of_nat es) (Z.of_nat (length els)) with
  | (st, Some off) => st = PJ_SUCCESS /\ exists i, off = Z.of_nat (i * es) /\ (i < length els)%nat /\
      matching (concat (drop i els) ++ rest) = PJ_SUCCESS /\
      forall j, (j < i)%nat -> matching (concat (drop j els) ++ rest) <> PJ_SUCCESS
  | (st, None) => st = PJ_ENOTFOUND /\
      forall j, (j < length els)%nat -> matching (concat (drop j els) ++ rest) <> PJ_SUCCESS
  end.
Proof.
  destruct Harr as [Ha HF]. unfold pj_array_find. rewrite Nat2Z.id.
  assert (Hdrop : forall i, (i <= length els)%nat -> drop (Z.to_nat (Z.of_nat (i * es))) arr = concat (drop i els) ++ rest).
  { intros i Hi. rewrite Nat2Z.id, Ha. by apply concat_take_drop. }
  assert (Hgo : forall n i, (i + n = length els)%nat ->
    (forall j, (j < i)%nat -> matching (concat (drop j els) ++ rest) <> PJ_SUCCESS) ->
    match find_loop matching arr (Z.of_nat es) n (Z.of_nat (i * es)) with
    | (st, Some off) => st = PJ_SUCCESS /\ exists i, off = Z.of_nat (i * es) /\ (i < length els)%nat /\
        matching (concat (drop i els) ++ rest) = PJ_SUCCESS /\
        forall j, (j < i)%nat -> matching (concat (drop j els) ++ rest) <> PJ_SUCCESS
    | (st, None) => st = PJ_ENOTFOUND /\
        forall j, (j < length els)%nat -> matching (concat (drop j els) ++ rest) <> PJ_SUCCESS
    end).
  { induction n as [|n IH]; intros i Hi Hno; cbn [find_loop].
    - split; [done|]. intros j Hj. apply Hno. lia.
    - rewrite Hdrop by lia. destruct (Z.eqb_spec (matching (concat (drop i els) ++ rest)) PJ_SUCCESS).
      + split; [done|]. exists i. split_and!; try done. lia.
      + replace (Z.of_nat (i * es) + Z.of_nat es) with (Z.of_nat (S i * es)) by lia.
        apply IH; [lia|]. intros j Hj. destruct (decide (j = i)) as [->|]; [done|]. apply Hno. lia. }
  apply (Hgo (length els) 0%nat); [lia|]. lia.
Qed.

End elements.

(** ** At a concrete input *)

Lemma array_insert_spec_witness : exists arr',
  pj_array_insert [1; 2; 3; 4; 9; 9] 2 2 1 [7; 8] = Some arr' /\
  holds arr' 2 [[1; 2]; [7; 8]; [3; 4]] [] /\ length arr' = 6%nat.
Proof.
  assert (Hh : holds [1; 2; 3; 4; 9; 9] 2 [[1; 2]; [3; 4]] [9; 9])
    by (split; [done|repeat constructor]).
  apply (array_insert_spec [1; 2; 3; 4; 9; 9] 2 [[1; 2]; [3; 4]] [9; 9] ltac:(lia) Hh ltac:(done) 1 [7; 8]); simpl; lia.
Defined.

Lemma array_erase_spec_witness :
  pj_array_erase [1; 2; 3; 4; 5; 6] 2 0 0 = Some [1; 2; 3; 4; 5; 6] /\
  ((0 < 3)%nat -> exists arr' last, pj_array_erase [1; 2; 3; 4; 5; 6] 2 3 0 = Some arr' /\
    holds arr' 2 [[3; 4]; [5; 6]] (last ++ []) /\ length last = 2%nat).
Proof.
  assert (Hh : holds [1; 2; 3; 4; 5; 6] 2 [[1; 2]; [3; 4]; [5; 6]] [])
    by (split; [done|repeat constructor]).
  apply (array_erase_spec [1; 2; 3; 4; 5; 6] 2 [[1; 2]; [3; 4]; [5; 6]] [] ltac:(lia) Hh ltac:(done) 0).
Defined.

Lemma array_find_first_witness :
  match pj_array_find (fun b => nth 0 b 0 - 3) [1; 2; 3; 4] 2 2 with
  | (st, Some off) => st = PJ_SUCCESS /\ exists i, off = Z.of_nat (i * 2) /\ (i < 2)%nat /\
      nth 0 (concat (drop i [[1; 2]; [3; 4]]) ++ []) 0 - 3 = PJ_SUCCESS /\
      forall j, (j < i)%nat -> nth 0 (concat (drop j [[1; 2]; [3; 4]]) ++ []) 0 - 3 <> PJ_SUCCESS
  | (st, None) => st = PJ_ENOTFOUND /\
      forall j, (j < 2)%nat -> nth 0 (concat (drop j [[1; 2]; [3; 4]]) ++ []) 0 - 3 <> PJ_SUCCESS
  end.
Proof.
  assert (Hh : holds [1; 2; 3; 4] 2 [[1; 2]; [3; 4]] []) by (split; [done|repeat constructor]).
  exact (array_find_first [1; 2; 3; 4] 2 [[1; 2]; [3; 4]] [] ltac:(lia) Hh (fun b => nth 0 b 0 - 3)).
Defined.
