(* ===== verification/Hash.v ===== *)
(** * Hash tables

    [pjlib/src/pj/hash.c], with the keyed table hash (SipHash-2-4) that the
    default configuration selects.  Keys are byte strings; [lower] selects the
    case-insensitive variants.  A table is the list of its chains; values are
    pointers, NULL being 0.  Following a NULL pointer, or a key without the
    terminator it should have, is [None]. *)
From S2P Require Import Prelude Interfaces.

(** ** The hash functions *)

Definition SIP_U64 (hi lo : Z) : Z := Z.lor (Z.shiftl hi 32) lo.
Definition SIP_ROTL (x b : Z) : Z := u64 (Z.lor (Z.shiftl x b) (Z.shiftr x (64 - b))).

Record sip_state := mk_sip { v0 : Z; v1 : Z; v2 : Z; v3 : Z }.

Definition SIP_ROUND (s : sip_state) : sip_state :=
  let '(mk_sip v0 v1 v2 v3) := s in
  let v0 := u64 (v0 + v1) in let v1 := SIP_ROTL v1 13 in let v1 := Z.lxor v1 v0 in
  let v0 := SIP_ROTL v0 32 in
  let v2 := u64 (v2 + v3) in let v3 := SIP_ROTL v3 16 in let v3 := Z.lxor v3 v2 in
  let v0 := u64 (v0 + v3) in let v3 := SIP_ROTL v3 21 in let v3 := Z.lxor v3 v0 in
  let v2 := u64 (v2 + v1) in let v1 := SIP_ROTL v1 17 in let v1 := Z.lxor v1 v2 in
  let v2 := SIP_ROTL v2 32 in
  mk_sip v0 v1 v2 v3.

(** [pj_tolower] in the C locale. *)
Definition pj_tolower (c : Z) : Z := if (65 <=? c) && (c <=? 90) then c + 32 else c.

Definition key_byte (lower : bool) (c : Z) : Z := if lower then u8 (pj_tolower c) else c.

(** [m |= (pj_uint64_t)c << (8*i)] over the bytes of one word. *)
Fixpoint word_of (lower : bool) (bs : list Z) (i : Z) (m : Z) : Z :=
  match bs with
  | [] => m
  | c :: bs => word_of lower bs (i + 1) (Z.lor m (Z.shiftl (key_byte lower c) (8 * i)))
  end.

Definition sip_block (s : sip_state) (m : Z) : sip_state :=
  let s := mk_sip (v0 s) (v1 s) (v2 s) (Z.lxor (v3 s) m) in
  let s := SIP_ROUND (SIP_ROUND s) in
  mk_sip (Z.lxor (v0 s) m) (v1 s) (v2 s) (v3 s).

(** The loop over the whole words; [n] is their number. *)
Fixpoint sip_words (lower : bool) (n : nat) (data : list Z) (s : sip_state) : sip_state :=
  match n with
  | O => s
  | S n => sip_words lower n (drop 8 data) (sip_block s (word_of lower (take 8 data) 0 0))
  end.

Definition siphash24 (k0 k1 : Z) (data : list Z) (lower : bool) : Z :=
  let len := Z.of_nat (length data) in
  let left := Z.land len 7 in
  let n := Z.to_nat ((len - left) / 8) in
  let s := mk_sip (Z.lxor (SIP_U64 0x736f6d65 0x70736575) k0)
             (Z.lxor (SIP_U64 0x646f7261 0x6e646f6d) k1)
             (Z.lxor (SIP_U64 0x6c796765 0x6e657261) k0)
             (Z.lxor (SIP_U64 0x74656462 0x79746573) k1) in
  let s := sip_words lower n data s in
  let b := word_of lower (drop (8 * n) data) 0 (u64 (Z.shiftl len 56)) in
  let s := sip_block s b in
  let s := mk_sip (v0 s) (v1 s) (Z.lxor (v2 s) 0xff) (v3 s) in
  let s := SIP_ROUND (SIP_ROUND (SIP_ROUND (SIP_ROUND s))) in
  Z.lxor (Z.lxor (Z.lxor (v0 s) (v1 s)) (v2 s)) (v3 s).

Definition pj_hash_test_siphash24 (k0 k1 : Z) (data : list Z) : Z := siphash24 k0 k1 data false.

(** The key material and the running index after folding in [data]. *)
Definition mix_entropy (k : list Z) (idx : Z) (data : list Z) : list Z * Z :=
  foldl (fun '(k, idx) b =>
           let j := Z.to_nat (Z.land idx 15) in
           (<[j := u8 (nth j k 0 * 33 + b)]> k, u32 (idx + 1))) (k, idx) data.

Definition PJ_HASH_MULTIPLIER : Z := 33.
Definition PJ_HASH_KEY_STRING : Z := UINT_MAX.

Definition pj_hash_calc (hash : Z) (key : list Z) : Z :=
  foldl (fun h p => u32 (h * PJ_HASH_MULTIPLIER + p)) hash key.

(** The hash and the bytes stored to [result]. *)
Definition pj_hash_calc_tolower (hval : Z) (key : list Z) : Z * list Z :=
  foldl (fun '(h, r) c => let lower := pj_tolower c in
           (u32 (h * PJ_HASH_MULTIPLIER + lower), r ++ [lower])) (hval, []) key.

(** ** Tables *)

Record pj_hash_entry := mk_hentry { key : list Z; hash : Z; keylen : Z; value : Z }.

Record pj_hash_table_t := mk_table { table : list (list pj_hash_entry); count : Z; rows : Z }.

Definition SIZEOF_HASH_ENTRY : Z := 20.
Definition SIZEOF_HASH_TABLE : Z := 20.
Definition PJ_HASH_ENTRY_BUF_SIZE : Z := 20.

(** The bytes of a key given as a pointer and a length. *)
Fixpoint strlen (s : list Z) : option nat :=
  match s with
  | [] => None
  | c :: s => if c =? 0 then Some O else S <$> strlen s
  end.

Definition key_bytes (mem : list Z) (len : Z) : option (list Z) :=
  if len =? PJ_HASH_KEY_STRING then n ← strlen mem; Some (take n mem)
  else if len <=? Z.of_nat (length mem) then Some (take (Z.to_nat len) mem) else None.

(** [pj_ansi_strnicmp(a, b, n) == 0] and [pj_memcmp(a, b, n) == 0]. *)
Fixpoint strnicmp_eq (a b : list Z) (n : nat) : bool :=
  match n, a, b with
  | O, _, _ => true
  | S n, x :: a, y :: b =>
      (pj_tolower x =? pj_tolower y) && ((pj_tolower x =? 0) || strnicmp_eq a b n)
  | S _, _, _ => false
  end.

Fixpoint memcmp_eq (a b : list Z) (n : nat) : bool :=
  match n, a, b with
  | O, _, _ => true
  | S n, x :: a, y :: b => (x =? y) && memcmp_eq a b n
  | S _, _, _ => false
  end.

Section tables.
(** The process key, and the pool new entries come from. *)
Variables sip_k0 sip_k1 : Z.
Context {P : Type} `{!PoolAllocator P}.

Definition calc_table_hash (k : list Z) (lower : bool) : Z :=
  let b := siphash24 sip_k0 sip_k1 k lower in
  Z.lxor (u32 b) (u32 (Z.shiftr b 32)).

(** The [do .. while] of [pj_hash_create]; 32 iterations are more than enough
    for an [unsigned]. *)
Fixpoint grow_table_size (fuel : nat) (table_size size : Z) : option Z :=
  match fuel with
  | O => None
  | S fuel =>
      let table_size := u32 (Z.shiftl table_size 1) in
      if (table_size <? size) && (table_size <=? Z.shiftr UINT_MAX 1)
      then grow_table_size fuel table_size size else Some table_size
  end.

Definition pj_hash_create (pool : P) (size : Z) : option (option pj_hash_table_t * P) :=
  let '(h, pool) := pool_alloc pool SIZEOF_HASH_TABLE in
  match h with
  | None => None
  | Some _ =>
      table_size ← grow_table_size 32 8 size;
      let table_size := table_size - 1 in
      let '(t, pool) := pool_calloc pool (table_size + 1) 4 in
      match t with
      | None => Some (Some (mk_table [] 0 table_size), pool)
      | Some _ => Some (Some (mk_table (replicate (Z.to_nat (table_size + 1)) []) 0 table_size), pool)
      end
  end.

Definition entry_matches (e : pj_hash_entry) (h : Z) (k : list Z) (lower : bool) : bool :=
  (hash e =? h) && (keylen e =? Z.of_nat (length k)) &&
  ((lower && strnicmp_eq (key e) k (length k)) || (negb lower && memcmp_eq (key e) k (length k))).

(** Where the scan of a chain stops: at the entry that matches, or at its end. *)
Fixpoint scan (chain : list pj_hash_entry) (h : Z) (k : list Z) (lower : bool) : nat :=
  match chain with
  | [] => O
  | e :: chain => if entry_matches e h k lower then O else S (scan chain h k lower)
  end.

(** The djb2 value reported through a non-NULL [hval]. *)
Definition report_hval (hval : option Z) (k : list Z) (lower : bool) : option Z :=
  match hval with
  | Some h => Some (if h =? 0 then
                      (if lower then (pj_hash_calc_tolower 0 k).1 else pj_hash_calc 0 k)
                    else h)
  | None => None
  end.

(** [find_entry]: the chain and the position in it that the returned pointer
    stands for, [hval], the table and the pool; [buf] says whether an
    [entry_buf] is given. *)
Definition find_entry (pool : option P) (ht : pj_hash_table_t) (mem : list Z) (len : Z)
    (val : Z) (hval : option Z) (buf : bool) (lower : bool)
    : option (Z * nat * option Z * pj_hash_table_t * option P) :=
  k ← key_bytes mem len;
  let h := calc_table_hash k lower in
  let hval := report_hval hval k lower in
  let i := Z.land h (rows ht) in
  chain ← (table ht).[i];
  let pos := scan chain h k lower in
  if (pos <? length chain)%nat || (val =? 0) then Some (i, pos, hval, ht, pool) else
  pool ← (if buf then Some pool else
            p ← pool;
            let '(a, p) := pool_alloc p SIZEOF_HASH_ENTRY in
            _ ← a; Some (Some p));
  pool ← match pool with
         | None => Some None
         | Some p => let '(a, p) := pool_alloc p (Z.of_nat (length k)) in
                     _ ← a; Some (Some p)
         end;
  let e := mk_hentry k h (Z.of_nat (length k)) val in
  t ← (table ht).[i <- chain ++ [e]];
  Some (i, pos, hval, mk_table t (u32 (count ht + 1)) (rows ht), pool).

Definition pj_hash_get (ht : pj_hash_table_t) (mem : list Z) (len : Z) (hval : option Z)
    : option (Z * option Z) :=
  '(i, pos, hval, _, _) ← find_entry None ht mem len 0 hval false false;
  chain ← (table ht).[i];
  Some (match chain !! pos with Some e => value e | None => 0 end, hval).

Definition pj_hash_get_lower (ht : pj_hash_table_t) (mem : list Z) (len : Z) (hval : option Z)
    : option (Z * option Z) :=
  '(i, pos, hval, _, _) ← find_entry None ht mem len 0 hval false true;
  chain ← (table ht).[i];
  Some (match chain !! pos with Some e => value e | None => 0 end, hval).

Definition hash_set (pool : option P) (ht : pj_hash_table_t) (mem : list Z) (len hval val : Z)
    (buf lower : bool) : option (pj_hash_table_t * option P) :=
  '(i, pos, _, ht, pool) ← find_entry pool ht mem len val (Some hval) buf lower;
  chain ← (table ht).[i];
  match chain !! pos with
  | None => Some (ht, pool)
  | Some e =>
      if val =? 0 then
        t ← (table ht).[i <- take pos chain ++ drop (S pos) chain];
        Some (mk_table t (u32 (count ht - 1)) (rows ht), pool)
      else
        t ← (table ht).[i <- <[pos := mk_hentry (key e) (hash e) (keylen e) val]> chain];
        Some (mk_table t (count ht) (rows ht), pool)
  end.

Definition pj_hash_set (pool : option P) (ht : pj_hash_table_t) (mem : list Z) (len hval val : Z) :=
  hash_set pool ht mem len hval val false false.

Definition pj_hash_set_lower (pool : option P) (ht : pj_hash_table_t) (mem : list Z) (len hval val : Z) :=
  hash_set pool ht mem len hval val false true.

Definition pj_hash_set_np (ht : pj_hash_table_t) (mem : list Z) (len hval val : Z) :=
  hash_set None ht mem len hval val true false.

Definition pj_hash_set_np_lower (ht : pj_hash_table_t) (mem : list Z) (len hval val : Z) :=
  hash_set None ht mem len hval val true true.

Definition pj_hash_count (ht : pj_hash_table_t) : Z := count ht.

(** ** Iteration

    The entry of an iterator is the part of the chain from it on. *)
Record pj_hash_iterator_t := mk_iter { index : Z; entry : list pj_hash_entry }.

(** The [for] loop that looks for a chain with an entry; [n] bounds it. *)
Fixpoint next_chain (n : nat) (ht : pj_hash_table_t) (it : pj_hash_iterator_t)
    : option pj_hash_iterator_t :=
  if index it <=? rows ht then
    match n with
    | O => None
    | S n =>
        chain ← (table ht).[index it];
        match chain with
        | [] => next_chain n ht (mk_iter (u32 (index it + 1)) [])
        | _ => Some (mk_iter (index it) chain)
        end
    end
  else Some it.

(** [Some None] when the iteration is over. *)
Definition iter_result (it : pj_hash_iterator_t) : option pj_hash_iterator_t :=
  match entry it with [] => None | _ => Some it end.

Definition pj_hash_first (ht : pj_hash_table_t) : option (option pj_hash_iterator_t) :=
  it ← next_chain (S (length (table ht))) ht (mk_iter 0 []);
  Some (iter_result it).

Definition pj_hash_next (ht : pj_hash_table_t) (it : pj_hash_iterator_t)
    : option (option pj_hash_iterator_t) :=
  match entry it with
  | [] => None
  | _ :: (_ :: _) as rest => Some (Some (mk_iter (index it) (tail (entry it))))
  | [_] =>
      it ← next_chain (S (length (table ht))) ht (mk_iter (u32 (index it + 1)) []);
      Some (iter_result it)
  end.

Definition pj_hash_this (it : pj_hash_iterator_t) : option Z := value <$> head (entry it).

End tables.
