(* ===== verification/HashSpec.v ===== *)
(** * What a hash table promises

    A table stands for a finite map from keys (case folded, for the
    case-insensitive operations) to values; lookups and updates are those of
    the map, and iteration meets every entry once. *)
From S2P Require Import Prelude Interfaces Hash.

(** ** Keys *)

Definition norm (lower : bool) (k : list Z) : list Z := map (key_byte lower) k.

(** Bytes, and for the case-insensitive comparison, which stops at a NUL, none
    that are 0. *)
Definition key_ok (lower : bool) (k : list Z) : Prop :=
  Forall (fun c => 0 <= c < 256) k /\ (lower = true -> Forall (fun c => c <> 0) k).

#[global] Arguments key_byte : simpl never.

Lemma key_byte_lower c : 0 <= c < 256 -> key_byte true c = pj_tolower c.
Proof.
  intros. unfold key_byte, pj_tolower. apply u8_small.
  destruct ((65 <=? c) && (c <=? 90)) eqn:E; [|done].
  apply andb_true_iff in E as [?%Z.leb_le ?%Z.leb_le]. lia.
Qed.

Lemma tolower_zero c : 0 <= c -> pj_tolower c = 0 -> c = 0.
Proof. unfold pj_tolower. destruct (_ && _); lia. Qed.

Lemma norm_false k : norm false k = k.
Proof. unfold norm. by rewrite map_id. Qed.

Lemma word_of_norm lower bs i m : word_of lower bs i m = word_of false (norm lower bs) i m.
Proof. revert i m. induction bs as [|c bs IH]; intros i m; simpl; [done|]. by rewrite IH. Qed.

Lemma norm_take lower n k : norm lower (take n k) = take n (norm lower k).
Proof. apply fmap_take. Qed.

Lemma norm_drop lower n k : norm lower (drop n k) = drop n (norm lower k).
Proof. apply fmap_drop. Qed.

Lemma sip_words_norm lower n k s : sip_words lower n k s = sip_words false n (norm lower k) s.
Proof.
  revert k s. induction n as [|n IH]; intros k s; simpl; [done|].
  by rewrite IH, word_of_norm, norm_take, norm_drop.
Qed.

(** The hash of a key in either mode is the hash of the folded key. *)
Lemma siphash24_norm k0 k1 k lower : siphash24 k0 k1 k lower = siphash24 k0 k1 (norm lower k) false.
Proof.
  assert (Hl : length (norm lower k) = length k) by apply length_map.
  unfold siphash24. rewrite Hl, sip_words_norm, word_of_norm, norm_drop. done.
Qed.

Lemma memcmp_eq_spec a b : length a = length b -> memcmp_eq a b (length b) = true <-> a = b.
Proof.
  revert b. induction a as [|x a IH]; intros [|y b] Hl; simplify_eq/=; try done.
  rewrite andb_true_iff, Z.eqb_eq, IH by lia. split; [intros [-> ->]; done|]. by intros [= -> ->].
Qed.

Lemma strnicmp_eq_spec a b :
  length a = length b -> key_ok true a -> key_ok true b ->
  strnicmp_eq a b (length b) = true <-> norm true a = norm true b.
Proof.
  revert b. induction a as [|x a IH]; intros [|y b] Hl [Ha1 Ha2] [Hb1 Hb2]; simplify_eq/=; try done.
  apply Forall_cons in Ha1 as [Hx Ha1]. apply Forall_cons in Hb1 as [Hy Hb1].
  specialize (Ha2 eq_refl). apply Forall_cons in Ha2 as [Hx0 Ha2].
  specialize (Hb2 eq_refl). apply Forall_cons in Hb2 as [Hy0 Hb2].
  rewrite !key_byte_lower by done. fold (norm true a) (norm true b).
  destruct (Z.eqb_spec (pj_tolower x) 0) as [Hz|_]; [by apply tolower_zero in Hz; lia|].
  simpl. rewrite andb_true_iff, Z.eqb_eq, IH by (done || split; auto).
  split; [by intros [-> ->]|]. by intros [= -> ->].
Qed.

Section spec.
Variables sip_k0 sip_k1 : Z.
Context {P : Type} `{!PoolAllocator P}.
Abbreviation thash := (calc_table_hash sip_k0 sip_k1).

Lemma thash_norm k lower : thash k lower = thash (norm lower k) false.
Proof. unfold calc_table_hash. by rewrite siphash24_norm. Qed.

#[local] Opaque calc_table_hash.

(** ** Sets of entries as maps *)

Definition nkey (lower : bool) (e : pj_hash_entry) : list Z := norm lower (key e).

Record represents (lower : bool) (E : list pj_hash_entry) (m : gmap (list Z) Z) : Prop := {
  re_nodup : NoDup (map (nkey lower) E);
  re_map k v : m !! k = Some v <-> exists e, e ∈ E /\ nkey lower e = k /\ value e = v
}.

Lemma represents_perm lower E E' m : E ≡ₚ E' -> represents lower E m -> represents lower E' m.
Proof. intros HP [H1 H2]. split; [by rewrite <-HP|]. intros k v. rewrite H2. by setoid_rewrite HP. Qed.

Lemma represents_insert lower E m e :
  represents lower E m -> nkey lower e ∉ map (nkey lower) E ->
  represents lower (e :: E) (<[nkey lower e := value e]> m).
Proof.
  intros [H1 H2] Hn. split; [by constructor|]. intros k v. rewrite lookup_insert_Some, H2.
  setoid_rewrite elem_of_cons. split.
  - intros [[<- <-]|[Hk (x & Hx & ? & ?)]]; [by exists e; auto|exists x; auto].
  - intros (x & [->|Hx] & <- & <-); [by left|]. right. split; [|by exists x].
    intros Heq. apply Hn. rewrite Heq. by apply list_elem_of_fmap_2.
Qed.

Lemma represents_delete lower E m e :
  represents lower (e :: E) m -> represents lower E (delete (nkey lower e) m).
Proof.
  intros [H1 H2]. simpl in H1. apply NoDup_cons in H1 as [Hn H1]. split; [done|].
  intros k v. rewrite lookup_delete_Some, H2. setoid_rewrite elem_of_cons. split.
  - intros (Hk & x & [->|Hx] & Hkx & Hv); [done|]. by exists x.
  - intros (x & Hx & <- & <-). split; [|by exists x; auto].
    intros Heq. apply Hn. rewrite Heq. by apply list_elem_of_fmap_2.
Qed.

Lemma represents_size lower E m : represents lower E m -> size m = length E.
Proof.
  revert m. induction E as [|e E IH]; intros m Hr.
  - assert (m = ∅) as ->; [|done]. apply map_empty. intros k. apply eq_None_not_Some.
    intros [v (e & ?%elem_of_nil & _)%(re_map _ _ _ Hr)]. done.
  - assert (Hm : m !! nkey lower e = Some (value e)) by (apply (re_map _ _ _ Hr); exists e; split; [by left|done]).
    apply represents_delete in Hr. rewrite <-(insert_delete_id m _ _ Hm).
    rewrite map_size_insert_None by apply lookup_delete_eq. simpl. by rewrite (IH _ Hr).
Qed.

(** ** The invariant *)

Record entry_ok (lower : bool) (ht : pj_hash_table_t) (i : Z) (e : pj_hash_entry) : Prop := {
  eo_key : key_ok lower (key e);
  eo_hash : hash e = thash (key e) lower;
  eo_len : keylen e = Z.of_nat (length (key e));
  eo_value : value e <> 0;
  eo_chain : Z.land (hash e) (rows ht) = i
}.

Record table_ok (lower : bool) (ht : pj_hash_table_t) (m : gmap (list Z) Z) : Prop := {
  to_rows : exists n, 0 <= n <= 31 /\ rows ht = 2 ^ n - 1 /\ Z.of_nat (length (table ht)) = 2 ^ n;
  to_entry i chain e : table ht !! i = Some chain -> e ∈ chain -> entry_ok lower ht (Z.of_nat i) e;
  to_map : represents lower (concat (table ht)) m;
  to_count : count ht = u32 (Z.of_nat (length (concat (table ht))))
}.

Lemma chain_index lower ht m h :
  table_ok lower ht m -> 0 <= Z.land h (rows ht) < Z.of_nat (length (table ht)).
Proof.
  intros Ht. destruct (to_rows _ _ _ Ht) as (n & Hn & Hr & Hl). rewrite Hr, Hl.
  assert (2 ^ n - 1 = Z.ones n) as -> by (rewrite Z.ones_equiv; lia).
  rewrite Z.land_ones by lia. apply Z.mod_pos_bound. apply Z.pow_pos_nonneg; lia.
Qed.

(** Matching is equality of the folded keys. *)
Lemma matches_spec lower ht i e k :
  entry_ok lower ht i e -> key_ok lower k ->
  entry_matches e (thash k lower) k lower = true <-> nkey lower e = norm lower k.
Proof.
  intros [Hk Hh Hl _ _] Hkk. unfold entry_matches. rewrite Hh, Hl. split.
  - intros [[_ Hlen%Z.eqb_eq]%andb_true_iff Hc]%andb_true_iff. unfold nkey.
    destruct lower; simpl in Hc; rewrite ?orb_false_r in Hc.
    + apply strnicmp_eq_spec; try done. lia.
    + rewrite !norm_false. apply memcmp_eq_spec; [lia|done].
  - intros Heq. unfold nkey in Heq.
    assert (Hlen : length (key e) = length k).
    { apply (f_equal length) in Heq. unfold norm in Heq. by rewrite !length_map in Heq. }
    rewrite (thash_norm (key e)), (thash_norm k), Heq, Z.eqb_refl, Hlen, Z.eqb_refl. simpl.
    destruct lower; simpl; rewrite ?orb_false_r.
    + by apply strnicmp_eq_spec.
    + rewrite !norm_false in Heq. by apply memcmp_eq_spec.
Qed.

Lemma scan_spec chain h k lower :
  (exists l1 e l2, chain = l1 ++ e :: l2 /\ scan chain h k lower = length l1 /\
     entry_matches e h k lower = true) \/
  (scan chain h k lower = length chain /\ Forall (fun e => entry_matches e h k lower = false) chain).
Proof.
  induction chain as [|e chain IH]; simpl; [by right|].
  destruct (entry_matches e h k lower) eqn:E.
  - left. exists [], e, chain. done.
  - destruct IH as [(l1 & x & l2 & -> & -> & Hx)|[-> HF]].
    + left. exists (e :: l1), x, l2. done.
    + right. split; [done|]. by constructor.
Qed.

(** What the scan of the right chain finds in the whole table. *)
Lemma scan_table lower ht m k i chain :
  table_ok lower ht m -> key_ok lower k -> Z.land (thash k lower) (rows ht) = Z.of_nat i ->
  table ht !! i = Some chain ->
  (exists l1 e l2, chain = l1 ++ e :: l2 /\ scan chain (thash k lower) k lower = length l1 /\
     nkey lower e = norm lower k) \/
  (scan chain (thash k lower) k lower = length chain /\
   norm lower k ∉ map (nkey lower) (concat (table ht))).
Proof.
  intros Ht Hk Hi Hc. destruct (scan_spec chain (thash k lower) k lower) as
    [(l1 & e & l2 & -> & Hs & Hm)|[Hs HF]].
  - left. exists l1, e, l2. split_and!; try done.
    eapply (matches_spec lower ht (Z.of_nat i)); [|done|done].
    eapply to_entry; [done|done|]. apply elem_of_app. right. by left.
  - right. split; [done|]. intros (e & He & Hin)%list_elem_of_fmap.
    apply elem_of_concat in Hin as (j & c & Hj & Hec).
    pose proof (to_entry _ _ _ Ht j c e Hj Hec) as Heo.
    assert (Hmt : entry_matches e (thash k lower) k lower = true) by (by eapply matches_spec).
    assert (j = i) as ->.
    { pose proof (eo_chain _ _ _ _ Heo) as Hch. rewrite (eo_hash _ _ _ _ Heo), thash_norm in Hch.
      fold (nkey lower e) in Hch. rewrite <-He, <-thash_norm, Hi in Hch. lia. }
    rewrite Hc in Hj. injection Hj as <-. rewrite Forall_forall in HF. by rewrite HF in Hmt.
Qed.

(** ** Lookup *)

(** [find_entry] without a value only looks. *)
Lemma find_entry_lookup lower ht m mem len k hval buf :
  table_ok lower ht m -> key_bytes mem len = Some k -> key_ok lower k ->
  exists i chain, table ht !! i = Some chain /\
    find_entry sip_k0 sip_k1 (P := P) None ht mem len 0 hval buf lower =
      Some (Z.of_nat i, scan chain (thash k lower) k lower, report_hval hval k lower, ht, None) /\
    Z.land (thash k lower) (rows ht) = Z.of_nat i.
Proof.
  intros Ht Hkb Hk. unfold find_entry. rewrite Hkb. bind_step.
  pose proof (chain_index lower ht m (thash k lower) Ht) as Hi.
  destruct (arr_get_is_Some (table ht) _ Hi) as [chain Hc]. rewrite Hc. bind_step.
  rewrite orb_true_r. apply arr_get_Some in Hc as [_ Hc].
  eexists _, chain. split; [exact Hc|]. rewrite Z2Nat.id by lia. done.
Qed.

Lemma lookup_value lower ht m k i chain :
  table_ok lower ht m -> key_ok lower k -> Z.land (thash k lower) (rows ht) = Z.of_nat i ->
  table ht !! i = Some chain ->
  match chain !! scan chain (thash k lower) k lower with Some e => value e | None => 0 end =
    default 0 (m !! norm lower k).
Proof.
  intros Ht Hk Hi Hc. destruct (scan_table _ _ _ _ _ _ Ht Hk Hi Hc) as [(l1 & e & l2 & -> & -> & He)|[-> Hn]].
  - rewrite list_lookup_middle by done.
    assert (m !! norm lower k = Some (value e)) as ->; [|done].
    apply (re_map _ _ _ (to_map _ _ _ Ht)). exists e. split; [|done].
    apply elem_of_concat. eexists i, _. split; [done|]. apply elem_of_app. right. by left.
  - rewrite lookup_ge_None_2 by lia.
    assert (m !! norm lower k = None) as ->; [|done]. apply eq_None_not_Some.
    intros [v (e & He & Hke & _)%(re_map _ _ _ (to_map _ _ _ Ht))]. apply Hn.
    rewrite <-Hke. by apply list_elem_of_fmap_2.
Qed.

(** Both lookups return the value the table's map has for the (folded) key,
    or NULL, and a zero [hval] is replaced by the plain hash of the key. *)
Theorem hash_get_correct ht ht' m m' mem len k hval :
  table_ok false ht m -> table_ok true ht' m' -> key_bytes mem len = Some k -> key_ok true k ->
  pj_hash_get sip_k0 sip_k1 (P := P) ht mem len hval =
    Some (default 0 (m !! k), report_hval hval k false) /\
  pj_hash_get_lower sip_k0 sip_k1 (P := P) ht' mem len hval =
    Some (default 0 (m' !! norm true k), report_hval hval k true).
Proof.
  intros Ht Ht' Hkb Hk. split.
  - assert (Hk' : key_ok false k) by (destruct Hk; split; done).
    destruct (find_entry_lookup false ht m mem len k hval false Ht Hkb Hk') as (i & c & Hc & Hf & Hi).
    unfold pj_hash_get. rewrite Hf. bind_step. rewrite arr_get_nat, Hc. bind_step.
    by rewrite (lookup_value false ht m k i c), norm_false.
  - destruct (find_entry_lookup true ht' m' mem len k hval false Ht' Hkb Hk) as (i & c & Hc & Hf & Hi).
    unfold pj_hash_get_lower. rewrite Hf. bind_step. rewrite arr_get_nat, Hc. bind_step.
    by rewrite (lookup_value true ht' m' k i c).
Qed.

(** ** Update *)

(** A chain replaced by another of the same table. *)
Lemma table_ok_replace lower ht m m' i chain chain' n E :
  table_ok lower ht m -> table ht !! i = Some chain ->
  (forall e, e ∈ chain' -> entry_ok lower ht (Z.of_nat i) e) ->
  concat (<[i := chain']> (table ht)) ≡ₚ E -> represents lower E m' -> n = u32 (Z.of_nat (length E)) ->
  table_ok lower (mk_table (<[i := chain']> (table ht)) n (rows ht)) m'.
Proof.
  intros Ht Hc Hch HP Hr Hn. split; cbn.
  - destruct (to_rows _ _ _ Ht) as (q & ? & ? & ?). exists q. by rewrite length_insert.
  - intros j c e Hj He. apply list_lookup_insert_Some in Hj as [(<- & <- & _)|[_ Hj]].
    + by destruct (Hch e He).
    + by destruct (to_entry _ _ _ Ht j c e Hj He).
  - by eapply represents_perm.
  - by rewrite HP.
Qed.

Lemma u32_count_succ (n : nat) : u32 (u32 (Z.of_nat n) + 1) = u32 (Z.of_nat (S n)).
Proof. unfold u32, wrap. rewrite Zplus_mod_idemp_l. f_equal. lia. Qed.

Lemma u32_count_pred (n : nat) : u32 (u32 (Z.of_nat (S n)) - 1) = u32 (Z.of_nat n).
Proof. unfold u32, wrap. rewrite Zminus_mod_idemp_l. f_equal. lia. Qed.

Lemma concat_split (t : list (list pj_hash_entry)) i l1 e l2 x :
  t !! i = Some (l1 ++ e :: l2) ->
  exists E, concat t ≡ₚ e :: E /\ concat (<[i := l1 ++ l2]> t) ≡ₚ E /\
    concat (<[i := l1 ++ x :: l2]> t) ≡ₚ x :: E.
Proof.
  intros Hi. exists (concat (<[i := l1 ++ l2]> t)).
  pose proof (concat_insert_perm t i _ (l1 ++ l2) Hi) as H1.
  pose proof (concat_insert_perm t i _ (l1 ++ x :: l2) Hi) as H2.
  assert (Hm : concat t ≡ₚ e :: concat (<[i := l1 ++ l2]> t)).
  { apply (Permutation_app_inv_l (l1 ++ l2)). rewrite H1.
    rewrite <-!Permutation_middle. done. }
  split_and!; try done. apply (Permutation_app_inv_l (l1 ++ e :: l2)).
  rewrite <-H2, Hm. rewrite <-!Permutation_middle. cbn [app]. by rewrite Permutation_swap.
Qed.

(** An entry in its place. *)
Lemma new_entry_ok lower ht k i v :
  key_ok lower k -> v <> 0 -> Z.land (thash k lower) (rows ht) = Z.of_nat i ->
  entry_ok lower ht (Z.of_nat i) (mk_hentry k (thash k lower) (Z.of_nat (length k)) v).
Proof. intros. by split. Qed.

Lemma concat_snoc (t : list (list pj_hash_entry)) i chain e :
  t !! i = Some chain -> concat (<[i := chain ++ [e]]> t) ≡ₚ e :: concat t.
Proof.
  intros Hi. pose proof (concat_insert_perm t i chain (chain ++ [e]) Hi) as H.
  rewrite <-app_assoc in H. apply Permutation_app_inv_l in H. by rewrite <-H.
Qed.

(** The pool after the two allocations a new entry takes, one for the entry
    and one for the copy of the key; [None] when either is refused. *)
Definition entry_memory (p : P) (k : list Z) : option P :=
  let '(a, p) := pool_alloc p SIZEOF_HASH_ENTRY in
  _ ← a;
  let '(b, p) := pool_alloc p (Z.of_nat (length k)) in
  _ ← b; Some p.

(** A key that is not in the table and is given a value. *)
Definition is_new (m : gmap (list Z) Z) (k : list Z) (val : Z) : bool :=
  bool_decide (val <> 0 /\ m !! k = None).

(** The pool an update leaves: [None] when there is no memory for a new
    entry, which comes from the pool, or from [entry_buf] when there is none. *)
Definition pool_after (pool : option P) (new buf : bool) (k : list Z) : option (option P) :=
  if new then
    match pool with
    | Some p => Some <$> (if buf then (pool_alloc p (Z.of_nat (length k))).1 ≫= (fun _ =>
                            Some (pool_alloc p (Z.of_nat (length k))).2) else entry_memory p k)
    | None => if buf then Some None else None
    end
  else Some pool.

(** A new entry at the end of its chain. *)
Lemma find_entry_new lower pool ht m mem len k val hval buf i chain :
  table_ok lower ht m -> key_bytes mem len = Some k -> val <> 0 ->
  Z.land (thash k lower) (rows ht) = Z.of_nat i -> table ht !! i = Some chain ->
  scan chain (thash k lower) k lower = length chain ->
  find_entry sip_k0 sip_k1 pool ht mem len val hval buf lower =
    (pool' ← pool_after pool true buf k;
     Some (Z.of_nat i, length chain, report_hval hval k lower,
      mk_table (<[i := chain ++ [mk_hentry k (thash k lower) (Z.of_nat (length k)) val]]> (table ht))
        (u32 (count ht + 1)) (rows ht), pool')).
Proof.
  intros Ht Hkb Hv Hi Hc Hs. unfold find_entry. rewrite Hkb. bind_step.
  rewrite Hi, arr_get_nat, Hc. bind_step. rewrite Hs, Nat.ltb_irrefl.
  destruct (Z.eqb_spec val 0); [done|]. cbn [orb].
  rewrite (arr_set_in (table ht) (Z.of_nat i)), Nat2Z.id by (apply lookup_lt_Some in Hc; lia).
  unfold pool_after, entry_memory. destruct pool as [p|], buf; try done; cbn.
  - by destruct (pool_alloc p _) as [[a|] p1].
  - destruct (pool_alloc p SIZEOF_HASH_ENTRY) as [[a|] p1]; [|done]. cbn.
    by destruct (pool_alloc p1 _) as [[b|] p2].
Qed.

(** [hash_set] at the entry [find_entry] points to. *)
Definition set_at (ht : pj_hash_table_t) (i : nat) (l1 l2 : list pj_hash_entry) (e : pj_hash_entry) (val : Z) :=
  if val =? 0 then mk_table (<[i := l1 ++ l2]> (table ht)) (u32 (count ht - 1)) (rows ht)
  else mk_table (<[i := l1 ++ mk_hentry (key e) (hash e) (keylen e) val :: l2]> (table ht)) (count ht) (rows ht).

Lemma hash_set_at pool pool' ht ht' mem len hval val buf lower i l1 l2 e hv :
  find_entry sip_k0 sip_k1 pool ht mem len val (Some hval) buf lower =
    Some (Z.of_nat i, length l1, hv, ht', pool') ->
  table ht' !! i = Some (l1 ++ e :: l2) ->
  hash_set sip_k0 sip_k1 pool ht mem len hval val buf lower = Some (set_at ht' i l1 l2 e val, pool').
Proof.
  intros Hf Hc. unfold hash_set. rewrite Hf. bind_step. rewrite arr_get_nat, Hc. bind_step.
  rewrite list_lookup_middle by done. apply lookup_lt_Some in Hc. unfold set_at.
  destruct (val =? 0); rewrite arr_set_in, Nat2Z.id by lia; bind_step.
  - do 5 f_equal. rewrite take_app_length. f_equal.
    change (l1 ++ e :: l2) with (l1 ++ [e] ++ l2). rewrite app_assoc.
    apply drop_app_length'. rewrite length_app. simpl. lia.
  - do 5 f_equal. by rewrite insert_app_r_alt, Nat.sub_diag by lia.
Qed.

(** [find_entry] when there is an entry for the key. *)
Lemma find_entry_found lower pool ht m mem len k val hval buf i l1 l2 e :
  table_ok lower ht m -> key_bytes mem len = Some k ->
  Z.land (thash k lower) (rows ht) = Z.of_nat i -> table ht !! i = Some (l1 ++ e :: l2) ->
  scan (l1 ++ e :: l2) (thash k lower) k lower = length l1 ->
  find_entry sip_k0 sip_k1 (P := P) pool ht mem len val hval buf lower =
    Some (Z.of_nat i, length l1, report_hval hval k lower, ht, pool).
Proof.
  intros Ht Hkb Hi Hc Hs. unfold find_entry. rewrite Hkb. bind_step. rewrite Hi, arr_get_nat, Hc.
  bind_step. rewrite Hs, (proj2 (Nat.ltb_lt _ _)); [done|]. rewrite length_app. simpl. lia.
Qed.

(** The entry [e] deleted or given another value. *)
Lemma set_at_ok lower ht m i l1 l2 e val :
  table_ok lower ht m -> table ht !! i = Some (l1 ++ e :: l2) ->
  table_ok lower (set_at ht i l1 l2 e val)
    (if val =? 0 then delete (nkey lower e) m else <[nkey lower e := val]> m).
Proof.
  intros Ht Hc. set (e' := mk_hentry (key e) (hash e) (keylen e) val).
  destruct (concat_split _ _ _ _ _ e' Hc) as (E & HE & HE1 & HE2).
  pose proof (represents_perm _ _ _ _ HE (to_map _ _ _ Ht)) as Hr.
  pose proof (represents_delete _ _ _ _ Hr) as Hr'.
  pose proof (to_count _ _ _ Ht) as Hcnt. rewrite HE, length_cons in Hcnt.
  assert (Hent : forall x, x ∈ l1 ++ e :: l2 -> entry_ok lower ht (Z.of_nat i) x)
    by (intros; by eapply to_entry).
  unfold set_at. destruct (Z.eqb_spec val 0) as [->|Hv].
  - eapply table_ok_replace; try done.
    + intros x Hx. apply Hent. rewrite elem_of_app in Hx |- *. rewrite elem_of_cons. tauto.
    + rewrite Hcnt. apply u32_count_pred.
  - eapply (table_ok_replace lower ht m _ i _ _ _ (e' :: E)); try done.
    + intros x [Hx|[->|Hx]%elem_of_cons]%elem_of_app.
      * apply Hent, elem_of_app. by left.
      * destruct (Hent e) as [? ? ? ? ?]; [apply elem_of_app; right; by left|]. by split.
      * apply Hent, elem_of_app. right. by right.
    + rewrite <-(insert_delete_eq m). apply (represents_insert lower E _ e'); [done|].
      pose proof (re_nodup _ _ _ Hr) as Hnd. simpl in Hnd. by apply NoDup_cons in Hnd as [? _].
Qed.

(** The table with a new entry. *)
Lemma table_ok_new lower ht m k i chain val :
  table_ok lower ht m -> key_ok lower k -> val <> 0 ->
  Z.land (thash k lower) (rows ht) = Z.of_nat i -> table ht !! i = Some chain ->
  norm lower k ∉ map (nkey lower) (concat (table ht)) ->
  table_ok lower (mk_table
    (<[i := chain ++ [mk_hentry k (thash k lower) (Z.of_nat (length k)) val]]> (table ht))
    (u32 (count ht + 1)) (rows ht)) (<[norm lower k := val]> m).
Proof.
  intros Ht Hk Hv Hi Hc Hn. set (e := mk_hentry k (thash k lower) (Z.of_nat (length k)) val).
  eapply (table_ok_replace lower ht m _ i chain _ _ (e :: concat (table ht))); try done.
  - intros x [Hx|[->|?%elem_of_nil]%elem_of_cons]%elem_of_app; [by eapply to_entry| |done].
    by apply new_entry_ok.
  - by apply concat_snoc.
  - apply (represents_insert lower _ _ e); [apply Ht|done].
  - rewrite (to_count _ _ _ Ht), length_cons. by rewrite u32_count_succ.
Qed.

Lemma hash_set_spec lower pool ht m mem len k hval val buf :
  table_ok lower ht m -> key_bytes mem len = Some k -> key_ok lower k ->
  exists ht', hash_set sip_k0 sip_k1 pool ht mem len hval val buf lower =
      (pool' ← pool_after pool (is_new m (norm lower k) val) buf k; Some (ht', pool')) /\
    table_ok lower ht' (if val =? 0 then delete (norm lower k) m else <[norm lower k := val]> m).
Proof.
  intros Ht Hkb Hk. pose proof (chain_index lower ht m (thash k lower) Ht) as Hib.
  destruct (arr_get_is_Some (table ht) _ Hib) as [chain Hc]. apply arr_get_Some in Hc as [_ Hc].
  set (i := Z.to_nat (Z.land (thash k lower) (rows ht))) in *.
  assert (Hi : Z.land (thash k lower) (rows ht) = Z.of_nat i) by (unfold i; lia).
  pose proof (lookup_value _ _ _ _ _ _ Ht Hk Hi Hc) as Hlv.
  destruct (scan_table _ _ _ _ _ _ Ht Hk Hi Hc) as [(l1 & e & l2 & -> & Hs & He)|[Hs Hn]].
  - pose proof (find_entry_found lower pool ht m mem len k val (Some hval) buf i l1 l2 e Ht Hkb Hi Hc Hs) as Hf.
    rewrite (hash_set_at _ _ _ _ _ _ _ _ _ _ _ _ _ _ _ Hf Hc). eexists. split; [|rewrite <-He; by apply set_at_ok].
    unfold is_new. rewrite bool_decide_eq_false_2; [done|]. intros [_ Hm].
    rewrite Hm, Hs, list_lookup_middle in Hlv by done.
    apply (eo_value lower ht (Z.of_nat i) e); [|done].
    eapply to_entry; [done|done|]. apply elem_of_app. right. by left.
  - assert (Hm : m !! norm lower k = None).
    { apply eq_None_not_Some. intros [v (e & He & Hke & _)%(re_map _ _ _ (to_map _ _ _ Ht))].
      apply Hn. rewrite <-Hke. by apply list_elem_of_fmap_2. }
    unfold is_new. destruct (Z.eqb_spec val 0) as [->|Hv].
    + rewrite bool_decide_eq_false_2 by naive_solver.
      unfold hash_set, find_entry. rewrite Hkb. bind_step. rewrite Hi, arr_get_nat, Hc. bind_step.
      rewrite Hs, orb_true_r. bind_step. rewrite arr_get_nat, Hc. bind_step.
      rewrite lookup_ge_None_2 by lia. eexists. split; [done|]. by rewrite delete_id.
    + rewrite bool_decide_eq_true_2 by done.
      pose proof (find_entry_new lower pool ht m mem len k val (Some hval) buf i chain Ht Hkb Hv Hi Hc Hs) as Hf.
      set (e := mk_hentry k (thash k lower) (Z.of_nat (length k)) val) in *.
      set (ht' := mk_table _ _ _) in Hf.
      assert (Hc' : table ht' !! i = Some (chain ++ e :: [])).
      { unfold ht', table. apply list_lookup_insert_eq. by eapply lookup_lt_Some. }
      assert (Ht' : table_ok lower ht' (<[norm lower k := val]> m)) by (by apply table_ok_new).
      exists (set_at ht' i chain [] e val). split.
      * destruct (pool_after pool true buf k) as [pool'|]; cbn in Hf |- *.
        -- by rewrite (hash_set_at _ _ _ _ _ _ _ _ _ _ _ _ _ _ _ Hf Hc').
        -- unfold hash_set. by rewrite Hf.
      * pose proof (set_at_ok _ _ _ _ _ _ _ val Ht' Hc') as Hres.
        rewrite (proj2 (Z.eqb_neq _ _) Hv) in Hres. unfold nkey in Hres. cbn [key e] in Hres.
        by rewrite insert_insert_eq in Hres.
Qed.

(** C28 Setting a value is insertion into the table's map, setting NULL is
    deletion, for a key in either mode (without null characters in the
    case-insensitive one) and whatever [hval] is given; the count is the number
    of keys.  With a pool the update takes memory only for a key that is new,
    for the entry and then for the key, and leaves the pool alone otherwise;
    where the pool refuses that memory the code writes through NULL and there is
    no result.  With the caller's memory there is always a result. *)
Theorem hash_set_correct lower pool ht m mem len k hval val :
  table_ok lower ht m -> key_bytes mem len = Some k -> key_ok lower k ->
  let m' := if val =? 0 then delete (norm lower k) m else <[norm lower k := val]> m in
  (exists ht',
    (if lower then pj_hash_set_lower sip_k0 sip_k1 (Some pool) ht mem len hval val
     else pj_hash_set sip_k0 sip_k1 (Some pool) ht mem len hval val) =
      (pool' ← (if is_new m (norm lower k) val then entry_memory pool k else Some pool);
       Some (ht', Some pool')) /\
    table_ok lower ht' m' /\ pj_hash_count ht' = u32 (Z.of_nat (size m'))) /\
  (exists ht',
    (if lower then pj_hash_set_np_lower sip_k0 sip_k1 (P := P) ht mem len hval val
     else pj_hash_set_np sip_k0 sip_k1 (P := P) ht mem len hval val) = Some (ht', None) /\
    table_ok lower ht' m' /\ pj_hash_count ht' = u32 (Z.of_nat (size m'))).
Proof.
  intros Ht Hkb Hk. cbv zeta.
  assert (Hcnt : forall ht' m', table_ok lower ht' m' -> pj_hash_count ht' = u32 (Z.of_nat (size m'))).
  { intros ht' m' Ht'. rewrite (represents_size _ _ _ (to_map _ _ _ Ht')). by destruct Ht'. }
  split.
  - destruct (hash_set_spec lower (Some pool) ht m mem len k hval val false Ht Hkb Hk) as (ht' & Hs & Ht').
    exists ht'. split; [|split; [done|by apply Hcnt]].
    unfold pool_after in Hs.
    destruct lower; unfold pj_hash_set_lower, pj_hash_set; rewrite Hs; destruct (is_new _ _ _); try done;
      by destruct (entry_memory pool k).
  - destruct (hash_set_spec lower None ht m mem len k hval val true Ht Hkb Hk) as (ht' & Hs & Ht').
    exists ht'. split; [|split; [done|by apply Hcnt]].
    unfold pool_after in Hs.
    destruct lower; unfold pj_hash_set_np_lower, pj_hash_set_np; rewrite Hs; by destruct (is_new _ _ _).
Qed.

(** ** Creation *)

Lemma grow_table_size_spec fuel e size :
  3 <= e <= 30 -> (Z.to_nat (31 - e) <= fuel)%nat ->
  exists n, grow_table_size fuel (2 ^ e) size = Some (2 ^ n) /\ e < n <= 31 /\
    (size <= 2 ^ n \/ n = 31).
Proof.
  revert e. induction fuel as [|fuel IH]; intros e He Hf; [lia|]. cbn [grow_table_size].
  assert (Hp : u32 (Z.shiftl (2 ^ e) 1) = 2 ^ (e + 1)).
  { rewrite Z.shiftl_mul_pow2, <-Z.pow_add_r by lia. apply u32_small.
    split; [apply Z.pow_nonneg; lia|]. apply Z.pow_lt_mono_r; lia. }
  rewrite Hp. destruct (Z.ltb_spec (2 ^ (e + 1)) size) as [Hlt|Hge]; cbn [andb].
  2: { exists (e + 1). split; [done|]. split; [lia|by left]. }
  destruct (Z.leb_spec (2 ^ (e + 1)) (Z.shiftr UINT_MAX 1)) as [Hle|Hgt].
  - change (Z.shiftr UINT_MAX 1) with (2 ^ 31 - 1) in Hle.
    assert (e + 1 < 31).
    { destruct (decide (e + 1 = 31)) as [Heq|]; [|lia]. rewrite Heq in Hle. lia. }
    destruct (IH (e + 1)) as (n & ? & ? & ?); [lia|lia|]. exists n. split_and!; done || lia.
  - change (Z.shiftr UINT_MAX 1) with (2 ^ 31 - 1) in Hgt. exists (e + 1). split; [done|].
    split; [lia|]. right. assert (~ e + 1 < 31); [|lia]. intros Hl.
    pose proof (Z.pow_lt_mono_r 2 (e + 1) 31). lia.
Qed.

(** [pj_hash_create] terminates for every size and, when the pool grants the
    memory of the table and of its chains, builds an empty table whose number
    of chains is a power of two, at least the size asked for or the largest one
    an [unsigned] can count. *)
Theorem hash_create_ok lower (pool : P) size :
  0 <= size <= UINT_MAX -> exists n, 4 <= n <= 31 /\ (size <= 2 ^ n \/ n = 31) /\
  (is_Some (pool_alloc pool SIZEOF_HASH_TABLE).1 ->
   is_Some (pool_calloc (pool_alloc pool SIZEOF_HASH_TABLE).2 (2 ^ n) 4).1 ->
   exists ht pool', pj_hash_create pool size = Some (Some ht, pool') /\ table_ok lower ht ∅ /\
     rows ht + 1 = 2 ^ n).
Proof.
  intros Hs. destruct (grow_table_size_spec 32 3 size) as (n & Hg & Hn & Hor); [lia|lia|].
  exists n. split; [lia|]. split; [done|]. intros [a Hpa]. unfold pj_hash_create.
  destruct (pool_alloc pool SIZEOF_HASH_TABLE) as [o p1]. simpl in Hpa. subst o. cbn [snd]. intros [b Hpb].
  change (2 ^ 3) with 8 in Hg. rewrite Hg. bind_step.
  pose proof (Z.pow_pos_nonneg 2 n ltac:(lia) ltac:(lia)) as Hpos.
  replace (2 ^ n - 1 + 1) with (2 ^ n) by lia.
  destruct (pool_calloc p1 (2 ^ n) 4) as [o p2].
  simpl in Hpb. subst o. eexists _, _. split; [done|]. cbn [rows].
  assert (Hrep : forall i chain, replicate (Z.to_nat (2 ^ n)) (@nil pj_hash_entry) !! i = Some chain -> chain = [])
    by (by intros i chain [-> _]%lookup_replicate).
  assert (Hcon : concat (replicate (Z.to_nat (2 ^ n)) (@nil pj_hash_entry)) = []).
  { generalize (Z.to_nat (2 ^ n)) as q. induction q; done. }
  split; [|lia]. split; cbn [table rows count].
  - exists n. rewrite length_replicate. split; [lia|]. split; [done|]. lia.
  - intros i chain e Hi He. apply Hrep in Hi as ->. by apply elem_of_nil in He.
  - rewrite Hcon. split; [constructor|]. intros k v. rewrite lookup_empty. split; [done|].
    by intros (e & ?%elem_of_nil & _).
  - by rewrite Hcon.
Qed.

(** ** Iteration *)

(** What is still to come for an iterator. *)
Definition remaining (ht : pj_hash_table_t) (it : pj_hash_iterator_t) : list pj_hash_entry :=
  entry it ++ concat (drop (S (Z.to_nat (index it))) (table ht)).

(** Every value from [it] on, by [pj_hash_this] and [pj_hash_next]. *)
Fixpoint collect (fuel : nat) (ht : pj_hash_table_t) (it : pj_hash_iterator_t) : option (list Z) :=
  match fuel with
  | O => None
  | S fuel =>
      v ← pj_hash_this it;
      r ← pj_hash_next ht it;
      match r with
      | None => Some [v]
      | Some it => vs ← collect fuel ht it; Some (v :: vs)
      end
  end.

Definition iterate (fuel : nat) (ht : pj_hash_table_t) : option (list Z) :=
  r ← pj_hash_first ht;
  match r with None => Some [] | Some it => collect fuel ht it end.

Lemma next_chain_spec n ht i :
  rows ht + 1 = Z.of_nat (length (table ht)) -> rows ht < 2 ^ 31 ->
  (i <= length (table ht))%nat -> (length (table ht) - i < n)%nat ->
  exists it, next_chain n ht (mk_iter (Z.of_nat i) []) = Some it /\
    remaining ht it = concat (drop i (table ht)) /\
    match iter_result it with
    | None => concat (drop i (table ht)) = []
    | Some it' => it' = it /\ 0 <= index it <= rows ht
    end.
Proof.
  intros Hr Hb. revert i. induction n as [|n IH]; intros i Hi Hn; [lia|]. cbn [next_chain index].
  destruct (Z.leb_spec (Z.of_nat i) (rows ht)) as [Hle|Hgt].
  - destruct (lookup_lt_is_Some_2 (table ht) i) as [chain Hc]; [lia|].
    rewrite arr_get_nat, Hc. bind_step. rewrite (drop_S _ _ _ Hc). cbn [concat].
    destruct chain as [|e chain].
    + rewrite u32_small by lia. replace (Z.of_nat i + 1) with (Z.of_nat (S i)) by lia.
      destruct (IH (S i)) as (it & ? & ? & ?); [lia|lia|]. exists it. done.
    + eexists. split; [done|]. unfold remaining. cbn [index entry]. rewrite Nat2Z.id. split; [done|].
      cbn. split; [done|lia].
  - eexists. split; [done|]. unfold remaining. cbn [index entry].
    rewrite !drop_ge by lia. done.
Qed.

Lemma next_spec ht it e rest :
  rows ht + 1 = Z.of_nat (length (table ht)) -> rows ht < 2 ^ 31 ->
  0 <= index it <= rows ht -> entry it = e :: rest ->
  exists r, pj_hash_next ht it = Some r /\
    match r with
    | None => remaining ht it = [e]
    | Some it' => remaining ht it = e :: remaining ht it' /\ 0 <= index it' <= rows ht /\ entry it' <> []
    end.
Proof.
  intros Hr Hb Hi He. unfold pj_hash_next, remaining. rewrite He. destruct rest as [|e2 rest].
  - rewrite u32_small by lia.
    destruct (next_chain_spec (S (length (table ht))) ht (S (Z.to_nat (index it))))
      as (it' & Hn & Hrem & Hres); [done|done|lia|lia|].
    replace (index it + 1) with (Z.of_nat (S (Z.to_nat (index it)))) by lia. rewrite Hn. bind_step.
    eexists. split; [done|]. unfold iter_result in *. destruct (entry it') eqn:Ee.
    + cbn [app]. by rewrite Hres.
    + destruct Hres as [_ Hb']. cbn [app]. rewrite <-Hrem. unfold remaining. rewrite Ee.
      split; [done|]. split; [done|]. done.
  - eexists. split; [done|]. cbn [index entry tail]. done.
Qed.

Lemma collect_spec fuel ht it :
  rows ht + 1 = Z.of_nat (length (table ht)) -> rows ht < 2 ^ 31 ->
  0 <= index it <= rows ht -> entry it <> [] -> (length (remaining ht it) <= fuel)%nat ->
  collect fuel ht it = Some (map value (remaining ht it)).
Proof.
  intros Hr Hb. revert it. induction fuel as [|fuel IH]; intros it Hi Hne Hf.
  - unfold remaining in Hf. rewrite length_app in Hf. destruct (entry it); [done|simpl in Hf; lia].
  - cbn [collect]. destruct (entry it) as [|e rest] eqn:Ee; [done|].
    destruct (next_spec ht it e rest Hr Hb Hi Ee) as (r & Hn & Hrem).
    unfold pj_hash_this. rewrite Ee. cbn [head fmap option_fmap option_map]. bind_step. rewrite Hn. bind_step.
    destruct r as [it'|]; [|by rewrite Hrem].
    destruct Hrem as (Hrem & Hi' & Hne'). rewrite Hrem in Hf |- *. simpl in Hf.
    rewrite IH by (done || lia). done.
Qed.

(** Iterating from [pj_hash_first] with [pj_hash_next] ends and meets every
    entry of the table exactly once. *)
Theorem iteration_complete lower ht m :
  table_ok lower ht m ->
  iterate (S (length (concat (table ht)))) ht = Some (map value (concat (table ht))) /\
  forall v, v ∈ map value (concat (table ht)) <-> exists k, m !! k = Some v.
Proof.
  intros Ht. destruct (to_rows _ _ _ Ht) as (n & Hn & Hr & Hl).
  pose proof (Z.pow_le_mono_r 2 n 31 ltac:(lia) ltac:(lia)).
  split.
  - unfold iterate, pj_hash_first.
    destruct (next_chain_spec (S (length (table ht))) ht 0) as (it & Hnc & Hrem & Hres); try lia.
    change (Z.of_nat 0) with 0 in Hnc. rewrite Hnc. bind_step. rewrite drop_0 in *.
    unfold iter_result in *. destruct (entry it) eqn:Ee; bind_step.
    + by rewrite Hres.
    + destruct Hres as [_ Hb]. rewrite collect_spec; try done; try lia.
      * by rewrite Hrem.
      * by rewrite Ee.
      * rewrite Hrem. lia.
  - intros v. rewrite list_elem_of_fmap. setoid_rewrite (re_map _ _ _ (to_map _ _ _ Ht)). split.
    + intros (e & -> & He). by exists (nkey lower e), e.
    + intros (k & e & He & _ & <-). by exists e.
Qed.

End spec.

(** ** The hash functions *)

(** The canonical outputs of SipHash-2-4 for the key 00 01 .. 0f and the
    inputs of the first bytes 00 01 02 .., by length. *)
Definition sip_vectors : list Z :=
  [0x726fdb47dd0e0e31; 0x74f839c593dc67fd; 0x0d6c8009d9a94f5a; 0x85676696d7fb7e2d;
   0xcf2794e0277187b7; 0x18765564cd99a68d; 0xcbc9466e58fee3ce; 0xab0200f58b01d137;
   0x93f5f5799a932462; 0x9e0082df0ba9e4b0; 0x7a5dbbc594ddb9f3; 0xf4b32f46226bada7;
   0x751e8fbc860ee5fb; 0x14ea5627c0843d90; 0xf723ca908e7af2ee; 0xa129ca6149be45e5;
   0x3f2acc7f57c29bdb; 0x699ae9f52cbe4794; 0x4bc1b3f0968dd39c; 0xbb6dc91da77961bd;
   0xbed65cf21aa2ee98; 0xd0f2cbb02e3b67c7; 0x93536795e3a33e88; 0xa80c038ccd5ccec8;
   0xb8ad50c6f649af94; 0xbce192de8a85b8ea; 0x17d835b85bbb15f3; 0x2f2e6163076bcfad;
   0xde4daaaca71dc9a5; 0xa6a2506687956571; 0xad87a3535c49ef28; 0x32d892fad841c342;
   0x7127512f72f27cce].

(** The keyed hash computes the published SipHash-2-4 test vectors. *)
Theorem siphash24_vectors :
  map (fun n => pj_hash_test_siphash24 0x0706050403020100 0x0f0e0d0c0b0a0908 (seqZ 0 n)) (seqZ 0 33) =
  sip_vectors.
Proof. vm_compute. reflexivity. Qed.

Lemma hash_calc_app h k l : pj_hash_calc h (k ++ l) = pj_hash_calc (pj_hash_calc h k) l.
Proof. unfold pj_hash_calc. apply foldl_app. Qed.

(** The plain hash of a key can be computed piece by piece, and the
    case-insensitive one is the plain hash of the lower-case key, which is what
    it stores to the result buffer. *)
Theorem hash_calc_pieces h k l :
  pj_hash_calc h (k ++ l) = pj_hash_calc (pj_hash_calc h k) l /\
  pj_hash_calc_tolower h k = (pj_hash_calc h (map pj_tolower k), map pj_tolower k).
Proof.
  split; [apply hash_calc_app|]. unfold pj_hash_calc_tolower.
  assert (Hgo : forall r h, foldl (fun '(h, r) c => (u32 (h * PJ_HASH_MULTIPLIER + pj_tolower c), r ++ [pj_tolower c]))
    (h, r) k = (pj_hash_calc h (map pj_tolower k), r ++ map pj_tolower k)); [|by apply (Hgo [])].
  clear h. induction k as [|c k IH]; intros r h; simpl; [by rewrite app_nil_r|].
  by rewrite IH, <-app_assoc.
Qed.

(** ** Hash tables at concrete inputs *)

#[local] Existing Instance roomy_pool.

(** An empty table, and one with the entry "Ab" -> 77 in either mode. *)
Definition ex_ht : pj_hash_table_t := mk_table (replicate 16 []) 0 15.
Definition ex_key : list Z := [65; 98; 0].

Lemma ex_ht_ok lower : table_ok 1 2 lower ex_ht ∅.
Proof.
  split; cbn [table rows count ex_ht].
  - exists 4. done.
  - intros i chain e Hi He. apply lookup_replicate in Hi as [-> _]. by apply elem_of_nil in He.
  - split; [constructor|]. intros k v. rewrite lookup_empty. split; [done|].
    by intros (e & ?%elem_of_nil & _).
  - done.
Qed.

Lemma ex_key_ok lower : key_ok lower [65; 98].
Proof. split; [repeat constructor; lia|]. intros _. repeat constructor; lia. Qed.

Definition ex_ht1 (lower : bool) : pj_hash_table_t :=
  default ex_ht (fst <$> hash_set 1 2 (Some 0%nat) ex_ht ex_key PJ_HASH_KEY_STRING 0 77 false lower).

Lemma ex_ht1_ok lower : table_ok 1 2 lower (ex_ht1 lower) (<[norm lower [65; 98] := 77]> ∅).
Proof.
  destruct (hash_set_spec 1 2 lower (Some 0%nat) ex_ht ∅ ex_key PJ_HASH_KEY_STRING [65; 98] 0 77 false)
    as (ht' & Hs & Ht').
  - apply ex_ht_ok.
  - reflexivity.
  - apply ex_key_ok.
  - unfold ex_ht1. rewrite Hs. exact Ht'.
Qed.

Lemma hash_get_correct_witness :
  pj_hash_get 1 2 (P := nat) (ex_ht1 false) ex_key PJ_HASH_KEY_STRING (Some 0) =
    Some (default 0 ((<[norm false [65; 98] := 77]> ∅ : gmap (list Z) Z) !! [65; 98]),
          report_hval (Some 0) [65; 98] false) /\
  pj_hash_get_lower 1 2 (P := nat) (ex_ht1 true) ex_key PJ_HASH_KEY_STRING (Some 0) =
    Some (default 0 ((<[norm true [65; 98] := 77]> ∅ : gmap (list Z) Z) !! norm true [65; 98]),
          report_hval (Some 0) [65; 98] true).
Proof.
  apply (hash_get_correct 1 2 (ex_ht1 false) (ex_ht1 true) _ _ ex_key PJ_HASH_KEY_STRING [65; 98] (Some 0)
    (ex_ht1_ok false) (ex_ht1_ok true) eq_refl (ex_key_ok true)).
Defined.

(** Found by "aB" in the case-insensitive table, not in the other. *)
Example get_other_case :
  fst <$> pj_hash_get_lower 1 2 (P := nat) (ex_ht1 true) [97; 66] 2 None = Some 77 /\
  fst <$> pj_hash_get 1 2 (P := nat) (ex_ht1 false) [97; 66] 2 None = Some 0.
Proof. vm_compute. done. Qed.

Lemma hash_set_correct_witness :
  (exists ht', pj_hash_set_lower 1 2 (Some 0%nat) (ex_ht1 true) [97; 67] 2 5 99 = Some (ht', Some 2%nat) /\
    table_ok 1 2 true ht' (<[[97; 99] := 99]> (<[[97; 98] := 77]> ∅)) /\ pj_hash_count ht' = 2) /\
  (exists ht', pj_hash_set_np_lower 1 2 (P := nat) (ex_ht1 true) [97; 67] 2 5 99 = Some (ht', None) /\
    table_ok 1 2 true ht' (<[[97; 99] := 99]> (<[[97; 98] := 77]> ∅)) /\ pj_hash_count ht' = 2).
Proof.
  assert (Hk : key_ok true [97; 67]) by (split; [|intros _]; repeat constructor; lia).
  exact (hash_set_correct 1 2 true 0%nat (ex_ht1 true) _ [97; 67] 2 [97; 67] 5 99
    (ex_ht1_ok true) eq_refl Hk).
Defined.

(** Deleting takes no memory, and a new key without memory has no result. *)
Example set_without_memory :
  hash_set 1 2 (PoolAllocator0 := empty_pool) (Some 0%nat) (ex_ht1 true) [97; 66] 2 0 0 false true =
    Some (ex_ht, Some 0%nat) /\
  hash_set 1 2 (PoolAllocator0 := empty_pool) (Some 0%nat) (ex_ht1 true) [97; 67] 2 0 9 false true = None.
Proof. vm_compute. done. Qed.

Lemma hash_create_ok_witness : exists n, 4 <= n <= 31 /\ (1000 <= 2 ^ n \/ n = 31) /\
  (is_Some (pool_alloc 0%nat SIZEOF_HASH_TABLE).1 ->
   is_Some (pool_calloc (pool_alloc 0%nat SIZEOF_HASH_TABLE).2 (2 ^ n) 4).1 ->
   exists ht pool', pj_hash_create 0%nat 1000 = Some (Some ht, pool') /\ table_ok 1 2 false ht ∅ /\
     rows ht + 1 = 2 ^ n).
Proof. apply (hash_create_ok 1 2 false 0%nat 1000). unfold UINT_MAX. lia. Defined.

Lemma iteration_complete_witness :
  iterate (S (length (concat (table (ex_ht1 false))))) (ex_ht1 false) =
    Some (map value (concat (table (ex_ht1 false)))) /\
  forall v, v ∈ map value (concat (table (ex_ht1 false))) <->
    exists k, (<[norm false [65; 98] := 77]> ∅ : gmap (list Z) Z) !! k = Some v.
Proof. apply (iteration_complete 1 2 false (ex_ht1 false) _ (ex_ht1_ok false)). Defined.
