(* ===== verification/PjString.v ===== *)
(** * Strings

    The operations on [pj_str_t] and on C strings of [pjlib/src/pj/string.c] and
    the comparisons of [pjlib/include/pj/string_i.h].  A [pj_str_t] is the list
    of its [slen] bytes (a [pj_str_t] never has a negative length); a C string
    is the list of the bytes from its address on, terminator included.  A
    pointer into a string is its offset.  [char] is unsigned on the target, so
    bytes are compared as values of [0, 256). *)
From S2P Require Import Prelude Interfaces Hash.

Definition pj_isdigit (c : Z) : bool := (48 <=? c) && (c <=? 57).
Definition pj_isspace (c : Z) : bool := (c =? 32) || ((9 <=? c) && (c <=? 13)).
Definition pj_isxdigit (c : Z) : bool :=
  pj_isdigit c || ((65 <=? c) && (c <=? 70)) || ((97 <=? c) && (c <=? 102)).
Definition pj_hex_digit_to_val (c : Z) : Z :=
  if c <=? 57 then Z.land (c - 48) 15
  else if c <=? 70 then Z.land (c - 65 + 10) 15
  else Z.land (c - 97 + 10) 15.

Definition PJ_MAXLONG : Z := 2 ^ 31 - 1.
Definition PJ_MINLONG : Z := - 2 ^ 31.
Definition PJ_MAXULONG : Z := 2 ^ 32 - 1.
(** [pj_uint_t] has 64 bits. *)
Definition PJ_MAXUINT : Z := 2 ^ 64 - 1.

(** ** Spans and tokens *)

(** The inner loop over the set. *)
Definition in_set (c : Z) (set_char : list Z) : bool := existsb (Z.eqb c) set_char.

(** The characters of a set given as a C string: those before the NUL. *)
Fixpoint c_chars (s : list Z) : list Z :=
  match s with
  | [] => []
  | c :: s => if c =? 0 then [] else c :: c_chars s
  end.

Fixpoint strspn_loop (str set_char : list Z) (i count : Z) : Z :=
  match str with
  | [] => count
  | c :: str =>
      if negb (count =? i) then count
      else strspn_loop str set_char (i + 1) (if in_set c set_char then count + 1 else count)
  end.

Definition pj_strspn (str set_char : list Z) : Z := strspn_loop str set_char 0 0.
Definition pj_strspn2 (str set_char : list Z) : Z := strspn_loop str (c_chars set_char) 0 0.

Fixpoint strcspn_loop (str set_char : list Z) (i : Z) : Z :=
  match str with
  | [] => i
  | c :: str => if in_set c set_char then i else strcspn_loop str set_char (i + 1)
  end.

Definition pj_strcspn (str set_char : list Z) : Z := strcspn_loop str set_char 0.
Definition pj_strcspn2 (str set_char : list Z) : Z := strcspn_loop str (c_chars set_char) 0.

(** The result and the token: its offset in [str], if it is set, and length. *)
Definition strtok_with (span cspan : list Z -> Z) (str : list Z) (start_idx : Z) : Z * (option Z * Z) :=
  let slen := Z.of_nat (length str) in
  if (slen <=? 0) || (slen <? start_idx) then (slen, (None, 0)) else
  let tok := drop (Z.to_nat start_idx) str in
  let str_idx := span tok in
  if start_idx + str_idx =? slen then (slen, (Some start_idx, slen - start_idx)) else
  let tok := drop (Z.to_nat str_idx) tok in
  (start_idx + str_idx, (Some (start_idx + str_idx), cspan tok)).

Definition pj_strtok (str delim : list Z) (start_idx : Z) : Z * (option Z * Z) :=
  strtok_with (fun s => pj_strspn s delim) (fun s => pj_strcspn s delim) str start_idx.

Definition pj_strtok2 (str delim : list Z) (start_idx : Z) : Z * (option Z * Z) :=
  strtok_with (fun s => pj_strspn2 s delim) (fun s => pj_strcspn2 s delim) str start_idx.

(** ** Search *)

(** The [for] loop over [s <= ends]: [n] more positions, [off] the offset of
    the first. *)
Fixpoint strstr_loop (n : nat) (test : list Z -> bool) (s : list Z) (off : Z) : option Z :=
  match n with
  | O => None
  | S n => if test s then Some off else strstr_loop n test (tail s) (off + 1)
  end.

Definition pj_strstr (str substr : list Z) : option Z :=
  match str, substr with
  | [], _ => None
  | _, [] => Some 0
  | _, first :: _ =>
      strstr_loop (Z.to_nat (Z.of_nat (length str) - Z.of_nat (length substr) + 1))
        (fun s => match s with
                  | c :: _ => (c =? first) && memcmp_eq s substr (length substr)
                  | [] => false
                  end) str 0
  end.

Definition pj_stristr (str substr : list Z) : option Z :=
  match str, substr with
  | [], _ => None
  | _, [] => Some 0
  | _, first :: _ =>
      strstr_loop (Z.to_nat (Z.of_nat (length str) - Z.of_nat (length substr) + 1))
        (fun s => match s with
                  | c :: _ => (pj_tolower c =? pj_tolower first) && strnicmp_eq s substr (length substr)
                  | [] => false
                  end) str 0
  end.

(** ** Trimming *)

Fixpoint pj_strltrim (str : list Z) : list Z :=
  match str with
  | c :: rest => if pj_isspace c then pj_strltrim rest else str
  | [] => []
  end.

(** The loop moves [p] down from the end; [n] is [p - ptr + 1]. *)
Fixpoint rtrim_loop (str : list Z) (n : nat) : nat :=
  match n with
  | O => O
  | S m => if pj_isspace (nth m str 0) then rtrim_loop str m else n
  end.

Definition pj_strrtrim (str : list Z) : list Z := take (rtrim_loop str (length str)) str.
Definition pj_strtrim (str : list Z) : list Z := pj_strrtrim (pj_strltrim str).

(** ** Numbers *)

Fixpoint strtoul_loop (str : list Z) (value : Z) : Z :=
  match str with
  | [] => value
  | c :: str => if negb (pj_isdigit c) then value else strtoul_loop str (u32 (value * 10 + (c - 48)))
  end.

Definition pj_strtoul (str : list Z) : Z := strtoul_loop str 0.

Definition pj_strtol (str : list Z) : Z :=
  let '(is_negative, uval) :=
    match str with
    | c :: s => if (c =? 43) || (c =? 45) then (c =? 45, pj_strtoul s) else (false, pj_strtoul str)
    | [] => (false, pj_strtoul str)
    end in
  if is_negative : bool then (if PJ_MAXLONG <? uval then PJ_MINLONG else - uval)
  else (if PJ_MAXLONG <? uval then PJ_MAXLONG else uval).

(** The loops of [pj_strtoul2]: the value and the number of characters used. *)
Fixpoint strtoul2_loop (str : list Z) (base : Z) (is_digit : Z -> bool) (to_val : Z -> Z)
    (value i : Z) : Z * Z :=
  match str with
  | [] => (value, i)
  | c :: str =>
      if negb (is_digit c) then (value, i)
      else strtoul2_loop str base is_digit to_val (u32 (value * base + to_val c)) (i + 1)
  end.

(** The value and the offset of [endptr]. *)
Definition pj_strtoul2 (str : list Z) (base : Z) : Z * Z :=
  if base <=? 10 then
    strtoul2_loop str base (fun c => negb (base <=? u32 (c - 48))) (fun c => u32 (c - 48)) 0 0
  else if base =? 16 then strtoul2_loop str 16 pj_isxdigit pj_hex_digit_to_val 0 0
  else (0xFFFFFFFF, 0).

(** The loops of [pj_strtoul3] and [pj_strtoul4]; [max] is the largest value of
    the result type. *)
Fixpoint strtoul3_loop (str : list Z) (max base : Z) (is_digit : Z -> bool) (to_val : Z -> Z)
    (value : Z) : Z * Z :=
  match str with
  | [] => (PJ_SUCCESS, value)
  | ch :: str =>
      if negb (is_digit ch) then (PJ_SUCCESS, value) else
      let c := to_val ch in
      if max / base <? value then (PJ_ETOOBIG, max) else
      let value := value * base in
      if max - value <? c then (PJ_ETOOBIG, max)
      else strtoul3_loop str max base is_digit to_val (value + c)
  end.

(** The status, and [*value] when it is written. *)
Definition strtoul_checked (str : list Z) (max base : Z) : Z * option Z :=
  let s := pj_strltrim str in
  match s with
  | [] => (PJ_EINVAL, None)
  | c :: _ =>
      if (c <? 48) || ((base <=? 10) && (47 + base <? c)) || ((base =? 16) && negb (pj_isxdigit c))
      then (PJ_EINVAL, None)
      else if base <=? 10 then
        let '(st, v) := strtoul3_loop s max base (fun ch => negb ((ch <? 48) || (47 + base <? ch)))
                          (fun ch => ch - 48) 0 in (st, Some v)
      else if base =? 16 then
        let '(st, v) := strtoul3_loop s max base pj_isxdigit pj_hex_digit_to_val 0 in (st, Some v)
      else (PJ_EINVAL, Some 0)
  end.

Definition pj_strtoul3 (str : list Z) (base : Z) : Z * option Z := strtoul_checked str PJ_MAXULONG base.
Definition pj_strtoul4 (str : list Z) (base : Z) : Z * option Z := strtoul_checked str PJ_MAXUINT base.

Definition pj_strtol2 (str : list Z) : Z * option Z :=
  let s := pj_strltrim str in
  match s with
  | [] => (PJ_EINVAL, None)
  | c :: rest =>
      let '(is_negative, s) := if (c =? 43) || (c =? 45) then (c =? 45, rest) else (false, s) in
      let '(rc, retval) := pj_strtoul3 s 10 in
      if rc =? PJ_EINVAL then (rc, None)
      else if negb (rc =? PJ_SUCCESS) then
        (if is_negative then PJ_ETOOSMALL else PJ_ETOOBIG,
         Some (if is_negative then PJ_MINLONG else PJ_MAXLONG))
      else
        let retval := default 0 retval in
        if (PJ_MAXLONG <? retval) && negb is_negative then (PJ_ETOOBIG, Some PJ_MAXLONG)
        else if (PJ_MAXLONG + 1 <? retval) && is_negative then (PJ_ETOOSMALL, Some PJ_MINLONG)
        else if is_negative && (retval =? PJ_MAXLONG + 1) then (PJ_SUCCESS, Some PJ_MINLONG)
        else (PJ_SUCCESS, Some (if is_negative then - retval else retval))
  end.

(** The digits of [val], least significant first. *)
Fixpoint utoa_digits (fuel : nat) (val : Z) : option (list Z) :=
  match fuel with
  | O => None
  | S fuel =>
      let digval := val mod 10 in
      let val := val / 10 in
      if 0 <? val then ds ← utoa_digits fuel val; Some (digval + 48 :: ds)
      else Some [digval + 48]
  end.

(** The [do .. while (buf < p)] that reverses the buffer: [lo] and [hi] are the
    offsets of [buf] and [p]. *)
Fixpoint swap_loop (fuel : nat) (b : list Z) (lo hi : Z) : option (list Z) :=
  match fuel with
  | O => None
  | S fuel =>
      temp ← b.[hi];
      x ← b.[lo];
      b ← b.[hi <- x];
      b ← b.[lo <- temp];
      if lo + 1 <? hi - 1 then swap_loop fuel b (lo + 1) (hi - 1) else Some b
  end.

(** The length, and the characters written, terminator included.  A value of
    64 bits has at most 20 digits. *)
Definition pj_utoa_pad (val min_dig pad : Z) : option (Z * list Z) :=
  ds ← utoa_digits 20 val;
  let ds := ds ++ replicate (Z.to_nat (min_dig - Z.of_nat (length ds))) (u8 pad) in
  b ← swap_loop (S (length ds)) ds 0 (Z.of_nat (length ds) - 1);
  Some (Z.of_nat (length b), b ++ [0]).

Definition pj_utoa (val : Z) : option (Z * list Z) := pj_utoa_pad val 0 0.

(** The same function over [pj_uint_t]. *)
Definition pj_utoa_pad2 (val min_dig pad : Z) : option (Z * list Z) := pj_utoa_pad val min_dig pad.
Definition pj_utoa2 (val : Z) : option (Z * list Z) := pj_utoa_pad2 val 0 0.

(** ** Copying *)

(** The [while (--dst_size && ( *dst = *src ) != 0)] loop: [n] is [dst_size];
    the bytes copied, the rest of the source. *)
Fixpoint strxcpy_loop (n : nat) (src : list Z) : option (list Z * list Z) :=
  match n with
  | O => None
  | S O => Some ([], src)
  | S n =>
      c ← head src;
      if c =? 0 then Some ([], src)
      else '(cs, rest) ← strxcpy_loop n (tail src); Some (c :: cs, rest)
  end.

(** The result and the bytes of [dst], terminator included; both ends of the
    function write a NUL behind what is copied. *)
Definition pj_ansi_strxcpy (src : list Z) (dst_size : Z) : option (Z * list Z) :=
  if dst_size =? 0 then Some (- PJ_ETOOBIG, []) else
  '(cs, rest) ← strxcpy_loop (Z.to_nat dst_size) src;
  c ← head rest;
  Some (if c =? 0 then Z.of_nat (length cs) else - PJ_ETOOBIG, cs ++ [0]).

(** The same loop over a [pj_str_t]. *)
Fixpoint strxcpy2_loop (n : nat) (src : list Z) : list Z * list Z :=
  match src, n with
  | [], _ | _, O | _, S O => ([], src)
  | c :: src', S n =>
      if c =? 0 then ([], src)
      else let '(cs, rest) := strxcpy2_loop n src' in (c :: cs, rest)
  end.

Definition pj_ansi_strxcpy2 (src : list Z) (dst_size : Z) : Z * list Z :=
  if dst_size =? 0 then (- PJ_ETOOBIG, []) else
  let '(cs, rest) := strxcpy2_loop (Z.to_nat dst_size) src in
  (match rest with
   | [] => Z.of_nat (length cs)
   | c :: _ => if c =? 0 then Z.of_nat (length cs) else - PJ_ETOOBIG
   end, cs ++ [0]).

(** The result and the new contents of [dst] up to its terminator. *)
Definition pj_ansi_strxcat (dst src : list Z) (dst_size : Z) : option (Z * list Z) :=
  if dst_size =? 0 then Some (- PJ_ETOOBIG, dst) else
  dst_len ← strlen dst;
  if Z.of_nat dst_len <? dst_size then
    '(rc, out) ← pj_ansi_strxcpy src (dst_size - Z.of_nat dst_len);
    Some (if rc <? 0 then rc else Z.of_nat dst_len + rc, take dst_len dst ++ out)
  else Some (- PJ_ETOOBIG, dst).

(** ** Comparison *)

(** [pj_memcmp] and [pj_ansi_strnicmp]: the sign of the first difference. *)
Fixpoint memcmp (a b : list Z) (n : nat) : Z :=
  match n, a, b with
  | S n, x :: a, y :: b => if x =? y then memcmp a b n else if x <? y then -1 else 1
  | _, _, _ => 0
  end.

Fixpoint strnicmp (a b : list Z) (n : nat) : Z :=
  match n, a, b with
  | S n, x :: a, y :: b =>
      let x := pj_tolower x in let y := pj_tolower y in
      if x =? y then (if x =? 0 then 0 else strnicmp a b n) else if x <? y then -1 else 1
  | _, _, _ => 0
  end.

Definition strcmp_with (cmp : list Z -> list Z -> nat -> Z) (str1 str2 : list Z) : Z :=
  let l1 := length str1 in
  let l2 := length str2 in
  if (l1 =? 0)%nat then (if (l2 =? 0)%nat then 0 else -1)
  else if (l2 =? 0)%nat then 1
  else
    let res := cmp str1 str2 (if (l1 <? l2)%nat then l1 else l2) in
    if res =? 0 then (if (l1 <? l2)%nat then -1 else if (l1 =? l2)%nat then 0 else 1) else res.

Definition pj_strcmp (str1 str2 : list Z) : Z := strcmp_with memcmp str1 str2.
Definition pj_stricmp (str1 str2 : list Z) : Z := strcmp_with strnicmp str1 str2.

Definition clip (s : list Z) (len : nat) : list Z := if (len <? length s)%nat then take len s else s.

Definition pj_strncmp (str1 str2 : list Z) (len : nat) : Z := pj_strcmp (clip str1 len) (clip str2 len).
Definition pj_strnicmp (str1 str2 : list Z) (len : nat) : Z := pj_stricmp (clip str1 len) (clip str2 len).
