(* ===== verification/PjStringSpec.v ===== *)
(** * Strings: specifications

    The number parsers against the value of a numeral, printing against
    parsing, tokens against the split of the whole string, search against the
    first occurrence, the bounded copy against truncation, and comparison
    against the lexicographic order. *)
From S2P Require Import Prelude Interfaces Hash PjString.

(** ** Numerals *)

(** The value of a digit character, if it is a digit of the base. *)
Definition digit_val (base c : Z) : option Z :=
  let v := if (48 <=? c) && (c <=? 57) then c - 48
           else if (65 <=? c) && (c <=? 70) then c - 55
           else if (97 <=? c) && (c <=? 102) then c - 87
           else base in
  if v <? base then Some v else None.

(** The values of the longest prefix of digits. *)
Fixpoint leading_digits (base : Z) (s : list Z) : list Z :=
  match s with
  | [] => []
  | c :: s => match digit_val base c with Some v => v :: leading_digits base s | None => [] end
  end.

Definition numeral (base : Z) (ds : list Z) : Z := foldl (fun v d => v * base + d) 0 ds.

(** What a checked conversion returns for the digits [ds]. *)
Definition checked (max base : Z) (ds : list Z) : Z * option Z :=
  match ds with
  | [] => (PJ_EINVAL, None)
  | _ => if numeral base ds <=? max then (PJ_SUCCESS, Some (numeral base ds)) else (PJ_ETOOBIG, Some max)
  end.

Definition base_ok (base : Z) : Prop := 0 <= base <= 10 \/ base = 16.

(** The digits a loop accepts and their values. *)
Definition reads_digits (base : Z) (is_digit : Z -> bool) (to_val : Z -> Z) : Prop :=
  forall c, digit_val base c = if is_digit c then Some (to_val c) else None.

(** Case analysis on integer comparisons, innermost first. *)
Ltac bool_split :=
  match goal with
  | |- context [?a <=? ?b] => no_if a; destruct (Z.leb_spec a b)
  | |- context [?a <? ?b] => no_if a; destruct (Z.ltb_spec a b)
  | |- context [?a =? ?b] => no_if a; destruct (Z.eqb_spec a b)
  end
with no_if a := lazymatch a with context [if _ then _ else _] => fail | _ => idtac end.

Ltac bool_lia := repeat (bool_split; cbn [andb orb negb]); try done; try lia; try (f_equal; lia).

Lemma decimal_reads base : 0 <= base <= 10 ->
  reads_digits base (fun ch => negb ((ch <? 48) || (47 + base <? ch))) (fun ch => ch - 48).
Proof. intros Hb c. unfold digit_val. bool_lia. Qed.

Lemma land15 v : 0 <= v < 16 -> Z.land v 15 = v.
Proof. intros. change 15 with (Z.ones 4). rewrite Z.land_ones by lia. by apply Z.mod_small. Qed.

Lemma hex_reads : reads_digits 16 pj_isxdigit pj_hex_digit_to_val.
Proof.
  intros c. unfold digit_val, pj_isxdigit, pj_isdigit, pj_hex_digit_to_val.
  bool_lia; f_equal; rewrite land15; lia.
Qed.

Lemma leading_digits_bound base s : Forall (fun d => 0 <= d < base) (leading_digits base s).
Proof.
  induction s as [|c s IH]; simpl; [done|]. destruct (digit_val base c) as [v|] eqn:E; [|done].
  constructor; [|done]. revert E. unfold digit_val. bool_lia; intros; simplify_eq; lia.
Qed.

Lemma foldl_numeral_mono base ds v w :
  0 <= base -> Forall (fun d => 0 <= d < base) ds -> v <= w ->
  foldl (fun v d => v * base + d) v ds <= foldl (fun v d => v * base + d) w ds.
Proof. intros Hb Hds. revert v w. induction Hds; intros v w Hvw; simpl; [done|]. apply IHHds. nia. Qed.

Lemma foldl_numeral_ge base ds v :
  1 <= base -> Forall (fun d => 0 <= d < base) ds -> 0 <= v ->
  v <= foldl (fun v d => v * base + d) v ds.
Proof.
  intros Hb Hds. revert v. induction Hds as [|d ds Hd _ IH]; intros v Hv; simpl; [done|].
  etrans; [|apply IH]; nia.
Qed.

(** The checked loop computes the numeral, and notices that it exceeds the
    largest value before any product or sum does. *)
Lemma strtoul3_loop_spec max base is_digit to_val s v :
  1 <= base -> 0 <= v <= max -> reads_digits base is_digit to_val ->
  strtoul3_loop s max base is_digit to_val v =
    let r := foldl (fun v d => v * base + d) v (leading_digits base s) in
    if r <=? max then (PJ_SUCCESS, r) else (PJ_ETOOBIG, max).
Proof.
  intros Hb Hv Hr. revert v Hv. induction s as [|c s IH]; intros v Hv; simpl.
  { destruct (Z.leb_spec v max); [done|lia]. }
  pose proof (leading_digits_bound base (c :: s)) as Hall. simpl in Hall. rewrite (Hr c) in Hall.
  rewrite !(Hr c).
  destruct (is_digit c); simpl in *; [|destruct (Z.leb_spec v max); [done|lia]].
  inversion_clear Hall as [|?? Hd Hds].
  assert (forall k, max < k -> 0 <= k ->
    (if foldl (fun v d => v * base + d) k (leading_digits base s) <=? max
     then (PJ_SUCCESS, foldl (fun v d => v * base + d) k (leading_digits base s))
     else (PJ_ETOOBIG, max)) = (PJ_ETOOBIG, max)) as Hover.
  { intros k Hk Hk0. pose proof (foldl_numeral_ge base _ k Hb Hds Hk0).
    destruct (Z.leb_spec (foldl (fun v d => v * base + d) k (leading_digits base s)) max); [lia|done]. }
  destruct (Z.ltb_spec (max / base) v) as [Hq|Hq].
  - rewrite Hover; [done| |nia]. pose proof (Z.mul_succ_div_gt max base). nia.
  - destruct (Z.ltb_spec (max - v * base) (to_val c)).
    + rewrite Hover; [done|lia|nia].
    + apply IH. nia.
Qed.

Lemma strtoul_checked_spec str max base :
  base_ok base -> 0 <= max ->
  strtoul_checked str max base = checked max base (leading_digits base (pj_strltrim str)).
Proof.
  intros Hbase Hmax. unfold strtoul_checked. destruct (pj_strltrim str) as [|c s]; [done|].
  assert (((c <? 48) || ((base <=? 10) && (47 + base <? c)) || ((base =? 16) && negb (pj_isxdigit c)))
          = bool_decide (digit_val base c = None)) as ->.
  { destruct Hbase as [Hb| ->].
    - rewrite (decimal_reads base Hb c). bool_lia; case_bool_decide; simplify_eq; lia || done.
    - rewrite (hex_reads c). unfold pj_isxdigit, pj_isdigit. bool_lia; case_bool_decide; simplify_eq; lia || done. }
  case_bool_decide as Hc; simpl; [by rewrite Hc|].
  destruct (digit_val base c) as [d|] eqn:E; [|done].
  assert (1 <= base) by (revert E; unfold digit_val; bool_lia; intros; simplify_eq; lia).
  assert (forall is_digit to_val, reads_digits base is_digit to_val ->
    (let '(st, v) := strtoul3_loop (c :: s) max base is_digit to_val 0 in (st, Some v)) =
    checked max base (d :: leading_digits base s)) as Hloop.
  { intros is_digit to_val Hr. rewrite strtoul3_loop_spec by first [done|lia].
    cbv zeta. cbn [leading_digits]. rewrite E. unfold checked, numeral.
    by destruct (_ <=? max). }
  destruct Hbase as [Hb| ->]; [|exact (Hloop _ _ hex_reads)].
  destruct (Z.leb_spec base 10); [|lia]. exact (Hloop _ _ (decimal_reads base Hb)).
Qed.

(** The checked conversions to [unsigned long] and [pj_uint_t] are exact:
    after leading spaces, the longest run of digits of the base is read; no
    digit at all is [PJ_EINVAL] with the result untouched, a numeral above the
    largest value is [PJ_ETOOBIG] with the result clamped to it, and every other
    numeral is returned. *)
Theorem strtoul_exact str base :
  base_ok base ->
  pj_strtoul3 str base = checked PJ_MAXULONG base (leading_digits base (pj_strltrim str)) /\
  pj_strtoul4 str base = checked PJ_MAXUINT base (leading_digits base (pj_strltrim str)).
Proof. intros. split; by apply strtoul_checked_spec. Qed.

(** 0x1_0000_0000 fits [pj_uint_t] and not [unsigned long]. *)
Lemma strtoul_exact_witness :
  pj_strtoul3 [32; 49; 48; 48; 48; 48; 48; 48; 48; 48; 122] 16 = (PJ_ETOOBIG, Some PJ_MAXULONG) /\
  pj_strtoul4 [32; 49; 48; 48; 48; 48; 48; 48; 48; 48; 122] 16 = (PJ_SUCCESS, Some (2 ^ 32)).
Proof.
  destruct (strtoul_exact [32; 49; 48; 48; 48; 48; 48; 48; 48; 48; 122] 16) as [-> ->];
    [by right|]. split; reflexivity.
Defined.

(** The sign and what follows it. *)
Definition sign_split (s : list Z) : bool * list Z :=
  match s with
  | c :: rest => if (c =? 43) || (c =? 45) then (c =? 45, rest) else (false, s)
  | [] => (false, s)
  end.

Definition signed_numeral (neg : bool) (ds : list Z) : Z :=
  if neg then - numeral 10 ds else numeral 10 ds.

Definition checked_signed (neg : bool) (ds : list Z) : Z * option Z :=
  let v := signed_numeral neg ds in
  match ds with
  | [] => (PJ_EINVAL, None)
  | _ => if v <? PJ_MINLONG then (PJ_ETOOSMALL, Some PJ_MINLONG)
         else if PJ_MAXLONG <? v then (PJ_ETOOBIG, Some PJ_MAXLONG)
         else (PJ_SUCCESS, Some v)
  end.

Lemma numeral_nonneg base s : 1 <= base -> 0 <= numeral base (leading_digits base s).
Proof.
  intros. apply (foldl_numeral_ge base (leading_digits base s) 0); [done| |done].
  apply leading_digits_bound.
Qed.

(** [pj_strtol2] is exact: after leading spaces and one optional sign (and
    spaces behind it), the signed value of the longest run of decimal digits is
    returned when it is a [long], including the least one; otherwise the result
    is clamped to the nearest [long] and the status says on which side. *)
Theorem strtol2_exact str :
  let '(neg, s) := sign_split (pj_strltrim str) in
  pj_strtol2 str = checked_signed neg (leading_digits 10 (pj_strltrim s)).
Proof.
  destruct (sign_split (pj_strltrim str)) as [neg s] eqn:Es.
  pose proof (strtoul_checked_spec s PJ_MAXULONG 10 ltac:(left; lia) ltac:(done)) as Hs.
  unfold pj_strtol2, pj_strtoul3.
  destruct (pj_strltrim str) as [|c rest] eqn:Et; [by injection Es as <- <-|].
  simpl in Es. rewrite Es, Hs. clear Es Hs.
  pose proof (numeral_nonneg 10 (pj_strltrim s) ltac:(lia)) as Hn.
  unfold checked, checked_signed, signed_numeral.
  destruct (leading_digits 10 (pj_strltrim s)) as [|d ds]; [done|].
  revert Hn. generalize (numeral 10 (d :: ds)). intros n Hn.
  unfold PJ_MAXULONG, PJ_MINLONG, PJ_MAXLONG in *.
  destruct (Z.leb_spec n (2 ^ 32 - 1)); cbn -[Z.pow Z.opp Z.sub Z.add]; destruct neg; simpl;
    rewrite ?andb_true_r, ?andb_false_r; bool_lia; first [exfalso; lia|do 2 f_equal; lia].
Qed.

(** ** Printing *)

(** The swaps reverse the segment between the two pointers. *)
Lemma swap_loop_spec fuel pre mid post :
  mid <> [] -> (length mid <= 2 * fuel)%nat ->
  swap_loop fuel (pre ++ mid ++ post) (Z.of_nat (length pre))
    (Z.of_nat (length pre + length mid) - 1) = Some (pre ++ reverse mid ++ post).
Proof.
  revert pre mid post. induction fuel as [|fuel IH]; intros pre mid post Hne Hf.
  { destruct mid; simpl in *; [done|lia]. }
  destruct mid as [|x mid _] using rev_ind; [done|]. clear Hne.
  destruct mid as [|y mid].
  - cbn [swap_loop app length]. replace (Z.of_nat (length pre + 1) - 1) with (Z.of_nat (length pre)) by lia.
    rewrite arr_get_nat, lookup_app_r, Nat.sub_diag by lia. simpl.
    rewrite arr_set_in by (rewrite length_app; simpl; lia). simpl.
    rewrite Nat2Z.id, insert_app_r_alt, Nat.sub_diag by lia. simpl.
    rewrite arr_set_in by (rewrite length_app; simpl; lia). simpl.
    rewrite Nat2Z.id, insert_app_r_alt, Nat.sub_diag by lia. simpl.
    destruct (Z.ltb_spec (Z.of_nat (length pre) + 1) (Z.of_nat (length pre) - 1)); [lia|done].
  - rewrite length_app in *. cbn [length] in *.
    remember (length pre + S (length mid))%nat as k eqn:Ek.
    replace (Z.of_nat (length pre + (S (length mid) + 1)) - 1) with (Z.of_nat k) by lia.
    assert (forall a b, pre ++ ((a :: mid) ++ [b]) ++ post = (pre ++ a :: mid) ++ b :: post) as Eq
      by (intros; by rewrite <- !app_assoc).
    assert (forall a, length (pre ++ a :: mid) = k) as Hk by (intros; rewrite length_app; done).
    cbn [swap_loop]. rewrite !arr_get_nat, Eq.
    assert (((pre ++ y :: mid) ++ x :: post) !! k = Some x) as ->
      by (rewrite lookup_app_r, Hk, Nat.sub_diag; [done|rewrite Hk; lia]).
    assert (((pre ++ y :: mid) ++ x :: post) !! length pre = Some y) as ->
      by (rewrite <- app_assoc, lookup_app_r, Nat.sub_diag; [done|lia]).
    simpl.
    rewrite arr_set_in by (rewrite length_app, Hk; simpl; lia). simpl.
    rewrite Nat2Z.id, insert_app_r_alt, Hk, Nat.sub_diag by (rewrite Hk; lia). simpl.
    rewrite arr_set_in by (rewrite length_app, Hk; simpl; lia). simpl.
    rewrite Nat2Z.id, <- app_assoc, insert_app_r_alt, Nat.sub_diag by lia. simpl.
    rewrite reverse_cons, reverse_app, reverse_singleton. simpl.
    destruct (Z.ltb_spec (Z.of_nat (length pre) + 1) (Z.of_nat k - 1)).
    + specialize (IH (pre ++ [x]) mid (y :: post)).
      rewrite length_app, <- !app_assoc in IH. simpl in IH.
      replace (Z.of_nat (length pre) + 1) with (Z.of_nat (length pre + 1)) by lia.
      replace (Z.of_nat k - 1) with (Z.of_nat (length pre + 1 + length mid) - 1) by lia.
      rewrite <- app_assoc. simpl. rewrite IH; [done| |lia]. intros ->. simpl in *. lia.
    + destruct mid as [|m [|]]; simpl in *; [done|done|lia].
Qed.

Abbreviation decimal := (fun c => 48 <= c <= 57).
Abbreviation values s := (map (fun c => c - 48) s).

Lemma numeral_snoc base ds d : numeral base (ds ++ [d]) = numeral base ds * base + d.
Proof. unfold numeral. by rewrite foldl_app. Qed.

(** The first loop of [pj_utoa_pad] finds the digits, least significant first. *)
Lemma utoa_digits_spec fuel val :
  0 <= val < 10 ^ Z.of_nat fuel -> (0 < fuel)%nat ->
  exists ds, utoa_digits fuel val = Some ds /\ Forall decimal ds /\
    numeral 10 (values (reverse ds)) = val /\ ds <> [] /\
    (val <> 0 -> last ds <> Some 48) /\ (val = 0 -> ds = [48]).
Proof.
  revert val. induction fuel as [|fuel IH]; intros val Hv Hf; [lia|].
  pose proof (Z.div_mod val 10). pose proof (Z.mod_pos_bound val 10). cbn [utoa_digits].
  destruct (Z.ltb_spec 0 (val / 10)) as [Hd|Hd].
  - assert (val / 10 < 10 ^ Z.of_nat fuel).
    { apply Z.div_lt_upper_bound; [lia|]. rewrite Nat2Z.inj_succ, Z.pow_succ_r in Hv; lia. }
    destruct fuel as [|fuel]; [simpl in *; lia|].
    destruct (IH (val / 10)) as (ds & -> & Hds & Hn & Hne & Hl & _); [lia|lia|].
    exists (val mod 10 + 48 :: ds). split; [done|]. split_and!; [| |done| |].
    + constructor; [lia|done].
    + rewrite reverse_cons, map_app. simpl. rewrite numeral_snoc, Hn. lia.
    + intros _. rewrite last_cons. destruct (last ds) eqn:E; [apply Hl; lia|].
      by apply last_None in E.
    + intros ->. simpl in Hd. lia.
  - assert (val / 10 = 0) by (pose proof (Z.div_pos val 10); lia).
    exists [val mod 10 + 48]. split; [done|]. split_and!; [| |done| |].
    + constructor; [lia|done].
    + unfold numeral. simpl. lia.
    + intros ? [=]. lia.
    + intros ->. done.
Qed.

Lemma utoa_digits_length fuel val ds : utoa_digits fuel val = Some ds -> (length ds <= fuel)%nat.
Proof.
  revert val ds. induction fuel as [|fuel IH]; intros val ds; [done|]. cbn [utoa_digits].
  destruct (0 <? val / 10); [|intros [= <-]; simpl; lia]. intros H. bind_inv H. simplify_eq. simpl. apply IH in E. lia.
Qed.

Lemma decimal_leading s : Forall decimal s -> leading_digits 10 (pj_strltrim s) = values s.
Proof.
  intros Hs. assert (pj_strltrim s = s) as ->.
  { destruct Hs as [|c s Hc Hs]; [done|]. simpl. unfold pj_isspace. bool_lia. }
  induction Hs as [|c s Hc Hs IH]; [done|]. simpl.
  assert (digit_val 10 c = Some (c - 48)) as -> by (unfold digit_val; bool_lia). by rewrite IH.
Qed.

Lemma decimal_parse s max val :
  Forall decimal s -> s <> [] -> numeral 10 (values s) = val -> 0 <= val <= max ->
  strtoul_checked s max 10 = (PJ_SUCCESS, Some val).
Proof.
  intros Hs Hne Hn Hv. rewrite strtoul_checked_spec by (lia || (left; lia)).
  rewrite decimal_leading by done. unfold checked. rewrite Hn.
  destruct s; [done|]. simpl. destruct (Z.leb_spec val max); [done|lia].
Qed.

Lemma utoa_pad_spec val min_dig pad :
  0 <= val < 2 ^ 64 -> 0 <= pad < 256 ->
  exists s, pj_utoa_pad val min_dig pad =
      Some (Z.max min_dig (Z.of_nat (length s)),
            replicate (Z.to_nat (min_dig - Z.of_nat (length s))) pad ++ s ++ [0]) /\
    Forall decimal s /\ s <> [] /\ numeral 10 (values s) = val /\
    (val <> 0 -> head s <> Some 48) /\ (val = 0 -> s = [48]) /\ (length s <= 20)%nat.
Proof.
  intros Hv Hp. destruct (utoa_digits_spec 20 val) as (ds & Hds & Hall & Hn & Hne & Hl & H0); [lia|lia|].
  exists (reverse ds). unfold pj_utoa_pad. rewrite Hds. cbn [mbind option_bind]. cbv beta zeta.
  rewrite u8_small by done.
  set (pads := replicate (Z.to_nat (min_dig - Z.of_nat (length ds))) pad).
  pose proof (swap_loop_spec (S (length (ds ++ pads))) [] (ds ++ pads) []) as Hs.
  cbn [app length Nat.add] in Hs. rewrite !app_nil_r in Hs. change (Z.of_nat 0) with 0 in Hs.
  rewrite Hs by (try (destruct ds; done); lia).
  cbn [mbind option_bind]. rewrite reverse_app, length_app, !length_reverse.
  unfold pads. rewrite reverse_replicate, <- app_assoc, length_replicate.
  split_and!; [f_equal; f_equal; lia| by apply Forall_reverse| | done | | |].
  - intros E. apply Hne. by rewrite <- (reverse_involutive ds), E.
  - by rewrite head_reverse.
  - intros E. by rewrite (H0 E).
  - by apply utoa_digits_length in Hds.
Qed.

(** Printing round-trips through parsing: [pj_utoa_pad] and [pj_utoa_pad2]
    write the shortest decimal numeral, behind the padding that brings it to
    [min_dig] characters and in front of a terminator, return the number of
    characters, and [pj_strtoul3] or [pj_strtoul4] of the numeral is the
    number. *)
Theorem utoa_roundtrip val min_dig pad :
  0 <= val <= PJ_MAXUINT -> 0 <= pad < 256 ->
  exists s,
    let out := Some (Z.max min_dig (Z.of_nat (length s)),
                     replicate (Z.to_nat (min_dig - Z.of_nat (length s))) pad ++ s ++ [0]) in
    pj_utoa_pad2 val min_dig pad = out /\ pj_strtoul4 s 10 = (PJ_SUCCESS, Some val) /\
    (val <= PJ_MAXULONG ->
     pj_utoa_pad val min_dig pad = out /\ pj_strtoul3 s 10 = (PJ_SUCCESS, Some val)) /\
    Forall decimal s /\ (val <> 0 -> head s <> Some 48) /\ (val = 0 -> s = [48]).
Proof.
  intros Hv Hp. destruct (utoa_pad_spec val min_dig pad) as (s & Hu & Hd & Hne & Hn & Hh & H0 & _);
    [unfold PJ_MAXUINT in Hv; lia|done|].
  exists s. split; [done|]. split; [by apply decimal_parse|].
  split; [|done]. intros. split; [done|]. apply decimal_parse; done || lia.
Qed.

Lemma utoa_roundtrip_witness :
  exists s, pj_utoa_pad2 4096 6 48 =
    Some (Z.max 6 (Z.of_nat (length s)),
          replicate (Z.to_nat (6 - Z.of_nat (length s))) 48 ++ s ++ [0]) /\
    pj_strtoul4 s 10 = (PJ_SUCCESS, Some 4096).
Proof.
  destruct (utoa_roundtrip 4096 6 48) as (s & H1 & H2 & _);
    [split; by vm_compute|lia|]. by exists s.
Defined.

(** ** Tokens *)

Fixpoint span_while (p : Z -> bool) (s : list Z) : list Z :=
  match s with
  | [] => []
  | c :: s => if p c then c :: span_while p s else []
  end.

Lemma span_while_app p s :
  exists r, s = span_while p s ++ r /\ (forall c, head r = Some c -> p c = false).
Proof.
  induction s as [|c s (r & Hs & Hr)]; simpl; [by exists []|].
  destruct (p c) eqn:E; [exists r; split; [by rewrite Hs at 1|done]|].
  exists (c :: s). split; [done|]. by intros ? [= <-].
Qed.

Lemma span_while_all p s : Forall (fun c => p c = true) (span_while p s).
Proof. induction s as [|c s IH]; simpl; [done|]. destruct (p c) eqn:E; by constructor. Qed.

Lemma strspn_loop_spec str set i :
  strspn_loop str set i i = i + Z.of_nat (length (span_while (fun c => in_set c set) str)).
Proof.
  revert i. induction str as [|c str IH]; intros i; simpl; [lia|].
  rewrite Z.eqb_refl. simpl. destruct (in_set c set); [rewrite IH; simpl; lia|].
  destruct str; simpl; [lia|]. destruct (Z.eqb_spec i (i + 1)); simpl; lia.
Qed.

Lemma strcspn_loop_spec str set i :
  strcspn_loop str set i = i + Z.of_nat (length (span_while (fun c => negb (in_set c set)) str)).
Proof.
  revert i. induction str as [|c str IH]; intros i; simpl; [lia|].
  destruct (in_set c set); simpl; [lia|]. rewrite IH. lia.
Qed.

(** The words of a string: the runs of characters between delimiters. *)
Definition flush (w : list Z) : list (list Z) := match w with [] => [] | _ => [w] end.

Fixpoint words (p : Z -> bool) (s cur : list Z) : list (list Z) :=
  match s with
  | [] => flush cur
  | c :: s => if p c then flush cur ++ words p s [] else words p s (cur ++ [c])
  end.

(** The loop over the tokens of [str] that callers write around the function:
    start at 0, continue behind each token until the length is returned. *)
Fixpoint all_tokens (fuel : nat) (strtok : Z -> Z * (option Z * Z)) (str : list Z) (start : Z)
    : option (list (list Z)) :=
  match fuel with
  | O => None
  | S fuel =>
      let slen := Z.of_nat (length str) in
      let '(idx, (_, len)) := strtok start in
      if idx =? slen then Some []
      else if (0 <=? idx) && (0 <=? len) && (idx + len <=? slen) then
        ts ← all_tokens fuel strtok str (idx + len);
        Some (take (Z.to_nat len) (drop (Z.to_nat idx) str) :: ts)
      else None
  end.

Lemma words_skip p w s :
  Forall (fun c => p c = true) w -> words p (w ++ s) [] = words p s [].
Proof. induction 1 as [|c w Hc _ IH]; simpl; [done|]. by rewrite Hc. Qed.

Lemma words_take p w s cur :
  Forall (fun c => negb (p c) = true) w -> words p (w ++ s) cur = words p s (cur ++ w).
Proof.
  intros Hw. revert cur. induction Hw as [|c w Hc _ IH]; intros cur; simpl; [by rewrite app_nil_r|].
  apply negb_true_iff in Hc. rewrite Hc, IH, <- app_assoc. done.
Qed.

Lemma words_flush p s cur :
  (forall c, head s = Some c -> negb (p c) = false) -> words p s cur = flush cur ++ words p s [].
Proof.
  destruct s as [|c s]; simpl; [by rewrite app_nil_r|]. intros H.
  specialize (H c eq_refl). apply negb_false_iff in H. by rewrite H.
Qed.

(** What one call finds from [start] on, [w] being what it skips. *)
Lemma strtok_step set str start :
  0 <= start <= Z.of_nat (length str) ->
  exists w t r, drop (Z.to_nat start) str = w ++ t ++ r /\
    Forall (fun c => in_set c set = true) w /\ Forall (fun c => negb (in_set c set) = true) t /\
    (forall c, head r = Some c -> negb (in_set c set) = false) /\ (t = [] -> r = []) /\
    forall res, strtok_with (fun s => pj_strspn s set) (fun s => pj_strcspn s set) str start = res ->
      fst res = start + Z.of_nat (length w) /\
      (t <> [] -> snd res = (Some (fst res), Z.of_nat (length t))).
Proof.
  intros Hst. set (s := drop (Z.to_nat start) str).
  destruct (span_while_app (fun c => in_set c set) s) as (s' & Hs & Hs').
  destruct (span_while_app (fun c => negb (in_set c set)) s') as (r & Ht & Hr).
  pose proof (span_while_all (fun c => in_set c set) s) as Hw.
  pose proof (span_while_all (fun c => negb (in_set c set)) s') as Hn.
  assert (pj_strspn s set = Z.of_nat (length (span_while (fun c => in_set c set) s))) as Hspn
    by (unfold pj_strspn; rewrite strspn_loop_spec; lia).
  assert (pj_strcspn s' set = Z.of_nat (length (span_while (fun c => negb (in_set c set)) s'))) as Hcspn
    by (unfold pj_strcspn; rewrite strcspn_loop_spec; lia).
  revert Hs Ht Hw Hn Hspn Hcspn. generalize (span_while (fun c => in_set c set) s).
  generalize (span_while (fun c => negb (in_set c set)) s').
  intros t w Hs Ht Hw Hn Hspn Hcspn. exists w, t, r. subst s'.
  assert (t = [] -> r = []) as Htr.
  { intros ->. destruct r as [|c r]; [done|]. specialize (Hs' c eq_refl). specialize (Hr c eq_refl).
    by rewrite Hs' in Hr. }
  split_and!; try done. intros res <-. unfold strtok_with.
  assert (length s = (length str - Z.to_nat start)%nat) as Hlen by apply length_drop.
  assert (length s = (length w + length (t ++ r))%nat) as Hlen' by (rewrite Hs, length_app; done).
  destruct ((Z.of_nat (length str) <=? 0) || (Z.of_nat (length str) <? start)) eqn:E.
  { apply orb_true_iff in E as [?%Z.leb_le|?%Z.ltb_lt]; [|lia]. simpl. split; [lia|].
    intros Hne. destruct t; [done|]. simpl in *. lia. }
  fold s. rewrite Hspn. destruct (Z.eqb_spec (start + Z.of_nat (length w)) (Z.of_nat (length str))).
  - simpl. split; [lia|]. intros Hne. destruct t; [done|]. simpl in *. lia.
  - simpl. split; [done|]. intros _. f_equal. rewrite Nat2Z.id, Hs, drop_app_length. done.
Qed.

Lemma all_tokens_spec set str fuel start :
  0 <= start <= Z.of_nat (length str) -> (length str - Z.to_nat start < fuel)%nat ->
  all_tokens fuel (strtok_with (fun s => pj_strspn s set) (fun s => pj_strcspn s set) str) str start =
  Some (words (fun c => in_set c set) (drop (Z.to_nat start) str) []).
Proof.
  revert start. induction fuel as [|fuel IH]; intros start Hst Hf; [lia|]. cbn [all_tokens].
  destruct (strtok_step set str start Hst) as (w & t & r & Hs & Hw & Ht & Hr & Htr & Hres).
  destruct (strtok_with _ _ str start) as [idx [off len]].
  destruct (Hres _ eq_refl) as [Hidx Hsnd]. clear Hres. cbn [fst snd] in *. subst idx.
  pose proof (f_equal length Hs) as Hlen. rewrite length_drop, !length_app in Hlen.
  rewrite Hs, words_skip by done.
  destruct (Z.eqb_spec (start + Z.of_nat (length w)) (Z.of_nat (length str))) as [E|E].
  { destruct t; [|simpl in *; lia]. by rewrite (Htr eq_refl). }
  assert (t <> []) as Hne.
  { intros ->. rewrite (Htr eq_refl) in Hlen. simpl in Hlen. lia. }
  specialize (Hsnd Hne). injection Hsnd as -> ->.
  assert (0 < length t)%nat by (destruct t; [done|simpl; lia]).
  assert ((0 <=? start + Z.of_nat (length w)) && (0 <=? Z.of_nat (length t)) &&
    (start + Z.of_nat (length w) + Z.of_nat (length t) <=? Z.of_nat (length str)) = true) as ->
    by bool_lia.
  assert (drop (Z.to_nat (start + Z.of_nat (length w))) str = t ++ r) as Hdt.
  { replace (Z.to_nat (start + Z.of_nat (length w))) with (Z.to_nat start + length w)%nat by lia.
    by rewrite <- drop_drop, Hs, drop_app_length. }
  rewrite IH by lia. cbn [mbind option_bind]. rewrite Hdt, Nat2Z.id, take_app_length.
  rewrite words_take by done. simpl. rewrite (words_flush _ r t) by done.
  replace (Z.to_nat (start + Z.of_nat (length w) + Z.of_nat (length t)))
    with (Z.to_nat (start + Z.of_nat (length w)) + length t)%nat by lia.
  rewrite <- drop_drop, Hdt, drop_app_length.
  destruct t; [done|]. done.
Qed.

(** Calling [pj_strtok] or [pj_strtok2] from index 0 and then from behind
    each token until the length of the string is returned yields exactly the
    words of the string, in order, every token lies inside the string, and the
    loop ends after at most one call per character and one more. *)
Theorem strtok_enumerates_words str delim :
  all_tokens (S (length str)) (pj_strtok str delim) str 0 =
    Some (words (fun c => in_set c delim) str []) /\
  all_tokens (S (length str)) (pj_strtok2 str delim) str 0 =
    Some (words (fun c => in_set c (c_chars delim)) str []).
Proof. split; apply (all_tokens_spec _ str (S (length str)) 0); simpl; lia. Qed.

(** ** Search *)

(** [sub] occurs in [str] at offset [off], characters compared after [f]. *)
Definition occurs (f : Z -> Z) (str sub : list Z) (off : Z) : Prop :=
  0 <= off /\ off + Z.of_nat (length sub) <= Z.of_nat (length str) /\
  map f (take (length sub) (drop (Z.to_nat off) str)) = map f sub.

Definition first_occurrence (f : Z -> Z) (str sub : list Z) (r : option Z) : Prop :=
  match r with
  | Some off => occurs f str sub off /\ forall j, occurs f str sub j -> off <= j
  | None => str = [] \/ forall j, ~ occurs f str sub j
  end.

Lemma strstr_loop_spec n test s off :
  match strstr_loop n test s off with
  | Some r => exists k, (k < n)%nat /\ r = off + Z.of_nat k /\ test (drop k s) = true /\
                forall j, (j < k)%nat -> test (drop j s) = false
  | None => forall j, (j < n)%nat -> test (drop j s) = false
  end.
Proof.
  revert s off. induction n as [|n IH]; intros s off; simpl; [lia|].
  destruct (test s) eqn:E.
  { exists 0%nat. split; [lia|]. split; [lia|]. split; [done|]. lia. }
  specialize (IH (tail s) (off + 1)).
  assert (forall j, drop j (tail s) = drop (S j) s) as Hd by (intros j; destruct s; [by destruct j|done]).
  destruct (strstr_loop n test (tail s) (off + 1)) as [r|].
  - destruct IH as (k & Hk & -> & Ht & Hj). exists (S k). rewrite Hd in Ht.
    split; [lia|]. split; [lia|]. split; [done|].
    intros [|j] Hlt; [done|]. rewrite <- Hd. apply Hj. lia.
  - intros [|j] Hlt; [done|]. rewrite <- Hd. apply IH. lia.
Qed.

Lemma memcmp_eq_prefix s sub :
  memcmp_eq s sub (length sub) = true <-> map id (take (length sub) s) = map id sub.
Proof.
  rewrite !map_id. revert s. induction sub as [|c sub IH]; intros [|x s]; simpl; try done.
  rewrite andb_true_iff, Z.eqb_eq, IH. split; [by intros [-> ->]|by intros [= -> ->]].
Qed.

Lemma tolower_nonzero c : c <> 0 -> pj_tolower c <> 0.
Proof. unfold pj_tolower. bool_lia. Qed.

Lemma strnicmp_eq_prefix s sub :
  0 ∉ sub ->
  strnicmp_eq s sub (length sub) = true <-> map pj_tolower (take (length sub) s) = map pj_tolower sub.
Proof.
  revert s. induction sub as [|c sub IH]; intros [|x s] Hz; simpl; try done.
  rewrite not_elem_of_cons in Hz. destruct Hz as [Hc Hz].
  rewrite andb_true_iff, orb_true_iff, !Z.eqb_eq, IH by done.
  pose proof (tolower_nonzero c ltac:(congruence)). split.
  - intros [E [?| ->]]; [congruence|by rewrite E].
  - intros [= -> ->]. auto.
Qed.

Lemma strstr_first f str sub test :
  str <> [] -> sub <> [] ->
  (forall s, test s = true <-> map f (take (length sub) s) = map f sub) ->
  first_occurrence f str sub
    (strstr_loop (Z.to_nat (Z.of_nat (length str) - Z.of_nat (length sub) + 1)) test str 0).
Proof.
  intros Hs Hsub Ht. pose proof (strstr_loop_spec
    (Z.to_nat (Z.of_nat (length str) - Z.of_nat (length sub) + 1)) test str 0) as H.
  destruct (strstr_loop _ test str 0) as [r|]; simpl.
  - destruct H as (k & Hk & -> & Hm & Hj). split.
    + split; [lia|]. split; [lia|]. rewrite Z.add_0_l, Nat2Z.id. by apply Ht.
    + intros j (? & ? & Hm'). destruct (Z.le_gt_cases (0 + Z.of_nat k) j) as [|Hlt]; [done|].
      apply Ht in Hm'. rewrite Hj in Hm'; [done|lia].
  - right. intros j (? & ? & Hm'). apply Ht in Hm'. rewrite H in Hm'; [done|lia].
Qed.

Lemma occurs_empty f str : str <> [] -> first_occurrence f str [] (Some 0).
Proof.
  intros. split; [|by intros j (? & _)]. split; [lia|]. split; [simpl; lia|]. done.
Qed.

(** [pj_strstr] finds the first occurrence of the substring in a string
    that is not empty, and nothing when there is none; [pj_stristr] does the same up
    to the case of letters, for a substring without NUL characters. *)
Theorem strstr_finds_first str sub :
  0 ∉ sub ->
  first_occurrence id str sub (pj_strstr str sub) /\
  first_occurrence pj_tolower str sub (pj_stristr str sub).
Proof.
  intros Hz. unfold pj_strstr, pj_stristr.
  destruct str as [|x str]; [by split; left|]. destruct sub as [|c sub]; [by split; apply occurs_empty|].
  split; apply strstr_first; try done; intros s;
    (rewrite <- memcmp_eq_prefix || rewrite <- strnicmp_eq_prefix by done);
    destruct s; simpl; rewrite ?andb_true_iff; tauto.
Qed.

(** "an" in "bAnana": at 3, or at 1 up to case. *)
Lemma strstr_finds_first_witness :
  first_occurrence id [98; 65; 110; 97; 110; 97] [97; 110]
    (pj_strstr [98; 65; 110; 97; 110; 97] [97; 110]) /\
  pj_strstr [98; 65; 110; 97; 110; 97] [97; 110] = Some 3 /\
  pj_stristr [98; 65; 110; 97; 110; 97] [97; 110] = Some 1.
Proof.
  split; [|done]. destruct (strstr_finds_first [98; 65; 110; 97; 110; 97] [97; 110]) as [H _]; [|exact H].
  by apply (bool_decide_unpack _).
Defined.

(** ** Bounded copies *)

(** [src] points to the C string [cs]. *)
Definition c_string (src cs : list Z) : Prop := (0 ∉ cs) /\ exists junk, src = cs ++ 0 :: junk.

(** What a copy bounded by [n] leaves in the buffer and returns. *)
Definition truncated (n : Z) (cs : list Z) : list Z :=
  if n =? 0 then [] else take (Z.to_nat n - 1) cs ++ [0].
Definition fits (n : Z) (cs : list Z) : Z :=
  if Z.of_nat (length cs) <? n then Z.of_nat (length cs) else - PJ_ETOOBIG.

Lemma strxcpy_loop_spec n src cs :
  c_string src cs ->
  exists rest c, strxcpy_loop (S n) src = Some (take n cs, rest) /\ head rest = Some c /\
    (c = 0 <-> (length cs <= n)%nat).
Proof.
  intros (Hz & junk & ->). revert cs Hz. induction n as [|n IH]; intros cs Hz.
  - destruct cs as [|c cs]; simpl; [by eexists _, 0|]. eexists _, c. split; [done|]. split; [done|].
    rewrite not_elem_of_cons in Hz. split; [intros ->; tauto|lia].
  - destruct cs as [|c cs]; [by eexists _, 0; simpl; split_and!; [..|split; [lia|]]|].
    rewrite not_elem_of_cons in Hz. destruct (IH cs) as (rest & x & E & Hr & Hx); [tauto|].
    exists rest, x. change (strxcpy_loop (S (S n)) ((c :: cs) ++ 0 :: junk)) with
      (if c =? 0 then Some ([], (c :: cs) ++ 0 :: junk)
       else '(cs, rest) ← strxcpy_loop (S n) (cs ++ 0 :: junk); Some (c :: cs, rest)).
    destruct (Z.eqb_spec c 0); [subst; tauto|]. rewrite E. simpl. split; [done|]. split; [done|].
    rewrite Hx. simpl. lia.
Qed.

Lemma strxcpy_spec src cs n :
  c_string src cs -> 0 <= n -> pj_ansi_strxcpy src n = Some (fits n cs, truncated n cs).
Proof.
  intros Hs Hn. unfold pj_ansi_strxcpy, fits, truncated. destruct (Z.eqb_spec n 0) as [->|].
  { destruct (Z.ltb_spec (Z.of_nat (length cs)) 0); [lia|done]. }
  destruct (strxcpy_loop_spec (Z.to_nat n - 1) src cs Hs) as (rest & c & E & Hr & Hc).
  replace (S (Z.to_nat n - 1)) with (Z.to_nat n) in E by lia. rewrite E. bind_step.
  rewrite Hr. bind_step. destruct (Z.eqb_spec c 0) as [H0|H0].
  - apply Hc in H0. destruct (Z.ltb_spec (Z.of_nat (length cs)) n); [|lia].
    rewrite take_ge by lia. done.
  - destruct (Z.ltb_spec (Z.of_nat (length cs)) n); [|done]. destruct H0. apply Hc. lia.
Qed.

Lemma strxcpy2_loop_spec n src :
  exists rest, strxcpy2_loop (S n) src = (take n (c_chars src), rest) /\
    ((rest = [] \/ head rest = Some 0) <-> (length (c_chars src) <= n)%nat).
Proof.
  revert src. induction n as [|n IH]; intros [|c src]; simpl.
  - exists []. split; [done|]. split; [lia|by left].
  - exists (c :: src). destruct (Z.eqb_spec c 0) as [->|]; simpl; split; try done.
    + split; [lia|by right].
    + split; [intros [|[= ->]]; done|lia].
  - exists []. split; [done|]. split; [lia|by left].
  - destruct (Z.eqb_spec c 0) as [->|]; simpl.
    + eexists. split; [done|]. split; [lia|by right].
    + destruct (IH src) as (rest & E & Hr). exists rest. simpl in E. destruct n; simpl in *;
      [|rewrite E; split; [done|rewrite Hr; lia]].
      destruct src; simpl in *; injection E as <-; split; try done; rewrite Hr; lia.
Qed.

Lemma strxcpy2_spec src n :
  0 <= n -> pj_ansi_strxcpy2 src n = (fits n (c_chars src), truncated n (c_chars src)).
Proof.
  intros Hn. unfold pj_ansi_strxcpy2, fits, truncated. destruct (Z.eqb_spec n 0) as [->|].
  { destruct (Z.ltb_spec (Z.of_nat (length (c_chars src))) 0); [lia|done]. }
  destruct (strxcpy2_loop_spec (Z.to_nat n - 1) src) as (rest & E & Hr).
  replace (S (Z.to_nat n - 1)) with (Z.to_nat n) in E by lia. rewrite E. f_equal.
  destruct (Z.ltb_spec (Z.of_nat (length (c_chars src))) n).
  - rewrite take_ge by lia. destruct Hr as [_ Hr].
    destruct rest as [|c rest]; [done|]. destruct Hr as [|[= ->]]; [lia|done|done].
  - destruct Hr as [Hr _]. destruct rest as [|c rest]; [specialize (Hr (or_introl eq_refl)); lia|].
    destruct (Z.eqb_spec c 0) as [->|]; [specialize (Hr (or_intror eq_refl)); lia|done].
Qed.

Lemma strlen_c_string src cs : c_string src cs -> strlen src = Some (length cs).
Proof.
  intros (Hz & junk & ->). induction cs as [|c cs IH]; simpl; [done|].
  rewrite not_elem_of_cons in Hz. destruct (Z.eqb_spec c 0); [subst; tauto|]. by rewrite IH by tauto.
Qed.

(** The bounded copies never write past [dst_size] bytes, always terminate
    what they write, copy the longest prefix that fits, and return the length of
    the result or [-PJ_ETOOBIG] exactly when the source was cut; concatenation
    does so behind the terminator it finds, and leaves a [dst] that has none within
    the size alone. *)
Theorem strx_bounded dst ds src cs str n :
  c_string dst ds -> c_string src cs -> 0 <= n ->
  Z.of_nat (length (truncated n cs)) <= n /\
  pj_ansi_strxcpy src n = Some (fits n cs, truncated n cs) /\
  pj_ansi_strxcpy2 str n = (fits n (c_chars str), truncated n (c_chars str)) /\
  pj_ansi_strxcat dst src n =
    Some (fits n (ds ++ cs),
          if Z.of_nat (length ds) <? n then truncated n (ds ++ cs) else dst).
Proof.
  intros Hd Hs Hn. split; [|split; [by apply strxcpy_spec|split; [by apply strxcpy2_spec|]]].
  { unfold truncated. destruct (Z.eqb_spec n 0); simpl; [lia|]. rewrite length_app, length_take. simpl. lia. }
  unfold pj_ansi_strxcat. destruct (Z.eqb_spec n 0) as [->|Hn0].
  { unfold fits. rewrite length_app.
    destruct (Z.ltb_spec (Z.of_nat (length ds + length cs)) 0), (Z.ltb_spec (Z.of_nat (length ds)) 0);
      by try lia. }
  rewrite (strlen_c_string dst ds Hd). bind_step.
  destruct (Z.ltb_spec (Z.of_nat (length ds)) n) as [Hlt|Hge].
  - rewrite (strxcpy_spec src cs) by (done || lia). bind_step. f_equal.
    destruct Hd as (_ & junk & ->). rewrite take_app_length. unfold fits, truncated.
    rewrite length_app. f_equal.
    + bool_lia; unfold PJ_ETOOBIG, PJ_ERRNO_START_STATUS in *; lia.
    + bool_lia. rewrite take_app_ge, <- app_assoc by lia. do 3 f_equal. lia.
  - unfold fits. rewrite length_app. bool_lia.
Qed.

(** Appending "xyz" to "ab" in five bytes: one character is lost. *)
Lemma strx_bounded_witness :
  pj_ansi_strxcat [97; 98; 0; 7] [120; 121; 122; 0] 5 = Some (- PJ_ETOOBIG, [97; 98; 120; 121; 0]).
Proof.
  destruct (strx_bounded [97; 98; 0; 7] [97; 98] [120; 121; 122; 0] [120; 121; 122] [] 5)
    as (_ & _ & _ & H); [| |lia|exact H].
  - split; [by apply (bool_decide_unpack _)|by exists [7]].
  - split; [by apply (bool_decide_unpack _)|by exists []].
Defined.

(** ** Comparison *)

Fixpoint lex (a b : list Z) : Z :=
  match a, b with
  | [], [] => 0
  | [], _ => -1
  | _, [] => 1
  | x :: a, y :: b => if x =? y then lex a b else if x <? y then -1 else 1
  end.

(** A comparison of the first [n] characters followed by one of the lengths is
    the lexicographic comparison, characters taken through [f]. *)
Lemma strcmp_with_lex f (ok : Z -> Prop) cmp a b :
  (forall x y a b n, ok x -> cmp (x :: a) (y :: b) (S n) =
     if f x =? f y then cmp a b n else if f x <? f y then -1 else 1) ->
  (forall a b, cmp a b O = 0) -> Forall ok a ->
  strcmp_with cmp a b = lex (map f a) (map f b).
Proof.
  intros Hc H0 Ha. unfold strcmp_with.
  assert (forall a b, Forall ok a ->
    (let res := cmp a b (if (length a <? length b)%nat then length a else length b) in
     if res =? 0 then (if (length a <? length b)%nat then -1 else if (length a =? length b)%nat then 0 else 1)
     else res) = lex (map f a) (map f b)) as Hgen.
  { clear a b Ha. induction a as [|x a IH]; intros [|y b] Ha; simpl; rewrite ?H0; try done.
    inversion_clear Ha as [|?? Hx Ha']. specialize (IH b Ha'). cbn [length] in *.
    change (S (length a) <? S (length b))%nat with (length a <? length b)%nat.
    change (S (length a) =? S (length b))%nat with (length a =? length b)%nat.
    replace (if (length a <? length b)%nat then S (length a) else S (length b)) with
      (S (if (length a <? length b)%nat then length a else length b))
      by (by destruct (length a <? length b)%nat).
    rewrite Hc by done. destruct (f x =? f y); [done|]. by destruct (f x <? f y). }
  rewrite <- (Hgen a b Ha). destruct a, b; simpl; rewrite ?H0; done.
Qed.

Lemma strcmp_lex a b : pj_strcmp a b = lex a b.
Proof.
  unfold pj_strcmp. rewrite (strcmp_with_lex id (fun _ => True)); try done.
  - by rewrite !map_id.
  - by intros [] [].
  - by apply Forall_forall.
Qed.

Lemma stricmp_lex a b : 0 ∉ a -> pj_stricmp a b = lex (map pj_tolower a) (map pj_tolower b).
Proof.
  intros Hz. apply (strcmp_with_lex pj_tolower (fun c => c <> 0)); try done.
  - intros x y a' b' n Hx. simpl. pose proof (tolower_nonzero x Hx).
    destruct (pj_tolower x =? pj_tolower y); [|done]. by destruct (Z.eqb_spec (pj_tolower x) 0).
  - by intros [] [].
  - apply Forall_forall. by intros x Hx ->.
Qed.

Lemma lex_eq a b : lex a b = 0 <-> a = b.
Proof.
  revert b. induction a as [|x a IH]; intros [|y b]; simpl; try done.
  destruct (Z.eqb_spec x y) as [->|Hxy].
  - rewrite IH. split; [by intros ->|by intros [= ->]].
  - destruct (x <? y); split; try done; by intros [= -> ->].
Qed.

Lemma lex_sym a b : lex b a = - lex a b.
Proof.
  revert b. induction a as [|x a IH]; intros [|y b]; simpl; try done.
  rewrite (Z.eqb_sym y x). destruct (Z.eqb_spec x y); [done|]. bool_lia.
Qed.

Lemma lex_trans a b c : lex a b <= 0 -> lex b c <= 0 -> lex a c <= 0.
Proof.
  revert b c. induction a as [|x a IH]; intros [|y b] [|z c]; simpl; try lia.
  destruct (Z.eqb_spec x y) as [->|], (Z.eqb_spec y z) as [->|]; try apply IH; bool_lia.
Qed.

(** [pj_strcmp] is a total order on byte strings whose zero is equality, and
    [pj_stricmp] is the same order on the lower-cased strings when the first holds no
    NUL character; [pj_strncmp] compares the strings cut to [len]. *)
Theorem strcmp_total_order a b c :
  (pj_strcmp a b = 0 <-> a = b) /\ pj_strcmp b a = - pj_strcmp a b /\
  (pj_strcmp a b <= 0 -> pj_strcmp b c <= 0 -> pj_strcmp a c <= 0) /\
  (0 ∉ a -> pj_stricmp a b = pj_strcmp (map pj_tolower a) (map pj_tolower b)) /\
  forall len, pj_strncmp a b len = pj_strcmp (take len a) (take len b).
Proof.
  rewrite !strcmp_lex. split; [apply lex_eq|]. split; [apply lex_sym|]. split; [apply lex_trans|].
  split; [intros; by rewrite ?strcmp_lex, stricmp_lex|].
  intros len. unfold pj_strncmp, clip.
  assert (forall s : list Z, (if (len <? length s)%nat then take len s else s) = take len s) as E.
  { intros s. destruct (Nat.ltb_spec len (length s)); [done|]. by rewrite take_ge. }
  by rewrite !E.
Qed.
