(* ===== verification/RbTree.v ===== *)
(** * Red-black trees

    [pjlib/src/pj/rbtree.c]: search trees whose nodes, with their parent
    pointers, belong to the application.  The nodes are a store by address; the
    sentinel [null_node] of the tree is a node of the store at the address
    [null].  The functions come in pairs that are mirror images of each other:
    [child] and [set_child] take the side as an argument, and each pair is one
    definition used at both sides. *)
From S2P Require Import Prelude.

Inductive pj_rbcolor_t := PJ_RBCOLOR_BLACK | PJ_RBCOLOR_RED.

#[export] Instance pj_rbcolor_eq_dec : EqDecision pj_rbcolor_t.
Proof. solve_decision. Defined.

Record pj_rbtree_node := mk_node {
  n_parent : Z;
  n_left : Z;
  n_right : Z;
  n_key : Z;
  n_user_data : Z;
  n_color : pj_rbcolor_t
}.

Record pj_rbtree := mk_tree {
  nodes : gmap Z pj_rbtree_node;
  null : Z;
  root : Z;
  size : Z
}.

Inductive side := Left | Right.
#[export] Instance side_eq_dec : EqDecision side.
Proof. solve_decision. Defined.
Definition flip (d : side) : side := match d with Left => Right | Right => Left end.

(** ** Reading and writing nodes *)

Definition n_child (d : side) (n : pj_rbtree_node) : Z :=
  match d with Left => n_left n | Right => n_right n end.

Definition with_parent (p : Z) (n : pj_rbtree_node) : pj_rbtree_node :=
  mk_node p (n_left n) (n_right n) (n_key n) (n_user_data n) (n_color n).
Definition with_child (d : side) (p : Z) (n : pj_rbtree_node) : pj_rbtree_node :=
  match d with
  | Left => mk_node (n_parent n) p (n_right n) (n_key n) (n_user_data n) (n_color n)
  | Right => mk_node (n_parent n) (n_left n) p (n_key n) (n_user_data n) (n_color n)
  end.
Definition with_color (c : pj_rbcolor_t) (n : pj_rbtree_node) : pj_rbtree_node :=
  mk_node (n_parent n) (n_left n) (n_right n) (n_key n) (n_user_data n) c.

Definition parent (t : pj_rbtree) (a : Z) : option Z := n_parent <$> nodes t !! a.
Definition child (d : side) (t : pj_rbtree) (a : Z) : option Z := n_child d <$> nodes t !! a.
Definition color (t : pj_rbtree) (a : Z) : option pj_rbcolor_t := n_color <$> nodes t !! a.
Definition node_key (t : pj_rbtree) (a : Z) : option Z := n_key <$> nodes t !! a.

Definition set_nodes (t : pj_rbtree) (m : gmap Z pj_rbtree_node) : pj_rbtree :=
  mk_tree m (null t) (root t) (size t).
Definition set_root (t : pj_rbtree) (a : Z) : pj_rbtree := mk_tree (nodes t) (null t) a (size t).
Definition set_size (t : pj_rbtree) (n : Z) : pj_rbtree := mk_tree (nodes t) (null t) (root t) n.

(** A write to a field of a node; there is none to write to at a stale address. *)
Definition update (f : pj_rbtree_node -> pj_rbtree_node) (t : pj_rbtree) (a : Z) : option pj_rbtree :=
  n ← nodes t !! a; Some (set_nodes t (<[a := f n]> (nodes t))).

Definition set_parent (t : pj_rbtree) (a p : Z) : option pj_rbtree := update (with_parent p) t a.
Definition set_child (d : side) (t : pj_rbtree) (a p : Z) : option pj_rbtree :=
  update (with_child d p) t a.
Definition set_color (t : pj_rbtree) (a : Z) (c : pj_rbcolor_t) : option pj_rbtree :=
  update (with_color c) t a.

(** ** Rotations *)

(** [if (parent != null) { if (parent->left == node) .. else .. } else ..]: put
    [new] in the place of [node] below [par]. *)
Definition replace_child (t : pj_rbtree) (par node new : Z) : option pj_rbtree :=
  if negb (par =? null t) then
    l ← child Left t par;
    if l =? node then set_child Left t par new else set_child Right t par new
  else Some (set_root t new).

(** [left_rotate] is the rotation for [d = Left]. *)
Definition rotate (d : side) (t : pj_rbtree) (node : Z) : option pj_rbtree :=
  rnode ← child (flip d) t node;
  if rnode =? null t then Some t else
  rl ← child d t rnode;
  t ← set_child (flip d) t node rl;
  t ← (if negb (rl =? null t) then set_parent t rl node else Some t);
  par ← parent t node;
  t ← set_parent t rnode par;
  t ← replace_child t par node rnode;
  t ← set_child d t rnode node;
  set_parent t node rnode.

Definition left_rotate (t : pj_rbtree) (node : Z) : option pj_rbtree := rotate Left t node.
Definition right_rotate (t : pj_rbtree) (node : Z) : option pj_rbtree := rotate Right t node.

(** ** Fixing up after an insertion *)

(** The body of the loop on the side [d] of the grandparent on which the parent
    is: the tree and the node to continue with. *)
Definition insert_fixup_step (d : side) (t : pj_rbtree) (node par grand : Z)
    : option (pj_rbtree * Z) :=
  temp ← child (flip d) t grand;
  tc ← color t temp;
  if decide (tc = PJ_RBCOLOR_RED) then
    t ← set_color t temp PJ_RBCOLOR_BLACK;
    let node := par in
    t ← set_color t node PJ_RBCOLOR_BLACK;
    node ← parent t node;
    t ← set_color t node PJ_RBCOLOR_RED;
    Some (t, node)
  else
    pr ← child (flip d) t par;
    '(t, node) ← (if node =? pr
                  then t ← rotate d t par; Some (t, par)
                  else Some (t, node));
    temp ← parent t node;
    t ← set_color t temp PJ_RBCOLOR_BLACK;
    temp ← parent t temp;
    t ← set_color t temp PJ_RBCOLOR_RED;
    t ← rotate (flip d) t temp;
    Some (t, node).

Fixpoint insert_fixup_loop (fuel : nat) (t : pj_rbtree) (node : Z) : option pj_rbtree :=
  if node =? root t then Some t else
  par ← parent t node;
  pc ← color t par;
  if decide (pc = PJ_RBCOLOR_RED) then
    match fuel with
    | O => None
    | S fuel =>
        grand ← parent t par;
        gl ← child Left t grand;
        '(t, node) ← insert_fixup_step (if par =? gl then Left else Right) t node par grand;
        insert_fixup_loop fuel t node
    end
  else Some t.

(** Each iteration moves two levels up or is the last but one; the number of
    nodes bounds the levels. *)
Definition insert_fixup (t : pj_rbtree) (node : Z) : option pj_rbtree :=
  t ← insert_fixup_loop (S (base.size (nodes t))) t node;
  set_color t (root t) PJ_RBCOLOR_BLACK.

(** ** The interface *)

Definition pj_rbtree_init (m : gmap Z pj_rbtree_node) (null_node : Z) : pj_rbtree :=
  mk_tree (<[null_node := mk_node null_node null_node null_node 0 0 PJ_RBCOLOR_BLACK]> m)
    null_node null_node 0.

(** Down on one side to the last node before [null]. *)
Fixpoint descend (fuel : nat) (d : side) (t : pj_rbtree) (node : Z) : option Z :=
  c ← child d t node;
  if negb (c =? null t) then
    match fuel with O => None | S fuel => descend fuel d t c end
  else Some node.

Definition not_null (t : pj_rbtree) (node : Z) : option Z :=
  if negb (node =? null t) then Some node else None.

Definition steps (t : pj_rbtree) : nat := base.size (nodes t).

(** [pj_rbtree_first] for [Left], [pj_rbtree_last] for [Right]; the inner [None]
    is NULL. *)
Definition pj_rbtree_end (d : side) (t : pj_rbtree) : option (option Z) :=
  node ← descend (steps t) d t (root t); Some (not_null t node).
Definition pj_rbtree_first : pj_rbtree -> option (option Z) := pj_rbtree_end Left.
Definition pj_rbtree_last : pj_rbtree -> option (option Z) := pj_rbtree_end Right.

(** Up while the node is the child on side [d]. *)
Fixpoint climb (fuel : nat) (d : side) (t : pj_rbtree) (node temp : Z) : option Z :=
  if temp =? null t then Some temp else
  c ← child d t temp;
  if c =? node then
    match fuel with O => None | S fuel => up ← parent t temp; climb fuel d t temp up end
  else Some temp.

(** [pj_rbtree_next] for [Right], [pj_rbtree_prev] for [Left]. *)
Definition pj_rbtree_step (d : side) (t : pj_rbtree) (node : Z) : option (option Z) :=
  c ← child d t node;
  node ← (if negb (c =? null t) then descend (steps t) (flip d) t c
          else temp ← parent t node; climb (steps t) d t node temp);
  Some (not_null t node).
Definition pj_rbtree_next : pj_rbtree -> Z -> option (option Z) := pj_rbtree_step Right.
Definition pj_rbtree_prev : pj_rbtree -> Z -> option (option Z) := pj_rbtree_step Left.

Section comparison.
(** [pj_rbtree_comp] on the keys the pointers refer to. *)
Variable comp : Z -> Z -> Z.

(** The loop of [pj_rbtree_insert]: [None] inside for an equal key, or the parent
    and the last result of the comparison. *)
Fixpoint insert_search (fuel : nat) (t : pj_rbtree) (key node par rv : Z) : option (option (Z * Z)) :=
  if node =? null t then Some (Some (par, rv)) else
  match fuel with
  | O => None
  | S fuel =>
      k ← node_key t node;
      let rv := comp key k in
      if rv =? 0 then Some None else
      next ← child (if rv <? 0 then Left else Right) t node;
      insert_search fuel t key next node rv
  end.

Definition pj_rbtree_insert (t : pj_rbtree) (element : Z) : option (Z * pj_rbtree) :=
  key ← node_key t element;
  found ← insert_search (S (steps t)) t key (root t) (null t) 0;
  match found with
  | None => Some (-1, t)
  | Some (par, rv) =>
      t ← set_color t element PJ_RBCOLOR_RED;
      t ← set_child Right t element (null t);
      t ← set_child Left t element (null t);
      t ← (if negb (par =? null t) then
             t ← set_parent t element par;
             t ← set_child (if rv <? 0 then Left else Right) t par element;
             insert_fixup t element
           else
             t ← set_parent (set_root t element) element (null t);
             set_color t element PJ_RBCOLOR_BLACK);
      Some (0, set_size t (u32 (size t + 1)))
  end.

Fixpoint find_loop (fuel : nat) (t : pj_rbtree) (key node : Z) : option (option Z) :=
  if node =? null t then Some (not_null t node) else
  match fuel with
  | O => None
  | S fuel =>
      k ← node_key t node;
      let rv := comp key k in
      if rv =? 0 then Some (Some node) else
      next ← child (if rv <? 0 then Left else Right) t node;
      find_loop fuel t key next
  end.

Definition pj_rbtree_find (t : pj_rbtree) (key : Z) : option (option Z) :=
  find_loop (S (steps t)) t key (root t).
End comparison.

(** ** Fixing up after a deletion *)

(** The body of the loop for a node on the side [d] of its parent.  For a right
    child the code blackens the parent before the nephew, here it comes after it
    on both sides: the two are different nodes and the writes commute. *)
Definition delete_fixup_step (d : side) (t : pj_rbtree) (node : Z) : option (pj_rbtree * Z) :=
  par ← parent t node;
  temp ← child (flip d) t par;
  tc ← color t temp;
  '(t, temp) ← (if decide (tc = PJ_RBCOLOR_RED) then
                  t ← set_color t temp PJ_RBCOLOR_BLACK;
                  par ← parent t node;
                  t ← set_color t par PJ_RBCOLOR_RED;
                  t ← rotate d t par;
                  par ← parent t node;
                  temp ← child (flip d) t par;
                  Some (t, temp)
                else Some (t, temp));
  tl ← child d t temp;
  tlc ← color t tl;
  tr ← child (flip d) t temp;
  trc ← color t tr;
  if decide (tlc = PJ_RBCOLOR_BLACK /\ trc = PJ_RBCOLOR_BLACK) then
    t ← set_color t temp PJ_RBCOLOR_RED;
    node ← parent t node;
    Some (t, node)
  else
    '(t, temp) ← (if decide (trc = PJ_RBCOLOR_BLACK) then
                    t ← set_color t tl PJ_RBCOLOR_BLACK;
                    t ← set_color t temp PJ_RBCOLOR_RED;
                    t ← rotate (flip d) t temp;
                    par ← parent t node;
                    temp ← child (flip d) t par;
                    Some (t, temp)
                  else Some (t, temp));
    par ← parent t node;
    pc ← color t par;
    t ← set_color t temp pc;
    tr ← child (flip d) t temp;
    t ← set_color t tr PJ_RBCOLOR_BLACK;
    t ← set_color t par PJ_RBCOLOR_BLACK;
    t ← rotate d t par;
    Some (t, root t).

Fixpoint delete_fixup_loop (fuel : nat) (t : pj_rbtree) (node : Z) : option (pj_rbtree * Z) :=
  if node =? root t then Some (t, node) else
  c ← color t node;
  if decide (c = PJ_RBCOLOR_BLACK) then
    match fuel with
    | O => None
    | S fuel =>
        par ← parent t node;
        pl ← child Left t par;
        '(t, node) ← delete_fixup_step (if pl =? node then Left else Right) t node;
        delete_fixup_loop fuel t node
    end
  else Some (t, node).

(** Each iteration moves one level up, but for one that turns the parent red and
    is the last; one more sees that the node is the root. *)
Definition delete_fixup (t : pj_rbtree) (node : Z) : option pj_rbtree :=
  '(t, node) ← delete_fixup_loop (2 + steps t) t node;
  set_color t node PJ_RBCOLOR_BLACK.

(** ** Erasing *)

(** [succ] takes the place of [node]. *)
Definition take_place (t : pj_rbtree) (node succ : Z) : option pj_rbtree :=
  par ← parent t node; t ← set_parent t succ par;
  l ← child Left t node; t ← set_child Left t succ l;
  r ← child Right t node; t ← set_child Right t succ r;
  c ← color t node; t ← set_color t succ c;
  par ← parent t node;
  t ← (if negb (par =? null t) then replace_child t par node succ else Some t);
  l ← child Left t node;
  t ← (if negb (l =? null t) then set_parent t l succ else Some t);
  r ← child Right t node;
  t ← (if negb (r =? null t) then set_parent t r succ else Some t);
  Some (if root t =? node then set_root t succ else t).

Definition pj_rbtree_erase (t : pj_rbtree) (node : Z) : option (pj_rbtree * Z) :=
  l ← child Left t node;
  r ← child Right t node;
  succ ← (if (l =? null t) || (r =? null t) then Some node else descend (steps t) Left t r);
  sl ← child Left t succ;
  sr ← child Right t succ;
  let chld := if negb (sl =? null t) then sl else sr in
  par ← parent t succ;
  t ← set_parent t chld par;
  t ← replace_child t par succ chld;
  t ← (if negb (succ =? node) then take_place t node succ else Some t);
  sc ← color t succ;
  t ← (if decide (sc = PJ_RBCOLOR_BLACK) then
         t ← (if negb (chld =? null t) then delete_fixup t chld else Some t);
         set_color t (null t) PJ_RBCOLOR_BLACK
       else Some t);
  Some (set_size t (u32 (size t - 1)), node).

(** ** Heights *)

(** [max_height] for [Z.max], [min_height] for the lesser one; a NULL node
    stands for the root. *)
Fixpoint height_of (choose : Z -> Z -> Z) (fuel : nat) (t : pj_rbtree) (node : Z) : option Z :=
  match fuel with
  | O => None
  | S fuel =>
      l ← child Left t node;
      hl ← (if negb (l =? null t) then h ← height_of choose fuel t l; Some (u32 (h + 1)) else Some 0);
      r ← child Right t node;
      hr ← (if negb (r =? null t) then h ← height_of choose fuel t r; Some (u32 (h + 1)) else Some 0);
      Some (choose hl hr)
  end.

Definition or_root (t : pj_rbtree) (node : option Z) : Z :=
  match node with Some a => a | None => root t end.

Definition pj_rbtree_max_height (t : pj_rbtree) (node : option Z) : option Z :=
  height_of (fun l r => if r <? l then l else r) (S (steps t)) t (or_root t node).
Definition pj_rbtree_min_height (t : pj_rbtree) (node : option Z) : option Z :=
  height_of (fun l r => if r <? l then r else l) (S (steps t)) t (or_root t node).
