(* ===== verification/RbTreeShape.v ===== *)
(** * Red-black trees: the shape of the store

    The tree a store of nodes represents, positions in it as a path of frames,
    and what reads, recolourings and rotations do at a position. *)
From S2P Require Import Prelude RbTree.

(** ** Trees and paths *)

Record elem := mk_elem { e_addr : Z; e_key : Z; e_data : Z }.

Inductive tree := Leaf | Node (c : pj_rbcolor_t) (l : tree) (e : elem) (r : tree).

(** A node given by the subtree on side [d] and the one on the other side. *)
Definition br (d : side) (c : pj_rbcolor_t) (x : tree) (e : elem) (y : tree) : tree :=
  match d with Left => Node c x e y | Right => Node c y e x end.

(** A frame is a node without its subtree on side [f_side]. *)
Record frame := mk_frame { f_side : side; f_color : pj_rbcolor_t; f_elem : elem; f_other : tree }.

Definition path := list frame.

Fixpoint plug (k : path) (t : tree) : tree :=
  match k with
  | [] => t
  | f :: k => plug k (br (f_side f) (f_color f) t (f_elem f) (f_other f))
  end.

Fixpoint inorder (t : tree) : list elem :=
  match t with Leaf => [] | Node _ l e r => inorder l ++ e :: inorder r end.

Definition addrs (t : tree) : list Z := map e_addr (inorder t).

Definition top_color (t : tree) : pj_rbcolor_t :=
  match t with Leaf => PJ_RBCOLOR_BLACK | Node c _ _ _ => c end.

Fixpoint before (k : path) : list elem :=
  match k with
  | [] => []
  | f :: k => before k ++
      match f_side f with Left => [] | Right => inorder (f_other f) ++ [f_elem f] end
  end.

Fixpoint after (k : path) : list elem :=
  match k with
  | [] => []
  | f :: k =>
      match f_side f with Left => f_elem f :: inorder (f_other f) | Right => [] end ++ after k
  end.

Lemma inorder_plug k t : inorder (plug k t) = before k ++ inorder t ++ after k.
Proof.
  revert t. induction k as [|[d c e s] k IH]; intros t; simpl; [by rewrite app_nil_r|].
  rewrite IH. destruct d; simpl; by rewrite ?app_nil_r, <- ?app_assoc.
Qed.

Lemma inorder_br d c x e y :
  inorder (br d c x e y) = match d with Left => inorder x ++ e :: inorder y
                                      | Right => inorder y ++ e :: inorder x end.
Proof. by destruct d. Qed.

Lemma br_flip d c x e y : br (flip d) c x e y = br d c y e x.
Proof. by destruct d. Qed.

Lemma flip_flip d : flip (flip d) = d.
Proof. by destruct d. Qed.

Lemma elem_of_addrs_br d c x e y a :
  a ∈ addrs (br d c x e y) <-> a ∈ addrs x \/ a = e_addr e \/ a ∈ addrs y.
Proof.
  unfold addrs. rewrite inorder_br. destruct d; rewrite map_app, elem_of_app; simpl;
    rewrite elem_of_cons; tauto.
Qed.

(** ** The store of a tree *)

Section store.
Variables (m : gmap Z pj_rbtree_node) (nl : Z).

Definition top (t : tree) : Z := match t with Leaf => nl | Node _ _ e _ => e_addr e end.

(** The nodes of [t] are in the store, below [p]. *)
Fixpoint rep (p : Z) (t : tree) : Prop :=
  match t with
  | Leaf => True
  | Node c l e r =>
      m !! e_addr e = Some (mk_node p (top l) (top r) (e_key e) (e_data e) c) /\
      rep (e_addr e) l /\ rep (e_addr e) r
  end.

Definition path_top (k : path) : Z := match k with [] => nl | f :: _ => e_addr (f_elem f) end.

(** The nodes of a path, with [q] in the hole. *)
Fixpoint rep_path (q : Z) (k : path) : Prop :=
  match k with
  | [] => True
  | f :: k =>
      (exists n, m !! e_addr (f_elem f) = Some n /\
         n = match f_side f with
             | Left => mk_node (path_top k) q (top (f_other f)) (e_key (f_elem f)) (e_data (f_elem f)) (f_color f)
             | Right => mk_node (path_top k) (top (f_other f)) q (e_key (f_elem f)) (e_data (f_elem f)) (f_color f)
             end) /\
      rep (e_addr (f_elem f)) (f_other f) /\ rep_path (e_addr (f_elem f)) k
  end.

Lemma rep_br d p c x e y :
  rep p (br d c x e y) <->
  m !! e_addr e = Some (match d with
                        | Left => mk_node p (top x) (top y) (e_key e) (e_data e) c
                        | Right => mk_node p (top y) (top x) (e_key e) (e_data e) c
                        end) /\
  rep (e_addr e) x /\ rep (e_addr e) y.
Proof. destruct d; simpl; tauto. Qed.

Lemma top_br d c x e y : top (br d c x e y) = e_addr e.
Proof. by destruct d. Qed.

Lemma rep_plug k t : rep nl (plug k t) <-> rep (path_top k) t /\ rep_path (top t) k.
Proof.
  revert t. induction k as [|[d c e s] k IH]; intros t; simpl; [tauto|].
  rewrite IH, rep_br, top_br. split.
  - intros ((H & Hx & Hs) & Hk). split; [done|]. split; [|done]. eexists. split; [exact H|].
    by destruct d.
  - intros (Hx & (n & Hn & ->) & Hs & Hk). rewrite Hn. split; [|done]. split; [by destruct d|done].
Qed.
End store.

(** The nodes outside a tree do not matter. *)
Lemma rep_frame m m' nl p t :
  (forall a, a ∈ addrs t -> m' !! a = m !! a) -> rep m nl p t -> rep m' nl p t.
Proof.
  revert p. induction t as [|c l IHl e r IHr]; intros p Hm; simpl; [done|].
  assert (forall a, a ∈ addrs (Node c l e r) <-> a ∈ addrs l \/ a = e_addr e \/ a ∈ addrs r) as He
    by apply (elem_of_addrs_br Left).
  intros (H & Hl & Hr). rewrite Hm by (apply He; auto). split; [done|].
  split; [apply IHl|apply IHr]; try done; intros; apply Hm, He; auto.
Qed.

Definition path_addrs (k : path) : list Z := map e_addr (before k ++ after k).

Lemma path_addrs_cons d c e s k a :
  a ∈ path_addrs (mk_frame d c e s :: k) <-> a = e_addr e \/ a ∈ addrs s \/ a ∈ path_addrs k.
Proof.
  unfold path_addrs, addrs. destruct d; simpl;
    rewrite !map_app, ?map_cons, ?map_app, ?elem_of_app, ?elem_of_cons, ?elem_of_app; simpl;
    rewrite ?elem_of_cons, ?elem_of_nil, ?map_app, ?elem_of_app; tauto.
Qed.

Lemma rep_path_frame m m' nl q k :
  (forall a, a ∈ path_addrs k -> m' !! a = m !! a) -> rep_path m nl q k -> rep_path m' nl q k.
Proof.
  revert q. induction k as [|[d c e s] k IH]; intros q Hm; simpl; [done|].
  intros ((n & Hn & ->) & Hs & Hk). pose proof (path_addrs_cons d c e s k) as He.
  split; [eexists; split; [|done]; rewrite Hm; [done|apply He; auto]|].
  split; [eapply rep_frame; [|done]|eapply IH; [|done]]; intros; apply Hm, He; auto.
Qed.

Lemma addrs_plug k t : addrs (plug k t) ≡ₚ addrs t ++ path_addrs k.
Proof.
  unfold addrs, path_addrs. rewrite inorder_plug, <- map_app. apply Permutation_map.
  by rewrite !app_assoc, (Permutation_app_comm (before k) (inorder t)).
Qed.

(** ** The tree a [pj_rbtree] represents *)

Record represents (t : pj_rbtree) (T : tree) : Prop := {
  rp_rep : rep (nodes t) (null t) (null t) T;
  rp_root : root t = top (null t) T;
  rp_nodup : NoDup (addrs T);
  rp_null : null t ∉ addrs T
}.

(** What an operation on the nodes of [T] leaves alone. *)
Record framed (T : tree) (t t' : pj_rbtree) : Prop := {
  fr_null : null t' = null t;
  fr_size : size t' = size t;
  fr_nodes a : a ∉ addrs T -> nodes t' !! a = nodes t !! a
}.

(** ** Reading at a position *)

Definition nd (d : side) (p x y : Z) (e : elem) (c : pj_rbcolor_t) : pj_rbtree_node :=
  match d with
  | Left => mk_node p x y (e_key e) (e_data e) c
  | Right => mk_node p y x (e_key e) (e_data e) c
  end.

Lemma represents_at t k d c x e y :
  represents t (plug k (br d c x e y)) ->
  nodes t !! e_addr e = Some (nd d (path_top (null t) k) (top (null t) x) (top (null t) y) e c).
Proof. intros [H _ _ _]. apply rep_plug in H as [H _]. apply rep_br in H as [H _]. exact H. Qed.

Section reads.
Context (t : pj_rbtree) (k : path) (d : side) (c : pj_rbcolor_t) (x : tree) (e : elem) (y : tree).
Hypothesis Ht : represents t (plug k (br d c x e y)).

Lemma parent_at : parent t (e_addr e) = Some (path_top (null t) k).
Proof. unfold parent. rewrite (represents_at _ _ _ _ _ _ _ Ht). by destruct d. Qed.

Lemma child_at : child d t (e_addr e) = Some (top (null t) x).
Proof. unfold child. rewrite (represents_at _ _ _ _ _ _ _ Ht). by destruct d. Qed.

Lemma other_at : child (flip d) t (e_addr e) = Some (top (null t) y).
Proof. unfold child. rewrite (represents_at _ _ _ _ _ _ _ Ht). by destruct d. Qed.

Lemma color_at : color t (e_addr e) = Some c.
Proof. unfold color. rewrite (represents_at _ _ _ _ _ _ _ Ht). by destruct d. Qed.

Lemma key_at : node_key t (e_addr e) = Some (e_key e).
Proof. unfold node_key. rewrite (represents_at _ _ _ _ _ _ _ Ht). by destruct d. Qed.
End reads.

Lemma represents_in t T a : represents t T -> a ∈ addrs T -> a <> null t.
Proof. intros Hr Ha ->. by apply (rp_null _ _ Hr). Qed.

Lemma addrs_at k d c x e y :
  addrs (plug k (br d c x e y)) ≡ₚ e_addr e :: addrs x ++ addrs y ++ path_addrs k.
Proof.
  rewrite addrs_plug. unfold addrs. rewrite inorder_br.
  destruct d; rewrite map_app, map_cons; [|rewrite (Permutation_app_comm (map e_addr (inorder y)))];
    simpl; rewrite ?app_assoc; [by rewrite <- Permutation_middle|].
  rewrite <- !app_assoc. done.
Qed.

(** What the addresses of a tree being distinct gives at a position. *)
Lemma distinct_at t k d c x e y :
  represents t (plug k (br d c x e y)) ->
  (e_addr e ∉ addrs x) /\ (e_addr e ∉ addrs y) /\ (e_addr e ∉ path_addrs k) /\
  (forall a, a ∈ addrs x -> (a ∉ addrs y) /\ a ∉ path_addrs k) /\
  (forall a, a ∈ addrs y -> a ∉ path_addrs k) /\ e_addr e <> null t.
Proof.
  intros Hr. pose proof (rp_nodup _ _ Hr) as Hn. rewrite addrs_at in Hn.
  apply NoDup_cons in Hn as [He Hn]. apply NoDup_app in Hn as (_ & Hx & Hn).
  apply NoDup_app in Hn as (_ & Hy & _). rewrite !not_elem_of_app in He.
  setoid_rewrite not_elem_of_app in Hx. split_and!; try tauto; try done.
  apply (represents_in t _ _ Hr). rewrite addrs_at. by left.
Qed.

Lemma top_plug nl k u v : top nl u = top nl v -> top nl (plug k u) = top nl (plug k v).
Proof. revert u v. induction k as [|f k IH]; intros u v E; simpl; [done|]. apply IH. by rewrite !top_br. Qed.

(** A store that agrees on everything but the node at the position. *)
Lemma represents_node t k d c x e y c' :
  represents t (plug k (br d c x e y)) ->
  represents (set_nodes t (<[e_addr e := nd d (path_top (null t) k) (top (null t) x) (top (null t) y) e c']> (nodes t)))
    (plug k (br d c' x e y)).
Proof.
  intros Hr. destruct (distinct_at _ _ _ _ _ _ _ Hr) as (Hx & Hy & Hk & _).
  destruct Hr as [Hrep Hroot Hnd Hnl]. apply rep_plug in Hrep as [Hb Hp].
  apply rep_br in Hb as (He & Hrx & Hry). rewrite top_br in Hp.
  assert (addrs (plug k (br d c' x e y)) ≡ₚ addrs (plug k (br d c x e y))) as HP by by rewrite !addrs_at.
  split; simpl.
  - apply rep_plug. rewrite top_br. split.
    + apply rep_br. rewrite lookup_insert_eq. split; [done|].
      split; (eapply rep_frame; [|done]); intros a Ha; apply lookup_insert_ne; by intros <-.
    + eapply rep_path_frame; [|done]. intros a Ha. apply lookup_insert_ne. by intros <-.
  - rewrite Hroot. apply top_plug. by rewrite !top_br.
  - by rewrite HP.
  - by rewrite HP.
Qed.

Lemma set_color_at t k d c x e y c' :
  represents t (plug k (br d c x e y)) ->
  exists t', set_color t (e_addr e) c' = Some t' /\ represents t' (plug k (br d c' x e y)) /\
    framed (plug k (br d c x e y)) t t'.
Proof.
  intros Hr. eexists. unfold set_color, update. rewrite (represents_at _ _ _ _ _ _ _ Hr).
  split; [done|]. split.
  - pose proof (represents_node _ _ _ _ _ _ _ c' Hr) as Hn. by destruct d.
  - split; [done..|]. intros a Ha. apply lookup_insert_ne. intros <-. apply Ha. rewrite addrs_at. by left.
Qed.

(** ** Rotation *)

Lemma update_some f t a n :
  nodes t !! a = Some n -> update f t a = Some (set_nodes t (<[a := f n]> (nodes t))).
Proof. intros H. unfold update. by rewrite H. Qed.

(** Another parent for a subtree. *)
Lemma rep_reparent m nl p q t :
  rep m nl p t -> NoDup (addrs t) ->
  match t with
  | Leaf => True
  | Node _ _ e _ => exists n, m !! e_addr e = Some n /\ rep (<[e_addr e := with_parent q n]> m) nl q t
  end.
Proof.
  destruct t as [|c l e r]; [done|]. simpl. intros (H & Hl & Hr) Hn. eexists. split; [exact H|].
  rewrite lookup_insert_eq. unfold addrs in Hn. simpl in Hn. rewrite map_app in Hn. simpl in Hn.
  apply NoDup_app in Hn as (_ & Hd & Hn). apply NoDup_cons in Hn as [Hr' _].
  split; [done|]. split; (eapply rep_frame; [|done]); intros a Ha; apply lookup_insert_ne; intros <-.
  - apply (Hd _ Ha). by left.
  - done.
Qed.

Lemma path_addrs_perm d c e s k :
  path_addrs (mk_frame d c e s :: k) ≡ₚ e_addr e :: addrs s ++ path_addrs k.
Proof.
  unfold path_addrs, addrs. rewrite <- map_app, <- map_cons. apply Permutation_map.
  destruct d; simpl; rewrite ?app_nil_r.
  - rewrite <- Permutation_middle. f_equiv. rewrite !app_assoc. f_equiv. apply Permutation_app_comm.
  - rewrite <- !app_assoc. simpl. rewrite Permutation_app_comm, <- app_assoc. simpl.
    rewrite <- Permutation_middle. f_equiv. f_equiv. apply Permutation_app_comm.
Qed.

Lemma NoDup_frame d c e s k :
  NoDup (path_addrs (mk_frame d c e s :: k)) ->
  (e_addr e ∉ addrs s) /\ (e_addr e ∉ path_addrs k) /\ NoDup (path_addrs k) /\ (forall a, a ∈ addrs s -> a ∉ path_addrs k).
Proof.
  rewrite path_addrs_perm. intros [He Hn]%NoDup_cons. apply NoDup_app in Hn as (_ & Hd & Hn).
  rewrite not_elem_of_app in He. tauto.
Qed.

(** Another subtree in the hole of a path. *)
Lemma replace_child_spec t k p q :
  rep_path (nodes t) (null t) p k -> (null t ∉ path_addrs k) -> NoDup (path_addrs k) ->
  (forall a, a ∈ path_addrs k -> a <> p) -> (forall f k', k = f :: k' -> p <> top (null t) (f_other f)) ->
  (k = [] -> root t = p) ->
  exists t', replace_child t (path_top (null t) k) p q = Some t' /\
    rep_path (nodes t') (null t) q k /\ null t' = null t /\ size t' = size t /\
    root t' = (if decide (k = []) then q else root t) /\
    (forall a, a ∉ path_addrs k -> nodes t' !! a = nodes t !! a).
Proof.
  intros Hp Hnl Hnd Hne Hoth Hroot. unfold replace_child. destruct k as [|[d c e s] k]; simpl in *.
  { rewrite Z.eqb_refl. simpl. exists (set_root t q). done. }
  destruct Hp as ((n & Hn & ->) & Hs & Hk).
  assert (e_addr e ∈ path_addrs (mk_frame d c e s :: k)) as Hin by (apply path_addrs_cons; auto).
  assert (e_addr e <> null t) as Hen by (intros E; by rewrite E in Hin).
  rewrite (proj2 (Z.eqb_neq _ _) Hen). simpl. unfold child. rewrite Hn. simpl.
  specialize (Hoth _ _ eq_refl). simpl in Hoth.
  assert ((n_left match d with
      | Left => mk_node (path_top (null t) k) p (top (null t) s) (e_key e) (e_data e) c
      | Right => mk_node (path_top (null t) k) (top (null t) s) p (e_key e) (e_data e) c
      end =? p) = match d with Left => true | Right => false end) as ->.
  { destruct d; simpl; [apply Z.eqb_refl|]. apply Z.eqb_neq. congruence. }
  exists (set_nodes t (<[e_addr e := nd d (path_top (null t) k) q (top (null t) s) e c]> (nodes t))).
  split. { unfold set_child. destruct d; by rewrite (update_some _ _ _ _ Hn). }
  split_and!; try done.
  - eexists. split; [apply lookup_insert_eq|]. by destruct d.
  - eapply rep_frame; [|done]. intros a Ha. apply lookup_insert_ne. intros <-.
    apply NoDup_frame in Hnd as (Hes & _). done.
  - eapply rep_path_frame; [|done]. intros a Ha. apply lookup_insert_ne. intros <-.
    apply NoDup_frame in Hnd as (_ & Hek & _). done.
  - intros a Ha. apply lookup_insert_ne. by intros <-.
Qed.

(** [if (rl != null) rl->parent = node]. *)
Lemma reparent_step t p q x :
  rep (nodes t) (null t) p x -> NoDup (addrs x) -> (null t ∉ addrs x) ->
  exists m, (if negb (top (null t) x =? null t) then set_parent t (top (null t) x) q else Some t) =
      Some (set_nodes t m) /\
    rep m (null t) q x /\ (forall a, a ∉ addrs x -> m !! a = nodes t !! a).
Proof.
  intros Hx Hn Hnl. pose proof (rep_reparent _ _ _ q _ Hx Hn) as H.
  destruct x as [|c l e r]; simpl in *.
  { rewrite Z.eqb_refl. simpl. exists (nodes t). split; [by destruct t|done]. }
  assert (e_addr e ∈ addrs (Node c l e r)) as Hin by (apply (elem_of_addrs_br Left); auto).
  rewrite (proj2 (Z.eqb_neq (e_addr e) (null t))) by (intros E; by rewrite E in Hin). simpl.
  destruct H as (n & Hm & Hr). unfold set_parent. rewrite (update_some _ _ _ _ Hm).
  eexists. split; [done|]. split; [exact Hr|].
  intros a Ha. apply lookup_insert_ne. by intros <-.
Qed.

Lemma rotate_none t k d c x e :
  represents t (plug k (br d c x e Leaf)) -> rotate d t (e_addr e) = Some t.
Proof.
  intros Hr. unfold rotate. rewrite (other_at _ _ _ _ _ _ _ Hr). simpl. by rewrite Z.eqb_refl.
Qed.

Lemma top_other nl a fd fc fe fo k :
  a <> nl -> (a ∉ path_addrs (mk_frame fd fc fe fo :: k)) -> a <> top nl fo.
Proof.
  rewrite path_addrs_cons. destruct fo as [|c l e r]; simpl; [done|]. intros _ H ->. apply H. right. left.
  apply (elem_of_addrs_br Left). auto.
Qed.

(** The assignments of a rotation, over facts on the store alone: [a] is the
    node, [b] its child, [y] the subtree that changes sides. *)
Lemma rotate_run t k d c x a e c' y b e' z (nl := null t) :
  e_addr e = a -> e_addr e' = b ->
  nodes t !! a = Some (nd d (path_top nl k) x b e c) ->
  nodes t !! b = Some (nd d a (top nl y) z e' c') -> b <> nl -> b <> a ->
  rep (nodes t) nl b y -> NoDup (addrs y) -> (nl ∉ addrs y) -> (a ∉ addrs y) -> (b ∉ addrs y) ->
  rep_path (nodes t) nl a k -> (nl ∉ path_addrs k) -> NoDup (path_addrs k) ->
  (a ∉ path_addrs k) -> (b ∉ path_addrs k) -> (forall u, u ∈ addrs y -> u ∉ path_addrs k) ->
  a <> nl -> (k = [] -> root t = a) ->
  exists t', rotate d t a = Some t' /\ null t' = nl /\ size t' = size t /\
    root t' = (if decide (k = []) then b else root t) /\
    nodes t' !! a = Some (nd d b x (top nl y) e c) /\
    nodes t' !! b = Some (nd d (path_top nl k) a z e' c') /\
    rep (nodes t') nl a y /\ rep_path (nodes t') nl b k /\
    (forall u, u <> a -> u <> b -> (u ∉ addrs y) -> (u ∉ path_addrs k) -> nodes t' !! u = nodes t !! u).
Proof.
  intros Ea Eb Ha Hb Hbnl Hba Hry Hndy Hnly Hay Hby Hrk Hnlk Hndk Hak Hbk Hyk Hanl Hroot.
  assert (child (flip d) t a = Some b) as E0 by (unfold child; rewrite Ha; by destruct d).
  assert (child d t b = Some (top nl y)) as E1 by (unfold child; rewrite Hb; by destruct d).
  unfold rotate. change (null t) with nl. rewrite E0. bind_step. rewrite (proj2 (Z.eqb_neq _ _) Hbnl), E1. bind_step.
  replace (set_child (flip d) t a (top nl y)) with
    (Some (set_nodes t (<[a := nd d (path_top nl k) x (top nl y) e c]> (nodes t))))
    by (unfold set_child; rewrite (update_some _ _ _ _ Ha); by destruct d).
  bind_step. set (t1 := set_nodes t (<[a := _]> (nodes t))).
  assert (rep (nodes t1) (null t1) b y) as Hry1.
  { eapply rep_frame; [|exact Hry]. intros u Hu. apply lookup_insert_ne. by intros <-. }
  destruct (reparent_step t1 b a y Hry1 Hndy Hnly) as (m2 & E2 & Hry2 & Hm2).
  change (null t1) with nl in *. rewrite E2. bind_step.
  assert (m2 !! a = Some (nd d (path_top nl k) x (top nl y) e c)) as Ha2.
  { rewrite Hm2 by done. simpl. by rewrite lookup_insert_eq. }
  assert (m2 !! b = Some (nd d a (top nl y) z e' c')) as Hb2.
  { rewrite Hm2 by done. simpl. by rewrite lookup_insert_ne by congruence. }
  unfold parent. simpl nodes. rewrite Ha2. cbn [fmap option_fmap option_map].
  assert (n_parent (nd d (path_top nl k) x (top nl y) e c) = path_top nl k) as -> by by destruct d.
  bind_step. unfold set_parent. rewrite (update_some _ (set_nodes t1 m2) _ _ Hb2). bind_step.
  set (t3 := set_nodes _ (<[b := _]> _)).
  destruct (replace_child_spec t3 k a b) as (t4 & E4 & Hrk4 & Hnl4 & Hsz4 & Hroot4 & Hm4); try done.
  { eapply rep_path_frame; [|exact Hrk]. intros u Hu. simpl.
    rewrite lookup_insert_ne by (by intros <-). rewrite Hm2 by (by intros ?%Hyk).
    simpl. apply lookup_insert_ne. by intros <-. }
  { by intros u Hu ->. }
  { intros [fd fc fe fo] k' ->. by apply (top_other _ _ fd fc fe fo k'). }
  change (null t3) with nl in *. rewrite E4. bind_step.
  assert (nodes t4 !! b = Some (nd d (path_top nl k) (top nl y) z e' c')) as Hb4.
  { rewrite Hm4 by done. simpl. rewrite lookup_insert_eq. by destruct d. }
  unfold set_child. rewrite (update_some _ _ _ _ Hb4). bind_step.
  assert (nodes t4 !! a = Some (nd d (path_top nl k) x (top nl y) e c)) as Ha4.
  { rewrite Hm4 by done. simpl. by rewrite lookup_insert_ne by done. }
  erewrite update_some by (simpl; rewrite lookup_insert_ne by done; exact Ha4).
  eexists. split; [done|]. simpl. rewrite Hroot4. split_and!; try done.
  - rewrite lookup_insert_eq. by destruct d.
  - rewrite lookup_insert_ne, lookup_insert_eq by done. by destruct d.
  - eapply rep_frame; [|exact Hry2]. intros u Hu.
    rewrite !lookup_insert_ne by (by intros <-). rewrite Hm4 by auto. simpl.
    apply lookup_insert_ne. by intros <-.
  - eapply rep_path_frame; [|exact Hrk4]. intros u Hu. by rewrite !lookup_insert_ne by (by intros <-).
  - intros u Hua Hub Huy Huk. rewrite !lookup_insert_ne by congruence. rewrite Hm4 by done. simpl.
    rewrite lookup_insert_ne by congruence. rewrite Hm2 by done. simpl. by apply lookup_insert_ne.
Qed.

Lemma inorder_rotate k d c x e c' y e' z :
  inorder (plug k (br d c' (br d c x e y) e' z)) = inorder (plug k (br d c x e (br d c' y e' z))).
Proof. rewrite !inorder_plug, !inorder_br. destruct d; rewrite <- !app_assoc; simpl; by rewrite <- ?app_assoc. Qed.

Lemma top_plug_root nl k t : top nl (plug k t) = if decide (k = []) then top nl t else top nl (plug k Leaf).
Proof.
  destruct k as [|f k]; [done|]. rewrite decide_False by done. simpl. apply top_plug. by rewrite !top_br.
Qed.

Lemma rotate_at t k d c x e c' y e' z :
  represents t (plug k (br d c x e (br d c' y e' z))) ->
  exists t', rotate d t (e_addr e) = Some t' /\
    represents t' (plug k (br d c' (br d c x e y) e' z)) /\
    framed (plug k (br d c x e (br d c' y e' z))) t t'.
Proof.
  intros Hr. pose proof (represents_at _ _ _ _ _ _ _ Hr) as Ha.
  pose proof (distinct_at _ _ _ _ _ _ _ Hr) as (Hax & HaY & Hak & HxY & HYk & Hanl).
  assert (represents t (plug (mk_frame (flip d) c e x :: k) (br d c' y e' z))) as Hr'
    by (simpl; by rewrite br_flip).
  pose proof (represents_at _ _ _ _ _ _ _ Hr') as Hb.
  pose proof (distinct_at _ _ _ _ _ _ _ Hr') as (Hby & Hbz & HbK & Hyz & HzK & Hbnl).
  pose proof (inorder_rotate k d c x e c' y e' z) as Hio.
  rewrite path_addrs_cons in HbK. setoid_rewrite path_addrs_cons in HzK. setoid_rewrite path_addrs_cons in Hyz.
  rewrite top_br in Ha. simpl in Hb. setoid_rewrite elem_of_addrs_br in HYk.
  destruct Hr as [Hrep Hroot Hnd Hnl]. apply rep_plug in Hrep as [Hrb Hrk].
  rewrite top_br in Hrk. apply rep_br in Hrb as (_ & Hrx & Hrb). apply rep_br in Hrb as (_ & Hry & Hrz).
  assert (forall u, u ∈ addrs (plug k (br d c x e (br d c' y e' z))) <->
    u = e_addr e \/ u ∈ addrs x \/ (u ∈ addrs y \/ u = e_addr e' \/ u ∈ addrs z) \/ u ∈ path_addrs k) as Hall.
  { intros u. rewrite addrs_at, elem_of_cons, !elem_of_app, elem_of_addrs_br. done. }
  assert (addrs (plug k (br d c' (br d c x e y) e' z)) = addrs (plug k (br d c x e (br d c' y e' z)))) as Had
    by (unfold addrs; by rewrite Hio).
  pose proof Hnd as Hnd2. rewrite addrs_at in Hnd2. apply NoDup_cons in Hnd2 as [_ Hnd2].
  apply NoDup_app in Hnd2 as (_ & _ & Hnd2). apply NoDup_app in Hnd2 as (HndY & _ & Hndk).
  assert (NoDup (addrs y)) as Hndy.
  { pose proof (addrs_at [] d c' y e' z) as HP. simpl in HP. rewrite HP in HndY.
    apply NoDup_cons in HndY as [_ HndY]. by apply NoDup_app in HndY as (? & _). }
  rewrite Hall in Hnl.
  destruct (rotate_run t k d c (top (null t) x) (e_addr e) e c' y (e_addr e') e' (top (null t) z))
    as (t' & E & Enl & Esz & Ert & Ea & Eb & Ery & Erk & Eoth); try done; try tauto; try (intros ?; tauto).
  { intros Hy. by apply HaY, elem_of_addrs_br; left. }
  { intros u Hu. destruct (Hyz u Hu). tauto. }
  { intros ->. rewrite Hroot. simpl. by rewrite top_br. }
  exists t'. split; [done|]. split.
  - split; rewrite ?Enl, ?Had; try done; [|..|by rewrite Hall].
    + apply rep_plug. rewrite top_br. split; [|done]. apply rep_br. rewrite top_br.
      split; [exact Eb|]. split; [apply rep_br; split; [exact Ea|split; [|done]]|].
      * eapply rep_frame; [|exact Hrx]. intros u Hu. destruct (HxY u Hu) as [HY ?].
        rewrite elem_of_addrs_br in HY. apply Eoth; [by intros ->|tauto..].
      * eapply rep_frame; [|exact Hrz]. intros u Hu. pose proof (HzK u Hu). apply Eoth; [tauto|by intros ->|..|tauto].
        intros Hy. by destruct (Hyz u Hy).
    + rewrite Ert, Hroot. rewrite (top_plug_root _ k (br _ c' _ _ _)), (top_plug_root _ k (br _ c _ _ _)).
      case_decide; [by rewrite top_br|done].
  - split; [done|done|]. intros u Hu. rewrite Hall in Hu. apply Eoth; tauto.
Qed.
