(* ===== verification/RbTreeInsert.v ===== *)
(** * Red-black trees: insertion keeps the balance

    The red-black conditions, along a path and for a whole tree, and the proof
    that the fix-up after an insertion restores them. *)
From S2P Require Import Prelude RbTree RbTreeShape.

Abbreviation BLACK := PJ_RBCOLOR_BLACK.
Abbreviation RED := PJ_RBCOLOR_RED.

(** ** The conditions *)

Definition bump (c : pj_rbcolor_t) (n : nat) : nat := match c with BLACK => S n | RED => n end.

(** Every way down passes [n] black nodes. *)
Inductive black_height : tree -> nat -> Prop :=
| bh_leaf : black_height Leaf 0
| bh_node c l e r n : black_height l n -> black_height r n -> black_height (Node c l e r) (bump c n).

(** No red node has a red child. *)
Fixpoint no_red_red (t : tree) : Prop :=
  match t with
  | Leaf => True
  | Node c l _ r => (c = RED -> top_color l = BLACK /\ top_color r = BLACK) /\ no_red_red l /\ no_red_red r
  end.

Record red_black (t : tree) : Prop := {
  rb_root : top_color t = BLACK;
  rb_red : no_red_red t;
  rb_black : exists n, black_height t n
}.

Lemma black_height_br d c x e y n :
  black_height (br d c x e y) (bump c n) <-> black_height x n /\ black_height y n.
Proof.
  assert (forall c l e r, black_height (Node c l e r) (bump c n) -> black_height l n /\ black_height r n) as H.
  { intros c' l e' r H. inversion H as [|? ? ? ? k Hl Hr E1 E2]; subst.
    destruct c'; simpl in E2; simplify_eq; done. }
  split.
  - intros Hb. destruct d; simpl in Hb; apply H in Hb; tauto.
  - intros [Hx Hy]. destruct d; by constructor.
Qed.

Lemma no_red_red_br d c x e y :
  no_red_red (br d c x e y) <->
  (c = RED -> top_color x = BLACK /\ top_color y = BLACK) /\ no_red_red x /\ no_red_red y.
Proof. destruct d; simpl; tauto. Qed.

Lemma top_color_br d c x e y : top_color (br d c x e y) = c.
Proof. by destruct d. Qed.

(** The conditions along a path whose hole takes a tree of black height [n]
    with a root of colour [c]. *)
Fixpoint path_ok (k : path) (n : nat) (c : pj_rbcolor_t) : Prop :=
  match k with
  | [] => True
  | f :: k =>
      black_height (f_other f) n /\ no_red_red (f_other f) /\
      (f_color f = RED -> c = BLACK /\ top_color (f_other f) = BLACK) /\
      path_ok k (bump (f_color f) n) (f_color f)
  end.

Definition path_root_black (k : path) : Prop := forall f, last k = Some f -> f_color f = BLACK.

Lemma plug_ok k n t :
  path_ok k n (top_color t) -> black_height t n -> no_red_red t ->
  (exists N, black_height (plug k t) N) /\ no_red_red (plug k t).
Proof.
  revert n t. induction k as [|[d c e s] k IH]; intros n t; simpl; [eauto|].
  intros (Hs & Hrs & Hc & Hk) Ht Hrt. apply (IH (bump c n)).
  - by rewrite top_color_br.
  - by apply black_height_br.
  - apply no_red_red_br. split; [|done]. intros E. destruct (Hc E). done.
Qed.

(** Every tree with the conditions comes apart at a position into two parts
    with the conditions. *)
Lemma plug_ok_inv k t N :
  black_height (plug k t) N -> no_red_red (plug k t) ->
  exists n, black_height t n /\ no_red_red t /\ path_ok k n (top_color t).
Proof.
  revert t N. induction k as [|[d c e s] k IH]; intros t N; simpl; [eauto|].
  intros Hb Hr. destruct (IH _ _ Hb Hr) as (n & Hbn & Hrn & Hk).
  rewrite top_color_br in Hk. apply no_red_red_br in Hrn as (Hc & Hrt & Hrs).
  assert (exists n', n = bump c n') as [n' ->].
  { destruct d; inversion Hbn; by eexists. }
  apply black_height_br in Hbn as [Hbt Hbs]. exists n'. split; [done|]. split; [done|].
  split_and!; try done. all: intros; apply Hc; done.
Qed.

Lemma path_ok_black k n c : path_ok k n c -> path_ok k n BLACK.
Proof. destruct k as [|f k]; simpl; [done|]. intros (? & ? & H & ?). split_and!; try done. intros; by destruct H. Qed.

(** ** The height *)

Fixpoint height (t : tree) : nat :=
  match t with Leaf => 0 | Node _ l _ r => S (Nat.max (height l) (height r)) end.

Lemma black_height_size t n : black_height t n -> (2 ^ n <= S (length (inorder t)))%nat.
Proof.
  induction 1 as [|c l e r n Hl IHl Hr IHr]; simpl; [lia|].
  rewrite length_app. simpl. destruct c; simpl; lia.
Qed.

Lemma height_black t n :
  black_height t n -> no_red_red t ->
  (height t <= 2 * n + (if decide (top_color t = RED) then 1 else 0))%nat.
Proof.
  induction 1 as [|c l e r n Hl IHl Hr IHr]; simpl; [lia|].
  intros (Hc & Hrl & Hrr). specialize (IHl Hrl). specialize (IHr Hrr). destruct c; simpl.
  - do 2 case_decide; lia.
  - destruct (Hc eq_refl) as [El Er]. rewrite El in IHl. rewrite Er in IHr. simpl in *. lia.
Qed.

(** A balanced tree of [n] nodes is at most [2 log2 (n + 1)] high. *)
Lemma red_black_height t :
  red_black t -> (height t <= 2 * Nat.log2 (S (length (inorder t))))%nat.
Proof.
  intros [Hroot Hred [n Hb]]. pose proof (height_black t n Hb Hred) as Hh. rewrite Hroot in Hh. simpl in Hh.
  pose proof (black_height_size t n Hb) as Hs.
  apply Nat.log2_le_mono in Hs. rewrite Nat.log2_pow2 in Hs by lia. lia.
Qed.

(** ** The fix-up *)

(** Two trees that differ by colours and rotations on side [d]. *)
Ltac inorder_eq d :=
  rewrite ?inorder_plug, ?inorder_br; destruct d; simpl; rewrite ?inorder_br;
  repeat (rewrite <- app_assoc; simpl); reflexivity.

Definition null_black (t : pj_rbtree) : Prop :=
  exists n, nodes t !! null t = Some n /\ n_color n = BLACK.

Lemma framed_refl T t : framed T t t.
Proof. by split. Qed.

Lemma framed_trans T T' t t' t'' :
  framed T t t' -> framed T' t' t'' -> inorder T' = inorder T -> framed T t t''.
Proof.
  intros [N1 S1 H1] [N2 S2 H2] E. split; [congruence..|].
  intros a Ha. rewrite H2, H1; [done|done|]. unfold addrs. by rewrite E.
Qed.

Lemma framed_null_black T t t' : represents t T -> framed T t t' -> null_black t -> null_black t'.
Proof.
  intros Hr [N _ H] (n & Hn & Hc). exists n. rewrite N, H; [done|]. apply (rp_null _ _ Hr).
Qed.

(** The colour of a subtree's root, the sentinel's for an empty one. *)
Lemma color_top t k d c x e y :
  represents t (plug k (br d c x e y)) -> null_black t ->
  color t (top (null t) x) = Some (top_color x) /\ color t (top (null t) y) = Some (top_color y).
Proof.
  intros Hr (n & Hn & Hc).
  assert (forall k z, represents t (plug k z) -> color t (top (null t) z) = Some (top_color z)) as H.
  { intros k' z Hz. destruct z as [|c' l e' r]; simpl.
    - unfold color. rewrite Hn. simpl. by rewrite Hc.
    - apply (color_at t k' Left c' l e' r Hz). }
  split; [apply (H (mk_frame d c e y :: k))|apply (H (mk_frame (flip d) c e x :: k))]; [done|].
  simpl. by rewrite br_flip.
Qed.

Lemma last_cons_ne {A} (x : A) l : l <> [] -> last (x :: l) = last l.
Proof. by destruct l. Qed.

Lemma root_in_path nl k t f : top nl (plug (f :: k) t) ∈ path_addrs (f :: k).
Proof.
  revert f t. induction k as [|g k IH]; intros [d c e s] t.
  - simpl. rewrite top_br. apply path_addrs_cons. auto.
  - apply path_addrs_cons. right. right. apply (IH g).
Qed.

(** The node at the end of a path that is not empty is not the root. *)
Lemma not_root t f k d c x e y :
  represents t (plug (f :: k) (br d c x e y)) -> (e_addr e =? root t) = false.
Proof.
  intros Hr. apply Z.eqb_neq. rewrite (rp_root _ _ Hr). intros E.
  destruct (distinct_at _ _ _ _ _ _ _ Hr) as (_ & _ & Hk & _). apply Hk. rewrite E. apply root_in_path.
Qed.

Lemma fixup_exit t fuel f k d c x e y :
  represents t (plug (f :: k) (br d c x e y)) -> f_color f = BLACK ->
  insert_fixup_loop fuel t (e_addr e) = Some t.
Proof.
  intros Hr Hf. pose proof (not_root _ _ _ _ _ _ _ _ Hr) as Hroot.
  pose proof (parent_at _ _ _ _ _ _ _ Hr) as Hp.
  destruct f as [fd fc fe fo]. simpl in Hf, Hp. subst fc.
  pose proof (color_at t k fd BLACK (br d c x e y) fe fo Hr) as Hc.
  destruct fuel; cbn [insert_fixup_loop]; rewrite Hroot, Hp; bind_step; rewrite Hc; by bind_step.
Qed.

(** The last assignments of the loop's body: the parent turns black and takes
    the place of the red grandparent. *)
Lemma fixup_finish t k d dn cx x e y fe fo gc ge go :
  let T := plug k (br d gc (br d RED (br dn cx x e y) fe fo) ge go) in
  represents t T ->
  exists t', (temp ← parent t (e_addr e);
              t ← set_color t temp PJ_RBCOLOR_BLACK;
              temp ← parent t temp;
              t ← set_color t temp PJ_RBCOLOR_RED;
              t ← rotate (flip d) t temp;
              Some (t, e_addr e)) = Some (t', e_addr e) /\
    represents t' (plug k (br (flip d) BLACK (br (flip d) RED go ge fo) fe (br dn cx x e y))) /\
    framed T t t'.
Proof.
  intros T Hr.
  rewrite (parent_at t (mk_frame d RED fe fo :: mk_frame d gc ge go :: k) dn cx x e y Hr). bind_step. simpl.
  destruct (set_color_at t (mk_frame d gc ge go :: k) d RED _ fe fo BLACK Hr) as (t1 & -> & H1 & F1). bind_step.
  rewrite (parent_at t1 (mk_frame d gc ge go :: k) _ _ _ _ _ H1). bind_step. simpl.
  destruct (set_color_at t1 k d gc _ ge go RED H1) as (t2 & -> & H2 & F2). bind_step.
  rewrite <- (br_flip d RED), <- (br_flip d BLACK) in H2.
  destruct (rotate_at t2 k (flip d) RED go ge BLACK fo fe _ H2) as (t3 & -> & H3 & F3). bind_step.
  exists t3. split; [done|]. split; [done|]. eapply framed_trans; [eapply framed_trans|exact F3|].
  - exact F1.
  - exact F2.
  - unfold T. by rewrite !inorder_plug, !inorder_br.
  - rewrite !br_flip. unfold T. by rewrite !inorder_plug, !inorder_br.
Qed.

(** A red uncle: the colours of the grandparent and its children change. *)
Lemma fixup_step_red t k d fs dn cx x e y fe fo gc ge du u1 ue u2 :
  let T := plug k (br d gc (br fs RED (br dn cx x e y) fe fo) ge (br du RED u1 ue u2)) in
  represents t T ->
  exists t', insert_fixup_step d t (e_addr e) (e_addr fe) (e_addr ge) = Some (t', e_addr ge) /\
    represents t' (plug k (br d RED (br fs BLACK (br dn cx x e y) fe fo) ge (br du BLACK u1 ue u2))) /\
    framed T t t'.
Proof.
  intros T Hr. unfold insert_fixup_step. set (P := br fs RED (br dn cx x e y) fe fo) in *.
  rewrite (other_at t k d gc P ge _ Hr). bind_step. rewrite top_br.
  assert (represents t (plug (mk_frame (flip d) gc ge P :: k) (br du RED u1 ue u2))) as Hu
    by (simpl; by rewrite br_flip).
  rewrite (color_at _ _ _ _ _ _ _ Hu). bind_step. rewrite decide_True by done.
  destruct (set_color_at _ _ _ _ _ _ _ BLACK Hu) as (t1 & -> & H1 & F1). bind_step.
  simpl in H1, F1. rewrite br_flip in H1, F1.
  destruct (set_color_at t1 (mk_frame d gc ge (br du BLACK u1 ue u2) :: k) fs RED _ fe fo BLACK H1)
    as (t2 & -> & H2 & F2). bind_step.
  rewrite (parent_at t2 _ _ _ _ _ _ H2). bind_step. simpl path_top.
  destruct (set_color_at t2 k d gc _ ge _ RED H2) as (t3 & -> & H3 & F3). bind_step.
  exists t3. split; [done|]. split; [exact H3|].
  eapply framed_trans; [eapply framed_trans; [exact F1|exact F2|]|exact F3|]; unfold T, P; simpl;
    rewrite ?br_flip; by rewrite !inorder_plug, !inorder_br.
Qed.

(** A black uncle: one or two rotations, and the node continued with has a black
    parent. *)
Definition fixed_up (t t' : pj_rbtree) (k : path) (T : tree) (node : Z) (black : Prop) (n : nat) : Prop :=
  exists f e' d' x' y', node = e_addr e' /\ f_color f = BLACK /\
    let B := plug [f] (br d' RED x' e' y') in
    represents t' (plug k B) /\ inorder (plug k B) = inorder T /\ framed T t t' /\
    top_color B = BLACK /\ (black -> black_height B (S n) /\ no_red_red B).

Lemma fixup_outer t k d dn x e y fe fo gc ge go n (T := plug k (br d gc (br d RED (br dn RED x e y) fe fo) ge go)) :
  represents t T ->
  exists t', (temp ← parent t (e_addr e);
              t ← set_color t temp PJ_RBCOLOR_BLACK;
              temp ← parent t temp;
              t ← set_color t temp PJ_RBCOLOR_RED;
              t ← rotate (flip d) t temp;
              Some (t, e_addr e)) = Some (t', e_addr e) /\
    fixed_up t t' k T (e_addr e)
      (black_height (br dn RED x e y) n /\ no_red_red (br dn RED x e y) /\
       (black_height fo n /\ no_red_red fo /\ top_color fo = BLACK) /\
       (black_height go n /\ no_red_red go /\ top_color go = BLACK)) n.
Proof.
  intros Hr. destruct (fixup_finish t k d dn RED x e y fe fo gc ge go Hr) as (t' & -> & H' & F').
  exists t'. split; [done|]. exists (mk_frame d BLACK fe (br (flip d) RED go ge fo)), e, dn, x, y.
  split; [done|]. split; [done|]. simpl. rewrite <- (br_flip d BLACK).
  split; [exact H'|]. split; [by unfold T; inorder_eq d|].
  split; [done|]. rewrite top_color_br. split; [done|].
  intros (Hb & Hn & (Hbf & Hnf & Hcf) & Hbg & Hng & Hcg).
  rewrite !(black_height_br _ BLACK _ _ _ n), !(black_height_br _ RED _ _ _ n) in *.
  split; [tauto|]. apply no_red_red_br. split; [done|]. split; [|done]. by apply no_red_red_br.
Qed.

Lemma fixup_step_black t k d fs dn x e y fe fo gc ge go n
    (T := plug k (br d gc (br fs RED (br dn RED x e y) fe fo) ge go)) :
  represents t T -> null_black t -> top_color go = BLACK ->
  exists t' node, insert_fixup_step d t (e_addr e) (e_addr fe) (e_addr ge) = Some (t', node) /\
    fixed_up t t' k T node
      (black_height (br dn RED x e y) n /\ no_red_red (br dn RED x e y) /\
       (black_height fo n /\ no_red_red fo /\ top_color fo = BLACK) /\
       (black_height go n /\ no_red_red go /\ top_color go = BLACK)) n.
Proof.
  intros Hr Hnb Hgo. unfold insert_fixup_step. rewrite (other_at t k d gc _ ge go Hr). bind_step.
  pose proof (proj2 (color_top t k d gc _ ge go Hr Hnb)) as Hcg. rewrite Hgo in Hcg.
  rewrite Hcg. bind_step. rewrite decide_False by done.
  pose proof (distinct_at t (mk_frame fs RED fe fo :: mk_frame d gc ge go :: k) dn RED x e y Hr) as (_ & _ & Hk & _ & _ & Hnl).
  pose proof (top_other _ _ _ _ _ _ _ Hnl Hk) as Hot.
  destruct (decide (fs = d)) as [->|Hd].
  { rewrite (other_at t (mk_frame d gc ge go :: k) d RED _ fe fo Hr). bind_step.
    rewrite (proj2 (Z.eqb_neq _ _) Hot). bind_step.
    destruct (fixup_outer t k d dn x e y fe fo gc ge go n Hr) as (t' & -> & H').
    exists t', (e_addr e). split; [done|exact H']. }
  assert (fs = flip d) as -> by (by destruct fs, d).
  assert (exists u v, br dn RED x e y = br d RED u e v) as (u & v & Euv).
  { destruct (decide (dn = d)) as [->|]; [by exists x, y|]. exists y, x.
    assert (dn = flip d) as -> by (by destruct dn, d). by rewrite br_flip. }
  subst T. rewrite Euv, br_flip in *.
  pose proof (other_at t (mk_frame d gc ge go :: k) _ _ _ _ _ Hr) as Ho.
  rewrite top_br in Ho. rewrite Ho. bind_step. rewrite Z.eqb_refl.
  destruct (rotate_at t (mk_frame d gc ge go :: k) d RED fo fe RED u e v Hr) as (t1 & -> & H1 & F1). bind_step.
  destruct (fixup_outer t1 k d d fo fe u e v gc ge go n H1) as (t' & E' & f & e' & d' & x' & y' & E1 & E2 & B).
  rewrite bind_some_eq. cbv beta iota. rewrite E'. exists t', (e_addr fe). split; [done|].
  exists f, e', d', x', y'. split; [done|]. split; [done|]. cbv zeta in *.
  destruct B as (B1 & B2 & B3 & B4 & B5). split; [done|].
  assert (inorder (plug k (br d gc (br d RED (br d RED fo fe u) e v) ge go)) =
          inorder (plug k (br d gc (br d RED fo fe (br d RED u e v)) ge go))) as Eio by inorder_eq d.
  split; [by rewrite B2|]. split; [exact (framed_trans _ _ _ _ _ F1 B3 Eio)|]. split; [done|].
  rewrite !no_red_red_br, !(black_height_br _ RED _ _ _ n) in *. intros HH. apply B5. tauto.
Qed.

(** The test [parent == parent->parent->left] finds the side. *)
Lemma side_test t k d fs c x fe fo gc ge go :
  represents t (plug k (br d gc (br fs c x fe fo) ge go)) ->
  exists gl, child Left t (e_addr ge) = Some gl /\ (if e_addr fe =? gl then Left else Right) = d.
Proof.
  intros Hr. destruct (distinct_at t (mk_frame d gc ge go :: k) fs c x fe fo Hr) as (_ & _ & Hk & _ & _ & Hnl).
  pose proof (top_other _ _ _ _ _ _ _ Hnl Hk) as Hot.
  pose proof (child_at t k d gc _ ge go Hr) as H1. pose proof (other_at t k d gc _ ge go Hr) as H2.
  rewrite top_br in H1. destruct d; simpl in *.
  - exists (e_addr fe). by rewrite Z.eqb_refl.
  - exists (top (null t) go). split; [done|]. by rewrite (proj2 (Z.eqb_neq _ _) Hot).
Qed.

Lemma insert_fixup_loop_spec fuel k t d l e r n (T := plug k (br d RED l e r)) :
  represents t T -> null_black t -> path_root_black k -> (length k <= fuel)%nat ->
  exists t' T', insert_fixup_loop fuel t (e_addr e) = Some t' /\ represents t' T' /\
    inorder T' = inorder T /\ framed T t t' /\
    (path_ok k n BLACK -> black_height (br d RED l e r) n -> no_red_red (br d RED l e r) ->
     (exists N, black_height T' N) /\ no_red_red T').
Proof.
  subst T. revert k t d l e r n. induction fuel as [fuel IH] using lt_wf_ind.
  intros k t d l e r n Hr Hnb Hkr Hf. destruct k as [|[fs fc fe fo] k].
  { exists t, (br d RED l e r). split_and!; eauto using framed_refl.
    simpl in Hr. destruct fuel; simpl; by rewrite (rp_root _ _ Hr), top_br, Z.eqb_refl. }
  destruct fc.
  { exists t, (plug (mk_frame fs BLACK fe fo :: k) (br d RED l e r)).
    split; [by eapply fixup_exit|]. split_and!; eauto using framed_refl. intros (Hbo & Hno & Hc & Hk') Hb Hnr.
    apply (plug_ok _ n); [|exact Hb|done]. rewrite top_color_br. by split_and!. }
  destruct k as [|[gs gc ge go] k]; [by specialize (Hkr _ eq_refl)|].
  destruct fuel as [|fuel]; [simpl in Hf; lia|]. cbn [insert_fixup_loop].
  rewrite (not_root _ _ _ _ _ _ _ _ Hr), (parent_at _ _ _ _ _ _ _ Hr). bind_step. cbn [path_top f_elem].
  rewrite (color_at t (mk_frame gs gc ge go :: k) fs RED _ fe fo Hr). bind_step.
  rewrite decide_True by done.
  rewrite (parent_at t (mk_frame gs gc ge go :: k) fs RED _ fe fo Hr). bind_step.
  destruct (side_test t k gs fs RED _ fe fo gc ge go Hr) as (gl & Egl & Es).
  cbn [path_top f_elem]. rewrite Egl. bind_step. rewrite Es.
  destruct (top_color go) eqn:Eg.
  - destruct (fixup_step_black t k gs fs d l e r fe fo gc ge go n Hr Hnb Eg) as
      (t' & node & -> & f & e' & d' & x' & y' & -> & Hfc & Hr' & Hio & HF & HBc & HB).
    rewrite bind_some_eq. cbv beta iota. exists t', (plug (f :: k) (br d' RED x' e' y')).
    split; [by eapply fixup_exit|]. split; [done|]. split; [done|]. split; [done|].
    intros (Hbo & Hno & Hc & Hbg & Hng & Hgc & Hk) Hb Hnr. destruct gc; [|by destruct (Hgc eq_refl)].
    destruct (Hc eq_refl). destruct HB; [done|].
    apply (plug_ok k (S n) (plug [f] (br d' RED x' e' y'))); [by rewrite HBc|done|done].
  - destruct go as [|gc' u1 ue u2]; simpl in Eg; [done|]. subst gc'.
    destruct (fixup_step_red t k gs fs d RED l e r fe fo gc ge Left u1 ue u2 Hr) as (t' & -> & Hr' & HF).
    rewrite bind_some_eq. cbv beta iota.
    destruct (IH fuel ltac:(lia) k t' gs _ ge _ (S n) Hr') as (t2 & T2 & E2 & Hr2 & Hio2 & HF2 & HB2).
    + exact (framed_null_black _ _ _ Hr HF Hnb).
    + intros f Hl. apply Hkr. by rewrite !last_cons_ne by (by destruct k).
    + simpl in Hf. lia.
    + exists t2, T2. split; [done|]. split; [done|].
      assert (inorder (plug k (br gs RED (br fs BLACK (br d RED l e r) fe fo) ge (br Left BLACK u1 ue u2))) =
              inorder (plug (mk_frame fs RED fe fo :: mk_frame gs gc ge (Node RED u1 ue u2) :: k) (br d RED l e r))) as Eio
        by (simpl; rewrite !inorder_plug, !inorder_br; done).
      split; [congruence|]. split; [by eapply framed_trans|].
      intros (Hbo & Hno & Hc & Hbg & Hng & Hgc & Hk) Hb Hnr. destruct gc; [|by destruct (Hgc eq_refl)].
      apply (black_height_br Left RED u1 ue u2 n) in Hbg. apply (no_red_red_br Left RED u1 ue u2) in Hng.
      apply HB2; [done| |].
      * apply (black_height_br gs RED). rewrite !(black_height_br _ BLACK _ _ _ n). done.
      * apply no_red_red_br. rewrite !top_color_br. split; [done|].
        split; apply no_red_red_br; (split; [done|]); [by split|apply Hng].
Qed.
