(* ===== verification/RbTreeSpec.v ===== *)
(** * Red-black trees: specifications

    The tree as a sorted list of elements: insertion, search and iteration.  The
    comparison function of the application is any total preorder. *)
From S2P Require Import Prelude RbTree RbTreeShape RbTreeInsert.

(** The contract of [pj_rbtree_comp]. *)
Class CompLaws (comp : Z -> Z -> Z) : Prop := {
  comp_sgn a b : Z.sgn (comp b a) = - Z.sgn (comp a b);
  comp_le_trans a b c : comp a b <= 0 -> comp b c <= 0 -> comp a c <= 0
}.

(** The sentinel: its children are itself. *)
Definition null_ok (t : pj_rbtree) : Prop :=
  exists p k ud, nodes t !! null t = Some (mk_node p (null t) (null t) k ud BLACK).

Lemma null_ok_black t : null_ok t -> null_black t.
Proof. intros (p & k & ud & H). by eexists. Qed.

Lemma framed_null_ok T t t' : represents t T -> framed T t t' -> null_ok t -> null_ok t'.
Proof.
  intros Hr [N _ H] (p & k & ud & Hn). exists p, k, ud. rewrite N, H; [done|]. apply (rp_null _ _ Hr).
Qed.

Section spec.
Context (comp : Z -> Z -> Z) `{!CompLaws comp}.

Definition below (e1 e2 : elem) : Prop := comp (e_key e1) (e_key e2) < 0.

(** A search tree: what holds between operations, balanced or not. *)
Record rbtree_ok (t : pj_rbtree) (T : tree) : Prop := {
  ro_rep : represents t T;
  ro_null : null_ok t;
  ro_root : top_color T = BLACK;
  ro_sorted : StronglySorted below (inorder T);
  ro_size : size t = Z.of_nat (length (inorder T))
}.

Lemma comp_lt_trans a b c : comp a b < 0 -> comp b c < 0 -> comp a c < 0.
Proof.
  intros H1 H2. pose proof (comp_le_trans a b c). pose proof (comp_le_trans c a b).
  pose proof (comp_sgn a c). pose proof (comp_sgn b c). lia.
Qed.

Lemma comp_eq_lt a b c : comp a b = 0 -> comp b c < 0 -> comp a c < 0.
Proof.
  intros H1 H2. pose proof (comp_le_trans a b c). pose proof (comp_le_trans c a b).
  pose proof (comp_sgn a c). pose proof (comp_sgn b c). lia.
Qed.

(** ** Sorted lists *)

Lemma sorted_app l1 l2 :
  StronglySorted below (l1 ++ l2) <->
  StronglySorted below l1 /\ StronglySorted below l2 /\ (forall x y, x ∈ l1 -> y ∈ l2 -> below x y).
Proof.
  induction l1 as [|a l1 IH]; simpl.
  - split; [|tauto]. intros. split; [constructor|]. split; [done|]. by intros x y ?%elem_of_nil.
  - split.
    + intros H. inversion H as [|? ? Hs Ha]; subst. apply IH in Hs as (H1 & H2 & H3).
      rewrite Forall_forall in Ha. split; [constructor; [done|]|split; [done|]].
      * rewrite Forall_forall. intros x Hx. apply Ha, elem_of_app. by left.
      * intros x y [->|Hx]%elem_of_cons Hy; [apply Ha, elem_of_app; by right|by apply H3].
    + intros (H1 & H2 & H3). inversion H1 as [|? ? Hs Ha]; subst. constructor.
      * apply IH. split; [done|]. split; [done|]. intros x y Hx. apply H3. by right.
      * rewrite Forall_forall in *. intros x [Hx|Hx]%elem_of_app; [by apply Ha|]. apply H3; [by left|done].
Qed.

(** The keys around a position. *)
Definition around (key : Z) (k : path) : Prop :=
  (forall e, e ∈ before k -> 0 < comp key (e_key e)) /\ (forall e, e ∈ after k -> comp key (e_key e) < 0).

Lemma around_step key k d c x e y :
  StronglySorted below (inorder (plug k (br d c x e y))) -> around key k ->
  (if d is Left then comp key (e_key e) < 0 else 0 < comp key (e_key e)) ->
  around key (mk_frame d c e y :: k).
Proof.
  rewrite inorder_plug, inorder_br. intros Hs [Hb Ha] He.
  apply sorted_app in Hs as (_ & Hs & _). apply sorted_app in Hs as (Hs & _ & _).
  destruct d; apply sorted_app in Hs as (_ & Hs2 & Hs1).
  - split; simpl; [intros e'; rewrite app_nil_r; apply Hb|].
    inversion Hs2 as [|? ? _ Hf]; subst. rewrite Forall_forall in Hf.
    intros e' [->|[Hy|Hy]%elem_of_app]%elem_of_cons; [done| |by apply Ha].
    eapply comp_lt_trans; [done|]. by apply Hf.
  - split; simpl; [|by apply Ha].
    intros e' [Hy|[Hy| ->%list_elem_of_singleton]%elem_of_app]%elem_of_app; [by apply Hb| |done].
    assert (below e' e) as Hlt by (apply Hs1; [done|by left]). unfold below in Hlt.
    pose proof (comp_lt_trans (e_key e') (e_key e) key Hlt) as Ht.
    pose proof (comp_sgn (e_key e) key). pose proof (comp_sgn (e_key e') key). lia.
Qed.

(** ** Search *)

Definition side_of (rv : Z) : side := if rv <? 0 then Left else Right.

(** The loops of insertion and search from a subtree: they end at the element
    with an equal key, or at the empty place for the key. *)
Lemma search_spec t key fuel k z rv :
  represents t (plug k z) -> StronglySorted below (inorder (plug k z)) -> around key k ->
  (forall f k', k = f :: k' -> side_of rv = f_side f) -> (height z < fuel)%nat ->
  (exists k' c x e y, plug k z = plug k' (Node c x e y) /\ comp key (e_key e) = 0 /\
     insert_search comp fuel t key (top (null t) z) (path_top (null t) k) rv = Some None /\
     find_loop comp fuel t key (top (null t) z) = Some (Some (e_addr e))) \/
  (exists k' rv', plug k z = plug k' Leaf /\ around key k' /\
     (forall f k'', k' = f :: k'' -> side_of rv' = f_side f) /\
     insert_search comp fuel t key (top (null t) z) (path_top (null t) k) rv =
       Some (Some (path_top (null t) k', rv')) /\
     find_loop comp fuel t key (top (null t) z) = Some None).
Proof.
  revert k z rv. induction fuel as [|fuel IH]; intros k z rv Hr Hs Hk Hrv Hf; [lia|].
  destruct z as [|c l e r]; simpl top.
  { right. exists k, rv. cbn [insert_search find_loop]. unfold not_null. rewrite Z.eqb_refl. done. }
  assert (e_addr e <> null t) as Hnl by apply (distinct_at t k Left c l e r Hr).
  cbn [insert_search find_loop]. rewrite (proj2 (Z.eqb_neq _ _) Hnl), (key_at t k Left c l e r Hr). rewrite !bind_some_eq; cbv beta zeta.
  destruct (Z.eqb_spec (comp key (e_key e)) 0) as [E|E]; [left; by exists k, c, l, e, r|].
  set (rv' := comp key (e_key e)) in *. simpl in Hf. change (if rv' <? 0 then Left else Right) with (side_of rv').
  destruct (side_of rv') eqn:Ed; unfold side_of in Ed; destruct (Z.ltb_spec rv' 0); try done.
  - pose proof (child_at t k Left c l e r Hr) as Hc. rewrite Hc. rewrite !bind_some_eq; cbv beta zeta.
    apply (IH (mk_frame Left c e r :: k) l rv'); [done|done| | |lia].
    + by apply (around_step key k Left c l e r).
    + intros f k' [= <- <-]. simpl. unfold side_of. destruct (Z.ltb_spec rv' 0); [done|lia].
  - pose proof (other_at t k Left c l e r Hr) as Hc. simpl in Hc. rewrite Hc. rewrite !bind_some_eq; cbv beta zeta.
    apply (IH (mk_frame Right c e l :: k) r rv'); [done|done| | |lia].
    + apply (around_step key k Right c r e l); [done|done|]. simpl. lia.
    + intros f k' [= <- <-]. simpl. unfold side_of. destruct (Z.ltb_spec rv' 0); [lia|done].
Qed.

(** There are fewer elements than nodes in the store, the sentinel being one. *)
Lemma length_nodes t T : represents t T -> null_ok t -> (length (inorder T) < steps t)%nat.
Proof.
  intros Hr (p & k & ud & Hn). unfold steps.
  assert (forall m nl p T, rep m nl p T -> forall a, a ∈ addrs T -> is_Some (m !! a)) as Hin.
  { clear. intros m nl p T. revert p. induction T as [|c l IHl e r IHr]; intros p.
    - by intros _ a ?%elem_of_nil.
    - intros (H & Hl & Hr) a [Ha|[->|Ha]]%(elem_of_addrs_br Left c l e r); eauto. }
  rewrite <- size_dom. replace (length (inorder T)) with (length (addrs T)) by apply length_map.
  assert (NoDup (null t :: addrs T)) as Hnd by (constructor; [apply (rp_null _ _ Hr)|apply (rp_nodup _ _ Hr)]).
  assert ((list_to_set (null t :: addrs T) : gset Z) ⊆ dom (nodes t)) as Hsub.
  { intros a [->|Ha]%elem_of_list_to_set%elem_of_cons; apply elem_of_dom; [by eexists|].
    eapply Hin; [apply (rp_rep _ _ Hr)|done]. }
  apply subseteq_size in Hsub. rewrite size_list_to_set in Hsub by done. simpl in Hsub. lia.
Qed.

Lemma height_length T : (height T <= length (inorder T))%nat.
Proof. induction T as [|c l IHl e r IHr]; simpl; [lia|]. rewrite length_app. simpl. lia. Qed.

Lemma around_nil key : around key [].
Proof. split; by intros e ?%elem_of_nil. Qed.

(** Search from the root. *)
Lemma search_root t T key :
  rbtree_ok t T ->
  (exists e, e ∈ inorder T /\ comp key (e_key e) = 0 /\
     insert_search comp (S (steps t)) t key (root t) (null t) 0 = Some None /\
     pj_rbtree_find comp t key = Some (Some (e_addr e))) \/
  (exists k rv, T = plug k Leaf /\ around key k /\
     (forall f k', k = f :: k' -> side_of rv = f_side f) /\
     insert_search comp (S (steps t)) t key (root t) (null t) 0 = Some (Some (path_top (null t) k, rv)) /\
     pj_rbtree_find comp t key = Some None).
Proof.
  intros Ho. pose proof (ro_rep _ _ Ho) as Hr. pose proof (length_nodes t T Hr (ro_null _ _ Ho)).
  pose proof (height_length T). unfold pj_rbtree_find. rewrite (rp_root _ _ Hr).
  destruct (search_spec t key (S (steps t)) [] T 0) as
    [(k & c & x & e & y & E & Hc & H1 & H2)|(k & rv & E & Ha & Hs & H1 & H2)];
    [done|apply (ro_sorted _ _ Ho)|apply around_nil|done|lia|left|right].
  - exists e. split; [|done]. simpl in E. rewrite E, inorder_plug, !elem_of_app. simpl.
    rewrite elem_of_app, elem_of_cons. tauto.
  - by exists k, rv.
Qed.

(** ** Insertion *)

Lemma top_color_plug k t f : last k = Some f -> top_color (plug k t) = f_color f.
Proof.
  revert t. induction k as [|g k IH]; intros t; [done|]. destruct k as [|h k].
  - intros [= ->]. simpl. apply top_color_br.
  - intros H. by apply (IH (br (f_side g) (f_color g) t (f_elem g) (f_other g))).
Qed.

Lemma length_path k : (length k <= length (before k ++ after k))%nat.
Proof.
  induction k as [|[d c e s] k IH]; simpl; [lia|]. rewrite length_app in *.
  destruct d; simpl; rewrite ?length_app; simpl; rewrite ?length_app; simpl; lia.
Qed.

(** A fresh red leaf in the hole of a path. *)
Lemma attach_leaf t f k a key ud (T := plug (f :: k) Leaf) (e := mk_elem a key ud) n :
  represents t T -> (a ∉ addrs T) -> a <> null t ->
  nodes t !! a = Some n -> n = mk_node (n_parent n) (null t) (null t) key ud RED ->
  exists t', (t1 ← set_parent t a (path_top (null t) (f :: k));
              set_child (f_side f) t1 (path_top (null t) (f :: k)) a) = Some t' /\
    represents t' (plug (f :: k) (br Left RED Leaf e Leaf)) /\ null t' = null t /\ size t' = size t /\
    (forall b, b <> a -> (b ∉ addrs T) -> nodes t' !! b = nodes t !! b).
Proof.
  intros Hr Ha Hnl Hn En. destruct f as [d c fe fo].
  assert (addrs T ≡ₚ path_addrs (mk_frame d c fe fo :: k)) as HP by (unfold T; by rewrite addrs_plug).
  pose proof (represents_at t k d c Leaf fe fo Hr) as Hf. simpl in Hf.
  assert (a <> e_addr fe) as Haf.
  { intros ->. apply Ha. rewrite HP. apply path_addrs_cons. auto. }
  unfold set_parent. rewrite (update_some _ _ _ _ Hn). bind_step. cbn [path_top f_elem].
  unfold set_child. erewrite update_some by (simpl; rewrite lookup_insert_ne by done; exact Hf).
  eexists. split; [done|]. pose proof (rp_nodup _ _ Hr) as Hnd. pose proof (rp_null _ _ Hr) as Hnul.
  fold T in Hnd, Hnul. rewrite HP in Hnd, Hnul. apply NoDup_frame in Hnd as (Hs & Hk & Hndk & Hsk).
  assert (forall b, b <> a -> b <> e_addr fe -> (<[e_addr fe := with_child d a (nd d (path_top (null t) k) (null t) (top (null t) fo) fe c)]>
    (<[a := with_parent (e_addr fe) n]> (nodes t))) !! b = nodes t !! b) as Hoth
    by (intros; by rewrite !lookup_insert_ne by done).
  split; [|split; [done|split; [done|]]].
  - pose proof (rp_rep _ _ Hr) as Hrep. apply (rep_plug _ _ (mk_frame d c fe fo :: k)) in Hrep as [_ (_ & Hrs & Hrk)].
    simpl in Hrs, Hrk.
    assert (addrs (plug (mk_frame d c fe fo :: k) (br Left RED Leaf e Leaf)) ≡ₚ a :: path_addrs (mk_frame d c fe fo :: k)) as HP'
      by (rewrite addrs_plug; done).
    split; cbn [nodes null root set_nodes].
    + apply rep_plug. split; [|simpl; split; [|split]].
      * simpl. rewrite lookup_insert_ne, lookup_insert_eq by done. split; [|done]. rewrite En. done.
      * eexists. split; [apply lookup_insert_eq|]. by destruct d.
      * eapply rep_frame; [|exact Hrs]. intros b Hb. apply Hoth; [|by intros ->]. intros ->. apply Ha. rewrite HP, path_addrs_cons. auto.
      * eapply rep_path_frame; [|exact Hrk]. intros b Hb. apply Hoth; [|by intros ->]. intros ->. apply Ha. rewrite HP, path_addrs_cons. auto.
    + rewrite (rp_root _ _ Hr). unfold T. simpl. apply top_plug. by rewrite !top_br.
    + rewrite HP'. constructor; [by rewrite <- HP|]. rewrite <- HP. apply (rp_nodup _ _ Hr).
    + rewrite HP'. apply not_elem_of_cons. split; [done|]. done.
  - intros b Hb HbT. apply Hoth; [done|]. intros ->. apply HbT. rewrite HP, path_addrs_cons. auto.
Qed.

Lemma recolor_root t T :
  represents t T -> T <> Leaf ->
  exists t' T', set_color t (root t) BLACK = Some t' /\ represents t' T' /\ inorder T' = inorder T /\
    framed T t t' /\ top_color T' = BLACK /\
    ((exists N, black_height T N) -> no_red_red T -> red_black T').
Proof.
  intros Hr Hne. destruct T as [|c l e r]; [done|].
  destruct (set_color_at t [] Left c l e r BLACK Hr) as (t' & E & H & F).
  exists t', (Node BLACK l e r). rewrite (rp_root _ _ Hr). simpl. split; [done|]. split; [done|].
  split; [done|]. split; [done|]. split; [done|]. intros [N HN] Hn. split; [done|split; [done|apply Hn]|].
  inversion HN as [|? ? ? ? n Hl Hr']; subst. exists (S n). by apply (bh_node BLACK).
Qed.

Lemma insert_fixup_spec t f k e (T := plug (f :: k) (br Left RED Leaf e Leaf)) :
  represents t T -> null_ok t -> path_root_black (f :: k) ->
  exists t' T', insert_fixup t (e_addr e) = Some t' /\ represents t' T' /\ inorder T' = inorder T /\
    framed T t t' /\ top_color T' = BLACK /\ (path_ok (f :: k) 0 BLACK -> red_black T').
Proof.
  intros Hr Hnl Hkr. unfold insert_fixup.
  destruct (insert_fixup_loop_spec (S (base.size (nodes t))) (f :: k) t Left Leaf e Leaf 0 Hr (null_ok_black t Hnl) Hkr)
    as (t1 & T1 & -> & H1 & I1 & F1 & B1).
  { pose proof (length_nodes t T Hr Hnl) as Hl. pose proof (length_path (f :: k)) as Hp.
    unfold T in Hl. rewrite inorder_plug, !length_app in Hl. rewrite length_app in Hp. unfold steps in Hl. lia. }
  bind_step. destruct (recolor_root t1 T1 H1) as (t2 & T2 & E2 & H2 & I2 & F2 & C2 & B2).
  { intros ->. unfold T in I1. rewrite inorder_plug in I1.
    apply (f_equal length) in I1. rewrite !length_app in I1. cbn [length inorder br app] in I1. lia. }
  exists t2, T2. split; [done|]. split; [done|]. split; [by rewrite I2|].
  split; [by eapply framed_trans|]. split; [done|].
  intros Hk. destruct B1; [done| |by simpl|auto].
  apply (bh_node RED Leaf e Leaf 0); constructor.
Qed.

(** What inserting the element [e] does to the tree. *)
Record inserted (t t' : pj_rbtree) (T T' : tree) (e : elem) : Prop := {
  in_ok : rbtree_ok t' T';
  in_elems : inorder T' ≡ₚ e :: inorder T;
  in_balanced : red_black T -> red_black T';
  in_frame b : b <> e_addr e -> (b ∉ addrs T) -> nodes t' !! b = nodes t !! b
}.

(** The elements around a place, with a new one in it, are sorted. *)
Lemma sorted_insert k e :
  StronglySorted below (before k ++ after k) -> around (e_key e) k ->
  StronglySorted below (before k ++ e :: after k).
Proof.
  intros (H1 & H2 & H3)%sorted_app [Hb Ha]. apply sorted_app.
  assert (forall x, x ∈ before k -> below x e) as Hbe.
  { intros x Hx. specialize (Hb x Hx). pose proof (comp_sgn (e_key e) (e_key x)). unfold below. lia. }
  split; [done|]. split.
  - constructor; [done|]. rewrite Forall_forall. apply Ha.
  - intros x y Hx [->|Hy]%elem_of_cons; [by apply Hbe|by apply H3].
Qed.

Lemma inserted_intro t t' T T' k e :
  rbtree_ok t T -> T = plug k Leaf -> around (e_key e) k -> Z.of_nat (length (inorder T)) + 1 < 2 ^ 32 ->
  represents t' T' -> inorder T' = before k ++ e :: after k -> null_ok t' -> top_color T' = BLACK ->
  size t' = size t -> (red_black T -> red_black T') ->
  (forall b, b <> e_addr e -> (b ∉ addrs T) -> nodes t' !! b = nodes t !! b) ->
  inserted t (set_size t' (u32 (size t' + 1))) T T' e.
Proof.
  intros Ho HT Hk Hlt Hr Hio Hn Hc Hsz Hb Hfr.
  assert (inorder T = before k ++ after k) as HioT by (rewrite HT, inorder_plug; done).
  split; try done.
  - split; [by destruct Hr; split|done|done| |].
    + rewrite Hio. apply sorted_insert; [|done]. rewrite <- HioT. apply (ro_sorted _ _ Ho).
    + simpl. rewrite Hsz, (ro_size _ _ Ho), u32_small by lia. rewrite Hio, HioT, !length_app. simpl. lia.
  - rewrite Hio, HioT. symmetry. apply Permutation_middle.
Qed.

(** The assignments to the new node. *)
Lemma prepare_node t a n :
  nodes t !! a = Some n ->
  exists t1 t2 t3, set_color t a RED = Some t1 /\ set_child Right t1 a (null t1) = Some t2 /\
    set_child Left t2 a (null t2) = Some t3 /\
    t3 = set_nodes t (<[a := mk_node (n_parent n) (null t) (null t) (n_key n) (n_user_data n) RED]> (nodes t)).
Proof.
  intros Hn. unfold set_color, set_child. rewrite (update_some _ _ _ _ Hn). eexists _, _, _. split; [done|].
  erewrite update_some by apply lookup_insert_eq. split; [done|].
  erewrite update_some by apply lookup_insert_eq. split; [done|].
  simpl. by rewrite !insert_insert_eq.
Qed.

(** A write to a node that is not in the tree. *)
Lemma represents_other t T a n :
  represents t T -> (a ∉ addrs T) -> represents (set_nodes t (<[a := n]> (nodes t))) T.
Proof.
  intros [Hr Hrt Hnd Hnl] Ha. split; try done. eapply rep_frame; [|exact Hr].
  intros b Hb. apply lookup_insert_ne. by intros <-.
Qed.

(** The first node of a tree. *)
Lemma attach_root t a key ud p :
  represents t Leaf -> nodes t !! a = Some (mk_node p (null t) (null t) key ud RED) -> a <> null t ->
  exists t', (t ← set_parent (set_root t a) a (null t); set_color t a BLACK) = Some t' /\
    represents t' (Node BLACK Leaf (mk_elem a key ud) Leaf) /\ null t' = null t /\ size t' = size t /\
    (forall b, b <> a -> nodes t' !! b = nodes t !! b).
Proof.
  intros Hr Hn Ha. unfold set_parent, set_color. erewrite update_some by exact Hn. bind_step.
  erewrite update_some by apply lookup_insert_eq. eexists. split; [done|]. split; [|split; [done|split; [done|]]].
  - split; simpl; [|done|apply NoDup_singleton|intros E; by apply list_elem_of_singleton in E].
    by rewrite lookup_insert_eq.
  - intros b Hb. simpl. by rewrite !lookup_insert_ne.
Qed.

(** C32 Inserting a node into a search tree fails with -1, changing nothing,
    exactly if an equal key is present; otherwise the tree afterwards holds one
    element more, in the order of the keys, no other node is touched, and the
    red-black conditions hold if they held before. *)
Theorem rbtree_insert_correct t T a n :
  rbtree_ok t T -> Z.of_nat (length (inorder T)) + 1 < 2 ^ 32 ->
  nodes t !! a = Some n -> (a ∉ addrs T) -> a <> null t ->
  (exists e, e ∈ inorder T /\ comp (n_key n) (e_key e) = 0 /\ pj_rbtree_insert comp t a = Some (-1, t)) \/
  (forall e, e ∈ inorder T -> comp (n_key n) (e_key e) <> 0) /\
  exists t' T', pj_rbtree_insert comp t a = Some (0, t') /\
    inserted t t' T T' (mk_elem a (n_key n) (n_user_data n)).
Proof.
  intros Ho Hlt Hn Ha Hnl. unfold pj_rbtree_insert.
  assert (node_key t a = Some (n_key n)) as -> by (unfold node_key; by rewrite Hn). bind_step.
  destruct (search_root t T (n_key n) Ho) as [(e & He & Hc & -> & _)|(k & rv & HT & Hk & Hs & -> & _)].
  { left. by exists e. }
  right. bind_step. split.
  { intros e He. rewrite HT, inorder_plug in He. destruct Hk as [Hb Hk].
    apply elem_of_app in He as [He%Hb|He%Hk]; lia. }
  destruct (prepare_node t a n Hn) as (t1 & t2 & t3 & -> & E2 & E3 & Et3). bind_step.
  rewrite E2. bind_step. rewrite E3. bind_step. clear t1 t2 E2 E3.
  assert (null t = null t3) as Enl by (by rewrite Et3).
  assert (represents t3 T) as Hr3 by (rewrite Et3; apply represents_other; [apply (ro_rep _ _ Ho)|done]).
  assert (nodes t3 !! a = Some (mk_node (n_parent n) (null t3) (null t3) (n_key n) (n_user_data n) RED)) as Hn3
    by (rewrite Et3; apply lookup_insert_eq).
  assert (forall b, b <> a -> nodes t3 !! b = nodes t !! b) as Hoth3
    by (intros b Hb; rewrite Et3; by apply lookup_insert_ne).
  assert (size t3 = size t) as Es3 by (by rewrite Et3). clear Et3.
  assert (null_ok t3) as Hn3'.
  { destruct (ro_null _ _ Ho) as (p & kk & ud & E). exists p, kk, ud. by rewrite <- Enl, Hoth3 by congruence. }
  rewrite Enl in *. destruct k as [|f k].
  - cbn [path_top]. rewrite Z.eqb_refl. cbn [negb].
    destruct (attach_root t3 a (n_key n) (n_user_data n) (n_parent n)) as (t5 & E5 & H5 & N5 & S5 & O5);
      [by rewrite HT in Hr3|done|done|]. rewrite E5. bind_step. eexists _, _. split; [done|].
    eapply (inserted_intro t t5 T _ []); try done; [|congruence| |].
    + destruct Hn3' as (p & kk & ud & E). exists p, kk, ud. by rewrite N5, O5 by done.
    + intros _. split; [done|done|]. exists 1%nat. apply (bh_node BLACK); constructor.
    + intros b Hb _. by rewrite O5, Hoth3.
  - assert (path_top (null t3) (f :: k) <> null t3) as Hp.
    { simpl. intros E. apply (rp_null _ _ Hr3). rewrite HT, addrs_plug. apply elem_of_app. right.
      rewrite <- E. destruct f. apply path_addrs_cons. auto. }
    rewrite (proj2 (Z.eqb_neq _ _) Hp). cbn [negb]. change (if rv <? 0 then Left else Right) with (side_of rv).
    rewrite (Hs f k eq_refl). subst T.
    destruct (attach_leaf t3 f k a (n_key n) (n_user_data n) _ Hr3 Ha Hnl Hn3 eq_refl)
      as (t5 & E5 & H5 & N5 & S5 & O5). apply bind_Some in E5 as (t4 & -> & E5). bind_step. rewrite E5. bind_step.
    destruct (insert_fixup_spec t5 f k _ H5) as (t6 & T6 & E6 & H6 & I6 & F6 & C6 & B6).
    { destruct Hn3' as (p & kk & ud & E). exists p, kk, ud. rewrite N5, O5; [done|done|]. apply (rp_null _ _ Hr3). }
    { intros g Hg. rewrite <- (top_color_plug _ Leaf _ Hg). apply (ro_root _ _ Ho). }
    simpl in E6. rewrite E6. bind_step. eexists _, _. split; [done|].
    eapply (inserted_intro t t6 _ _ (f :: k)); try done.
    + by rewrite I6, inorder_plug.
    + eapply framed_null_ok; [exact H5|exact F6|].
      destruct Hn3' as (p & kk & ud & E). exists p, kk, ud. rewrite N5, O5; [done|done|]. apply (rp_null _ _ Hr3).
    + rewrite (fr_size _ _ _ F6). congruence.
    + intros [_ Hred [N HN]]. apply B6.
      destruct (plug_ok_inv _ _ _ HN Hred) as (m & Hm & _ & Hok). by inversion Hm; subst.
    + intros b Hb HbT. rewrite (fr_nodes _ _ _ F6), O5, Hoth3; try done.
      rewrite addrs_plug. rewrite addrs_plug in HbT. intros [->%list_elem_of_singleton|Hin]%elem_of_app; [done|].
      apply HbT, elem_of_app. by right.
Qed.

(** [pj_rbtree_find] returns the element with an equal key if there is one,
    and NULL otherwise. *)
Theorem rbtree_find_correct t T key :
  rbtree_ok t T ->
  match pj_rbtree_find comp t key with
  | Some (Some a) => exists e, e ∈ inorder T /\ e_addr e = a /\ comp key (e_key e) = 0
  | Some None => forall e, e ∈ inorder T -> comp key (e_key e) <> 0
  | None => False
  end.
Proof.
  intros Ho. destruct (search_root t T key Ho) as [(e & He & Hc & _ & ->)|(k & rv & HT & [Hb Ha] & _ & _ & ->)].
  - by exists e.
  - intros e He. rewrite HT, inorder_plug in He. apply elem_of_app in He as [He%Hb|He%Ha]; lia.
Qed.

(** ** Iteration *)

Definition end_of (d : side) (l : list elem) : option elem :=
  match d with Left => head l | Right => last l end.

Lemma end_of_in d l u : end_of d l = Some u -> u ∈ l.
Proof.
  destruct d; simpl; [destruct l; simpl; [done|]; intros [= ->]; by left|].
  intros [l' ->]%last_Some. apply elem_of_app. right. by left.
Qed.

Lemma end_of_cons d c x e y :
  end_of d (inorder (br d c x e y)) = match end_of d (inorder x) with Some u => Some u | None => Some e end.
Proof.
  rewrite inorder_br. destruct d; simpl; [by destruct (inorder x)|].
  rewrite last_app, last_cons. by destruct (last (inorder x)).
Qed.

Lemma descend_spec t d fuel k z :
  represents t (plug k z) -> z <> Leaf -> (height z <= S fuel)%nat ->
  exists e, end_of d (inorder z) = Some e /\ descend fuel d t (top (null t) z) = Some (e_addr e).
Proof.
  revert k z. induction fuel as [|fuel IH]; intros k z Hr Hz Hf;
    (destruct z as [|c l e r]; [done|]); simpl top;
    (assert (exists x y, Node c l e r = br d c x e y /\ (height x < height (Node c l e r))%nat) as (x & y & E & Hx);
     [destruct d; [exists l, r|exists r, l]; (split; [done|simpl; lia])|]);
    rewrite E in *; rewrite end_of_cons; unfold descend; fold descend;
    rewrite (child_at t k d c x e y Hr); bind_step.
  - destruct x as [|c' l' e' r']; [|simpl in *; lia]. simpl. rewrite Z.eqb_refl. simpl.
    exists e. by destruct d.
  - destruct x as [|c' l' e' r']; [simpl; rewrite Z.eqb_refl; simpl; exists e; by destruct d|].
    assert (top (null t) (Node c' l' e' r') <> null t) as Hne by apply (distinct_at t (mk_frame d c e y :: k) Left c' l' e' r' Hr).
    rewrite (proj2 (Z.eqb_neq _ _) Hne). simpl negb.
    destruct (IH (mk_frame d c e y :: k) _ Hr) as (u & Hu & ->); [done|lia|]. exists u. by rewrite Hu.
Qed.

(** The element next to the hole of a path. *)
Definition beyond (d : side) (k : path) : option elem :=
  match d with Right => head (after k) | Left => last (before k) end.

Lemma beyond_cons d c e s k d' :
  beyond d' (mk_frame d c e s :: k) = if decide (d = d') then beyond d' k else Some e.
Proof.
  destruct d, d'; simpl; rewrite ?app_nil_r; try done.
  by rewrite app_assoc, last_snoc.
Qed.

Definition addr_or_null (t : pj_rbtree) (o : option elem) : Z :=
  match o with Some e => e_addr e | None => null t end.

Lemma climb_spec t d fuel k z :
  represents t (plug k z) -> z <> Leaf -> (length k <= fuel)%nat ->
  climb fuel d t (top (null t) z) (path_top (null t) k) = Some (addr_or_null t (beyond d k)).
Proof.
  revert fuel z. induction k as [|[fd fc fe fo] k IH]; intros fuel z Hr Hz Hf.
  { destruct fuel; simpl; rewrite Z.eqb_refl; by destruct d. }
  destruct z as [|c l e r]; [done|]. simpl top.
  destruct (distinct_at t (mk_frame fd fc fe fo :: k) Left c l e r Hr) as (_ & _ & Hk & _ & _ & Hnl).
  pose proof (top_other _ _ _ _ _ _ _ Hnl Hk) as Hot.
  assert (e_addr fe <> null t) as Hfe by apply (distinct_at t k fd fc _ fe fo Hr).
  pose proof (child_at t k fd fc _ fe fo Hr) as H1. pose proof (other_at t k fd fc _ fe fo Hr) as H2. simpl in H1.
  rewrite beyond_cons. destruct fuel as [|fuel]; [simpl in Hf; lia|]. cbn [climb path_top f_elem].
  rewrite (proj2 (Z.eqb_neq _ _) Hfe). destruct (decide (fd = d)) as [->|Hd].
  - rewrite H1. bind_step. rewrite Z.eqb_refl, (parent_at t k d fc _ fe fo Hr). bind_step.
    specialize (IH fuel (br d fc (Node c l e r) fe fo) Hr). rewrite top_br in IH.
    apply IH; [by destruct d|simpl in Hf; lia].
  - assert (d = flip fd) as -> by (by destruct fd, d). rewrite H2. bind_step.
    by rewrite (proj2 (Z.eqb_neq _ _)) by congruence.
Qed.

Lemma step_spec t d k c x e y :
  represents t (plug k (br d c x e y)) -> null_ok t ->
  pj_rbtree_step d t (e_addr e) =
    Some (e_addr <$> match end_of (flip d) (inorder x) with Some u => Some u | None => beyond d k end).
Proof.
  intros Hr Hn. unfold pj_rbtree_step. rewrite (child_at t k d c x e y Hr). bind_step.
  pose proof (length_nodes t _ Hr Hn) as Hl. rewrite inorder_plug, !length_app in Hl.
  pose proof (length_path k) as Hp. rewrite length_app in Hp.
  assert (forall o, (forall u, o = Some u -> e_addr u ∈ addrs (plug k (br d c x e y))) ->
    not_null t (addr_or_null t o) = e_addr <$> o) as Hnn.
  { intros [u|] Hu; unfold not_null; simpl; [|by rewrite Z.eqb_refl].
    by rewrite (proj2 (Z.eqb_neq _ _) (represents_in _ _ _ Hr (Hu u eq_refl))). }
  destruct x as [|c' l' e' r'].
  - simpl top. rewrite Z.eqb_refl. simpl negb. rewrite (parent_at t k d c _ e y Hr). bind_step.
    pose proof (climb_spec t d (steps t) k (br d c Leaf e y) Hr ltac:(by destruct d) ltac:(lia)) as Hc.
    rewrite top_br in Hc. rewrite Hc. bind_step. rewrite Hnn; [by destruct d|].
    intros u Hu. rewrite addrs_plug. apply elem_of_app. right. unfold path_addrs. apply list_elem_of_fmap_2.
    apply elem_of_app. destruct d; [left; by apply (end_of_in Right)|right; by apply (end_of_in Left)].
  - assert (top (null t) (Node c' l' e' r') <> null t) as Hne by apply (distinct_at t (mk_frame d c e y :: k) Left c' l' e' r' Hr).
    rewrite (proj2 (Z.eqb_neq _ _) Hne). simpl negb.
    pose proof (height_length (Node c' l' e' r')) as Hh.
    assert (length (inorder (Node c' l' e' r')) <= length (inorder (br d c (Node c' l' e' r') e y)))%nat
      by (rewrite inorder_br; destruct d; rewrite length_app; simpl; lia).
    destruct (descend_spec t (flip d) (steps t) (mk_frame d c e y :: k) (Node c' l' e' r') Hr) as (u & Hu & ->); [done|lia|].
    bind_step. rewrite Hu. specialize (Hnn (Some u)). simpl in Hnn. rewrite Hnn; [done|].
    intros ? [= ->]. rewrite addrs_plug. apply elem_of_app. left. apply elem_of_addrs_br. left.
    unfold addrs. apply list_elem_of_fmap_2. by apply (end_of_in (flip d)).
Qed.

(** Every element of the list is at a position of the tree. *)
Lemma position T pre e post :
  inorder T = pre ++ e :: post ->
  exists k c l r, T = plug k (Node c l e r) /\ pre = before k ++ inorder l /\ post = inorder r ++ after k.
Proof.
  assert (forall T k pre post, inorder T = pre ++ e :: post ->
    exists k' c l r, plug k T = plug k' (Node c l e r) /\ before k ++ pre = before k' ++ inorder l /\
      post ++ after k = inorder r ++ after k') as H.
  { clear. induction T as [|c l IHl u r IHr]; intros k pre post; simpl; [by destruct pre|]. intros E.
    apply app_eq_app in E as (q & [[El Er]|[El Er]]); destruct q as [|v q]; simplify_eq/=;
      rewrite ?app_nil_r in *; subst.
    - by exists k, c, l, r.
    - destruct (IHl (mk_frame Left c u r :: k) pre q El) as (k' & c' & l' & r' & H1 & H2 & H3).
      exists k', c', l', r'. split; [done|]. simpl in H2, H3. rewrite app_nil_r in H2. split; [done|].
      rewrite <- app_assoc. done.
    - by exists k, c, l, r.
    - destruct (IHr (mk_frame Right c v l :: k) q post ltac:(done)) as (k' & c' & l' & r' & H1 & H2 & H3).
      exists k', c', l', r'. split; [done|]. simpl in H2, H3. split; [|done].
      rewrite <- H2, <- !app_assoc. done. }
  intros E. destruct (H T [] pre post E) as (k & c & l & r & H1 & H2 & H3). rewrite app_nil_r in H3.
  by exists k, c, l, r.
Qed.

(** Iteration follows the order of the keys: the first and the last element
    are the ends of the sorted list, and the successor and the predecessor of
    each element are its neighbours, or NULL at the ends. *)
Theorem rbtree_iteration t T :
  rbtree_ok t T ->
  pj_rbtree_first t = Some (e_addr <$> head (inorder T)) /\
  pj_rbtree_last t = Some (e_addr <$> last (inorder T)) /\
  forall pre e post, inorder T = pre ++ e :: post ->
    pj_rbtree_next t (e_addr e) = Some (e_addr <$> head post) /\
    pj_rbtree_prev t (e_addr e) = Some (e_addr <$> last pre).
Proof.
  intros Ho. pose proof (ro_rep _ _ Ho) as Hr. pose proof (ro_null _ _ Ho) as Hn.
  assert (forall d, pj_rbtree_end d t = Some (e_addr <$> end_of d (inorder T))) as He.
  { intros d. unfold pj_rbtree_end. rewrite (rp_root _ _ Hr). destruct T as [|c l e r].
    - destruct Hn as (p & kk & ud & Hnl). destruct (steps t); simpl; unfold child; rewrite Hnl; simpl;
        destruct d; simpl; rewrite Z.eqb_refl; simpl; unfold not_null; by rewrite Z.eqb_refl.
    - pose proof (length_nodes t _ Hr Hn). pose proof (height_length (Node c l e r)).
      destruct (descend_spec t d (steps t) [] (Node c l e r) Hr) as (u & Hu & ->); [done|lia|].
      bind_step. rewrite Hu. simpl. unfold not_null.
      rewrite (proj2 (Z.eqb_neq (e_addr u) (null t))); [done|]. apply (represents_in _ _ _ Hr).
      unfold addrs. apply list_elem_of_fmap_2. by apply (end_of_in d). }
  split; [apply (He Left)|]. split; [apply (He Right)|].
  intros pre e post E. destruct (position T pre e post E) as (k & c & l & r & -> & -> & ->). split.
  - unfold pj_rbtree_next. rewrite (step_spec t Right k c r e l Hr Hn). simpl. by destruct (inorder r).
  - unfold pj_rbtree_prev. rewrite (step_spec t Left k c l e r Hr Hn). simpl. rewrite last_app.
    by destruct (last (inorder l)).
Qed.
End spec.
