(* ===== verification/RbTreeErase.v ===== *)
(** * Red-black trees: deletion

    The assignments of a deletion on a tree of any colours: the fix-up keeps the
    elements in order whatever the colours are, so that the search order
    survives every deletion.  The sentinel takes part: its colour and its parent
    are written. *)
From S2P Require Import Prelude RbTree RbTreeShape RbTreeInsert RbTreeSpec.

(** The sentinel, of whatever colour and parent. *)
Definition null_links (t : pj_rbtree) : Prop :=
  exists n, nodes t !! null t = Some n /\ n_left n = null t /\ n_right n = null t.

(** What is left alone by operations on [T] that may write to the sentinel. *)
Record framed0 (T : tree) (t t' : pj_rbtree) : Prop := {
  f0_null : null t' = null t;
  f0_size : size t' = size t;
  f0_nodes a : a <> null t -> (a ∉ addrs T) -> nodes t' !! a = nodes t !! a
}.

(** [t'] results from [t] by steps that keep the elements and their order. *)
Record evolves (t t' : pj_rbtree) (T T' : tree) : Prop := {
  ev_rep : represents t' T';
  ev_null : null_links t';
  ev_elems : inorder T' = inorder T;
  ev_frame : framed0 T t t'
}.

Lemma evolves_refl t T : represents t T -> null_links t -> evolves t t T T.
Proof. intros. by split. Qed.

Lemma evolves_trans t t' t'' T T' T'' :
  evolves t t' T T' -> evolves t' t'' T' T'' -> evolves t t'' T T''.
Proof.
  intros [_ _ E1 [N1 S1 F1]] [R2 L2 E2 [N2 S2 F2]]. split; [done|done|congruence|].
  split; [congruence..|]. intros a Ha HT. rewrite F2, F1; try done; [congruence|].
  unfold addrs. by rewrite E1.
Qed.

Lemma framed_evolves t t' T T' :
  represents t T -> null_links t -> represents t' T' -> inorder T' = inorder T -> framed T t t' ->
  evolves t t' T T'.
Proof.
  intros Hr Hl Hr' Hi [N S F]. split; [done| |done|split; auto].
  destruct Hl as (n & Hn & ?). exists n. rewrite N, F; [done|]. apply (rp_null _ _ Hr).
Qed.

(** ** Operations at the top of a subtree, which may be the sentinel *)

Definition recolor (c : pj_rbcolor_t) (z : tree) : tree :=
  match z with Leaf => Leaf | Node _ l e r => Node c l e r end.

Definition sub (d : side) (z : tree) : tree :=
  match z, d with Leaf, _ => Leaf | Node _ l _ _, Left => l | Node _ _ _ r, Right => r end.

Lemma inorder_recolor c z : inorder (recolor c z) = inorder z.
Proof. by destruct z. Qed.

Lemma sub_br d c x e y : sub d (br d c x e y) = x.
Proof. by destruct d. Qed.

Lemma sub_flip_br d c x e y : sub (flip d) (br d c x e y) = y.
Proof. by destruct d. Qed.

Lemma recolor_br d c c' x e y : recolor c' (br d c x e y) = br d c' x e y.
Proof. by destruct d. Qed.

Lemma tree_cases d z : z = Leaf \/ exists c x e y, z = br d c x e y.
Proof. destruct z as [|c l e r]; [by left|right]. destruct d; [by exists c, l, e, r|by exists c, r, e, l]. Qed.

Lemma set_color_top t k z c :
  represents t (plug k z) -> null_links t ->
  exists t', set_color t (top (null t) z) c = Some t' /\ evolves t t' (plug k z) (plug k (recolor c z)).
Proof.
  intros Hr Hl. destruct z as [|c0 l e r]; simpl.
  - destruct Hl as (n & Hn & El & Er). unfold set_color. rewrite (update_some _ _ _ _ Hn). eexists. split; [done|].
    split; [apply represents_other; [done|apply (rp_null _ _ Hr)]| |done|].
    + exists (with_color c n). simpl. by rewrite lookup_insert_eq.
    + split; [done..|]. intros a Ha _. by apply lookup_insert_ne.
  - destruct (set_color_at t k Left c0 l e r c Hr) as (t' & E & H & F). exists t'. split; [done|].
    apply framed_evolves; try done. simpl. by rewrite !inorder_plug.
Qed.

Section top_ops.
Context (t : pj_rbtree) (k : path) (z : tree).
Hypothesis (Hr : represents t (plug k z)) (Hl : null_links t).

Lemma child_top d : child d t (top (null t) z) = Some (top (null t) (sub d z)).
Proof.
  destruct (tree_cases d z) as [E|(c & x & e & y & E)]; subst z.
  - destruct Hl as (n & Hn & El & Er). unfold child. simpl. rewrite Hn. by destruct d; simpl; f_equal.
  - rewrite top_br, sub_br. by apply (child_at t k d c x e y).
Qed.

Lemma color_top_some : exists c, color t (top (null t) z) = Some c.
Proof.
  destruct z as [|c l e r]; simpl.
  - destruct Hl as (n & Hn & _). unfold color. rewrite Hn. by eexists.
  - exists c. apply (color_at t k Left c l e r Hr).
Qed.

Lemma set_color_sub d c :
  exists t' z', set_color t (top (null t) (sub d z)) c = Some t' /\
    evolves t t' (plug k z) (plug k z') /\ top (null t) z' = top (null t) z.
Proof.
  destruct (tree_cases d z) as [E|(c0 & x & e & y & E)].
  - rewrite E. simpl. pose proof (set_color_top t k z c Hr Hl) as H. rewrite E in H. simpl in H.
    destruct H as (t' & -> & H).
    exists t', Leaf. done.
  - subst z. rewrite sub_br.
    assert (exists t', set_color t (top (null t) x) c = Some t' /\
      evolves t t' (plug (mk_frame d c0 e y :: k) x) (plug (mk_frame d c0 e y :: k) (recolor c x))) as (t' & -> & H).
    { by apply set_color_top. }
    exists t', (br d c0 (recolor c x) e y). split; [done|]. split; [exact H|]. by rewrite !top_br.
Qed.

(** A rotation, which does nothing without a child to rotate up. *)
Lemma rotate_top d :
  exists t' z', rotate d t (top (null t) z) = Some t' /\ evolves t t' (plug k z) (plug k z').
Proof.
  destruct (tree_cases d z) as [E|(c & x & e & y & E)]; subst z.
  { exists t, Leaf. split; [|by apply evolves_refl].
    unfold rotate. destruct Hl as (n & Hn & El & Er).
    assert (child (flip d) t (null t) = Some (null t)) as Hc
      by (unfold child; rewrite Hn; destruct d; simpl; by f_equal).
    simpl. rewrite Hc. bind_step. by rewrite Z.eqb_refl. }
  rewrite top_br. destruct (tree_cases d y) as [->|(c' & u & e' & v & ->)].
  - eexists t, _. split; [by eapply rotate_none|]. by apply evolves_refl.
  - destruct (rotate_at t k d c x e c' u e' v Hr) as (t' & E & H & F). eexists t', _. split; [done|].
    apply framed_evolves; try done. apply inorder_rotate.
Qed.
End top_ops.

Lemma color_sub_some t k z d :
  represents t (plug k z) -> null_links t -> exists c, color t (top (null t) (sub d z)) = Some c.
Proof.
  intros Hr Hl. destruct (tree_cases d z) as [->|(c & x & e & y & ->)]; simpl.
  - by apply (color_top_some t k Leaf).
  - rewrite sub_br. by apply (color_top_some t (mk_frame d c e y :: k) x).
Qed.

(** ** The fix-up *)

(** A position seen from the sibling. *)
Lemma at_sibling d pc pe S k X :
  plug (mk_frame (flip d) pc pe X :: k) S = plug (mk_frame d pc pe S :: k) X.
Proof. simpl. by rewrite br_flip. Qed.

Lemma parent_focus t k X :
  represents t (plug k X) -> X <> Leaf -> parent t (top (null t) X) = Some (path_top (null t) k).
Proof. destruct X as [|c l e r]; [done|]. intros Hr _. apply (parent_at t k Left c l e r Hr). Qed.

Lemma sibling_focus t d pc pe S k X :
  represents t (plug (mk_frame d pc pe S :: k) X) -> child (flip d) t (e_addr pe) = Some (top (null t) S).
Proof. intros Hr. apply (other_at t k d pc X pe S Hr). Qed.

(** A red sibling is rotated up: the node has a new sibling, and its parent is
    red. *)
Lemma fixup_sibling t d pc pe S k X node temp :
  represents t (plug (mk_frame d pc pe S :: k) X) -> null_links t -> X <> Leaf ->
  node = top (null t) X -> temp = top (null t) S ->
  exists t' S1 k1,
    (t ← set_color t temp PJ_RBCOLOR_BLACK;
     par ← parent t node;
     t ← set_color t par PJ_RBCOLOR_RED;
     t ← rotate d t par;
     par ← parent t node;
     temp ← child (flip d) t par;
     Some (t, temp)) = Some (t', top (null t') S1) /\
    evolves t t' (plug (mk_frame d pc pe S :: k) X) (plug (mk_frame d RED pe S1 :: k1) X) /\
    (k1 = k \/ exists g, k1 = g :: k /\ f_color g = BLACK).
Proof.
  intros Hr Hl HX -> ->. rewrite <- at_sibling in Hr.
  destruct (set_color_top t _ S BLACK Hr Hl) as (t1 & -> & V1). rewrite !at_sibling in V1. bind_step.
  rewrite <- (f0_null _ _ _ (ev_frame _ _ _ _ V1)).
  rewrite (parent_focus t1 _ X (ev_rep _ _ _ _ V1) HX). bind_step. cbn [path_top f_elem].
  destruct (set_color_at t1 k d pc X pe (recolor BLACK S) RED (ev_rep _ _ _ _ V1)) as (t2 & -> & R2 & F2). bind_step.
  assert (evolves t1 t2 (plug (mk_frame d pc pe (recolor BLACK S) :: k) X) (plug (mk_frame d RED pe (recolor BLACK S) :: k) X)) as V2.
  { apply framed_evolves; try done; [apply (ev_rep _ _ _ _ V1)|apply (ev_null _ _ _ _ V1)|].
    simpl. by rewrite !inorder_plug, !inorder_br. }
  pose proof (evolves_trans _ _ _ _ _ _ V1 V2) as V12.
  destruct (tree_cases d (recolor BLACK S)) as [E|(c & x & e & y & E)]; rewrite E in *.
  - rewrite (rotate_none t2 k d RED X pe R2). bind_step.
    rewrite <- (f0_null _ _ _ (ev_frame _ _ _ _ V2)).
    rewrite (parent_focus t2 _ X (ev_rep _ _ _ _ V2) HX). bind_step. cbn [path_top f_elem].
    rewrite (sibling_focus t2 d RED pe Leaf k X (ev_rep _ _ _ _ V2)). bind_step.
    exists t2, Leaf, k. split; [done|]. split; [done|by left].
  - destruct (rotate_at t2 k d RED X pe c x e y R2) as (t3 & -> & R3 & F3). bind_step.
    assert (evolves t2 t3 (plug (mk_frame d RED pe (br d c x e y) :: k) X)
      (plug (mk_frame d RED pe x :: mk_frame d c e y :: k) X)) as V3.
    { apply framed_evolves; try done; [apply (ev_null _ _ _ _ V2)|]. apply inorder_rotate. }
    pose proof (evolves_trans _ _ _ _ _ _ V12 V3) as V.
    rewrite <- (f0_null _ _ _ (ev_frame _ _ _ _ V2)), <- (f0_null _ _ _ (ev_frame _ _ _ _ V3)).
    rewrite (parent_focus t3 _ X (ev_rep _ _ _ _ V3) HX). bind_step. cbn [path_top f_elem].
    rewrite (sibling_focus t3 d RED pe x (mk_frame d c e y :: k) X (ev_rep _ _ _ _ V3)). bind_step.
    exists t3, x, (mk_frame d c e y :: k). split; [done|]. split; [done|]. right. eexists. split; [done|]. simpl.
    destruct S as [|c0 l0 e0 r0]; [by destruct d|]. simpl in E. destruct d; simplify_eq/=; done.
Qed.

(** The last assignments of the loop's body. *)
Lemma fixup_last t d pc pe S k X node temp :
  represents t (plug (mk_frame d pc pe S :: k) X) -> null_links t -> X <> Leaf ->
  node = top (null t) X -> temp = top (null t) S ->
  exists t' T',
    (par ← parent t node;
     pc ← color t par;
     t ← set_color t temp pc;
     tr ← child (flip d) t temp;
     t ← set_color t tr PJ_RBCOLOR_BLACK;
     t ← set_color t par PJ_RBCOLOR_BLACK;
     t ← rotate d t par;
     Some (t, root t)) = Some (t', root t') /\
    evolves t t' (plug (mk_frame d pc pe S :: k) X) T'.
Proof.
  intros Hr Hl HX -> ->. rewrite (parent_focus t _ X Hr HX). bind_step. cbn [path_top f_elem].
  rewrite (color_at t k d pc X pe S Hr). bind_step. rewrite <- at_sibling in Hr.
  destruct (set_color_top t _ S pc Hr Hl) as (t1 & -> & V1). bind_step.
  assert (top (null t) S = top (null t1) (recolor pc S)) as Et
    by (rewrite (f0_null _ _ _ (ev_frame _ _ _ _ V1)); by destruct S).
  rewrite Et, (child_top t1 _ _ (ev_rep _ _ _ _ V1) (ev_null _ _ _ _ V1)). bind_step.
  destruct (set_color_sub t1 _ _ (ev_rep _ _ _ _ V1) (ev_null _ _ _ _ V1) (flip d) BLACK) as (t2 & S2 & -> & V2 & _). bind_step.
  pose proof (evolves_trans _ _ _ _ _ _ V1 V2) as V12. rewrite !at_sibling in V12.
  destruct (set_color_top t2 k (br d pc X pe S2) BLACK (ev_rep _ _ _ _ V12) (ev_null _ _ _ _ V12)) as (t3 & E3 & V3).
  rewrite top_br in E3. rewrite E3. bind_step. pose proof (evolves_trans _ _ _ _ _ _ V12 V3) as V123.
  destruct (rotate_top t3 k _ (ev_rep _ _ _ _ V3) (ev_null _ _ _ _ V3) d) as (t4 & z & E4 & V4).
  rewrite recolor_br, top_br in E4. rewrite E4. bind_step. exists t4, (plug k z). split; [done|].
  exact (evolves_trans _ _ _ _ _ _ V123 V4).
Qed.

(** The near nephew is rotated up. *)
Lemma fixup_nephew t d pc pe S k X node temp tl :
  represents t (plug (mk_frame d pc pe S :: k) X) -> null_links t -> X <> Leaf ->
  node = top (null t) X -> temp = top (null t) S -> tl = top (null t) (sub d S) ->
  exists t' S',
    (t ← set_color t tl PJ_RBCOLOR_BLACK;
     t ← set_color t temp PJ_RBCOLOR_RED;
     t ← rotate (flip d) t temp;
     par ← parent t node;
     temp ← child (flip d) t par;
     Some (t, temp)) = Some (t', top (null t') S') /\
    evolves t t' (plug (mk_frame d pc pe S :: k) X) (plug (mk_frame d pc pe S' :: k) X).
Proof.
  intros Hr Hl HX -> -> ->. rewrite <- at_sibling in Hr.
  destruct (set_color_sub t _ S Hr Hl d BLACK) as (t1 & S1 & -> & V1 & E1). bind_step. rewrite <- E1.
  rewrite <- (f0_null _ _ _ (ev_frame _ _ _ _ V1)).
  destruct (set_color_top t1 _ S1 RED (ev_rep _ _ _ _ V1) (ev_null _ _ _ _ V1)) as (t2 & -> & V2). bind_step.
  pose proof (evolves_trans _ _ _ _ _ _ V1 V2) as V12.
  assert (top (null t1) S1 = top (null t2) (recolor RED S1)) as ->
    by (rewrite (f0_null _ _ _ (ev_frame _ _ _ _ V2)); by destruct S1).
  destruct (rotate_top t2 _ _ (ev_rep _ _ _ _ V2) (ev_null _ _ _ _ V2) (flip d)) as (t3 & S3 & -> & V3). bind_step.
  pose proof (evolves_trans _ _ _ _ _ _ V12 V3) as V. rewrite !at_sibling in V.
  rewrite <- (f0_null _ _ _ (ev_frame _ _ _ _ V2)), <- (f0_null _ _ _ (ev_frame _ _ _ _ V3)).
  rewrite (parent_focus t3 _ X (ev_rep _ _ _ _ V) HX). bind_step. cbn [path_top f_elem].
  rewrite (sibling_focus t3 d pc pe S3 k X (ev_rep _ _ _ _ V)). bind_step.
  by exists t3, S3.
Qed.

(** One iteration: the loop is over, or goes on with the parent, which is one
    level up, or red. *)
Lemma delete_fixup_step_spec t d pc pe S k X :
  represents t (plug (mk_frame d pc pe S :: k) X) -> null_links t -> X <> Leaf ->
  exists t' node', delete_fixup_step d t (top (null t) X) = Some (t', node') /\
    ((node' = root t' /\ exists T', evolves t t' (plug (mk_frame d pc pe S :: k) X) T') \/
     (node' = e_addr pe /\ exists pc' S' k',
        evolves t t' (plug (mk_frame d pc pe S :: k) X) (plug k' (br d pc' X pe S')) /\
        (k' = k \/ pc' = RED /\ exists g, k' = g :: k /\ f_color g = BLACK))).
Proof.
  intros Hr Hl HX. unfold delete_fixup_step.
  rewrite (parent_focus t _ X Hr HX). bind_step. cbn [path_top f_elem].
  rewrite (sibling_focus t d pc pe S k X Hr). bind_step.
  pose proof Hr as Hrs. rewrite <- at_sibling in Hrs.
  destruct (color_top_some t _ S Hrs Hl) as (tc & ->). bind_step.
  match goal with |- context [if decide (tc = RED) then ?a else ?b] =>
    assert (exists t1 S1 pc1 k1, (if decide (tc = RED) then a else b) = Some (t1, top (null t1) S1) /\
      evolves t t1 (plug (mk_frame d pc pe S :: k) X) (plug (mk_frame d pc1 pe S1 :: k1) X) /\
      (k1 = k \/ pc1 = RED /\ exists g, k1 = g :: k /\ f_color g = BLACK)) as (t1 & S1 & pc1 & k1 & -> & V1 & Hk1)
  end.
  { case_decide.
    - destruct (fixup_sibling t d pc pe S k X _ _ Hr Hl HX eq_refl eq_refl) as (t1 & S1 & k1 & E & V & Hk).
      exists t1, S1, RED, k1. split; [exact E|]. split; [done|]. tauto.
    - exists t, S, pc, k. split; [done|]. split; [by apply evolves_refl|by left]. }
  rewrite bind_some_eq. cbv beta iota. rewrite <- (f0_null _ _ _ (ev_frame _ _ _ _ V1)).
  pose proof (ev_rep _ _ _ _ V1) as Hr1. pose proof (ev_null _ _ _ _ V1) as Hl1.
  pose proof Hr1 as Hrs1. rewrite <- at_sibling in Hrs1.
  rewrite !(child_top t1 _ S1 Hrs1 Hl1). bind_step.
  destruct (color_sub_some t1 _ S1 d Hrs1 Hl1) as (tlc & ->). bind_step. bind_step.
  destruct (color_sub_some t1 _ S1 (flip d) Hrs1 Hl1) as (trc & ->). bind_step.
  case_decide as Hbb.
  { destruct (set_color_top t1 _ S1 RED Hrs1 Hl1) as (t2 & -> & V2). bind_step. rewrite !at_sibling in V2.
    rewrite <- (f0_null _ _ _ (ev_frame _ _ _ _ V2)).
    rewrite (parent_focus t2 _ X (ev_rep _ _ _ _ V2) HX). bind_step. cbn [path_top f_elem].
    eexists t2, _. split; [done|]. right. split; [done|]. exists pc1, (recolor RED S1), k1.
    split; [|done]. exact (evolves_trans _ _ _ _ _ _ V1 V2). }
  match goal with |- context [if decide (trc = BLACK) then ?a else ?b] =>
    assert (exists t2 S2, (if decide (trc = BLACK) then a else b) = Some (t2, top (null t2) S2) /\
      evolves t1 t2 (plug (mk_frame d pc1 pe S1 :: k1) X) (plug (mk_frame d pc1 pe S2 :: k1) X))
      as (t2 & S2 & -> & V2)
  end.
  { case_decide.
    - exact (fixup_nephew t1 d pc1 pe S1 k1 X _ _ _ Hr1 Hl1 HX eq_refl eq_refl eq_refl).
    - exists t1, S1. split; [done|]. by apply evolves_refl. }
  rewrite bind_some_eq. cbv beta iota. rewrite <- (f0_null _ _ _ (ev_frame _ _ _ _ V2)).
  destruct (fixup_last t2 d pc1 pe S2 k1 X _ _ (ev_rep _ _ _ _ V2) (ev_null _ _ _ _ V2) HX eq_refl eq_refl)
    as (t3 & T3 & E3 & V3).
  exists t3, (root t3). split; [exact E3|]. left. split; [done|]. exists T3.
  exact (evolves_trans _ _ _ _ _ _ (evolves_trans _ _ _ _ _ _ V1 V2) V3).
Qed.

(** The test [node->parent->left == node] finds the side. *)
Lemma side_test_node t d pc pe S k X :
  represents t (plug (mk_frame d pc pe S :: k) X) -> X <> Leaf ->
  exists pl, child Left t (e_addr pe) = Some pl /\ (if pl =? top (null t) X then Left else Right) = d.
Proof.
  intros Hr HX. destruct X as [|c l e r]; [done|].
  destruct (side_test t k d Left c l e r pc pe S Hr) as (pl & E & H). exists pl. split; [done|].
  rewrite Z.eqb_sym. exact H.
Qed.

Lemma path_root_black_tail f k : path_root_black (f :: k) -> path_root_black k.
Proof. intros H g Hg. apply H. rewrite last_cons_ne; [done|]. by intros ->. Qed.

Lemma path_root_black_cons g k : f_color g = BLACK -> path_root_black k -> path_root_black (g :: k).
Proof. intros Hg Hk f. destruct k; [by intros [= <-]|]. rewrite last_cons_ne by done. apply Hk. Qed.

Lemma plug_nonempty k X : X <> Leaf -> inorder (plug k X) <> [].
Proof.
  intros HX E. apply (f_equal length) in E. rewrite inorder_plug, !length_app in E.
  destruct X as [|c l e r]; [done|]. cbn [inorder] in E. rewrite length_app in E. cbn [length] in E. lia.
Qed.

(** Where the loop stops whatever the fuel is. *)
Lemma delete_fixup_stop fuel t k X :
  represents t (plug k X) -> X <> Leaf -> k = [] \/ top_color X = RED ->
  delete_fixup_loop fuel t (top (null t) X) = Some (t, top (null t) X).
Proof.
  intros Hr HX Hs. destruct X as [|c l e r]; [done|]. destruct k as [|f k].
  - destruct fuel; simpl; by rewrite (rp_root _ _ Hr), Z.eqb_refl.
  - destruct Hs as [|Hs]; [done|]. simpl in Hs. subst c.
    pose proof (color_at t (f :: k) Left RED l e r Hr) as Hc. pose proof (not_root t f k Left RED l e r Hr) as Hn.
    destruct fuel; simpl top; cbn [delete_fixup_loop]; rewrite Hn, Hc; by bind_step.
Qed.

(** The loop ends at a node of the tree; the root is black, or is that node. *)
Lemma delete_fixup_loop_spec fuel t k X :
  represents t (plug k X) -> null_links t -> X <> Leaf -> path_root_black k -> (length k < fuel)%nat ->
  exists t' k' X', delete_fixup_loop fuel t (top (null t) X) = Some (t', top (null t') X') /\
    evolves t t' (plug k X) (plug k' X') /\ X' <> Leaf /\ path_root_black k'.
Proof.
  revert t k X. induction fuel as [|fuel IH]; intros t k X Hr Hl HX Hk Hf; [lia|].
  assert (k = [] \/ top_color X = RED \/ exists d pc pe S k0 c l e r, k = mk_frame d pc pe S :: k0 /\ X = Node c l e r /\ c = BLACK)
    as [Hs|[Hs|(d & pc & pe & S & k0 & c & l & e & r & -> & -> & ->)]].
  { destruct k as [|[d pc pe S] k0]; [by left|]. destruct X as [|[] l e r]; [done| |by right; left].
    right. right. by eexists _, _, _, _, _, _, _, _, _. }
  1,2: exists t, k, X; split; [by apply (delete_fixup_stop _ _ k); auto|]; split; [by apply evolves_refl|done].
  simpl top. cbn [delete_fixup_loop]. rewrite (not_root t _ _ Left BLACK l e r Hr), (color_at t _ Left BLACK l e r Hr).
  bind_step. rewrite decide_True by done. rewrite (parent_at t _ Left BLACK l e r Hr). bind_step. cbn [path_top f_elem].
  destruct (side_test_node t d pc pe S k0 _ Hr HX) as (pl & -> & Ed). bind_step. simpl top in Ed. rewrite Ed.
  destruct (delete_fixup_step_spec t d pc pe S k0 _ Hr Hl HX) as (t1 & node1 & E1 & H1). simpl top in E1. rewrite E1.
  rewrite bind_some_eq. cbv beta iota. apply path_root_black_tail in Hk.
  destruct H1 as [(-> & T1 & V1)|(-> & pc1 & S1 & k1 & V1 & Hk1)].
  - assert (T1 <> Leaf) as HT1.
    { intros ->. by apply (plug_nonempty (mk_frame d pc pe S :: k0) (Node BLACK l e r) HX), eq_sym, (ev_elems _ _ _ _ V1). }
    exists t1, [], T1. rewrite (rp_root _ _ (ev_rep _ _ _ _ V1)).
    split; [by apply (delete_fixup_stop fuel t1 []); [apply (ev_rep _ _ _ _ V1)|done|left]|]. done.
  - assert (e_addr pe = top (null t1) (br d pc1 (Node BLACK l e r) pe S1)) as -> by by rewrite top_br.
    assert (br d pc1 (Node BLACK l e r) pe S1 <> Leaf) as Hne by by destruct d.
    destruct Hk1 as [->|(-> & g & -> & Hg)].
    + destruct (IH t1 k0 _ (ev_rep _ _ _ _ V1) (ev_null _ _ _ _ V1) Hne Hk) as (t2 & k2 & X2 & E2 & V2 & HX2 & Hk2).
      { simpl in Hf. lia. }
      exists t2, k2, X2. split; [done|]. split; [exact (evolves_trans _ _ _ _ _ _ V1 V2)|done].
    + eexists t1, (g :: k0), _. split; [apply (delete_fixup_stop fuel t1 (g :: k0))|].
      * apply (ev_rep _ _ _ _ V1).
      * done.
      * right. apply top_color_br.
      * split; [done|]. split; [done|]. by apply path_root_black_cons.
Qed.

(** The fix-up keeps the elements in their order and leaves a black root. *)
Lemma delete_fixup_spec t k X :
  represents t (plug k X) -> null_links t -> X <> Leaf -> path_root_black k -> (length k <= steps t)%nat ->
  exists t' T', delete_fixup t (top (null t) X) = Some t' /\ evolves t t' (plug k X) T' /\ top_color T' = BLACK.
Proof.
  intros Hr Hl HX Hk Hf. unfold delete_fixup.
  destruct (delete_fixup_loop_spec (2 + steps t) t k X Hr Hl HX Hk) as (t1 & k1 & X1 & -> & V1 & HX1 & Hk1); [lia|].
  rewrite bind_some_eq. cbv beta iota.
  destruct (set_color_top t1 k1 X1 BLACK (ev_rep _ _ _ _ V1) (ev_null _ _ _ _ V1)) as (t2 & -> & V2).
  eexists t2, _. split; [done|]. split; [exact (evolves_trans _ _ _ _ _ _ V1 V2)|].
  destruct (last k1) as [g|] eqn:E; [by rewrite (top_color_plug _ _ g E), (Hk1 g E)|].
  apply last_None in E. subst. by destruct X1.
Qed.

(** ** Unlinking a node *)

(** [child->parent = parent], for the sentinel too. *)
Lemma set_parent_top t p q x :
  rep (nodes t) (null t) p x -> NoDup (addrs x) -> (null t ∉ addrs x) -> null_ok t ->
  exists m, set_parent t (top (null t) x) q = Some (set_nodes t m) /\ rep m (null t) q x /\
    null_ok (set_nodes t m) /\ (forall a, a <> null t -> (a ∉ addrs x) -> m !! a = nodes t !! a).
Proof.
  intros Hx Hn Hnl (np & nk & nu & Hnull). pose proof (rep_reparent _ _ _ q _ Hx Hn) as H. unfold set_parent.
  destruct x as [|c l e r]; simpl top.
  - rewrite (update_some _ _ _ _ Hnull). eexists. split; [done|]. split; [done|]. split.
    + exists q, nk, nu. simpl. by rewrite lookup_insert_eq.
    + intros a Ha _. by apply lookup_insert_ne.
  - destruct H as (n & Hm & Hr). rewrite (update_some _ _ _ _ Hm). eexists. split; [done|]. split; [exact Hr|].
    assert (e_addr e ∈ addrs (Node c l e r)) as Hin by (apply (elem_of_addrs_br Left); auto). split.
    + exists np, nk, nu. simpl. rewrite lookup_insert_ne; [done|]. intros E. by rewrite E in Hin.
    + intros a _ Ha. apply lookup_insert_ne. by intros <-.
Qed.

Lemma unlink_spec t k d c e y :
  represents t (plug k (br d c Leaf e y)) -> null_ok t ->
  exists t', (t1 ← set_parent t (top (null t) y) (path_top (null t) k);
              replace_child t1 (path_top (null t) k) (e_addr e) (top (null t) y)) = Some t' /\
    represents t' (plug k y) /\ null_ok t' /\ null t' = null t /\ size t' = size t /\
    (forall a, a <> null t -> (a ∉ addrs y) -> (a ∉ path_addrs k) -> nodes t' !! a = nodes t !! a).
Proof.
  intros Hr Hn. destruct (distinct_at _ _ _ _ _ _ _ Hr) as (_ & Hey & Hek & _ & Hyk & Henl).
  destruct Hr as [Hrep Hroot Hnd Hnl]. apply rep_plug in Hrep as [Hb Hp]. rewrite top_br in Hp.
  apply rep_br in Hb as (_ & _ & Hy). rewrite addrs_at in Hnd, Hnl. simpl in Hnd, Hnl.
  apply NoDup_cons in Hnd as [_ Hnd]. rewrite not_elem_of_cons, not_elem_of_app in Hnl.
  pose proof Hnd as (Hndy & _ & Hndk)%NoDup_app.
  destruct (set_parent_top t _ (path_top (null t) k) y Hy Hndy ltac:(tauto) Hn) as (m & -> & Hy1 & Hn1 & Ho1).
  bind_step.
  destruct (replace_child_spec (set_nodes t m) k (e_addr e) (top (null t) y)) as (t2 & E2 & Hp2 & N2 & S2 & R2 & O2);
    simpl null in *; simpl nodes in *; try tauto.
  - eapply rep_path_frame; [|exact Hp]. intros a Ha. apply Ho1; [by intros ->; tauto|]. intros ?%Hyk. done.
  - by intros a Ha ->.
  - intros [fd fc fe fo] k' ->. by apply (top_other _ _ fd fc fe fo k').
  - intros ->. simpl. rewrite Hroot. simpl. by rewrite top_br.
  - exists t2. split; [exact E2|]. split; [|split; [|split; [done|split; [done|]]]].
    + split; rewrite ?N2.
      * apply rep_plug. split; [|done]. eapply rep_frame; [|exact Hy1]. intros a Ha. apply O2. by apply Hyk.
      * rewrite R2. simpl. rewrite Hroot, (top_plug_root _ k y), (top_plug_root _ k (br _ _ _ _ _)). by case_decide.
      * by rewrite addrs_plug.
      * rewrite addrs_plug, not_elem_of_app. tauto.
    + destruct Hn1 as (np & nk & nu & Hn1). exists np, nk, nu. rewrite N2, O2 by tauto. exact Hn1.
    + intros a Ha Hay Hak. rewrite O2, Ho1; done.
Qed.

(** ** The successor in the place of the node *)

(** [succ] gets the links and the colour of [node]. *)
Lemma copy_links t a b p l r key ud c nb K :
  a <> b -> nodes t !! a = Some (mk_node p l r key ud c) -> nodes t !! b = Some nb ->
  (par ← parent t a; t ← set_parent t b par;
   l ← child Left t a; t ← set_child Left t b l;
   r ← child Right t a; t ← set_child Right t b r;
   c ← color t a; t ← set_color t b c; K t) =
  K (set_nodes t (<[b := mk_node p l r (n_key nb) (n_user_data nb) c]> (nodes t))) :> option pj_rbtree.
Proof.
  intros Hab Ha Hb.
  assert (forall n, (<[b := n]> (nodes t)) !! a = Some (mk_node p l r key ud c)) as Hna
    by (intros; by rewrite lookup_insert_ne).
  assert (forall n, (<[b := n]> (nodes t)) !! b = Some n) as Hnb by (intros; apply lookup_insert_eq).
  unfold set_parent, set_child, set_color, parent, child, color. rewrite Ha. simpl.
  rewrite (update_some _ _ _ _ Hb). simpl. rewrite Hna. simpl.
  erewrite update_some by (simpl; apply Hnb). simpl. rewrite insert_insert_eq, Hna. simpl.
  erewrite update_some by (simpl; apply Hnb). simpl. rewrite insert_insert_eq, Hna. simpl.
  erewrite update_some by (simpl; apply Hnb). simpl. unfold set_nodes. simpl. by rewrite insert_insert_eq.
Qed.

(** The parent's link, unless the node is the root. *)
Lemma relink_parent t k a b :
  rep_path (nodes t) (null t) a k -> (null t ∉ path_addrs k) -> NoDup (path_addrs k) ->
  a <> null t -> (a ∉ path_addrs k) ->
  exists t', (if negb (path_top (null t) k =? null t) then replace_child t (path_top (null t) k) a b else Some t) = Some t' /\
    rep_path (nodes t') (null t) b k /\ null t' = null t /\ size t' = size t /\ root t' = root t /\
    (forall u, u ∉ path_addrs k -> nodes t' !! u = nodes t !! u).
Proof.
  intros Hp Hnl Hnd Ha Hak. destruct k as [|[d c e s] k]; simpl path_top.
  { rewrite Z.eqb_refl. by exists t. }
  assert (e_addr e <> null t) as He by (intros E; apply Hnl; rewrite <- E; apply path_addrs_cons; auto).
  rewrite (proj2 (Z.eqb_neq _ _) He). simpl negb. cbv beta iota.
  destruct (replace_child_spec t (mk_frame d c e s :: k) a b Hp Hnl Hnd) as (t' & E & H1 & H2 & H3 & H4 & H5); try done.
  { by intros u Hu ->. }
  { intros [fd fc fe fo] k' [= <- <- <- <- <-]. by apply (top_other _ _ d c e s k). }
  exists t'. rewrite decide_False in H4 by done. done.
Qed.

Lemma take_place_spec t k c l e r s nb :
  represents t (plug k (Node c l e r)) -> null_ok t ->
  e_addr s <> null t -> (e_addr s ∉ addrs (plug k (Node c l e r))) ->
  nodes t !! e_addr s = Some nb -> n_key nb = e_key s -> n_user_data nb = e_data s ->
  exists t', take_place t (e_addr e) (e_addr s) = Some t' /\
    represents t' (plug k (Node c l s r)) /\ null_ok t' /\ null t' = null t /\ size t' = size t /\
    (forall u, u <> e_addr s -> (u ∉ addrs (plug k (Node c l e r))) -> nodes t' !! u = nodes t !! u) /\
    nodes t' !! e_addr e = nodes t !! e_addr e.
Proof.
  intros Hr Hn Hs HsT Hb Ekey Edata.
  destruct (distinct_at t k Left c l e r Hr) as (Hel & Her & Hek & Hlx & Hrk & Henl).
  pose proof (represents_at t k Left c l e r Hr) as Ha. simpl in Ha.
  assert (forall u, u ∈ addrs (plug k (Node c l e r)) <-> u = e_addr e \/ u ∈ addrs l \/ u ∈ addrs r \/ u ∈ path_addrs k) as Hall.
  { intros u. rewrite (addrs_at k Left c l e r), elem_of_cons, !elem_of_app. done. }
  destruct Hr as [Hrep Hroot Hnd Hnl]. rewrite Hall in HsT, Hnl. setoid_rewrite Hall.
  rewrite (addrs_at k Left c l e r) in Hnd. apply NoDup_cons in Hnd as [_ Hnd].
  pose proof Hnd as (Hndl & _ & (Hndr & _ & Hndk)%NoDup_app)%NoDup_app.
  apply rep_plug in Hrep as [Hb0 Hp]. apply (rep_br _ _ Left) in Hb0 as (_ & Hl & Hrr). simpl in Hp.
  unfold take_place. rewrite (copy_links t _ _ _ _ _ _ _ _ _ _ ltac:(intros E; rewrite <- E in HsT; tauto) Ha Hb).
  set (t1 := set_nodes t _).
  assert (forall u, u <> e_addr s -> nodes t1 !! u = nodes t !! u) as O1 by (intros; by apply lookup_insert_ne).
  assert (nodes t1 !! e_addr s = Some (nd Left (path_top (null t) k) (top (null t) l) (top (null t) r) s c)) as Hs1.
  { simpl. by rewrite lookup_insert_eq, Ekey, Edata. }
  assert (nodes t1 !! e_addr e = nodes t !! e_addr e) as Ha1 by (apply O1; intros E; rewrite <- E in HsT; tauto).
  unfold parent. rewrite Ha1, Ha. cbn [fmap option_fmap option_map n_parent]. bind_step.
  destruct (relink_parent t1 k (e_addr e) (e_addr s)) as (t2 & E2 & Hp2 & N2 & S2 & R2 & O2); try done.
  { eapply rep_path_frame; [|exact Hp]. intros u Hu. apply O1. by intros ->; tauto. }
  { tauto. }
  change (null t1) with (null t) in *. rewrite E2. bind_step.
  unfold child. rewrite O2, Ha1, Ha by tauto. cbn [fmap option_fmap option_map n_child n_left]. bind_step.
  destruct (reparent_step t2 (e_addr e) (e_addr s) l) as (m3 & E3 & Hl3 & O3); rewrite ?N2; try tauto.
  { eapply rep_frame; [|exact Hl]. intros u Hu. rewrite O2 by by apply Hlx. apply O1. by intros ->; tauto. }
  rewrite N2 in E3. rewrite E3. bind_step. simpl nodes.
  rewrite O3, O2, Ha1, Ha by tauto. cbn [fmap option_fmap option_map n_child n_right]. bind_step.
  destruct (reparent_step (set_nodes t2 m3) (e_addr e) (e_addr s) r) as (m4 & E4 & Hr4 & O4); simpl null; rewrite ?N2; try tauto.
  { eapply rep_frame; [|exact Hrr]. intros u Hu. simpl. rewrite O3 by (intros Hul; by destruct (Hlx u Hul)).
    rewrite O2 by by apply Hrk. apply O1. by intros ->; tauto. }
  simpl null in E4. rewrite N2 in E4. rewrite E4. bind_step. simpl in O4, Hl3, Hr4. rewrite N2 in Hl3, Hr4.
  assert (forall u, u <> e_addr s -> (u ∉ addrs l) -> (u ∉ addrs r) -> (u ∉ path_addrs k) -> m4 !! u = nodes t !! u) as Hoth.
  { intros u Hus Hul Hur Huk. rewrite O4, O3, O2, O1; done. }
  set (R := if root _ =? _ then set_root _ _ else _).
  assert (nodes R = m4 /\ null R = null t /\ size R = size t) as (ER & NR & SR)
    by (unfold R; destruct (root _ =? e_addr e); simpl; (split; [done|]); (split; [done|]); exact S2).
  assert (root R = top (null t) (plug k (Node c l s r))) as RR.
  { rewrite (top_plug_root _ k (Node c l s r)). unfold R.
    replace (root (set_nodes (set_nodes t2 m3) m4)) with (top (null t) (plug k (Node c l e r))) by (rewrite <- Hroot; exact (eq_sym R2)).
    rewrite (top_plug_root _ k (Node c l e r)). case_decide as Hk; [simpl top; by rewrite Z.eqb_refl|].
    destruct k as [|[d kc ke ko] k]; [done|].
    pose proof (root_in_path (null t) k Leaf (mk_frame d kc ke ko)) as Hin.
    destruct (Z.eqb_spec (top (null t) (plug (mk_frame d kc ke ko :: k) Leaf)) (e_addr e)) as [E|E];
      [|etransitivity; [exact R2|]; etransitivity; [exact Hroot|]; apply top_plug_root].
    rewrite E in Hin. done. }
  clearbody R. exists R. split; [done|]. split; [|split; [|split; [done|split; [done|]]]].
  - split; rewrite ?ER, ?NR; [|done| |].
    + apply rep_plug. split; [simpl; split; [|split]|].
      * rewrite O4, O3, O2 by tauto. exact Hs1.
      * eapply rep_frame; [|exact Hl3]. intros u Hu. apply O4. by intros ?; destruct (Hlx u Hu).
      * exact Hr4.
      * eapply rep_path_frame; [|exact Hp2]. intros u Hu. rewrite O4 by (by intros ?%Hrk).
        apply O3. intros Hul. by destruct (Hlx u Hul).
    + rewrite (addrs_at k Left c l s r). constructor; [rewrite !not_elem_of_app; tauto|done].
    + rewrite (addrs_at k Left c l s r), not_elem_of_cons, !not_elem_of_app. split; [done|tauto].
  - destruct Hn as (np & nk & nu & Hn). exists np, nk, nu. rewrite ER, NR, Hoth; [done|done|tauto..].
  - split; [intros u Hu HuT; rewrite ER; apply Hoth; tauto|]. rewrite ER, O4, O3, O2, Ha1 by tauto. exact Ha.
Qed.

(** ** Erasing *)

Lemma plug_app k1 k2 z : plug (k1 ++ k2) z = plug k2 (plug k1 z).
Proof. revert z. induction k1 as [|f k1 IH]; intros z; simpl; [done|apply IH]. Qed.

Lemma length_path_nodes t k z : represents t (plug k z) -> null_ok t -> (length k < steps t)%nat.
Proof.
  intros Hr Hn. pose proof (length_nodes t _ Hr Hn) as H. pose proof (length_path k) as Hp.
  rewrite inorder_plug, !length_app in H. rewrite length_app in Hp. lia.
Qed.

(** The end of an erasure: the child of the node taken out is at the end of the
    path [k], and [sc] is the colour tested. *)
Lemma erase_finish t k X sc :
  represents t (plug k X) -> null_ok t -> path_root_black k -> (sc = RED -> k <> []) ->
  exists t' T',
    (if decide (sc = PJ_RBCOLOR_BLACK) then
       t ← (if negb (top (null t) X =? null t) then delete_fixup t (top (null t) X) else Some t);
       set_color t (null t) PJ_RBCOLOR_BLACK
     else Some t) = Some t' /\
    represents t' T' /\ null_ok t' /\ top_color T' = BLACK /\ inorder T' = inorder (plug k X) /\
    framed0 (plug k X) t t'.
Proof.
  intros Hr Hn Hk Hc.
  assert (k <> [] \/ X = Leaf -> top_color (plug k X) = BLACK) as Hblack.
  { intros H. destruct (last k) as [g|] eqn:E; [by rewrite (top_color_plug _ _ g E), (Hk g E)|].
    apply last_None in E. subst. by destruct H as [| ->]. }
  case_decide as E.
  2:{ exists t, (plug k X). destruct sc; [done|]. split; [done|]. split; [done|]. split; [done|]. split; [auto|done]. }
  assert (null_links t) as Hl by (destruct Hn as (np & nk & nu & Hn); eexists; split; [exact Hn|done]).
  assert (exists t1 T1, (if negb (top (null t) X =? null t) then delete_fixup t (top (null t) X) else Some t) = Some t1 /\
    evolves t t1 (plug k X) T1 /\ top_color T1 = BLACK) as (t1 & T1 & -> & V & HT1).
  { destruct X as [|c l e r].
    - simpl. rewrite Z.eqb_refl. simpl. exists t, (plug k Leaf). split; [done|]. split; [by apply evolves_refl|auto].
    - assert (top (null t) (Node c l e r) <> null t) as Hne by apply (distinct_at t k Left c l e r Hr).
      rewrite (proj2 (Z.eqb_neq _ _) Hne). apply delete_fixup_spec; try done.
      pose proof (length_path_nodes t k _ Hr Hn). lia. }
  bind_step. destruct (ev_null _ _ _ _ V) as (n & Hnl & El & Er). destruct (ev_frame _ _ _ _ V) as [N S F].
  unfold set_color. rewrite (update_some _ _ _ _ Hnl). eexists _, T1. split; [done|].
  split; [apply represents_other; [apply (ev_rep _ _ _ _ V)|apply (rp_null _ _ (ev_rep _ _ _ _ V))]|].
  split; [|split; [done|split; [apply (ev_elems _ _ _ _ V)|split; [done..|]]]].
  - exists (n_parent n), (n_key n), (n_user_data n). simpl. rewrite lookup_insert_eq. unfold with_color. by rewrite El, Er.
  - intros a Ha HaT. simpl. rewrite lookup_insert_ne by congruence. by apply F.
Qed.

(** What erasing an element does to the tree: the elements [rest] are left. *)
Record erased (t t' : pj_rbtree) (T T' : tree) (rest : list elem) : Prop := {
  er_rep : represents t' T';
  er_null : null_ok t';
  er_root : top_color T' = BLACK;
  er_elems : inorder T' = rest;
  er_addr : null t' = null t;
  er_size : size t' = u32 (size t - 1);
  er_frame a : a <> null t -> (a ∉ addrs T) -> nodes t' !! a = nodes t !! a
}.

Lemma represents_resized t T n : represents t T -> represents (set_size t n) T.
Proof. by intros []. Qed.

Lemma root_path_black k c l e r :
  top_color (plug k (Node c l e r)) = BLACK -> path_root_black k /\ (k = [] -> c = BLACK).
Proof.
  intros H. split; [|by intros ->]. intros f Hf. by rewrite (top_color_plug _ _ f Hf) in H.
Qed.

(** A node with at most one child: the child takes its place. *)
Lemma erase_single t k d c e y :
  represents t (plug k (br d c Leaf e y)) -> null_ok t -> top_color (plug k (br d c Leaf e y)) = BLACK ->
  exists t' T', pj_rbtree_erase t (e_addr e) = Some (t', e_addr e) /\
    erased t t' (plug k (br d c Leaf e y)) T' (before k ++ inorder y ++ after k).
Proof.
  intros Hr Hn Hc. unfold pj_rbtree_erase.
  assert (exists l r, br d c Leaf e y = Node c l e r /\
    child Left t (e_addr e) = Some (top (null t) l) /\ child Right t (e_addr e) = Some (top (null t) r) /\
    (top (null t) l =? null t) || (top (null t) r =? null t) = true /\
    (if negb (top (null t) l =? null t) then top (null t) l else top (null t) r) = top (null t) y)
    as (l & r & Eb & El & Er & Ht & Ey).
  { pose proof (child_at t k d c Leaf e y Hr) as H1. pose proof (other_at t k d c Leaf e y Hr) as H2.
    destruct d; simpl in H1, H2; rewrite H1, H2; [exists Leaf, y|exists y, Leaf];
      (split; [done|]); (split; [done|]); (split; [done|]); simpl; rewrite Z.eqb_refl; [done|].
    split; [apply orb_true_r|]. by destruct (Z.eqb_spec (top (null t) y) (null t)). }
  rewrite El, Er. do 2 bind_step. rewrite Ht. bind_step. rewrite El, Er. do 2 bind_step. rewrite Ey, (parent_at t k d c Leaf e y Hr). bind_step.
  destruct (unlink_spec t k d c e y Hr Hn) as (t1 & E1 & Hr1 & Hn1 & N1 & S1 & O1).
  rewrite (bind_seq _ _ _ _ E1). rewrite Z.eqb_refl. simpl negb. cbv iota. bind_step.
  assert (color t1 (e_addr e) = Some c) as ->.
  { destruct (distinct_at t k d c Leaf e y Hr) as (_ & Hey & Hek & _ & _ & Henl).
    unfold color. rewrite O1 by done. exact (color_at t k d c Leaf e y Hr). }
  bind_step. rewrite Eb in Hc. apply root_path_black in Hc as [Hk Hk0].
  destruct (erase_finish t1 k y c Hr1 Hn1 Hk) as (t2 & T2 & E2 & Hr2 & Hn2 & C2 & I2 & F2).
  { intros -> ->. by specialize (Hk0 eq_refl). }
  rewrite N1 in E2. rewrite N1, E2. bind_step. eexists _, T2. split; [done|]. destruct F2 as [N2 S2 F2].
  split; try done.
  - by apply represents_resized.
  - by rewrite I2, inorder_plug.
  - simpl. congruence.
  - simpl. congruence.
  - intros a Ha HaT. simpl. rewrite addrs_at in HaT. simpl in HaT. rewrite not_elem_of_cons, not_elem_of_app in HaT.
    rewrite F2, O1; [done|done|tauto|tauto|congruence|]. rewrite addrs_plug, not_elem_of_app. tauto.
Qed.

(** The leftmost element of a subtree. *)
Lemma leftmost z e :
  end_of Left (inorder z) = Some e ->
  exists k c y, z = plug k (Node c Leaf e y) /\ before k = [] /\ inorder z = e :: inorder (plug k y).
Proof.
  destruct (inorder z) as [|u post] eqn:E; [done|]. intros [= ->].
  destruct (position z [] e post E) as (k & c & l & r & -> & Hb & ->).
  symmetry in Hb. apply app_nil in Hb as [Hb Hl].
  assert (l = Leaf) as -> by (destruct l; [done|by destruct (app_cons_not_nil _ _ _ (eq_sym Hl))]).
  exists k, c, r. rewrite inorder_plug, Hb. done.
Qed.

(** A node with two children: its successor takes its place. *)
Lemma erase_double t k c l e r :
  represents t (plug k (Node c l e r)) -> null_ok t -> top_color (plug k (Node c l e r)) = BLACK ->
  l <> Leaf -> r <> Leaf ->
  exists t' T', pj_rbtree_erase t (e_addr e) = Some (t', e_addr e) /\
    erased t t' (plug k (Node c l e r)) T' ((before k ++ inorder l) ++ inorder r ++ after k).
Proof.
  intros Hr Hn Hc Hl Hrr. unfold pj_rbtree_erase.
  rewrite (child_at t k Left c l e r Hr), (other_at t k Left c l e r Hr : child Right t (e_addr e) = _). do 2 bind_step.
  assert (top (null t) l <> null t /\ top (null t) r <> null t) as [Hlt Hrt].
  { split.
    - destruct l as [|c1 l1 e1 r1]; [done|]. apply (distinct_at t (mk_frame Left c e r :: k) Left c1 l1 e1 r1 Hr).
    - destruct r as [|c1 l1 e1 r1]; [done|]. apply (distinct_at t (mk_frame Right c e l :: k) Left c1 l1 e1 r1 Hr). }
  rewrite (proj2 (Z.eqb_neq _ _) Hlt), (proj2 (Z.eqb_neq _ _) Hrt). simpl orb. cbv iota.
  destruct (descend_spec t Left (steps t) (mk_frame Right c e l :: k) r Hr Hrr) as (s & Hs & ->).
  { pose proof (length_nodes t _ Hr Hn) as H. pose proof (height_length r). rewrite inorder_plug in H. simpl in H.
    rewrite !length_app in H. simpl in H. lia. }
  bind_step. destruct (leftmost r s Hs) as (kr & cs & sr & Er & Hb & Eio).
  set (K := kr ++ mk_frame Right c e l :: k).
  assert (plug k (Node c l e r) = plug K (br Left cs Leaf s sr)) as ET by (unfold K; rewrite plug_app, Er; done).
  rewrite ET in Hr. pose proof (distinct_at t K Left cs Leaf s sr Hr) as (_ & Hssr & HsK & _ & _ & Hsnl).
  rewrite (child_at t K Left cs Leaf s sr Hr), (other_at t K Left cs Leaf s sr Hr : child Right t (e_addr s) = _).
  do 2 bind_step. simpl top. rewrite Z.eqb_refl. simpl negb. cbv iota zeta.
  rewrite (parent_at t K Left cs Leaf s sr Hr). bind_step.
  destruct (unlink_spec t K Left cs s sr Hr Hn) as (t1 & E1 & Hr1 & Hn1 & N1 & S1 & O1).
  rewrite (bind_seq _ _ _ _ E1).
  assert (plug K sr = plug k (Node c l e (plug kr sr))) as ET1 by (unfold K; by rewrite plug_app).
  assert (e_addr s ∉ addrs (plug k (Node c l e (plug kr sr)))) as HsT.
  { rewrite <- ET1, addrs_plug, not_elem_of_app. done. }
  assert (e_addr e ∈ addrs (plug k (Node c l e (plug kr sr)))) as HeT.
  { rewrite (addrs_at k Left). by left. }
  assert (e_addr s <> e_addr e) as Hse by (intros E; by rewrite E in HsT).
  rewrite (proj2 (Z.eqb_neq _ _) Hse). simpl negb. cbv iota. rewrite ET1 in Hr1.
  pose proof (represents_at t K Left cs Leaf s sr Hr) as Hns. rewrite <- (O1 _ Hsnl Hssr HsK) in Hns.
  destruct (take_place_spec t1 k c l e (plug kr sr) s _ Hr1 Hn1 ltac:(congruence) HsT Hns eq_refl eq_refl)
    as (t2 & -> & Hr2 & Hn2 & N2 & S2 & O2 & _). bind_step.
  rewrite (color_at t2 k Left c l s _ Hr2). bind_step.
  set (K2 := kr ++ mk_frame Right c s l :: k).
  assert (plug k (Node c l s (plug kr sr)) = plug K2 sr) as ET2 by (unfold K2; by rewrite plug_app).
  apply root_path_black in Hc as [Hk Hk0]. rewrite ET2 in Hr2.
  destruct (erase_finish t2 K2 sr c Hr2 Hn2) as (t3 & T3 & E3 & Hr3 & Hn3 & C3 & I3 & [N3 S3 F3]).
  { intros f. unfold K2. rewrite last_app, last_cons. destruct (last k) as [g|] eqn:Eg; intros [= <-]; [by apply Hk|].
    apply last_None in Eg. auto. }
  { intros _. unfold K2. by destruct kr. }
  rewrite N2, N1 in E3. rewrite N2, N1, E3. bind_step. eexists _, T3. split; [done|].
  split; try done.
  - by apply represents_resized.
  - rewrite I3, <- ET2, inorder_plug, Eio. simpl. by rewrite <- !app_assoc.
  - simpl. congruence.
  - simpl. congruence.
  - intros a Ha HaT. simpl. rewrite ET, addrs_at in HaT. simpl in HaT. rewrite not_elem_of_cons, not_elem_of_app in HaT.
    assert (a ∉ addrs (plug k (Node c l e (plug kr sr)))) as HaT1 by (rewrite <- ET1, addrs_plug, not_elem_of_app; tauto).
    rewrite F3, O2, O1; try tauto; try congruence.
    rewrite <- ET2, (addrs_at k Left c l s). rewrite (addrs_at k Left c l e) in HaT1.
    rewrite not_elem_of_cons in *. tauto.
Qed.

Section erase_spec.
Context (comp : Z -> Z -> Z) `{!CompLaws comp}.

(** C33 [pj_rbtree_erase] of a node of the tree returns the node, and leaves a
    search tree of the other elements in their order, whatever the colours of
    the tree are; the nodes of the application outside the tree are untouched. *)
Theorem rbtree_erase_correct t T pre e post :
  rbtree_ok comp t T -> size t < 2 ^ 32 -> inorder T = pre ++ e :: post ->
  exists t' T', pj_rbtree_erase t (e_addr e) = Some (t', e_addr e) /\
    rbtree_ok comp t' T' /\ inorder T' = pre ++ post /\ null t' = null t /\
    (forall a, a <> null t -> (a ∉ addrs T) -> nodes t' !! a = nodes t !! a).
Proof.
  intros [Hr Hn Hc Hs Hz] Hlt E. rewrite E in Hs, Hz.
  assert (exists t' T', pj_rbtree_erase t (e_addr e) = Some (t', e_addr e) /\ erased t t' T T' (pre ++ post))
    as (t' & T' & Er & [R N C I A Z F]).
  { destruct (position T pre e post E) as (k & c & l & r & -> & -> & ->).
    destruct l as [|lc ll le lr] eqn:El; [rewrite app_nil_r; by apply (erase_single t k Left c e r)|]; rewrite <- El in *.
    destruct r as [|rc rl re rr] eqn:Err; [rewrite <- app_assoc; by apply (erase_single t k Right c e l)|]; rewrite <- Err in *.
    apply erase_double; congruence. }
  exists t', T'. split; [done|]. split; [|done]. split; try done.
  - rewrite I. apply sorted_app in Hs as (H1 & H2 & H3). inversion H2; subst.
    apply sorted_app. split; [done|]. split; [done|]. intros x y Hx Hy. apply H3; [done|by right].
  - rewrite Z, I, Hz, length_app. rewrite Hz, length_app in Hlt. rewrite length_app. simpl in *. rewrite u32_small; lia.
Qed.
End erase_spec.
