(* ===== verification/RbTreeExamples.v ===== *)
(** * Red-black trees: examples

    Trees built by the operations from keys in ascending order, at which the
    theorems are instantiated, and the trees that erasing leaves unbalanced. *)
From S2P Require Import Prelude RbTree RbTreeShape RbTreeInsert RbTreeSpec RbTreeErase.

(** ** Red-black trees: heights

    [pj_rbtree_max_height] and [pj_rbtree_min_height] on a tree of the store,
    and the balance they measure. *)

(** The number of links on a path down to a node that lacks a child, the paths
    chosen by [choose]. *)
Fixpoint extent (choose : Z -> Z -> Z) (z : tree) : Z :=
  match z with
  | Leaf => 0
  | Node _ l _ r =>
      choose (match l with Leaf => 0 | _ => extent choose l + 1 end)
             (match r with Leaf => 0 | _ => extent choose r + 1 end)
  end.

Definition larger (l r : Z) : Z := if r <? l then l else r.
Definition smaller (l r : Z) : Z := if r <? l then r else l.

Section extent.
Variable choose : Z -> Z -> Z.
Hypothesis choose_one : forall a b, choose a b = a \/ choose a b = b.

Lemma extent_bound z : z <> Leaf -> 0 <= extent choose z < Z.of_nat (height z).
Proof.
  induction z as [|c l IHl e r IHr]; [done|]. intros _. cbn [extent height].
  assert (forall u, (u <> Leaf -> 0 <= extent choose u < Z.of_nat (height u)) ->
    0 <= match u with Leaf => 0 | _ => extent choose u + 1 end <= Z.of_nat (height u)) as H.
  { intros [|c' l' e' r'] Hu; [simpl; lia|]. specialize (Hu ltac:(done)). lia. }
  pose proof (H l IHl). pose proof (H r IHr).
  destruct (choose_one (match l with Leaf => 0 | _ => extent choose l + 1 end)
    (match r with Leaf => 0 | _ => extent choose r + 1 end)) as [-> | ->]; lia.
Qed.

Lemma height_of_spec t fuel k z :
  represents t (plug k z) -> z <> Leaf -> (height z <= fuel)%nat -> Z.of_nat (height z) < 2 ^ 32 ->
  height_of choose fuel t (top (null t) z) = Some (extent choose z).
Proof.
  revert k z. induction fuel as [|fuel IH]; intros k z Hr Hz Hf Hw; [destruct z; [done|simpl in Hf; lia]|].
  destruct z as [|c l e r]; [done|]. simpl top. cbn [height_of].
  assert (forall d x y, Node c l e r = br d c x e y -> (height x < height (Node c l e r))%nat ->
    (p ← child d t (e_addr e);
     if negb (p =? null t) then h ← height_of choose fuel t p; Some (u32 (h + 1)) else Some 0) =
    Some (match x with Leaf => 0 | _ => extent choose x + 1 end)) as Hside.
  { intros d x y E Hx. rewrite E in Hr, Hf, Hw. rewrite (child_at t k d c x e y Hr). bind_step.
    destruct x as [|c' l' e' r']; [simpl; by rewrite Z.eqb_refl|].
    assert (top (null t) (Node c' l' e' r') <> null t) as Hne
      by apply (distinct_at t (mk_frame d c e y :: k) Left c' l' e' r' Hr).
    rewrite (proj2 (Z.eqb_neq _ _) Hne). cbn [negb]. rewrite <- E in Hf, Hw.
    rewrite (IH (mk_frame d c e y :: k)); [|done|done|lia|lia]. bind_step.
    pose proof (extent_bound (Node c' l' e' r') ltac:(done)). rewrite u32_small by lia. done. }
  pose proof (Hside Left l r eq_refl ltac:(simpl; lia)) as Hl.
  pose proof (Hside Right r l eq_refl ltac:(simpl; lia)) as Hrr.
  rewrite (bind_seq _ _ _ _ Hl), (bind_seq _ _ _ _ Hrr). done.
Qed.
End extent.

Lemma larger_one a b : larger a b = a \/ larger a b = b.
Proof. unfold larger. destruct (_ <? _); auto. Qed.

Lemma smaller_one a b : smaller a b = a \/ smaller a b = b.
Proof. unfold smaller. destruct (_ <? _); auto. Qed.

(** The longest way down, and the shortest in terms of black nodes. *)
Lemma extent_larger z : z <> Leaf -> extent larger z + 1 = Z.of_nat (height z).
Proof.
  induction z as [|c l IHl e r IHr]; [done|]. intros _. cbn [extent height].
  assert (forall u, (u <> Leaf -> extent larger u + 1 = Z.of_nat (height u)) ->
    match u with Leaf => 0 | _ => extent larger u + 1 end = Z.of_nat (height u)) as H.
  { intros [|c' l' e' r'] Hu; [done|]. by apply Hu. }
  rewrite (H l IHl), (H r IHr). unfold larger. destruct (Z.ltb_spec (Z.of_nat (height r)) (Z.of_nat (height l))); lia.
Qed.

Lemma extent_black z n : black_height z n -> z <> Leaf -> Z.of_nat n <= extent smaller z + 1.
Proof.
  induction 1 as [|c l e r n Hl IHl Hr IHr]; [done|]. intros _. cbn [extent].
  assert (forall u, black_height u n -> (u <> Leaf -> Z.of_nat n <= extent smaller u + 1) ->
    Z.of_nat n <= match u with Leaf => 0 | _ => extent smaller u + 1 end) as H.
  { intros [|c' l' e' r'] Hu Hn; [by inversion Hu|]. by apply Hn. }
  pose proof (H l Hl IHl). pose proof (H r Hr IHr).
  match goal with |- context [smaller ?a ?b] => destruct (smaller_one a b) as [-> | ->] end;
    destruct c; simpl bump; lia.
Qed.

Section heights.
Context (comp : Z -> Z -> Z) `{!CompLaws comp}.

(** On a tree with elements, [pj_rbtree_max_height] counts the links to the
    deepest node and [pj_rbtree_min_height] is no more than it; on a balanced
    tree of [n] elements the number of levels is at most [2 log2 (n + 1)] and at
    most twice the one that [pj_rbtree_min_height] gives. *)
Theorem rbtree_heights t T :
  rbtree_ok comp t T -> T <> Leaf -> size t < 2 ^ 32 ->
  exists mx mn, pj_rbtree_max_height t None = Some mx /\ pj_rbtree_min_height t None = Some mn /\
    mx + 1 = Z.of_nat (height T) /\ 0 <= mn <= mx /\
    (red_black T -> mx + 1 <= 2 * Z.log2 (size t + 1) /\ mx + 1 <= 2 * (mn + 1)).
Proof.
  intros [Hr Hn _ _ Hz] HT Hlt. exists (extent larger T), (extent smaller T).
  pose proof (length_nodes t T Hr Hn) as Hl. pose proof (height_length T) as Hh.
  unfold pj_rbtree_max_height, pj_rbtree_min_height, or_root. rewrite (rp_root _ _ Hr).
  split; [apply (height_of_spec larger larger_one t _ []); [done|done|lia|lia]|].
  split; [apply (height_of_spec smaller smaller_one t _ []); [done|done|lia|lia]|].
  split; [by apply extent_larger|]. pose proof (extent_larger T HT) as Hx.
  pose proof (extent_bound smaller smaller_one T HT). split; [lia|]. rewrite Hx. intros [Hroot Hred [n Hb]].
  pose proof (height_black T n Hb Hred) as Hhb. rewrite Hroot in Hhb. simpl in Hhb.
  pose proof (extent_black T n Hb HT). split; [|lia].
  pose proof (black_height_size T n Hb) as Hs. apply Nat2Z.inj_le in Hs. rewrite Nat2Z.inj_pow in Hs.
  assert (Z.of_nat n <= Z.log2 (size t + 1)) by (apply Z.log2_le_pow2; lia). lia.
Qed.
End heights.

(** ** Red-black trees: examples

    Trees built by the operations from keys in ascending order, at which the
    theorems are instantiated, and the trees that erasing leaves unbalanced. *)

(** Integers compared by subtraction. *)
#[export] Instance sub_comp_laws : CompLaws Z.sub.
Proof. split; intros; lia. Qed.

(** The application's nodes: the node at address [a] has the key [a]. *)
Definition app_nodes (n : nat) : gmap Z pj_rbtree_node :=
  list_to_map ((fun a => (a, mk_node 0 0 0 a 0 PJ_RBCOLOR_RED)) <$> (Z.of_nat <$> seq 1 n)).

Definition insert_all (t : option pj_rbtree) (l : list Z) : option pj_rbtree :=
  foldl (fun t a => t ← t; '(_, t) ← pj_rbtree_insert Z.sub t a; Some t) t l.
Definition erase_all (t : option pj_rbtree) (l : list Z) : option pj_rbtree :=
  foldl (fun t a => t ← t; '(t, _) ← pj_rbtree_erase t a; Some t) t l.

Definition empty_tree (n : nat) : pj_rbtree := pj_rbtree_init (app_nodes n) 1000.
Definition tree_of (n : nat) (keys : list Z) : pj_rbtree :=
  default (empty_tree n) (insert_all (Some (empty_tree n)) keys).

Definition el (a : Z) : elem := mk_elem a a 0.
Definition leaf (c : pj_rbcolor_t) (a : Z) : tree := Node c Leaf (el a) Leaf.

(** Five keys, and a sixth node that is not inserted. *)
Definition t5 : pj_rbtree := tree_of 6 [1; 2; 3; 4; 5].
Definition T5 : tree := Node BLACK (leaf BLACK 1) (el 2) (Node BLACK (leaf RED 3) (el 4) (leaf RED 5)).

Ltac tree_evaluates :=
  repeat match goal with
  | |- rbtree_ok _ _ _ => split
  | |- represents _ _ => split
  | |- rep _ _ _ _ => vm_compute; repeat split
  | |- NoDup _ => apply (bool_decide_unpack _); vm_compute; exact I
  | |- not _ => apply (bool_decide_unpack _); vm_compute; exact I
  | |- null_ok _ => eexists _, _, _; vm_compute; reflexivity
  | |- StronglySorted _ _ => constructor
  | |- Forall _ _ => constructor
  | |- below _ _ _ => unfold below; vm_compute; reflexivity
  | |- _ = _ => vm_compute; reflexivity
  end.

Lemma t5_ok : rbtree_ok Z.sub t5 T5.
Proof. tree_evaluates. Qed.

Lemma T5_red_black : red_black T5.
Proof.
  split; [done|by vm_compute; intuition|]. exists 2%nat.
  repeat match goal with
  | |- black_height Leaf _ => apply bh_leaf
  | |- black_height _ 2 => apply (bh_node BLACK _ _ _ 1)
  | |- black_height (Node BLACK _ _ _) 1 => apply (bh_node BLACK _ _ _ 0)
  | |- black_height (leaf BLACK _) 1 => apply (bh_node BLACK _ _ _ 0)
  | |- black_height (leaf RED _) 0 => apply (bh_node RED _ _ _ 0)
  end.
Qed.

(** Inserting the sixth key. *)
Lemma rbtree_insert_correct_witness :
  (exists e, e ∈ inorder T5 /\ 6 - e_key e = 0 /\ pj_rbtree_insert Z.sub t5 6 = Some (-1, t5)) \/
  (forall e, e ∈ inorder T5 -> 6 - e_key e <> 0) /\
  exists t' T', pj_rbtree_insert Z.sub t5 6 = Some (0, t') /\ inserted Z.sub t5 t' T5 T' (el 6).
Proof.
  apply (rbtree_insert_correct Z.sub t5 T5 6 (mk_node 0 0 0 6 0 PJ_RBCOLOR_RED) t5_ok).
  - vm_compute. reflexivity.
  - vm_compute. reflexivity.
  - apply (bool_decide_unpack _). vm_compute. exact I.
  - vm_compute. discriminate.
Defined.

Lemma rbtree_find_correct_witness :
  match pj_rbtree_find Z.sub t5 4 with
  | Some (Some a) => exists e, e ∈ inorder T5 /\ e_addr e = a /\ 4 - e_key e = 0
  | Some None => forall e, e ∈ inorder T5 -> 4 - e_key e <> 0
  | None => False
  end.
Proof. exact (rbtree_find_correct Z.sub t5 T5 4 t5_ok). Defined.

Lemma rbtree_iteration_witness :
  pj_rbtree_first t5 = Some (Some 1) /\ pj_rbtree_last t5 = Some (Some 5) /\
  pj_rbtree_next t5 2 = Some (Some 3) /\ pj_rbtree_prev t5 2 = Some (Some 1).
Proof.
  destruct (rbtree_iteration Z.sub t5 T5 t5_ok) as (Hf & Hl & Hn).
  destruct (Hn [el 1] (el 2) [el 3; el 4; el 5]) as [Hx Hp]; [reflexivity|].
  split; [exact Hf|]. split; [exact Hl|]. split; [exact Hx|exact Hp].
Defined.

Lemma rbtree_erase_correct_witness :
  exists t' T', pj_rbtree_erase t5 2 = Some (t', 2) /\ rbtree_ok Z.sub t' T' /\
    inorder T' = [el 1; el 3; el 4; el 5].
Proof.
  destruct (rbtree_erase_correct Z.sub t5 T5 [el 1] (el 2) [el 3; el 4; el 5] t5_ok)
    as (t' & T' & E & Ho & Hi & _).
  - vm_compute. reflexivity.
  - reflexivity.
  - exists t', T'. split; [exact E|]. split; [exact Ho|exact Hi].
Defined.

Lemma rbtree_heights_witness :
  exists mx mn, pj_rbtree_max_height t5 None = Some mx /\ pj_rbtree_min_height t5 None = Some mn /\
    mx + 1 = 3 /\ mx + 1 <= 2 * (mn + 1).
Proof.
  destruct (rbtree_heights Z.sub t5 T5 t5_ok) as (mx & mn & Hx & Hn & Hh & _ & Hb).
  - discriminate.
  - vm_compute. reflexivity.
  - destruct (Hb T5_red_black) as [_ H]. exists mx, mn. split; [exact Hx|]. split; [exact Hn|]. split; [exact Hh|exact H].
Defined.

(** ** Erasing does not rebalance *)

(** Thirty keys, of which all but the multiples of eight and the last ones on
    the right are erased, the leaves first. *)
Definition erased_keys : list Z :=
  ((fun i => 2 * Z.of_nat i + 1) <$> seq 0 15) ++ ((fun i => 4 * Z.of_nat i + 2) <$> seq 0 7) ++ [4; 12; 20].

Definition chain : tree :=
  Node BLACK Leaf (el 8) (Node RED Leaf (el 16) (Node BLACK Leaf (el 24) (Node BLACK Leaf (el 28) (leaf BLACK 30)))).

(** Erasing does not keep the tree balanced: inserting thirty keys into an
    empty tree and erasing twenty-five of them leaves a chain, five levels for
    five elements, which is more than a red-black tree can have; the fix-up is
    skipped when the node taken out has no child. *)
Theorem rbtree_erase_unbalances :
  exists t T, erase_all (insert_all (Some (empty_tree 30)) (Z.of_nat <$> seq 1 30)) erased_keys = Some t /\
    rbtree_ok Z.sub t T /\ size t = 5 /\ pj_rbtree_max_height t None = Some 4 /\
    ~ red_black T /\ 2 * Z.log2 (size t + 1) < 4 + 1.
Proof.
  set (t := default (empty_tree 30) (erase_all (insert_all (Some (empty_tree 30)) (Z.of_nat <$> seq 1 30)) erased_keys)).
  exists t, chain. split; [vm_compute; reflexivity|].
  split; [tree_evaluates|]. split; [vm_compute; reflexivity|]. split; [vm_compute; reflexivity|].
  split; [|vm_compute; reflexivity]. intros Hb%red_black_height. vm_compute in Hb. lia.
Qed.
