(* ===== verification/PjList.v ===== *)
(** * Linked lists

    [pjlib/include/pj/list.h] and [list_i.h]: circular doubly linked lists.  A
    list is a head node and the nodes it is linked with; every structure that
    starts with [PJ_DECL_LIST_MEMBER] is such a node.  The nodes are a store by
    address, of which these functions see the two links only. *)
From S2P Require Import Prelude.

Record pj_list := mk_list { prev : Z; next : Z }.

Abbreviation list_store := (gmap Z pj_list).

Definition get_prev (m : list_store) (a : Z) : option Z := prev <$> m !! a.
Definition get_next (m : list_store) (a : Z) : option Z := next <$> m !! a.

Definition set_prev (m : list_store) (a p : Z) : option list_store :=
  n ← m !! a; Some (<[a := mk_list p (next n)]> m).
Definition set_next (m : list_store) (a p : Z) : option list_store :=
  n ← m !! a; Some (<[a := mk_list (prev n) p]> m).

Definition pj_list_init (m : list_store) (node : Z) : option list_store :=
  m ← set_prev m node node;
  p ← get_prev m node;
  set_next m node p.

Definition pj_list_empty (m : list_store) (node : Z) : option bool :=
  n ← get_next m node; Some (n =? node).

Definition pj_link_node (m : list_store) (prev next : Z) : option list_store :=
  m ← set_next m prev next; set_prev m next prev.

Definition pj_list_insert_after (m : list_store) (pos node : Z) : option list_store :=
  m ← set_prev m node pos;
  n ← get_next m pos; m ← set_next m node n;
  n ← get_next m pos; m ← set_prev m n node;
  set_next m pos node.

Definition pj_list_insert_before (m : list_store) (pos node : Z) : option list_store :=
  p ← get_prev m pos; pj_list_insert_after m p node.

Definition pj_list_push_back (m : list_store) (list node : Z) : option list_store :=
  pj_list_insert_before m list node.
Definition pj_list_push_front (m : list_store) (list node : Z) : option list_store :=
  pj_list_insert_after m list node.

Definition pj_list_insert_nodes_after (m : list_store) (pos lst : Z) : option list_store :=
  lst_last ← get_prev m lst;
  pos_next ← get_next m pos;
  m ← pj_link_node m pos lst;
  pj_link_node m lst_last pos_next.

Definition pj_list_insert_nodes_before (m : list_store) (pos lst : Z) : option list_store :=
  p ← get_prev m pos; pj_list_insert_nodes_after m p lst.

Definition pj_list_insert_list_after (m : list_store) (pos lst : Z) : option list_store :=
  e ← pj_list_empty m lst;
  if negb e then
    lst_last ← get_prev m lst;
    pos_next ← get_next m pos;
    lst_first ← get_next m lst;
    m ← pj_link_node m pos lst_first;
    m ← pj_link_node m lst_last pos_next;
    pj_list_init m lst
  else Some m.

Definition pj_list_insert_list_before (m : list_store) (pos lst : Z) : option list_store :=
  p ← get_prev m pos; pj_list_insert_list_after m p lst.

Definition pj_list_merge_last (m : list_store) (lst1 lst2 : Z) : option list_store :=
  e ← pj_list_empty m lst2;
  if negb e then
    p1 ← get_prev m lst1; n2 ← get_next m lst2;
    m ← pj_link_node m p1 n2;
    p2 ← get_prev m lst2;
    m ← pj_link_node m p2 lst1;
    pj_list_init m lst2
  else Some m.

Definition pj_list_merge_first (m : list_store) (lst1 lst2 : Z) : option list_store :=
  e ← pj_list_empty m lst2;
  if negb e then
    p2 ← get_prev m lst2; n1 ← get_next m lst1;
    m ← pj_link_node m p2 n1;
    n2 ← get_next m lst2;
    m ← pj_link_node m lst1 n2;
    pj_list_init m lst2
  else Some m.

Definition pj_list_erase (m : list_store) (node : Z) : option list_store :=
  p ← get_prev m node; n ← get_next m node;
  m ← pj_link_node m p n;
  pj_list_init m node.

(** The loops go round at most once, so that the number of nodes is enough; the
    inner [None] is NULL. *)
Fixpoint walk (fuel : nat) (m : list_store) (list : Z) (stop : Z -> bool) (p : Z) : option Z :=
  if (p =? list) || stop p then Some p else
  match fuel with O => None | S fuel => n ← get_next m p; walk fuel m list stop n end.

Definition pj_list_find_node (m : list_store) (list node : Z) : option (option Z) :=
  p ← get_next m list;
  p ← walk (size m) m list (fun p => p =? node) p;
  Some (if p =? node then Some p else None).

Definition pj_list_search (comp : Z -> Z) (m : list_store) (list : Z) : option (option Z) :=
  p ← get_next m list;
  p ← walk (size m) m list (fun p => comp p =? 0) p;
  Some (if p =? list then None else Some p).

Fixpoint count_loop (fuel : nat) (m : list_store) (list node count : Z) : option Z :=
  if node =? list then Some count else
  match fuel with
  | O => None
  | S fuel => n ← get_next m node; count_loop fuel m list n (u32 (count + 1))
  end.

Definition pj_list_size (m : list_store) (list : Z) : option Z :=
  node ← get_next m list; count_loop (size m) m list node 0.
