(* ===== verification/PjListSpec.v ===== *)
(** * Linked lists: specifications

    A list of the store as the sequence of its nodes.  What every operation does
    to the links is said once, for [pj_link_node]. *)
From S2P Require Import Prelude PjList.

(** ** Links, chains and rings *)

Definition link (m : list_store) (a b : Z) : Prop := get_next m a = Some b /\ get_prev m b = Some a.

(** The nodes [a :: l] one after the other. *)
Fixpoint seg (m : list_store) (a : Z) (l : list Z) : Prop :=
  match l with [] => True | x :: l => link m a x /\ seg m x l end.

(** The list with the head [h] and the nodes [l]. *)
Definition ring (m : list_store) (h : Z) (l : list Z) : Prop :=
  NoDup (h :: l) /\ seg m h (l ++ [h]).

Lemma last_cons (a x : Z) l : List.last (x :: l) a = List.last l x.
Proof. revert a x. induction l as [|y l IH]; intros a x; [done|]. simpl in *. destruct l; [done|]. apply IH. Qed.

Lemma last_in (a : Z) l : List.last l a ∈ a :: l.
Proof. revert a. induction l as [|x l IH]; intros a; [by left|]. rewrite last_cons. right. apply IH. Qed.

Lemma last_app (a : Z) l x r : List.last (l ++ x :: r) a = List.last r x.
Proof. revert a. induction l as [|y l IH]; intros a; simpl app; rewrite last_cons; [done|apply IH]. Qed.

Lemma seg_app m a l1 x l2 :
  seg m a (l1 ++ x :: l2) <-> seg m a l1 /\ link m (List.last l1 a) x /\ seg m x l2.
Proof.
  revert a. induction l1 as [|y l1 IH]; intros a; cbn [app seg]; [simpl; tauto|].
  rewrite IH, last_cons. tauto.
Qed.

(** ** Field updates *)

Section fields.
Context (m : list_store) (a p : Z) (n : pj_list).
Hypothesis Ha : m !! a = Some n.

Lemma set_prev_some : exists m', set_prev m a p = Some m' /\
  (forall x, get_next m' x = get_next m x) /\
  (forall x, get_prev m' x = if decide (x = a) then Some p else get_prev m x) /\
  (forall x, x <> a -> m' !! x = m !! x) /\ (forall x, is_Some (m' !! x) <-> is_Some (m !! x)).
Proof.
  unfold set_prev. rewrite Ha. eexists. split; [done|]. unfold get_next, get_prev.
  split_and!; intros x; destruct (decide (x = a)) as [->|Hx];
    rewrite ?lookup_insert_eq, ?lookup_insert_ne, ?Ha by done; try done.
Qed.

Lemma set_next_some : exists m', set_next m a p = Some m' /\
  (forall x, get_prev m' x = get_prev m x) /\
  (forall x, get_next m' x = if decide (x = a) then Some p else get_next m x) /\
  (forall x, x <> a -> m' !! x = m !! x) /\ (forall x, is_Some (m' !! x) <-> is_Some (m !! x)).
Proof.
  unfold set_next. rewrite Ha. eexists. split; [done|]. unfold get_next, get_prev.
  split_and!; intros x; destruct (decide (x = a)) as [->|Hx];
    rewrite ?lookup_insert_eq, ?lookup_insert_ne, ?Ha by done; try done.
Qed.
End fields.

(** Two stores with the same links are the same. *)
Lemma store_ext (m m' : list_store) :
  (forall x, get_next m x = get_next m' x) -> (forall x, get_prev m x = get_prev m' x) -> m = m'.
Proof.
  intros Hn Hp. apply map_eq. intros x. specialize (Hn x). specialize (Hp x). unfold get_next, get_prev in *.
  destruct (m !! x) as [[]|], (m' !! x) as [[]|]; simpl in *; congruence.
Qed.

(** [p] and [n] linked, everything else as before. *)
Record relinked (m m' : list_store) (p n : Z) : Prop := {
  rl_next x : get_next m' x = if decide (x = p) then Some n else get_next m x;
  rl_prev x : get_prev m' x = if decide (x = n) then Some p else get_prev m x;
  rl_dom x : is_Some (m' !! x) <-> is_Some (m !! x);
  rl_other x : x <> p -> x <> n -> m' !! x = m !! x
}.

Lemma link_node_spec m p n :
  is_Some (m !! p) -> is_Some (m !! n) -> exists m', pj_link_node m p n = Some m' /\ relinked m m' p n.
Proof.
  intros [np Hp] Hn. unfold pj_link_node. destruct (set_next_some m p n np Hp) as (m1 & -> & Ap & An & Ao & Ad). bind_step.
  destruct (proj2 (Ad n) Hn) as [nn Hn1]. destruct (set_prev_some m1 n p nn Hn1) as (m2 & -> & Bn & Bp & Bo & Bd).
  exists m2. split; [done|]. split; intros x.
  - by rewrite Bn, An.
  - by rewrite Bp, Ap.
  - by rewrite Bd, Ad.
  - intros. by rewrite Bo, Ao.
Qed.

Lemma list_init_spec m a :
  is_Some (m !! a) -> exists m', pj_list_init m a = Some m' /\ relinked m m' a a.
Proof.
  intros [na Ha]. unfold pj_list_init. destruct (set_prev_some m a a na Ha) as (m1 & -> & An & Ap & Ao & Ad). bind_step.
  rewrite Ap, decide_True by done. bind_step.
  destruct (proj2 (Ad a) (mk_is_Some _ _ Ha)) as [n1 H1]. destruct (set_next_some m1 a a n1 H1) as (m2 & -> & Bp & Bn & Bo & Bd).
  exists m2. split; [done|]. split; intros x.
  - by rewrite Bn, An.
  - by rewrite Bp, Ap.
  - by rewrite Bd, Ad.
  - intros. by rewrite Bo, Ao.
Qed.

Lemma relinked_link m m' p n : relinked m m' p n -> link m' p n.
Proof. intros H. split; [rewrite (rl_next _ _ _ _ H)|rewrite (rl_prev _ _ _ _ H)]; by rewrite decide_True. Qed.

Lemma relinked_frame m m' p n a b : relinked m m' p n -> a <> p -> b <> n -> link m a b -> link m' a b.
Proof. intros H Ha Hb [Hn Hp]. split; [rewrite (rl_next _ _ _ _ H)|rewrite (rl_prev _ _ _ _ H)]; by rewrite decide_False. Qed.

(** A segment survives unless a link inside it is changed. *)
Lemma seg_frame m m' p n a l :
  relinked m m' p n -> NoDup (a :: l) -> (n ∉ l) -> (p ∉ a :: l) \/ p = List.last l a -> seg m a l -> seg m' a l.
Proof.
  intros H. revert a. induction l as [|x l IH]; intros a; [done|].
  intros [Ha Hd]%NoDup_cons [Hx Hn]%not_elem_of_cons Hp [Hl Hs]. split.
  - apply (relinked_frame m m' p n); try done. destruct Hp as [Hp|Hp].
    + intros ->. apply Hp. by left.
    + intros ->. rewrite last_cons in Hp. apply Ha. rewrite Hp. apply last_in.
  - apply IH; try done. destruct Hp as [Hp|Hp]; [left; by intros ?; apply Hp; right|right; by rewrite <- (last_cons a)].
Qed.

(** Two links in either order. *)
Lemma link_node_comm m a b c d :
  a <> c -> b <> d -> is_Some (m !! a) -> is_Some (m !! b) -> is_Some (m !! c) -> is_Some (m !! d) ->
  (m1 ← pj_link_node m a b; pj_link_node m1 c d) = (m1 ← pj_link_node m c d; pj_link_node m1 a b).
Proof.
  intros Hac Hbd Ha Hb Hc Hd.
  destruct (link_node_spec m a b Ha Hb) as (m1 & -> & R1). destruct (link_node_spec m c d Hc Hd) as (m2 & -> & R2).
  do 2 bind_step. destruct (link_node_spec m1 c d) as (m3 & -> & R3); [by apply (rl_dom _ _ _ _ R1)..|].
  destruct (link_node_spec m2 a b) as (m4 & -> & R4); [by apply (rl_dom _ _ _ _ R2)..|].
  f_equal. apply store_ext; intros x.
  - rewrite (rl_next _ _ _ _ R3), (rl_next _ _ _ _ R4), (rl_next _ _ _ _ R1), (rl_next _ _ _ _ R2).
    repeat case_decide; congruence.
  - rewrite (rl_prev _ _ _ _ R3), (rl_prev _ _ _ _ R4), (rl_prev _ _ _ _ R1), (rl_prev _ _ _ _ R2).
    repeat case_decide; congruence.
Qed.

(** ** Cutting and joining *)

Lemma link_dom m a b : link m a b -> is_Some (m !! a) /\ is_Some (m !! b).
Proof.
  unfold link, get_next, get_prev. intros [Hn Hp].
  destruct (m !! a), (m !! b); simpl in *; try done; split; by eexists.
Qed.

Lemma seg_dom m a l x : seg m a l -> x ∈ l -> is_Some (m !! x).
Proof.
  revert a. induction l as [|y l IH]; intros a; [by intros _ ?%elem_of_nil|].
  intros [Hl Hs] [->|Hx]%elem_of_cons; [apply (link_dom _ _ _ Hl)|by apply (IH y)].
Qed.

Lemma ring_dom m h l x : ring m h l -> x ∈ h :: l -> is_Some (m !! x).
Proof.
  intros [_ Hs] Hx. apply (seg_dom _ _ _ _ Hs). rewrite elem_of_app, list_elem_of_singleton. apply elem_of_cons in Hx. tauto.
Qed.

(** What there is on the two sides of a position of a ring. *)
Record cut (m : list_store) (h : Z) (l1 l2 : list Z) (x : Z) (r : list Z) : Prop := {
  cut_back : l2 ++ [h] = x :: r;
  cut_hd : hd h l2 = x;
  cut_left : seg m h l1;
  cut_link : link m (List.last l1 h) x;
  cut_right : seg m x r;
  cut_left_nodup : NoDup (h :: l1);
  cut_right_nodup : NoDup (x :: r);
  cut_disjoint : (List.last l1 h ∉ x :: r) \/ List.last l1 h = List.last r x;
  cut_next : x ∉ l1
}.

Lemma ring_cut m h l1 l2 : ring m h (l1 ++ l2) -> exists x r, cut m h l1 l2 x r.
Proof.
  intros [Hd Hs]. destruct (l2 ++ [h]) as [|x r] eqn:E; [by destruct l2|]. exists x, r.
  rewrite <- app_assoc, E in Hs. apply seg_app in Hs as (H1 & H2 & H3).
  pose proof Hd as [Hh Hd2]%NoDup_cons. apply NoDup_app in Hd2 as (Hd1 & Hd12 & Hd2).
  rewrite not_elem_of_app in Hh.
  assert (forall y, y ∈ x :: r -> y = h \/ y ∈ l2) as Hin.
  { intros y. rewrite <- E, elem_of_app, list_elem_of_singleton. tauto. }
  assert (List.last r x = h) as El.
  { rewrite <- (last_cons 0 x r), <- E, (last_app 0 l2 h []). done. }
  split; try done.
  - destruct l2; simpl in *; congruence.
  - constructor; tauto.
  - rewrite <- E. apply NoDup_app. split; [done|]. split; [|apply NoDup_singleton].
    intros y Hy ->%list_elem_of_singleton. tauto.
  - destruct l1 as [|y l1]; [right; by rewrite El|left]. rewrite last_cons. intros Hx%Hin.
    pose proof (last_in y l1) as Hl. destruct Hx as [Hx|Hx]; [rewrite Hx in Hl; tauto|by apply (Hd12 _ Hl)].
  - intros Hx. destruct (Hin x ltac:(by left)) as [->|Hx2]; [tauto|by apply (Hd12 x)].
Qed.

(** The nodes [f :: s] between the two sides of a position. *)
Lemma splice_spec m m1 m2 h l1 l2 f s :
  ring m h (l1 ++ l2) -> seg m f s -> NoDup (f :: s) -> (forall a, a ∈ f :: s -> a ∉ h :: l1 ++ l2) ->
  relinked m m1 (List.last l1 h) f -> relinked m1 m2 (List.last s f) (hd h l2) ->
  ring m2 h (l1 ++ (f :: s) ++ l2).
Proof.
  intros Hr Hs Hnd Hdis R1 R2. destruct (ring_cut m h l1 l2 Hr) as (x & r & [Eb Eh Hl Hlk Hrt Hdl Hdr Hlast Hxl]).
  rewrite Eh in R2. pose proof (last_in h l1) as Hp. pose proof (last_in f s) as Hz.
  assert (forall a, a ∈ f :: s -> a ∉ x :: r) as Hdr2.
  { intros a Ha. rewrite <- Eb, elem_of_app, list_elem_of_singleton. specialize (Hdis a Ha).
    rewrite elem_of_cons, elem_of_app in Hdis. tauto. }
  assert (forall a, a ∈ f :: s -> a ∉ h :: l1) as Hdl2.
  { intros a Ha. specialize (Hdis a Ha). rewrite elem_of_cons, elem_of_app in Hdis. rewrite elem_of_cons. tauto. }
  split.
  - destruct Hr as [Hd _]. rewrite (Permutation_app_swap_app l1 (f :: s) l2), Permutation_middle.
    apply NoDup_app. done.
  - rewrite <- app_assoc. cbn [app]. rewrite <- app_assoc, Eb. apply seg_app. split; [|split].
    + apply (seg_frame m1 m2 _ _ _ _ R2); [done|done|left; by apply Hdl2|].
      apply (seg_frame m m1 _ _ _ _ R1); [done| |by right|done].
      intros Hf. apply (Hdl2 f); [by left|by right].
    + apply (relinked_frame _ _ _ _ _ _ R2); [|intros ->; apply (Hdr2 x); by left|by apply (relinked_link m m1)].
      intros E. apply (Hdl2 (List.last s f)); [done|]. by rewrite <- E.
    + apply seg_app. split; [|split].
      * apply (seg_frame m1 m2 _ _ _ _ R2); [done| |by right|].
        { intros Hx. apply (Hdr2 x); [by right|by left]. }
        apply (seg_frame m m1 _ _ _ _ R1); [done|by apply NoDup_cons in Hnd as []|left|done].
        intros Hx. by apply (Hdl2 _ Hx).
      * by apply (relinked_link m1 m2).
      * apply (seg_frame m1 m2 _ _ _ _ R2); [done|by apply NoDup_cons in Hdr as []|left; by apply Hdr2|].
        apply (seg_frame m m1 _ _ _ _ R1); [done| |done|done].
        intros Hf. apply (Hdr2 f); [by left|by right].
Qed.

(** ** Insertion *)

Lemma cut_next_of m h l1 l2 : ring m h (l1 ++ l2) -> get_next m (List.last l1 h) = Some (hd h l2).
Proof. intros Hr. destruct (ring_cut _ _ _ _ Hr) as (x & r & C). rewrite (cut_hd _ _ _ _ _ _ C). apply (cut_link _ _ _ _ _ _ C). Qed.

Lemma cut_prev_of m h l1 l2 : ring m h (l1 ++ l2) -> get_prev m (hd h l2) = Some (List.last l1 h).
Proof. intros Hr. destruct (ring_cut _ _ _ _ Hr) as (x & r & C). rewrite (cut_hd _ _ _ _ _ _ C). apply (cut_link _ _ _ _ _ _ C). Qed.

Lemma cut_nodes (h : Z) l1 l2 : List.last l1 h ∈ h :: l1 ++ l2 /\ hd h l2 ∈ h :: l1 ++ l2.
Proof.
  split; [|destruct l2 as [|y l2]; [by left|right; apply elem_of_app; right; by left]].
  pose proof (last_in h l1) as H. rewrite elem_of_cons in *. rewrite elem_of_app. tauto.
Qed.

(** The four assignments of an insertion are two links. *)
Lemma insert_after_links m pos node nx :
  get_next m pos = Some nx -> pos <> node -> nx <> node -> is_Some (m !! node) -> is_Some (m !! nx) ->
  pj_list_insert_after m pos node = m1 ← pj_link_node m pos node; pj_link_node m1 node nx.
Proof.
  intros Hn Hp Hx [nn Hnode] Hnx. assert (is_Some (m !! pos)) as Hpos by (unfold get_next in Hn; destruct (m !! pos); [by eexists|done]).
  destruct (link_node_spec m pos node Hpos (mk_is_Some _ _ Hnode)) as (m1 & -> & R1). bind_step.
  destruct (link_node_spec m1 node nx) as (m2 & -> & R2); [by apply (rl_dom _ _ _ _ R1)..|].
  unfold pj_list_insert_after.
  destruct (set_prev_some m node pos nn Hnode) as (a1 & -> & N1 & P1 & _ & D1). bind_step.
  rewrite N1, Hn. bind_step. destruct (proj2 (D1 node) (mk_is_Some _ _ Hnode)) as [n1 H1].
  destruct (set_next_some a1 node nx n1 H1) as (a2 & -> & P2 & N2 & _ & D2). bind_step.
  rewrite N2, N1, decide_False, Hn by done. bind_step.
  destruct (proj2 (D2 nx) (proj2 (D1 nx) Hnx)) as [n2 H2].
  destruct (set_prev_some a2 nx node n2 H2) as (a3 & -> & N3 & P3 & _ & D3). bind_step.
  destruct (proj2 (D3 pos) (proj2 (D2 pos) (proj2 (D1 pos) Hpos))) as [n3 H3].
  destruct (set_next_some a3 pos node n3 H3) as (a4 & -> & P4 & N4 & _). f_equal. apply store_ext; intros x.
  - rewrite N4, N3, N2, N1, (rl_next _ _ _ _ R2), (rl_next _ _ _ _ R1). repeat case_decide; congruence.
  - rewrite P4, P3, P2, P1, (rl_prev _ _ _ _ R2), (rl_prev _ _ _ _ R1). repeat case_decide; congruence.
Qed.

(** Inserting a node after or before any position of a list puts it there,
    and changes no other node than its neighbours; [pj_list_push_front] and
    [pj_list_push_back] are the two ends. *)
Theorem list_insert_correct m h l1 l2 node :
  ring m h (l1 ++ l2) -> is_Some (m !! node) -> (node ∉ h :: l1 ++ l2) ->
  exists m', pj_list_insert_after m (List.last l1 h) node = Some m' /\
    pj_list_insert_before m (hd h l2) node = Some m' /\
    (l1 = [] -> pj_list_push_front m h node = Some m') /\
    (l2 = [] -> pj_list_push_back m h node = Some m') /\
    ring m' h (l1 ++ node :: l2) /\
    (forall a, a <> node -> a <> List.last l1 h -> a <> hd h l2 -> m' !! a = m !! a).
Proof.
  intros Hr Hnode Hfresh. destruct (cut_nodes h l1 l2) as [Hp Hx].
  assert (List.last l1 h <> node /\ hd h l2 <> node) as [Hpn Hxn] by (split; intros E; apply Hfresh; by rewrite <- E).
  pose proof (cut_next_of m h l1 l2 Hr) as Hn. pose proof (cut_prev_of m h l1 l2 Hr) as Hv.
  destruct (link_node_spec m (List.last l1 h) node) as (m1 & E1 & R1); [by apply (ring_dom _ _ _ _ Hr)|done|].
  destruct (link_node_spec m1 node (hd h l2)) as (m2 & E2 & R2);
    [by apply (rl_dom _ _ _ _ R1)|by apply (rl_dom _ _ _ _ R1), (ring_dom _ _ _ _ Hr)|].
  assert (pj_list_insert_after m (List.last l1 h) node = Some m2) as E.
  { rewrite (insert_after_links _ _ _ _ Hn), E1; [done..|by apply (ring_dom _ _ _ _ Hr)]. }
  exists m2. split; [done|]. unfold pj_list_push_front, pj_list_push_back, pj_list_insert_before.
  split; [by rewrite Hv|]. split; [by intros ->|]. split; [intros ->; simpl hd in Hv; by rewrite Hv|]. split.
  - apply (splice_spec m m1 m2 h l1 l2 node []); try done; [apply NoDup_singleton|].
    by intros a ->%list_elem_of_singleton.
  - intros a H1 H2 H3. by rewrite (rl_other _ _ _ _ R2), (rl_other _ _ _ _ R1).
Qed.

(** ** Removal *)

(** A node that is linked with itself. *)
Lemma ring_self m x : ring m x [] <-> link m x x.
Proof. unfold ring. simpl. split; [tauto|]. intros H. split; [apply NoDup_singleton|done]. Qed.

Lemma relinked_self m m' x : link m x x -> relinked m m' x x -> m' = m.
Proof.
  intros [Hn Hp] R. apply store_ext; intros y; [rewrite (rl_next _ _ _ _ R)|rewrite (rl_prev _ _ _ _ R)]; case_decide; congruence.
Qed.

(** Erasing a node of a list takes it out, makes it a list of its own and
    changes no other node than its neighbours; erasing it again does nothing. *)
Theorem list_erase_correct m h l1 x l2 :
  ring m h (l1 ++ x :: l2) ->
  exists m', pj_list_erase m x = Some m' /\ ring m' h (l1 ++ l2) /\ ring m' x [] /\
    pj_list_erase m' x = Some m' /\
    (forall a, a <> x -> a <> List.last l1 h -> a <> hd h l2 -> m' !! a = m !! a).
Proof.
  intros Hr. destruct (ring_cut m h l1 (x :: l2) Hr) as (x' & r1 & [Eb Eh Hl Hlk Hrt Hdl Hdr Hlast Hxl]).
  simpl in Eb, Eh. subst x'. injection Eb as <-.
  destruct (l2 ++ [h]) as [|y r] eqn:E; [by destruct l2|].
  assert (hd h l2 = y) as Ey by (destruct l2; simpl in *; congruence). rewrite Ey.
  destruct Hrt as [[Hn Hyp] Hr2]. apply NoDup_cons in Hdr as [Hxr Hdr].
  assert (List.last r y = h) as El by (rewrite <- (last_cons 0 y r), <- E, (last_app 0 l2 h []); done).
  assert (h ∈ y :: r) as Hin by (rewrite <- El; apply last_in).
  assert (x ∉ h :: l1) as Hxl1 by (rewrite not_elem_of_cons; split; [by intros ->|done]).
  assert (List.last l1 h <> x /\ y <> x) as [Hpx Hyx].
  { split; [|intros ->; apply Hxr; by left]. intros Ex. apply Hxl1. rewrite <- Ex. apply last_in. }
  assert (y ∉ l1) as Hyl.
  { intros Hy. destruct Hr as [[_ Hd]%NoDup_cons _]. apply NoDup_app in Hd as (_ & Hd & _).
    destruct l2 as [|z l2]; simpl in E; injection E as -> Er.
    - by apply NoDup_cons in Hdl as [].
    - apply (Hd y Hy). right. by left. }
  assert ((List.last l1 h ∉ y :: r) \/ List.last l1 h = List.last r y) as Hlast'.
  { rewrite last_cons in Hlast. rewrite not_elem_of_cons in Hlast. tauto. }
  destruct (link_node_spec m (List.last l1 h) y) as (m1 & E1 & R1);
    [apply (link_dom _ _ _ Hlk)|apply (link_dom m x y); done|].
  destruct (list_init_spec m1 x) as (m2 & E2 & R2); [apply (rl_dom _ _ _ _ R1), (link_dom _ _ _ Hlk)|].
  exists m2. unfold pj_list_erase. rewrite (proj2 Hlk), Hn. do 2 bind_step. rewrite E1. bind_step.
  split; [done|]. pose proof (relinked_link _ _ _ _ R2) as Hself.
  split; [|split; [by apply ring_self|split]].
  - split.
    + destruct Hr as [Hd _]. rewrite <- Permutation_middle in Hd. rewrite NoDup_cons in Hd |- *.
      rewrite NoDup_cons in Hd. rewrite not_elem_of_cons in Hd. tauto.
    + rewrite <- app_assoc, E. apply seg_app. split; [|split].
      * apply (seg_frame m1 m2 _ _ _ _ R2); [done|by intros ?; apply Hxl1; right|by left|].
        apply (seg_frame m m1 _ _ _ _ R1); [done|done|by right|done].
      * apply (relinked_frame _ _ _ _ _ _ R2); [done|done|by apply (relinked_link m m1)].
      * apply (seg_frame m1 m2 _ _ _ _ R2); [done|by intros ?; apply Hxr; right|by left|].
        apply (seg_frame m m1 _ _ _ _ R1); [done|by apply NoDup_cons in Hdr as []|done|done].
  - destruct Hself as [Hs1 Hs2]. rewrite Hs1, Hs2. do 2 bind_step.
    destruct (link_node_spec m2 x x) as (m3 & -> & R3); [by apply (link_dom m2 x x)..|]. bind_step.
    apply relinked_self in R3; [|done]. subst m3.
    destruct (list_init_spec m2 x) as (m3 & -> & R3); [by apply (link_dom m2 x x)|]. f_equal. by apply (relinked_self _ _ x).
  - intros a H1 H2 H3. by rewrite (rl_other _ _ _ _ R2), (rl_other _ _ _ _ R1).
Qed.

(** ** Joining lists *)

Lemma seg_out m m' p n a l : relinked m m' p n -> (p ∉ a :: l) -> (n ∉ l) -> seg m a l -> seg m' a l.
Proof.
  intros H. revert a. induction l as [|x l IH]; intros a; [done|].
  intros [Ha Hp]%not_elem_of_cons [Hx Hn]%not_elem_of_cons [Hl Hs]. split; [|by apply IH].
  by apply (relinked_frame m m' p n).
Qed.

Lemma ring_out m m' x h l : relinked m m' x x -> (x ∉ h :: l) -> ring m h l -> ring m' h l.
Proof.
  intros R [Hh Hx]%not_elem_of_cons [Hd Hs]. split; [done|].
  assert (x ∉ l ++ [h]) by (rewrite not_elem_of_app, list_elem_of_singleton; done).
  apply (seg_out m m' x x); [done|rewrite not_elem_of_cons; done|done|done].
Qed.

Lemma list_empty_spec m h l : ring m h l -> pj_list_empty m h = Some (bool_decide (l = [])).
Proof.
  intros Hr. unfold pj_list_empty. pose proof (cut_next_of m h [] l Hr) as Hn. simpl in Hn. rewrite Hn. bind_step.
  destruct l as [|x l]; simpl hd; [by rewrite Z.eqb_refl|]. destruct Hr as [[Hh _]%NoDup_cons _].
  rewrite (proj2 (Z.eqb_neq x h)); [done|]. intros ->. apply Hh. by left.
Qed.

(** The nodes of another list between the two sides of a position, the links
    made in the order of the code. *)
Lemma join_links m h l1 l2 h2 f s :
  ring m h (l1 ++ l2) -> ring m h2 (f :: s) -> (forall a, a ∈ h2 :: f :: s -> a ∉ h :: l1 ++ l2) ->
  exists m1 m2 m', pj_link_node m (List.last l1 h) f = Some m1 /\ relinked m m1 (List.last l1 h) f /\
    pj_link_node m1 (List.last s f) (hd h l2) = Some m2 /\ pj_list_init m2 h2 = Some m' /\
    ring m' h (l1 ++ (f :: s) ++ l2) /\ ring m' h2 [] /\
    (forall a, (a ∉ h :: l1 ++ l2) -> (a ∉ h2 :: f :: s) -> m' !! a = m !! a).
Proof.
  intros Hr Hr2 Hdis. destruct (cut_nodes h l1 l2) as [Hp Hx]. pose proof (last_in f s) as Hz.
  assert (forall a, a ∈ h2 :: f :: s -> is_Some (m !! a)) as Hdom2 by (intros; by apply (ring_dom _ _ _ _ Hr2)).
  destruct (link_node_spec m (List.last l1 h) f) as (m1 & E1 & R1);
    [by apply (ring_dom _ _ _ _ Hr)|apply Hdom2; right; by left|].
  destruct (link_node_spec m1 (List.last s f) (hd h l2)) as (m2 & E2 & R2);
    [apply (rl_dom _ _ _ _ R1), Hdom2; by right|by apply (rl_dom _ _ _ _ R1), (ring_dom _ _ _ _ Hr)|].
  destruct (list_init_spec m2 h2) as (m3 & E3 & R3); [apply (rl_dom _ _ _ _ R2), (rl_dom _ _ _ _ R1), Hdom2; by left|].
  exists m1, m2, m3. do 4 (split; [done|]).
  destruct Hr2 as [Hd2 Hs2]. pose proof Hd2 as [Hh2 Hds]%NoDup_cons. cbn [app seg] in Hs2. destruct Hs2 as [_ Hs2].
  assert (seg m f s) as Hs by (destruct (seg_app m f s h2 []) as [H _]; by apply H).
  assert (ring m2 h (l1 ++ (f :: s) ++ l2)) as Hring.
  { apply (splice_spec m m1 m2); try done. intros a Ha. apply Hdis. by right. }
  split; [|split].
  - apply (ring_out m2 m3 h2); [done| |done]. specialize (Hdis h2 ltac:(by left)).
    rewrite not_elem_of_cons, not_elem_of_app in Hdis. rewrite not_elem_of_cons, !not_elem_of_app. tauto.
  - apply ring_self. by apply (relinked_link m2).
  - intros a Ha Ha2. assert (forall b, b ∈ h :: l1 ++ l2 -> a <> b) as Hne1 by by intros b Hb ->.
    assert (forall b, b ∈ h2 :: f :: s -> a <> b) as Hne2 by by intros b Hb ->.
    rewrite (rl_other _ _ _ _ R3), (rl_other _ _ _ _ R2), (rl_other _ _ _ _ R1); auto;
      apply Hne2; [right; by left|by right|by left|by left].
Qed.

(** The nodes of a list are moved into another one, in their order, at any
    position, and the emptied list is left empty; [pj_list_merge_first] and
    [pj_list_merge_last] are the two ends. *)
Theorem list_merge_correct m h l1 l2 h2 l :
  ring m h (l1 ++ l2) -> ring m h2 l -> (forall a, a ∈ h2 :: l -> a ∉ h :: l1 ++ l2) ->
  exists m', pj_list_insert_list_after m (List.last l1 h) h2 = Some m' /\
    pj_list_insert_list_before m (hd h l2) h2 = Some m' /\
    (l2 = [] -> pj_list_merge_last m h h2 = Some m') /\ (l1 = [] -> pj_list_merge_first m h h2 = Some m') /\
    ring m' h (l1 ++ l ++ l2) /\ ring m' h2 [] /\
    (forall a, (a ∉ h :: l1 ++ l2) -> (a ∉ h2 :: l) -> m' !! a = m !! a).
Proof.
  intros Hr Hr2 Hdis. pose proof (cut_next_of m h l1 l2 Hr) as Hn. pose proof (cut_prev_of m h l1 l2 Hr) as Hv.
  unfold pj_list_insert_list_before, pj_list_insert_list_after, pj_list_merge_last, pj_list_merge_first.
  rewrite Hv. rewrite !bind_some_eq; cbv beta zeta. rewrite (list_empty_spec m h2 l Hr2). rewrite !bind_some_eq; cbv beta zeta.
  destruct l as [|f s]; [exists m; done|]. rewrite bool_decide_eq_false_2 by done. cbn [negb].
  destruct (join_links m h l1 l2 h2 f s Hr Hr2 Hdis) as (m1 & m2 & m3 & E1 & R1 & E2 & E3 & Hring & Hself & Hframe).
  pose proof (cut_next_of m h2 [] (f :: s) Hr2) as Hn2. simpl in Hn2.
  assert (ring m h2 ((f :: s) ++ [])) as Hr2' by by rewrite app_nil_r.
  pose proof (cut_prev_of m h2 (f :: s) [] Hr2') as Hv2. rewrite last_cons in Hv2. simpl in Hv2.
  exists m3. rewrite Hv2, Hn, Hn2. rewrite !bind_some_eq; cbv beta zeta. rewrite E1. rewrite !bind_some_eq; cbv beta zeta.
  rewrite E2. rewrite !bind_some_eq; cbv beta zeta.
  split; [done|]. split; [done|]. destruct (cut_nodes h l1 l2) as [Hp Hx]. pose proof (last_in f s) as Hz.
  pose proof (proj1 Hr2) as [Hh2 _]%NoDup_cons.
  assert (h2 <> f /\ h2 <> List.last s f) as [H2f H2l] by (split; intros E; apply Hh2; [rewrite E; by left|by rewrite E]).
  split; [|split; [|done]].
  - intros ->. simpl in Hv, E2. rewrite Hv. rewrite !bind_some_eq; cbv beta zeta. rewrite E1. bind_step.
    rewrite (rl_prev _ _ _ _ R1), decide_False, Hv2 by done. bind_step. by rewrite E2.
  - intros ->. simpl in Hn, E1, R1. rewrite Hn. bind_step.
    assert (is_Some (m !! h) /\ is_Some (m !! f) /\ is_Some (m !! List.last s f) /\ is_Some (m !! hd h l2)) as (D1 & D2 & D3 & D4).
    { split; [apply (ring_dom _ _ _ _ Hr); by left|]. split; [apply (ring_dom _ _ _ _ Hr2); right; by left|].
      split; [apply (ring_dom _ _ _ _ Hr2); by right|by apply (ring_dom _ _ _ _ Hr)]. }
    pose proof (link_node_comm m h f (List.last s f) (hd h l2)) as Hc. rewrite E1 in Hc. simpl in Hc. rewrite E2 in Hc.
    destruct (link_node_spec m (List.last s f) (hd h l2) D3 D4) as (m0 & E0 & R0). rewrite E0 in Hc |- *. simpl in Hc. bind_step.
    rewrite (rl_next _ _ _ _ R0), decide_False, Hn2 by done. bind_step.
    rewrite <- Hc; try done; [intros E; apply (Hdis (List.last s f)); [by right|rewrite <- E; by left]|].
    intros E. apply (Hdis f); [right; by left|by rewrite E].
Qed.

(** The other list's head goes with its nodes. *)
Theorem list_insert_nodes_correct m h l1 l2 f s :
  ring m h (l1 ++ l2) -> ring m f s -> (forall a, a ∈ f :: s -> a ∉ h :: l1 ++ l2) ->
  exists m', pj_list_insert_nodes_after m (List.last l1 h) f = Some m' /\
    pj_list_insert_nodes_before m (hd h l2) f = Some m' /\ ring m' h (l1 ++ (f :: s) ++ l2).
Proof.
  intros Hr Hr2 Hdis. destruct (cut_nodes h l1 l2) as [Hp Hx]. pose proof (last_in f s) as Hz.
  destruct (link_node_spec m (List.last l1 h) f) as (m1 & E1 & R1);
    [by apply (ring_dom _ _ _ _ Hr)|apply (ring_dom _ _ _ _ Hr2); by left|].
  destruct (link_node_spec m1 (List.last s f) (hd h l2)) as (m2 & E2 & R2);
    [by apply (rl_dom _ _ _ _ R1), (ring_dom _ _ _ _ Hr2)|by apply (rl_dom _ _ _ _ R1), (ring_dom _ _ _ _ Hr)|].
  assert (pj_list_insert_nodes_after m (List.last l1 h) f = Some m2) as E.
  { unfold pj_list_insert_nodes_after. assert (ring m f (s ++ [])) as Hr2' by by rewrite app_nil_r.
    rewrite (cut_prev_of m f s [] Hr2' : get_prev m f = _), (cut_next_of m h l1 l2 Hr). do 2 bind_step. by rewrite E1. }
  exists m2. split; [done|]. split; [unfold pj_list_insert_nodes_before; by rewrite (cut_prev_of m h l1 l2 Hr)|].
  destruct Hr2 as [Hd2 Hs2]. apply (seg_app m f s f []) in Hs2 as (Hs2 & _). by apply (splice_spec m m1 m2).
Qed.

(** ** Traversal *)

Lemma ring_length m h l : ring m h l -> (length l < size m)%nat.
Proof.
  intros Hr. pose proof (proj1 Hr) as Hd.
  assert ((list_to_set (h :: l) : gset Z) ⊆ dom m) as Hsub.
  { intros a Ha%elem_of_list_to_set. apply elem_of_dom. by apply (ring_dom _ _ _ _ Hr). }
  apply subseteq_size in Hsub. rewrite size_list_to_set, size_dom in Hsub by done. simpl in Hsub. lia.
Qed.

(** From a node on to the head: the first node at which the loop stops. *)
Definition first_at (stop : Z -> bool) (h : Z) (l : list Z) : Z := List.hd h (List.filter stop l).

Lemma walk_spec m h stop fuel x r l :
  l ++ [h] = x :: r -> seg m x r -> (h ∉ l) -> (length l <= fuel)%nat ->
  walk fuel m h stop x = Some (first_at stop h l).
Proof.
  revert x r l. induction fuel as [|fuel IH]; intros x r l E Hs Hh Hf;
    (destruct l as [|y l]; simpl in E; injection E as -> Er;
     [cbn [walk]; by rewrite Z.eqb_refl|apply not_elem_of_cons in Hh as [Hne Hh]]); [simpl in Hf; lia|].
  cbn [walk]. rewrite (proj2 (Z.eqb_neq x h)) by done. unfold first_at. cbn [List.filter].
  destruct (stop x) eqn:Ex; [done|]. simpl orb. cbv iota.
  destruct r as [|z r]; [by destruct l|]. destruct Hs as [[Hn _] Hs]. rewrite Hn. bind_step.
  apply (IH z r l); [done|done|done|simpl in Hf; lia].
Qed.

Lemma count_loop_spec m h fuel x r l c :
  l ++ [h] = x :: r -> seg m x r -> (h ∉ l) -> (length l <= fuel)%nat -> 0 <= c < 2 ^ 32 ->
  count_loop fuel m h x c = Some (u32 (c + Z.of_nat (length l))).
Proof.
  revert x r l c. induction fuel as [|fuel IH]; intros x r l c E Hs Hh Hf Hc;
    (destruct l as [|y l]; simpl in E; injection E as -> Er;
     [cbn [count_loop]; rewrite Z.eqb_refl; simpl; by rewrite Z.add_0_r, u32_small|
      apply not_elem_of_cons in Hh as [Hne Hh]]); [simpl in Hf; lia|].
  cbn [count_loop]. rewrite (proj2 (Z.eqb_neq x h)) by done.
  destruct r as [|z r]; [by destruct l|]. destruct Hs as [[Hn _] Hs]. rewrite Hn. bind_step.
  rewrite (IH z r l); [|done|done|done|simpl in Hf; lia|apply u32_bound]. f_equal. cbn [length].
  unfold u32, wrap. rewrite Zplus_mod_idemp_l. f_equal. lia.
Qed.

Section traversal.
Context (m : list_store) (h : Z) (l : list Z).
Hypothesis Hr : ring m h l.

Lemma walk_ring stop : (p ← get_next m h; walk (size m) m h stop p) = Some (first_at stop h l).
Proof.
  rewrite (cut_next_of m h [] l Hr : get_next m h = _). bind_step.
  destruct (ring_cut m h [] l Hr) as (x & r & C). rewrite (cut_hd _ _ _ _ _ _ C).
  pose proof (ring_length m h l Hr). apply (walk_spec m h stop _ x r); try apply C; [|lia].
  by destruct Hr as [[]%NoDup_cons _].
Qed.

(** The loops over a list end: [pj_list_size] counts the nodes,
    [pj_list_find_node] tells whether a node is in the list and
    [pj_list_search] finds the first node that the predicate accepts, or NULL. *)
Theorem list_traversal_correct :
  pj_list_size m h = Some (u32 (Z.of_nat (length l))) /\
  (forall node, node <> h -> pj_list_find_node m h node = Some (if decide (node ∈ l) then Some node else None)) /\
  (forall comp, pj_list_search comp m h = Some (head (filter (fun p => comp p = 0) l))).
Proof.
  pose proof (ring_length m h l Hr) as Hlen. pose proof (proj1 Hr) as [Hh _]%NoDup_cons.
  split; [|split].
  - unfold pj_list_size. rewrite (cut_next_of m h [] l Hr : get_next m h = _). bind_step.
    destruct (ring_cut m h [] l Hr) as (x & r & C). rewrite (cut_hd _ _ _ _ _ _ C).
    rewrite (count_loop_spec m h _ x r l 0); [done|apply C|apply C|done|lia|lia].
  - intros node Hne. unfold pj_list_find_node. rewrite (bind_seq _ _ _ _ (walk_ring _)). f_equal. unfold first_at. clear -Hne.
    induction l as [|x r IH]; cbn [List.filter].
    + cbn [hd]. rewrite (proj2 (Z.eqb_neq h node)) by done. rewrite decide_False; [done|apply not_elem_of_nil].
    + destruct (Z.eqb_spec x node) as [->|Hx]; [cbn [hd]; rewrite Z.eqb_refl, decide_True; [done|by left]|].
      rewrite IH. destruct (decide (node ∈ r)) as [H1|H1], (decide (node ∈ x :: r)) as [H2|H2]; try done; exfalso.
      * apply H2. by right.
      * apply elem_of_cons in H2 as [|]; congruence.
  - intros comp. unfold pj_list_search. rewrite (bind_seq _ _ _ _ (walk_ring _)). f_equal. unfold first_at. clear -Hh.
    induction l as [|x r IH]; cbn [List.filter]; [simpl; by rewrite Z.eqb_refl|]. apply not_elem_of_cons in Hh as [Hx Hh].
    rewrite filter_cons. destruct (Z.eqb_spec (comp x) 0) as [E|E].
    + rewrite decide_True by done. simpl. by rewrite (proj2 (Z.eqb_neq x h)) by congruence.
    + rewrite decide_False by done. by apply IH.
Qed.
End traversal.

(** ** Examples *)

(** Two lists, built by the operations, and a node in none. *)
Definition ex_nodes : list_store :=
  list_to_map ((fun a => (a, mk_list 0 0)) <$> [1; 2; 3; 10; 11; 12; 20]).
Definition ex_lists : list_store :=
  default ∅ (m ← pj_list_init ex_nodes 1; m ← pj_list_init m 10;
             m ← pj_list_push_back m 1 2; m ← pj_list_push_back m 1 3;
             m ← pj_list_push_front m 10 12; pj_list_push_front m 10 11).

Ltac ring_evaluates :=
  split; [apply (bool_decide_unpack _); vm_compute; exact I|vm_compute; repeat split].

Lemma ex_first : ring ex_lists 1 [2; 3].
Proof. ring_evaluates. Qed.

Lemma ex_second : ring ex_lists 10 [11; 12].
Proof. ring_evaluates. Qed.

Lemma list_insert_correct_witness :
  exists m', pj_list_insert_after ex_lists 2 20 = Some m' /\ pj_list_insert_before ex_lists 3 20 = Some m' /\
    ring m' 1 [2; 20; 3].
Proof.
  destruct (list_insert_correct ex_lists 1 [2] [3] 20 ex_first) as (m' & H1 & H2 & _ & _ & H3 & _).
  - vm_compute. by eexists.
  - apply (bool_decide_unpack _). vm_compute. exact I.
  - exists m'. split; [exact H1|]. split; [exact H2|exact H3].
Defined.

Lemma list_erase_correct_witness :
  exists m', pj_list_erase ex_lists 2 = Some m' /\ ring m' 1 [3] /\ ring m' 2 [].
Proof.
  destruct (list_erase_correct ex_lists 1 [] 2 [3] ex_first) as (m' & H1 & H2 & H3 & _).
  exists m'. split; [exact H1|]. split; [exact H2|exact H3].
Defined.

Lemma list_merge_correct_witness :
  exists m', pj_list_merge_last ex_lists 1 10 = Some m' /\ ring m' 1 [2; 3; 11; 12] /\ ring m' 10 [].
Proof.
  destruct (list_merge_correct ex_lists 1 [2; 3] [] 10 [11; 12] ex_first ex_second) as (m' & _ & _ & H1 & _ & H2 & H3 & _).
  - apply Forall_forall, (bool_decide_unpack _). vm_compute. exact I.
  - exists m'. split; [exact (H1 eq_refl)|]. split; [exact H2|exact H3].
Defined.

Lemma list_traversal_correct_witness :
  pj_list_size ex_lists 1 = Some 2 /\ pj_list_find_node ex_lists 1 3 = Some (Some 3).
Proof.
  destruct (list_traversal_correct ex_lists 1 [2; 3] ex_first) as (H1 & H2 & _).
  split; [exact H1|]. exact (H2 3 ltac:(discriminate)).
Defined.
