(* ===== verification/ZephyrTls.v ===== *)
(** * Thread-local storage on Zephyr

    The port's own part of [pjlib/src/pj/os_core_unix.c]: a table of values
    keyed by the native thread, guarded by a spin lock, with generations that
    make the values of a key unreadable when the key is freed or used again.
    Each function holds the lock while it touches the table, so that a run of
    several threads is a sequence of these operations; [current] is the thread
    that [k_current_get] returns.  NULL is 0. *)
From S2P Require Import Prelude.

Definition PJ_ZEPHYR_TLS_MAX_KEYS : Z := 32.
Definition PJ_ZEPHYR_TLS_MAX_THREADS : Z := 16.

Record zephyr_tls_thread := mk_entry {
  thread : Z;
  values : list Z;
  value_generation : list Z
}.

(** The static variables, zero at start-up. *)
Record tls := mk_tls {
  zephyr_tls_keys : Z;
  zephyr_tls_generation : list Z;
  zephyr_tls_threads : list zephyr_tls_thread
}.

Definition zeros : list Z := replicate 32 0.
Definition tls_start : tls := mk_tls 0 zeros (replicate 16 (mk_entry 0 zeros zeros)).

(** [if (++generation == 0) ++generation]. *)
Definition bump (g : Z) : Z := let g := u32 (g + 1) in if g =? 0 then u32 (g + 1) else g.

Definition bit_of (i : Z) : Z := u32 (Z.shiftl 1 i).

Definition key_live (t : tls) (i : Z) : bool := negb (Z.land (zephyr_tls_keys t) (bit_of i) =? 0).

(** The loop over the keys, from [i] on. *)
Fixpoint alloc_loop (fuel : nat) (t : tls) (i : Z) : option (Z * Z * tls) :=
  match fuel with
  | O => Some (PJ_ETOOMANY, 0, t)
  | S fuel =>
      if negb (key_live t i) then
        g ← (zephyr_tls_generation t).[i];
        gs ← (zephyr_tls_generation t).[i <- bump g];
        Some (PJ_SUCCESS, i, mk_tls (Z.lor (zephyr_tls_keys t) (bit_of i)) gs (zephyr_tls_threads t))
      else alloc_loop fuel t (i + 1)
  end.

(** The status, and the index that is stored through [p_index]. *)
Definition pj_thread_local_alloc (t : tls) (p_index : Z) : option (Z * Z * tls) :=
  if p_index =? 0 then Some (PJ_EINVAL, 0, t) else
  alloc_loop (Z.to_nat PJ_ZEPHYR_TLS_MAX_KEYS) t 0.

Definition pj_thread_local_free (t : tls) (index : Z) : option tls :=
  if (0 <=? index) && (index <? PJ_ZEPHYR_TLS_MAX_KEYS) then
    g ← (zephyr_tls_generation t).[index];
    gs ← (zephyr_tls_generation t).[index <- bump g];
    Some (mk_tls (Z.land (zephyr_tls_keys t) (u32 (Z.lnot (bit_of index)))) gs (zephyr_tls_threads t))
  else Some t.

(** The loop of [pj_thread_local_set]: the index of the entry to use, the first
    free one unless the thread has one. *)
Fixpoint pick_entry (l : list zephyr_tls_thread) (current i : Z) (ent : option Z) : option Z :=
  match l with
  | [] => ent
  | e :: l =>
      if thread e =? current then Some i
      else pick_entry l current (i + 1)
             (match ent with None => if thread e =? 0 then Some i else None | Some _ => ent end)
  end.

Definition pj_thread_local_set (current : Z) (t : tls) (index value : Z) : option (Z * tls) :=
  if (index <? 0) || (PJ_ZEPHYR_TLS_MAX_KEYS <=? index) then Some (PJ_EINVAL, t) else
  if negb (key_live t index) then Some (PJ_EINVAL, t) else
  match pick_entry (zephyr_tls_threads t) current 0 None with
  | None => Some (PJ_ETOOMANY, t)
  | Some i =>
      e ← (zephyr_tls_threads t).[i];
      let e := if thread e =? 0 then mk_entry current zeros zeros else e in
      vs ← (values e).[index <- value];
      g ← (zephyr_tls_generation t).[index];
      gs ← (value_generation e).[index <- g];
      es ← (zephyr_tls_threads t).[i <- mk_entry (thread e) vs gs];
      Some (PJ_SUCCESS, mk_tls (zephyr_tls_keys t) (zephyr_tls_generation t) es)
  end.

Fixpoint get_loop (l : list zephyr_tls_thread) (current index gen : Z) : option Z :=
  match l with
  | [] => Some 0
  | e :: l =>
      g ← (value_generation e).[index];
      if (thread e =? current) && (g =? gen) then (values e).[index]
      else get_loop l current index gen
  end.

Definition pj_thread_local_get (current : Z) (t : tls) (index : Z) : option Z :=
  if (index <? 0) || (PJ_ZEPHYR_TLS_MAX_KEYS <=? index) then Some 0 else
  if key_live t index then
    gen ← (zephyr_tls_generation t).[index];
    get_loop (zephyr_tls_threads t) current index gen
  else Some 0.

Fixpoint clear_loop (l : list zephyr_tls_thread) (current : Z) : list zephyr_tls_thread :=
  match l with
  | [] => []
  | e :: l => if thread e =? current then mk_entry 0 zeros zeros :: l else e :: clear_loop l current
  end.

Definition zephyr_tls_clear_thread (current : Z) (t : tls) : tls :=
  mk_tls (zephyr_tls_keys t) (zephyr_tls_generation t) (clear_loop (zephyr_tls_threads t) current).
