(* ===== verification/ZephyrTlsSpec.v ===== *)
(** * Thread-local storage on Zephyr: specification

    The promise of the operations, over a set of keys, a set of threads and the
    value of each thread at each key, and the refinement of it by the tables of
    the port, for any sequence of operations of any threads that is too short
    for a generation to wrap around. *)
From S2P Require Import Prelude ZephyrTls.

(** ** The specification *)

Record spec := mk_spec {
  live : gset Z;
  members : gset Z;
  view : Z -> Z -> Z
}.

Definition spec_start : spec := mk_spec ∅ ∅ (fun _ _ => 0).

Definition keys : list Z := seqZ 0 32.

(** The least key that is not in use; its values are NULL in every thread. *)
Definition spec_alloc (a : spec) : Z * Z * spec :=
  match head (filter (fun i => i ∉ live a) keys) with
  | None => (PJ_ETOOMANY, 0, a)
  | Some i => (PJ_SUCCESS, i, mk_spec ({[i]} ∪ live a) (members a)
                 (fun th k => if k =? i then 0 else view a th k))
  end.

Definition spec_free (a : spec) (i : Z) : spec := mk_spec (live a ∖ {[i]}) (members a) (view a).

Definition spec_set (th : Z) (a : spec) (i v : Z) : Z * spec :=
  if decide (i ∈ live a) then
    if decide (th ∈ members a \/ (size (members a) < 16)%nat) then
      (PJ_SUCCESS, mk_spec (live a) ({[th]} ∪ members a)
         (fun th' k => if (th' =? th) && (k =? i) then v else view a th' k))
    else (PJ_ETOOMANY, a)
  else (PJ_EINVAL, a).

Definition spec_get (th : Z) (a : spec) (i : Z) : Z :=
  if decide (i ∈ live a) then view a th i else 0.

Definition spec_clear (th : Z) (a : spec) : spec :=
  mk_spec (live a) (members a ∖ {[th]}) (fun th' k => if th' =? th then 0 else view a th' k).

(** ** The representation *)

Definition ids (l : list zephyr_tls_thread) : list Z := filter (fun th => th <> 0) (thread <$> l).

(** What an entry holds for the key [i] in the generation [g]. *)
Definition entry_value (e : zephyr_tls_thread) (i g : Z) : Z :=
  if decide ((value_generation e).[i] = Some g) then default 0 (values e).[i] else 0.

Record entry_ok (gens : list Z) (e : zephyr_tls_thread) : Prop := {
  eo_values : length (values e) = 32%nat;
  eo_gens : length (value_generation e) = 32%nat;
  eo_le i g g' : (value_generation e).[i] = Some g' -> gens.[i] = Some g -> 0 <= g' <= g
}.

(** The tables represent [a] after at most [n] increments of generations. *)
Record tls_abs (n : nat) (t : tls) (a : spec) : Prop := {
  ta_keys : 0 <= zephyr_tls_keys t < 2 ^ 32;
  ta_live i : i ∈ live a <-> 0 <= i < 32 /\ Z.testbit (zephyr_tls_keys t) i = true;
  ta_gens : length (zephyr_tls_generation t) = 32%nat;
  ta_bound i g : (zephyr_tls_generation t).[i] = Some g -> 0 <= g <= Z.of_nat n;
  ta_pos i g : (zephyr_tls_generation t).[i] = Some g -> i ∈ live a -> 0 < g;
  ta_threads : length (zephyr_tls_threads t) = 16%nat;
  ta_entries : Forall (entry_ok (zephyr_tls_generation t)) (zephyr_tls_threads t);
  ta_nodup : NoDup (ids (zephyr_tls_threads t));
  ta_members : list_to_set (ids (zephyr_tls_threads t)) = members a;
  ta_view th i g e : th <> 0 -> i ∈ live a -> (zephyr_tls_generation t).[i] = Some g ->
    e ∈ zephyr_tls_threads t -> thread e = th -> view a th i = entry_value e i g;
  ta_none th i : th <> 0 -> th ∉ members a -> view a th i = 0
}.

(** ** Bits *)

Lemma bit_of_small i : 0 <= i < 32 -> bit_of i = 2 ^ i.
Proof.
  intros. unfold bit_of. rewrite Z.shiftl_1_l. apply u32_small.
  split; [apply Z.pow_nonneg; lia|]. apply Z.pow_lt_mono_r; lia.
Qed.

Lemma key_live_spec t i : 0 <= i < 32 -> key_live t i = Z.testbit (zephyr_tls_keys t) i.
Proof.
  intros. unfold key_live. rewrite bit_of_small by done.
  destruct (Z.testbit (zephyr_tls_keys t) i) eqn:E.
  - apply negb_true_iff, Z.eqb_neq. intros H0. apply (f_equal (fun z => Z.testbit z i)) in H0.
    rewrite Z.land_spec, E, Z.pow2_bits_true, Z.bits_0 in H0 by lia. done.
  - apply negb_false_iff, Z.eqb_eq. apply Z.bits_inj'. intros j Hj. rewrite Z.land_spec, Z.bits_0.
    destruct (decide (j = i)) as [->|]; [by rewrite E|]. by rewrite Z.pow2_bits_false, andb_false_r by lia.
Qed.

Lemma set_bit_spec k i j : 0 <= i < 32 -> Z.testbit (Z.lor k (bit_of i)) j = (j =? i) || Z.testbit k j.
Proof.
  intros. rewrite bit_of_small, Z.lor_spec, orb_comm by done. f_equal.
  destruct (Z.eqb_spec j i) as [->|]; [apply Z.pow2_bits_true; lia|apply Z.pow2_bits_false; lia].
Qed.

Lemma clear_bit_spec k i j :
  0 <= i < 32 -> 0 <= j < 32 -> Z.testbit (Z.land k (u32 (Z.lnot (bit_of i)))) j = negb (j =? i) && Z.testbit k j.
Proof.
  intros. unfold u32, wrap. rewrite bit_of_small, Z.land_spec, Z.mod_pow2_bits_low, Z.lnot_spec, andb_comm by lia. f_equal. f_equal.
  destruct (Z.eqb_spec j i) as [->|]; [apply Z.pow2_bits_true; lia|apply Z.pow2_bits_false; lia].
Qed.

Lemma lor_bound a b n : 0 < n -> 0 <= a < 2 ^ n -> 0 <= b < 2 ^ n -> 0 <= Z.lor a b < 2 ^ n.
Proof.
  intros Hn Ha Hb. assert (0 <= Z.lor a b) as H0 by (apply Z.lor_nonneg; lia). split; [done|].
  destruct (decide (Z.lor a b = 0)) as [->|Hz]; [lia|].
  destruct (decide (a = 0)) as [->|]; [rewrite Z.lor_0_l; lia|]. destruct (decide (b = 0)) as [->|]; [rewrite Z.lor_0_r; lia|].
  apply Z.log2_lt_pow2; [lia|]. rewrite Z.log2_lor by lia. apply Z.max_lub_lt; apply Z.log2_lt_pow2; lia.
Qed.

Lemma land_bound a b n : 0 < n -> 0 <= a < 2 ^ n -> 0 <= Z.land a b < 2 ^ n.
Proof.
  intros Hn Ha. assert (0 <= Z.land a b) as H0 by (apply Z.land_nonneg; lia). split; [done|].
  rewrite <- (Z.mod_small a (2 ^ n)) by done. rewrite <- Z.land_ones, <- Z.land_assoc, (Z.land_comm _ b), Z.land_assoc, Z.land_ones by lia.
  apply Z.mod_pos_bound. lia.
Qed.

Lemma bump_small g : 0 <= g -> g < 2 ^ 32 - 1 -> bump g = g + 1.
Proof. intros. unfold bump. rewrite (u32_small (g + 1)) by lia. destruct (Z.eqb_spec (g + 1) 0); lia. Qed.

(** ** Allocating and freeing keys *)

Lemma alloc_loop_spec fuel t i :
  0 <= i -> i + Z.of_nat fuel = 32 -> length (zephyr_tls_generation t) = 32%nat ->
  match head (filter (fun j => Z.testbit (zephyr_tls_keys t) j = false) (seqZ i (Z.of_nat fuel))) with
  | None => alloc_loop fuel t i = Some (PJ_ETOOMANY, 0, t)
  | Some j => exists g, (zephyr_tls_generation t).[j] = Some g /\ 0 <= j < 32 /\
      alloc_loop fuel t i = Some (PJ_SUCCESS, j, mk_tls (Z.lor (zephyr_tls_keys t) (bit_of j))
        (<[Z.to_nat j := bump g]> (zephyr_tls_generation t)) (zephyr_tls_threads t))
  end.
Proof.
  revert i. induction fuel as [|fuel IH]; intros i Hi Hf Hl; [done|].
  rewrite seqZ_cons, filter_cons by lia. cbn [alloc_loop]. rewrite key_live_spec by lia.
  destruct (Z.testbit (zephyr_tls_keys t) i) eqn:E; simpl negb; cbv iota.
  - rewrite decide_False by done. replace (Z.pred (Z.of_nat (S fuel))) with (Z.of_nat fuel) by lia.
    rewrite <- Z.add_1_r. apply IH; [lia|lia|done].
  - rewrite decide_True by done. simpl head. destruct (arr_get_is_Some (zephyr_tls_generation t) i) as [g Hg]; [lia|].
    exists g. rewrite Hg. bind_step. rewrite arr_set_in by (rewrite Hl; lia). split; [done|]. split; [lia|done].
Qed.

(** The generation of one key is increased. *)
Section bumped.
Context (n : nat) (t : tls) (a : spec) (i g : Z).
Hypothesis (Ha : tls_abs n t a) (Hg : (zephyr_tls_generation t).[i] = Some g) (Hn : Z.of_nat n < 2 ^ 32 - 1).

Let gs := <[Z.to_nat i := bump g]> (zephyr_tls_generation t).

Lemma bumped_at : bump g = g + 1 /\ gs.[i] = Some (g + 1).
Proof.
  pose proof (ta_bound _ _ _ Ha i g Hg). pose proof (arr_get_bound _ _ _ Hg).
  assert (bump g = g + 1) as E by (apply bump_small; lia). split; [done|]. unfold gs. rewrite E. by apply arr_get_insert_eq.
Qed.

Lemma bumped_other j : j <> i -> gs.[j] = (zephyr_tls_generation t).[j].
Proof. intros. pose proof (arr_get_bound _ _ _ Hg). apply arr_get_insert_ne; [lia|done]. Qed.

Lemma bumped_bound j g' : gs.[j] = Some g' -> 0 <= g' <= Z.of_nat (S n).
Proof.
  destruct (decide (j = i)) as [->|Hj].
  - rewrite (proj2 bumped_at). intros [= <-]. pose proof (ta_bound _ _ _ Ha i g Hg). lia.
  - rewrite bumped_other by done. intros H. pose proof (ta_bound _ _ _ Ha j g' H). lia.
Qed.

Lemma bumped_entries : Forall (entry_ok gs) (zephyr_tls_threads t).
Proof.
  pose proof (ta_entries _ _ _ Ha) as H. rewrite Forall_forall in *. intros e He. destruct (H e He) as [H1 H2 H3].
  split; [done|done|]. intros j g1 g2 Hg2. destruct (decide (j = i)) as [->|Hj].
  - rewrite (proj2 bumped_at). intros [= <-]. specialize (H3 i g g2 Hg2 Hg). lia.
  - rewrite bumped_other by done. by apply H3.
Qed.

(** Nothing of the key can be read any more. *)
Lemma bumped_value e : e ∈ zephyr_tls_threads t -> entry_value e i (g + 1) = 0.
Proof.
  intros He. pose proof (ta_entries _ _ _ Ha) as H. rewrite Forall_forall in H. destruct (H e He) as [_ _ H3].
  unfold entry_value. rewrite decide_False; [done|]. intros Hv. specialize (H3 i g (g + 1) Hv Hg). lia.
Qed.
End bumped.

Lemma filter_ext_in (P Q : Z -> Prop) `{!forall x, Decision (P x), !forall x, Decision (Q x)} (l : list Z) :
  (forall x, x ∈ l -> P x <-> Q x) -> filter P l = filter Q l.
Proof.
  induction l as [|x l IH]; intros Hx; [done|]. rewrite !filter_cons, IH by (intros; apply Hx; by right).
  specialize (Hx x ltac:(by left)). repeat case_decide; tauto.
Qed.

Lemma tls_abs_weaken n t a : tls_abs n t a -> tls_abs (S n) t a.
Proof. intros []. split; try done. intros i g Hg. specialize (ta_bound0 i g Hg). lia. Qed.

Lemma alloc_refines n t a p :
  tls_abs n t a -> Z.of_nat n < 2 ^ 32 - 1 -> p <> 0 ->
  exists t', pj_thread_local_alloc t p = Some ((spec_alloc a).1, t') /\
    tls_abs (S n) t' (spec_alloc a).2.
Proof.
  intros Ha Hn Hp. unfold pj_thread_local_alloc. rewrite (proj2 (Z.eqb_neq p 0) Hp).
  pose proof (alloc_loop_spec 32 t 0 ltac:(lia) ltac:(lia) (ta_gens _ _ _ Ha)) as H.
  unfold spec_alloc, keys. change (Z.of_nat 32) with 32 in H. change (Z.to_nat PJ_ZEPHYR_TLS_MAX_KEYS) with 32%nat.
  rewrite (filter_ext_in _ (fun i => i ∉ live a)) in H.
  2:{ intros x Hx%elem_of_seqZ. rewrite (ta_live _ _ _ Ha). split; intros E.
      - intros [_ E']. congruence.
      - apply not_true_is_false. intros E'. apply E. split; [lia|done]. }
  destruct (head _) as [i|] eqn:Eh.
  2:{ exists t. split; [done|]. by apply tls_abs_weaken. }
  destruct H as (g & Hg & Hi & ->). eexists. split; [done|].
  assert (i ∉ live a) as Hfree.
  { destruct (filter (fun i => i ∉ live a) (seqZ 0 32)) eqn:Ef; [done|]. simpl in Eh. simplify_eq.
    assert (i ∈ filter (fun i => i ∉ live a) (seqZ 0 32)) as Hin by (rewrite Ef; by left).
    by apply list_elem_of_filter in Hin as []. }
  destruct (bumped_at n t a i g Ha Hg Hn) as [Eb Hgi].
  split; simpl.
  - apply lor_bound; [lia|apply (ta_keys _ _ _ Ha)|]. apply u32_bound.
  - intros j. rewrite elem_of_union, elem_of_singleton, (ta_live _ _ _ Ha), set_bit_spec by done.
    destruct (Z.eqb_spec j i); simpl; intuition lia.
  - rewrite length_insert. apply (ta_gens _ _ _ Ha).
  - apply (bumped_bound n t a i g Ha Hg Hn).
  - intros j g' Hg' Hj. apply elem_of_union in Hj as [->%elem_of_singleton|Hj].
    + rewrite Hgi in Hg'. injection Hg' as <-. pose proof (ta_bound _ _ _ Ha i g Hg). lia.
    + destruct (decide (j = i)) as [->|Hne]; [done|]. rewrite (bumped_other n t i g Hg) in Hg' by done.
      by apply (ta_pos _ _ _ Ha j).
  - apply (ta_threads _ _ _ Ha).
  - apply (bumped_entries n t a i g Ha Hg Hn).
  - apply (ta_nodup _ _ _ Ha).
  - apply (ta_members _ _ _ Ha).
  - intros th j g' e Hth Hj Hg' He Eth. destruct (Z.eqb_spec j i) as [->|Hne].
    + rewrite Hgi in Hg'. injection Hg' as <-. symmetry. by apply (bumped_value n t a i g Ha Hg).
    + rewrite (bumped_other n t i g Hg) in Hg' by done.
      apply (ta_view _ _ _ Ha); try done. apply elem_of_union in Hj as [Hj%elem_of_singleton|]; done.
  - intros th j Hth Hm. destruct (j =? i); [done|]. by apply (ta_none _ _ _ Ha).
Qed.

(** Freeing a key that is not one, or is not in use, does not matter. *)
Lemma free_refines n t a i :
  tls_abs n t a -> Z.of_nat n < 2 ^ 32 - 1 ->
  exists t', pj_thread_local_free t i = Some t' /\ tls_abs (S n) t' (spec_free a i).
Proof.
  intros Ha Hn. unfold pj_thread_local_free, PJ_ZEPHYR_TLS_MAX_KEYS.
  destruct (Z.leb_spec 0 i), (Z.ltb_spec i 32); simpl andb; cbv iota.
  2,3,4: exists t; split; [done|]; assert (i ∉ live a) as Hl by (rewrite (ta_live _ _ _ Ha); lia);
    assert (spec_free a i = a) as -> by (destruct a as [lv ms vw]; unfold spec_free; simpl in *; f_equal; apply set_eq; intros x;
      rewrite elem_of_difference, elem_of_singleton; destruct (decide (x = i)) as [->|]; tauto);
    by apply (tls_abs_weaken n).
  destruct (arr_get_is_Some (zephyr_tls_generation t) i) as [g Hg]; [rewrite (ta_gens _ _ _ Ha); lia|].
  rewrite Hg. bind_step. rewrite arr_set_in by (rewrite (ta_gens _ _ _ Ha); lia). bind_step. eexists. split; [done|].
  destruct (bumped_at n t a i g Ha Hg Hn) as [Eb Hgi].
  split; simpl.
  - apply land_bound; [lia|apply (ta_keys _ _ _ Ha)].
  - intros j. rewrite elem_of_difference, elem_of_singleton, (ta_live _ _ _ Ha).
    split; [intros [[Hj Hb] Hne]|intros [Hj Hb]]; rewrite clear_bit_spec in * by lia;
      destruct (Z.eqb_spec j i); simpl in *; done.
  - rewrite length_insert. apply (ta_gens _ _ _ Ha).
  - apply (bumped_bound n t a i g Ha Hg Hn).
  - intros j g' Hg' [Hj Hne%not_elem_of_singleton]%elem_of_difference.
    rewrite (bumped_other n t i g Hg) in Hg' by done. by apply (ta_pos _ _ _ Ha j).
  - apply (ta_threads _ _ _ Ha).
  - apply (bumped_entries n t a i g Ha Hg Hn).
  - apply (ta_nodup _ _ _ Ha).
  - apply (ta_members _ _ _ Ha).
  - intros th j g' e Hth [Hj Hne%not_elem_of_singleton]%elem_of_difference Hg' He Eth.
    rewrite (bumped_other n t i g Hg) in Hg' by done. by apply (ta_view _ _ _ Ha).
  - apply (ta_none _ _ _ Ha).
Qed.

(** ** The table of threads *)

Lemma ids_app l1 e l2 : ids (l1 ++ e :: l2) = ids l1 ++ (if decide (thread e <> 0) then [thread e] else []) ++ ids l2.
Proof.
  unfold ids. rewrite fmap_app, filter_app. f_equal. cbn [fmap list_fmap]. rewrite filter_cons. by case_decide.
Qed.

Lemma ids_cons e l : ids (e :: l) = (if decide (thread e <> 0) then [thread e] else []) ++ ids l.
Proof. apply (ids_app [] e l). Qed.

Lemma elem_of_ids th l : th ∈ ids l <-> th <> 0 /\ exists e, e ∈ l /\ thread e = th.
Proof.
  unfold ids. rewrite list_elem_of_filter, list_elem_of_fmap. split; intros [Hn (e & H1 & H2)]; (split; [done|]); eauto.
Qed.

(** The entry [pj_thread_local_set] picks. *)
Lemma pick_entry_spec l th i ent :
  th <> 0 ->
  (exists l1 e l2, l = l1 ++ e :: l2 /\ thread e = th /\ (th ∉ ids l1) /\ pick_entry l th i ent = Some (i + Z.of_nat (length l1))) \/
  (th ∉ ids l) /\
    (match ent with
     | Some j => pick_entry l th i ent = Some j
     | None => (pick_entry l th i ent = None /\ length (ids l) = length l) \/
         exists l1 e l2, l = l1 ++ e :: l2 /\ thread e = 0 /\ pick_entry l th i ent = Some (i + Z.of_nat (length l1))
     end).
Proof.
  intros Hth. revert i ent. induction l as [|e l IH]; intros i ent; cbn [pick_entry].
  { right. split; [apply not_elem_of_nil|]. destruct ent; [done|]. by left. }
  destruct (Z.eqb_spec (thread e) th) as [Ee|Ee].
  { left. exists [], e, l. split; [done|]. split; [done|]. split; [apply not_elem_of_nil|]. f_equal. simpl. lia. }
  destruct (IH (i + 1) (match ent with None => if thread e =? 0 then Some i else None | Some _ => ent end))
    as [(l1 & e' & l2 & -> & He' & Hl1 & ->)|[Hn Hp]].
  - left. exists (e :: l1), e', l2. split; [done|]. split; [done|]. split.
    + rewrite elem_of_ids in *. intros [_ (u & Hu & Eu)]. apply Hl1. split; [done|].
      apply elem_of_cons in Hu as [->|Hu]; [done|]. eauto.
    + f_equal. simpl. lia.
  - right. split.
    { rewrite elem_of_ids in *. intros [_ (u & Hu & Eu)]. apply Hn. split; [done|].
      apply elem_of_cons in Hu as [->|Hu]; [done|]. eauto. }
    destruct ent as [j|]; [done|]. destruct (Z.eqb_spec (thread e) 0) as [E0|E0].
    + right. exists [], e, l. split; [done|]. split; [done|]. rewrite Hp. f_equal. simpl. lia.
    + destruct Hp as [[Hp Hlen]|(l1 & e' & l2 & -> & He' & Hp)].
      * left. split; [done|]. rewrite ids_cons, decide_True by done. simpl. by rewrite Hlen.
      * right. exists (e :: l1), e', l2. split; [done|]. split; [done|]. rewrite Hp. f_equal. simpl. lia.
Qed.

(** What a thread reads. *)
Lemma get_loop_spec gens l th i g :
  Forall (entry_ok gens) l -> NoDup (ids l) -> th <> 0 -> 0 <= i < 32 ->
  (forall e, e ∈ l -> thread e = th -> get_loop l th i g = Some (entry_value e i g)) /\
  (th ∉ ids l -> get_loop l th i g = Some 0).
Proof.
  intros Hok Hnd Hth Hi. induction l as [|e l IH]; [split; [by intros e ?%elem_of_nil|done]|].
  apply Forall_cons in Hok as [He Hok]. rewrite ids_cons in Hnd.
  apply NoDup_app in Hnd as (_ & Hd & Hnd). specialize (IH Hok Hnd) as [IH1 IH2].
  destruct (arr_get_is_Some (value_generation e) i) as [ge Hge]; [rewrite (eo_gens _ _ He); lia|].
  destruct (arr_get_is_Some (values e) i) as [v Hv]; [rewrite (eo_values _ _ He); lia|].
  cbn [get_loop]. rewrite Hge. bind_step. destruct (Z.eqb_spec (thread e) th) as [Ee|Ee]; simpl andb.
  - assert (th ∉ ids l) as Hnot.
    { apply Hd. rewrite Ee, decide_True by done. by left. }
    assert (get_loop (e :: l) th i g = Some (entry_value e i g)) as Hget.
    { cbn [get_loop]. rewrite Hge. bind_step. rewrite (proj2 (Z.eqb_eq _ _) Ee). simpl andb. unfold entry_value.
      rewrite Hge, Hv. destruct (Z.eqb_spec ge g) as [->|Hne]; [by rewrite decide_True|].
      rewrite decide_False by congruence. by apply IH2. }
    cbn [get_loop] in Hget. rewrite Hge in Hget. rewrite bind_some_eq in Hget. rewrite (proj2 (Z.eqb_eq _ _) Ee) in Hget.
    simpl andb in Hget. rewrite Hget. split.
    + intros u [->|Hu]%elem_of_cons Eu; [done|]. exfalso. apply Hnot, elem_of_ids. eauto.
    + intros Hn. exfalso. apply Hn. rewrite elem_of_ids. split; [done|]. exists e. split; [by left|done].
  - split.
    + intros u [->|Hu]%elem_of_cons Eu; [done|]. by apply IH1.
    + intros Hn. apply IH2. intros Hin. apply Hn. rewrite elem_of_ids in *. destruct Hin as [_ (u & Hu & Eu)].
      split; [done|]. exists u. split; [by right|done].
Qed.

Lemma get_refines n t a th i :
  tls_abs n t a -> th <> 0 -> pj_thread_local_get th t i = Some (spec_get th a i).
Proof.
  intros Ha Hth. unfold pj_thread_local_get, spec_get, PJ_ZEPHYR_TLS_MAX_KEYS.
  destruct (Z.ltb_spec i 0), (Z.leb_spec 32 i); simpl orb; cbv iota.
  1-3: rewrite decide_False; [done|]; rewrite (ta_live _ _ _ Ha); lia.
  rewrite key_live_spec by lia. destruct (Z.testbit (zephyr_tls_keys t) i) eqn:E.
  2:{ rewrite decide_False; [done|]. rewrite (ta_live _ _ _ Ha), E. by intros []. }
  assert (i ∈ live a) as Hl by (rewrite (ta_live _ _ _ Ha); split; [lia|done]). rewrite decide_True by done.
  destruct (arr_get_is_Some (zephyr_tls_generation t) i) as [g Hg]; [rewrite (ta_gens _ _ _ Ha); lia|].
  rewrite Hg. bind_step.
  destruct (get_loop_spec _ _ th i g (ta_entries _ _ _ Ha) (ta_nodup _ _ _ Ha) Hth ltac:(lia)) as [H1 H2].
  destruct (decide (th ∈ ids (zephyr_tls_threads t))) as [Hin|Hin].
  - apply elem_of_ids in Hin as [_ (e & He & Ee)]. rewrite (H1 e He Ee). f_equal. symmetry. by apply (ta_view _ _ _ Ha).
  - rewrite (H2 Hin). f_equal. symmetry. apply (ta_none _ _ _ Ha); [done|]. rewrite <- (ta_members _ _ _ Ha). by rewrite elem_of_list_to_set.
Qed.

Lemma ids_length l : (length (ids l) <= length l)%nat.
Proof. unfold ids. etransitivity; [apply length_filter|]. by rewrite length_fmap. Qed.

Lemma zeros_ok gens th : (forall i g, gens.[i] = Some g -> 0 <= g) -> entry_ok gens (mk_entry th zeros zeros).
Proof.
  intros Hg. split; [done|done|]. simpl. intros i g g' Hz Hi. apply arr_get_Some in Hz as [_ Hz].
  apply lookup_replicate in Hz as [-> _]. specialize (Hg i g Hi). lia.
Qed.

Lemma zeros_value th i g : 0 < g -> entry_value (mk_entry th zeros zeros) i g = 0.
Proof.
  intros Hg. unfold entry_value. simpl. rewrite decide_False; [done|]. intros [_ Hz]%arr_get_Some.
  apply lookup_replicate in Hz as [? _]. lia.
Qed.

(** The entry of the thread is replaced by one with the new value. *)
Lemma set_entry n t a th i v g l1 e l2 e0 :
  tls_abs n t a -> th <> 0 -> i ∈ live a -> (zephyr_tls_generation t).[i] = Some g ->
  zephyr_tls_threads t = l1 ++ e :: l2 -> (th ∉ ids l1) -> (th ∉ ids l2) -> thread e = th \/ thread e = 0 ->
  thread e0 = th -> entry_ok (zephyr_tls_generation t) e0 ->
  (forall k g, k ∈ live a -> (zephyr_tls_generation t).[k] = Some g -> view a th k = entry_value e0 k g) ->
  exists vs gs es, (values e0).[i <- v] = Some vs /\ (value_generation e0).[i <- g] = Some gs /\
    (zephyr_tls_threads t).[Z.of_nat (length l1) <- mk_entry th vs gs] = Some es /\
    tls_abs n (mk_tls (zephyr_tls_keys t) (zephyr_tls_generation t) es)
      (mk_spec (live a) ({[th]} ∪ members a) (fun th' k => if (th' =? th) && (k =? i) then v else view a th' k)).
Proof.
  intros Ha Hth Hi Hg Et H1 H2 He Ee0 [Hv Hvg Hle] Hview.
  pose proof (proj1 (ta_live _ _ _ Ha i) Hi) as [Hr _].
  rewrite !arr_set_in by lia. eexists _, _, _. split; [done|]. split; [done|].
  rewrite Et, arr_set_in by (rewrite length_app; simpl; lia). split; [done|]. rewrite Nat2Z.id.
  set (e1 := mk_entry th _ _).
  replace (<[length l1 := e1]> (l1 ++ e :: l2)) with (l1 ++ e1 :: l2)
    by (rewrite insert_app_r_alt by lia; by rewrite Nat.sub_diag).
  pose proof (ta_entries _ _ _ Ha) as Hok. pose proof (ta_nodup _ _ _ Ha) as Hnd. pose proof (ta_members _ _ _ Ha) as Hm.
  rewrite Et in Hok, Hnd, Hm. rewrite ids_app in Hnd, Hm.
  assert (entry_ok (zephyr_tls_generation t) e1) as Hok1.
  { split; simpl; [by rewrite length_insert..|]. intros k gk gk' Hk' Hk. destruct (decide (k = i)) as [->|Hne].
    - rewrite arr_get_insert_eq in Hk' by lia. injection Hk' as <-. rewrite Hg in Hk. injection Hk as <-.
      pose proof (ta_bound _ _ _ Ha i g Hg). lia.
    - rewrite arr_get_insert_ne in Hk' by lia. by apply (Hle k). }
  assert (forall k gk, entry_value e1 k gk = if decide (k = i) then (if decide (gk = g) then v else 0) else entry_value e0 k gk) as Hval.
  { intros k gk. unfold entry_value. simpl. destruct (decide (k = i)) as [->|Hne].
    - rewrite !arr_get_insert_eq by lia. simpl. destruct (decide (gk = g)) as [->|Hgk]; [by rewrite decide_True|].
      rewrite decide_False; [done|]. congruence.
    - rewrite !arr_get_insert_ne by lia. done. }
  destruct Ha as [A1 A2 A3 A4 A5 A6 _ _ _ A10 A11]. split; simpl; try done.
  - by rewrite <- A6, Et, !length_app.
  - apply Forall_app in Hok as [Hok1' Hok2]. apply Forall_cons in Hok2 as [_ Hok2].
    apply Forall_app. split; [done|]. by constructor.
  - rewrite ids_app. simpl. rewrite decide_True by done. apply NoDup_app in Hnd as (N1 & N2 & N3).
    apply NoDup_app in N3 as (_ & _ & N3). apply NoDup_app. split; [done|]. split.
    + intros x Hx [->%list_elem_of_singleton|Hx2]%elem_of_app; [done|].
      apply (N2 x Hx), elem_of_app. by right.
    + apply NoDup_app. split; [apply NoDup_singleton|]. split; [|done]. by intros x ->%list_elem_of_singleton.
  - rewrite ids_app. simpl. rewrite decide_True by done. rewrite <- Hm, !list_to_set_app_L. simpl.
    destruct He as [He|He]; rewrite He; [rewrite decide_True by done|rewrite decide_False by (intros []; done)]; simpl; apply set_eq; intros x;
      rewrite ?elem_of_union, ?elem_of_singleton, ?elem_of_empty; tauto.
  - intros th' k gk u Hth' Hk Hgk Hu Eu. apply elem_of_app in Hu as [Hu|[->|Hu]%elem_of_cons].
    + assert (th' <> th) as Hne by (intros ->; apply H1, elem_of_ids; eauto).
      rewrite (proj2 (Z.eqb_neq _ _) Hne). simpl. apply A10; try done. rewrite Et. apply elem_of_app. by left.
    + simpl in Eu. subst th'. rewrite Z.eqb_refl, Hval. simpl. destruct (Z.eqb_spec k i) as [->|Hne].
      * rewrite decide_True by done. rewrite decide_True by congruence. done.
      * rewrite decide_False by done. by apply Hview.
    + assert (th' <> th) as Hne by (intros ->; apply H2, elem_of_ids; eauto).
      rewrite (proj2 (Z.eqb_neq _ _) Hne). simpl. apply A10; try done. rewrite Et. apply elem_of_app. right. by right.
  - intros th' k Hth' Hnot. rewrite not_elem_of_union, not_elem_of_singleton in Hnot. destruct Hnot as [Hne Hnot].
    rewrite (proj2 (Z.eqb_neq _ _) Hne). simpl. by apply A11.
Qed.

Lemma set_refines n t a th i v :
  tls_abs n t a -> th <> 0 ->
  exists t', pj_thread_local_set th t i v = Some ((spec_set th a i v).1, t') /\ tls_abs n t' (spec_set th a i v).2.
Proof.
  intros Ha Hth. unfold pj_thread_local_set, spec_set, PJ_ZEPHYR_TLS_MAX_KEYS.
  destruct (decide (i ∈ live a)) as [Hi|Hi].
  2:{ exists t. split; [|done]. destruct (Z.ltb_spec i 0), (Z.leb_spec 32 i); simpl orb; cbv iota; try done.
      rewrite key_live_spec by lia. destruct (Z.testbit (zephyr_tls_keys t) i) eqn:E; [|done].
      exfalso. apply Hi, (ta_live _ _ _ Ha). split; [lia|done]. }
  pose proof (proj1 (ta_live _ _ _ Ha i) Hi) as [Hr Hb].
  rewrite (proj2 (Z.ltb_ge i 0)), (proj2 (Z.leb_gt 32 i)) by lia. simpl orb. cbv iota.
  rewrite key_live_spec, Hb by lia. simpl negb. cbv iota.
  destruct (arr_get_is_Some (zephyr_tls_generation t) i) as [g Hg]; [rewrite (ta_gens _ _ _ Ha); lia|].
  pose proof (ta_members _ _ _ Ha) as Hm. pose proof (ta_nodup _ _ _ Ha) as Hnd.
  assert (size (members a) = length (ids (zephyr_tls_threads t))) as Hsz by (rewrite <- Hm; by apply size_list_to_set).
  destruct (pick_entry_spec (zephyr_tls_threads t) th 0 None Hth)
    as [(l1 & e & l2 & Et & Ee & H1 & ->)|[Hnot [[-> Hlen]|(l1 & e & l2 & Et & Ee & ->)]]].
  - rewrite decide_True.
    2:{ left. rewrite <- Hm, elem_of_list_to_set, elem_of_ids. split; [done|]. exists e. split; [|done]. rewrite Et.
        apply elem_of_app. right. by left. }
    assert ((zephyr_tls_threads t).[0 + Z.of_nat (length l1)] = Some e) as Hl
      by (rewrite Z.add_0_l, arr_get_nat, Et; by apply list_lookup_middle).
    rewrite Hl. bind_step. rewrite Ee, (proj2 (Z.eqb_neq _ _) Hth). rewrite Et in Hnd. rewrite ids_app in Hnd.
    assert (e ∈ zephyr_tls_threads t) as Hin by (rewrite Et; apply elem_of_app; right; by left).
    destruct (set_entry n t a th i v g l1 e l2 e Ha Hth Hi Hg Et H1) as (vs & gs & es & -> & E2 & E3 & Hres); [|by left|done|..].
    { apply NoDup_app in Hnd as (_ & _ & Hnd). apply NoDup_app in Hnd as (_ & Hnd & _). apply Hnd.
      rewrite Ee, decide_True by done. by left. }
    { pose proof (ta_entries _ _ _ Ha) as Hok. rewrite Forall_forall in Hok. by apply Hok. }
    { intros k gk Hk Hgk. by apply (ta_view _ _ _ Ha). }
    bind_step. rewrite Hg. bind_step. rewrite E2. bind_step. rewrite Ee, Z.add_0_l, E3. bind_step. by eexists.
  - rewrite decide_False; [by exists t|]. rewrite (ta_threads _ _ _ Ha) in Hlen. rewrite <- Hm at 1. rewrite elem_of_list_to_set. lia || (intros [?|?]; [done|lia]).
  - rewrite decide_True.
    2:{ right. rewrite Hsz. pose proof (ta_threads _ _ _ Ha) as H16. rewrite Et in H16 |- *. rewrite ids_app, Ee, decide_False by (by intros []).
        rewrite length_app in *. simpl in *. pose proof (ids_length l1). pose proof (ids_length l2). lia. }
    assert ((zephyr_tls_threads t).[0 + Z.of_nat (length l1)] = Some e) as Hl
      by (rewrite Z.add_0_l, arr_get_nat, Et; by apply list_lookup_middle).
    rewrite Hl. bind_step. rewrite Ee, Z.eqb_refl.
    rewrite Et, ids_app, !not_elem_of_app in Hnot. destruct Hnot as (N1 & _ & N2).
    destruct (set_entry n t a th i v g l1 e l2 (mk_entry th zeros zeros) Ha Hth Hi Hg Et N1 N2) as (vs & gs & es & E1 & E2 & E3 & Hres);
      [by right|done|..].
    { apply zeros_ok. intros k gk Hk. by apply (ta_bound _ _ _ Ha k). }
    { intros k gk Hk Hgk. rewrite zeros_value by (by apply (ta_pos _ _ _ Ha k)). apply (ta_none _ _ _ Ha); [done|].
      rewrite <- Hm, elem_of_list_to_set, Et, ids_app, Ee, decide_False by (by intros []). rewrite !elem_of_app. intros [?|[?%elem_of_nil|?]]; done. }
    rewrite E1. bind_step. rewrite Hg. bind_step. rewrite E2. bind_step. rewrite Z.add_0_l. simpl thread. rewrite E3. bind_step. by eexists.
Qed.

Lemma clear_loop_spec l th :
  th <> 0 ->
  (exists l1 e l2, l = l1 ++ e :: l2 /\ thread e = th /\ clear_loop l th = l1 ++ mk_entry 0 zeros zeros :: l2) \/
  (th ∉ ids l) /\ clear_loop l th = l.
Proof.
  intros Hth. induction l as [|e l IH]; cbn [clear_loop]; [right; split; [apply not_elem_of_nil|done]|].
  destruct (Z.eqb_spec (thread e) th) as [Ee|Ee]; [left; by exists [], e, l|].
  destruct IH as [(l1 & u & l2 & -> & Eu & ->)|[Hn ->]]; [left; by exists (e :: l1), u, l2|].
  right. split; [|done]. rewrite elem_of_ids in *. intros [_ (u & Hu & Eu)]. apply Hn. split; [done|].
  apply elem_of_cons in Hu as [->|Hu]; [done|]. eauto.
Qed.

Lemma clear_refines n t a th :
  tls_abs n t a -> th <> 0 -> tls_abs n (zephyr_tls_clear_thread th t) (spec_clear th a).
Proof.
  intros Ha Hth. unfold zephyr_tls_clear_thread, spec_clear.
  pose proof (ta_members _ _ _ Ha) as Hm. pose proof (ta_nodup _ _ _ Ha) as Hnd. pose proof (ta_entries _ _ _ Ha) as Hok.
  destruct (clear_loop_spec (zephyr_tls_threads t) th Hth) as [(l1 & e & l2 & Et & Ee & ->)|[Hn ->]].
  - rewrite Et in Hm, Hnd, Hok. rewrite ids_app, Ee, decide_True in Hm, Hnd by done.
    apply NoDup_app in Hnd as (N1 & N2 & N3). apply NoDup_app in N3 as (_ & N4 & N3).
    assert (th ∉ ids l1) as Hl1 by (intros H; apply (N2 th H); by left).
    assert (th ∉ ids l2) as Hl2 by (apply N4; by left).
    destruct Ha as [A1 A2 A3 A4 A5 A6 _ _ _ A10 A11]. split; simpl; try done.
    + by rewrite <- A6, Et, !length_app.
    + apply Forall_app in Hok as [Hok1 Hok2]. apply Forall_cons in Hok2 as [_ Hok2]. apply Forall_app. split; [done|].
      constructor; [|done]. apply zeros_ok. intros k gk Hk. by apply (A4 k).
    + rewrite ids_app. cbn [thread]. rewrite decide_False by (by intros []). apply NoDup_app. split; [done|]. split; [|done].
      intros x Hx Hx2. apply (N2 x Hx), elem_of_app. by right.
    + rewrite ids_app. cbn [thread]. rewrite decide_False by (by intros []). rewrite <- Hm, !list_to_set_app_L. simpl.
      apply set_eq. intros x. rewrite elem_of_difference, !elem_of_union, !elem_of_list_to_set, elem_of_singleton, elem_of_empty.
      destruct (decide (x = th)) as [->|]; tauto.
    + intros th' k gk u Hth' Hk Hgk Hu Eu. apply elem_of_app in Hu as [Hu|[->|Hu]%elem_of_cons]; [|by simpl in Eu|];
        (assert (th' <> th) as Hne by (intros ->; first [by apply Hl1, elem_of_ids; eauto|by apply Hl2, elem_of_ids; eauto]));
        rewrite (proj2 (Z.eqb_neq _ _) Hne); apply A10; try done; rewrite Et, elem_of_app, elem_of_cons; tauto.
    + intros th' k Hth' Hnot. destruct (Z.eqb_spec th' th) as [|Hne]; [done|]. apply A11; [done|].
      intros H. apply Hnot, elem_of_difference. rewrite elem_of_singleton. done.
  - assert (th ∉ members a) as Hnot by (rewrite <- Hm; by rewrite elem_of_list_to_set).
    destruct Ha as [A1 A2 A3 A4 A5 A6 A7 A8 A9 A10 A11]. split; simpl; try done.
    + rewrite A9. apply set_eq. intros x. rewrite elem_of_difference, elem_of_singleton.
      destruct (decide (x = th)) as [->|]; tauto.
    + intros th' k gk u Hth' Hk Hgk Hu Eu. destruct (Z.eqb_spec th' th) as [->|Hne]; [|by apply A10].
      rewrite <- (A11 th k) by done. by apply A10.
    + intros th' k Hth' Hnot'. destruct (Z.eqb_spec th' th) as [|Hne]; [done|]. apply A11; [done|].
      intros H. apply Hnot', elem_of_difference. rewrite elem_of_singleton. done.
Qed.

Lemma zeros_get i g : zeros.[i] = Some g -> g = 0.
Proof. intros [_ Hz]%arr_get_Some. by apply lookup_replicate in Hz as [-> _]. Qed.

Lemma start_abs : tls_abs 0 tls_start spec_start.
Proof.
  split; unfold tls_start, spec_start;
    cbn [zephyr_tls_keys zephyr_tls_generation zephyr_tls_threads live members view]; try done.
  - intros i. rewrite elem_of_empty, Z.bits_0. by split; [|intros []].
  - intros i g ->%zeros_get. lia.
  - apply Forall_replicate, zeros_ok. intros i g ->%zeros_get. lia.
  - vm_compute. constructor.
Qed.

(** ** Runs *)

(** An operation of a thread, and what it returns. *)
Inductive op := Alloc (p_index : Z) | Free (index : Z) | Set_ (index value : Z) | Get (index : Z) | Clear.

Definition step (t : tls) (o : Z * op) : option (list Z * tls) :=
  match o with
  | (_, Alloc p) => '(st, i, t) ← pj_thread_local_alloc t p; Some ([st; i], t)
  | (_, Free i) => t ← pj_thread_local_free t i; Some ([], t)
  | (th, Set_ i v) => '(st, t) ← pj_thread_local_set th t i v; Some ([st], t)
  | (th, Get i) => v ← pj_thread_local_get th t i; Some ([v], t)
  | (th, Clear) => Some ([], zephyr_tls_clear_thread th t)
  end.

Definition spec_step (a : spec) (o : Z * op) : list Z * spec :=
  match o with
  | (_, Alloc _) => let '(st, i, a) := spec_alloc a in ([st; i], a)
  | (_, Free i) => ([], spec_free a i)
  | (th, Set_ i v) => let '(st, a) := spec_set th a i v in ([st], a)
  | (th, Get i) => ([spec_get th a i], a)
  | (th, Clear) => ([], spec_clear th a)
  end.

(** What the operations of a run return, in their order. *)
Fixpoint results (t : tls) (l : list (Z * op)) : option (list (list Z)) :=
  match l with
  | [] => Some []
  | o :: l => '(r, t) ← step t o; rs ← results t l; Some (r :: rs)
  end.

Fixpoint spec_results (a : spec) (l : list (Z * op)) : list (list Z) :=
  match l with
  | [] => []
  | o :: l => let '(r, a) := spec_step a o in r :: spec_results a l
  end.

(** Native threads and the places indices are stored to are not NULL. *)
Definition proper (o : Z * op) : Prop := o.1 <> 0 /\ match o.2 with Alloc p => p <> 0 | _ => True end.

Lemma step_refines n t a o :
  tls_abs n t a -> Z.of_nat n < 2 ^ 32 - 1 -> proper o ->
  exists t', step t o = Some ((spec_step a o).1, t') /\ tls_abs (S n) t' (spec_step a o).2.
Proof.
  destruct o as [th o]. intros Ha Hn [Hth Ho]. simpl in Hth, Ho. destruct o as [p|i|i v|i|]; simpl.
  - destruct (alloc_refines n t a p Ha Hn Ho) as (t' & -> & Ha'). exists t'. by destruct (spec_alloc a) as [[? ?] ?].
  - destruct (free_refines n t a i Ha Hn) as (t' & -> & Ha'). by exists t'.
  - destruct (set_refines n t a th i v Ha Hth) as (t' & -> & Ha'). exists t'.
    destruct (spec_set th a i v). split; [done|]. by apply tls_abs_weaken.
  - rewrite (get_refines n t a th i Ha Hth). exists t. split; [done|]. by apply tls_abs_weaken.
  - eexists. split; [done|]. by apply tls_abs_weaken, clear_refines.
Qed.

(** The states a run ends in. *)
Fixpoint run (t : tls) (l : list (Z * op)) : option tls :=
  match l with [] => Some t | o :: l => '(_, t) ← step t o; run t l end.

Fixpoint spec_run (a : spec) (l : list (Z * op)) : spec :=
  match l with [] => a | o :: l => spec_run (spec_step a o).2 l end.

Lemma run_refines l n t a :
  tls_abs n t a -> Forall proper l -> Z.of_nat (n + length l) < 2 ^ 32 - 1 ->
  exists t', run t l = Some t' /\ tls_abs (n + length l) t' (spec_run a l) /\
    results t l = Some (spec_results a l).
Proof.
  revert n t a. induction l as [|o l IH]; intros n t a Ha Hp Hn.
  { exists t. by rewrite Nat.add_0_r. }
  apply Forall_cons in Hp as [Ho Hp]. simpl in Hn.
  destruct (step_refines n t a o Ha ltac:(lia) Ho) as (t1 & E & Ha1).
  destruct (IH (S n) t1 _ Ha1 Hp ltac:(lia)) as (t' & E' & Ha' & Er).
  cbn [run results spec_results spec_run length]. rewrite E. rewrite !bind_some_eq. cbv beta iota.
  exists t'. split; [done|]. rewrite Nat.add_succ_r. split; [done|]. rewrite Er. by destruct (spec_step a o).
Qed.

(** C30 For any sequence of fewer than [2^32 - 1] operations of any threads, from
    start-up, the tables of the port return what the specification says: a value
    is read back by the thread that set it until it is set again, the key is
    freed or the thread is cleared; a key in use again starts with NULL in every
    thread; and no access is outside of the tables. *)
Theorem tls_refines l :
  Forall proper l -> Z.of_nat (length l) < 2 ^ 32 - 1 ->
  results tls_start l = Some (spec_results spec_start l).
Proof.
  intros Hp Hn. destruct (run_refines l 0 tls_start spec_start start_abs Hp Hn) as (t & _ & _ & Hr). exact Hr.
Qed.

(** ** The generations wrap around *)

Definition period : Z := 2 ^ 32 - 1.

(** The generations are 1 to [2^32 - 1], over and over. *)
Lemma bump_cycle k : 0 <= k -> bump (1 + k mod period) = 1 + (k + 1) mod period.
Proof.
  intros Hk. unfold period. pose proof (Z.mod_pos_bound k (2 ^ 32 - 1) ltac:(lia)).
  rewrite <- Zplus_mod_idemp_l. set (r := k mod (2 ^ 32 - 1)) in *.
  destruct (decide (r = 2 ^ 32 - 2)) as [->|Hr]; [reflexivity|].
  rewrite bump_small by lia. rewrite (Z.mod_small (r + 1)) by lia. lia.
Qed.

Definition reuse (t : tls) : option tls :=
  t ← pj_thread_local_free t 0; '(_, _, t) ← pj_thread_local_alloc t 1; Some t.

Fixpoint reuse_times (n : nat) (t : tls) : option tls :=
  match n with O => Some t | S n => t ← reuse t; reuse_times n t end.

Lemma reuse_step g es :
  reuse (mk_tls 1 (g :: replicate 31 0) es) = Some (mk_tls 1 (bump (bump g) :: replicate 31 0) es).
Proof. reflexivity. Qed.

Lemma get_loop_free n th g : th <> 0 -> get_loop (replicate n (mk_entry 0 zeros zeros)) th 0 g = Some 0.
Proof.
  intros Hth. induction n as [|n IH]; [done|]. cbn [replicate get_loop value_generation thread].
  change (zeros.[0]) with (Some 0). bind_step. rewrite (proj2 (Z.eqb_neq 0 th)) by done. apply IH.
Qed.

(** The values of a key that was freed and allocated again [n] times are
    hidden from every thread that set them, unless [n] is a multiple of
    [2^32 - 1]: then the generation is the old one and a stale value is read. *)
Theorem tls_generation_period th v n :
  th <> 0 ->
  (t ← (let '(_, t) := default (0, tls_start) (t ← Some tls_start; '(_, _, t) ← pj_thread_local_alloc t 1;
          pj_thread_local_set th t 0 v) in reuse_times n t);
   pj_thread_local_get th t 0) =
  Some (if decide (Z.of_nat n mod period = 0) then v else 0).
Proof.
  intros Hth. set (es := mk_entry th (v :: replicate 31 0) (1 :: replicate 31 0) :: replicate 15 (mk_entry 0 zeros zeros)).
  assert (default (0, tls_start) (t ← Some tls_start; '(_, _, t) ← pj_thread_local_alloc t 1;
    pj_thread_local_set th t 0 v) = (PJ_SUCCESS, mk_tls 1 (1 :: replicate 31 0) es)) as ->.
  { assert (pj_thread_local_alloc tls_start 1 = Some (PJ_SUCCESS, 0, mk_tls 1 (1 :: replicate 31 0) (zephyr_tls_threads tls_start))) as Ea
      by reflexivity. rewrite bind_some_eq, Ea. rewrite bind_some_eq. cbv beta iota.
    unfold pj_thread_local_set. simpl. destruct th; done. }
  cbv beta iota.
  assert (forall n k, 0 <= k -> reuse_times n (mk_tls 1 (1 + k mod period :: replicate 31 0) es) =
    Some (mk_tls 1 (1 + (k + 2 * Z.of_nat n) mod period :: replicate 31 0) es)) as H.
  { clear n. induction n as [|n IH]; intros k Hk; cbn [reuse_times].
    - by rewrite Z.mul_0_r, Z.add_0_r.
    - rewrite reuse_step. rewrite bind_some_eq. rewrite !bump_cycle by lia. rewrite IH by lia.
      do 3 f_equal. f_equal. f_equal. lia. }
  pose proof (H n 0 ltac:(lia)) as Hn. change (1 + 0 mod period) with 1 in Hn. rewrite Hn, bind_some_eq, Z.add_0_l. clear Hn.
  set (r := 2 * Z.of_nat n mod period).
  assert (r = 0 <-> Z.of_nat n mod period = 0) as Hr.
  { unfold r, period. rewrite !Z.mod_divide by lia. split; [|intros; by apply Z.divide_mul_r].
    intros Hd. apply (Z.gauss _ 2); [done|]. reflexivity. }
  assert (pj_thread_local_get th (mk_tls 1 (1 + r :: replicate 31 0) es) 0 = Some (if 1 =? 1 + r then v else 0)) as ->.
  { generalize (1 + r). intros g. transitivity (get_loop es th 0 g); [reflexivity|]. unfold es.
    cbn [get_loop value_generation thread values]. change ((1 :: replicate 31 0).[0]) with (Some 1). bind_step.
    rewrite Z.eqb_refl, andb_true_l. destruct (1 =? g); [reflexivity|]. by apply get_loop_free. }
  destruct (Z.eqb_spec 1 (1 + r)) as [E|E]; [rewrite decide_True by (apply Hr; lia)|rewrite decide_False by (intros H0; apply Hr in H0; lia)]; done.
Qed.

(** ** Examples *)

(** Two threads, two keys: a value set by one thread, read by both, and read
    again after the key was freed and allocated. *)
Definition ex_run : list (Z * op) :=
  [(100, Alloc 1); (100, Alloc 1); (100, Set_ 1 7); (100, Get 1); (200, Get 1); (200, Set_ 1 8); (100, Get 1);
   (100, Free 1); (200, Get 1); (100, Alloc 1); (200, Get 1); (200, Set_ 5 1); (200, Clear)].

Lemma tls_refines_witness :
  results tls_start ex_run = Some (spec_results spec_start ex_run) /\
  results tls_start ex_run = Some [[PJ_SUCCESS; 0]; [PJ_SUCCESS; 1]; [PJ_SUCCESS]; [7]; [0]; [PJ_SUCCESS]; [7];
    []; [0]; [PJ_SUCCESS; 1]; [0]; [PJ_EINVAL]; []].
Proof.
  split; [|vm_compute; reflexivity].
  apply (tls_refines ex_run); [|vm_compute; reflexivity]. repeat constructor; discriminate.
Defined.

(** The seventeenth thread finds no place. *)
Lemma seventeen_threads :
  (l ← results tls_start ((1, Alloc 1) :: ((fun i => (Z.of_nat i, Set_ 0 1)) <$> seq 1 17)); last l) = Some [PJ_ETOOMANY].
Proof. vm_compute. reflexivity. Qed.

Lemma tls_generation_period_witness :
  (t ← (let '(_, t) := default (0, tls_start) (t ← Some tls_start; '(_, _, t) ← pj_thread_local_alloc t 1;
          pj_thread_local_set 100 t 0 7) in reuse_times 3 t);
   pj_thread_local_get 100 t 0) = Some (if decide (3 mod period = 0) then 7 else 0).
Proof. exact (tls_generation_period 100 7 3 ltac:(discriminate)). Defined.
