(* ===== verification/Except.v ===== *)
(** * Exceptions

    [pjlib/src/pj/except.c] and the macros of [except.h]: handlers on the
    stacks of the threads, linked through [prev], the innermost one in the
    thread-local storage.  [pj_longjmp] ends the enclosing computation with the
    handler it jumps to; a [PJ_TRY] block is a construct of a small language of
    statements, of which [exec] is the expansion of the macros.  Addresses of
    names and of handlers are not 0. *)
From S2P Require Import Prelude ZephyrTls.

Definition PJ_MAX_EXCEPTION_ID : Z := 16.

(** The functions registered with [pj_atexit]. *)
Inductive atexit_fn := ExceptionCleanup | LoggingShutdown | AppExit (f : Z).

Record exc := mk_exc {
  e_tls : tls;
  thread_local_id : Z;
  exception_id_names : list Z;
  atexit_func : list atexit_fn;
  prev_of : gmap Z Z
}.

Definition set_tls (e : exc) (t : tls) : exc :=
  mk_exc t (thread_local_id e) (exception_id_names e) (atexit_func e) (prev_of e).
Definition set_names (e : exc) (l : list Z) : exc :=
  mk_exc (e_tls e) (thread_local_id e) l (atexit_func e) (prev_of e).

(** [pj_atexit] of [os_core_unix.c], whose table has 32 places. *)
Definition pj_atexit (e : exc) (f : atexit_fn) : Z * exc :=
  if 32 <=? Z.of_nat (length (atexit_func e)) then (PJ_ETOOMANY, e)
  else (PJ_SUCCESS, mk_exc (e_tls e) (thread_local_id e) (exception_id_names e) (atexit_func e ++ [f]) (prev_of e)).

(** ** Exception identifiers *)

Fixpoint id_alloc_loop (fuel : nat) (names : list Z) (name i : Z) : option (Z * Z * list Z) :=
  match fuel with
  | O => Some (PJ_ETOOMANY, 0, names)
  | S fuel =>
      n ← names.[i];
      if n =? 0 then l ← names.[i <- name]; Some (PJ_SUCCESS, i, l)
      else id_alloc_loop fuel names name (i + 1)
  end.

Definition pj_exception_id_alloc (e : exc) (name : Z) : option (Z * Z * exc) :=
  '(st, id, l) ← id_alloc_loop (Z.to_nat (PJ_MAX_EXCEPTION_ID - 1)) (exception_id_names e) name 1;
  Some (st, id, set_names e l).

Definition pj_exception_id_free (e : exc) (id : Z) : option (Z * exc) :=
  if (0 <? id) && (id <? PJ_MAX_EXCEPTION_ID) then
    l ← (exception_id_names e).[id <- 0]; Some (PJ_SUCCESS, set_names e l)
  else Some (PJ_EINVAL, e).

(** The name; [None] inside stands for the texts made up for an unknown and an
    invalid identifier. *)
Definition pj_exception_id_name (e : exc) (id : Z) : option (option Z) :=
  if (0 <? id) && (id <? PJ_MAX_EXCEPTION_ID) then
    n ← (exception_id_names e).[id]; Some (if n =? 0 then None else Some n)
  else Some None.

(** ** Handlers *)

(** [if (thread_local_id == -1) ..]: the key is allocated once, and freed at exit. *)
Definition ensure_key (e : exc) : option exc :=
  if thread_local_id e =? -1 then
    '(st, id, t) ← pj_thread_local_alloc (e_tls e) 1;
    let id := if st =? PJ_SUCCESS then id else -1 in
    let e := mk_exc t id (exception_id_names e) (atexit_func e) (prev_of e) in
    Some (pj_atexit e ExceptionCleanup).2
  else Some e.

Definition pj_push_exception_handler_ (th : Z) (e : exc) (rec : Z) : option exc :=
  e ← ensure_key e;
  parent_handler ← pj_thread_local_get th (e_tls e) (thread_local_id e);
  let e := mk_exc (e_tls e) (thread_local_id e) (exception_id_names e) (atexit_func e)
             (<[rec := parent_handler]> (prev_of e)) in
  '(_, t) ← pj_thread_local_set th (e_tls e) (thread_local_id e) rec;
  Some (set_tls e t).

Definition pj_pop_exception_handler_ (th : Z) (e : exc) (rec : Z) : option exc :=
  handler ← pj_thread_local_get th (e_tls e) (thread_local_id e);
  if negb (handler =? 0) && (handler =? rec) then
    prev ← prev_of e !! handler;
    '(_, t) ← pj_thread_local_set th (e_tls e) (thread_local_id e) prev;
    Some (set_tls e t)
  else Some e.

(** The handler that [pj_longjmp] returns to, with the identifier; a null handler is
    dereferenced. *)
Definition pj_throw_exception_ (th : Z) (e : exc) (exception_id : Z) : option (Z * exc) :=
  handler ← pj_thread_local_get th (e_tls e) (thread_local_id e);
  if handler =? 0 then None else
  e ← pj_pop_exception_handler_ th e handler;
  Some (handler, e).

Definition exception_cleanup (e : exc) : option exc :=
  e ← (if negb (thread_local_id e =? -1) then
         t ← pj_thread_local_free (e_tls e) (thread_local_id e);
         Some (mk_exc t (-1) (exception_id_names e) (atexit_func e) (prev_of e))
       else Some e);
  Some (set_names e (replicate (Z.to_nat PJ_MAX_EXCEPTION_ID) 0)).

(** ** The macros *)

(** Statements of one thread; [Emit] is anything that can be observed.  In
    [PJ_TRY { body } PJ_CATCH(..) .. PJ_END] the chain of [PJ_CATCH] and
    [PJ_CATCH_ANY] picks a statement by the code, which is [Skip] when none of
    them applies; [rec] is the address of [pj_x_except__]. *)
Inductive stmt :=
  | Skip
  | Emit (x : Z)
  | Seq (p q : stmt)
  | PJ_THROW (id : Z)
  | PJ_TRY (rec : Z) (body : stmt) (catch : Z -> stmt).

(** What [setjmp] returns after [longjmp] with the value [id]. *)
Definition longjmp_value (id : Z) : Z := if id =? 0 then 1 else id.

Inductive outcome := Done | Jump (rec id : Z).

(** The statement runs to its end, or a [longjmp] to a handler leaves it. *)
Fixpoint exec (th : Z) (p : stmt) (e : exc) : option (outcome * list Z * exc) :=
  match p with
  | Skip => Some (Done, [], e)
  | Emit x => Some (Done, [x], e)
  | Seq p q =>
      '(o, l, e) ← exec th p e;
      match o with
      | Jump _ _ => Some (o, l, e)
      | Done => '(o, l', e) ← exec th q e; Some (o, l ++ l', e)
      end
  | PJ_THROW id => '(rec, e) ← pj_throw_exception_ th e id; Some (Jump rec (longjmp_value id), [], e)
  | PJ_TRY rec body catch =>
      e ← pj_push_exception_handler_ th e rec;
      '(o, l, e) ← exec th body e;
      match o with
      | Done => e ← pj_pop_exception_handler_ th e rec; Some (Done, l, e)
      | Jump r id =>
          if r =? rec then
            '(o, l', e) ← exec th (catch id) e;
            match o with
            | Done => e ← pj_pop_exception_handler_ th e rec; Some (Done, l ++ l', e)
            | Jump _ _ => Some (o, l ++ l', e)
            end
          else Some (o, l, e)
      end
  end.
