(* ===== verification/ExceptSpec.v ===== *)
(** * Exceptions: specification

    [PJ_TRY] blocks behave as structured exception handling: what the setjmp
    and longjmp of the macros do with the handlers in the thread-local storage
    is what the usual semantics of exceptions says. *)
From S2P Require Import Prelude ZephyrTls ZephyrTlsSpec Except.

(** ** Structured exceptions *)

Inductive result := Normal | Raised (id : Z).

(** An exception that a block's catch clauses do not mention ends there too; 0
    is thrown as 1. *)
Fixpoint eval (p : stmt) : result * list Z :=
  match p with
  | Skip => (Normal, [])
  | Emit x => (Normal, [x])
  | Seq p q =>
      let '(r, l) := eval p in
      match r with Raised _ => (r, l) | Normal => let '(r, l') := eval q in (r, l ++ l') end
  | PJ_THROW id => (Raised (longjmp_value id), [])
  | PJ_TRY _ body catch =>
      let '(r, l) := eval body in
      match r with Normal => (Normal, l) | Raised id => let '(r, l') := eval (catch id) in (r, l ++ l') end
  end.

(** The records of nested blocks are different objects on the stack. *)
Fixpoint scoped (used : list Z) (p : stmt) : Prop :=
  match p with
  | Seq p q => scoped used p /\ scoped used q
  | PJ_TRY rec body catch =>
      rec <> 0 /\ (rec ∉ used) /\ scoped (rec :: used) body /\ forall id, scoped (rec :: used) (catch id)
  | _ => True
  end.

(** ** The handlers of a thread *)

Fixpoint linked (prev : gmap Z Z) (stk : list Z) : Prop :=
  match stk with [] => True | x :: stk => prev !! x = Some (hd 0 stk) /\ x <> 0 /\ (x ∉ stk) /\ linked prev stk end.

(** [stk] are the handlers of the thread, the innermost first: the storage,
    which represents [a], has or can make a place for them. *)
Record handlers (n : nat) (a : spec) (th : Z) (e : exc) (stk : list Z) : Prop := {
  hs_abs : tls_abs n (e_tls e) a;
  hs_linked : linked (prev_of e) stk;
  hs_top : spec_get th a (thread_local_id e) = hd 0 stk;
  hs_member : th ∈ members a \/ (size (members a) < 16)%nat;
  hs_key : thread_local_id e ∈ live a \/
    thread_local_id e = -1 /\ Z.of_nat n < 2 ^ 32 - 1 /\ exists i, i ∈ keys /\ i ∉ live a
}.

(** What the handlers of the thread [th] may change: the key of the exceptions
    is allocated by the first of them; the other keys, the other threads and the
    identifiers are as they were. *)
Record grown (th : Z) (n : nat) (a : spec) (e : exc) (n' : nat) (a' : spec) (e' : exc) : Prop := {
  gr_names : exception_id_names e' = exception_id_names e;
  gr_key : (thread_local_id e' = thread_local_id e /\ atexit_func e' = atexit_func e /\ live a' = live a /\ n' = n) \/
    (thread_local_id e = -1 /\ 0 <= thread_local_id e' /\ (thread_local_id e' ∉ live a) /\ live a' = {[thread_local_id e']} ∪ live a /\
     atexit_func e' = atexit_func (pj_atexit e ExceptionCleanup).2 /\ n' = S n);
  gr_members th' : th' <> th -> th' ∈ members a' <-> th' ∈ members a;
  gr_view th' k : k ∈ live a -> th' <> th \/ k <> thread_local_id e -> spec_get th' a' k = spec_get th' a k
}.

Lemma grown_refl th n a e : grown th n a e n a e.
Proof. split; [done|by left|done|done]. Qed.

Lemma grown_trans th n a e n1 a1 e1 n2 a2 e2 :
  grown th n a e n1 a1 e1 -> grown th n1 a1 e1 n2 a2 e2 -> grown th n a e n2 a2 e2.
Proof.
  intros [Hn1 Hk1 Hm1 Hv1] [Hn2 Hk2 Hm2 Hv2]. split; [congruence| |intros th' Hne; rewrite Hm2, Hm1; done|].
  - destruct Hk1 as [(I1 & A1 & L1 & N1)|(I1 & P1 & F1 & L1 & A1 & N1)],
      Hk2 as [(I2 & A2 & L2 & N2)|(I2 & P2 & F2 & L2 & A2 & N2)].
    + left. split; [congruence|]. split; [congruence|]. split; congruence.
    + right. rewrite L1 in F2, L2. split; [congruence|]. split; [done|]. split; [done|]. split; [done|].
      split; [rewrite A2; unfold pj_atexit; rewrite A1; by destruct (32 <=? _)|congruence].
    + right. rewrite I2 in *. split; [done|]. split; [done|]. split; [done|]. split; [congruence|]. split; congruence.
    + lia.
  - intros th' k Hk Hor. rewrite Hv2, Hv1; [done|done|done|..].
    + destruct Hk1 as [(_ & _ & -> & _)|(_ & _ & _ & -> & _)]; [done|apply elem_of_union; by right].
    + destruct Hk1 as [(-> & _)|(_ & _ & F1 & _)]; [done|]. right. by intros ->.
Qed.

Lemma linked_insert prev stk x y : x ∉ stk -> linked prev stk -> linked (<[x := y]> prev) stk.
Proof.
  induction stk as [|z stk IH]; [done|]. intros [Hz Hx]%not_elem_of_cons (H1 & H2 & H3 & H4).
  cbn [linked]. rewrite lookup_insert_ne by done. auto.
Qed.

Lemma hd_nonzero prev stk : linked prev stk -> hd 0 stk = 0 -> stk = [].
Proof. destruct stk; [done|]. intros (_ & H & _) E. by simpl in E. Qed.

Section handlers.
Context (th : Z) (Hth : th <> 0).

(** A thread with a place in the table sets and reads its innermost handler. *)
Lemma set_handler n a e v stk :
  tls_abs n (e_tls e) a -> thread_local_id e ∈ live a -> (th ∈ members a \/ (size (members a) < 16)%nat) ->
  linked (prev_of e) stk -> v = hd 0 stk ->
  exists st t a', pj_thread_local_set th (e_tls e) (thread_local_id e) v = Some (st, t) /\
    handlers n a' th (set_tls e t) stk /\ grown th n a e n a' (set_tls e t) /\ thread_local_id e ∈ live a'.
Proof.
  intros Ha Hl Hm Hp ->. destruct (set_refines n (e_tls e) a th (thread_local_id e) (hd 0 stk) Ha Hth) as (t & E & Ha').
  unfold spec_set in *. rewrite decide_True in E, Ha' by done. rewrite decide_True in E, Ha' by done. simpl in E, Ha'.
  eexists _, t, _. split; [exact E|]. split; [split; try done|split; [split; try done|done]].
  - unfold spec_get. simpl. rewrite decide_True by done. by rewrite !Z.eqb_refl.
  - left. simpl. apply elem_of_union. left. by apply elem_of_singleton.
  - by left.
  - by left.
  - intros th' Hne. simpl. rewrite elem_of_union, elem_of_singleton. tauto.
  - intros th' k Hk Hor. unfold spec_get. simpl. case_decide; [|done].
    destruct (Z.eqb_spec th' th), (Z.eqb_spec k (thread_local_id e)); simpl; try done. exfalso. tauto.
Qed.

(** The key of the exceptions, allocated by the first handler. *)
Lemma key_spec n a e stk :
  handlers n a th e stk ->
  exists e1 n1 a1,
    ensure_key e = Some e1 /\
    handlers n1 a1 th e1 stk /\ grown th n a e n1 a1 e1 /\ thread_local_id e1 ∈ live a1 /\ prev_of e1 = prev_of e.
Proof.
  intros Hh. unfold ensure_key. pose proof Hh as [Ha Hp Hg Hm [Hl|(Hid & Hn & i & Hi & Hfree)]].
  { exists e, n, a. destruct (Z.eqb_spec (thread_local_id e) (-1)) as [E|E].
    - exfalso. apply (ta_live _ _ _ Ha) in Hl. lia.
    - split; [done|]. split; [done|]. split; [apply grown_refl|done]. }
  rewrite Hid, Z.eqb_refl. destruct (alloc_refines n (e_tls e) a 1 Ha Hn ltac:(done)) as (t & Ea & Ha').
  rewrite Ea. unfold spec_alloc in *. destruct (head (filter (fun i => i ∉ live a) keys)) as [j|] eqn:Ej.
  2:{ exfalso. assert (i ∈ filter (fun i => i ∉ live a) keys) as Hin by (apply list_elem_of_filter; done).
      destruct (filter (fun i => i ∉ live a) keys); [by apply elem_of_nil in Hin|done]. }
  assert ((j ∉ live a) /\ j ∈ keys) as [Hj Hjk].
  { apply (list_elem_of_filter (fun i => i ∉ live a)). destruct (filter (fun i => i ∉ live a) keys); [done|]. simpl in Ej. simplify_eq. by left. }
  apply elem_of_seqZ in Hjk.
  assert (stk = []) as ->.
  { apply (hd_nonzero _ _ Hp). rewrite <- Hg, Hid. unfold spec_get. rewrite decide_False; [done|].
    rewrite (ta_live _ _ _ Ha). lia. }
  set (e1 := (pj_atexit (mk_exc t j (exception_id_names e) (atexit_func e) (prev_of e)) ExceptionCleanup).2).
  assert (e_tls e1 = t /\ thread_local_id e1 = j /\ exception_id_names e1 = exception_id_names e /\ prev_of e1 = prev_of e /\
    atexit_func e1 = atexit_func (pj_atexit e ExceptionCleanup).2) as (T1 & I1 & N1 & P1 & X1)
    by (unfold e1, pj_atexit; simpl; destruct (32 <=? _); done).
  simpl in Ha'. match type of Ha' with tls_abs _ _ ?s => exists e1, (S n), s end. split; [done|].
  assert (j ∈ {[j]} ∪ live a) as Hjl by (apply elem_of_union; left; by apply elem_of_singleton).
  split; [|split; [|split; [by rewrite I1|done]]].
  - split; rewrite ?T1, ?I1, ?P1; [exact Ha'|done| |done|by left].
    unfold spec_get. simpl. rewrite decide_True by done. by rewrite Z.eqb_refl.
  - split; [done|right; rewrite I1; split; [done|]; split; [lia|done]|done|].
    intros th' k Hk _. unfold spec_get. simpl. rewrite decide_True by (apply elem_of_union; by right).
    rewrite decide_True by done. destruct (Z.eqb_spec k j) as [->|]; done.
Qed.

Lemma push_spec n a e stk rec :
  handlers n a th e stk -> rec <> 0 -> (rec ∉ stk) ->
  exists e' n' a', pj_push_exception_handler_ th e rec = Some e' /\ handlers n' a' th e' (rec :: stk) /\ grown th n a e n' a' e'.
Proof.
  intros Hh Hrec Hnew. unfold pj_push_exception_handler_.
  destruct (key_spec n a e stk Hh) as (e1 & n1 & a1 & -> & Hh1 & G1 & Hl1 & P1). destruct Hh1 as [Ha1 Hp1 Hg1 Hm1 _].
  bind_step. rewrite (get_refines n1 (e_tls e1) a1 th _ Ha1 Hth), Hg1. bind_step. cbn [e_tls thread_local_id].
  set (e2 := mk_exc _ _ _ _ _).
  destruct (set_handler n1 a1 e2 rec (rec :: stk) Ha1 Hl1 Hm1) as (st & t & a2 & E2 & Hh2 & G2 & _); [|done|].
  { simpl. rewrite lookup_insert_eq. split; [done|]. split; [done|]. split; [done|]. by apply linked_insert. }
  change (e_tls e1) with (e_tls e2). change (thread_local_id e1) with (thread_local_id e2). rewrite E2.
  rewrite bind_some_eq. cbv beta iota. eexists _, n1, a2. split; [done|]. split; [done|].
  apply (grown_trans _ _ _ _ n1 a1 e1); [done|]. destruct G2 as [G1' G2' G3' G4']. split; try done.
  destruct G2' as [G2'|(I2 & P2 & F2 & L2 & A2 & N2)]; [by left|right]. split; [done|]. split; [done|]. split; [done|].
  split; [done|]. split; [|done]. rewrite A2. unfold pj_atexit. simpl. by destruct (32 <=? _).
Qed.

Lemma handlers_top n a e stk :
  handlers n a th e stk -> pj_thread_local_get th (e_tls e) (thread_local_id e) = Some (hd 0 stk).
Proof. intros [Ha _ Hg _ _]. by rewrite (get_refines n (e_tls e) a th _ Ha Hth), Hg. Qed.

Lemma pop_top n a e rec stk :
  handlers n a th e (rec :: stk) ->
  exists e' a', pj_pop_exception_handler_ th e rec = Some e' /\ handlers n a' th e' stk /\ grown th n a e n a' e'.
Proof.
  intros H. unfold pj_pop_exception_handler_. rewrite (handlers_top _ _ _ _ H). simpl.
  destruct H as [Ha (Hp & Hr & Hn & Hl) Hg Hm Hid].
  rewrite (proj2 (Z.eqb_neq rec 0)), Z.eqb_refl by done. simpl. rewrite Hp. simpl.
  assert (thread_local_id e ∈ live a) as Hlive.
  { destruct Hid as [|(Hid & _)]; [done|]. exfalso. rewrite Hid in Hg. unfold spec_get in Hg.
    rewrite decide_False in Hg; [by simpl in Hg|]. rewrite (ta_live _ _ _ Ha). lia. }
  destruct (set_handler n a e (hd 0 stk) stk Ha Hlive Hm Hl eq_refl) as (st & t & a2 & -> & Hh & G & _). simpl. by eexists _, a2.
Qed.

Lemma pop_other n a e rec stk :
  handlers n a th e stk -> (rec ∉ stk) -> pj_pop_exception_handler_ th e rec = Some e.
Proof.
  intros H Hn. unfold pj_pop_exception_handler_. rewrite (handlers_top _ _ _ _ H). bind_step.
  destruct stk as [|x stk]; simpl; [done|]. destruct (Z.eqb_spec x rec) as [->|]; [|by rewrite andb_false_r].
  exfalso. apply Hn. by left.
Qed.

Lemma throw_spec n a e id stk :
  handlers n a th e stk ->
  match stk with
  | [] => pj_throw_exception_ th e id = None
  | s :: stk => exists e' a', pj_throw_exception_ th e id = Some (s, e') /\ handlers n a' th e' stk /\ grown th n a e n a' e'
  end.
Proof.
  intros H. unfold pj_throw_exception_. rewrite (handlers_top _ _ _ _ H). bind_step. destruct stk as [|s stk]; [done|].
  simpl hd. pose proof H as [_ (_ & Hs & _) _ _ _]. rewrite (proj2 (Z.eqb_neq s 0)) by done.
  destruct (pop_top n a e s stk H) as (e' & a' & -> & H'). simpl. by exists e', a'.
Qed.

(** A state reached with the handlers [stk] left. *)
Definition reaches n a e (o : outcome) l stk (r : option (outcome * list Z * exc)) : Prop :=
  exists e' n' a', r = Some (o, l, e') /\ handlers n' a' th e' stk /\ grown th n a e n' a' e'.

Lemma reaches_trans n a e n1 a1 e1 o l stk r :
  grown th n a e n1 a1 e1 -> reaches n1 a1 e1 o l stk r -> reaches n a e o l stk r.
Proof. intros G (e' & n' & a' & E & H & G'). exists e', n', a'. split; [done|]. split; [done|]. by eapply grown_trans. Qed.

Lemma exec_spec p used n a e stk :
  handlers n a th e stk -> (forall x, x ∈ stk -> x ∈ used) -> scoped used p ->
  match eval p with
  | (Normal, l) => reaches n a e Done l stk (exec th p e)
  | (Raised id, l) =>
      match stk with [] => exec th p e = None | s :: stk => reaches n a e (Jump s id) l stk (exec th p e) end
  end.
Proof.
  revert used n a e stk.
  induction p as [|x|p IHp q IHq|id|rec body IHb catch IHc]; intros used n a e stk Hh Hu Hs; cbn [eval exec].
  - exists e, n, a. split; [done|]. split; [done|apply grown_refl].
  - exists e, n, a. split; [done|]. split; [done|apply grown_refl].
  - destruct Hs as [Hs1 Hs2]. specialize (IHp used n a e stk Hh Hu Hs1). destruct (eval p) as [[|id] l].
    + destruct IHp as (e1 & n1 & a1 & -> & Hh1 & G1). rewrite bind_some_eq. cbv beta iota.
      specialize (IHq used n1 a1 e1 stk Hh1 Hu Hs2). destruct (eval q) as [[|id] l2]; [|destruct stk as [|s stk]].
      * apply (reaches_trans _ _ _ _ _ _ _ _ _ _ G1). destruct IHq as (e2 & n2 & a2 & -> & H2). by exists e2, n2, a2.
      * by rewrite IHq.
      * apply (reaches_trans _ _ _ _ _ _ _ _ _ _ G1). destruct IHq as (e2 & n2 & a2 & -> & H2). by exists e2, n2, a2.
    + destruct stk as [|s stk]; [by rewrite IHp|]. destruct IHp as (e1 & n1 & a1 & -> & H1). by exists e1, n1, a1.
  - pose proof (throw_spec n a e id stk Hh) as Ht. destruct stk as [|s stk]; [by rewrite Ht|].
    destruct Ht as (e' & a' & -> & He'). by exists e', n, a'.
  - destruct Hs as (Hrec & Hnew & Hsb & Hsc).
    assert (rec ∉ stk) as Hns by (intros Hx; apply Hnew; by apply Hu).
    destruct (push_spec n a e stk rec Hh Hrec Hns) as (e1 & n1 & a1 & -> & Hh1 & G1). bind_step.
    assert (forall x, x ∈ rec :: stk -> x ∈ rec :: used) as Hu1
      by (intros x [->|Hx]%elem_of_cons; [by left|right; auto]).
    assert (forall x, x ∈ stk -> x ∈ rec :: used) as Hu2 by (intros; right; auto).
    specialize (IHb (rec :: used) n1 a1 e1 (rec :: stk) Hh1 Hu1 Hsb). destruct (eval body) as [[|id] l];
      destruct IHb as (e2 & n2 & a2 & -> & Hh2 & G2); rewrite bind_some_eq; cbv beta iota;
      pose proof (grown_trans _ _ _ _ _ _ _ _ _ _ G1 G2) as G12.
    + destruct (pop_top n2 a2 e2 rec stk Hh2) as (e3 & a3 & -> & Hh3 & G3).
      exists e3, n2, a3. split; [done|]. split; [done|]. by eapply grown_trans.
    + rewrite Z.eqb_refl. specialize (IHc id (rec :: used) n2 a2 e2 stk Hh2 Hu2 (Hsc id)).
      destruct (eval (catch id)) as [[|id2] l2]; [|destruct stk as [|s stk]].
      * apply (reaches_trans _ _ _ _ _ _ _ _ _ _ G12). destruct IHc as (e3 & n3 & a3 & -> & Hh3 & G3).
        rewrite bind_some_eq. cbv beta iota. rewrite (pop_other n3 a3 e3 rec stk Hh3 Hns). by exists e3, n3, a3.
      * by rewrite IHc.
      * apply (reaches_trans _ _ _ _ _ _ _ _ _ _ G12). destruct IHc as (e3 & n3 & a3 & -> & H3). by exists e3, n3, a3.
Qed.

(** C37 Executing a statement with its [PJ_TRY] blocks gives what structured
    exception handling says: it ends normally with the handlers as they were, or
    the exception goes to the innermost handler around the statement, which is
    then no longer in force; without one it is a null pointer that is
    dereferenced.  The handlers of other threads and the other thread-local
    values stay as they are. *)
Theorem try_is_structured p n a e stk :
  handlers n a th e stk -> scoped stk p ->
  match eval p with
  | (Normal, l) => reaches n a e Done l stk (exec th p e)
  | (Raised id, l) =>
      match stk with [] => exec th p e = None | s :: stk => reaches n a e (Jump s id) l stk (exec th p e) end
  end.
Proof.
  intros Hh Hs. by apply (exec_spec p stk).
Qed.
End handlers.

(** ** A thread without a place in the table *)

(** In a thread that has no place in the full table of threads, pushing a
    handler has no effect and is not reported: an exception thrown inside of a
    [PJ_TRY] block dereferences a null pointer instead of reaching the block's
    handler. *)
Theorem throw_without_slot th n a e rec id catch :
  th <> 0 -> tls_abs n (e_tls e) a -> thread_local_id e ∈ live a -> th ∉ members a -> size (members a) = 16%nat ->
  is_Some (pj_push_exception_handler_ th e rec) /\ exec th (PJ_TRY rec (PJ_THROW id) catch) e = None.
Proof.
  intros Hth Ha Hl Hm Hsz.
  assert (thread_local_id e <> -1) as Hne by (intros E; apply (ta_live _ _ _ Ha) in Hl; lia).
  assert (spec_get th a (thread_local_id e) = 0) as Hg.
  { unfold spec_get. rewrite decide_True by done. by apply (ta_none _ _ _ Ha). }
  destruct (set_refines n (e_tls e) a th (thread_local_id e) rec Ha Hth) as (t & Es & Ha'). unfold spec_set in *.
  rewrite decide_True in Es, Ha' by done. rewrite decide_False in Es, Ha' by (intros [|]; [done|lia]). simpl in Es, Ha'.
  assert (exists e1, pj_push_exception_handler_ th e rec = Some e1 /\ e_tls e1 = t /\ thread_local_id e1 = thread_local_id e)
    as (e1 & E1 & Et & Ei).
  { unfold pj_push_exception_handler_, ensure_key. rewrite (proj2 (Z.eqb_neq _ _) Hne). bind_step.
    rewrite (get_refines n (e_tls e) a th _ Ha Hth). bind_step. cbn [e_tls thread_local_id]. rewrite Es.
    rewrite bind_some_eq. cbv beta iota. by eexists. }
  split; [by eexists|]. cbn [exec]. rewrite E1. bind_step. unfold pj_throw_exception_.
  by rewrite Et, Ei, (get_refines n t a th _ Ha' Hth), Hg.
Qed.

(** ** Identifiers *)

Lemma id_alloc_loop_spec fuel names name i :
  0 <= i -> i + Z.of_nat fuel = Z.of_nat (length names) ->
  (exists j, i <= j < Z.of_nat (length names) /\ names.[j] = Some 0 /\
     (forall k, i <= k < j -> names.[k] <> Some 0) /\
     id_alloc_loop fuel names name i = Some (PJ_SUCCESS, j, <[Z.to_nat j := name]> names)) \/
  (forall k, i <= k < Z.of_nat (length names) -> names.[k] <> Some 0) /\
     id_alloc_loop fuel names name i = Some (PJ_ETOOMANY, 0, names).
Proof.
  revert i. induction fuel as [|fuel IH]; intros i Hi Hf; cbn [id_alloc_loop].
  { right. split; [intros k Hk; lia|done]. }
  destruct (arr_get_is_Some names i) as [x Hx]; [lia|]. rewrite Hx. bind_step. destruct (Z.eqb_spec x 0) as [->|Hx0].
  - left. exists i. rewrite arr_set_in by lia. split; [lia|]. split; [done|]. split; [intros k Hk; lia|done].
  - destruct (IH (i + 1)) as [(j & Hj & Hz & Hmin & E)|[Hall E]]; [lia|lia|left|right].
    + exists j. split; [lia|]. split; [done|]. split; [|done]. intros k Hk.
      destruct (decide (k = i)) as [->|]; [congruence|]. apply Hmin. lia.
    + split; [|done]. intros k Hk. destruct (decide (k = i)) as [->|]; [congruence|]. apply Hall. lia.
Qed.

(** An exception identifier is the least unused one from 1 on, 0 being the
    normal return of [setjmp]; it carries its name until it is freed, and there
    are fifteen of them. *)
Theorem exception_id_alloc_spec e name :
  length (exception_id_names e) = 16%nat -> name <> 0 ->
  (exists id e', pj_exception_id_alloc e name = Some (PJ_SUCCESS, id, e') /\ 0 < id < PJ_MAX_EXCEPTION_ID /\
     pj_exception_id_name e id = Some None /\ (forall k, 0 < k < id -> pj_exception_id_name e k <> Some None) /\
     pj_exception_id_name e' id = Some (Some name) /\
     (forall k, k <> id -> pj_exception_id_name e' k = pj_exception_id_name e k) /\
     pj_exception_id_free e' id = Some (PJ_SUCCESS, e)) \/
  (forall k, 0 < k < PJ_MAX_EXCEPTION_ID -> pj_exception_id_name e k <> Some None) /\
     pj_exception_id_alloc e name = Some (PJ_ETOOMANY, 0, e).
Proof.
  intros Hl Hname. unfold pj_exception_id_alloc. change (Z.to_nat (PJ_MAX_EXCEPTION_ID - 1)) with 15%nat.
  assert (forall (e : exc) k, length (exception_id_names e) = 16%nat -> 0 < k < 16 ->
    (pj_exception_id_name e k = Some None <-> (exception_id_names e).[k] = Some 0)) as Hnone.
  { clear. intros e k Hl Hk. unfold pj_exception_id_name, PJ_MAX_EXCEPTION_ID.
    rewrite (proj2 (Z.ltb_lt 0 k)), (proj2 (Z.ltb_lt k 16)) by lia. simpl.
    destruct (arr_get_is_Some (exception_id_names e) k) as [x Hx]; [lia|]. rewrite Hx. simpl. destruct (Z.eqb_spec x 0); [by subst|].
    split; [done|]. intros [= ?]. done. }
  destruct (id_alloc_loop_spec 15 (exception_id_names e) name 1) as [(j & Hj & Hz & Hmin & ->)|[Hall ->]];
    [lia|rewrite Hl; lia|left|right]; rewrite bind_some_eq; cbv beta iota.
  - rewrite Hl in Hj. assert (j < 16) as Hj16 by lia. eexists j, _. split; [done|].
    split; [unfold PJ_MAX_EXCEPTION_ID; lia|]. split; [apply Hnone; [done|lia|done]|].
    split; [intros k Hk; rewrite Hnone by (done || lia); apply Hmin; lia|]. split; [|split].
    + unfold pj_exception_id_name, PJ_MAX_EXCEPTION_ID. rewrite (proj2 (Z.ltb_lt 0 j)), (proj2 (Z.ltb_lt j 16)) by lia. simpl.
      rewrite arr_get_insert_eq by lia. simpl. by rewrite (proj2 (Z.eqb_neq name 0)).
    + intros k Hk. unfold pj_exception_id_name. simpl. rewrite arr_get_insert_ne by lia. done.
    + unfold pj_exception_id_free, PJ_MAX_EXCEPTION_ID. rewrite (proj2 (Z.ltb_lt 0 j)), (proj2 (Z.ltb_lt j 16)) by lia. simpl.
      rewrite arr_set_in by (rewrite length_insert; lia). simpl. rewrite list_insert_insert_eq, (list_insert_id _ (Z.to_nat j) 0).
      * unfold set_names. by destruct e.
      * by apply arr_get_Some in Hz as [_ Hz].
  - split; [|unfold set_names; by destruct e]. intros k Hk. unfold PJ_MAX_EXCEPTION_ID in Hk. rewrite Hnone by (done || lia). apply Hall. rewrite Hl. lia.
Qed.

(** ** Examples *)

Definition exc_start : exc := mk_exc tls_start (-1) (replicate 16 0) [] ∅.

Lemma start_handlers : handlers 0 spec_start 1 exc_start [].
Proof.
  split; [apply start_abs|done|reflexivity|..].
  { right. vm_compute. lia. } right. split; [done|]. split; [vm_compute; reflexivity|].
  exists 0. split; [apply elem_of_seqZ; lia|apply not_elem_of_empty].
Qed.

(** An exception thrown two blocks deep, caught in the inner one, whose handler
    throws another one to the outer block. *)
Definition ex_try : stmt :=
  PJ_TRY 1000 (Seq (PJ_TRY 2000 (Seq (Emit 1) (PJ_THROW 3)) (fun id => Seq (Emit id) (PJ_THROW 4))) (Emit 9))
    (fun id => Emit (10 + id)).

Lemma ex_try_scoped : scoped [] ex_try.
Proof.
  unfold ex_try. cbn [scoped].
  repeat match goal with
  | |- _ /\ _ => split
  | |- True => exact I
  | |- not (elem_of _ _) => apply (bool_decide_unpack _); vm_compute; exact I
  | |- _ <> _ => discriminate
  | |- forall _ : Z, _ => intros ?; cbn [scoped]
  end.
Qed.

Lemma try_is_structured_witness :
  reaches 1 0 spec_start exc_start Done [1; 3; 14] [] (exec 1 ex_try exc_start).
Proof.
  apply (try_is_structured 1 ltac:(discriminate) ex_try 0 spec_start exc_start [] start_handlers).
  apply ex_try_scoped.
Defined.

(** Sixteen threads have a value; the seventeenth uses an exception. *)
Definition ex_ops : list (Z * op) := (1, Alloc 1) :: ((fun i => (Z.of_nat i, Set_ 0 1)) <$> seq 1 16).
Definition ex_full : exc := mk_exc (default tls_start (run tls_start ex_ops)) 0 (replicate 16 0) [] ∅.

Lemma ex_full_abs : tls_abs 17 (e_tls ex_full) (spec_run spec_start ex_ops).
Proof.
  destruct (run_refines ex_ops 0 tls_start spec_start start_abs) as (t' & E & Ha & _).
  - repeat constructor; discriminate.
  - vm_compute. reflexivity.
  - unfold ex_full. cbn [e_tls]. by rewrite E.
Qed.

Lemma throw_without_slot_witness :
  is_Some (pj_push_exception_handler_ 17 ex_full 1000) /\
  exec 17 (PJ_TRY 1000 (PJ_THROW 3) (fun _ => Emit 1)) ex_full = None.
Proof.
  apply (throw_without_slot 17 17 (spec_run spec_start ex_ops)); [discriminate|apply ex_full_abs|..].
  - apply (bool_decide_unpack _). vm_compute. exact I.
  - apply (bool_decide_unpack _). vm_compute. exact I.
  - vm_compute. reflexivity.
Defined.

Lemma exception_id_alloc_spec_witness :
  (exists id e', pj_exception_id_alloc exc_start 77 = Some (PJ_SUCCESS, id, e') /\ 0 < id < PJ_MAX_EXCEPTION_ID /\
     pj_exception_id_name e' id = Some (Some 77)) \/
  pj_exception_id_alloc exc_start 77 = Some (PJ_ETOOMANY, 0, exc_start).
Proof.
  destruct (exception_id_alloc_spec exc_start 77) as [(id & e' & H1 & H2 & _ & _ & H3 & _)|[_ H]].
  - reflexivity.
  - discriminate.
  - left. exists id, e'. split; [exact H1|]. split; [exact H2|exact H3].
  - right. exact H.
Defined.
