(* ===== verification/Log.v ===== *)
(** * Logging

    [pjlib/src/pj/log.c]: the keys of the thread-local storage that logging
    uses, the suspension of a thread's messages while one of them is put
    together, the indentation, and the line that is handed to the writer.  The
    time, the calling thread and the text that the format stands for are
    arguments of [pj_log]; the writer is the caller of the model.  The colours
    have no behaviour of their own and are left out. *)
From Stdlib Require Import Ascii String.
From S2P Require Import Prelude Bytes ZephyrTls Except PjString.

(** The bytes of a text. *)
Definition text (s : string) : list Z := (fun c => Z.of_N (N_of_ascii c)) <$> list_ascii_of_string s.

Definition PJ_LOG_HAS_DAY_NAME : Z := 1.
Definition PJ_LOG_HAS_YEAR : Z := 2.
Definition PJ_LOG_HAS_MONTH : Z := 4.
Definition PJ_LOG_HAS_DAY_OF_MON : Z := 8.
Definition PJ_LOG_HAS_TIME : Z := 16.
Definition PJ_LOG_HAS_MICRO_SEC : Z := 32.
Definition PJ_LOG_HAS_SENDER : Z := 64.
Definition PJ_LOG_HAS_NEWLINE : Z := 128.
Definition PJ_LOG_HAS_CR : Z := 256.
Definition PJ_LOG_HAS_SPACE : Z := 512.
Definition PJ_LOG_HAS_LEVEL_TEXT : Z := 2048.
Definition PJ_LOG_HAS_THREAD_ID : Z := 4096.
Definition PJ_LOG_HAS_THREAD_SWC : Z := 8192.
Definition PJ_LOG_HAS_INDENT : Z := 16384.

Definition PJ_LOG_MAX_LEVEL : Z := 5.
Definition PJ_LOG_MAX_SIZE : Z := 4000.
Definition PJ_LOG_INDENT_SIZE : Z := 1.
Definition PJ_LOG_INDENT_CHAR : Z := 46.
Definition PJ_LOG_SENDER_WIDTH : Z := 14.
Definition PJ_LOG_THREAD_WIDTH : Z := 12.
Definition LOG_MAX_INDENT : Z := 80.

(** The static variables of the file. *)
Record log := mk_log {
  pj_log_max_level : Z;
  g_last_thread : Z;
  thread_suspended_tls_id : Z;
  thread_indent_tls_id : Z;
  log_decor : Z
}.

Definition log_start : log := mk_log PJ_LOG_MAX_LEVEL 0 (-1) (-1) (16 + 32 + 64 + 128 + 512 + 8192 + 16384).

Definition set_log_level (g : log) (l : Z) : log :=
  mk_log l (g_last_thread g) (thread_suspended_tls_id g) (thread_indent_tls_id g) (log_decor g).
Definition set_last_thread (g : log) (th : Z) : log :=
  mk_log (pj_log_max_level g) th (thread_suspended_tls_id g) (thread_indent_tls_id g) (log_decor g).
Definition set_log_keys (g : log) (s i : Z) : log :=
  mk_log (pj_log_max_level g) (g_last_thread g) s i (log_decor g).

(** ** The decoration and the level *)

(** With threads the flags are stored as they are. *)
Definition pj_log_set_decor (g : log) (decor : Z) : log :=
  mk_log (pj_log_max_level g) (g_last_thread g) (thread_suspended_tls_id g) (thread_indent_tls_id g) decor.
Definition pj_log_get_decor (g : log) : Z := log_decor g.
Definition pj_log_set_level (g : log) (level : Z) : log := set_log_level g level.
Definition pj_log_get_level (g : log) : Z := pj_log_max_level g.

(** ** Start and end *)

Definition pj_log_init (g : log) (e : exc) : option (Z * log * exc) :=
  let finish (g : log) (e : exc) :=
    let g := set_last_thread g 0 in
    Some (PJ_SUCCESS, pj_log_set_decor g (pj_log_get_decor g), e) in
  if thread_suspended_tls_id g =? -1 then
    '(status, id, t) ← pj_thread_local_alloc (e_tls e) 1;
    if negb (status =? PJ_SUCCESS) then Some (status, set_log_keys g (-1) (thread_indent_tls_id g), set_tls e t) else
    '(status, id', t) ← pj_thread_local_alloc t 1;
    if negb (status =? PJ_SUCCESS) then
      t ← pj_thread_local_free t id;
      Some (status, set_log_keys g (-1) (-1), set_tls e t)
    else
      finish (set_log_keys g id id') (pj_atexit (set_tls e t) LoggingShutdown).2
  else finish g e.

Definition logging_shutdown (g : log) (t : tls) : option (log * tls) :=
  '(g, t) ← (if negb (thread_suspended_tls_id g =? -1) then
               t ← pj_thread_local_free t (thread_suspended_tls_id g);
               Some (set_log_keys g (-1) (thread_indent_tls_id g), t)
             else Some (g, t));
  if negb (thread_indent_tls_id g =? -1) then
    t ← pj_thread_local_free t (thread_indent_tls_id g);
    Some (set_log_keys g (thread_suspended_tls_id g) (-1), t)
  else Some (g, t).

(** ** Indentation *)

Definition pj_log_set_indent (th : Z) (g : log) (t : tls) (indent : Z) : option tls :=
  let indent := if indent <? 0 then 0 else indent in
  '(_, t) ← pj_thread_local_set th t (thread_indent_tls_id g) indent;
  Some t.

Definition log_get_raw_indent (th : Z) (g : log) (t : tls) : option Z :=
  pj_thread_local_get th t (thread_indent_tls_id g).

Definition pj_log_get_indent (th : Z) (g : log) (t : tls) : option Z :=
  indent ← log_get_raw_indent th g t;
  Some (if LOG_MAX_INDENT <? indent then LOG_MAX_INDENT else indent).

Definition pj_log_add_indent (th : Z) (g : log) (t : tls) (indent : Z) : option tls :=
  raw ← log_get_raw_indent th g t;
  pj_log_set_indent th g t (i32 (raw + indent)).

Definition pj_log_push_indent (th : Z) (g : log) (t : tls) : option tls :=
  pj_log_add_indent th g t PJ_LOG_INDENT_SIZE.
Definition pj_log_pop_indent (th : Z) (g : log) (t : tls) : option tls :=
  pj_log_add_indent th g t (- PJ_LOG_INDENT_SIZE).

(** ** Suspension *)

(** The addresses of the two static variables [suspend_log], that of
    [suspend_logging], which is [PJ_TRUE], and that of [resume_logging]. *)
Definition suspend_log_true : Z := 1.
Definition suspend_log_false : Z := 2.

(** The level that was saved, and the new state. *)
Definition suspend_logging (th : Z) (g : log) (t : tls) : option (Z * log * tls) :=
  let saved_level := pj_log_max_level g in
  if negb (thread_suspended_tls_id g =? -1) then
    '(_, t) ← pj_thread_local_set th t (thread_suspended_tls_id g) suspend_log_true;
    Some (saved_level, g, t)
  else Some (saved_level, set_log_level g 0, t).

Definition resume_logging (th : Z) (g : log) (t : tls) (saved_level : Z) : option (log * tls) :=
  if negb (thread_suspended_tls_id g =? -1) then
    '(_, t) ← pj_thread_local_set th t (thread_suspended_tls_id g) suspend_log_false;
    Some (g, t)
  else if (pj_log_max_level g =? 0) && negb (saved_level =? 0) then Some (set_log_level g saved_level, t)
  else Some (g, t).

Definition is_logging_suspended (th : Z) (g : log) (t : tls) : option bool :=
  if negb (thread_suspended_tls_id g =? -1) then
    ils ← pj_thread_local_get th t (thread_suspended_tls_id g);
    if ils =? 0 then Some false
    else if ils =? suspend_log_true then Some true
    else if ils =? suspend_log_false then Some false
    else None
  else Some (pj_log_max_level g =? 0).

(** ** The line *)

Record pj_parsed_time := mk_ptime {
  wday : Z; day : Z; mon : Z; year : Z; sec : Z; min : Z; hour : Z; msec : Z
}.

(** The buffer and the offset of [pre] in it. *)
Definition cursor : Type := list Z * Z.

(** Writing at [pre] and advancing it by [n]. *)
Definition put_adv (c : cursor) (bs : list Z) (n : Z) : option cursor :=
  buf ← write_at c.1 c.2 bs; Some (buf, c.2 + n).
Definition put (c : cursor) (bs : list Z) : option cursor := put_adv c bs (Z.of_nat (length bs)).

Definition has (decor flag : Z) : bool := negb (Z.land decor flag =? 0).
Definition when (b : bool) (c : cursor) (k : cursor -> option cursor) : option cursor := if b then k c else Some c.

Definition put_space (c : cursor) : option cursor := when (negb (c.2 =? 0)) c (fun c => put c [32]).
Definition put_utoa_pad (c : cursor) (val min_dig pad : Z) : option cursor :=
  '(n, bs) ← pj_utoa_pad (u32 val) min_dig pad; put_adv c bs n.

(** A name right-aligned in [width] places, or its first [width] characters. *)
Definition put_name (c : cursor) (name : list Z) (width : Z) : option cursor :=
  let len := Z.of_nat (length name) in
  if len <=? width then put c (replicate (Z.to_nat (width - len)) 32 ++ name)
  else put c (take (Z.to_nat width) name).

Definition ltexts : list (list Z) :=
  text <$> ["FATAL:"; "ERROR:"; " WARN:"; " INFO:"; "DEBUG:"; "TRACE:"; "DETRC:"]%string.
Definition wdays : list (list Z) :=
  text <$> ["Sun"; "Mon"; "Tue"; "Wed"; "Thu"; "Fri"; "Sat"]%string.

(** From the level text to the time. *)
Definition put_time (decor level : Z) (ptime : pj_parsed_time) (c : cursor) : option cursor :=
  c ← when (has decor PJ_LOG_HAS_LEVEL_TEXT) c (fun c =>
        t ← ltexts.[level]; put_adv c (t ++ [0]) 6);
  c ← when (has decor PJ_LOG_HAS_DAY_NAME) c (fun c =>
        t ← wdays.[wday ptime]; put_adv c (t ++ [0]) 3);
  c ← when (has decor PJ_LOG_HAS_YEAR) c (fun c =>
        c ← put_space c; put_utoa_pad c (year ptime) 0 0);
  c ← when (has decor PJ_LOG_HAS_MONTH) c (fun c =>
        c ← put c [45]; put_utoa_pad c (mon ptime + 1) 2 48);
  c ← when (has decor PJ_LOG_HAS_DAY_OF_MON) c (fun c =>
        c ← put c [45]; put_utoa_pad c (day ptime) 2 48);
  c ← when (has decor PJ_LOG_HAS_TIME) c (fun c =>
        c ← put_space c; c ← put_utoa_pad c (hour ptime) 2 48;
        c ← put c [58]; c ← put_utoa_pad c (min ptime) 2 48;
        c ← put c [58]; put_utoa_pad c (sec ptime) 2 48);
  when (has decor PJ_LOG_HAS_MICRO_SEC) c (fun c =>
        c ← put c [46]; put_utoa_pad c (msec ptime) 3 48).

(** From the sender to the indentation; with the thread that is remembered. *)
Definition put_origin (decor : Z) (sender thread_name : list Z) (current_thread last indent : Z) (c : cursor)
    : option (cursor * Z) :=
  c ← when (has decor PJ_LOG_HAS_SENDER) c (fun c => c ← put_space c; put_name c sender PJ_LOG_SENDER_WIDTH);
  c ← when (has decor PJ_LOG_HAS_THREAD_ID) c (fun c => c ← put c [32]; put_name c thread_name PJ_LOG_THREAD_WIDTH);
  c ← when (negb (decor =? 0) && negb (decor =? PJ_LOG_HAS_NEWLINE)) c (fun c => put c [32]);
  '(c, last) ← (if has decor PJ_LOG_HAS_THREAD_SWC then
                  if negb (current_thread =? last) then c ← put c [33]; Some (c, current_thread)
                  else c ← put c [32]; Some (c, last)
                else if has decor PJ_LOG_HAS_SPACE then c ← put c [32]; Some (c, last)
                else Some (c, last));
  c ← when (has decor PJ_LOG_HAS_INDENT && (0 <? indent)) c (fun c =>
        put c (replicate (Z.to_nat indent) PJ_LOG_INDENT_CHAR));
  Some (c, last).

(** [vsnprintf] of the formatted text [msg] into [n] bytes, and its result; it
    fails when the text cannot be formatted. *)
Definition vsnprintf (buf : list Z) (off n : Z) (msg : option (list Z)) : option (list Z * Z) :=
  match msg with
  | None => Some (buf, -1)
  | Some msg =>
      buf ← (if n <=? 0 then Some buf else write_at buf off (take (Z.to_nat (n - 1)) msg ++ [0]));
      Some (buf, Z.of_nat (length msg))
  end.

(** The end of the line, [len] bytes of it being written; the buffer and its length. *)
Definition end_line (decor : Z) (buf : list Z) (len : Z) : option (list Z * Z) :=
  if (0 <=? len) && (len <? PJ_LOG_MAX_SIZE - 2) then
    '(buf, len) ← (if has decor PJ_LOG_HAS_CR then buf ← buf.[len <- 13]; Some (buf, len + 1) else Some (buf, len));
    '(buf, len) ← (if has decor PJ_LOG_HAS_NEWLINE then buf ← buf.[len <- 10]; Some (buf, len + 1) else Some (buf, len));
    buf ← buf.[len <- 0];
    Some (buf, len)
  else
    let len := PJ_LOG_MAX_SIZE - 1 in
    buf ← (if has decor PJ_LOG_HAS_CR then buf.[PJ_LOG_MAX_SIZE - 3 <- 13] else Some buf);
    buf ← (if has decor PJ_LOG_HAS_NEWLINE then buf.[PJ_LOG_MAX_SIZE - 2 <- 10] else Some buf);
    buf ← buf.[PJ_LOG_MAX_SIZE - 1 <- 0];
    Some (buf, len).

(** The message, or the complaint that replaces it: the buffer, the level and
    the result of the printing function. *)
Definition print_message (level : Z) (c : cursor) (msg : option (list Z)) : option (list Z * Z * Z) :=
  let room := PJ_LOG_MAX_SIZE - c.2 in
  '(buf, print_len) ← vsnprintf c.1 c.2 room msg;
  if print_len <? 0 then
    '(buf, print_len) ← vsnprintf buf c.2 room (Some (text "<logging error: msg too long>"));
    Some (buf, 1, print_len)
  else Some (buf, level, print_len).

(** From [len = pre - log_buffer] on: the level, the buffer and its length. *)
Definition put_message (decor level : Z) (c : cursor) (msg : option (list Z)) : option (Z * list Z * Z) :=
  let len := c.2 in
  let room := PJ_LOG_MAX_SIZE - len in
  '(buf, level, print_len) ← print_message level c msg;
  let print_len := if (print_len <? 0) || (room <=? print_len) then room - 1 else print_len in
  '(buf, len) ← end_line decor buf (len + print_len);
  Some (level, buf, len).

(** What the writer is given, if anything; [buf0] is the buffer on the stack. *)
Definition pj_log (th : Z) (g : log) (t : tls) (buf0 sender : list Z) (level : Z) (msg : option (list Z))
    (ptime : pj_parsed_time) (this : Z) (thread_name : list Z) : option (log * tls * option (Z * list Z * Z)) :=
  if pj_log_max_level g <? level then Some (g, t, None) else
  suspended ← is_logging_suspended th g t;
  if suspended : bool then Some (g, t, None) else
  '(saved_level, g, t) ← suspend_logging th g t;
  c ← put_time (log_decor g) level ptime (buf0, 0);
  indent ← pj_log_get_indent th g t;
  '(c, last) ← put_origin (log_decor g) sender thread_name this (g_last_thread g) indent c;
  line ← put_message (log_decor g) level c msg;
  '(g, t) ← resume_logging th (set_last_thread g last) t saved_level;
  Some (g, t, Some line).
