(* ===== verification/LogSpec.v ===== *)
(** * Logging: specification

    The line that [pj_log] puts together always fits its buffer, is terminated
    and ends as the decoration says; a message of ordinary size is in it
    unchanged.  While a thread puts a line together its own messages are
    discarded, those of other threads are not. *)
From Stdlib Require Import String.
From S2P Require Import Prelude Bytes ZephyrTls ZephyrTlsSpec Except ExceptSpec PjString PjStringSpec Log.

(** ** The prefix *)

(** The buffer is whole and [pre] is at most [n] bytes into it. *)
Definition within (n : Z) (c : cursor) : Prop :=
  length c.1 = Z.to_nat PJ_LOG_MAX_SIZE /\ 0 <= c.2 <= n.
Definition writes (n : Z) (o : option cursor) : Prop := exists c, o = Some c /\ within n c.

Lemma writes_bind n n' m f : writes n m -> (forall c, within n c -> writes n' (f c)) -> writes n' (m ≫= f).
Proof. intros (c & -> & Hc) Hf. by apply Hf. Qed.

Lemma within_mono n n' c : n <= n' -> within n c -> within n' c.
Proof. intros Hn [H1 H2]. split; [done|lia]. Qed.

Lemma writes_when n n' b c k : within n c -> n <= n' -> (within n c -> writes n' (k c)) -> writes n' (when b c k).
Proof.
  intros Hc Hn Hk. destruct b; [by apply Hk|]. exists c. split; [done|]. by apply (within_mono n).
Qed.

Lemma writes_put_adv n c bs k :
  within n c -> 0 <= k <= Z.of_nat (length bs) -> n + Z.of_nat (length bs) <= PJ_LOG_MAX_SIZE ->
  writes (n + k) (put_adv c bs k).
Proof.
  intros [H1 H2] Hk Hn. unfold put_adv, PJ_LOG_MAX_SIZE in *. destruct (write_at c.1 c.2 bs) as [b|] eqn:E.
  - exists (b, c.2 + k). split; [done|]. apply write_at_length in E. split; simpl; [unfold PJ_LOG_MAX_SIZE; lia|lia].
  - rewrite write_at_in in E by lia. done.
Qed.

Lemma writes_put n c bs :
  within n c -> n + Z.of_nat (length bs) <= PJ_LOG_MAX_SIZE -> writes (n + Z.of_nat (length bs)) (put c bs).
Proof. intros. apply writes_put_adv; [done|lia|done]. Qed.

Lemma writes_mono n n' o : writes n o -> n <= n' -> writes n' o.
Proof. intros (c & E & Hc) Hn. exists c. split; [done|]. by apply (within_mono n). Qed.

Lemma writes_space n c : within n c -> n + 1 <= PJ_LOG_MAX_SIZE -> writes (n + 1) (put_space c).
Proof. intros Hc Hn. apply (writes_when n); [done|lia|]. intros _. by apply writes_put. Qed.

(** A number takes at most 20 characters, and its terminator. *)
Lemma writes_utoa n c val min_dig pad :
  within n c -> 0 <= min_dig <= 20 -> 0 <= pad < 256 -> n + 21 <= PJ_LOG_MAX_SIZE ->
  writes (n + 20) (put_utoa_pad c val min_dig pad).
Proof.
  intros Hc Hd Hp Hn. unfold put_utoa_pad. pose proof (u32_bound val).
  destruct (utoa_pad_spec (u32 val) min_dig pad) as (s & -> & _ & Hne & _ & _ & _ & Hs); [lia|done|].
  rewrite bind_some_eq. cbv beta iota. set (bs := _ ++ _ ++ _).
  assert (Z.of_nat (length bs) = Z.max min_dig (Z.of_nat (length s)) + 1) as Hl
    by (unfold bs; rewrite !length_app, length_replicate; simpl; lia).
  apply (writes_mono (n + Z.max min_dig (Z.of_nat (length s)))); [|lia].
  apply writes_put_adv; [done|lia|lia].
Qed.

Lemma writes_name n c name width :
  within n c -> 0 <= width -> n + width <= PJ_LOG_MAX_SIZE -> writes (n + width) (put_name c name width).
Proof.
  intros Hc Hw Hn. unfold put_name. destruct (Z.leb_spec (Z.of_nat (length name)) width) as [H|H].
  - assert (Z.of_nat (length (replicate (Z.to_nat (width - Z.of_nat (length name))) 32 ++ name)) = width) as E
      by (rewrite length_app, length_replicate; lia).
    rewrite <- E at 1. apply writes_put; [done|lia].
  - assert (Z.of_nat (length (take (Z.to_nat width) name)) = width) as E by (rewrite length_take; lia).
    rewrite <- E at 1. apply writes_put; [done|lia].
Qed.

(** The next piece of the line, with the bound that it leads to. *)
Ltac piece k :=
  lazymatch goal with
  | Hc : within ?n ?c |- writes _ (when _ _ _ ≫= _) =>
      apply (writes_bind k); [apply (writes_when n); [exact Hc|lia|intros _]|clear c Hc; intros c Hc]
  | Hc : within ?n ?c |- writes _ (_ ≫= _) => apply (writes_bind k); [|clear c Hc; intros c Hc]
  | Hc : within ?n ?c |- writes _ (when _ _ _) =>
      apply (writes_mono k); [apply (writes_when n); [exact Hc|lia|intros _]|lia]
  end.

(** A piece that is one of the writing operations. *)
Ltac write :=
  eapply writes_mono; [first [apply writes_space|apply writes_utoa|apply writes_name|apply writes_put]; [eassumption|..]|];
  unfold PJ_LOG_MAX_SIZE in *; simpl length; try lia.

Lemma table_text (l : list (list Z)) k i n c :
  within n c -> Forall (fun t => Z.of_nat (length t) = k) l -> 0 <= i < Z.of_nat (length l) ->
  n + k + 1 <= PJ_LOG_MAX_SIZE -> writes (n + k) (t ← l.[i]; put_adv c (t ++ [0]) k).
Proof.
  intros Hc Hl Hi Hn. destruct (arr_get_is_Some l i) as [t Ht]; [done|]. rewrite Ht. bind_step.
  apply arr_get_Some in Ht as [_ Ht]. rewrite Forall_lookup in Hl. apply Hl in Ht.
  apply writes_put_adv; [done|rewrite length_app; simpl; lia|rewrite length_app; simpl; lia].
Qed.

Lemma put_time_fits decor level ptime c :
  within 0 c -> 0 <= level <= 6 -> 0 <= wday ptime <= 6 -> writes 160 (put_time decor level ptime c).
Proof.
  intros Hc Hl Hw. unfold put_time.
  piece 6. { apply (table_text ltexts 6 level 0); [done|repeat constructor|simpl; lia|done]. }
  piece 9. { apply (table_text wdays 3 (wday ptime) 6); [done|repeat constructor|simpl; lia|done]. }
  piece 30. { piece 10; write. }
  piece 51. { piece 31; write. }
  piece 72. { piece 52; write. }
  piece 135. { piece 73; [write|]. piece 93; [write|]. piece 94; [write|]. piece 114; [write|]. piece 115; write. }
  piece 156. piece 136; write.
Qed.

(** The same in front of a computation that returns more than the cursor. *)
Ltac first_piece k c :=
  lazymatch goal with
  | Hc : within ?n _ |- exists _ _, (?m ≫= _) = _ /\ _ =>
      let H := fresh in let E := fresh in
      assert (writes k m) as H;
      [lazymatch m with when _ _ _ => apply (writes_when n); [exact Hc|lia|intros _] | _ => idtac end
      |clear Hc; destruct H as (c & E & Hc); rewrite E, bind_some_eq; clear E; cbv beta iota]
  end.

Lemma put_origin_fits decor sender thread_name this last indent c :
  within 160 c -> indent <= LOG_MAX_INDENT ->
  exists c' last', put_origin decor sender thread_name this last indent c = Some (c', last') /\ within 300 c'.
Proof.
  intros Hc Hi. unfold put_origin.
  first_piece 175 c1. { piece 161; [write|unfold PJ_LOG_SENDER_WIDTH; write]. }
  first_piece 188 c2. { piece 176; [write|unfold PJ_LOG_THREAD_WIDTH; write]. }
  first_piece 189 c3. { write. }
  assert (forall b, writes 190 (put c3 [b])) as Hput by (intros b; write).
  match goal with |- exists _ _, (?m ≫= _) = _ /\ _ => assert (exists c4 l4, m = Some (c4, l4) /\ within 190 c4) as (c4 & l4 & -> & H4) end.
  { pose proof (within_mono 189 190 c3 ltac:(lia) Hc).
    destruct (has decor PJ_LOG_HAS_THREAD_SWC); [destruct (negb (this =? last))|destruct (has decor PJ_LOG_HAS_SPACE)]; [..|by eexists _, _];
      lazymatch goal with |- context [put c3 [?b]] => destruct (Hput b) as (c4 & -> & ?) end; by eexists _, _. }
  rewrite bind_some_eq. cbv beta iota.
  first_piece 300 c5. { unfold LOG_MAX_INDENT in *. write. rewrite length_replicate. lia. rewrite length_replicate. lia. }
  by eexists _, _.
Qed.

(** ** The message *)

Definition eol (decor : Z) : list Z :=
  (if has decor PJ_LOG_HAS_CR then [13] else []) ++ (if has decor PJ_LOG_HAS_NEWLINE then [10] else []).

Lemma set_one (buf : list Z) len x :
  0 <= len < Z.of_nat (length buf) ->
  exists buf', buf.[len <- x] = Some buf' /\ length buf' = length buf /\
    take (Z.to_nat len) buf' = take (Z.to_nat len) buf /\
    take (Z.to_nat (len + 1)) buf' = take (Z.to_nat len) buf ++ [x] /\ buf'.[len] = Some x /\
    forall i, i <> len -> buf'.[i] = buf.[i].
Proof.
  intros Hl. rewrite arr_set_in by lia. eexists. split; [done|]. split; [apply length_insert|].
  split; [by rewrite take_insert_ge by lia|]. split; [|split].
  - replace (Z.to_nat (len + 1)) with (S (Z.to_nat len)) by lia.
    rewrite (take_S_r _ _ x) by (apply list_lookup_insert_eq; lia). by rewrite take_insert_ge by lia.
  - apply arr_get_insert_eq. lia.
  - intros i Hi. apply arr_get_insert_ne; lia.
Qed.

(** A character that the decoration may ask for. *)
Lemma set_optional (b : bool) (buf : list Z) len x :
  0 <= len < Z.of_nat (length buf) ->
  exists buf' len', (if b then buf ← buf.[len <- x]; Some (buf, len + 1) else Some (buf, len)) = Some (buf', len') /\
    length buf' = length buf /\ len <= len' <= len + 1 /\
    take (Z.to_nat len') buf' = take (Z.to_nat len) buf ++ (if b then [x] else []) /\ (b = true -> buf'.[len' - 1] = Some x /\ len' = len + 1).
Proof.
  intros Hl. destruct b.
  - destruct (set_one buf len x Hl) as (b & -> & L & _ & T & G & _). exists b, (len + 1). split; [done|]. split; [done|].
    split; [lia|]. split; [done|]. intros _. by replace (len + 1 - 1) with len by lia.
  - exists buf, len. rewrite app_nil_r. split; [done|]. split; [done|]. split; [lia|]. done.
Qed.

Lemma end_line_short decor (buf : list Z) len :
  length buf = Z.to_nat PJ_LOG_MAX_SIZE -> 0 <= len < PJ_LOG_MAX_SIZE - 2 ->
  exists buf' len', end_line decor buf len = Some (buf', len') /\ length buf' = length buf /\
    0 <= len' < PJ_LOG_MAX_SIZE /\ buf'.[len'] = Some 0 /\
    (has decor PJ_LOG_HAS_NEWLINE = true -> buf'.[len' - 1] = Some 10) /\
    take (Z.to_nat len') buf' = take (Z.to_nat len) buf ++ eol decor.
Proof.
  unfold PJ_LOG_MAX_SIZE. intros Hb Hlen. unfold end_line, eol, PJ_LOG_MAX_SIZE.
  rewrite (proj2 (Z.leb_le 0 len)), (proj2 (Z.ltb_lt len (4000 - 2))) by lia. cbn [andb].
  destruct (set_optional (has decor PJ_LOG_HAS_CR) buf len 13) as (b1 & l1 & -> & L1 & B1 & T1 & _); [lia|].
  rewrite bind_some_eq. cbv beta iota.
  destruct (set_optional (has decor PJ_LOG_HAS_NEWLINE) b1 l1 10) as (b2 & l2 & -> & L2 & B2 & T2 & N2); [lia|].
  rewrite bind_some_eq. cbv beta iota. destruct (set_one b2 l2 0) as (b3 & -> & L3 & T3 & _ & N3 & O3); [lia|]. bind_step.
  exists b3, l2. split; [done|]. split; [congruence|]. split; [lia|]. split; [done|]. split.
  - intros H. rewrite O3 by lia. by apply N2.
  - by rewrite T3, T2, T1, app_assoc.
Qed.

Lemma end_line_full decor (buf : list Z) len :
  length buf = Z.to_nat PJ_LOG_MAX_SIZE -> ~ (0 <= len < PJ_LOG_MAX_SIZE - 2) ->
  exists buf', end_line decor buf len = Some (buf', PJ_LOG_MAX_SIZE - 1) /\ length buf' = length buf /\
    buf'.[PJ_LOG_MAX_SIZE - 1] = Some 0 /\ (has decor PJ_LOG_HAS_NEWLINE = true -> buf'.[PJ_LOG_MAX_SIZE - 1 - 1] = Some 10).
Proof.
  unfold PJ_LOG_MAX_SIZE. intros Hb Hlen. unfold end_line, PJ_LOG_MAX_SIZE.
  assert ((0 <=? len) && (len <? 4000 - 2) = false) as -> by (rewrite andb_false_iff, Z.leb_gt, Z.ltb_ge; lia). cbv zeta.
  match goal with |- exists _, (?m ≫= _) = _ /\ _ => assert (exists b1, m = Some b1 /\ length b1 = length buf) as (b1 & -> & L1) end.
  { destruct (has decor PJ_LOG_HAS_CR); [|by exists buf]. destruct (set_one buf (4000 - 3) 13) as (b & -> & ? & _); [lia|by exists b]. }
  bind_step.
  match goal with |- exists _, (?m ≫= _) = _ /\ _ => assert (exists b2, m = Some b2 /\ length b2 = length buf /\
    (has decor PJ_LOG_HAS_NEWLINE = true -> b2.[4000 - 2] = Some 10)) as (b2 & -> & L2 & N2) end.
  { destruct (has decor PJ_LOG_HAS_NEWLINE); [|by exists b1].
    destruct (set_one b1 (4000 - 2) 10) as (b & -> & ? & _ & _ & ? & _); [lia|]. exists b. split; [done|]. split; [congruence|done]. }
  bind_step. destruct (set_one b2 (4000 - 1) 0) as (b3 & -> & L3 & _ & _ & N3 & O3); [lia|]. bind_step.
  exists b3. split; [done|]. split; [congruence|]. split; [done|].
  intros H. rewrite O3 by lia. by apply N2.
Qed.

(** A line that is fit for the writer: terminated at its length, with the
    newline that was asked for. *)
Record good_line (decor : Z) (buf : list Z) (len : Z) : Prop := {
  gl_size : length buf = Z.to_nat PJ_LOG_MAX_SIZE;
  gl_len : 0 <= len < PJ_LOG_MAX_SIZE;
  gl_nul : buf.[len] = Some 0;
  gl_newline : has decor PJ_LOG_HAS_NEWLINE = true -> buf.[len - 1] = Some 10
}.

Lemma end_line_spec decor (buf : list Z) len :
  length buf = Z.to_nat PJ_LOG_MAX_SIZE ->
  exists buf' len', end_line decor buf len = Some (buf', len') /\ good_line decor buf' len' /\
    (0 <= len < PJ_LOG_MAX_SIZE - 2 -> take (Z.to_nat len') buf' = take (Z.to_nat len) buf ++ eol decor).
Proof.
  intros Hb. destruct (decide (0 <= len < PJ_LOG_MAX_SIZE - 2)) as [H|H].
  - destruct (end_line_short decor buf len Hb H) as (b & l & E & L & B & N & W & T). exists b, l. split; [done|].
    split; [split; [congruence|done|done|done]|done].
  - destruct (end_line_full decor buf len Hb H) as (b & E & L & N & W). exists b, (PJ_LOG_MAX_SIZE - 1). split; [done|].
    split; [split; [congruence|unfold PJ_LOG_MAX_SIZE; lia|done|done]|done].
Qed.

(** What [vsnprintf] leaves in the buffer. *)
Lemma vsnprintf_spec buf off n m :
  length buf = Z.to_nat PJ_LOG_MAX_SIZE -> 0 <= off -> 0 < n -> off + n <= PJ_LOG_MAX_SIZE ->
  exists buf', vsnprintf buf off n (Some m) = Some (buf', Z.of_nat (length m)) /\ length buf' = length buf /\
    (Z.of_nat (length m) < n -> take (Z.to_nat (off + Z.of_nat (length m))) buf' = take (Z.to_nat off) buf ++ m).
Proof.
  unfold PJ_LOG_MAX_SIZE. intros Hb Ho Hn Hs. unfold vsnprintf. rewrite (proj2 (Z.leb_gt n 0)) by lia.
  set (bs := take (Z.to_nat (n - 1)) m ++ [0]).
  assert (Z.of_nat (length bs) <= n) by (unfold bs; rewrite length_app, length_take; simpl; lia).
  pose proof (write_at_in buf off bs ltac:(lia) ltac:(lia)) as E. pose proof (write_at_length _ _ _ _ E) as L.
  rewrite E. bind_step. eexists. split; [done|]. split; [exact L|]. intros Hm.
  unfold bs. rewrite (take_ge m) by lia. rewrite <- app_assoc, app_assoc.
  rewrite take_app_length' by (rewrite length_app, length_take; lia). done.
Qed.

Lemma print_message_spec level c msg :
  within 300 c ->
  exists b lv m, print_message level c msg = Some (b, lv, Z.of_nat (length m)) /\ length b = length c.1 /\
    (Z.of_nat (length m) < PJ_LOG_MAX_SIZE - c.2 ->
       take (Z.to_nat (c.2 + Z.of_nat (length m))) b = take (Z.to_nat c.2) c.1 ++ m) /\
    (forall m', msg = Some m' -> m = m' /\ lv = level).
Proof.
  intros [Hb Hc]. unfold print_message. cbv zeta.
  assert (0 < PJ_LOG_MAX_SIZE - c.2 /\ c.2 + (PJ_LOG_MAX_SIZE - c.2) <= PJ_LOG_MAX_SIZE) as [R1 R2] by (unfold PJ_LOG_MAX_SIZE; lia).
  destruct msg as [m|].
  - destruct (vsnprintf_spec c.1 c.2 (PJ_LOG_MAX_SIZE - c.2) m) as (b & -> & L & T); [done|lia..|]. rewrite bind_some_eq. cbv beta iota.
    rewrite (proj2 (Z.ltb_ge _ _)) by lia. exists b, level, m. split; [done|]. split; [done|]. split; [done|]. by intros m' [= ->].
  - set (err := text "<logging error: msg too long>"%string).
    destruct (vsnprintf_spec c.1 c.2 (PJ_LOG_MAX_SIZE - c.2) err) as (b & E & L & T); [done|lia..|].
    change (vsnprintf c.1 c.2 (PJ_LOG_MAX_SIZE - c.2) None) with (Some (c.1, -1)). rewrite bind_some_eq. cbv beta iota.
    change (-1 <? 0) with true. cbv iota. rewrite E. rewrite bind_some_eq. cbv beta iota.
    exists b, 1, err. split; [done|]. split; [done|]. by split.
Qed.

Lemma put_message_spec decor level c msg :
  within 300 c ->
  exists lv buf len, put_message decor level c msg = Some (lv, buf, len) /\ good_line decor buf len /\
    forall m, msg = Some m -> Z.of_nat (length m) <= 3600 ->
      lv = level /\ take (Z.to_nat len) buf = take (Z.to_nat c.2) c.1 ++ m ++ eol decor.
Proof.
  intros Hw. unfold put_message. cbv zeta. destruct (print_message_spec level c msg Hw) as (b & lv & m & -> & L & T & M).
  destruct Hw as [Hb Hc]. rewrite bind_some_eq. cbv beta iota. set (pl := if (Z.of_nat (length m) <? 0) || _ then _ else Z.of_nat (length m)).
  destruct (end_line_spec decor b (c.2 + pl)) as (b' & len & -> & Hg & Ht); [congruence|].
  rewrite bind_some_eq. cbv beta iota. exists lv, b', len. split; [done|]. split; [done|].
  intros m' E Hm. destruct (M m' E) as [<- Hlv]. split; [done|].
  assert (pl = Z.of_nat (length m)) as Epl.
  { unfold pl. rewrite (proj2 (Z.ltb_ge _ _)), (proj2 (Z.leb_gt _ _)) by (unfold PJ_LOG_MAX_SIZE; lia). done. }
  rewrite Ht, Epl, T by (unfold PJ_LOG_MAX_SIZE; lia). by rewrite app_assoc.
Qed.

(** ** Suspension *)

(** The state of logging in the thread-local storage: before [pj_log_init] there
    is no key; after it the key holds NULL or the address of a flag. *)
Definition log_ok (a : spec) (g : log) : Prop :=
  thread_suspended_tls_id g = -1 \/
  thread_suspended_tls_id g ∈ live a /\
  forall th, spec_get th a (thread_suspended_tls_id g) = 0 \/ spec_get th a (thread_suspended_tls_id g) = suspend_log_true \/
    spec_get th a (thread_suspended_tls_id g) = suspend_log_false.

Section suspension.
Context (th : Z) (Hth : th <> 0).

Lemma spec_get_set a k v th' k' :
  k ∈ live a -> (th ∈ members a \/ (size (members a) < 16)%nat) ->
  spec_get th' (spec_set th a k v).2 k' = if decide (th' = th /\ k' = k) then v else spec_get th' a k'.
Proof.
  intros Hk Hm. unfold spec_set. rewrite decide_True, decide_True by done. unfold spec_get. simpl.
  destruct (decide (k' ∈ live a)) as [Hk'|Hk'].
  - destruct (Z.eqb_spec th' th), (Z.eqb_spec k' k); simpl; [rewrite decide_True by done|rewrite decide_False by tauto..]; done.
  - rewrite decide_False; [done|]. by intros [_ ->].
Qed.

Lemma spec_get_full a k v th' k' :
  ~ (th ∈ members a \/ (size (members a) < 16)%nat) -> spec_get th' (spec_set th a k v).2 k' = spec_get th' a k'.
Proof. intros H. unfold spec_set. case_decide; [|done]. by rewrite decide_False. Qed.

Lemma set_members a k v : k ∈ live a -> (th ∈ members a \/ (size (members a) < 16)%nat) ->
  live (spec_set th a k v).2 = live a /\ th ∈ members (spec_set th a k v).2.
Proof.
  intros Hk Hm. unfold spec_set. rewrite decide_True, decide_True by done. split; [done|]. apply elem_of_union. left. by apply elem_of_singleton.
Qed.

(** Whether a thread's messages are discarded, in terms of the specification. *)
Lemma is_suspended_spec n a g t th' :
  tls_abs n t a -> log_ok a g -> th' <> 0 ->
  is_logging_suspended th' g t =
    Some (if thread_suspended_tls_id g =? -1 then pj_log_max_level g =? 0
          else spec_get th' a (thread_suspended_tls_id g) =? suspend_log_true).
Proof.
  intros Ha Hok Hth'. unfold is_logging_suspended. destruct (Z.eqb_spec (thread_suspended_tls_id g) (-1)) as [E|E]; [done|].
  cbn [negb]. rewrite (get_refines n t a th' _ Ha Hth'). bind_step.
  destruct Hok as [|[_ Hok]]; [done|]. destruct (Hok th') as [-> | [-> | ->]]; done.
Qed.

(** Setting the flag of a thread. *)
Lemma set_flag_ok n a g t v :
  tls_abs n t a -> log_ok a g -> thread_suspended_tls_id g <> -1 -> v = suspend_log_true \/ v = suspend_log_false ->
  exists st t', pj_thread_local_set th t (thread_suspended_tls_id g) v = Some (st, t') /\
    tls_abs n t' (spec_set th a (thread_suspended_tls_id g) v).2 /\ log_ok (spec_set th a (thread_suspended_tls_id g) v).2 g.
Proof.
  intros Ha [|[Hl Hok]] Hne Hv; [done|]. destruct (set_refines n t a th (thread_suspended_tls_id g) v Ha Hth) as (t' & -> & Ha').
  eexists _, t'. split; [done|]. split; [done|]. right.
  destruct (decide (th ∈ members a \/ (size (members a) < 16)%nat)) as [Hm|Hm].
  - split; [unfold spec_set; by rewrite decide_True, decide_True|]. intros th'. rewrite spec_get_set by done. case_decide; [|done]. tauto.
  - split; [unfold spec_set; rewrite decide_True, decide_False by done; done|]. intros th'. by rewrite spec_get_full.
Qed.

(** Once logging is started, a thread with a place in the table that puts a
    line together has its own messages discarded, whatever they are, until it
    resumes; the messages of the other threads are not affected at any time. *)
Theorem log_suspension n a g t :
  tls_abs n t a -> log_ok a g -> thread_suspended_tls_id g <> -1 -> (th ∈ members a \/ (size (members a) < 16)%nat) ->
  exists t1 t2, suspend_logging th g t = Some (pj_log_max_level g, g, t1) /\
    (forall buf sender level msg ptime this name,
       pj_log th g t1 buf sender level msg ptime this name = Some (g, t1, None)) /\
    resume_logging th g t1 (pj_log_max_level g) = Some (g, t2) /\ is_logging_suspended th g t2 = Some false /\
    forall th', th' <> 0 -> th' <> th ->
      is_logging_suspended th' g t1 = is_logging_suspended th' g t /\ is_logging_suspended th' g t2 = is_logging_suspended th' g t.
Proof.
  intros Ha Hok Hne Hm. pose proof Hok as [|[Hl _]]; [done|]. unfold suspend_logging, resume_logging.
  rewrite (proj2 (Z.eqb_neq _ _) Hne). cbn [negb].
  destruct (set_flag_ok n a g t suspend_log_true Ha Hok Hne ltac:(by left)) as (st & t1 & -> & Ha1 & Hok1).
  destruct (set_members a (thread_suspended_tls_id g) suspend_log_true Hl Hm) as [Hl1 Hm1]. set (a1 := (spec_set _ _ _ _).2) in *.
  destruct (set_flag_ok n a1 g t1 suspend_log_false Ha1 Hok1 Hne ltac:(by right)) as (st2 & t2 & E2 & Ha2 & Hok2).
  exists t1, t2. rewrite E2, !bind_some_eq. cbv beta iota. split; [done|]. split; [|split; [done|split]].
  - intros. unfold pj_log. destruct (_ <? level); [done|]. rewrite (is_suspended_spec n a1) by done.
    rewrite (proj2 (Z.eqb_neq _ _) Hne). unfold a1. by rewrite spec_get_set, decide_True.
  - rewrite (is_suspended_spec n (spec_set th a1 (thread_suspended_tls_id g) suspend_log_false).2) by done.
    rewrite (proj2 (Z.eqb_neq _ _) Hne), spec_get_set, decide_True by (done || (left; done) || by rewrite Hl1). done.
  - intros th' H0 Hd. rewrite (is_suspended_spec n _ g t th' Ha Hok H0), (is_suspended_spec n _ g t1 th' Ha1 Hok1 H0),
      (is_suspended_spec n _ g t2 th' Ha2 Hok2 H0). rewrite (proj2 (Z.eqb_neq _ _) Hne).
    rewrite (spec_get_set a1) by ((left; done) || by rewrite Hl1). rewrite decide_False by tauto.
    unfold a1. rewrite spec_get_set by done. by rewrite decide_False by tauto.
Qed.

(** ** Indentation *)

(** Pushing and popping the indentation of a thread gives back the
    indentation it had, one deeper in between, and leaves that of the other
    threads alone; what is printed is never more than eighty. *)
Theorem log_indent_roundtrip n a g t :
  tls_abs n t a -> thread_indent_tls_id g ∈ live a -> (th ∈ members a \/ (size (members a) < 16)%nat) ->
  0 <= spec_get th a (thread_indent_tls_id g) < INT_MAX ->
  exists raw t1 t2, log_get_raw_indent th g t = Some raw /\ pj_log_push_indent th g t = Some t1 /\
    log_get_raw_indent th g t1 = Some (raw + 1) /\ pj_log_get_indent th g t1 = Some (Z.min (raw + 1) LOG_MAX_INDENT) /\
    pj_log_pop_indent th g t1 = Some t2 /\ log_get_raw_indent th g t2 = Some raw /\
    forall th', th' <> 0 -> th' <> th ->
      log_get_raw_indent th' g t1 = log_get_raw_indent th' g t /\ log_get_raw_indent th' g t2 = log_get_raw_indent th' g t.
Proof.
  intros Ha Hl Hm Hr. set (k := thread_indent_tls_id g) in *. set (raw := spec_get th a k) in *. exists raw.
  destruct (set_refines n t a th k (raw + 1) Ha Hth) as (t1 & E1 & Ha1). set (a1 := (spec_set _ _ _ _).2) in *.
  destruct (set_members a k (raw + 1) Hl Hm) as [Hl1 Hm1]. fold a1 in Hl1, Hm1. assert (k ∈ live a1) by (by rewrite Hl1).
  assert (spec_get th a1 k = raw + 1) as G1 by (unfold a1; by rewrite spec_get_set, decide_True).
  destruct (set_refines n t1 a1 th k raw Ha1 Hth) as (t2 & E2 & Ha2).
  exists t1, t2. unfold pj_log_push_indent, pj_log_pop_indent, pj_log_add_indent, pj_log_set_indent, pj_log_get_indent, log_get_raw_indent.
  fold k. rewrite !(get_refines n t a) by done. fold raw. rewrite (get_refines n t1 a1 th k Ha1 Hth), G1, !bind_some_eq.
  unfold PJ_LOG_INDENT_SIZE, INT_MAX, LOG_MAX_INDENT in *. replace (raw + 1 + - (1)) with raw by lia. rewrite !i32_small by lia.
  rewrite !(proj2 (Z.ltb_ge _ 0)) by lia. rewrite E1, E2, !bind_some_eq. cbv beta iota.
  split; [done|]. split; [done|]. split; [done|]. split; [f_equal; destruct (Z.ltb_spec 80 (raw + 1)); lia|]. split; [done|].
  rewrite (get_refines n t2 _ th k Ha2 Hth), spec_get_set, decide_True by (done || by left). split; [done|].
  intros th' H0 Hd. rewrite (get_refines n t a), (get_refines n t1 a1), (get_refines n t2 _ th' k Ha2) by done.
  rewrite (spec_get_set a1) by (done || by left). rewrite decide_False by tauto. unfold a1. rewrite spec_get_set by done. by rewrite decide_False by tauto.
Qed.

(** ** The whole of it *)

(** What logging by the thread [th] may change: its own flag, for which it may
    take a place in the table. *)
Record logged (k : Z) (a a' : spec) : Prop := {
  lg_live : live a' = live a;
  lg_members : members a' = members a \/ members a' = {[th]} ∪ members a;
  lg_view th' k' : k' <> k -> spec_get th' a' k' = spec_get th' a k'
}.

Lemma logged_refl k a : logged k a a.
Proof. split; [done|by left|done]. Qed.

Lemma logged_set k a v : logged k a (spec_set th a k v).2.
Proof.
  unfold spec_set. case_decide; [|apply logged_refl]. case_decide; [|apply logged_refl]. simpl. split; [done|by right|].
  intros th' k' Hne. unfold spec_get. simpl. rewrite (proj2 (Z.eqb_neq k' k) Hne), andb_false_r. done.
Qed.

Lemma logged_trans k a a1 a2 : logged k a a1 -> logged k a1 a2 -> logged k a a2.
Proof.
  intros [L1 M1 V1] [L2 M2 V2]. split; [congruence| |intros; rewrite V2, V1; done].
  destruct M2 as [-> | ->], M1 as [-> | ->]; auto. right. by rewrite (assoc_L (∪)), union_idemp_L.
Qed.

(** What [pj_log] does around the line, for a thread that may log. *)
Lemma suspend_resume n a g t :
  tls_abs n t a -> log_ok a g -> is_logging_suspended th g t = Some false ->
  exists g1 t1 a1, suspend_logging th g t = Some (pj_log_max_level g, g1, t1) /\ tls_abs n t1 a1 /\
    log_decor g1 = log_decor g /\
    forall last, exists t2 a2, resume_logging th (set_last_thread g1 last) t1 (pj_log_max_level g) = Some (set_last_thread g last, t2) /\
      tls_abs n t2 a2 /\ log_ok a2 g /\ is_logging_suspended th (set_last_thread g last) t2 = Some false /\
      logged (thread_suspended_tls_id g) a a2.
Proof.
  intros Ha Hok Hs. rewrite (is_suspended_spec n a) in Hs by done. unfold suspend_logging, resume_logging.
  cbn [thread_suspended_tls_id set_last_thread pj_log_max_level].
  destruct (Z.eqb_spec (thread_suspended_tls_id g) (-1)) as [E|E]; cbn [negb].
  - injection Hs as Hs. exists (set_log_level g 0), t, a. split; [done|]. split; [done|]. split; [done|].
    intros last. exists t, a. cbn [thread_suspended_tls_id set_log_level set_last_thread pj_log_max_level]. rewrite E, Hs. cbn [negb Z.eqb andb].
    split; [done|]. split; [done|]. split; [by left|]. split; [|apply logged_refl].
    unfold is_logging_suspended. simpl. by rewrite E, Hs.
  - destruct (set_flag_ok n a g t suspend_log_true Ha Hok E ltac:(by left)) as (st & t1 & -> & Ha1 & Hok1).
    set (a1 := (spec_set _ _ _ _).2) in *.
    destruct (set_flag_ok n a1 g t1 suspend_log_false Ha1 Hok1 E ltac:(by right)) as (st2 & t2 & E2 & Ha2 & Hok2).
    exists g, t1, a1. split; [done|]. split; [done|]. split; [done|]. intros last. eexists t2, _.
    cbn [thread_suspended_tls_id set_last_thread]. rewrite E2, (proj2 (Z.eqb_neq _ _) E). split; [done|]. split; [exact Ha2|]. split; [exact Hok2|].
    split; [|apply (logged_trans _ _ a1); apply logged_set].
    rewrite (is_suspended_spec n _ (set_last_thread g last) t2 th Ha2 Hok2 Hth). cbn [thread_suspended_tls_id set_last_thread].
    rewrite (proj2 (Z.eqb_neq _ _) E). f_equal. apply Z.eqb_neq. pose proof Hok as [|[Hl _]]; [done|].
    destruct (decide (th ∈ members a \/ (size (members a) < 16)%nat)) as [Hm|Hm].
    + destruct (set_members a (thread_suspended_tls_id g) suspend_log_true Hl Hm) as [Hl1 Hm1]. fold a1 in Hl1, Hm1.
      rewrite spec_get_set, decide_True by (done || (left; done) || by rewrite Hl1). done.
    + assert (a1 = a) as -> by (unfold a1, spec_set; by rewrite decide_True, decide_False). rewrite spec_get_full by done.
      injection Hs as Hs%Z.eqb_neq. done.
Qed.

Lemma pj_log_spec n a g t buf0 sender level msg ptime this name :
  tls_abs n t a -> log_ok a g -> is_logging_suspended th g t = Some false -> level <= pj_log_max_level g ->
  0 <= level <= 6 -> 0 <= wday ptime <= 6 -> length buf0 = Z.to_nat PJ_LOG_MAX_SIZE ->
  exists last t' a' lv buf len prefix, pj_log th g t buf0 sender level msg ptime this name =
      Some (set_last_thread g last, t', Some (lv, buf, len)) /\
    tls_abs n t' a' /\ log_ok a' g /\ logged (thread_suspended_tls_id g) a a' /\
    good_line (log_decor g) buf len /\ (length prefix <= 300)%nat /\
    (forall m, msg = Some m -> Z.of_nat (length m) <= 3600 ->
       lv = level /\ take (Z.to_nat len) buf = prefix ++ m ++ eol (log_decor g)) /\
    is_logging_suspended th (set_last_thread g last) t' = Some false.
Proof.
  intros Ha Hok Hs Hlv Hl Hw Hb. unfold pj_log. rewrite (proj2 (Z.ltb_ge _ _)), Hs by lia. bind_step.
  destruct (suspend_resume n a g t Ha Hok Hs) as (g1 & t1 & a1 & -> & Ha1 & D1 & Hres).
  rewrite bind_some_eq. cbv beta iota. rewrite D1.
  destruct (put_time_fits (log_decor g) level ptime (buf0, 0)) as (c1 & -> & H1); [split; [done|simpl; lia]|done|done|].
  bind_step. unfold pj_log_get_indent, log_get_raw_indent. rewrite (get_refines n t1 a1 th _ Ha1 Hth), !bind_some_eq.
  set (indent := if _ <? _ then _ else spec_get th a1 _).
  assert (indent <= LOG_MAX_INDENT) as Hi by (unfold indent; destruct (Z.ltb_spec LOG_MAX_INDENT (spec_get th a1 (thread_indent_tls_id g1))); lia).
  destruct (put_origin_fits (log_decor g) sender name this (g_last_thread g1) indent c1 H1 Hi) as (c2 & last & -> & H2).
  rewrite bind_some_eq. cbv beta iota.
  destruct (put_message_spec (log_decor g) level c2 msg H2) as (lv & buf & len & -> & Hg & Ht). bind_step.
  destruct (Hres last) as (t2 & a2 & -> & Ha2 & Hok2 & Hs2 & Hq). rewrite bind_some_eq. cbv beta iota.
  exists last, t2, a2, lv, buf, len, (take (Z.to_nat c2.2) c2.1). split; [done|]. split; [done|]. split; [done|]. split; [done|].
  split; [done|]. split; [|by split]. rewrite length_take. destruct H2 as [_ H2]. lia.
Qed.

(** C38 A message that is not above the level, of a thread whose logging is not
    suspended, gives one line.  Whatever the decoration, the names, the time and
    the message, nothing is written outside of the buffer, and the line is
    terminated at the length that the writer is told, with the newline that was
    asked for; a message of at most 3600 bytes is in it whole, between the
    prefix of at most 300 bytes and the end of line.  Afterwards the thread can
    log again. *)
Theorem log_line_good n a g t buf0 sender level msg ptime this name :
  tls_abs n t a -> log_ok a g -> is_logging_suspended th g t = Some false -> level <= pj_log_max_level g ->
  0 <= level <= 6 -> 0 <= wday ptime <= 6 -> length buf0 = Z.to_nat PJ_LOG_MAX_SIZE ->
  exists last t' lv buf len prefix, pj_log th g t buf0 sender level msg ptime this name =
      Some (set_last_thread g last, t', Some (lv, buf, len)) /\
    good_line (log_decor g) buf len /\ (length prefix <= 300)%nat /\
    (forall m, msg = Some m -> Z.of_nat (length m) <= 3600 ->
       lv = level /\ take (Z.to_nat len) buf = prefix ++ m ++ eol (log_decor g)) /\
    is_logging_suspended th (set_last_thread g last) t' = Some false.
Proof.
  intros. destruct (pj_log_spec n a g t buf0 sender level msg ptime this name) as (last & t' & a' & lv & buf & len & prefix & E & _ & _ & _ & Hline);
    try done. by exists last, t', lv, buf, len, prefix.
Qed.
End suspension.

(** ** Examples *)

(** Logging is started, before any thread has a value. *)
Definition ex_tls : tls := default tls_start (run tls_start [(1, Alloc 1); (1, Alloc 1)]).
Definition ex_log : log := set_log_keys log_start 0 1.
Definition ex_spec : spec := spec_run spec_start [(1, Alloc 1); (1, Alloc 1)].

Lemma ex_log_init :
  pj_log_init log_start exc_start = Some (PJ_SUCCESS, ex_log, mk_exc ex_tls (-1) (replicate 16 0) [LoggingShutdown] ∅).
Proof. vm_compute. reflexivity. Qed.

Lemma ex_abs : tls_abs 2 ex_tls ex_spec.
Proof.
  destruct (run_refines [(1, Alloc 1); (1, Alloc 1)] 0 tls_start spec_start start_abs) as (t' & E & Ha & _).
  - repeat constructor; discriminate.
  - vm_compute. reflexivity.
  - unfold ex_tls. by rewrite E.
Qed.

Lemma ex_live k : k = 0 \/ k = 1 -> k ∈ live ex_spec.
Proof. intros [-> | ->]; apply (bool_decide_unpack _); vm_compute; exact I. Qed.

Lemma ex_log_ok : log_ok ex_spec ex_log.
Proof.
  right. split; [apply ex_live; by left|]. intros th. left. unfold spec_get. rewrite decide_True by (apply ex_live; by left). reflexivity.
Qed.

Lemma ex_room : (size (members ex_spec) < 16)%nat.
Proof. vm_compute. lia. Qed.

Lemma log_suspension_witness :
  exists t1 t2, suspend_logging 7 ex_log ex_tls = Some (5, ex_log, t1) /\
    resume_logging 7 ex_log t1 5 = Some (ex_log, t2) /\ is_logging_suspended 7 ex_log t2 = Some false.
Proof.
  destruct (log_suspension 7 ltac:(discriminate) 2 ex_spec ex_log ex_tls ex_abs ex_log_ok ltac:(discriminate) (or_intror ex_room))
    as (t1 & t2 & H1 & _ & H2 & H3 & _).
  exists t1, t2. split; [exact H1|]. split; [exact H2|exact H3].
Defined.

Lemma log_indent_roundtrip_witness :
  exists raw t1 t2, log_get_raw_indent 7 ex_log ex_tls = Some raw /\ pj_log_push_indent 7 ex_log ex_tls = Some t1 /\
    pj_log_pop_indent 7 ex_log t1 = Some t2 /\ log_get_raw_indent 7 ex_log t2 = Some raw.
Proof.
  destruct (log_indent_roundtrip 7 ltac:(discriminate) 2 ex_spec ex_log ex_tls ex_abs (ex_live 1 (or_intror eq_refl)) (or_intror ex_room))
    as (raw & t1 & t2 & H1 & H2 & _ & _ & H3 & H4 & _).
  - vm_compute. split; [discriminate|reflexivity].
  - exists raw, t1, t2. split; [exact H1|]. split; [exact H2|]. split; [exact H3|exact H4].
Defined.

Definition ex_time : pj_parsed_time := mk_ptime 2 9 2 2024 7 5 4 33.

Lemma log_line_good_witness :
  exists last t' lv buf len prefix,
    pj_log 7 ex_log ex_tls (replicate (Z.to_nat PJ_LOG_MAX_SIZE) 255) (text "timer.c"%string) 4 (Some (text "hello"%string)) ex_time 5
      (text "main"%string) = Some (set_last_thread ex_log last, t', Some (lv, buf, len)) /\
    take (Z.to_nat len) buf = prefix ++ text "hello"%string ++ [10].
Proof.
  destruct (log_line_good 7 ltac:(discriminate) 2 ex_spec ex_log ex_tls (replicate (Z.to_nat PJ_LOG_MAX_SIZE) 255) (text "timer.c"%string) 4
    (Some (text "hello"%string)) ex_time 5 (text "main"%string) ex_abs ex_log_ok)
    as (last & t' & lv & buf & len & prefix & E & _ & _ & H & _).
  - vm_compute. reflexivity.
  - discriminate.
  - lia.
  - vm_compute. split; discriminate.
  - apply length_replicate.
  - exists last, t', lv, buf, len, prefix. split; [exact E|]. apply (H _ eq_refl). vm_compute. discriminate.
Defined.
