(* ===== verification/OsCore.v ===== *)
(** * Start-up, shutdown and threads of the library

    [pj_init], [pj_shutdown], [pj_atexit] and the registration of threads in
    [pjlib/src/pj/os_core_unix.c], over the thread-local storage, the exceptions
    and the logging.  The results of the calls that leave the library (creating
    the mutex of the critical section, reading the clock) are arguments, as is
    what a line of the log needs from outside.  Of a thread's descriptor only
    the address is kept.  The GUID generator and the hash key keep no state
    here. *)
From Stdlib Require Import String.
From S2P Require Import Prelude ZephyrTls Except Log.

(** The static variables of the process; [called] are the functions of the
    application that shutdown has called, [written] the lines that the writer of
    the log was given. *)
Record proc := mk_proc {
  p_exc : exc;
  p_log : log;
  initialized : Z;
  thread_tls_id : Z;
  critical_section : bool;
  PJ_NO_MEMORY_EXCEPTION : Z;
  called : list Z;
  written : list (Z * list Z * Z)
}.

Definition set_exc (p : proc) (e : exc) : proc :=
  mk_proc e (p_log p) (initialized p) (thread_tls_id p) (critical_section p) (PJ_NO_MEMORY_EXCEPTION p) (called p) (written p).
Definition set_log (p : proc) (g : log) : proc :=
  mk_proc (p_exc p) g (initialized p) (thread_tls_id p) (critical_section p) (PJ_NO_MEMORY_EXCEPTION p) (called p) (written p).
Definition set_initialized (p : proc) (n : Z) : proc :=
  mk_proc (p_exc p) (p_log p) n (thread_tls_id p) (critical_section p) (PJ_NO_MEMORY_EXCEPTION p) (called p) (written p).
Definition set_tls_id (p : proc) (i : Z) : proc :=
  mk_proc (p_exc p) (p_log p) (initialized p) i (critical_section p) (PJ_NO_MEMORY_EXCEPTION p) (called p) (written p).
Definition set_critical (p : proc) (b : bool) : proc :=
  mk_proc (p_exc p) (p_log p) (initialized p) (thread_tls_id p) b (PJ_NO_MEMORY_EXCEPTION p) (called p) (written p).
Definition set_exception_id (p : proc) (i : Z) : proc :=
  mk_proc (p_exc p) (p_log p) (initialized p) (thread_tls_id p) (critical_section p) i (called p) (written p).
Definition add_called (p : proc) (f : Z) : proc :=
  mk_proc (p_exc p) (p_log p) (initialized p) (thread_tls_id p) (critical_section p) (PJ_NO_MEMORY_EXCEPTION p) (called p ++ [f]) (written p).
Definition add_written (p : proc) (line : option (Z * list Z * Z)) : proc :=
  mk_proc (p_exc p) (p_log p) (initialized p) (thread_tls_id p) (critical_section p) (PJ_NO_MEMORY_EXCEPTION p) (called p)
    (written p ++ option_list line).
Definition set_proc_tls (p : proc) (t : tls) : proc := set_exc p (set_tls (p_exc p) t).

(** ** Threads *)

(** The descriptor of the calling thread, or NULL. *)
Definition pj_thread_this (th : Z) (p : proc) : option Z :=
  pj_thread_local_get th (e_tls (p_exc p)) (thread_tls_id p).

(** What a line of the log needs from outside: the buffer on the stack, the
    time, the name of the thread, and the version of the library. *)
Record log_env := mk_log_env { le_buf : list Z; le_time : pj_parsed_time; le_name : list Z; PJ_VERSION : list Z }.

(** [PJ_LOG(level, (sender, msg))]. *)
Definition PJ_LOG (th : Z) (le : log_env) (p : proc) (level : Z) (sender msg : list Z) : option proc :=
  if (level <=? PJ_LOG_MAX_LEVEL) && (level <=? pj_log_get_level (p_log p)) then
    this ← pj_thread_this th p;
    '(g, t, line) ← pj_log th (p_log p) (e_tls (p_exc p)) (le_buf le) sender level (Some msg) (le_time le) this (le_name le);
    Some (add_written (set_proc_tls (set_log p g) t) line)
  else Some p.

Definition THIS_FILE : list Z := text "os_core_unix.c".

Definition pj_thread_register (th : Z) (le : log_env) (p : proc) (desc : Z) : option (Z * proc) :=
  old ← pj_thread_local_get th (e_tls (p_exc p)) (thread_tls_id p);
  p ← (if negb (old =? 0) then PJ_LOG th le p 4 THIS_FILE (text "Info: possibly re-registering existing thread")
       else Some p);
  '(rc, t) ← pj_thread_local_set th (e_tls (p_exc p)) (thread_tls_id p) desc;
  if negb (rc =? PJ_SUCCESS) then Some (rc, set_proc_tls p t) else
  Some (PJ_SUCCESS, set_proc_tls p t).

(** [thread_tls_id] keeps its value when no key is left. *)
Definition pj_thread_init (th : Z) (le : log_env) (p : proc) (main_thread_desc : Z) : option (Z * proc) :=
  '(rc, id, t) ← pj_thread_local_alloc (e_tls (p_exc p)) 1;
  if negb (rc =? PJ_SUCCESS) then Some (rc, set_proc_tls p t) else
  pj_thread_register th le (set_tls_id (set_proc_tls p t) id) main_thread_desc.

Definition pj_thread_unregister (th : Z) (p : proc) : option (Z * proc) :=
  rec ← pj_thread_this th p;
  if rec =? 0 then Some (PJ_EBUG, p) else
  '(status, t) ← pj_thread_local_set th (e_tls (p_exc p)) (thread_tls_id p) 0;
  Some (status, set_proc_tls p (zephyr_tls_clear_thread th t)).

(** What a thread of the library does around its procedure. *)
Definition thread_main (th : Z) (p : proc) (rec : Z) (body : proc -> option proc) : option proc :=
  '(_, t) ← pj_thread_local_set th (e_tls (p_exc p)) (thread_tls_id p) rec;
  p ← body (set_proc_tls p t);
  Some (set_proc_tls p (zephyr_tls_clear_thread th (e_tls (p_exc p)))).

(** ** Start-up and shutdown *)

Definition init_text (le : log_env) : list Z := text "pjlib " ++ PJ_VERSION le ++ text " for POSIX initialized".

Definition pj_init (th : Z) (le : log_env) (p : proc) (main_thread_desc no_memory_name rc_mutex rc_timestamp : Z)
    : option (Z * proc) :=
  if negb (initialized p =? 0) then Some (PJ_SUCCESS, set_initialized p (i32 (initialized p + 1))) else
  '(_, g, e) ← pj_log_init (p_log p) (p_exc p);
  '(rc, p) ← pj_thread_init th le (set_exc (set_log p g) e) main_thread_desc;
  if negb (rc =? 0) then Some (rc, p) else
  if negb (rc_mutex =? 0) then Some (rc_mutex, p) else
  let p := set_critical p true in
  '(rc, id, e) ← pj_exception_id_alloc (p_exc p) no_memory_name;
  let p := set_exc p e in
  if negb (rc =? PJ_SUCCESS) then Some (rc, p) else
  let p := set_exception_id p id in
  if negb (rc_timestamp =? 0) then Some (rc_timestamp, p) else
  p ← PJ_LOG th le (set_initialized p (i32 (initialized p + 1))) 4 THIS_FILE (init_text le);
  Some (PJ_SUCCESS, p).

(** The registered functions, the last one first. *)
Fixpoint call_atexit (fs : list atexit_fn) (p : proc) : option proc :=
  match fs with
  | [] => Some p
  | ExceptionCleanup :: fs => e ← exception_cleanup (p_exc p); call_atexit fs (set_exc p e)
  | LoggingShutdown :: fs =>
      '(g, t) ← logging_shutdown (p_log p) (e_tls (p_exc p)); call_atexit fs (set_proc_tls (set_log p g) t)
  | AppExit f :: fs => call_atexit fs (add_called p f)
  end.

Definition clear_atexit (e : exc) : exc :=
  mk_exc (e_tls e) (thread_local_id e) (exception_id_names e) [] (prev_of e).

Definition pj_shutdown (th : Z) (p : proc) : option proc :=
  let p := set_initialized p (i32 (initialized p - 1)) in
  if negb (initialized p =? 0) then Some p else
  p ← call_atexit (reverse (atexit_func (p_exc p))) p;
  let p := set_exc p (clear_atexit (p_exc p)) in
  p ← (if negb (PJ_NO_MEMORY_EXCEPTION p =? -1) then
         '(_, e) ← pj_exception_id_free (p_exc p) (PJ_NO_MEMORY_EXCEPTION p);
         Some (set_exception_id (set_exc p e) (-1))
       else Some p);
  let p := set_critical p false in
  p ← (if negb (thread_tls_id p =? -1) then
         t ← pj_thread_local_free (e_tls (p_exc p)) (thread_tls_id p);
         Some (set_tls_id (set_proc_tls p t) (-1))
       else Some p);
  Some (set_proc_tls p (zephyr_tls_clear_thread th (e_tls (p_exc p)))).

(** The process before the first [pj_init]. *)
Definition proc_start : proc :=
  mk_proc (mk_exc tls_start (-1) (replicate 16 0) [] ∅) log_start 0 0 false 0 [] [].
