(* ===== verification/OsCoreSpec.v ===== *)
(** * Start-up and shutdown: specification

    Starting the library, running a thread that uses exceptions and shutting the
    library down leaves nothing behind: keys, exception identifiers and exit
    functions are as before.  A start-up that fails half-way does leave a key
    behind. *)
From Stdlib Require Import String.
From S2P Require Import Prelude ZephyrTls ZephyrTlsSpec Except ExceptSpec PjString PjStringSpec Log LogSpec OsCore.

Abbreviation p_tls p := (e_tls (p_exc p)).
Abbreviation exc_key p := (thread_local_id (p_exc p)).
Abbreviation flag_key p := (thread_suspended_tls_id (p_log p)).
Abbreviation indent_key p := (thread_indent_tls_id (p_log p)).

(** The library is not started and holds nothing. *)
Record down (n : nat) (a : spec) (p : proc) : Prop := {
  dn_abs : tls_abs n (p_tls p) a;
  dn_live : live a = ∅;
  dn_key : exc_key p = -1;
  dn_flag : flag_key p = -1;
  dn_indent : indent_key p = -1;
  dn_names : exception_id_names (p_exc p) = replicate 16 0;
  dn_atexit : atexit_func (p_exc p) = [];
  dn_init : initialized p = 0
}.

(** The library is started: its keys are the one of the threads and those of
    the exceptions and the logging, which will be freed at exit. *)
Record up (n : nat) (a : spec) (p : proc) (name : Z) : Prop := {
  up_abs : tls_abs n (p_tls p) a;
  up_tls : 0 <= thread_tls_id p;
  up_live k : k ∈ live a -> k = thread_tls_id p \/ k = exc_key p \/ k = flag_key p \/ k = indent_key p;
  up_exit : exc_key p <> -1 -> ExceptionCleanup ∈ atexit_func (p_exc p);
  up_log : LoggingShutdown ∈ atexit_func (p_exc p);
  up_names : exception_id_names (p_exc p) = <[1%nat := name]> (replicate 16 0);
  up_id : PJ_NO_MEMORY_EXCEPTION p = 1;
  up_init : initialized p = 1
}.

(** What a line of the log needs. *)
Definition env_ok (le : log_env) : Prop :=
  length (le_buf le) = Z.to_nat PJ_LOG_MAX_SIZE /\ 0 <= wday (le_time le) <= 6.

(** ** Small steps of the specification of the storage *)

Lemma spec_alloc_first a i :
  0 <= i < 32 -> (forall j, 0 <= j < i -> j ∈ live a) -> i ∉ live a ->
  spec_alloc a = (PJ_SUCCESS, i, mk_spec ({[i]} ∪ live a) (members a) (fun th k => if k =? i then 0 else view a th k)).
Proof.
  intros Hi Hj Hn. unfold spec_alloc, keys. replace 32 with (i + (32 - i)) by lia.
  rewrite seqZ_app, Z.add_0_l, filter_app by lia.
  assert (filter (fun j => j ∉ live a) (seqZ 0 i) = []) as ->.
  { apply elem_of_nil_inv. intros j [Hnot Hin%elem_of_seqZ]%list_elem_of_filter. apply Hnot, Hj. lia. }
  rewrite (seqZ_cons i) by lia. simpl. rewrite filter_cons_True by done. done.
Qed.

Lemma minus_one_dead n t a : tls_abs n t a -> (-1) ∉ live a.
Proof. intros Ha Hk. apply (ta_live _ _ _ Ha) in Hk. lia. Qed.

Lemma spec_free_dead a k : k ∉ live a -> spec_free a k = a.
Proof.
  intros Hk. destruct a as [lv ms vw]. unfold spec_free. simpl in *. f_equal. apply set_eq. intros j.
  rewrite elem_of_difference, elem_of_singleton. split; [tauto|]. intros Hj. split; [done|]. by intros ->.
Qed.

Section lifecycle.
Context (th : Z) (Hth : th <> 0) (le : log_env) (Hle : env_ok le).

(** ** Starting *)

(** Logging is started first, and takes two keys. *)
Lemma log_init_spec n a g e :
  tls_abs n (e_tls e) a -> Z.of_nat n + 1 < 2 ^ 32 - 1 -> live a = ∅ -> thread_suspended_tls_id g = -1 -> atexit_func e = [] ->
  exists t1 a1, pj_log_init g e = Some (PJ_SUCCESS, set_last_thread (set_log_keys g 0 1) 0,
      mk_exc t1 (thread_local_id e) (exception_id_names e) [LoggingShutdown] (prev_of e)) /\
    tls_abs (S (S n)) t1 a1 /\ live a1 = {[1; 0]} /\ members a1 = members a /\ (forall th', view a1 th' 0 = 0).
Proof.
  intros Ha Hn Hl Hf Hx. unfold pj_log_init. rewrite Hf. change (-1 =? -1) with true. cbv iota beta.
  destruct (alloc_refines n (e_tls e) a 1 Ha ltac:(lia) ltac:(done)) as (t1 & -> & Ha1).
  rewrite (spec_alloc_first a 0) in Ha1 |- * by (lia || (rewrite Hl; apply not_elem_of_empty)). cbn [fst snd] in Ha1 |- *.
  rewrite bind_some_eq. cbv beta iota. change (negb (PJ_SUCCESS =? PJ_SUCCESS)) with false. cbv iota.
  set (a1 := mk_spec _ _ _) in Ha1. assert (live a1 = {[0]}) as L1 by (simpl; by rewrite Hl, union_empty_r_L).
  destruct (alloc_refines (S n) t1 a1 1 Ha1 ltac:(lia) ltac:(done)) as (t2 & -> & Ha2).
  rewrite (spec_alloc_first a1 1) in Ha2 |- * by (lia || (rewrite L1; intros ?%elem_of_singleton; lia) || (intros j Hj; rewrite L1; apply elem_of_singleton; lia)).
  cbn [fst snd] in Ha2 |- *. rewrite bind_some_eq. cbv beta iota. change (negb (PJ_SUCCESS =? PJ_SUCCESS)) with false. cbv iota.
  eexists t2, _. split; [unfold pj_atexit; cbn [set_tls atexit_func]; rewrite Hx; reflexivity|]. split; [exact Ha2|].
  simpl live. rewrite Hl, union_empty_r_L. split; [done|]. split; [done|]. done.
Qed.

(** A message changes the log and the flag of the thread, and nothing else. *)
Lemma PJ_LOG_spec n a p level sender msg :
  tls_abs n (p_tls p) a -> log_ok a (p_log p) -> 0 <= level <= 6 ->
  exists t' a' last w, PJ_LOG th le p level sender msg =
      Some (mk_proc (set_tls (p_exc p) t') (set_last_thread (p_log p) last) (initialized p) (thread_tls_id p) (critical_section p)
              (PJ_NO_MEMORY_EXCEPTION p) (called p) w) /\
    tls_abs n t' a' /\ log_ok a' (p_log p) /\ logged th (flag_key p) a a'.
Proof.
  intros Ha Hok Hl. destruct Hle as [Hb Hw].
  assert (p = mk_proc (set_tls (p_exc p) (p_tls p)) (set_last_thread (p_log p) (g_last_thread (p_log p))) (initialized p) (thread_tls_id p)
    (critical_section p) (PJ_NO_MEMORY_EXCEPTION p) (called p) (written p)) as Eq by (by destruct p as [[] [] ? ? ? ? ? ?]).
  unfold PJ_LOG. destruct ((level <=? PJ_LOG_MAX_LEVEL) && (level <=? pj_log_get_level (p_log p))) eqn:E.
  2:{ exists (p_tls p), a, (g_last_thread (p_log p)), (written p). rewrite <- Eq. split; [done|]. split; [done|]. split; [done|]. apply logged_refl. }
  apply andb_true_iff in E as [_ E%Z.leb_le]. unfold pj_thread_this. rewrite (get_refines n (p_tls p) a th _ Ha Hth). bind_step.
  destruct (is_logging_suspended th (p_log p) (p_tls p)) as [b|] eqn:Es; [|by rewrite (is_suspended_spec n a) in Es].
  destruct b.
  - unfold pj_log. destruct (_ <? level); [|rewrite Es; bind_step]; rewrite bind_some_eq; cbv beta iota.
    all: exists (p_tls p), a, (g_last_thread (p_log p)), (written p ++ []); split; [|split; [exact Ha|split; [done|apply logged_refl]]].
    all: clear; by destruct p as [[] [] ? ? ? ? ? ?].
  - destruct (pj_log_spec th Hth n a (p_log p) (p_tls p) (le_buf le) sender level (Some msg) (le_time le)
      (spec_get th a (thread_tls_id p)) (le_name le) Ha Hok Es E Hl Hw Hb) as (last & t' & a' & lv & buf & len & pre & -> & Ha' & Hok' & Hq & _).
    rewrite bind_some_eq. cbv beta iota. eexists t', a', last, _. split; [|done]. reflexivity.
Qed.

(** The key of the threads, and the descriptor of the calling one. *)
Lemma thread_init_spec n a p desc :
  tls_abs n (p_tls p) a -> Z.of_nat n < 2 ^ 32 - 1 -> live a = {[1; 0]} -> (th ∈ members a \/ (size (members a) < 16)%nat) ->
  exists t' a', pj_thread_init th le p desc = Some (PJ_SUCCESS, set_tls_id (set_proc_tls p t') 2) /\
    tls_abs (S n) t' a' /\ live a' = {[2; 1; 0]} /\ th ∈ members a' /\ spec_get th a' 2 = desc /\
    (forall th' k, k ∈ live a -> spec_get th' a' k = spec_get th' a k).
Proof.
  intros Ha Hb Hl Hm. unfold pj_thread_init. destruct (alloc_refines n (p_tls p) a 1 Ha Hb ltac:(done)) as (t2 & -> & Ha2).
  rewrite (spec_alloc_first a 2) in Ha2 |- * by
    (lia || (rewrite Hl, elem_of_union, !elem_of_singleton; lia) || (intros j Hj; rewrite Hl, elem_of_union, !elem_of_singleton; lia)).
  cbn [fst snd] in Ha2 |- *. rewrite bind_some_eq. cbv beta iota. change (negb (PJ_SUCCESS =? PJ_SUCCESS)) with false. cbv iota.
  set (p2 := set_tls_id _ _). unfold pj_thread_register. change (p_tls p2) with t2. change (thread_tls_id p2) with 2.
  set (a2 := mk_spec _ _ _) in Ha2. rewrite (get_refines _ _ _ th 2 Ha2 Hth).
  assert (2 ∈ live a2) as H2 by (apply elem_of_union; left; by apply elem_of_singleton).
  assert (spec_get th a2 2 = 0) as -> by (unfold spec_get; by rewrite decide_True).
  bind_step. change (negb (0 =? 0)) with false. cbv iota. bind_step. change (p_tls p2) with t2. change (thread_tls_id p2) with 2.
  destruct (set_refines _ t2 a2 th 2 desc Ha2 Hth) as (t3 & -> & Ha3).
  destruct (set_members th a2 2 desc H2 Hm) as [L3 M3]. pose proof (fun th' k => spec_get_set th a2 2 desc th' k H2 Hm) as G3.
  assert ((spec_set th a2 2 desc).1 = PJ_SUCCESS) as -> by (unfold spec_set; by rewrite decide_True, decide_True).
  rewrite bind_some_eq. cbv beta iota. change (negb (PJ_SUCCESS =? PJ_SUCCESS)) with false. cbv iota.
  eexists t3, _. split; [done|]. split; [exact Ha3|]. rewrite L3. split; [simpl; rewrite Hl; by rewrite (assoc_L (∪))|].
  split; [done|]. split; [rewrite G3; by rewrite decide_True|]. intros th' k Hk. rewrite Hl, elem_of_union, !elem_of_singleton in Hk.
  rewrite G3, decide_False by lia. unfold spec_get. rewrite !decide_True by (simpl; rewrite Hl, ?elem_of_union, ?elem_of_singleton; lia).
  simpl. by rewrite (proj2 (Z.eqb_neq k 2)) by lia.
Qed.

Lemma init_spec n a p desc name :
  down n a p -> Z.of_nat n + 2 < 2 ^ 32 - 1 -> (th ∈ members a \/ (size (members a) < 16)%nat) -> name <> 0 ->
  exists p1 a1, pj_init th le p desc name 0 0 = Some (PJ_SUCCESS, p1) /\ up (S (S (S n))) a1 p1 name /\
    live a1 = {[2; 1; 0]} /\ thread_tls_id p1 = 2 /\ exc_key p1 = -1 /\ flag_key p1 = 0 /\ indent_key p1 = 1 /\
    atexit_func (p_exc p1) = [LoggingShutdown] /\
    th ∈ members a1 /\ spec_get th a1 2 = desc /\ called p1 = called p /\ prev_of (p_exc p1) = prev_of (p_exc p).
Proof.
  intros [Ha Hl Hk Hf Hd Hn Hx Hi] Hb Hm Hname. unfold pj_init. rewrite Hi. change (negb (0 =? 0)) with false. cbv iota.
  destruct (log_init_spec n a (p_log p) (p_exc p) Ha ltac:(lia) Hl Hf Hx) as (t1 & a1 & -> & Ha1 & L1 & M1 & V1).
  rewrite bind_some_eq. cbv beta iota. set (p0 := set_exc _ _).
  destruct (thread_init_spec (S (S n)) a1 p0 desc Ha1 ltac:(lia) L1 ltac:(by rewrite M1)) as (t3 & a3 & -> & Ha3 & L3 & M3 & D3 & G3).
  rewrite bind_some_eq. cbv beta iota.
  change (negb (PJ_SUCCESS =? 0)) with false. change (negb (0 =? 0)) with false. cbv iota zeta.
  unfold pj_exception_id_alloc. set (p3 := set_critical _ _). change (exception_id_names (p_exc p3)) with (exception_id_names (p_exc p)).
  rewrite Hn. change (id_alloc_loop (Z.to_nat (PJ_MAX_EXCEPTION_ID - 1)) (replicate 16 0) name 1)
    with (Some (PJ_SUCCESS, 1, <[1%nat := name]> (replicate 16 0))).
  rewrite bind_some_eq. cbv beta iota. rewrite bind_some_eq. cbv beta iota.
  change (negb (PJ_SUCCESS =? PJ_SUCCESS)) with false. cbv iota. set (p4 := set_exception_id _ _).
  set (p5 := set_initialized _ _).
  assert (0 ∈ live a1 /\ 0 ∈ live a3) as [H0 H0'] by (rewrite L1, L3, !elem_of_union, !elem_of_singleton; tauto).
  assert (log_ok a3 (p_log p5)) as Hok.
  { right. split; [exact H0'|]. intros th'. left. change (flag_key p5) with 0. rewrite G3 by done.
    unfold spec_get. rewrite decide_True by done. apply V1. }
  destruct (PJ_LOG_spec (S (S (S n))) a3 p5 4 THIS_FILE (init_text le) Ha3 Hok ltac:(lia)) as (t6 & a6 & last & w & -> & Ha6 & _ & [L6 M6 V6]).
  bind_step. eexists _, a6. split; [done|]. rewrite L6, L3. change (flag_key p5) with 0 in V6.
  split; [split; simpl; try done|].
  - intros k. rewrite L6, L3, !elem_of_union, !elem_of_singleton. tauto.
  - by left.
  - rewrite Hi. reflexivity.
  - simpl. split; [done|]. split; [done|]. split; [done|]. split; [done|]. split; [done|]. split; [done|].
    split; [destruct M6 as [-> | ->]; [done|]; apply elem_of_union; by right|]. split; [|done].
    by rewrite V6 by lia.
Qed.

(** ** Shutting down *)

(** Freeing a key, if there is one. *)
Lemma free_key n t a k :
  tls_abs n t a -> Z.of_nat n < 2 ^ 32 - 1 ->
  exists t', (if negb (k =? -1) then pj_thread_local_free t k else Some t) = Some t' /\
    tls_abs (S n) t' (spec_free a k) /\ (k ∉ live (spec_free a k)).
Proof.
  intros Ha Hn. assert (k ∉ live (spec_free a k)) as Hk by (simpl; rewrite elem_of_difference, elem_of_singleton; tauto).
  destruct (Z.eqb_spec k (-1)) as [E|E]; cbn [negb].
  - exists t. split; [done|]. split; [|done]. subst k. rewrite spec_free_dead by (by apply (minus_one_dead n t)). by apply tls_abs_weaken.
  - destruct (free_refines n t a k Ha Hn) as (t' & -> & Ht). by exists t'.
Qed.

Lemma cleanup_spec n a e :
  tls_abs n (e_tls e) a -> Z.of_nat n < 2 ^ 32 - 1 ->
  exists t', exception_cleanup e = Some (mk_exc t' (-1) (replicate 16 0) (atexit_func e) (prev_of e)) /\
    tls_abs (S n) t' (spec_free a (thread_local_id e)).
Proof.
  intros Ha Hn. unfold exception_cleanup. destruct (free_key n (e_tls e) a (thread_local_id e) Ha Hn) as (t' & E & Ha' & _).
  exists t'. split; [|done]. destruct (Z.eqb_spec (thread_local_id e) (-1)) as [Ek|Ek]; cbn [negb] in *.
  - injection E as <-. bind_step. destruct e; simpl in *; by subst.
  - by rewrite E.
Qed.

Lemma logging_shutdown_spec n a g t :
  tls_abs n t a -> Z.of_nat n + 1 < 2 ^ 32 - 1 ->
  exists t', logging_shutdown g t = Some (set_log_keys g (-1) (-1), t') /\
    tls_abs (S (S n)) t' (spec_free (spec_free a (thread_suspended_tls_id g)) (thread_indent_tls_id g)).
Proof.
  intros Ha Hn. destruct (free_key n t a (thread_suspended_tls_id g) Ha ltac:(lia)) as (t1 & E1 & Ha1 & _).
  destruct (free_key (S n) t1 _ (thread_indent_tls_id g) Ha1 ltac:(lia)) as (t2 & E2 & Ha2 & _).
  exists t2. split; [|done]. unfold logging_shutdown.
  assert ((if negb (thread_suspended_tls_id g =? -1) then t ← pj_thread_local_free t (thread_suspended_tls_id g);
     Some (set_log_keys g (-1) (thread_indent_tls_id g), t) else Some (g, t)) = Some (set_log_keys g (-1) (thread_indent_tls_id g), t1)) as ->.
  { destruct (Z.eqb_spec (thread_suspended_tls_id g) (-1)) as [E|E]; cbn [negb] in *; [|by rewrite E1].
    injection E1 as <-. destruct g; simpl in *; by subst. }
  rewrite bind_some_eq. cbv beta iota. cbn [thread_indent_tls_id set_log_keys].
  destruct (Z.eqb_spec (thread_indent_tls_id g) (-1)) as [E|E]; cbn [negb] in *; [|by rewrite E2].
  injection E2 as <-. rewrite E. done.
Qed.

(** The functions of the application among the registered ones. *)
Definition app_exits (fs : list atexit_fn) : list Z :=
  omap (fun f => match f with AppExit f => Some f | _ => None end) fs.

(** The statics after the exit functions [fs] have been called. *)
Record exited (fs : list atexit_fn) (a : spec) (p : proc) (a' : spec) (p' : proc) : Prop := {
  ex_live : live a' ⊆ live a;
  ex_exc : ExceptionCleanup ∈ fs -> (exc_key p ∉ live a') /\ exc_key p' = -1;
  ex_exc_keep : exc_key p' = exc_key p \/ exc_key p' = -1;
  ex_logging : LoggingShutdown ∈ fs -> (flag_key p ∉ live a') /\ (indent_key p ∉ live a') /\ flag_key p' = -1 /\ indent_key p' = -1;
  ex_log_keep : (flag_key p' = flag_key p /\ indent_key p' = indent_key p) \/ (flag_key p' = -1 /\ indent_key p' = -1);
  ex_names : exception_id_names (p_exc p') = exception_id_names (p_exc p) \/ exception_id_names (p_exc p') = replicate 16 0;
  ex_tls : thread_tls_id p' = thread_tls_id p;
  ex_init : initialized p' = initialized p;
  ex_id : PJ_NO_MEMORY_EXCEPTION p' = PJ_NO_MEMORY_EXCEPTION p;
  ex_called : called p' = called p ++ app_exits fs
}.

Lemma exited_nil a p : exited [] a p a p.
Proof. split; try done; try (by intros ?%elem_of_nil); try (by left). by rewrite app_nil_r. Qed.

Lemma exited_exception fs a p e a' p' :
  thread_local_id e = -1 -> exception_id_names e = replicate 16 0 ->
  exited fs (spec_free a (exc_key p)) (set_exc p e) a' p' -> exited (ExceptionCleanup :: fs) a p a' p'.
Proof.
  intros Hk Hn [L E EK G GK N T I D C]. simpl in *. rewrite Hk in EK. rewrite Hn in N. split; try done.
  - intros k Hin. apply L in Hin. by apply elem_of_difference in Hin as [].
  - intros _. split; [|tauto]. intros Hin. apply L, elem_of_difference in Hin as [_ Hin]. by apply Hin, elem_of_singleton.
  - tauto.
  - intros [|Hin]%elem_of_cons; [done|]. by apply G.
  - tauto.
Qed.

Lemma exited_logging fs a p t a' p' :
  exited fs (spec_free (spec_free a (flag_key p)) (indent_key p)) (set_proc_tls (set_log p (set_log_keys (p_log p) (-1) (-1))) t) a' p' ->
  exited (LoggingShutdown :: fs) a p a' p'.
Proof.
  intros [L E EK G GK N T I D C]. simpl in *. split; try done.
  - intros k Hin. apply L, elem_of_difference in Hin as [Hin _]. by apply elem_of_difference in Hin as [].
  - intros [|Hin]%elem_of_cons; [done|]. by apply E.
  - intros _. split; [|split; [|tauto]]; intros Hin; apply L, elem_of_difference in Hin as [Hin Hne].
    + apply elem_of_difference in Hin as [_ Hin]. by apply Hin, elem_of_singleton.
    + by apply Hne, elem_of_singleton.
  - right. tauto.
Qed.

Lemma exited_app fs f a p a' p' : exited fs a (add_called p f) a' p' -> exited (AppExit f :: fs) a p a' p'.
Proof.
  intros [L E EK G GK N T I D C]. simpl in *. split; try done.
  - intros [|Hin]%elem_of_cons; [done|]. by apply E.
  - intros [|Hin]%elem_of_cons; [done|]. by apply G.
  - rewrite C. simpl. by rewrite <- app_assoc.
Qed.

Lemma call_atexit_spec fs n a p :
  tls_abs n (p_tls p) a -> Z.of_nat n + 2 * Z.of_nat (length fs) < 2 ^ 32 - 1 ->
  exists p' a', call_atexit fs p = Some p' /\ tls_abs (n + 2 * length fs) (p_tls p') a' /\ exited fs a p a' p'.
Proof.
  revert n a p. induction fs as [|f fs IH]; intros n a p Ha Hb; cbn [call_atexit length].
  { exists p, a. rewrite Nat.add_0_r. split; [done|]. split; [done|]. apply exited_nil. }
  cbn [length] in Hb. replace (n + 2 * S (length fs))%nat with (S (S n) + 2 * length fs)%nat by lia. destruct f as [| |f].
  - destruct (cleanup_spec n a (p_exc p) Ha ltac:(lia)) as (t & -> & He). bind_step. set (e := mk_exc _ _ _ _ _).
    destruct (IH (S (S n)) _ (set_exc p e) (tls_abs_weaken _ _ _ He) ltac:(lia)) as (p' & a' & -> & H1 & H2).
    exists p', a'. split; [done|]. split; [done|]. by apply (exited_exception _ _ _ e).
  - destruct (logging_shutdown_spec n a (p_log p) (p_tls p) Ha ltac:(lia)) as (t & -> & He). rewrite bind_some_eq. cbv beta iota.
    destruct (IH (S (S n)) _ (set_proc_tls (set_log p (set_log_keys (p_log p) (-1) (-1))) t) He ltac:(lia)) as (p' & a' & -> & H1 & H2).
    exists p', a'. split; [done|]. split; [done|]. by apply (exited_logging _ _ _ t).
  - destruct (IH (S (S n)) a (add_called p f) (tls_abs_weaken _ _ _ (tls_abs_weaken _ _ _ Ha)) ltac:(lia)) as (p' & a' & -> & H1 & H2).
    exists p', a'. split; [done|]. split; [done|]. by apply exited_app.
Qed.

Lemma shutdown_spec n a p name :
  up n a p name -> Z.of_nat n + 2 * Z.of_nat (length (atexit_func (p_exc p))) + 1 < 2 ^ 32 - 1 ->
  exists p' a' n', pj_shutdown th p = Some p' /\ down n' a' p' /\
    (n' <= n + 2 * length (atexit_func (p_exc p)) + 1)%nat /\
    called p' = called p ++ app_exits (reverse (atexit_func (p_exc p))).
Proof.
  intros [Ha Ht Hl Hx Hg Hn Hid Hi] Hb. unfold pj_shutdown. cbn [initialized set_initialized]. rewrite Hi.
  change (i32 (1 - 1)) with 0. change (negb (0 =? 0)) with false. cbv iota.
  set (p0 := set_initialized p 0). set (fs := atexit_func (p_exc p)) in *.
  change (atexit_func (p_exc p0)) with fs.
  destruct (call_atexit_spec (reverse fs) n a p0 Ha ltac:(rewrite length_reverse; lia)) as (p1 & a1 & -> & H1 & [L E EK G GK N T I D C]).
  rewrite length_reverse in H1. bind_step. cbn [PJ_NO_MEMORY_EXCEPTION set_exc]. rewrite D. cbn [p0 set_initialized PJ_NO_MEMORY_EXCEPTION].
  rewrite Hid. change (negb (1 =? -1)) with true. cbv iota.
  assert (pj_exception_id_free (clear_atexit (p_exc p1)) 1 = Some (PJ_SUCCESS, set_names (clear_atexit (p_exc p1)) (replicate 16 0))) as Ef.
  { unfold pj_exception_id_free. change ((0 <? 1) && (1 <? PJ_MAX_EXCEPTION_ID)) with true. cbv iota. cbn [exception_id_names clear_atexit].
    destruct N as [-> | ->]; [cbn [p0 set_initialized p_exc]; rewrite Hn; reflexivity|reflexivity]. }
  change (p_exc (set_exc p1 (clear_atexit (p_exc p1)))) with (clear_atexit (p_exc p1)). rewrite Ef. rewrite bind_some_eq. cbv beta iota. rewrite bind_some_eq. cbv beta zeta.
  set (p2 := set_critical _ _). assert (thread_tls_id p2 = thread_tls_id p) as Et2 by (cbn; rewrite T; done).
  rewrite Et2. rewrite (proj2 (Z.eqb_neq (thread_tls_id p) (-1))) by lia. cbn [negb]. cbv iota.
  destruct (free_refines (n + 2 * length fs) (p_tls p2) a1 (thread_tls_id p) H1 ltac:(lia)) as (t3 & E3 & Ha3).
  rewrite E3. bind_step. bind_step. destruct G as (G1 & G2 & G3 & G4); [by apply elem_of_reverse|].
  assert (exc_key p1 = -1 /\ (exc_key p ∉ live a1)) as [K1 K2].
  { destruct (decide (exc_key p = -1)) as [Ek|Hne].
    - split; [destruct EK as [-> | ->]; done|]. rewrite Ek. by apply (minus_one_dead _ _ _ H1).
    - destruct E as [E1 E2]; [by apply elem_of_reverse, Hx|done]. }
  eexists _, _, _. split; [done|]. split; [split; try done|split; [|]].
  - apply (clear_refines _ _ _ th Ha3 Hth).
  - simpl. apply set_eq. intros k. rewrite elem_of_difference, elem_of_singleton. split; [|by intros ?%elem_of_empty].
    intros [Hk Hne]. exfalso. destruct (Hl k (L k Hk)) as [|[Ek|[Ek|Ek]]]; [done|..]; subst k; done.
  - lia.
  - done.
Qed.

(** ** A session *)

Definition register_all (e : exc) (fs : list Z) : exc := foldl (fun e f => (pj_atexit e (AppExit f)).2) e fs.

Lemma register_all_spec e fs :
  (length (atexit_func e) + length fs <= 32)%nat ->
  register_all e fs = mk_exc (e_tls e) (thread_local_id e) (exception_id_names e) (atexit_func e ++ (AppExit <$> fs)) (prev_of e).
Proof.
  revert e. induction fs as [|f fs IH]; intros e Hl; cbn [register_all foldl].
  - rewrite app_nil_r. by destruct e.
  - fold (register_all (pj_atexit e (AppExit f)).2 fs). unfold pj_atexit.
    rewrite (proj2 (Z.leb_gt 32 _)) by (simpl in Hl; lia). rewrite IH; simpl in *; [by rewrite <- app_assoc|].
    rewrite length_app. simpl. lia.
Qed.

Lemma app_exits_map fs : app_exits (AppExit <$> fs) = fs.
Proof. induction fs as [|f fs IH]; [done|]. simpl. f_equal. exact IH. Qed.

Lemma app_exits_app l1 l2 : app_exits (l1 ++ l2) = app_exits l1 ++ app_exits l2.
Proof. apply omap_app. Qed.

(** What the statement of a session leaves: the key of the exceptions, if it
    used any, with the function that frees it. *)
Lemma session_exec n a p name desc s l :
  up n a p name -> live a = {[2; 1; 0]} -> thread_tls_id p = 2 -> exc_key p = -1 -> flag_key p = 0 -> indent_key p = 1 ->
  atexit_func (p_exc p) = [LoggingShutdown] -> th ∈ members a -> spec_get th a 2 = desc -> Z.of_nat n < 2 ^ 32 - 1 ->
  scoped [] s -> eval s = (Normal, l) ->
  exists e n' a', exec th s (p_exc p) = Some (Done, l, e) /\ up n' a' (set_exc p e) name /\ (n' <= S n)%nat /\
    spec_get th a' 2 = desc /\ (atexit_func e = [LoggingShutdown] \/ atexit_func e = [LoggingShutdown; ExceptionCleanup]).
Proof.
  intros [Ha _ _ _ _ Hn1 Hid1 Hi1] L T K F I X M G Hb Hsc Hev.
  assert (handlers n a th (p_exc p) []) as Hh.
  { split; [done|done| |by left|].
    - rewrite K. unfold spec_get. by rewrite decide_False by (by apply (minus_one_dead _ _ _ Ha)).
    - right. split; [done|]. split; [lia|]. exists 3. rewrite L. split; [apply elem_of_seqZ; lia|].
      rewrite !elem_of_union, !elem_of_singleton. lia. }
  pose proof (exec_spec th Hth s [] n a (p_exc p) [] Hh ltac:(done) Hsc) as Hex. rewrite Hev in Hex.
  destruct Hex as (e & n' & a' & E & [Ha' _ _ _ _] & [GN GK _ GV]).
  assert (spec_get th a' 2 = desc) as G2.
  { rewrite <- G. apply GV; [rewrite L, !elem_of_union, !elem_of_singleton; tauto|]. right. lia. }
  exists e, n', a'. split; [done|].
  destruct GK as [(Ik & Xk & Lk & ->)|(_ & Pk & Fk & Lk & Xk & ->)].
  - split; [|split; [lia|]; split; [done|]; left; congruence]. rewrite X in Xk. split; [done|simpl; lia| | | |simpl; by rewrite GN|done|done]; simpl.
    + intros k. rewrite Lk, L, T, F, I, !elem_of_union, !elem_of_singleton. tauto.
    + rewrite Ik, K. done.
    + rewrite Xk. by left.
  - assert (atexit_func e = [LoggingShutdown; ExceptionCleanup]) as Xe by (rewrite Xk; unfold pj_atexit; rewrite X; reflexivity).
    split; [|split; [lia|]; split; [done|]; by right]. split; [done|simpl; lia| | | |simpl; by rewrite GN|done|done]; simpl.
    + intros k. rewrite Lk, L, T, F, I, !elem_of_union, !elem_of_singleton. tauto.
    + intros _. rewrite Xe. right. by left.
    + rewrite Xe. by left.
Qed.

(** Starting the library, running statements with exceptions in the thread
    that started it, registering up to 30 exit functions and shutting down
    again: the thread is registered in between, the exit functions are called in
    the reverse order, and afterwards no key, exception identifier or exit
    function is left, so that the library can be started again. *)
Theorem session_leaves_nothing n a p desc name s l fs :
  down n a p -> Z.of_nat n + 100 < 2 ^ 32 -> (th ∈ members a \/ (size (members a) < 16)%nat) -> name <> 0 ->
  scoped [] s -> eval s = (Normal, l) -> (length fs <= 30)%nat ->
  exists p1 e2 p3, pj_init th le p desc name 0 0 = Some (PJ_SUCCESS, p1) /\ pj_thread_this th p1 = Some desc /\
    exec th s (p_exc p1) = Some (Done, l, e2) /\
    pj_thread_this th (set_exc p1 e2) = Some desc /\
    pj_shutdown th (set_exc p1 (register_all e2 fs)) = Some p3 /\
    called p3 = called p ++ reverse fs /\ exists n' a', down n' a' p3.
Proof.
  intros Hd Hb Hm Hname Hsc Hev Hfs.
  destruct (init_spec n a p desc name Hd ltac:(lia) Hm Hname) as (p1 & a1 & E1 & Hup & L1 & T1 & K1 & F1 & I1 & X1 & M1 & G1 & C1 & _).
  destruct (session_exec _ a1 p1 name desc s l Hup L1 T1 K1 F1 I1 X1 M1 G1 ltac:(lia) Hsc Hev) as (e2 & n2 & a2 & E2 & [Ha2 Ht2 Hl2 Hx2 Hg2 Hn2 Hid2 Hi2] & B2 & G2 & X2).
  assert ((length (atexit_func e2) <= 2)%nat /\ app_exits (reverse (atexit_func e2)) = []) as [Le2 Ae2] by (destruct X2 as [-> | ->]; simpl; split; (lia || done)).
  pose proof (register_all_spec e2 fs ltac:(lia)) as Er. set (p2 := set_exc p1 (register_all e2 fs)).
  assert (up n2 a2 p2 name) as Hup2.
  { unfold p2. rewrite Er. split; simpl; try done; [intros Hne; apply elem_of_app; left; by apply Hx2|apply elem_of_app; by left]. }
  destruct (shutdown_spec n2 a2 p2 name Hup2) as (p3 & a3 & n3 & E3 & Hd3 & _ & C3).
  { unfold p2. rewrite Er. simpl. rewrite length_app, length_fmap. lia. }
  exists p1, e2, p3. split; [done|]. unfold pj_thread_this. cbn [set_exc p_exc thread_tls_id]. rewrite T1.
  rewrite (get_refines _ _ _ th 2 (up_abs _ _ _ _ Hup) Hth), (get_refines n2 (e_tls e2) a2 th 2 Ha2 Hth), G1, G2.
  split; [done|]. split; [done|]. split; [done|]. split; [done|]. split; [|by exists n3, a3].
  rewrite C3. unfold p2. rewrite Er. simpl. rewrite C1, reverse_app, app_exits_app, <- fmap_reverse, app_exits_map, Ae2, app_nil_r. done.
Qed.
End lifecycle.

(** ** A start-up that fails *)

Definition ex_env : log_env := mk_log_env (replicate (Z.to_nat PJ_LOG_MAX_SIZE) 0) ex_time (text "main"%string) (text "2.15"%string).

(** [k] attempts in which the mutex cannot be created. *)
Fixpoint failing_inits (k : nat) (p : proc) : option proc :=
  match k with
  | O => Some p
  | S k => '(_, p) ← pj_init 1 ex_env p 100 77 PJ_ENOMEM 0; failing_inits k p
  end.

(** A start-up that fails after it has allocated the key of the threads does
    not give the key back: after thirty failing attempts the keys are used up,
    and an attempt in which nothing fails is refused. *)
Theorem failed_init_leaks_keys :
  exists p p', failing_inits 30 proc_start = Some p /\ initialized p = 0 /\
    pj_init 1 ex_env p 100 77 0 0 = Some (PJ_ETOOMANY, p').
Proof.
  assert ((p ← failing_inits 30 proc_start; r ← pj_init 1 ex_env p 100 77 0 0; Some (initialized p, r.1)) = Some (0, PJ_ETOOMANY)) as H
    by (vm_compute; reflexivity).
  destruct (failing_inits 30 proc_start) as [p|]; [|discriminate]. rewrite bind_some_eq in H.
  destruct (pj_init 1 ex_env p 100 77 0 0) as [[rc p']|] eqn:E; [|discriminate]. simpl in H. injection H as Hi ->.
  exists p, p'. split; [done|]. split; [exact Hi|exact E].
Qed.

(** ** Examples *)

Lemma start_down : down 0 spec_start proc_start.
Proof. split; try reflexivity. apply start_abs. Qed.

Lemma ex_env_ok : env_ok ex_env.
Proof. split; [apply length_replicate|vm_compute; split; discriminate]. Qed.

Lemma session_leaves_nothing_witness :
  exists p1 e2 p3, pj_init 1 ex_env proc_start 100 77 0 0 = Some (PJ_SUCCESS, p1) /\
    exec 1 ex_try (p_exc p1) = Some (Done, [1; 3; 14], e2) /\
    pj_shutdown 1 (set_exc p1 (register_all e2 [5; 6; 7])) = Some p3 /\ called p3 = [7; 6; 5].
Proof.
  destruct (session_leaves_nothing 1 ltac:(discriminate) ex_env ex_env_ok 0 spec_start proc_start 100 77 ex_try [1; 3; 14] [5; 6; 7] start_down)
    as (p1 & e2 & p3 & H1 & _ & H2 & _ & H3 & H4 & _).
  - vm_compute. reflexivity.
  - right. vm_compute. lia.
  - discriminate.
  - apply ex_try_scoped.
  - reflexivity.
  - simpl. lia.
  - exists p1, e2, p3. split; [exact H1|]. split; [exact H2|]. split; [exact H3|exact H4].
Defined.
