(* ===== verification/GrpLock.v ===== *)
(** * Locks and group locks

    [pjlib/src/pj/lock.c] with [PJ_GRP_LOCK_DEBUG] off, as one thread sees it:
    the mutexes and semaphores of the system are an interface, whose calls do
    not return ([None]) when they would block for ever.  A [pj_lock_t] is the
    template it was made from and its object; a group lock begins with its
    [pj_lock_t], so that it has the same address and can be chained to another
    group lock.  The lists of items and of callbacks are lists; [PjListSpec] is
    about the links.  A pool is its address: the group lock and the locks made
    in it are gone when it is released.  Signed overflow of a counter and memory
    that cannot be had are [None]. *)
From S2P Require Import Prelude.

(** The calls of the system, for the calling thread. *)
Class SystemLocks (OS : Type) := {
  pj_mutex_create : Z -> OS -> Z * Z * OS;
  pj_mutex_lock : Z -> Z -> OS -> option (Z * OS);
  pj_mutex_trylock : Z -> Z -> OS -> option (Z * OS);
  pj_mutex_unlock : Z -> Z -> OS -> option (Z * OS);
  pj_mutex_destroy : Z -> OS -> option (Z * OS);
  pj_sem_create : Z -> Z -> OS -> Z * Z * OS;
  pj_sem_wait : Z -> OS -> option (Z * OS);
  pj_sem_trywait : Z -> OS -> option (Z * OS);
  pj_sem_post : Z -> OS -> option (Z * OS);
  pj_sem_destroy : Z -> OS -> option (Z * OS)
}.

Definition PJ_MUTEX_SIMPLE : Z := 1.
Definition PJ_MUTEX_RECURSE : Z := 2.

(** The templates: which functions a [pj_lock_t] holds.  Those of mutexes, null
    locks and semaphores are static; the functions of a group lock are stored one
    by one in [pj_grp_lock_create]. *)
Inductive lock_template := mutex_lock_template | null_lock_template | sem_lock_template | grp_lock_template.

Record pj_lock_t := mk_lock { template : lock_template; lock_object : Z }.

Record pj_grp_lock_t := mk_glock {
  g_pool : Z;
  ref_cnt : option Z;
  own_lock : Z;
  owner : Z;
  owner_cnt : Z;
  lock_list : list (Z * Z);
  destroy_list : list (Z * Z)
}.

(** [called] are the callbacks of destroyed locks, [free_mem] the number of
    allocations that can still be served. *)
Record world (OS : Type) := mk_world {
  os : OS;
  locks : gmap Z pj_lock_t;
  glocks : gmap Z pj_grp_lock_t;
  next_addr : Z;
  free_mem : nat;
  handled : list (Z * Z)
}.
Arguments mk_world {_}.
Arguments os {_}.
Arguments locks {_}.
Arguments glocks {_}.
Arguments next_addr {_}.
Arguments free_mem {_}.
Arguments handled {_}.

Section lock.
Context {OS : Type} `{SystemLocks OS} (th : Z).
Abbreviation world := (world OS).

Definition set_os (w : world) (o : OS) : world :=
  mk_world o (locks w) (glocks w) (next_addr w) (free_mem w) (handled w).
Definition set_locks (w : world) (m : gmap Z pj_lock_t) : world :=
  mk_world (os w) m (glocks w) (next_addr w) (free_mem w) (handled w).
Definition set_glocks (w : world) (m : gmap Z pj_grp_lock_t) : world :=
  mk_world (os w) (locks w) m (next_addr w) (free_mem w) (handled w).
Definition set_glock (w : world) (g : Z) (r : pj_grp_lock_t) : world := set_glocks w (<[g := r]> (glocks w)).
Definition add_handled (w : world) (c : Z * Z) : world :=
  mk_world (os w) (locks w) (glocks w) (next_addr w) (free_mem w) (handled w ++ [c]).

(** A fresh address. *)
Definition alloc (w : world) : option (Z * world) :=
  match free_mem w with
  | O => None
  | S n => Some (next_addr w, mk_world (os w) (locks w) (glocks w) (next_addr w + 1) n (handled w))
  end.

Definition on_os (f : OS -> option (Z * OS)) (w : world) : option (Z * world) :=
  '(s, o) ← f (os w); Some (s, set_os w o).

(** ** Creating locks *)

Definition create_mutex_lock (type : Z) (w : world) : option (Z * Z * world) :=
  '(p_lock, w) ← alloc w;
  let '(rc, mutex, o) := pj_mutex_create type (os w) in
  let w := set_os w o in
  if negb (rc =? PJ_SUCCESS) then Some (rc, 0, w) else
  Some (PJ_SUCCESS, p_lock, set_locks w (<[p_lock := mk_lock mutex_lock_template mutex]> (locks w))).

Definition pj_lock_create_simple_mutex (w : world) := create_mutex_lock PJ_MUTEX_SIMPLE w.
Definition pj_lock_create_recursive_mutex (w : world) := create_mutex_lock PJ_MUTEX_RECURSE w.

(** The address of the static [null_lock_template] is not 0. *)
Definition null_lock_address : Z := -1.
Definition pj_lock_create_null_mutex (w : world) : Z * Z * world :=
  (PJ_SUCCESS, null_lock_address, set_locks w (<[null_lock_address := mk_lock null_lock_template 0]> (locks w))).

Definition pj_lock_create_semaphore (initial max : Z) (w : world) : option (Z * Z * world) :=
  '(p_lock, w) ← alloc w;
  let '(rc, sem, o) := pj_sem_create initial max (os w) in
  let w := set_os w o in
  if negb (rc =? PJ_SUCCESS) then Some (rc, 0, w) else
  Some (PJ_SUCCESS, p_lock, set_locks w (<[p_lock := mk_lock sem_lock_template sem]> (locks w))).

(** ** The group lock, over the functions of the locks in it *)

Inductive lock_fn := acquire | tryacquire | release | destroy.

(** Calls through a [pj_lock_t]. *)
Definition calls : Type := lock_fn -> Z -> world -> option (Z * world).

Definition with_owner (r : pj_grp_lock_t) (o c : Z) : pj_grp_lock_t :=
  mk_glock (g_pool r) (ref_cnt r) (own_lock r) o c (lock_list r) (destroy_list r).
Definition with_ref (r : pj_grp_lock_t) (n : Z) : pj_grp_lock_t :=
  mk_glock (g_pool r) (Some n) (own_lock r) (owner r) (owner_cnt r) (lock_list r) (destroy_list r).
Definition with_items (r : pj_grp_lock_t) (l : list (Z * Z)) : pj_grp_lock_t :=
  mk_glock (g_pool r) (ref_cnt r) (own_lock r) (owner r) (owner_cnt r) l (destroy_list r).
Definition with_handlers (r : pj_grp_lock_t) (l : list (Z * Z)) : pj_grp_lock_t :=
  mk_glock (g_pool r) (ref_cnt r) (own_lock r) (owner r) (owner_cnt r) (lock_list r) l.

Definition grp_lock_set_owner_thread (g : Z) (w : world) : option world :=
  r ← glocks w !! g;
  if owner r =? 0 then Some (set_glock w g (with_owner r th 1))
  else if owner_cnt r =? INT_MAX then None
  else Some (set_glock w g (with_owner r (owner r) (owner_cnt r + 1))).

Definition grp_lock_unset_owner_thread (g : Z) (w : world) : option world :=
  r ← glocks w !! g;
  let c := owner_cnt r - 1 in
  if c <=? 0 then Some (set_glock w g (with_owner r 0 0)) else Some (set_glock w g (with_owner r (owner r) c)).

(** [pj_atomic_inc] and [pj_atomic_dec_and_get] of the counter. *)
Definition grp_lock_add_ref (g : Z) (w : world) : option (Z * world) :=
  r ← glocks w !! g;
  n ← ref_cnt r;
  if n =? INT_MAX then None else Some (PJ_SUCCESS, set_glock w g (with_ref r (n + 1))).

(** The end of [grp_lock_acquire] and [grp_lock_tryacquire]. *)
Definition grp_lock_enter (g : Z) (w : world) : option (Z * world) :=
  w ← grp_lock_set_owner_thread g w;
  '(_, w) ← grp_lock_add_ref g w;
  Some (PJ_SUCCESS, w).

(** A function on each of the locks, whose status is not looked at. *)
Fixpoint each (f : Z -> world -> option (Z * world)) (ls : list Z) (w : world) : option world :=
  match ls with
  | [] => Some w
  | l :: ls => '(_, w) ← f l w; each f ls w
  end.

Definition chained (r : pj_grp_lock_t) : list Z := snd <$> lock_list r.

(** [release] for [n] times. *)
Definition release_times (call : calls) (n : Z) (l : Z) (w : world) : option (Z * world) :=
  w ← each (call release) (replicate (Z.to_nat n) l) w; Some (PJ_SUCCESS, w).

Fixpoint call_handlers (cbs : list (Z * Z)) (w : world) : world :=
  match cbs with [] => w | cb :: cbs => call_handlers cbs (add_handled w cb) end.

Definition grp_lock_destroy (call : calls) (g : Z) (w : world) : option (Z * world) :=
  r ← glocks w !! g;
  if g_pool r =? 0 then Some (PJ_EINVAL, w) else
  w ← each (release_times call (owner_cnt r)) (filter (fun l => l <> own_lock r) (chained r)) w;
  let w := call_handlers (destroy_list r) w in
  '(_, w) ← call destroy (own_lock r) w;
  Some (PJ_SUCCESS, set_locks (set_glocks w (delete g (glocks w))) (delete (own_lock r) (delete g (locks w)))).

Definition grp_lock_dec_ref (call : calls) (g : Z) (w : world) : option (Z * world) :=
  r ← glocks w !! g;
  n ← ref_cnt r;
  let w := set_glock w g (with_ref r (n - 1)) in
  if n - 1 =? 0 then '(_, w) ← grp_lock_destroy call g w; Some (PJ_EGONE, w) else Some (PJ_SUCCESS, w).

Definition grp_lock_acquire (call : calls) (g : Z) (w : world) : option (Z * world) :=
  r ← glocks w !! g;
  w ← each (call acquire) (chained r) w;
  grp_lock_enter g w.

(** The loop of [grp_lock_tryacquire]; [taken] are the locks before [ls], the
    last one first.  The inner [Some] is the status of a failure. *)
Fixpoint try_each (call : calls) (ls taken : list Z) (w : world) : option (option Z * world) :=
  match ls with
  | [] => Some (None, w)
  | l :: ls =>
      '(s, w) ← call tryacquire l w;
      if negb (s =? PJ_SUCCESS) then w ← each (call release) taken w; Some (Some s, w)
      else try_each call ls (l :: taken) w
  end.

Definition grp_lock_tryacquire (call : calls) (g : Z) (w : world) : option (Z * world) :=
  r ← glocks w !! g;
  '(failed, w) ← try_each call (chained r) [] w;
  match failed with
  | Some s => Some (s, w)
  | None => grp_lock_enter g w
  end.

Definition grp_lock_release (call : calls) (g : Z) (w : world) : option (Z * world) :=
  w ← grp_lock_unset_owner_thread g w;
  r ← glocks w !! g;
  w ← each (call release) (reverse (chained r)) w;
  grp_lock_dec_ref call g w.

(** ** Calls through a [pj_lock_t] *)

(** The fuel is the depth to which group locks are chained to group locks. *)
Fixpoint pj_lock_call (fuel : nat) (f : lock_fn) (l : Z) (w : world) : option (Z * world) :=
  match fuel with
  | O => None
  | S fuel =>
      if l =? 0 then Some (PJ_EINVAL, w) else
      p ← locks w !! l;
      match template p, f with
      | mutex_lock_template, acquire => on_os (pj_mutex_lock th (lock_object p)) w
      | mutex_lock_template, tryacquire => on_os (pj_mutex_trylock th (lock_object p)) w
      | mutex_lock_template, release => on_os (pj_mutex_unlock th (lock_object p)) w
      | mutex_lock_template, destroy => on_os (pj_mutex_destroy (lock_object p)) w
      | null_lock_template, _ => Some (PJ_SUCCESS, w)
      | sem_lock_template, acquire => on_os (pj_sem_wait (lock_object p)) w
      | sem_lock_template, tryacquire => on_os (pj_sem_trywait (lock_object p)) w
      | sem_lock_template, release => on_os (pj_sem_post (lock_object p)) w
      | sem_lock_template, destroy => on_os (pj_sem_destroy (lock_object p)) w
      | grp_lock_template, acquire => grp_lock_acquire (pj_lock_call fuel) (lock_object p) w
      | grp_lock_template, tryacquire => grp_lock_tryacquire (pj_lock_call fuel) (lock_object p) w
      | grp_lock_template, release => grp_lock_release (pj_lock_call fuel) (lock_object p) w
      | grp_lock_template, destroy => grp_lock_destroy (pj_lock_call fuel) (lock_object p) w
      end
  end.

Definition pj_lock_acquire (fuel : nat) := pj_lock_call fuel acquire.
Definition pj_lock_tryacquire (fuel : nat) := pj_lock_call fuel tryacquire.
Definition pj_lock_release (fuel : nat) := pj_lock_call fuel release.
Definition pj_lock_destroy (fuel : nat) := pj_lock_call fuel destroy.

(** ** The operations of the interface *)

Section group.
Context (call : calls).

(** The pool may not be had, nor the counter; the group lock is at the address
    that is returned. *)
Definition pj_grp_lock_create (pool_ok : bool) (rc_atomic : Z) (w : world) : option (Z * Z * world) :=
  if negb pool_ok then Some (PJ_ENOMEM, 0, w) else
  '(pool, w) ← alloc w;
  '(glock, w) ← alloc w;
  let w := set_locks w (<[glock := mk_lock grp_lock_template glock]> (locks w)) in
  let w := set_glock w glock (mk_glock pool None 0 0 0 [] []) in
  if negb (rc_atomic =? PJ_SUCCESS) then
    '(_, w) ← grp_lock_destroy call glock w; Some (rc_atomic, 0, w) else
  let w := set_glock w glock (mk_glock pool (Some 0) 0 0 0 [] []) in
  '(status, own, w) ← pj_lock_create_recursive_mutex w;
  if negb (status =? PJ_SUCCESS) then
    '(_, w) ← grp_lock_destroy call glock w; Some (status, 0, w) else
  '(_, w) ← alloc w;
  Some (PJ_SUCCESS, glock, set_glock w glock (mk_glock pool (Some 0) own 0 0 [(0, own)] [])).

Definition add_handler (g comp handler : Z) (acquire_lock : bool) (w : world) : option (Z * world) :=
  w ← (if acquire_lock then '(_, w) ← grp_lock_acquire call g w; Some w else Some w);
  '(_, w) ← alloc w;
  r ← glocks w !! g;
  let w := set_glock w g (with_handlers r (destroy_list r ++ [(comp, handler)])) in
  w ← (if acquire_lock then '(_, w) ← grp_lock_release call g w; Some w else Some w);
  Some (PJ_SUCCESS, w).

Definition pj_grp_lock_create_w_handler (pool_ok : bool) (rc_atomic member handler : Z) (w : world)
    : option (Z * Z * world) :=
  '(status, g, w) ← pj_grp_lock_create pool_ok rc_atomic w;
  if status =? PJ_SUCCESS then '(_, w) ← add_handler g member handler false w; Some (status, g, w)
  else Some (status, g, w).

Definition pj_grp_lock_destroy (g : Z) (w : world) := grp_lock_destroy call g w.
Definition pj_grp_lock_acquire (g : Z) (w : world) := grp_lock_acquire call g w.
Definition pj_grp_lock_tryacquire (g : Z) (w : world) := grp_lock_tryacquire call g w.
Definition pj_grp_lock_release (g : Z) (w : world) := grp_lock_release call g w.
Definition pj_grp_lock_add_ref (g : Z) (w : world) := grp_lock_add_ref g w.
Definition pj_grp_lock_dec_ref (g : Z) (w : world) := grp_lock_dec_ref call g w.

Definition pj_grp_lock_get_ref (g : Z) (w : world) : option Z := r ← glocks w !! g; ref_cnt r.

(** The callbacks of the old lock, each with a node of its own. *)
Fixpoint copy_handlers (cbs : list (Z * Z)) (new_lock : Z) (w : world) : option world :=
  match cbs with
  | [] => Some w
  | cb :: cbs =>
      '(_, w) ← alloc w;
      r ← glocks w !! new_lock;
      copy_handlers cbs new_lock (set_glock w new_lock (with_handlers r (destroy_list r ++ [cb])))
  end.

Definition pj_grp_lock_replace (old_lock new_lock : Z) (w : world) : option (Z * world) :=
  r ← glocks w !! old_lock;
  w ← copy_handlers (destroy_list r) new_lock w;
  r ← glocks w !! old_lock;
  '(_, w) ← grp_lock_destroy call old_lock (set_glock w old_lock (with_handlers r []));
  Some (PJ_SUCCESS, w).

Definition pj_grp_lock_add_handler (g comp handler : Z) (w : world) := add_handler g comp handler true w.

(** The first of the nodes is taken out. *)
Fixpoint remove_first (cb : Z * Z) (cbs : list (Z * Z)) : list (Z * Z) :=
  match cbs with
  | [] => []
  | c :: cbs => if decide (c = cb) then cbs else c :: remove_first cb cbs
  end.

Definition pj_grp_lock_del_handler (g comp handler : Z) (w : world) : option (Z * world) :=
  '(_, w) ← grp_lock_acquire call g w;
  r ← glocks w !! g;
  let w := set_glock w g (with_handlers r (remove_first (comp, handler) (destroy_list r))) in
  '(_, w) ← grp_lock_release call g w;
  Some (PJ_SUCCESS, w).

(** Before the first item whose priority is not below [pos]. *)
Fixpoint insert_item (pos l : Z) (items : list (Z * Z)) : list (Z * Z) :=
  match items with
  | [] => [(pos, l)]
  | (prio, l') :: items => if pos <=? prio then (pos, l) :: (prio, l') :: items else (prio, l') :: insert_item pos l items
  end.

Definition pj_grp_lock_chain_lock (g l pos : Z) (w : world) : option (Z * world) :=
  '(_, w) ← grp_lock_acquire call g w;
  r ← glocks w !! g;
  w ← each (call acquire) (replicate (Z.to_nat (owner_cnt r)) l) w;
  '(_, w) ← alloc w;
  r ← glocks w !! g;
  let w := set_glock w g (with_items r (insert_item pos l (lock_list r))) in
  '(_, w) ← grp_lock_release call g w;
  Some (PJ_SUCCESS, w).

(** The first item with the lock is taken out. *)
Fixpoint remove_item (l : Z) (items : list (Z * Z)) : option (list (Z * Z)) :=
  match items with
  | [] => None
  | (prio, l') :: items => if l' =? l then Some items else cons (prio, l') <$> remove_item l items
  end.

Definition pj_grp_lock_unchain_lock (g l : Z) (w : world) : option (Z * world) :=
  '(_, w) ← grp_lock_acquire call g w;
  r ← glocks w !! g;
  w ← match remove_item l (lock_list r) with
      | Some items =>
          '(_, w) ← release_times call (owner_cnt r) l (set_glock w g (with_items r items)); Some w
      | None => Some w
      end;
  '(_, w) ← grp_lock_release call g w;
  Some (PJ_SUCCESS, w).
End group.
End lock.
