(* ===== verification/GrpLockSpec.v ===== *)
(** * Group locks: specification

    What a lock promises ([lawful]) and that a group lock of lawful locks keeps
    the promise, so that group locks can be chained to group locks; the life of a
    group lock by its reference counter; the order in which locks are chained. *)
From S2P Require Import Prelude GrpLock.

(** ** What the system promises

    A mutex or semaphore that is taken can be given back, which undoes the taking;
    an attempt always returns: it takes the object as waiting for it would, or
    changes nothing. *)
Class SystemLockLaws (OS : Type) `{SystemLocks OS} (th : Z) : Prop := {
  mutex_lock_law m o s o' : pj_mutex_lock th m o = Some (s, o') -> s = PJ_SUCCESS /\ pj_mutex_unlock th m o' = Some (PJ_SUCCESS, o);
  mutex_try_law m o : exists s o', pj_mutex_trylock th m o = Some (s, o') /\
    (if s =? PJ_SUCCESS then pj_mutex_lock th m o = Some (PJ_SUCCESS, o') else o' = o);
  sem_wait_law m o s o' : pj_sem_wait m o = Some (s, o') -> s = PJ_SUCCESS /\ pj_sem_post m o' = Some (PJ_SUCCESS, o);
  sem_try_law m o : exists s o', pj_sem_trywait m o = Some (s, o') /\
    (if s =? PJ_SUCCESS then pj_sem_wait m o = Some (PJ_SUCCESS, o') else o' = o)
}.

Section laws.
Context {OS : Type} `{SystemLocks OS} (th : Z) `{!SystemLockLaws OS th}.
Abbreviation world := (GrpLock.world OS).

(** The world with the records [m] in place of those of some group locks. *)
Definition over (m : gmap Z pj_grp_lock_t) (w : world) : world := set_glocks w (m ∪ glocks w).

Lemma over_empty w : over ∅ w = w.
Proof. unfold over, set_glocks. rewrite (left_id_L ∅ (∪)). by destruct w. Qed.

Lemma over_set m (w : world) g r : set_glock (over m w) g r = over (<[g := r]> m) w.
Proof. unfold over, set_glock, set_glocks. simpl. by rewrite insert_union_l. Qed.

Lemma set_glock_over (w : world) g r : set_glock w g r = over {[g := r]} w.
Proof. rewrite <- (over_empty w) at 1. rewrite over_set. by rewrite insert_empty. Qed.

Lemma over_lookup m (w : world) g r : m !! g = Some r -> glocks (over m w) !! g = Some r.
Proof. intros E. simpl. by apply lookup_union_Some_l. Qed.

Lemma over_lookup_none m (w : world) g : m !! g = None -> glocks (over m w) !! g = glocks w !! g.
Proof. intros E. simpl. by rewrite lookup_union_r. Qed.

Lemma over_same m (w : world) g r : m !! g = None -> glocks w !! g = Some r -> over (<[g := r]> m) w = over m w.
Proof.
  intros Hm Hw. unfold over. f_equal. rewrite <- insert_union_l, insert_id; [done|]. by rewrite lookup_union_r.
Qed.

Lemma over_twice m (w : world) g r : m !! g = None -> over m (set_glock w g r) = over (<[g := r]> m) w.
Proof.
  intros Hm. unfold over, set_glock, set_glocks. simpl. f_equal. by rewrite <- insert_union_r, insert_union_l.
Qed.

(** ** What a lock promises

    In the states [I]: acquiring the lock, if that returns, keeps to [I] and
    leaves the group locks [gs] alone, and releasing it then leads back, whatever
    has happened to those group locks in between; an attempt that succeeds takes
    the lock as waiting for it would, one that fails changes nothing. *)
Definition undone_by (gs : gset Z) (rel : world -> option (Z * world)) (w w' : world) : Prop :=
  (forall g, g ∈ gs -> glocks w' !! g = glocks w !! g) /\
  forall m, dom m ⊆ gs -> rel (over m w') = Some (PJ_SUCCESS, over m w).

Record lawful (gs : gset Z) (I : world -> Prop) (call : lock_fn -> world -> option (Z * world)) : Prop := {
  lw_acquire w s w' : I w -> call acquire w = Some (s, w') -> s = PJ_SUCCESS /\ I w' /\ undone_by gs (call release) w w';
  lw_try w s w' : I w -> call tryacquire w = Some (s, w') ->
    if s =? PJ_SUCCESS then call acquire w = Some (PJ_SUCCESS, w') else w' = w
}.

Lemma set_glock_id (w : world) g r : glocks w !! g = Some r -> set_glock w g r = w.
Proof. intros E. unfold set_glock, set_glocks. rewrite insert_id by done. by destruct w. Qed.

Lemma set_glock_twice (w : world) g r r' : set_glock (set_glock w g r) g r' = set_glock w g r'.
Proof. unfold set_glock, set_glocks. simpl. by rewrite insert_insert_eq. Qed.

Lemma set_glock_lookup (w : world) g r : glocks (set_glock w g r) !! g = Some r.
Proof. apply lookup_insert_eq. Qed.

(** ** The locks of a group, one after the other *)

Section group.
Context (I : world -> Prop) (call : lock_fn -> Z -> world -> option (Z * world)).

Lemma each_app (f : Z -> world -> option (Z * world)) l1 l2 w : each f (l1 ++ l2) w = each f l1 w ≫= each f l2.
Proof. revert w. induction l1 as [|l l1 IH]; intros w; [done|]. cbn [each app]. destruct (f l w) as [[s w']|]; simpl; [apply IH|done]. Qed.

Lemma each_one (f : Z -> world -> option (Z * world)) l w : each f [l] w = snd <$> f l w.
Proof. simpl. by destruct (f l w) as [[s w']|]. Qed.

(** Releasing the locks [ls], in this order, undoes what led from [w] to [w']. *)
Definition all_undone (gs : gset Z) (ls : list Z) (w w' : world) : Prop :=
  (forall g, g ∈ gs -> glocks w' !! g = glocks w !! g) /\
  forall m, dom m ⊆ gs -> each (call release) ls (over m w') = Some (over m w).

Lemma all_undone_nil gs w : all_undone gs [] w w.
Proof. done. Qed.

Lemma all_undone_cons gs l ls w w1 w2 :
  all_undone gs ls w w1 -> undone_by gs (call release l) w1 w2 -> all_undone gs (l :: ls) w w2.
Proof.
  intros [G1 R1] [G2 R2]. split; [intros g Hg; by rewrite G2, G1|]. intros m Hm. cbn [each]. rewrite R2 by done.
  rewrite bind_some_eq. cbv beta iota. by apply R1.
Qed.

Lemma all_undone_exact gs ls w w' : all_undone gs ls w w' -> each (call release) ls w' = Some w.
Proof. intros [_ R]. rewrite <- (over_empty w), <- (over_empty w'). apply R. by rewrite dom_empty_L. Qed.

(** Acquiring all of them, and releasing all of them in the other order. *)
Lemma each_undo gs ls taken w0 w w' :
  Forall (fun l => lawful gs I (fun f => call f l)) ls -> I w -> all_undone gs taken w0 w -> each (call acquire) ls w = Some w' ->
  I w' /\ all_undone gs (reverse ls ++ taken) w0 w'.
Proof.
  intros Hls. revert taken w. induction Hls as [|l ls Hl Hls IH]; intros taken w Hi Ht; cbn [each].
  { by intros [= <-]. }
  destruct (call acquire l w) as [[s w1]|] eqn:E1; [|done]. rewrite bind_some_eq. cbv beta iota. intros E2.
  destruct (lw_acquire _ _ _ Hl w s w1 Hi E1) as (_ & Hi1 & R1).
  rewrite reverse_cons, <- app_assoc. apply (IH (l :: taken) w1 Hi1); [|done]. by apply (all_undone_cons gs l taken w0 w w1).
Qed.

(** An attempt on all of them takes all of them or none. *)
Lemma try_each_spec gs ls taken w0 w failed w' :
  Forall (fun l => lawful gs I (fun f => call f l)) ls -> I w -> all_undone gs taken w0 w -> try_each call ls taken w = Some (failed, w') ->
  match failed with
  | Some s => s <> PJ_SUCCESS /\ w' = w0
  | None => each (call acquire) ls w = Some w'
  end.
Proof.
  intros Hls. revert taken w. induction Hls as [|l ls Hl Hls IH]; intros taken w Hi Ht; cbn [try_each].
  { intros [= <- <-]. done. }
  destruct (call tryacquire l w) as [[s w1]|] eqn:E1; [|done]. rewrite bind_some_eq. cbv beta iota.
  pose proof (lw_try _ _ _ Hl w s w1 Hi E1) as L. destruct (Z.eqb_spec s PJ_SUCCESS) as [->|Hs]; cbn [negb].
  - destruct (lw_acquire _ _ _ Hl w _ w1 Hi L) as (_ & Hi1 & R1). intros E. cbn [each]. rewrite L, bind_some_eq. cbv beta iota.
    apply (IH (l :: taken) w1); [done| |done]. by apply (all_undone_cons gs l taken w0 w w1).
  - subst w1. rewrite (all_undone_exact gs taken w0 w Ht). bind_step. by intros [= <- <-].
Qed.

(** ** The group lock itself *)

(** The group lock is in use, with these locks: somebody holds a reference, and
    the owner is known exactly when the lock is held. *)
Record in_use (ls : list Z) (r : pj_grp_lock_t) : Prop := {
  iu_ref : exists n, ref_cnt r = Some n /\ 0 < n;
  iu_owner : (owner r = 0 /\ owner_cnt r = 0) \/ (owner r <> 0 /\ 0 < owner_cnt r);
  iu_list : chained r = ls
}.

(** In the states [I] the group lock [g] is in use, and [I] asks no more of it. *)
Record covers (g : Z) (ls : list Z) : Prop := {
  cv_use w : I w -> exists r, glocks w !! g = Some r /\ in_use ls r;
  cv_keep w r : I w -> in_use ls r -> I (set_glock w g r)
}.

(** The record of the lock when it is acquired once more. *)
Record entered (r r' : pj_grp_lock_t) : Prop := {
  en_ref : exists n, ref_cnt r = Some n /\ ref_cnt r' = Some (n + 1);
  en_cnt : owner_cnt r' = owner_cnt r + 1;
  en_owner : owner r' = if owner r =? 0 then th else owner r;
  en_rest : with_owner r' 0 0 = with_owner (with_ref r (default 0 (ref_cnt r'))) 0 0
}.

Lemma entered_in_use ls r r' : th <> 0 -> entered r r' -> in_use ls r -> in_use ls r'.
Proof.
  intros Hth [(n & Hn & Hn') Hc Ho Hr] [(k & Hk & Hp) Hoc Hl]. split.
  - exists (n + 1). split; [done|]. simplify_eq. lia.
  - right. rewrite Ho, Hc. destruct (Z.eqb_spec (owner r) 0); split; (done || lia).
  - rewrite <- Hl. apply (f_equal lock_list) in Hr. unfold chained. simpl in Hr. by rewrite Hr.
Qed.

(** What [grp_lock_acquire] does with the record when it has the locks. *)
Lemma enter_spec g ls r (w : world) s w' :
  glocks w !! g = Some r -> in_use ls r -> grp_lock_enter th g w = Some (s, w') ->
  s = PJ_SUCCESS /\ exists r', w' = set_glock w g r' /\ entered r r'.
Proof.
  intros Hg [(n & Hn & Hpos) Ho Hl]. unfold grp_lock_enter, grp_lock_set_owner_thread. rewrite Hg. bind_step.
  assert (forall o c : Z, (o = if owner r =? 0 then th else owner r) -> c = owner_cnt r + 1 ->
    (w ← Some (set_glock w g (with_owner r o c)); '(_, w) ← grp_lock_add_ref g w; Some (PJ_SUCCESS, w)) = Some (s, w') ->
    s = PJ_SUCCESS /\ exists r', w' = set_glock w g r' /\ entered r r') as Hgo.
  { intros o c Eo Ec. bind_step. unfold grp_lock_add_ref. rewrite set_glock_lookup. bind_step. cbn [ref_cnt with_owner].
    rewrite Hn. bind_step. destruct (n =? INT_MAX); [done|]. rewrite bind_some_eq. cbv beta iota. intros [= <- <-]. split; [done|].
    eexists. split; [apply set_glock_twice|]. split; simpl; [by exists n|done|done|done]. }
  destruct (Z.eqb_spec (owner r) 0) as [E|E].
  - apply Hgo; [done|]. destruct Ho as [[_ ->]|[]]; done.
  - destruct (owner_cnt r =? INT_MAX); [done|]. by apply Hgo.
Qed.

(** Giving back one acquisition of a lock in use. *)
Lemma leave_spec gs g ls (w0 w1 : world) r r' m :
  all_undone ({[g]} ∪ gs) (reverse ls) w0 w1 -> g ∉ gs -> dom m ⊆ gs ->
  glocks w0 !! g = Some r -> in_use ls r -> entered r r' ->
  grp_lock_release call g (over m (set_glock w1 g r')) = Some (PJ_SUCCESS, over m w0).
Proof.
  intros [_ R] Hgs Hm Hg [(k & Hk & Hp) Hoc Hl] [(n & Hn & Hn') Hc Ho Hr]. rewrite Hn in Hk. injection Hk as <-. subst ls.
  assert (m !! g = None) as Hmg by (apply not_elem_of_dom; intros Hin; by apply Hgs, Hm).
  assert (forall r, dom (<[g := r]> m) ⊆ {[g]} ∪ gs) as Hd by (intros; rewrite dom_insert_L; by apply union_mono_l).
  rewrite over_twice by done. unfold grp_lock_release, grp_lock_unset_owner_thread.
  rewrite (over_lookup _ _ g r') by apply lookup_insert_eq. bind_step. rewrite Hc.
  assert ((if owner_cnt r + 1 - 1 <=? 0 then Some (set_glock (over (<[g := r']> m) w1) g (with_owner r' 0 0))
    else Some (set_glock (over (<[g := r']> m) w1) g (with_owner r' (owner r') (owner_cnt r + 1 - 1)))) =
    Some (over (<[g := with_ref r (n + 1)]> m) w1)) as ->.
  { rewrite !over_set, !insert_insert_eq. rewrite Hn' in Hr. simpl in Hr. destruct r, r'; unfold with_owner, with_ref in *; simpl in *.
    injection Hr as -> -> -> -> ->. rewrite Ho. destruct Hoc as [[-> ->]|[H1 H2]]; [done|].
    rewrite (proj2 (Z.leb_gt _ _)) by lia. rewrite (proj2 (Z.eqb_neq _ _) H1). do 4 f_equal. lia. }
  bind_step. rewrite (over_lookup _ _ g (with_ref r (n + 1))) by apply lookup_insert_eq. bind_step.
  change (chained (with_ref r (n + 1))) with (chained r). rewrite R by apply Hd. bind_step.
  unfold grp_lock_dec_ref. rewrite (over_lookup _ _ g (with_ref r (n + 1))) by apply lookup_insert_eq. bind_step. cbn [ref_cnt with_ref].
  bind_step. replace (n + 1 - 1) with n by lia. rewrite (proj2 (Z.eqb_neq n 0)) by lia.
  rewrite over_set, insert_insert_eq. do 2 f_equal.
  assert (with_ref (with_ref r (n + 1)) n = r) as -> by (destruct r; simpl in *; by subst). by apply over_same.
Qed.

(** The functions that the [pj_lock_t] of a group lock holds. *)
Definition group_call (g : Z) (f : lock_fn) (w : world) : option (Z * world) :=
  match f with
  | acquire => grp_lock_acquire th call g w
  | tryacquire => grp_lock_tryacquire th call g w
  | release => grp_lock_release call g w
  | destroy => grp_lock_destroy call g w
  end.

(** With all of its locks and one more entry, the group lock is acquired. *)
Lemma entered_undone gs g ls w w1 r r' :
  th <> 0 -> g ∉ gs -> covers g ls -> I w1 -> all_undone ({[g]} ∪ gs) (reverse ls) w w1 ->
  glocks w !! g = Some r -> in_use ls r -> entered r r' ->
  I (set_glock w1 g r') /\ undone_by gs (group_call g release) w (set_glock w1 g r').
Proof.
  intros Hth Hgs Hcv Hi Hu Hg Huse Hen. split; [|split].
  - apply (cv_keep _ _ Hcv); [done|]. by apply (entered_in_use ls r).
  - intros g' Hg'. simpl. rewrite lookup_insert_ne by (by intros ->). apply Hu. apply elem_of_union. by right.
  - intros m Hm. by apply (leave_spec gs g ls w w1 r r').
Qed.

(** A group lock of lawful locks is a lawful lock. *)
Lemma group_lawful gs g ls :
  th <> 0 -> g ∉ gs -> covers g ls -> Forall (fun l => lawful ({[g]} ∪ gs) I (fun f => call f l)) ls ->
  lawful gs I (group_call g).
Proof.
  intros Hth Hgs Hcv Hls. split; intros w s w' Hi; destruct (cv_use _ _ Hcv w Hi) as (r & Hg & Huse); cbn [group_call].
  - unfold grp_lock_acquire. rewrite Hg. bind_step. rewrite (iu_list _ _ Huse).
    destruct (each (call acquire) ls w) as [w1|] eqn:E; [|done]. bind_step.
    destruct (each_undo _ ls [] w w w1 Hls Hi (all_undone_nil _ w) E) as [Hi1 Hu]. rewrite app_nil_r in Hu.
    assert (glocks w1 !! g = Some r) as Hg1 by (rewrite <- Hg; apply Hu, elem_of_union; left; by apply elem_of_singleton).
    intros En. destruct (enter_spec g ls r w1 s w' Hg1 Huse En) as (-> & r' & -> & Hen). split; [done|].
    by apply (entered_undone gs g ls w w1 r r').
  - unfold grp_lock_tryacquire, grp_lock_acquire. rewrite Hg, !bind_some_eq. rewrite (iu_list _ _ Huse).
    destruct (try_each call ls [] w) as [[failed w1]|] eqn:E; [|done]. rewrite bind_some_eq. cbv beta iota.
    pose proof (try_each_spec _ ls [] w w failed w1 Hls Hi (all_undone_nil _ w) E) as Ht. destruct failed as [st|].
    + intros [= <- <-]. destruct Ht as [Hst' ->]. by rewrite (proj2 (Z.eqb_neq _ _) Hst').
    + rewrite Ht, bind_some_eq. destruct (each_undo _ ls [] w w w1 Hls Hi (all_undone_nil _ w) Ht) as [_ Hu].
      assert (glocks w1 !! g = Some r) as Hg1 by (rewrite <- Hg; apply Hu, elem_of_union; left; by apply elem_of_singleton).
      intros En. pose proof (enter_spec g ls r w1 s w' Hg1 Huse En) as (-> & _). done.
Qed.
End group.

(** ** Locks of the system *)

(** The [pj_lock_t]s at the addresses of [M] are as [M] says. *)
Definition knows (M : gmap Z pj_lock_t) (w : world) : Prop := M ⊆ locks w.

(** Conditions that calls of the system and changes of other group locks keep. *)
Definition system_keeps (I : world -> Prop) : Prop := forall w o, I w -> I (set_os w o).

(** A lock whose functions are calls of the system that undo each other. *)
Lemma os_lawful gs M I (acq try rel : OS -> option (Z * OS)) (call : lock_fn -> world -> option (Z * world)) :
  (forall w, I w -> knows M w) -> system_keeps I ->
  (forall w, knows M w -> call acquire w = on_os acq w /\ call tryacquire w = on_os try w /\ call release w = on_os rel w) ->
  (forall o s o', acq o = Some (s, o') -> s = PJ_SUCCESS /\ rel o' = Some (PJ_SUCCESS, o)) ->
  (forall o, exists s o', try o = Some (s, o') /\ if s =? PJ_SUCCESS then acq o = Some (PJ_SUCCESS, o') else o' = o) ->
  lawful gs I call.
Proof.
  intros Hkn Hkeep Hc Ha Ht. split; intros w s w' Hi; destruct (Hc w (Hkn w Hi)) as (E1 & E2 & _); rewrite ?E1, ?E2; unfold on_os.
  - destruct (acq (os w)) as [[s1 o1]|] eqn:E; [|done]. simpl. intros [= <- <-].
    destruct (Ha _ _ _ E) as [-> R]. split; [done|]. split; [by apply Hkeep|]. split; [done|]. intros m _.
    destruct (Hc (over m (set_os w o1)) (Hkn w Hi)) as (_ & _ & ->). unfold on_os. simpl. rewrite R. simpl. by destruct w.
  - destruct (Ht (os w)) as (s1 & o1 & E & R). rewrite E. simpl. intros [= <- <-].
    destruct (s1 =? PJ_SUCCESS); [by rewrite R|]. subst o1. by destruct w.
Qed.

Definition base (M : gmap Z pj_lock_t) (l : Z) : Prop :=
  l <> 0 /\ exists p, M !! l = Some p /\ template p <> grp_lock_template.

Lemma base_lawful gs M I l fuel :
  (forall w, I w -> knows M w) -> system_keeps I -> base M l -> lawful gs I (fun f => pj_lock_call th (S fuel) f l).
Proof.
  intros Hkn Hkeep (Hl & p & Hp & Ht).
  assert (forall w, knows M w -> locks w !! l = Some p) as Hk by (intros w Hk; by apply (lookup_weaken M)).
  assert (forall f w, knows M w -> pj_lock_call th (S fuel) f l w = match template p, f with
    | mutex_lock_template, acquire => on_os (pj_mutex_lock th (lock_object p)) w
    | mutex_lock_template, tryacquire => on_os (pj_mutex_trylock th (lock_object p)) w
    | mutex_lock_template, release => on_os (pj_mutex_unlock th (lock_object p)) w
    | mutex_lock_template, destroy => on_os (pj_mutex_destroy (lock_object p)) w
    | sem_lock_template, acquire => on_os (pj_sem_wait (lock_object p)) w
    | sem_lock_template, tryacquire => on_os (pj_sem_trywait (lock_object p)) w
    | sem_lock_template, release => on_os (pj_sem_post (lock_object p)) w
    | sem_lock_template, destroy => on_os (pj_sem_destroy (lock_object p)) w
    | _, _ => Some (PJ_SUCCESS, w) end) as Hcall.
  { intros f w Hw. cbn [pj_lock_call]. rewrite (proj2 (Z.eqb_neq l 0) Hl), (Hk w Hw). bind_step. by destruct (template p), f. }
  destruct (template p) eqn:Et; [| | |done].
  - apply (os_lawful gs M I (pj_mutex_lock th (lock_object p)) (pj_mutex_trylock th (lock_object p)) (pj_mutex_unlock th (lock_object p)));
      [done|done| |apply mutex_lock_law|apply mutex_try_law]. intros w Hw. by rewrite !Hcall.
  - split; intros w s w' Hw; cbv beta.
    + rewrite (Hcall acquire w (Hkn w Hw)). intros [= <- <-]. split; [done|]. split; [done|]. split; [done|]. intros m _.
      by rewrite (Hcall release (over m w) (Hkn w Hw)).
    + rewrite (Hcall tryacquire w (Hkn w Hw)), (Hcall acquire w (Hkn w Hw)). by intros [= <- <-].
  - apply (os_lawful gs M I (pj_sem_wait (lock_object p)) (pj_sem_trywait (lock_object p)) (pj_sem_post (lock_object p)));
      [done|done| |apply sem_wait_law|apply sem_try_law]. intros w Hw. by rewrite !Hcall.
Qed.

(** ** Locks chained to any depth *)

(** [M] are the locks, [G] the locks chained to each group lock; a group lock is
    chained to group locks of higher rank only. *)
Record nested (M : gmap Z pj_lock_t) (G : gmap Z (list Z)) (rank : Z -> nat) : Prop := {
  ne_group g ls : G !! g = Some ls -> g <> 0 /\ M !! g = Some (mk_lock grp_lock_template g);
  ne_items g ls l : G !! g = Some ls -> l ∈ ls -> base M l \/ is_Some (G !! l) /\ (rank l < rank g)%nat
}.

(** The locks are known and the group locks are in use. *)
Definition all_in_use (M : gmap Z pj_lock_t) (G : gmap Z (list Z)) (w : world) : Prop :=
  knows M w /\ forall g ls, G !! g = Some ls -> exists r, glocks w !! g = Some r /\ in_use ls r.

Lemma all_in_use_covers M G g ls : G !! g = Some ls -> covers (all_in_use M G) g ls.
Proof.
  intros Hg. split; [intros w [_ Hu]; by apply Hu|]. intros w r [Hk Hu] Hr. split; [done|]. intros g' ls' Hg'. simpl.
  destruct (decide (g' = g)) as [->|Hne]; [rewrite lookup_insert_eq; simplify_eq; by exists r|].
  rewrite lookup_insert_ne by done. by apply Hu.
Qed.

Lemma all_in_use_system M G : system_keeps (all_in_use M G).
Proof. intros w o Hi. exact Hi. Qed.

Lemma call_group M g fuel f w :
  g <> 0 -> M !! g = Some (mk_lock grp_lock_template g) -> knows M w ->
  pj_lock_call th (S fuel) f g w = group_call (pj_lock_call th fuel) g f w.
Proof.
  intros Hg HM Hk. cbn [pj_lock_call]. rewrite (proj2 (Z.eqb_neq g 0) Hg), (lookup_weaken _ _ _ _ HM Hk). bind_step. by destruct f.
Qed.

Lemma nested_lawful M G rank l gs fuel :
  th <> 0 -> nested M G rank -> is_Some (G !! l) -> (forall g, g ∈ gs -> (rank l < rank g)%nat) -> (S (rank l) < fuel)%nat ->
  lawful gs (all_in_use M G) (fun f => pj_lock_call th fuel f l).
Proof.
  intros Hth Hne. remember (rank l) as n eqn:En. revert l gs fuel En.
  induction (lt_wf n) as [n _ IH]. intros l gs fuel En [ls HG] Hgs Hf. destruct fuel as [|fuel]; [lia|].
  destruct (ne_group _ _ _ Hne l ls HG) as [Hl0 HM].
  assert (lawful gs (all_in_use M G) (group_call (pj_lock_call th fuel) l)) as Hg.
  { apply (group_lawful _ _ _ _ ls); [done| |by apply all_in_use_covers|].
    - intros Hin. apply Hgs in Hin. lia.
    - apply Forall_forall. intros l' Hl'. destruct (ne_items _ _ _ Hne l ls l' HG Hl') as [Hb|[HG' Hr]].
      + destruct fuel as [|fuel]; [lia|]. apply (base_lawful _ M); [by intros w []|apply all_in_use_system|done].
      + apply (IH (rank l')); [lia|done|done| |lia]. intros g [->%elem_of_singleton|Hin]%elem_of_union; [lia|]. apply Hgs in Hin. lia. }
  pose proof (fun f w => call_group M l fuel f w Hl0 HM) as Hc.
  destruct Hg as [Ha Ht]. split; intros w s w' Hi; destruct (Hi) as [Hk _].
  - rewrite (Hc acquire w Hk). intros E. destruct (Ha w s w' Hi E) as (-> & Hi' & [U1 U2]). split; [done|]. split; [done|].
    split; [done|]. intros m Hm. rewrite (Hc release (over m w')) by (by destruct Hi'). by apply U2.
  - rewrite (Hc tryacquire w Hk), (Hc acquire w Hk). by apply Ht.
Qed.

Lemma nested_exact M G rank g fuel w s w' :
  th <> 0 -> nested M G rank -> is_Some (G !! g) -> (S (rank g) < fuel)%nat -> all_in_use M G w ->
  pj_lock_acquire th fuel g w = Some (s, w') ->
  s = PJ_SUCCESS /\ all_in_use M G w' /\ pj_lock_release th fuel g w' = Some (PJ_SUCCESS, w).
Proof.
  intros Hth Hne Hg Hf Hi E. pose proof (nested_lawful M G rank g ∅ fuel Hth Hne Hg ltac:(by intros ? ?%elem_of_empty) Hf) as [Ha _].
  destruct (Ha w s w' Hi E) as (-> & Hi' & [_ U]). split; [done|]. split; [done|].
  rewrite <- (over_empty w), <- (over_empty w'). apply U. by rewrite dom_empty_L.
Qed.

(** An attempt on locks of the system always returns. *)
Lemma base_try_total M l fuel w : base M l -> knows M w -> is_Some (pj_lock_call th (S fuel) tryacquire l w).
Proof.
  intros (Hl & p & Hp & Ht) Hk. cbn [pj_lock_call]. rewrite (proj2 (Z.eqb_neq l 0) Hl), (lookup_weaken _ _ _ _ Hp Hk). bind_step.
  destruct (template p); [| |  |done]; unfold on_os; [| by eexists |].
  - destruct (mutex_try_law (lock_object p) (os w)) as (s & o & -> & _). by eexists.
  - destruct (sem_try_law (lock_object p) (os w)) as (s & o & -> & _). by eexists.
Qed.

Lemma try_each_total M ls taken w0 w fuel :
  Forall (base M) ls -> knows M w -> all_undone (pj_lock_call th (S fuel)) ∅ taken w0 w ->
  is_Some (try_each (pj_lock_call th (S fuel)) ls taken w).
Proof.
  intros Hls. revert taken w. induction Hls as [|l ls Hl Hls IH]; intros taken w Hk Ht; cbn [try_each]; [by eexists|].
  destruct (base_try_total M l fuel w Hl Hk) as [[s w1] E]. rewrite E, bind_some_eq. cbv beta iota.
  pose proof (base_lawful ∅ M (knows M) l fuel (fun w H => H) (fun w o H => H) Hl) as [La Lt].
  pose proof (Lt w s w1 Hk E) as L. destruct (Z.eqb_spec s PJ_SUCCESS) as [->|Hs]; cbn [negb].
  - destruct (La w _ w1 Hk L) as (_ & Hk1 & R1). apply IH; [done|]. by apply (all_undone_cons _ ∅ l taken w0 w w1).
  - subst w1. rewrite (all_undone_exact _ _ _ _ _ Ht). by eexists.
Qed.

Lemma enter_total g ls r (w : world) :
  glocks w !! g = Some r -> in_use ls r -> owner_cnt r < INT_MAX -> default 0 (ref_cnt r) < INT_MAX -> is_Some (grp_lock_enter th g w).
Proof.
  intros Hg [(n & Hn & Hp) Ho _] Hc Hr. rewrite Hn in Hr. simpl in Hr. unfold grp_lock_enter, grp_lock_set_owner_thread.
  rewrite Hg. bind_step. rewrite (proj2 (Z.eqb_neq (owner_cnt r) INT_MAX)) by lia.
  destruct (owner r =? 0); bind_step; unfold grp_lock_add_ref; rewrite set_glock_lookup; bind_step; cbn [ref_cnt with_owner];
    rewrite Hn; bind_step; rewrite (proj2 (Z.eqb_neq n INT_MAX)) by lia; by eexists.
Qed.

(** C34 A group lock is a lock, also when group locks are chained to group locks,
    to any depth.  Acquiring it, when that returns, takes every lock of the group,
    and releasing it leads back to exactly the state before; an attempt either
    acquires it or changes nothing, with every lock it had taken on the way given
    back; and an attempt on a group of mutexes and semaphores always returns. *)
Theorem grp_lock_is_lock M G rank g ls fuel w :
  th <> 0 -> nested M G rank -> G !! g = Some ls -> (S (rank g) < fuel)%nat -> all_in_use M G w ->
  (forall s w', pj_lock_acquire th fuel g w = Some (s, w') ->
     s = PJ_SUCCESS /\ all_in_use M G w' /\ pj_lock_release th fuel g w' = Some (PJ_SUCCESS, w)) /\
  (forall s w', pj_lock_tryacquire th fuel g w = Some (s, w') ->
     if s =? PJ_SUCCESS then pj_lock_acquire th fuel g w = Some (PJ_SUCCESS, w') else w' = w) /\
  (Forall (base M) ls -> (forall r, glocks w !! g = Some r -> owner_cnt r < INT_MAX /\ default 0 (ref_cnt r) < INT_MAX) ->
     is_Some (pj_lock_tryacquire th fuel g w)).
Proof.
  intros Hth Hne Hg Hf Hi. split; [|split].
  - intros s w' E. by apply (nested_exact M G rank g fuel w s w').
  - pose proof (nested_lawful M G rank g ∅ fuel Hth Hne (mk_is_Some _ _ Hg) ltac:(by intros ? ?%elem_of_empty) Hf) as [_ Ht].
    intros s w' E. by apply (Ht w s w' Hi).
  - intros Hb Hmax. destruct fuel as [|[|fuel]]; [lia|lia|]. destruct (ne_group _ _ _ Hne g ls Hg) as [Hg0 HM].
    destruct Hi as [Hk Hu]. destruct (Hu g ls Hg) as (r & Hr & Huse). destruct (Hmax r Hr) as [Hc Hn].
    unfold pj_lock_tryacquire. rewrite (call_group M) by done. cbn [group_call]. unfold grp_lock_tryacquire. rewrite Hr. bind_step.
    rewrite (iu_list _ _ Huse).
    destruct (try_each_total M ls [] w w fuel Hb Hk ltac:(done)) as [[failed w1] E]. rewrite E, bind_some_eq. cbv beta iota.
    destruct failed as [st|]; [by eexists|].
    assert (Forall (fun l => lawful {[g]} (knows M) (fun f => pj_lock_call th (S fuel) f l)) ls) as Hl
      by (apply (Forall_impl _ _ _ Hb); intros l Hl; exact (base_lawful _ M (knows M) l fuel (fun w H => H) (fun w o H => H) Hl)).
    pose proof (try_each_spec (knows M) _ _ ls [] w w None w1 Hl Hk ltac:(done) E) as Ht.
    destruct (each_undo (knows M) _ _ ls [] w w w1 Hl Hk ltac:(done) Ht) as [_ [Hu1 _]].
    apply (enter_total g ls r); [|done|done|done]. rewrite Hu1; [done|by apply elem_of_singleton].
Qed.

(** ** The life of a group lock *)

Lemma each_none (f : Z -> world -> option (Z * world)) ls w : (forall l w, f l w = Some (PJ_SUCCESS, w)) -> each f ls w = Some w.
Proof. intros Hf. induction ls as [|l ls IH]; [done|]. cbn [each]. rewrite Hf. exact IH. Qed.

Lemma call_handlers_spec cbs (w : world) :
  call_handlers cbs w = mk_world (os w) (locks w) (glocks w) (next_addr w) (free_mem w) (handled w ++ cbs).
Proof.
  revert w. induction cbs as [|cb cbs IH]; intros w; cbn [call_handlers]; [rewrite app_nil_r; by destruct w|].
  rewrite IH. simpl. by rewrite <- app_assoc.
Qed.

(** Giving up a reference: while others are left the counter goes down and
    nothing else happens; with the last one of a lock that nobody holds, every
    callback is called once, in the order of registration, the mutex of the lock
    is destroyed, and the lock is gone, so that no later call can use it. *)
Theorem grp_dec_ref_spec fuel g r n (w : world) :
  glocks w !! g = Some r -> ref_cnt r = Some n -> 0 < n -> g_pool r <> 0 ->
  (1 < n -> pj_grp_lock_dec_ref (pj_lock_call th fuel) g w = Some (PJ_SUCCESS, set_glock w g (with_ref r (n - 1)))) /\
  (forall m s o, n = 1 -> owner_cnt r = 0 -> (0 < fuel)%nat -> own_lock r <> 0 ->
     locks w !! own_lock r = Some (mk_lock mutex_lock_template m) -> pj_mutex_destroy m (os w) = Some (s, o) ->
     exists w', pj_grp_lock_dec_ref (pj_lock_call th fuel) g w = Some (PJ_EGONE, w') /\
       handled w' = handled w ++ destroy_list r /\ os w' = o /\
       glocks w' = delete g (glocks w) /\ locks w' = delete (own_lock r) (delete g (locks w)) /\
       grp_lock_acquire th (pj_lock_call th fuel) g w' = None /\ grp_lock_add_ref g w' = None).
Proof.
  intros Hg Hn Hpos Hpool. unfold pj_grp_lock_dec_ref, grp_lock_dec_ref. rewrite Hg, !bind_some_eq, Hn, !bind_some_eq. split.
  { intros H1. rewrite (proj2 (Z.eqb_neq (n - 1) 0)) by lia. done. }
  intros m s o -> Hc Hf Hown Hm Hd. change (1 - 1 =? 0) with true. cbv iota. unfold grp_lock_destroy. rewrite set_glock_lookup. bind_step.
  cbn [g_pool with_ref own_lock owner_cnt destroy_list]. rewrite (proj2 (Z.eqb_neq _ _) Hpool), Hc.
  rewrite each_none by done. bind_step. rewrite call_handlers_spec. destruct fuel as [|fuel]; [lia|]. cbn [pj_lock_call].
  rewrite (proj2 (Z.eqb_neq _ _) Hown). cbn [locks]. change (locks (set_glock w g (with_ref r (1 - 1)))) with (locks w). rewrite Hm. bind_step.
  cbn [template lock_object]. unfold on_os. cbn [os]. change (os (set_glock w g (with_ref r (1 - 1)))) with (os w). rewrite Hd.
  repeat (rewrite bind_some_eq; cbv beta iota).
  eexists. split; [done|]. cbn. split; [done|]. split; [done|].
  assert (delete g (<[g := with_ref r (1 - 1)]> (glocks w)) = delete g (glocks w)) as Hdel by apply delete_insert_eq.
  split; [exact Hdel|]. split; [done|]. unfold grp_lock_acquire, grp_lock_add_ref. cbn. by rewrite lookup_delete_eq.
Qed.

(** Nothing is known about the addresses to come. *)
Definition fresh_ahead (w : world) : Prop :=
  0 < next_addr w /\ forall a, a = 0 \/ next_addr w <= a -> locks w !! a = None /\ glocks w !! a = None.

(** Destroying a group lock that was never finished. *)
Lemma destroy_unfinished fuel g pool rc (w : world) :
  pool <> 0 -> (0 < fuel)%nat -> glocks w !! g = Some (mk_glock pool rc 0 0 0 [] []) ->
  grp_lock_destroy (pj_lock_call th fuel) g w =
    Some (PJ_SUCCESS, set_locks (set_glocks w (delete g (glocks w))) (delete 0 (delete g (locks w)))).
Proof.
  intros Hp Hf Hg. unfold grp_lock_destroy. rewrite Hg. bind_step. cbn [g_pool own_lock owner_cnt destroy_list chained lock_list].
  rewrite (proj2 (Z.eqb_neq pool 0) Hp). destruct fuel as [|fuel]; [lia|]. reflexivity.
Qed.

Lemma alloc_eq (o : OS) lk gk na n hd :
  alloc (mk_world o lk gk na (S n) hd) = Some (na, mk_world o lk gk (na + 1) n hd).
Proof. done. Qed.

(** Creating a group lock either gives a lock that is not held, has no
    reference and holds its own recursive mutex only, leaving the other locks as
    they were, or fails and leaves every lock as it was. *)
Theorem grp_create_spec fuel pool_ok rc_atomic (w : world) :
  fresh_ahead w -> (4 <= free_mem w)%nat -> (0 < fuel)%nat ->
  exists st g w', pj_grp_lock_create (pj_lock_call th fuel) pool_ok rc_atomic w = Some (st, g, w') /\ handled w' = handled w /\
  if st =? PJ_SUCCESS then
    exists own m, pj_mutex_create PJ_MUTEX_RECURSE (os w) = (PJ_SUCCESS, m, os w') /\
      g <> own /\ locks w !! g = None /\ locks w !! own = None /\ glocks w !! g = None /\
      glocks w' = <[g := mk_glock (next_addr w) (Some 0) own 0 0 [(0, own)] []]> (glocks w) /\
      locks w' = <[own := mk_lock mutex_lock_template m]> (<[g := mk_lock grp_lock_template g]> (locks w))
  else glocks w' = glocks w /\ locks w' = locks w.
Proof.
  intros [Hpos Hfr] Hmem Hf. unfold pj_grp_lock_create. destruct pool_ok; cbn [negb]; [|by eexists _, _, _].
  destruct w as [o lk gk na fm hd]. cbn [next_addr free_mem locks glocks os handled] in *.
  destruct fm as [|[|[|[|fm]]]]; [lia..|]. do 2 (rewrite alloc_eq, bind_some_eq; cbv beta iota).
  unfold set_glock, set_glocks, set_locks. cbn [locks glocks os next_addr free_mem handled].
  destruct (Hfr (na + 1)) as [Hl1 Hg1]; [lia|]. destruct (Hfr (na + 1 + 1)) as [Hl2 Hg2]; [lia|]. destruct (Hfr 0) as [Hl0 _]; [lia|].
  assert (forall r1 r2, delete (na + 1) (<[na + 1 := r1]> (<[na + 1 := r2]> gk)) = gk) as Dg2
    by (intros; rewrite delete_insert_eq, delete_insert_id by done; done).
  assert (forall r, delete (na + 1) (<[na + 1 := r]> gk) = gk) as Dg by (intros; by rewrite delete_insert_id).
  assert (forall p, delete 0 (delete (na + 1) (<[na + 1 := p]> lk)) = lk) as Dl by (intros; rewrite delete_insert_id by done; by apply delete_id).
  destruct (negb (rc_atomic =? PJ_SUCCESS)) eqn:Ea.
  - rewrite (destroy_unfinished fuel (na + 1) na None) by (lia || apply lookup_insert_eq). rewrite bind_some_eq. cbv beta iota.
    apply negb_true_iff in Ea. eexists _, _, _. split; [done|]. split; [done|]. rewrite Ea. cbn. by rewrite Dg, Dl.
  - unfold pj_lock_create_recursive_mutex, create_mutex_lock. rewrite alloc_eq, bind_some_eq. cbv beta iota. cbn [os]. destruct (pj_mutex_create PJ_MUTEX_RECURSE o) as [[rc m] o'] eqn:Em.
    destruct (negb (rc =? PJ_SUCCESS)) eqn:Er; rewrite bind_some_eq; cbv beta iota.
    + rewrite Er. rewrite (destroy_unfinished fuel (na + 1) na (Some 0)) by (lia || apply lookup_insert_eq). rewrite bind_some_eq. cbv beta iota.
      apply negb_true_iff in Er. eexists _, _, _. split; [done|]. split; [done|]. rewrite Er. cbn. by rewrite Dg2, Dl.
    + apply negb_false_iff, Z.eqb_eq in Er. subst rc. cbn [negb Z.eqb]. unfold alloc. cbn. eexists _, _, _. split; [done|]. cbn. split; [done|].
      exists (na + 1 + 1), m. split; [done|]. split; [lia|]. split; [done|]. split; [done|]. split; [done|].
      split; [by rewrite !insert_insert_eq|done].
Qed.

(** ** The order of the chain *)

Lemma insert_item_perm pos l items : insert_item pos l items ≡ₚ (pos, l) :: items.
Proof.
  induction items as [|[prio l'] items IH]; [done|]. simpl. destruct (pos <=? prio); [done|]. rewrite IH. by constructor.
Qed.

(** Chaining keeps the items in the order of their priorities; taking the lock
    out again gives the chain as it was. *)
Lemma chain_order pos l items :
  StronglySorted (fun x y => x.1 <= y.1) items ->
  StronglySorted (fun x y => x.1 <= y.1) (insert_item pos l items) /\
  (l ∉ items.*2 -> remove_item l (insert_item pos l items) = Some items).
Proof.
  intros Hs. split.
  - induction Hs as [|[prio l'] items Hs IH Hall]; simpl; [repeat constructor|]. destruct (Z.leb_spec pos prio) as [Hp|Hp].
    + constructor; [by constructor|]. constructor; [done|]. apply (Forall_impl _ _ _ Hall). simpl. intros; lia.
    + constructor; [done|]. rewrite insert_item_perm. constructor; [simpl; lia|done].
  - clear Hs. induction items as [|[prio l'] items IH]; simpl; intros Hl; [by rewrite Z.eqb_refl|].
    apply not_elem_of_cons in Hl as [Hne Hl]. destruct (pos <=? prio); simpl; [by rewrite Z.eqb_refl|].
    rewrite (proj2 (Z.eqb_neq l' l)) by done. by rewrite IH.
Qed.
End laws.
