(* ===== verification/GrpLockExamples.v ===== *)
(** * Group locks: examples

    A system with recursive mutexes and counting semaphores, which keeps the
    promise that the group locks rely on, and the theorems at concrete locks. *)
From S2P Require Import Prelude GrpLock GrpLockSpec.

(** The holder of each mutex that is held, with the number of times it took the
    mutex again; the counts of the semaphores. *)
Record sys := mk_sys { holders : gmap Z (Z * nat); counts : gmap Z nat; next_obj : Z }.

Definition EBUSY : Z := 120016.
Definition EPERM : Z := 120001.

Definition take_mutex (th m : Z) (o : sys) : option sys :=
  match holders o !! m with
  | None => Some (mk_sys (<[m := (th, O)]> (holders o)) (counts o) (next_obj o))
  | Some (t, d) => if t =? th then Some (mk_sys (<[m := (t, S d)]> (holders o)) (counts o) (next_obj o)) else None
  end.

Definition give_mutex (th m : Z) (o : sys) : option sys :=
  match holders o !! m with
  | Some (t, d) =>
      if t =? th then
        Some (mk_sys (match d with O => delete m (holders o) | S d => <[m := (t, d)]> (holders o) end) (counts o) (next_obj o))
      else None
  | None => None
  end.

Definition take_sem (m : Z) (o : sys) : option sys :=
  match counts o !! m with
  | Some (S n) => Some (mk_sys (holders o) (<[m := n]> (counts o)) (next_obj o))
  | _ => None
  end.

Definition try_ (f : sys -> option sys) (o : sys) : option (Z * sys) :=
  match f o with Some o' => Some (PJ_SUCCESS, o') | None => Some (EBUSY, o) end.

#[export] Instance sys_locks : SystemLocks sys := {
  pj_mutex_create _ o := (PJ_SUCCESS, next_obj o, mk_sys (holders o) (counts o) (next_obj o + 1));
  pj_mutex_lock th m o := o' ← take_mutex th m o; Some (PJ_SUCCESS, o');
  pj_mutex_trylock th m := try_ (take_mutex th m);
  pj_mutex_unlock th m o := match give_mutex th m o with Some o' => Some (PJ_SUCCESS, o') | None => Some (EPERM, o) end;
  pj_mutex_destroy m o := Some (PJ_SUCCESS, mk_sys (delete m (holders o)) (counts o) (next_obj o));
  pj_sem_create initial _ o :=
    (PJ_SUCCESS, next_obj o, mk_sys (holders o) (<[next_obj o := Z.to_nat initial]> (counts o)) (next_obj o + 1));
  pj_sem_wait m o := o' ← take_sem m o; Some (PJ_SUCCESS, o');
  pj_sem_trywait m := try_ (take_sem m);
  pj_sem_post m o :=
    match counts o !! m with
    | Some n => Some (PJ_SUCCESS, mk_sys (holders o) (<[m := S n]> (counts o)) (next_obj o))
    | None => Some (PJ_EINVAL, o)
    end;
  pj_sem_destroy m o := Some (PJ_SUCCESS, mk_sys (holders o) (delete m (counts o)) (next_obj o))
}.

Lemma give_take th m o o' : take_mutex th m o = Some o' -> give_mutex th m o' = Some o.
Proof.
  destruct o as [hs cs no]. unfold take_mutex, give_mutex. simpl. destruct (hs !! m) as [[t d]|] eqn:E.
  - destruct (Z.eqb_spec t th) as [->|]; [|done]. intros [= <-]. simpl. rewrite lookup_insert_eq, Z.eqb_refl.
    by rewrite insert_insert_eq, insert_id.
  - intros [= <-]. simpl. rewrite lookup_insert_eq, Z.eqb_refl. by rewrite delete_insert_id.
Qed.

#[export] Instance sys_lock_laws th : SystemLockLaws sys th.
Proof.
  split.
  - intros m o s o'. simpl. destruct (take_mutex th m o) as [o1|] eqn:E; [|done]. simpl. intros [= <- <-].
    by rewrite (give_take th m o o1 E).
  - intros m o. simpl. unfold try_. destruct (take_mutex th m o) as [o1|] eqn:E; by eexists _, _.
  - intros m o s o'. simpl. unfold take_sem. destruct o as [hs cs no]. simpl. destruct (cs !! m) as [[|n]|] eqn:E; [done| |done].
    simpl. intros [= <- <-]. simpl. by rewrite lookup_insert_eq, insert_insert_eq, insert_id.
  - intros m o. simpl. unfold try_. destruct (take_sem m o) as [o1|] eqn:E; by eexists _, _.
Qed.

(** Two mutexes, a group lock 21 with the first one, and a group lock 22 with the
    second one and the first group lock. *)
Definition ex_locks : gmap Z pj_lock_t :=
  {[11 := mk_lock mutex_lock_template 1; 12 := mk_lock mutex_lock_template 2;
    21 := mk_lock grp_lock_template 21; 22 := mk_lock grp_lock_template 22]}.
Definition ex_groups : gmap Z (list Z) := {[21 := [11]; 22 := [12; 21]]}.
Definition ex_rank (g : Z) : nat := if g =? 22 then 1%nat else 0%nat.
Definition ex_world : world sys :=
  mk_world (mk_sys ∅ ∅ 3) ex_locks
    {[21 := mk_glock 31 (Some 1) 11 0 0 [(0, 11)] [(5, 6)];
      22 := mk_glock 32 (Some 1) 12 0 0 [(0, 12); (3, 21)] [(7, 8); (9, 10)]]} 100 10 [].

Lemma ex_groups_inv g ls : ex_groups !! g = Some ls -> (g = 21 /\ ls = [11]) \/ (g = 22 /\ ls = [12; 21]).
Proof.
  unfold ex_groups. intros [[<- <-]|[_ [<- <-]%lookup_singleton_Some]]%lookup_insert_Some; [by left|by right].
Qed.

Lemma ex_nested : nested ex_locks ex_groups ex_rank.
Proof.
  split.
  - intros g ls [[-> ->]|[-> ->]]%ex_groups_inv; split; (done || reflexivity).
  - intros g ls l [[-> ->]|[-> ->]]%ex_groups_inv; [intros ->%list_elem_of_singleton|intros [->|[->|[]%elem_of_nil]%elem_of_cons]%elem_of_cons].
    + left. split; [done|]. by eexists.
    + left. split; [done|]. by eexists.
    + right. split; [by eexists|]. vm_compute. lia.
Qed.

Lemma ex_in_use : all_in_use ex_locks ex_groups ex_world.
Proof.
  split; [change (ex_locks ⊆ ex_locks); reflexivity|]. intros g ls [[-> ->]|[-> ->]]%ex_groups_inv; eexists; (split; [reflexivity|]);
    (split; [exists 1; done|by left|reflexivity]).
Qed.

Lemma grp_lock_is_lock_witness :
  exists w', pj_lock_acquire 1 3 22 ex_world = Some (PJ_SUCCESS, w') /\ pj_lock_release 1 3 22 w' = Some (PJ_SUCCESS, ex_world).
Proof.
  destruct (grp_lock_is_lock 1 ex_locks ex_groups ex_rank 22 [12; 21] 3 ex_world ltac:(discriminate) ex_nested eq_refl ltac:(vm_compute; lia) ex_in_use)
    as (H1 & _ & _).
  destruct (pj_lock_acquire 1 3 22 ex_world) as [[s w']|] eqn:E; [|vm_compute in E; discriminate].
  destruct (H1 s w' eq_refl) as (-> & _ & H2). exists w'. split; [reflexivity|exact H2].
Defined.

Lemma grp_dec_ref_spec_witness :
  exists w', pj_grp_lock_dec_ref (pj_lock_call 1 3) 22 ex_world = Some (PJ_EGONE, w') /\ handled w' = [(7, 8); (9, 10)].
Proof.
  destruct (grp_dec_ref_spec 1 3 22 (mk_glock 32 (Some 1) 12 0 0 [(0, 12); (3, 21)] [(7, 8); (9, 10)]) 1 ex_world eq_refl eq_refl
    ltac:(lia) ltac:(discriminate)) as [_ H].
  destruct (H 2 _ _ eq_refl eq_refl ltac:(lia) ltac:(discriminate) eq_refl eq_refl) as (w' & H1 & H2 & _).
  exists w'. split; [exact H1|exact H2].
Defined.

Lemma grp_create_spec_witness :
  exists st g w', pj_grp_lock_create (pj_lock_call 1 3) true 0 ex_world = Some (st, g, w') /\ handled w' = [].
Proof.
  destruct (grp_create_spec 1 3 true 0 ex_world) as (st & g & w' & H1 & H2 & _).
  - split; [reflexivity|]. intros a Ha. simpl in Ha. assert (a <> 11 /\ a <> 12 /\ a <> 21 /\ a <> 22) as (H1 & H2 & H3 & H4) by lia.
    split; simpl; [unfold ex_locks|]; rewrite ?lookup_insert_ne, lookup_singleton_ne by (intros E; subst; lia); done.
  - simpl. lia.
  - lia.
  - exists st, g, w'. split; [exact H1|exact H2].
Defined.
