(* ===== verification/GrpLockThreads.v ===== *)
(** * Group locks between threads

    The operations of a group lock ([lock.c]) as several threads execute them,
    one call of another function at a time.  The list of the group is the linked
    list of the code: an item that has been erased points to itself, and a thread
    that waits for the lock of an item goes on from there.  The locks are
    recursive mutexes, each with its holder and depth: a thread that wants one
    that another thread holds waits, and giving back a mutex that one does not
    hold has no effect.  Lock 0 and item 0 are the group's own, which the
    application cannot name; the other locks may be taken directly, too.

    A thread gives back only what it has taken; other than that the threads may
    do anything at any time: acquire, try, change the list, count references, or
    destroy the lock by force.  Using the lock after it has been destroyed is
    recorded in [bad].  The counters are integers without a bound. *)
From S2P Require Import Prelude.
#[local] Open Scope nat_scope.

(** ** Data *)

(** What a thread is doing: [cur] is the item its pointer [lck] is at, and none
    at the head of the list. *)
Inductive activity :=
  | Idle
  | Acquiring (cur : option nat)
  | Trying (cur : option nat)
  | Undoing (cur : option nat)
  | Counting
  | Releasing (cur : option nat)
  | Wanting (l : nat)
  | Chaining (l : nat) (pos : Z) (i : Z)
  | Unchaining (l : nat) (i : Z).

#[export] Instance activity_eq_dec : EqDecision activity.
Proof. solve_decision. Defined.

(** [grp_lock_item]. *)
Record item := mk_item { i_lock : nat; i_prio : Z }.

(** A thread: how often it has acquired the group lock, the references that it
    holds besides, the locks it has taken directly, what it is doing, and whether
    that has taken the group's own lock and not given it back. *)
Record thr := mk_thr { level : nat; refs : nat; dirs : list nat; act : activity; got : bool }.

Record cfg := mk_cfg {
  threads : list thr;
  locks : list (option (nat * nat));
  items : list item;
  lock_list : list nat;
  c_owner : option nat;
  c_cnt : Z;
  c_ref : Z;
  gone : bool;
  bad : bool
}.

Definition set_threads (x : list thr) (c : cfg) : cfg :=
  mk_cfg x (locks c) (items c) (lock_list c) (c_owner c) (c_cnt c) (c_ref c) (gone c) (bad c).
Definition set_locks (x : list (option (nat * nat))) (c : cfg) : cfg :=
  mk_cfg (threads c) x (items c) (lock_list c) (c_owner c) (c_cnt c) (c_ref c) (gone c) (bad c).
Definition set_list (its : list item) (l : list nat) (c : cfg) : cfg :=
  mk_cfg (threads c) (locks c) its l (c_owner c) (c_cnt c) (c_ref c) (gone c) (bad c).
Definition set_owned (o : option nat) (n : Z) (c : cfg) : cfg :=
  mk_cfg (threads c) (locks c) (items c) (lock_list c) o n (c_ref c) (gone c) (bad c).
Definition set_ref (n : Z) (g : bool) (c : cfg) : cfg :=
  mk_cfg (threads c) (locks c) (items c) (lock_list c) (c_owner c) (c_cnt c) n g (bad c).
Definition set_bad (c : cfg) : cfg :=
  mk_cfg (threads c) (locks c) (items c) (lock_list c) (c_owner c) (c_cnt c) (c_ref c) (gone c) true.

Definition set_act (a : activity) (b : bool) (x : thr) : thr := mk_thr (level x) (refs x) (dirs x) a b.
Definition set_level (n : nat) (x : thr) : thr := mk_thr n (refs x) (dirs x) (act x) (got x).
Definition set_refs (n : nat) (x : thr) : thr := mk_thr (level x) n (dirs x) (act x) (got x).
Definition set_dirs (l : list nat) (x : thr) : thr := mk_thr (level x) (refs x) l (act x) (got x).

Definition put (t : nat) (x : thr) (c : cfg) : cfg := set_threads (<[t := x]> (threads c)) c.

(** ** Mutexes *)

(** [None]: the thread waits. *)
Definition mutex_lock (t : nat) (h : option (nat * nat)) : option (option (nat * nat)) :=
  match h with
  | None => Some (Some (t, 1))
  | Some (t', d) => if t' =? t then Some (Some (t, S d)) else None
  end.

Definition mutex_unlock (t : nat) (h : option (nat * nat)) : option (nat * nat) :=
  match h with
  | Some (t', S (S d)) => if t' =? t then Some (t', S d) else h
  | Some (t', _) => if t' =? t then None else h
  | None => None
  end.

Definition take_lock (t l : nat) (c : cfg) : option cfg :=
  h ← locks c !! l;
  h ← mutex_lock t h;
  Some (set_locks (<[l := h]> (locks c)) c).

Definition give_lock (t l : nat) (c : cfg) : option cfg :=
  h ← locks c !! l;
  Some (set_locks (<[l := mutex_unlock t h]> (locks c)) c).

(** ** The list of the group *)

(** The item behind [i] in the list, none for the head of the list; [None]
    when [i] is not in the list. *)
Fixpoint next_in (l : list nat) (i : nat) : option (option nat) :=
  match l with
  | [] => None
  | j :: l => if j =? i then Some (head l) else next_in l i
  end.

(** [lck->next] and [lck->prev]; [pj_list_erase] makes an item point to itself. *)
Definition next (c : cfg) (i : nat) : option nat := default (Some i) (next_in (lock_list c) i).
Definition prev (c : cfg) (i : nat) : option nat := default (Some i) (next_in (rev (lock_list c)) i).

Definition first (c : cfg) : option nat := head (lock_list c).
Definition final (c : cfg) : option nat := head (rev (lock_list c)).

(** The new item goes before the first one with at least its priority. *)
Fixpoint insert_item (its : list item) (pos : Z) (n : nat) (l : list nat) : list nat :=
  match l with
  | [] => [n]
  | j :: l' =>
      match its !! j with
      | Some it => if (pos <=? i_prio it)%Z then n :: l else j :: insert_item its pos n l'
      | None => n :: l
      end
  end.

(** The first item with the lock. *)
Fixpoint item_of (its : list item) (lock : nat) (l : list nat) : option nat :=
  match l with
  | [] => None
  | j :: l =>
      match its !! j with
      | Some it => if i_lock it =? lock then Some j else item_of its lock l
      | None => item_of its lock l
      end
  end.

Definition erase_item (i : nat) (l : list nat) : list nat := filter (fun j => j <> i) l.

(** ** The parts of the operations *)

Definition grp_lock_set_owner_thread (t : nat) (c : cfg) : cfg :=
  match c_owner c with
  | None => set_owned (Some t) 1 c
  | Some _ => set_owned (c_owner c) (c_cnt c + 1) c
  end.

Definition grp_lock_unset_owner_thread (c : cfg) : cfg :=
  if (c_cnt c - 1 <=? 0)%Z then set_owned None 0 c else set_owned (c_owner c) (c_cnt c - 1) c.

Definition grp_lock_add_ref (c : cfg) : cfg := set_ref (c_ref c + 1) (gone c) c.

(** The release of a chained lock [owner_cnt] times by the thread. *)
Fixpoint give_times (n : nat) (t l : nat) (c : cfg) : option cfg :=
  match n with
  | O => Some c
  | S n => c ← give_lock t l c; give_times n t l c
  end.

Fixpoint give_chained (t : nat) (l : list nat) (c : cfg) : option cfg :=
  match l with
  | [] => Some c
  | i :: l =>
      it ← items c !! i;
      c ← (if i_lock it =? 0 then Some c else give_times (Z.to_nat (c_cnt c)) t (i_lock it) c);
      give_chained t l c
  end.

(** The callbacks of the destruction are those of [GrpLock]; here it is the end
    of the lock. *)
Definition grp_lock_destroy (t : nat) (c : cfg) : option cfg :=
  c ← give_chained t (lock_list c) c; Some (set_ref (c_ref c) true c).

Definition grp_lock_dec_ref (t : nat) (c : cfg) : option cfg :=
  let c := set_ref (c_ref c - 1) (gone c) c in
  if (c_ref c =? 0)%Z then grp_lock_destroy t c else Some c.

(** ** Steps *)

(** What a thread may begin, and [Go], the next call of what it is doing. *)
Inductive action :=
  | Acquire | TryAcquire | Release | AddRef | DecRef | Give (t' : nat)
  | Lock (l : nat) | Unlock (l : nat) | Chain (l : nat) (pos : Z) | Unchain (l : nat) | Destroy
  | Go.

Definition with_act (t : nat) (x : thr) (a : activity) (b : bool) (c : cfg) : cfg := put t (set_act a b x) c.

(** The next call in the loop of [grp_lock_acquire], and what comes after it. *)
Definition acquire_step (t : nat) (x : thr) (cur : option nat) (c : cfg) : option cfg :=
  match cur with
  | Some i =>
      it ← items c !! i;
      c' ← take_lock t (i_lock it) c;
      Some (with_act t x (Acquiring (next c i)) (got x || (i =? 0)) c')
  | None => Some (with_act t x Counting (got x) (grp_lock_set_owner_thread t c))
  end.

(** In [grp_lock_tryacquire]: a lock that another thread holds ends the attempt,
    and those before it are given back. *)
Definition tryacquire_step (t : nat) (x : thr) (cur : option nat) (c : cfg) : option cfg :=
  match cur with
  | Some i =>
      it ← items c !! i;
      match take_lock t (i_lock it) c with
      | Some c' => Some (with_act t x (Trying (next c i)) (got x || (i =? 0)) c')
      | None => Some (with_act t x (Undoing (prev c i)) (got x) c)
      end
  | None => Some (with_act t x Counting (got x) (grp_lock_set_owner_thread t c))
  end.

Definition undo_step (t : nat) (x : thr) (cur : option nat) (c : cfg) : option cfg :=
  match cur with
  | Some i =>
      it ← items c !! i;
      c' ← give_lock t (i_lock it) c;
      Some (with_act t x (Undoing (prev c i)) (got x && negb (i =? 0)) c')
  | None => Some (with_act t x Idle (got x) c)
  end.

(** In [grp_lock_release]. *)
Definition release_step (t : nat) (x : thr) (cur : option nat) (c : cfg) : option cfg :=
  match cur with
  | Some i =>
      it ← items c !! i;
      c' ← give_lock t (i_lock it) c;
      Some (with_act t x (Releasing (prev c i)) (got x && negb (i =? 0)) c')
  | None =>
      c' ← grp_lock_dec_ref t c;
      Some (put t (set_act Idle (got x) (set_level (level x - 1) x)) c')
  end.

(** In [pj_grp_lock_chain_lock] and [pj_grp_lock_unchain_lock], between the
    acquisition and the release of the group lock. *)
Definition chain_step (t : nat) (x : thr) (l : nat) (pos i : Z) (c : cfg) : option cfg :=
  if (i <? c_cnt c)%Z then
    c' ← take_lock t l c; Some (with_act t x (Chaining l pos (i + 1)) (got x) c')
  else
    Some (with_act t x Idle (got x)
      (set_list (items c ++ [mk_item l pos]) (insert_item (items c) pos (length (items c)) (lock_list c)) c)).

Definition unchain_start (t : nat) (x : thr) (l : nat) (c : cfg) : cfg :=
  match item_of (items c) l (lock_list c) with
  | None => c
  | Some i => with_act t x (Unchaining l 0) false (set_list (items c) (erase_item i (lock_list c)) c)
  end.

Definition unchain_step (t : nat) (x : thr) (l : nat) (i : Z) (c : cfg) : option cfg :=
  if (i <? c_cnt c)%Z then
    c' ← give_lock t l c; Some (with_act t x (Unchaining l (i + 1)) (got x) c')
  else Some (with_act t x Idle (got x) c).

(** The next call of the operation that the thread [x] is in. *)
Definition go (t : nat) (x : thr) (c : cfg) : option cfg :=
  match act x with
  | Idle => None
  | Acquiring cur => acquire_step t x cur c
  | Trying cur => tryacquire_step t x cur c
  | Undoing cur => undo_step t x cur c
  | Counting => Some (put t (set_act Idle false (set_level (S (level x)) x)) (grp_lock_add_ref c))
  | Releasing cur => release_step t x cur c
  | Wanting l => c' ← take_lock t l c; Some (put t (set_act Idle (got x) (set_dirs (l :: dirs x) x)) c')
  | Chaining l pos i => chain_step t x l pos i c
  | Unchaining l i => unchain_step t x l i c
  end.

Fixpoint remove_one (l : nat) (ls : list nat) : list nat :=
  match ls with
  | [] => []
  | x :: ls => if x =? l then ls else x :: remove_one l ls
  end.

(** What an idle thread begins.  The changes of the list are made by a thread
    that is inside, as [pj_grp_lock_chain_lock] and [pj_grp_lock_unchain_lock]
    acquire the lock first. *)
Definition begin (t : nat) (x : thr) (a : action) (c : cfg) : option cfg :=
  match a with
  | Acquire => Some (with_act t x (Acquiring (first c)) false c)
  | TryAcquire => Some (with_act t x (Trying (first c)) false c)
  | Release => if level x =? 0 then None else
      Some (with_act t x (Releasing (final c)) true (grp_lock_unset_owner_thread c))
  | AddRef => Some (put t (set_refs (S (refs x)) x) (grp_lock_add_ref c))
  | DecRef => c' ← grp_lock_dec_ref t c; Some (put t (set_refs (refs x - 1) x) c')
  | Give t' =>
      if (refs x =? 0) || (t' =? t) then None else
      x' ← threads c !! t';
      Some (put t' (set_refs (S (refs x')) x') (put t (set_refs (refs x - 1) x) c))
  | Lock l => if (l =? 0) || (length (locks c) <=? l) then None else Some (with_act t x (Wanting l) false c)
  | Unlock l => if (l =? 0) || negb (bool_decide (l ∈ dirs x)) then None else
      c' ← give_lock t l c; Some (put t (set_dirs (remove_one l (dirs x)) x) c')
  | Chain l pos => if (l =? 0) || (length (locks c) <=? l) || (level x =? 0) then None else
      Some (with_act t x (Chaining l pos 0) false c)
  | Unchain l => if (l =? 0) || (level x =? 0) then None else Some (unchain_start t x l c)
  | Destroy => c' ← grp_lock_destroy t c; Some c'
  | Go => None
  end.

(** Whether the step touches the memory of the group lock. *)
Definition uses_group (x : thr) (a : action) : bool :=
  match a, act x with
  | (Lock _ | Unlock _ | Give _), _ => false
  | Go, Wanting _ => false
  | _, _ => true
  end.

Definition attempt (t : nat) (x : thr) (a : action) (c : cfg) : option cfg :=
  match a, act x with
  | Go, _ => go t x c
  | _, Idle => begin t x a c
  | _, _ => None
  end.

Definition step (c : cfg) (t : nat) (a : action) : option cfg :=
  x ← threads c !! t;
  c' ← attempt t x a c;
  Some (if gone c && uses_group x a then set_bad c else c').

(** ** Runs *)

(** The steps that a rule allows. *)
Definition steps (ok : cfg -> nat -> action -> Prop) (c c' : cfg) : Prop :=
  exists t a, ok c t a /\ step c t a = Some c'.

Definition reachable (ok : cfg -> nat -> action -> Prop) (c0 c : cfg) : Prop := rtc (steps ok) c0 c.

Definition anything (c : cfg) (t : nat) (a : action) : Prop := True.

(** The use that the documentation asks for: the lock is used only by who holds
    a reference, its own or that of having acquired it, and references are given
    up only by who holds them; the first one is taken when the lock has been
    created, with the counter at 0; and nobody destroys it by force. *)
Definition polite (c : cfg) (t : nat) (a : action) : Prop :=
  match threads c !! t with
  | None => False
  | Some x =>
      match a with
      | Acquire | TryAcquire => 0 < level x + refs x
      | AddRef => 0 < level x + refs x \/ c_ref c = 0%Z /\ gone c = false
      | DecRef => 0 < refs x
      | Destroy => False
      | _ => True
      end
  end.

(** The list of the group is left as it is. *)
Definition calm (c : cfg) (t : nat) (a : action) : Prop :=
  match a with Chain _ _ | Unchain _ => False | _ => polite c t a end.

(** A group lock that has just been set up, with [n] locks, in front of [m]
    threads; the list is one that has the group's own item once. *)
Definition start (m n : nat) (its : list item) (l : list nat) : cfg :=
  mk_cfg (replicate m (mk_thr 0 0 [] Idle false)) (replicate n None) its l None 0 0 false false.

Record setup_ok (n : nat) (its : list item) (l : list nat) : Prop := {
  su_nodup : NoDup l;
  su_own : 0 ∈ l;
  su_items i : i ∈ l -> i < length its;
  su_locks i it : its !! i = Some it -> i_lock it < n /\ (i_lock it = 0 <-> i = 0)
}.

(** A schedule: which thread does what, in this order. *)
Fixpoint run (sched : list (nat * action)) (c : cfg) : option cfg :=
  match sched with
  | [] => Some c
  | (t, a) :: sched => c ← step c t a; run sched c
  end.
