(* ===== verification/GrpLockThreadsSpec.v ===== *)
(** * Group locks between threads: specification

    Mutual exclusion, whatever the threads do with the lock and with its list
    until it is destroyed; and the meaning of the reference counter for threads
    that use the lock as they are told to; by induction over the steps. *)
From S2P Require Import Prelude GrpLockThreads.
#[local] Open Scope nat_scope.

(** ** The list *)

(** The group's own item is [i] or behind it. *)
Fixpoint ahead (l : list nat) (i : nat) : bool :=
  match l with
  | [] => false
  | j :: l' => if j =? i then bool_decide (0 ∈ l) else ahead l' i
  end.

Lemma next_in_some l i : i ∈ l -> exists j, next_in l i = Some j.
Proof.
  induction l as [|k l IH]; intros Hi; [by apply elem_of_nil in Hi|]. simpl.
  destruct (Nat.eqb_spec k i) as [|Hne]; [by eauto|]. apply IH. by apply elem_of_cons in Hi as [->|].
Qed.

Lemma next_in_none l i : i ∉ l -> next_in l i = None.
Proof.
  induction l as [|k l IH]; [done|]. intros [Hk Hl]%not_elem_of_cons. simpl.
  destruct (Nat.eqb_spec k i); [congruence|by apply IH].
Qed.

Lemma next_in_mem l i j : next_in l i = Some (Some j) -> j ∈ l.
Proof.
  induction l as [|k l IH]; [done|]. simpl. destruct (k =? i).
  - destruct l; [done|]. intros [= ->]. right. by left.
  - intros H. right. by apply IH.
Qed.

(** Going on from [i] passes the own item if it is [i]. *)
Lemma ahead_next l i j : NoDup l -> next_in l i = Some j ->
  match j with
  | Some j => ahead l j = ahead l i && negb (i =? 0)
  | None => ahead l i = (i =? 0)
  end.
Proof.
  induction 1 as [|k l Hk Hnd IH]; [done|]. cbn [next_in ahead].
  destruct (Nat.eqb_spec k i) as [->|Hne].
  - intros [= <-]. destruct l as [|j l]; simpl.
    + apply eq_bool_prop_intro. rewrite bool_decide_spec, Is_true_true, Nat.eqb_eq, list_elem_of_singleton. done.
    + apply not_elem_of_cons in Hk as [Hij Hl]. destruct (Nat.eqb_spec i j); [done|]. rewrite Nat.eqb_refl.
      destruct (Nat.eqb_spec i 0) as [->|Hi]; cbn [negb]; [rewrite andb_false_r|rewrite andb_true_r].
      * apply bool_decide_eq_false_2. intros [|]%elem_of_cons; done.
      * apply bool_decide_ext. rewrite (elem_of_cons (j :: l)). naive_solver.
  - intros Hn. specialize (IH Hn). destruct j as [j|]; [|done].
    apply next_in_mem in Hn. destruct (Nat.eqb_spec k j) as [->|]; done.
Qed.

Lemma ahead_head l i : 0 ∈ l -> head l = Some i -> ahead l i = true.
Proof. destruct l as [|j l]; [done|]. intros H [= ->]. simpl. rewrite Nat.eqb_refl. by apply bool_decide_eq_true_2. Qed.

Lemma ahead_own l : 0 ∈ l -> ahead l 0 = true.
Proof.
  induction l as [|j l IH]; intros H; [by apply elem_of_nil in H|]. simpl.
  destruct (Nat.eqb_spec j 0) as [->|Hj]; [by apply bool_decide_eq_true_2|].
  apply IH. by apply elem_of_cons in H as [|].
Qed.

Lemma ahead_split l1 l2 i : i ∉ l1 -> ahead (l1 ++ i :: l2) i = bool_decide (0 ∈ i :: l2).
Proof.
  induction l1 as [|j l1 IH]; cbn [app ahead]; [by rewrite Nat.eqb_refl|].
  intros [Hj Hl]%not_elem_of_cons. destruct (Nat.eqb_spec j i); [congruence|by apply IH].
Qed.

Lemma elem_of_rev (l : list nat) i : i ∈ rev l <-> i ∈ l.
Proof. by rewrite !list_elem_of_In, <-in_rev. Qed.

(** The own item is behind [i], or before it, or is [i]. *)
Lemma ahead_rev l i : NoDup l -> 0 ∈ l -> i ∈ l -> negb (ahead l i) = ahead (rev l) i && negb (i =? 0).
Proof.
  intros Hnd H0 (l1 & l2 & ->)%list_elem_of_split. rewrite rev_app_distr. cbn [rev]. rewrite <-app_assoc. cbn [app].
  apply NoDup_app in Hnd as (Hn1 & Hd & Hn2). apply NoDup_cons in Hn2 as [Hi2 _].
  assert (Hi1 : i ∉ l1) by (intros Hi; apply (Hd i Hi); by left).
  rewrite !ahead_split by (rewrite ?elem_of_rev; done).
  rewrite elem_of_app, elem_of_cons in H0.
  destruct (Nat.eqb_spec i 0) as [->|Hi]; cbn [negb]; [rewrite andb_false_r|rewrite andb_true_r].
  - rewrite bool_decide_eq_true_2; [done|by left].
  - destruct (decide (0 ∈ l2)) as [H2|H2].
    + rewrite bool_decide_eq_true_2 by by right. symmetry. apply bool_decide_eq_false_2.
      rewrite elem_of_cons, elem_of_rev. intros [|H1]; [done|].
      apply (Hd 0 H1). by right.
    + rewrite bool_decide_eq_false_2 by (rewrite elem_of_cons; naive_solver). symmetry. apply bool_decide_eq_true_2.
      rewrite elem_of_cons, elem_of_rev. naive_solver.
Qed.

(** Another item that comes or goes. *)
Lemma ahead_insert l1 l2 n i : n <> i -> n <> 0 -> ahead (l1 ++ n :: l2) i = ahead (l1 ++ l2) i.
Proof.
  intros Hi H0. induction l1 as [|j l1 IH]; cbn [app ahead]; [by rewrite (proj2 (Nat.eqb_neq n i))|].
  destruct (j =? i); [|done]. apply bool_decide_ext. rewrite !elem_of_cons, !elem_of_app, elem_of_cons. naive_solver.
Qed.

(** ** The invariant of mutual exclusion *)

(** How often the thread holds the group's own lock, and is the owner. *)
Definition own_count (x : thr) : nat :=
  match act x with Releasing _ => level x - 1 | _ => level x end + (if got x then 1 else 0).

Definition owns (x : thr) : nat :=
  match act x with Counting => S (level x) | Releasing _ => level x - 1 | _ => level x end.

(** What an operation has of the own lock by the place of its pointer; nothing
    is known at an item that is not in the list any more. *)
Definition thr_ok (its : list item) (l : list nat) (x : thr) : Prop :=
  match act x with
  | Idle => got x = false
  | Wanting lock => got x = false /\ lock <> 0
  | Acquiring None | Trying None | Counting => got x = true
  | Acquiring (Some i) | Trying (Some i) => i < length its /\ (i ∈ l -> got x = negb (ahead l i))
  | Undoing None => got x = false
  | Undoing (Some i) => i < length its /\ (i ∈ l -> got x = ahead (rev l) i)
  | Releasing None => 0 < level x /\ got x = false
  | Releasing (Some i) => 0 < level x /\ i < length its /\ (i ∈ l -> got x = ahead (rev l) i)
  | Chaining lock _ _ | Unchaining lock _ => got x = false /\ lock <> 0
  end.

Definition depth (t : nat) (h : option (nat * nat)) : nat :=
  match h with Some (t', d) => if t' =? t then d else 0 | None => 0 end.

(** The holder is a thread. *)
Definition held_ok (m : nat) (h : option (nat * nat)) : Prop := forall t d, h = Some (t, d) -> 0 < d /\ t < m.

Record list_ok (its : list item) (l : list nat) : Prop := {
  lo_nodup : NoDup l;
  lo_own : 0 ∈ l;
  lo_items i : i ∈ l -> i < length its;
  lo_locks i it : its !! i = Some it -> (i_lock it = 0 <-> i = 0)
}.

Definition owner_share (c : cfg) (t : nat) : Z := if decide (c_owner c = Some t) then c_cnt c else 0%Z.

Record inv (c : cfg) : Prop := {
  iv_list : list_ok (items c) (lock_list c);
  iv_thr t x : threads c !! t = Some x -> thr_ok (items c) (lock_list c) x;
  iv_mutex : exists h, locks c !! 0 = Some h /\ held_ok (length (threads c)) h /\
    forall t x, threads c !! t = Some x -> own_count x = depth t h;
  iv_owner t x : threads c !! t = Some x -> Z.of_nat (owns x) = owner_share c t;
  iv_owned t : c_owner c = Some t -> (0 < c_cnt c)%Z /\ t < length (threads c);
  iv_none : c_owner c = None -> c_cnt c = 0%Z
}.

(** The own mutex after a step of the thread [t] that holds it [n] times then. *)
Definition mutex_moves (c c' : cfg) (t n : nat) : Prop := forall h,
  locks c !! 0 = Some h -> held_ok (length (threads c)) h -> t < length (threads c) -> exists h',
  locks c' !! 0 = Some h' /\ held_ok (length (threads c)) h' /\ depth t h' = n /\
  forall t', t' <> t -> depth t' h' = depth t' h.

(** The owner after such a step. *)
Definition owner_moves (c c' : cfg) (t : nat) (x' : thr) : Prop :=
  Z.of_nat (owns x') = owner_share c' t /\
  (forall t', t' <> t -> owner_share c' t' = owner_share c t') /\
  (forall t', c_owner c' = Some t' -> (0 < c_cnt c')%Z /\ (t' = t \/ c_owner c = Some t')) /\
  (c_owner c' = None -> c_cnt c' = 0%Z).

Lemma inv_update c c' t x x' :
  inv c -> threads c !! t = Some x -> threads c' = <[t := x']> (threads c) ->
  list_ok (items c') (lock_list c') ->
  (forall t' y, t' <> t -> threads c !! t' = Some y -> thr_ok (items c') (lock_list c') y) ->
  thr_ok (items c') (lock_list c') x' -> mutex_moves c c' t (own_count x') -> owner_moves c c' t x' -> inv c'.
Proof.
  intros [Hl Hthr (h & Hh & Hhok & Hcnt) Ho Hod Hno] Ht Et Hl' Hth' Hx' Hm (M1 & M2 & M3 & M4).
  assert (Htl : t < length (threads c)) by (by apply lookup_lt_Some in Ht).
  destruct (Hm h Hh Hhok Htl) as (h' & Hh' & Hhok' & Hd & Hd').
  assert (Hcase : forall t' y, threads c' !! t' = Some y -> t' = t /\ y = x' \/ t' <> t /\ threads c !! t' = Some y).
  { intros t' y. rewrite Et. intros [(-> & -> & _)|[]]%list_lookup_insert_Some; [by left|right; split; congruence]. }
  split; [done|..].
  - intros t' y [[-> ->]|[Hne Hy]]%Hcase; [done|by eapply Hth'].
  - exists h'. rewrite Et, length_insert. split; [done|]. split; [done|].
    intros t' y. rewrite <-Et. intros [[-> ->]|[Hne Hy]]%Hcase; [done|]. rewrite Hd' by done. by apply Hcnt.
  - intros t' y [[-> ->]|[Hne Hy]]%Hcase; [done|]. rewrite M2 by done. by apply Ho.
  - intros t' Ht'. rewrite Et, length_insert. destruct (M3 t' Ht') as [? [->|?]]; [done|]. split; [done|]. by apply Hod.
  - done.
Qed.

(** *** Steps that leave the own mutex or the owner alone *)

Lemma mutex_same c c' t x : inv c -> threads c !! t = Some x -> locks c' !! 0 = locks c !! 0 ->
  mutex_moves c c' t (own_count x).
Proof.
  intros Hi Ht E h Hh Hok Hl. exists h. rewrite E. split_and!; try done.
  destruct (iv_mutex _ Hi) as (h' & Hh' & _ & Hc). rewrite Hh in Hh'. injection Hh' as <-. by rewrite (Hc t x).
Qed.

Lemma owner_same c c' t x x' : inv c -> threads c !! t = Some x -> owns x' = owns x ->
  c_owner c' = c_owner c -> c_cnt c' = c_cnt c -> owner_moves c c' t x'.
Proof.
  intros Hi Ht Ex Eo Ec. unfold owner_moves, owner_share. rewrite Eo, Ec, Ex.
  split; [by apply (iv_owner _ Hi)|]. split; [done|]. split; [|apply (iv_none _ Hi)].
  intros t' Ho. split; [by apply (iv_owned _ Hi t')|by right].
Qed.

(** *** Mutexes *)

(** What a call on a lock leaves alone. *)
Definition same_but_locks (c c' : cfg) : Prop :=
  threads c' = threads c /\ items c' = items c /\ lock_list c' = lock_list c /\ c_owner c' = c_owner c /\
  c_cnt c' = c_cnt c /\ c_ref c' = c_ref c /\ gone c' = gone c /\ bad c' = bad c.

Lemma take_lock_same t l c c' : take_lock t l c = Some c' -> same_but_locks c c'.
Proof. unfold take_lock. intros H. bind_inv H. bind_inv H. by injection H as <-. Qed.

Lemma give_lock_same t l c c' : give_lock t l c = Some c' -> same_but_locks c c'.
Proof. unfold give_lock. intros H. bind_inv H. by injection H as <-. Qed.

Lemma take_other t l c c' : take_lock t l c = Some c' -> l <> 0 -> locks c' !! 0 = locks c !! 0.
Proof. unfold take_lock. intros H Hl. bind_inv H. bind_inv H. injection H as <-. simpl. by rewrite list_lookup_insert_ne. Qed.

Lemma give_other t l c c' : give_lock t l c = Some c' -> l <> 0 -> locks c' !! 0 = locks c !! 0.
Proof. unfold give_lock. intros H Hl. bind_inv H. injection H as <-. simpl. by rewrite list_lookup_insert_ne. Qed.

Lemma mutex_lock_depth m t h h' : mutex_lock t h = Some h' -> held_ok m h -> t < m ->
  held_ok m h' /\ depth t h' = S (depth t h) /\ forall t', t' <> t -> depth t' h' = depth t' h.
Proof.
  unfold mutex_lock. destruct h as [[t1 d]|].
  - destruct (Nat.eqb_spec t1 t) as [->|]; [|done]. intros [= <-] Hok Ht. split; [|split].
    + intros ? ? [= <- <-]. split; [lia|done].
    + simpl. by rewrite Nat.eqb_refl.
    + intros t' Hne. simpl. by rewrite !(proj2 (Nat.eqb_neq t t')).
  - intros [= <-] Hok Ht. split; [|split].
    + intros ? ? [= <- <-]. split; [lia|done].
    + simpl. by rewrite Nat.eqb_refl.
    + intros t' Hne. simpl. by rewrite (proj2 (Nat.eqb_neq t t')).
Qed.

Lemma mutex_unlock_depth m t h : held_ok m h ->
  held_ok m (mutex_unlock t h) /\ depth t (mutex_unlock t h) = depth t h - 1 /\
  forall t', t' <> t -> depth t' (mutex_unlock t h) = depth t' h.
Proof.
  intros Hok. destruct h as [[t1 d]|]; [|done]. destruct (Hok t1 d eq_refl) as [Hd Ht1].
  unfold mutex_unlock. destruct (Nat.eqb_spec t1 t) as [->|Hne].
  - destruct d as [|[|d]]; [lia|..]; simpl; rewrite ?Nat.eqb_refl; (split; [|split]); try done.
    + intros t' Hne. by rewrite (proj2 (Nat.eqb_neq t t')).
    + intros ? ? [= <- <-]. split; [lia|done].
    + intros t' Hne. simpl. by rewrite !(proj2 (Nat.eqb_neq t t')).
  - assert (E : depth t (Some (t1, d)) = 0) by (simpl; by rewrite (proj2 (Nat.eqb_neq t1 t))).
    destruct d as [|[|d]]; rewrite E; done.
Qed.

Lemma take_own c c' t n : take_lock t 0 c = Some c' ->
  (forall h, locks c !! 0 = Some h -> depth t h = n) -> mutex_moves c c' t (S n).
Proof.
  unfold take_lock. intros H Hn h Hh Hok Hl. bind_inv H. bind_inv H. injection H as <-.
  rewrite Hh in E. injection E as <-. destruct (mutex_lock_depth _ _ _ _ E0 Hok Hl) as (H1 & H2 & H3).
  eexists. simpl. rewrite list_lookup_insert_eq by (by apply lookup_lt_Some in Hh). split; [done|].
  split; [done|]. split; [|done]. by rewrite H2, (Hn h Hh).
Qed.

Lemma give_own c c' t n : give_lock t 0 c = Some c' ->
  (forall h, locks c !! 0 = Some h -> depth t h = n) -> mutex_moves c c' t (n - 1).
Proof.
  unfold give_lock. intros H Hn h Hh Hok Hl. bind_inv H. injection H as <-.
  rewrite Hh in E. injection E as <-. destruct (mutex_unlock_depth _ t _ Hok) as (H1 & H2 & H3).
  eexists. simpl. rewrite list_lookup_insert_eq by (by apply lookup_lt_Some in Hh). split; [done|].
  split; [done|]. split; [|done]. by rewrite H2, (Hn h Hh).
Qed.

Lemma own_depth c t x h : inv c -> threads c !! t = Some x -> locks c !! 0 = Some h -> depth t h = own_count x.
Proof.
  intros Hi Ht Hh. destruct (iv_mutex _ Hi) as (h' & Hh' & _ & Hc). rewrite Hh in Hh'. injection Hh' as <-.
  by rewrite (Hc t x).
Qed.

(** *** The pointer of an operation *)

Lemma next_ok c i b : list_ok (items c) (lock_list c) -> i < length (items c) ->
  (i ∈ lock_list c -> b = negb (ahead (lock_list c) i)) ->
  match next c i with
  | None => b || (i =? 0) = true
  | Some j => j < length (items c) /\ (j ∈ lock_list c -> b || (i =? 0) = negb (ahead (lock_list c) j))
  end.
Proof.
  intros Hl Hi Hb. unfold next. destruct (decide (i ∈ lock_list c)) as [Hin|Hout].
  - specialize (Hb Hin). subst b. destruct (next_in_some _ _ Hin) as [j Hj]. rewrite Hj. cbn [default].
    pose proof (ahead_next _ _ _ (lo_nodup _ _ Hl) Hj) as Ha. destruct j as [j|].
    + split; [apply (lo_items _ _ Hl); by eapply next_in_mem|]. intros _. rewrite Ha, negb_andb, negb_involutive. done.
    + rewrite Ha. by destruct (i =? 0).
  - rewrite next_in_none by done. cbn [default]. done.
Qed.

Lemma prev_ok c i b : list_ok (items c) (lock_list c) -> i < length (items c) ->
  (i ∈ lock_list c -> b = ahead (rev (lock_list c)) i && negb (i =? 0)) ->
  match prev c i with
  | None => b = false
  | Some j => j < length (items c) /\ (j ∈ lock_list c -> b = ahead (rev (lock_list c)) j)
  end.
Proof.
  intros Hl Hi Hb. unfold prev. destruct (decide (i ∈ lock_list c)) as [Hin|Hout].
  - specialize (Hb Hin). subst b. destruct (next_in_some (rev (lock_list c)) i) as [j Hj]; [by apply elem_of_rev|].
    rewrite Hj. cbn [default].
    assert (Hnd : NoDup (rev (lock_list c))).
    { apply NoDup_ListNoDup, NoDup_rev, NoDup_ListNoDup, (lo_nodup _ _ Hl). }
    pose proof (ahead_next _ _ _ Hnd Hj) as Ha. destruct j as [j|].
    + split; [apply (lo_items _ _ Hl), elem_of_rev; by eapply next_in_mem|]. done.
    + rewrite Ha. by destruct (i =? 0).
  - rewrite next_in_none by (by rewrite elem_of_rev). cbn [default]. done.
Qed.

Lemma first_ok c : list_ok (items c) (lock_list c) ->
  exists i, first c = Some i /\ i < length (items c) /\ ahead (lock_list c) i = true.
Proof.
  intros Hl. pose proof (lo_own _ _ Hl) as H0. pose proof (lo_items _ _ Hl) as Hit. unfold first.
  destruct (lock_list c) as [|i l] eqn:E; [by apply elem_of_nil in H0|]. exists i. split; [done|].
  split; [apply Hit; by left|by apply ahead_head].
Qed.

Lemma final_ok c : list_ok (items c) (lock_list c) ->
  exists i, final c = Some i /\ i < length (items c) /\ ahead (rev (lock_list c)) i = true.
Proof.
  intros Hl. pose proof (lo_own _ _ Hl) as H0. apply elem_of_rev in H0. unfold final.
  destruct (rev (lock_list c)) as [|i l] eqn:E; [by apply elem_of_nil in H0|]. exists i. split; [done|].
  split; [|by apply ahead_head]. apply (lo_items _ _ Hl), elem_of_rev. rewrite E. by left.
Qed.

(** *** One step of a thread on an unchanged list *)

Lemma inv_put c c1 t x x' :
  inv c -> threads c !! t = Some x -> threads c1 = threads c -> items c1 = items c -> lock_list c1 = lock_list c ->
  thr_ok (items c) (lock_list c) x' -> mutex_moves c c1 t (own_count x') -> owner_moves c c1 t x' ->
  inv (put t x' c1).
Proof.
  intros Hi Ht Et Ei El Hx Hm Ho. apply (inv_update c _ t x x'); try done.
  - simpl. by rewrite Et.
  - simpl. rewrite Ei, El. apply (iv_list _ Hi).
  - intros t' y _ Hy. simpl. rewrite Ei, El. by apply (iv_thr _ Hi t').
  - simpl. by rewrite Ei, El.
Qed.

(** The lock of an item is taken, or given back. *)
Lemma take_item c c1 t x i it n :
  inv c -> threads c !! t = Some x -> items c !! i = Some it -> take_lock t (i_lock it) c = Some c1 ->
  n = own_count x + (if i =? 0 then 1 else 0) -> mutex_moves c c1 t n.
Proof.
  intros Hi Ht Hit Hc ->. pose proof (lo_locks _ _ (iv_list _ Hi) i it Hit) as H0.
  destruct (Nat.eqb_spec i 0) as [E|E].
  - rewrite Nat.add_1_r. rewrite (proj2 H0 E) in Hc. apply (take_own _ _ _ _ Hc). intros h. by apply own_depth.
  - rewrite Nat.add_0_r. apply mutex_same; [done..|]. apply (take_other _ _ _ _ Hc). tauto.
Qed.

Lemma give_item c c1 t x i it n :
  inv c -> threads c !! t = Some x -> items c !! i = Some it -> give_lock t (i_lock it) c = Some c1 ->
  n = own_count x - (if i =? 0 then 1 else 0) -> mutex_moves c c1 t n.
Proof.
  intros Hi Ht Hit Hc ->. pose proof (lo_locks _ _ (iv_list _ Hi) i it Hit) as H0.
  destruct (Nat.eqb_spec i 0) as [E|E].
  - rewrite (proj2 H0 E) in Hc. apply (give_own _ _ _ _ Hc). intros h. by apply own_depth.
  - rewrite Nat.sub_0_r. apply mutex_same; [done..|]. apply (give_other _ _ _ _ Hc). tauto.
Qed.

(** *** The owner *)

Lemma owns_le x its l : thr_ok its l x -> owns x <= own_count x.
Proof. unfold owns, own_count, thr_ok. destruct (act x) as [|[]|[]|[]| |[]| | |]; try lia. intros ->. lia. Qed.

(** A thread that holds the own lock and the owner are the same. *)
Lemma owner_holds c t x t' : inv c -> threads c !! t = Some x -> 0 < own_count x -> c_owner c = Some t' -> t' = t.
Proof.
  intros Hi Ht Hp Ho. destruct (iv_owned _ Hi t' Ho) as [Hc Hl]. destruct (lookup_lt_is_Some_2 _ _ Hl) as [y Hy].
  pose proof (iv_owner _ Hi t' y Hy) as E. unfold owner_share in E. rewrite decide_True in E by done.
  pose proof (owns_le y _ _ (iv_thr _ Hi t' y Hy)) as Hle.
  destruct (iv_mutex _ Hi) as ([[t1 d]|] & Hh & _ & Hcnt).
  - rewrite (Hcnt t x Ht) in Hp. rewrite (Hcnt t' y Hy) in Hle. simpl in Hp, Hle.
    destruct (Nat.eqb_spec t1 t); [|lia]. destruct (Nat.eqb_spec t1 t'); [congruence|lia].
  - rewrite (Hcnt t x Ht) in Hp. simpl in Hp. lia.
Qed.

Lemma set_owner_moves c t x x' : inv c -> threads c !! t = Some x -> 0 < own_count x -> owns x = level x ->
  owns x' = S (level x) -> owner_moves c (grp_lock_set_owner_thread t c) t x'.
Proof.
  intros Hi Ht Hp Ex Ex'. pose proof (iv_owner _ Hi t x Ht) as E. unfold owner_moves, owner_share in *.
  unfold grp_lock_set_owner_thread. destruct (c_owner c) as [t'|] eqn:Eo; cbn [c_owner c_cnt set_owned].
  - assert (t' = t) as -> by (by eapply owner_holds). destruct (iv_owned _ Hi t Eo) as [Hc _].
    rewrite decide_True in E by done. rewrite decide_True by done. split; [lia|]. split; [|split; [|done]].
    + intros t' Hne. by rewrite !decide_False by congruence.
    + intros t' [= <-]. split; [lia|by left].
  - rewrite decide_False in E by done. rewrite decide_True by done. split; [lia|]. split; [|split; [|done]].
    + intros t' Hne. by rewrite !decide_False by congruence.
    + intros t' [= <-]. split; [lia|by left].
Qed.

Lemma unset_owner_moves c t x x' : inv c -> threads c !! t = Some x -> owns x = level x -> 0 < level x ->
  owns x' = level x - 1 -> owner_moves c (grp_lock_unset_owner_thread c) t x'.
Proof.
  intros Hi Ht Ex Hp Ex'. pose proof (iv_owner _ Hi t x Ht) as E. unfold owner_moves, owner_share in *.
  unfold grp_lock_unset_owner_thread. destruct (decide (c_owner c = Some t)) as [Eo|]; [|lia].
  destruct (Z.leb_spec (c_cnt c - 1) 0); cbn [c_owner c_cnt set_owned].
  - rewrite decide_False by done. split; [lia|]. split; [|split; [done|done]].
    intros t' Hne. by rewrite !decide_False by congruence.
  - rewrite decide_True by done. split; [lia|]. split; [|split].
    + intros t' Hne. by rewrite !decide_False by congruence.
    + intros t' Ho. split; [lia|]. left. congruence.
    + congruence.
Qed.

(** *** Every step *)

Lemma same_trans c1 c2 c3 : same_but_locks c1 c2 -> same_but_locks c2 c3 -> same_but_locks c1 c3.
Proof. unfold same_but_locks. intuition congruence. Qed.

Lemma give_times_ok n t l c c' : give_times n t l c = Some c' -> l <> 0 ->
  same_but_locks c c' /\ locks c' !! 0 = locks c !! 0.
Proof.
  intros H Hl. revert c H. induction n as [|n IH]; intros c H; simpl in H; [by injection H as <-|].
  bind_inv H. destruct (IH _ H) as [S1 L1]. pose proof (give_lock_same _ _ _ _ E).
  split; [by eapply same_trans|]. rewrite L1. by eapply give_other.
Qed.

Lemma give_chained_ok t l : forall c c', give_chained t l c = Some c' ->
  same_but_locks c c' /\ locks c' !! 0 = locks c !! 0.
Proof.
  induction l as [|i l IH]; intros c c' H; simpl in H; [by injection H as <-|].
  bind_inv H. bind_inv H. destruct (IH _ _ H) as [S1 L1].
  destruct (Nat.eqb_spec (i_lock x) 0) as [_|Hl]; [by injection E0 as <-|].
  destruct (give_times_ok _ _ _ _ _ E0 Hl) as [S2 L2]. split; [by eapply same_trans|congruence].
Qed.

Lemma grp_destroy_ok t c c' : grp_lock_destroy t c = Some c' ->
  threads c' = threads c /\ items c' = items c /\ lock_list c' = lock_list c /\ c_owner c' = c_owner c /\
  c_cnt c' = c_cnt c /\ c_ref c' = c_ref c /\ gone c' = true /\ bad c' = bad c /\ locks c' !! 0 = locks c !! 0.
Proof.
  unfold grp_lock_destroy. intros H. bind_inv H. injection H as <-.
  destruct (give_chained_ok _ _ _ _ E) as [(? & ? & ? & ? & ? & ? & ? & ?) ?]. done.
Qed.

Lemma grp_dec_ref_ok t c c' : grp_lock_dec_ref t c = Some c' ->
  threads c' = threads c /\ items c' = items c /\ lock_list c' = lock_list c /\ c_owner c' = c_owner c /\
  c_cnt c' = c_cnt c /\ c_ref c' = (c_ref c - 1)%Z /\ gone c' = (if (c_ref c - 1 =? 0)%Z then true else gone c) /\
  bad c' = bad c /\ locks c' !! 0 = locks c !! 0.
Proof.
  unfold grp_lock_dec_ref. cbn [c_ref set_ref]. destruct (Z.eqb_spec (c_ref c - 1) 0).
  - intros (? & ? & ? & ? & ? & ? & ? & ? & ?)%grp_destroy_ok. done.
  - intros [= <-]. done.
Qed.

(** A change of the list by another thread. *)
Lemma thr_ok_insert its it l1 l2 y : list_ok its (l1 ++ l2) -> thr_ok its (l1 ++ l2) y ->
  thr_ok (its ++ [it]) (l1 ++ length its :: l2) y.
Proof.
  intros Hl. assert (Hn : length its <> 0) by (pose proof (lo_items _ _ Hl 0 (lo_own _ _ Hl)); lia).
  assert (Hin : forall i, i < length its -> i ∈ l1 ++ length its :: l2 -> i ∈ l1 ++ l2).
  { intros i Hi. rewrite !elem_of_app, elem_of_cons. intros [|[->|]]; [by left|lia|by right]. }
  assert (Ha : forall i, i < length its -> ahead (l1 ++ length its :: l2) i = ahead (l1 ++ l2) i)
    by (intros i Hi; apply ahead_insert; lia).
  assert (Hr : forall i, i < length its -> ahead (rev (l1 ++ length its :: l2)) i = ahead (rev (l1 ++ l2)) i).
  { intros i Hi. rewrite !rev_app_distr. cbn [rev]. rewrite <-app_assoc. cbn [app]. apply ahead_insert; lia. }
  unfold thr_ok. rewrite length_app. cbn [length].
  destruct (act y) as [|[]|[]|[]| |[]| | |]; try done;
    intros H; destruct_and? H; split_and!; try done; try lia; intros Hi; rewrite ?Ha, ?Hr by done; auto.
Qed.

Lemma thr_ok_erase its l1 l2 n y : NoDup (l1 ++ n :: l2) -> n <> 0 -> thr_ok its (l1 ++ n :: l2) y ->
  thr_ok its (l1 ++ l2) y.
Proof.
  intros Hnd Hn.
  assert (Hin : forall i, i ∈ l1 ++ l2 -> i ∈ l1 ++ n :: l2 /\ n <> i).
  { intros i Hi. rewrite <-Permutation_middle in Hnd. apply NoDup_cons in Hnd as [Hnn _].
    split; [|by intros ->]. rewrite !elem_of_app, elem_of_cons in *. tauto. }
  assert (Hr : forall i, n <> i -> ahead (rev (l1 ++ n :: l2)) i = ahead (rev (l1 ++ l2)) i).
  { intros i Hi. rewrite !rev_app_distr. cbn [rev]. rewrite <-app_assoc. cbn [app]. by apply ahead_insert. }
  unfold thr_ok. destruct (act y) as [|[]|[]|[]| |[]| | |]; try done;
    intros H; destruct_and? H; split_and!; try done; intros Hi; destruct (Hin _ Hi) as [Hi' Hni];
    rewrite <-?(ahead_insert l1 l2 n), <-?Hr by done; auto.
Qed.

Lemma insert_item_split its pos n l : exists l1 l2, l = l1 ++ l2 /\ insert_item its pos n l = l1 ++ n :: l2.
Proof.
  induction l as [|j l (l1 & l2 & -> & E)]; simpl; [by exists [], []|].
  destruct (its !! j) as [it|]; [|by exists [], (j :: l1 ++ l2)].
  destruct (pos <=? i_prio it)%Z; [by exists [], (j :: l1 ++ l2)|]. exists (j :: l1), l2. simpl. by rewrite E.
Qed.

Lemma list_ok_insert its it l1 l2 : list_ok its (l1 ++ l2) -> i_lock it <> 0 ->
  list_ok (its ++ [it]) (l1 ++ length its :: l2).
Proof.
  intros [Hnd H0 Hit Hlk] Hl. split.
  - rewrite <-Permutation_middle. constructor; [|done]. intros Hin%Hit. lia.
  - rewrite elem_of_app, elem_of_cons in *. tauto.
  - intros i. rewrite length_app, !elem_of_app, elem_of_cons. cbn [length].
    intros [Hi|[->|Hi]]; [|lia|]; (assert (i ∈ l1 ++ l2) as Hi'%Hit by (apply elem_of_app; tauto)); lia.
  - intros i x Hx. apply lookup_app_Some in Hx as [Hx|[Hge Hx]]; [by apply Hlk|].
    apply list_lookup_singleton_Some in Hx as [Hx <-]. pose proof (Hit 0 H0). split; [done|]. intros ->. lia.
Qed.

Lemma erase_item_split i l : NoDup l -> i ∈ l -> exists l1 l2, l = l1 ++ i :: l2 /\ erase_item i l = l1 ++ l2.
Proof.
  intros Hnd (l1 & l2 & ->)%list_elem_of_split. exists l1, l2. split; [done|]. unfold erase_item.
  apply NoDup_app in Hnd as (_ & Hd & Hn2). apply NoDup_cons in Hn2 as [Hi2 _].
  assert (Hi1 : i ∉ l1) by (intros Hi; apply (Hd i Hi); by left).
  assert (Hf : forall l : list nat, i ∉ l -> filter (fun j => j <> i) l = l).
  { clear. induction l as [|j l IH]; [done|]. intros [Hj Hl]%not_elem_of_cons. rewrite filter_cons_True by congruence. by rewrite IH. }
  rewrite filter_app, filter_cons_False by tauto. by rewrite !Hf.
Qed.

Lemma item_of_spec its lock l i : item_of its lock l = Some i ->
  i ∈ l /\ exists it, its !! i = Some it /\ i_lock it = lock.
Proof.
  induction l as [|j l IH]; [done|]. simpl. destruct (its !! j) as [it|] eqn:E.
  - destruct (Nat.eqb_spec (i_lock it) lock) as [<-|].
    + intros [= <-]. split; [by left|]. by exists it.
    + intros H%IH. split; [right; apply H|apply H].
  - intros H%IH. split; [right; apply H|apply H].
Qed.

Lemma list_ok_erase its l1 l2 n : list_ok its (l1 ++ n :: l2) -> n <> 0 -> list_ok its (l1 ++ l2).
Proof.
  intros [Hnd H0 Hit Hlk] Hn. split; [|..|done].
  - rewrite <-Permutation_middle in Hnd. by apply NoDup_cons in Hnd as [_ ?].
  - rewrite elem_of_app, elem_of_cons in *. naive_solver.
  - intros i Hi. apply Hit. rewrite !elem_of_app, elem_of_cons in *. tauto.
Qed.

Ltac own_tac := unfold own_count, owns in *; cbn [act level got set_act set_level set_refs set_dirs refs dirs] in *.

(** A call that takes the lock of an item, gives it back, or makes the thread the owner. *)
Lemma take_step_inv c c1 t x i it k :
  inv c -> threads c !! t = Some x -> k = Acquiring \/ k = Trying -> act x = k (Some i) ->
  items c !! i = Some it -> take_lock t (i_lock it) c = Some c1 ->
  inv (with_act t x (k (next c i)) (got x || (i =? 0)) c1).
Proof.
  intros Hi Ht Hk Ha Hit Hc. pose proof (iv_list _ Hi) as Hl. pose proof (iv_thr _ Hi t x Ht) as Hok. unfold thr_ok in Hok.
  destruct x as [lv rf ds a b]. cbn [act got] in *. subst a. destruct (take_lock_same _ _ _ _ Hc) as (S1 & S2 & S3 & S4 & S5 & _).
  assert (Hok' : i < length (items c) /\ (i ∈ lock_list c -> b = negb (ahead (lock_list c) i))) by by destruct Hk as [-> | ->].
  clear Hok. destruct Hok' as [Hlt Hb]. apply (inv_put c _ t _ _ Hi Ht); try done.
  - unfold thr_ok. cbn [act got set_act]. pose proof (next_ok c i b Hl Hlt Hb) as Hn. destruct Hk as [-> | ->]; by destruct (next c i).
  - eapply take_item; [done..|]. assert (He : own_count (mk_thr lv rf ds (k (Some i)) b) = lv + (if b then 1 else 0) /\
      own_count (set_act (k (next c i)) (b || (i =? 0)) (mk_thr lv rf ds (k (Some i)) b)) = lv + (if b || (i =? 0) then 1 else 0))
      by by destruct Hk as [-> | ->]. destruct He as [-> ->].
    destruct (Nat.eqb_spec i 0) as [->|]; [|rewrite orb_false_r; lia].
    rewrite (Hb (lo_own _ _ Hl)), ahead_own by apply Hl. simpl. lia.
  - eapply owner_same; [done|exact Ht| |done|done]. by destruct Hk as [-> | ->].
Qed.

Lemma give_step_inv c c1 t x i it k :
  inv c -> threads c !! t = Some x -> k = Undoing \/ k = Releasing -> act x = k (Some i) ->
  items c !! i = Some it -> give_lock t (i_lock it) c = Some c1 ->
  inv (with_act t x (k (prev c i)) (got x && negb (i =? 0)) c1).
Proof.
  intros Hi Ht Hk Ha Hit Hc. pose proof (iv_list _ Hi) as Hl. pose proof (iv_thr _ Hi t x Ht) as Hok. unfold thr_ok in Hok.
  destruct x as [lv rf ds a b]. cbn [act got level] in *. subst a. destruct (give_lock_same _ _ _ _ Hc) as (S1 & S2 & S3 & S4 & S5 & _).
  assert (Hok' : (k = Undoing \/ k = Releasing /\ 0 < lv) /\ i < length (items c) /\ (i ∈ lock_list c -> b = ahead (rev (lock_list c)) i)).
  { destruct Hk as [-> | ->]; tauto. }
  clear Hok. destruct Hok' as (Hlv & Hlt & Hb). apply (inv_put c _ t _ _ Hi Ht); try done.
  - unfold thr_ok. cbn [act got set_act level]. assert (Hb' := fun H => f_equal (fun v => v && negb (i =? 0)) (Hb H)).
    pose proof (prev_ok c i _ Hl Hlt Hb') as Hp. destruct Hlv as [->|[-> Hlv]]; by destruct (prev c i).
  - eapply give_item; [done..|]. assert (exists n, forall a b, a = k (Some i) \/ a = k (prev c i) ->
      own_count (mk_thr lv rf ds a b) = n + (if b then 1 else 0)) as [n He].
    { destruct Hk as [-> | ->]; [exists lv|exists (lv - 1)]; intros a b' [-> | ->]; done. }
    unfold set_act. cbn [level refs dirs]. rewrite !He by tauto.
    destruct (Nat.eqb_spec i 0) as [->|]; [|by rewrite andb_true_r, Nat.sub_0_r].
    rewrite (Hb (lo_own _ _ Hl)), ahead_own by (apply elem_of_rev, Hl). simpl. lia.
  - eapply owner_same; [done|exact Ht| |done|done]. by destruct Hk as [-> | ->].
Qed.

Lemma owner_step_inv c t x : inv c -> threads c !! t = Some x -> act x = Acquiring None \/ act x = Trying None ->
  inv (with_act t x Counting (got x) (grp_lock_set_owner_thread t c)).
Proof.
  intros Hi Ht Ha. pose proof (iv_thr _ Hi t x Ht) as Hok. unfold thr_ok in Hok.
  destruct x as [lv rf ds a b]. cbn [act got] in *. assert (b = true) as -> by (by destruct Ha as [-> | ->]).
  apply (inv_put c _ t _ _ Hi Ht); try (unfold grp_lock_set_owner_thread; by destruct (c_owner c)).
  - assert (Hm : own_count (mk_thr lv rf ds a true) = lv + 1) by (by destruct Ha as [-> | ->]).
    pose proof (mutex_same c (grp_lock_set_owner_thread t c) t _ Hi Ht) as M. rewrite Hm in M. apply M.
    unfold grp_lock_set_owner_thread. by destruct (c_owner c).
  - eapply set_owner_moves; [done|exact Ht|..|done]; destruct Ha as [-> | ->]; own_tac; lia.
Qed.

(** Taking back what a failed attempt has got. *)
Lemma undo_step_inv c t x i : inv c -> threads c !! t = Some x -> act x = Trying (Some i) ->
  inv (with_act t x (Undoing (prev c i)) (got x) c).
Proof.
  intros Hi Ht Ha. pose proof (iv_list _ Hi) as Hl. pose proof (iv_thr _ Hi t x Ht) as Hok. unfold thr_ok in Hok.
  destruct x as [lv rf ds a b]. cbn [act got] in *. subst a. destruct Hok as [Hlt Hb].
  apply (inv_put c _ t _ _ Hi Ht); try done; [|by apply (mutex_same c _ t _ Hi Ht)|by eapply owner_same].
  unfold thr_ok. cbn [act got set_act].
  assert (Hb' : i ∈ lock_list c -> b = ahead (rev (lock_list c)) i && negb (i =? 0)).
  { intros Hin. rewrite (Hb Hin). apply ahead_rev; [apply Hl|apply Hl|done]. }
  pose proof (prev_ok c i b Hl Hlt Hb') as Hp. by destruct (prev c i).
Qed.

(** A call on a lock of the application, or none. *)
Lemma other_step_inv c c1 t x x' :
  inv c -> threads c !! t = Some x -> thr_ok (items c) (lock_list c) x' -> own_count x' = own_count x -> owns x' = owns x ->
  threads c1 = threads c /\ items c1 = items c /\ lock_list c1 = lock_list c /\ c_owner c1 = c_owner c /\ c_cnt c1 = c_cnt c ->
  locks c1 !! 0 = locks c !! 0 -> inv (put t x' c1).
Proof.
  intros Hi Ht Hx Eo Ew (S1 & S2 & S3 & S4 & S5) E0. apply (inv_put c _ t _ _ Hi Ht); try done; [|by eapply owner_same].
  rewrite Eo. by apply (mutex_same c _ t _ Hi Ht).
Qed.

(** The end of [pj_grp_lock_chain_lock]: the list grows. *)
Lemma chained_inv c t x lk pos n : inv c -> threads c !! t = Some x -> act x = Chaining lk pos n ->
  inv (with_act t x Idle (got x)
    (set_list (items c ++ [mk_item lk pos]) (insert_item (items c) pos (length (items c)) (lock_list c)) c)).
Proof.
  intros Hi Ht Ha. pose proof (iv_list _ Hi) as Hl. pose proof (iv_thr _ Hi t x Ht) as Hok. unfold thr_ok in Hok. rewrite Ha in Hok.
  destruct x as [lv rf ds a b]. cbn [act got] in *. subst a. destruct Hok as [Hb Hlk].
  destruct (insert_item_split (items c) pos (length (items c)) (lock_list c)) as (l1 & l2 & El & ->).
  rewrite El in Hl. eapply (inv_update c _ t _ _ Hi Ht).
  - done.
  - by apply list_ok_insert.
  - intros t' y _ Hy. apply thr_ok_insert; [done|]. rewrite <-El. by apply (iv_thr _ Hi t').
  - done.
  - by apply (mutex_same c _ t _ Hi Ht).
  - by eapply owner_same.
Qed.

(** And the beginning of [pj_grp_lock_unchain_lock]: it shrinks. *)
Lemma unchained_inv c t x lk i : inv c -> threads c !! t = Some x -> act x = Idle -> lk <> 0 ->
  item_of (items c) lk (lock_list c) = Some i ->
  inv (with_act t x (Unchaining lk 0) false (set_list (items c) (erase_item i (lock_list c)) c)).
Proof.
  intros Hi Ht Ha Hlk Ei. pose proof (iv_list _ Hi) as Hl. pose proof (iv_thr _ Hi t x Ht) as Hok. unfold thr_ok in Hok. rewrite Ha in Hok.
  destruct x as [lv rf ds a b]. cbn [act got] in *. subst a b. destruct (item_of_spec _ _ _ _ Ei) as (Hin & it & Hit & Elk).
  assert (Hi0 : i <> 0) by (intros ->; apply Hlk; rewrite <-Elk; by apply (lo_locks _ _ Hl 0 it Hit)).
  destruct (erase_item_split i (lock_list c) (lo_nodup _ _ Hl) Hin) as (l1 & l2 & El & Ee).
  rewrite El in Hl. eapply (inv_update c _ t _ _ Hi Ht).
  - done.
  - simpl. rewrite Ee. by eapply list_ok_erase.
  - intros t' y _ Hy. simpl. rewrite Ee. eapply thr_ok_erase; [apply Hl|done|]. rewrite <-El. by apply (iv_thr _ Hi t').
  - done.
  - by apply (mutex_same c _ t _ Hi Ht).
  - by eapply owner_same.
Qed.

Ltac other_step := eapply other_step_inv; [eassumption|eassumption|try done..].

Lemma go_inv c t x c' : inv c -> threads c !! t = Some x -> go t x c = Some c' -> inv c'.
Proof.
  intros Hi Ht. pose proof (iv_thr _ Hi t x Ht) as Hok. unfold thr_ok in Hok.
  unfold go, acquire_step, tryacquire_step, undo_step, release_step, chain_step, unchain_step. destruct (act x) as [|[i|]|[i|]|[i|]| |[i|]|lk|lk pos n|lk n] eqn:Ha; intros H.
  - done.
  - bind_inv H. bind_inv H. injection H as <-. eapply (take_step_inv _ _ _ _ _ _ Acquiring); eauto.
  - injection H as <-. apply owner_step_inv; auto.
  - bind_inv H. destruct (take_lock t (i_lock x0) c) as [c1|] eqn:E0; injection H as <-; [|by apply undo_step_inv].
    eapply (take_step_inv _ _ _ _ _ _ Trying); eauto.
  - injection H as <-. apply owner_step_inv; auto.
  - bind_inv H. bind_inv H. injection H as <-. eapply (give_step_inv _ _ _ _ _ _ Undoing); eauto.
  - injection H as <-. other_step; own_tac; by rewrite Ha.
  - injection H as <-. other_step; own_tac; rewrite Ha; [rewrite Hok; lia|done].
  - bind_inv H. bind_inv H. injection H as <-. eapply (give_step_inv _ _ _ _ _ _ Releasing); eauto.
  - bind_inv H. injection H as <-. destruct (grp_dec_ref_ok _ _ _ E) as (S1 & S2 & S3 & S4 & S5 & _ & _ & _ & S6).
    destruct Hok as [Hlv Hb]. other_step; own_tac; rewrite Ha; lia.
  - bind_inv H. injection H as <-. destruct (take_lock_same _ _ _ _ E) as (S1 & S2 & S3 & S4 & S5 & _).
    destruct Hok as [Hb Hlk]. other_step; own_tac; rewrite ?Ha; try done. by eapply take_other.
  - destruct Hok as [Hb Hlk]. destruct (_ <? _)%Z; [|injection H as <-; by eapply chained_inv].
    bind_inv H. injection H as <-. destruct (take_lock_same _ _ _ _ E) as (S1 & S2 & S3 & S4 & S5 & _).
    other_step; own_tac; rewrite ?Ha; try done. by eapply take_other.
  - destruct Hok as [Hb Hlk]. destruct (_ <? _)%Z; [|injection H as <-; other_step; own_tac; by rewrite ?Ha].
    bind_inv H. injection H as <-. destruct (give_lock_same _ _ _ _ E) as (S1 & S2 & S3 & S4 & S5 & _).
    other_step; own_tac; rewrite ?Ha; try done. by eapply give_other.
Qed.

Lemma give_inv c t t' x x' n n' : inv c -> t' <> t -> threads c !! t = Some x -> threads c !! t' = Some x' ->
  inv (put t' (set_refs n' x') (put t (set_refs n x) c)).
Proof.
  intros Hi Hne Ht Ht'. assert (Hx : thr_ok (items c) (lock_list c) (set_refs n x)) by apply (iv_thr _ Hi t x Ht).
  assert (Hi1 : inv (put t (set_refs n x) c)).
  { apply (inv_put c c t x); try done; [by apply (mutex_same c c t x)|by eapply owner_same]. }
  apply (inv_put _ _ t' x' _ Hi1); try done.
  - simpl. by rewrite list_lookup_insert_ne.
  - apply (iv_thr _ Hi t' x' Ht').
  - apply (mutex_same _ _ t' x' Hi1); [simpl; by rewrite list_lookup_insert_ne|done].
  - apply (owner_same _ _ t' x' _ Hi1); try done. simpl. by rewrite list_lookup_insert_ne.
Qed.

Lemma begin_acquire_inv c t x k : inv c -> threads c !! t = Some x -> act x = Idle -> k = Acquiring \/ k = Trying ->
  inv (with_act t x (k (first c)) false c).
Proof.
  intros Hi Ht Ha Hk. pose proof (iv_list _ Hi) as Hl. pose proof (iv_thr _ Hi t x Ht) as Hok. unfold thr_ok in Hok. rewrite Ha in Hok.
  destruct (first_ok c Hl) as (i & -> & Hlt & Hh). destruct x as [lv rf ds a b]. cbn [act got] in *. subst a b.
  destruct Hk as [-> | ->]; (other_step; split; [done|]; intros _; by rewrite Hh).
Qed.

Lemma begin_release_inv c t x : inv c -> threads c !! t = Some x -> act x = Idle -> level x <> 0 ->
  inv (with_act t x (Releasing (final c)) true (grp_lock_unset_owner_thread c)).
Proof.
  intros Hi Ht Ha Hlv. pose proof (iv_list _ Hi) as Hl. pose proof (iv_thr _ Hi t x Ht) as Hok. unfold thr_ok in Hok. rewrite Ha in Hok.
  destruct x as [lv rf ds a b]. cbn [act got level] in *. subst a b. destruct (final_ok c Hl) as (i & -> & Hlt & Hh).
  assert (Hsame : forall A (f : cfg -> A), (forall o n, f (set_owned o n c) = f c) -> f (grp_lock_unset_owner_thread c) = f c).
  { intros A f Hf. unfold grp_lock_unset_owner_thread. by destruct (_ <=? _)%Z. }
  apply (inv_put c _ t _ _ Hi Ht); try by apply Hsame.
  - split_and!; [simpl; lia|done|]. intros _. by rewrite Hh.
  - pose proof (mutex_same c (grp_lock_unset_owner_thread c) t _ Hi Ht (Hsame _ (fun c => locks c !! 0) ltac:(done))) as Hm.
    own_tac. by replace (lv - 1 + 1) with (lv + 0) by lia.
  - eapply unset_owner_moves; [done..|simpl; lia|done].
Qed.

Lemma begin_inv c t x a c' : inv c -> threads c !! t = Some x -> act x = Idle -> begin t x a c = Some c' -> inv c'.
Proof.
  intros Hi Ht Ha H. pose proof (iv_thr _ Hi t x Ht) as Hok. unfold thr_ok in Hok. rewrite Ha in Hok. unfold begin, unchain_start in H.
  destruct a as [| | | | |t'|lk|lk|lk pos|lk| |].
  - injection H as <-. apply begin_acquire_inv; auto.
  - injection H as <-. apply begin_acquire_inv; auto.
  - destruct (Nat.eqb_spec (level x) 0) as [|Hlv]; [done|]. injection H as <-. by apply begin_release_inv.
  - injection H as <-. other_step. unfold thr_ok. simpl. by rewrite Ha.
  - bind_inv H. injection H as <-. destruct (grp_dec_ref_ok _ _ _ E) as (S1 & S2 & S3 & S4 & S5 & _ & _ & _ & S6).
    other_step. unfold thr_ok. simpl. by rewrite Ha.
  - destruct (refs x =? 0); [done|]. destruct (Nat.eqb_spec t' t); [done|]. cbn [orb] in H.
    bind_inv H. injection H as <-. by apply give_inv.
  - destruct (Nat.eqb_spec lk 0); [done|]. destruct (_ || _); [done|]. injection H as <-. other_step; own_tac; by rewrite Ha, ?Hok.
  - destruct (Nat.eqb_spec lk 0); [done|]. destruct (_ || _); [done|]. bind_inv H. injection H as <-.
    destruct (give_lock_same _ _ _ _ E) as (S1 & S2 & S3 & S4 & S5 & _).
    other_step; [unfold thr_ok; simpl; by rewrite Ha|by eapply give_other].
  - destruct (Nat.eqb_spec lk 0); [done|]. destruct (_ || _); [done|]. injection H as <-. other_step; own_tac; by rewrite Ha, ?Hok.
  - destruct (Nat.eqb_spec lk 0) as [|Hlk]; [done|]. destruct (_ || _); [done|].
    injection H as <-. destruct (item_of _ _ _) as [i|] eqn:Ei; [|done]. by eapply unchained_inv.
  - bind_inv H. injection H as <-. destruct (grp_destroy_ok _ _ _ E) as (S1 & S2 & S3 & S4 & S5 & S6 & _ & _ & S7).
    destruct Hi as [I1 I2 I3 I4 I5 I6]. split; unfold owner_share in *; rewrite ?S1, ?S2, ?S3, ?S4, ?S5, ?S7; done.
  - done.
Qed.

Lemma step_inv c t a c' : inv c -> step c t a = Some c' -> inv c'.
Proof.
  intros Hi H. unfold step in H. bind_inv H. bind_inv H. injection H as <-.
  assert (Hbad : inv (set_bad c)) by by destruct Hi.
  destruct (_ && _); [done|]. clear Hbad. unfold attempt in E0. revert E0.
  destruct a; intros Hst; [..|by eapply go_inv];
    (destruct (act x) eqn:Ea; [by eapply begin_inv|done..]).
Qed.

Lemma start_inv m n its l : 0 < n -> setup_ok n its l -> inv (start m n its l).
Proof.
  intros Hn [Hnd H0 Hit Hlk]. split; simpl.
  - split; try done. intros i it Hi. apply (Hlk i it Hi).
  - by intros t x [-> _]%lookup_replicate.
  - exists None. rewrite lookup_replicate_2 by done. split_and!; try done. by intros t x [-> _]%lookup_replicate.
  - by intros t x [-> _]%lookup_replicate.
  - done.
  - done.
Qed.

Lemma reachable_inv ok m n its l c : 0 < n -> setup_ok n its l -> reachable ok (start m n its l) c -> inv c.
Proof.
  intros Hn Hs. apply (rtc_ind_r (fun c => inv c) (start m n its l)); [by apply start_inv|].
  intros c1 c2 _ (t & a & _ & Hst) Hi. by eapply step_inv.
Qed.

(** ** Mutual exclusion *)

(** The thread has acquired the group lock and has not begun to give it back. *)
Definition inside (x : thr) : Prop := 0 < owns x.

(** C31 Whatever the threads do, in any order, as long as the lock is not
    destroyed: acquire and try to acquire it, recursively too, chain and unchain
    other locks while others wait, take members directly, and count references:
    at most one thread is inside; it holds the group's own lock, at least as
    often as it is inside, and no other thread holds it; the owner that the lock
    records is that thread, with that count, and none is recorded when nobody is
    inside. *)
Theorem grp_mutual_exclusion m n its l c :
  0 < n -> setup_ok n its l -> reachable anything (start m n its l) c -> gone c = false ->
  (forall t1 t2 x1 x2, threads c !! t1 = Some x1 -> threads c !! t2 = Some x2 -> inside x1 -> inside x2 -> t1 = t2) /\
  (forall t x, threads c !! t = Some x -> inside x ->
     (exists d, locks c !! 0 = Some (Some (t, d)) /\ owns x <= d) /\ c_owner c = Some t /\ c_cnt c = Z.of_nat (owns x)) /\
  ((forall t x, threads c !! t = Some x -> ~ inside x) -> c_owner c = None /\ c_cnt c = 0%Z).
Proof.
  intros Hn Hs Hr _. pose proof (reachable_inv _ m n its l c Hn Hs Hr) as Hi. unfold inside.
  assert (Hown : forall t x, threads c !! t = Some x -> 0 < owns x -> c_owner c = Some t /\ c_cnt c = Z.of_nat (owns x)).
  { intros t x Ht Hp. pose proof (iv_owner _ Hi t x Ht) as E. unfold owner_share in E.
    destruct (decide (c_owner c = Some t)); [done|lia]. }
  split; [|split].
  - intros t1 t2 x1 x2 H1 H2 P1 P2. destruct (Hown _ _ H1 P1), (Hown _ _ H2 P2). congruence.
  - intros t x Ht Hp. split; [|by apply Hown].
    pose proof (owns_le x _ _ (iv_thr _ Hi t x Ht)) as Hle. destruct (iv_mutex _ Hi) as (h & Hh & _ & Hc).
    rewrite (Hc t x Ht) in Hle. destruct h as [[t' d]|]; simpl in Hle; [|lia].
    destruct (Nat.eqb_spec t' t) as [->|]; [by exists d|lia].
  - intros Hnone. destruct (c_owner c) as [t|] eqn:Eo; [|split; [done|by apply (iv_none _ Hi)]]. exfalso.
    destruct (iv_owned _ Hi t Eo) as [Hc Hl]. destruct (lookup_lt_is_Some_2 _ _ Hl) as [x Hx].
    apply (Hnone t x Hx). pose proof (iv_owner _ Hi t x Hx) as E. unfold owner_share in E. rewrite decide_True in E by done. lia.
Qed.

(** ** The reference counter *)

Definition weight (x : thr) : nat := level x + refs x.
Definition total (l : list thr) : nat := foldr (fun x s => weight x + s) 0 l.

Lemma total_insert l t x x' : l !! t = Some x -> total (<[t := x']> l) + weight x = total l + weight x'.
Proof.
  revert t. induction l as [|y l IH]; intros [|t] H; simpl in H; [done|done| |].
  - simplify_eq. simpl. lia.
  - specialize (IH t H). simpl. lia.
Qed.

Lemma total_lookup l t x : l !! t = Some x -> weight x <= total l.
Proof. intros H. pose proof (total_insert l t x (mk_thr 0 0 [] Idle false) H). simpl in *. unfold weight in *. simpl in *. lia. Qed.

(** The thread is in an operation of the group lock. *)
Definition in_op (x : thr) : bool := match act x with Idle | Wanting _ => false | _ => true end.

Record refs_inv (c : cfg) : Prop := {
  ri_total : c_ref c = Z.of_nat (total (threads c));
  ri_op t x : threads c !! t = Some x -> in_op x = true -> 0 < weight x;
  ri_gone : gone c = true -> c_ref c = 0%Z;
  ri_bad : bad c = false
}.

(** A step that counts [d], and destroys the lock when the counter comes down to 0. *)
Definition ref_moves (c c' : cfg) (d : Z) : Prop :=
  (-1 <= d)%Z /\ c_ref c' = (c_ref c + d)%Z /\ gone c' = gone c || ((d =? -1) && (c_ref c' =? 0))%Z /\ bad c' = bad c.

(** The thread [t] becomes [x'] by such a step. *)
Definition counts (c c' : cfg) (t : nat) (x x' : thr) : Prop :=
  threads c' = <[t := x']> (threads c) /\ ref_moves c c' (Z.of_nat (weight x') - Z.of_nat (weight x)) /\
  (in_op x' = true -> 0 < weight x').

Lemma counts_same c c1 t x x' : threads c1 = threads c -> c_ref c1 = c_ref c -> gone c1 = gone c -> bad c1 = bad c ->
  weight x' = weight x -> (in_op x' = true -> 0 < weight x) -> counts c (put t x' c1) t x x'.
Proof.
  intros Et Er Eg Eb Ew Hop. unfold counts, ref_moves. simpl. rewrite Et, Er, Eg, Eb, Ew. split; [done|].
  split; [|done]. split; [lia|]. split; [lia|]. by rewrite Z.sub_diag, orb_false_r.
Qed.

Lemma counts_drop c c1 t x x' : grp_lock_dec_ref t c = Some c1 -> S (weight x') = weight x -> in_op x' = false ->
  counts c (put t x' c1) t x x'.
Proof.
  intros (Et & _ & _ & _ & _ & Er & Eg & Eb & _)%grp_dec_ref_ok Ew Hop. unfold counts, ref_moves. simpl. rewrite Et, Er, Eg, Eb.
  split; [done|]. split; [|by rewrite Hop]. replace (Z.of_nat (weight x') - Z.of_nat (weight x))%Z with (-1)%Z by lia.
  split; [lia|]. split; [done|]. split; [|done]. change (c_ref c + -1)%Z with (c_ref c - 1)%Z. destruct (_ =? 0)%Z; [by rewrite orb_true_r|by rewrite orb_false_r].
Qed.

Lemma counts_add c t x x' : weight x' = S (weight x) -> counts c (put t x' (grp_lock_add_ref c)) t x x'.
Proof.
  intros Ew. unfold counts, ref_moves. simpl. split; [done|]. split; [|lia].
  replace (Z.of_nat (weight x') - Z.of_nat (weight x))%Z with 1%Z by lia. split; [lia|]. split; [done|]. by rewrite orb_false_r.
Qed.

Lemma go_counts c t x c' : inv c -> refs_inv c -> threads c !! t = Some x -> go t x c = Some c' ->
  exists x', counts c c' t x x'.
Proof.
  intros Hi Hr Ht. pose proof (iv_thr _ Hi t x Ht) as Hok. pose proof (ri_op _ Hr t x Ht) as Hop.
  unfold go, acquire_step, tryacquire_step, undo_step, release_step, chain_step, unchain_step, with_act, in_op, thr_ok in *. destruct (act x) as [|[i|]|[i|]|[i|]| |[i|]|lk|lk pos n|lk n] eqn:Ha; intros H; try done.
  - bind_inv H. bind_inv H. injection H as <-. apply take_lock_same in E0 as (? & ? & ? & ? & ? & ? & ? & ?). eexists. by apply counts_same.
  - injection H as <-. eexists. apply counts_same; try (unfold grp_lock_set_owner_thread; by destruct (c_owner c)); done.
  - bind_inv H. destruct (take_lock _ _ c) as [c1|] eqn:E0; injection H as <-; eexists; [|by apply counts_same].
    apply take_lock_same in E0 as (? & ? & ? & ? & ? & ? & ? & ?). by apply counts_same.
  - injection H as <-. eexists. apply counts_same; try (unfold grp_lock_set_owner_thread; by destruct (c_owner c)); done.
  - bind_inv H. bind_inv H. injection H as <-. apply give_lock_same in E0 as (? & ? & ? & ? & ? & ? & ? & ?). eexists. by apply counts_same.
  - injection H as <-. eexists. by apply counts_same.
  - injection H as <-. eexists. by apply counts_add.
  - bind_inv H. bind_inv H. injection H as <-. apply give_lock_same in E0 as (? & ? & ? & ? & ? & ? & ? & ?). eexists. by apply counts_same.
  - bind_inv H. injection H as <-. eexists. apply counts_drop; [done| |done]. unfold weight. simpl. lia.
  - bind_inv H. injection H as <-. apply take_lock_same in E as (? & ? & ? & ? & ? & ? & ? & ?). eexists. by apply counts_same.
  - destruct (_ <? _)%Z; [|injection H as <-; eexists; by apply counts_same].
    bind_inv H. injection H as <-. apply take_lock_same in E as (? & ? & ? & ? & ? & ? & ? & ?). eexists. by apply counts_same.
  - destruct (_ <? _)%Z; [|injection H as <-; eexists; by apply counts_same].
    bind_inv H. injection H as <-. apply give_lock_same in E as (? & ? & ? & ? & ? & ? & ? & ?). eexists. by apply counts_same.
Qed.

Lemma begin_counts c t x a c' : refs_inv c -> threads c !! t = Some x -> act x = Idle -> polite c t a ->
  begin t x a c = Some c' -> (forall t', a <> Give t') -> exists x', counts c c' t x x'.
Proof.
  intros Hr Ht Ha Hp H Hg. unfold polite in Hp. rewrite Ht in Hp. unfold begin, unchain_start, with_act in H.
  destruct a as [| | | | |t'|lk|lk|lk pos|lk| |]; try done.
  - injection H as <-. eexists. by apply counts_same.
  - injection H as <-. eexists. by apply counts_same.
  - destruct (Nat.eqb_spec (level x) 0) as [|Hlv]; [done|]. injection H as <-. eexists.
    apply counts_same; try (unfold grp_lock_unset_owner_thread; by destruct (_ <=? _)%Z); [done|]. intros _. unfold weight. lia.
  - injection H as <-. eexists. apply counts_add. unfold weight. simpl. lia.
  - bind_inv H. injection H as <-. eexists. apply counts_drop; [done| |unfold in_op; simpl; by rewrite Ha]. unfold weight. simpl. lia.
  - by destruct (Hg t').
  - destruct (_ || _); [done|]. injection H as <-. eexists. by apply counts_same.
  - destruct (_ || _); [done|]. bind_inv H. injection H as <-. apply give_lock_same in E as (? & ? & ? & ? & ? & ? & ? & ?).
    eexists. apply counts_same; try done. unfold in_op. simpl. by rewrite Ha.
  - destruct (_ || _) eqn:Ec; [done|]. apply orb_false_elim in Ec as [_ Hlv%Nat.eqb_neq]. injection H as <-. eexists.
    apply counts_same; try done. unfold weight. lia.
  - destruct (lk =? 0); [done|]. destruct (Nat.eqb_spec (level x) 0) as [|Hlv]; [done|]. cbn [orb] in H.
    injection H as <-. destruct (item_of _ _ _) as [i|].
    + eexists. apply counts_same; try done. unfold weight. lia.
    + exists x. unfold counts, ref_moves, in_op. rewrite list_insert_id, Z.sub_diag, orb_false_r, Ha by done. split_and!; (done || lia).
Qed.

(** A step that does not touch the group lock does not count. *)
Lemma aloof_counts c t x a c' : uses_group x a = false ->
  attempt t x a c = Some c' -> c_ref c' = c_ref c.
Proof.
  intros Hu H. unfold attempt in H. unfold uses_group in Hu. destruct a as [| | | | |t'|lk|lk|lk pos|lk| |]; try done; destruct (act x) eqn:Ha; try done.
  - unfold begin, unchain_start in H. destruct (_ || _); [done|]. bind_inv H. by injection H as <-.
  - unfold begin, unchain_start in H. destruct (_ || _); [done|]. by injection H as <-.
  - unfold begin, unchain_start in H. destruct (_ || _); [done|]. bind_inv H. injection H as <-. by apply give_lock_same in E as (? & ? & ? & ? & ? & ? & ? & ?).
  - unfold go, acquire_step, tryacquire_step, undo_step, release_step, chain_step, unchain_step in H. rewrite Ha in H. bind_inv H. injection H as <-. by apply take_lock_same in E as (? & ? & ? & ? & ? & ? & ? & ?).
Qed.

Lemma counts_refs_inv c c' t x x' : refs_inv c -> threads c !! t = Some x -> counts c c' t x x' ->
  (gone c = true -> c_ref c' = c_ref c) -> refs_inv c'.
Proof.
  intros [Rt Ro Rg Rb] Ht (Et & (_ & Er & Eg & Eb) & Hop) Haloof. pose proof (total_insert _ _ _ x' Ht) as Hs. split.
  - rewrite Er, Et, Rt. lia.
  - intros t' y. rewrite Et. intros [(-> & -> & _)|[_ Hy]]%list_lookup_insert_Some; [done|by apply (Ro t' y)].
  - rewrite Eg, orb_true_iff, andb_true_iff, !Z.eqb_eq. intros [Hgone|[_ Hz]]; [|done]. rewrite Haloof by done. by apply Rg.
  - congruence.
Qed.

Lemma give_refs_inv c t t' x x' :
  refs_inv c -> t' <> t -> threads c !! t = Some x -> act x = Idle -> threads c !! t' = Some x' -> refs x <> 0 ->
  refs_inv (put t' (set_refs (S (refs x')) x') (put t (set_refs (refs x - 1) x) c)).
Proof.
  intros [Rt Ro Rg Rb] Hne Ht Ha Ht' Hx. pose proof (total_insert _ _ _ (set_refs (refs x - 1) x) Ht) as H1.
  assert (Ht1 : <[t := set_refs (refs x - 1) x]> (threads c) !! t' = Some x') by by rewrite list_lookup_insert_ne.
  pose proof (total_insert _ _ _ (set_refs (S (refs x')) x') Ht1) as H2. split; simpl; [|..|done|done].
  - rewrite Rt. unfold weight in *. simpl in *. lia.
  - intros t1 y [(<- & <- & _)|[_ [(<- & <- & _)|[_ Hy]]%list_lookup_insert_Some]]%list_lookup_insert_Some.
    + intros Hop. unfold weight. simpl. lia.
    + unfold in_op. simpl. by rewrite Ha.
    + by apply (Ro t1 y).
Qed.

(** In a destroyed lock nobody has a reference or is in an operation. *)
Lemma gone_quiet c t x : refs_inv c -> gone c = true -> threads c !! t = Some x -> weight x = 0 /\ in_op x = false.
Proof.
  intros [Rt Ro Rg Rb] Hg Ht. specialize (Rg Hg). pose proof (total_lookup _ _ _ Ht). split; [lia|].
  destruct (in_op x) eqn:Ho; [|done]. specialize (Ro t x Ht Ho). lia.
Qed.

Lemma gone_unused c t a c' : refs_inv c -> gone c = true -> polite c t a -> step c t a = Some c' ->
  exists x, threads c !! t = Some x /\ uses_group x a = false.
Proof.
  intros Hr Hg Hp H. unfold polite in Hp. unfold step in H. bind_inv H. bind_inv H. clear H. unfold attempt in E0. rewrite E in Hp. exists x. split; [done|].
  destruct (gone_quiet c t x Hr Hg E) as [Hw Hop]. unfold weight, in_op in *.
  destruct a as [| | | | |t'|lk|lk|lk pos|lk| |]; try done; try lia; destruct (act x) eqn:Ha; try done; unfold begin in E0.
  - by replace (level x) with 0 in E0 by lia.
  - destruct Hp as [|[_ ?]]; [lia|congruence].
  - replace (level x) with 0 in E0 by lia. by rewrite orb_true_r in E0.
  - replace (level x) with 0 in E0 by lia. by rewrite orb_true_r in E0.
  - unfold go, acquire_step, tryacquire_step, undo_step, release_step, chain_step, unchain_step in E0. by rewrite Ha in E0.
  - unfold uses_group. by rewrite Ha.
Qed.

Lemma step_attempt c t a c' : refs_inv c -> polite c t a -> step c t a = Some c' ->
  exists x, threads c !! t = Some x /\ attempt t x a c = Some c' /\ gone c && uses_group x a = false.
Proof.
  intros Hr Hp H. pose proof (gone_unused c t a c' Hr) as Hu. unfold step in *. bind_inv H. rewrite E in Hu.
  pose proof H as H'. bind_inv H. exists x. split; [done|]. assert (Hnb : gone c && uses_group x a = false).
  { destruct (gone c); [|done]. destruct (Hu eq_refl Hp H') as (? & [= <-] & ->). done. }
  rewrite Hnb in H. by injection H as <-.
Qed.

Lemma step_counts c t a c' : inv c -> refs_inv c -> polite c t a -> step c t a = Some c' ->
  refs_inv c' /\ exists d, ref_moves c c' d.
Proof.
  intros Hi Hr Hp H. destruct (step_attempt c t a c' Hr Hp H) as (x & E & E0 & Hnb). clear H.
  assert (Hgo : forall x', counts c c' t x x' -> refs_inv c' /\ exists d, ref_moves c c' d).
  { intros x' Hc. split; [|destruct Hc as (_ & Hc & _); by eexists]. apply (counts_refs_inv c c' t x x' Hr E Hc).
    intros Hg. rewrite Hg in Hnb. by apply (aloof_counts c t x a). }
  clear Hnb. unfold attempt in E0. destruct a as [| | | | |t'|lk|lk|lk pos|lk| |] eqn:Ea.
  6:{ destruct (act x) eqn:Ha; [|done..]. unfold begin in E0. destruct (Nat.eqb_spec (refs x) 0); [done|].
      destruct (Nat.eqb_spec t' t); [done|]. cbn [orb] in E0. bind_inv E0. injection E0 as <-. split; [by apply give_refs_inv|].
      exists 0%Z. unfold ref_moves. simpl. rewrite orb_false_r. split; [lia|]. split; [lia|done]. }
  11:{ destruct (go_counts c t x c' Hi Hr E E0) as [x' Hx']. by eapply Hgo. }
  all: (destruct (act x) eqn:Ha; [|done..]); rewrite <-Ea in *;
    (destruct (begin_counts c t x a c' Hr E Ha Hp E0) as [x' Hx']; [by subst a|by eapply Hgo]).
Qed.

Lemma start_refs m n its l : refs_inv (start m n its l).
Proof.
  split; try done; simpl.
  - induction m as [|m IH]; [done|]. simpl. by rewrite <-IH.
  - by intros t x [-> _]%lookup_replicate.
Qed.

Lemma reachable_refs m n its l c : 0 < n -> setup_ok n its l -> reachable polite (start m n its l) c -> refs_inv c.
Proof.
  intros Hn Hs Hr. assert (inv c /\ refs_inv c) as [_ H]; [|done]. revert c Hr.
  apply (rtc_ind_r (fun c => inv c /\ refs_inv c) (start m n its l)); [split; [by apply start_inv|apply start_refs]|].
  intros c1 c2 _ (t & a & Hp & Hst) [Hi Hr]. split; [by eapply step_inv|]. by eapply step_counts.
Qed.

(** C36 Threads that use the lock only while they hold a reference, by having
    taken or been given one or by having acquired the lock, that give up only
    references they hold, and that never destroy the lock by force, do not touch
    it after it has been destroyed, whatever the order of their steps and also
    when locks are chained and unchained: the counter is the number of references
    that the threads hold; a step destroys the lock if and only if it takes the
    counter down to 0; and from then on no thread has a reference or is in an
    operation of the lock. *)
Theorem grp_no_use_after_destroy m n its l c :
  0 < n -> setup_ok n its l -> reachable polite (start m n its l) c ->
  c_ref c = Z.of_nat (total (threads c)) /\ bad c = false /\
  (gone c = true -> forall t x, threads c !! t = Some x -> level x = 0 /\ refs x = 0 /\ in_op x = false) /\
  (forall t a c', gone c = false -> polite c t a -> step c t a = Some c' ->
     (gone c' = true <-> (0 < c_ref c)%Z /\ c_ref c' = 0%Z)).
Proof.
  intros Hn Hs Hr. pose proof (reachable_refs m n its l c Hn Hs Hr) as Hri. split; [apply Hri|]. split; [apply Hri|]. split.
  - intros Hg t x Ht. destruct (gone_quiet c t x Hri Hg Ht) as [Hw Ho]. unfold weight in Hw. split_and!; [lia|lia|done].
  - intros t a c' Hg Hp Hst. pose proof (reachable_inv _ m n its l c Hn Hs Hr) as Hi.
    destruct (step_counts c t a c' Hi Hri Hp Hst) as [Hri' (d & Hd & Er & Eg & _)]. rewrite Eg, Hg, orb_false_l, andb_true_iff, !Z.eqb_eq.
    split; [lia|]. intros [Hpos Hz]. split; [lia|done].
Qed.

(** ** Runs by a schedule *)

#[export] Instance anything_dec c t a : Decision (anything c t a).
Proof. left. exact I. Defined.
#[export] Instance polite_dec c t a : Decision (polite c t a).
Proof. unfold polite. destruct (threads c !! t); [destruct a|]; apply _. Defined.
#[export] Instance calm_dec c t a : Decision (calm c t a).
Proof. unfold calm. destruct a; apply _. Defined.

Section Schedules.
Context (ok : cfg -> nat -> action -> Prop) {Hdec : forall c t a, Decision (ok c t a)}.

(** The schedule when every step of it is one that the rule allows. *)
Fixpoint run_ok (sched : list (nat * action)) (c : cfg) : option cfg :=
  match sched with
  | [] => Some c
  | (t, a) :: sched => if bool_decide (ok c t a) then c ← step c t a; run_ok sched c else None
  end.

Lemma run_ok_reachable sched : forall c c', run_ok sched c = Some c' -> reachable ok c c'.
Proof.
  induction sched as [|[t a] sched IH]; intros c c' H; simpl in H; [injection H as <-; apply rtc_refl|].
  case_bool_decide as Hok; [|done]. bind_inv H. eapply rtc_l; [by exists t, a|by apply IH].
Qed.

End Schedules.

Definition goes (t k : nat) : list (nat * action) := replicate k (t, Go).

(** Two locks in the group, the own one first: the thread 0 is inside, and the
    thread 1, which was given a reference, waits for the own lock. *)
Definition two_items : list item := [mk_item 0 0; mk_item 1 1].
Definition two_threads : list (nat * action) :=
  [(0, AddRef); (0, AddRef); (0, Give 1); (0, Acquire)] ++ goes 0 4 ++ [(1, Acquire)].
Definition ex_cfg : cfg :=
  mk_cfg [mk_thr 1 1 [] Idle false; mk_thr 0 1 [] (Acquiring (Some 0)) false]
    [Some (0, 1); Some (0, 1)] two_items [0; 1] (Some 0) 1 3 false false.

Lemma two_items_ok : setup_ok 2 two_items [0; 1].
Proof.
  split.
  - apply (bool_decide_unpack _). vm_compute. exact I.
  - by left.
  - intros i. rewrite !elem_of_cons. intros [->|[->|?%elem_of_nil]]; [simpl; lia|simpl; lia|done].
  - intros [|[|i]] it; simpl; intros [= <-]; simpl; lia.
Qed.

Lemma ex_reachable : reachable calm (start 2 2 two_items [0; 1]) ex_cfg.
Proof. apply (run_ok_reachable calm two_threads). vm_compute. reflexivity. Qed.

Lemma ex_reachable_polite : reachable polite (start 2 2 two_items [0; 1]) ex_cfg.
Proof. apply (run_ok_reachable polite two_threads). vm_compute. reflexivity. Qed.

Lemma ex_reachable_anything : reachable anything (start 2 2 two_items [0; 1]) ex_cfg.
Proof. apply (run_ok_reachable anything two_threads). vm_compute. reflexivity. Qed.

Lemma grp_mutual_exclusion_witness : c_owner ex_cfg = Some 0 /\ c_cnt ex_cfg = 1%Z.
Proof.
  destruct (grp_mutual_exclusion 2 2 two_items [0; 1] ex_cfg ltac:(lia) two_items_ok ex_reachable_anything eq_refl) as (_ & H & _).
  exact (proj2 (H 0 (mk_thr 1 1 [] Idle false) eq_refl ltac:(vm_compute; lia))).
Defined.

Lemma grp_no_use_after_destroy_witness : c_ref ex_cfg = Z.of_nat (total (threads ex_cfg)) /\ bad ex_cfg = false.
Proof.
  destruct (grp_no_use_after_destroy 2 2 two_items [0; 1] ex_cfg ltac:(lia) two_items_ok ex_reachable_polite) as (H1 & H2 & _).
  split; [exact H1|exact H2].
Defined.

(** The last reference: the thread 1 gets the lock after all, gives it back and
    drops its reference as the last one. *)
Lemma last_reference : exists c, run_ok polite
    (two_threads ++ [(0, Release)] ++ goes 0 3 ++ [(0, DecRef)] ++ goes 1 4 ++ [(1, Release)] ++ goes 1 3 ++ [(1, DecRef)])
    (start 2 2 two_items [0; 1]) = Some c /\ gone c = true /\ bad c = false /\ locks c = [None; None].
Proof. eexists. split; [vm_compute; reflexivity|done]. Qed.

(** ** Changes of the list while others wait *)

(** A lock is chained in front of the group's own one while another thread waits
    for that: it comes in without the new lock, which is free. *)
Theorem chain_lets_waiter_in : exists c,
  run_ok polite
    ([(0, AddRef); (0, AddRef); (0, Give 1); (0, Acquire)] ++ goes 0 3 ++ [(1, Acquire); (0, Chain 1 0)] ++ goes 0 2 ++
     [(0, Release)] ++ goes 0 3 ++ goes 1 3) (start 2 2 [mk_item 0 0] [0]) = Some c /\
  (exists x, threads c !! 1 = Some x /\ inside x) /\
  items c !! 1 = Some (mk_item 1 0) /\ lock_list c = [1; 0] /\ locks c !! 1 = Some None.
Proof.
  eexists. split; [vm_compute; reflexivity|]. split; [|done]. eexists. split; [done|]. unfold inside, owns. simpl. lia.
Qed.

(** A lock is taken out of the group while another thread waits for it: the item
    points to itself, and the thread takes the lock again and again, and nothing
    else, for ever. *)
Definition unchained : list (nat * action) :=
  [(0, AddRef); (0, AddRef); (0, Give 1); (0, Acquire)] ++ goes 0 4 ++ [(1, Acquire); (0, Unchain 1)] ++ goes 0 2.
Definition spinning (k : nat) : cfg :=
  mk_cfg [mk_thr 1 1 [] Idle false; mk_thr 0 1 [] (Acquiring (Some 1)) false]
    [Some (0, 1); if k =? 0 then None else Some (1, k)] [mk_item 0 0; mk_item 1 0] [0] (Some 0) 1 3 false false.

Theorem unchain_waiter_spins k :
  run_ok polite (unchained ++ goes 1 k) (start 2 2 [mk_item 0 0; mk_item 1 0] [1; 0]) = Some (spinning k).
Proof.
  assert (Hgo : forall j, run_ok polite (goes 1 k) (spinning j) = Some (spinning (j + k))).
  { induction k as [|k IH]; intros j; [by rewrite Nat.add_0_r|]. unfold goes. cbn [replicate run_ok].
    rewrite bool_decide_eq_true_2 by done. replace (step (spinning j) 1 Go) with (Some (spinning (S j))) by by destruct j.
    rewrite bind_some_eq. fold (goes 1 k). rewrite IH. do 2 f_equal. lia. }
  replace (run_ok _ _ _) with (run_ok polite (goes 1 k) (spinning 0)) by reflexivity. apply (Hgo 0).
Qed.
