(* ===== verification/GrpLockDrain.v ===== *)
(** * Group locks between threads: nobody waits for ever

    As long as the list of the group is left alone, how often a thread holds each
    lock follows from what it has acquired and what it is doing.  From this: a
    thread that is inside holds every lock of the group; and threads that wait
    for nothing while they hold a member directly, and inside wait only for
    members, always come to an end when they begin nothing new. *)
From S2P Require Import Prelude GrpLockThreads GrpLockThreadsSpec.
#[local] Open Scope nat_scope.

(** ** Parts of the list *)

(** The items before [i]. *)
Fixpoint before (l : list nat) (i : nat) : list nat :=
  match l with
  | [] => []
  | j :: l => if j =? i then [] else j :: before l i
  end.

(** What an operation has taken whose pointer is at [cur], on its way forward and
    on its way back. *)
Definition taken (l : list nat) (cur : option nat) : list nat :=
  match cur with None => l | Some i => before l i end.
Definition kept (l : list nat) (cur : option nat) : list nat :=
  match cur with None => [] | Some i => before l i ++ [i] end.

Definition points (l : list nat) (cur : option nat) : Prop := match cur with None => True | Some i => i ∈ l end.

Lemma before_split l1 l2 i : i ∉ l1 -> before (l1 ++ i :: l2) i = l1.
Proof.
  induction l1 as [|j l1 IH]; simpl; [by rewrite Nat.eqb_refl|].
  intros [Hj Hl]%not_elem_of_cons. rewrite (proj2 (Nat.eqb_neq j i)) by congruence. by rewrite IH.
Qed.

Lemma next_split l1 l2 i : i ∉ l1 -> next_in (l1 ++ i :: l2) i = Some (head l2).
Proof.
  induction l1 as [|j l1 IH]; simpl; [by rewrite Nat.eqb_refl|].
  intros [Hj Hl]%not_elem_of_cons. rewrite (proj2 (Nat.eqb_neq j i)) by congruence. by rewrite IH.
Qed.

(** A list without repetitions around one of its elements. *)
Lemma around (l : list nat) (i : nat) : NoDup l -> i ∈ l -> exists l1 l2, l = l1 ++ i :: l2 /\ (i ∉ l1) /\ (i ∉ l2).
Proof.
  intros Hnd (l1 & l2 & ->)%list_elem_of_split. exists l1, l2. apply NoDup_app in Hnd as (_ & Hd & [Hi _]%NoDup_cons).
  split_and!; [done| |done]. intros Hin. apply (Hd i Hin). by left.
Qed.

Lemma next_taken l i : NoDup l -> i ∈ l ->
  let cur := default (Some i) (next_in l i) in points l cur /\ taken l cur = before l i ++ [i].
Proof.
  intros Hnd Hi. destruct (around l i Hnd Hi) as (l1 & l2 & -> & H1 & H2). rewrite next_split, before_split by done. simpl.
  destruct l2 as [|j l2]; simpl; [done|]. split; [rewrite elem_of_app, !elem_of_cons; tauto|].
  replace (l1 ++ i :: j :: l2) with ((l1 ++ [i]) ++ j :: l2) in * by by rewrite <-app_assoc. apply before_split.
  apply NoDup_app in Hnd as (_ & Hd & _). intros Hj. apply (Hd j Hj). by left.
Qed.

Lemma prev_kept l i : NoDup l -> i ∈ l ->
  let cur := default (Some i) (next_in (rev l) i) in points l cur /\ kept l cur = before l i.
Proof.
  intros Hnd Hi. destruct (around l i Hnd Hi) as (l1 & l2 & -> & H1 & H2). rewrite before_split by done.
  rewrite rev_app_distr. cbn [rev]. rewrite <-app_assoc. cbn [app]. rewrite next_split by by rewrite elem_of_rev. simpl.
  destruct l1 as [|j l1 _] using rev_ind; [done|]. rewrite rev_app_distr. simpl. rewrite <-app_assoc in *. simpl in *.
  split; [rewrite elem_of_app, !elem_of_cons; tauto|]. rewrite before_split; [done|].
  apply NoDup_app in Hnd as (_ & Hd & _). intros Hj. apply (Hd j Hj). by left.
Qed.

Lemma head_taken l : points l (head l) /\ (0 ∈ l -> taken l (head l) = []).
Proof. destruct l as [|i l]; simpl; [by split; [|intros ?%elem_of_nil]|]. rewrite Nat.eqb_refl. split; [by left|done]. Qed.

Lemma final_kept l : NoDup l -> points l (head (rev l)) /\ kept l (head (rev l)) = l.
Proof.
  intros Hnd. destruct l as [|i l _] using rev_ind; [done|]. rewrite rev_app_distr. simpl.
  split; [apply elem_of_app; right; by left|]. rewrite before_split; [done|].
  apply NoDup_app in Hnd as (_ & Hd & _). intros Hi. apply (Hd i Hi). by left.
Qed.

(** ** How often a thread holds a lock *)

Definition copies (L : nat) (ls : list nat) : nat := length (filter (fun L' => L' = L) ls).

Lemma copies_app L l1 l2 : copies L (l1 ++ l2) = copies L l1 + copies L l2.
Proof. unfold copies. by rewrite filter_app, length_app. Qed.

Lemma copies_cons L L' ls : copies L (L' :: ls) = (if L' =? L then 1 else 0) + copies L ls.
Proof.
  unfold copies. destruct (Nat.eqb_spec L' L) as [->|]; [by rewrite filter_cons_True|by rewrite filter_cons_False].
Qed.

Lemma copies_one L L' : copies L [L'] = if L' =? L then 1 else 0.
Proof. rewrite copies_cons. by destruct (L' =? L). Qed.

Lemma copies_remove L L' ls : L' ∈ ls -> copies L ls = (if L' =? L then 1 else 0) + copies L (remove_one L' ls).
Proof.
  induction ls as [|k ls IH]; [by intros ?%elem_of_nil|]. intros Hin. simpl. destruct (Nat.eqb_spec k L') as [->|Hne].
  - apply copies_cons.
  - rewrite !copies_cons. apply elem_of_cons in Hin as [|Hin]; [congruence|]. rewrite (IH Hin). lia.
Qed.

Lemma copies_pos L ls : 0 < copies L ls <-> L ∈ ls.
Proof.
  induction ls as [|k ls IH]; [split; [cbn; lia|by intros ?%elem_of_nil]|]. rewrite copies_cons, elem_of_cons, <-IH.
  destruct (Nat.eqb_spec k L) as [->|Hne]; [split; [by left|lia]|]. simpl. split; [by right|]. intros [|]; [congruence|done].
Qed.

Lemma length_remove L ls : L ∈ ls -> length ls = S (length (remove_one L ls)).
Proof.
  induction ls as [|k ls IH]; [by intros ?%elem_of_nil|]. intros [->|Hin]%elem_of_cons; simpl; [by rewrite Nat.eqb_refl|].
  destruct (k =? L); [done|]. simpl. by rewrite (IH Hin).
Qed.

Section Calm.
Context (n : nat) (its : list item) (l : list nat).
Hypothesis Hn : 0 < n.
Hypothesis Hsetup : setup_ok n its l.

Definition lock_of (i : nat) : nat := default 0 (i_lock <$> its !! i).

(** What the operation that the thread is in has taken, and how often the thread
    has acquired the lock apart from it. *)
Definition part (x : thr) : list nat :=
  match act x with
  | Acquiring cur | Trying cur => taken l cur
  | Counting => l
  | Undoing cur | Releasing cur => kept l cur
  | _ => []
  end.

Definition rounds (x : thr) : nat := match act x with Releasing _ => level x - 1 | _ => level x end.

Definition holds (x : thr) (L : nat) : nat :=
  copies L (dirs x) + rounds x * copies L (map lock_of l) + copies L (map lock_of (part x)).

Definition lock_ok (L : nat) : Prop := L <> 0 /\ L < n.

Definition thr_fits (x : thr) : Prop :=
  Forall lock_ok (dirs x) /\
  match act x with
  | Acquiring cur | Trying cur | Undoing cur => points l cur
  | Releasing cur => points l cur /\ 0 < level x
  | Wanting L => lock_ok L
  | Chaining _ _ _ | Unchaining _ _ => False
  | _ => True
  end.

Record calm_inv (c : cfg) : Prop := {
  ci_items : items c = its;
  ci_list : lock_list c = l;
  ci_len : length (locks c) = n;
  ci_thr t x : threads c !! t = Some x -> thr_fits x;
  ci_held L h : locks c !! L = Some h ->
    held_ok (length (threads c)) h /\ forall t x, threads c !! t = Some x -> holds x L = depth t h
}.

Lemma item_in i : i ∈ l -> exists it, its !! i = Some it /\ lock_of i = i_lock it /\ i_lock it < n.
Proof.
  intros Hi. destruct (lookup_lt_is_Some_2 its i (su_items _ _ _ Hsetup i Hi)) as [it Hit]. exists it. unfold lock_of. rewrite Hit.
  split_and!; [done|done|]. by apply (su_locks _ _ _ Hsetup i it).
Qed.

(** The locks after a step of the thread [t]. *)
Definition locks_move (c c' : cfg) (t : nat) (x x' : thr) : Prop :=
  length (locks c') = length (locks c) /\
  forall L h', locks c' !! L = Some h' -> exists h, locks c !! L = Some h /\
    (held_ok (length (threads c)) h -> holds x L = depth t h ->
     held_ok (length (threads c)) h' /\ holds x' L = depth t h' /\ forall t', t' <> t -> depth t' h' = depth t' h).

Lemma calm_update c c' t x x' :
  calm_inv c -> threads c !! t = Some x -> threads c' = <[t := x']> (threads c) -> items c' = items c ->
  lock_list c' = lock_list c -> thr_fits x' -> locks_move c c' t x x' -> calm_inv c'.
Proof.
  intros [Ci Cl Cn Ct Ch] Ht Et Ei El Hx [Hlen Hm]. split; [congruence..| |].
  - intros t' y. rewrite Et. intros [(-> & -> & _)|[_ Hy]]%list_lookup_insert_Some; [done|by apply (Ct t')].
  - intros L h' Hh'. destruct (Hm L h' Hh') as (h & Hh & Hmv). destruct (Ch L h Hh) as [Hok Hd].
    destruct (Hmv Hok (Hd t x Ht)) as (H1 & H2 & H3). rewrite Et, length_insert. split; [done|].
    intros t' y [(-> & -> & _)|[Hne Hy]]%list_lookup_insert_Some; [done|]. rewrite H3 by congruence. by apply Hd.
Qed.

Lemma move_none c c' t x x' : locks c' = locks c -> (forall L, holds x' L = holds x L) -> locks_move c c' t x x'.
Proof. intros E Hx. unfold locks_move. rewrite E. split; [done|]. intros L h Hh. exists h. split; [done|]. rewrite Hx. done. Qed.

Lemma move_take c c' t x x' L0 : take_lock t L0 c = Some c' -> t < length (threads c) ->
  (forall L, holds x' L = (if L0 =? L then 1 else 0) + holds x L) -> locks_move c c' t x x'.
Proof.
  unfold take_lock. intros H Ht Hx. bind_inv H. bind_inv H. injection H as <-. unfold locks_move. simpl. split; [apply length_insert|].
  intros L h' [(<- & <- & _)|[Hne Hh]]%list_lookup_insert_Some.
  - exists x0. split; [done|]. intros Hok Hd. destruct (mutex_lock_depth _ _ _ _ E0 Hok Ht) as (H1 & H2 & H3). split; [done|].
    split; [|done]. by rewrite Hx, Nat.eqb_refl, Hd, H2.
  - exists h'. split; [done|]. rewrite Hx, (proj2 (Nat.eqb_neq L0 L)) by done. done.
Qed.

Lemma move_give c c' t x x' L0 : give_lock t L0 c = Some c' ->
  (forall L, holds x L = (if L0 =? L then 1 else 0) + holds x' L) -> locks_move c c' t x x'.
Proof.
  unfold give_lock. intros H Hx. bind_inv H. injection H as <-. unfold locks_move. simpl. split; [apply length_insert|].
  intros L h' [(<- & <- & _)|[Hne Hh]]%list_lookup_insert_Some.
  - exists x0. split; [done|]. intros Hok Hd. destruct (mutex_unlock_depth _ t _ Hok) as (H1 & H2 & H3). split; [done|].
    split; [|done]. rewrite H2, <-Hd, Hx, Nat.eqb_refl. lia.
  - exists h'. split; [done|]. intros Hok. rewrite Hx, (proj2 (Nat.eqb_neq L0 L)) by done. done.
Qed.

(** *** The last reference *)

Lemma total_two ts t t' x y : t' <> t -> ts !! t = Some x -> ts !! t' = Some y -> weight x + weight y <= total ts.
Proof.
  intros Hne Ht Ht'. pose proof (total_insert ts t x (mk_thr 0 0 [] Idle false) Ht) as H1.
  pose proof (total_lookup (<[t := mk_thr 0 0 [] Idle false]> ts) t' y) as H2. rewrite list_lookup_insert_ne in H2 by done.
  specialize (H2 Ht'). unfold weight in *. simpl in *. lia.
Qed.

(** Nobody is inside when it is given up. *)
Lemma last_unowned c t x : inv c -> refs_inv c -> threads c !! t = Some x -> 0 < weight x -> c_ref c = 1%Z ->
  (weight x = 1 -> owns x = 0) -> c_cnt c = 0%Z.
Proof.
  intros Hi Hr Ht Hw Hc Hx. destruct (c_owner c) as [t'|] eqn:Eo; [|by apply (iv_none _ Hi)]. exfalso.
  destruct (iv_owned _ Hi t' Eo) as [Hp Hl]. destruct (lookup_lt_is_Some_2 _ _ Hl) as [y Hy].
  pose proof (iv_owner _ Hi t' y Hy) as Ho. unfold owner_share in Ho. rewrite decide_True in Ho by done.
  pose proof (ri_total _ Hr) as Ht1. pose proof (total_lookup _ _ _ Ht). destruct (decide (t' = t)) as [->|Hne].
  - rewrite Ht in Hy. injection Hy as <-. lia.
  - pose proof (total_two _ _ _ _ _ Hne Ht Hy). pose proof (ri_op _ Hr t' y Hy) as Hop. unfold owns, in_op, weight in *.
    destruct (act y); try lia; specialize (Hop eq_refl); lia.
Qed.

Lemma give_chained_none t ls c : c_cnt c = 0%Z -> (forall i, i ∈ ls -> is_Some (items c !! i)) -> give_chained t ls c = Some c.
Proof.
  intros Hc. induction ls as [|i ls IH]; intros Hit; [done|]. simpl. destruct (Hit i) as [it ->]; [by left|]. simpl.
  rewrite Hc. simpl. destruct (i_lock it =? 0); simpl; apply IH; intros j Hj; apply Hit; by right.
Qed.

Lemma dec_ref_calm c t x : inv c -> refs_inv c -> calm_inv c -> threads c !! t = Some x -> 0 < weight x ->
  (weight x = 1 -> owns x = 0) -> exists c1, grp_lock_dec_ref t c = Some c1 /\ locks c1 = locks c.
Proof.
  intros Hi Hr Hci Ht Hw Hx. unfold grp_lock_dec_ref. cbn [c_ref set_ref]. destruct (Z.eqb_spec (c_ref c - 1) 0) as [He|]; [|by eexists].
  unfold grp_lock_destroy. rewrite give_chained_none; [by eexists| |].
  - simpl. apply (last_unowned c t x); try done. lia.
  - simpl. rewrite (ci_items _ Hci), (ci_list _ Hci). intros i (it & -> & _)%item_in. done.
Qed.

(** *** Every step *)

Ltac fits := unfold thr_fits in *; cbn [act dirs level set_act set_level set_refs set_dirs] in *; split; [tauto|].
Ltac held_tac := intros ?; unfold holds, rounds, part; cbn [act dirs level set_act set_level set_refs set_dirs];
  rewrite ?copies_app, ?copies_cons, ?map_app, ?copies_app.

Lemma take_calm c c1 t x i it k b :
  calm_inv c -> threads c !! t = Some x -> k = Acquiring \/ k = Trying -> act x = k (Some i) ->
  items c !! i = Some it -> take_lock t (i_lock it) c = Some c1 -> calm_inv (with_act t x (k (next c i)) b c1).
Proof.
  intros Hci Ht Hk Ha Hit E. pose proof (ci_thr _ Hci t x Ht) as Hfit. pose proof (su_nodup _ _ _ Hsetup) as Hnd.
  destruct (take_lock_same _ _ _ _ E) as (S1 & S2 & S3 & _). assert (Hp : i ∈ l).
  { unfold thr_fits in Hfit. rewrite Ha in Hfit. destruct Hk as [-> | ->]; apply Hfit. }
  destruct (item_in i Hp) as (it' & Eit & El & _). rewrite (ci_items _ Hci), Eit in Hit. injection Hit as ->.
  destruct (next_taken l i Hnd Hp) as [N1 N2]. unfold next. rewrite (ci_list _ Hci).
  eapply (calm_update c _ t); [done|exact Ht|simpl; by rewrite S1|done|done|..].
  - unfold thr_fits in *. cbn [act dirs set_act]. split; [apply Hfit|]. destruct Hk as [-> | ->]; exact N1.
  - apply (move_take _ _ _ _ _ _ E); [by apply lookup_lt_Some in Ht|]. intros L. unfold holds, rounds, part. cbn [act dirs level set_act].
    rewrite Ha. destruct Hk as [-> | ->]; rewrite N2, map_app, copies_app; cbn [map taken]; rewrite El, copies_one; lia.
Qed.

Lemma give_calm c c1 t x i it k b :
  calm_inv c -> threads c !! t = Some x -> k = Undoing \/ k = Releasing -> act x = k (Some i) ->
  items c !! i = Some it -> give_lock t (i_lock it) c = Some c1 -> calm_inv (with_act t x (k (prev c i)) b c1).
Proof.
  intros Hci Ht Hk Ha Hit E. pose proof (ci_thr _ Hci t x Ht) as Hfit. pose proof (su_nodup _ _ _ Hsetup) as Hnd.
  destruct (give_lock_same _ _ _ _ E) as (S1 & S2 & S3 & _). assert (Hp : i ∈ l).
  { unfold thr_fits in Hfit. rewrite Ha in Hfit. destruct Hk as [-> | ->]; simpl in Hfit; tauto. }
  destruct (item_in i Hp) as (it' & Eit & El & _). rewrite (ci_items _ Hci), Eit in Hit. injection Hit as ->.
  destruct (prev_kept l i Hnd Hp) as [N1 N2]. unfold prev. rewrite (ci_list _ Hci).
  eapply (calm_update c _ t); [done|exact Ht|simpl; by rewrite S1|done|done|..].
  - unfold thr_fits in *. cbn [act dirs level set_act]. rewrite Ha in Hfit. destruct Hk as [-> | ->]; tauto.
  - apply (move_give _ _ _ _ _ _ E). intros L. unfold holds, rounds, part. cbn [act dirs level set_act].
    rewrite Ha. destruct Hk as [-> | ->]; rewrite N2; cbn [kept]; rewrite map_app, copies_app; cbn [map]; rewrite El, copies_one; lia.
Qed.

(** A step that changes no lock. *)
Lemma still_calm c c1 t x x' :
  calm_inv c -> threads c !! t = Some x -> threads c1 = threads c -> items c1 = items c -> lock_list c1 = lock_list c ->
  locks c1 = locks c -> thr_fits x' -> (forall L, holds x' L = holds x L) -> calm_inv (put t x' c1).
Proof.
  intros Hci Ht Et Ei El Ek Hx Hh. eapply (calm_update c _ t); [done|exact Ht|simpl; by rewrite Et|done|done|done|]. by apply move_none.
Qed.

Lemma dec_calm c c1 t x x' :
  inv c -> refs_inv c -> calm_inv c -> threads c !! t = Some x -> 0 < weight x -> (weight x = 1 -> owns x = 0) ->
  grp_lock_dec_ref t c = Some c1 -> thr_fits x' -> (forall L, holds x' L = holds x L) -> calm_inv (put t x' c1).
Proof.
  intros Hi Hr Hci Ht Hw Hx E Hf Hh. destruct (dec_ref_calm c t x Hi Hr Hci Ht Hw Hx) as (c2 & E2 & El).
  rewrite E in E2. injection E2 as <-. destruct (grp_dec_ref_ok _ _ _ E) as (S1 & S2 & S3 & _). by apply (still_calm c _ t x).
Qed.

Lemma go_calm c t x c' : inv c -> refs_inv c -> calm_inv c -> threads c !! t = Some x -> go t x c = Some c' -> calm_inv c'.
Proof.
  intros Hi Hr Hci Ht. pose proof (ci_thr _ Hci t x Ht) as Hfit. unfold thr_fits in Hfit. unfold go, acquire_step, tryacquire_step, undo_step, release_step, chain_step, unchain_step.
  destruct (act x) as [|[i|]|[i|]|[i|]| |[i|]|lk|lk pos k|lk k] eqn:Ha; intros H; destruct Hfit as [Hds Hp]; try done.
  - bind_inv H. bind_inv H. injection H as <-. by eapply (take_calm _ _ _ _ _ _ Acquiring); eauto.
  - injection H as <-. apply (still_calm c _ t x); try (unfold grp_lock_set_owner_thread; by destruct (c_owner c)); [done..|].
    intros L. unfold holds, rounds, part. simpl. by rewrite Ha.
  - bind_inv H. destruct (take_lock _ _ c) as [c1|] eqn:E0; injection H as <-; [by eapply (take_calm _ _ _ _ _ _ Trying); eauto|].
    destruct (prev_kept l i (su_nodup _ _ _ Hsetup) Hp) as [N1 N2]. unfold prev. rewrite (ci_list _ Hci).
    apply (still_calm c _ t x); try done. intros L. unfold holds, rounds, part. cbn [act dirs level set_act]. by rewrite Ha, N2.
  - injection H as <-. apply (still_calm c _ t x); try (unfold grp_lock_set_owner_thread; by destruct (c_owner c)); [done..|].
    intros L. unfold holds, rounds, part. simpl. by rewrite Ha.
  - bind_inv H. bind_inv H. injection H as <-. by eapply (give_calm _ _ _ _ _ _ Undoing); eauto.
  - injection H as <-. apply (still_calm c _ t x); try done. intros L. unfold holds, rounds, part. simpl. by rewrite Ha.
  - injection H as <-. apply (still_calm c _ t x); try done. intros L. unfold holds, rounds, part. simpl. rewrite Ha. cbn. lia.
  - bind_inv H. bind_inv H. injection H as <-. by eapply (give_calm _ _ _ _ _ _ Releasing); eauto.
  - destruct Hp as [_ Hp]. bind_inv H. injection H as <-. apply (dec_calm c _ t x); try done.
    + unfold weight. lia.
    + unfold weight, owns. rewrite Ha. lia.
    + intros L. unfold holds, rounds, part. simpl. by rewrite Ha.
  - bind_inv H. injection H as <-. destruct (take_lock_same _ _ _ _ E) as (S1 & S2 & S3 & _).
    eapply (calm_update c _ t); [done|exact Ht|simpl; by rewrite S1|done|done|..].
    + split; [|done]. by constructor.
    + apply (move_take _ _ _ _ _ _ E); [by apply lookup_lt_Some in Ht|]. intros L. unfold holds, rounds, part. simpl.
      rewrite Ha, copies_cons. cbn [map]. lia.
Qed.

Lemma begin_calm c t x a c' : inv c -> refs_inv c -> calm_inv c -> threads c !! t = Some x -> act x = Idle ->
  calm c t a -> begin t x a c = Some c' -> calm_inv c'.
Proof.
  intros Hi Hr Hci Ht Ha Hp H. pose proof (ci_thr _ Hci t x Ht) as [Hds _]. unfold begin, unchain_start, with_act in H.
  destruct (head_taken l) as [T1 T2]. specialize (T2 (su_own _ _ _ Hsetup)).
  destruct (final_kept l (su_nodup _ _ _ Hsetup)) as [K1 K2].
  assert (Hheld : forall L, holds x L = copies L (dirs x) + level x * copies L (map lock_of l))
    by (intros L; unfold holds, rounds, part; rewrite Ha; cbn; lia).
  destruct a as [| | | | |t'|lk|lk|lk pos|lk| |]; try done; cbn [calm] in Hp; unfold polite in Hp; rewrite Ht in Hp.
  - injection H as <-. unfold first. rewrite (ci_list _ Hci). apply (still_calm c _ t x); try done.
    intros L. rewrite Hheld. unfold holds, rounds, part. cbn [act dirs level set_act]. rewrite T2. cbn. lia.
  - injection H as <-. unfold first. rewrite (ci_list _ Hci). apply (still_calm c _ t x); try done.
    intros L. rewrite Hheld. unfold holds, rounds, part. cbn [act dirs level set_act]. rewrite T2. cbn. lia.
  - destruct (Nat.eqb_spec (level x) 0) as [|Hlv]; [done|]. injection H as <-. unfold final. rewrite (ci_list _ Hci).
    apply (still_calm c _ t x); try (unfold grp_lock_unset_owner_thread; by destruct (_ <=? _)%Z); try done.
    + split; [done|]. simpl. split; [done|lia].
    + intros L. rewrite Hheld. unfold holds, rounds, part. cbn [act dirs level set_act]. rewrite K2.
      replace (level x) with (S (level x - 1)) at 2 by lia. cbn [Nat.mul]. lia.
  - injection H as <-. apply (still_calm c _ t x); try done. unfold thr_fits. simpl. by rewrite Ha.
  - bind_inv H. injection H as <-. apply (dec_calm c _ t x); try done.
    + unfold weight. lia.
    + unfold weight, owns. rewrite Ha. lia.
    + unfold thr_fits. simpl. by rewrite Ha.
  - destruct (refs x =? 0); [done|]. destruct (Nat.eqb_spec t' t); [done|]. cbn [orb] in H. bind_inv H. injection H as <-.
    assert (Hci1 : calm_inv (put t (set_refs (refs x - 1) x) c)).
    { apply (still_calm c _ t x); try done. unfold thr_fits. simpl. by rewrite Ha. }
    apply (still_calm _ _ t' x0 _ Hci1); try done; [simpl; by rewrite list_lookup_insert_ne|]. exact (ci_thr _ Hci t' x0 E).
  - destruct (Nat.eqb_spec lk 0); [done|]. destruct (Nat.leb_spec (length (locks c)) lk) as [|Hlt]; [done|]. injection H as <-.
    apply (still_calm c _ t x); try done.
    + split; [done|]. split; [done|]. by rewrite <-(ci_len _ Hci).
    + intros L. rewrite Hheld. unfold holds, rounds, part. cbn [act dirs level set_act map]. change (copies L []) with 0. lia.
  - destruct (lk =? 0); [done|]. case_bool_decide as Hin; [|done]. bind_inv H. injection H as <-.
    destruct (give_lock_same _ _ _ _ E) as (S1 & S2 & S3 & _).
    eapply (calm_update c _ t); [done|exact Ht|simpl; by rewrite S1|done|done|..].
    + unfold thr_fits. simpl. rewrite Ha. split; [|done]. clear -Hds. induction Hds as [|k ls Hk Hls IH]; simpl; [done|].
      destruct (k =? lk); [done|]. by constructor.
    + apply (move_give _ _ _ _ _ _ E). intros L. rewrite Hheld, (copies_remove L lk) by done. unfold holds, rounds, part. simpl. rewrite Ha. cbn. lia.
  - done.
Qed.

Definition good (c : cfg) : Prop := inv c /\ refs_inv c /\ calm_inv c.

Lemma calm_polite c t a : calm c t a -> polite c t a.
Proof. by destruct a. Qed.

Lemma attempt_calm c t x a c' : good c -> threads c !! t = Some x -> calm c t a -> attempt t x a c = Some c' -> calm_inv c'.
Proof.
  intros (Hi & Hr & Hci) Ht Hp H. unfold attempt in H.
  destruct a; first [by eapply go_calm|destruct (act x) eqn:Ha; [by eapply begin_calm|done..]].
Qed.

Lemma step_good c t a c' : good c -> calm c t a -> step c t a = Some c' -> good c'.
Proof.
  intros Hg Hp H. pose proof Hg as (Hi & Hr & Hci). pose proof (calm_polite _ _ _ Hp) as Hp'.
  destruct (step_attempt c t a c' Hr Hp' H) as (x & Ht & Hat & _).
  split; [by eapply step_inv|]. split; [by eapply step_counts|]. by eapply attempt_calm.
Qed.

Lemma start_good m : good (start m n its l).
Proof.
  split; [by apply start_inv|]. split; [apply start_refs|]. split; simpl; try done.
  - apply length_replicate.
  - by intros t x [-> _]%lookup_replicate.
  - intros L h [-> _]%lookup_replicate. split; [done|]. by intros t x [-> _]%lookup_replicate.
Qed.

Lemma reachable_good m c : reachable calm (start m n its l) c -> good c.
Proof.
  apply (rtc_ind_r good); [apply start_good|]. intros c1 c2 _ (t & a & Hp & Hst) Hg. by eapply step_good.
Qed.

(** ** Going on *)

(** The threads go on with what they are doing, leave the lock, and give back the
    locks that they have taken; they begin nothing else. *)
Definition is_work (a : action) : Prop := match a with Go | Release | Unlock _ => True | _ => False end.
Definition works (c c' : cfg) : Prop := exists t a, is_work a /\ step c t a = Some c'.

Definition outside (x : thr) : Prop := act x = Idle /\ level x = 0 /\ dirs x = [].

(** The lock that a thread waits for. *)
Definition wants (x : thr) : option nat :=
  match act x with Acquiring (Some i) => Some (lock_of i) | Wanting L => Some L | _ => None end.

(** A thread that is outside and holds locks directly waits for nothing, and one
    that is inside waits directly only for locks of the group. *)
Definition thr_orderly (x : thr) : Prop :=
  (level x = 0 -> dirs x <> [] -> wants x = None) /\
  (forall L, act x = Wanting L -> 0 < level x -> L ∈ map lock_of l).
Definition orderly (c : cfg) : Prop := forall t x, threads c !! t = Some x -> thr_orderly x.

Definition left_of (x : thr) : nat :=
  length (dirs x) +
  match act x with
  | Idle => level x * (length l + 3)
  | Wanting _ => level x * (length l + 3) + 2
  | Acquiring cur | Trying cur => S (level x) * (length l + 3) + (length l - length (taken l cur)) + 2
  | Counting => S (level x) * (length l + 3) + 1
  | Undoing cur => level x * (length l + 3) + length (kept l cur) + 1
  | Releasing cur => (level x - 1) * (length l + 3) + length (kept l cur) + 1
  | Chaining _ _ _ | Unchaining _ _ => 0
  end.

Definition work_left (c : cfg) : nat := foldr (fun x s => left_of x + s) 0 (threads c).

Lemma left_insert ts t x x' : ts !! t = Some x ->
  foldr (fun x s => left_of x + s) 0 (<[t := x']> ts) + left_of x = foldr (fun x s => left_of x + s) 0 ts + left_of x'.
Proof.
  revert t. induction ts as [|y ts IH]; intros [|t] H; simpl in H; [done|done| |].
  - simplify_eq. simpl. lia.
  - specialize (IH t H). simpl. lia.
Qed.

Lemma before_shorter i : i ∈ l -> S (length (before l i)) <= length l.
Proof.
  intros Hi. destruct (around l i (su_nodup _ _ _ Hsetup) Hi) as (l1 & l2 & E & H1 & _). rewrite E at 2. rewrite length_app. simpl.
  rewrite E, before_split by done. lia.
Qed.

(** A step that goes on. *)
Definition goes_on (c c' : cfg) (t : nat) (x x' : thr) : Prop :=
  threads c' = <[t := x']> (threads c) /\ left_of x' < left_of x /\ (thr_orderly x -> thr_orderly x').

Lemma orderly_quiet x : (forall L, act x <> Wanting L) -> wants x = None -> thr_orderly x.
Proof. intros H1 H2. split; [done|]. intros L HL. by destruct (H1 L). Qed.

Lemma go_goes_on c t x c' : calm_inv c -> threads c !! t = Some x -> go t x c = Some c' -> exists x', goes_on c c' t x x'.
Proof.
  intros Hci Ht. pose proof (ci_thr _ Hci t x Ht) as Hfit. pose proof (su_nodup _ _ _ Hsetup) as Hnd.
  unfold thr_fits in Hfit. unfold go, acquire_step, tryacquire_step, undo_step, release_step, chain_step, unchain_step, with_act, next, prev. rewrite (ci_list _ Hci).
  destruct (act x) as [|[i|]|[i|]|[i|]| |[i|]|lk|lk pos k|lk k] eqn:Ha; intros H; destruct Hfit as [Hds Hp]; try done.
  - bind_inv H. bind_inv H. injection H as <-. destruct (take_lock_same _ _ _ _ E0) as (S1 & _). eexists. split; [simpl; by rewrite S1|].
    destruct (next_taken l i Hnd Hp) as [N1 N2]. pose proof (before_shorter i Hp). split.
    + unfold left_of. cbn [act dirs level set_act]. rewrite Ha, N2, length_app. cbn [length taken]. lia.
    + intros [O1 O2]. split; [|done]. intros Hl Hd. specialize (O1 Hl Hd). unfold wants in O1. by rewrite Ha in O1.
  - injection H as <-. eexists. split; [unfold grp_lock_set_owner_thread; by destruct (c_owner c)|]. split; [|by intros _; apply orderly_quiet].
    unfold left_of. cbn [act dirs level set_act]. rewrite Ha. lia.
  - bind_inv H. pose proof (before_shorter i Hp). destruct (take_lock _ _ c) as [c1|] eqn:E0; injection H as <-.
    + destruct (take_lock_same _ _ _ _ E0) as (S1 & _). eexists. split; [simpl; by rewrite S1|].
      destruct (next_taken l i Hnd Hp) as [N1 N2]. split; [|by intros _; apply orderly_quiet].
      unfold left_of. cbn [act dirs level set_act]. rewrite Ha, N2, length_app. cbn [length taken]. lia.
    + destruct (prev_kept l i Hnd Hp) as [N1 N2]. eexists. split; [done|]. split; [|by intros _; apply orderly_quiet].
      unfold left_of. cbn [act dirs level set_act]. rewrite Ha, N2. lia.
  - injection H as <-. eexists. split; [unfold grp_lock_set_owner_thread; by destruct (c_owner c)|]. split; [|by intros _; apply orderly_quiet].
    unfold left_of. cbn [act dirs level set_act]. rewrite Ha. lia.
  - bind_inv H. bind_inv H. injection H as <-. destruct (give_lock_same _ _ _ _ E0) as (S1 & _). eexists. split; [simpl; by rewrite S1|].
    destruct (prev_kept l i Hnd Hp) as [N1 N2]. split; [|by intros _; apply orderly_quiet].
    unfold left_of. cbn [act dirs level set_act]. rewrite Ha, N2. cbn [kept]. rewrite length_app. simpl. lia.
  - injection H as <-. eexists. split; [done|]. split; [|by intros _; apply orderly_quiet].
    unfold left_of. cbn [act dirs level set_act]. rewrite Ha. lia.
  - injection H as <-. eexists. split; [done|]. split; [|by intros _; apply orderly_quiet].
    unfold left_of. cbn [act dirs level set_act set_level]. rewrite Ha. lia.
  - bind_inv H. bind_inv H. injection H as <-. destruct (give_lock_same _ _ _ _ E0) as (S1 & _). eexists. split; [simpl; by rewrite S1|].
    destruct (prev_kept l i Hnd (proj1 Hp)) as [N1 N2]. split; [|by intros _; apply orderly_quiet].
    unfold left_of. cbn [act dirs level set_act]. rewrite Ha, N2. cbn [kept]. rewrite length_app. simpl. lia.
  - bind_inv H. injection H as <-. destruct (grp_dec_ref_ok _ _ _ E) as (S1 & _). eexists. split; [simpl; by rewrite S1|].
    split; [|by intros _; apply orderly_quiet]. unfold left_of. cbn [act dirs level set_act set_level]. rewrite Ha. cbn [kept length]. lia.
  - bind_inv H. injection H as <-. destruct (take_lock_same _ _ _ _ E) as (S1 & _). eexists. split; [simpl; by rewrite S1|].
    split; [|by intros _; apply orderly_quiet]. unfold left_of. cbn [act dirs level set_act set_dirs length]. rewrite Ha. lia.
Qed.

Lemma begin_goes_on c t x a c' : calm_inv c -> is_work a -> act x = Idle -> begin t x a c = Some c' ->
  exists x', goes_on c c' t x x'.
Proof.
  intros Hci Hw Ha H. unfold begin, unchain_start, with_act in H. destruct a as [| | | | |t'|lk|lk|lk pos|lk| |]; try done.
  - destruct (Nat.eqb_spec (level x) 0) as [|Hlv]; [done|]. injection H as <-. eexists.
    split; [unfold grp_lock_unset_owner_thread; by destruct (_ <=? _)%Z|]. split; [|by intros _; apply orderly_quiet].
    destruct (final_kept l (su_nodup _ _ _ Hsetup)) as [_ K]. unfold left_of, final. rewrite (ci_list _ Hci).
    cbn [act dirs level set_act]. rewrite Ha, K. replace (level x) with (S (level x - 1)) at 2 by lia. lia.
  - destruct (lk =? 0); [done|]. case_bool_decide as Hin; [|done]. bind_inv H. injection H as <-.
    destruct (give_lock_same _ _ _ _ E) as (S1 & _). eexists. split; [simpl; by rewrite S1|]. split.
    + unfold left_of. simpl. rewrite (length_remove lk (dirs x)) by done. lia.
    + intros _. apply orderly_quiet; [simpl; by rewrite Ha|]. unfold wants. simpl. by rewrite Ha.
Qed.

Lemma works_calm c c' : works c c' -> exists t a, is_work a /\ calm c t a /\ step c t a = Some c'.
Proof.
  intros (t & a & Hw & H). exists t, a. split; [done|]. split; [|done]. unfold step in H. bind_inv H.
  destruct a; try done; simpl; unfold polite; by rewrite E.
Qed.

Lemma works_ok c c' : good c -> works c c' -> good c' /\ work_left c' < work_left c /\ (orderly c -> orderly c').
Proof.
  intros Hg (t & a & Hw & Hp & H)%works_calm. split; [by eapply step_good|]. pose proof Hg as (Hi & Hr & Hci).
  destruct (step_attempt c t a c' Hr (calm_polite _ _ _ Hp) H) as (x & Ht & Hat & _).
  assert (exists x', goes_on c c' t x x') as (x' & Et & Hlt & Ho).
  { unfold attempt in Hat. destruct a; try done; first [by eapply go_goes_on|destruct (act x) eqn:Ha; [by eapply begin_goes_on|done..]]. }
  split.
  - unfold work_left. rewrite Et. pose proof (left_insert _ _ _ x' Ht). lia.
  - intros Hoc t' y. rewrite Et. intros [(-> & -> & _)|[_ Hy]]%list_lookup_insert_Some; [by apply Ho, (Hoc t')|by apply (Hoc t')].
Qed.

(** *** A thread that can go on *)

Lemma attempt_works c t x a : is_work a -> threads c !! t = Some x -> is_Some (attempt t x a c) -> exists c', works c c'.
Proof. intros Hw Ht [c1 H]. eexists. exists t, a. split; [done|]. unfold step. rewrite Ht. simpl. by rewrite H. Qed.

Lemma give_there c t L : calm_inv c -> L < n -> exists c1, give_lock t L c = Some c1.
Proof.
  intros Hci HL. unfold give_lock. destruct (lookup_lt_is_Some_2 (locks c) L) as [h ->]; [by rewrite (ci_len _ Hci)|]. by eexists.
Qed.

(** The lock is free for the thread, or somebody else has it. *)
Lemma take_or_held c t x L : calm_inv c -> threads c !! t = Some x -> L < n ->
  (exists c1, take_lock t L c = Some c1) \/
  (holds x L = 0 /\ exists t' y, threads c !! t' = Some y /\ 0 < holds y L).
Proof.
  intros Hci Ht HL. unfold take_lock. destruct (lookup_lt_is_Some_2 (locks c) L) as [h Hh]; [by rewrite (ci_len _ Hci)|].
  destruct (ci_held _ Hci L h Hh) as [Hok Hd]. rewrite Hh. simpl. destruct h as [[t' d]|]; simpl; [|left; by eexists].
  destruct (Nat.eqb_spec t' t) as [->|Hne]; [left; by eexists|right].
  destruct (Hok t' d eq_refl) as [Hpos Hlt]. destruct (lookup_lt_is_Some_2 _ _ Hlt) as [y Hy]. split.
  - rewrite (Hd t x Ht). simpl. by rewrite (proj2 (Nat.eqb_neq t' t)).
  - exists t', y. split; [done|]. rewrite (Hd t' y Hy). simpl. by rewrite Nat.eqb_refl.
Qed.

Lemma wants_range c t x L : calm_inv c -> threads c !! t = Some x -> wants x = Some L -> L < n.
Proof.
  intros Hci Ht. pose proof (ci_thr _ Hci t x Ht) as [_ Hfit]. unfold wants. destruct (act x) as [|[i|]| | | | |lk| |]; try done.
  - intros [= <-]. destruct (item_in i Hfit) as (it & _ & -> & Hlt). done.
  - intros [= <-]. apply Hfit.
Qed.

(** A thread whose lock is free for it. *)
Lemma taking_works c t x L c1 : calm_inv c -> threads c !! t = Some x -> wants x = Some L -> take_lock t L c = Some c1 ->
  exists c', works c c'.
Proof.
  intros Hci Ht Hwt Hc1. pose proof (ci_thr _ Hci t x Ht) as [_ Hfit]. unfold wants in Hwt.
  destruct (act x) as [|[i|]| | | | |lk| |] eqn:Ha; try done; injection Hwt as <-; apply (attempt_works c t x Go); try done;
    unfold attempt, go, acquire_step, tryacquire_step, undo_step, release_step, chain_step, unchain_step; rewrite Ha.
  - destruct (item_in i Hfit) as (it & Hit & El & _). rewrite (ci_items _ Hci), Hit. simpl. rewrite <-El, Hc1. by eexists.
  - rewrite Hc1. by eexists.
Qed.

(** A thread that waits for nothing. *)
Lemma quiet_works c t x : good c -> threads c !! t = Some x -> ~ outside x -> wants x = None -> exists c', works c c'.
Proof.
  intros (Hi & Hr & Hci) Ht Hout Hw. pose proof (ci_thr _ Hci t x Ht) as [Hds Hfit]. unfold wants in Hw.
  destruct (act x) as [|[i|]|[i|]|[i|]| |[i|]|lk|lk pos k|lk k] eqn:Ha; try done.
  2-9: apply (attempt_works c t x Go); [done|done|]; unfold attempt, go, acquire_step, tryacquire_step, undo_step, release_step, chain_step, unchain_step; rewrite Ha, ?(ci_items _ Hci); try by eexists.
  - destruct (decide (level x = 0)) as [Hl|Hl].
    + destruct (dirs x) as [|L ds] eqn:Ed; [by destruct Hout|]. apply Forall_cons in Hds as [[HL0 HLn] _].
      destruct (give_there c t L Hci HLn) as [c1 Hc1]. apply (attempt_works c t x (Unlock L)); [done|done|].
      unfold attempt, begin. rewrite Ha, Ed, (proj2 (Nat.eqb_neq L 0)), bool_decide_eq_true_2, Hc1 by (done || by left). by eexists.
    + apply (attempt_works c t x Release); [done|done|]. unfold attempt, begin. rewrite Ha, (proj2 (Nat.eqb_neq _ 0)) by done. by eexists.
  - destruct (item_in i Hfit) as (it & -> & _). simpl. destruct (take_lock _ _ c); by eexists.
  - destruct (item_in i Hfit) as (it & -> & _ & Hlt). simpl. destruct (give_there c t _ Hci Hlt) as [c1 ->]. by eexists.
  - destruct (item_in i (proj1 Hfit)) as (it & -> & _ & Hlt). simpl. destruct (give_there c t _ Hci Hlt) as [c1 ->]. by eexists.
  - destruct Hfit as [_ Hlv]. destruct (dec_ref_calm c t x Hi Hr Hci Ht) as (c1 & -> & _); [unfold weight; lia| |by eexists].
    unfold weight, owns. rewrite Ha. lia.
Qed.

(** *** Who waits for whom *)

Lemma member_lock L ls : L ∈ map lock_of ls <-> exists i, i ∈ ls /\ lock_of i = L.
Proof. rewrite list_elem_of_In, in_map_iff. setoid_rewrite list_elem_of_In. naive_solver. Qed.

Lemma member_held x i : i ∈ l -> 0 < level x -> match act x with Releasing _ => False | _ => True end -> 0 < holds x (lock_of i).
Proof.
  intros Hi Hl Ha. assert (0 < copies (lock_of i) (map lock_of l)).
  { apply copies_pos, member_lock. by exists i. }
  assert (Hr : rounds x = level x) by (unfold rounds; by destruct (act x)). unfold holds. rewrite Hr. nia.
Qed.

(** The items before two items: one of the parts contains the other. *)
Lemma before_prefix ls i : before ls i `prefix_of` ls.
Proof.
  induction ls as [|j ls IH]; simpl; [done|]. destruct (j =? i); [apply prefix_nil|by apply prefix_cons].
Qed.

(** The holder of a lock goes on, or waits outside for a lock of the group that is
    behind this one. *)
Lemma holder_works c t y L : good c -> orderly c -> threads c !! t = Some y -> 0 < holds y L ->
  (exists c', works c c') \/ exists j, act y = Acquiring (Some j) /\ L ∈ map lock_of (before l j).
Proof.
  intros Hg Ho Ht Hh. pose proof Hg as (_ & _ & Hci). destruct (Ho t y Ht) as [O1 O2]. pose proof (ci_thr _ Hci t y Ht) as [_ Hfit].
  assert (Hout : ~ outside y).
  { intros (E1 & E2 & E3). unfold holds, rounds, part in Hh. rewrite E1, E2, E3 in Hh. cbn in Hh. lia. }
  destruct (wants y) as [L'|] eqn:Ew; [|left; by apply (quiet_works c t y)].
  destruct (take_or_held c t y L' Hci Ht (wants_range c t y L' Hci Ht Ew)) as [[c1 Hc1]|[Hno _]]; [left; by eapply taking_works|right].
  assert (Hlv : level y = 0).
  { destruct (decide (level y = 0)) as [|Hl]; [done|]. exfalso. unfold wants in Ew.
    destruct (act y) as [|[j|]| | | | |lk| |] eqn:Ha; try done; injection Ew as <-.
    - pose proof (member_held y j Hfit) as Hm. rewrite Ha in Hm. specialize (Hm ltac:(lia) I). lia.
    - destruct (proj1 (member_lock _ _) (O2 lk eq_refl ltac:(lia))) as (j & Hj & <-).
      pose proof (member_held y j Hj) as Hm. rewrite Ha in Hm. specialize (Hm ltac:(lia) I). lia. }
  assert (Hd : dirs y = []) by (destruct (dirs y) eqn:Ed; [done|by specialize (O1 Hlv ltac:(done))]).
  unfold wants in Ew. unfold holds, rounds, part in Hh. rewrite Hlv, Hd in Hh.
  destruct (act y) as [|[j|]| | | | |lk| |] eqn:Ha; try done; [|cbn in Hh; lia].
  exists j. split; [done|]. apply copies_pos. exact Hh.
Qed.

Lemma waiting_works c d : good c -> orderly c -> forall t x i, threads c !! t = Some x -> act x = Acquiring (Some i) ->
  length l - length (before l i) <= d -> exists c', works c c'.
Proof.
  intros Hg Ho. induction d as [|d IH]; intros t x i Ht Ha Hd.
  { pose proof Hg as (_ & _ & Hci). pose proof (ci_thr _ Hci t x Ht) as [_ Hfit]. rewrite Ha in Hfit. pose proof (before_shorter i Hfit). lia. }
  pose proof Hg as (_ & _ & Hci). assert (Ew : wants x = Some (lock_of i)) by (unfold wants; by rewrite Ha).
  destruct (take_or_held c t x _ Hci Ht (wants_range c t x _ Hci Ht Ew)) as [[c1 Hc1]|[Hno (t' & y & Hy & Hp)]]; [by eapply taking_works|].
  destruct (holder_works c t' y _ Hg Ho Hy Hp) as [|(j & Hj & Hin)]; [done|]. apply (IH t' y j Hy Hj).
  destruct (decide (length (before l j) <= length (before l i))) as [Hle|]; [|lia]. exfalso.
  assert (Hpre : before l j `prefix_of` before l i).
  { destruct (before_prefix l i) as [r1 E1], (before_prefix l j) as [r2 E2]. exists (drop (length (before l j)) (before l i)).
    rewrite <-(take_drop (length (before l j)) (before l i)) at 1. f_equal.
    rewrite <-(take_app_le (before l i) r1), <-E1 by done. rewrite E2 at 2. by rewrite take_app_length. }
  destruct Hpre as [r Er]. unfold holds, part in Hno. rewrite Ha in Hno. cbn [taken] in Hno.
  apply copies_pos in Hin. rewrite Er, map_app, copies_app in Hno. lia.
Qed.

Lemma somebody_works c t x : good c -> orderly c -> threads c !! t = Some x -> ~ outside x -> exists c', works c c'.
Proof.
  intros Hg Ho Ht Hout. destruct (wants x) as [L|] eqn:Ew; [|by eapply quiet_works]. pose proof Hg as (_ & _ & Hci).
  destruct (take_or_held c t x L Hci Ht (wants_range c t x L Hci Ht Ew)) as [[c1 Hc1]|[_ (t' & y & Hy & Hp)]]; [by eapply taking_works|].
  destruct (holder_works c t' y L Hg Ho Hy Hp) as [|(j & Hj & _)]; [done|]. by eapply waiting_works.
Qed.

Lemma rest_free c : good c -> (forall t x, threads c !! t = Some x -> outside x) ->
  locks c = replicate n None /\ c_owner c = None /\ c_cnt c = 0%Z.
Proof.
  intros (Hi & _ & Hci) Hout. split.
  - apply list_eq. intros L. destruct (decide (L < n)) as [Hlt|Hge].
    + rewrite lookup_replicate_2 by done. destruct (lookup_lt_is_Some_2 (locks c) L) as [[[t d]|] Hh]; [by rewrite (ci_len _ Hci)| |done].
      exfalso. destruct (ci_held _ Hci L _ Hh) as [Hok Hd]. destruct (Hok t d eq_refl) as [Hp Hl].
      destruct (lookup_lt_is_Some_2 _ _ Hl) as [x Hx]. pose proof (Hd t x Hx) as E. destruct (Hout t x Hx) as (E1 & E2 & E3).
      unfold holds, rounds, part in E. rewrite E1, E2, E3 in E. cbn in E. rewrite Nat.eqb_refl in E. lia.
    + rewrite !lookup_ge_None_2; [done|rewrite length_replicate; lia|rewrite (ci_len _ Hci); lia].
  - destruct (c_owner c) as [t|] eqn:Eo; [|split; [done|by apply (iv_none _ Hi)]]. exfalso.
    destruct (iv_owned _ Hi t Eo) as [Hc Hl]. destruct (lookup_lt_is_Some_2 _ _ Hl) as [x Hx].
    pose proof (iv_owner _ Hi t x Hx) as E. destruct (Hout t x Hx) as (E1 & E2 & _). unfold owns, owner_share in E.
    rewrite E1, E2, decide_True in E by done. lia.
Qed.

Lemma inside_holds c t x i : good c -> threads c !! t = Some x -> inside x -> i ∈ l ->
  exists d, locks c !! lock_of i = Some (Some (t, d)).
Proof.
  intros (_ & _ & Hci) Ht Hin Hi. assert (Hm : 0 < copies (lock_of i) (map lock_of l)) by (apply copies_pos, member_lock; by exists i).
  assert (Hp : 0 < holds x (lock_of i)).
  { unfold inside, owns, holds, rounds, part in *. destruct (act x); nia. }
  assert (Hlt : lock_of i < n) by (by destruct (item_in i Hi) as (it & _ & -> & Hlt)).
  destruct (lookup_lt_is_Some_2 (locks c) (lock_of i)) as [h Hh]; [by rewrite (ci_len _ Hci)|].
  destruct (ci_held _ Hci _ h Hh) as [_ Hd]. rewrite (Hd t x Ht) in Hp. destruct h as [[t' d]|]; simpl in Hp; [|lia].
  destruct (Nat.eqb_spec t' t) as [->|]; [by exists d|lia].
Qed.

Lemma works_bounded c c' k : good c -> nsteps works k c c' -> k <= work_left c.
Proof.
  revert c. induction k as [|k IH]; intros c Hg Hs; [lia|]. inversion Hs as [|? ? c1 ? Hw Hs1]; subst.
  destruct (works_ok c c1 Hg Hw) as (Hg1 & Hlt & _). specialize (IH c1 Hg1 Hs1). lia.
Qed.

Lemma works_good c c' : good c -> orderly c -> rtc works c c' -> good c' /\ orderly c'.
Proof.
  intros Hg Ho Hs. induction Hs as [c|c c1 c2 Hw Hs IH]; [done|]. destruct (works_ok c c1 Hg Hw) as (Hg1 & _ & Ho1). by apply IH, Ho1.
Qed.

End Calm.

(** C35 Threads that use a group lock whose list is left alone, under the rules
    of the references, do not block each other, if those that are outside wait
    for nothing while they hold members directly, and those that are inside wait
    directly only for members: whatever the order in which the threads go on, if
    they begin nothing new they come to an end after a bounded number of steps,
    and then every thread is outside, every lock is free and the group lock has no
    owner.  Whether or not they keep to this order, the number of steps is bounded
    and a thread that is inside holds every lock of the group. *)
Theorem grp_lock_drains m n its l c :
  0 < n -> setup_ok n its l -> reachable calm (start m n its l) c ->
  (forall t x i, threads c !! t = Some x -> inside x -> i ∈ l -> exists d, locks c !! lock_of its i = Some (Some (t, d))) /\
  (forall k c', nsteps works k c c' -> k <= work_left l c) /\
  (orderly its l c -> forall c', rtc works c c' -> (forall c'', ~ works c' c'') ->
     (forall t x, threads c' !! t = Some x -> outside x) /\ locks c' = replicate n None /\ c_owner c' = None /\ c_cnt c' = 0%Z).
Proof.
  intros Hn Hs Hr. pose proof (reachable_good n its l Hn Hs m c Hr) as Hg. split; [|split].
  - intros t x i Ht Hin Hi. apply (inside_holds n its l Hn Hs c t x i Hg Ht Hin Hi).
  - intros k c' Hk. apply (works_bounded n its l Hn Hs c c' k Hg Hk).
  - intros Ho c' Hw Hstuck. destruct (works_good n its l Hn Hs c c' Hg Ho Hw) as [Hg' Ho'].
    assert (Hout : forall t x, threads c' !! t = Some x -> outside x).
    { intros t x Ht. destruct (decide (act x = Idle /\ level x = 0 /\ dirs x = [])) as [|Hno]; [done|]. exfalso.
      assert (exists c'', works c' c'') as [c'' Hc] by by eapply somebody_works. by apply (Hstuck c''). }
    split; [done|]. by eapply rest_free.
Qed.

(** ** Examples *)

Lemma ex_orderly : orderly two_items [0; 1] ex_cfg.
Proof. intros [|[|t]] x [= <-]; split; simpl; (done || (intros; lia)). Qed.

(** The number of steps that are left bounds one more step of the thread that is
    inside, and what is left at the end is free. *)
Lemma grp_lock_drains_witness : 1 <= work_left [0; 1] ex_cfg /\
  forall c', rtc works ex_cfg c' -> (forall c'', ~ works c' c'') -> locks c' = replicate 2 None.
Proof.
  destruct (grp_lock_drains 2 2 two_items [0; 1] ex_cfg ltac:(lia) two_items_ok ex_reachable) as (_ & H1 & H2). split.
  - eapply (H1 1). apply nsteps_once. exists 0, Release. split; [exact I|reflexivity].
  - intros c' Hw Hstuck. exact (proj1 (proj2 (H2 ex_orderly c' Hw Hstuck))).
Defined.

(** Such an end: both threads have been inside and have left. *)
Lemma ex_drained : exists c', rtc works ex_cfg c' /\ locks c' = [None; None] /\ c_owner c' = None /\ c_ref c' = 2%Z.
Proof.
  assert (Hrun : forall sched c c', Forall (fun s => is_work s.2) sched -> run sched c = Some c' -> rtc works c c').
  { induction sched as [|[t a] sched IH]; intros c c' Hw H; simpl in H; [injection H as <-; apply rtc_refl|].
    apply Forall_cons in Hw as [Hw1 Hw]. bind_inv H. eapply rtc_l; [by exists t, a|by apply IH]. }
  eexists. split.
  - apply (Hrun ([(0, Release)] ++ goes 0 3 ++ goes 1 4 ++ [(1, Release)] ++ goes 1 3)); [|vm_compute; reflexivity].
    unfold goes. simpl. by repeat constructor.
  - done.
Qed.

(** A thread that takes a member directly and then acquires the group, in
    disorder, and another one that acquires the group: neither can go on. *)
Lemma member_first_deadlocks : exists c,
  run_ok calm ([(0, AddRef); (0, AddRef); (0, Give 1); (0, Lock 1)] ++ goes 0 1 ++ [(1, Acquire)] ++ goes 1 1 ++ [(0, Acquire)])
    (start 2 2 two_items [0; 1]) = Some c /\
  ~ orderly two_items [0; 1] c /\ forall c', ~ works c c'.
Proof.
  eexists. split; [vm_compute; reflexivity|]. split.
  - intros Ho. destruct (Ho 0 _ eq_refl) as [H _]. by specialize (H eq_refl ltac:(done)).
  - intros c' (t & a & Hw & H). destruct t as [|[|t]]; [| |done]; destruct a; try done.
Qed.
