(* ===== verification/StrMem.v ===== *)
(** * Strings in memory

    The functions of [pjlib/include/pj/string_i.h] and [string.h] that set,
    copy, append and duplicate strings, over the bytes of memory they read and
    write; random strings of [pjlib/src/pj/string.c].

    A [pj_str_t] is an object with an address of its own, so a source and a
    destination may be the same object; every field is written when the code
    writes it.  NULL is the address 0.  What C leaves undefined is [None]:
    reading a byte or an object that was never written, writing through NULL,
    [memcpy] between ranges that overlap, overflow of a signed addition. *)
From S2P Require Import Prelude Interfaces Regions Bytes.

Record pj_str_t := mk_str { ptr : Z; slen : Z }.

#[export] Instance pj_str_t_eq_dec : EqDecision pj_str_t.
Proof. solve_decision. Defined.

(** The bytes that hold a value, and the [pj_str_t] objects. *)
Record store := mk_store { bytes : memory; strs : gmap Z pj_str_t }.

Definition set_bytes (w : store) (m : memory) : store := mk_store m (strs w).
Definition set_str (w : store) (a : Z) (s : pj_str_t) : store := mk_store (bytes w) (<[a := s]> (strs w)).

(** [str->ptr = p] and [str->slen = n]. *)
Definition set_ptr (w : store) (a p : Z) : option store :=
  s ← strs w !! a; Some (set_str w a (mk_str p (slen s))).
Definition set_slen (w : store) (a n : Z) : option store :=
  s ← strs w !! a; Some (set_str w a (mk_str (ptr s) n)).

(** ** The C library *)

Fixpoint load_bytes (m : memory) (a : Z) (n : nat) : option (list Z) :=
  match n with
  | O => Some []
  | S n => b ← m !! a; bs ← load_bytes m (a + 1) n; Some (b :: bs)
  end.

Fixpoint store_bytes (m : memory) (a : Z) (bs : list Z) : memory :=
  match bs with
  | [] => m
  | b :: bs => <[a := b]> (store_bytes m (a + 1) bs)
  end.

Definition memcpy (m : memory) (dst src n : Z) : option memory :=
  if n =? 0 then Some m else
  if (dst =? 0) || (src =? 0) then None else
  if (dst + n <=? src) || (src + n <=? dst) then
    bs ← load_bytes m src (Z.to_nat n); Some (store_bytes m dst bs)
  else None.

(** [*p = c]. *)
Definition put (m : memory) (p c : Z) : option memory :=
  if p =? 0 then None else Some (<[p := c]> m).

(** The bytes read are different ones, so there are no more of them than
    bytes in memory. *)
Fixpoint strlen_loop (fuel : nat) (m : memory) (s : Z) : option Z :=
  match fuel with
  | O => None
  | S fuel =>
      c ← m !! s;
      if c =? 0 then Some 0 else n ← strlen_loop fuel m (s + 1); Some (n + 1)
  end.

Definition strlen (m : memory) (s : Z) : option Z := strlen_loop (S (size m)) m s.

(** [s ? strlen(s) : 0]. *)
Definition strlen_or_0 (m : memory) (s : Z) : option Z :=
  if s =? 0 then Some 0 else strlen m s.

(** Addition of the type [pj_ssize_t]. *)
Definition sadd (x y : Z) : option Z :=
  if (- 2 ^ 31 <=? x + y) && (x + y <=? INT_MAX) then Some (x + y) else None.

(** ** Setting a string *)

Definition pj_str (w : store) (str : Z) : option pj_str_t :=
  n ← strlen_or_0 (bytes w) str; Some (mk_str str (i32 n)).

Definition pj_strset (w : store) (str p length : Z) : option store :=
  w ← set_ptr w str p; set_slen w str (i32 length).

Definition pj_strset2 (w : store) (str src : Z) : option store :=
  w ← set_ptr w str src; n ← strlen_or_0 (bytes w) src; set_slen w str (i32 n).

Definition pj_cstr (w : store) (str s : Z) : option store := pj_strset2 w str s.

Definition pj_strset3 (w : store) (str begin end_ : Z) : option store :=
  w ← set_ptr w str begin; set_slen w str (i32 (end_ - begin)).

Definition pj_strassign (w : store) (dst src : Z) : option store :=
  s ← strs w !! src; w ← set_ptr w dst (ptr s);
  s ← strs w !! src; set_slen w dst (slen s).

(** ** Copying into a buffer *)

Definition pj_strcpy (w : store) (dst src : Z) : option store :=
  s ← strs w !! src;
  w ← set_slen w dst (if slen s <? 0 then 0 else slen s);
  s ← strs w !! src;
  if 0 <? slen s then
    d ← strs w !! dst; m ← memcpy (bytes w) (ptr d) (ptr s) (slen s); Some (set_bytes w m)
  else Some w.

Definition pj_strcpy2 (w : store) (dst src : Z) : option store :=
  n ← strlen_or_0 (bytes w) src;
  w ← set_slen w dst (i32 n);
  d ← strs w !! dst;
  if 0 <? slen d then m ← memcpy (bytes w) (ptr d) src (slen d); Some (set_bytes w m)
  else Some w.

Definition pj_strncpy (w : store) (dst src max : Z) : option store :=
  s ← strs w !! src;
  let max := if slen s <? max then slen s else max in
  w ← (if 0 <? max then
         d ← strs w !! dst; m ← memcpy (bytes w) (ptr d) (ptr s) max; Some (set_bytes w m)
       else Some w);
  set_slen w dst (if max <? 0 then 0 else max).

Definition pj_strncpy_with_null (w : store) (dst src max : Z) : option store :=
  s ← strs w !! src;
  let max := if max <=? slen s then (if 0 <? max then max - 1 else 0)
             else (if slen s <? 0 then 0 else slen s) in
  d ← strs w !! dst;
  w ← (if 0 <? max then m ← memcpy (bytes w) (ptr d) (ptr s) max; Some (set_bytes w m)
       else Some w);
  m ← (if ptr d =? 0 then None else put (bytes w) (ptr d + max) 0);
  set_slen (set_bytes w m) dst max.

Definition pj_strcat (w : store) (dst src : Z) : option store :=
  s ← strs w !! src; d ← strs w !! dst;
  if (0 <? slen s) && (0 <=? slen d) then
    m ← (if ptr d =? 0 then None else memcpy (bytes w) (ptr d + slen d) (ptr s) (slen s));
    n ← sadd (slen d) (slen s);
    set_slen (set_bytes w m) dst n
  else Some w.

Definition pj_strcat2 (w : store) (dst str : Z) : option store :=
  len ← strlen_or_0 (bytes w) str; d ← strs w !! dst;
  if negb (len =? 0) && (0 <=? slen d) then
    m ← (if ptr d =? 0 then None else memcpy (bytes w) (ptr d + slen d) str len);
    set_slen (set_bytes w m) dst (i32 (slen d + len))
  else Some w.

(** ** Duplication into a pool *)

Section Duplicate.
Context {P : Type} `{!PoolAllocator P}.
Implicit Types (pool : P).

(** [dst->ptr = (char* )pj_pool_alloc(pool, size)]; the pool returns NULL when
    it has no memory and its callback returns. *)
Definition alloc_ptr (pool : P) (w : store) (dst size : Z) : option (P * store) :=
  let '(r, pool) := pool_alloc pool size in
  w ← set_ptr w dst (default 0 r); Some (pool, w).

(** [pj_memcpy(dst->ptr, from, n)]. *)
Definition copy_to (w : store) (dst from n : Z) : option store :=
  d ← strs w !! dst; m ← memcpy (bytes w) (ptr d) from n; Some (set_bytes w m).

(** [dst->ptr[dst->slen] = '\0']. *)
Definition terminate (w : store) (dst : Z) : option store :=
  d ← strs w !! dst;
  m ← (if ptr d =? 0 then None else put (bytes w) (ptr d + slen d) 0); Some (set_bytes w m).

Definition pj_strdup (pool : P) (w : store) (dst src : Z) : option (P * store) :=
  if dst =? src then Some (pool, w) else
  s ← strs w !! src;
  pw ← (if 0 <? slen s then
          pw ← alloc_ptr pool w dst (slen s);
          s ← strs pw.2 !! src;
          w ← copy_to pw.2 dst (ptr s) (slen s); Some (pw.1, w)
        else Some (pool, w));
  s ← strs pw.2 !! src;
  w ← set_slen pw.2 dst (if slen s <? 0 then 0 else slen s); Some (pw.1, w).

Definition pj_strdup_with_null (pool : P) (w : store) (dst src : Z) : option (P * store) :=
  s ← strs w !! src;
  let src_slen := if slen s <? 0 then 0 else slen s in
  size ← sadd src_slen 1;
  pw ← alloc_ptr pool w dst size;
  w ← (if negb (src_slen =? 0) then
         s ← strs pw.2 !! src; copy_to pw.2 dst (ptr s) src_slen
       else Some pw.2);
  w ← set_slen w dst src_slen;
  w ← terminate w dst; Some (pw.1, w).

Definition pj_strdup2 (pool : P) (w : store) (dst src : Z) : option (P * store) :=
  n ← strlen_or_0 (bytes w) src;
  w ← set_slen w dst (i32 n);
  d ← strs w !! dst;
  if negb (slen d =? 0) then
    pw ← alloc_ptr pool w dst (u32 (slen d));
    d ← strs pw.2 !! dst;
    w ← copy_to pw.2 dst src (u32 (slen d)); Some (pw.1, w)
  else w ← set_ptr w dst 0; Some (pool, w).

Definition pj_strdup2_with_null (pool : P) (w : store) (dst src : Z) : option (P * store) :=
  n ← strlen_or_0 (bytes w) src;
  w ← set_slen w dst (i32 n);
  d ← strs w !! dst;
  size ← sadd (slen d) 1;
  pw ← alloc_ptr pool w dst (u32 size);
  d ← strs pw.2 !! dst;
  w ← (if negb (slen d =? 0) then copy_to pw.2 dst src (u32 (slen d)) else Some pw.2);
  w ← terminate w dst; Some (pw.1, w).

(** [temp] lives on the stack, at an address no other object has, and holds
    whatever was there. *)
Definition pj_strdup3 (junk : pj_str_t) (pool : P) (w : store) (src : Z) :
    option (P * store * pj_str_t) :=
  let temp := fresh (dom (strs w)) in
  pw ← pj_strdup2 pool (set_str w temp junk) temp src;
  s ← strs pw.2 !! temp;
  Some (pw.1, mk_store (bytes pw.2) (delete temp (strs pw.2)), s).
End Duplicate.

(** ** Random strings *)

Definition pj_val_to_hex_digit (m : memory) (value p : Z) : option memory :=
  m ← put m p (hex_digit (Z.shiftr (Z.land value 240) 4));
  put m (p + 1) (hex_digit (Z.land value 15)).

Section Random.
(** [pj_rand], over the state of the generator. *)
Context {R : Type} (pj_rand : R -> Z * R).

(** The first loop: [n] more numbers, eight digits each. *)
Fixpoint random_words (n : nat) (r : R) (m : memory) (p : Z) : option (R * memory) :=
  match n with
  | O => Some (r, m)
  | S n =>
      let '(v, r) := pj_rand r in
      let val := u32 v in
      m ← pj_val_to_hex_digit m (Z.shiftr (Z.land val 0xFF000000) 24) p;
      m ← pj_val_to_hex_digit m (Z.shiftr (Z.land val 0x00FF0000) 16) (p + 2);
      m ← pj_val_to_hex_digit m (Z.shiftr (Z.land val 0x0000FF00) 8) (p + 4);
      m ← pj_val_to_hex_digit m (Z.land val 0x000000FF) (p + 6);
      random_words n r m (p + 8)
  end.

Fixpoint random_digits (n : nat) (r : R) (m : memory) (p : Z) : option (R * memory) :=
  match n with
  | O => Some (r, m)
  | S n =>
      let '(v, r) := pj_rand r in
      m ← put m p (hex_digit (Z.land v 15)); random_digits n r m (p + 1)
  end.

Definition pj_create_random_string (r : R) (m : memory) (str len : Z) : option (R * memory) :=
  rm ← random_words (Z.to_nat (len / 8)) r m str;
  random_digits (Z.to_nat (len mod 8)) rm.1 rm.2 (str + 8 * (len / 8)).
End Random.
