(* ===== verification/StrMemSpec.v ===== *)
(** * What the string functions promise

    Duplicating strings into a pool: the copies hold the text of their
    sources, lie in memory of their own, and nothing that was in use before
    changes.  The pool is known by its contract ([PoolLaws]), which the pools
    of [pool.c] keep.  Bounded copies and concatenation in a buffer. *)
From S2P Require Import Prelude Interfaces Regions Bytes Pool PoolSpec StrMem.

(** ** Bytes *)

Definition reads (m : memory) (a : Z) (bs : list Z) : Prop := load_bytes m a (length bs) = Some bs.

Definition in_use (U : list region) (b : Z) : Prop := Exists (fun r : region => r.1 <= b < r.1 + r.2) U.

(** A C string: its characters, and the NUL after them. *)
Definition cstring (m : memory) (a : Z) (bs : list Z) : Prop :=
  reads m a bs /\ (0 ∉ bs) /\ m !! (a + Z.of_nat (length bs)) = Some 0.

Abbreviation zlen bs := (Z.of_nat (length bs)).

Lemma in_use_app U V b : in_use (U ++ V) b <-> in_use U b \/ in_use V b.
Proof. apply Exists_app. Qed.

Lemma in_use_one a n b : in_use [(a, n)] b <-> a <= b < a + n.
Proof. unfold in_use. rewrite Exists_cons, Exists_nil. simpl. lia. Qed.

Lemma in_use_apart r U b : Forall (apart r) U -> in_use U b -> ~ r.1 <= b < r.1 + r.2.
Proof.
  intros HF [s [Hs Hb]]%Exists_exists. rewrite Forall_forall in HF.
  specialize (HF s Hs). unfold apart in HF. lia.
Qed.

Lemma load_bytes_ext m m' a n :
  (forall b, a <= b < a + Z.of_nat n -> m' !! b = m !! b) -> load_bytes m' a n = load_bytes m a n.
Proof.
  revert a. induction n as [|n IH]; intros a H; simpl; [done|].
  rewrite (H a), (IH (a + 1)) by (intros; try apply H; lia). done.
Qed.

Lemma reads_ext m m' a bs :
  (forall b, a <= b < a + zlen bs -> m' !! b = m !! b) -> reads m a bs -> reads m' a bs.
Proof. intros H. unfold reads. by rewrite (load_bytes_ext m m'). Qed.

Lemma load_bytes_app m a n k :
  load_bytes m a (n + k) =
  xs ← load_bytes m a n; ys ← load_bytes m (a + Z.of_nat n) k; Some (xs ++ ys).
Proof.
  revert a. induction n as [|n IH]; intros a; simpl.
  - rewrite Z.add_0_r. by destruct (load_bytes m a k).
  - rewrite IH. destruct (m !! a); simpl; [|done].
    replace (a + 1 + Z.of_nat n) with (a + Z.of_nat (S n)) by lia.
    destruct (load_bytes m (a + 1) n); simpl; [|done].
    by destruct (load_bytes m _ k).
Qed.

Lemma reads_app m a xs ys : reads m a (xs ++ ys) <-> reads m a xs /\ reads m (a + zlen xs) ys.
Proof.
  unfold reads. rewrite length_app, load_bytes_app. split.
  - intros H. bind_inv H. bind_inv H. assert (length x = length xs).
    { clear -E. revert a x E. induction (length xs) as [|n IH]; simpl; intros a x E; [by simplify_eq|].
      bind_inv E. bind_inv E. simplify_eq. simpl. f_equal. by eapply IH. }
    injection H as H. apply app_inj_1 in H as [-> ->]; done.
  - by intros [-> ->].
Qed.

Lemma store_bytes_other m a bs b : b < a \/ a + zlen bs <= b -> store_bytes m a bs !! b = m !! b.
Proof.
  revert a. induction bs as [|c bs IH]; intros a H; simpl in *; [done|].
  rewrite lookup_insert_ne by lia. apply IH. lia.
Qed.

Lemma reads_store m a bs : reads (store_bytes m a bs) a bs.
Proof.
  unfold reads. revert a. induction bs as [|c bs IH]; intros a; simpl; [done|].
  rewrite lookup_insert_eq. simpl. rewrite (load_bytes_ext (store_bytes m (a + 1) bs)).
  - by rewrite IH.
  - intros b Hb. apply lookup_insert_ne. lia.
Qed.

Lemma reads_lookup m a bs i : reads m a bs -> 0 <= i < zlen bs -> is_Some (m !! (a + i)).
Proof.
  unfold reads. revert a i. induction bs as [|c bs IH]; intros a i; simpl; [lia|].
  intros H Hi. bind_inv H. bind_inv H. simplify_eq.
  destruct (decide (i = 0)) as [->|]; [rewrite Z.add_0_r; eauto|].
  replace (a + i) with (a + 1 + (i - 1)) by lia. apply IH; [done|lia].
Qed.

(** ** The C library *)

Lemma strlen_loop_spec fuel m a bs :
  cstring m a bs -> (length bs < fuel)%nat -> strlen_loop fuel m a = Some (zlen bs).
Proof.
  intros (Hr & Hz & Hn). unfold reads in Hr. revert a fuel Hr Hn.
  induction bs as [|c bs IH]; intros a [|fuel] Hr Hn Hf; simpl in *; try lia.
  - rewrite Z.add_0_r in Hn. by rewrite Hn.
  - bind_inv Hr. bind_inv Hr. simplify_eq. rewrite E. simpl.
    apply not_elem_of_cons in Hz as [Hc Hz]. destruct (Z.eqb_spec c 0); [done|].
    rewrite IH; try done; try lia; [simpl; f_equal; lia|].
    rewrite <-Hn. f_equal. lia.
Qed.

(** The fuel of [strlen] is enough: a string has fewer bytes than memory. *)
Lemma cstring_size m a bs : cstring m a bs -> (length bs < size m)%nat.
Proof.
  intros (Hr & _ & Hn).
  set (l := (fun i : nat => a + Z.of_nat i) <$> seq 0 (S (length bs))).
  assert (HN : NoDup l).
  { apply NoDup_fmap; [intros i j; lia|apply NoDup_seq]. }
  assert (Hl : length l = S (length bs)) by (unfold l; by rewrite length_fmap, length_seq).
  assert (list_to_set (C := gset Z) l ⊆ dom m) as Hsub.
  { intros b [i [-> Hi%elem_of_seq]]%elem_of_list_to_set%list_elem_of_fmap.
    apply elem_of_dom. destruct (decide (i = length bs)) as [->|]; [eauto|].
    apply (reads_lookup m a bs); [done|lia]. }
  apply subseteq_size in Hsub. rewrite size_list_to_set, size_dom in Hsub by done. lia.
Qed.

Lemma strlen_spec m a bs : cstring m a bs -> strlen m a = Some (zlen bs).
Proof.
  intros H. apply strlen_loop_spec; [done|]. pose proof (cstring_size _ _ _ H). lia.
Qed.

Lemma memcpy_spec m dst src bs :
  reads m src bs -> (bs <> [] -> dst <> 0 /\ src <> 0) -> apart (dst, zlen bs) (src, zlen bs) ->
  memcpy m dst src (zlen bs) = Some (store_bytes m dst bs).
Proof.
  intros Hr Hnn Hap. unfold memcpy. destruct (Z.eqb_spec (zlen bs) 0) as [Hz|Hz].
  { by destruct bs. }
  destruct Hnn as [H1 H2]; [by intros ->|].
  destruct (Z.eqb_spec dst 0); [done|]. destruct (Z.eqb_spec src 0); [done|]. simpl.
  assert ((dst + zlen bs <=? src) || (src + zlen bs <=? dst) = true) as ->.
  { apply orb_true_iff. rewrite !Z.leb_le. apply Hap. }
  rewrite Nat2Z.id, Hr. done.
Qed.

(** [memcpy] of a range onto itself is undefined. *)
Lemma memcpy_self m a n : 0 < n -> memcpy m a a n = None.
Proof.
  intros. unfold memcpy. destruct (Z.eqb_spec n 0); [lia|].
  destruct (_ || _); [done|]. by destruct (Z.leb_spec (a + n) a); [lia|].
Qed.

(** ** The contract of a pool with the strings made from it *)

Class PoolLaws (P : Type) `{!PoolAllocator P} := {
  (** The pool is in order while the regions [U] are in use, its own and others. *)
  pool_inv : P -> list region -> Prop;
  (** Requests that do not overflow an address. *)
  pool_fits : P -> Z -> Prop;
  pool_alloc_some p U n a p' :
    pool_inv p U -> 0 <= n -> pool_fits p n -> pool_alloc p n = (Some a, p') ->
    0 < a /\ pool_inv p' ((a, n) :: U) /\ Forall (apart (a, n)) U /\
    (forall k, pool_fits p k -> pool_fits p' k)
}.

Section RealPool.
Context {F : Type} `{!BlockFactory F} `{!FactoryLaws F}.

(** Memory of the pool is apart from the memory of others. *)
Lemma allocs_apart f p A O r s :
  pool_ok f p A O -> r ∈ A -> s ∈ O -> apart r s.
Proof.
  intros (bs & b0 & Hwf & HA & Hlive & Hap) Hr Hs.
  destruct (ao_inside _ _ HA r Hr) as (b & Hb & Hin).
  rewrite Hlive in Hap. apply all_apart_app in Hap as (_ & _ & Hap).
  pose proof (pw_wf _ _ _ Hwf) as HF. rewrite Forall_forall in HF. specialize (HF b Hb).
  destruct HF as [? Hbuf Hcur ?]. unfold SIZEOF_BLOCK in *.
  rewrite (pw_blocks _ _ _ Hwf) in Hb. unfold owned in Hap.
  apply elem_of_app in Hb as [Hb|Hb%list_elem_of_singleton].
  - eapply apart_inside; [|apply inside_refl|apply (Hap (block_region b) s)];
      [|apply elem_of_app; left; by apply list_elem_of_fmap_2|done].
    unfold inside, block_region in *. simpl in *. lia.
  - subst b. pose proof (pw_first _ _ _ Hwf) as H0. unfold SIZEOF_POOL in *.
    eapply apart_inside; [|apply inside_refl|apply (Hap (addr p, end_ b0 - addr p) s)];
      [|apply elem_of_app; right; by left|done].
    unfold inside in *. simpl in *. lia.
Qed.

#[export] Instance pj_pool_laws : PoolLaws (pool_and_factory F).
Proof.
  refine {|
    pool_inv := fun pf U => exists A O, U ≡ₚ A ++ O /\ pool_ok pf.2 pf.1 A O;
    pool_fits := fun pf n => increment_size pf.1 + SIZEOF_BLOCK + alignment pf.1 - 1 + n < 2 ^ 32
  |}.
  intros [p f] U n a p' (A & O & HU & Hok) Hn Hfit Ha. simpl in *.
  destruct (pool_params _ _ _ _ Hok).
  pose proof (aligned_alloc_spec f p A O 0 n Hok (or_introl eq_refl) Hn) as Hsp.
  rewrite Z.max_r in Hsp by lia. specialize (Hsp Hfit). unfold pj_pool_alloc in Ha.
  destruct (pj_pool_aligned_alloc f p 0 n) as [[r p1] f1]. simplify_eq. simpl.
  destruct Hsp as [[Hok' _ Hpos (Hi & Hal & _)] _]. split_and!; [done|..].
  - exists ((a, n) :: A), O. by rewrite HU.
  - rewrite HU, Forall_app. split.
    + destruct Hok' as (? & ? & _ & HA & _). by destruct (ao_apart _ _ HA).
    + rewrite Forall_forall. intros s Hs. eapply allocs_apart; [exact Hok'|by left|done].
  - intros k. by rewrite Hi, Hal.
Defined.
End RealPool.

(** ** One duplication *)

Inductive dup_op :=
  | Dup (dst src : Z)
  | DupNull (dst src : Z)
  | Dup2 (dst src : Z)
  | Dup2Null (dst src : Z).

Definition op_dst (op : dup_op) : Z :=
  match op with Dup d _ | DupNull d _ | Dup2 d _ | Dup2Null d _ => d end.

(** The copy is to be terminated. *)
Definition op_nul (op : dup_op) : bool :=
  match op with Dup _ _ | Dup2 _ _ => false | _ => true end.

(** The string object that is read. *)
Definition op_src (op : dup_op) : option Z :=
  match op with Dup _ s | DupNull _ s => Some s | _ => None end.

Definition run_dup {P} `{!PoolAllocator P} (pool : P) (w : store) (op : dup_op) : option (P * store) :=
  match op with
  | Dup dst src => pj_strdup pool w dst src
  | DupNull dst src => pj_strdup_with_null pool w dst src
  | Dup2 dst src => pj_strdup2 pool w dst src
  | Dup2Null dst src => pj_strdup2_with_null pool w dst src
  end.

(** A duplication with the place and the text of its source. *)
Record job := mk_job { j_op : dup_op; j_at : Z; j_text : list Z }.

Definition job_source (w : store) (j : job) : Prop :=
  match j_op j with
  | Dup dst src | DupNull dst src =>
      dst <> src /\ strs w !! src = Some (mk_str (j_at j) (zlen (j_text j))) /\
      reads (bytes w) (j_at j) (j_text j)
  | Dup2 _ src | Dup2Null _ src =>
      j_at j = src /\ (src = 0 /\ j_text j = [] \/ src <> 0 /\ cstring (bytes w) src (j_text j))
  end.

(** The bytes of the source, with the NUL of a C string. *)
Definition job_reads (j : job) (b : Z) : Prop :=
  j_at j <= b < j_at j + zlen (j_text j) \/
  op_src (j_op j) = None /\ j_at j <> 0 /\ b = j_at j + zlen (j_text j).

Record job_ready (U : list region) (w : store) (j : job) : Prop := {
  jr_source : job_source w j;
  jr_used b : job_reads j b -> in_use U b;
  jr_dst : is_Some (strs w !! op_dst (j_op j));
  jr_notnull : j_text j <> [] -> j_at j <> 0;
  jr_len : zlen (j_text j) < INT_MAX
}.

(** What the pool is asked for; nothing when this is 0. *)
Definition job_size (j : job) : Z := zlen (j_text j) + if op_nul (j_op j) then 1 else 0.

(** The destination holds the text, in the regions [A]. *)
Definition holds (w : store) (A : list region) (j : job) : Prop := exists p,
  strs w !! op_dst (j_op j) = Some (mk_str p (zlen (j_text j))) /\ reads (bytes w) p (j_text j) /\
  (op_nul (j_op j) = true -> bytes w !! (p + zlen (j_text j)) = Some 0) /\
  forall b, p <= b < p + job_size j -> in_use A b.

Section Laws.
Context {P : Type} `{!PoolAllocator P} `{!PoolLaws P}.
Implicit Types (pool : P).

Definition copy_bytes (m : memory) (p : Z) (j : job) : memory :=
  let m := store_bytes m p (j_text j) in
  if op_nul (j_op j) then <[p + zlen (j_text j) := 0]> m else m.

(** What a duplication leaves: the text at [p] and the destination set to it. *)
Definition dup_result (w : store) (p : Z) (j : job) : store :=
  mk_store (copy_bytes (bytes w) p j) (<[op_dst (j_op j) := mk_str p (zlen (j_text j))]> (strs w)).

Lemma copy_bytes_other m p j b :
  ~ p <= b < p + job_size j -> copy_bytes m p j !! b = m !! b.
Proof.
  unfold copy_bytes, job_size. intros Hb.
  destruct (op_nul (j_op j)); rewrite ?lookup_insert_ne by lia; apply store_bytes_other; lia.
Qed.

Lemma dup_result_holds w p j : holds (dup_result w p j) [(p, job_size j)] j.
Proof.
  exists p. simpl. rewrite lookup_insert_eq. unfold copy_bytes. split_and!; [done|..].
  - destruct (op_nul _); [|apply reads_store].
    eapply reads_ext; [|apply reads_store]. intros. rewrite lookup_insert_ne by lia. done.
  - intros ->. by rewrite lookup_insert_eq.
  - intros b Hb. by apply in_use_one.
Qed.

(** The source lies outside of what the pool has just handed out. *)
Lemma source_apart U w j a :
  job_ready U w j -> Forall (apart (a, job_size j)) U ->
  apart (a, zlen (j_text j)) (j_at j, zlen (j_text j)).
Proof.
  intros Hj HF. unfold apart. simpl.
  destruct (decide (j_text j = [])) as [->|Hne]; [simpl; lia|].
  assert (0 < zlen (j_text j)) by (destruct (j_text j); [done|simpl; lia]).
  destruct (decide (a + zlen (j_text j) <= j_at j \/ j_at j + zlen (j_text j) <= a)); [done|].
  exfalso. apply (in_use_apart _ U (Z.max a (j_at j)) HF).
  - apply (jr_used _ _ _ Hj). left. lia.
  - unfold job_size. simpl. destruct (op_nul _); lia.
Qed.

Lemma copy_to_spec w d p n a bs :
  strs w !! d = Some (mk_str p n) -> reads (bytes w) a bs -> (bs <> [] -> p <> 0 /\ a <> 0) ->
  apart (p, zlen bs) (a, zlen bs) ->
  copy_to w d a (zlen bs) = Some (set_bytes w (store_bytes (bytes w) p bs)).
Proof. intros Hd Hr Hn Hap. unfold copy_to. rewrite Hd. simpl. by rewrite memcpy_spec. Qed.

Lemma terminate_spec w d p n :
  strs w !! d = Some (mk_str p n) -> p <> 0 -> p + n <> 0 ->
  terminate w d = Some (set_bytes w (<[p + n := 0]> (bytes w))).
Proof.
  intros Hd Hp Hn. unfold terminate, put. rewrite Hd. simpl.
  destruct (Z.eqb_spec p 0); [done|]. by destruct (Z.eqb_spec (p + n) 0).
Qed.

Lemma set_slen_spec w d p n k :
  strs w !! d = Some (mk_str p n) -> set_slen w d k = Some (set_str w d (mk_str p k)).
Proof. intros Hd. unfold set_slen. by rewrite Hd. Qed.

Lemma alloc_ptr_spec pool w d n k a pool' :
  strs w !! d = Some n -> pool_alloc pool k = (Some a, pool') ->
  alloc_ptr pool w d k = Some (pool', set_str w d (mk_str a (slen n))).
Proof. intros Hd Ha. unfold alloc_ptr, set_ptr. by rewrite Ha, Hd. Qed.

(** The facts every duplication uses. *)
Record dup_facts (w : store) (j : job) (a : Z) (d0 : pj_str_t) : Prop := {
  df_dst : strs w !! op_dst (j_op j) = Some d0;
  df_pos : 0 < a;
  df_apart : apart (a, zlen (j_text j)) (j_at j, zlen (j_text j));
  df_null : j_text j <> [] -> a <> 0 /\ j_at j <> 0;
  df_len : 0 <= zlen (j_text j) < INT_MAX
}.

Lemma dup_facts_intro pool pool' U w j a :
  pool_inv pool U -> job_ready U w j -> pool_fits pool (job_size j) ->
  pool_alloc pool (job_size j) = (Some a, pool') -> exists d0, dup_facts w j a d0.
Proof.
  intros Hinv Hj Hfit Ha. assert (0 <= job_size j) by (unfold job_size; destruct (op_nul _); lia).
  destruct (pool_alloc_some pool U (job_size j) a pool') as (Hpos & _ & HF & _); try done.
  destruct (jr_dst _ _ _ Hj) as [d0 Hd0]. exists d0. split; try done.
  - by eapply source_apart.
  - intros Hne. split; [lia|]. by apply (jr_notnull _ _ _ Hj).
  - pose proof (jr_len _ _ _ Hj). lia.
Qed.

Lemma run_Dup pool pool' w dst src a d0 at_ bs :
  let j := mk_job (Dup dst src) at_ bs in
  job_source w j -> dup_facts w j a d0 -> job_size j <> 0 ->
  pool_alloc pool (job_size j) = (Some a, pool') ->
  pj_strdup pool w dst src = Some (pool', dup_result w a j).
Proof.
  intros j (Hne & Hs & Hr) [Hd Hpos Hap Hnn Hlen] Hsz Ha.
  unfold job_size in *. simpl in *. rewrite Z.add_0_r in *.
  unfold pj_strdup. destruct (Z.eqb_spec dst src); [done|]. rewrite Hs. simpl.
  destruct (Z.ltb_spec 0 (zlen bs)); [|lia].
  rewrite (alloc_ptr_spec _ _ _ _ _ _ _ Hd Ha). simpl. rewrite lookup_insert_ne, Hs by done. simpl.
  rewrite (copy_to_spec _ dst a (slen d0)); [|simpl; by rewrite lookup_insert_eq|done..].
  simpl. rewrite lookup_insert_ne, Hs by done. simpl. destruct (Z.ltb_spec (zlen bs) 0); [lia|].
  rewrite (set_slen_spec _ _ a (slen d0)) by (simpl; by rewrite lookup_insert_eq). simpl.
  unfold dup_result, set_str, set_bytes. simpl. by rewrite insert_insert_eq.
Qed.

Lemma sadd_small x y : - 2 ^ 31 <= x + y <= INT_MAX -> sadd x y = Some (x + y).
Proof.
  intros. unfold sadd.
  by destruct (Z.leb_spec (- 2 ^ 31) (x + y)), (Z.leb_spec (x + y) INT_MAX); try lia.
Qed.

(** [if (dst->slen) pj_memcpy(dst->ptr, src, dst->slen)]. *)
Lemma copy_unless_empty w d p n a bs :
  strs w !! d = Some (mk_str p n) -> reads (bytes w) a bs -> (bs <> [] -> p <> 0 /\ a <> 0) ->
  apart (p, zlen bs) (a, zlen bs) ->
  (if negb (zlen bs =? 0) then copy_to w d a (zlen bs) else Some w) =
  Some (set_bytes w (store_bytes (bytes w) p bs)).
Proof.
  intros Hd Hr Hn Hap. destruct (Z.eqb_spec (zlen bs) 0); simpl; [|by eapply copy_to_spec].
  destruct bs; [|done]. by destruct w.
Qed.

Lemma run_DupNull pool pool' w dst src a d0 at_ bs :
  let j := mk_job (DupNull dst src) at_ bs in
  job_source w j -> dup_facts w j a d0 ->
  pool_alloc pool (job_size j) = (Some a, pool') ->
  pj_strdup_with_null pool w dst src = Some (pool', dup_result w a j).
Proof.
  intros j (Hne & Hs & Hr) [Hd Hpos Hap Hnn Hlen] Ha.
  unfold job_size in *. simpl in *. unfold INT_MAX in *. unfold pj_strdup_with_null. rewrite Hs. simpl.
  destruct (Z.ltb_spec (zlen bs) 0); [lia|]. rewrite sadd_small by (unfold INT_MAX; lia). simpl.
  rewrite (alloc_ptr_spec _ _ _ _ _ _ _ Hd Ha). simpl. rewrite lookup_insert_ne, Hs by done. simpl.
  set (w1 := set_str _ _ _).
  assert (Hw1 : strs w1 !! dst = Some (mk_str a (slen d0))) by (simpl; by rewrite lookup_insert_eq).
  rewrite (copy_unless_empty w1 dst a (slen d0) at_ bs) by done. simpl.
  rewrite (set_slen_spec _ _ a (slen d0)) by done. simpl.
  rewrite (terminate_spec _ _ a (zlen bs)) by (simpl; rewrite ?lookup_insert_eq; done || lia).
  simpl. unfold dup_result, w1, set_str, set_bytes. simpl. by rewrite !insert_insert_eq.
Qed.

Lemma strlen_source w src at_ bs op :
  op = Dup2 (op_dst op) src \/ op = Dup2Null (op_dst op) src ->
  job_source w (mk_job op at_ bs) -> zlen bs < INT_MAX ->
  strlen_or_0 (bytes w) src = Some (zlen bs) /\ i32 (zlen bs) = zlen bs /\
  u32 (zlen bs) = zlen bs /\ reads (bytes w) src bs /\ at_ = src.
Proof.
  intros Hop Hs Hlen. assert (Hs' : at_ = src /\ (src = 0 /\ bs = [] \/ src <> 0 /\ cstring (bytes w) src bs)).
  { by destruct Hop as [Hop|Hop]; rewrite Hop in Hs. }
  destruct Hs' as [-> Hs']. unfold INT_MAX in Hlen. split_and!; [|apply i32_small; lia|apply u32_small; lia|..|done].
  - unfold strlen_or_0. destruct Hs' as [[-> ->]|[Hne Hc]]; [done|].
    destruct (Z.eqb_spec src 0); [done|]. by apply strlen_spec.
  - by destruct Hs' as [[-> ->]|[_ [? _]]].
Qed.

Lemma run_Dup2 pool pool' w dst src a d0 at_ bs :
  let j := mk_job (Dup2 dst src) at_ bs in
  job_source w j -> dup_facts w j a d0 -> job_size j <> 0 ->
  pool_alloc pool (job_size j) = (Some a, pool') ->
  pj_strdup2 pool w dst src = Some (pool', dup_result w a j).
Proof.
  intros j Hs [Hd Hpos Hap Hnn Hlen] Hsz Ha. destruct d0 as [p0 n0].
  destruct (strlen_source w src at_ bs (Dup2 dst src)) as (Hl & Hi & Hu & Hr & ->); [by left|done|apply Hlen|].
  unfold job_size in *. simpl in *. rewrite Z.add_0_r in *.
  unfold pj_strdup2. rewrite Hl. simpl. rewrite Hi, (set_slen_spec _ _ _ _ _ Hd). simpl.
  rewrite lookup_insert_eq. simpl. destruct (Z.eqb_spec (zlen bs) 0); [done|]. simpl.
  rewrite Hu, (alloc_ptr_spec _ _ _ (mk_str p0 (zlen bs)) _ a pool'); [|simpl; by rewrite lookup_insert_eq|done].
  simpl. rewrite lookup_insert_eq. simpl. rewrite Hu.
  rewrite (copy_to_spec _ dst a (zlen bs)); [|simpl; by rewrite lookup_insert_eq|done..].
  simpl. unfold dup_result, set_str, set_bytes. simpl. by rewrite insert_insert_eq.
Qed.

Lemma run_Dup2Null pool pool' w dst src a d0 at_ bs :
  let j := mk_job (Dup2Null dst src) at_ bs in
  job_source w j -> dup_facts w j a d0 ->
  pool_alloc pool (job_size j) = (Some a, pool') ->
  pj_strdup2_with_null pool w dst src = Some (pool', dup_result w a j).
Proof.
  intros j Hs [Hd Hpos Hap Hnn Hlen] Ha. destruct d0 as [p0 n0].
  destruct (strlen_source w src at_ bs (Dup2Null dst src)) as (Hl & Hi & Hu & Hr & ->); [by right|done|apply Hlen|].
  unfold job_size in *. simpl in *. unfold INT_MAX in *.
  unfold pj_strdup2_with_null. rewrite Hl. simpl. rewrite Hi, (set_slen_spec _ _ _ _ _ Hd). simpl.
  rewrite lookup_insert_eq. simpl. rewrite sadd_small by (unfold INT_MAX; lia). simpl.
  rewrite (u32_small (zlen bs + 1)) by lia.
  rewrite (alloc_ptr_spec _ _ _ (mk_str p0 (zlen bs)) _ a pool'); [|simpl; by rewrite lookup_insert_eq|done].
  simpl. rewrite lookup_insert_eq. simpl. rewrite Hu.
  set (w1 := set_str _ _ _).
  assert (Hw1 : strs w1 !! dst = Some (mk_str a (zlen bs))) by (simpl; by rewrite lookup_insert_eq).
  rewrite (copy_unless_empty w1 dst a (zlen bs) src bs) by done. simpl.
  rewrite (terminate_spec _ _ a (zlen bs)) by (done || lia).
  simpl. unfold dup_result, w1, set_str, set_bytes. simpl. by rewrite insert_insert_eq.
Qed.

(** What a sequence of duplications leaves, [A] the memory they took. *)
Record dups_done (U : list region) (w : store) (js : list job) (pool pool' : P) (w' : store)
    (A : list region) : Prop := {
  dd_inv : pool_inv pool' (A ++ U);
  dd_fits k : pool_fits pool k -> pool_fits pool' k;
  dd_holds : Forall (holds w' A) js;
  dd_frame b : ~ in_use A b -> bytes w' !! b = bytes w !! b;
  dd_fresh b : in_use A b -> ~ in_use U b;
  dd_strs k : k ∉ map (fun j => op_dst (j_op j)) js -> strs w' !! k = strs w !! k
}.

Lemma run_dup_some pool pool' U w j a :
  pool_inv pool U -> job_ready U w j -> pool_fits pool (job_size j) -> job_size j <> 0 ->
  pool_alloc pool (job_size j) = (Some a, pool') ->
  run_dup pool w (j_op j) = Some (pool', dup_result w a j).
Proof.
  intros Hinv Hj Hfit Hsz Ha. destruct (dup_facts_intro _ _ _ _ _ _ Hinv Hj Hfit Ha) as [d0 Hd].
  pose proof (jr_source _ _ _ Hj) as Hs. destruct j as [[dst src|dst src|dst src|dst src] at_ bs]; simpl.
  - by eapply run_Dup.
  - by eapply run_DupNull.
  - by eapply run_Dup2.
  - by eapply run_Dup2Null.
Qed.

(** An empty string takes no memory. *)
Lemma run_dup_empty pool U w j :
  job_ready U w j -> job_size j = 0 ->
  exists p, run_dup pool w (j_op j) = Some (pool, set_str w (op_dst (j_op j)) (mk_str p 0)) /\
    j_text j = [].
Proof.
  intros [Hs _ [[p0 n0] Hd] _ Hlen] Hsz. unfold job_size in Hsz.
  destruct j as [[dst src|dst src|dst src|dst src] at_ bs]; simpl in *; try lia;
    (destruct bs; [|simpl in *; lia]).
  - destruct Hs as (Hne & Hs & _). exists p0. split; [|done]. unfold pj_strdup.
    destruct (Z.eqb_spec dst src); [done|]. rewrite Hs. simpl. rewrite Hs. simpl.
    by rewrite (set_slen_spec _ _ _ _ _ Hd).
  - exists 0. split; [|done].
    destruct (strlen_source w src at_ [] (Dup2 dst src)) as (Hl & Hi & _); [by left|done..|].
    unfold pj_strdup2, set_ptr. rewrite Hl. simpl. rewrite (set_slen_spec _ _ _ _ _ Hd). simpl.
    rewrite !lookup_insert_eq. simpl. unfold set_str. simpl. by rewrite insert_insert_eq.
Qed.

(** The pool has memory for the request. *)
Definition room (pool : P) (j : job) : Prop :=
  job_size j = 0 \/ is_Some (pool_alloc pool (job_size j)).1.

Lemma run_dup_sound pool U w j :
  pool_inv pool U -> job_ready U w j -> pool_fits pool (job_size j) -> room pool j ->
  exists pool' w' A, run_dup pool w (j_op j) = Some (pool', w') /\ dups_done U w [j] pool pool' w' A.
Proof.
  intros Hinv Hj Hfit Hroom. destruct (decide (job_size j = 0)) as [Hz|Hz].
  - destruct (run_dup_empty pool U w j Hj Hz) as (p & -> & Ht). do 2 eexists. exists []. split; [done|].
    split; try done.
    + constructor; [|done]. exists p. rewrite Hz, Ht. simpl. rewrite lookup_insert_eq. split_and!; try done; [|lia].
      intros Hn. unfold job_size in Hz. rewrite Hn in Hz. lia.
    + by intros b ?%Exists_nil.
    + simpl. intros k [Hkd _]%not_elem_of_cons. by rewrite lookup_insert_ne.
  - destruct Hroom as [?|[a Ha]]; [done|]. destruct (pool_alloc pool (job_size j)) as [r pool'] eqn:E.
    simpl in Ha. subst r. rewrite (run_dup_some _ _ _ _ _ _ Hinv Hj Hfit Hz E).
    do 2 eexists. exists [(a, job_size j)]. split; [done|].
    destruct (pool_alloc_some pool U (job_size j) a pool') as (Hpos & Hinv' & HF & Hk); try done.
    { unfold job_size. destruct (op_nul _); lia. }
    split; try done.
    + constructor; [apply dup_result_holds|done].
    + intros b Hb. apply copy_bytes_other. by rewrite in_use_one in Hb.
    + intros b Hb%in_use_one HU. by apply (in_use_apart _ _ _ HF HU).
    + simpl. intros k [Hkd _]%not_elem_of_cons. by rewrite lookup_insert_ne.
Qed.

(** ** Sequences of duplications *)

Fixpoint run_dups (pool : P) (w : store) (ops : list dup_op) : option (P * store) :=
  match ops with
  | [] => Some (pool, w)
  | op :: ops => pw ← run_dup pool w op; run_dups pw.1 pw.2 ops
  end.

Fixpoint rooms (pool : P) (w : store) (js : list job) : Prop :=
  match js with
  | [] => True
  | j :: js => room pool j /\
      forall pool' w', run_dup pool w (j_op j) = Some (pool', w') -> rooms pool' w' js
  end.

(** A duplication can still be done, from the same text, after others. *)
Lemma job_ready_after U A w w' j :
  job_ready U w j -> (forall b, in_use U b -> bytes w' !! b = bytes w !! b) ->
  strs w' !! op_dst (j_op j) = strs w !! op_dst (j_op j) ->
  (forall s, op_src (j_op j) = Some s -> strs w' !! s = strs w !! s) -> job_ready (A ++ U) w' j.
Proof.
  intros [Hs Hu Hd Hn Hl] Hb Hdst Hsrc.
  assert (Hrd : forall b, job_reads j b -> bytes w' !! b = bytes w !! b) by eauto.
  assert (Hr : reads (bytes w) (j_at j) (j_text j) -> reads (bytes w') (j_at j) (j_text j)).
  { apply reads_ext. intros. apply Hrd. by left. }
  split; try done.
  - unfold job_source in *. destruct (j_op j) as [dst src|dst src|dst src|dst src] eqn:Eo;
      try (destruct Hs as (? & ? & ?); rewrite (Hsrc src eq_refl); by auto).
    all: destruct Hs as [Ha [?|[Hne [Hc [Hz H0]]]]]; split; [done|by left|done|right]; split; [done|].
    all: rewrite <-Ha in *; split_and!; [by apply Hr|done|].
    all: rewrite Hrd; [done|right]; by rewrite Eo.
  - intros b Hb'. apply in_use_app. right. by apply Hu.
  - by rewrite Hdst.
Qed.

Lemma holds_after A A' w w' j :
  holds w A j -> (forall b, in_use A b -> bytes w' !! b = bytes w !! b) ->
  strs w' !! op_dst (j_op j) = strs w !! op_dst (j_op j) -> holds w' (A' ++ A) j.
Proof.
  intros (p & Hp & Hr & Hn & Hu) Hb Hs.
  assert (Hb' : forall b, p <= b < p + job_size j -> bytes w' !! b = bytes w !! b) by eauto.
  unfold job_size in Hb'. exists p. rewrite Hs. split_and!; [done|..].
  - eapply reads_ext; [|done]. intros b Hbb. apply Hb'. destruct (op_nul _); lia.
  - intros E. rewrite Hb' by (rewrite E; lia). by apply Hn.
  - intros b Hbb. apply in_use_app. right. by apply Hu.
Qed.

Abbreviation dsts js := (map (fun j => op_dst (j_op j)) js).

Lemma dups_done_cons U w j js pool pool1 pool' w1 w' A1 A2 :
  NoDup (dsts (j :: js)) ->
  dups_done U w [j] pool pool1 w1 A1 -> dups_done (A1 ++ U) w1 js pool1 pool' w' A2 ->
  dups_done U w (j :: js) pool pool' w' (A2 ++ A1).
Proof.
  intros [Hj _]%NoDup_cons [I1 F1 H1 M1 R1 S1] [I2 F2 H2 M2 R2 S2].
  assert (Hkeep : forall b, in_use (A1 ++ U) b -> bytes w' !! b = bytes w1 !! b).
  { intros b Hb. apply M2. intros Hb2. by apply (R2 b Hb2). }
  split.
  - by rewrite <-app_assoc.
  - eauto.
  - apply Forall_cons. split.
    + apply Forall_cons in H1 as [H1 _]. apply (holds_after A1 A2 w1); [done|..|by apply S2].
      intros b Hb. apply Hkeep, in_use_app. by left.
    + eapply Forall_impl; [exact H2|]. intros k (q & ? & ? & ? & Hq). exists q. split_and!; try done.
      intros b Hb. apply in_use_app. left. by apply Hq.
  - intros b Hb. rewrite in_use_app in Hb. rewrite M2, M1; tauto.
  - intros b [Hb|Hb]%in_use_app; [|by apply R1].
    intros HU. apply (R2 b Hb), in_use_app. by right.
  - intros k [Hk1 Hk2]%not_elem_of_cons. rewrite S2 by done. apply S1. simpl.
    rewrite list_elem_of_singleton. done.
Qed.

Lemma run_dups_sound pool U w js :
  pool_inv pool U -> Forall (job_ready U w) js -> Forall (fun j => pool_fits pool (job_size j)) js ->
  NoDup (dsts js) -> Forall (fun j => forall s, op_src (j_op j) = Some s -> s ∉ dsts js) js ->
  rooms pool w js ->
  exists pool' w' A, run_dups pool w (map j_op js) = Some (pool', w') /\
    dups_done U w js pool pool' w' A.
Proof.
  revert pool U w. induction js as [|j js IH]; intros pool U w Hinv Hr Hf Hnd Hsrc Hroom; simpl.
  { exists pool, w, []. split; [done|]. split; try done. by intros b ?%Exists_nil. }
  apply Forall_cons in Hr as [Hrj Hr]. apply Forall_cons in Hf as [Hfj Hf].
  apply Forall_cons in Hsrc as [_ Hsrc]. destruct Hroom as [Hrm Hroom].
  destruct (run_dup_sound pool U w j Hinv Hrj Hfj Hrm) as (pool1 & w1 & A1 & E1 & D1).
  rewrite E1. simpl. pose proof D1 as [I1 F1 H1 M1 R1 S1].
  assert (Hkeep : forall b, in_use U b -> bytes w1 !! b = bytes w !! b).
  { intros b Hb. apply M1. intros Hb2. by apply (R1 b Hb2). }
  pose proof Hnd as [Hj Hnd']%NoDup_cons.
  destruct (IH pool1 (A1 ++ U) w1) as (pool' & w' & A2 & E2 & D2); try done.
  - rewrite Forall_forall in Hr, Hsrc |- *. intros k Hk. apply (job_ready_after _ _ w); auto.
    + apply S1. simpl. rewrite list_elem_of_singleton. intros E. apply Hj. rewrite <-E.
      by apply (list_elem_of_fmap_2 (fun j => op_dst (j_op j))).
    + intros s Es. apply S1. simpl. rewrite list_elem_of_singleton. intros ->.
      apply (Hsrc k Hk _ Es). by left.
  - eapply Forall_impl; [exact Hf|]. auto.
  - eapply Forall_impl; [exact Hsrc|]. intros k Hk s Es Hin. apply (Hk s Es). by right.
  - by apply Hroom.
  - exists pool', w', (A2 ++ A1). split; [done|]. by eapply dups_done_cons.
Qed.

(** Duplicating any sequence of strings and C strings into a pool with
    room for them, to distinct destinations that are not among the sources,
    always completes.  Afterwards each destination holds the text its source
    had at the start, followed by NUL when the function promises one, in
    memory [A] that the pool handed out for it; [A] overlaps nothing that was
    in use before, no other byte changes, and no other string object does. *)
Theorem strdup_sequence pool U w js :
  pool_inv pool U -> Forall (job_ready U w) js -> Forall (fun j => pool_fits pool (job_size j)) js ->
  NoDup (dsts js) -> Forall (fun j => forall s, op_src (j_op j) = Some s -> s ∉ dsts js) js ->
  rooms pool w js ->
  exists pool' w' A, run_dups pool w (map j_op js) = Some (pool', w') /\
    pool_inv pool' (A ++ U) /\ Forall (holds w' A) js /\
    (forall b, in_use A b -> ~ in_use U b) /\
    (forall b, ~ in_use A b -> bytes w' !! b = bytes w !! b) /\
    (forall k, k ∉ dsts js -> strs w' !! k = strs w !! k).
Proof.
  intros Hinv Hr Hf Hnd Hs Hm.
  destruct (run_dups_sound pool U w js) as (pool' & w' & A & E & [? ? ? ? ? ?]); try done.
  exists pool', w', A. done.
Qed.

(** [pj_strdup3] is [pj_strdup2] into an object of its own. *)
Lemma strdup3_sound junk pool U w j src :
  let temp := fresh (dom (strs w)) in
  j_op j = Dup2 temp src -> pool_inv pool U -> job_ready U (set_str w temp junk) j ->
  pool_fits pool (job_size j) -> room pool j ->
  exists pool' w' A p, pj_strdup3 junk pool w src = Some (pool', w', mk_str p (zlen (j_text j))) /\
    pool_inv pool' (A ++ U) /\ reads (bytes w') p (j_text j) /\ strs w' = strs w /\
    (forall b, ~ in_use A b -> bytes w' !! b = bytes w !! b).
Proof.
  intros temp Hop Hinv Hj Hf Hm.
  assert (Ht : strs w !! temp = None) by apply not_elem_of_dom, is_fresh.
  destruct (run_dup_sound pool U _ j Hinv Hj Hf Hm) as (pool' & w' & A & E & [I _ Hh M _ S]).
  apply Forall_cons in Hh as [(p & Hp & Hr & _) _]. rewrite Hop in *. simpl in *.
  exists pool', (mk_store (bytes w') (delete temp (strs w'))), A, p. split_and!; try done.
  - unfold pj_strdup3. fold temp. rewrite E. simpl. by rewrite Hp.
  - apply map_eq. intros k. simpl. destruct (decide (k = temp)) as [->|Hne].
    + by rewrite lookup_delete_eq.
    + rewrite lookup_delete_ne by done. rewrite S by (rewrite Hop; simpl; by rewrite list_elem_of_singleton).
      by rewrite lookup_insert_ne.
Qed.

(** C40. [pj_strdup] leaves a string alone that is duplicated onto itself;
    [pj_strdup_with_null] has no such guard: the pointer to the text is
    overwritten before the text is copied, and the copy runs from the new
    memory onto itself, which is undefined, whatever the pool returns. *)
Theorem strdup_in_place pool w str s :
  strs w !! str = Some s -> 0 < slen s ->
  pj_strdup pool w str str = Some (pool, w) /\ pj_strdup_with_null pool w str str = None.
Proof.
  intros Hs Hl. split; [unfold pj_strdup; by rewrite Z.eqb_refl|].
  unfold pj_strdup_with_null. rewrite Hs. simpl. destruct (Z.ltb_spec (slen s) 0); [lia|].
  destruct (sadd (slen s) 1) as [n|]; [|done]. simpl. unfold alloc_ptr, set_ptr.
  destruct (pool_alloc pool n) as [r pool']. rewrite Hs. simpl.
  destruct (Z.eqb_spec (slen s) 0); [lia|]. simpl. rewrite lookup_insert_eq. simpl.
  unfold copy_to. simpl. rewrite lookup_insert_eq. simpl. by rewrite memcpy_self.
Qed.
End Laws.

(** ** Copies into a buffer *)

(** Setting the length of the destination of a copy. *)
Definition buffer_result (w : store) (dst p : Z) (m : memory) (n : Z) : store :=
  mk_store m (<[dst := mk_str p n]> (strs w)).

Lemma put_spec m p c : p <> 0 -> put m p c = Some (<[p := c]> m).
Proof. intros. unfold put. by destruct (Z.eqb_spec p 0). Qed.

(** The prefix of a text that is read. *)
Lemma reads_take m a bs n : reads m a bs -> reads m a (take n bs).
Proof. intros H. rewrite <-(take_drop n bs) in H. by apply reads_app in H as [? _]. Qed.

Lemma strncpy_with_null_spec w dst src p n0 a bs max :
  strs w !! dst = Some (mk_str p n0) -> strs w !! src = Some (mk_str a (zlen bs)) ->
  reads (bytes w) a bs -> 0 < p -> 0 < a -> 0 < max -> apart (p, max) (a, zlen bs) ->
  let t := take (Z.to_nat (max - 1)) bs in
  pj_strncpy_with_null w dst src max =
    Some (buffer_result w dst p (<[p + zlen t := 0]> (store_bytes (bytes w) p t)) (zlen t)).
Proof.
  intros Hd Hs Hr Hp Ha Hm Hap t. unfold pj_strncpy_with_null. rewrite Hs. simpl.
  assert (Ht : (if max <=? zlen bs then (if 0 <? max then max - 1 else 0)
                else (if zlen bs <? 0 then 0 else zlen bs)) = zlen t).
  { unfold t. rewrite length_take. repeat zcase; lia. }
  rewrite Ht, Hd. simpl.
  assert (Hc : (if 0 <? zlen t then m ← memcpy (bytes w) p a (zlen t); Some (set_bytes w m) else Some w) =
    Some (set_bytes w (store_bytes (bytes w) p t))).
  { destruct (Z.ltb_spec 0 (zlen t)).
    - rewrite memcpy_spec; [done|by apply reads_take|lia|].
      unfold apart in *. simpl in *. unfold t in *. rewrite length_take in *. lia.
    - destruct t; [by destruct w|simpl in *; lia]. }
  rewrite Hc. simpl. destruct (Z.eqb_spec p 0); [lia|]. rewrite put_spec by lia. simpl.
  unfold set_slen. simpl. by rewrite Hd.
Qed.

Lemma strcat_spec w dst src p xs a ys :
  strs w !! dst = Some (mk_str p (zlen xs)) -> strs w !! src = Some (mk_str a (zlen ys)) ->
  reads (bytes w) p xs -> reads (bytes w) a ys -> 0 < p -> 0 < a ->
  apart (p + zlen xs, zlen ys) (a, zlen ys) -> zlen xs + zlen ys <= INT_MAX ->
  exists m, pj_strcat w dst src = Some (buffer_result w dst p m (zlen (xs ++ ys))) /\
    reads m p (xs ++ ys) /\
    forall b, ~ p + zlen xs <= b < p + zlen xs + zlen ys -> m !! b = bytes w !! b.
Proof.
  intros Hd Hs Hx Hy Hp Ha Hap Hlen. exists (store_bytes (bytes w) (p + zlen xs) ys). split_and!.
  - unfold pj_strcat. rewrite Hs. simpl. rewrite Hd. simpl.
    destruct (Z.leb_spec 0 (zlen xs)); [|lia]. destruct (Z.ltb_spec 0 (zlen ys)); simpl.
    + destruct (Z.eqb_spec p 0); [lia|]. rewrite memcpy_spec by (done || lia). simpl.
      rewrite sadd_small by (unfold INT_MAX in *; lia). simpl. unfold set_slen. simpl. rewrite Hd. simpl.
      unfold buffer_result. rewrite length_app. by rewrite Nat2Z.inj_add.
    + destruct ys; [|simpl in *; lia]. rewrite app_nil_r. unfold buffer_result. simpl.
      rewrite (insert_id (strs w)) by done. by destruct w.
  - apply reads_app. split; [|apply reads_store]. eapply reads_ext; [|exact Hx].
    intros b Hb. apply store_bytes_other. lia.
  - intros b Hb. apply store_bytes_other. lia.
Qed.

(** ** Random strings *)

Lemma hex_digit_in v : 0 <= v < 16 -> hex_digit v ∈ pj_hex_digits.
Proof.
  intros. unfold hex_digit. apply list_elem_of_In, nth_In. simpl. lia.
Qed.

(** [m'] is [m] with hexadecimal digits in the [n] bytes from [p] on. *)
Definition hexed (m m' : memory) (p n : Z) : Prop :=
  (forall b, p <= b < p + n -> exists d, d ∈ pj_hex_digits /\ m' !! b = Some d) /\
  (forall b, ~ p <= b < p + n -> m' !! b = m !! b).

Lemma hexed_trans m1 m2 m3 p n k :
  0 <= n -> 0 <= k -> hexed m1 m2 p n -> hexed m2 m3 (p + n) k -> hexed m1 m3 p (n + k).
Proof.
  intros Hn Hk [H1 F1] [H2 F2]. split; intros b Hb.
  - destruct (decide (p + n <= b)); [apply H2; lia|]. rewrite F2 by lia. apply H1. lia.
  - rewrite F2, F1 by lia. done.
Qed.

Lemma hexed_put m p v : 0 < p -> 0 <= v < 16 -> exists m', put m p (hex_digit v) = Some m' /\ hexed m m' p 1.
Proof.
  intros Hp Hv. eexists. split; [apply put_spec; lia|]. split; intros b Hb.
  - replace b with p by lia. rewrite lookup_insert_eq. eauto using hex_digit_in.
  - apply lookup_insert_ne. lia.
Qed.

Lemma low_nibble v : 0 <= Z.land v 15 < 16.
Proof. change 15 with (Z.ones 4). rewrite Z.land_ones by lia. apply Z.mod_pos_bound. lia. Qed.

Lemma high_nibble v : 0 <= Z.shiftr (Z.land v 240) 4 < 16.
Proof.
  change 240 with (Z.shiftl 15 4). rewrite Z.shiftr_land, Z.shiftr_shiftl_l by lia. apply low_nibble.
Qed.

Lemma hexed_val m v p : 0 < p -> exists m', pj_val_to_hex_digit m v p = Some m' /\ hexed m m' p 2.
Proof.
  intros Hp. unfold pj_val_to_hex_digit.
  destruct (hexed_put m p _ Hp (high_nibble v)) as (m1 & -> & H1). simpl.
  destruct (hexed_put m1 (p + 1) _ ltac:(lia) (low_nibble v)) as (m2 & -> & H2).
  exists m2. split; [done|]. by apply (hexed_trans m m1 m2 p 1 1).
Qed.

Section RandomSpec.
Context {R : Type} (pj_rand : R -> Z * R).

Lemma random_words_spec n r m p : 0 < p ->
  exists r' m', random_words pj_rand n r m p = Some (r', m') /\ hexed m m' p (8 * Z.of_nat n).
Proof.
  revert r m p. induction n as [|n IH]; intros r m p Hp; simpl.
  { do 2 eexists. split; [done|]. split; [lia|done]. }
  destruct (pj_rand r) as [v r1].
  match goal with |- context [pj_val_to_hex_digit m ?a p] => destruct (hexed_val m a p) as (m1 & -> & H1); [lia|] end.
  simpl. match goal with |- context [pj_val_to_hex_digit m1 ?a _] => destruct (hexed_val m1 a (p + 2)) as (m2 & -> & H2); [lia|] end.
  simpl. match goal with |- context [pj_val_to_hex_digit m2 ?a _] => destruct (hexed_val m2 a (p + 4)) as (m3 & -> & H3); [lia|] end.
  simpl. match goal with |- context [pj_val_to_hex_digit m3 ?a _] => destruct (hexed_val m3 a (p + 6)) as (m4 & -> & H4); [lia|] end.
  simpl. destruct (IH r1 m4 (p + 8)) as (r' & m' & -> & H5); [lia|]. do 2 eexists. split; [done|].
  replace (8 * Z.of_nat (S n)) with (2 + 2 + 2 + 2 + 8 * Z.of_nat n) by lia.
  repeat (eapply hexed_trans; [lia|lia| |]); try done.
Qed.

Lemma random_digits_spec n r m p : 0 < p ->
  exists r' m', random_digits pj_rand n r m p = Some (r', m') /\ hexed m m' p (Z.of_nat n).
Proof.
  revert r m p. induction n as [|n IH]; intros r m p Hp; simpl.
  { do 2 eexists. split; [done|]. split; [lia|done]. }
  destruct (pj_rand r) as [v r1]. destruct (hexed_put m p _ Hp (low_nibble v)) as (m1 & -> & H1).
  simpl. destruct (IH r1 m1 (p + 1)) as (r' & m' & -> & H2); [lia|]. do 2 eexists. split; [done|].
  replace (Z.of_nat (S n)) with (1 + Z.of_nat n) by lia. by apply (hexed_trans _ m1); [lia..| |].
Qed.

(** Exactly [len] bytes are written, each a hexadecimal digit, whatever the
    generator returns. *)
Lemma random_string_spec r m str len : 0 < str -> 0 <= len ->
  exists r' m', pj_create_random_string pj_rand r m str len = Some (r', m') /\ hexed m m' str len.
Proof.
  intros Hs Hl. unfold pj_create_random_string.
  pose proof (Z.div_mod len 8 ltac:(lia)). pose proof (Z.mod_pos_bound len 8 ltac:(lia)).
  assert (0 <= len / 8) by (apply Z.div_pos; lia).
  destruct (random_words_spec (Z.to_nat (len / 8)) r m str Hs) as (r1 & m1 & -> & Hw). simpl.
  destruct (random_digits_spec (Z.to_nat (len mod 8)) r1 m1 (str + 8 * (len / 8))) as (r' & m' & -> & Hd); [lia|].
  do 2 eexists. split; [done|].
  replace len with (8 * Z.of_nat (Z.to_nat (len / 8)) + Z.of_nat (Z.to_nat (len mod 8))) by lia.
  apply (hexed_trans _ m1); [lia..|done|]. by rewrite Z2Nat.id by lia.
Qed.
End RandomSpec.

(** ** Strings at concrete inputs

    The theorems of [StrMemSpec] applied to strings duplicated into the pool
    of [PoolExamples]. *)

(** The texts, in a block of 64 bytes that is not the pool's: "sip:a" at
    9000 and the C string "ua" at 9010. *)
Definition ex_text : memory :=
  store_bytes (store_bytes ∅ 9000 [115; 105; 112; 58; 97]) 9010 [117; 97; 0].

Definition ex_store : store :=
  mk_store ex_text
    (list_to_map [(1, mk_str 0 0); (2, mk_str 9000 5); (3, mk_str 0 0); (4, mk_str 0 0); (5, mk_str 9000 0)]).

Definition ex_heap : pool_and_factory (list region) := (ex_pool, ex_live ++ [(9000, 64)]).

Definition ex_jobs : list job :=
  [mk_job (DupNull 1 2) 9000 [115; 105; 112; 58; 97]; mk_job (Dup2 3 9010) 9010 [117; 97];
   mk_job (Dup 4 5) 9000 []].

Lemma ex_heap_inv : pool_inv ex_heap [(9000, 64)].
Proof.
  exists [], [(9000, 64)]. split; [done|].
  exists [], (mk_block 4180 4200 4200 4352). split_and!; [apply ex_pool_wf|..].
  - split; try done; by intros ? ?%elem_of_nil.
  - vm_compute. done.
  - split; [|done]. apply Forall_singleton. left. simpl. lia.
Qed.

Lemma ex_cstring : cstring ex_text 9010 [117; 97].
Proof.
  split; [done|]. split; [|done]. intros H.
  repeat (apply elem_of_cons in H as [H|H]; [done|]). by apply elem_of_nil in H.
Qed.

Lemma ex_jobs_ready : Forall (job_ready [(9000, 64)] ex_store) ex_jobs.
Proof.
  repeat (apply Forall_cons; split); [| | |done].
  all: split; [|intros b [Hb|(? & ? & Hb)]; try done; apply in_use_one; simpl in Hb; lia|by eexists|done..].
  - done.
  - split; [done|right]. split; [done|apply ex_cstring].
  - done.
Qed.

Lemma ex_rooms : rooms ex_heap ex_store ex_jobs.
Proof.
  split; [right; by eexists|]. intros p1 w1 H1.
  vm_compute in H1. injection H1 as <- <-.
  split; [right; by eexists|]. intros p2 w2 H2. split; [by left|done].
Qed.

Lemma strdup_sequence_witness : exists pool' w' A,
  run_dups ex_heap ex_store (map j_op ex_jobs) = Some (pool', w') /\
  pool_inv pool' (A ++ [(9000, 64)]) /\ Forall (holds w' A) ex_jobs /\
  (forall b, in_use A b -> ~ in_use [(9000, 64)] b) /\
  (forall b, ~ in_use A b -> bytes w' !! b = bytes ex_store !! b) /\
  (forall k, k ∉ [1; 3; 4] -> strs w' !! k = strs ex_store !! k).
Proof.
  apply (strdup_sequence ex_heap [(9000, 64)] ex_store ex_jobs).
  - apply ex_heap_inv.
  - apply ex_jobs_ready.
  - repeat constructor; vm_compute; done.
  - apply (bool_decide_unpack _). vm_compute. done.
  - repeat constructor; intros s [= <-]; apply (bool_decide_unpack _); vm_compute; done.
  - apply ex_rooms.
Defined.

(** The copies, one after the other in the pool. *)
Example ex_dups_run :
  match run_dups ex_heap ex_store (map j_op ex_jobs) with
  | Some (_, w) => strs w !! 1 = Some (mk_str 4200 5) /\ strs w !! 3 = Some (mk_str 4208 2) /\
      strs w !! 4 = Some (mk_str 0 0) /\
      load_bytes (bytes w) 4200 6 = Some [115; 105; 112; 58; 97; 0]
  | None => False
  end.
Proof. vm_compute. done. Qed.

Lemma strdup_in_place_witness :
  pj_strdup ex_heap ex_store 2 2 = Some (ex_heap, ex_store) /\
  pj_strdup_with_null ex_heap ex_store 2 2 = None.
Proof. apply (strdup_in_place ex_heap ex_store 2 (mk_str 9000 5)); vm_compute; done. Defined.

Example ex_concat : exists w,
  pj_strncpy_with_null (set_str ex_store 1 (mk_str 8000 0)) 1 2 4 = Some w /\
  load_bytes (bytes w) 8000 4 = Some [115; 105; 112; 0] /\
  exists w', pj_strcat2 w 1 9010 = Some w' /\ load_bytes (bytes w') 8000 5 = Some [115; 105; 112; 117; 97] /\
    strs w' !! 1 = Some (mk_str 8000 5).
Proof. eexists. split; [vm_compute; done|]. split; [done|]. eexists. split; vm_compute; done. Qed.
