(* ===== verification/SockBsd.v ===== *)
(** * Sockets

    The socket calls of [pjlib/src/pj/sock_bsd.c] that the I/O queue uses, and
    the descriptor sets of [pjlib/src/pj/sock_select.c].  The system calls
    themselves are a class over the state of the system; every call may change
    [errno].  A buffer is the address of its first byte, a socket address is
    opaque. *)
From S2P Require Import Prelude TimeVal.

Definition PJ_ERRNO_START_SYS : Z := 20000 + 2 * 50000.
Definition PJ_STATUS_FROM_OS (e : Z) : Z := if e =? 0 then PJ_SUCCESS else e + PJ_ERRNO_START_SYS.
Definition PJ_RETURN_OS_ERROR (e : Z) : Z := if e =? 0 then -1 else PJ_STATUS_FROM_OS e.

Definition PJ_INVALID_SOCKET : Z := -1.

(** [SO_TYPE] and [SO_ERROR] of the level [SOL_SOCKET]. *)
Inductive sock_opt := SO_TYPE | SO_ERROR.

(** The constants of the system's headers. *)
Class SystemConstants := {
  FD_SETSIZE : Z;
  sizeof_fd_set : Z;
  EWOULDBLOCK : Z;
  EINPROGRESS : Z;
  ECONNRESET : Z;
  SOCK_STREAM : Z;
  SOCK_DGRAM : Z;
  (** 0 where the system has no such flag. *)
  MSG_NOSIGNAL : Z;
  O_NONBLOCK : Z
}.

Class SystemSockets (S : Type) := {
  errno : S -> Z;
  sys_send : S -> Z -> Z -> Z -> Z -> Z * S;
  sys_sendto : S -> Z -> Z -> Z -> Z -> Z -> Z -> Z * S;
  sys_recv : S -> Z -> Z -> Z -> Z -> Z * S;
  sys_recvfrom : S -> Z -> Z -> Z -> Z -> Z -> Z -> Z * S;
  sys_read : S -> Z -> Z -> Z -> Z * S;
  sys_accept : S -> Z -> Z -> Z -> Z * S;
  sys_connect : S -> Z -> Z -> Z -> Z * S;
  sys_getsockname : S -> Z -> Z -> Z -> Z * S;
  (** The result and the value. *)
  sys_getsockopt : S -> Z -> sock_opt -> Z * Z * S;
  sys_close : S -> Z -> Z * S;
  (** [fcntl] with [F_GETFL] and with [F_SETFL]. *)
  sys_getfl : S -> Z -> Z * S;
  sys_setfl : S -> Z -> Z -> Z * S;
  (** [select]: the number of ready descriptors and the sets it leaves. *)
  sys_select : S -> Z -> gset Z -> gset Z -> gset Z -> option pj_time_val ->
    Z * gset Z * gset Z * gset Z * S;
  pj_gettickcount : S -> pj_time_val * S
}.

Section Sockets.
Context `{!SystemConstants} {S : Type} `{!SystemSockets S}.
Implicit Types (s : S).

(** [pj_get_netos_error] and [pj_get_os_error]. *)
Definition pj_get_netos_error (s : S) : Z := PJ_STATUS_FROM_OS (errno s).

(** The status of a call that returned [rc], and what it leaves in [*len]. *)
Definition io_status (rc : Z) (s : S) : Z * Z * S :=
  if rc <? 0 then (PJ_RETURN_OS_ERROR (errno s), rc, s) else (PJ_SUCCESS, rc, s).

Definition zero_status (rc : Z) (s : S) : Z * S :=
  if negb (rc =? 0) then (PJ_RETURN_OS_ERROR (errno s), s) else (PJ_SUCCESS, s).

Definition pj_sock_send (s : S) (sock buf len flags : Z) : Z * Z * S :=
  let '(rc, s) := sys_send s sock buf len (Z.lor flags MSG_NOSIGNAL) in io_status rc s.

Definition pj_sock_sendto (s : S) (sock buf len flags to tolen : Z) : Z * Z * S :=
  let '(rc, s) := sys_sendto s sock buf len (Z.lor flags MSG_NOSIGNAL) to tolen in io_status rc s.

Definition pj_sock_recv (s : S) (sock buf len flags : Z) : Z * Z * S :=
  if buf =? 0 then (PJ_EINVAL, len, s) else
  let '(rc, s) := sys_recv s sock buf len flags in io_status rc s.

Definition pj_sock_recvfrom (s : S) (sock buf len flags from fromlen : Z) : Z * Z * S :=
  if buf =? 0 then (PJ_EINVAL, len, s) else
  let '(rc, s) := sys_recvfrom s sock buf len flags from fromlen in io_status rc s.

(** The status and the new socket. *)
Definition pj_sock_accept (s : S) (serverfd addr addrlen : Z) : Z * Z * S :=
  let '(newsock, s) := sys_accept s serverfd addr addrlen in
  if newsock =? PJ_INVALID_SOCKET then (PJ_RETURN_OS_ERROR (errno s), newsock, s)
  else (PJ_SUCCESS, newsock, s).

Definition pj_sock_connect (s : S) (sock addr namelen : Z) : Z * S :=
  let '(rc, s) := sys_connect s sock addr namelen in zero_status rc s.

Definition pj_sock_getsockname (s : S) (sock addr namelen : Z) : Z * S :=
  let '(rc, s) := sys_getsockname s sock addr namelen in zero_status rc s.

Definition pj_sock_getsockopt (s : S) (sock : Z) (opt : sock_opt) : Z * Z * S :=
  let '(rc, v, s) := sys_getsockopt s sock opt in
  let '(status, s) := zero_status rc s in (status, v, s).

Definition pj_sock_close (s : S) (sock : Z) : Z * S :=
  let '(rc, s) := sys_close s sock in zero_status rc s.

(** ** Descriptor sets

    The number of descriptors in the set is kept beside the bits.  A
    descriptor outside of the bits is undefined behaviour. *)

Record pj_fd_set_t := mk_fd_set { PART_COUNT : Z; PART_FDSET : gset Z }.

Definition fd_in_range (fd : Z) : bool := (0 <=? fd) && (fd <? FD_SETSIZE).

Definition PJ_FD_ZERO : pj_fd_set_t := mk_fd_set 0 ∅.

Definition PJ_FD_ISSET (fd : Z) (f : pj_fd_set_t) : option bool :=
  if fd_in_range fd then Some (bool_decide (fd ∈ PART_FDSET f)) else None.

Definition PJ_FD_SET (fd : Z) (f : pj_fd_set_t) : option pj_fd_set_t :=
  b ← PJ_FD_ISSET fd f;
  Some (mk_fd_set (if (b : bool) then PART_COUNT f else PART_COUNT f + 1) ({[fd]} ∪ PART_FDSET f)).

Definition PJ_FD_CLR (fd : Z) (f : pj_fd_set_t) : option pj_fd_set_t :=
  b ← PJ_FD_ISSET fd f;
  Some (mk_fd_set (if (b : bool) then PART_COUNT f - 1 else PART_COUNT f) (PART_FDSET f ∖ {[fd]})).

Definition PJ_FD_COUNT (f : pj_fd_set_t) : Z := PART_COUNT f.

(** The sets [select] leaves; the counts are not brought up to date. *)
Definition pj_sock_select (s : S) (n : Z) (r w x : pj_fd_set_t) (timeout : option pj_time_val) :
    Z * pj_fd_set_t * pj_fd_set_t * pj_fd_set_t * S :=
  let '(count, r', w', x', s) := sys_select s n (PART_FDSET r) (PART_FDSET w) (PART_FDSET x) timeout in
  (count, mk_fd_set (PART_COUNT r) r', mk_fd_set (PART_COUNT w) w', mk_fd_set (PART_COUNT x) x', s).
End Sockets.

(** The count is the number of descriptors. *)
Definition fd_set_ok (f : pj_fd_set_t) : Prop := PART_COUNT f = Z.of_nat (size (PART_FDSET f)).

Section Sets.
Context `{!SystemConstants}.

Lemma fd_zero_ok : fd_set_ok PJ_FD_ZERO.
Proof. done. Qed.

Lemma fd_set_spec fd f : fd_set_ok f -> 0 <= fd < FD_SETSIZE -> exists f',
  PJ_FD_SET fd f = Some f' /\ fd_set_ok f' /\ PART_FDSET f' = {[fd]} ∪ PART_FDSET f.
Proof.
  intros Hf Hfd. unfold PJ_FD_SET, PJ_FD_ISSET, fd_in_range.
  assert ((0 <=? fd) && (fd <? FD_SETSIZE) = true) as -> by lia. simpl.
  eexists. split; [done|]. split; [|done]. unfold fd_set_ok in *. simpl.
  case_bool_decide as Hin.
  - rewrite Hf. f_equal. f_equal. set_solver.
  - rewrite size_union by set_solver. rewrite size_singleton. lia.
Qed.

Lemma fd_clr_spec fd f : fd_set_ok f -> 0 <= fd < FD_SETSIZE -> exists f',
  PJ_FD_CLR fd f = Some f' /\ fd_set_ok f' /\ PART_FDSET f' = PART_FDSET f ∖ {[fd]}.
Proof.
  intros Hf Hfd. unfold PJ_FD_CLR, PJ_FD_ISSET, fd_in_range.
  assert ((0 <=? fd) && (fd <? FD_SETSIZE) = true) as -> by lia. simpl.
  eexists. split; [done|]. split; [|done]. unfold fd_set_ok in *. simpl.
  case_bool_decide as Hin.
  - rewrite size_difference by set_solver. rewrite size_singleton.
    pose proof (subseteq_size {[fd]} (PART_FDSET f)) as Hs. rewrite size_singleton in Hs.
    assert (1 <= size (PART_FDSET f))%nat by (apply Hs; set_solver). lia.
  - rewrite Hf. f_equal. f_equal. set_solver.
Qed.

Lemma fd_count_zero f : fd_set_ok f -> PJ_FD_COUNT f = 0 <-> PART_FDSET f = ∅.
Proof.
  unfold fd_set_ok, PJ_FD_COUNT. intros ->. split; [|intros ->; done].
  intros Hs. apply leibniz_equiv, size_empty_iff. lia.
Qed.
End Sets.
