(* ===== verification/IoQueueData.v ===== *)
(** * The data of the I/O queue

    The structures of [pjlib/src/pj/ioqueue_common_abs.h] and
    [ioqueue_select.c], configured with safe unregistration, callbacks without
    the lock, the fast track and TCP, as [config.h] and [os_zephyr.h] have it.
    Keys and operation keys are objects by address; the lists of a key hold the
    addresses of operations, in order. *)
From S2P Require Import Prelude TimeVal SockBsd.

Definition PJ_EPENDING : Z := PJ_ERRNO_START_STATUS + 2.
Definition PJ_EBUSY : Z := PJ_ERRNO_START_STATUS + 11.
Definition PJ_ECANCELLED : Z := PJ_ERRNO_START_STATUS + 14.
Definition PJ_IOQUEUE_MAX_HANDLES : Z := 64.
Definition PJ_IOQUEUE_KEY_FREE_DELAY : Z := 500.
Definition MAX_EVENTS : Z := 16.
Definition PJ_IOQUEUE_MAX_EVENTS_IN_SINGLE_POLL : Z := 16.
Definition PJ_IOQUEUE_ALWAYS_ASYNC : Z := 2 ^ 31.
Definition PENDING_RETRY : nat := 2.
Definition SIZEOF_SOCKADDR : Z := 28.

Definition READABLE_EVENT : Z := 1.
Definition WRITEABLE_EVENT : Z := 2.
Definition EXCEPTION_EVENT : Z := 4.

(** ** Data *)

Inductive pj_ioqueue_operation_e :=
  | OP_NONE | OP_READ | OP_RECV | OP_RECV_FROM | OP_WRITE | OP_SEND | OP_SEND_TO | OP_ACCEPT | OP_CONNECT.

#[export] Instance operation_eq_dec : EqDecision pj_ioqueue_operation_e.
Proof. solve_decision. Defined.

(** The members of the read, write and accept operations together; an operation
    key is used for one of them at a time. *)
Record operation_key := mk_op {
  o_op : pj_ioqueue_operation_e;
  o_buf : Z;
  o_size : Z;
  o_flags : Z;
  o_written : Z;
  o_bytes_read : Z;
  o_addr : Z;
  o_addrlen : Z;
  o_accept_fd : Z;
  o_local : Z
}.
Definition set_o_op (x : pj_ioqueue_operation_e) (r : operation_key) : operation_key :=
  mk_op x (o_buf r) (o_size r) (o_flags r) (o_written r) (o_bytes_read r) (o_addr r) (o_addrlen r) (o_accept_fd r) (o_local r).
Definition set_o_buf (x : Z) (r : operation_key) : operation_key :=
  mk_op (o_op r) x (o_size r) (o_flags r) (o_written r) (o_bytes_read r) (o_addr r) (o_addrlen r) (o_accept_fd r) (o_local r).
Definition set_o_size (x : Z) (r : operation_key) : operation_key :=
  mk_op (o_op r) (o_buf r) x (o_flags r) (o_written r) (o_bytes_read r) (o_addr r) (o_addrlen r) (o_accept_fd r) (o_local r).
Definition set_o_flags (x : Z) (r : operation_key) : operation_key :=
  mk_op (o_op r) (o_buf r) (o_size r) x (o_written r) (o_bytes_read r) (o_addr r) (o_addrlen r) (o_accept_fd r) (o_local r).
Definition set_o_written (x : Z) (r : operation_key) : operation_key :=
  mk_op (o_op r) (o_buf r) (o_size r) (o_flags r) x (o_bytes_read r) (o_addr r) (o_addrlen r) (o_accept_fd r) (o_local r).
Definition set_o_bytes_read (x : Z) (r : operation_key) : operation_key :=
  mk_op (o_op r) (o_buf r) (o_size r) (o_flags r) (o_written r) x (o_addr r) (o_addrlen r) (o_accept_fd r) (o_local r).
Definition set_o_addr (x : Z) (r : operation_key) : operation_key :=
  mk_op (o_op r) (o_buf r) (o_size r) (o_flags r) (o_written r) (o_bytes_read r) x (o_addrlen r) (o_accept_fd r) (o_local r).
Definition set_o_addrlen (x : Z) (r : operation_key) : operation_key :=
  mk_op (o_op r) (o_buf r) (o_size r) (o_flags r) (o_written r) (o_bytes_read r) (o_addr r) x (o_accept_fd r) (o_local r).
Definition set_o_accept_fd (x : Z) (r : operation_key) : operation_key :=
  mk_op (o_op r) (o_buf r) (o_size r) (o_flags r) (o_written r) (o_bytes_read r) (o_addr r) (o_addrlen r) x (o_local r).
Definition set_o_local (x : Z) (r : operation_key) : operation_key :=
  mk_op (o_op r) (o_buf r) (o_size r) (o_flags r) (o_written r) (o_bytes_read r) (o_addr r) (o_addrlen r) (o_accept_fd r) x.

(** Which of the function pointers are set. *)
Record pj_ioqueue_callback := mk_cb {
  on_read_complete : bool;
  on_write_complete : bool;
  on_accept_complete : bool;
  on_connect_complete : bool
}.
Definition set_on_read_complete (x : bool) (r : pj_ioqueue_callback) : pj_ioqueue_callback :=
  mk_cb x (on_write_complete r) (on_accept_complete r) (on_connect_complete r).
Definition set_on_write_complete (x : bool) (r : pj_ioqueue_callback) : pj_ioqueue_callback :=
  mk_cb (on_read_complete r) x (on_accept_complete r) (on_connect_complete r).
Definition set_on_accept_complete (x : bool) (r : pj_ioqueue_callback) : pj_ioqueue_callback :=
  mk_cb (on_read_complete r) (on_write_complete r) x (on_connect_complete r).
Definition set_on_connect_complete (x : bool) (r : pj_ioqueue_callback) : pj_ioqueue_callback :=
  mk_cb (on_read_complete r) (on_write_complete r) (on_accept_complete r) x.

Record pj_ioqueue_key_t := mk_key {
  k_fd : Z;
  k_type : Z;
  k_grp : option Z;
  k_closing : bool;
  k_conc : bool;
  k_user : Z;
  k_cb : pj_ioqueue_callback;
  k_connecting : bool;
  k_read : list Z;
  k_write : list Z;
  k_accept : list Z;
  k_read_cb : list Z;
  k_write_cb : list Z;
  k_read_thread : option Z;
  k_write_thread : option Z;
  k_ref : Z;
  k_free_time : pj_time_val
}.
Definition set_k_fd (x : Z) (r : pj_ioqueue_key_t) : pj_ioqueue_key_t :=
  mk_key x (k_type r) (k_grp r) (k_closing r) (k_conc r) (k_user r) (k_cb r) (k_connecting r) (k_read r) (k_write r) (k_accept r) (k_read_cb r) (k_write_cb r) (k_read_thread r) (k_write_thread r) (k_ref r) (k_free_time r).
Definition set_k_type (x : Z) (r : pj_ioqueue_key_t) : pj_ioqueue_key_t :=
  mk_key (k_fd r) x (k_grp r) (k_closing r) (k_conc r) (k_user r) (k_cb r) (k_connecting r) (k_read r) (k_write r) (k_accept r) (k_read_cb r) (k_write_cb r) (k_read_thread r) (k_write_thread r) (k_ref r) (k_free_time r).
Definition set_k_grp (x : option Z) (r : pj_ioqueue_key_t) : pj_ioqueue_key_t :=
  mk_key (k_fd r) (k_type r) x (k_closing r) (k_conc r) (k_user r) (k_cb r) (k_connecting r) (k_read r) (k_write r) (k_accept r) (k_read_cb r) (k_write_cb r) (k_read_thread r) (k_write_thread r) (k_ref r) (k_free_time r).
Definition set_k_closing (x : bool) (r : pj_ioqueue_key_t) : pj_ioqueue_key_t :=
  mk_key (k_fd r) (k_type r) (k_grp r) x (k_conc r) (k_user r) (k_cb r) (k_connecting r) (k_read r) (k_write r) (k_accept r) (k_read_cb r) (k_write_cb r) (k_read_thread r) (k_write_thread r) (k_ref r) (k_free_time r).
Definition set_k_conc (x : bool) (r : pj_ioqueue_key_t) : pj_ioqueue_key_t :=
  mk_key (k_fd r) (k_type r) (k_grp r) (k_closing r) x (k_user r) (k_cb r) (k_connecting r) (k_read r) (k_write r) (k_accept r) (k_read_cb r) (k_write_cb r) (k_read_thread r) (k_write_thread r) (k_ref r) (k_free_time r).
Definition set_k_user (x : Z) (r : pj_ioqueue_key_t) : pj_ioqueue_key_t :=
  mk_key (k_fd r) (k_type r) (k_grp r) (k_closing r) (k_conc r) x (k_cb r) (k_connecting r) (k_read r) (k_write r) (k_accept r) (k_read_cb r) (k_write_cb r) (k_read_thread r) (k_write_thread r) (k_ref r) (k_free_time r).
Definition set_k_cb (x : pj_ioqueue_callback) (r : pj_ioqueue_key_t) : pj_ioqueue_key_t :=
  mk_key (k_fd r) (k_type r) (k_grp r) (k_closing r) (k_conc r) (k_user r) x (k_connecting r) (k_read r) (k_write r) (k_accept r) (k_read_cb r) (k_write_cb r) (k_read_thread r) (k_write_thread r) (k_ref r) (k_free_time r).
Definition set_k_connecting (x : bool) (r : pj_ioqueue_key_t) : pj_ioqueue_key_t :=
  mk_key (k_fd r) (k_type r) (k_grp r) (k_closing r) (k_conc r) (k_user r) (k_cb r) x (k_read r) (k_write r) (k_accept r) (k_read_cb r) (k_write_cb r) (k_read_thread r) (k_write_thread r) (k_ref r) (k_free_time r).
Definition set_k_read (x : list Z) (r : pj_ioqueue_key_t) : pj_ioqueue_key_t :=
  mk_key (k_fd r) (k_type r) (k_grp r) (k_closing r) (k_conc r) (k_user r) (k_cb r) (k_connecting r) x (k_write r) (k_accept r) (k_read_cb r) (k_write_cb r) (k_read_thread r) (k_write_thread r) (k_ref r) (k_free_time r).
Definition set_k_write (x : list Z) (r : pj_ioqueue_key_t) : pj_ioqueue_key_t :=
  mk_key (k_fd r) (k_type r) (k_grp r) (k_closing r) (k_conc r) (k_user r) (k_cb r) (k_connecting r) (k_read r) x (k_accept r) (k_read_cb r) (k_write_cb r) (k_read_thread r) (k_write_thread r) (k_ref r) (k_free_time r).
Definition set_k_accept (x : list Z) (r : pj_ioqueue_key_t) : pj_ioqueue_key_t :=
  mk_key (k_fd r) (k_type r) (k_grp r) (k_closing r) (k_conc r) (k_user r) (k_cb r) (k_connecting r) (k_read r) (k_write r) x (k_read_cb r) (k_write_cb r) (k_read_thread r) (k_write_thread r) (k_ref r) (k_free_time r).
Definition set_k_read_cb (x : list Z) (r : pj_ioqueue_key_t) : pj_ioqueue_key_t :=
  mk_key (k_fd r) (k_type r) (k_grp r) (k_closing r) (k_conc r) (k_user r) (k_cb r) (k_connecting r) (k_read r) (k_write r) (k_accept r) x (k_write_cb r) (k_read_thread r) (k_write_thread r) (k_ref r) (k_free_time r).
Definition set_k_write_cb (x : list Z) (r : pj_ioqueue_key_t) : pj_ioqueue_key_t :=
  mk_key (k_fd r) (k_type r) (k_grp r) (k_closing r) (k_conc r) (k_user r) (k_cb r) (k_connecting r) (k_read r) (k_write r) (k_accept r) (k_read_cb r) x (k_read_thread r) (k_write_thread r) (k_ref r) (k_free_time r).
Definition set_k_read_thread (x : option Z) (r : pj_ioqueue_key_t) : pj_ioqueue_key_t :=
  mk_key (k_fd r) (k_type r) (k_grp r) (k_closing r) (k_conc r) (k_user r) (k_cb r) (k_connecting r) (k_read r) (k_write r) (k_accept r) (k_read_cb r) (k_write_cb r) x (k_write_thread r) (k_ref r) (k_free_time r).
Definition set_k_write_thread (x : option Z) (r : pj_ioqueue_key_t) : pj_ioqueue_key_t :=
  mk_key (k_fd r) (k_type r) (k_grp r) (k_closing r) (k_conc r) (k_user r) (k_cb r) (k_connecting r) (k_read r) (k_write r) (k_accept r) (k_read_cb r) (k_write_cb r) (k_read_thread r) x (k_ref r) (k_free_time r).
Definition set_k_ref (x : Z) (r : pj_ioqueue_key_t) : pj_ioqueue_key_t :=
  mk_key (k_fd r) (k_type r) (k_grp r) (k_closing r) (k_conc r) (k_user r) (k_cb r) (k_connecting r) (k_read r) (k_write r) (k_accept r) (k_read_cb r) (k_write_cb r) (k_read_thread r) (k_write_thread r) x (k_free_time r).
Definition set_k_free_time (x : pj_time_val) (r : pj_ioqueue_key_t) : pj_ioqueue_key_t :=
  mk_key (k_fd r) (k_type r) (k_grp r) (k_closing r) (k_conc r) (k_user r) (k_cb r) (k_connecting r) (k_read r) (k_write r) (k_accept r) (k_read_cb r) (k_write_cb r) (k_read_thread r) (k_write_thread r) (k_ref r) x.

Record pj_ioqueue_t := mk_ioqueue {
  q_max : Z;
  q_count : Z;
  q_nfds : Z;
  q_active : list Z;
  q_closing : list Z;
  q_free : list Z;
  q_r : pj_fd_set_t;
  q_w : pj_fd_set_t;
  q_x : pj_fd_set_t;
  q_conc : bool
}.
Definition set_q_max (x : Z) (r : pj_ioqueue_t) : pj_ioqueue_t :=
  mk_ioqueue x (q_count r) (q_nfds r) (q_active r) (q_closing r) (q_free r) (q_r r) (q_w r) (q_x r) (q_conc r).
Definition set_q_count (x : Z) (r : pj_ioqueue_t) : pj_ioqueue_t :=
  mk_ioqueue (q_max r) x (q_nfds r) (q_active r) (q_closing r) (q_free r) (q_r r) (q_w r) (q_x r) (q_conc r).
Definition set_q_nfds (x : Z) (r : pj_ioqueue_t) : pj_ioqueue_t :=
  mk_ioqueue (q_max r) (q_count r) x (q_active r) (q_closing r) (q_free r) (q_r r) (q_w r) (q_x r) (q_conc r).
Definition set_q_active (x : list Z) (r : pj_ioqueue_t) : pj_ioqueue_t :=
  mk_ioqueue (q_max r) (q_count r) (q_nfds r) x (q_closing r) (q_free r) (q_r r) (q_w r) (q_x r) (q_conc r).
Definition set_q_closing (x : list Z) (r : pj_ioqueue_t) : pj_ioqueue_t :=
  mk_ioqueue (q_max r) (q_count r) (q_nfds r) (q_active r) x (q_free r) (q_r r) (q_w r) (q_x r) (q_conc r).
Definition set_q_free (x : list Z) (r : pj_ioqueue_t) : pj_ioqueue_t :=
  mk_ioqueue (q_max r) (q_count r) (q_nfds r) (q_active r) (q_closing r) x (q_r r) (q_w r) (q_x r) (q_conc r).
Definition set_q_r (x : pj_fd_set_t) (r : pj_ioqueue_t) : pj_ioqueue_t :=
  mk_ioqueue (q_max r) (q_count r) (q_nfds r) (q_active r) (q_closing r) (q_free r) x (q_w r) (q_x r) (q_conc r).
Definition set_q_w (x : pj_fd_set_t) (r : pj_ioqueue_t) : pj_ioqueue_t :=
  mk_ioqueue (q_max r) (q_count r) (q_nfds r) (q_active r) (q_closing r) (q_free r) (q_r r) x (q_x r) (q_conc r).
Definition set_q_x (x : pj_fd_set_t) (r : pj_ioqueue_t) : pj_ioqueue_t :=
  mk_ioqueue (q_max r) (q_count r) (q_nfds r) (q_active r) (q_closing r) (q_free r) (q_r r) (q_w r) x (q_conc r).
Definition set_q_conc (x : bool) (r : pj_ioqueue_t) : pj_ioqueue_t :=
  mk_ioqueue (q_max r) (q_count r) (q_nfds r) (q_active r) (q_closing r) (q_free r) (q_r r) (q_w r) (q_x r) x.

(** The lock of the queue, the one of the reference counters, and the one of a
    key: its own or that of its group. *)
Inductive lock_id := LIoq | LRef | LKey (h : Z) | LGrp (g : Z).

#[export] Instance lock_id_eq_dec : EqDecision lock_id.
Proof. solve_decision. Defined.

#[export] Instance lock_id_countable : Countable lock_id.
Proof.
  refine (inj_countable'
    (fun l => match l with LIoq => (0, 0) | LRef => (1, 0) | LKey h => (2, h) | LGrp g => (3, g) end)
    (fun p : Z * Z => if p.1 =? 0 then LIoq else if p.1 =? 1 then LRef
                      else if p.1 =? 2 then LKey p.2 else LGrp p.2) _).
  by intros [].
Defined.

(** Calls of the application's functions. *)
Inductive callback :=
  | OnRead (h op n : Z)
  | OnWrite (h op n : Z)
  | OnAccept (h op sock status : Z)
  | OnConnect (h status : Z).

#[export] Instance callback_eq_dec : EqDecision callback.
Proof. solve_decision. Defined.

(** [w_mutexes] are the locks that exist, [w_grp] the reference counts of the
    group locks, [w_cells] the variables for new sockets, [w_calls] the callbacks
    so far, the latest first. *)
Record world (S : Type) := mk_world {
  w_keys : gmap Z pj_ioqueue_key_t;
  w_ops : gmap Z operation_key;
  w_q : pj_ioqueue_t;
  w_locks : gmap lock_id (Z * Z);
  w_mutexes : gset lock_id;
  w_grp : gmap Z Z;
  w_cells : gmap Z Z;
  w_calls : list callback;
  w_sys : S
}.

#[global] Arguments w_keys {S} _.
#[global] Arguments w_ops {S} _.
#[global] Arguments w_q {S} _.
#[global] Arguments w_locks {S} _.
#[global] Arguments w_mutexes {S} _.
#[global] Arguments w_grp {S} _.
#[global] Arguments w_cells {S} _.
#[global] Arguments w_calls {S} _.
#[global] Arguments w_sys {S} _.
#[global] Arguments mk_world {S}.

Definition set_w_keys {S} (x : gmap Z pj_ioqueue_key_t) (r : world S) : world S :=
  mk_world x (w_ops r) (w_q r) (w_locks r) (w_mutexes r) (w_grp r) (w_cells r) (w_calls r) (w_sys r).
Definition set_w_ops {S} (x : gmap Z operation_key) (r : world S) : world S :=
  mk_world (w_keys r) x (w_q r) (w_locks r) (w_mutexes r) (w_grp r) (w_cells r) (w_calls r) (w_sys r).
Definition set_w_q {S} (x : pj_ioqueue_t) (r : world S) : world S :=
  mk_world (w_keys r) (w_ops r) x (w_locks r) (w_mutexes r) (w_grp r) (w_cells r) (w_calls r) (w_sys r).
Definition set_w_locks {S} (x : gmap lock_id (Z * Z)) (r : world S) : world S :=
  mk_world (w_keys r) (w_ops r) (w_q r) x (w_mutexes r) (w_grp r) (w_cells r) (w_calls r) (w_sys r).
Definition set_w_mutexes {S} (x : gset lock_id) (r : world S) : world S :=
  mk_world (w_keys r) (w_ops r) (w_q r) (w_locks r) x (w_grp r) (w_cells r) (w_calls r) (w_sys r).
Definition set_w_grp {S} (x : gmap Z Z) (r : world S) : world S :=
  mk_world (w_keys r) (w_ops r) (w_q r) (w_locks r) (w_mutexes r) x (w_cells r) (w_calls r) (w_sys r).
Definition set_w_cells {S} (x : gmap Z Z) (r : world S) : world S :=
  mk_world (w_keys r) (w_ops r) (w_q r) (w_locks r) (w_mutexes r) (w_grp r) x (w_calls r) (w_sys r).
Definition set_w_calls {S} (x : list callback) (r : world S) : world S :=
  mk_world (w_keys r) (w_ops r) (w_q r) (w_locks r) (w_mutexes r) (w_grp r) (w_cells r) x (w_sys r).
Definition set_w_sys {S} (x : S) (r : world S) : world S :=
  mk_world (w_keys r) (w_ops r) (w_q r) (w_locks r) (w_mutexes r) (w_grp r) (w_cells r) (w_calls r) x.
