(* ===== verification/IoQueue.v ===== *)
(** * The I/O queue

    The operations of [pjlib/src/pj/ioqueue_select.c] and of
    [pjlib/src/pj/ioqueue_common_abs.c], which it includes.

    The locks are a table from locks to their holder and depth, and the calling
    thread is [this]: acquiring a lock that another thread holds, or a simple
    mutex one already holds, does not return and is [None], as is undefined
    behaviour.  The application's callbacks are a function [app] on the state,
    which may call the queue again, and [others] is what the other threads do
    while this one sleeps or waits in [select].  The dispatch of an event is in sections: what is done
    under the lock of the key up to a callback ([write_begin], [read_begin]), the
    callback, and the loop over callbacks that were put off meanwhile. *)
From S2P Require Import Prelude Interfaces TimeVal SockBsd IoQueueData.

Section IoQueue.
Context `{!SystemConstants} {S : Type} `{!SystemSockets S}.
Abbreviation world := (world S).
Implicit Types (w : world).

(** [pj_thread_this()]. *)
Context (this : Z).
Context (app : callback -> world -> option world) (others : world -> world).

(** ** Access to the state *)

Definition upd_key (w : world) (h : Z) (f : pj_ioqueue_key_t -> pj_ioqueue_key_t) : option world :=
  k ← w_keys w !! h; Some (set_w_keys (<[h := f k]> (w_keys w)) w).

Definition upd_op (w : world) (o : Z) (f : operation_key -> operation_key) : option world :=
  r ← w_ops w !! o; Some (set_w_ops (<[o := f r]> (w_ops w)) w).

Definition upd_q (w : world) (f : pj_ioqueue_t -> pj_ioqueue_t) : world := set_w_q (f (w_q w)) w.

(** One of the application's functions is called. *)
Definition call (c : callback) (w : world) : option world := app c (set_w_calls (c :: w_calls w) w).

(** ** Locks *)

Definition recursive (l : lock_id) : bool := match l with LKey _ | LGrp _ => true | _ => false end.

Definition tryacquire (l : lock_id) (w : world) : option world :=
  match w_locks w !! l with
  | None => Some (set_w_locks (<[l := (this, 1)]> (w_locks w)) w)
  | Some (t, n) =>
      if (t =? this) && recursive l then Some (set_w_locks (<[l := (this, n + 1)]> (w_locks w)) w)
      else None
  end.

(** Waiting for a lock that is not given back does not return. *)
Definition acquire (l : lock_id) (w : world) : option world := tryacquire l w.

Definition release (l : lock_id) (w : world) : option world :=
  '(t, n) ← w_locks w !! l;
  if negb (t =? this) then None else
  Some (set_w_locks (if n =? 1 then delete l (w_locks w) else <[l := (this, n - 1)]> (w_locks w)) w).

Definition key_lock (h : Z) (k : pj_ioqueue_key_t) : lock_id :=
  match k_grp k with Some g => LGrp g | None => LKey h end.

Definition pj_ioqueue_lock_key (w : world) (h : Z) : option world :=
  k ← w_keys w !! h; acquire (key_lock h k) w.

(** Whether the lock was free for this thread. *)
Definition pj_ioqueue_trylock_key (w : world) (h : Z) : option (bool * world) :=
  k ← w_keys w !! h;
  match tryacquire (key_lock h k) w with
  | Some w => Some (true, w)
  | None => Some (false, w)
  end.

Definition pj_ioqueue_unlock_key (w : world) (h : Z) : option world :=
  k ← w_keys w !! h; release (key_lock h k) w.

Definition pj_grp_lock_add_ref (g : option Z) (w : world) : option world :=
  match g with
  | None => Some w
  | Some g => n ← w_grp w !! g; Some (set_w_grp (<[g := n + 1]> (w_grp w)) w)
  end.

Definition pj_grp_lock_dec_ref (g : option Z) (w : world) : option world :=
  match g with
  | None => Some w
  | Some g => n ← w_grp w !! g; Some (set_w_grp (<[g := n - 1]> (w_grp w)) w)
  end.

(** ** Descriptor sets *)

Definition has_event (event_types e : Z) : bool := negb (Z.land event_types e =? 0).

(** One of [PJ_FD_SET] and [PJ_FD_CLR] on the sets named by the event types. *)
Definition change_sets (f : Z -> pj_fd_set_t -> option pj_fd_set_t) (fd event_types : Z)
    (q : pj_ioqueue_t) : option pj_ioqueue_t :=
  r ← (if has_event event_types READABLE_EVENT then f fd (q_r q) else Some (q_r q));
  wr ← (if has_event event_types WRITEABLE_EVENT then f fd (q_w q) else Some (q_w q));
  x ← (if has_event event_types EXCEPTION_EVENT then f fd (q_x q) else Some (q_x q));
  Some (set_q_r r (set_q_w wr (set_q_x x q))).

Definition ioqueue_remove_from_set2 (w : world) (h event_types : Z) : option world :=
  w ← acquire LIoq w;
  k ← w_keys w !! h;
  q ← change_sets PJ_FD_CLR (k_fd k) event_types (w_q w);
  release LIoq (set_w_q q w).

Definition ioqueue_remove_from_set (w : world) (h event_type : Z) : option world :=
  ioqueue_remove_from_set2 w h event_type.

Definition ioqueue_add_to_set2 (w : world) (h event_types : Z) : option world :=
  w ← acquire LIoq w;
  k ← w_keys w !! h;
  q ← change_sets PJ_FD_SET (k_fd k) event_types (w_q w);
  release LIoq (set_w_q q w).

Definition ioqueue_add_to_set (w : world) (h event_type : Z) : option world :=
  ioqueue_add_to_set2 w h event_type.

Definition max_fd (w : world) (m h : Z) : option Z :=
  k ← w_keys w !! h; Some (if m <? k_fd k then k_fd k else m).

Fixpoint scan_max (w : world) (hs : list Z) (m : Z) : option Z :=
  match hs with
  | [] => Some m
  | h :: hs => m ← max_fd w m h; scan_max w hs m
  end.

Definition rescan_fdset (w : world) : option world :=
  m ← scan_max w (q_active (w_q w)) 0; Some (upd_q w (set_q_nfds m)).

(** ** The writable event *)

Definition is_dgram (k : pj_ioqueue_key_t) : bool := k_type k =? SOCK_DGRAM.

(** What is left to do after the key has been unlocked. *)
Inductive next :=
  | Done (processed : bool)
  | Connected (status : Z)
  | Written (op : Z)
  | Accepted (op rc : Z) (has_lock : bool)
  | ReadDone (op : Z) (has_cb : bool).

(** Sending the data of [write_op]: the status and the number of bytes. *)
Definition send_op (s : S) (k : pj_ioqueue_key_t) (r : operation_key) : Z * Z * S :=
  let sent := o_size r - o_written r in
  match o_op r with
  | OP_SEND => pj_sock_send s (k_fd k) (o_buf r + o_written r) sent (o_flags r)
  | OP_SEND_TO =>
      pj_sock_sendto s (k_fd k) (o_buf r + o_written r) sent (o_flags r) (o_addr r) (o_addrlen r)
  | _ => (PJ_EBUG, sent, s)
  end.

(** The operation leaves the write list; the descriptor leaves the set with
    the last one. *)
Definition erase_write (w : world) (h : Z) (rest : list Z) : option world :=
  w ← upd_key w h (set_k_write rest);
  if bool_decide (rest = []) then ioqueue_remove_from_set w h WRITEABLE_EVENT else Some w.

(** The operation is finished: its callback is due now, or after that of the
    thread that is in a callback of this key already. *)
Definition write_finish (w : world) (h o : Z) : option (world * next) :=
  k ← w_keys w !! h;
  if k_conc k then w ← pj_ioqueue_unlock_key w h; Some (w, Written o) else
  match k_write_thread k with
  | Some _ =>
      w ← upd_key w h (fun k => set_k_write_cb (k_write_cb k ++ [o]) k);
      w ← pj_ioqueue_unlock_key w h; Some (w, Done true)
  | None =>
      w ← upd_key w h (set_k_write_thread (Some this));
      w ← pj_ioqueue_unlock_key w h; Some (w, Written o)
  end.

(** The first operation of the write list is sent. *)
Definition write_first (w : world) (h : Z) (k : pj_ioqueue_key_t) (o : Z) (rest : list Z) :
    option (world * next) :=
  w ← (if is_dgram k then erase_write w h rest else Some w);
  r ← w_ops w !! o;
  let '(send_rc, sent, s) := send_op (w_sys w) k r in
  let r := match o_op r with OP_SEND | OP_SEND_TO => r | _ => set_o_op OP_NONE r end in
  let r := set_o_written (if send_rc =? PJ_SUCCESS then o_written r + sent else - send_rc) r in
  w ← upd_op (set_w_sys s w) o (fun _ => r);
  if negb (send_rc =? PJ_SUCCESS) || (o_written r =? o_size r) || is_dgram k then
    w ← upd_op w o (set_o_op OP_NONE);
    w ← (if is_dgram k then Some w else erase_write w h rest);
    write_finish w h o
  else w ← pj_ioqueue_unlock_key w h; Some (w, Done true).

Definition write_begin (w : world) (h : Z) : option (world * next) :=
  '(ok, w) ← pj_ioqueue_trylock_key w h;
  if negb ok then Some (w, Done false) else
  k ← w_keys w !! h;
  if k_closing k then w ← pj_ioqueue_unlock_key w h; Some (w, Done true) else
  if k_connecting k then
    w ← upd_key w h (set_k_connecting false);
    w ← ioqueue_remove_from_set2 w h (Z.lor WRITEABLE_EVENT EXCEPTION_EVENT);
    let '(gs_rc, value, s) := pj_sock_getsockopt (w_sys w) (k_fd k) SO_ERROR in
    let status := if negb (gs_rc =? 0) then PJ_SUCCESS else PJ_STATUS_FROM_OS value in
    w ← pj_ioqueue_unlock_key (set_w_sys s w) h; Some (w, Connected status)
  else
    match k_write k with
    | o :: rest => write_first w h k o rest
    | [] => w ← pj_ioqueue_unlock_key w h; Some (w, Done false)
    end.

(** One turn of the loop over the write callbacks that were put off: the
    operation whose callback is due. *)
Definition next_write_cb (w : world) (h max_event event_cnt : Z) : option (world * option Z) :=
  w ← pj_ioqueue_lock_key w h;
  k ← w_keys w !! h;
  match k_write_cb k with
  | o :: rest =>
      if (max_event =? 0) || (event_cnt <? max_event) then
        w ← upd_key w h (set_k_write_cb rest);
        w ← pj_ioqueue_unlock_key w h;
        Some (w, if on_write_complete (k_cb k) then Some o else None)
      else
        w ← upd_key w h (set_k_write_thread None);
        w ← pj_ioqueue_unlock_key w h; Some (w, None)
  | [] =>
      w ← upd_key w h (set_k_write_thread None);
      w ← pj_ioqueue_unlock_key w h; Some (w, None)
  end.

Fixpoint ioqueue_dispatch_write_event_no_lock (fuel : nat) (w : world) (h max_event event_cnt : Z) :
    option (Z * world) :=
  match fuel with
  | O => None
  | Datatypes.S fuel =>
      '(w, o) ← next_write_cb w h max_event event_cnt;
      match o with
      | None => Some (event_cnt, w)
      | Some o =>
          r ← w_ops w !! o;
          w ← call (OnWrite h o (o_written r)) w;
          ioqueue_dispatch_write_event_no_lock fuel w h max_event (event_cnt + 1)
      end
  end.

Definition ioqueue_dispatch_write_event (fuel : nat) (w : world) (h : Z) : option (bool * world) :=
  '(w, n) ← write_begin w h;
  match n with
  | Connected status =>
      k ← w_keys w !! h;
      w ← (if on_connect_complete (k_cb k) && negb (k_closing k)
           then call (OnConnect h status) w else Some w);
      Some (true, w)
  | Written o =>
      k ← w_keys w !! h;
      r ← w_ops w !! o;
      w ← (if on_write_complete (k_cb k) then call (OnWrite h o (o_written r)) w else Some w);
      '(_, w) ← ioqueue_dispatch_write_event_no_lock fuel w h 0 0;
      Some (true, w)
  | Done b => Some (b, w)
  | _ => None
  end.

(** ** The readable event *)

(** The operation leaves the read list. *)
Definition erase_read (w : world) (h : Z) (rest : list Z) : option world :=
  w ← upd_key w h (set_k_read rest);
  if bool_decide (rest = []) then ioqueue_remove_from_set w h READABLE_EVENT else Some w.

(** [pj_sock_accept], then [pj_sock_getsockname] of the new socket where the
    caller wants its address; the new socket goes to the caller's variable. *)
Definition accept_op (w : world) (fd : Z) (r : operation_key) : Z * world :=
  let '(rc, newsock, s) := pj_sock_accept (w_sys w) fd (o_addr r) (o_addrlen r) in
  let '(rc, s) := if (rc =? PJ_SUCCESS) && negb (o_local r =? 0)
                  then pj_sock_getsockname s newsock (o_local r) (o_addrlen r) else (rc, s) in
  (rc, set_w_cells (<[o_accept_fd r := newsock]> (w_cells w)) (set_w_sys s w)).

Definition accept_first (w : world) (h : Z) (k : pj_ioqueue_key_t) (o : Z) (rest : list Z) :
    option (world * next) :=
  w ← upd_key w h (set_k_accept rest);
  w ← upd_op w o (set_o_op OP_NONE);
  w ← (if bool_decide (rest = []) then ioqueue_remove_from_set w h READABLE_EVENT else Some w);
  r ← w_ops w !! o;
  let '(rc, w) := accept_op w (k_fd k) r in
  if k_conc k then w ← pj_ioqueue_unlock_key w h; Some (w, Accepted o rc false)
  else Some (w, Accepted o rc true).

(** Receiving the data of [read_op]: the status and the number of bytes, or
    minus the status. *)
Definition recv_op (s : S) (k : pj_ioqueue_key_t) (r : operation_key) : Z * S :=
  let '(rc, n, s) :=
    match o_op r with
    | OP_RECV_FROM =>
        pj_sock_recvfrom s (k_fd k) (o_buf r) (o_size r) (o_flags r) (o_addr r) (o_addrlen r)
    | OP_RECV => pj_sock_recv s (k_fd k) (o_buf r) (o_size r) (o_flags r)
    | _ =>
        let '(n, s) := sys_read s (k_fd k) (o_buf r) (o_size r) in
        (if 0 <=? n then PJ_SUCCESS else pj_get_netos_error s, n, s)
    end in
  (if rc =? PJ_SUCCESS then n else - rc, s).

Definition read_finish (w : world) (h o : Z) (has_cb : bool) : option (world * next) :=
  k ← w_keys w !! h;
  if k_conc k then w ← pj_ioqueue_unlock_key w h; Some (w, ReadDone o has_cb) else
  match k_read_thread k with
  | Some _ =>
      w ← upd_key w h (fun k => set_k_read_cb (k_read_cb k ++ [o]) k);
      w ← pj_ioqueue_unlock_key w h; Some (w, Done true)
  | None =>
      w ← upd_key w h (set_k_read_thread (Some this));
      w ← pj_ioqueue_unlock_key w h; Some (w, ReadDone o has_cb)
  end.

Definition read_first (w : world) (h : Z) (k : pj_ioqueue_key_t) (o : Z) (rest : list Z) :
    option (world * next) :=
  w ← erase_read w h rest;
  r ← w_ops w !! o;
  let '(n, s) := recv_op (w_sys w) k r in
  w ← upd_op (set_w_sys s w) o (fun r => set_o_bytes_read n (set_o_op OP_NONE r));
  read_finish w h o (on_read_complete (k_cb k)).

Definition read_begin (w : world) (h : Z) : option (world * next) :=
  '(ok, w) ← pj_ioqueue_trylock_key w h;
  if negb ok then Some (w, Done false) else
  k ← w_keys w !! h;
  if k_closing k then w ← pj_ioqueue_unlock_key w h; Some (w, Done true) else
  match k_accept k, k_read k with
  | o :: rest, _ => accept_first w h k o rest
  | [], o :: rest => read_first w h k o rest
  | [], [] => w ← pj_ioqueue_unlock_key w h; Some (w, Done false)
  end.

Definition next_read_cb (w : world) (h max_event event_cnt : Z) : option (world * option Z) :=
  w ← pj_ioqueue_lock_key w h;
  k ← w_keys w !! h;
  match k_read_cb k with
  | o :: rest =>
      if negb (k_closing k) && ((max_event =? 0) || (event_cnt <? max_event)) then
        w ← upd_key w h (set_k_read_cb rest);
        w ← pj_ioqueue_unlock_key w h;
        Some (w, if on_read_complete (k_cb k) then Some o else None)
      else
        w ← upd_key w h (set_k_read_thread None);
        w ← pj_ioqueue_unlock_key w h; Some (w, None)
  | [] =>
      w ← upd_key w h (set_k_read_thread None);
      w ← pj_ioqueue_unlock_key w h; Some (w, None)
  end.

Fixpoint ioqueue_dispatch_read_event_no_lock (fuel : nat) (w : world) (h max_event event_cnt : Z) :
    option (Z * world) :=
  match fuel with
  | O => None
  | Datatypes.S fuel =>
      '(w, o) ← next_read_cb w h max_event event_cnt;
      match o with
      | None => Some (event_cnt, w)
      | Some o =>
          r ← w_ops w !! o;
          w ← call (OnRead h o (o_bytes_read r)) w;
          ioqueue_dispatch_read_event_no_lock fuel w h max_event (event_cnt + 1)
      end
  end.

Definition ioqueue_dispatch_read_event (fuel : nat) (w : world) (h : Z) : option (bool * world) :=
  '(w, n) ← read_begin w h;
  match n with
  | Accepted o rc has_lock =>
      k ← w_keys w !! h;
      r ← w_ops w !! o;
      w ← (if on_accept_complete (k_cb k) && negb (k_closing k)
           then sock ← w_cells w !! o_accept_fd r; call (OnAccept h o sock rc) w else Some w);
      w ← (if (has_lock : bool) then pj_ioqueue_unlock_key w h else Some w);
      Some (true, w)
  | ReadDone o has_cb =>
      k ← w_keys w !! h;
      r ← w_ops w !! o;
      w ← (if negb (k_closing k) && has_cb then call (OnRead h o (o_bytes_read r)) w else Some w);
      '(_, w) ← ioqueue_dispatch_read_event_no_lock fuel w h 0 0;
      Some (true, w)
  | Done b => Some (b, w)
  | _ => None
  end.

(** ** The exception event: a connection that failed *)

Definition ioqueue_dispatch_exception_event (w : world) (h : Z) : option (bool * world) :=
  '(ok, w) ← pj_ioqueue_trylock_key w h;
  if negb ok then Some (false, w) else
  k ← w_keys w !! h;
  if negb (k_connecting k) then w ← pj_ioqueue_unlock_key w h; Some (true, w) else
  if k_closing k then w ← pj_ioqueue_unlock_key w h; Some (true, w) else
  w ← upd_key w h (set_k_connecting false);
  w ← ioqueue_remove_from_set2 w h (Z.lor WRITEABLE_EVENT EXCEPTION_EVENT);
  let has_lock := negb (k_conc k) in
  w ← (if k_conc k then pj_ioqueue_unlock_key w h else Some w);
  k ← w_keys w !! h;
  w ← (if on_connect_complete (k_cb k) && negb (k_closing k) then
         let '(gs_rc, value, s) := pj_sock_getsockopt (w_sys w) (k_fd k) SO_ERROR in
         let status := if gs_rc =? 0 then PJ_RETURN_OS_ERROR value else -1 in
         call (OnConnect h status) (set_w_sys s w)
       else Some w);
  w ← (if has_lock then pj_ioqueue_unlock_key w h else Some w);
  Some (true, w).

(** ** Starting operations

    Each returns the status, and the length where the operation was done at
    once. *)

(** The operation is put at the end of the list, under the lock of the key;
    [busy] is the status for an operation key in use. *)
Definition enqueue (w : world) (h o : Z) (busy event : Z)
    (put : pj_ioqueue_key_t -> pj_ioqueue_key_t) (fill : operation_key -> operation_key) :
    option (Z * world) :=
  w ← pj_ioqueue_lock_key w h;
  k ← w_keys w !! h;
  if k_closing k then w ← pj_ioqueue_unlock_key w h; Some (PJ_ECANCELLED, w) else
  r ← w_ops w !! o;
  if negb (bool_decide (o_op r = OP_NONE)) then w ← pj_ioqueue_unlock_key w h; Some (busy, w) else
  w ← upd_op w o fill;
  w ← upd_key w h put;
  w ← ioqueue_add_to_set w h event;
  w ← pj_ioqueue_unlock_key w h; Some (PJ_EPENDING, w).

Definition push_read (o : Z) (k : pj_ioqueue_key_t) : pj_ioqueue_key_t := set_k_read (k_read k ++ [o]) k.
Definition push_write (o : Z) (k : pj_ioqueue_key_t) : pj_ioqueue_key_t := set_k_write (k_write k ++ [o]) k.
Definition push_accept (o : Z) (k : pj_ioqueue_key_t) : pj_ioqueue_key_t := set_k_accept (k_accept k ++ [o]) k.

Definition would_block (status : Z) : bool := status =? PJ_STATUS_FROM_OS EWOULDBLOCK.
Definition without_async (flags : Z) : Z := Z.ldiff flags PJ_IOQUEUE_ALWAYS_ASYNC.

(** [pj_ioqueue_recv] and [pj_ioqueue_recvfrom]: [now] is the immediate call. *)
Definition start_read (now : S -> Z -> Z * Z * S) (fill : operation_key -> operation_key)
    (w : world) (h o buffer length flags : Z) : option (Z * Z * world) :=
  if (buffer =? 0) then Some (PJ_EINVAL, length, w) else
  k ← w_keys w !! h;
  if k_closing k then Some (PJ_ECANCELLED, length, w) else
  r ← w_ops w !! o;
  if negb (bool_decide (o_op r = OP_NONE)) then Some (PJ_EPENDING, length, w) else
  let enq w := '(st, w) ← enqueue w h o PJ_EPENDING READABLE_EVENT (push_read o) fill; Some (st, length, w) in
  if Z.land flags PJ_IOQUEUE_ALWAYS_ASYNC =? 0 then
    let '(status, n, s) := now (w_sys w) (k_fd k) in
    let w := set_w_sys s w in
    if status =? PJ_SUCCESS then Some (PJ_SUCCESS, n, w)
    else if would_block status then enq w else Some (status, length, w)
  else enq w.

Definition pj_ioqueue_recv (w : world) (h o buffer length flags : Z) : option (Z * Z * world) :=
  start_read (fun s fd => pj_sock_recv s fd buffer length flags)
    (fun r => set_o_op OP_RECV (set_o_buf buffer (set_o_size length (set_o_flags (without_async flags) r))))
    w h o buffer length flags.

Definition pj_ioqueue_recvfrom (w : world) (h o buffer length flags addr addrlen : Z) :
    option (Z * Z * world) :=
  start_read (fun s fd => pj_sock_recvfrom s fd buffer length flags addr addrlen)
    (fun r => set_o_op OP_RECV_FROM (set_o_buf buffer (set_o_size length
       (set_o_flags (without_async flags) (set_o_addr addr (set_o_addrlen addrlen r))))))
    w h o buffer length flags.

(** The other threads may finish the operation that is pending. *)
Fixpoint spin (retry : nat) (w : world) (o : Z) : option world :=
  match retry with
  | O => Some w
  | Datatypes.S retry =>
      r ← w_ops w !! o;
      if bool_decide (o_op r = OP_NONE) then Some w else spin retry (others w) o
  end.

(** The data is to be sent later.  [addr_ok] is the check of the address length. *)
Definition write_later (fill : operation_key -> operation_key) (addr_ok : bool)
    (w : world) (h o length : Z) : option (Z * Z * world) :=
  if negb addr_ok then Some (PJ_EBUG, length, w) else
  w ← spin PENDING_RETRY w o;
  r ← w_ops w !! o;
  if negb (bool_decide (o_op r = OP_NONE)) then Some (PJ_EBUSY, length, w) else
  '(st, w) ← enqueue w h o PJ_EBUSY WRITEABLE_EVENT (push_write o) fill; Some (st, length, w).

(** [pj_ioqueue_send] and [pj_ioqueue_sendto]: at once when nothing is pending,
    so that the order is kept. *)
Definition start_write (now : S -> Z -> Z * Z * S) (fill : operation_key -> operation_key) (addr_ok : bool)
    (w : world) (h o data length : Z) : option (Z * Z * world) :=
  if (data =? 0) then Some (PJ_EINVAL, length, w) else
  k ← w_keys w !! h;
  if k_closing k then Some (PJ_ECANCELLED, length, w) else
  if bool_decide (k_write k = []) then
    let '(status, n, s) := now (w_sys w) (k_fd k) in
    let w := set_w_sys s w in
    if status =? PJ_SUCCESS then Some (PJ_SUCCESS, n, w)
    else if would_block status then write_later fill addr_ok w h o length else Some (status, length, w)
  else write_later fill addr_ok w h o length.

Definition pj_ioqueue_send (w : world) (h o data length flags : Z) : option (Z * Z * world) :=
  let flags := without_async flags in
  start_write (fun s fd => pj_sock_send s fd data length flags)
    (fun r => set_o_op OP_SEND (set_o_buf data (set_o_size length (set_o_written 0 (set_o_flags flags r)))))
    true w h o data length.

Definition pj_ioqueue_sendto (w : world) (h o data length flags addr addrlen : Z) :
    option (Z * Z * world) :=
  let flags := without_async flags in
  start_write (fun s fd => pj_sock_sendto s fd data length flags addr addrlen)
    (fun r => set_o_op OP_SEND_TO (set_o_buf data (set_o_size length (set_o_written 0
       (set_o_flags flags (set_o_addr addr (set_o_addrlen addrlen r)))))))
    (addrlen <=? SIZEOF_SOCKADDR) w h o data length.

Definition accept_later (w : world) (h o new_sock local remote addrlen : Z) : option (Z * world) :=
  enqueue w h o PJ_ECANCELLED READABLE_EVENT (push_accept o)
    (fun r => set_o_op OP_ACCEPT (set_o_accept_fd new_sock (set_o_addr remote
       (set_o_addrlen addrlen (set_o_local local r))))).

Definition pj_ioqueue_accept (w : world) (h o new_sock local remote addrlen : Z) :
    option (Z * world) :=
  if (new_sock =? 0) then Some (PJ_EINVAL, w) else
  k ← w_keys w !! h;
  if k_closing k then Some (PJ_ECANCELLED, w) else
  r ← w_ops w !! o;
  if negb (bool_decide (o_op r = OP_NONE)) then Some (PJ_EPENDING, w) else
  if bool_decide (k_accept k = []) then
    let '(status, sock, s) := pj_sock_accept (w_sys w) (k_fd k) remote addrlen in
    let w := set_w_cells (<[new_sock := sock]> (w_cells w)) (set_w_sys s w) in
    if status =? PJ_SUCCESS then
      if negb (local =? 0) && negb (addrlen =? 0) then
        let '(status, s) := pj_sock_getsockname (w_sys w) sock local addrlen in
        if negb (status =? PJ_SUCCESS) then
          let '(_, s) := pj_sock_close s sock in
          Some (status, set_w_cells (<[new_sock := PJ_INVALID_SOCKET]> (w_cells w)) (set_w_sys s w))
        else Some (PJ_SUCCESS, set_w_sys s w)
      else Some (PJ_SUCCESS, w)
    else if would_block status then accept_later w h o new_sock local remote addrlen else Some (status, w)
  else accept_later w h o new_sock local remote addrlen.

Definition pj_ioqueue_connect (w : world) (h addr addrlen : Z) : option (Z * world) :=
  if (addr =? 0) || (addrlen =? 0) then Some (PJ_EINVAL, w) else
  k ← w_keys w !! h;
  if k_closing k then Some (PJ_ECANCELLED, w) else
  if k_connecting k then Some (PJ_EPENDING, w) else
  let '(status, s) := pj_sock_connect (w_sys w) (k_fd k) addr addrlen in
  let w := set_w_sys s w in
  if status =? PJ_SUCCESS then Some (PJ_SUCCESS, w) else
  if status =? PJ_STATUS_FROM_OS EINPROGRESS then
    w ← pj_ioqueue_lock_key w h;
    k ← w_keys w !! h;
    if k_closing k then w ← pj_ioqueue_unlock_key w h; Some (PJ_ECANCELLED, w) else
    w ← upd_key w h (set_k_connecting true);
    w ← ioqueue_add_to_set2 w h (Z.lor WRITEABLE_EVENT EXCEPTION_EVENT);
    w ← pj_ioqueue_unlock_key w h; Some (PJ_EPENDING, w)
  else Some (status, w).

(** ** Operation keys *)

(** All bytes are zero. *)
Definition pj_ioqueue_op_key_init (w : world) (o : Z) : world :=
  set_w_ops (<[o := mk_op OP_NONE 0 0 0 0 0 0 0 0 0]> (w_ops w)) w.

Definition pj_ioqueue_is_pending (w : world) (o : Z) : option bool :=
  r ← w_ops w !! o; Some (negb (bool_decide (o_op r = OP_NONE))).

(** [pj_list_erase] of a node of the list. *)
Definition erase (o : Z) (l : list Z) : list Z := filter (fun x => x ≠ o) l.

Definition pj_ioqueue_post_completion (w : world) (h o bytes_status : Z) : option (Z * world) :=
  w ← pj_ioqueue_lock_key w h;
  k ← w_keys w !! h;
  if bool_decide (o ∈ k_read k) then
    w ← upd_key w h (set_k_read (erase o (k_read k)));
    w ← upd_op w o (set_o_op OP_NONE);
    w ← ioqueue_remove_from_set w h READABLE_EVENT;
    w ← pj_ioqueue_unlock_key w h;
    k ← w_keys w !! h;
    w ← (if on_read_complete (k_cb k) then call (OnRead h o bytes_status) w else Some w);
    Some (PJ_SUCCESS, w)
  else if bool_decide (o ∈ k_write k) then
    w ← upd_key w h (set_k_write (erase o (k_write k)));
    w ← upd_op w o (set_o_op OP_NONE);
    w ← ioqueue_remove_from_set w h WRITEABLE_EVENT;
    w ← pj_ioqueue_unlock_key w h;
    k ← w_keys w !! h;
    w ← (if on_write_complete (k_cb k) then call (OnWrite h o bytes_status) w else Some w);
    Some (PJ_SUCCESS, w)
  else if bool_decide (o ∈ k_accept k) then
    w ← upd_key w h (set_k_accept (erase o (k_accept k)));
    w ← upd_op w o (set_o_op OP_NONE);
    w ← pj_ioqueue_unlock_key w h;
    k ← w_keys w !! h;
    w ← (if on_accept_complete (k_cb k)
         then call (OnAccept h o PJ_INVALID_SOCKET bytes_status) w else Some w);
    Some (PJ_SUCCESS, w)
  else
    w ← (if k_connecting k then
           w ← upd_key w h (set_k_connecting false);
           ioqueue_remove_from_set2 w h (Z.lor WRITEABLE_EVENT EXCEPTION_EVENT)
         else Some w);
    w ← pj_ioqueue_unlock_key w h; Some (PJ_EINVALIDOP, w).

(** ** Cancelling everything *)

(** Waiting for the callback of another thread, at most [n] times ten
    milliseconds: while [waiting] holds; [again] is done on each turn. *)
Fixpoint wait_callback (n : nat) (waiting : pj_ioqueue_key_t -> bool)
    (again : pj_ioqueue_key_t -> pj_ioqueue_key_t) (w : world) (h : Z) : option world :=
  match n with
  | O => Some w
  | Datatypes.S n =>
      k ← w_keys w !! h;
      if waiting k then
        w ← pj_ioqueue_unlock_key w h;
        w ← pj_ioqueue_lock_key (others w) h;
        w ← upd_key w h again;
        wait_callback n waiting again w h
      else Some w
  end.

(** The loops give up when the counter has passed 100. *)
Definition WAIT_TURNS : nat := 101.

Definition other_thread (t : option Z) : bool :=
  match t with Some t => negb (t =? this) | None => false end.

Definition pj_ioqueue_clear_key (w : world) (h : Z) : option (Z * world) :=
  w ← pj_ioqueue_lock_key w h;
  w ← upd_key w h (fun k => set_k_read [] (set_k_write [] (set_k_accept []
        (set_k_read_cb [] (set_k_write_cb [] k)))));
  w ← wait_callback WAIT_TURNS (fun k => other_thread (k_read_thread k)) (set_k_read []) w h;
  w ← wait_callback WAIT_TURNS (fun k => other_thread (k_write_thread k)) (set_k_write []) w h;
  w ← upd_key w h (set_k_connecting false);
  w ← ioqueue_remove_from_set2 w h (Z.lor READABLE_EVENT (Z.lor WRITEABLE_EVENT EXCEPTION_EVENT));
  w ← pj_ioqueue_unlock_key w h;
  Some (PJ_SUCCESS, w).

(** A write callback during unregistration, with a reference to the group lock. *)
Definition guarded_write_cb (w : world) (h o n : Z) : option world :=
  k ← w_keys w !! h;
  w ← (if on_write_complete (k_cb k) then call (OnWrite h o n) w else Some w);
  k ← w_keys w !! h;
  pj_grp_lock_dec_ref (k_grp k) w.

(** The callbacks of finished operations, in the thread that is in the write
    callback. *)
Fixpoint drain_finished (fuel : nat) (w : world) (h : Z) : option world :=
  match fuel with
  | O => None
  | Datatypes.S fuel =>
      k ← w_keys w !! h;
      match k_write_cb k with
      | [] => Some w
      | o :: rest =>
          w ← upd_key w h (set_k_write_cb rest);
          w ← pj_grp_lock_add_ref (k_grp k) w;
          w ← pj_ioqueue_unlock_key w h;
          r ← w_ops w !! o;
          w ← (if on_write_complete (k_cb k) then call (OnWrite h o (o_written r)) w else Some w);
          k ← w_keys w !! h;
          w ← pj_grp_lock_dec_ref (k_grp k) w;
          w ← pj_ioqueue_lock_key w h;
          drain_finished fuel w h
      end
  end.

(** The operations never sent, without the lock. *)
Fixpoint drain_unsent (fuel : nat) (w : world) (h : Z) : option world :=
  match fuel with
  | O => None
  | Datatypes.S fuel =>
      k ← w_keys w !! h;
      match k_write k with
      | [] => Some w
      | o :: rest =>
          w ← upd_key w h (set_k_write rest);
          w ← pj_grp_lock_add_ref (k_grp k) w;
          w ← guarded_write_cb w h o (- PJ_ECANCELLED);
          drain_unsent fuel w h
      end
  end.

Definition ioqueue_drain_pending_writes (fuel : nat) (w : world) (h : Z) : option world :=
  w ← pj_ioqueue_lock_key w h;
  k ← w_keys w !! h;
  w ← (match k_write_thread k with
       | Some t =>
           if t =? this then drain_finished fuel w h
           else wait_callback WAIT_TURNS (fun k => bool_decide (is_Some (k_write_thread k))) id w h
       | None => Some w
       end);
  w ← pj_ioqueue_unlock_key w h;
  drain_unsent fuel w h.

(** ** Settings *)

Definition pj_ioqueue_get_user_data (w : world) (h : Z) : option Z :=
  k ← w_keys w !! h; Some (k_user k).

(** The status and the old data. *)
Definition pj_ioqueue_set_user_data (w : world) (h user_data : Z) : option (Z * Z * world) :=
  k ← w_keys w !! h; w ← upd_key w h (set_k_user user_data); Some (PJ_SUCCESS, k_user k, w).

Definition pj_ioqueue_set_concurrency (w : world) (h : Z) (allow : bool) : option (Z * world) :=
  w ← upd_key w h (set_k_conc allow); Some (PJ_SUCCESS, w).

Definition pj_ioqueue_set_default_concurrency (w : world) (allow : bool) : Z * world :=
  (PJ_SUCCESS, upd_q w (set_q_conc allow)).

(** ** Keys *)

Definition ioqueue_init_key (w : world) (h sock : Z) (grp : option Z) (user_data : Z)
    (cb : pj_ioqueue_callback) : option (Z * world) :=
  w ← upd_key w h (fun k => set_k_fd sock (set_k_user user_data (set_k_read [] (set_k_write []
        (set_k_accept [] (set_k_connecting false (set_k_read_cb [] (set_k_read_thread None
        (set_k_write_cb [] (set_k_write_thread None (set_k_closing false (set_k_cb cb
        (set_k_ref (u32 (k_ref k + 1)) k)))))))))))));
  '(rc, w) ← pj_ioqueue_set_concurrency w h (q_conc (w_q w));
  if negb (rc =? PJ_SUCCESS) then Some (rc, w) else
  let '(rc, value, s) := pj_sock_getsockopt (w_sys w) sock SO_TYPE in
  let fd_type := if negb (rc =? PJ_SUCCESS) then SOCK_STREAM else value in
  w ← upd_key (set_w_sys s w) h (fun k => set_k_grp grp (set_k_type fd_type k));
  w ← pj_grp_lock_add_ref grp w;
  Some (PJ_SUCCESS, w).

(** Keys that have been closed for long enough are free again. *)
Fixpoint scan_closing (now : pj_time_val) (hs : list Z) (w : world) : option world :=
  match hs with
  | [] => Some w
  | h :: hs =>
      k ← w_keys w !! h;
      scan_closing now hs
        (if PJ_TIME_VAL_GTE now (k_free_time k)
         then upd_q w (fun q => set_q_closing (erase h (q_closing q)) (set_q_free (q_free q ++ [h]) q))
         else w)
  end.

Definition scan_closing_keys (w : world) : option world :=
  let '(now, s) := pj_gettickcount (w_sys w) in
  scan_closing now (q_closing (w_q w)) (set_w_sys s w).

Definition increment_counter (w : world) (h : Z) : option world :=
  w ← acquire LRef w;
  w ← upd_key w h (fun k => set_k_ref (u32 (k_ref k + 1)) k);
  release LRef w.

(** The key leaves the list it is in. *)
Definition erase_key (h : Z) (q : pj_ioqueue_t) : pj_ioqueue_t :=
  set_q_active (erase h (q_active q)) (set_q_closing (erase h (q_closing q)) (set_q_free (erase h (q_free q)) q)).

Definition decrement_counter (w : world) (h : Z) : option world :=
  w ← acquire LIoq w;
  w ← acquire LRef w;
  w ← upd_key w h (fun k => set_k_ref (u32 (k_ref k - 1)) k);
  k ← w_keys w !! h;
  w ← (if k_ref k =? 0 then
         let '(now, s) := pj_gettickcount (w_sys w) in
         t ← pj_time_val_normalize (mk_time_val (sec now) (msec now + PJ_IOQUEUE_KEY_FREE_DELAY));
         w ← upd_key (set_w_sys s w) h (set_k_free_time t);
         rescan_fdset (upd_q w (fun q => let q := erase_key h q in set_q_closing (q_closing q ++ [h]) q))
       else Some w);
  w ← release LRef w;
  release LIoq w.

Definition set_nonblocking (s : S) (sock : Z) : Z * S :=
  let '(flags, s) := sys_getfl s sock in
  if flags <? 0 then (-1, s) else sys_setfl s sock (Z.lor flags O_NONBLOCK).

(** The error path of the registration: the key goes back to the free list. *)
Definition register_failed (w : world) (h : Z) : option world :=
  k ← w_keys w !! h;
  w ← pj_grp_lock_dec_ref (k_grp k) w;
  w ← upd_key w h (fun k => set_k_grp None (set_k_ref 0 k));
  Some (upd_q w (fun q => set_q_free (q_free q ++ [h]) q)).

(** The status and the key. *)
Definition pj_ioqueue_register_sock2 (w : world) (sock : Z) (grp : option Z) (user_data : Z)
    (cb : pj_ioqueue_callback) : option (Z * option Z * world) :=
  if sock =? PJ_INVALID_SOCKET then Some (PJ_EINVAL, None, w) else
  if (sizeof_fd_set <? FD_SETSIZE) && (FD_SETSIZE <=? sock) then Some (PJ_ETOOBIG, None, w) else
  w ← acquire LIoq w;
  if q_max (w_q w) <=? q_count (w_q w) then w ← release LIoq w; Some (PJ_ETOOMANY, None, w) else
  w ← scan_closing_keys w;
  match q_free (w_q w) with
  | [] => w ← release LIoq w; Some (PJ_ETOOMANY, None, w)
  | h :: rest =>
      let w := upd_q w (set_q_free rest) in
      '(rc, w) ← ioqueue_init_key w h sock grp user_data cb;
      if negb (rc =? PJ_SUCCESS) then w ← release LIoq w; Some (rc, None, w) else
      let '(nb, s) := set_nonblocking (w_sys w) sock in
      let w := set_w_sys s w in
      if negb (nb =? 0) then
        let rc := pj_get_netos_error s in
        if rc =? PJ_SUCCESS then w ← release LIoq w; Some (rc, Some h, w) else
        w ← register_failed w h;
        w ← release LIoq w; Some (rc, None, w)
      else
        w ← rescan_fdset (upd_q w (fun q => set_q_count (q_count q + 1) (set_q_active (q_active q ++ [h]) q)));
        w ← release LIoq w; Some (PJ_SUCCESS, Some h, w)
  end.

Definition pj_ioqueue_register_sock (w : world) (sock user_data : Z) (cb : pj_ioqueue_callback) :
    option (Z * option Z * world) :=
  pj_ioqueue_register_sock2 w sock None user_data cb.

(** The descriptor leaves the three sets and is closed. *)
Definition close_fd (w : world) (h : Z) : option world :=
  k ← w_keys w !! h;
  if k_fd k =? PJ_INVALID_SOCKET then Some w else
  q ← change_sets PJ_FD_CLR (k_fd k) (Z.lor READABLE_EVENT (Z.lor WRITEABLE_EVENT EXCEPTION_EVENT)) (w_q w);
  let '(_, s) := pj_sock_close (w_sys w) (k_fd k) in
  upd_key (set_w_sys s (set_w_q q w)) h (set_k_fd PJ_INVALID_SOCKET).

Definition pj_ioqueue_unregister (fuel : nat) (w : world) (h : Z) : option (Z * world) :=
  w ← pj_ioqueue_lock_key w h;
  k ← w_keys w !! h;
  if k_closing k then w ← pj_ioqueue_unlock_key w h; Some (PJ_SUCCESS, w) else
  w ← acquire LIoq w;
  let w := upd_q w (fun q => if 0 <? q_count q then set_q_count (q_count q - 1) q else q) in
  w ← close_fd w h;
  w ← release LIoq w;
  w ← upd_key w h (set_k_closing true);
  w ← pj_ioqueue_unlock_key w h;
  w ← ioqueue_drain_pending_writes fuel w h;
  w ← upd_key w h (set_k_cb (mk_cb false false false false));
  w ← decrement_counter w h;
  k ← w_keys w !! h;
  w ← pj_grp_lock_dec_ref (k_grp k) w;
  Some (PJ_SUCCESS, w).

(** ** Polling *)

Record event := mk_event { e_key : Z; e_type : Z }.

(** One of the three tests of the scan for a key: the event is added when
    there is room and the descriptor is ready. *)
Definition add_event (h e : Z) (ready : bool) (k : pj_ioqueue_key_t) (f : pj_fd_set_t)
    (w : world) (evs : list event) : option (world * list event) :=
  if ready then
    b ← PJ_FD_ISSET (k_fd k) f;
    if (b : bool) && negb (k_closing k) && (Z.of_nat (length evs) <? MAX_EVENTS) then
      w ← increment_counter w h; Some (w, evs ++ [mk_event h e])
    else Some (w, evs)
  else Some (w, evs).

Fixpoint scan_events (r wr x : pj_fd_set_t) (hs : list Z) (w : world) (evs : list event) :
    option (world * list event) :=
  match hs with
  | [] => Some (w, evs)
  | h :: hs =>
      if negb (Z.of_nat (length evs) <? MAX_EVENTS) then Some (w, evs) else
      k ← w_keys w !! h;
      if k_fd k =? PJ_INVALID_SOCKET then scan_events r wr x hs w evs else
      '(w, evs) ← add_event h WRITEABLE_EVENT
        (negb (bool_decide (k_write k = [])) || k_connecting k) k wr w evs;
      '(w, evs) ← add_event h READABLE_EVENT
        (negb (bool_decide (k_read k = [])) || negb (bool_decide (k_accept k = []))) k r w evs;
      '(w, evs) ← add_event h EXCEPTION_EVENT (k_connecting k) k x w evs;
      scan_events r wr x hs w evs
  end.

Fixpoint add_refs (evs : list event) (w : world) : option world :=
  match evs with
  | [] => Some w
  | e :: evs => k ← w_keys w !! e_key e; w ← pj_grp_lock_add_ref (k_grp k) w; add_refs evs w
  end.

Definition dispatch (fuel : nat) (e : event) (w : world) : option (bool * world) :=
  if e_type e =? READABLE_EVENT then ioqueue_dispatch_read_event fuel w (e_key e)
  else if e_type e =? WRITEABLE_EVENT then ioqueue_dispatch_write_event fuel w (e_key e)
  else if e_type e =? EXCEPTION_EVENT then ioqueue_dispatch_exception_event w (e_key e)
  else Some (false, w).

Fixpoint process_events (fuel : nat) (evs : list event) (processed_cnt : Z) (w : world) :
    option (Z * world) :=
  match evs with
  | [] => Some (processed_cnt, w)
  | e :: evs =>
      '(done, w) ← (if processed_cnt <? PJ_IOQUEUE_MAX_EVENTS_IN_SINGLE_POLL
                    then dispatch fuel e w else Some (false, w));
      w ← decrement_counter w (e_key e);
      k ← w_keys w !! e_key e;
      w ← pj_grp_lock_dec_ref (k_grp k) w;
      process_events fuel evs (if (done : bool) then processed_cnt + 1 else processed_cnt) w
  end.

(** The result: the number of events, or minus the error of [select]. *)
Definition pj_ioqueue_poll (fuel : nat) (timeout : option pj_time_val) (w : world) : option (Z * world) :=
  w ← acquire LIoq w;
  if (PJ_FD_COUNT (q_r (w_q w)) =? 0) && (PJ_FD_COUNT (q_w (w_q w)) =? 0) &&
     (PJ_FD_COUNT (q_x (w_q w)) =? 0) then
    w ← scan_closing_keys w;
    w ← release LIoq w;
    Some (0, match timeout with Some _ => others w | None => w end)
  else
    w ← release LIoq w;
    let '(count, r, wr, x, s) :=
      pj_sock_select (w_sys w) (q_nfds (w_q w) + 1) (q_r (w_q w)) (q_w (w_q w)) (q_x (w_q w)) timeout in
    let w := others (set_w_sys s w) in
    if count =? 0 then Some (0, w) else
    if count <? 0 then Some (- pj_get_netos_error s, w) else
    w ← acquire LIoq w;
    '(w, evs) ← scan_events r wr x (q_active (w_q w)) w [];
    w ← add_refs evs w;
    w ← release LIoq w;
    process_events fuel evs 0 w.
End IoQueue.
