(* ===== verification/IoQueueInv.v ===== *)
(** * The invariant of the I/O queue

    Which keys are registered, closing and free, what their reference counters
    say, and what the descriptor sets hold; that every operation keeps it, and
    gives back the locks it takes. *)
From S2P Require Import Prelude TimeVal SockBsd IoQueueData IoQueue.

(** ** Locks *)

Section Locks.
Context {S : Type} (this : Z).
Implicit Types (w : world S).

(** The thread can have the lock. *)
Definition can_lock (l : lock_id) (w : world S) : Prop :=
  match w_locks w !! l with
  | None => True
  | Some (t, n) => t = this /\ recursive l = true /\ 0 < n
  end.

Definition locked (l : lock_id) (w : world S) : world S :=
  set_w_locks (<[l := (this, match w_locks w !! l with Some (_, n) => n + 1 | None => 1 end)]> (w_locks w)) w.

(** Only this thread has locks, and none of the simple ones. *)
Definition quiet (w : world S) : Prop := forall l, can_lock l w.

Lemma acquire_can l w : can_lock l w -> acquire this l w = Some (locked l w).
Proof.
  unfold can_lock, acquire, tryacquire, locked. destruct (w_locks w !! l) as [[t n]|]; [|done].
  intros (-> & -> & _). by rewrite Z.eqb_refl.
Qed.

(** Whatever happens in between, the lock is as before after its release. *)
Lemma release_locked l w w' :
  can_lock l w -> w_locks w' = w_locks (locked l w) ->
  release this l w' = Some (set_w_locks (w_locks w) w').
Proof.
  unfold can_lock, release, locked. intros Hc ->. simpl. rewrite lookup_insert_eq. simpl.
  rewrite Z.eqb_refl. simpl. destruct (w_locks w !! l) as [[t n]|] eqn:E.
  - destruct Hc as (-> & _ & Hn). destruct (Z.eqb_spec (n + 1) 1); [lia|].
    rewrite insert_insert_eq, Z.add_simpl_r. by rewrite insert_id.
  - simpl. by rewrite delete_insert_id.
Qed.

Lemma can_lock_other l l' w : l <> l' -> can_lock l w -> can_lock l (locked l' w).
Proof. unfold can_lock, locked. simpl. intros. by rewrite lookup_insert_ne. Qed.

Lemma can_lock_again l w : recursive l = true -> can_lock l w -> can_lock l (locked l w).
Proof.
  unfold can_lock, locked. simpl. intros Hr. rewrite lookup_insert_eq.
  destruct (w_locks w !! l) as [[t n]|]; [|done]. intros (_ & _ & ?). by split_and!; [| |lia].
Qed.

Lemma quiet_locked l w : recursive l = true -> quiet w -> quiet (locked l w).
Proof.
  intros Hr Hq l'. destruct (decide (l' = l)) as [->|]; [by apply can_lock_again|by apply can_lock_other].
Qed.

Lemma quiet_ext w w' : w_locks w' = w_locks w -> quiet w -> quiet w'.
Proof. intros E Hq l. unfold can_lock. rewrite E. apply Hq. Qed.

Lemma key_lock_recursive h k : recursive (key_lock h k) = true.
Proof. unfold key_lock. by destruct (k_grp k). Qed.
End Locks.
#[export] Hint Resolve key_lock_recursive : pj.

(** ** Updates *)

Section Updates.
Context `{!SystemConstants} {S : Type} (this : Z).
Implicit Types (w : world S).

Definition put_key (h : Z) (k : pj_ioqueue_key_t) (w : world S) : world S :=
  set_w_keys (<[h := k]> (w_keys w)) w.
Definition put_op (o : Z) (r : operation_key) (w : world S) : world S :=
  set_w_ops (<[o := r]> (w_ops w)) w.

Lemma upd_key_some w h k f : w_keys w !! h = Some k -> upd_key w h f = Some (put_key h (f k) w).
Proof. intros Hk. unfold upd_key. by rewrite Hk. Qed.

Lemma upd_op_some w o r f : w_ops w !! o = Some r -> upd_op w o f = Some (put_op o (f r) w).
Proof. intros Hr. unfold upd_op. by rewrite Hr. Qed.

Lemma lock_key_some w h k :
  w_keys w !! h = Some k -> can_lock this (key_lock h k) w ->
  pj_ioqueue_lock_key this w h = Some (locked this (key_lock h k) w).
Proof. intros Hk Hc. unfold pj_ioqueue_lock_key. rewrite Hk. simpl. by apply acquire_can. Qed.

Lemma trylock_key_some w h k :
  w_keys w !! h = Some k -> can_lock this (key_lock h k) w ->
  pj_ioqueue_trylock_key this w h = Some (true, locked this (key_lock h k) w).
Proof.
  intros Hk Hc. unfold pj_ioqueue_trylock_key. rewrite Hk. simpl.
  pose proof (acquire_can this _ _ Hc) as Ha. unfold acquire in Ha. by rewrite Ha.
Qed.

(** The unlocking that ends a section begun in [w0]. *)
Lemma unlock_key_some w0 w h k k0 :
  w_keys w !! h = Some k -> k_grp k = k_grp k0 -> can_lock this (key_lock h k0) w0 ->
  w_locks w = w_locks (locked this (key_lock h k0) w0) ->
  pj_ioqueue_unlock_key this w h = Some (set_w_locks (w_locks w0) w).
Proof.
  intros Hk Hg Hc Hl. unfold pj_ioqueue_unlock_key. rewrite Hk. simpl.
  assert (key_lock h k = key_lock h k0) as -> by (unfold key_lock; by rewrite Hg).
  by apply release_locked.
Qed.
End Updates.

(** ** Descriptor sets *)

Section FdSets.
Context `{!SystemConstants} {S : Type} (this : Z).
Implicit Types (w : world S) (q : pj_ioqueue_t).

Definition mkset (X : gset Z) : pj_fd_set_t := mk_fd_set (Z.of_nat (size X)) X.

Definition sets_ok (q : pj_ioqueue_t) : Prop :=
  fd_set_ok (q_r q) /\ fd_set_ok (q_w q) /\ fd_set_ok (q_x q).

Definition clear_fd (b : bool) (fd : Z) (f : pj_fd_set_t) : pj_fd_set_t :=
  if b then mkset (PART_FDSET f ∖ {[fd]}) else f.
Definition add_fd (b : bool) (fd : Z) (f : pj_fd_set_t) : pj_fd_set_t :=
  if b then mkset ({[fd]} ∪ PART_FDSET f) else f.

(** The queue with one of the above on the sets of the event types. *)
Definition with_sets (g : bool -> Z -> pj_fd_set_t -> pj_fd_set_t) (fd e : Z) (q : pj_ioqueue_t) : pj_ioqueue_t :=
  set_q_r (g (has_event e READABLE_EVENT) fd (q_r q))
    (set_q_w (g (has_event e WRITEABLE_EVENT) fd (q_w q))
      (set_q_x (g (has_event e EXCEPTION_EVENT) fd (q_x q)) q)).

Lemma fd_set_ok_mkset f : fd_set_ok f -> f = mkset (PART_FDSET f).
Proof. unfold fd_set_ok, mkset. destruct f; simpl. by intros ->. Qed.

Lemma fd_clr_eq fd f : fd_set_ok f -> 0 <= fd < FD_SETSIZE -> PJ_FD_CLR fd f = Some (clear_fd true fd f).
Proof.
  intros Hf Hfd. destruct (fd_clr_spec fd f Hf Hfd) as (f' & -> & Hf' & E).
  unfold clear_fd. by rewrite <-E, <-fd_set_ok_mkset.
Qed.

Lemma fd_set_eq fd f : fd_set_ok f -> 0 <= fd < FD_SETSIZE -> PJ_FD_SET fd f = Some (add_fd true fd f).
Proof.
  intros Hf Hfd. destruct (fd_set_spec fd f Hf Hfd) as (f' & -> & Hf' & E).
  unfold add_fd. by rewrite <-E, <-fd_set_ok_mkset.
Qed.

Lemma change_sets_eq g G fd e q :
  (forall f, fd_set_ok f -> g fd f = Some (G true fd f)) -> (forall f, G false fd f = f) -> sets_ok q ->
  change_sets g fd e q = Some (with_sets G fd e q).
Proof.
  intros Hg HG (Hr & Hw & Hx). unfold change_sets, with_sets.
  destruct (has_event e READABLE_EVENT), (has_event e WRITEABLE_EVENT), (has_event e EXCEPTION_EVENT);
    by rewrite ?Hg, ?HG by done.
Qed.

Lemma clear_fd_ok b fd f : fd_set_ok f -> fd_set_ok (clear_fd b fd f).
Proof. by destruct b. Qed.

Lemma add_fd_ok b fd f : fd_set_ok f -> fd_set_ok (add_fd b fd f).
Proof. by destruct b. Qed.

Lemma cleared_ok fd e q : sets_ok q -> sets_ok (with_sets clear_fd fd e q).
Proof. intros (? & ? & ?). by split_and!; apply clear_fd_ok. Qed.

Lemma added_ok fd e q : sets_ok q -> sets_ok (with_sets add_fd fd e q).
Proof. intros (? & ? & ?). by split_and!; apply add_fd_ok. Qed.

Lemma remove_from_set_eq w h e k :
  quiet this w -> sets_ok (w_q w) -> w_keys w !! h = Some k -> 0 <= k_fd k < FD_SETSIZE ->
  ioqueue_remove_from_set2 this w h e = Some (set_w_q (with_sets clear_fd (k_fd k) e (w_q w)) w).
Proof.
  intros Hq Hs Hk Hfd. unfold ioqueue_remove_from_set2. rewrite acquire_can by apply Hq. simpl.
  rewrite Hk. simpl. rewrite (change_sets_eq _ clear_fd) by (try done; intros; by apply fd_clr_eq).
  simpl. rewrite (release_locked _ _ w) by (try apply Hq; done). by destruct w.
Qed.

Lemma add_to_set_eq w h e k :
  quiet this w -> sets_ok (w_q w) -> w_keys w !! h = Some k -> 0 <= k_fd k < FD_SETSIZE ->
  ioqueue_add_to_set2 this w h e = Some (set_w_q (with_sets add_fd (k_fd k) e (w_q w)) w).
Proof.
  intros Hq Hs Hk Hfd. unfold ioqueue_add_to_set2. rewrite acquire_can by apply Hq. simpl.
  rewrite Hk. simpl. rewrite (change_sets_eq _ add_fd) by (try done; intros; by apply fd_set_eq).
  simpl. rewrite (release_locked _ _ w) by (try apply Hq; done). by destruct w.
Qed.

Definition watched_fds (q : pj_ioqueue_t) : gset Z :=
  PART_FDSET (q_r q) ∪ PART_FDSET (q_w q) ∪ PART_FDSET (q_x q).

Lemma cleared_fds fd e q : watched_fds (with_sets clear_fd fd e q) ⊆ watched_fds q.
Proof.
  unfold watched_fds, with_sets, clear_fd. simpl.
  destruct (has_event e _), (has_event e _), (has_event e _); simpl; set_solver.
Qed.

Lemma added_fds fd e q : watched_fds (with_sets add_fd fd e q) ⊆ {[fd]} ∪ watched_fds q.
Proof.
  unfold watched_fds, with_sets, add_fd. simpl.
  destruct (has_event e _), (has_event e _), (has_event e _); simpl; set_solver.
Qed.
End FdSets.

(** ** The invariant *)

Section Invariant.
Context `{!SystemConstants} {S : Type}.
Implicit Types (w : world S) (q : pj_ioqueue_t).

(** Registered and not being closed. *)
Definition live_key (w : world S) (h : Z) (k : pj_ioqueue_key_t) : Prop :=
  h ∈ q_active (w_q w) /\ w_keys w !! h = Some k /\ k_closing k = false.

Definition all_keys (q : pj_ioqueue_t) : list Z := q_active q ++ q_closing q ++ q_free q.

(** Is the key at this address live? *)
Definition is_live (w : world S) (h : Z) : bool :=
  match w_keys w !! h with Some k => negb (k_closing k) | None => false end.

(** The operations in the lists of a key. *)
Definition op_lists (k : pj_ioqueue_key_t) : list Z :=
  k_read k ++ k_write k ++ k_accept k ++ k_read_cb k ++ k_write_cb k.

(** [held h] is the number of references that pollers, and the unregistration
    in progress, have to the key. *)
Record ioq_inv (held : Z -> Z) (w : world S) : Prop := {
  iv_sets : sets_ok (w_q w);
  iv_lists : NoDup (all_keys (w_q w));
  iv_keys h : h ∈ all_keys (w_q w) -> is_Some (w_keys w !! h);
  iv_ref h k : h ∈ q_active (w_q w) -> w_keys w !! h = Some k ->
    k_ref k = (if k_closing k then 0 else 1) + held h /\ 0 < k_ref k < 2 ^ 32;
  iv_idle h k : h ∈ q_closing (w_q w) ++ q_free (w_q w) -> w_keys w !! h = Some k -> k_ref k = 0;
  iv_closed h k : h ∈ q_closing (w_q w) -> w_keys w !! h = Some k -> k_closing k = true;
  iv_fd h k : live_key w h k -> 0 <= k_fd k < FD_SETSIZE /\ k_fd k <= q_nfds (w_q w);
  iv_dead h k : h ∈ q_active (w_q w) ++ q_closing (w_q w) -> w_keys w !! h = Some k ->
    k_closing k = true -> k_fd k = PJ_INVALID_SOCKET;
  iv_distinct h1 k1 h2 k2 : live_key w h1 k1 -> live_key w h2 k2 -> k_fd k1 = k_fd k2 -> h1 = h2;
  iv_held h : 0 <= held h /\ (0 < held h -> h ∈ q_active (w_q w));
  iv_watched fd : fd ∈ watched_fds (w_q w) -> exists h k, live_key w h k /\ k_fd k = fd;
  iv_count : q_count (w_q w) = Z.of_nat (length (filter (is_live w) (q_active (w_q w))));
  iv_grp h k g : h ∈ q_active (w_q w) ++ q_closing (w_q w) -> w_keys w !! h = Some k -> k_grp k = Some g ->
    is_Some (w_grp w !! g);
  iv_ops h k o : h ∈ q_active (w_q w) ++ q_closing (w_q w) -> w_keys w !! h = Some k -> o ∈ op_lists k ->
    is_Some (w_ops w !! o)
}.

(** The members of a key the invariant is about. *)
Definition same_core (k k' : pj_ioqueue_key_t) : Prop :=
  k_fd k' = k_fd k /\ k_closing k' = k_closing k /\ k_ref k' = k_ref k /\ k_grp k' = k_grp k.

(** [w'] is [w] with changes to the rest of the key [h] and to its own
    descriptor in the sets. *)
Record touch (h : Z) (w w' : world S) : Prop := {
  tc_keys : exists k k', w_keys w !! h = Some k /\ w_keys w' = <[h := k']> (w_keys w) /\ same_core k k' /\
    (forall fd, fd ∈ watched_fds (w_q w') -> fd ∈ watched_fds (w_q w) \/ k_closing k = false /\ fd = k_fd k) /\
    (forall o, o ∈ op_lists k' -> o ∈ op_lists k \/ is_Some (w_ops w' !! o));
  tc_ops o : is_Some (w_ops w !! o) -> is_Some (w_ops w' !! o);
  tc_sets : sets_ok (w_q w) -> sets_ok (w_q w');
  tc_lists : q_active (w_q w') = q_active (w_q w) /\ q_closing (w_q w') = q_closing (w_q w) /\
    q_free (w_q w') = q_free (w_q w);
  tc_nums : q_count (w_q w') = q_count (w_q w) /\ q_nfds (w_q w') = q_nfds (w_q w);
  tc_grp : w_grp w' = w_grp w
}.

Lemma touch_lookup h w w' h' k' : touch h w w' -> w_keys w' !! h' = Some k' ->
  exists k, w_keys w !! h' = Some k /\ same_core k k'.
Proof.
  intros [(k & k1 & Hk & -> & Hc & _) _ _ _ _ _]. destruct (decide (h' = h)) as [->|].
  - rewrite lookup_insert_eq. intros [= <-]. eauto.
  - rewrite lookup_insert_ne by done. intros. by exists k'.
Qed.

Lemma touch_lookup_back h w w' h' k : touch h w w' -> w_keys w !! h' = Some k ->
  exists k', w_keys w' !! h' = Some k' /\ same_core k k'.
Proof.
  intros [(k0 & k1 & Hk & -> & Hc & _) _ _ _ _ _] Hk0. destruct (decide (h' = h)) as [->|].
  - rewrite lookup_insert_eq. simplify_eq. eauto.
  - rewrite lookup_insert_ne by done. by exists k.
Qed.

Lemma touch_live h w w' h' k' : touch h w w' -> live_key w' h' k' ->
  exists k, live_key w h' k /\ same_core k k'.
Proof.
  intros Ht (Ha & Hk & Hc). destruct (touch_lookup _ _ _ _ _ Ht Hk) as (k & Hk0 & Hs).
  exists k. split; [|done]. destruct (tc_lists _ _ _ Ht) as (Hl & _). rewrite Hl in Ha.
  split_and!; try done. destruct Hs as (_ & Hs & _). by rewrite <-Hs.
Qed.

Lemma touch_live_back h w w' h' k : touch h w w' -> live_key w h' k ->
  exists k', live_key w' h' k' /\ same_core k k'.
Proof.
  intros Ht (Ha & Hk & Hc). destruct (touch_lookup_back _ _ _ _ _ Ht Hk) as (k' & Hk0 & Hs).
  exists k'. split; [|done]. destruct (tc_lists _ _ _ Ht) as (Hl & _).
  split_and!; [by rewrite Hl|done|]. destruct Hs as (_ & Hs & _). by rewrite Hs.
Qed.

Lemma touch_is_live h w w' h' : touch h w w' -> is_live w' h' = is_live w h'.
Proof.
  intros Ht. unfold is_live. destruct (w_keys w !! h') as [k|] eqn:E.
  - destruct (touch_lookup_back _ _ _ _ _ Ht E) as (k' & -> & _ & -> & _). done.
  - destruct (w_keys w' !! h') as [k'|] eqn:E'; [|done].
    destruct (touch_lookup _ _ _ _ _ Ht E') as (? & ? & _). congruence.
Qed.

Lemma inv_touch held h w w' :
  ioq_inv held w -> h ∈ q_active (w_q w) \/ watched_fds (w_q w') ⊆ watched_fds (w_q w) ->
  touch h w w' -> ioq_inv held w'.
Proof.
  intros Hi Hh Ht. destruct (tc_lists _ _ _ Ht) as (La & Lc & Lf). destruct (tc_nums _ _ _ Ht) as (Nc & Nn).
  assert (Hall : all_keys (w_q w') = all_keys (w_q w)) by (unfold all_keys; by rewrite La, Lc, Lf).
  split.
  - apply (tc_sets _ _ _ Ht), (iv_sets _ _ Hi).
  - rewrite Hall. apply (iv_lists _ _ Hi).
  - intros h' Hin. rewrite Hall in Hin. destruct (iv_keys _ _ Hi h' Hin) as [k Hk].
    destruct (touch_lookup_back _ _ _ _ _ Ht Hk) as (k' & -> & _). eauto.
  - intros h' k' Ha Hk. rewrite La in Ha. destruct (touch_lookup _ _ _ _ _ Ht Hk) as (k & Hk0 & _ & -> & -> & _).
    by apply (iv_ref _ _ Hi).
  - intros h' k' Ha Hk. rewrite Lc, Lf in Ha. destruct (touch_lookup _ _ _ _ _ Ht Hk) as (k & Hk0 & _ & _ & -> & _).
    by apply (iv_idle _ _ Hi h').
  - intros h' k' Ha Hk. rewrite Lc in Ha. destruct (touch_lookup _ _ _ _ _ Ht Hk) as (k & Hk0 & _ & -> & _).
    by apply (iv_closed _ _ Hi h').
  - intros h' k' Hl. destruct (touch_live _ _ _ _ _ Ht Hl) as (k & Hl0 & -> & _). rewrite Nn.
    by apply (iv_fd _ _ Hi h').
  - intros h' k' Ha Hk Hcl. rewrite La, Lc in Ha.
    destruct (touch_lookup _ _ _ _ _ Ht Hk) as (k & Hk0 & -> & Hc & _). rewrite Hc in Hcl.
    by apply (iv_dead _ _ Hi h').
  - intros h1 k1 h2 k2 H1 H2 He.
    destruct (touch_live _ _ _ _ _ Ht H1) as (k1' & L1 & E1 & _).
    destruct (touch_live _ _ _ _ _ Ht H2) as (k2' & L2 & E2 & _).
    apply (iv_distinct _ _ Hi _ _ _ _ L1 L2). congruence.
  - intros h'. rewrite La. apply (iv_held _ _ Hi).
  - intros fd Hfd.
    assert (fd ∈ watched_fds (w_q w) \/ exists k, live_key w h k /\ fd = k_fd k) as [Hw|(k & Hl & ->)].
    { destruct Hh as [Ha|Hsub]; [|by left; apply Hsub].
      destruct (tc_keys _ _ _ Ht) as (k & k' & Hk & _ & _ & Hf & _).
      destruct (Hf fd Hfd) as [?|[? ->]]; [by left|right]. exists k. done. }
    + destruct (iv_watched _ _ Hi fd Hw) as (h' & k & Hl & He).
      destruct (touch_live_back _ _ _ _ _ Ht Hl) as (k' & Hl' & Hc' & _). exists h', k'. split; congruence.
    + destruct (touch_live_back _ _ _ _ _ Ht Hl) as (k' & Hl' & Hc' & _). by exists h, k'.
  - rewrite Nc, La, (iv_count _ _ Hi). do 2 f_equal. apply list_filter_iff.
    intros h'. by rewrite (touch_is_live _ _ _ _ Ht).
  - intros h' k' g Ha Hk Hg. rewrite La, Lc in Ha. rewrite (tc_grp _ _ _ Ht).
    destruct (touch_lookup _ _ _ _ _ Ht Hk) as (k & Hk0 & _ & _ & _ & E). rewrite E in Hg.
    by apply (iv_grp _ _ Hi h' k).
  - intros h' k' o Ha Hk Ho. rewrite La, Lc in Ha.
    destruct (tc_keys _ _ _ Ht) as (k0 & k1 & Hk0 & Hm & _ & _ & Hop). rewrite Hm in Hk.
    destruct (decide (h' = h)) as [->|].
    + rewrite lookup_insert_eq in Hk. simplify_eq. destruct (Hop o Ho) as [?|?]; [|done].
      by apply (tc_ops _ _ _ Ht), (iv_ops _ _ Hi h k0).
    + rewrite lookup_insert_ne in Hk by done. by apply (tc_ops _ _ _ Ht), (iv_ops _ _ Hi h' k').
Qed.

Lemma same_core_refl k : same_core k k.
Proof. done. Qed.

Lemma same_core_trans k1 k2 k3 : same_core k1 k2 -> same_core k2 k3 -> same_core k1 k3.
Proof. unfold same_core. intuition congruence. Qed.

Lemma touch_trans h w1 w2 w3 : touch h w1 w2 -> touch h w2 w3 -> touch h w1 w3.
Proof.
  intros [(k1 & k2 & E1 & M1 & C1 & F1 & O1) P1 S1 L1 N1 G1] [(k2' & k3 & E2 & M2 & C2 & F2 & O2) P2 S2 L2 N2 G2].
  rewrite M1, lookup_insert_eq in E2. injection E2 as <-.
  split; [|by auto|by auto|intuition congruence|intuition congruence|congruence].
  exists k1, k3. split_and!; [done|by rewrite M2, M1, insert_insert_eq|by eapply same_core_trans|..].
  - intros fd Hf. destruct (F2 fd Hf) as [Hf2|[Hc ->]]; [by apply F1|].
    right. destruct C1 as (-> & <- & _). done.
  - intros o Ho. destruct (O2 o Ho) as [Ho2|Ho2]; [|by right].
    destruct (O1 o Ho2); [by left|right; by apply P2].
Qed.
End Invariant.
