(* ===== verification/IoQueueDispatch.v ===== *)
(** * What the sections of a dispatch do

    Each part of a dispatch that runs under the lock of the key returns,
    touches nothing but the key, and gives the lock back. *)
From S2P Require Import Prelude TimeVal SockBsd IoQueueData IoQueue IoQueueInv.

Section Touch.
Context `{!SystemConstants} {S : Type}.
Implicit Types (w : world S) (k : pj_ioqueue_key_t).

(** ** The elementary changes *)

Lemma touch_key w h k k' :
  w_keys w !! h = Some k -> same_core k k' ->
  (forall o, o ∈ op_lists k' -> o ∈ op_lists k \/ is_Some (w_ops w !! o)) -> touch h w (put_key h k' w).
Proof. intros Hk Hc Ho. split; try done. exists k, k'. split_and!; try done. by left. Qed.

(** Changes that leave the keys and the queue alone. *)
Lemma touch_rest w w' h k :
  w_keys w !! h = Some k -> w_keys w' = w_keys w -> w_q w' = w_q w -> w_grp w' = w_grp w ->
  (forall o, is_Some (w_ops w !! o) -> is_Some (w_ops w' !! o)) -> touch h w w'.
Proof.
  intros Hk Ek Eq Eg Ho. split; try done; rewrite ?Ek, ?Eq; try done.
  exists k, k. rewrite insert_id by done. split_and!; try done; by left.
Qed.

Lemma touch_op w h k o r : w_keys w !! h = Some k -> touch h w (put_op o r w).
Proof.
  intros Hk. apply (touch_rest _ _ _ k); try done. intros o' Ho. simpl.
  destruct (decide (o' = o)) as [->|]; [rewrite lookup_insert_eq; eauto|by rewrite lookup_insert_ne].
Qed.

Lemma touch_clear w h k e fd :
  w_keys w !! h = Some k -> touch h w (set_w_q (with_sets clear_fd fd e (w_q w)) w).
Proof.
  intros Hk. split; try done; [|apply cleared_ok].
  exists k, k. simpl. rewrite insert_id by done. split_and!; try done; [|by left].
  intros fd' Hf. left. by apply (cleared_fds fd e).
Qed.

Lemma touch_add w h k e :
  w_keys w !! h = Some k -> k_closing k = false -> touch h w (set_w_q (with_sets add_fd (k_fd k) e (w_q w)) w).
Proof.
  intros Hk Hc. split; try done; [|apply added_ok].
  exists k, k. simpl. rewrite insert_id by done. split_and!; try done; [|by left].
  intros fd' Hf. apply added_fds in Hf. apply elem_of_union in Hf as [Hf%elem_of_singleton|Hf]; [right|by left].
  by rewrite Hf.
Qed.

Lemma touch_refl w h k : w_keys w !! h = Some k -> touch h w w.
Proof. intros Hk. by apply (touch_rest _ _ _ k). Qed.
End Touch.

Section Sections.
Context `{!SystemConstants} {S : Type} `{!SystemSockets S} (this : Z).
Implicit Types (w : world S) (k : pj_ioqueue_key_t).

(** What holds in a section of the thread: [w0] is the state before the lock of
    the key was taken. *)
Record in_section (w0 : world S) (h : Z) (w : world S) : Prop := {
  is_touch : touch h w0 w;
  is_quiet : quiet this w0;
  is_sets : sets_ok (w_q w0);
  is_lock : exists k0, w_keys w0 !! h = Some k0 /\ w_locks w = w_locks (locked this (key_lock h k0) w0)
}.

(** A section begins with the lock of the key. *)
Lemma section_begin w h k :
  w_keys w !! h = Some k -> quiet this w -> sets_ok (w_q w) ->
  in_section w h (locked this (key_lock h k) w).
Proof.
  intros Hk Hq Hs. split; try done; [|by eauto].
  by eapply touch_rest.
Qed.

Lemma section_quiet w0 h w : in_section w0 h w -> quiet this w.
Proof.
  intros [_ Hq _ (k0 & Hk & Hl)]. eapply quiet_ext; [exact Hl|]. apply quiet_locked; auto with pj.
Qed.

Lemma section_sets w0 h w : in_section w0 h w -> sets_ok (w_q w).
Proof. intros [Ht _ Hs _]. by apply (tc_sets _ _ _ Ht). Qed.

Lemma section_key w0 h w k0 : in_section w0 h w -> w_keys w0 !! h = Some k0 ->
  exists k, w_keys w !! h = Some k /\ same_core k0 k.
Proof. intros [Ht _ _ _] Hk. by eapply touch_lookup_back. Qed.

(** A change of the key inside of the section. *)
Lemma section_step w0 h w w' :
  in_section w0 h w -> touch h w w' -> w_locks w' = w_locks w -> in_section w0 h w'.
Proof.
  intros [Ht Hq Hs (k0 & Hk & Hl)] Ht' E. split; try done; [by eapply touch_trans|].
  exists k0. split; [done|congruence].
Qed.

(** It ends with the lock given back. *)
Lemma section_end w0 h w :
  in_section w0 h w ->
  pj_ioqueue_unlock_key this w h = Some (set_w_locks (w_locks w0) w) /\
  touch h w0 (set_w_locks (w_locks w0) w).
Proof.
  intros Hin. pose proof Hin as [Ht Hq _ (k0 & Hk0 & Hl)].
  destruct (section_key _ _ _ _ Hin Hk0) as (k & Hk & Hc).
  split; [apply (unlock_key_some this w0 w h k k0); try done; by destruct Hc as (_ & _ & _ & ?)|].
  eapply touch_trans; [exact Ht|]. by eapply touch_rest.
Qed.

Lemma section_upd_key w0 h w k f :
  in_section w0 h w -> w_keys w !! h = Some k -> same_core k (f k) ->
  (forall o, o ∈ op_lists (f k) -> o ∈ op_lists k \/ is_Some (w_ops w !! o)) ->
  upd_key w h f = Some (put_key h (f k) w) /\ in_section w0 h (put_key h (f k) w).
Proof.
  intros Hin Hk Hc Ho. split; [by apply upd_key_some|].
  apply (section_step _ _ w); try done. by apply (touch_key _ _ k).
Qed.

Lemma section_upd_op w0 h w o r f :
  in_section w0 h w -> w_ops w !! o = Some r ->
  upd_op w o f = Some (put_op o (f r) w) /\ in_section w0 h (put_op o (f r) w).
Proof.
  intros Hin Hr. split; [by apply upd_op_some|].
  destruct (tc_keys _ _ _ (is_touch _ _ _ Hin)) as (k & k' & _ & Hk & _).
  apply (section_step _ _ w); try done. apply (touch_op _ _ k'). by rewrite Hk, lookup_insert_eq.
Qed.

Lemma section_sys w0 h w s : in_section w0 h w -> in_section w0 h (set_w_sys s w).
Proof.
  intros Hin. destruct (tc_keys _ _ _ (is_touch _ _ _ Hin)) as (k & k' & _ & Hk & _).
  apply (section_step _ _ w); try done. apply (touch_rest _ _ _ k'); try done.
  by rewrite Hk, lookup_insert_eq.
Qed.

Lemma section_cells w0 h w c : in_section w0 h w -> in_section w0 h (set_w_cells c w).
Proof.
  intros Hin. destruct (tc_keys _ _ _ (is_touch _ _ _ Hin)) as (k & k' & _ & Hk & _).
  apply (section_step _ _ w); try done. apply (touch_rest _ _ _ k'); try done.
  by rewrite Hk, lookup_insert_eq.
Qed.

Lemma section_remove w0 h w k e :
  in_section w0 h w -> w_keys w !! h = Some k -> 0 <= k_fd k < FD_SETSIZE ->
  ioqueue_remove_from_set2 this w h e = Some (set_w_q (with_sets clear_fd (k_fd k) e (w_q w)) w) /\
  in_section w0 h (set_w_q (with_sets clear_fd (k_fd k) e (w_q w)) w).
Proof.
  intros Hin Hk Hfd. split.
  - apply remove_from_set_eq; try done; [by eapply section_quiet|by eapply section_sets].
  - apply (section_step _ _ w); try done. by apply (touch_clear _ _ k).
Qed.

Lemma section_add w0 h w k e :
  in_section w0 h w -> w_keys w !! h = Some k -> 0 <= k_fd k < FD_SETSIZE -> k_closing k = false ->
  ioqueue_add_to_set2 this w h e = Some (set_w_q (with_sets add_fd (k_fd k) e (w_q w)) w) /\
  in_section w0 h (set_w_q (with_sets add_fd (k_fd k) e (w_q w)) w).
Proof.
  intros Hin Hk Hfd Hc. split.
  - apply add_to_set_eq; try done; [by eapply section_quiet|by eapply section_sets].
  - apply (section_step _ _ w); try done. by apply touch_add.
Qed.

(** ** The outcome of a section

    [grows n] bounds by how much the lists of callbacks put off have grown. *)
Definition grows (n : nat) (h : Z) (w w' : world S) : Prop :=
  forall k k', w_keys w !! h = Some k -> w_keys w' !! h = Some k' ->
    (length (k_read_cb k') <= length (k_read_cb k) + n)%nat /\
    (length (k_write_cb k') <= length (k_write_cb k) + n)%nat.

Definition outcome (ok : next -> world S -> Prop) (w : world S) (h : Z) (r : option (world S * next)) : Prop :=
  exists w' n, r = Some (w', n) /\ touch h w w' /\ grows 1 h w w' /\ ok n w'.

(** The operation of the key exists. *)
Definition has_op (w : world S) (o : Z) : Prop := is_Some (w_ops w !! o).

(** The end of a section that leaves [n] to do. *)
Lemma section_return (ok : next -> world S -> Prop) w0 h w n :
  in_section w0 h w -> grows 1 h w0 w -> ok n (set_w_locks (w_locks w0) w) ->
  outcome ok w0 h (w ← pj_ioqueue_unlock_key this w h; Some (w, n)).
Proof.
  intros Hin Hg Hok. destruct (section_end _ _ _ Hin) as [-> Ht]. simpl.
  do 2 eexists. split; [done|]. split_and!; done.
Qed.

Lemma grows_key m w0 w h k k' :
  w_keys w0 !! h = Some k -> w_keys w !! h = Some k' ->
  (length (k_read_cb k') <= length (k_read_cb k) + m)%nat ->
  (length (k_write_cb k') <= length (k_write_cb k) + m)%nat -> grows m h w0 w.
Proof. intros E E' ?? k1 k2 E1 E2. simplify_eq. done. Qed.

(** *** Writing *)

Lemma erase_write_eq w0 h w k rest :
  in_section w0 h w -> w_keys w !! h = Some k -> 0 <= k_fd k < FD_SETSIZE ->
  (forall o, o ∈ rest -> o ∈ k_write k) ->
  let w1 := put_key h (set_k_write rest k) w in
  let w2 := if bool_decide (rest = []) then set_w_q (with_sets clear_fd (k_fd k) WRITEABLE_EVENT (w_q w)) w1
            else w1 in
  erase_write this w h rest = Some w2 /\ in_section w0 h w2 /\
  w_keys w2 !! h = Some (set_k_write rest k) /\ w_ops w2 = w_ops w /\ w_sys w2 = w_sys w.
Proof.
  intros Hin Hk Hfd Hrest w1 w2. unfold erase_write.
  destruct (section_upd_key w0 h w k (set_k_write rest) Hin Hk) as [-> Hin1]; [done| |].
  { intros o Ho. left. unfold op_lists in *. simpl in *.
    rewrite !elem_of_app in *. naive_solver. }
  simpl. unfold w2. case_bool_decide as Hr; simpl.
  - unfold ioqueue_remove_from_set.
    assert (Hk1 : w_keys w1 !! h = Some (set_k_write rest k)) by (simpl; by rewrite lookup_insert_eq).
    destruct (section_remove _ _ _ _ WRITEABLE_EVENT Hin1 Hk1 Hfd) as [-> Hin2]. by split_and!.
  - split_and!; try done. simpl. by rewrite lookup_insert_eq.
Qed.

Definition write_ok (w0 : world S) (n : next) (w' : world S) : Prop :=
  w_locks w' = w_locks w0 /\
  match n with Written o => has_op w' o | Connected _ | Done _ => True | _ => False end.

Lemma write_finish_ok w0 h w k0 k o :
  in_section w0 h w -> w_keys w0 !! h = Some k0 -> w_keys w !! h = Some k -> has_op w o ->
  k_read_cb k = k_read_cb k0 -> k_write_cb k = k_write_cb k0 ->
  outcome (write_ok w0) w0 h (write_finish this w h o).
Proof.
  intros Hin Hk0 Hk Ho Hr Hw. unfold write_finish. rewrite Hk. simpl.
  assert (Hg : grows 1 h w0 w) by (eapply grows_key; [done..| |]; rewrite ?Hr, ?Hw; lia).
  destruct (k_conc k); [by apply section_return|]. destruct (k_write_thread k).
  - destruct (section_upd_key w0 h w k (fun k => set_k_write_cb (k_write_cb k ++ [o]) k) Hin Hk)
      as [-> Hin1]; [done| |].
    { intros o' Ho'. unfold op_lists in *. simpl in *. rewrite !elem_of_app, list_elem_of_singleton in *.
      naive_solver. }
    simpl. apply section_return; try done.
    eapply grows_key; [done|simpl; by rewrite lookup_insert_eq|..]; simpl;
      rewrite ?Hr, ?Hw, ?length_app; simpl; lia.
  - destruct (section_upd_key w0 h w k (set_k_write_thread (Some this)) Hin Hk) as [-> Hin1]; [done| |].
    { intros o' Ho'. by left. }
    simpl. apply section_return; try done.
    eapply grows_key; [done|simpl; by rewrite lookup_insert_eq|..]; simpl; rewrite ?Hr, ?Hw; lia.
Qed.

Lemma write_first_ok w0 h w k o rest :
  in_section w0 h w -> w_keys w0 !! h = Some k -> w_keys w !! h = Some k -> 0 <= k_fd k < FD_SETSIZE ->
  k_write k = o :: rest -> has_op w o -> outcome (write_ok w0) w0 h (write_first this w h k o rest).
Proof.
  intros Hin Hk0 Hk Hfd Hl [r Hr]. unfold write_first.
  assert (Hrest : forall o', o' ∈ rest -> o' ∈ k_write k) by (intros; rewrite Hl; by right).
  destruct (erase_write_eq w0 h w k rest Hin Hk Hfd Hrest) as (He & Hie & Hke & Hoe & Hse).
  set (we := if bool_decide _ then _ else _) in *.
  set (w1 := if is_dgram k then we else w).
  set (k1 := if is_dgram k then set_k_write rest k else k).
  assert (H1 : (if is_dgram k then erase_write this w h rest else Some w) = Some w1 /\ in_section w0 h w1 /\
    w_keys w1 !! h = Some k1 /\ w_ops w1 !! o = Some r).
  { unfold w1, k1. destruct (is_dgram k); [|done]. by rewrite Hoe. }
  destruct H1 as (-> & Hin1 & Hk1 & Hr1). simpl. rewrite Hr1. simpl.
  destruct (send_op (w_sys w1) k r) as [[rc sent] s].
  set (r1 := set_o_written _ _).
  destruct (section_upd_op w0 h (set_w_sys s w1) o r (fun _ => r1)) as [-> Hin2]; [by apply section_sys|done|].
  simpl. set (w2 := put_op o r1 (set_w_sys s w1)).
  assert (Hk2 : w_keys w2 !! h = Some k1) by done.
  assert (Hg1 : forall v, w_keys v !! h = Some k1 -> grows 1 h w0 v).
  { intros v Hv. eapply grows_key; [done..| |]; unfold k1; destruct (is_dgram k); simpl; lia. }
  destruct (_ || _ || _); [|by apply section_return; [|apply Hg1|]].
  destruct (section_upd_op w0 h w2 o r1 (set_o_op OP_NONE) Hin2) as [-> Hin3];
    [simpl; by rewrite lookup_insert_eq|]. simpl.
  set (w3 := put_op o _ w2).
  assert (Ho3 : has_op w3 o) by (unfold has_op; simpl; rewrite lookup_insert_eq; eauto).
  assert (H4 : exists w4 k4, (if is_dgram k then Some w3 else erase_write this w3 h rest) = Some w4 /\
    in_section w0 h w4 /\ w_keys w4 !! h = Some k4 /\ has_op w4 o /\
    k_read_cb k4 = k_read_cb k /\ k_write_cb k4 = k_write_cb k).
  { unfold k1 in *. destruct (is_dgram k) eqn:Ed.
    - exists w3, (set_k_write rest k). done.
    - destruct (erase_write_eq w0 h w3 k rest Hin3 Hk2 Hfd Hrest) as (He4 & Hin4 & Hk4 & Ho4 & _).
      do 2 eexists. split_and!; [exact He4|done|exact Hk4|unfold has_op; rewrite Ho4; exact Ho3|done..]. }
  destruct H4 as (w4 & k4 & -> & Hin4 & Hk4 & Ho4 & Hr4 & Hw4). simpl.
  by apply (write_finish_ok w0 h w4 k k4 o).
Qed.

Lemma grows_refl m w0 w h : w_keys w = w_keys w0 -> grows m h w0 w.
Proof. intros E k k' H1 H2. rewrite E in H2. simplify_eq. lia. Qed.

Lemma write_begin_ok held w h :
  ioq_inv held w -> quiet this w -> h ∈ q_active (w_q w) -> outcome (write_ok w) w h (write_begin this w h).
Proof.
  intros Hi Hq Ha. destruct (iv_keys _ _ Hi h) as [k Hk]; [apply elem_of_app; by left|].
  unfold write_begin. rewrite (trylock_key_some _ _ _ k) by (done || apply Hq). simpl. rewrite Hk. simpl.
  pose proof (section_begin w h k Hk Hq (iv_sets _ _ Hi)) as Hin.
  set (w1 := locked this _ w) in *.
  assert (Hg : grows 1 h w w1) by by apply grows_refl.
  destruct (k_closing k) eqn:Hc; [by apply section_return|].
  destruct (iv_fd _ _ Hi h k) as [Hfd _]; [done|].
  destruct (k_connecting k).
  - destruct (section_upd_key w h w1 k (set_k_connecting false) Hin Hk) as [-> Hin2]; [done|by left|].
    simpl.
    destruct (section_remove w h _ (set_k_connecting false k) (Z.lor WRITEABLE_EVENT EXCEPTION_EVENT) Hin2)
      as [-> Hin3]; [simpl; by rewrite lookup_insert_eq|done|]. simpl.
    destruct (pj_sock_getsockopt _ _ _) as [[gs_rc value] s]. apply section_return; [by apply section_sys| |done].
    eapply grows_key; [done|simpl; by rewrite lookup_insert_eq|..]; simpl; lia.
  - destruct (k_write k) as [|o rest] eqn:Hl; [by apply section_return|].
    apply write_first_ok; try done. apply (iv_ops _ _ Hi h k); [apply elem_of_app; by left|done|].
    unfold op_lists. rewrite Hl. set_solver.
Qed.

(** *** Reading *)

(** The accept callback may run with the lock of the key. *)
Definition read_ok (w0 : world S) (h : Z) (n : next) (w' : world S) : Prop :=
  match n with
  | ReadDone o _ => has_op w' o /\ w_locks w' = w_locks w0
  | Accepted o _ has_lock => (exists r, w_ops w' !! o = Some r /\ is_Some (w_cells w' !! o_accept_fd r)) /\
      if has_lock then in_section w0 h w' else w_locks w' = w_locks w0
  | Done _ => w_locks w' = w_locks w0
  | _ => False
  end.

Lemma erase_read_eq w0 h w k rest :
  in_section w0 h w -> w_keys w !! h = Some k -> 0 <= k_fd k < FD_SETSIZE ->
  (forall o, o ∈ rest -> o ∈ k_read k) ->
  let w1 := put_key h (set_k_read rest k) w in
  let w2 := if bool_decide (rest = []) then set_w_q (with_sets clear_fd (k_fd k) READABLE_EVENT (w_q w)) w1
            else w1 in
  erase_read this w h rest = Some w2 /\ in_section w0 h w2 /\
  w_keys w2 !! h = Some (set_k_read rest k) /\ w_ops w2 = w_ops w /\ w_sys w2 = w_sys w.
Proof.
  intros Hin Hk Hfd Hrest w1 w2. unfold erase_read.
  destruct (section_upd_key w0 h w k (set_k_read rest) Hin Hk) as [-> Hin1]; [done| |].
  { intros o Ho. left. unfold op_lists in *. simpl in *.
    rewrite !elem_of_app in *. naive_solver. }
  simpl. unfold w2. case_bool_decide as Hr; simpl.
  - unfold ioqueue_remove_from_set.
    assert (Hk1 : w_keys w1 !! h = Some (set_k_read rest k)) by (simpl; by rewrite lookup_insert_eq).
    destruct (section_remove _ _ _ _ READABLE_EVENT Hin1 Hk1 Hfd) as [-> Hin2]. by split_and!.
  - split_and!; try done. simpl. by rewrite lookup_insert_eq.
Qed.

Lemma read_finish_ok w0 h w k0 k o b :
  in_section w0 h w -> w_keys w0 !! h = Some k0 -> w_keys w !! h = Some k -> has_op w o ->
  k_read_cb k = k_read_cb k0 -> k_write_cb k = k_write_cb k0 ->
  outcome (read_ok w0 h) w0 h (read_finish this w h o b).
Proof.
  intros Hin Hk0 Hk Ho Hr Hw. unfold read_finish. rewrite Hk. simpl.
  assert (Hg : grows 1 h w0 w) by (eapply grows_key; [done..| |]; rewrite ?Hr, ?Hw; lia).
  destruct (k_conc k); [by apply section_return|]. destruct (k_read_thread k).
  - destruct (section_upd_key w0 h w k (fun k => set_k_read_cb (k_read_cb k ++ [o]) k) Hin Hk)
      as [-> Hin1]; [done| |].
    { intros o' Ho'. unfold op_lists in *. simpl in *. rewrite !elem_of_app, list_elem_of_singleton in *.
      naive_solver. }
    simpl. apply section_return; try done.
    eapply grows_key; [done|simpl; by rewrite lookup_insert_eq|..]; simpl;
      rewrite ?Hr, ?Hw, ?length_app; simpl; lia.
  - destruct (section_upd_key w0 h w k (set_k_read_thread (Some this)) Hin Hk) as [-> Hin1]; [done| |].
    { intros o' Ho'. by left. }
    simpl. apply section_return; try done.
    eapply grows_key; [done|simpl; by rewrite lookup_insert_eq|..]; simpl; rewrite ?Hr, ?Hw; lia.
Qed.

Lemma read_first_ok w0 h w k o rest :
  in_section w0 h w -> w_keys w0 !! h = Some k -> w_keys w !! h = Some k -> 0 <= k_fd k < FD_SETSIZE ->
  k_read k = o :: rest -> has_op w o -> outcome (read_ok w0 h) w0 h (read_first this w h k o rest).
Proof.
  intros Hin Hk0 Hk Hfd Hl [r Hr]. unfold read_first.
  destruct (erase_read_eq w0 h w k rest Hin Hk Hfd) as (-> & Hin1 & Hk1 & Ho1 & _).
  { intros. rewrite Hl. by right. }
  simpl. rewrite Ho1, Hr. simpl. destruct (recv_op _ k r) as [n s].
  match goal with |- context [upd_op (set_w_sys s ?v) o ?f] =>
    destruct (section_upd_op w0 h (set_w_sys s v) o r f) as [-> Hin2];
      [by apply section_sys|simpl; by rewrite Ho1|] end.
  simpl. eapply read_finish_ok; [done|done|exact Hk1| |done..].
  unfold has_op. simpl. rewrite lookup_insert_eq. eauto.
Qed.

Lemma accept_first_ok w0 h w k o rest :
  in_section w0 h w -> w_keys w0 !! h = Some k -> w_keys w !! h = Some k -> 0 <= k_fd k < FD_SETSIZE ->
  k_accept k = o :: rest -> has_op w o -> outcome (read_ok w0 h) w0 h (accept_first this w h k o rest).
Proof.
  intros Hin Hk0 Hk Hfd Hl [r Hr]. unfold accept_first.
  destruct (section_upd_key w0 h w k (set_k_accept rest) Hin Hk) as [-> Hin1]; [done| |].
  { intros o' Ho'. left. unfold op_lists in *. simpl in *. rewrite !elem_of_app, Hl, elem_of_cons in *.
    naive_solver. }
  simpl. destruct (section_upd_op w0 h _ o r (set_o_op OP_NONE) Hin1) as [-> Hin2]; [done|]. simpl.
  set (w2 := put_op o _ _) in *.
  assert (Hk2 : w_keys w2 !! h = Some (set_k_accept rest k)) by (simpl; by rewrite lookup_insert_eq).
  assert (H3 : exists w3, (if bool_decide (rest = []) then ioqueue_remove_from_set this w2 h READABLE_EVENT
    else Some w2) = Some w3 /\ in_section w0 h w3 /\ w_keys w3 = w_keys w2 /\
    w_ops w3 !! o = Some (set_o_op OP_NONE r)).
  { unfold ioqueue_remove_from_set.
    assert (Ho2 : w_ops w2 !! o = Some (set_o_op OP_NONE r)) by (simpl; by rewrite lookup_insert_eq).
    case_bool_decide; [|by exists w2].
    destruct (section_remove _ _ _ _ READABLE_EVENT Hin2 Hk2 Hfd) as [-> Hin3]. by eexists. }
  destruct H3 as (w3 & -> & Hin3 & Hk3 & Ho3). simpl. rewrite Ho3. simpl.
  destruct (accept_op w3 (k_fd k) _) as [rc w4] eqn:Ea.
  assert (H4 : exists s c, w4 = set_w_cells c (set_w_sys s w3) /\ is_Some (c !! o_accept_fd r)).
  { unfold accept_op in Ea. destruct (pj_sock_accept _ _ _ _) as [[rc1 ns] s1].
    match type of Ea with (let '(a, b) := ?e in _) = _ => destruct e as [rc2 s2] end.
    injection Ea as <- <-.
    do 2 eexists. split; [done|]. simpl. rewrite lookup_insert_eq. eauto. }
  destruct H4 as (s & c & -> & Hc).
  assert (Hin4 : in_section w0 h (set_w_cells c (set_w_sys s w3))) by (apply section_cells; by apply section_sys).
  assert (Hg : grows 1 h w0 (set_w_cells c (set_w_sys s w3))).
  { eapply grows_key; [done|simpl; rewrite Hk3; exact Hk2|..]; simpl; lia. }
  destruct (k_conc k).
  - apply section_return; try done. split; [|done]. by exists (set_o_op OP_NONE r).
  - do 2 eexists. split; [done|]. split_and!; try done; [by destruct Hin4|].
    split; [|done]. by exists (set_o_op OP_NONE r).
Qed.

Lemma read_begin_ok held w h :
  ioq_inv held w -> quiet this w -> h ∈ q_active (w_q w) -> outcome (read_ok w h) w h (read_begin this w h).
Proof.
  intros Hi Hq Ha. destruct (iv_keys _ _ Hi h) as [k Hk]; [apply elem_of_app; by left|].
  unfold read_begin. rewrite (trylock_key_some _ _ _ k) by (done || apply Hq). simpl. rewrite Hk. simpl.
  pose proof (section_begin w h k Hk Hq (iv_sets _ _ Hi)) as Hin.
  set (w1 := locked this _ w) in *.
  assert (Hg : grows 1 h w w1) by by apply grows_refl.
  destruct (k_closing k) eqn:Hc; [by apply section_return|].
  destruct (iv_fd _ _ Hi h k) as [Hfd _]; [done|].
  assert (Hop : forall o, o ∈ op_lists k -> has_op w1 o).
  { intros o Ho. apply (iv_ops _ _ Hi h k); [apply elem_of_app; by left|done..]. }
  destruct (k_accept k) as [|o rest] eqn:Hl.
  - destruct (k_read k) as [|o rest] eqn:Hlr; [by apply section_return|].
    apply read_first_ok; try done. apply Hop. unfold op_lists. rewrite Hlr. set_solver.
  - apply accept_first_ok; try done. apply Hop. unfold op_lists. rewrite Hl. set_solver.
Qed.

(** *** Callbacks that were put off *)

(** One turn: the operation whose callback is due is taken from its list. *)
Definition turn_ok (len : pj_ioqueue_key_t -> nat) (w : world S) (h : Z) (r : option (world S * option Z)) : Prop :=
  exists w' o, r = Some (w', o) /\ touch h w w' /\ grows 0 h w w' /\ w_locks w' = w_locks w /\
    forall o', o = Some o' -> has_op w' o' /\
      forall k k', w_keys w !! h = Some k -> w_keys w' !! h = Some k' -> (len k' < len k)%nat.

Lemma turn_return len w0 h w o :
  in_section w0 h w -> grows 0 h w0 w ->
  (forall o', o = Some o' -> has_op w o' /\
      forall k k', w_keys w0 !! h = Some k -> w_keys w !! h = Some k' -> (len k' < len k)%nat) ->
  turn_ok len w0 h (w ← pj_ioqueue_unlock_key this w h; Some (w, o)).
Proof.
  intros Hin Hg Ho. destruct (section_end _ _ _ Hin) as [-> Ht]. simpl.
  do 2 eexists. split; [done|]. split_and!; done.
Qed.

Lemma next_write_cb_ok held w h m c :
  ioq_inv held w -> quiet this w -> h ∈ q_active (w_q w) ->
  turn_ok (fun k => length (k_write_cb k)) w h (next_write_cb this w h m c).
Proof.
  intros Hi Hq Ha. destruct (iv_keys _ _ Hi h) as [k Hk]; [apply elem_of_app; by left|].
  unfold next_write_cb. rewrite (lock_key_some _ _ _ k) by (done || apply Hq). simpl. rewrite Hk. simpl.
  pose proof (section_begin w h k Hk Hq (iv_sets _ _ Hi)) as Hin. set (w1 := locked this _ w) in *.
  assert (Hstop : turn_ok (fun k => length (k_write_cb k)) w h
    (w2 ← upd_key w1 h (set_k_write_thread None); w2 ← pj_ioqueue_unlock_key this w2 h; Some (w2, None))).
  { destruct (section_upd_key w h w1 k (set_k_write_thread None) Hin Hk) as [-> Hin1]; [done|by left|].
    simpl. apply turn_return; try done.
    eapply grows_key; [done|simpl; by rewrite lookup_insert_eq|..]; simpl; lia. }
  destruct (k_write_cb k) as [|o rest] eqn:Hl; [done|]. destruct (_ || _); [|done].
  destruct (section_upd_key w h w1 k (set_k_write_cb rest) Hin Hk) as [-> Hin1]; [done| |].
  { intros o' Ho'. left. unfold op_lists in *. simpl in *. rewrite !elem_of_app, Hl, elem_of_cons in *. naive_solver. }
  simpl. apply turn_return; try done.
  - eapply grows_key; [done|simpl; by rewrite lookup_insert_eq|..]; simpl; rewrite ?Hl; simpl; lia.
  - intros o' Ho'. destruct (on_write_complete _); [|done]. injection Ho' as <-. split.
    + apply (iv_ops _ _ Hi h k); [apply elem_of_app; by left|done|]. unfold op_lists. rewrite Hl. set_solver.
    + intros k1 k2 E1 E2. simpl in E2. rewrite lookup_insert_eq in E2. simplify_eq. simpl. rewrite Hl. simpl. lia.
Qed.

Lemma next_read_cb_ok held w h m c :
  ioq_inv held w -> quiet this w -> h ∈ q_active (w_q w) ->
  turn_ok (fun k => length (k_read_cb k)) w h (next_read_cb this w h m c).
Proof.
  intros Hi Hq Ha. destruct (iv_keys _ _ Hi h) as [k Hk]; [apply elem_of_app; by left|].
  unfold next_read_cb. rewrite (lock_key_some _ _ _ k) by (done || apply Hq). simpl. rewrite Hk. simpl.
  pose proof (section_begin w h k Hk Hq (iv_sets _ _ Hi)) as Hin. set (w1 := locked this _ w) in *.
  assert (Hstop : turn_ok (fun k => length (k_read_cb k)) w h
    (w2 ← upd_key w1 h (set_k_read_thread None); w2 ← pj_ioqueue_unlock_key this w2 h; Some (w2, None))).
  { destruct (section_upd_key w h w1 k (set_k_read_thread None) Hin Hk) as [-> Hin1]; [done|by left|].
    simpl. apply turn_return; try done.
    eapply grows_key; [done|simpl; by rewrite lookup_insert_eq|..]; simpl; lia. }
  destruct (k_read_cb k) as [|o rest] eqn:Hl; [done|]. destruct (_ && _); [|done].
  destruct (section_upd_key w h w1 k (set_k_read_cb rest) Hin Hk) as [-> Hin1]; [done| |].
  { intros o' Ho'. left. unfold op_lists in *. simpl in *. rewrite !elem_of_app, Hl, elem_of_cons in *. naive_solver. }
  simpl. apply turn_return; try done.
  - eapply grows_key; [done|simpl; by rewrite lookup_insert_eq|..]; simpl; rewrite ?Hl; simpl; lia.
  - intros o' Ho'. destruct (on_read_complete _); [|done]. injection Ho' as <-. split.
    + apply (iv_ops _ _ Hi h k); [apply elem_of_app; by left|done|]. unfold op_lists. rewrite Hl. set_solver.
    + intros k1 k2 E1 E2. simpl in E2. rewrite lookup_insert_eq in E2. simplify_eq. simpl. rewrite Hl. simpl. lia.
Qed.
End Sections.
