(* ===== verification/IoQueuePoll.v ===== *)
(** * Polling

    A poll returns whatever the callbacks do within their contract, keeps the
    invariant, and gives back every lock and every reference it takes. *)
From S2P Require Import Prelude TimeVal SockBsd IoQueueData IoQueue IoQueueInv IoQueueDispatch.

Section Keeps.
Context `{!SystemConstants} {S : Type}.
Implicit Types (w : world S).

(** What a part of a poll leaves of the state before it. *)
Record keeps (m : nat) (held : Z -> Z) (w w' : world S) : Prop := {
  kp_inv : ioq_inv held w';
  kp_locks : w_locks w' = w_locks w;
  kp_grp h k : 0 < held h -> w_keys w !! h = Some k ->
    exists k', w_keys w' !! h = Some k' /\ k_grp k' = k_grp k;
  kp_dom h : is_Some (w_keys w !! h) -> is_Some (w_keys w' !! h);
  kp_new h : is_Some (w_keys w' !! h) -> is_Some (w_keys w !! h);
  kp_grow h : grows m h w w'
}.

Lemma keeps_trans m1 m2 held w1 w2 w3 :
  keeps m1 held w1 w2 -> keeps m2 held w2 w3 -> keeps (m1 + m2) held w1 w3.
Proof.
  intros [I1 L1 G1 D1 N1 B1] [I2 L2 G2 D2 N2 B2]. split; [done|congruence|..].
  - intros h k Hh Hk. destruct (G1 h k Hh Hk) as (k' & Hk' & E).
    destruct (G2 h k' Hh Hk') as (k'' & ? & ?). exists k''. split; congruence.
  - auto.
  - auto.
  - intros h k1 k3 H1 H3. destruct (D1 h) as [k2 H2]; [by eauto|].
    destruct (B1 h k1 k2 H1 H2), (B2 h k2 k3 H2 H3). lia.
Qed.

Lemma keeps_mono m m' held w w' : (m <= m')%nat -> keeps m held w w' -> keeps m' held w w'.
Proof.
  intros Hm [I L G D N B]. split; try done. intros h k k' H1 H2. destruct (B h k k' H1 H2). lia.
Qed.

Lemma keeps_refl held w : ioq_inv held w -> keeps 0 held w w.
Proof. split; try done; [by eauto|]. intros h k k' H1 H2. simplify_eq. lia. Qed.

Lemma keeps_touch m held h w w' :
  ioq_inv held w -> h ∈ q_active (w_q w) -> touch h w w' -> grows m h w w' -> w_locks w' = w_locks w ->
  keeps m held w w'.
Proof.
  intros Hi Ha Ht Hg Hl. split; [by eapply inv_touch; [|left|]|done|..].
  - intros h' k _ Hk. destruct (touch_lookup_back _ _ _ _ _ Ht Hk) as (k' & ? & _ & _ & _ & ?). eauto.
  - intros h' [k Hk]. destruct (touch_lookup_back _ _ _ _ _ Ht Hk) as (k' & ? & _). eauto.
  - intros h' [k Hk]. destruct (touch_lookup _ _ _ _ _ Ht Hk) as (k' & ? & _). eauto.
  - intros h' k1 k2 H1 H2. destruct (tc_keys _ _ _ Ht) as (k & k' & Hk & Hm & _).
    destruct (decide (h' = h)) as [->|]; [by apply Hg|].
    rewrite Hm, lookup_insert_ne in H2 by done. simplify_eq. lia.
Qed.
End Keeps.

(** ** The contract of the application

    A callback returns, leaves the queue in order and the locks as they were,
    and does not put callbacks off: one thread polls, and does not poll again
    from inside a callback.  What the other threads do meanwhile keeps the same
    invariant. *)
Record WellBehaved `{!SystemConstants} {S : Type} (this : Z)
    (app : callback -> world S -> option (world S)) (others : world S -> world S) : Prop := {
  wb_app c held w : ioq_inv held w -> quiet this w -> exists w', app c w = Some w' /\ keeps 0 held w w';
  wb_others held w : ioq_inv held w -> quiet this w -> keeps 0 held w (others w)
}.

Section Poll.
Context `{!SystemConstants} {S : Type} `{!SystemSockets S} (this : Z).
Context (app : callback -> world S -> option (world S)) (others : world S -> world S).
Context (Hwb : WellBehaved this app others).
Implicit Types (w : world S).

Lemma keeps_quiet m held w w' : keeps m held w w' -> quiet this w -> quiet this w'.
Proof. intros [_ Hl _ _ _ _]. by apply quiet_ext. Qed.

Lemma held_active held w h : ioq_inv held w -> 0 < held h -> h ∈ q_active (w_q w).
Proof. intros Hi Hh. by apply (iv_held _ _ Hi). Qed.

Lemma held_key held w h : ioq_inv held w -> 0 < held h -> exists k, w_keys w !! h = Some k.
Proof.
  intros Hi Hh. apply (iv_keys _ _ Hi). apply elem_of_app. left. by eapply held_active.
Qed.

Lemma inv_calls held w c : ioq_inv held w -> ioq_inv held (set_w_calls c w).
Proof. by intros []. Qed.

Lemma call_ok held w c : ioq_inv held w -> quiet this w ->
  exists w', call app c w = Some w' /\ keeps 0 held w w'.
Proof.
  intros Hi Hq. destruct (wb_app _ _ _ Hwb c held (set_w_calls (c :: w_calls w) w)) as (w' & E & [I L G D N B]);
    [by apply inv_calls|done|].
  exists w'. split; [done|]. by split.
Qed.

(** A callback that is made only under a condition. *)
Lemma maybe_call_ok held w (b : bool) c : ioq_inv held w -> quiet this w ->
  exists w', (if b then call app c w else Some w) = Some w' /\ keeps 0 held w w'.
Proof. intros Hi Hq. destruct b; [by apply call_ok|]. exists w. split; [done|]. by apply keeps_refl. Qed.

(** *** The loops over callbacks put off *)

Lemma write_loop_ok held h m fuel : 0 < held h -> forall w c k,
  ioq_inv held w -> quiet this w -> w_keys w !! h = Some k -> (length (k_write_cb k) < fuel)%nat ->
  exists cnt w', ioqueue_dispatch_write_event_no_lock this app fuel w h m c = Some (cnt, w') /\ keeps 0 held w w'.
Proof.
  intros Hh. induction fuel as [|fuel IH]; intros w c k Hi Hq Hk Hf; [lia|]. simpl.
  pose proof (held_active _ _ _ Hi Hh) as Ha.
  destruct (next_write_cb_ok this held w h m c Hi Hq Ha) as (w1 & o & -> & Ht & Hg & Hl & Ho). simpl.
  pose proof (keeps_touch _ _ _ _ _ Hi Ha Ht Hg Hl) as K1.
  destruct o as [o|]; [|by eauto]. destruct (Ho o eq_refl) as [[r Hr] Hlen]. rewrite Hr. simpl.
  destruct (call_ok held w1 (OnWrite h o (o_written r)) (kp_inv _ _ _ _ K1) (keeps_quiet _ _ _ _ K1 Hq))
    as (w2 & -> & K2). simpl.
  destruct (kp_dom _ _ _ _ K1 h) as [k1 Hk1]; [eauto|]. destruct (kp_dom _ _ _ _ K2 h) as [k2 Hk2]; [eauto|].
  destruct (IH w2 (c + 1) k2) as (cnt & w' & -> & K3).
  - apply (kp_inv _ _ _ _ K2).
  - eapply keeps_quiet, keeps_quiet; eauto.
  - done.
  - destruct (kp_grow _ _ _ _ K2 h k1 k2 Hk1 Hk2). specialize (Hlen k k1 Hk Hk1). lia.
  - do 2 eexists. split; [done|]. exact (keeps_trans 0 0 _ _ _ _ (keeps_trans 0 0 _ _ _ _ K1 K2) K3).
Qed.

Lemma read_loop_ok held h m fuel : 0 < held h -> forall w c k,
  ioq_inv held w -> quiet this w -> w_keys w !! h = Some k -> (length (k_read_cb k) < fuel)%nat ->
  exists cnt w', ioqueue_dispatch_read_event_no_lock this app fuel w h m c = Some (cnt, w') /\ keeps 0 held w w'.
Proof.
  intros Hh. induction fuel as [|fuel IH]; intros w c k Hi Hq Hk Hf; [lia|]. simpl.
  pose proof (held_active _ _ _ Hi Hh) as Ha.
  destruct (next_read_cb_ok this held w h m c Hi Hq Ha) as (w1 & o & -> & Ht & Hg & Hl & Ho). simpl.
  pose proof (keeps_touch _ _ _ _ _ Hi Ha Ht Hg Hl) as K1.
  destruct o as [o|]; [|by eauto]. destruct (Ho o eq_refl) as [[r Hr] Hlen]. rewrite Hr. simpl.
  destruct (call_ok held w1 (OnRead h o (o_bytes_read r)) (kp_inv _ _ _ _ K1) (keeps_quiet _ _ _ _ K1 Hq))
    as (w2 & -> & K2). simpl.
  destruct (kp_dom _ _ _ _ K1 h) as [k1 Hk1]; [eauto|]. destruct (kp_dom _ _ _ _ K2 h) as [k2 Hk2]; [eauto|].
  destruct (IH w2 (c + 1) k2) as (cnt & w' & -> & K3).
  - apply (kp_inv _ _ _ _ K2).
  - eapply keeps_quiet, keeps_quiet; eauto.
  - done.
  - destruct (kp_grow _ _ _ _ K2 h k1 k2 Hk1 Hk2). specialize (Hlen k k1 Hk Hk1). lia.
  - do 2 eexists. split; [done|]. exact (keeps_trans 0 0 _ _ _ _ (keeps_trans 0 0 _ _ _ _ K1 K2) K3).
Qed.

(** ** The dispatch of one event *)

(** Enough turns for the callbacks put off by the key. *)
Definition enough (fuel : nat) (w : world S) (h : Z) : Prop := forall k, w_keys w !! h = Some k ->
  (length (k_read_cb k) + 1 < fuel /\ length (k_write_cb k) + 1 < fuel)%nat.

Lemma dispatch_write_ok held w h fuel :
  ioq_inv held w -> quiet this w -> 0 < held h -> enough fuel w h ->
  exists b w', ioqueue_dispatch_write_event this app fuel w h = Some (b, w') /\ keeps 1 held w w'.
Proof.
  intros Hi Hq Hh Hf. pose proof (held_active _ _ _ Hi Hh) as Ha.
  destruct (held_key _ _ _ Hi Hh) as [k Hk].
  unfold ioqueue_dispatch_write_event.
  destruct (write_begin_ok this held w h Hi Hq Ha) as (w1 & n & -> & Ht & Hg & Hl & Hn). simpl.
  pose proof (keeps_touch _ _ _ _ _ Hi Ha Ht Hg Hl) as K1.
  pose proof (kp_inv _ _ _ _ K1) as Hi1. pose proof (keeps_quiet _ _ _ _ K1 Hq) as Hq1.
  destruct (kp_dom _ _ _ _ K1 h) as [k1 Hk1]; [eauto|]. destruct n as [b|st|o|?|?]; try done; [by eauto|..].
  - rewrite Hk1. simpl. destruct (maybe_call_ok held w1 (on_connect_complete (k_cb k1) && negb (k_closing k1))
      (OnConnect h st) Hi1 Hq1) as (w2 & -> & K2). simpl.
    do 2 eexists. split; [done|]. exact (keeps_trans 1 0 _ _ _ _ K1 K2).
  - rewrite Hk1. simpl. destruct Hn as [r Hr]. rewrite Hr. simpl.
    destruct (maybe_call_ok held w1 (on_write_complete (k_cb k1)) (OnWrite h o (o_written r)) Hi1 Hq1)
      as (w2 & -> & K2). simpl.
    destruct (kp_dom _ _ _ _ K2 h) as [k2 Hk2]; [eauto|].
    destruct (write_loop_ok held h 0 fuel Hh w2 0 k2) as (c & w3 & -> & K3); simpl.
    + apply (kp_inv _ _ _ _ K2).
    + by eapply keeps_quiet.
    + done.
    + destruct (Hg k k1 Hk Hk1), (kp_grow _ _ _ _ K2 h k1 k2 Hk1 Hk2), (Hf k Hk). lia.
    + do 2 eexists. split; [done|]. exact (keeps_trans 1 0 _ _ _ _ (keeps_trans 1 0 _ _ _ _ K1 K2) K3).
Qed.

(** A callback made inside of a section, as when concurrency is not allowed. *)
Lemma section_callback held w0 h w w' :
  ioq_inv held w0 -> 0 < held h -> in_section this w0 h w -> keeps 0 held w w' ->
  pj_ioqueue_unlock_key this w' h = Some (set_w_locks (w_locks w0) w') .
Proof.
  intros Hi Hh Hin K. pose proof Hin as [Ht Hq _ (k0 & Hk0 & Hl)].
  destruct (section_key _ _ _ _ _ Hin Hk0) as (k & Hk & Hc).
  destruct (kp_grp _ _ _ _ K h k Hh Hk) as (k' & Hk' & Hg).
  apply (unlock_key_some this w0 w' h k' k0); try done.
  - rewrite Hg. by destruct Hc as (_ & _ & _ & ?).
  - by rewrite (kp_locks _ _ _ _ K).
Qed.

Lemma keeps_locks m held w w' L :
  keeps m held w w' -> L = w_locks w -> keeps m held w (set_w_locks L w').
Proof. intros [[] ? ? ? ? ?] ->. by split. Qed.

(** The callbacks in a section keep what was before it. *)
Lemma keeps_section m held w0 h w w' :
  ioq_inv held w0 -> h ∈ q_active (w_q w0) -> in_section this w0 h w -> grows m h w0 w -> keeps 0 held w w' ->
  keeps m held w0 (set_w_locks (w_locks w0) w').
Proof.
  intros Hi Ha Hin Hg K. pose proof (is_touch _ _ _ _ Hin) as Ht.
  assert (K0 : keeps m held w0 (set_w_locks (w_locks w0) w)).
  { apply (keeps_touch _ _ h); try done. eapply touch_trans; [exact Ht|].
    destruct (tc_keys _ _ _ Ht) as (k & k' & _ & Hk & _). eapply (touch_rest _ _ _ k'); try done.
    by rewrite Hk, lookup_insert_eq. }
  assert (K1 : keeps 0 held (set_w_locks (w_locks w0) w) (set_w_locks (w_locks w0) w')).
  { destruct K as [[] ? ? ? ? ?]. by split. }
  pose proof (keeps_trans _ _ _ _ _ _ K0 K1) as K2. by rewrite Nat.add_0_r in K2.
Qed.

Lemma dispatch_read_ok held w h fuel :
  ioq_inv held w -> quiet this w -> 0 < held h -> enough fuel w h ->
  exists b w', ioqueue_dispatch_read_event this app fuel w h = Some (b, w') /\ keeps 1 held w w'.
Proof.
  intros Hi Hq Hh Hf. pose proof (held_active _ _ _ Hi Hh) as Ha.
  destruct (held_key _ _ _ Hi Hh) as [k Hk].
  unfold ioqueue_dispatch_read_event.
  destruct (read_begin_ok this held w h Hi Hq Ha) as (w1 & n & -> & Ht & Hg & Hn). simpl.
  assert (Hi1 : ioq_inv held w1) by (eapply inv_touch; [exact Hi|by left|exact Ht]).
  destruct (touch_lookup_back _ _ _ _ _ Ht Hk) as (k1 & Hk1 & _).
  destruct n as [b|st|o|o rc has_lock|o b]; try done.
  - do 2 eexists. split; [done|]. by apply (keeps_touch _ _ h).
  - destruct Hn as [(r & Hr & [sock Hs]) Hlk]. rewrite Hk1. simpl. rewrite Hr. simpl. rewrite Hs.
    assert (Hq1 : quiet this w1).
    { destruct has_lock; [by eapply section_quiet|by eapply quiet_ext]. }
    assert (H2 : exists w2, (if on_accept_complete (k_cb k1) && negb (k_closing k1)
      then sock ← Some sock; call app (OnAccept h o sock rc) w1 else Some w1) = Some w2 /\ keeps 0 held w1 w2).
    { simpl. by apply maybe_call_ok. }
    destruct H2 as (w2 & -> & K2). simpl. destruct has_lock.
    + rewrite (section_callback held w h w1 w2) by done. simpl. do 2 eexists. split; [done|].
      by apply (keeps_section _ _ _ h w1).
    + do 2 eexists. split; [done|]. apply (keeps_trans 1 0 _ _ w1); [|done]. by apply (keeps_touch _ _ h).
  - destruct Hn as [[r Hr] Hl]. pose proof (keeps_touch _ _ _ _ _ Hi Ha Ht Hg Hl) as K1.
    pose proof (keeps_quiet _ _ _ _ K1 Hq) as Hq1. rewrite Hk1. simpl. rewrite Hr. simpl.
    destruct (maybe_call_ok held w1 (negb (k_closing k1) && b) (OnRead h o (o_bytes_read r)) Hi1 Hq1)
      as (w2 & -> & K2). simpl.
    destruct (kp_dom _ _ _ _ K2 h) as [k2 Hk2]; [eauto|].
    destruct (read_loop_ok held h 0 fuel Hh w2 0 k2) as (c & w3 & -> & K3); simpl.
    + apply (kp_inv _ _ _ _ K2).
    + by eapply keeps_quiet.
    + done.
    + destruct (Hg k k1 Hk Hk1), (kp_grow _ _ _ _ K2 h k1 k2 Hk1 Hk2), (Hf k Hk). lia.
    + do 2 eexists. split; [done|]. exact (keeps_trans 1 0 _ _ _ _ (keeps_trans 1 0 _ _ _ _ K1 K2) K3).
Qed.

Lemma inv_sys held w s : ioq_inv held w -> ioq_inv held (set_w_sys s w).
Proof. by intros []. Qed.

Lemma keeps_sys held w w' s : keeps 0 held (set_w_sys s w) w' -> keeps 0 held w w'.
Proof. intros [? ? ? ? ? ?]. by split. Qed.

(** The callback for a failed connection. *)
Lemma exception_callback_ok held w h k : ioq_inv held w -> quiet this w ->
  exists w', (if on_connect_complete (k_cb k) && negb (k_closing k) then
         let '(gs_rc, value, s) := pj_sock_getsockopt (w_sys w) (k_fd k) SO_ERROR in
         call app (OnConnect h (if gs_rc =? 0 then PJ_RETURN_OS_ERROR value else -1)) (set_w_sys s w)
       else Some w) = Some w' /\ keeps 0 held w w'.
Proof.
  intros Hi Hq. destruct (_ && _); [|exists w; split; [done|by apply keeps_refl]].
  destruct (pj_sock_getsockopt _ _ _) as [[gs_rc value] s].
  destruct (call_ok held (set_w_sys s w) (OnConnect h (if gs_rc =? 0 then PJ_RETURN_OS_ERROR value else -1)))
    as (w' & E & K); [by apply inv_sys|done|].
  exists w'. split; [done|]. by eapply keeps_sys.
Qed.

Lemma dispatch_exception_ok held w h :
  ioq_inv held w -> quiet this w -> 0 < held h ->
  exists b w', ioqueue_dispatch_exception_event this app w h = Some (b, w') /\ keeps 0 held w w'.
Proof.
  intros Hi Hq Hh. pose proof (held_active _ _ _ Hi Hh) as Ha.
  destruct (held_key _ _ _ Hi Hh) as [k Hk].
  unfold ioqueue_dispatch_exception_event.
  rewrite (trylock_key_some _ _ _ k) by (done || apply Hq). simpl. rewrite Hk. simpl.
  pose proof (section_begin this w h k Hk Hq (iv_sets _ _ Hi)) as Hin. set (w1 := locked this _ w) in *.
  assert (Hret : exists b w', (w2 ← pj_ioqueue_unlock_key this w1 h; Some (true, w2)) = Some (b, w') /\ keeps 0 held w w').
  { destruct (section_end _ _ _ _ Hin) as [-> Ht]. simpl. do 2 eexists. split; [done|].
    apply (keeps_touch _ _ h); try done. by apply grows_refl. }
  destruct (k_connecting k); [|done]. simpl. destruct (k_closing k) eqn:Hc; [done|].
  destruct (iv_fd _ _ Hi h k) as [Hfd _]; [done|].
  destruct (section_upd_key this w h w1 k (set_k_connecting false) Hin Hk) as [-> Hin2]; [done|by left|]. simpl.
  destruct (section_remove this w h _ (set_k_connecting false k) (Z.lor WRITEABLE_EVENT EXCEPTION_EVENT) Hin2)
    as [-> Hin3]; [simpl; by rewrite lookup_insert_eq|done|]. simpl.
  set (w3 := set_w_q _ _) in *. set (k3 := set_k_connecting false k).
  assert (Hk3 : w_keys w3 !! h = Some k3) by (simpl; by rewrite lookup_insert_eq).
  assert (Hg : grows 0 h w w3) by (eapply grows_key; [done..| |]; simpl; lia).
  assert (Hi3 : ioq_inv held w3) by (eapply inv_touch; [exact Hi|by left|apply (is_touch _ _ _ _ Hin3)]).
  destruct (k_conc k); cbn [negb].
  - destruct (section_end _ _ _ _ Hin3) as [-> Ht]. bind_step. set (w4 := set_w_locks (w_locks w) w3) in *.
    pose proof (keeps_touch _ _ _ _ w4 Hi Ha Ht Hg eq_refl) as K4.
    assert (Hk4 : w_keys w4 !! h = Some k3) by done. rewrite Hk4. bind_step.
    destruct (exception_callback_ok held w4 h k3 (kp_inv _ _ _ _ K4) (keeps_quiet _ _ _ _ K4 Hq)) as (w5 & E & K5).
    rewrite E. bind_step. bind_step. do 2 eexists. split; [done|]. exact (keeps_trans 0 0 _ _ _ _ K4 K5).
  - bind_step. rewrite Hk3. bind_step.
    destruct (exception_callback_ok held w3 h k3 Hi3 (section_quiet _ _ _ _ Hin3)) as (w5 & E & K5).
    rewrite E. bind_step. rewrite (section_callback held w h w3 w5) by done. bind_step.
    do 2 eexists. split; [done|]. by apply (keeps_section _ _ _ h w3).
Qed.
End Poll.
