(* ===== verification/IoQueueKeys.v ===== *)
(** * The life of a key

    The reference counters, the list a key is in, and how registration,
    unregistration and the passing of time move it between the lists. *)
From S2P Require Import Prelude TimeVal SockBsd IoQueueData IoQueue IoQueueInv IoQueueDispatch IoQueuePoll.

(** One key has [d] more references. *)
Definition bump (held : Z -> Z) (h d : Z) : Z -> Z := fun x => if x =? h then held h + d else held x.

Lemma bump_same held h d : bump held h d h = held h + d.
Proof. unfold bump. by rewrite Z.eqb_refl. Qed.

Lemma bump_other held h d x : x <> h -> bump held h d x = held x.
Proof. intros. unfold bump. by destruct (Z.eqb_spec x h). Qed.

Section Keys.
Context `{!SystemConstants} {S : Type} `{!SystemSockets S} (this : Z).
Implicit Types (w : world S) (k : pj_ioqueue_key_t).

(** The counts and lists of the invariant depend on these members only. *)
Lemma inv_ext held held' w w' :
  (forall x, held x = held' x) -> w_keys w' = w_keys w -> w_q w' = w_q w -> w_ops w' = w_ops w ->
  (forall g, is_Some (w_grp w !! g) -> is_Some (w_grp w' !! g)) -> ioq_inv held w -> ioq_inv held' w'.
Proof.
  intros Eh Ek Eq Eo Eg [H1 H2 H3 H4 H5 H6 H7 H8 H9 H10 H11 H12 H13 H14].
  split; unfold live_key, is_live in *; rewrite ?Ek, ?Eq, ?Eo; try done.
  - intros h k Ha Hk. rewrite <-Eh. by apply H4.
  - intros h. rewrite <-Eh. apply H10.
  - intros h k g Ha Hk Hg. apply Eg. by eapply H13.
Qed.

Lemma inv_held_ext held held' w : (forall x, held x = held' x) -> ioq_inv held w -> ioq_inv held' w.
Proof. intros E Hi. refine (inv_ext _ _ _ _ E _ _ _ _ Hi); done. Qed.

(** What has to hold of one key for the invariant, [live] whether it is
    registered and open. *)
Record key_ok (held : Z -> Z) (w : world S) (h : Z) (k : pj_ioqueue_key_t) : Prop := {
  ko_ref : h ∈ q_active (w_q w) -> k_ref k = (if k_closing k then 0 else 1) + held h /\ 0 < k_ref k < 2 ^ 32;
  ko_idle : h ∈ q_closing (w_q w) ++ q_free (w_q w) -> k_ref k = 0;
  ko_closed : h ∈ q_closing (w_q w) -> k_closing k = true;
  ko_fd : h ∈ q_active (w_q w) -> k_closing k = false -> 0 <= k_fd k < FD_SETSIZE;
  ko_dead : h ∈ q_active (w_q w) ++ q_closing (w_q w) -> k_closing k = true -> k_fd k = PJ_INVALID_SOCKET;
  ko_held : 0 <= held h /\ (0 < held h -> h ∈ q_active (w_q w));
  ko_grp g : h ∈ q_active (w_q w) ++ q_closing (w_q w) -> k_grp k = Some g -> is_Some (w_grp w !! g);
  ko_ops o : h ∈ q_active (w_q w) ++ q_closing (w_q w) -> o ∈ op_lists k -> is_Some (w_ops w !! o)
}.

Lemma inv_key_ok held w h k : ioq_inv held w -> w_keys w !! h = Some k -> key_ok held w h k.
Proof.
  intros Hi Hk. split; intros.
  - by apply (iv_ref _ _ Hi).
  - by apply (iv_idle _ _ Hi h).
  - by apply (iv_closed _ _ Hi h).
  - by apply (iv_fd _ _ Hi h).
  - by apply (iv_dead _ _ Hi h).
  - apply (iv_held _ _ Hi).
  - by apply (iv_grp _ _ Hi h k).
  - by apply (iv_ops _ _ Hi h k).
Qed.

(** The same keys, but for [h], in a list. *)
Definition same_but (h : Z) (l l' : list Z) : Prop := forall x, x <> h -> x ∈ l' <-> x ∈ l.

(** A change of one key and of the list it is in. *)
Lemma inv_change held held' w w' h k' :
  ioq_inv held w -> w_keys w' = <[h := k']> (w_keys w) -> w_ops w' = w_ops w ->
  (forall g, is_Some (w_grp w !! g) -> is_Some (w_grp w' !! g)) ->
  (forall x, x <> h -> held' x = held x) -> sets_ok (w_q w') -> NoDup (all_keys (w_q w')) ->
  same_but h (q_active (w_q w)) (q_active (w_q w')) -> same_but h (q_closing (w_q w)) (q_closing (w_q w')) ->
  same_but h (q_free (w_q w)) (q_free (w_q w')) ->
  key_ok held' w' h k' ->
  (forall x k, live_key w' x k -> k_fd k <= q_nfds (w_q w')) ->
  (forall x k, x <> h -> live_key w x k -> live_key w' h k' -> k_fd k <> k_fd k') ->
  (forall fd, fd ∈ watched_fds (w_q w') ->
    (exists x k, x <> h /\ live_key w x k /\ k_fd k = fd) \/ live_key w' h k' /\ fd = k_fd k') ->
  q_count (w_q w') = Z.of_nat (length (filter (is_live w') (q_active (w_q w')))) ->
  ioq_inv held' w'.
Proof.
  intros Hi Ek Eo Eg Eh Hs Hnd Ba Bc Bf [K1 K2 K3 K4 K5 K6 K7 K8] Hn Hdis Hwa Hct.
  assert (Hne : forall x, x <> h -> w_keys w' !! x = w_keys w !! x).
  { intros x Hx. by rewrite Ek, lookup_insert_ne. }
  assert (Hh : forall k, w_keys w' !! h = Some k -> k = k').
  { intros k. rewrite Ek, lookup_insert_eq. congruence. }
  assert (Hlive : forall x k, x <> h -> live_key w' x k <-> live_key w x k).
  { intros x k Hx. unfold live_key. by rewrite (Hne x Hx), (Ba x Hx). }
  assert (Bac : same_but h (q_active (w_q w) ++ q_closing (w_q w)) (q_active (w_q w') ++ q_closing (w_q w'))).
  { intros x Hx. by rewrite !elem_of_app, (Ba x Hx), (Bc x Hx). }
  assert (Bcf : same_but h (q_closing (w_q w) ++ q_free (w_q w)) (q_closing (w_q w') ++ q_free (w_q w'))).
  { intros x Hx. by rewrite !elem_of_app, (Bc x Hx), (Bf x Hx). }
  split; try done.
  - intros x Hx. destruct (decide (x = h)) as [->|Hxh]; [rewrite Ek, lookup_insert_eq; eauto|].
    rewrite (Hne x Hxh). apply (iv_keys _ _ Hi). unfold all_keys in *.
    rewrite !elem_of_app, (Ba x Hxh), (Bc x Hxh), (Bf x Hxh) in Hx. by rewrite !elem_of_app.
  - intros x k Hx Hk. destruct (decide (x = h)) as [->|Hxh]; [rewrite (Hh k Hk); auto|].
    rewrite (Hne x Hxh) in Hk. rewrite (Ba x Hxh) in Hx. rewrite (Eh x Hxh). by apply (iv_ref _ _ Hi).
  - intros x k Hx Hk. destruct (decide (x = h)) as [->|Hxh]; [rewrite (Hh k Hk); auto|].
    rewrite (Hne x Hxh) in Hk. rewrite (Bcf x Hxh) in Hx. by apply (iv_idle _ _ Hi x).
  - intros x k Hx Hk. destruct (decide (x = h)) as [->|Hxh]; [rewrite (Hh k Hk); auto|].
    rewrite (Hne x Hxh) in Hk. rewrite (Bc x Hxh) in Hx. by apply (iv_closed _ _ Hi x).
  - intros x k Hx. split; [|by apply (Hn x)]. destruct (decide (x = h)) as [->|Hxh].
    + destruct Hx as (? & Hk & ?). rewrite (Hh k Hk) in *. auto.
    + apply (Hlive x k Hxh) in Hx. by apply (iv_fd _ _ Hi x).
  - intros x k Hx Hk. destruct (decide (x = h)) as [->|Hxh]; [rewrite (Hh k Hk); auto|].
    rewrite (Hne x Hxh) in Hk. rewrite (Bac x Hxh) in Hx. by apply (iv_dead _ _ Hi x).
  - intros x1 k1 x2 k2 L1 L2 E. destruct (decide (x1 = h)) as [->|N1], (decide (x2 = h)) as [->|N2]; try done.
    + exfalso. pose proof L1 as (_ & Hk1 & _). rewrite (Hh k1 Hk1) in *.
      by apply (Hdis x2 k2 N2 (proj1 (Hlive x2 k2 N2) L2) L1).
    + exfalso. pose proof L2 as (_ & Hk2 & _). rewrite (Hh k2 Hk2) in *.
      by apply (Hdis x1 k1 N1 (proj1 (Hlive x1 k1 N1) L1) L2).
    + apply (iv_distinct _ _ Hi x1 k1 x2 k2); try done; by apply Hlive.
  - intros x. destruct (decide (x = h)) as [->|Hxh]; [done|]. rewrite (Eh x Hxh), (Ba x Hxh). apply (iv_held _ _ Hi).
  - intros fd Hfd. destruct (Hwa fd Hfd) as [(x & k & Hx & Hl & E)|[Hl ->]]; [|by exists h, k'].
    exists x, k. split; [by apply Hlive|done].
  - intros x k g Hx Hk Hg. destruct (decide (x = h)) as [->|Hxh]; [rewrite (Hh k Hk) in *; by eapply K7|].
    rewrite (Hne x Hxh) in Hk. rewrite (Bac x Hxh) in Hx. by apply Eg, (iv_grp _ _ Hi x k).
  - intros x k o Hx Hk Ho. destruct (decide (x = h)) as [->|Hxh]; [rewrite (Hh k Hk) in *; by eapply K8|].
    rewrite (Hne x Hxh) in Hk. rewrite (Bac x Hxh) in Hx. rewrite Eo. by apply (iv_ops _ _ Hi x k).
Qed.

Lemma same_but_refl h l : same_but h l l.
Proof. by intros x _. Qed.

Lemma is_live_other w w' h k' x : w_keys w' = <[h := k']> (w_keys w) -> x <> h -> is_live w' x = is_live w x.
Proof. intros E Hx. unfold is_live. by rewrite E, lookup_insert_ne. Qed.

Lemma filter_live_ext w w' (l : list Z) :
  (forall x, x ∈ l -> is_live w' x = is_live w x) -> filter (is_live w') l = filter (is_live w) l.
Proof.
  induction l as [|x l IH]; intros Hx; [done|]. rewrite !filter_cons, (Hx x) by (by left).
  rewrite IH by (intros; apply Hx; by right). done.
Qed.

(** Another reference count, of a key that stays in use. *)
Lemma inv_ref held w h k d :
  ioq_inv held w -> h ∈ q_active (w_q w) -> w_keys w !! h = Some k -> 0 <= held h + d -> 0 < k_ref k + d < 2 ^ 32 ->
  ioq_inv (bump held h d) (put_key h (set_k_ref (k_ref k + d) k) w).
Proof.
  intros Hi Ha Hk Hd Hr. pose proof (inv_key_ok _ _ _ _ Hi Hk) as [K1 K2 K3 K4 K5 K6 K7 K8].
  set (k' := set_k_ref _ k). set (w' := put_key h k' w).
  assert (Hlv : forall x, is_live w' x = is_live w x).
  { intros x. destruct (decide (x = h)) as [->|]; [|by apply (is_live_other _ _ h k')].
    unfold is_live. simpl. by rewrite lookup_insert_eq, Hk. }
  assert (Hl : forall x k, live_key w' x k -> exists k0, live_key w x k0 /\ k_fd k0 = k_fd k).
  { intros x kx (? & Hx & ?). simpl in *. apply lookup_insert_Some in Hx as [[<- <-]|[? Hx]]; [by exists k|by exists kx]. }
  assert (Hlh : k_closing k = false -> live_key w' h k').
  { intros. split_and!; [done|simpl; by rewrite lookup_insert_eq|done]. }
  apply (inv_change held _ w _ h k'); try done; try apply same_but_refl.
  - intros x Hx. by apply bump_other.
  - apply (iv_sets _ _ Hi).
  - apply (iv_lists _ _ Hi).
  - split; try done; simpl.
    + intros _. rewrite bump_same. destruct (K1 Ha). lia.
    + intros Hc. exfalso. pose proof (iv_lists _ _ Hi) as Hnd. apply NoDup_app in Hnd as (_ & Hnd & _).
      by apply (Hnd h).
    + by rewrite bump_same.
  - intros x kx Hx. destruct (Hl x kx Hx) as (k0 & L0 & <-). by apply (iv_fd _ _ Hi x).
  - intros x kx Hx Lx (_ & _ & Hc) E. apply Hx. by apply (iv_distinct _ _ Hi x kx h k).
  - intros fd Hfd. destruct (iv_watched _ _ Hi fd Hfd) as (x & kx & Lx & E).
    destruct (decide (x = h)) as [->|]; [right|left; by exists x, kx].
    destruct Lx as (_ & Hx & ?). simplify_eq. split; [by apply Hlh|done].
  - simpl. rewrite (iv_count _ _ Hi). by rewrite (filter_live_ext w w').
Qed.

(** *** Lists of keys *)

Lemma erase_spec x h (l : list Z) : x ∈ erase h l <-> x ∈ l /\ x <> h.
Proof. unfold erase. rewrite list_elem_of_filter. tauto. Qed.

Lemma erase_perm h (l : list Z) : NoDup l -> h ∈ l -> l ≡ₚ h :: erase h l.
Proof.
  intros Hnd Hin. apply NoDup_Permutation; [done| |].
  - constructor; [|by apply NoDup_filter]. rewrite erase_spec. tauto.
  - intros x. rewrite elem_of_cons, erase_spec. destruct (decide (x = h)) as [->|]; tauto.
Qed.

Lemma erase_absent h (l : list Z) : h ∉ l -> erase h l = l.
Proof.
  unfold erase. induction l as [|x l IH]; intros Hn; [done|]. apply not_elem_of_cons in Hn as [? ?].
  rewrite filter_cons_True by done. by rewrite IH.
Qed.

Lemma lists_apart q : NoDup (all_keys q) ->
  (forall h, h ∈ q_active q -> (h ∉ q_closing q) /\ (h ∉ q_free q)) /\
  (forall h, h ∈ q_closing q -> (h ∉ q_active q) /\ (h ∉ q_free q)) /\
  (forall h, h ∈ q_free q -> (h ∉ q_active q) /\ (h ∉ q_closing q)).
Proof.
  unfold all_keys. intros (_ & H1 & (_ & H2 & _)%NoDup_app)%NoDup_app.
  setoid_rewrite elem_of_app in H1. naive_solver.
Qed.

(** *** The largest descriptor *)

Lemma scan_max_spec w hs m :
  (forall h, h ∈ hs -> is_Some (w_keys w !! h)) ->
  exists m', scan_max w hs m = Some m' /\ m <= m' /\
    forall h k, h ∈ hs -> w_keys w !! h = Some k -> k_fd k <= m'.
Proof.
  revert m. induction hs as [|h hs IH]; intros m Hs; simpl.
  - exists m. split_and!; [done|lia|]. by intros ? ? ?%elem_of_nil.
  - unfold max_fd. destruct (Hs h) as [k Hk]; [by left|]. rewrite Hk. simpl.
    destruct (IH (if m <? k_fd k then k_fd k else m)) as (m' & -> & Hm & Hf); [intros; apply Hs; by right|].
    exists m'. split_and!; [done|zcase; lia|].
    intros h0 k0 [->|Hin]%elem_of_cons Hk0; [|by eapply Hf]. rewrite Hk in Hk0. injection Hk0 as <-. destruct (Z.ltb_spec m (k_fd k)); lia.
Qed.

(** [rescan_fdset] finds a bound for every registered descriptor. *)
Lemma rescan_spec w :
  (forall h, h ∈ q_active (w_q w) -> is_Some (w_keys w !! h)) ->
  exists m, rescan_fdset w = Some (upd_q w (set_q_nfds m)) /\
    forall h k, h ∈ q_active (w_q w) -> w_keys w !! h = Some k -> k_fd k <= m.
Proof.
  intros Hs. destruct (scan_max_spec w (q_active (w_q w)) 0 Hs) as (m & E & _ & Hf).
  exists m. unfold rescan_fdset. rewrite E. done.
Qed.

(** *** References *)

Lemma increment_ok held w h k :
  ioq_inv held w -> can_lock this LRef w -> h ∈ q_active (w_q w) -> w_keys w !! h = Some k -> k_ref k < 2 ^ 32 - 1 ->
  increment_counter this w h = Some (put_key h (set_k_ref (k_ref k + 1) k) w) /\
  ioq_inv (bump held h 1) (put_key h (set_k_ref (k_ref k + 1) k) w).
Proof.
  intros Hi Hq Ha Hk Hr. destruct (iv_ref _ _ Hi h k Ha Hk) as [Hrf Hpos].
  destruct (iv_held _ _ Hi h) as [H0 _]. split; [|apply inv_ref; try done; lia].
  unfold increment_counter. rewrite acquire_can by done. simpl.
  rewrite (upd_key_some _ _ k) by done. simpl. rewrite u32_small by lia.
  rewrite (release_locked _ _ w) by done. by destruct w.
Qed.

(** The last reference is gone: the key waits to be reused. *)
Lemma inv_retire held w h k t m :
  ioq_inv held w -> h ∈ q_active (w_q w) -> w_keys w !! h = Some k -> k_closing k = true -> held h = 1 ->
  (forall x kx, x ∈ q_active (w_q w) -> x <> h -> w_keys w !! x = Some kx -> k_fd kx <= m) ->
  let k' := set_k_free_time t (set_k_ref 0 k) in
  let q := erase_key h (w_q w) in
  ioq_inv (bump held h (-1)) (set_w_q (set_q_nfds m (set_q_closing (q_closing q ++ [h]) q)) (put_key h k' w)).
Proof.
  intros Hi Ha Hk Hc Hh Hm k' q. set (w' := set_w_q _ _).
  pose proof (inv_key_ok _ _ _ _ Hi Hk) as [K1 K2 K3 K4 K5 K6 K7 K8].
  pose proof (iv_lists _ _ Hi) as Hnd. destruct (lists_apart _ Hnd) as (LA & _ & _). destruct (LA h Ha) as [Hcl Hfr].
  assert (Hqa : q_active (w_q w') = erase h (q_active (w_q w))) by done.
  assert (Hqc : q_closing (w_q w') = q_closing (w_q w) ++ [h]) by (simpl; by rewrite erase_absent).
  assert (Hqf : q_free (w_q w') = q_free (w_q w)) by (simpl; by rewrite erase_absent).
  assert (Hna : h ∉ q_active (w_q w')) by (rewrite Hqa, erase_spec; tauto).
  apply (inv_change held _ w _ h k'); try done.
  - intros x Hx. by apply bump_other.
  - apply (iv_sets _ _ Hi).
  - unfold all_keys. rewrite Hqa, Hqc, Hqf. eapply NoDup_Permutation_proper; [|exact Hnd].
    unfold all_keys. rewrite (erase_perm h (q_active (w_q w))) at 2; [|by apply NoDup_app in Hnd as [? _]|done].
    rewrite <-!app_assoc. simpl. by rewrite <-!Permutation_middle.
  - intros x Hx. rewrite Hqa, erase_spec. tauto.
  - intros x Hx. rewrite Hqc, elem_of_app, list_elem_of_singleton. tauto.
  - intros x Hx. by rewrite Hqf.
  - split; try (intros; done).
    + intros _ _. apply K5; [apply elem_of_app; by left|done].
    + rewrite bump_same. split; lia.
    + intros g _. apply K7. apply elem_of_app; by left.
    + intros o _. apply K8. apply elem_of_app; by left.
  - intros x kx (Hx & Hkx & _). simpl. rewrite Hqa, erase_spec in Hx. destruct Hx as [Hx Hxh].
    apply (Hm x kx Hx Hxh). simpl in Hkx. by rewrite lookup_insert_ne in Hkx.
  - by intros x kx _ _ (? & _).
  - intros fd Hfd. left. destruct (iv_watched _ _ Hi fd Hfd) as (x & kx & Lx & E). exists x, kx.
    split; [|done]. intros ->. destruct Lx as (_ & ? & ?). congruence.
  - simpl. rewrite (iv_count _ _ Hi). f_equal.
    rewrite (filter_live_ext w w').
    + rewrite (erase_perm h (q_active (w_q w))) at 1; [|by apply NoDup_app in Hnd as [? _]|done].
      rewrite filter_cons_False; [done|]. unfold is_live. rewrite Hk, Hc. by intros [].
    + intros x [_ Hx]%erase_spec. by apply (is_live_other _ _ h k').
Qed.

(** What the changes of references leave of the keys. *)
Record light (w w' : world S) : Prop := {
  lt_locks : w_locks w' = w_locks w;
  lt_keys x k : w_keys w !! x = Some k -> exists k', w_keys w' !! x = Some k' /\ k_grp k' = k_grp k /\
    k_read_cb k' = k_read_cb k /\ k_write_cb k' = k_write_cb k /\ k_closing k' = k_closing k /\ k_cb k' = k_cb k;
  lt_new x : is_Some (w_keys w' !! x) -> is_Some (w_keys w !! x);
  lt_calls : w_calls w' = w_calls w
}.

Lemma light_refl w : light w w.
Proof. split; eauto 10. Qed.

Lemma light_put w h k k' w' :
  w_keys w !! h = Some k -> w_keys w' = <[h := k']> (w_keys w) -> w_locks w' = w_locks w ->
  k_grp k' = k_grp k -> k_read_cb k' = k_read_cb k -> k_write_cb k' = k_write_cb k ->
  k_closing k' = k_closing k -> k_cb k' = k_cb k -> w_calls w' = w_calls w -> light w w'.
Proof.
  intros Hk Ek El Eg Er Ew Ec Eb Ecl. split; [done|intros x kx Hx; rewrite Ek; destruct (decide (x = h)) as [->|]|intros x|done].
  - rewrite lookup_insert_eq. simplify_eq. eauto 10.
  - rewrite lookup_insert_ne by done. eauto 10.
  - rewrite Ek. destruct (decide (x = h)) as [->|]; [eauto|by rewrite lookup_insert_ne].
Qed.

Lemma keeps_light held w w' : ioq_inv held w' -> light w w' -> keeps 0 held w w'.
Proof.
  intros Hi [Hl Hk Hn _]. split; [done|done|..].
  - intros h k _ H0. destruct (Hk h k H0) as (k' & ? & ? & _). eauto.
  - intros h [k H0]. destruct (Hk h k H0) as (k' & ? & _). eauto.
  - done.
  - intros h k k' H0 H1. destruct (Hk h k H0) as (k'' & H2 & _ & E1 & E2 & _).
    rewrite H1 in H2. injection H2 as <-. rewrite E1, E2. lia.
Qed.

Lemma decrement_ok held w h :
  ioq_inv held w -> quiet this w -> 0 < held h -> exists w',
  decrement_counter this w h = Some w' /\ ioq_inv (bump held h (-1)) w' /\ light w w' /\
  w_grp w' = w_grp w /\ h ∈ q_active (w_q w') ++ q_closing (w_q w').
Proof.
  intros Hi Hq Hh. pose proof (held_active _ _ _ Hi Hh) as Ha. destruct (held_key _ _ _ Hi Hh) as [k Hk].
  destruct (iv_ref _ _ Hi h k Ha Hk) as [Hr Hb].
  unfold decrement_counter. rewrite acquire_can by apply Hq. bind_step.
  assert (HcR : can_lock this LRef (locked this LIoq w)) by (apply can_lock_other; [done|apply Hq]).
  rewrite acquire_can by done. bind_step. set (w1 := locked this LRef (locked this LIoq w)).
  rewrite (upd_key_some w1 h k) by done. bind_step. rewrite u32_small by lia.
  set (w2 := put_key h (set_k_ref (k_ref k - 1) k) w1).
  assert (Hk2 : w_keys w2 !! h = Some (set_k_ref (k_ref k - 1) k)) by (simpl; by rewrite lookup_insert_eq).
  rewrite Hk2. bind_step. cbn [k_ref set_k_ref].
  assert (Hend : forall w3, w_locks w3 = w_locks w1 -> (w4 ← release this LRef w3; release this LIoq w4) =
    Some (set_w_locks (w_locks w) w3)).
  { intros w3 E. rewrite (release_locked _ _ (locked this LIoq w)) by done. bind_step.
    rewrite (release_locked _ _ w) by (try apply Hq; done). by destruct w3. }
  destruct (Z.eqb_spec (k_ref k - 1) 0) as [Hz|Hz].
  - destruct (k_closing k) eqn:Hc; [|lia]. destruct (pj_gettickcount _) as [now s].
    destruct (normalize_spec (mk_time_val (sec now) (msec now + PJ_IOQUEUE_KEY_FREE_DELAY))) as (t & -> & _).
    bind_step. rewrite (upd_key_some (set_w_sys s w2) h (set_k_ref (k_ref k - 1) k)) by done. bind_step.
    set (w3 := upd_q _ _).
    destruct (rescan_spec w3) as (m & -> & Hm).
    { intros x [Hx _]%erase_spec. simpl. destruct (decide (x = h)) as [->|].
      - rewrite lookup_insert_eq. eauto.
      - rewrite !lookup_insert_ne by done. apply (iv_keys _ _ Hi). apply elem_of_app. by left. }
    bind_step. rewrite (Hend (upd_q w3 (set_q_nfds m))) by done.
    eexists. split; [done|]. split_and!.
    + assert (Hv := inv_retire held w h k t m Hi Ha Hk Hc).
      refine (inv_ext _ _ _ _ _ _ _ _ _ (Hv _ _)); try done; [|lia|].
      * simpl. rewrite insert_insert_eq, Hz. done.
      * intros x kx Hx Hxh Hkx. apply (Hm x kx); [by apply erase_spec|]. simpl. by rewrite !lookup_insert_ne.
    + eapply (light_put _ h k); [done|simpl; by rewrite insert_insert_eq|done..].
    + done.
    + apply elem_of_app. right. simpl. apply elem_of_app. right. by left.
  - bind_step. rewrite (Hend w2) by done. eexists. split; [done|]. split_and!.
    + assert (Hv := inv_ref held w h k (-1) Hi Ha Hk).
      refine (inv_ext _ _ _ _ _ _ _ _ _ (Hv _ _)); try done; lia.
    + by eapply (light_put _ h k).
    + done.
    + apply elem_of_app. by left.
Qed.

(** *** Keys that may be used again *)

Definition free_key (h : Z) (q : pj_ioqueue_t) : pj_ioqueue_t :=
  set_q_closing (erase h (q_closing q)) (set_q_free (q_free q ++ [h]) q).

Lemma inv_free held w h :
  ioq_inv held w -> h ∈ q_closing (w_q w) -> ioq_inv held (upd_q w (free_key h)).
Proof.
  intros Hi Hc. pose proof (iv_lists _ _ Hi) as Hnd. destruct (lists_apart _ Hnd) as (_ & LC & _).
  destruct (LC h Hc) as [Hna Hnf]. destruct (iv_keys _ _ Hi h) as [k Hk].
  { unfold all_keys. rewrite !elem_of_app. tauto. }
  pose proof (inv_key_ok _ _ _ _ Hi Hk) as [K1 K2 K3 K4 K5 K6 K7 K8].
  assert (Hcl : forall x, x ∈ erase h (q_closing (w_q w)) <-> x ∈ q_closing (w_q w) /\ x <> h) by (intros; apply erase_spec).
  apply (inv_change held _ w _ h k); try done; try (by apply same_but_refl).
  - simpl. by rewrite insert_id.
  - apply (iv_sets _ _ Hi).
  - unfold all_keys. simpl. eapply NoDup_Permutation_proper; [|exact Hnd]. unfold all_keys.
    rewrite (erase_perm h (q_closing (w_q w))) at 2; [|by apply NoDup_app in Hnd as (_ & _ & [? _]%NoDup_app)|done].
    apply Permutation_app; [done|]. simpl. rewrite app_assoc. by rewrite Permutation_app_comm.
  - intros x Hx. simpl. rewrite Hcl. tauto.
  - intros x Hx. simpl. rewrite elem_of_app, list_elem_of_singleton. tauto.
  - split; simpl; try done.
    + intros _. apply K2, elem_of_app. by left.
    + rewrite Hcl. tauto.
    + rewrite elem_of_app, Hcl. tauto.
    + intros g. rewrite elem_of_app, Hcl. tauto.
    + intros o. rewrite elem_of_app, Hcl. tauto.
  - intros x kx Lx. by apply (iv_fd _ _ Hi x).
  - by intros x kx _ _ (? & _).
  - intros fd Hfd. left. destruct (iv_watched _ _ Hi fd Hfd) as (x & kx & Lx & E). exists x, kx.
    split; [|done]. intros ->. by destruct Lx as (? & _).
  - apply (iv_count _ _ Hi).
Qed.

(** The keys the scan moves, and what it leaves alone. *)
Lemma scan_closing_ok held now hs w :
  ioq_inv held w -> NoDup hs -> (forall h, h ∈ hs -> h ∈ q_closing (w_q w)) ->
  exists w', scan_closing now hs w = Some w' /\ ioq_inv held w' /\ w_keys w' = w_keys w /\
    w_locks w' = w_locks w /\ w_grp w' = w_grp w /\ w_ops w' = w_ops w /\ w_calls w' = w_calls w /\
    q_active (w_q w') = q_active (w_q w) /\ q_count (w_q w') = q_count (w_q w) /\
    q_max (w_q w') = q_max (w_q w) /\ q_conc (w_q w') = q_conc (w_q w) /\
    forall h, h ∈ q_free (w_q w') <-> h ∈ q_free (w_q w) \/
      h ∈ hs /\ exists k, w_keys w !! h = Some k /\ PJ_TIME_VAL_GTE now (k_free_time k) = true.
Proof.
  revert w. induction hs as [|h hs IH]; intros w Hi Hnd Hs; simpl.
  { exists w. split_and!; try done. intros h. split; [by left|]. intros [?|[?%elem_of_nil _]]; done. }
  apply NoDup_cons in Hnd as [Hh Hnd].
  destruct (iv_keys _ _ Hi h) as [k Hk].
  { unfold all_keys. rewrite !elem_of_app. right. left. apply Hs. by left. }
  rewrite Hk. simpl. fold (free_key h).
  set (w1 := if PJ_TIME_VAL_GTE now (k_free_time k) then upd_q w (fun q => free_key h q) else w).
  assert (Hi1 : ioq_inv held w1).
  { unfold w1. destruct (PJ_TIME_VAL_GTE _ _); [|done]. apply inv_free; [done|]. apply Hs. by left. }
  destruct (IH w1 Hi1 Hnd) as (w' & E & Hi' & E1 & E2 & E3 & E4 & E5 & E6 & E7 & E8 & E9 & Hf).
  { intros x Hx. unfold w1. destruct (PJ_TIME_VAL_GTE _ _); [|apply Hs; by right].
    simpl. apply erase_spec. split; [apply Hs; by right|by intros ->]. }
  exists w'. unfold w1 in *. destruct (PJ_TIME_VAL_GTE now (k_free_time k)) eqn:Eg; simpl in *.
  - split_and!; try done. intros x. rewrite Hf, elem_of_app, list_elem_of_singleton, elem_of_cons.
    split; [|naive_solver]. intros [[?| ->]|[? ?]]; eauto 10.
  - split_and!; try done. intros x. rewrite Hf, elem_of_cons. split; [naive_solver|].
    intros [?|[[->|?] (k1 & ? & ?)]]; [by left|congruence|naive_solver].
Qed.

Lemma scan_closing_keys_ok held w :
  ioq_inv held w -> exists now s w', pj_gettickcount (w_sys w) = (now, s) /\
    scan_closing_keys w = Some w' /\ ioq_inv held w' /\ w_keys w' = w_keys w /\
    w_locks w' = w_locks w /\ w_grp w' = w_grp w /\ w_ops w' = w_ops w /\ w_calls w' = w_calls w /\
    q_active (w_q w') = q_active (w_q w) /\ q_count (w_q w') = q_count (w_q w) /\
    q_max (w_q w') = q_max (w_q w) /\ q_conc (w_q w') = q_conc (w_q w) /\
    forall h, h ∈ q_free (w_q w') <-> h ∈ q_free (w_q w) \/
      h ∈ q_closing (w_q w) /\ exists k, w_keys w !! h = Some k /\ PJ_TIME_VAL_GTE now (k_free_time k) = true.
Proof.
  intros Hi. unfold scan_closing_keys. destruct (pj_gettickcount (w_sys w)) as [now s].
  pose proof (iv_lists _ _ Hi) as Hnd. unfold all_keys in Hnd. apply NoDup_app in Hnd as (_ & _ & Hnd).
  apply NoDup_app in Hnd as [Hnd _].
  destruct (scan_closing_ok held now (q_closing (w_q w)) (set_w_sys s w)) as (w' & E & Hr); [by apply inv_sys|done|done|].
  exists now, s, w'. split; [done|]. split; [done|]. exact Hr.
Qed.
End Keys.
