(* ===== verification/IoQueueOps.v ===== *)
(** * Starting and finishing operations

    What [pj_ioqueue_recv], [pj_ioqueue_recvfrom], [pj_ioqueue_send],
    [pj_ioqueue_sendto], [pj_ioqueue_accept], [pj_ioqueue_connect] and
    [pj_ioqueue_post_completion] do on each branch; all of them return and keep
    the invariant. *)
From S2P Require Import Prelude TimeVal SockBsd IoQueueData IoQueue IoQueueInv IoQueueDispatch IoQueuePoll IoQueueKeys.

Section Ops.
Context `{!SystemConstants} {S : Type} `{!SystemSockets S} (this : Z).
Implicit Types (w : world S) (k : pj_ioqueue_key_t).

Lemma locked_back l w : set_w_locks (w_locks w) (locked this l w) = w.
Proof. by destruct w. Qed.

(** The state with an operation put into a list of its key. *)
Definition queued (h o e : Z) (k : pj_ioqueue_key_t) (r : operation_key) (w : world S) : world S :=
  set_w_q (with_sets add_fd (k_fd k) e (w_q w)) (put_key h k (put_op o r w)).

(** A change of one of the lists: the rest of the key is the same. *)
Definition list_change (o : Z) (k k' : pj_ioqueue_key_t) : Prop :=
  same_core k k' /\ k_read_cb k' = k_read_cb k /\ k_write_cb k' = k_write_cb k /\
  forall o', o' ∈ op_lists k' -> o' = o \/ o' ∈ op_lists k.

Lemma enqueue_eq w h k o r busy e put fill :
  quiet this w -> sets_ok (w_q w) -> w_keys w !! h = Some k -> w_ops w !! o = Some r ->
  (k_closing k = false -> 0 <= k_fd k < FD_SETSIZE) -> same_core k (put k) ->
  enqueue this w h o busy e put fill = Some (
    if k_closing k then (PJ_ECANCELLED, w)
    else if bool_decide (o_op r = OP_NONE) then (PJ_EPENDING, queued h o e (put k) (fill r) w)
    else (busy, w)).
Proof.
  intros Hq Hs Hk Hr Hfd (Efd & _ & _ & Eg). unfold enqueue.
  rewrite (lock_key_some this w h k) by (done || apply Hq). bind_step.
  set (w1 := locked this (key_lock h k) w). assert (Hq1 : quiet this w1) by (apply quiet_locked; auto with pj).
  assert (Hk1 : w_keys w1 !! h = Some k) by done. rewrite Hk1. bind_step.
  assert (Hun : forall w2 k2, w_keys w2 !! h = Some k2 -> k_grp k2 = k_grp k -> w_locks w2 = w_locks w1 ->
    pj_ioqueue_unlock_key this w2 h = Some (set_w_locks (w_locks w) w2)).
  { intros w2 k2 H1 H2 H3. by apply (unlock_key_some this w w2 h k2 k). }
  assert (Hback : pj_ioqueue_unlock_key this w1 h = Some w) by (rewrite (Hun w1 k) by done; unfold w1; by rewrite locked_back).
  destruct (k_closing k); [by rewrite Hback|].
  assert (Hr1 : w_ops w1 !! o = Some r) by done. rewrite Hr1. bind_step.
  case_bool_decide; cbn [negb]; [|by rewrite Hback].
  rewrite (upd_op_some w1 o r) by done. bind_step. rewrite (upd_key_some _ h k) by done. bind_step.
  unfold ioqueue_add_to_set. rewrite (add_to_set_eq this _ h e (put k)); try done.
  - bind_step. rewrite (Hun _ (put k)); try done. simpl. by rewrite lookup_insert_eq.
  - simpl. by rewrite lookup_insert_eq.
  - rewrite Efd. auto.
Qed.

Lemma queued_keeps held w h k o r e k' r' :
  ioq_inv held w -> live_key w h k -> w_ops w !! o = Some r -> list_change o k k' ->
  keeps 0 held w (queued h o e k' r' w).
Proof.
  intros Hi (Ha & Hk & Hc) Hr (Hco & Hrd & Hwr & Hl). pose proof Hco as (Efd & Ecl & _ & _).
  assert (H1 : touch h w (put_op o r' w)) by by eapply touch_op.
  assert (H2 : touch h (put_op o r' w) (put_key h k' (put_op o r' w))).
  { apply (touch_key _ _ k); try done. intros o' Ho'. destruct (Hl o' Ho') as [->|]; [right|by left].
    simpl. rewrite lookup_insert_eq. eauto. }
  assert (H3 : touch h (put_key h k' (put_op o r' w)) (queued h o e k' r' w)).
  { apply (touch_add (put_key h k' (put_op o r' w)) h k' e); [simpl; by rewrite lookup_insert_eq|congruence]. }
  apply (keeps_touch _ _ h); try done; [exact (touch_trans _ _ _ _ (touch_trans _ _ _ _ H1 H2) H3)|].
  eapply grows_key; [done|simpl; by rewrite lookup_insert_eq|..]; rewrite ?Hrd, ?Hwr; lia.
Qed.

Lemma keeps_sys_only held w s : ioq_inv held w -> keeps 0 held w (set_w_sys s w).
Proof. intros Hi. apply (keeps_sys held w _ s), keeps_refl, inv_sys, Hi. Qed.

Lemma push_read_change o k : list_change o k (push_read o k).
Proof. split_and!; try done. intros o'. unfold op_lists. simpl. rewrite !elem_of_app, list_elem_of_singleton. tauto. Qed.

Lemma push_write_change o k : list_change o k (push_write o k).
Proof. split_and!; try done. intros o'. unfold op_lists. simpl. rewrite !elem_of_app, list_elem_of_singleton. tauto. Qed.

Lemma push_accept_change o k : list_change o k (push_accept o k).
Proof. split_and!; try done. intros o'. unfold op_lists. simpl. rewrite !elem_of_app, list_elem_of_singleton. tauto. Qed.

(** ** Requests *)

Inductive request :=
  | Recv (o buffer length flags : Z)
  | RecvFrom (o buffer length flags addr addrlen : Z)
  | Send (o data length flags : Z)
  | SendTo (o data length flags addr addrlen : Z)
  | Accept (o new_sock local remote addrlen : Z).

Definition rq_op (rq : request) : Z :=
  match rq with Recv o _ _ _ | RecvFrom o _ _ _ _ _ | Send o _ _ _ | SendTo o _ _ _ _ _ | Accept o _ _ _ _ => o end.

Context (others : world S -> world S).

(** The length that is given back unless the operation was done at once. *)
Definition rq_len (rq : request) : Z :=
  match rq with Recv _ _ l _ | RecvFrom _ _ l _ _ _ | Send _ _ l _ | SendTo _ _ l _ _ _ => l | Accept _ _ _ _ _ => 0 end.

(** The call that makes the request: the status and the length. *)
Definition start (rq : request) (w : world S) (h : Z) : option (Z * Z * world S) :=
  match rq with
  | Recv o b l f => pj_ioqueue_recv this w h o b l f
  | RecvFrom o b l f a al => pj_ioqueue_recvfrom this w h o b l f a al
  | Send o b l f => pj_ioqueue_send this others w h o b l f
  | SendTo o b l f a al => pj_ioqueue_sendto this others w h o b l f a al
  | Accept o n l r al => '(st, w) ← pj_ioqueue_accept this w h o n l r al; Some (st, 0, w)
  end.

(** *** What is to happen *)

Definition is_send (rq : request) : bool := match rq with Send _ _ _ _ | SendTo _ _ _ _ _ _ => true | _ => false end.

Definition no_memory (rq : request) : bool :=
  match rq with Recv _ b _ _ | RecvFrom _ b _ _ _ _ | Send _ b _ _ | SendTo _ b _ _ _ _ | Accept _ b _ _ _ => b =? 0 end.

(** The socket is tried at once: reading unless the caller does not want it,
    sending and accepting unless others wait already. *)
Definition tried (rq : request) (k : pj_ioqueue_key_t) : bool :=
  match rq with
  | Recv _ _ _ f | RecvFrom _ _ _ f _ _ => Z.land f PJ_IOQUEUE_ALWAYS_ASYNC =? 0
  | Send _ _ _ _ | SendTo _ _ _ _ _ _ => bool_decide (k_write k = [])
  | Accept _ _ _ _ _ => bool_decide (k_accept k = [])
  end.

Definition socket_call (rq : request) (s : S) (fd : Z) : Z * Z * S :=
  match rq with
  | Recv _ b l f => pj_sock_recv s fd b l f
  | RecvFrom _ b l f a al => pj_sock_recvfrom s fd b l f a al
  | Send _ b l f => pj_sock_send s fd b l (without_async f)
  | SendTo _ b l f a al => pj_sock_sendto s fd b l (without_async f) a al
  | Accept _ _ _ a al => pj_sock_accept s fd a al
  end.

(** Nothing is done; the socket has decided; or the request is to wait. *)
Inductive verdict :=
  | Refuse (st : Z)
  | Finish (st len : Z) (s : S) (cells : gmap Z Z)
  | Queue (s : S) (cells : gmap Z Z).

(** The variable of a new socket is written by every try to accept. *)
Definition new_cells (rq : request) (n : Z) (c : gmap Z Z) : gmap Z Z :=
  match rq with Accept _ x _ _ _ => <[x := n]> c | _ => c end.

(** The socket has done it: a new one is asked for its address, and closed again
    when it does not say. *)
Definition done_now (rq : request) (n : Z) (s : S) (c : gmap Z Z) : verdict :=
  match rq with
  | Accept _ x local _ al =>
      if negb (local =? 0) && negb (al =? 0) then
        let '(st, s) := pj_sock_getsockname s n local al in
        if st =? PJ_SUCCESS then Finish PJ_SUCCESS 0 s c
        else Finish st 0 (pj_sock_close s n).2 (<[x := PJ_INVALID_SOCKET]> c)
      else Finish PJ_SUCCESS 0 s c
  | _ => Finish PJ_SUCCESS n s c
  end.

Definition later (rq : request) (s : S) (c : gmap Z Z) : verdict :=
  match rq with
  | SendTo _ _ l _ _ al => if al <=? SIZEOF_SOCKADDR then Queue s c else Finish PJ_EBUG l s c
  | _ => Queue s c
  end.

(** The decision on a request, by the key, whether the operation key is [idle],
    and what the socket says. *)
Definition decide_request (rq : request) (k : pj_ioqueue_key_t) (idle : bool) (s : S) (c : gmap Z Z) : verdict :=
  if no_memory rq then Refuse PJ_EINVAL
  else if k_closing k then Refuse PJ_ECANCELLED
  else if negb idle && negb (is_send rq) then Refuse PJ_EPENDING
  else if tried rq k then
    let '(st, n, s) := socket_call rq s (k_fd k) in
    let c := new_cells rq n c in
    if st =? PJ_SUCCESS then done_now rq n s c
    else if would_block st then later rq s c
    else Finish st (rq_len rq) s c
  else later rq s c.

(** *** What has happened *)

Definition rq_push (rq : request) : pj_ioqueue_key_t -> pj_ioqueue_key_t :=
  match rq with Recv _ _ _ _ | RecvFrom _ _ _ _ _ _ => push_read (rq_op rq)
  | Send _ _ _ _ | SendTo _ _ _ _ _ _ => push_write (rq_op rq) | Accept _ _ _ _ _ => push_accept (rq_op rq) end.

Definition rq_event (rq : request) : Z := if is_send rq then WRITEABLE_EVENT else READABLE_EVENT.

(** What is kept of the request until the event. *)
Definition describes (rq : request) (r : operation_key) : Prop :=
  match rq with
  | Recv _ b l f => o_op r = OP_RECV /\ o_buf r = b /\ o_size r = l /\ o_flags r = without_async f
  | RecvFrom _ b l f a al => o_op r = OP_RECV_FROM /\ o_buf r = b /\ o_size r = l /\ o_flags r = without_async f /\
      o_addr r = a /\ o_addrlen r = al
  | Send _ b l f => o_op r = OP_SEND /\ o_buf r = b /\ o_size r = l /\ o_flags r = without_async f /\ o_written r = 0
  | SendTo _ b l f a al => o_op r = OP_SEND_TO /\ o_buf r = b /\ o_size r = l /\ o_flags r = without_async f /\
      o_written r = 0 /\ o_addr r = a /\ o_addrlen r = al
  | Accept _ n l a al => o_op r = OP_ACCEPT /\ o_accept_fd r = n /\ o_local r = l /\ o_addr r = a /\ o_addrlen r = al
  end.

(** The request waits: it is the last of its list, its event is watched for, its
    data is in the operation key, and nothing else has changed. *)
Definition waiting (rq : request) (h : Z) (w w' : world S) : Prop := exists k r',
  w_keys w !! h = Some k /\ w' = queued h (rq_op rq) (rq_event rq) (rq_push rq k) r' w /\ describes rq r'.

(** A send whose operation key is in use waits for two turns of the other
    threads. *)
Definition op_is_idle (w : world S) (o : Z) : bool :=
  match w_ops w !! o with Some r => bool_decide (o_op r = OP_NONE) | None => false end.

Definition settled (o : Z) (w : world S) : world S :=
  if op_is_idle w o then w else if op_is_idle (others w) o then others w else others (others w).

Definition answer (rq : request) (h : Z) (w : world S) (v : verdict) (st n : Z) (w' : world S) : Prop :=
  match v with
  | Refuse e => st = e /\ n = rq_len rq /\ w' = w
  | Finish e m s c => st = e /\ n = m /\ w' = set_w_cells c (set_w_sys s w)
  | Queue s c => n = rq_len rq /\
      let w1 := settled (rq_op rq) (set_w_cells c (set_w_sys s w)) in
      if negb (op_is_idle w1 (rq_op rq)) then st = PJ_EBUSY /\ w' = w1
      else if is_live w1 h then st = PJ_EPENDING /\ waiting rq h w1 w'
      else st = PJ_ECANCELLED /\ w' = w1
  end.

Definition answered (held : Z -> Z) (rq : request) (h : Z) (w : world S) (v : verdict)
    (r : option (Z * Z * world S)) : Prop :=
  exists st n w', r = Some (st, n, w') /\ keeps 0 held w w' /\ answer rq h w v st n w'.

(** The other threads keep the invariant and do not free the operation key. *)
Definition op_stays (held : Z -> Z) (o : Z) : Prop := forall v,
  ioq_inv held v -> quiet this v -> is_Some (w_ops v !! o) ->
  keeps 0 held v (others v) /\ is_Some (w_ops (others v) !! o).

(** Nothing has changed but the socket, and where [accept] puts a new one. *)
Definition unchanged (w w' : world S) : Prop :=
  w_keys w' = w_keys w /\ w_ops w' = w_ops w /\ w_q w' = w_q w /\ w_calls w' = w_calls w.

(** *** The proofs *)

Lemma keeps_cells held w s c : ioq_inv held w -> keeps 0 held w (set_w_cells c (set_w_sys s w)).
Proof. intros Hi. destruct (keeps_sys_only held w s Hi) as [[] ? ? ? ? ?]. by split. Qed.

Lemma set_same w s : set_w_sys s w = set_w_cells (w_cells w) (set_w_sys s w).
Proof. by destruct w. Qed.

Lemma set_same_w w : w = set_w_cells (w_cells w) (set_w_sys (w_sys w) w).
Proof. by destruct w. Qed.

Lemma answered_refuse held rq h w st :
  ioq_inv held w -> answered held rq h w (Refuse st) (Some (st, rq_len rq, w)).
Proof. intros Hi. do 3 eexists. split; [done|]. split; [by apply keeps_refl|done]. Qed.

Lemma answered_finish held rq h w st n s c :
  ioq_inv held w -> answered held rq h w (Finish st n s c) (Some (st, n, set_w_cells c (set_w_sys s w))).
Proof. intros Hi. do 3 eexists. split; [done|]. split; [by apply keeps_cells|done]. Qed.

(** The calls begin the same way: under the invariant a live key has a
    descriptor in range. *)
Lemma active_fd held w h k : ioq_inv held w -> h ∈ q_active (w_q w) -> w_keys w !! h = Some k ->
  k_closing k = false -> 0 <= k_fd k < FD_SETSIZE.
Proof. intros Hi Ha Hk Hc. by apply (iv_fd _ _ Hi h). Qed.

Lemma rq_push_change rq k : list_change (rq_op rq) k (rq_push rq k).
Proof. destruct rq; first [apply push_read_change|apply push_write_change|apply push_accept_change]. Qed.

(** The queueing after the other threads have had their turns. *)
Lemma enqueue_answer held rq h w s c busy fill :
  let w1 := settled (rq_op rq) (set_w_cells c (set_w_sys s w)) in
  ioq_inv held w -> keeps 0 held w w1 -> quiet this w1 -> h ∈ q_active (w_q w1) ->
  op_is_idle w1 (rq_op rq) = true -> (forall r, describes rq (fill r)) ->
  answered held rq h w (Queue s c)
    ('(st, w2) ← enqueue this w1 h (rq_op rq) busy (rq_event rq) (rq_push rq) fill; Some (st, rq_len rq, w2)).
Proof.
  intros w1 Hi0 K Hq Ha Hid Hd. pose proof (kp_inv _ _ _ _ K) as Hi.
  pose proof Hid as Hid'. unfold op_is_idle in Hid'. destruct (w_ops w1 !! rq_op rq) as [r|] eqn:Hr; [|done].
  destruct (iv_keys _ _ Hi h) as [k Hk]; [apply elem_of_app; by left|].
  pose proof (rq_push_change rq k) as Hch.
  rewrite (enqueue_eq w1 h k (rq_op rq) r); try done;
    [|apply (iv_sets _ _ Hi)|by intros; eapply active_fd|by destruct Hch].
  unfold answered, answer. fold w1. unfold is_live. rewrite Hid, Hid', Hk. cbn [negb].
  apply bool_decide_eq_true in Hid'.
  destruct (k_closing k) eqn:Hc; cbn [negb]; [do 3 eexists; split; [done|]; by split|].
  do 3 eexists. split; [done|]. split; [|split; [done|]; split; [done|]; by exists k, (fill r)].
  apply (keeps_trans 0 0 _ _ w1); [done|]. by apply (queued_keeps _ _ _ k _ r).
Qed.

Lemma settled_idle w o : op_is_idle w o = true -> settled o w = w.
Proof. intros Hr. unfold settled. by rewrite Hr. Qed.

(** After the turns the key is still there. *)
Lemma settled_ok held w h o :
  ioq_inv held w -> quiet this w -> h ∈ q_active (w_q w) -> is_Some (w_ops w !! o) ->
  op_is_idle w o = true \/ 0 < held h /\ op_stays held o ->
  keeps 0 held w (settled o w) /\ h ∈ q_active (w_q (settled o w)) /\ is_Some (w_ops (settled o w) !! o).
Proof.
  intros Hi Hq Ha Ho Hor. unfold settled. destruct (op_is_idle w o) eqn:E; [split_and!; try done; by apply keeps_refl|].
  destruct Hor as [?|[Hh Hst]]; [done|]. destruct (Hst w Hi Hq Ho) as [K1 Ho1].
  destruct (Hst (others w) (kp_inv _ _ _ _ K1) (keeps_quiet _ _ _ _ _ K1 Hq) Ho1) as [K2 Ho2].
  destruct (op_is_idle (others w) o).
  - split_and!; try done. by eapply held_active; [apply (kp_inv _ _ _ _ K1)|].
  - split_and!; try done; [exact (keeps_trans 0 0 _ _ _ _ K1 K2)|].
    by eapply held_active; [apply (kp_inv _ _ _ _ K2)|].
Qed.

Lemma spin_settled held w h o : ioq_inv held w -> quiet this w -> is_Some (w_ops w !! o) ->
  op_is_idle w o = true \/ 0 < held h /\ op_stays held o -> spin others PENDING_RETRY w o = Some (settled o w).
Proof.
  intros Hi Hq Ho Hor. unfold PENDING_RETRY, settled, op_is_idle in *. cbn [spin]. destruct Ho as [r Hr]. rewrite Hr in *. bind_step.
  destruct (bool_decide (o_op r = OP_NONE)); [done|].
  destruct Hor as [?|[_ Hst]]; [done|]. destruct (Hst w Hi Hq) as [_ [r1 Hr1]]; [by eauto|]. rewrite Hr1. bind_step.
  by destruct (bool_decide (o_op r1 = OP_NONE)).
Qed.

Section one_request.
Context (held : Z -> Z) (rq : request) (h : Z) (k : pj_ioqueue_key_t) (w : world S) (r : operation_key).
Context (Hi : ioq_inv held w) (Hq : quiet this w) (Ha : h ∈ q_active (w_q w)).
Context (Hk : w_keys w !! h = Some k) (Hr : w_ops w !! rq_op rq = Some r).
Context (Hor : o_op r = OP_NONE \/ 0 < held h /\ op_stays held (rq_op rq)).
Abbreviation idle := (bool_decide (o_op r = OP_NONE)).

Lemma start_read_answer now fill buffer len flags :
  is_send rq = false -> no_memory rq = (buffer =? 0) -> rq_len rq = len -> tried rq k = (Z.land flags PJ_IOQUEUE_ALWAYS_ASYNC =? 0) ->
  now = socket_call rq -> rq_push rq = push_read (rq_op rq) -> (forall r, describes rq (fill r)) ->
  (forall n c, new_cells rq n c = c) -> (forall n s c, done_now rq n s c = Finish PJ_SUCCESS n s c) ->
  (forall s c, later rq s c = Queue s c) ->
  answered held rq h w (decide_request rq k idle (w_sys w) (w_cells w))
    (start_read this now fill w h (rq_op rq) buffer len flags).
Proof.
  intros Hs Hm <- Htr -> Hp Hd Hc Hdn Hl. unfold start_read, decide_request. rewrite Hm, Htr, Hs, Hk.
  destruct (buffer =? 0); [by apply answered_refuse|]. bind_step.
  destruct (k_closing k); [by apply answered_refuse|]. rewrite Hr. bind_step. rewrite andb_true_r.
  case_bool_decide as Ho; cbn [negb]; [|by apply answered_refuse].
  assert (Hid : forall s c, op_is_idle (set_w_cells c (set_w_sys s w)) (rq_op rq) = true).
  { intros s c. unfold op_is_idle. simpl. rewrite Hr. by rewrite bool_decide_eq_true_2. }
  assert (Henq : forall s c, answered held rq h w (Queue s c)
    ('(st, w2) ← enqueue this (set_w_cells c (set_w_sys s w)) h (rq_op rq) PJ_EPENDING READABLE_EVENT
       (push_read (rq_op rq)) fill; Some (st, rq_len rq, w2))).
  { intros s c. pose proof (enqueue_answer held rq h w s c PJ_EPENDING fill) as He. cbv zeta in He.
    rewrite (settled_idle _ _ (Hid s c)) in He. unfold rq_event in He. rewrite Hs, Hp in He.
    by apply He; try apply keeps_cells. }
  destruct (_ =? 0).
  - destruct (socket_call rq _ _) as [[status n] s]. rewrite Hc.
    destruct (status =? PJ_SUCCESS); [rewrite Hdn, set_same; by apply answered_finish|].
    destruct (would_block status); [rewrite Hl, set_same; apply Henq|rewrite set_same; by apply answered_finish].
  - rewrite Hl. pose proof (Henq (w_sys w) (w_cells w)) as He. by rewrite <-set_same_w in He.
Qed.

Lemma start_write_answer now fill (b : bool) data len :
  is_send rq = true -> no_memory rq = (data =? 0) -> rq_len rq = len -> tried rq k = bool_decide (k_write k = []) ->
  now = socket_call rq -> rq_push rq = push_write (rq_op rq) -> (forall r, describes rq (fill r)) ->
  (forall n c, new_cells rq n c = c) -> (forall n s c, done_now rq n s c = Finish PJ_SUCCESS n s c) ->
  (forall s c, later rq s c = if b then Queue s c else Finish PJ_EBUG len s c) ->
  answered held rq h w (decide_request rq k idle (w_sys w) (w_cells w))
    (start_write this others now fill b w h (rq_op rq) data len).
Proof.
  intros Hs Hm <- Htr -> Hp Hd Hc Hdn Hl. unfold start_write, decide_request. rewrite Hm, Htr, Hs, Hk.
  destruct (data =? 0); [by apply answered_refuse|]. bind_step.
  destruct (k_closing k); [by apply answered_refuse|]. rewrite andb_false_r.
  assert (Hlater : forall s c, answered held rq h w (later rq s c)
    (write_later this others fill b (set_w_cells c (set_w_sys s w)) h (rq_op rq) (rq_len rq))).
  { intros s c. rewrite Hl. unfold write_later. destruct b; cbn [negb]; [|by apply answered_finish].
    set (w0 := set_w_cells c (set_w_sys s w)).
    assert (Hi0 : ioq_inv held w0) by (apply (kp_inv _ _ _ _ (keeps_cells held w s c Hi))).
    assert (Ho0 : is_Some (w_ops w0 !! rq_op rq)) by (by eexists).
    assert (Hor0 : op_is_idle w0 (rq_op rq) = true \/ 0 < held h /\ op_stays held (rq_op rq)).
    { destruct Hor as [Ho|?]; [left|by right]. unfold op_is_idle. simpl. rewrite Hr. by rewrite bool_decide_eq_true_2. }
    rewrite (spin_settled held w0 h) by done. bind_step.
    destruct (settled_ok held w0 h _ Hi0 Hq Ha Ho0 Hor0) as (K & Ha1 & [r1 Hr1]). rewrite Hr1. bind_step.
    pose proof (keeps_trans 0 0 _ _ _ _ (keeps_cells held w s c Hi) K) as K'. change (0 + 0)%nat with 0%nat in K'.
    pose proof (enqueue_answer held rq h w s c PJ_EBUSY fill Hi K' (keeps_quiet _ _ _ _ _ K' Hq) Ha1) as He.
    fold w0 in He. unfold rq_event in He. rewrite Hs, Hp in He.
    assert (Hid : op_is_idle (settled (rq_op rq) w0) (rq_op rq) = bool_decide (o_op r1 = OP_NONE))
      by (unfold op_is_idle at 1; by rewrite Hr1).
    rewrite Hid in He. destruct (bool_decide (o_op r1 = OP_NONE)); cbn [negb]; [by apply He|].
    do 3 eexists. split; [done|]. split; [done|]. split; [done|]. cbv zeta. fold w0. by rewrite Hid. }
  case_bool_decide.
  - destruct (socket_call rq _ _) as [[status n] s]. rewrite Hc.
    destruct (status =? PJ_SUCCESS); [rewrite Hdn, set_same; by apply answered_finish|].
    destruct (would_block status); [rewrite set_same; apply Hlater|rewrite set_same; by apply answered_finish].
  - pose proof (Hlater (w_sys w) (w_cells w)) as He. by rewrite <-set_same_w in He.
Qed.

Lemma accept_answer o new_sock local remote addrlen : rq = Accept o new_sock local remote addrlen ->
  answered held rq h w (decide_request rq k idle (w_sys w) (w_cells w)) (start rq w h).
Proof.
  intros Erq. unfold decide_request, start, pj_ioqueue_accept. rewrite Erq in *. cbn [no_memory is_send tried socket_call new_cells rq_op rq_len later] in *.
  destruct (new_sock =? 0); [by apply answered_refuse|]. rewrite Hk. bind_step.
  destruct (k_closing k); [by apply answered_refuse|]. rewrite Hr. bind_step. rewrite andb_true_r.
  case_bool_decide as Ho; cbn [negb]; [|by apply answered_refuse].
  set (rq0 := Accept o new_sock local remote addrlen).
  assert (Hid : forall s c, op_is_idle (set_w_cells c (set_w_sys s w)) o = true).
  { intros s c. unfold op_is_idle. simpl. rewrite Hr. by rewrite bool_decide_eq_true_2. }
  assert (Henq : forall s c, answered held rq0 h w (Queue s c)
    ('(st, w2) ← accept_later this (set_w_cells c (set_w_sys s w)) h o new_sock local remote addrlen; Some (st, 0, w2))).
  { intros s c. unfold accept_later.
    match goal with |- context [enqueue this _ _ _ ?busy _ _ ?fill] =>
      pose proof (enqueue_answer held rq0 h w s c busy fill) as He end. cbv zeta in He. cbn [rq0 rq_op] in He.
    rewrite (settled_idle _ _ (Hid s c)) in He. by apply He; try apply keeps_cells. }
  case_bool_decide.
  - destruct (pj_sock_accept _ _ _ _) as [[status sock] s]. unfold rq0. cbn [done_now]. fold rq0.
    destruct (status =? PJ_SUCCESS).
    + destruct (_ && _); [|by apply (answered_finish held rq0)]. cbn [w_sys set_w_cells set_w_sys].
      destruct (pj_sock_getsockname _ _ _ _) as [st2 s2]. destruct (st2 =? PJ_SUCCESS); cbn [negb].
      * apply (answered_finish held rq0 h w PJ_SUCCESS 0 s2 (<[new_sock := sock]> (w_cells w)) Hi).
      * destruct (pj_sock_close s2 sock) as [rc s3].
        apply (answered_finish held rq0 h w st2 0 s3 (<[new_sock := PJ_INVALID_SOCKET]> (<[new_sock := sock]> (w_cells w))) Hi).
    + destruct (would_block status); [apply Henq|by apply (answered_finish held rq0)].
  - pose proof (Henq (w_sys w) (w_cells w)) as He. by rewrite <-set_same_w in He.
Qed.
End one_request.

(** C10 Every request returns, keeps the invariant and the locks, and is answered
    as [decide_request] says: refused without an effect for bad arguments, a
    closing key, or (reading and accepting) an operation key in use; finished
    with what the socket says, when it is tried and does not block; and queued
    otherwise.  A queued request is pending: it is the last of its list, with
    its data in the operation key and its event watched for, and nothing else
    has changed.  A request to send whose operation key is in use is queued only
    if the other threads free it within two turns, and is refused otherwise; for
    such a request the key is one that is held, and the other threads keep the
    invariant. *)
Theorem start_correct held rq h k w r :
  ioq_inv held w -> quiet this w -> h ∈ q_active (w_q w) -> w_keys w !! h = Some k ->
  w_ops w !! rq_op rq = Some r -> o_op r = OP_NONE \/ 0 < held h /\ op_stays held (rq_op rq) ->
  exists st n w', start rq w h = Some (st, n, w') /\ keeps 0 held w w' /\
    answer rq h w (decide_request rq k (bool_decide (o_op r = OP_NONE)) (w_sys w) (w_cells w)) st n w'.
Proof.
  intros Hi Hq Ha Hk Hr Hor. change (answered held rq h w
    (decide_request rq k (bool_decide (o_op r = OP_NONE)) (w_sys w) (w_cells w)) (start rq w h)).
  destruct rq; cbn [start rq_op] in *.
  - by apply (start_read_answer held (Recv o buffer length flags) h k w r).
  - by apply (start_read_answer held (RecvFrom o buffer length flags addr addrlen) h k w r).
  - by apply (start_write_answer held (Send o data length flags) h k w r).
  - by apply (start_write_answer held (SendTo o data length flags addr addrlen) h k w r).
  - by eapply (accept_answer held (Accept o new_sock local remote addrlen) h k w r).
Qed.

Lemma add_fd_in b fd f : b = true -> fd ∈ PART_FDSET (add_fd b fd f).
Proof. intros ->. simpl. set_solver. Qed.

(** ** Connecting *)

Lemma connect_ok held h k w addr addrlen :
  ioq_inv held w -> quiet this w -> h ∈ q_active (w_q w) -> w_keys w !! h = Some k ->
  exists st w', pj_ioqueue_connect this w h addr addrlen = Some (st, w') /\ keeps 0 held w w' /\
    (unchanged w w' \/ k_closing k = false /\ st = PJ_EPENDING /\
      w_keys w' = <[h := set_k_connecting true k]> (w_keys w) /\
      k_fd k ∈ PART_FDSET (q_w (w_q w')) /\ k_fd k ∈ PART_FDSET (q_x (w_q w'))).
Proof.
  intros Hi Hq Ha Hk. unfold pj_ioqueue_connect.
  assert (Hsame : forall st, exists st' w', Some (st, w) = Some (st', w') /\ keeps 0 held w w' /\
    (unchanged w w' \/ k_closing k = false /\ st' = PJ_EPENDING /\
      w_keys w' = <[h := set_k_connecting true k]> (w_keys w) /\
      k_fd k ∈ PART_FDSET (q_w (w_q w')) /\ k_fd k ∈ PART_FDSET (q_x (w_q w')))).
  { intros st. do 2 eexists. split; [done|]. split; [by apply keeps_refl|by left]. }
  destruct (_ || _); [done|]. rewrite Hk. bind_step. destruct (k_closing k) eqn:Hc; [done|].
  destruct (k_connecting k); [done|]. destruct (pj_sock_connect _ _ _ _) as [status s].
  destruct (status =? PJ_SUCCESS); [do 2 eexists; split; [done|]; split; [by apply keeps_sys_only|by left]|].
  destruct (status =? _); [|do 2 eexists; split; [done|]; split; [by apply keeps_sys_only|by left]].
  set (w0 := set_w_sys s w). pose proof (active_fd _ _ _ _ Hi Ha Hk Hc) as Hfd.
  rewrite (lock_key_some this w0 h k) by (done || apply Hq). bind_step.
  pose proof (section_begin this w0 h k Hk Hq (iv_sets _ _ Hi)) as Hin. set (w1 := locked this _ w0) in *.
  assert (Hk1 : w_keys w1 !! h = Some k) by done. rewrite Hk1. bind_step. rewrite Hc.
  destruct (section_upd_key this w0 h w1 k (set_k_connecting true) Hin Hk1) as [-> Hin2]; [done|by left|]. bind_step.
  destruct (section_add this w0 h _ (set_k_connecting true k) (Z.lor WRITEABLE_EVENT EXCEPTION_EVENT) Hin2)
    as [-> Hin3]; [simpl; by rewrite lookup_insert_eq|done|done|]. bind_step.
  destruct (section_end _ _ _ _ Hin3) as [-> Ht]. bind_step.
  do 2 eexists. split; [done|]. split.
  - apply (keeps_sys held w _ s). apply (keeps_touch _ _ h); try done; [by apply inv_sys|].
    eapply grows_key; [done|simpl; by rewrite lookup_insert_eq|..]; simpl; lia.
  - right. split_and!; try done; by apply add_fd_in.
Qed.
End Ops.
