(* ===== verification/IoQueuePollSpec.v ===== *)
(** * What a poll promises

    A poll returns, dispatches a bounded number of events, and gives back every
    lock and every reference: the invariant holds with the same references as
    before, whatever the callbacks and the other threads do within their
    contract. *)
From S2P Require Import Prelude TimeVal SockBsd IoQueueData IoQueue IoQueueInv IoQueueDispatch IoQueuePoll IoQueueKeys IoQueueOps.

(** The references with those of the events collected. *)
Definition hold (held : Z -> Z) (evs : list event) : Z -> Z := fun x =>
  held x + Z.of_nat (length (filter (fun e => e_key e = x) evs)).

Lemma hold_snoc held evs h e x : bump (hold held evs) h 1 x = hold held (evs ++ [mk_event h e]) x.
Proof.
  unfold bump, hold. rewrite filter_app, length_app, filter_cons, filter_nil. simpl.
  destruct (Z.eqb_spec x h) as [->|]; case_decide; simpl; try done; try lia; congruence.
Qed.

Lemma hold_cons held evs e x : bump (hold held (e :: evs)) (e_key e) (-1) x = hold held evs x.
Proof.
  unfold bump, hold. rewrite !filter_cons. destruct (Z.eqb_spec x (e_key e)) as [->|]; repeat case_decide; simpl;
    try done; try lia; congruence.
Qed.

Lemma hold_bound held evs x : held x <= hold held evs x <= held x + Z.of_nat (length evs).
Proof. unfold hold. pose proof (length_filter (fun e => e_key e = x) evs). lia. Qed.

Lemma hold_pos held evs e : 0 <= held (e_key e) -> e ∈ evs -> 0 < hold held evs (e_key e).
Proof.
  intros H0 He. unfold hold.
  assert (He2 : e ∈ filter (fun e0 => e_key e0 = e_key e) evs) by by apply list_elem_of_filter.
  destruct (filter _ evs); [by apply elem_of_nil in He2|simpl; lia].
Qed.

(** ** The counters of the group locks

    Nothing in the dispatch of an event changes them but the callbacks. *)

Section GroupRefs.
Context `{!SystemConstants} {S : Type} `{!SystemSockets S} (this : Z).
Context (app : callback -> world S -> option (world S)).
Implicit Types (w : world S).

(** Splits a computation in a hypothesis into its steps. *)
Ltac split_run :=
  repeat match goal with
  | H : _ ≫= _ = Some _ |- _ => bind_inv H
  | H : Some _ = Some _ |- _ => injection H as H; subst
  | H : None = Some _ |- _ => discriminate
  | x : _ * _ |- _ => destruct x
  | H : (match ?x with _ => _ end) = Some _ |- _ => destruct x eqn:?
  end.

Lemma release_grp l w w' : release this l w = Some w' -> w_grp w' = w_grp w.
Proof. unfold release. intros. by split_run. Qed.

Lemma tryacquire_grp l w w' : tryacquire this l w = Some w' -> w_grp w' = w_grp w.
Proof. unfold tryacquire. intros. by split_run. Qed.

Lemma upd_key_grp w h f w' : upd_key w h f = Some w' -> w_grp w' = w_grp w.
Proof. unfold upd_key. intros. by split_run. Qed.

Lemma upd_op_grp w o f w' : upd_op w o f = Some w' -> w_grp w' = w_grp w.
Proof. unfold upd_op. intros. by split_run. Qed.

(** What is known of the steps. *)
Ltac known_run := split_run; repeat match goal with
  | H : release this _ _ = Some _ |- _ => apply release_grp in H
  | H : acquire this _ _ = Some _ |- _ => apply tryacquire_grp in H
  | H : tryacquire this _ _ = Some _ |- _ => apply tryacquire_grp in H
  | H : upd_key _ _ _ = Some _ |- _ => apply upd_key_grp in H
  | H : upd_op _ _ _ = Some _ |- _ => apply upd_op_grp in H
  end; cbn [w_grp set_w_sys set_w_q set_w_cells set_w_calls set_w_keys set_w_ops set_w_locks] in *.

Lemma unlock_grp w h w' : pj_ioqueue_unlock_key this w h = Some w' -> w_grp w' = w_grp w.
Proof. unfold pj_ioqueue_unlock_key. intros. by known_run. Qed.

Lemma lock_grp w h w' : pj_ioqueue_lock_key this w h = Some w' -> w_grp w' = w_grp w.
Proof. unfold pj_ioqueue_lock_key. intros. by known_run. Qed.

Lemma trylock_grp w h b w' : pj_ioqueue_trylock_key this w h = Some (b, w') -> w_grp w' = w_grp w.
Proof. unfold pj_ioqueue_trylock_key. intros. by known_run. Qed.

Lemma remove_grp w h e w' : ioqueue_remove_from_set2 this w h e = Some w' -> w_grp w' = w_grp w.
Proof. unfold ioqueue_remove_from_set2. intros. known_run. congruence. Qed.

Ltac locks_run := known_run; unfold ioqueue_remove_from_set in *; repeat match goal with
  | H : pj_ioqueue_unlock_key this _ _ = Some _ |- _ => apply unlock_grp in H
  | H : pj_ioqueue_lock_key this _ _ = Some _ |- _ => apply lock_grp in H
  | H : pj_ioqueue_trylock_key this _ _ = Some _ |- _ => apply trylock_grp in H
  | H : ioqueue_remove_from_set2 this _ _ _ = Some _ |- _ => apply remove_grp in H
  end; cbn [w_grp set_w_sys set_w_q set_w_cells set_w_calls set_w_keys set_w_ops set_w_locks] in *.

Lemma erase_write_grp w h l w' : erase_write this w h l = Some w' -> w_grp w' = w_grp w.
Proof. unfold erase_write. intros. locks_run; congruence. Qed.

Lemma erase_read_grp w h l w' : erase_read this w h l = Some w' -> w_grp w' = w_grp w.
Proof. unfold erase_read. intros. locks_run; congruence. Qed.

Lemma write_finish_grp w h o w' n : write_finish this w h o = Some (w', n) -> w_grp w' = w_grp w.
Proof. unfold write_finish. intros. locks_run; congruence. Qed.

Lemma read_finish_grp w h o b w' n : read_finish this w h o b = Some (w', n) -> w_grp w' = w_grp w.
Proof. unfold read_finish. intros. locks_run; congruence. Qed.

Lemma accept_op_grp w fd r rc w' : accept_op w fd r = (rc, w') -> w_grp w' = w_grp w.
Proof.
  unfold accept_op. intros. repeat match goal with H : (let '(_, _) := ?x in _) = _ |- _ => destruct x as [? ?] end.
  by simplify_eq.
Qed.

Ltac parts_run := locks_run; repeat match goal with
  | H : erase_write this _ _ _ = Some _ |- _ => apply erase_write_grp in H
  | H : erase_read this _ _ _ = Some _ |- _ => apply erase_read_grp in H
  | H : write_finish this _ _ _ = Some _ |- _ => apply write_finish_grp in H
  | H : read_finish this _ _ _ _ = Some _ |- _ => apply read_finish_grp in H
  | H : accept_op _ _ _ = _ |- _ => apply accept_op_grp in H
  end; cbn [w_grp set_w_sys set_w_q set_w_cells set_w_calls set_w_keys set_w_ops set_w_locks] in *.

Lemma write_begin_grp w h w' n : write_begin this w h = Some (w', n) -> w_grp w' = w_grp w.
Proof. unfold write_begin, write_first. intros. parts_run; congruence. Qed.

Lemma read_begin_grp w h w' n : read_begin this w h = Some (w', n) -> w_grp w' = w_grp w.
Proof. unfold read_begin, read_first, accept_first. intros. parts_run; congruence. Qed.

Lemma next_write_cb_grp w h m c w' o : next_write_cb this w h m c = Some (w', o) -> w_grp w' = w_grp w.
Proof. unfold next_write_cb. intros. locks_run; congruence. Qed.

Lemma next_read_cb_grp w h m c w' o : next_read_cb this w h m c = Some (w', o) -> w_grp w' = w_grp w.
Proof. unfold next_read_cb. intros. locks_run; congruence. Qed.

(** The group lock is one the callbacks leave alone. *)
Context (g : Z) (Happ : forall c v v', app c v = Some v' -> w_grp v' !! g = w_grp v !! g).

Lemma call_grp c w w' : call app c w = Some w' -> w_grp w' !! g = w_grp w !! g.
Proof. unfold call. by intros ->%Happ. Qed.

Lemma write_loop_grp fuel : forall w h m c n w',
  ioqueue_dispatch_write_event_no_lock this app fuel w h m c = Some (n, w') -> w_grp w' !! g = w_grp w !! g.
Proof.
  induction fuel as [|fuel IH]; intros w h m c n w' Hrun; [done|]. simpl in Hrun. split_run.
  all: repeat match goal with
    | H : next_write_cb _ _ _ _ _ = _ |- _ => apply next_write_cb_grp in H
    | H : call _ _ _ = _ |- _ => apply call_grp in H
    | H : ioqueue_dispatch_write_event_no_lock _ _ _ _ _ _ _ = _ |- _ => apply IH in H
    end; congruence.
Qed.

Lemma read_loop_grp fuel : forall w h m c n w',
  ioqueue_dispatch_read_event_no_lock this app fuel w h m c = Some (n, w') -> w_grp w' !! g = w_grp w !! g.
Proof.
  induction fuel as [|fuel IH]; intros w h m c n w' Hrun; [done|]. simpl in Hrun. split_run.
  all: repeat match goal with
    | H : next_read_cb _ _ _ _ _ = _ |- _ => apply next_read_cb_grp in H
    | H : call _ _ _ = _ |- _ => apply call_grp in H
    | H : ioqueue_dispatch_read_event_no_lock _ _ _ _ _ _ _ = _ |- _ => apply IH in H
    end; congruence.
Qed.

Ltac calls_run := locks_run; repeat match goal with
  | H : write_begin this _ _ = Some _ |- _ => apply write_begin_grp in H
  | H : read_begin this _ _ = Some _ |- _ => apply read_begin_grp in H
  | H : call app _ _ = Some _ |- _ => apply call_grp in H
  | H : ioqueue_dispatch_write_event_no_lock this app _ _ _ _ _ = Some _ |- _ => apply write_loop_grp in H
  | H : ioqueue_dispatch_read_event_no_lock this app _ _ _ _ _ = Some _ |- _ => apply read_loop_grp in H
  end; cbn [w_grp set_w_sys] in *.

Lemma dispatch_grp fuel e w b w' : dispatch this app fuel e w = Some (b, w') -> w_grp w' !! g = w_grp w !! g.
Proof.
  unfold dispatch, ioqueue_dispatch_read_event, ioqueue_dispatch_write_event, ioqueue_dispatch_exception_event.
  intros. calls_run; congruence.
Qed.
End GroupRefs.

Section PollSpec.
Context `{!SystemConstants} {S : Type} `{!SystemSockets S} (this : Z).
Implicit Types (w : world S) (k : pj_ioqueue_key_t).

(** ** Collecting the events *)

Lemma live_of_fd held w h k :
  ioq_inv held w -> h ∈ q_active (w_q w) -> w_keys w !! h = Some k -> k_fd k <> PJ_INVALID_SOCKET ->
  0 <= k_fd k < FD_SETSIZE.
Proof.
  intros Hi Ha Hk Hf. destruct (k_closing k) eqn:Hc.
  - destruct Hf. apply (iv_dead _ _ Hi h); [apply elem_of_app; by left|done..].
  - by apply (iv_fd _ _ Hi h).
Qed.

(** The state of the scan. *)
Record scanning (held : Z -> Z) (w0 w : world S) (evs : list event) : Prop := {
  sc_inv : ioq_inv (hold held evs) w;
  sc_light : light w0 w;
  sc_q : w_q w = w_q w0;
  sc_grp : w_grp w = w_grp w0;
  sc_len : Z.of_nat (length evs) <= MAX_EVENTS
}.

Lemma add_event_ok held w0 w evs h e b k f :
  scanning held w0 w evs -> can_lock this LRef w0 -> (forall x, held x < 2 ^ 31) ->
  h ∈ q_active (w_q w0) -> 0 <= k_fd k < FD_SETSIZE ->
  exists w' evs', add_event this h e b k f w evs = Some (w', evs') /\ scanning held w0 w' evs'.
Proof.
  intros Hsc Hq Hhe Ha Hfd. pose proof Hsc as [Hi [Ll Lk Ln Lc] Eq Eg Hlen]. unfold add_event.
  destruct b; [|by eauto]. unfold PJ_FD_ISSET, fd_in_range.
  assert ((0 <=? k_fd k) && (k_fd k <? FD_SETSIZE) = true) as -> by lia. simpl.
  destruct (_ && _ && _) eqn:Ec; [|by eauto]. apply andb_true_iff in Ec as [_ Hm%Z.ltb_lt].
  assert (Ha1 : h ∈ q_active (w_q w)) by (by rewrite Eq).
  destruct (iv_keys _ _ Hi h) as [k1 Hk1]; [apply elem_of_app; by left|].
  assert (Hr1 : k_ref k1 < 2 ^ 32 - 1).
  { destruct (iv_ref _ _ Hi h k1 Ha1 Hk1) as [-> _]. pose proof (hold_bound held evs h).
    specialize (Hhe h). unfold MAX_EVENTS in *. destruct (k_closing k1); lia. }
  destruct (increment_ok this _ w h k1 Hi) as [-> Hi1]; try done; [unfold can_lock; by rewrite Ll|]. simpl.
  do 2 eexists. split; [done|]. split.
  - eapply inv_ext; [|done..|exact Hi1]. intros x. apply hold_snoc.
  - split; [done|intros x kx Hx; simpl; destruct (decide (x = h)) as [->|]| |done].
    + rewrite lookup_insert_eq. destruct (Lk h kx Hx) as (k2 & Hk2 & ?). simplify_eq. by eexists.
    + rewrite lookup_insert_ne by done. by apply Lk.
    + intros x Hx. apply Ln. simpl in Hx. destruct (decide (x = h)) as [->|]; [eauto|by rewrite lookup_insert_ne in Hx].
  - done.
  - done.
  - rewrite length_app. simpl. lia.
Qed.

Lemma scan_events_ok held w0 r wr x hs w evs :
  scanning held w0 w evs -> can_lock this LRef w0 -> (forall y, held y < 2 ^ 31) ->
  (forall h, h ∈ hs -> h ∈ q_active (w_q w0)) ->
  exists w' evs', scan_events this r wr x hs w evs = Some (w', evs') /\ scanning held w0 w' evs'.
Proof.
  intros Hsc Hq Hhe. revert w evs Hsc. induction hs as [|h hs IH]; intros w evs Hsc Hs; [simpl; eauto|].
  cbn [scan_events]. destruct (negb _); [by eauto|].
  assert (Ha : h ∈ q_active (w_q w0)) by (apply Hs; by left).
  assert (Hs' : forall h0, h0 ∈ hs -> h0 ∈ q_active (w_q w0)) by (intros; apply Hs; by right).
  assert (Ha' : h ∈ q_active (w_q w)) by (by rewrite (sc_q _ _ _ _ Hsc)).
  destruct (iv_keys _ _ (sc_inv _ _ _ _ Hsc) h) as [k Hk]; [apply elem_of_app; by left|]. rewrite Hk. bind_step.
  destruct (Z.eqb_spec (k_fd k) PJ_INVALID_SOCKET) as [|Hf]; [by apply IH|].
  pose proof (live_of_fd _ _ _ _ (sc_inv _ _ _ _ Hsc) Ha' Hk Hf) as Hfd.
  pose proof (fun b e f v el Hv => add_event_ok held w0 v el h e b k f Hv Hq Hhe Ha Hfd) as Hadd.
  match goal with |- context [add_event this h WRITEABLE_EVENT ?b k ?f w evs] =>
    destruct (Hadd b WRITEABLE_EVENT f w evs Hsc) as (w1 & e1 & -> & Hsc1) end. simpl.
  match goal with |- context [add_event this h READABLE_EVENT ?b k ?f w1 e1] =>
    destruct (Hadd b READABLE_EVENT f w1 e1 Hsc1) as (w2 & e2 & -> & Hsc2) end. simpl.
  destruct (Hadd (k_connecting k) EXCEPTION_EVENT x w2 e2 Hsc2) as (w3 & e3 & -> & Hsc3). simpl.
  by apply IH.
Qed.

(** ** The references to group locks *)

(** The group lock of the key of an event, and the references that events have
    to it. *)
Definition in_group (g : Z) w (e : event) : bool :=
  match w_keys w !! e_key e with Some k => bool_decide (k_grp k = Some g) | None => false end.

Definition group_refs (g : Z) (evs : list event) w : Z :=
  Z.of_nat (length (filter (fun e => in_group g w e = true) evs)).

Lemma group_refs_cons g e evs w :
  group_refs g (e :: evs) w = (if in_group g w e then 1 else 0) + group_refs g evs w.
Proof. unfold group_refs. rewrite filter_cons. destruct (in_group g w e); case_decide; simpl; done || lia. Qed.

Lemma group_refs_ext g evs w w' :
  (forall e, e ∈ evs -> in_group g w' e = in_group g w e) -> group_refs g evs w' = group_refs g evs w.
Proof.
  induction evs as [|e evs IH]; intros He; [done|]. rewrite !group_refs_cons, He, IH; [done| |by left].
  intros e' He'. apply He. by right.
Qed.

Lemma add_refs_grp g evs : forall w w', add_refs evs w = Some w' ->
  w_grp w' !! g = (fun n => n + group_refs g evs w) <$> w_grp w !! g.
Proof.
  induction evs as [|e evs IH]; intros w w' Hrun; simpl in Hrun.
  { injection Hrun as <-. unfold group_refs. simpl. destruct (w_grp w !! g); simpl; f_equal; lia. }
  bind_inv Hrun. bind_inv Hrun. apply IH in Hrun. rewrite Hrun, group_refs_cons.
  assert (Ein : in_group g w e = bool_decide (k_grp x = Some g)) by (unfold in_group; by rewrite E). rewrite Ein.
  destruct (k_grp x) as [g'|] eqn:Eg; simpl in E0.
  - bind_inv E0. injection E0 as <-. rewrite (group_refs_ext g evs w) by done. cbn [w_grp set_w_grp].
    destruct (decide (g' = g)) as [->|Hne].
    + rewrite lookup_insert_eq, E1, bool_decide_eq_true_2 by done. simpl. f_equal. lia.
    + rewrite lookup_insert_ne, bool_decide_eq_false_2 by congruence. destruct (w_grp w !! g); simpl; f_equal; lia.
  - injection E0 as <-. rewrite bool_decide_eq_false_2 by done. destruct (w_grp w !! g); simpl; f_equal; lia.
Qed.

Lemma dec_ref_grp g g' w w' : pj_grp_lock_dec_ref g' w = Some w' ->
  w_grp w' !! g = (fun n => n - if bool_decide (g' = Some g) then 1 else 0) <$> w_grp w !! g.
Proof.
  destruct g' as [g'|]; cbn [pj_grp_lock_dec_ref]; intros Hrun.
  - bind_inv Hrun. injection Hrun as <-. cbn [w_grp set_w_grp]. destruct (decide (g' = g)) as [->|Hne].
    + by rewrite lookup_insert_eq, E, bool_decide_eq_true_2.
    + rewrite lookup_insert_ne, bool_decide_eq_false_2 by congruence. destruct (w_grp w !! g); simpl; f_equal; lia.
  - injection Hrun as <-. rewrite bool_decide_eq_false_2 by done. destruct (w_grp w !! g); simpl; f_equal; lia.
Qed.

Lemma add_ref_ok held w g :
  ioq_inv held w -> (forall x, g = Some x -> is_Some (w_grp w !! x)) ->
  exists G, pj_grp_lock_add_ref g w = Some (set_w_grp G w) /\ ioq_inv held (set_w_grp G w) /\
    (forall x, is_Some (w_grp w !! x) -> is_Some (G !! x)).
Proof.
  intros Hi Hg. destruct g as [g|]; simpl.
  - destruct (Hg g eq_refl) as [n Hn]. rewrite Hn. simpl. eexists. split; [done|].
    assert (Hm : forall x, is_Some (w_grp w !! x) -> is_Some (<[g := n + 1]> (w_grp w) !! x)).
    { intros x Hx. destruct (decide (x = g)) as [->|]; [rewrite lookup_insert_eq; eauto|by rewrite lookup_insert_ne]. }
    split; [|done]. by eapply inv_ext; [..|exact Hi].
  - exists (w_grp w). destruct w. done.
Qed.

Lemma dec_ref_ok held w g :
  ioq_inv held w -> (forall x, g = Some x -> is_Some (w_grp w !! x)) ->
  exists G, pj_grp_lock_dec_ref g w = Some (set_w_grp G w) /\ ioq_inv held (set_w_grp G w).
Proof.
  intros Hi Hg. destruct g as [g|]; simpl.
  - destruct (Hg g eq_refl) as [n Hn]. rewrite Hn. simpl. eexists. split; [done|].
    assert (Hm : forall x, is_Some (w_grp w !! x) -> is_Some (<[g := n - 1]> (w_grp w) !! x)).
    { intros x Hx. destruct (decide (x = g)) as [->|]; [rewrite lookup_insert_eq; eauto|by rewrite lookup_insert_ne]. }
    by eapply inv_ext; [..|exact Hi].
  - exists (w_grp w). destruct w. done.
Qed.

Lemma add_refs_ok held evs w :
  ioq_inv held w -> (forall e, e ∈ evs -> e_key e ∈ q_active (w_q w)) ->
  exists G, add_refs evs w = Some (set_w_grp G w) /\ ioq_inv held (set_w_grp G w).
Proof.
  revert w. induction evs as [|e evs IH]; intros w Hi He; simpl.
  { exists (w_grp w). by destruct w. }
  assert (Ha : e_key e ∈ q_active (w_q w)) by (apply He; by left).
  destruct (iv_keys _ _ Hi (e_key e)) as [k Hk]; [apply elem_of_app; by left|]. rewrite Hk. simpl.
  destruct (add_ref_ok held w (k_grp k) Hi) as (G & -> & Hi1 & _).
  { intros g Hg. apply (iv_grp _ _ Hi (e_key e) k); [apply elem_of_app; by left|done..]. }
  simpl. destruct (IH (set_w_grp G w) Hi1) as (G' & -> & Hi2).
  { intros e' He'. apply He. by right. }
  exists G'. done.
Qed.

(** ** Dispatching the events *)

Context (app : callback -> world S -> option (world S)) (others : world S -> world S).
Context (Hwb : WellBehaved this app others).

Lemma dispatch_ok held w e fuel :
  ioq_inv held w -> quiet this w -> 0 < held (e_key e) -> enough fuel w (e_key e) ->
  exists b w', dispatch this app fuel e w = Some (b, w') /\ keeps 1 held w w'.
Proof.
  intros Hi Hq Hh Hf. unfold dispatch. repeat zcase.
  - by eapply dispatch_read_ok.
  - by eapply dispatch_write_ok.
  - destruct (dispatch_exception_ok this app others Hwb held w (e_key e) Hi Hq Hh) as (b & w' & E & K).
    do 2 eexists. split; [done|]. by eapply keeps_mono; [|exact K]; lia.
  - do 2 eexists. split; [done|]. by eapply keeps_mono; [|apply keeps_refl]; [lia|].
Qed.

(** A group lock the callbacks leave alone. *)
Definition untouched_by_app (g : Z) : Prop :=
  forall c v v', app c v = Some v' -> w_grp v' !! g = w_grp v !! g.

(** The keys of the events have room for the callbacks that [n] more events may
    put off. *)
Definition roomy (n fuel : nat) (evs : list event) (w : world S) : Prop := forall e k, e ∈ evs ->
  w_keys w !! e_key e = Some k ->
  (length (k_read_cb k) + n + 1 < fuel /\ length (k_write_cb k) + n + 1 < fuel)%nat.

Lemma roomy_keeps m n fuel evs held w w' :
  keeps m held w w' -> (forall e, e ∈ evs -> is_Some (w_keys w !! e_key e)) ->
  roomy (n + m) fuel evs w -> roomy n fuel evs w'.
Proof.
  intros K Hd Hr e k' He Hk'. destruct (Hd e He) as [k Hk]. destruct (Hr e k He Hk).
  destruct (kp_grow _ _ _ _ K (e_key e) k k' Hk Hk'). lia.
Qed.

(** One event: dispatched when the limit has not been reached. *)
Lemma process_one held w e fuel cnt :
  ioq_inv held w -> quiet this w -> 0 < held (e_key e) -> enough fuel w (e_key e) ->
  exists b w', (if cnt <? PJ_IOQUEUE_MAX_EVENTS_IN_SINGLE_POLL then dispatch this app fuel e w else Some (false, w))
    = Some (b, w') /\ keeps 1 held w w' /\ (b = true -> cnt < PJ_IOQUEUE_MAX_EVENTS_IN_SINGLE_POLL) /\
    (forall g, untouched_by_app g -> w_grp w' !! g = w_grp w !! g).
Proof.
  intros Hi Hq Hh Hf. zcase.
  - destruct (dispatch_ok held w e fuel Hi Hq Hh Hf) as (b & w' & Hd & K). rewrite Hd.
    do 2 eexists. split; [done|]. split_and!; [done..|]. intros g Hg. by eapply dispatch_grp.
  - do 2 eexists. split; [done|]. split; [|done]. by eapply keeps_mono; [|apply keeps_refl]; [lia|].
Qed.

Lemma process_events_ok held fuel evs : (forall x, 0 <= held x) -> forall w cnt,
  ioq_inv (hold held evs) w -> quiet this w -> roomy (length evs) fuel evs w ->
  cnt <= PJ_IOQUEUE_MAX_EVENTS_IN_SINGLE_POLL ->
  exists n w', process_events this app fuel evs cnt w = Some (n, w') /\ ioq_inv held w' /\
    w_locks w' = w_locks w /\ cnt <= n <= PJ_IOQUEUE_MAX_EVENTS_IN_SINGLE_POLL /\
    (forall g, untouched_by_app g -> w_grp w' !! g = (fun n => n - group_refs g evs w) <$> w_grp w !! g).
Proof.
  intros H0. induction evs as [|e evs IH]; intros w cnt Hi Hq Hroom Hcnt; cbn [process_events].
  { do 2 eexists. split; [done|]. split_and!; try done; try lia.
    - eapply inv_ext; [|done..|exact Hi]. intros x. unfold hold. simpl. lia.
    - intros g _. unfold group_refs. simpl. destruct (w_grp w !! g); simpl; f_equal; lia. }
  assert (Hh : 0 < hold held (e :: evs) (e_key e)) by (apply hold_pos; [done|by left]).
  destruct (process_one (hold held (e :: evs)) w e fuel cnt Hi Hq Hh) as (b & w1 & -> & K1 & Hb & Hg1).
  { intros k Hk. destruct (Hroom e k); [by left|done|]. simpl in *. lia. }
  rewrite bind_some_eq. cbv beta iota.
  destruct (decrement_ok this _ w1 (e_key e) (kp_inv _ _ _ _ K1) (keeps_quiet _ _ _ _ _ K1 Hq) Hh)
    as (w2 & -> & Hi2 & Lt & Eg & Hin). bind_step.
  destruct (iv_keys _ _ Hi2 (e_key e)) as [k2 Hk2].
  { unfold all_keys. rewrite app_assoc. apply elem_of_app. by left. }
  rewrite Hk2. bind_step.
  destruct (dec_ref_ok _ w2 (k_grp k2) Hi2) as (G & Edec & Hi3).
  { intros g Hg. by apply (iv_grp _ _ Hi2 (e_key e) k2). }
  rewrite Edec. bind_step. set (w3 := set_w_grp G w2) in *.
  assert (Hi4 : ioq_inv (hold held evs) w3).
  { eapply inv_ext; [|done..|exact Hi3]. intros x. apply hold_cons. }
  assert (Hex : forall e', e' ∈ evs -> is_Some (w_keys w !! e_key e')).
  { intros e' He'. eapply held_key; [exact Hi|]. apply hold_pos; [done|by right]. }
  destruct (IH w3 (if b then cnt + 1 else cnt)) as (n & w' & -> & Hi' & Hl' & Hn & Hg'); try done.
  - eapply quiet_ext; [|exact Hq]. simpl. by rewrite (lt_locks _ _ Lt), (kp_locks _ _ _ _ K1).
  - assert (Hr1 : roomy (length evs) fuel evs w1).
    { eapply (roomy_keeps 1); [exact K1|done|]. intros e' k He' Hk. destruct (Hroom e' k); [by right|done|].
      simpl in *. lia. }
    intros e' k He' Hk. destruct (kp_dom _ _ _ _ K1 _ (Hex e' He')) as [k1 Hk1].
    destruct (lt_keys _ _ Lt _ _ Hk1) as (k2' & Hk2' & _ & R2 & W2 & _). simpl in Hk.
    rewrite Hk2' in Hk. injection Hk as <-. rewrite R2, W2. by apply (Hr1 e').
  - destruct b; [|done]. specialize (Hb eq_refl). lia.
  - do 2 eexists. split; [done|]. split_and!; try done.
    + rewrite Hl'. simpl. by rewrite (lt_locks _ _ Lt), (kp_locks _ _ _ _ K1).
    + destruct b; lia.
    + lia.
    + intros g Hg. rewrite (Hg' g Hg), (dec_ref_grp g _ _ _ Edec), Eg, (Hg1 g Hg), group_refs_cons.
      assert (Hin2 : forall e', e' ∈ e :: evs -> in_group g w2 e' = in_group g w e').
      { intros e' He'. assert (Hh' : 0 < hold held (e :: evs) (e_key e')) by (by apply hold_pos).
        destruct (held_key _ _ _ Hi Hh') as [k' Hk']. destruct (kp_grp _ _ _ _ K1 _ _ Hh' Hk') as (k1 & Hk1 & E1).
        destruct (lt_keys _ _ Lt _ _ Hk1) as (k3 & Hk3 & E3 & _). unfold in_group. by rewrite Hk', Hk3, E3, E1. }
      rewrite (group_refs_ext g evs w w3) by (intros; apply Hin2; by right).
      rewrite <-(Hin2 e) by by left. unfold in_group. rewrite Hk2.
      destruct (w_grp w !! g); simpl; f_equal. case_bool_decide; lia.
Qed.

Lemma inv_locks held w L : ioq_inv held w -> ioq_inv held (set_w_locks L w).
Proof. by intros []. Qed.

(** The part of a poll after [select]: the events are collected under the lock
    of the queue, and then dispatched. *)
Definition poll_events (fuel : nat) (r wr x : pj_fd_set_t) (w : world S) : option (Z * world S) :=
  w ← acquire this LIoq w;
  '(w, evs) ← scan_events this r wr x (q_active (w_q w)) w [];
  w ← add_refs evs w;
  w ← release this LIoq w;
  process_events this app fuel evs 0 w.

Lemma poll_events_ok held fuel r wr x w :
  ioq_inv held w -> quiet this w -> (forall h, held h < 2 ^ 31) ->
  (forall h k, w_keys w !! h = Some k ->
    (length (k_read_cb k) + 17 < fuel /\ length (k_write_cb k) + 17 < fuel)%nat) ->
  exists n w', poll_events fuel r wr x w = Some (n, w') /\
    ioq_inv held w' /\ w_locks w' = w_locks w /\ 0 <= n <= PJ_IOQUEUE_MAX_EVENTS_IN_SINGLE_POLL /\
    (forall g, untouched_by_app g -> w_grp w' !! g = w_grp w !! g).
Proof.
  intros Hi Hq Hhe Hroom. unfold poll_events. rewrite acquire_can by apply Hq. bind_step.
  set (w1 := locked this LIoq w). pose proof (fun y => proj1 (iv_held _ _ Hi y)) as Hpos.
  assert (Hi1 : ioq_inv (hold held []) w1).
  { apply inv_locks. apply (inv_held_ext held); [|done]. intros y. unfold hold. simpl. lia. }
  destruct (scan_events_ok held w1 r wr x (q_active (w_q w1)) w1 []) as (w2 & evs & -> & [Hi2 Lt Eq Eg Hlen]);
    try done; [split; try done; apply light_refl|apply can_lock_other; [done|apply Hq]|].
  rewrite bind_some_eq. cbv beta iota.
  destruct (add_refs_ok _ evs w2 Hi2) as (G & Eadd & Hi3).
  { intros e He. by apply (held_active _ _ _ Hi2), hold_pos. }
  rewrite Eadd. bind_step. rewrite (release_locked this LIoq w); [|apply Hq|exact (lt_locks _ _ Lt)]. bind_step.
  set (w3 := set_w_locks (w_locks w) (set_w_grp G w2)).
  destruct (process_events_ok held fuel evs Hpos w3 0) as (n & w' & -> & Hi' & Hl' & Hn & Hg').
  - by apply inv_locks.
  - by eapply quiet_ext.
  - intros e k He Hk. simpl in Hk.
    assert (is_Some (w_keys w1 !! e_key e)) as [k1 Hk1].
    { apply (iv_keys _ _ Hi). apply elem_of_app. left.
      assert (e_key e ∈ q_active (w_q w2)) as Ha; [|by rewrite Eq in Ha].
      by apply (held_active _ _ _ Hi2), hold_pos. }
    destruct (lt_keys _ _ Lt _ _ Hk1) as (k2 & Hk2 & _ & R2 & W2 & _). rewrite Hk2 in Hk. injection Hk as <-.
    rewrite R2, W2. destruct (Hroom _ _ Hk1). unfold MAX_EVENTS in Hlen. lia.
  - unfold PJ_IOQUEUE_MAX_EVENTS_IN_SINGLE_POLL. lia.
  - do 2 eexists. split; [done|]. split_and!; try (done || lia). intros g Hg.
    rewrite (Hg' g Hg). change (w_grp w3) with (w_grp (set_w_grp G w2)).
    rewrite (add_refs_grp g _ _ _ Eadd), Eg, (group_refs_ext g evs w2 w3) by done. simpl.
    destruct (w_grp w !! g); simpl; f_equal. lia.
Qed.

(** The number of events, or minus the error of the call of [select]. *)
Definition poll_result (timeout : option pj_time_val) (w : world S) (n : Z) : Prop :=
  0 <= n <= PJ_IOQUEUE_MAX_EVENTS_IN_SINGLE_POLL \/
  exists count r wr x s,
    pj_sock_select (w_sys w) (q_nfds (w_q w) + 1) (q_r (w_q w)) (q_w (w_q w)) (q_x (w_q w)) timeout
      = (count, r, wr, x, s) /\ count < 0 /\ n = - pj_get_netos_error s.

Lemma poll_none n timeout w : n = 0 -> poll_result timeout w n.
Proof. intros ->. left. done. Qed.

(** C5 A poll always returns, whatever the callbacks and the other threads do
    within their contract, which has one thread poll the queue: it never touches
    a key that has been recycled, an operation that is gone or a descriptor out
    of range, and never waits for a lock it has itself.  It dispatches at most
    sixteen events and keeps the invariant of the queue; it gives back every
    lock and every reference to a key, and the counter of a group lock that the
    callbacks and the other threads leave alone is what it was.  The result is
    the number of events or minus the error of [select]. *)
Theorem ioqueue_poll_safe held fuel timeout w :
  ioq_inv held w -> quiet this w -> (forall h, held h < 2 ^ 31) ->
  (forall h k, w_keys w !! h = Some k ->
    (length (k_read_cb k) + 17 < fuel /\ length (k_write_cb k) + 17 < fuel)%nat) ->
  exists n w', pj_ioqueue_poll this app others fuel timeout w = Some (n, w') /\
    ioq_inv held w' /\ w_locks w' = w_locks w /\ poll_result timeout w n /\
    (forall g, untouched_by_app g -> (forall v, w_grp (others v) !! g = w_grp v !! g) ->
       w_grp w' !! g = w_grp w !! g).
Proof.
  intros Hi Hq Hhe Hroom. unfold pj_ioqueue_poll. rewrite acquire_can by apply Hq. bind_step.
  assert (Hrel : forall v, w_locks v = w_locks (locked this LIoq w) ->
    release this LIoq v = Some (set_w_locks (w_locks w) v)) by (intros; by apply release_locked).
  destruct (_ && _ && _).
  - destruct (scan_closing_keys_ok held (locked this LIoq w)) as (now & s & w1 & _ & -> & Hi1 & _ & Hl1 & Hg1 & _);
      [by apply inv_locks|]. bind_step. rewrite Hrel by done. bind_step.
    assert (Hi2 : ioq_inv held (set_w_locks (w_locks w) w1)) by by apply inv_locks.
    do 2 eexists. split; [done|].
    destruct timeout; [|split_and!; [done..|by apply poll_none|]; intros g _ _; cbn; by rewrite Hg1].
    destruct (wb_others _ _ _ Hwb held _ Hi2) as [I L _ _ _ _]; [by eapply quiet_ext|].
    split_and!; [done..|by apply poll_none|]. intros g _ Ho. rewrite Ho. cbn. by rewrite Hg1.
  - rewrite Hrel by done. bind_step. rewrite locked_back.
    destruct (pj_sock_select _ _ _ _ _ _) as [[[[count r] wr] x] s] eqn:Es.
    destruct (wb_others _ _ _ Hwb held _ (inv_sys held w s Hi)) as [I L _ _ N G]; [by eapply quiet_ext|].
    set (w1 := others (set_w_sys s w)) in *.
    assert (Hg1 : forall g, (forall v, w_grp (others v) !! g = w_grp v !! g) -> w_grp w1 !! g = w_grp w !! g)
      by (intros g Ho; unfold w1; by rewrite Ho).
    destruct (Z.eqb_spec count 0) as [_|_]; [do 2 eexists; split; [done|]; by split_and!; [..|apply poll_none|auto]|].
    destruct (Z.ltb_spec count 0) as [Hneg|_].
    { do 2 eexists. split; [done|]. split_and!; [done..| |by auto]. right. eauto 10. }
    destruct (poll_events_ok held fuel r wr x w1 I) as (n & w' & E & I' & L' & Hn & G').
    + by eapply quiet_ext.
    + done.
    + intros h k1 Hk1. destruct (N h) as [k Hk]; [by eauto|]. destruct (G h k k1 Hk Hk1), (Hroom h k Hk). lia.
    + exists n, w'. split; [exact E|]. split_and!; [done|by rewrite L', L|by left|].
      intros g Ha Ho. by rewrite (G' g Ha), Hg1.
Qed.
End PollSpec.
