(* ===== verification/IoQueueRegister.v ===== *)
(** * Registering sockets

    Registration takes a key that nobody refers to any more, and the errors
    leave the queue as it was. *)
From S2P Require Import Prelude TimeVal SockBsd IoQueueData IoQueue IoQueueInv IoQueueDispatch IoQueuePoll IoQueueKeys IoQueueOps.

Section Register.
Context `{!SystemConstants} {S : Type} `{!SystemSockets S} (this : Z).
Implicit Types (w : world S) (k : pj_ioqueue_key_t).

(** The key as the registration leaves it, with its reference counter one. *)
Definition registered (k : pj_ioqueue_key_t) (sock ty : Z) (conc : bool) (grp : option Z) (user_data : Z)
    (cb : pj_ioqueue_callback) : pj_ioqueue_key_t :=
  set_k_grp grp (set_k_type ty (set_k_conc conc (set_k_fd sock (set_k_user user_data (set_k_read []
    (set_k_write [] (set_k_accept [] (set_k_connecting false (set_k_read_cb [] (set_k_read_thread None
    (set_k_write_cb [] (set_k_write_thread None (set_k_closing false (set_k_cb cb (set_k_ref 1 k))))))))))))))).

Definition grp_bumped (grp : option Z) (w : world S) : gmap Z Z :=
  match grp with None => w_grp w | Some g => <[g := default 0 (w_grp w !! g) + 1]> (w_grp w) end.

Lemma put_put h k k' w s : put_key h k' (set_w_sys s (put_key h k w)) = put_key h k' (set_w_sys s w).
Proof. unfold put_key. simpl. by rewrite insert_insert_eq. Qed.

Lemma put_put_same h k k' w : put_key h k' (put_key h k w) = put_key h k' w.
Proof. unfold put_key. simpl. by rewrite insert_insert_eq. Qed.

(** The type of the socket, and the state of the system after the question. *)
Definition socket_type (s : S) (sock : Z) : Z * S :=
  let '(rc, value, s) := pj_sock_getsockopt s sock SO_TYPE in
  (if negb (rc =? PJ_SUCCESS) then SOCK_STREAM else value, s).

Lemma init_key_eq w h k sock grp user_data cb :
  w_keys w !! h = Some k -> k_ref k = 0 -> (forall g, grp = Some g -> is_Some (w_grp w !! g)) ->
  let '(ty, s) := socket_type (w_sys w) sock in
  ioqueue_init_key w h sock grp user_data cb = Some (PJ_SUCCESS,
    set_w_grp (grp_bumped grp w) (put_key h (registered k sock ty (q_conc (w_q w)) grp user_data cb) (set_w_sys s w))).
Proof.
  intros Hk Hr Hg. destruct (socket_type (w_sys w) sock) as [ty s] eqn:Et. unfold socket_type in Et.
  unfold ioqueue_init_key. rewrite (upd_key_some w h k) by done. bind_step. rewrite Hr.
  unfold pj_ioqueue_set_concurrency. set (k0 := set_k_fd _ _).
  rewrite (upd_key_some (put_key h k0 w) h k0) by (simpl; by rewrite lookup_insert_eq). bind_step.
  rewrite bind_some_eq. cbv beta iota. cbn [negb Z.eqb PJ_SUCCESS]. rewrite put_put_same.
  simpl w_sys. destruct (pj_sock_getsockopt (w_sys w) sock SO_TYPE) as [[rc v] s']. injection Et as -> ->.
  erewrite upd_key_some by (simpl; by rewrite lookup_insert_eq). bind_step. rewrite put_put.
  unfold pj_grp_lock_add_ref, grp_bumped. destruct grp as [g|]; [|by destruct w].
  destruct (Hg g eq_refl) as [n Hn]. simpl w_grp. rewrite Hn. done.
Qed.

(** ** The invariant *)

Lemma free_idle held w h rest k :
  ioq_inv held w -> q_free (w_q w) = h :: rest -> w_keys w !! h = Some k ->
  (h ∉ q_active (w_q w)) /\ (h ∉ q_closing (w_q w)) /\ (h ∉ rest) /\ k_ref k = 0 /\ held h = 0.
Proof.
  intros Hi Hf Hk. pose proof (iv_lists _ _ Hi) as Hnd. destruct (lists_apart _ Hnd) as (_ & _ & LF).
  assert (Hin : h ∈ q_free (w_q w)) by (rewrite Hf; by left). destruct (LF h Hin) as [Ha Hc].
  split_and!; try done.
  - unfold all_keys in Hnd. rewrite Hf in Hnd. apply NoDup_app in Hnd as (_ & _ & (_ & _ & Hnd)%NoDup_app).
    by apply NoDup_cons in Hnd as [? _].
  - apply (iv_idle _ _ Hi h); [apply elem_of_app; by right|done].
  - destruct (iv_held _ _ Hi h) as [H0 H1]. destruct (decide (held h = 0)); [done|]. destruct Ha. apply H1. lia.
Qed.

Lemma inv_register held w h rest k k' G m :
  ioq_inv held w -> q_free (w_q w) = h :: rest -> w_keys w !! h = Some k ->
  (forall g, is_Some (w_grp w !! g) -> is_Some (G !! g)) ->
  (forall g, k_grp k' = Some g -> is_Some (G !! g)) ->
  k_ref k' = 1 -> k_closing k' = false -> op_lists k' = [] -> 0 <= k_fd k' < FD_SETSIZE ->
  (forall x kx, live_key w x kx -> k_fd kx <> k_fd k') ->
  k_fd k' <= m -> (forall x kx, live_key w x kx -> k_fd kx <= m) ->
  ioq_inv held (set_w_q (set_q_nfds m (set_q_count (q_count (w_q w) + 1)
    (set_q_active (q_active (w_q w) ++ [h]) (set_q_free rest (w_q w))))) (set_w_grp G (put_key h k' w))).
Proof.
  intros Hi Hf Hk HG Hg Href Hcl Hops Hfd Hdis Hm1 Hm2. set (w' := set_w_q _ _).
  destruct (free_idle _ _ _ _ _ Hi Hf Hk) as (Hna & Hnc & Hnr & Hr0 & Hh0).
  assert (Hlk : live_key w' h k').
  { split_and!; [simpl; apply elem_of_app; right; by left|simpl; by rewrite lookup_insert_eq|done]. }
  apply (inv_change held _ w _ h k'); try done.
  - apply (iv_sets _ _ Hi).
  - pose proof (iv_lists _ _ Hi) as Hnd. unfold all_keys in *. simpl. rewrite Hf in Hnd.
    eapply NoDup_Permutation_proper; [|exact Hnd]. rewrite <-app_assoc. apply Permutation_app; [done|].
    simpl. apply Permutation_middle.
  - intros x Hx. simpl. rewrite elem_of_app, list_elem_of_singleton. tauto.
  - intros x Hx. simpl. rewrite Hf, elem_of_cons. tauto.
  - split; simpl; try done.
    + intros _. rewrite Hcl, Href, Hh0. lia.
    + rewrite elem_of_app. tauto.
    + congruence.
    + rewrite Hh0. split; [lia|]. intros. lia.
    + intros g _. apply Hg.
    + intros o _. by rewrite Hops, elem_of_nil.
  - intros x kx Lx. simpl. destruct (decide (x = h)) as [->|Hx].
    + destruct Lx as (_ & Lx & _), Hlk as (_ & Lh & _). rewrite Lx in Lh. by injection Lh as ->.
    + apply (Hm2 x). destruct Lx as (L1 & L2 & L3). simpl in *. rewrite lookup_insert_ne in L2 by done.
      rewrite elem_of_app, list_elem_of_singleton in L1. by destruct L1.
  - intros x kx Hx Lx _. by apply (Hdis x).
  - intros fd Hw. left. destruct (iv_watched _ _ Hi fd Hw) as (x & kx & Lx & E). exists x, kx. split; [|done].
    intros ->. by destruct Lx as (? & _).
  - simpl. rewrite (iv_count _ _ Hi), filter_app, length_app, (filter_live_ext w w').
    + rewrite filter_cons_True; [simpl; lia|]. unfold is_live. simpl. by rewrite lookup_insert_eq, Hcl.
    + intros x Hx. apply (is_live_other _ _ h k'); [done|]. by intros ->.
Qed.

(** A key that could not be used goes to the end of the free list. *)
Lemma inv_put_back held w h rest k k' G :
  ioq_inv held w -> q_free (w_q w) = h :: rest -> w_keys w !! h = Some k ->
  (forall g, is_Some (w_grp w !! g) -> is_Some (G !! g)) -> k_ref k' = 0 ->
  ioq_inv held (set_w_q (set_q_free (rest ++ [h]) (w_q w)) (set_w_grp G (put_key h k' w))).
Proof.
  intros Hi Hf Hk HG Href. set (w' := set_w_q _ _).
  destruct (free_idle _ _ _ _ _ Hi Hf Hk) as (Hna & Hnc & Hnr & Hr0 & Hh0).
  assert (Hac : h ∉ q_active (w_q w) ++ q_closing (w_q w)) by (rewrite elem_of_app; tauto).
  apply (inv_change held _ w _ h k'); try done.
  - apply (iv_sets _ _ Hi).
  - pose proof (iv_lists _ _ Hi) as Hnd. unfold all_keys in *. simpl. rewrite Hf in Hnd.
    eapply NoDup_Permutation_proper; [|exact Hnd]. do 2 (apply Permutation_app; [done|]). by rewrite Permutation_app_comm.
  - intros x Hx. simpl. rewrite Hf, elem_of_cons, elem_of_app, list_elem_of_singleton. tauto.
  - split; simpl; try done.
    rewrite Hh0. split; [lia|]. intros. lia.
  - intros x kx (L1 & L2 & L3). simpl in *. rewrite lookup_insert_ne in L2 by (by intros ->). by apply (iv_fd _ _ Hi x).
  - by intros x kx Hx Lx (? & _).
  - intros fd Hw. left. destruct (iv_watched _ _ Hi fd Hw) as (x & kx & Lx & E). exists x, kx. split; [|done].
    intros ->. by destruct Lx as (? & _).
  - simpl. rewrite (iv_count _ _ Hi), (filter_live_ext w w'); [done|].
    intros x Hx. apply (is_live_other _ _ h k'); [done|]. by intros ->.
Qed.

(** ** The operation *)

(** A key that may be given out: one never used, or closed and not referred to
    any more for long enough. *)
Definition reusable (w : world S) (h : Z) : Prop :=
  h ∈ q_free (w_q w) \/
  h ∈ q_closing (w_q w) /\ exists k, w_keys w !! h = Some k /\
    PJ_TIME_VAL_GTE (fst (pj_gettickcount (w_sys w))) (k_free_time k) = true.

(** Why a registration is refused. *)
Definition refused (w : world S) (sock st : Z) : Prop :=
  sock = PJ_INVALID_SOCKET /\ st = PJ_EINVAL \/
  FD_SETSIZE <= sock /\ st = PJ_ETOOBIG \/
  (q_max (w_q w) <= q_count (w_q w) \/ forall h, ~ reusable w h) /\ st = PJ_ETOOMANY \/
  exists s nb s', set_nonblocking s sock = (nb, s') /\ nb <> 0 /\ st = pj_get_netos_error s'.

Definition register_ok (held : Z -> Z) (w : world S) (sock : Z) (grp : option Z) (user_data : Z)
    (cb : pj_ioqueue_callback) (r : option (Z * option Z * world S)) : Prop :=
  exists st key w', r = Some (st, key, w') /\ ioq_inv held w' /\ w_locks w' = w_locks w /\
    (forall x, x ∈ q_active (w_q w) -> w_keys w' !! x = w_keys w !! x) /\
    match key with
    | Some h => st = PJ_SUCCESS /\ reusable w h /\ held h = 0 /\
        q_active (w_q w') = q_active (w_q w) ++ [h] /\
        q_count (w_q w') = q_count (w_q w) + 1 /\ q_count (w_q w') <= q_max (w_q w) /\
        exists k ty, w_keys w !! h = Some k /\
          w_keys w' !! h = Some (registered k sock ty (q_conc (w_q w)) grp user_data cb)
    | None => q_active (w_q w') = q_active (w_q w) /\ q_count (w_q w') = q_count (w_q w) /\ refused w sock st
    end.

Lemma grp_bumped_mono grp w g : is_Some (w_grp w !! g) -> is_Some (grp_bumped grp w !! g).
Proof.
  intros Hg. unfold grp_bumped. destruct grp as [g'|]; [|done].
  destruct (decide (g = g')) as [->|]; [rewrite lookup_insert_eq; eauto|by rewrite lookup_insert_ne].
Qed.

(** [fcntl] sets [errno] when it fails. *)
Definition fcntl_errno (sock : Z) : Prop := forall s nb s',
  set_nonblocking s sock = (nb, s') -> nb <> 0 -> (pj_get_netos_error s' =? PJ_SUCCESS) = false.

(** The part of a registration for a key from the free list. *)
Definition use_key (w : world S) (h sock : Z) (rest : list Z) (grp : option Z) (user_data : Z)
    (cb : pj_ioqueue_callback) : option (Z * option Z * world S) :=
  let w := upd_q w (set_q_free rest) in
  '(rc, w) ← ioqueue_init_key w h sock grp user_data cb;
  if negb (rc =? PJ_SUCCESS) then w ← release this LIoq w; Some (rc, None, w) else
  let '(nb, s) := set_nonblocking (w_sys w) sock in
  let w := set_w_sys s w in
  if negb (nb =? 0) then
    let rc := pj_get_netos_error s in
    if rc =? PJ_SUCCESS then w ← release this LIoq w; Some (rc, Some h, w) else
    w ← register_failed w h;
    w ← release this LIoq w; Some (rc, None, w)
  else
    w ← rescan_fdset (upd_q w (fun q => set_q_count (q_count q + 1) (set_q_active (q_active q ++ [h]) q)));
    w ← release this LIoq w; Some (PJ_SUCCESS, Some h, w).

Lemma use_key_ok held w0 w h rest k sock grp user_data cb :
  can_lock this LIoq w0 -> w_locks w = w_locks (locked this LIoq w0) ->
  ioq_inv held w -> q_free (w_q w) = h :: rest -> w_keys w !! h = Some k ->
  0 <= sock < FD_SETSIZE -> (forall x kx, live_key w x kx -> k_fd kx <> sock) ->
  (forall g, grp = Some g -> is_Some (w_grp w !! g)) -> fcntl_errno sock ->
  exists st key w', use_key w h sock rest grp user_data cb = Some (st, key, w') /\ ioq_inv held w' /\
    w_locks w' = w_locks w0 /\ (forall x, x <> h -> w_keys w' !! x = w_keys w !! x) /\
    match key with
    | Some h' => h' = h /\ st = PJ_SUCCESS /\ q_active (w_q w') = q_active (w_q w) ++ [h] /\
        q_count (w_q w') = q_count (w_q w) + 1 /\
        exists ty, w_keys w' !! h = Some (registered k sock ty (q_conc (w_q w)) grp user_data cb)
    | None => q_active (w_q w') = q_active (w_q w) /\ q_count (w_q w') = q_count (w_q w) /\
        exists s nb s', set_nonblocking s sock = (nb, s') /\ nb <> 0 /\ st = pj_get_netos_error s'
    end.
Proof.
  intros Hcl Hlk Hi Hf Hk Hsock Hdis Hg Hfc. unfold use_key.
  destruct (free_idle _ _ _ _ _ Hi Hf Hk) as (Hna & Hnc & Hnr & Hr0 & Hh0).
  pose proof (init_key_eq (upd_q w (set_q_free rest)) h k sock grp user_data cb Hk Hr0 Hg) as Hin.
  destruct (socket_type _ sock) as [ty s]. rewrite Hin. clear Hin. rewrite bind_some_eq. cbv beta iota.
  cbn [negb Z.eqb PJ_SUCCESS]. set (w1 := set_w_grp _ _). set (k1 := registered _ _ _ _ _ _ _) in *.
  destruct (set_nonblocking (w_sys w1) sock) as [nb s'] eqn:Enb. cbv beta zeta.
  assert (Hk1 : w_keys (set_w_sys s' w1) !! h = Some k1) by (simpl; by rewrite lookup_insert_eq).
  assert (Hg1 : forall g, grp = Some g -> is_Some (grp_bumped grp w !! g)) by (intros; by apply grp_bumped_mono, Hg).
  assert (Hrel : forall v : world S, w_locks v = w_locks w -> release this LIoq v = Some (set_w_locks (w_locks w0) v)).
  { intros v E. apply release_locked; [done|congruence]. }
  destruct (Z.eqb_spec nb 0) as [->|Hnb]; cbn [negb].
  - set (w2 := upd_q (set_w_sys s' w1) _).
    destruct (rescan_spec w2) as (m & -> & Hm).
    { intros x [Hx|Hx%list_elem_of_singleton]%elem_of_app; simpl.
      - rewrite lookup_insert_ne by (by intros ->). apply (iv_keys _ _ Hi). apply elem_of_app. by left.
      - rewrite Hx, lookup_insert_eq. eauto. }
    bind_step. rewrite Hrel by done. bind_step. do 3 eexists. split; [done|]. split_and!; try done.
    + refine (inv_ext _ _ _ _ _ _ _ _ _ (inv_register held w h rest k k1 (grp_bumped grp w) m Hi Hf Hk _ _ _ _ _ _ _ _ _));
        try done.
      * apply grp_bumped_mono.
      * apply (Hm h k1); [apply elem_of_app; right; by left|done].
      * intros x kx (L1 & L2 & _). apply (Hm x kx); [apply elem_of_app; by left|].
        simpl. rewrite lookup_insert_ne; [done|by intros ->].
    + intros x Hx. simpl. by rewrite lookup_insert_ne.
    + exists ty. done.
  - assert ((pj_get_netos_error s' =? PJ_SUCCESS) = false) as -> by by eapply Hfc.
    unfold register_failed. rewrite Hk1. bind_step.
    assert (exists G, pj_grp_lock_dec_ref (k_grp k1) (set_w_sys s' w1) = Some (set_w_grp G (set_w_sys s' w1)) /\
      forall g, is_Some (w_grp w !! g) -> is_Some (G !! g)) as (G & -> & HG).
    { unfold pj_grp_lock_dec_ref. cbn [k_grp k1 registered set_k_grp]. destruct grp as [g|].
      - simpl. rewrite lookup_insert_eq. simpl. eexists. split; [done|]. intros g' Hg'.
        destruct (decide (g' = g)) as [->|]; [rewrite lookup_insert_eq; eauto|by rewrite !lookup_insert_ne].
      - exists (w_grp w). done. }
    bind_step. rewrite (upd_key_some _ h k1) by done. bind_step. bind_step. rewrite Hrel by done. bind_step.
    do 3 eexists. split; [done|]. split_and!; try done.
    + refine (inv_ext _ _ _ _ _ _ _ _ _ (inv_put_back held w h rest k (set_k_grp None (set_k_ref 0 k1)) G Hi Hf Hk _ _));
        try done. simpl. by rewrite insert_insert_eq.
    + intros x Hx. simpl. by rewrite !lookup_insert_ne.
    + do 3 eexists. split; [exact Enb|done].
Qed.

(** C9 A registration gives out a key that nobody refers to: one that was never
    used, or that was closed and whose delay has passed.  The key is the last of
    the active ones, with one reference, no operations and the given callbacks,
    and the keys in use are as before; the invariant is kept and the lock given
    back.  It is refused only for an invalid or too large descriptor, when the
    queue is full or no key can be reused, or when the socket cannot be made
    non-blocking, and the active keys and their number are then as before. *)
Theorem register_correct held w sock grp user_data cb :
  ioq_inv held w -> quiet this w -> sizeof_fd_set < FD_SETSIZE -> PJ_INVALID_SOCKET <= sock ->
  (forall x k, live_key w x k -> k_fd k <> sock) -> (forall g, grp = Some g -> is_Some (w_grp w !! g)) -> fcntl_errno sock ->
  register_ok held w sock grp user_data cb (pj_ioqueue_register_sock2 this w sock grp user_data cb).
Proof.
  intros Hi Hq Hsz Hlo Hdis Hg Hfc. unfold pj_ioqueue_register_sock2.
  assert (Hrefuse : forall st v, ioq_inv held v -> w_locks v = w_locks w -> w_keys v = w_keys w ->
    q_active (w_q v) = q_active (w_q w) -> q_count (w_q v) = q_count (w_q w) -> refused w sock st ->
    register_ok held w sock grp user_data cb (Some (st, None, v))).
  { intros st v I L K A C R. do 3 eexists. split; [done|]. split_and!; try done. intros. by rewrite K. }
  destruct (Z.eqb_spec sock PJ_INVALID_SOCKET) as [->|Hne]; [apply Hrefuse; try done; by left|].
  assert ((sizeof_fd_set <? FD_SETSIZE) = true) as -> by lia. simpl andb.
  destruct (Z.leb_spec FD_SETSIZE sock); [apply Hrefuse; try done; right; by left|].
  rewrite acquire_can by apply Hq. bind_step. set (w1 := locked this LIoq w).
  assert (Hrel : forall v : world S, w_locks v = w_locks w1 -> release this LIoq v = Some (set_w_locks (w_locks w) v)).
  { intros v E. apply release_locked; [apply Hq|done]. }
  assert (Hi1 : ioq_inv held w1) by by destruct Hi.
  destruct (Z.leb_spec (q_max (w_q w1)) (q_count (w_q w1))) as [Hmax|Hmax].
  { rewrite Hrel by done. bind_step. unfold w1. rewrite locked_back. apply Hrefuse; try done. do 2 right. left. auto. }
  destruct (scan_closing_keys_ok held w1 Hi1) as
    (now & s & w2 & Et & -> & Hi2 & K2 & L2 & G2 & O2 & C2 & A2 & N2 & M2 & Q2 & Hfree). bind_step.
  assert (Hreuse : forall h, h ∈ q_free (w_q w2) <-> reusable w h).
  { intros h. rewrite Hfree. unfold reusable. change (w_sys w) with (w_sys w1). by rewrite Et. }
  destruct (q_free (w_q w2)) as [|h rest] eqn:Hf.
  { rewrite Hrel by done. bind_step. apply Hrefuse; try done; [by destruct Hi2|]. do 2 right. left. split; [|done].
    right. intros h Hr. apply Hreuse in Hr. by apply elem_of_nil in Hr. }
  fold (use_key w2 h sock rest grp user_data cb).
  destruct (iv_keys _ _ Hi2 h) as [k Hk]; [unfold all_keys; rewrite Hf, !elem_of_app; right; right; by left|].
  destruct (free_idle _ _ _ _ _ Hi2 Hf Hk) as (Hna & _ & _ & _ & Hh0).
  destruct (use_key_ok held w w2 h rest k sock grp user_data cb) as (st & key & w' & -> & I' & L' & K' & Hres); try done.
  - unfold PJ_INVALID_SOCKET in *. lia.
  - intros x kx (X1 & X2 & X3). apply (Hdis x). split_and!; [by rewrite A2 in X1|by rewrite K2 in X2|done].
  - intros g Hgg. rewrite G2. by apply Hg.
  - rewrite A2, N2, Q2, ?K2 in *. do 3 eexists. split; [done|]. split_and!; try done.
    + intros x Hx. rewrite K' by (intros ->; by apply Hna). done.
    + destruct key as [h'|].
      * destruct Hres as (-> & -> & E1 & E2 & ty & E3). split_and!; try done; [apply Hreuse; by left|simpl in *; lia|].
        exists k, ty. done.
      * destruct Hres as (E1 & E2 & E3). split_and!; try done. by do 3 right.
Qed.
End Register.
