(* ===== verification/IoQueueUnregister.v ===== *)
(** * Unregistering keys

    A key is closed at once, its pending writes are reported to the
    application, and it is retired when the last poller has let go of it. *)
From S2P Require Import Prelude TimeVal SockBsd IoQueueData IoQueue IoQueueInv IoQueueDispatch IoQueuePoll IoQueueKeys IoQueueOps IoQueuePollSpec.

Section Close.
Context `{!SystemConstants} {S : Type} `{!SystemSockets S} (this : Z).
Implicit Types (w : world S) (k : pj_ioqueue_key_t).

Definition ALL_EVENTS : Z := Z.lor READABLE_EVENT (Z.lor WRITEABLE_EVENT EXCEPTION_EVENT).

(** The key and the queue after the first part of the unregistration. *)
Definition closed_key (k : pj_ioqueue_key_t) : pj_ioqueue_key_t := set_k_closing true (set_k_fd PJ_INVALID_SOCKET k).

Definition closed_q (fd : Z) (q : pj_ioqueue_t) : pj_ioqueue_t :=
  with_sets clear_fd fd ALL_EVENTS (set_q_count (q_count q - 1) q).

Lemma cleared_all fd q x : x ∈ watched_fds (with_sets clear_fd fd ALL_EVENTS q) <-> x ∈ watched_fds q /\ x <> fd.
Proof. unfold watched_fds, with_sets, clear_fd. simpl. set_solver. Qed.

Lemma live_count held w h k : ioq_inv held w -> live_key w h k -> 0 < q_count (w_q w).
Proof.
  intros Hi (Ha & Hk & Hc). rewrite (iv_count _ _ Hi).
  assert (Hin : h ∈ filter (is_live w) (q_active (w_q w))).
  { apply list_elem_of_filter. split; [|done]. unfold is_live. by rewrite Hk, Hc. }
  destruct (filter (is_live w) _); [by apply elem_of_nil in Hin|simpl; lia].
Qed.

(** What was the reference of the registration is now that of the
    unregistration in progress. *)
Lemma inv_close held w h k :
  ioq_inv held w -> live_key w h k ->
  ioq_inv (bump held h 1) (set_w_q (closed_q (k_fd k) (w_q w)) (put_key h (closed_key k) w)).
Proof.
  intros Hi Hl. pose proof Hl as (Ha & Hk & Hc). set (w' := set_w_q _ _).
  pose proof (inv_key_ok _ _ _ _ Hi Hk) as [K1 K2 K3 K4 K5 K6 K7 K8].
  pose proof (iv_lists _ _ Hi) as Hnd. destruct (lists_apart _ Hnd) as (LA & _ & _). destruct (LA h Ha) as [Hcl Hfr].
  assert (Hdead : forall kx, ~ live_key w' h kx).
  { intros kx (_ & L2 & L3). simpl in L2. rewrite lookup_insert_eq in L2. by injection L2 as <-. }
  apply (inv_change held _ w _ h (closed_key k)); try done; try apply same_but_refl.
  - intros x Hx. by apply bump_other.
  - split; simpl; try done.
    + intros _. rewrite bump_same. destruct (K1 Ha) as [E1 E2]. rewrite Hc in E1. lia.
    + rewrite bump_same. destruct K6. split; [lia|done].
  - intros x kx Lx. destruct (decide (x = h)) as [->|Hx]; [by destruct (Hdead kx)|].
    destruct Lx as (L1 & L2 & L3). simpl in *. rewrite lookup_insert_ne in L2 by done. by apply (iv_fd _ _ Hi x).
  - intros x kx _ _ Lh. by destruct (Hdead (closed_key k)).
  - intros fd Hfd. left. apply cleared_all in Hfd as [Hfd Hne].
    destruct (iv_watched _ _ Hi fd Hfd) as (x & kx & Lx & E). exists x, kx. split; [|done].
    intros ->. destruct Lx as (_ & L2 & _). congruence.
  - simpl. rewrite (iv_count _ _ Hi).
    assert (Hna : NoDup (q_active (w_q w))) by by apply NoDup_app in Hnd as [? _].
    assert (E1 : length (filter (is_live w) (q_active (w_q w))) =
      Datatypes.S (length (filter (is_live w) (erase h (q_active (w_q w)))))).
    { rewrite (erase_perm h (q_active (w_q w))) at 1 by done. rewrite filter_cons_True; [done|].
      unfold is_live. by rewrite Hk, Hc. }
    assert (E2 : length (filter (is_live w') (q_active (w_q w))) =
      length (filter (is_live w) (erase h (q_active (w_q w))))).
    { rewrite (erase_perm h (q_active (w_q w))) at 1 by done. rewrite filter_cons_False.
      - rewrite (filter_live_ext w w'); [done|]. intros x [_ Hx]%erase_spec. by apply (is_live_other _ _ h (closed_key k)).
      - unfold is_live. simpl. rewrite lookup_insert_eq. by intros []. }
    rewrite E1, E2. lia.
Qed.

Lemma close_fd_eq w h k :
  sets_ok (w_q w) -> w_keys w !! h = Some k -> 0 <= k_fd k < FD_SETSIZE ->
  close_fd w h = Some (put_key h (set_k_fd PJ_INVALID_SOCKET k)
    (set_w_sys (snd (pj_sock_close (w_sys w) (k_fd k))) (set_w_q (with_sets clear_fd (k_fd k) ALL_EVENTS (w_q w)) w))).
Proof.
  intros Hs Hk Hfd. unfold close_fd. rewrite Hk. bind_step.
  destruct (Z.eqb_spec (k_fd k) PJ_INVALID_SOCKET) as [E|_]; [unfold PJ_INVALID_SOCKET in E; lia|].
  rewrite (change_sets_eq _ clear_fd) by (try done; intros; by apply fd_clr_eq). bind_step.
  destruct (pj_sock_close _ _) as [rc s]. simpl. by apply upd_key_some.
Qed.

(** The state after the first part, up to the report of pending writes. *)
Definition closed (h : Z) (k : pj_ioqueue_key_t) (w : world S) : world S :=
  set_w_q (closed_q (k_fd k) (w_q w))
    (put_key h (closed_key k) (set_w_sys (snd (pj_sock_close (w_sys w) (k_fd k))) w)).

(** The last part. *)
Definition retire (w : world S) (h : Z) : option (Z * world S) :=
  w ← upd_key w h (set_k_cb (mk_cb false false false false));
  w ← decrement_counter this w h;
  k ← w_keys w !! h;
  w ← pj_grp_lock_dec_ref (k_grp k) w;
  Some (PJ_SUCCESS, w).

Lemma unregister_closed app others held w h k fuel :
  ioq_inv held w -> quiet this w -> live_key w h k ->
  pj_ioqueue_unregister this app others fuel w h =
    (w ← ioqueue_drain_pending_writes this app others fuel (closed h k w) h; retire w h).
Proof.
  intros Hi Hq Hl. pose proof Hl as (Ha & Hk & Hc). pose proof (active_fd _ _ _ _ Hi Ha Hk Hc) as Hfd.
  unfold pj_ioqueue_unregister. rewrite (lock_key_some this w h k) by (done || apply Hq). bind_step.
  set (w1 := locked this (key_lock h k) w). assert (Hk1 : w_keys w1 !! h = Some k) by done. rewrite Hk1. bind_step.
  rewrite Hc. assert (Hq1 : quiet this w1) by (apply quiet_locked; auto with pj).
  rewrite acquire_can by apply Hq1. bind_step.
  assert ((0 <? q_count (w_q (locked this LIoq w1))) = true) as Hpos.
  { simpl. pose proof (live_count _ _ _ _ Hi Hl). lia. }
  unfold upd_q. rewrite Hpos. clear Hpos.
  erewrite close_fd_eq; [|apply (iv_sets _ _ Hi)|exact Hk|done]. bind_step.
  rewrite (release_locked this LIoq w1) by (done || apply Hq1). bind_step.
  erewrite upd_key_some by (simpl; by rewrite lookup_insert_eq). bind_step.
  erewrite (unlock_key_some this w _ h _ k); [|simpl; by rewrite lookup_insert_eq|done|apply Hq|done]. bind_step.
  match goal with |- (ioqueue_drain_pending_writes _ _ _ _ ?v _ ≫= _) = _ => assert (v = closed h k w) as -> end; [|done].
  unfold closed, put_key. simpl. rewrite insert_insert_eq. by destruct w.
Qed.

Lemma closed_inv held w h k : ioq_inv held w -> live_key w h k -> ioq_inv (bump held h 1) (closed h k w).
Proof. intros Hi Hl. by apply (inv_close held (set_w_sys _ w)); [apply inv_sys|]. Qed.

(** The key is retired; its registration's reference is gone. *)
Lemma retire_ok held w h k :
  ioq_inv (bump held h 1) w -> quiet this w -> 0 <= held h -> w_keys w !! h = Some k -> k_closing k = true ->
  exists w' k', retire w h = Some (PJ_SUCCESS, w') /\ ioq_inv held w' /\ w_locks w' = w_locks w /\
    w_keys w' !! h = Some k' /\ k_closing k' = true /\ k_cb k' = mk_cb false false false false /\
    w_calls w' = w_calls w.
Proof.
  intros Hi Hq Hh Hk Hc. unfold retire. rewrite (upd_key_some w h k) by done. bind_step.
  assert (Hpos : 0 < bump held h 1 h) by (rewrite bump_same; lia).
  pose proof (held_active _ _ _ Hi Hpos) as Ha. set (k1 := set_k_cb _ k). set (w1 := put_key h k1 w).
  assert (Hi1 : ioq_inv (bump held h 1) w1).
  { apply (inv_touch _ h w); [done|by left|]. apply (touch_key _ _ k); try done. by left. }
  assert (Hk1 : w_keys w1 !! h = Some k1) by (simpl; by rewrite lookup_insert_eq).
  destruct (decrement_ok this _ w1 h Hi1 Hq Hpos) as (w2 & -> & Hi2 & Lt & Eg & Hin). bind_step.
  destruct (lt_keys _ _ Lt _ _ Hk1) as (k2 & Hk2 & _ & _ & _ & Ec2 & Ecb2). rewrite Hk2. bind_step.
  destruct (dec_ref_ok _ w2 (k_grp k2) Hi2) as (G & -> & Hi3).
  { intros g Hg. by apply (iv_grp _ _ Hi2 h k2). }
  bind_step. do 2 eexists. split; [done|]. split_and!.
  - apply (inv_held_ext (bump (bump held h 1) h (-1))); [|done]. intros x. unfold bump.
    rewrite Z.eqb_refl. destruct (Z.eqb_spec x h) as [->|]; lia.
  - simpl. apply (lt_locks _ _ Lt).
  - exact Hk2.
  - by rewrite Ec2.
  - by rewrite Ecb2.
  - apply (lt_calls _ _ Lt).
Qed.
End Close.

(** ** Reporting the pending writes *)

Section Drain.
Context `{!SystemConstants} {S : Type} `{!SystemSockets S} (this : Z).
Context (app : callback -> world S -> option (world S)) (others : world S -> world S).
Context (Hwb : WellBehaved this app others) (held : Z -> Z) (h : Z).
Implicit Types (w v : world S) (k : pj_ioqueue_key_t).

(** A callback does not use a key that is being closed, nor its operations. *)
Definition leaves_alone : Prop := forall c w w' k,
  w_keys w !! h = Some k -> k_closing k = true -> app c w = Some w' ->
  w_keys w' !! h = Some k /\ w_calls w' = w_calls w /\ forall o, o ∈ op_lists k -> w_ops w' !! o = w_ops w !! o.

Context (Halone : leaves_alone).

Record closing_state (k : pj_ioqueue_key_t) (v : world S) : Prop := {
  cs_inv : ioq_inv held v;
  cs_quiet : quiet this v;
  cs_held : 0 < held h;
  cs_key : w_keys v !! h = Some k;
  cs_closing : k_closing k = true
}.

(** From one such state to the next, with these callbacks made, the last first. *)
Record reports (cs : list callback) (k k' : pj_ioqueue_key_t) (v v' : world S) : Prop := {
  rp_state : closing_state k' v';
  rp_locks : w_locks v' = w_locks v;
  rp_calls : w_calls v' = cs ++ w_calls v;
  rp_ops o : o ∈ op_lists k' -> w_ops v' !! o = w_ops v !! o
}.

Lemma reports_trans cs1 cs2 k1 k2 k3 v1 v2 v3 :
  (forall o, o ∈ op_lists k3 -> o ∈ op_lists k2) ->
  reports cs1 k1 k2 v1 v2 -> reports cs2 k2 k3 v2 v3 -> reports (cs2 ++ cs1) k1 k3 v1 v3.
Proof.
  intros Hsub [_ L1 C1 O1] [S2 L2 C2 O2]. split; [done|congruence|by rewrite C2, C1, app_assoc|].
  intros o Ho. rewrite O2 by done. by apply O1, Hsub.
Qed.

Lemma reports_refl k v : closing_state k v -> reports [] k k v v.
Proof. by split. Qed.

(** The operation leaves its list. *)
Lemma closing_put k k1 v : closing_state k v -> same_core k k1 -> (forall o, o ∈ op_lists k1 -> o ∈ op_lists k) ->
  closing_state k1 (put_key h k1 v).
Proof.
  intros [I Q Hh K C] Hc Ho. split; try done.
  - apply (inv_touch _ h v); [done|left; by eapply held_active|]. apply (touch_key _ _ k); try done. intros; left; auto.
  - simpl. by rewrite lookup_insert_eq.
  - destruct Hc as (_ & -> & _). done.
Qed.

(** One callback, between the references to the group lock. *)
Lemma report_one k v c (b : bool) :
  closing_state k v ->
  exists v', (w ← pj_grp_lock_add_ref (k_grp k) v;
      w ← (if b then call app c w else Some w); k ← w_keys w !! h; pj_grp_lock_dec_ref (k_grp k) w) = Some v' /\
    reports (if b then [c] else []) k k v v'.
Proof.
  intros [I Q Hh K C]. pose proof (held_active _ _ _ I Hh) as Ha.
  assert (Hg : forall v0, ioq_inv held v0 -> w_keys v0 !! h = Some k -> forall g, k_grp k = Some g -> is_Some (w_grp v0 !! g)).
  { intros v0 I0 K0 g Eg. apply (iv_grp _ _ I0 h k); try done. apply elem_of_app. left. by eapply held_active. }
  destruct (add_ref_ok held v (k_grp k) I (Hg v I K)) as (G & -> & I1 & _). bind_step.
  set (v1 := set_w_grp G v) in *.
  assert (exists v2, (if b then call app c v1 else Some v1) = Some v2 /\ keeps 0 held v1 v2 /\
    w_keys v2 !! h = Some k /\ w_calls v2 = (if b then [c] else []) ++ w_calls v /\
    forall o, o ∈ op_lists k -> w_ops v2 !! o = w_ops v !! o) as (v2 & -> & Kp & K2 & C2 & O2).
  { destruct b; [|exists v1; split_and!; try done; by apply keeps_refl].
    destruct (call_ok this app others Hwb held v1 c I1 Q) as (v2 & E & Kp). exists v2.
    destruct (Halone c (set_w_calls (c :: w_calls v1) v1) v2 k) as (A1 & A2 & A3); try done. }
  bind_step. rewrite K2. bind_step. pose proof (kp_inv _ _ _ _ Kp) as I2.
  destruct (dec_ref_ok held v2 (k_grp k) I2 (Hg v2 I2 K2)) as (G' & -> & I3).
  eexists. split; [done|]. split; try done; [|simpl; by rewrite (kp_locks _ _ _ _ Kp)].
  split; try done. eapply quiet_ext; [|exact Q]. simpl. by rewrite (kp_locks _ _ _ _ Kp).
Qed.

Lemma add_ref_keys g v w : pj_grp_lock_add_ref g v = Some w -> w_keys w = w_keys v.
Proof. destruct g as [g|]; simpl; [|by intros [= <-]]. destruct (w_grp v !! g); [|done]. by intros [= <-]. Qed.

Lemma guarded_eq k v o n :
  w_keys v !! h = Some k ->
  (w ← pj_grp_lock_add_ref (k_grp k) v; guarded_write_cb app w h o n) =
  (w ← pj_grp_lock_add_ref (k_grp k) v;
   w ← (if on_write_complete (k_cb k) then call app (OnWrite h o n) w else Some w);
   k ← w_keys w !! h; pj_grp_lock_dec_ref (k_grp k) w).
Proof.
  intros Hk. destruct (pj_grp_lock_add_ref (k_grp k) v) as [w|] eqn:E; [|done]. simpl.
  unfold guarded_write_cb. by rewrite (add_ref_keys _ _ _ E), Hk.
Qed.

Lemma drain_unsent_ok fuel : forall k v,
  closing_state k v -> on_write_complete (k_cb k) = true -> (length (k_write k) < fuel)%nat ->
  exists v', drain_unsent app fuel v h = Some v' /\
    reports (rev (map (fun o => OnWrite h o (- PJ_ECANCELLED)) (k_write k))) k (set_k_write [] k) v v'.
Proof.
  induction fuel as [|fuel IH]; intros k v Hcs Hcb Hf; [lia|]. cbn [drain_unsent].
  rewrite (cs_key _ _ Hcs). bind_step. destruct (k_write k) as [|o rest] eqn:Hl.
  { exists v. split; [done|]. assert (set_k_write [] k = k) as -> by (rewrite <-Hl; by destruct k). by apply reports_refl. }
  rewrite (upd_key_some v h k) by apply Hcs. bind_step. set (k1 := set_k_write rest k). set (v1 := put_key h k1 v).
  assert (Hcs1 : closing_state k1 v1).
  { apply (closing_put k); try done. intros o'. unfold op_lists. simpl. rewrite Hl, !elem_of_app, elem_of_cons. tauto. }
  destruct (report_one k1 v1 (OnWrite h o (- PJ_ECANCELLED)) true Hcs1) as (v2 & E & R1).
  assert (Hg := guarded_eq k1 v1 o (- PJ_ECANCELLED) (cs_key _ _ Hcs1)).
  change (k_cb k1) with (k_cb k) in Hg. rewrite Hcb in Hg. rewrite <-Hg in E.
  change (k_grp k) with (k_grp k1). rewrite (bind_seq _ _ _ _ E).
  destruct (IH k1 v2) as (v3 & -> & R2); [apply R1|done|simpl in *; lia|].
  exists v3. split; [done|]. cbn [map rev]. change (k_write k1) with rest in R2.
  assert (R : reports (rev (map (fun o => OnWrite h o (- PJ_ECANCELLED)) rest) ++ [OnWrite h o (- PJ_ECANCELLED)])
    k1 (set_k_write [] k1) v1 v3).
  { eapply reports_trans; [|exact R1|exact R2]. intros o'. unfold op_lists. simpl. rewrite !elem_of_app. tauto. }
  destruct R as [RS RL RC RO]. by split.
Qed.

(** The number of bytes an operation has written, or its error. *)
Definition written (v : world S) (o : Z) : Z := match w_ops v !! o with Some r => o_written r | None => 0 end.

Lemma lock_round k v G :
  quiet this v -> w_keys v !! h = Some k ->
  pj_ioqueue_unlock_key this (set_w_grp G (locked this (key_lock h k) v)) h = Some (set_w_grp G v).
Proof.
  intros Hq Hk. rewrite (unlock_key_some this v _ h k k) by (done || apply Hq). by destruct v.
Qed.

(** The reference to the group lock is taken with the lock of the key, and the
    callback is made without. *)
Lemma unlocked_eq {A} k v (K : world S -> option A) :
  quiet this v -> w_keys v !! h = Some k ->
  (w ← pj_grp_lock_add_ref (k_grp k) (locked this (key_lock h k) v); w ← pj_ioqueue_unlock_key this w h; K w) =
  (w ← pj_grp_lock_add_ref (k_grp k) v; K w).
Proof.
  intros Hq Hk. unfold pj_grp_lock_add_ref. destruct (k_grp k) as [g|] eqn:Eg.
  - simpl. destruct (w_grp v !! g); [|done]. simpl. by rewrite lock_round.
  - simpl. assert (Hr := lock_round k v (w_grp v) Hq Hk).
    replace (set_w_grp (w_grp v) v) with v in Hr by by destruct v.
    replace (set_w_grp (w_grp v) (locked this (key_lock h k) v)) with (locked this (key_lock h k) v) in Hr by by destruct v.
    by rewrite Hr.
Qed.

Lemma add_ref_ops g v w : pj_grp_lock_add_ref g v = Some w -> w_ops w = w_ops v.
Proof. destruct g as [g|]; simpl; [|by intros [= <-]]. destruct (w_grp v !! g); [|done]. by intros [= <-]. Qed.

Lemma drain_finished_ok fuel : forall k v,
  closing_state k v -> on_write_complete (k_cb k) = true -> (length (k_write_cb k) < fuel)%nat ->
  exists v', drain_finished this app fuel (locked this (key_lock h k) v) h = Some (locked this (key_lock h k) v') /\
    reports (rev (map (fun o => OnWrite h o (written v o)) (k_write_cb k))) k (set_k_write_cb [] k) v v'.
Proof.
  induction fuel as [|fuel IH]; intros k v Hcs Hcb Hf; [lia|]. cbn [drain_finished].
  assert (HkL : w_keys (locked this (key_lock h k) v) !! h = Some k) by apply Hcs. rewrite HkL. bind_step.
  destruct (k_write_cb k) as [|o rest] eqn:Hl.
  { exists v. split; [done|]. assert (set_k_write_cb [] k = k) as -> by (rewrite <-Hl; by destruct k). by apply reports_refl. }
  rewrite (upd_key_some _ h k) by done. bind_step. set (k1 := set_k_write_cb rest k).
  change (put_key h k1 (locked this (key_lock h k) v)) with (locked this (key_lock h k1) (put_key h k1 v)).
  set (v1 := put_key h k1 v).
  assert (Hcs1 : closing_state k1 v1).
  { apply (closing_put k); try done. intros o'. unfold op_lists. simpl. rewrite Hl, !elem_of_app, elem_of_cons. tauto. }
  change (k_grp k) with (k_grp k1). rewrite unlocked_eq by apply Hcs1.
  destruct (iv_ops _ _ (cs_inv _ _ Hcs) h k o) as [r Hr].
  { apply elem_of_app. left. by eapply held_active; apply Hcs. }
  { apply Hcs. }
  { unfold op_lists. rewrite Hl, !elem_of_app, elem_of_cons. tauto. }
  destruct (report_one k1 v1 (OnWrite h o (o_written r)) true Hcs1) as (v2 & E & R1).
  destruct (pj_grp_lock_add_ref (k_grp k1) v1) as [w|] eqn:Ea; [|done]. bind_step. simpl in E.
  rewrite (add_ref_ops _ _ _ Ea). change (w_ops v1) with (w_ops v). rewrite Hr. bind_step. rewrite Hcb.
  destruct (call app _ w) as [w2|]; [|done]. simpl in E. bind_step. destruct (w_keys w2 !! h) as [k2|]; [|done].
  simpl in E. bind_step. rewrite E. bind_step. pose proof (rp_state _ _ _ _ _ R1) as Hcs2.
  rewrite (lock_key_some this v2 h k1) by (apply Hcs2 || apply (cs_quiet _ _ Hcs2)). bind_step.
  destruct (IH k1 v2) as (v3 & -> & R2); [done|done|simpl in *; lia|].
  exists v3. split; [done|]. cbn [map rev]. change (k_write_cb k1) with rest in R2.
  assert (Hw : map (fun o => OnWrite h o (written v2 o)) rest = map (fun o => OnWrite h o (written v o)) rest).
  { apply map_ext_in. intros o' Ho'. f_equal. unfold written. rewrite (rp_ops _ _ _ _ _ R1); [done|].
    unfold op_lists. simpl. rewrite !elem_of_app. do 4 right. by apply list_elem_of_In. }
  rewrite Hw in R2.
  assert (R : reports (rev (map (fun o => OnWrite h o (written v o)) rest) ++ [OnWrite h o (o_written r)])
    k1 (set_k_write_cb [] k1) v1 v3).
  { eapply reports_trans; [|exact R1|exact R2]. intros o'. unfold op_lists. simpl. rewrite !elem_of_app, elem_of_nil. tauto. }
  assert (Hwo : written v o = o_written r) by (unfold written; by rewrite Hr). rewrite Hwo.
  destruct R as [RS RL RC RO]. by split.
Qed.

(** The finished operations that this call has to report itself: those put off
    for the thread that is in the write callback. *)
Definition own_finished (k : pj_ioqueue_key_t) : list Z :=
  match k_write_thread k with Some _ => k_write_cb k | None => [] end.

Definition expected_reports (k : pj_ioqueue_key_t) (v : world S) : list callback :=
  map (fun o => OnWrite h o (written v o)) (own_finished k) ++
  map (fun o => OnWrite h o (- PJ_ECANCELLED)) (k_write k).

Lemma drain_ok fuel k v :
  closing_state k v -> on_write_complete (k_cb k) = true ->
  (forall t, k_write_thread k = Some t -> t = this) ->
  (length (k_write k) < fuel)%nat -> (length (k_write_cb k) < fuel)%nat ->
  exists v' k', ioqueue_drain_pending_writes this app others fuel v h = Some v' /\ closing_state k' v' /\
    w_locks v' = w_locks v /\ w_calls v' = rev (expected_reports k v) ++ w_calls v /\ k_write k' = [].
Proof.
  intros Hcs Hcb Ht Hf1 Hf2. unfold ioqueue_drain_pending_writes.
  rewrite (lock_key_some this v h k) by (apply Hcs || apply (cs_quiet _ _ Hcs)). bind_step.
  assert (HkL : w_keys (locked this (key_lock h k) v) !! h = Some k) by apply Hcs. rewrite HkL. bind_step.
  set (k1 := set_k_write_cb (if bool_decide (k_write_thread k = None) then k_write_cb k else []) k).
  assert (exists v1, (match k_write_thread k with
    | Some t => if t =? this then drain_finished this app fuel (locked this (key_lock h k) v) h
        else wait_callback this others WAIT_TURNS (fun k0 => bool_decide (is_Some (k_write_thread k0))) id
               (locked this (key_lock h k) v) h
    | None => Some (locked this (key_lock h k) v) end) = Some (locked this (key_lock h k) v1) /\
    reports (rev (map (fun o => OnWrite h o (written v o)) (own_finished k))) k k1 v v1) as (v1 & -> & R1).
  { unfold own_finished, k1. destruct (k_write_thread k) as [t|].
    - rewrite (Ht t eq_refl), Z.eqb_refl. by apply drain_finished_ok.
    - exists v. split; [done|]. rewrite bool_decide_eq_true_2 by done.
      assert (set_k_write_cb (k_write_cb k) k = k) as -> by by destruct k. by apply reports_refl. }
  bind_step. pose proof (rp_state _ _ _ _ _ R1) as Hcs1.
  rewrite (unlock_key_some this v1 _ h k1 k); try done; [|apply Hcs1|apply (cs_quiet _ _ Hcs1)]. bind_step.
  rewrite locked_back.
  destruct (drain_unsent_ok fuel k1 v1 Hcs1) as (v2 & -> & R2); [done..|].
  exists v2, (set_k_write [] k1). split_and!; try done.
  - apply R2.
  - by rewrite (rp_locks _ _ _ _ _ R2), (rp_locks _ _ _ _ _ R1).
  - rewrite (rp_calls _ _ _ _ _ R2), (rp_calls _ _ _ _ _ R1). unfold expected_reports. by rewrite rev_app_distr, app_assoc.
Qed.
End Drain.

Section Unregister.
Context `{!SystemConstants} {S : Type} `{!SystemSockets S} (this : Z).
Context (app : callback -> world S -> option (world S)) (others : world S -> world S).
Context (Hwb : WellBehaved this app others).

(** C8 Unregistering a key returns, keeps the invariant and the locks, and
    reports every pending write to the application exactly once and in order:
    first those that are finished and were put off for this thread, with what
    they have written, then those that were not sent, as cancelled.  The key is
    closed, and has no callbacks any more. *)
Theorem unregister_correct held w h k fuel :
  leaves_alone app h -> ioq_inv held w -> quiet this w -> live_key w h k ->
  on_write_complete (k_cb k) = true -> (forall t, k_write_thread k = Some t -> t = this) ->
  (length (k_write k) < fuel)%nat -> (length (k_write_cb k) < fuel)%nat ->
  exists w' k', pj_ioqueue_unregister this app others fuel w h = Some (PJ_SUCCESS, w') /\
    ioq_inv held w' /\ w_locks w' = w_locks w /\
    w_calls w' = rev (expected_reports h k w) ++ w_calls w /\
    w_keys w' !! h = Some k' /\ k_closing k' = true /\ k_cb k' = mk_cb false false false false.
Proof.
  intros Halone Hi Hq Hl Hcb Ht Hf1 Hf2. pose proof Hl as (Ha & Hk & Hc).
  rewrite (unregister_closed this app others held w h k) by done.
  destruct (iv_held _ _ Hi h) as [H0 _].
  destruct (drain_ok this app others Hwb (bump held h 1) h Halone fuel (closed_key k) (closed h k w))
    as (v & k1 & -> & Hcs & L1 & C1 & _); try done.
  - split; try done; [by apply closed_inv|rewrite bump_same; lia|simpl; by rewrite lookup_insert_eq].
  - bind_step.
    destruct (retire_ok this held v h k1) as (w' & k' & -> & I' & L' & K' & Cl' & Cb' & C'); try apply Hcs; [done|].
    exists w', k'. split_and!; try done; [by rewrite L', L1|by rewrite C', C1].
Qed.
End Unregister.
