(* ===== verification/IoQueueThreads.v ===== *)
(** * Read callbacks and threads

    Any number of threads poll the same key, with concurrency not allowed.  A
    thread runs [ioqueue_dispatch_read_event]: the section [read_begin] under the
    lock of the key, the callback without the lock, and the sections
    [next_read_cb] of the loop over the callbacks that other threads have put off
    meanwhile.  Between the sections of a thread come those of the others, and
    every other operation on the queue. *)
From S2P Require Import Prelude TimeVal SockBsd IoQueueData IoQueue IoQueueInv.

(** Where a thread is in the dispatch of a readable event. *)
Inductive phase :=
  (** After [read_begin], before the call. *)
  | Due (o : Z) (has_cb : bool)
  | InCallback (o : Z)
  | InLoop
  | InAccept (has_lock : bool).

Section Threads.
Context `{!SystemConstants} {S : Type} `{!SystemSockets S} (h : Z).
Implicit Types (w : world S) (k : pj_ioqueue_key_t).

Record state := mk_state {
  st_w : world S;
  st_pc : gmap Z phase;
  (** The reads that have been done, and those whose callback has been called,
      in order. *)
  st_done : list Z;
  st_called : list Z
}.

(** The operations that have left the front of the read list. *)
Definition taken (w w' : world S) : list Z :=
  match w_keys w !! h, w_keys w' !! h with
  | Some k, Some k' => take (length (k_read k) - length (k_read k')) (k_read k)
  | _, _ => []
  end.

(** What the other operations on the queue may do to the key: start operations
    of any kind, handle writable events, and begin to close it. *)
Record other_step (w w' : world S) : Prop := mk_other_step {
  os_key : exists k k', w_keys w !! h = Some k /\ w_keys w' !! h = Some k' /\
    k_read_thread k' = k_read_thread k /\ k_read_cb k' = k_read_cb k /\ k_conc k' = k_conc k /\
    (k_closing k' = false -> k_closing k = false /\ k_cb k' = k_cb k)
}.

Definition begin_pc (t : Z) (n : next) (pc : gmap Z phase) : gmap Z phase :=
  match n with
  | ReadDone o has_cb => <[t := Due o has_cb]> pc
  | Accepted _ _ has_lock => <[t := InAccept has_lock]> pc
  | _ => pc
  end.

Inductive step : state -> state -> Prop :=
  | step_begin t w w' n pc done called :
      pc !! t = None -> read_begin t w h = Some (w', n) ->
      step (mk_state w pc done called) (mk_state w' (begin_pc t n pc) (done ++ taken w w') called)
  | step_call t o k w pc done called :
      pc !! t = Some (Due o true) -> w_keys w !! h = Some k -> k_closing k = false ->
      step (mk_state w pc done called) (mk_state w (<[t := InCallback o]> pc) done (called ++ [o]))
  | step_no_call t o has_cb k w pc done called :
      pc !! t = Some (Due o has_cb) -> w_keys w !! h = Some k -> negb (k_closing k) && has_cb = false ->
      step (mk_state w pc done called) (mk_state w (<[t := InLoop]> pc) done called)
  | step_return t o w pc done called :
      pc !! t = Some (InCallback o) ->
      step (mk_state w pc done called) (mk_state w (<[t := InLoop]> pc) done called)
  | step_next t o cnt w w' pc done called :
      pc !! t = Some InLoop -> next_read_cb t w h 0 cnt = Some (w', Some o) ->
      step (mk_state w pc done called) (mk_state w' (<[t := InCallback o]> pc) done (called ++ [o]))
  | step_end t cnt w w' pc done called :
      pc !! t = Some InLoop -> next_read_cb t w h 0 cnt = Some (w', None) ->
      step (mk_state w pc done called) (mk_state w' (delete t pc) done called)
  | step_accepted t w w' pc done called (has_lock : bool) :
      pc !! t = Some (InAccept has_lock) ->
      (if has_lock then pj_ioqueue_unlock_key t w h else Some w) = Some w' ->
      step (mk_state w pc done called) (mk_state w' (delete t pc) done called)
  | step_other w w' pc done called :
      other_step w w' -> step (mk_state w pc done called) (mk_state w' pc done called).

(** ** The changes of the key in a section *)

Lemma upd_key_inv w w' x f : upd_key w x f = Some w' ->
  exists k, w_keys w !! x = Some k /\ w' = put_key x (f k) w.
Proof. unfold upd_key. destruct (w_keys w !! x); [|done]. intros [= <-]. eauto. Qed.

Lemma upd_op_keys w w' o f : upd_op w o f = Some w' -> w_keys w' = w_keys w.
Proof. unfold upd_op. destruct (w_ops w !! o); [|done]. by intros [= <-]. Qed.

Lemma release_keys t l w w' : release t l w = Some w' -> w_keys w' = w_keys w.
Proof.
  unfold release. destruct (w_locks w !! l) as [[u n]|]; [|done]. simpl. destruct (negb _); [done|].
  by intros [= <-].
Qed.

Lemma tryacquire_keys t l w w' : tryacquire t l w = Some w' -> w_keys w' = w_keys w.
Proof.
  unfold tryacquire. destruct (w_locks w !! l) as [[u n]|]; [destruct (_ && _); [|done]|]; by intros [= <-].
Qed.

Lemma unlock_keys t w w' x : pj_ioqueue_unlock_key t w x = Some w' -> w_keys w' = w_keys w.
Proof. unfold pj_ioqueue_unlock_key. destruct (w_keys w !! x); [|done]. apply release_keys. Qed.

Lemma lock_keys t w w' x : pj_ioqueue_lock_key t w x = Some w' -> w_keys w' = w_keys w.
Proof. unfold pj_ioqueue_lock_key. destruct (w_keys w !! x); [|done]. apply tryacquire_keys. Qed.

Lemma remove_keys t w w' x e : ioqueue_remove_from_set2 t w x e = Some w' -> w_keys w' = w_keys w.
Proof.
  unfold ioqueue_remove_from_set2, acquire. destruct (tryacquire t LIoq w) as [w1|] eqn:E1; [|done]. simpl.
  destruct (w_keys w1 !! x) as [k|]; [|done]. simpl. destruct (change_sets _ _ _ _) as [q|]; [|done]. simpl.
  intros E2. rewrite (release_keys _ _ _ _ E2). simpl. by eapply tryacquire_keys.
Qed.

(** The members that decide whose turn a callback is, with the new values of
    the thread and of the list of callbacks put off. *)
Definition turn (k k' : pj_ioqueue_key_t) (thread : option Z) (put_off : list Z) : Prop :=
  k_read_thread k' = thread /\ k_read_cb k' = put_off /\ k_conc k' = k_conc k /\
  k_closing k' = k_closing k /\ k_cb k' = k_cb k.

(** What a section leaves of the key: a read is handed over to this thread, or
    put off for the thread that is in a callback, or nothing is read. *)
Inductive begin_spec (t : Z) (k k' : pj_ioqueue_key_t) : next -> Prop :=
  | bs_nothing n : (forall o b, n <> ReadDone o b) -> k_read k' = k_read k ->
      turn k k' (k_read_thread k) (k_read_cb k) -> begin_spec t k k' n
  | bs_put_off o u : k_closing k = false -> k_read k = o :: k_read k' -> k_read_thread k = Some u ->
      turn k k' (Some u) (k_read_cb k ++ [o]) -> begin_spec t k k' (Done true)
  | bs_due o : k_closing k = false -> k_read k = o :: k_read k' -> k_read_thread k = None ->
      turn k k' (Some t) (k_read_cb k) -> begin_spec t k k' (ReadDone o (on_read_complete (k_cb k))).

Lemma erase_read_keys t w w' rest k :
  erase_read t w h rest = Some w' -> w_keys w !! h = Some k -> w_keys w' !! h = Some (set_k_read rest k).
Proof.
  unfold erase_read. intros E Hk. bind_inv E. apply upd_key_inv in E0 as (k1 & Hk1 & ->). simplify_eq.
  assert (w_keys w' = <[h := set_k_read rest k1]> (w_keys w)) as ->; [|by rewrite lookup_insert_eq].
  case_bool_decide; [by rewrite (remove_keys _ _ _ _ _ E)|by injection E as <-].
Qed.

Lemma read_finish_key t w w' o b k n :
  read_finish t w h o b = Some (w', n) -> w_keys w !! h = Some k -> k_conc k = false ->
  exists k', w_keys w' !! h = Some k' /\ k_read k' = k_read k /\
    match k_read_thread k with
    | Some u => n = Done true /\ turn k k' (Some u) (k_read_cb k ++ [o])
    | None => n = ReadDone o b /\ turn k k' (Some t) (k_read_cb k)
    end.
Proof.
  unfold read_finish. intros E Hk Hc. rewrite Hk in E. simpl in E. rewrite Hc in E.
  destruct (k_read_thread k) as [u|] eqn:Ht; bind_inv E; bind_inv E; injection E as <- <-;
    apply upd_key_inv in E0 as (k1 & Hk1 & ->); simplify_eq; rewrite (unlock_keys _ _ _ _ E1); simpl;
    rewrite lookup_insert_eq; eexists; split_and!; try done; by split_and!.
Qed.

Lemma read_first_key t w w' o rest k n :
  read_first t w h k o rest = Some (w', n) -> w_keys w !! h = Some k -> k_conc k = false ->
  k_closing k = false -> k_read k = o :: rest ->
  exists k', w_keys w' !! h = Some k' /\ begin_spec t k k' n.
Proof.
  unfold read_first. intros E Hk Hc Hcl Hl. bind_inv E. bind_inv E. destruct (recv_op _ _ _) as [m s]. bind_inv E.
  pose proof (erase_read_keys _ _ _ _ _ E0 Hk) as Hk1.
  apply upd_op_keys in E2. simpl in E2.
  destruct (read_finish_key _ _ _ _ _ (set_k_read rest k) _ E) as (k' & Hk' & Hr & Hs); [by rewrite E2|done|].
  exists k'. split; [done|]. simpl in Hs, Hr. destruct (k_read_thread k) as [u|] eqn:Ht; destruct Hs as [-> Hs].
  - eapply (bs_put_off _ _ _ o); try done. by rewrite Hr.
  - apply bs_due; try done. by rewrite Hr.
Qed.

Lemma accept_op_keys w w' fd r rc : accept_op w fd r = (rc, w') -> w_keys w' = w_keys w.
Proof.
  unfold accept_op. destruct (pj_sock_accept _ _ _ _) as [[rc1 ns] s].
  match goal with |- (let '(a, b) := ?e in _) = _ -> _ => destruct e as [rc2 s2] end. by intros [= _ <-].
Qed.

Lemma accept_first_key t w w' o rest k n :
  accept_first t w h k o rest = Some (w', n) -> w_keys w !! h = Some k ->
  exists k', w_keys w' !! h = Some k' /\ begin_spec t k k' n.
Proof.
  unfold accept_first. intros E Hk. bind_inv E. bind_inv E. bind_inv E. bind_inv E.
  apply upd_key_inv in E0 as (k1 & Hk1 & ->). simplify_eq. apply upd_op_keys in E1.
  assert (Hx1 : w_keys x1 = w_keys x0) by (case_bool_decide; [by eapply remove_keys|by injection E2 as <-]).
  destruct (accept_op _ _ _) as [rc w4] eqn:Ea. apply accept_op_keys in Ea.
  assert (Hn : exists b, n = Accepted o rc b /\ w_keys w' = w_keys w4).
  { destruct (k_conc k1); [bind_inv E; injection E as <- <-; exists false; by rewrite (unlock_keys _ _ _ _ E0)|].
    injection E as <- <-. by exists true. }
  destruct Hn as (b & -> & ->). rewrite Ea, Hx1, E1. simpl. rewrite lookup_insert_eq. eexists. split; [done|].
  by apply bs_nothing.
Qed.

Lemma read_begin_key t w w' k n :
  read_begin t w h = Some (w', n) -> w_keys w !! h = Some k -> k_conc k = false ->
  exists k', w_keys w' !! h = Some k' /\ begin_spec t k k' n.
Proof.
  unfold read_begin, pj_ioqueue_trylock_key. intros E Hk Hc. rewrite Hk in E. simpl in E.
  assert (begin_spec t k k (Done true)) by by apply bs_nothing.
  assert (begin_spec t k k (Done false)) by by apply bs_nothing.
  destruct (tryacquire t (key_lock h k) w) as [w1|] eqn:El; simpl in E; [|injection E as <- <-; by exists k].
  apply tryacquire_keys in El. rewrite El, Hk in E. simpl in E.
  destruct (k_closing k) eqn:Hcl.
  { bind_inv E. injection E as <- <-. exists k. by rewrite (unlock_keys _ _ _ _ E0), El. }
  destruct (k_accept k) as [|o rest] eqn:Ha.
  - destruct (k_read k) as [|o rest] eqn:Hr.
    + bind_inv E. injection E as <- <-. exists k. by rewrite (unlock_keys _ _ _ _ E0), El.
    + eapply read_first_key; try done. by rewrite El.
  - eapply accept_first_key; [done|]. by rewrite El.
Qed.

(** One turn of the loop. *)
Inductive next_spec (k k' : pj_ioqueue_key_t) : option Z -> Prop :=
  | ns_call o : k_read_cb k = o :: k_read_cb k' -> k_closing k = false -> on_read_complete (k_cb k) = true ->
      turn k k' (k_read_thread k) (k_read_cb k') -> next_spec k k' (Some o)
  | ns_stop : turn k k' None (k_read_cb k) -> k_closing k = false -> k_read_cb k = [] -> next_spec k k' None
  | ns_closing : k_closing k' = true -> k_conc k' = k_conc k -> next_spec k k' None
  | ns_no_callback : on_read_complete (k_cb k) = false -> k_conc k' = k_conc k -> k_cb k' = k_cb k -> next_spec k k' None.

Lemma next_read_cb_key t w w' k cnt n :
  next_read_cb t w h 0 cnt = Some (w', n) -> w_keys w !! h = Some k ->
  exists k', w_keys w' !! h = Some k' /\ next_spec k k' n /\ (k_closing k' = k_closing k).
Proof.
  unfold next_read_cb. intros E Hk. bind_inv E. apply lock_keys in E0. rewrite E0, Hk in E. simpl in E.
  destruct (k_read_cb k) as [|o rest] eqn:Hl; [|destruct (k_closing k) eqn:Hc];
    simpl in E; bind_inv E; bind_inv E; injection E as <- <-; apply upd_key_inv in E1 as (k1 & Hk1 & ->);
    rewrite E0 in Hk1; simplify_eq; rewrite (unlock_keys _ _ _ _ E2); simpl; rewrite lookup_insert_eq;
    eexists; (split; [done|]); split; try done.
  - destruct (k_closing k1) eqn:Hc; [by apply ns_closing|]. apply ns_stop; try done.
  - by apply ns_closing.
  - destruct (on_read_complete (k_cb k1)) eqn:Ho; [|by apply ns_no_callback].
    apply ns_call; try done.
Qed.

(** ** The invariant *)

Definition accepting (p : phase) : Prop := exists b, p = InAccept b.

(** The read that a thread has taken and whose callback it is about to call. *)
Definition due (pc : gmap Z phase) (thread : option Z) : list Z :=
  match thread ≫= (fun t => pc !! t) with Some (Due o _) => [o] | _ => [] end.

(** While the key is not closed: the reads done are those called back, the one
    that is due and those put off, in this order, and every read put off has a
    thread that is going to call back. *)
Record in_turn (st : state) (k : pj_ioqueue_key_t) : Prop := {
  it_cb : on_read_complete (k_cb k) = true;
  it_order : st_called st ++ due (st_pc st) (k_read_thread k) ++ k_read_cb k = st_done st;
  it_idle : k_read_thread k = None -> k_read_cb k = [];
  it_thread t : k_read_thread k = Some t -> exists p, st_pc st !! t = Some p /\ ~ accepting p;
  it_due t o b : st_pc st !! t = Some (Due o b) -> b = true
}.

Record threads_inv (st : state) (k : pj_ioqueue_key_t) : Prop := {
  ti_key : w_keys (st_w st) !! h = Some k;
  ti_conc : k_conc k = false;
  ti_one t p : st_pc st !! t = Some p -> ~ accepting p -> k_read_thread k = Some t;
  ti_turn : k_closing k = false -> in_turn st k
}.

Definition due_in (p : phase) : list Z := match p with Due o _ => [o] | _ => [] end.

Lemma due_set pc t p : due (<[t := p]> pc) (Some t) = due_in p.
Proof. unfold due. simpl. by rewrite lookup_insert_eq. Qed.

Lemma due_at pc t p : pc !! t = Some p -> due pc (Some t) = due_in p.
Proof. unfold due. simpl. by intros ->. Qed.

Lemma due_other pc t p thread : thread <> Some t -> due (<[t := p]> pc) thread = due pc thread.
Proof. unfold due. destruct thread as [u|]; [|done]. simpl. intros. rewrite lookup_insert_ne; congruence. Qed.

Lemma due_gone pc t thread : thread <> Some t -> due (delete t pc) thread = due pc thread.
Proof. unfold due. destruct thread as [u|]; [|done]. simpl. intros. rewrite lookup_delete_ne; congruence. Qed.

(** The thread whose turn it is goes on to the phase [p]. *)
Lemma inv_set_phase w' k' pc d c t p :
  w_keys w' !! h = Some k' -> k_conc k' = false -> k_read_thread k' = Some t -> ~ accepting p ->
  (forall t' p', pc !! t' = Some p' -> ~ accepting p' -> t' = t) ->
  (k_closing k' = false -> on_read_complete (k_cb k') = true /\ c ++ due_in p ++ k_read_cb k' = d /\
    (forall t' o b, pc !! t' = Some (Due o b) -> b = true) /\ (forall o b, p = Due o b -> b = true)) ->
  threads_inv (mk_state w' (<[t := p]> pc) d c) k'.
Proof.
  intros Hk Hc Ht Hp Hone Ho. split; simpl; try done.
  - intros t' p' [[<- <-]|[_ H1]]%lookup_insert_Some Hp'; [done|]. rewrite Ht. f_equal. symmetry. by eapply Hone.
  - intros Hcl. destruct (Ho Hcl) as (H1 & H2 & H3 & H4). split; simpl; try done.
    + by rewrite Ht, due_set.
    + by rewrite Ht.
    + intros t' Ht'. rewrite Ht in Ht'. injection Ht' as <-. exists p. by rewrite lookup_insert_eq.
    + intros t' o b [[_ ->]|[_ H5]]%lookup_insert_Some; [by eapply H4|by eapply H3].
Qed.

Lemma turn_is_one st k t p : threads_inv st k -> st_pc st !! t = Some p -> ~ accepting p ->
  k_read_thread k = Some t /\ forall t' p', st_pc st !! t' = Some p' -> ~ accepting p' -> t' = t.
Proof.
  intros Hi Hp Hna. pose proof (ti_one _ _ Hi t p Hp Hna) as Ht. split; [done|].
  intros t' p' H1 H2. pose proof (ti_one _ _ Hi t' p' H1 H2). congruence.
Qed.

(** A change of the phase of a thread that leaves the key alone. *)
Lemma inv_phase w k pc d c c' t p p' :
  threads_inv (mk_state w pc d c) k -> pc !! t = Some p -> ~ accepting p -> ~ accepting p' ->
  (k_closing k = false -> c' ++ due_in p' = c ++ due_in p) -> (forall o b, p' <> Due o b) ->
  threads_inv (mk_state w (<[t := p']> pc) d c') k.
Proof.
  intros Hi Hp Hna Hna' Hc Hd. destruct (turn_is_one _ _ _ _ Hi Hp Hna) as [Ht Hone].
  apply inv_set_phase; try done; [apply (ti_key _ _ Hi)|apply (ti_conc _ _ Hi)|].
  intros Hcl. destruct (ti_turn _ _ Hi Hcl) as [H1 H2 H3 H4 H5]. simpl in *.
  split_and!; try done; [|by intros ? ? ->; destruct (Hd o b)]. rewrite Ht, (due_at _ _ _ Hp) in H2.
  by rewrite app_assoc, (Hc Hcl), <-app_assoc.
Qed.

(** Steps after which no other thread has got the turn. *)
Lemma inv_same_turn w w' k k' pc d c :
  threads_inv (mk_state w pc d c) k -> w_keys w' !! h = Some k' ->
  k_read_thread k' = k_read_thread k -> k_read_cb k' = k_read_cb k -> k_conc k' = k_conc k ->
  (k_closing k' = false -> k_closing k = false /\ k_cb k' = k_cb k) ->
  threads_inv (mk_state w' pc d c) k'.
Proof.
  intros Hi Hk Et El Ec Hcl. split; simpl; try done.
  - rewrite Ec. apply (ti_conc _ _ Hi).
  - rewrite Et. apply (ti_one _ _ Hi).
  - intros H0. destruct (Hcl H0) as [H1 E]. destruct (ti_turn _ _ Hi H1) as [I1 I2 I3 I4 I5]. simpl in *.
    split; simpl; rewrite ?Et, ?El, ?E; try done.
Qed.

(** A thread that takes part in accepting only. *)
Lemma inv_accept w k pc d c t p :
  threads_inv (mk_state w pc d c) k -> (forall q, pc !! t = Some q -> accepting q) -> accepting p ->
  threads_inv (mk_state w (<[t := p]> pc) d c) k.
Proof.
  intros Hi Hq Hp. assert (Hne : k_closing k = false -> k_read_thread k <> Some t).
  { intros Hcl Ht. destruct (it_thread _ _ (ti_turn _ _ Hi Hcl) t Ht) as (q & H1 & H2). by apply H2, Hq. }
  split; simpl; try apply Hi.
  - intros t' p' [[<- <-]|[_ H1]]%lookup_insert_Some Hp'; [done|]. by eapply (ti_one _ _ Hi).
  - intros Hcl. destruct (ti_turn _ _ Hi Hcl) as [I1 I2 I3 I4 I5]. simpl in *. split; simpl; try done.
    + by rewrite due_other by auto.
    + intros t' Ht'. destruct (I4 t' Ht') as (q & H1 & H2). exists q. rewrite lookup_insert_ne; [done|].
      intros <-. by apply (Hne Hcl).
    + intros t' o b [[_ ->]|[_ H5]]%lookup_insert_Some; [by destruct Hp|by eapply I5].
Qed.

Lemma inv_accept_end w k pc d c t p :
  threads_inv (mk_state w pc d c) k -> pc !! t = Some p -> accepting p -> threads_inv (mk_state w (delete t pc) d c) k.
Proof.
  intros Hi Hq Hp. assert (Hne : k_closing k = false -> k_read_thread k <> Some t).
  { intros Hcl Ht. destruct (it_thread _ _ (ti_turn _ _ Hi Hcl) t Ht) as (q & H1 & H2). simpl in *. by simplify_eq. }
  split; simpl; try apply Hi.
  - intros t' p' [_ H1]%lookup_delete_Some Hp'. by eapply (ti_one _ _ Hi).
  - intros Hcl. destruct (ti_turn _ _ Hi Hcl) as [I1 I2 I3 I4 I5]. simpl in *. split; simpl; try done.
    + by rewrite due_gone by auto.
    + intros t' Ht'. destruct (I4 t' Ht') as (q & H1 & H2). exists q. rewrite lookup_delete_ne; [done|].
      intros <-. by apply (Hne Hcl).
    + intros t' o b [_ H5]%lookup_delete_Some. by eapply I5.
Qed.

(** ** The steps keep it *)

Lemma taken_none w w' k k' :
  w_keys w !! h = Some k -> w_keys w' !! h = Some k' -> k_read k' = k_read k -> taken w w' = [].
Proof. unfold taken. intros -> -> ->. by rewrite Nat.sub_diag. Qed.

Lemma taken_one w w' k k' o :
  w_keys w !! h = Some k -> w_keys w' !! h = Some k' -> k_read k = o :: k_read k' -> taken w w' = [o].
Proof.
  unfold taken. intros -> -> ->. cbn [length]. by replace (Datatypes.S _ - _)%nat with 1%nat by lia.
Qed.

Lemma begin_keeps w k pc d c t w' n :
  threads_inv (mk_state w pc d c) k -> pc !! t = None -> read_begin t w h = Some (w', n) ->
  exists k', threads_inv (mk_state w' (begin_pc t n pc) (d ++ taken w w') c) k'.
Proof.
  intros Hi Hp E. pose proof (ti_key _ _ Hi) as Hk. simpl in Hk.
  destruct (read_begin_key _ _ _ _ _ E Hk (ti_conc _ _ Hi)) as (k' & Hk' & Hs). exists k'.
  destruct Hs as [n Hn Hr (T1 & T2 & T3 & T4 & T5)|o u Hcl Hr Ht (T1 & T2 & T3 & T4 & T5)|o Hcl Hr Ht (T1 & T2 & T3 & T4 & T5)].
  - rewrite (taken_none _ _ _ _ Hk Hk' Hr), app_nil_r.
    assert (Hi' : threads_inv (mk_state w' pc d c) k') by (eapply inv_same_turn; eauto; intros; split; congruence).
    destruct n; try done; [apply inv_accept; [done|congruence|by eexists]|by destruct (Hn op has_cb)].
  - rewrite (taken_one _ _ _ _ _ Hk Hk' Hr). simpl. split; simpl; try done.
    + rewrite T3. apply (ti_conc _ _ Hi).
    + intros t' p' H1 H2. rewrite T1, <-Ht. by eapply (ti_one _ _ Hi).
    + intros _. destruct (ti_turn _ _ Hi Hcl) as [I1 I2 I3 I4 I5]. simpl in *.
      split; simpl; try done; rewrite ?T1, ?T2, ?T5; try done.
      * rewrite Ht in I2. by rewrite <-I2, <-!app_assoc.
      * intros t'. rewrite <-Ht. apply I4.
  - rewrite (taken_one _ _ _ _ _ Hk Hk' Hr). cbn [begin_pc].
    destruct (ti_turn _ _ Hi Hcl) as [I1 I2 I3 I4 I5]. simpl in *.
    apply inv_set_phase; try done.
    + rewrite T3. apply (ti_conc _ _ Hi).
    + by intros [? ?].
    + intros t' p' H1 H2. pose proof (ti_one _ _ Hi t' p' H1 H2). congruence.
    + intros _. rewrite T5, T2, (I3 Ht). rewrite Ht, (I3 Ht) in I2. simpl in I2. rewrite app_nil_r in I2.
      split_and!; try done; [by rewrite I2|]. intros o' b [= <- <-]. done.
Qed.

Lemma next_keeps w k pc d c t w' o cnt :
  threads_inv (mk_state w pc d c) k -> pc !! t = Some InLoop -> next_read_cb t w h 0 cnt = Some (w', Some o) ->
  exists k', threads_inv (mk_state w' (<[t := InCallback o]> pc) d (c ++ [o])) k'.
Proof.
  intros Hi Hp E. pose proof (ti_key _ _ Hi) as Hk. simpl in Hk.
  destruct (next_read_cb_key _ _ _ _ _ _ E Hk) as (k' & Hk' & Hs & Hc). exists k'.
  inversion Hs as [o' Hl Hcl Hcb (T1 & T2 & T3 & T4 & T5)| | |]; subst.
  destruct (turn_is_one _ _ t InLoop Hi Hp) as [Ht Hone]; [by intros [? ?]|].
  apply inv_set_phase; try done.
  - rewrite T3. apply (ti_conc _ _ Hi).
  - congruence.
  - by intros [? ?].
  - intros _. destruct (ti_turn _ _ Hi Hcl) as [I1 I2 I3 I4 I5]. simpl in *. rewrite T5. split_and!; try done.
    rewrite Ht, (due_at _ _ _ Hp), Hl in I2. simpl in I2. by rewrite <-app_assoc.
Qed.

Lemma end_keeps w k pc d c t w' cnt :
  threads_inv (mk_state w pc d c) k -> pc !! t = Some InLoop -> next_read_cb t w h 0 cnt = Some (w', None) ->
  exists k', threads_inv (mk_state w' (delete t pc) d c) k'.
Proof.
  intros Hi Hp E. pose proof (ti_key _ _ Hi) as Hk. simpl in Hk.
  destruct (next_read_cb_key _ _ _ _ _ _ E Hk) as (k' & Hk' & Hs & Hc). exists k'.
  destruct (turn_is_one _ _ t InLoop Hi Hp) as [Ht Hone]; [by intros [? ?]|]. simpl in Hone.
  assert (Hnone : forall t' p', delete t pc !! t' = Some p' -> accepting p' \/ ~ accepting p' -> accepting p').
  { intros t' p' [Hne H1]%lookup_delete_Some [?|Hna]; [done|]. destruct Hne. symmetry. by eapply Hone. }
  assert (Hdec : forall p, accepting p \/ ~ accepting p).
  { intros []; [right|right|right|left]; try (by intros [? ?]). by eexists. }
  assert (Hone' : forall t' p', delete t pc !! t' = Some p' -> ~ accepting p' -> k_read_thread k' = Some t').
  { intros t' p' H1 H2. destruct H2. by eapply Hnone. }
  inversion Hs as [|(T1 & T2 & T3 & T4 & T5) Hcl Hl|Hcl Hco|Hcb Hco Ecb]; subst.
  - split; simpl; try done; [rewrite T3; apply (ti_conc _ _ Hi)|].
    intros _. destruct (ti_turn _ _ Hi Hcl) as [I1 I2 I3 I4 I5]. simpl in *.
    rewrite Ht, (due_at _ _ _ Hp), Hl in I2. simpl in I2.
    split; simpl; rewrite ?T1, ?T2, ?T5, ?Hl; try done.
    intros t' o b [_ H1]%lookup_delete_Some. by eapply I5.
  - split; simpl; try done; [rewrite Hco; apply (ti_conc _ _ Hi)|congruence].
  - split; simpl; try done; [rewrite Hco; apply (ti_conc _ _ Hi)|]. intros Hcl. rewrite Hc in Hcl.
    destruct (ti_turn _ _ Hi Hcl) as [I1 _ _ _ _]. congruence.
Qed.

Lemma step_keeps st k st' : threads_inv st k -> step st st' -> exists k', threads_inv st' k'.
Proof.
  intros Hi Hs. destruct Hs as [t w w' n pc d c Hp E|t o k0 w pc d c Hp Hk Hcl|t o b k0 w pc d c Hp Hk Hb|
    t o w pc d c Hp|t o cnt w w' pc d c Hp E|t cnt w w' pc d c Hp E|t w w' pc d c b Hp E|w w' pc d c [Ho]].
  - by eapply begin_keeps.
  - exists k. eapply inv_phase; try done; try (by intros [? ?]). intros _. by rewrite <-app_assoc.
  - exists k. pose proof (ti_key _ _ Hi) as Hk'. simpl in Hk'. simplify_eq.
    eapply inv_phase; try done; try (by intros [? ?]). intros Hcl.
    pose proof (it_due _ _ (ti_turn _ _ Hi Hcl) t o b Hp) as ->. by rewrite Hcl in Hb.
  - exists k. eapply inv_phase; try done; by intros [? ?].
  - by eapply next_keeps.
  - by eapply end_keeps.
  - exists k. apply (inv_accept_end _ _ _ _ _ _ (InAccept b)); [|done|by eexists].
    eapply inv_same_turn; [done| |done..|by intros]. pose proof (ti_key _ _ Hi) as Hk. simpl in Hk.
    destruct b; [by rewrite (unlock_keys _ _ _ _ E)|by injection E as <-].
  - destruct Ho as (k0 & k' & H1 & H2 & H3 & H4 & H5 & H6). exists k'. pose proof (ti_key _ _ Hi) as Hk. simpl in Hk.
    simplify_eq. by eapply inv_same_turn.
Qed.

(** A key that has just been registered. *)
Definition fresh_key (st : state) : Prop := exists k,
  w_keys (st_w st) !! h = Some k /\ k_conc k = false /\ on_read_complete (k_cb k) = true /\
  k_read_thread k = None /\ k_read_cb k = [] /\ st_pc st = ∅ /\ st_done st = [] /\ st_called st = [].

Lemma fresh_inv st : fresh_key st -> exists k, threads_inv st k.
Proof.
  destruct st as [w pc d c]. intros (k & Hk & Hc & Ho & Ht & Hl & Hp & Hd & Hca). simpl in *. subst.
  exists k. split; simpl; try done. intros _. split; simpl; rewrite ?Ht, ?Hl; done.
Qed.

Lemma threads_reachable st0 st : fresh_key st0 -> rtc step st0 st -> exists k, threads_inv st k.
Proof.
  intros [k Hi]%fresh_inv Hr. revert k Hi. induction Hr as [|st1 st2 st3 Hs _ IH]; intros k Hi; [eauto|].
  destruct (step_keeps _ _ _ Hi Hs) as [k' Hi']. by eapply IH.
Qed.

(** C6 With concurrency not allowed, any number of threads may poll a key at once:
    at most one of them is in the read callback at a time, and while the key is
    open the callbacks come in the order in which the reads were done, each
    exactly once: the reads done are those called back followed by those that
    some thread is still to call back, and there are none of the latter when no
    thread is in a dispatch. *)
Theorem read_callbacks_in_turn st0 st k :
  fresh_key st0 -> rtc step st0 st -> w_keys (st_w st) !! h = Some k ->
  (forall t1 o1 t2 o2, st_pc st !! t1 = Some (InCallback o1) -> st_pc st !! t2 = Some (InCallback o2) -> t1 = t2) /\
  (k_closing k = false ->
    st_called st `prefix_of` st_done st /\ (st_pc st = ∅ -> st_called st = st_done st)).
Proof.
  intros Hf Hr Hk. destruct (threads_reachable _ _ Hf Hr) as [k' Hi]. pose proof (ti_key _ _ Hi) as Hk'. simplify_eq.
  split.
  - intros t1 o1 t2 o2 H1 H2. destruct (turn_is_one _ _ _ _ Hi H2) as [_ Hone]; [by intros [? ?]|].
    eapply Hone; [exact H1|by intros [? ?]].
  - intros Hcl. destruct (ti_turn _ _ Hi Hcl) as [I1 I2 I3 I4 I5]. rewrite <-I2. split; [by apply prefix_app_r|].
    intros Hp. destruct (k_read_thread k) as [t|] eqn:Ht.
    + destruct (I4 t eq_refl) as (p & H1 & _). by rewrite Hp in H1.
    + by rewrite (I3 eq_refl), !app_nil_r.
Qed.
(** ** Other operations *)

(** The members that [other_step] is about stay the same. *)
Definition same_turn (w w' : world S) : Prop := forall k, w_keys w !! h = Some k ->
  exists k', w_keys w' !! h = Some k' /\ turn k k' (k_read_thread k) (k_read_cb k).

Lemma same_turn_keys w w' : w_keys w' = w_keys w -> same_turn w w'.
Proof. intros E k Hk. exists k. rewrite E. by split_and!. Qed.

Lemma same_turn_trans w1 w2 w3 : same_turn w1 w2 -> same_turn w2 w3 -> same_turn w1 w3.
Proof.
  intros H1 H2 k Hk. destruct (H1 k Hk) as (k2 & Hk2 & A1 & A2 & A3 & A4 & A5).
  destruct (H2 k2 Hk2) as (k3 & Hk3 & B1 & B2 & B3 & B4 & B5). exists k3. split; [done|]. split_and!; congruence.
Qed.

Lemma same_turn_upd w w' f : upd_key w h f = Some w' ->
  (forall k, turn k (f k) (k_read_thread k) (k_read_cb k)) -> same_turn w w'.
Proof.
  intros (k0 & Hk0 & ->)%upd_key_inv Hf k Hk. rewrite Hk in Hk0. injection Hk0 as <-. exists (f k). simpl. by rewrite lookup_insert_eq.
Qed.

Lemma add_keys t w w' x e : ioqueue_add_to_set2 t w x e = Some w' -> w_keys w' = w_keys w.
Proof.
  unfold ioqueue_add_to_set2, acquire. destruct (tryacquire t LIoq w) as [w1|] eqn:E1; [|done]. simpl.
  destruct (w_keys w1 !! x) as [k|]; [|done]. simpl. destruct (change_sets _ _ _ _) as [q|]; [|done]. simpl.
  intros E2. rewrite (release_keys _ _ _ _ E2). simpl. by eapply tryacquire_keys.
Qed.

(** Starting an operation of any kind is such a step. *)
Lemma enqueue_same_turn t w w' o busy e put fill st :
  enqueue t w h o busy e put fill = Some (st, w') ->
  (forall k, turn k (put k) (k_read_thread k) (k_read_cb k)) -> same_turn w w'.
Proof.
  unfold enqueue. intros E Hput. bind_inv E. apply lock_keys in E0. bind_inv E.
  destruct (k_closing x0).
  { bind_inv E. injection E as _ <-. apply same_turn_keys. by rewrite (unlock_keys _ _ _ _ E2). }
  bind_inv E. destruct (negb _).
  { bind_inv E. injection E as _ <-. apply same_turn_keys. by rewrite (unlock_keys _ _ _ _ E3). }
  bind_inv E. bind_inv E. bind_inv E. bind_inv E. injection E as _ <-.
  apply upd_op_keys in E3. apply add_keys in E5. apply unlock_keys in E6.
  apply (same_turn_trans _ x2); [apply same_turn_keys; congruence|].
  apply (same_turn_trans _ x3); [by eapply same_turn_upd|]. apply same_turn_keys. congruence.
Qed.

Lemma erase_write_same t w w' rest : erase_write t w h rest = Some w' -> same_turn w w'.
Proof.
  unfold erase_write. intros E. bind_inv E. apply (same_turn_trans _ x); [by eapply same_turn_upd|].
  apply same_turn_keys. case_bool_decide; [by eapply remove_keys|by injection E as <-].
Qed.

Lemma write_finish_same t w w' o n : write_finish t w h o = Some (w', n) -> same_turn w w'.
Proof.
  unfold write_finish. intros E. bind_inv E. destruct (k_conc x); [|destruct (k_write_thread x)].
  - bind_inv E. injection E as <- <-. apply same_turn_keys. by eapply unlock_keys.
  - bind_inv E. bind_inv E. injection E as <- <-. apply (same_turn_trans _ x0); [by eapply same_turn_upd|].
    apply same_turn_keys. by eapply unlock_keys.
  - bind_inv E. bind_inv E. injection E as <- <-. apply (same_turn_trans _ x0); [by eapply same_turn_upd|].
    apply same_turn_keys. by eapply unlock_keys.
Qed.

Lemma write_first_same t w w' k o rest n : write_first t w h k o rest = Some (w', n) -> same_turn w w'.
Proof.
  unfold write_first. intros E. bind_inv E. bind_inv E. destruct (send_op _ _ _) as [[rc sent] s].
  assert (H1 : same_turn w x).
  { destruct (is_dgram k); [by eapply erase_write_same|injection E0 as <-; by apply same_turn_keys]. }
  apply (same_turn_trans _ _ _ H1). bind_inv E. apply upd_op_keys in E2. simpl in E2. destruct (_ || _ || _).
  - bind_inv E. apply upd_op_keys in E3. bind_inv E. apply (same_turn_trans _ x2); [apply same_turn_keys; congruence|].
    apply (same_turn_trans _ x3); [|by eapply write_finish_same].
    destruct (is_dgram k); [injection E4 as <-; by apply same_turn_keys|by eapply erase_write_same].
  - bind_inv E. injection E as <- <-. apply unlock_keys in E3. apply same_turn_keys. congruence.
Qed.

(** So is the section of a writable event. *)
Lemma write_begin_same_turn t w w' n : write_begin t w h = Some (w', n) -> same_turn w w'.
Proof.
  unfold write_begin, pj_ioqueue_trylock_key. intros E k Hk. revert k Hk. change (same_turn w w').
  destruct (w_keys w !! h) as [k|] eqn:Hk; [|done]. simpl in E.
  destruct (tryacquire t (key_lock h k) w) as [w1|] eqn:El; simpl in E; [|injection E as <- <-; by apply same_turn_keys].
  apply tryacquire_keys in El. apply (same_turn_trans _ w1); [by apply same_turn_keys|].
  rewrite El, Hk in E. simpl in E. destruct (k_closing k).
  { bind_inv E. injection E as <- <-. apply same_turn_keys. by eapply unlock_keys. }
  destruct (k_connecting k).
  - bind_inv E. bind_inv E. destruct (pj_sock_getsockopt _ _ _) as [[rc v] s]. bind_inv E. injection E as <- <-.
    apply (same_turn_trans _ x); [by eapply same_turn_upd|]. apply same_turn_keys.
    apply remove_keys in E1. apply unlock_keys in E2. simpl in E2. congruence.
  - destruct (k_write k); [|by eapply write_first_same]. bind_inv E. injection E as <- <-.
    apply same_turn_keys. by eapply unlock_keys.
Qed.

Lemma same_turn_other w w' k : w_keys w !! h = Some k -> same_turn w w' -> other_step w w'.
Proof.
  intros Hk Hs. destruct (Hs k Hk) as (k' & Hk' & T1 & T2 & T3 & T4 & T5). split. exists k, k'.
  split_and!; try done. intros. split; congruence.
Qed.
End Threads.
