(* ===== verification/IoQueueStream.v ===== *)
(** * The order of the bytes on a stream

    What the system takes from a stream socket is what the application has
    given to the queue, in the same order, however the sends are split. *)
From S2P Require Import Prelude TimeVal SockBsd IoQueueData IoQueue IoQueueInv IoQueueDispatch IoQueuePoll IoQueueKeys IoQueueOps IoQueueThreads.

(** What the development relies on of [send]: it takes no more than the bytes it
    was given, from the first on, and sets [errno] when it fails.  [sent] is the
    list of addresses of the bytes the system has taken for a socket. *)
Class StreamLaws (S : Type) `{!SystemSockets S} := {
  sent : S -> Z -> list Z;
  send_taken s fd buf len flags n s' : sys_send s fd buf len flags = (n, s') -> 0 <= len ->
    n <= len /\ sent s' fd = sent s fd ++ seqZ buf n;
  send_errno s fd buf len flags n s' : sys_send s fd buf len flags = (n, s') -> n < 0 -> 0 < errno s'
}.

Section Stream.
Context `{!SystemConstants} {S : Type} `{!SystemSockets S} `{!StreamLaws S} (this h : Z).
Implicit Types (w : world S) (k : pj_ioqueue_key_t) (r : operation_key).

(** The bytes of an operation that have not been taken yet, and those of the
    operations of a key. *)
Definition left_of (w : world S) (o : Z) : list Z :=
  match w_ops w !! o with
  | Some r => seqZ (o_buf r + o_written r) (o_size r - o_written r)
  | None => []
  end.

Definition unsent (w : world S) (k : pj_ioqueue_key_t) : list Z := flat_map (left_of w) (k_write k).

Definition send_pending (r : operation_key) : Prop := o_op r = OP_SEND /\ 0 <= o_written r <= o_size r.

(** A key of a connected stream socket, all of whose pending writes are sends. *)
Record stream_state (held : Z -> Z) (k : pj_ioqueue_key_t) (w : world S) : Prop := {
  ss_inv : ioq_inv held w;
  ss_quiet : quiet this w;
  ss_live : live_key w h k;
  ss_connected : k_connecting k = false;
  ss_stream : is_dgram k = false;
  ss_nodup : NoDup (k_write k);
  ss_ops o : o ∈ k_write k -> exists r, w_ops w !! o = Some r /\ send_pending r
}.

(** ** The section of a writable event *)

(** The members a stream depends on. *)
Definition same_stream (k k' : pj_ioqueue_key_t) (rest : list Z) : Prop :=
  k_write k' = rest /\ k_fd k' = k_fd k /\ k_type k' = k_type k /\ k_connecting k' = k_connecting k /\
  k_closing k' = k_closing k.

(** Nothing but locks and sets has changed. *)
Definition same_data (w w' : world S) : Prop :=
  w_keys w' = w_keys w /\ w_ops w' = w_ops w /\ w_sys w' = w_sys w.

Lemma release_data t l w w' : release t l w = Some w' -> same_data w w'.
Proof.
  unfold release. destruct (w_locks w !! l) as [[u n]|]; [|done]. simpl. destruct (negb _); [done|].
  by intros [= <-].
Qed.

Lemma tryacquire_data t l w w' : tryacquire t l w = Some w' -> same_data w w'.
Proof.
  unfold tryacquire. destruct (w_locks w !! l) as [[u n]|]; [destruct (_ && _); [|done]|]; by intros [= <-].
Qed.

Lemma same_data_trans w1 w2 w3 : same_data w1 w2 -> same_data w2 w3 -> same_data w1 w3.
Proof. unfold same_data. intuition congruence. Qed.

Lemma unlock_data t w w' x : pj_ioqueue_unlock_key t w x = Some w' -> same_data w w'.
Proof. unfold pj_ioqueue_unlock_key. destruct (w_keys w !! x); [|done]. apply release_data. Qed.

Lemma remove_data t w w' x e : ioqueue_remove_from_set2 t w x e = Some w' -> same_data w w'.
Proof.
  unfold ioqueue_remove_from_set2, acquire. destruct (tryacquire t LIoq w) as [w1|] eqn:E1; [|done]. simpl.
  destruct (w_keys w1 !! x) as [k|]; [|done]. simpl. destruct (change_sets _ _ _ _) as [q|]; [|done]. simpl.
  intros E2. apply tryacquire_data in E1. apply release_data in E2. exact (same_data_trans _ _ _ E1 E2).
Qed.

Lemma write_finish_stream t w w' o n k :
  write_finish t w h o = Some (w', n) -> w_keys w !! h = Some k ->
  w_ops w' = w_ops w /\ w_sys w' = w_sys w /\
  exists k', w_keys w' !! h = Some k' /\ same_stream k k' (k_write k).
Proof.
  unfold write_finish. intros E Hk. rewrite Hk in E. simpl in E.
  destruct (k_conc k); [|destruct (k_write_thread k)].
  - bind_inv E. injection E as <- <-. destruct (unlock_data _ _ _ _ E0) as (-> & -> & ->). split_and!; try done. by exists k.
  - bind_inv E. bind_inv E. injection E as <- <-. apply upd_key_inv in E0 as (k0 & Hk0 & ->). simplify_eq.
    destruct (unlock_data _ _ _ _ E1) as (-> & -> & ->). split_and!; try done. simpl. rewrite lookup_insert_eq. by eexists.
  - bind_inv E. bind_inv E. injection E as <- <-. apply upd_key_inv in E0 as (k0 & Hk0 & ->). simplify_eq.
    destruct (unlock_data _ _ _ _ E1) as (-> & -> & ->). split_and!; try done. simpl. rewrite lookup_insert_eq. by eexists.
Qed.

Lemma erase_write_stream t w w' rest k :
  erase_write t w h rest = Some w' -> w_keys w !! h = Some k ->
  w_ops w' = w_ops w /\ w_sys w' = w_sys w /\ w_keys w' !! h = Some (set_k_write rest k).
Proof.
  unfold erase_write. intros E Hk. bind_inv E. apply upd_key_inv in E0 as (k0 & Hk0 & ->). simplify_eq.
  assert (same_data (put_key h (set_k_write rest k0) w) w') as (-> & -> & ->).
  { case_bool_decide; [by eapply remove_data|by injection E as <-]. }
  split_and!; try done. simpl. by rewrite lookup_insert_eq.
Qed.

(** What the first operation of the list becomes. *)
Definition sent_op (r : operation_key) (rc n : Z) : operation_key :=
  set_o_written (if rc =? PJ_SUCCESS then o_written r + n else - rc) r.

Definition finished (r : operation_key) (rc : Z) : bool := negb (rc =? PJ_SUCCESS) || (o_written r =? o_size r).

Lemma write_first_stream t w w' n k o rest r rc m s :
  write_first t w h k o rest = Some (w', n) -> is_dgram k = false -> w_keys w !! h = Some k ->
  k_write k = o :: rest -> w_ops w !! o = Some r -> o_op r = OP_SEND -> send_op (w_sys w) k r = (rc, m, s) ->
  w_sys w' = s /\ exists k', w_keys w' !! h = Some k' /\
    (if finished (sent_op r rc m) rc
     then same_stream k k' rest /\ w_ops w' = <[o := set_o_op OP_NONE (sent_op r rc m)]> (w_ops w)
     else same_stream k k' (k_write k) /\ w_ops w' = <[o := sent_op r rc m]> (w_ops w)).
Proof.
  unfold write_first. intros E Hd Hk Hl Hr Hop Hs. rewrite Hd in E. bind_inv E. injection E0 as <-.
  rewrite Hr in E. simpl in E. rewrite Hs, Hop in E.
  change (set_o_written (if rc =? PJ_SUCCESS then o_written r + m else - rc) r) with (sent_op r rc m) in E.
  bind_inv E. unfold upd_op in E0. simpl in E0. rewrite Hr in E0. simpl in E0. injection E0 as <-.
  unfold finished. rewrite orb_false_r in E. destruct (_ || _).
  - bind_inv E. unfold upd_op in E0. simpl in E0. rewrite lookup_insert_eq in E0. simpl in E0. injection E0 as <-.
    bind_inv E. destruct (erase_write_stream _ _ _ _ k E0 Hk) as (O1 & S1 & K1).
    destruct (write_finish_stream _ _ _ _ _ _ E K1) as (O2 & S2 & k' & K2 & Hsame).
    split; [by rewrite S2, S1|]. exists k'. split; [done|]. split; [done|].
    rewrite O2, O1. simpl. by rewrite insert_insert_eq.
  - bind_inv E. injection E as <- <-. destruct (unlock_data _ _ _ _ E0) as (K1 & -> & ->). split; [done|].
    exists k. split; [by rewrite K1|]. by split.
Qed.

Lemma stream_next held k w w' k' rest :
  stream_state held k w -> touch h w w' -> w_locks w' = w_locks w -> w_keys w' !! h = Some k' ->
  same_stream k k' rest -> NoDup rest ->
  (forall o, o ∈ rest -> exists r, w_ops w' !! o = Some r /\ send_pending r) -> stream_state held k' w'.
Proof.
  intros [I Q L C D N O] Ht Hl Hk (E1 & E2 & E3 & E4 & E5) Hnd Ho. pose proof L as (Ha & _ & Hc).
  split.
  - by eapply inv_touch; [|left|].
  - by eapply quiet_ext.
  - destruct (tc_lists _ _ _ Ht) as (La & _). split_and!; [by rewrite La|done|congruence].
  - congruence.
  - unfold is_dgram in *. by rewrite E3.
  - by rewrite E1.
  - by rewrite E1.
Qed.

Lemma left_of_other w w' o : w_ops w' !! o = w_ops w !! o -> left_of w' o = left_of w o.
Proof. unfold left_of. by intros ->. Qed.

Lemma unsent_other w w' l : (forall o, o ∈ l -> w_ops w' !! o = w_ops w !! o) ->
  flat_map (left_of w') l = flat_map (left_of w) l.
Proof.
  induction l as [|o l IH]; intros Ho; [done|]. simpl. rewrite IH by (intros; apply Ho; by right).
  f_equal. apply left_of_other, Ho. by left.
Qed.

(** What a call of [send] for a pending operation takes. *)
Lemma send_op_taken w k r rc m s :
  send_pending r -> send_op (w_sys w) k r = (rc, m, s) ->
  if rc =? PJ_SUCCESS
  then 0 <= m <= o_size r - o_written r /\ sent s (k_fd k) = sent (w_sys w) (k_fd k) ++ seqZ (o_buf r + o_written r) m
  else 0 < rc /\ sent s (k_fd k) = sent (w_sys w) (k_fd k).
Proof.
  intros [Hop Hb] E. unfold send_op, pj_sock_send, io_status in E. rewrite Hop in E.
  destruct (sys_send _ _ _ _ _) as [n s'] eqn:Es.
  destruct (send_taken _ _ _ _ _ _ _ Es) as [Hn Ht]; [lia|].
  destruct (Z.ltb_spec n 0) as [Hneg|Hneg]; injection E as <- <- <-; [|by rewrite Z.eqb_refl; split; [lia|]].
  pose proof (send_errno _ _ _ _ _ _ _ Es Hneg) as He.
  unfold PJ_RETURN_OS_ERROR, PJ_STATUS_FROM_OS, PJ_ERRNO_START_SYS, PJ_SUCCESS.
  destruct (Z.eqb_spec (errno s') 0); [lia|]. match goal with |- context [?a =? 0] => destruct (Z.eqb_spec a 0) end; [lia|].
  rewrite Ht, seqZ_nil, app_nil_r by lia. split; [lia|done].
Qed.

(** The first operation of the list failed. *)
Definition send_failed (k : pj_ioqueue_key_t) (w' : world S) : bool :=
  match k_write k with
  | o :: _ => match w_ops w' !! o with Some r => o_written r <? 0 | None => false end
  | [] => false
  end.

(** All bytes that were given to the queue, taken or not. *)
Definition all_bytes (k : pj_ioqueue_key_t) (w : world S) : list Z := sent (w_sys w) (k_fd k) ++ unsent w k.

Lemma first_stream held k w o rest w0 w' n :
  stream_state held k w -> k_write k = o :: rest -> same_data w w0 ->
  write_first this w0 h k o rest = Some (w', n) -> touch h w w' -> w_locks w' = w_locks w ->
  exists k', stream_state held k' w' /\ k_fd k' = k_fd k /\
    (if send_failed k w' then exists x, sent (w_sys w) (k_fd k) ++ x = all_bytes k' w' /\ x `sublist_of` unsent w k
     else all_bytes k' w' = all_bytes k w).
Proof.
  intros Hss Hl (Ek & Eo & Es) E Ht Hlk. pose proof Hss as [I Q (Ha & Hk & Hc) C D N O].
  destruct (O o) as (r & Hr & Hp); [rewrite Hl; by left|].
  destruct (send_op (w_sys w) k r) as [[rc m] s] eqn:Esend.
  destruct (write_first_stream _ w0 w' n k o rest r rc m s E D) as (Es' & k' & Hk' & Hcase);
    [by rewrite Ek|done|by rewrite Eo|apply Hp|by rewrite Es|].
  pose proof (send_op_taken w k r rc m s Hp Esend) as Htk. destruct Hp as [Hop Hb].
  rewrite Hl in N. apply NoDup_cons in N as [Hno N].
  assert (Hrest : forall r', forall x, x ∈ rest -> (<[o := r']> (w_ops w)) !! x = w_ops w !! x).
  { intros r' x Hx. rewrite lookup_insert_ne; [done|]. by intros ->. }
  unfold all_bytes, unsent. unfold finished, sent_op in Hcase. cbn [o_written set_o_written o_size] in Hcase.
  rewrite Eo in Hcase. exists k'. unfold send_failed. rewrite Hl. simpl flat_map.
  assert (Hlo : left_of w o = seqZ (o_buf r + o_written r) (o_size r - o_written r)) by (unfold left_of; by rewrite Hr).
  destruct (Z.eqb_spec rc PJ_SUCCESS) as [->|Hrc]; cbn [negb orb] in Hcase.
  - destruct Htk as [Hm Hsent].
    destruct (Z.eqb_spec (o_written r + m) (o_size r)) as [Hfull|Hpart]; destruct Hcase as [Hsame Hops].
    + split; [eapply stream_next; eauto|split; [apply Hsame|]].
      { intros x Hx. rewrite Hops, Hrest by done. apply O. rewrite Hl. by right. }
      rewrite Hops, lookup_insert_eq. simpl. destruct (Z.ltb_spec (o_written r + m) 0); [lia|].
      destruct Hsame as (-> & -> & _). rewrite (unsent_other w w') by (intros; by rewrite Hops, Hrest).
      rewrite Es', Hsent, Hlo. replace (o_size r - o_written r) with m by lia. by rewrite app_assoc.
    + assert (Hpend : send_pending (set_o_written (o_written r + m) r)) by (split; [done|simpl; lia]).
      split; [eapply stream_next; eauto|split; [apply Hsame|]].
      { rewrite Hl. by constructor. }
      { intros x. rewrite Hl, elem_of_cons, Hops. intros [->|Hx]; [rewrite lookup_insert_eq; eauto|].
        rewrite Hrest by done. apply O. rewrite Hl. by right. }
      rewrite Hops, lookup_insert_eq. simpl. destruct (Z.ltb_spec (o_written r + m) 0); [lia|].
      destruct Hsame as (-> & -> & _). rewrite Hl. simpl. rewrite (unsent_other w w') by (intros; by rewrite Hops, Hrest).
      rewrite Es', Hsent, Hlo. unfold left_of. rewrite Hops, lookup_insert_eq. simpl.
      replace (o_size r - o_written r) with (m + (o_size r - (o_written r + m))) by lia.
      rewrite seqZ_app by lia. rewrite !app_assoc. by rewrite Z.add_assoc.
  - destruct Htk as [Hpos Hsent]. destruct Hcase as [Hsame Hops].
    split; [eapply stream_next; eauto|split; [apply Hsame|]].
    { intros x Hx. rewrite Hops, Hrest by done. apply O. rewrite Hl. by right. }
    rewrite Hops, lookup_insert_eq. simpl. destruct (Z.ltb_spec (- rc) 0); [|lia].
    exists (flat_map (left_of w) rest). destruct Hsame as (-> & -> & _). rewrite Es', Hsent.
    rewrite (unsent_other w w') by (intros; by rewrite Hops, Hrest). split; [done|]. by apply sublist_inserts_l.
Qed.

Lemma touch_ops_dom w w' : touch h w w' -> forall o, is_Some (w_ops w !! o) -> is_Some (w_ops w' !! o).
Proof. intros Ht. apply (tc_ops _ _ _ Ht). Qed.

Lemma writable_step held k w : stream_state held k w ->
  exists w' n k', write_begin this w h = Some (w', n) /\ stream_state held k' w' /\ k_fd k' = k_fd k /\
    (forall o, is_Some (w_ops w !! o) -> is_Some (w_ops w' !! o)) /\
    (if send_failed k w' then exists x, sent (w_sys w) (k_fd k) ++ x = all_bytes k' w' /\ x `sublist_of` unsent w k
     else all_bytes k' w' = all_bytes k w).
Proof.
  intros Hss. pose proof Hss as [I Q (Ha & Hk & Hc) C D N O].
  destruct (write_begin_ok this held w h I Q Ha) as (w' & n & E & Ht & _ & Hl & _).
  exists w', n. assert (E' := E). unfold write_begin in E. rewrite (trylock_key_some _ _ _ k) in E by (done || apply Q). simpl in E.
  rewrite Hk in E. simpl in E. rewrite Hc, C in E.
  assert (Hres : exists k', stream_state held k' w' /\ k_fd k' = k_fd k /\
    (if send_failed k w' then exists x, sent (w_sys w) (k_fd k) ++ x = all_bytes k' w' /\ x `sublist_of` unsent w k
     else all_bytes k' w' = all_bytes k w)).
  { destruct (k_write k) as [|o rest] eqn:Hw; [|eapply (first_stream held k w o rest); [exact Hss|done| |exact E|done|done]; done].
    bind_inv E. injection E as <- <-. destruct (unlock_data _ _ _ _ E0) as (K1 & O1 & S1). simpl in *.
    exists k. unfold send_failed, all_bytes, unsent. rewrite Hw, S1. split_and!; try done.
    apply (stream_next held k w x k []); try done; [by rewrite K1|]. by intros o ?%elem_of_nil. }
  destruct Hres as (k' & H1 & H2 & H3). exists k'. split_and!; try done. by apply touch_ops_dom.
Qed.

(** ** Sending *)

(** The bytes that a call of [pj_ioqueue_send] has accepted. *)
Definition accepted (data len st n : Z) : list Z :=
  if st =? PJ_SUCCESS then seqZ data n else if st =? PJ_EPENDING then seqZ data len else [].

Lemma write_later_stream held k w s o data len flags :
  stream_state held k w -> is_Some (w_ops w !! o) -> 0 <= len -> sent s (k_fd k) = sent (w_sys w) (k_fd k) ->
  exists st w' k', write_later this id
      (fun r => set_o_op OP_SEND (set_o_buf data (set_o_size len (set_o_written 0 (set_o_flags flags r)))))
      true (set_w_sys s w) h o len = Some (st, len, w') /\
    stream_state held k' w' /\ k_fd k' = k_fd k /\
    (forall x, is_Some (w_ops w !! x) -> is_Some (w_ops w' !! x)) /\
    all_bytes k' w' = all_bytes k w ++ accepted data len st len /\ st <> PJ_SUCCESS /\ w_sys w' = s.
Proof.
  intros Hss [r Hr] Hlen Hs. pose proof Hss as [I Q L C D N O]. pose proof L as (Ha & Hk & Hc).
  assert (Hss' : stream_state held k (set_w_sys s w)) by (split; try done; by apply inv_sys).
  unfold write_later. cbn [negb].
  assert (spin id PENDING_RETRY (set_w_sys s w) o = Some (set_w_sys s w)) as ->.
  { simpl. rewrite Hr. simpl. repeat (case_bool_decide; try done). }
  bind_step. simpl w_ops. rewrite Hr. bind_step. case_bool_decide as Hop; cbn [negb].
  - rewrite (enqueue_eq this _ h k o r); try done; [|apply (iv_sets _ _ I)|intros; by eapply active_fd].
    rewrite Hc, bool_decide_eq_true_2 by done. rewrite bind_some_eq. cbv beta iota.
    set (r' := set_o_op OP_SEND _). set (w' := queued h o WRITEABLE_EVENT (push_write o k) r' (set_w_sys s w)).
    assert (Hno : o ∉ k_write k).
    { intros Hin. destruct (O o Hin) as (r0 & Hr0 & [Ho _]). simplify_eq. congruence. }
    assert (Hother : forall x, x ∈ k_write k -> w_ops w' !! x = w_ops w !! x).
    { intros x Hx. simpl. rewrite lookup_insert_ne; [done|]. by intros ->. }
    pose proof (queued_keeps held (set_w_sys s w) h k o r WRITEABLE_EVENT (push_write o k) r'
      (inv_sys _ _ _ I) L Hr (push_write_change _ _)) as [I' L' _ _ _ _].
    exists PJ_EPENDING, w', (push_write o k). split_and!; try done.
    + split; try done.
      * split_and!; try done. simpl. by rewrite lookup_insert_eq.
      * simpl. apply NoDup_app. split_and!; [done|by intros x Hx ->%list_elem_of_singleton|apply NoDup_singleton].
      * intros x. simpl. rewrite elem_of_app, list_elem_of_singleton. intros [Hx| ->].
        -- rewrite lookup_insert_ne by (by intros ->). by apply O.
        -- rewrite lookup_insert_eq. exists r'. done.
    + intros x Hx. simpl. destruct (decide (x = o)) as [->|]; [rewrite lookup_insert_eq; eauto|by rewrite lookup_insert_ne].
    + unfold all_bytes, unsent. simpl. rewrite flat_map_app, (unsent_other w w') by done. simpl.
      unfold left_of. simpl. rewrite lookup_insert_eq. simpl.
      unfold accepted. simpl. rewrite Z.add_0_r, Z.sub_0_r, app_nil_r, Hs. by rewrite app_assoc.
  - exists PJ_EBUSY, (set_w_sys s w), k. split_and!; try done.
    unfold all_bytes, unsent. simpl. by rewrite app_nil_r, Hs.
Qed.

(** The system was asked to send, or it was not; success is what it said. *)
Definition send_sys (fd data len st n : Z) (s s' : S) : Prop :=
  if st =? PJ_SUCCESS then 0 <= n <= len /\ exists flags, sys_send s fd data len flags = (n, s')
  else s' = s \/ exists m flags, sys_send s fd data len flags = (m, s').

Lemma send_sys_not fd data len st n s s' : st <> PJ_SUCCESS ->
  s' = s \/ (exists m flags, sys_send s fd data len flags = (m, s')) -> send_sys fd data len st n s s'.
Proof. intros Hst Hs. unfold send_sys. by destruct (Z.eqb_spec st PJ_SUCCESS). Qed.

Lemma send_step held k w o data len flags :
  stream_state held k w -> is_Some (w_ops w !! o) -> 0 <= len ->
  exists st n w' k', pj_ioqueue_send this id w h o data len flags = Some (st, n, w') /\
    stream_state held k' w' /\ k_fd k' = k_fd k /\
    (forall x, is_Some (w_ops w !! x) -> is_Some (w_ops w' !! x)) /\
    all_bytes k' w' = all_bytes k w ++ accepted data len st n /\
    send_sys (k_fd k) data len st n (w_sys w) (w_sys w').
Proof.
  intros Hss Ho Hlen. pose proof Hss as [I Q L C D N O]. pose proof L as (Ha & Hk & Hc).
  unfold pj_ioqueue_send, start_write. cbv zeta. destruct (data =? 0).
  { exists PJ_EINVAL, len, w, k. split_and!; try done; [by rewrite app_nil_r|]. apply send_sys_not; [done|by left]. }
  rewrite Hk. bind_step. rewrite Hc.
  assert (Hlater : forall s, sent s (k_fd k) = sent (w_sys w) (k_fd k) ->
      s = w_sys w \/ (exists m flags, sys_send (w_sys w) (k_fd k) data len flags = (m, s)) -> exists st n w' k', write_later this id
      (fun r => set_o_op OP_SEND (set_o_buf data (set_o_size len (set_o_written 0 (set_o_flags (without_async flags) r)))))
      true (set_w_sys s w) h o len = Some (st, n, w') /\ stream_state held k' w' /\ k_fd k' = k_fd k /\
    (forall x, is_Some (w_ops w !! x) -> is_Some (w_ops w' !! x)) /\
    all_bytes k' w' = all_bytes k w ++ accepted data len st n /\ send_sys (k_fd k) data len st n (w_sys w) (w_sys w')).
  { intros s Hs Hsys. destruct (write_later_stream held k w s o data len (without_async flags) Hss Ho Hlen Hs)
      as (st & w' & k' & E & H1 & H2 & H3 & H4 & H5 & H6). exists st, len, w', k'. split_and!; try done.
    apply send_sys_not; [done|]. by rewrite H6. }
  assert (Hlater0 := Hlater (w_sys w) eq_refl (or_introl eq_refl)). replace (set_w_sys (w_sys w) w) with w in Hlater0 by by destruct w.
  case_bool_decide as Hl; [|done]. unfold pj_sock_send, io_status.
  destruct (sys_send _ _ _ _ _) as [n s] eqn:Es. destruct (send_taken _ _ _ _ _ _ _ Es Hlen) as [Hn Ht].
  assert (Hss' : stream_state held k (set_w_sys s w)) by (split; try done; by apply inv_sys).
  assert (Hall : all_bytes k (set_w_sys s w) = all_bytes k w ++ seqZ data n).
  { unfold all_bytes, unsent. rewrite Hl. simpl. by rewrite Ht, !app_nil_r. }
  destruct (Z.ltb_spec n 0) as [Hneg|Hneg]; cbv beta iota zeta.
  - pose proof (send_errno _ _ _ _ _ _ _ Es Hneg) as He.
    assert (Hst : 120000 < PJ_RETURN_OS_ERROR (errno s)).
    { unfold PJ_RETURN_OS_ERROR, PJ_STATUS_FROM_OS, PJ_ERRNO_START_SYS. destruct (Z.eqb_spec (errno s) 0); lia. }
    destruct (Z.eqb_spec (PJ_RETURN_OS_ERROR (errno s)) PJ_SUCCESS) as [E|_]; [rewrite E in Hst; done|].
    rewrite seqZ_nil, app_nil_r in Ht, Hall by lia.
    destruct (would_block _); [apply Hlater; [done|right; eauto]|].
    exists (PJ_RETURN_OS_ERROR (errno s)), len, (set_w_sys s w), k. split_and!; try done.
    2: { apply send_sys_not; [intros E; rewrite E in Hst; done|right; eauto]. }
    unfold accepted. destruct (Z.eqb_spec (PJ_RETURN_OS_ERROR (errno s)) PJ_SUCCESS) as [E|_]; [rewrite E in Hst; done|].
    destruct (Z.eqb_spec (PJ_RETURN_OS_ERROR (errno s)) PJ_EPENDING) as [E|_]; [rewrite E in Hst; done|].
    by rewrite app_nil_r.
  - exists PJ_SUCCESS, n, (set_w_sys s w), k. split_and!; try done. split; [lia|eauto].
Qed.

(** ** Any sequence of sends and writable events *)

Inductive action := SendData (o data len flags : Z) | Writable.

Definition act_ok (w : world S) (a : action) : Prop :=
  match a with SendData o _ len _ => is_Some (w_ops w !! o) /\ 0 <= len | Writable => True end.

(** The bytes accepted, whether every send so far has succeeded, and the state. *)
Definition act (a : action) (w : world S) : option (list Z * bool * world S) :=
  match a with
  | SendData o data len flags =>
      '(st, n, w') ← pj_ioqueue_send this id w h o data len flags; Some (accepted data len st n, true, w')
  | Writable =>
      k ← w_keys w !! h;
      '(w', _) ← write_begin this w h; Some ([], negb (send_failed k w'), w')
  end.

Fixpoint run (l : list action) (w : world S) : option (list Z * bool * world S) :=
  match l with
  | [] => Some ([], true, w)
  | a :: l =>
      '(x, b, w) ← act a w;
      '(y, c, w) ← run l w;
      Some (x ++ y, b && c, w)
  end.

Lemma act_step held k w a : stream_state held k w -> act_ok w a ->
  exists x b w' k', act a w = Some (x, b, w') /\ stream_state held k' w' /\ k_fd k' = k_fd k /\
    (forall o, is_Some (w_ops w !! o) -> is_Some (w_ops w' !! o)) /\
    (b = true -> all_bytes k' w' = all_bytes k w ++ x) /\ all_bytes k' w' `sublist_of` all_bytes k w ++ x.
Proof.
  intros Hss Ha. destruct a as [o data len flags|]; simpl.
  - destruct Ha as [Ho Hlen].
    destruct (send_step held k w o data len flags Hss Ho Hlen) as (st & n & w' & k' & -> & S1 & S2 & S3 & S4 & _). simpl.
    do 4 eexists. split_and!; try done. by rewrite S4.
  - destruct (writable_step held k w Hss) as (w' & n & k' & -> & S1 & S2 & S3 & S4).
    destruct (ss_live _ _ _ Hss) as (_ & Hk & _). rewrite Hk. simpl.
    exists [], (negb (send_failed k w')), w', k'. rewrite app_nil_r. split_and!; try done; destruct (send_failed k w'); try done.
    + destruct S4 as (x & <- & Hsub). unfold all_bytes. by apply sublist_app.
    + by rewrite S4.
Qed.

(** C7 However the application's sends and the writable events of a connected
    stream socket follow each other, and however the system splits the data:
    every call returns, and as long as no send fails the bytes the system has
    taken, followed by those still pending, are exactly those that were there
    before followed by those accepted since, in order; after a failed send some
    bytes may be missing, but none is repeated or out of order. *)
Theorem stream_in_order held l : forall k w,
  stream_state held k w -> (forall a, a ∈ l -> act_ok w a) ->
  exists x b w' k', run l w = Some (x, b, w') /\ stream_state held k' w' /\ k_fd k' = k_fd k /\
    (b = true -> sent (w_sys w') (k_fd k) ++ unsent w' k' = sent (w_sys w) (k_fd k) ++ unsent w k ++ x) /\
    sent (w_sys w') (k_fd k) ++ unsent w' k' `sublist_of` sent (w_sys w) (k_fd k) ++ unsent w k ++ x.
Proof.
  induction l as [|a l IH]; intros k w Hss Hok; cbn [run].
  { exists [], true, w, k. rewrite !app_nil_r. by split_and!. }
  destruct (act_step held k w a Hss) as (x & b & w1 & k1 & -> & S1 & F1 & D1 & E1 & U1); [apply Hok; by left|].
  rewrite bind_some_eq. cbv beta iota.
  destruct (IH k1 w1 S1) as (y & c & w2 & k2 & -> & S2 & F2 & E2 & U2).
  { intros a' Ha'. assert (Hw : act_ok w a') by (apply Hok; by right). destruct a'; [|done].
    destruct Hw. split; [by apply D1|done]. }
  rewrite bind_some_eq. cbv beta iota. exists (x ++ y), (b && c), w2, k2.
  unfold all_bytes in *. rewrite F1 in *. split_and!; try done.
  - intros [-> ->]%andb_true_iff. rewrite E2 by done. rewrite app_assoc, E1 by done. by rewrite !app_assoc.
  - etrans; [exact U2|]. rewrite app_assoc. rewrite !(app_assoc _ x y), (app_assoc _ (unsent w k ++ x)), (app_assoc _ _ x).
    by apply sublist_app.
Qed.
End Stream.
