(* ===== verification/IoQueueWatch.v ===== *)
(** * Pending operations are watched for

    A pending operation is reached again only when [select] is asked about its
    descriptor: the sections of a dispatch take a descriptor out of a set only
    when no operation waits there any more. *)
From S2P Require Import Prelude TimeVal SockBsd IoQueueData IoQueue IoQueueInv IoQueueThreads.

Section Watch.
Context `{!SystemConstants} {S : Type} `{!SystemSockets S} (h : Z).
Implicit Types (w : world S) (k : pj_ioqueue_key_t).

(** Every operation of the key has its descriptor in the set of its event. *)
Record watched (k : pj_ioqueue_key_t) (w : world S) : Prop := {
  wt_read : k_read k <> [] \/ k_accept k <> [] -> k_fd k ∈ PART_FDSET (q_r (w_q w));
  wt_write : k_write k <> [] \/ k_connecting k = true -> k_fd k ∈ PART_FDSET (q_w (w_q w));
  wt_except : k_connecting k = true -> k_fd k ∈ PART_FDSET (q_x (w_q w))
}.

(** ** Sets that stay as they are *)

Lemma release_q t l w w' : release t l w = Some w' -> w_q w' = w_q w.
Proof.
  unfold release. destruct (w_locks w !! l) as [[u n]|]; [|done]. simpl. destruct (negb _); [done|].
  by intros [= <-].
Qed.

Lemma tryacquire_q t l w w' : tryacquire t l w = Some w' -> w_q w' = w_q w.
Proof.
  unfold tryacquire. destruct (w_locks w !! l) as [[u n]|]; [destruct (_ && _); [|done]|]; by intros [= <-].
Qed.

Lemma unlock_q t w w' x : pj_ioqueue_unlock_key t w x = Some w' -> w_q w' = w_q w.
Proof. unfold pj_ioqueue_unlock_key. destruct (w_keys w !! x); [|done]. apply release_q. Qed.

Lemma upd_op_q w w' o f : upd_op w o f = Some w' -> w_q w' = w_q w.
Proof. unfold upd_op. destruct (w_ops w !! o); [|done]. by intros [= <-]. Qed.

Lemma remove_q t w w' x e : ioqueue_remove_from_set2 t w x e = Some w' ->
  (has_event e READABLE_EVENT = false -> q_r (w_q w') = q_r (w_q w)) /\
  (has_event e WRITEABLE_EVENT = false -> q_w (w_q w') = q_w (w_q w)) /\
  (has_event e EXCEPTION_EVENT = false -> q_x (w_q w') = q_x (w_q w)).
Proof.
  unfold ioqueue_remove_from_set2, acquire. destruct (tryacquire t LIoq w) as [w1|] eqn:E1; [|done]. simpl.
  destruct (w_keys w1 !! x) as [k|]; [|done]. simpl. apply tryacquire_q in E1.
  destruct (change_sets _ _ _ _) as [q|] eqn:Ec; [|done]. simpl. intros E2. apply release_q in E2. simpl in E2.
  unfold change_sets in Ec. rewrite E1 in Ec. rewrite E2. bind_inv Ec. bind_inv Ec. bind_inv Ec. injection Ec as <-.
  simpl. split_and!; intros He; rewrite He in *; by simplify_eq.
Qed.

(** What a section may do to a key that stays watched: the writing side. *)
Definition write_side (k k' : pj_ioqueue_key_t) (w w' : world S) : Prop :=
  k_read k' = k_read k /\ k_accept k' = k_accept k /\ k_connecting k' = k_connecting k /\ k_fd k' = k_fd k /\
  q_r (w_q w') = q_r (w_q w) /\ q_x (w_q w') = q_x (w_q w) /\
  (q_w (w_q w') = q_w (w_q w) /\ (k_write k' <> [] -> k_write k <> []) \/ k_write k' = []).

Lemma write_side_watched k k' w w' :
  watched k w -> k_connecting k = false -> write_side k k' w w' -> watched k' w'.
Proof.
  intros [R W X] Hc (E1 & E2 & E3 & E4 & E5 & E6 & E7). split; rewrite ?E1, ?E2, ?E3, ?E4, ?E5, ?E6; try done.
  rewrite Hc. intros [Hne|?]; [|done]. destruct E7 as [[-> E7]|E7]; [|done]. apply W. left. by apply E7.
Qed.

Lemma erase_write_side t w w' rest k :
  erase_write t w h rest = Some w' -> w_keys w !! h = Some k -> k_write k <> [] ->
  w_keys w' !! h = Some (set_k_write rest k) /\ write_side k (set_k_write rest k) w w'.
Proof.
  unfold erase_write. intros E Hk Hne. bind_inv E. apply upd_key_inv in E0 as (k0 & Hk0 & ->). simplify_eq.
  case_bool_decide as Hr.
  - rewrite (remove_keys _ _ _ _ _ E). apply remove_q in E as (E1 & E2 & E3). simpl in *. rewrite lookup_insert_eq.
    split; [done|]. split_and!; try done; [by apply E1|by apply E3|by right].
  - injection E as <-. simpl. rewrite lookup_insert_eq. split; [done|]. split_and!; try done. by left.
Qed.

Lemma write_finish_side t w w' o n k :
  write_finish t w h o = Some (w', n) -> w_keys w !! h = Some k ->
  w_q w' = w_q w /\ exists k', w_keys w' !! h = Some k' /\ write_side k k' w w' /\ k_write k' = k_write k.
Proof.
  unfold write_finish. intros E Hk. rewrite Hk in E. simpl in E.
  destruct (k_conc k); [|destruct (k_write_thread k)].
  1: { bind_inv E. injection E as <- <-. rewrite (unlock_keys _ _ _ _ E0). pose proof (unlock_q _ _ _ _ E0) as Eq.
    split; [done|]. exists k. split; [done|]. unfold write_side. rewrite Eq. split_and!; try done. by left. }
  all: bind_inv E; bind_inv E; injection E as <- <-; apply upd_key_inv in E0 as (k0 & Hk0 & ->); simplify_eq;
    rewrite (unlock_keys _ _ _ _ E1); pose proof (unlock_q _ _ _ _ E1) as Eq; simpl in *; rewrite lookup_insert_eq;
    (split; [done|]); eexists; (split; [done|]); unfold write_side; rewrite Eq; split_and!; try done; by left.
Qed.

Lemma write_side_trans k1 k2 k3 w1 w2 w3 :
  write_side k1 k2 w1 w2 -> write_side k2 k3 w2 w3 -> write_side k1 k3 w1 w3.
Proof.
  intros (A1 & A2 & A3 & A4 & A5 & A6 & A7) (B1 & B2 & B3 & B4 & B5 & B6 & B7).
  split_and!; try congruence. destruct B7 as [[-> B7]|B7]; [|by right]. destruct A7 as [[-> A7]|A7]; [left; auto|].
  right. destruct (k_write k3); [done|]. exfalso. by apply B7.
Qed.

Lemma write_side_q k w w' : w_q w' = w_q w -> write_side k k w w'.
Proof. intros E. unfold write_side. rewrite E. split_and!; try done. by left. Qed.

Lemma write_first_side t w w' k o rest n :
  write_first t w h k o rest = Some (w', n) -> w_keys w !! h = Some k -> k_write k = o :: rest ->
  exists k', w_keys w' !! h = Some k' /\ write_side k k' w w'.
Proof.
  unfold write_first. intros E Hk Hl. assert (Hne : k_write k <> []) by (by rewrite Hl).
  bind_inv E. bind_inv E. destruct (send_op _ _ _) as [[rc m] s].
  set (k1 := if is_dgram k then set_k_write rest k else k).
  assert (H1 : w_keys x !! h = Some k1 /\ write_side k k1 w x).
  { unfold k1. destruct (is_dgram k); [by eapply erase_write_side|]. injection E0 as <-. split; [done|]. by apply write_side_q. }
  destruct H1 as [Hk1 W1]. bind_inv E. pose proof (upd_op_keys _ _ _ _ E2) as K2. apply upd_op_q in E2. simpl in *.
  destruct (_ || _ || _).
  - bind_inv E. pose proof (upd_op_keys _ _ _ _ E3) as K3. apply upd_op_q in E3. bind_inv E.
    assert (H4 : exists k4, w_keys x3 !! h = Some k4 /\ write_side k k4 w x3).
    { unfold k1 in *. destruct (is_dgram k).
      - injection E4 as <-. eexists. split; [rewrite K3, K2; exact Hk1|]. eapply write_side_trans; [exact W1|].
        apply write_side_q. congruence.
      - destruct (erase_write_side _ _ _ _ k E4) as [K4 W4]; [by rewrite K3, K2|done|]. eexists. split; [exact K4|].
        eapply write_side_trans; [exact W1|]. eapply write_side_trans; [apply (write_side_q _ _ x2); congruence|exact W4]. }
    destruct H4 as (k4 & Hk4 & W4). destruct (write_finish_side _ _ _ _ _ _ E Hk4) as (_ & k' & Hk' & W' & _).
    exists k'. split; [done|]. by eapply write_side_trans.
  - bind_inv E. injection E as <- <-. exists k1. rewrite (unlock_keys _ _ _ _ E3), K2. split; [done|].
    eapply write_side_trans; [exact W1|]. apply write_side_q. rewrite (unlock_q _ _ _ _ E3). congruence.
Qed.

(** The reading side. *)
Definition read_side (k k' : pj_ioqueue_key_t) (w w' : world S) : Prop :=
  k_write k' = k_write k /\ k_connecting k' = k_connecting k /\ k_fd k' = k_fd k /\
  q_w (w_q w') = q_w (w_q w) /\ q_x (w_q w') = q_x (w_q w) /\
  (q_r (w_q w') = q_r (w_q w) \/ k_read k' = [] /\ k_accept k' = []).

Lemma read_side_watched k k' w w' :
  watched k w -> k_read k <> [] \/ k_accept k <> [] -> read_side k k' w w' -> watched k' w'.
Proof.
  intros [R W X] Hne (E1 & E2 & E3 & E4 & E5 & E6). split; rewrite ?E1, ?E2, ?E3, ?E4, ?E5; try done.
  destruct E6 as [->|[-> ->]]; [by intros _; apply R|by intros [|]].
Qed.

Lemma watched_same k w w' : watched k w -> w_q w' = w_q w -> watched k w'.
Proof. intros [R W X] E. by split; rewrite E. Qed.

Lemma read_finish_side t w w' o b n k :
  read_finish t w h o b = Some (w', n) -> w_keys w !! h = Some k ->
  w_q w' = w_q w /\ exists k', w_keys w' !! h = Some k' /\ k_read k' = k_read k /\ k_accept k' = k_accept k /\
    k_write k' = k_write k /\ k_connecting k' = k_connecting k /\ k_fd k' = k_fd k.
Proof.
  unfold read_finish. intros E Hk. rewrite Hk in E. simpl in E.
  destruct (k_conc k); [|destruct (k_read_thread k)].
  1: { bind_inv E. injection E as <- <-. rewrite (unlock_keys _ _ _ _ E0), (unlock_q _ _ _ _ E0). split; [done|]. by exists k. }
  all: bind_inv E; bind_inv E; injection E as <- <-; apply upd_key_inv in E0 as (k0 & Hk0 & ->); simplify_eq;
    rewrite (unlock_keys _ _ _ _ E1), (unlock_q _ _ _ _ E1); simpl; rewrite lookup_insert_eq; split; [done|]; by eexists.
Qed.

Lemma read_first_side t w w' k o rest n :
  read_first t w h k o rest = Some (w', n) -> w_keys w !! h = Some k -> k_accept k = [] ->
  exists k', w_keys w' !! h = Some k' /\ read_side k k' w w'.
Proof.
  unfold read_first. intros E Hk Ha. bind_inv E. bind_inv E. destruct (recv_op _ _ _) as [m s]. bind_inv E.
  pose proof (erase_read_keys _ _ _ _ _ _ E0 Hk) as Hk1. pose proof (upd_op_keys _ _ _ _ E2) as K2. apply upd_op_q in E2.
  simpl in *. destruct (read_finish_side _ _ _ _ _ _ (set_k_read rest k) E) as (Eq & k' & Hk' & F1 & F2 & F3 & F4 & F5);
    [by rewrite K2|].
  exists k'. split; [done|]. unfold erase_read in E0. bind_inv E0. apply upd_key_inv in E3 as (k0 & Hk0 & ->).
  rewrite Hk in Hk0. injection Hk0 as <-. unfold read_side. rewrite Eq, E2. case_bool_decide as Hr.
  - apply remove_q in E0 as (_ & R2 & R3). simpl in *. split_and!; try done; [by apply R2|by apply R3|].
    right. by rewrite F1, F2.
  - injection E0 as <-. simpl. split_and!; try done. by left.
Qed.

Lemma accept_op_q w w' fd r rc : accept_op w fd r = (rc, w') -> w_q w' = w_q w.
Proof.
  unfold accept_op. destruct (pj_sock_accept _ _ _ _) as [[rc1 ns] s].
  match goal with |- (let '(a, b) := ?e in _) = _ -> _ => destruct e as [rc2 s2] end. by intros [= _ <-].
Qed.

Lemma accept_first_side t w w' k o rest n :
  accept_first t w h k o rest = Some (w', n) -> w_keys w !! h = Some k -> k_read k = [] ->
  exists k', w_keys w' !! h = Some k' /\ read_side k k' w w'.
Proof.
  unfold accept_first. intros E Hk Hr. bind_inv E. bind_inv E. bind_inv E. bind_inv E.
  apply upd_key_inv in E0 as (k1 & Hk1 & ->). simplify_eq. pose proof (upd_op_keys _ _ _ _ E1) as K1. apply upd_op_q in E1.
  destruct (accept_op _ _ _) as [rc w4] eqn:Ea. pose proof (accept_op_keys _ _ _ _ _ Ea) as K4. apply accept_op_q in Ea.
  assert (Hn : w_keys w' = w_keys w4 /\ w_q w' = w_q w4).
  { destruct (k_conc k1); [bind_inv E; injection E as <- <-; by rewrite (unlock_keys _ _ _ _ E0), (unlock_q _ _ _ _ E0)|].
    by injection E as <- <-. }
  destruct Hn as [-> Hq']. exists (set_k_accept rest k1). unfold read_side. rewrite Hq', Ea, K4. simpl in *.
  case_bool_decide as Hrest.
  - rewrite (remove_keys _ _ _ _ _ E2), K1. apply remove_q in E2 as (_ & R2 & R3). rewrite lookup_insert_eq.
    split_and!; try done; [rewrite R2 by done; by rewrite E1|rewrite R3 by done; by rewrite E1|]. by right.
  - injection E2 as <-. rewrite K1, E1, lookup_insert_eq. split_and!; try done. by left.
Qed.

(** C11 No section of a dispatch forgets a pending operation: when every
    operation of a key has its descriptor in the set of its event, so has every
    operation that is left after the section of a writable event, unless the key
    connects and has writes pending at once, and of a readable event, unless it
    has both accepts and reads. *)
Theorem dispatch_keeps_watch t w k :
  w_keys w !! h = Some k -> k_closing k = false -> watched k w ->
  (k_connecting k = false \/ k_write k = [] -> forall w' n, write_begin t w h = Some (w', n) ->
    exists k', w_keys w' !! h = Some k' /\ watched k' w') /\
  (k_accept k = [] \/ k_read k = [] -> forall w' n, read_begin t w h = Some (w', n) ->
    exists k', w_keys w' !! h = Some k' /\ watched k' w').
Proof.
  intros Hk Hcl Hw. unfold write_begin, read_begin, pj_ioqueue_trylock_key. rewrite Hk. simpl.
  destruct (tryacquire t (key_lock h k) w) as [w1|] eqn:El; simpl.
  2: { split; intros _ w' n [= <- <-]; by exists k. }
  pose proof (tryacquire_keys _ _ _ _ El) as K1. pose proof (tryacquire_q _ _ _ _ El) as Q1. rewrite K1, Hk. simpl. rewrite Hcl.
  assert (Hw1 : watched k w1) by by eapply watched_same.
  assert (Hk1 : w_keys w1 !! h = Some k) by by rewrite K1.
  assert (Hsame : forall w' (m n : next), (w2 ← pj_ioqueue_unlock_key t w1 h; Some (w2, m)) = Some (w', n) ->
    exists k', w_keys w' !! h = Some k' /\ watched k' w').
  { intros w' m n E. bind_inv E. injection E as <- <-. exists k. rewrite (unlock_keys _ _ _ _ E0). split; [done|].
    eapply watched_same; [exact Hw1|]. by apply unlock_q in E0. }
  split; intros Hor w' n E.
  - destruct (k_connecting k) eqn:Hc.
    + destruct Hor as [?|Hnw]; [done|]. bind_inv E. bind_inv E. destruct (pj_sock_getsockopt _ _ _) as [[rc v] s].
      bind_inv E. injection E as <- <-. apply upd_key_inv in E0 as (k0 & Hk0 & ->). rewrite Hk1 in Hk0. injection Hk0 as <-.
      exists (set_k_connecting false k). rewrite (unlock_keys _ _ _ _ E2). pose proof (unlock_q _ _ _ _ E2) as Q2. simpl in *.
      rewrite (remove_keys _ _ _ _ _ E1). apply remove_q in E1 as (R1 & _ & _). simpl in *. rewrite lookup_insert_eq.
      split; [done|]. destruct Hw1 as [W1 W2 W3]. split; simpl; rewrite ?Hnw, ?Q2; try done; [|by intros [|]].
      rewrite R1 by done. exact W1.
    + destruct (k_write k) as [|o rest] eqn:Hl; [by eapply Hsame|].
      destruct (write_first_side _ _ _ _ _ _ _ E Hk1 Hl) as (k' & Hk' & Hs). exists k'. split; [done|].
      by eapply write_side_watched.
  - destruct (k_accept k) as [|o rest] eqn:Ha.
    + destruct (k_read k) as [|o rest] eqn:Hr; [by eapply Hsame|].
      destruct (read_first_side _ _ _ _ _ _ _ E Hk1 Ha) as (k' & Hk' & Hs). exists k'. split; [done|].
      eapply read_side_watched; [exact Hw1|left; by rewrite Hr|done].
    + destruct Hor as [?|Hr]; [done|].
      destruct (accept_first_side _ _ _ _ _ _ _ E Hk1 Hr) as (k' & Hk' & Hs). exists k'. split; [done|].
      eapply read_side_watched; [exact Hw1|right; by rewrite Ha|done].
Qed.
End Watch.
