(* ===== verification/IoQueueCreate.v ===== *)
(** * Creating and destroying the I/O queue

    [pj_ioqueue_create2] and [pj_ioqueue_destroy] of
    [pjlib/src/pj/ioqueue_select.c]: all keys are made in advance, each with its
    lock.  The addresses the pool gives for them, what is in that memory, and the
    creation of a mutex are parameters.  The queue uses its own lock: the
    application's lock of [pj_ioqueue_set_lock] is not modelled. *)
From S2P Require Import Prelude TimeVal SockBsd IoQueueData IoQueue IoQueueInv.

Section Create.
Context `{!SystemConstants} {S : Type} `{!SystemSockets S} (this : Z).
(** [pj_mutex_create_simple], [pj_lock_create_recursive_mutex] and
    [pj_lock_create_simple_mutex]: the status. *)
Context (mutex_create : S -> Z * S).
(** The address of the key that is allocated next, and its contents. *)
Context (alloc : nat -> Z) (junk : nat -> pj_ioqueue_key_t).
Implicit Types (w : world S).

Definition new_mutex (l : lock_id) (w : world S) : Z * world S :=
  let '(rc, s) := mutex_create (w_sys w) in
  let w := set_w_sys s w in
  (rc, if rc =? PJ_SUCCESS then set_w_mutexes ({[l]} ∪ w_mutexes w) w else w).

Definition destroy_mutex (l : lock_id) (w : world S) : world S := set_w_mutexes (w_mutexes w ∖ {[l]}) w.

Definition destroy_locks (hs : list Z) (w : world S) : world S :=
  fold_left (fun w h => destroy_mutex (LKey h) w) hs w.

Fixpoint create_keys (i n : nat) (w : world S) : Z * world S :=
  match n with
  | O => (PJ_SUCCESS, w)
  | Datatypes.S n =>
      let h := alloc i in
      let w := set_w_keys (<[h := set_k_ref 0 (junk i)]> (w_keys w)) w in
      let '(rc, w) := new_mutex (LKey h) w in
      if negb (rc =? PJ_SUCCESS) then (rc, destroy_mutex LRef (destroy_locks (q_free (w_q w)) w))
      else create_keys (Datatypes.S i) n (upd_q w (fun q => set_q_free (q_free q ++ [h]) q))
  end.

Definition PJ_IOQUEUE_DEFAULT_ALLOW_CONCURRENCY : bool := true.

(** [pj_ioqueue_cfg_default]: the member that the select queue uses. *)
Definition pj_ioqueue_cfg_default : bool := PJ_IOQUEUE_DEFAULT_ALLOW_CONCURRENCY.

(** [cfg] is the default concurrency of the given configuration. *)
Definition pj_ioqueue_create2 (max_fd : Z) (cfg : option bool) (w : world S) : option (Z * world S) :=
  if negb ((0 <? max_fd) && (max_fd <=? PJ_IOQUEUE_MAX_HANDLES)) then Some (PJ_EINVAL, w) else
  let conc := match cfg with Some c => c | None => pj_ioqueue_cfg_default end in
  w ← rescan_fdset (set_w_q (mk_ioqueue max_fd 0 0 [] [] [] PJ_FD_ZERO PJ_FD_ZERO PJ_FD_ZERO conc) w);
  let '(rc, w) := new_mutex LRef w in
  if negb (rc =? PJ_SUCCESS) then Some (rc, w) else
  let '(rc, w) := create_keys 0 (Z.to_nat max_fd) w in
  if negb (rc =? PJ_SUCCESS) then Some (rc, w) else
  let '(rc, w) := new_mutex LIoq w in
  Some (rc, w).

Definition pj_ioqueue_create (max_fd : Z) (w : world S) : option (Z * world S) :=
  pj_ioqueue_create2 max_fd None w.

Definition pj_ioqueue_destroy (w : world S) : option (Z * world S) :=
  w ← acquire this LIoq w;
  let w := destroy_locks (q_active (w_q w)) w in
  let w := destroy_locks (q_closing (w_q w)) w in
  let w := destroy_locks (q_free (w_q w)) w in
  let w := destroy_mutex LRef w in
  w ← release this LIoq w;
  Some (PJ_SUCCESS, destroy_mutex LIoq w).

(** ** What the loop does *)

Lemma destroy_locks_eq hs : forall w,
  destroy_locks hs w = set_w_mutexes (w_mutexes w ∖ list_to_set (map LKey hs)) w.
Proof.
  induction hs as [|h hs IH]; intros w; simpl.
  - rewrite difference_empty_L. by destruct w.
  - rewrite IH. simpl. unfold destroy_mutex. simpl. by rewrite difference_difference_l_L.
Qed.

(** The addresses of the keys from the [i]-th on. *)
Definition addrs (i n : nat) : list Z := map alloc (seq i n).

(** The keys in memory are those of the free list, each with its lock and no
    references. *)
Record made (M0 : gset lock_id) (w : world S) : Prop := {
  md_mutexes : w_mutexes w = M0 ∪ {[LRef]} ∪ list_to_set (map LKey (q_free (w_q w)));
  md_keys h : h ∈ q_free (w_q w) -> exists k, w_keys w !! h = Some k /\ k_ref k = 0
}.

Lemma create_keys_ok M0 n : forall i w rc w',
  made M0 w -> (forall h, LKey h ∉ M0) -> LRef ∉ M0 ->
  create_keys i n w = (rc, w') ->
  w_locks w' = w_locks w /\
  if rc =? PJ_SUCCESS
  then made M0 w' /\ w_q w' = set_q_free (q_free (w_q w) ++ addrs i n) (w_q w)
  else w_mutexes w' = M0.
Proof.
  induction n as [|n IH]; intros i w rc w' Hm Hk Hr E; simpl in E.
  { injection E as <- <-. simpl. rewrite app_nil_r. by destruct w as [? ? [] ? ? ? ? ? ?]. }
  set (w1 := set_w_keys _ w) in E. unfold new_mutex in E. destruct (mutex_create (w_sys w1)) as [rc1 s].
  destruct (Z.eqb_spec rc1 PJ_SUCCESS) as [->|Hne]; cbn [negb] in E.
  - set (w2 := upd_q _ _) in E.
    assert (Hm2 : made M0 w2).
    { destruct Hm as [Hm1 Hm2]. split; simpl.
      - rewrite Hm1, map_app, list_to_set_app_L. simpl. set_solver.
      - intros h [Hin|Hin%list_elem_of_singleton]%elem_of_app.
        + destruct (decide (h = alloc i)) as [->|]; [rewrite lookup_insert_eq; eauto|].
          rewrite lookup_insert_ne by done. by apply Hm2.
        + rewrite Hin, lookup_insert_eq. eauto. }
    destruct (IH _ _ _ _ Hm2 Hk Hr E) as [Hl Hres]. split; [done|]. destruct (rc =? PJ_SUCCESS); [|done].
    destruct Hres as [H1 H2]. split; [done|]. rewrite H2. simpl. unfold addrs. simpl. by rewrite <-app_assoc.
  - injection E as <- <-. rewrite destroy_locks_eq. split; [done|].
    destruct (Z.eqb_spec rc1 PJ_SUCCESS); [done|]. simpl. destruct Hm as [-> _].
    apply leibniz_equiv. intros l. rewrite !elem_of_difference, !elem_of_union, elem_of_list_to_set, elem_of_singleton.
    split; [tauto|]. intros Hl. split_and!; [by left; left| |by intros ->].
    intros (h & -> & _)%list_elem_of_fmap. by apply (Hk h).
Qed.

(** The invariant of a queue whose keys are all free. *)
Lemma fresh_queue_inv M0 w :
  made M0 w -> NoDup (q_free (w_q w)) -> q_active (w_q w) = [] -> q_closing (w_q w) = [] -> q_count (w_q w) = 0 ->
  sets_ok (w_q w) -> watched_fds (w_q w) = ∅ -> ioq_inv (fun _ => 0) w.
Proof.
  intros [_ Hk] Hnd Ha Hc Hn Hs Hw. unfold all_keys, live_key in *.
  split; unfold live_key, all_keys; rewrite ?Ha, ?Hc, ?Hn, ?Hw; try done; simpl; try (by intros; decompose_list_elem_of);
    try (by intros ? ? (?%elem_of_nil & _)); try (by intros ? ? ? ? (?%elem_of_nil & _)).
  - intros h Hh. destruct (Hk h Hh) as (k & -> & _). eauto.
  - intros h k Hh E. destruct (Hk h Hh) as (k' & E' & ?). by simplify_eq.
Qed.

(** All locks of the queue. *)
Definition queue_locks (q : pj_ioqueue_t) : gset lock_id := {[LIoq; LRef]} ∪ list_to_set (map LKey (all_keys q)).

Lemma destroy_ok M0 w :
  can_lock this LIoq w -> (forall l, l ∈ M0 -> l ∉ queue_locks (w_q w)) -> w_mutexes w = M0 ∪ queue_locks (w_q w) ->
  exists w', pj_ioqueue_destroy w = Some (PJ_SUCCESS, w') /\ w_mutexes w' = M0 /\ w_locks w' = w_locks w.
Proof.
  intros Hc Hd Hm. unfold pj_ioqueue_destroy. rewrite acquire_can by done. bind_step.
  rewrite !destroy_locks_eq. simpl w_q. rewrite (release_locked this LIoq w) by done. bind_step.
  eexists. split; [done|]. split; [|done]. simpl. rewrite Hm. unfold queue_locks, all_keys.
  rewrite !map_app, !list_to_set_app_L. apply leibniz_equiv. intros l.
  specialize (Hd l). unfold queue_locks, all_keys in Hd. rewrite !map_app, !list_to_set_app_L in Hd. set_solver.
Qed.

(** A queue that has been created satisfies the invariant, with as many free
    keys as asked for and a lock for each, and its destruction gives back every
    lock that the creation made; when a lock of a key or of the reference
    counters cannot be created, the ones made before are given back at once. *)
Theorem create_destroy max_fd cfg w :
  0 < max_fd <= PJ_IOQUEUE_MAX_HANDLES -> NoDup (addrs 0 (Z.to_nat max_fd)) -> quiet this w ->
  (forall l, l ∈ w_mutexes w -> l <> LIoq /\ l <> LRef /\ forall h, l <> LKey h) ->
  exists rc w', pj_ioqueue_create2 max_fd cfg w = Some (rc, w') /\
    if rc =? PJ_SUCCESS
    then ioq_inv (fun _ => 0) w' /\ q_free (w_q w') = addrs 0 (Z.to_nat max_fd) /\ q_max (w_q w') = max_fd /\
      exists w'', pj_ioqueue_destroy w' = Some (PJ_SUCCESS, w'') /\ w_mutexes w'' = w_mutexes w
    else w_mutexes w' = w_mutexes w \/ exists s, fst (mutex_create s) = rc /\
      w_mutexes w' = w_mutexes w ∪ queue_locks (w_q w') ∖ {[LIoq]}.
Proof.
  intros Hmax Hnd Hq HM. unfold pj_ioqueue_create2.
  assert (((0 <? max_fd) && (max_fd <=? PJ_IOQUEUE_MAX_HANDLES)) = true) as -> by lia. cbn [negb].
  set (conc := match cfg with Some c => c | None => _ end).
  unfold rescan_fdset. simpl. set (w0 := upd_q _ _). unfold new_mutex at 1.
  destruct (mutex_create (w_sys w0)) as [rc1 s1]. destruct (Z.eqb_spec rc1 PJ_SUCCESS) as [->|H1]; cbn [negb].
  2: { do 2 eexists. split; [done|]. destruct (Z.eqb_spec rc1 PJ_SUCCESS); [done|]. by left. }
  set (w1 := set_w_mutexes _ _).
  assert (Hm1 : made (w_mutexes w) w1) by (split; simpl; [set_solver|by intros h ?%elem_of_nil]).
  assert (Hk : forall h, LKey h ∉ w_mutexes w) by (intros h Hin; destruct (HM _ Hin) as (_ & _ & Hh); by apply (Hh h)).
  assert (Hr : LRef ∉ w_mutexes w) by (intros Hin; by destruct (HM _ Hin) as (_ & ? & _)).
  assert (Hi : LIoq ∉ w_mutexes w) by (intros Hin; by destruct (HM _ Hin) as (? & _)).
  destruct (create_keys 0 (Z.to_nat max_fd) w1) as [rc2 w2] eqn:E2.
  destruct (create_keys_ok _ _ _ _ _ _ Hm1 Hk Hr E2) as [Hl2 Hres].
  destruct (Z.eqb_spec rc2 PJ_SUCCESS) as [->|H2]; cbn [negb].
  2: { do 2 eexists. split; [done|]. destruct (Z.eqb_spec rc2 PJ_SUCCESS); [done|]. by left. }
  destruct Hres as [Hm2 Hq2]. simpl in Hq2. unfold new_mutex. destruct (mutex_create (w_sys w2)) as [rc3 s3] eqn:E3.
  assert (Hfree : q_free (w_q w2) = addrs 0 (Z.to_nat max_fd)) by by rewrite Hq2.
  assert (Hall : all_keys (w_q w2) = q_free (w_q w2)) by by rewrite Hq2.
  destruct Hm2 as [Hmu Hke]. do 2 eexists. split; [done|]. destruct (Z.eqb_spec rc3 PJ_SUCCESS) as [->|H3].
  - split_and!; [|done|simpl; by rewrite Hq2|].
    + eapply (fresh_queue_inv (w_mutexes w ∪ {[LIoq]})); simpl; rewrite ?Hq2; try done.
      split; simpl; [rewrite Hmu; set_solver|done].
    + edestruct (destroy_ok (w_mutexes w)) as (w'' & Ed & Hd & _); [| | |by exists w''].
      * eapply quiet_ext; [|exact Hq]. simpl. by rewrite Hl2.
      * intros l Hl. unfold queue_locks. rewrite !elem_of_union, !elem_of_singleton, elem_of_list_to_set.
        intros [[->| ->]|(h & -> & _)%list_elem_of_fmap]; [done|done|by apply (Hk h)].
      * simpl. rewrite Hmu. unfold queue_locks. rewrite Hall. set_solver.
  - right. exists (w_sys w2). rewrite E3. split; [done|]. simpl. rewrite Hmu. unfold queue_locks. rewrite Hall.
    apply leibniz_equiv. intros l. rewrite !elem_of_union, elem_of_difference, !elem_of_union, !elem_of_singleton, !elem_of_list_to_set.
    split; [|tauto]. intros [[?| ->]|Hin]; [tauto|by right; split; [auto|]|].
    right. split; [by right|]. apply list_elem_of_fmap in Hin as (h & -> & _). done.
Qed.
End Create.
