(* ===== verification/IoQueueExamples.v ===== *)
(** * The I/O queue on concrete inputs

    A small model of the system's sockets that satisfies what the theorems ask
    of it, the theorems applied to concrete states, and the behaviours that
    differ from what the code means to do. *)
From S2P Require Import Prelude TimeVal SockBsd IoQueueData IoQueue IoQueueInv IoQueueDispatch IoQueuePoll IoQueueKeys IoQueueOps IoQueuePollSpec IoQueueRegister IoQueueUnregister IoQueueThreads IoQueueStream IoQueueWatch IoQueueCreate.

#[export] Instance sim_constants : SystemConstants := {|
  FD_SETSIZE := 1024; sizeof_fd_set := 128; EWOULDBLOCK := 11; EINPROGRESS := 115; ECONNRESET := 104;
  SOCK_STREAM := 1; SOCK_DGRAM := 2; MSG_NOSIGNAL := 16384; O_NONBLOCK := 2048
|}.

(** A system whose sockets take up to [sim_room] bytes at a time, always have
    five bytes to read, and are always ready. *)
Record sim := mk_sim {
  sim_errno : Z;
  sim_sent : list (Z * Z);
  sim_room : Z;
  sim_mutexes : Z
}.

Definition sim_send (s : sim) (fd buf len flags : Z) : Z * sim :=
  if sim_room s <=? 0 then (-1, mk_sim EWOULDBLOCK (sim_sent s) (sim_room s) (sim_mutexes s))
  else let n := Z.max 0 (Z.min len (sim_room s)) in
       (n, mk_sim (sim_errno s) (sim_sent s ++ map (pair fd) (seqZ buf n)) (sim_room s) (sim_mutexes s)).

#[export] Instance sim_sockets : SystemSockets sim := {|
  errno := sim_errno;
  sys_send := sim_send;
  sys_sendto s fd buf len flags to tolen := sim_send s fd buf len flags;
  sys_recv s fd buf len flags := (Z.min len 5, s);
  sys_recvfrom s fd buf len flags from fromlen := (Z.min len 5, s);
  sys_read s fd buf len := (Z.min len 5, s);
  sys_accept s fd addr addrlen := (fd + 1, s);
  sys_connect s fd addr addrlen := (-1, mk_sim EINPROGRESS (sim_sent s) (sim_room s) (sim_mutexes s));
  sys_getsockname s fd addr addrlen := (0, s);
  sys_getsockopt s fd o := (0, match o with SO_TYPE => SOCK_STREAM | SO_ERROR => 0 end, s);
  sys_close s fd := (0, s);
  sys_getfl s fd := (0, s);
  sys_setfl s fd flags := (0, s);
  sys_select s n r w x t := (1, r, w, x, s);
  pj_gettickcount s := (mk_time_val 1000 0, s)
|}.

Lemma filter_pairs (fd : Z) (l : list Z) : map snd (filter (fun p => fst p = fd) (map (pair fd) l)) = l.
Proof. induction l as [|x l IH]; [done|]. simpl. rewrite filter_cons_True by done. simpl. by rewrite IH. Qed.

#[export] Program Instance sim_stream : StreamLaws sim := {|
  sent s fd := map snd (filter (fun p => fst p = fd) (sim_sent s))
|}.
Next Obligation.
  intros s fd buf len flags n s' E Hl. simpl in E. unfold sim_send in E. destruct (Z.leb_spec (sim_room s) 0).
  - injection E as <- <-. split; [lia|]. simpl. by rewrite app_nil_r.
  - injection E as <- <-. split; [lia|]. simpl. by rewrite filter_app, map_app, filter_pairs.
Qed.
Next Obligation.
  intros s fd buf len flags n s' E Hn. simpl in E. unfold sim_send in E. destruct (Z.leb_spec (sim_room s) 0).
  - injection E as <- <-. done.
  - injection E as <- <-. lia.
Qed.

(** ** One registered key

    The key at address 100, with the socket 5; the key 101 is free. *)

Definition idle_key : pj_ioqueue_key_t :=
  mk_key (-1) 0 None false false 0 (mk_cb false false false false) false [] [] [] [] [] None None 0 (mk_time_val 0 0).

Definition one_q (r w x : gset Z) : pj_ioqueue_t :=
  mk_ioqueue 2 1 5 [100] [] [101] (mkset r) (mkset w) (mkset x) false.

Definition one {S} (k : pj_ioqueue_key_t) (ops : gmap Z operation_key) (r w x : gset Z) (s : S) : world S :=
  mk_world {[100 := k; 101 := idle_key]} ops (one_q r w x) ∅ ∅ ∅ ∅ [] s.

Lemma one_live {S} k ops r w x (s : S) h k' : live_key (one k ops r w x s) h k' -> h = 100 /\ k' = k.
Proof. intros (->%list_elem_of_singleton & Hk & _). simpl in Hk. rewrite lookup_insert_eq in Hk. by injection Hk as <-. Qed.

(** With [j] references to the key held by pollers. *)
Definition holding (j h : Z) : Z := if h =? 100 then j else 0.

Lemma one_inv_held {S} j k ops r w x (s : S) : 0 <= j < 2 ^ 31 ->
  k_ref k = 1 + j -> k_closing k = false -> k_fd k = 5 -> k_grp k = None -> r ∪ w ∪ x ⊆ {[5]} ->
  (forall o, o ∈ op_lists k -> is_Some (ops !! o)) -> ioq_inv (holding j) (one k ops r w x s).
Proof.
  intros Hj Hr Hc Hf Hg Hs Ho.
  assert (Hk : forall k', w_keys (one k ops r w x s) !! 100 = Some k' -> k' = k).
  { intros k'. simpl. rewrite lookup_insert_eq. congruence. }
  assert (Hi : forall k', w_keys (one k ops r w x s) !! 101 = Some k' -> k' = idle_key).
  { intros k'. simpl. rewrite lookup_insert_ne, lookup_singleton_eq by done. congruence. }
  assert (Hl : live_key (one k ops r w x s) 100 k).
  { split_and!; [by left|simpl; by rewrite lookup_insert_eq|done]. }
  split.
  - done.
  - unfold all_keys. simpl. apply NoDup_cons. split; [by intros ?%list_elem_of_singleton|apply NoDup_singleton].
  - intros h. unfold all_keys. simpl. intros [->|[->|?%elem_of_nil]%elem_of_cons]%elem_of_cons; [| |done].
    + rewrite lookup_insert_eq. eauto.
    + rewrite lookup_insert_ne, lookup_singleton_eq by done. eauto.
  - intros h k' ->%list_elem_of_singleton E. rewrite (Hk _ E), Hc, Hr. unfold holding. simpl. lia.
  - intros h k' ->%list_elem_of_singleton E. by rewrite (Hi _ E).
  - by intros h k' ?%elem_of_nil.
  - intros h k' [-> ->]%one_live. rewrite Hf. done.
  - intros h k' ->%list_elem_of_singleton E. rewrite (Hk _ E), Hc. done.
  - intros h1 k1 h2 k2 [-> ->]%one_live [-> ->]%one_live. done.
  - intros h. unfold holding. destruct (Z.eqb_spec h 100) as [->|]; (split; [lia|]); intros ?; [by left|lia].
  - intros fd Hfd. exists 100, k. split; [done|]. rewrite Hf. unfold watched_fds in Hfd. simpl in Hfd. set_solver.
  - simpl. rewrite filter_cons_True; [done|]. unfold is_live. simpl. by rewrite lookup_insert_eq, Hc.
  - intros h k' g ->%list_elem_of_singleton E. rewrite (Hk _ E), Hg. done.
  - intros h k' o ->%list_elem_of_singleton E. rewrite (Hk _ E). apply Ho.
Qed.

Lemma one_inv {S} k ops r w x (s : S) :
  k_ref k = 1 -> k_closing k = false -> k_fd k = 5 -> k_grp k = None -> r ∪ w ∪ x ⊆ {[5]} ->
  (forall o, o ∈ op_lists k -> is_Some (ops !! o)) -> ioq_inv (fun _ => 0) (one k ops r w x s).
Proof.
  intros Hr Hc Hf Hg Hs Ho. apply (inv_held_ext (holding 0)); [|by apply one_inv_held].
  intros h. unfold holding. by destruct (h =? 100).
Qed.

Lemma one_quiet {S} k ops r w x (s : S) t : quiet t (one k ops r w x s).
Proof. intros l. unfold can_lock. simpl. by rewrite lookup_empty. Qed.

Lemma one_keys {S} k ops r w x (s : S) h k' : w_keys (one k ops r w x s) !! h = Some k' -> k' = k \/ k' = idle_key.
Proof. simpl. intros [[_ <-]|[_ [_ <-]%lookup_singleton_Some]]%lookup_insert_Some; auto. Qed.

(** A socket of the given type with pending operations. *)
Definition sock_key (ty : Z) (conc connecting : bool) (reads writes : list Z) : pj_ioqueue_key_t :=
  mk_key 5 ty None false conc 0 (mk_cb true true true true) connecting reads writes [] [] [] None None 1 (mk_time_val 0 0).

Definition send_op_of (buf size : Z) : operation_key := mk_op OP_SEND buf size 0 0 0 0 0 0 0.
Definition recv_op_of (buf size : Z) : operation_key := mk_op OP_RECV buf size 0 0 0 0 0 0 0.
Definition idle_op : operation_key := mk_op OP_NONE 0 0 0 0 0 0 0 0 0.

(** An application that does nothing in its callbacks. *)
Definition sim_app (c : callback) (w : world sim) : option (world sim) := Some w.

Lemma sim_well_behaved t : WellBehaved t sim_app id.
Proof. split; intros; [eexists; split; [done|]|]; by apply keeps_refl. Qed.

(** Two writes are pending. *)
Definition two_writes : world sim :=
  one (sock_key 1 false false [] [200; 201]) {[200 := send_op_of 1000 10; 201 := send_op_of 2000 4]} ∅ {[5]} ∅
    (mk_sim 0 [] 6 0).

Lemma two_writes_inv : ioq_inv (fun _ => 0) two_writes.
Proof.
  apply one_inv; try done. intros o. unfold op_lists. simpl.
  intros [->|[->|?%elem_of_nil]%elem_of_cons]%elem_of_cons; [| |done]; by eexists.
Qed.

(** ** The theorems at work *)

Lemma ioqueue_poll_safe_witness :
  exists n w', pj_ioqueue_poll 1 sim_app id 20 None two_writes = Some (n, w') /\
    ioq_inv (fun _ => 0) w' /\ w_locks w' = ∅ /\ poll_result None two_writes n /\
    (forall g, untouched_by_app sim_app g -> (forall v : world sim, w_grp (id v) !! g = w_grp v !! g) ->
       w_grp w' !! g = w_grp two_writes !! g).
Proof.
  apply (ioqueue_poll_safe 1 sim_app id (sim_well_behaved 1) (fun _ => 0) 20 None two_writes).
  - exact two_writes_inv.
  - apply one_quiet.
  - intros h. lia.
  - intros h k [->| ->]%one_keys; simpl; lia.
Defined.

(** Three polls send both operations, the first in two parts, and report each. *)
Definition poll_once (w : world sim) : world sim :=
  match pj_ioqueue_poll 1 sim_app id 20 None w with Some (_, w') => w' | None => w end.

Example three_polls :
  map snd (sim_sent (w_sys (poll_once (poll_once (poll_once two_writes))))) = seqZ 1000 10 ++ seqZ 2000 4 /\
  w_calls (poll_once (poll_once (poll_once two_writes))) = [OnWrite 100 201 4; OnWrite 100 200 10].
Proof. by vm_compute. Qed.

Definition idle_stream (room : Z) : world sim :=
  one (sock_key 1 false false [] []) {[200 := idle_op]} ∅ ∅ ∅ (mk_sim 0 [] room 0).

Lemma idle_stream_inv room : ioq_inv (fun _ => 0) (idle_stream room).
Proof. apply one_inv; try done. intros o. unfold op_lists. simpl. by intros ?%elem_of_nil. Qed.

(** The socket takes nothing now: the request waits. *)
Lemma start_correct_witness : exists st n w',
  start 1 id (Send 200 1000 10 0) (idle_stream 0) 100 = Some (st, n, w') /\
  keeps 0 (fun _ => 0) (idle_stream 0) w' /\
  answer id (Send 200 1000 10 0) 100 (idle_stream 0)
    (decide_request (Send 200 1000 10 0) (sock_key 1 false false [] []) true
      (w_sys (idle_stream 0)) (w_cells (idle_stream 0))) st n w'.
Proof.
  apply (start_correct 1 id (fun _ => 0) (Send 200 1000 10 0) 100 _ (idle_stream 0) idle_op); try done.
  - apply idle_stream_inv.
  - by left.
  - by left.
Defined.

Example send_decisions :
  (exists s, decide_request (Send 200 1000 10 0) (sock_key 1 false false [] []) true
    (w_sys (idle_stream 0)) ∅ = Queue s ∅) /\
  (exists s, decide_request (Send 200 1000 10 0) (sock_key 1 false false [] []) true
    (w_sys (idle_stream 10)) ∅ = Finish PJ_SUCCESS 10 s ∅) /\
  decide_request (Recv 200 1000 10 0) (sock_key 1 false false [] []) false
    (w_sys (idle_stream 0)) ∅ = Refuse PJ_EPENDING.
Proof. split_and!; [by eexists; vm_compute..|done]. Qed.

Lemma register_correct_witness :
  register_ok (fun _ => 0) two_writes 6 None 7 (mk_cb true true false false)
    (pj_ioqueue_register_sock2 1 two_writes 6 None 7 (mk_cb true true false false)).
Proof.
  apply register_correct; try done.
  - exact two_writes_inv.
  - intros h k [_ ->]%one_live. done.
  - intros s nb s' [= <- <-]. done.
Defined.

Lemma unregister_correct_witness :
  exists w' k', pj_ioqueue_unregister 1 sim_app id 5 two_writes 100 = Some (PJ_SUCCESS, w') /\
    ioq_inv (fun _ => 0) w' /\ w_locks w' = ∅ /\
    w_calls w' = [OnWrite 100 201 (- PJ_ECANCELLED); OnWrite 100 200 (- PJ_ECANCELLED)] /\
    w_keys w' !! 100 = Some k' /\ k_closing k' = true /\ k_cb k' = mk_cb false false false false.
Proof.
  apply (unregister_correct 1 sim_app id (sim_well_behaved 1) (fun _ => 0) two_writes 100
    (sock_key 1 false false [] [200; 201]) 5); try done; try (simpl; lia).
  - intros c w w' k Hk _ [= <-]. done.
  - exact two_writes_inv.
  - split_and!; [by left|done|done].
Defined.

(** A third operation is free for another send. *)
Definition three_ops : world sim :=
  one (sock_key 1 false false [] [200; 201])
    {[200 := send_op_of 1000 10; 201 := send_op_of 2000 4; 202 := idle_op]} ∅ {[5]} ∅ (mk_sim 0 [] 6 0).

Definition mixed_actions : list action := [Writable; SendData 202 3000 5 0; Writable; Writable; Writable].

Lemma three_ops_stream : stream_state 1 100 (fun _ => 0) (sock_key 1 false false [] [200; 201]) three_ops.
Proof.
  split; try done.
  - apply one_inv; try done. intros o. unfold op_lists. simpl.
    intros [->|[->|?%elem_of_nil]%elem_of_cons]%elem_of_cons; [| |done]; by eexists.
  - split_and!; [by left|done|done].
  - simpl. apply NoDup_cons. split; [by intros ?%list_elem_of_singleton|apply NoDup_singleton].
  - simpl. intros o [->|[->|?%elem_of_nil]%elem_of_cons]%elem_of_cons; [| |done]; eexists; done.
Qed.

Lemma stream_in_order_witness :
  exists x b w' k', run 1 100 mixed_actions three_ops = Some (x, b, w') /\
    stream_state 1 100 (fun _ => 0) k' w' /\ k_fd k' = 5 /\
    (b = true -> sent (w_sys w') 5 ++ unsent w' k' =
      sent (w_sys three_ops) 5 ++ unsent three_ops (sock_key 1 false false [] [200; 201]) ++ x) /\
    sent (w_sys w') 5 ++ unsent w' k' `sublist_of`
      sent (w_sys three_ops) 5 ++ unsent three_ops (sock_key 1 false false [] [200; 201]) ++ x.
Proof.
  apply (stream_in_order 1 100 (fun _ => 0) mixed_actions (sock_key 1 false false [] [200; 201]) three_ops).
  - exact three_ops_stream.
  - intros a Ha. unfold mixed_actions in Ha. rewrite !elem_of_cons in Ha.
    destruct Ha as [->|[->|[->|[->|[->|?%elem_of_nil]]]]]; try done.
Defined.

Example mixed_actions_result :
  match run 1 100 mixed_actions three_ops with
  | Some (x, b, w') => x = seqZ 3000 5 /\ b = true /\
      sent (w_sys w') 5 = seqZ 1000 10 ++ seqZ 2000 4 ++ seqZ 3000 5
  | None => False
  end.
Proof. by vm_compute. Qed.

Lemma dispatch_keeps_watch_witness :
  let k := sock_key 1 false false [] [200; 201] in
  (k_connecting k = false \/ k_write k = [] -> forall w' n, write_begin 1 two_writes 100 = Some (w', n) ->
    exists k', w_keys w' !! 100 = Some k' /\ watched k' w') /\
  (k_accept k = [] \/ k_read k = [] -> forall w' n, read_begin 1 two_writes 100 = Some (w', n) ->
    exists k', w_keys w' !! 100 = Some k' /\ watched k' w').
Proof.
  apply (dispatch_keeps_watch 100 1 two_writes); try done.
  split; simpl; [by intros [|]|by intros _; apply elem_of_singleton|done].
Defined.

(** ** Creation *)

Definition sim_mutex_create (s : sim) : Z * sim :=
  if sim_mutexes s <=? 0 then (PJ_ENOMEM, s)
  else (PJ_SUCCESS, mk_sim (sim_errno s) (sim_sent s) (sim_room s) (sim_mutexes s - 1)).

Definition sim_alloc (i : nat) : Z := 100 + Z.of_nat i.

Definition no_queue (mutexes : Z) : world sim :=
  mk_world ∅ ∅ (mk_ioqueue 0 0 0 [] [] [] PJ_FD_ZERO PJ_FD_ZERO PJ_FD_ZERO false) ∅ ∅ ∅ ∅ [] (mk_sim 0 [] 6 mutexes).

Lemma create_destroy_witness :
  exists rc w', pj_ioqueue_create2 sim_mutex_create sim_alloc (fun _ => idle_key) 2 None (no_queue 10) = Some (rc, w') /\
    if rc =? PJ_SUCCESS
    then ioq_inv (fun _ => 0) w' /\ q_free (w_q w') = addrs sim_alloc 0 (Z.to_nat 2) /\ q_max (w_q w') = 2 /\
      exists w'', pj_ioqueue_destroy 1 w' = Some (PJ_SUCCESS, w'') /\ w_mutexes w'' = w_mutexes (no_queue 10)
    else w_mutexes w' = w_mutexes (no_queue 10) \/ exists s, fst (sim_mutex_create s) = rc /\
      w_mutexes w' = w_mutexes (no_queue 10) ∪ queue_locks (w_q w') ∖ {[LIoq]}.
Proof.
  apply (create_destroy 1 sim_mutex_create sim_alloc (fun _ => idle_key) 2 None (no_queue 10)).
  - unfold PJ_IOQUEUE_MAX_HANDLES. lia.
  - simpl. apply NoDup_cons. split; [by intros ?%list_elem_of_singleton|apply NoDup_singleton].
  - intros l. unfold can_lock. simpl. by rewrite lookup_empty.
  - intros l. simpl. by intros ?%elem_of_empty.
Defined.

(** ** Two threads read from one key *)

(** Two reads are pending, with concurrency not allowed. *)
Definition two_reads : world sim :=
  one (sock_key 2 false false [200; 201] []) {[200 := recv_op_of 1000 10; 201 := recv_op_of 2000 10]} {[5]} ∅ ∅
    (mk_sim 0 [] 6 0).

Definition after_begin (t : Z) (w : world sim) : world sim :=
  match read_begin t w 100 with Some (w', _) => w' | None => w end.
Definition after_next (t : Z) (w : world sim) : world sim :=
  match next_read_cb t w 100 0 0 with Some (w', _) => w' | None => w end.

Definition reads_begun : world sim := after_begin 2 (after_begin 1 two_reads).

Example both_begun :
  read_begin 1 two_reads 100 = Some (after_begin 1 two_reads, ReadDone 200 true) /\
  read_begin 2 (after_begin 1 two_reads) 100 = Some (reads_begun, Done true) /\
  next_read_cb 1 reads_begun 100 0 0 = Some (after_next 1 reads_begun, Some 201) /\
  next_read_cb 1 (after_next 1 reads_begun) 100 0 0 = Some (after_next 1 (after_next 1 reads_begun), None).
Proof. by vm_compute. Qed.

Definition threads_start : state := mk_state two_reads ∅ [] [].
Definition threads_stop : state :=
  mk_state (after_next 1 (after_next 1 reads_begun))
    (delete 1 (<[1 := InLoop]> (<[1 := InCallback 201]> (<[1 := InLoop]> (<[1 := InCallback 200]>
      (<[1 := Due 200 true]> ∅))))))
    (([] ++ taken 100 two_reads (after_begin 1 two_reads)) ++ taken 100 (after_begin 1 two_reads) reads_begun)
    (([] ++ [200]) ++ [201]).

(** Thread 1 reads and calls back; meanwhile thread 2 reads and puts its callback
    off, which thread 1 makes after its own. *)
Lemma threads_run : rtc (step 100) threads_start threads_stop.
Proof.
  destruct both_begun as (E1 & E2 & E3 & E4).
  eapply rtc_l; [eapply (step_begin 100 1); [done|exact E1]|]. cbn [begin_pc].
  eapply rtc_l; [eapply (step_begin 100 2); [done|exact E2]|]. cbn [begin_pc].
  eapply rtc_l; [eapply (step_call 100 1 200 _ reads_begun); [done|vm_compute; reflexivity|done]|].
  eapply rtc_l; [by eapply (step_return 100 1 200)|].
  eapply rtc_l; [eapply (step_next 100 1 201 0); [done|exact E3]|].
  eapply rtc_l; [by eapply (step_return 100 1 201)|].
  eapply rtc_l; [eapply (step_end 100 1 0); [done|exact E4]|]. apply rtc_refl.
Qed.

Lemma read_callbacks_in_turn_witness :
  st_called threads_stop = [200; 201] /\ st_done threads_stop = [200; 201] /\
  (forall t1 o1 t2 o2, st_pc threads_stop !! t1 = Some (InCallback o1) ->
    st_pc threads_stop !! t2 = Some (InCallback o2) -> t1 = t2).
Proof.
  split; [reflexivity|]. split; [vm_compute; reflexivity|].
  refine (proj1 (read_callbacks_in_turn 100 threads_start threads_stop _ _ threads_run eq_refl)).
  eexists. split; [reflexivity|]. by split_and!.
Defined.

(** ** Behaviours that are not what the code means to do *)

(** C39 A connection that completes takes the descriptor out of the set of writable
    ones, although a write is pending: nothing wakes it up. *)
Definition connecting_write : world sim :=
  one (sock_key 1 false true [] [200]) {[200 := send_op_of 1000 10]} ∅ {[5]} {[5]} (mk_sim 0 [] 6 0).

Theorem connect_strands_write :
  watched (sock_key 1 false true [] [200]) connecting_write /\
  exists w' k', write_begin 1 connecting_write 100 = Some (w', Connected 0) /\ w_keys w' !! 100 = Some k' /\
    k_write k' = [200] /\ k_connecting k' = false /\ PART_FDSET (q_w (w_q w')) = ∅.
Proof.
  split; [split; simpl; [by intros [|]|by intros _; apply elem_of_singleton|by intros _; apply elem_of_singleton]|].
  do 2 eexists. split; [vm_compute; reflexivity|]. by vm_compute.
Qed.

(** Completing one of two reads takes the descriptor out of the set of readable
    ones, although the other is pending. *)
Theorem post_completion_strands_read :
  exists w' k', pj_ioqueue_post_completion 1 sim_app two_reads 100 200 7 = Some (PJ_SUCCESS, w') /\
    w_keys w' !! 100 = Some k' /\ k_read k' = [201] /\ PART_FDSET (q_r (w_q w')) = ∅ /\
    w_calls w' = [OnRead 100 200 7].
Proof. do 2 eexists. split; [vm_compute; reflexivity|]. by vm_compute. Qed.

(** The operations that an unregistration reports as cancelled still count as
    pending. *)
Theorem cancelled_still_pending :
  exists w', pj_ioqueue_unregister 1 sim_app id 5 two_writes 100 = Some (PJ_SUCCESS, w') /\
    pj_ioqueue_is_pending w' 200 = Some true.
Proof. eexists. split; [vm_compute; reflexivity|]. by vm_compute. Qed.

(** A send that asks to be asynchronous is done at once all the same. *)
Theorem send_ignores_always_async :
  exists w', pj_ioqueue_send 1 id (idle_stream 20) 100 200 1000 10 PJ_IOQUEUE_ALWAYS_ASYNC = Some (PJ_SUCCESS, 10, w').
Proof. eexists. vm_compute. reflexivity. Qed.

(** When the lock of the queue itself cannot be created, those of the keys and
    of the reference counters are not given back. *)
Theorem create_leaks_locks :
  exists w', pj_ioqueue_create2 sim_mutex_create sim_alloc (fun _ => idle_key) 2 None (no_queue 3) = Some (PJ_ENOMEM, w') /\
    w_mutexes w' = {[LRef; LKey 100; LKey 101]}.
Proof. eexists. split; [vm_compute; reflexivity|]. by vm_compute. Qed.
