(* ===== verification/ActiveSockData.v ===== *)
(** * The data of active sockets

    The structures of [pjlib/src/pj/activesock.c].  An active socket, its read
    operations and its accept operations are objects by address, kept beside the
    state of the system: the I/O queue of an application with active sockets runs
    on the two together.  The operation key is the first member of a read or an
    accept operation, so that both have the same address, and an operation key
    whose [activesock_data] points to the [send_data] of an active socket is in
    [e_sending] with the address of that active socket. *)
From S2P Require Import Prelude TimeVal SockBsd IoQueueData.

Definition PJ_EEOF : Z := PJ_ERRNO_START_STATUS + 16.
Definition PJ_ESOCKETSTOP : Z := PJ_ERRNO_START_STATUS + 24.
Definition PJ_ACTIVESOCK_MAX_LOOP : Z := 50.
Definition PJ_ACTIVESOCK_MAX_CONSECUTIVE_ACCEPT_ERROR : Z := 50.
Definition SHUT_RX : Z := 1.
Definition SHUT_TX : Z := 2.

(** Where the members of the structures are, on a 32-bit machine. *)
Definition SIZEOF_OP_KEY : Z := 34 * 4.
Definition SIZEOF_READ_OP : Z := SIZEOF_OP_KEY + 12 + SIZEOF_SOCKADDR + 4.
Definition SIZEOF_ACCEPT_OP : Z := SIZEOF_OP_KEY + 4 + SIZEOF_SOCKADDR + 4.
Definition src_addr (r : Z) : Z := r + SIZEOF_OP_KEY + 12.
Definition src_addr_len (r : Z) : Z := src_addr r + SIZEOF_SOCKADDR.
Definition new_sock (a : Z) : Z := a + SIZEOF_OP_KEY.
Definition rem_addr (a : Z) : Z := new_sock a + 4.
Definition rem_addr_len (a : Z) : Z := rem_addr a + SIZEOF_SOCKADDR.

Inductive read_type := TYPE_NONE | TYPE_RECV | TYPE_RECV_FROM.

#[export] Instance read_type_eq_dec : EqDecision read_type.
Proof. solve_decision. Defined.

(** The members other than the operation key and the source address. *)
Record read_op := mk_read_op {
  r_pkt : Z;
  r_max_size : Z;
  r_size : Z
}.
Definition set_r_pkt (x : Z) (r : read_op) : read_op :=
  mk_read_op x (r_max_size r) (r_size r).
Definition set_r_max_size (x : Z) (r : read_op) : read_op :=
  mk_read_op (r_pkt r) x (r_size r).
Definition set_r_size (x : Z) (r : read_op) : read_op :=
  mk_read_op (r_pkt r) (r_max_size r) x.

Record send_data := mk_send_data {
  sd_data : Z;
  sd_len : Z;
  sd_sent : Z;
  sd_flags : Z
}.
Definition set_sd_data (x : Z) (r : send_data) : send_data :=
  mk_send_data x (sd_len r) (sd_sent r) (sd_flags r).
Definition set_sd_len (x : Z) (r : send_data) : send_data :=
  mk_send_data (sd_data r) x (sd_sent r) (sd_flags r).
Definition set_sd_sent (x : Z) (r : send_data) : send_data :=
  mk_send_data (sd_data r) (sd_len r) x (sd_flags r).
Definition set_sd_flags (x : Z) (r : send_data) : send_data :=
  mk_send_data (sd_data r) (sd_len r) (sd_sent r) x.

(** Which of the application's functions are set. *)
Record pj_activesock_cb := mk_activesock_cb {
  cb_data_read : bool;
  cb_data_recvfrom : bool;
  cb_data_sent : bool;
  cb_accept_complete : bool;
  cb_accept_complete2 : bool;
  cb_connect_complete : bool
}.

(** [concurrency] is -1 where the setting of the queue is kept. *)
Record pj_activesock_cfg := mk_activesock_cfg {
  grp_lock : option Z;
  async_cnt : Z;
  concurrency : Z;
  whole_data : bool;
  sock_cloexec : bool
}.

Record pj_activesock_t := mk_activesock {
  a_key : option Z;
  a_stream : bool;
  a_whole_data : bool;
  a_user_data : Z;
  a_async_count : Z;
  a_shutdown : Z;
  a_max_loop : Z;
  a_cb : pj_activesock_cb;
  a_err_counter : Z;
  a_last_err : Z;
  a_send_data : send_data;
  a_read_op : option Z;
  a_read_flags : Z;
  a_read_type : read_type;
  a_accept_op : option Z
}.
Definition set_a_key (x : option Z) (r : pj_activesock_t) : pj_activesock_t :=
  mk_activesock x (a_stream r) (a_whole_data r) (a_user_data r) (a_async_count r) (a_shutdown r) (a_max_loop r) (a_cb r) (a_err_counter r) (a_last_err r) (a_send_data r) (a_read_op r) (a_read_flags r) (a_read_type r) (a_accept_op r).
Definition set_a_stream (x : bool) (r : pj_activesock_t) : pj_activesock_t :=
  mk_activesock (a_key r) x (a_whole_data r) (a_user_data r) (a_async_count r) (a_shutdown r) (a_max_loop r) (a_cb r) (a_err_counter r) (a_last_err r) (a_send_data r) (a_read_op r) (a_read_flags r) (a_read_type r) (a_accept_op r).
Definition set_a_whole_data (x : bool) (r : pj_activesock_t) : pj_activesock_t :=
  mk_activesock (a_key r) (a_stream r) x (a_user_data r) (a_async_count r) (a_shutdown r) (a_max_loop r) (a_cb r) (a_err_counter r) (a_last_err r) (a_send_data r) (a_read_op r) (a_read_flags r) (a_read_type r) (a_accept_op r).
Definition set_a_user_data (x : Z) (r : pj_activesock_t) : pj_activesock_t :=
  mk_activesock (a_key r) (a_stream r) (a_whole_data r) x (a_async_count r) (a_shutdown r) (a_max_loop r) (a_cb r) (a_err_counter r) (a_last_err r) (a_send_data r) (a_read_op r) (a_read_flags r) (a_read_type r) (a_accept_op r).
Definition set_a_async_count (x : Z) (r : pj_activesock_t) : pj_activesock_t :=
  mk_activesock (a_key r) (a_stream r) (a_whole_data r) (a_user_data r) x (a_shutdown r) (a_max_loop r) (a_cb r) (a_err_counter r) (a_last_err r) (a_send_data r) (a_read_op r) (a_read_flags r) (a_read_type r) (a_accept_op r).
Definition set_a_shutdown (x : Z) (r : pj_activesock_t) : pj_activesock_t :=
  mk_activesock (a_key r) (a_stream r) (a_whole_data r) (a_user_data r) (a_async_count r) x (a_max_loop r) (a_cb r) (a_err_counter r) (a_last_err r) (a_send_data r) (a_read_op r) (a_read_flags r) (a_read_type r) (a_accept_op r).
Definition set_a_max_loop (x : Z) (r : pj_activesock_t) : pj_activesock_t :=
  mk_activesock (a_key r) (a_stream r) (a_whole_data r) (a_user_data r) (a_async_count r) (a_shutdown r) x (a_cb r) (a_err_counter r) (a_last_err r) (a_send_data r) (a_read_op r) (a_read_flags r) (a_read_type r) (a_accept_op r).
Definition set_a_cb (x : pj_activesock_cb) (r : pj_activesock_t) : pj_activesock_t :=
  mk_activesock (a_key r) (a_stream r) (a_whole_data r) (a_user_data r) (a_async_count r) (a_shutdown r) (a_max_loop r) x (a_err_counter r) (a_last_err r) (a_send_data r) (a_read_op r) (a_read_flags r) (a_read_type r) (a_accept_op r).
Definition set_a_err_counter (x : Z) (r : pj_activesock_t) : pj_activesock_t :=
  mk_activesock (a_key r) (a_stream r) (a_whole_data r) (a_user_data r) (a_async_count r) (a_shutdown r) (a_max_loop r) (a_cb r) x (a_last_err r) (a_send_data r) (a_read_op r) (a_read_flags r) (a_read_type r) (a_accept_op r).
Definition set_a_last_err (x : Z) (r : pj_activesock_t) : pj_activesock_t :=
  mk_activesock (a_key r) (a_stream r) (a_whole_data r) (a_user_data r) (a_async_count r) (a_shutdown r) (a_max_loop r) (a_cb r) (a_err_counter r) x (a_send_data r) (a_read_op r) (a_read_flags r) (a_read_type r) (a_accept_op r).
Definition set_a_send_data (x : send_data) (r : pj_activesock_t) : pj_activesock_t :=
  mk_activesock (a_key r) (a_stream r) (a_whole_data r) (a_user_data r) (a_async_count r) (a_shutdown r) (a_max_loop r) (a_cb r) (a_err_counter r) (a_last_err r) x (a_read_op r) (a_read_flags r) (a_read_type r) (a_accept_op r).
Definition set_a_read_op (x : option Z) (r : pj_activesock_t) : pj_activesock_t :=
  mk_activesock (a_key r) (a_stream r) (a_whole_data r) (a_user_data r) (a_async_count r) (a_shutdown r) (a_max_loop r) (a_cb r) (a_err_counter r) (a_last_err r) (a_send_data r) x (a_read_flags r) (a_read_type r) (a_accept_op r).
Definition set_a_read_flags (x : Z) (r : pj_activesock_t) : pj_activesock_t :=
  mk_activesock (a_key r) (a_stream r) (a_whole_data r) (a_user_data r) (a_async_count r) (a_shutdown r) (a_max_loop r) (a_cb r) (a_err_counter r) (a_last_err r) (a_send_data r) (a_read_op r) x (a_read_type r) (a_accept_op r).
Definition set_a_read_type (x : read_type) (r : pj_activesock_t) : pj_activesock_t :=
  mk_activesock (a_key r) (a_stream r) (a_whole_data r) (a_user_data r) (a_async_count r) (a_shutdown r) (a_max_loop r) (a_cb r) (a_err_counter r) (a_last_err r) (a_send_data r) (a_read_op r) (a_read_flags r) x (a_accept_op r).
Definition set_a_accept_op (x : option Z) (r : pj_activesock_t) : pj_activesock_t :=
  mk_activesock (a_key r) (a_stream r) (a_whole_data r) (a_user_data r) (a_async_count r) (a_shutdown r) (a_max_loop r) (a_cb r) (a_err_counter r) (a_last_err r) (a_send_data r) (a_read_op r) (a_read_flags r) (a_read_type r) x.

(** Calls of the application's functions.  The length of an address is the
    variable the system has put it into. *)
Inductive user_call :=
  | OnDataRead (a data size status : Z)
  | OnDataRecvfrom (a data size src len status : Z)
  | OnDataSent (a send_key sent : Z)
  | OnAcceptComplete (a newsock src len : Z)
  | OnAcceptComplete2 (a newsock src len status : Z)
  | OnConnectComplete (a status : Z).

#[export] Instance user_call_eq_dec : EqDecision user_call.
Proof. solve_decision. Defined.

(** [e_asked] are the operations that asked for data, each with the place and the
    length, [e_told] the calls of the application's functions, the latest first. *)
Record env (T : Type) := mk_env {
  e_sys : T;
  e_socks : gmap Z pj_activesock_t;
  e_reads : gmap Z read_op;
  e_sending : gmap Z Z;
  e_asked : list (Z * Z * Z);
  e_told : list user_call
}.

#[global] Arguments e_sys {T} _.
#[global] Arguments e_socks {T} _.
#[global] Arguments e_reads {T} _.
#[global] Arguments e_sending {T} _.
#[global] Arguments e_asked {T} _.
#[global] Arguments e_told {T} _.
#[global] Arguments mk_env {T}.

Definition set_e_sys {T} (x : T) (r : env T) : env T :=
  mk_env x (e_socks r) (e_reads r) (e_sending r) (e_asked r) (e_told r).
Definition set_e_socks {T} (x : gmap Z pj_activesock_t) (r : env T) : env T :=
  mk_env (e_sys r) x (e_reads r) (e_sending r) (e_asked r) (e_told r).
Definition set_e_reads {T} (x : gmap Z read_op) (r : env T) : env T :=
  mk_env (e_sys r) (e_socks r) x (e_sending r) (e_asked r) (e_told r).
Definition set_e_sending {T} (x : gmap Z Z) (r : env T) : env T :=
  mk_env (e_sys r) (e_socks r) (e_reads r) x (e_asked r) (e_told r).
Definition set_e_asked {T} (x : list (Z * Z * Z)) (r : env T) : env T :=
  mk_env (e_sys r) (e_socks r) (e_reads r) (e_sending r) x (e_told r).
Definition set_e_told {T} (x : list user_call) (r : env T) : env T :=
  mk_env (e_sys r) (e_socks r) (e_reads r) (e_sending r) (e_asked r) x.

(** The system calls change the state of the system only. *)
Definition lift {T A} (e : env T) (r : A * T) : A * env T := (r.1, set_e_sys r.2 e).

#[export] Instance env_sockets {T} `{!SystemSockets T} : SystemSockets (env T) := {|
  errno e := errno (e_sys e);
  sys_send e fd buf len flags := lift e (sys_send (e_sys e) fd buf len flags);
  sys_sendto e fd buf len flags to tolen := lift e (sys_sendto (e_sys e) fd buf len flags to tolen);
  sys_recv e fd buf len flags := lift e (sys_recv (e_sys e) fd buf len flags);
  sys_recvfrom e fd buf len flags from fromlen := lift e (sys_recvfrom (e_sys e) fd buf len flags from fromlen);
  sys_read e fd buf len := lift e (sys_read (e_sys e) fd buf len);
  sys_accept e fd addr addrlen := lift e (sys_accept (e_sys e) fd addr addrlen);
  sys_connect e fd addr addrlen := lift e (sys_connect (e_sys e) fd addr addrlen);
  sys_getsockname e fd addr addrlen := lift e (sys_getsockname (e_sys e) fd addr addrlen);
  sys_getsockopt e fd o := lift e (sys_getsockopt (e_sys e) fd o);
  sys_close e fd := lift e (sys_close (e_sys e) fd);
  sys_getfl e fd := lift e (sys_getfl (e_sys e) fd);
  sys_setfl e fd flags := lift e (sys_setfl (e_sys e) fd flags);
  sys_select e n r w x t := lift e (sys_select (e_sys e) n r w x t);
  pj_gettickcount e := lift e (pj_gettickcount (e_sys e))
|}.
