(* ===== verification/ActiveSock.v ===== *)
(** * Active sockets

    The operations of [pjlib/src/pj/activesock.c] on top of the I/O queue.  The
    application's functions are [user]: a function on the state that returns
    whether to go on, and the length of the data it leaves in the buffer.  What
    the pool allocates is an argument: the address of an object, which is fresh
    zeroed memory.  The loops that have no bound in the code take fuel. *)
From S2P Require Import Prelude TimeVal SockBsd IoQueueData IoQueue ActiveSockData.

Definition pj_activesock_cfg_default : pj_activesock_cfg := mk_activesock_cfg None 1 (-1) true true.

Section ActiveSock.
Context `{!SystemConstants} {T : Type} `{!SystemSockets T}.
Abbreviation world := (world (env T)).
Implicit Types (w : world).

Context (this : Z) (user : user_call -> world -> option (bool * Z * world)) (others : world -> world).

(** ** Access to the state *)

Definition upd_env (w : world) (f : env T -> env T) : world := set_w_sys (f (w_sys w)) w.

Definition sock_at (w : world) (a : Z) : option pj_activesock_t := e_socks (w_sys w) !! a.
Definition put_sock (a : Z) (x : pj_activesock_t) (w : world) : world :=
  upd_env w (fun e => set_e_socks (<[a := x]> (e_socks e)) e).
Definition upd_sock (w : world) (a : Z) (f : pj_activesock_t -> pj_activesock_t) : option world :=
  x ← sock_at w a; Some (put_sock a (f x) w).

Definition read_at (w : world) (o : Z) : option read_op := e_reads (w_sys w) !! o.
Definition put_read (o : Z) (r : read_op) (w : world) : world :=
  upd_env w (fun e => set_e_reads (<[o := r]> (e_reads e)) e).
Definition upd_read (w : world) (o : Z) (f : read_op -> read_op) : option world :=
  r ← read_at w o; Some (put_read o (f r) w).

Definition set_cell (c v : Z) (w : world) : world := set_w_cells (<[c := v]> (w_cells w)) w.

Definition set_sending (o : Z) (a : option Z) (w : world) : world :=
  upd_env w (fun e => set_e_sending (partial_alter (fun _ => a) o (e_sending e)) e).

(** One of the application's functions is called. *)
Definition tell (c : user_call) (w : world) : option (bool * Z * world) :=
  user c (upd_env w (fun e => set_e_told (c :: e_told e) e)).

(** The operation [o] asks for data at [buf]. *)
Definition ask (o buf len : Z) (w : world) : world :=
  upd_env w (fun e => set_e_asked ((o, buf, len) :: e_asked e) e).

Definition shut (x : pj_activesock_t) (dir : Z) : bool := negb (Z.land (a_shutdown x) dir =? 0).

(** ** Reading *)

(** The first turns of the loops: the operations [i] of an array at [mem]. *)
Fixpoint start_reads (w : world) (a mem buff_size flags : Z) (readbuf : list Z) (i : Z) (n : nat) :
    option (Z * world) :=
  match n with
  | O => Some (PJ_SUCCESS, w)
  | S n =>
      x ← sock_at w a;
      let o := mem + i * SIZEOF_READ_OP in
      pkt ← readbuf.[i];
      w ← upd_read w o (fun r => set_r_pkt pkt (set_r_max_size buff_size r));
      let flags' := Z.lor PJ_IOQUEUE_ALWAYS_ASYNC flags in
      '(status, _, w) ←
        match a_key x with
        | None => Some (PJ_EINVAL, buff_size, w)
        | Some h =>
            match a_read_type x with
            | TYPE_RECV => pj_ioqueue_recv this (ask o pkt buff_size w) h o pkt buff_size flags'
            | _ =>
                pj_ioqueue_recvfrom this (ask o pkt buff_size (set_cell (src_addr_len o) SIZEOF_SOCKADDR w))
                  h o pkt buff_size flags' (src_addr o) (src_addr_len o)
            end
        end;
      if status =? PJ_SUCCESS then Some (PJ_EBUG, w) else
      if negb (status =? PJ_EPENDING) then Some (status, w) else
      start_reads w a mem buff_size flags readbuf (i + 1) n
  end.

(** The array of operations, all zero. *)
Fixpoint calloc_reads (mem : Z) (n : nat) (w : world) : world :=
  match n with
  | O => w
  | S n =>
      put_read mem (mk_read_op 0 0 0)
        (pj_ioqueue_op_key_init (calloc_reads (mem + SIZEOF_READ_OP) n w) mem)
  end.

Definition begin_read (ty : read_type) (w : world) (a mem buff_size : Z) (readbuf : list Z) (flags : Z)
    (x : pj_activesock_t) : option (Z * world) :=
  let n := Z.to_nat (a_async_count x) in
  w ← upd_sock (calloc_reads mem n w) a (fun x => set_a_read_op (Some mem) (set_a_read_type ty (set_a_read_flags flags x)));
  start_reads w a mem buff_size flags readbuf 0 n.

Definition pj_activesock_start_read2 (w : world) (a mem buff_size : Z) (readbuf : list Z) (flags : Z) :
    option (Z * world) :=
  if buff_size =? 0 then Some (PJ_EINVAL, w) else
  x ← sock_at w a;
  if negb (bool_decide (a_read_type x = TYPE_NONE)) then Some (PJ_EINVALIDOP, w) else
  if negb (bool_decide (a_read_op x = None)) then Some (PJ_EINVALIDOP, w) else
  begin_read TYPE_RECV w a mem buff_size readbuf flags x.

(** The buffers are those the pool has allocated. *)
Definition pj_activesock_start_read (w : world) (a mem buff_size : Z) (bufs : list Z) (flags : Z) :
    option (Z * world) :=
  if buff_size =? 0 then Some (PJ_EINVAL, w) else
  pj_activesock_start_read2 w a mem buff_size bufs flags.

Definition pj_activesock_start_recvfrom2 (w : world) (a mem buff_size : Z) (readbuf : list Z) (flags : Z) :
    option (Z * world) :=
  if buff_size =? 0 then Some (PJ_EINVAL, w) else
  x ← sock_at w a;
  if negb (bool_decide (a_read_type x = TYPE_NONE)) then Some (PJ_EINVALIDOP, w) else
  begin_read TYPE_RECV_FROM w a mem buff_size readbuf flags x.

Definition pj_activesock_start_recvfrom (w : world) (a mem buff_size : Z) (bufs : list Z) (flags : Z) :
    option (Z * world) :=
  if buff_size =? 0 then Some (PJ_EINVAL, w) else
  pj_activesock_start_recvfrom2 w a mem buff_size bufs flags.

(** [on_data_read] is called; a length that is not possible counts as zero. *)
Definition tell_read (w : world) (a o status : Z) : option (bool * Z * world) :=
  r ← read_at w o;
  '(ret, remainder, w) ← tell (OnDataRead a (r_pkt r) (r_size r) status) w;
  if negb ret then Some (false, remainder, w) else
  x ← sock_at w a;
  r ← read_at w o;
  Some (true, if negb (a_stream x) || (remainder <=? r_size r) then remainder else 0, w).

(** Only a stream may leave data in the packet. *)
Definition keep_remainder (w : world) (a o remainder : Z) : option world :=
  x ← sock_at w a; upd_read w o (set_r_size (if a_stream x then remainder else 0)).

(** New data: whether to go on. *)
Definition on_data (w : world) (a o bytes_read : Z) : option (bool * world) :=
  w ← upd_read w o (fun r => set_r_size (u32 (r_size r + bytes_read)) r);
  x ← sock_at w a;
  '(ret, remainder, w) ←
    (if bool_decide (a_read_type x = TYPE_RECV) && cb_data_read (a_cb x) then tell_read w a o PJ_SUCCESS
     else if bool_decide (a_read_type x = TYPE_RECV_FROM) && cb_data_recvfrom (a_cb x) then
       r ← read_at w o;
       '(ret, _, w) ← tell (OnDataRecvfrom a (r_pkt r) (r_size r) (src_addr o) (src_addr_len o) PJ_SUCCESS) w;
       Some (ret, 0, w)
     else Some (true, 0, w));
  if negb ret then Some (false, w) else
  w ← keep_remainder w a o remainder; Some (true, w).

(** An error that is passed to the application. *)
Definition is_error (x : pj_activesock_t) (bytes_read : Z) : bool :=
  negb (- bytes_read =? PJ_STATUS_FROM_OS EWOULDBLOCK) && negb (- bytes_read =? PJ_STATUS_FROM_OS EINPROGRESS) &&
  (a_stream x || negb (- bytes_read =? PJ_STATUS_FROM_OS ECONNRESET)).

Definition on_error (w : world) (a o bytes_read : Z) : option (bool * world) :=
  x ← sock_at w a;
  let status := if bytes_read =? 0 then (if a_stream x then PJ_EEOF else PJ_SUCCESS) else - bytes_read in
  '(ret, remainder, w) ←
    (if bool_decide (a_read_type x = TYPE_RECV) && cb_data_read (a_cb x) then tell_read w a o status
     else if bool_decide (a_read_type x = TYPE_RECV_FROM) && cb_data_recvfrom (a_cb x) &&
             negb (status =? PJ_SUCCESS) then
       '(ret, _, w) ← tell (OnDataRecvfrom a 0 0 0 0 status) w; Some (ret, 0, w)
     else Some (true, 0, w));
  if negb ret then Some (false, w) else
  x ← sock_at w a;
  if shut x SHUT_RX then Some (false, w) else
  w ← keep_remainder w a o remainder; Some (true, w).

(** The first half of a turn. *)
Definition deliver (w : world) (a o bytes_read : Z) : option (bool * world) :=
  x ← sock_at w a;
  if 0 <? bytes_read then on_data w a o bytes_read
  else if is_error x bytes_read then on_error w a o bytes_read
  else Some (true, w).

(** The second half: the next data is asked for; [loop] is the number of turns
    before this one. *)
Definition read_next (w : world) (h a o loop : Z) : option (Z * Z * world) :=
  x ← sock_at w a;
  r ← read_at w o;
  let bytes_read := i32 (u32 (r_max_size r - r_size r)) in
  let flags := if a_max_loop x <=? u32 (loop + 1) then Z.lor (a_read_flags x) PJ_IOQUEUE_ALWAYS_ASYNC
               else a_read_flags x in
  let buf := r_pkt r + r_size r in
  if bool_decide (a_read_type x = TYPE_RECV) then
    pj_ioqueue_recv this (ask o buf bytes_read w) h o buf bytes_read flags
  else
    pj_ioqueue_recvfrom this (ask o buf bytes_read (set_cell (src_addr_len o) SIZEOF_SOCKADDR w))
      h o buf bytes_read flags (src_addr o) (src_addr_len o).

Fixpoint read_loop (fuel : nat) (w : world) (h a o bytes_read loop : Z) : option world :=
  match fuel with
  | O => None
  | S fuel =>
      '(go, w) ← deliver w a o bytes_read;
      if negb go then Some w else
      '(status, n, w) ← read_next w h a o loop;
      if status =? PJ_SUCCESS then read_loop fuel w h a o n (u32 (loop + 1))
      else if negb (status =? PJ_EPENDING) && negb (status =? PJ_ECANCELLED) then
        read_loop fuel w h a o (- status) (u32 (loop + 1))
      else Some w
  end.

(** The loop is left at the latest after [max_loop] turns. *)
Definition ioqueue_on_read_complete (w : world) (h o bytes_read : Z) : option world :=
  a ← pj_ioqueue_get_user_data w h;
  x ← sock_at w a;
  if shut x SHUT_RX then Some w else
  read_loop (Z.to_nat (a_max_loop x)) w h a o bytes_read 0.

(** ** Sending *)

(** [pj_ioqueue_send] on the key of the active socket, which may be gone. *)
Definition send_on (key : option Z) (w : world) (o data len flags : Z) : option (Z * Z * world) :=
  match key with
  | None => Some (PJ_EINVAL, len, w)
  | Some h => pj_ioqueue_send this others w h o data len flags
  end.

(** The part of the data that has not been sent; [a] is the active socket,
    [d] the one whose [send_data] the operation refers to. *)
Fixpoint send_remaining (fuel : nat) (w : world) (a d o : Z) : option (Z * world) :=
  match fuel with
  | O => None
  | S fuel =>
      x ← sock_at w a;
      y ← sock_at w d;
      let sd := a_send_data y in
      '(status, size, w) ← send_on (a_key x) w o (sd_data sd + sd_sent sd) (sd_len sd - sd_sent sd) (sd_flags sd);
      if negb (status =? PJ_SUCCESS) then Some (status, w) else
      y ← sock_at w d;
      let sd := set_sd_sent (sd_sent (a_send_data y) + size) (a_send_data y) in
      let w := put_sock d (set_a_send_data sd y) w in
      if sd_sent sd =? sd_len sd then Some (PJ_SUCCESS, w)
      else if sd_sent sd <? sd_len sd then send_remaining fuel w a d o
      else Some (status, w)
  end.

(** The status and the size. *)
Definition pj_activesock_send (fuel : nat) (w : world) (a o data size flags : Z) : option (Z * Z * world) :=
  if data =? 0 then Some (PJ_EINVAL, size, w) else
  x ← sock_at w a;
  if shut x SHUT_TX then Some (PJ_EINVALIDOP, size, w) else
  let w := set_sending o None w in
  if a_whole_data x then
    '(status, n, w) ← send_on (a_key x) w o data size flags;
    if negb (status =? PJ_SUCCESS) then Some (status, n, w) else
    if n =? size then Some (PJ_SUCCESS, n, w) else
    w ← upd_sock w a (set_a_send_data (mk_send_data data size n flags));
    '(status, w) ← send_remaining fuel (set_sending o (Some a) w) a a o;
    Some (status, if status =? PJ_SUCCESS then size else n, w)
  else send_on (a_key x) w o data size flags.

Definition pj_activesock_sendto (w : world) (a o data size flags addr addr_len : Z) : option (Z * Z * world) :=
  if (data =? 0) || (addr =? 0) || (addr_len =? 0) then Some (PJ_EINVAL, size, w) else
  x ← sock_at w a;
  if shut x SHUT_TX then Some (PJ_EINVALIDOP, size, w) else
  match a_key x with
  | None => Some (PJ_EINVAL, size, w)
  | Some h => pj_ioqueue_sendto this others w h o data size flags addr addr_len
  end.

Definition tell_sent (w : world) (a o bytes_sent : Z) : option world :=
  x ← sock_at w a;
  if cb_data_sent (a_cb x) then '(_, _, w) ← tell (OnDataSent a o bytes_sent) w; Some w else Some w.

Definition ioqueue_on_write_complete (fuel : nat) (w : world) (h o bytes_sent : Z) : option world :=
  a ← pj_ioqueue_get_user_data w h;
  x ← sock_at w a;
  if shut x SHUT_TX then tell_sent w a o bytes_sent else
  match e_sending (w_sys w) !! o with
  | Some d =>
      if 0 <? bytes_sent then
        y ← sock_at w d;
        let sd := set_sd_sent (sd_sent (a_send_data y) + bytes_sent) (a_send_data y) in
        let w := put_sock d (set_a_send_data sd y) w in
        if sd_sent sd =? sd_len sd then tell_sent (set_sending o None w) a o (sd_sent sd) else
        '(status, w) ← send_remaining fuel w a d o;
        if status =? PJ_EPENDING then Some w else
        y ← sock_at w d;
        tell_sent (set_sending o None w) a o
          (if status =? PJ_SUCCESS then sd_sent (a_send_data y) else - status)
      else tell_sent w a o bytes_sent
  | None => tell_sent w a o bytes_sent
  end.

(** ** Connections *)

Definition accept_on (key : option Z) (w : world) (o : Z) : option (Z * world) :=
  let w := set_cell (rem_addr_len o) SIZEOF_SOCKADDR (set_cell (new_sock o) PJ_INVALID_SOCKET w) in
  match key with
  | None => Some (PJ_EINVAL, w)
  | Some h => pj_ioqueue_accept this w h o (new_sock o) 0 (rem_addr o) (rem_addr_len o)
  end.

Definition close_new (w : world) (o : Z) : option world :=
  sock ← w_cells w !! new_sock o;
  let '(_, s) := pj_sock_close (w_sys w) sock in Some (set_w_sys s w).

(** A connection that is there at once is closed. *)
Fixpoint accept_first_time (fuel : nat) (w : world) (a o : Z) : option (Z * world) :=
  match fuel with
  | O => None
  | S fuel =>
      x ← sock_at w a;
      '(status, w) ← accept_on (a_key x) w o;
      if status =? PJ_SUCCESS then w ← close_new w o; accept_first_time fuel w a o
      else Some (status, w)
  end.

Fixpoint start_accepts (fuel : nat) (w : world) (a mem i : Z) (n : nat) : option (Z * world) :=
  match n with
  | O => Some (PJ_SUCCESS, w)
  | S n =>
      '(status, w) ← accept_first_time fuel w a (mem + i * SIZEOF_ACCEPT_OP);
      if negb (status =? PJ_EPENDING) then Some (status, w) else start_accepts fuel w a mem (i + 1) n
  end.

Fixpoint calloc_accepts (mem : Z) (n : nat) (w : world) : world :=
  match n with
  | O => w
  | S n => pj_ioqueue_op_key_init (calloc_accepts (mem + SIZEOF_ACCEPT_OP) n w) mem
  end.

Definition pj_activesock_start_accept (fuel : nat) (w : world) (a mem : Z) : option (Z * world) :=
  x ← sock_at w a;
  if negb (bool_decide (a_accept_op x = None)) then Some (PJ_EINVALIDOP, w) else
  if negb (a_shutdown x =? 0) then Some (PJ_EINVALIDOP, w) else
  let n := Z.to_nat (a_async_count x) in
  w ← upd_sock (calloc_accepts mem n w) a (set_a_accept_op (Some mem));
  start_accepts fuel w a mem 0 n.

(** The errors in a row are counted: whether there were too many. *)
Definition count_error (w : world) (a status : Z) : option (bool * world) :=
  x ← sock_at w a;
  if (status =? a_last_err x) && negb (status =? PJ_SUCCESS) then
    let n := u32 (a_err_counter x + 1) in
    Some (PJ_ACTIVESOCK_MAX_CONSECUTIVE_ACCEPT_ERROR <=? n, put_sock a (set_a_err_counter n x) w)
  else Some (false, put_sock a (set_a_err_counter 0 (set_a_last_err status x)) w).

(** A new connection goes to the application, or is closed: whether to go on. *)
Definition on_connection (w : world) (a o status : Z) : option (bool * world) :=
  x ← sock_at w a;
  if negb (status =? PJ_SUCCESS) then Some (true, w) else
  sock ← w_cells w !! new_sock o;
  if cb_accept_complete2 (a_cb x) then
    '(ret, _, w) ← tell (OnAcceptComplete2 a sock (rem_addr o) (rem_addr_len o) status) w; Some (ret, w)
  else if cb_accept_complete (a_cb x) then
    '(ret, _, w) ← tell (OnAcceptComplete a sock (rem_addr o) (rem_addr_len o)) w; Some (ret, w)
  else w ← close_new w o; Some (true, w).

(** Accepting stops. *)
Definition too_many_errors (w : world) (a o status : Z) : option world :=
  x ← sock_at w a;
  if (status =? PJ_STATUS_FROM_OS EWOULDBLOCK) && cb_accept_complete2 (a_cb x) then
    sock ← w_cells w !! new_sock o;
    '(_, _, w) ← tell (OnAcceptComplete2 a sock (rem_addr o) (rem_addr_len o) PJ_ESOCKETSTOP) w; Some w
  else Some w.

Fixpoint accept_loop (fuel : nat) (w : world) (a o status : Z) : option world :=
  match fuel with
  | O => None
  | S fuel =>
      '(stop, w) ← count_error w a status;
      if (stop : bool) then too_many_errors w a o status else
      '(go, w) ← on_connection w a o status;
      if negb go then Some w else
      x ← sock_at w a;
      if negb (a_shutdown x =? 0) then Some w else
      '(status, w) ← accept_on (a_key x) w o;
      if negb (status =? PJ_EPENDING) && negb (status =? PJ_ECANCELLED) then accept_loop fuel w a o status
      else Some w
  end.

Definition ioqueue_on_accept_complete (fuel : nat) (w : world) (h o status : Z) : option world :=
  a ← pj_ioqueue_get_user_data w h;
  x ← sock_at w a;
  if negb (a_shutdown x =? 0) then Some w else accept_loop fuel w a o status.

Definition pj_activesock_start_connect (w : world) (a remaddr addr_len : Z) : option (Z * world) :=
  x ← sock_at w a;
  if negb (a_shutdown x =? 0) then Some (PJ_EINVALIDOP, w) else
  match a_key x with
  | None => Some (PJ_EINVAL, w)
  | Some h => pj_ioqueue_connect this w h remaddr addr_len
  end.

Definition ioqueue_on_connect_complete (w : world) (h status : Z) : option world :=
  a ← pj_ioqueue_get_user_data w h;
  x ← sock_at w a;
  if negb (a_shutdown x =? 0) then Some w else
  if cb_connect_complete (a_cb x) then '(_, _, w) ← tell (OnConnectComplete a status) w; Some w else Some w.

(** ** The callbacks of the queue

    The functions [pj_activesock_create] registers. *)
Definition activesock_app (fuel : nat) (c : callback) (w : world) : option world :=
  match c with
  | OnRead h o n => ioqueue_on_read_complete w h o n
  | OnWrite h o n => ioqueue_on_write_complete fuel w h o n
  | OnAccept h o _ status => ioqueue_on_accept_complete fuel w h o status
  | OnConnect h status => ioqueue_on_connect_complete w h status
  end.

(** ** Creating and closing *)

Definition pj_activesock_close (fuel : nat) (w : world) (a : Z) : option (Z * world) :=
  w ← upd_sock w a (set_a_shutdown (Z.lor SHUT_RX SHUT_TX));
  x ← sock_at w a;
  match a_key x with
  | None => Some (PJ_SUCCESS, w)
  | Some h =>
      w ← pj_ioqueue_lock_key this w h;
      x ← sock_at w a;
      let unregister := bool_decide (is_Some (a_key x)) in
      w ← upd_sock w a (set_a_key None);
      w ← pj_ioqueue_unlock_key this w h;
      w ← (if unregister then '(_, w) ← pj_ioqueue_unregister this (activesock_app fuel) others fuel w h; Some w
           else Some w);
      Some (PJ_SUCCESS, w)
  end.

Definition zero_send_data : send_data := mk_send_data 0 0 0 0.

(** The status and, where it is given out, the active socket at [a]. *)
Definition pj_activesock_create (fuel : nat) (w : world) (a sock sock_type : Z) (opt : option pj_activesock_cfg)
    (cb : pj_activesock_cb) (user_data : Z) : option (Z * option Z * world) :=
  if negb ((0 <=? sock) && negb (sock =? PJ_INVALID_SOCKET)) then Some (PJ_EINVAL, None, w) else
  let ty := Z.land sock_type 15 in
  if negb ((ty =? SOCK_STREAM) || (ty =? SOCK_DGRAM)) then Some (PJ_EINVAL, None, w) else
  if match opt with Some c => negb (1 <=? async_cnt c) | None => false end then Some (PJ_EINVAL, None, w) else
  let whole := match opt with Some c => whole_data c | None => true end in
  let x := mk_activesock None (ty =? SOCK_STREAM) whole user_data
    (match opt with Some c => async_cnt c | None => 1 end) 0 PJ_ACTIVESOCK_MAX_LOOP cb 0 0 zero_send_data
    None 0 TYPE_NONE None in
  '(status, key, w) ← pj_ioqueue_register_sock2 this (put_sock a x w) sock
    (match opt with Some c => grp_lock c | None => None end) a (mk_cb true true true true);
  w ← upd_sock w a (set_a_key key);
  if negb (status =? PJ_SUCCESS) then '(_, w) ← pj_activesock_close fuel w a; Some (status, None, w) else
  h ← key;
  '(_, w) ←
    (if whole then pj_ioqueue_set_concurrency w h false
     else match opt with
          | Some c => if 0 <=? concurrency c then pj_ioqueue_set_concurrency w h (negb (concurrency c =? 0))
                      else Some (PJ_SUCCESS, w)
          | None => Some (PJ_SUCCESS, w)
          end);
  Some (PJ_SUCCESS, Some a, w).

Definition pj_activesock_set_user_data (w : world) (a user_data : Z) : option (Z * world) :=
  w ← upd_sock w a (set_a_user_data user_data); Some (PJ_SUCCESS, w).

Definition pj_activesock_get_user_data (w : world) (a : Z) : option Z :=
  x ← sock_at w a; Some (a_user_data x).
End ActiveSock.
