(* ===== verification/ActiveSockRead.v ===== *)
(** * Reading with an active socket

    The loop that receives the next data as long as there is some ends after at
    most [max_loop] turns, and whatever the application leaves in the buffer,
    data is never asked for outside of it. *)
From S2P Require Import Prelude TimeVal SockBsd IoQueueData IoQueue IoQueueInv IoQueueDispatch IoQueuePoll IoQueueKeys IoQueueOps ActiveSockData ActiveSock.

(** What the development relies on of [recv] and [recvfrom]: no more bytes than
    asked for, and [errno] is set when they fail. *)
Class RecvLaws (S : Type) `{!SystemSockets S} := {
  recv_bound s fd buf len flags n s' : sys_recv s fd buf len flags = (n, s') -> 0 <= len ->
    n <= len /\ (n < 0 -> 0 < errno s');
  recvfrom_bound s fd buf len flags from fromlen n s' :
    sys_recvfrom s fd buf len flags from fromlen = (n, s') -> 0 <= len -> n <= len /\ (n < 0 -> 0 < errno s')
}.

#[export] Instance env_recv_laws {T} `{!SystemSockets T} `{!RecvLaws T} : RecvLaws (env T).
Proof.
  split; simpl; unfold lift.
  - intros e fd buf len flags n e' [= <- <-]. simpl. apply (recv_bound (e_sys e) fd buf len flags). by destruct (sys_recv _ _ _ _ _).
  - intros e fd buf len flags from fl n e' [= <- <-]. simpl. apply (recvfrom_bound (e_sys e) fd buf len flags from fl).
    by destruct (sys_recvfrom _ _ _ _ _ _ _).
Qed.

Section StartRead.
Context `{!SystemConstants} {S : Type} `{!SystemSockets S} (this : Z).
Implicit Types (w : world S) (k : pj_ioqueue_key_t).

(** [pj_ioqueue_recv] and [pj_ioqueue_recvfrom] in one equation. *)
Definition read_result (now : S -> Z -> Z * Z * S) (fill : operation_key -> operation_key)
    (w : world S) (h : Z) (k : pj_ioqueue_key_t) (o : Z) (r : operation_key) (len flags : Z) : Z * Z * world S :=
  if k_closing k then (PJ_ECANCELLED, len, w) else
  if negb (bool_decide (o_op r = OP_NONE)) then (PJ_EPENDING, len, w) else
  let pending s := (PJ_EPENDING, len, queued h o READABLE_EVENT (push_read o k) (fill r) (set_w_sys s w)) in
  if Z.land flags PJ_IOQUEUE_ALWAYS_ASYNC =? 0 then
    let '(st, n, s) := now (w_sys w) (k_fd k) in
    if st =? PJ_SUCCESS then (PJ_SUCCESS, n, set_w_sys s w)
    else if would_block st then pending s else (st, len, set_w_sys s w)
  else pending (w_sys w).

Lemma start_read_eq held now fill w h k o r buffer len flags :
  ioq_inv held w -> quiet this w -> h ∈ q_active (w_q w) -> w_keys w !! h = Some k -> w_ops w !! o = Some r ->
  buffer <> 0 ->
  start_read this now fill w h o buffer len flags = Some (read_result now fill w h k o r len flags).
Proof.
  intros Hi Hq Ha Hk Hr Hb. unfold start_read, read_result. destruct (Z.eqb_spec buffer 0) as [?|_]; [done|].
  rewrite Hk. bind_step. destruct (k_closing k) eqn:Hc; [done|]. rewrite Hr. bind_step.
  case_bool_decide as Ho; cbn [negb]; [|done].
  assert (Henq : forall s, enqueue this (set_w_sys s w) h o PJ_EPENDING READABLE_EVENT (push_read o) fill =
    Some (PJ_EPENDING, queued h o READABLE_EVENT (push_read o k) (fill r) (set_w_sys s w))).
  { intros s. rewrite (enqueue_eq this _ h k o r); try done; [|apply (iv_sets _ _ Hi)|intros; by eapply active_fd].
    by rewrite Hc, bool_decide_eq_true_2. }
  assert (Hid : set_w_sys (w_sys w) w = w) by (clear; by destruct w).
  destruct (_ =? 0); [|by rewrite <-Hid at 1; rewrite Henq]. destruct (now _ _) as [[st n] s].
  destruct (st =? PJ_SUCCESS); [done|]. destruct (would_block st); [|done]. by rewrite Henq.
Qed.

(** What the two calls leave, whatever the socket does. *)
Lemma read_result_keeps held now fill w h k o r len flags st n w' :
  ioq_inv held w -> h ∈ q_active (w_q w) -> w_keys w !! h = Some k -> w_ops w !! o = Some r ->
  read_result now fill w h k o r len flags = (st, n, w') ->
  keeps 0 held w w' /\ q_active (w_q w') = q_active (w_q w) /\ is_Some (w_ops w' !! o).
Proof.
  intros Hi Ha Hk Hr. unfold read_result.
  assert (Hsame : keeps 0 held w w /\ q_active (w_q w) = q_active (w_q w) /\ is_Some (w_ops w !! o)).
  { split_and!; [by apply keeps_refl|done|eauto]. }
  destruct (k_closing k) eqn:Hc; [by intros [= <- <- <-]|]. destruct (negb _); [by intros [= <- <- <-]|].
  assert (Hsys : forall s, keeps 0 held w (set_w_sys s w)) by (intros; by apply keeps_sys_only).
  assert (Hpend : forall s, let w2 := queued h o READABLE_EVENT (push_read o k) (fill r) (set_w_sys s w) in
    keeps 0 held w w2 /\ q_active (w_q w2) = q_active (w_q w) /\ is_Some (w_ops w2 !! o)).
  { intros s. split_and!; [|done|simpl; rewrite lookup_insert_eq; eauto].
    eapply (keeps_trans 0 0); [apply Hsys|]. apply (queued_keeps held _ h k o r); try done; [by apply inv_sys|].
    apply push_read_change. }
  destruct (_ =? 0); [|by intros [= <- <- <-]]. destruct (now _ _) as [[st0 n0] s].
  destruct (st0 =? PJ_SUCCESS); [|destruct (would_block st0)]; intros [= <- <- <-]; try apply Hpend;
    (split_and!; [apply Hsys|done|eauto]).
Qed.
End StartRead.

Section Read.
Context `{!SystemConstants} {T : Type} `{!SystemSockets T} `{!RecvLaws T}.
Abbreviation world := (world (env T)).
Context (this : Z) (user : user_call -> world -> option (bool * Z * world)).
Implicit Types (w : world) (x : pj_activesock_t) (r : read_op).

(** The outcome of a receive call: an amount, or an error of the system. *)
Definition recv_outcome (len st n : Z) : Prop :=
  if st =? PJ_SUCCESS then 0 <= n <= len else PJ_ERRNO_START_SYS < st.

Lemma io_outcome (e e' : env T) rc len st n : io_status rc e = (st, n, e') -> rc <= len -> (rc < 0 -> 0 < errno e) ->
  e' = e /\ recv_outcome len st n.
Proof.
  unfold io_status, recv_outcome. intros E Hle He.
  destruct (Z.ltb_spec rc 0) as [Hn|Hn]; injection E as <- <- <-; split; try done. specialize (He Hn). simpl in *.
  unfold PJ_RETURN_OS_ERROR, PJ_STATUS_FROM_OS, PJ_SUCCESS, PJ_ERRNO_START_SYS.
  destruct (Z.eqb_spec (errno (e_sys e)) 0); [lia|]. destruct (Z.eqb_spec (errno (e_sys e) + (20000 + 2 * 50000)) 0); lia.
Qed.

(** A way to receive [len] bytes. *)
Definition receives (len : Z) (now : env T -> Z -> Z * Z * env T) : Prop := forall e fd st n e',
  now e fd = (st, n, e') -> (exists s, e' = set_e_sys s e) /\ recv_outcome len st n.

Lemma recv_receives buf len flags : buf <> 0 -> 0 <= len ->
  receives len (fun e fd => pj_sock_recv e fd buf len flags).
Proof.
  intros Hb Hl e fd st n e' E. unfold pj_sock_recv in E. destruct (Z.eqb_spec buf 0); [done|].
  destruct (sys_recv e fd buf len flags) as [rc e1] eqn:Er. destruct (recv_bound _ _ _ _ _ _ _ Er Hl).
  destruct (io_outcome _ _ _ len _ _ E) as [-> Ho]; [done..|]. split; [|done].
  simpl in Er. unfold lift in Er. injection Er as _ <-. eauto.
Qed.

Lemma recvfrom_receives buf len flags from fl : buf <> 0 -> 0 <= len ->
  receives len (fun e fd => pj_sock_recvfrom e fd buf len flags from fl).
Proof.
  intros Hb Hl e fd st n e' E. unfold pj_sock_recvfrom in E. destruct (Z.eqb_spec buf 0); [done|].
  destruct (sys_recvfrom e fd buf len flags from fl) as [rc e1] eqn:Er. destruct (recvfrom_bound _ _ _ _ _ _ _ _ _ Er Hl).
  destruct (io_outcome _ _ _ len _ _ E) as [-> Ho]; [done..|]. split; [|done].
  simpl in Er. unfold lift in Er. injection Er as _ <-. eauto.
Qed.

(** ** The state between the turns

    The key [h] of the active socket [a], its read operation [o] with the buffer
    of [max] bytes at [pkt]. *)

Context (held : Z -> Z) (h a o pkt max : Z).

Definition in_buffer (q : Z * Z * Z) : Prop :=
  let '(o', buf, len) := q in o' = o -> pkt <= buf /\ 0 <= len /\ buf + len <= pkt + max.

Definition asked_ok w : Prop := Forall in_buffer (e_asked (w_sys w)).

Record reading (x : pj_activesock_t) (r : read_op) w : Prop := {
  rd_inv : ioq_inv held w;
  rd_quiet : quiet this w;
  rd_active : h ∈ q_active (w_q w);
  rd_op : is_Some (w_ops w !! o);
  rd_sock : sock_at w a = Some x;
  rd_read : read_at w o = Some r;
  rd_loop : a_max_loop x = PJ_ACTIVESOCK_MAX_LOOP;
  rd_pkt : r_pkt r = pkt /\ r_max_size r = max;
  rd_size : 0 <= r_size r <= max;
  rd_asked : asked_ok w
}.

(** The calls that the loop makes. *)
Definition read_call r (c : user_call) : Prop :=
  match c with
  | OnDataRead a' data size _ => a' = a /\ data = pkt /\ size = r_size r
  | OnDataRecvfrom a' _ _ _ _ _ => a' = a
  | _ => False
  end.

(** The contract of the application's functions: they return, and where they
    return true, the active socket and its operation are still there. *)
Class UserReads : Prop := user_reads c w x r : reading x r w -> read_call r c -> exists b rem w',
  user c w = Some (b, rem, w') /\ 0 <= rem < 2 ^ 32 /\ asked_ok w' /\
  (b = true -> exists x', reading x' r w').

Context `{!UserReads}.
Hypothesis Hpkt : 0 < pkt.
Hypothesis Hmax : 0 <= max < 2 ^ 31.

(** Changes of the environment that are not to the operation. *)
Lemma reading_env x r w w' :
  reading x r w -> w_keys w' = w_keys w -> w_ops w' = w_ops w -> w_q w' = w_q w -> w_locks w' = w_locks w ->
  w_grp w' = w_grp w -> sock_at w' a = sock_at w a -> read_at w' o = read_at w o -> asked_ok w' -> reading x r w'.
Proof.
  intros [I Q A O X R L P Z F] Ek Eo Eq El Eg Ex Er Ha. split; try done; try congruence.
  - destruct I. by split; unfold live_key, is_live in *; rewrite ?Ek, ?Eo, ?Eq, ?Eg.
  - by eapply quiet_ext.
Qed.

Lemma reading_put_read x r r' w : reading x r w -> r_pkt r' = r_pkt r -> r_max_size r' = r_max_size r ->
  0 <= r_size r' <= max -> reading x r' (put_read o r' w).
Proof.
  intros [I Q A O X R L P Z F] E1 E2 Hs. split; try done.
  - by apply inv_sys.
  - unfold read_at. simpl. by rewrite lookup_insert_eq.
  - by rewrite E1, E2.
Qed.

Lemma tell_ok c x r w : reading x r w -> read_call r c -> exists b rem w', tell user c w = Some (b, rem, w') /\ 0 <= rem < 2 ^ 32 /\
  asked_ok w' /\ (b = true -> exists x', reading x' r w').
Proof. intros Hr Hc. apply (user_reads c _ x r); [|done]. by eapply reading_env; [exact Hr|..|apply (rd_asked _ _ _ Hr)]. Qed.

Lemma tell_read_ok x r w st : reading x r w -> exists b rem w', tell_read user w a o st = Some (b, rem, w') /\
  asked_ok w' /\ (b = true -> exists x', reading x' r w' /\ (a_stream x' = true -> 0 <= rem <= r_size r)).
Proof.
  intros Hr. unfold tell_read. rewrite (rd_read _ _ _ Hr). bind_step.
  destruct (tell_ok (OnDataRead a (r_pkt r) (r_size r) st) x r w Hr) as (b & rem & w' & -> & Hrem & Ha & Hb);
    [split; [done|]; by destruct (rd_pkt _ _ _ Hr)|].
  rewrite bind_some_eq. cbv beta iota. destruct b; cbn [negb]; [|by do 3 eexists].
  destruct (Hb eq_refl) as [x' Hr']. rewrite (rd_sock _ _ _ Hr'), (rd_read _ _ _ Hr'). bind_step. bind_step.
  do 3 eexists. split; [done|]. split; [done|]. intros _. exists x'. split; [done|]. intros ->. simpl.
  pose proof (rd_size _ _ _ Hr). destruct (Z.leb_spec rem (r_size r)); lia.
Qed.

Lemma keep_remainder_ok x r w rem : reading x r w -> (a_stream x = true -> 0 <= rem <= r_size r) ->
  exists r' w', keep_remainder w a o rem = Some w' /\ reading x r' w'.
Proof.
  intros Hr Hrem. unfold keep_remainder, upd_read. rewrite (rd_sock _ _ _ Hr). bind_step.
  rewrite (rd_read _ _ _ Hr). bind_step. do 2 eexists. split; [done|].
  apply (reading_put_read x r); try done. pose proof (rd_size _ _ _ Hr). simpl. destruct (a_stream x); [specialize (Hrem eq_refl)|]; lia.
Qed.

(** The half of a turn that calls the application: it stops, or goes on. *)
Definition delivered (res : option (bool * world)) : Prop := exists go w', res = Some (go, w') /\ asked_ok w' /\
  (go = true -> exists x r, reading x r w').

Lemma kept_ok x r w rem : reading x r w -> (a_stream x = true -> 0 <= rem <= r_size r) ->
  delivered (w ← keep_remainder w a o rem; Some (true, w)).
Proof.
  intros Hr Hrem. destruct (keep_remainder_ok x r w rem Hr Hrem) as (r2 & w2 & -> & Hr2). bind_step.
  do 2 eexists. split; [done|]. split; [apply (rd_asked _ _ _ Hr2)|]. eauto.
Qed.

Lemma finish_delivery (m : option (bool * Z * world)) (rest : Z -> world -> option (bool * world)) r :
  (exists b rem w', m = Some (b, rem, w') /\ asked_ok w' /\
     (b = true -> exists x', reading x' r w' /\ (a_stream x' = true -> 0 <= rem <= r_size r))) ->
  (forall x' w' rem, reading x' r w' -> (a_stream x' = true -> 0 <= rem <= r_size r) -> delivered (rest rem w')) ->
  delivered ('(ret, rem, w) ← m; if negb ret then Some (false, w) else rest rem w).
Proof.
  intros (b & rem & w' & -> & Ha & Hb) Hrest. rewrite bind_some_eq. cbv beta iota.
  destruct b; cbn [negb]; [|by do 2 eexists]. destruct (Hb eq_refl) as (x' & Hr' & Hrem). by eapply Hrest.
Qed.

Lemma on_data_ok x r w n : reading x r w -> 0 <= n <= max - r_size r -> delivered (on_data user w a o n).
Proof.
  intros Hr Hn. unfold on_data, upd_read. rewrite (rd_read _ _ _ Hr). rewrite bind_some_eq. rewrite bind_some_eq.
  set (r1 := set_r_size _ r). pose proof (rd_size _ _ _ Hr) as Hsz.
  assert (Hr1 : reading x r1 (put_read o r1 w)).
  { apply (reading_put_read x r); try done. simpl. rewrite u32_small by lia. lia. }
  rewrite (rd_sock _ _ _ Hr1). bind_step.
  apply (finish_delivery _ (fun rem w => w ← keep_remainder w a o rem; Some (true, w)) r1); [|intros; by eapply kept_ok].
  pose proof (rd_size _ _ _ Hr1) as Hs1.
  destruct (_ && cb_data_read _); [by eapply tell_read_ok|]. destruct (_ && cb_data_recvfrom _).
  - rewrite (rd_read _ _ _ Hr1). bind_step.
    destruct (tell_ok (OnDataRecvfrom a (r_pkt r1) (r_size r1) (src_addr o) (src_addr_len o) PJ_SUCCESS) x r1 _ Hr1 eq_refl)
      as (b & rem & w' & -> & _ & Ha & Hb).
    rewrite bind_some_eq. cbv beta iota. do 3 eexists. split; [done|]. split; [done|]. intros Hbt.
    destruct (Hb Hbt) as [x' Hx']. exists x'. split; [done|lia].
  - do 3 eexists. split; [done|]. split; [apply (rd_asked _ _ _ Hr1)|]. intros _. exists x. split; [done|lia].
Qed.

Lemma on_error_ok x r w n : reading x r w -> delivered (on_error user w a o n).
Proof.
  intros Hr. unfold on_error. rewrite (rd_sock _ _ _ Hr). bind_step. pose proof (rd_size _ _ _ Hr) as Hsz.
  apply (finish_delivery _ (fun rem w => x ← sock_at w a; if shut x SHUT_RX then Some (false, w) else
    w ← keep_remainder w a o rem; Some (true, w)) r).
  2: { intros x' w' rem Hr' Hrem. rewrite (rd_sock _ _ _ Hr'). bind_step. destruct (shut x' SHUT_RX); [|by eapply kept_ok].
    do 2 eexists. split; [done|]. split; [apply (rd_asked _ _ _ Hr')|done]. }
  set (st := if n =? 0 then _ else _).
  destruct (_ && cb_data_read _); [by eapply tell_read_ok|]. destruct (_ && negb _).
  - destruct (tell_ok (OnDataRecvfrom a 0 0 0 0 st) x r _ Hr eq_refl) as (b & rem & w' & -> & _ & Ha & Hb).
    rewrite bind_some_eq. cbv beta iota. do 3 eexists. split; [done|]. split; [done|]. intros Hbt.
    destruct (Hb Hbt) as [x' Hx']. exists x'. split; [done|lia].
  - do 3 eexists. split; [done|]. split; [apply (rd_asked _ _ _ Hr)|]. intros _. exists x. split; [done|lia].
Qed.

Lemma deliver_ok x r w n : reading x r w -> n <= max - r_size r -> delivered (deliver user w a o n).
Proof.
  intros Hr Hn. unfold deliver. rewrite (rd_sock _ _ _ Hr). bind_step. destruct (Z.ltb_spec 0 n).
  - eapply on_data_ok; [done|lia].
  - destruct (is_error x n); [by eapply on_error_ok|]. do 2 eexists. split; [done|].
    split; [apply (rd_asked _ _ _ Hr)|]. eauto.
Qed.

(** ** Asking for more *)

Lemma async_flag flags : Z.land (Z.lor flags PJ_IOQUEUE_ALWAYS_ASYNC) PJ_IOQUEUE_ALWAYS_ASYNC <> 0.
Proof.
  intros E. apply (f_equal (fun z => Z.testbit z 31)) in E.
  rewrite Z.land_spec, Z.lor_spec, Z.bits_0 in E. change (Z.testbit PJ_IOQUEUE_ALWAYS_ASYNC 31) with true in E.
  by rewrite orb_true_r in E.
Qed.

(** The statuses that end the loop. *)
Definition ends (st : Z) : Prop := st = PJ_EPENDING \/ st = PJ_ECANCELLED.

Lemma start_read_keeps x r now fill w buf len flags :
  reading x r w -> buf <> 0 -> receives len now ->
  exists st n w', start_read this now fill w h o buf len flags = Some (st, n, w') /\ reading x r w' /\
    (ends st \/ Z.land flags PJ_IOQUEUE_ALWAYS_ASYNC = 0 /\ recv_outcome len st n).
Proof.
  intros Hr Hb Hnow. pose proof Hr as [I Q A [op Ho] X R L P Z F].
  destruct (iv_keys _ _ I h) as [k Hk]; [apply elem_of_app; by left|].
  rewrite (start_read_eq this held now fill w h k o op) by done.
  destruct (read_result now fill w h k o op len flags) as [[st n] w'] eqn:E.
  destruct (read_result_keeps held _ _ _ _ _ _ _ _ _ _ _ _ I A Hk Ho E) as (K & Ea & Ho').
  do 3 eexists. split; [done|].
  assert (Hsys : (exists s, w_sys w' = set_e_sys s (w_sys w)) /\
    (ends st \/ Z.land flags PJ_IOQUEUE_ALWAYS_ASYNC = 0 /\ recv_outcome len st n)).
  { assert (Hid : exists s, w_sys w = set_e_sys s (w_sys w)) by (exists (e_sys (w_sys w)); by destruct (w_sys w)).
    unfold read_result, ends in *. destruct (k_closing k); [injection E as <- <- <-; eauto|].
    destruct (negb _); [injection E as <- <- <-; eauto|].
    destruct (Z.eqb_spec (Z.land flags PJ_IOQUEUE_ALWAYS_ASYNC) 0); [|injection E as <- <- <-; eauto].
    destruct (now _ _) as [[st0 n0] s] eqn:En. destruct (Hnow _ _ _ _ _ En) as [Hs Hout]. unfold recv_outcome in *.
    destruct (Z.eqb_spec st0 PJ_SUCCESS); [injection E as <- <- <-; eauto|].
    destruct (would_block st0); injection E as <- <- <-; (split; [done|]); [by left; left|right].
    destruct (Z.eqb_spec st0 PJ_SUCCESS); [done|]. by split. }
  destruct Hsys as [[s Es] Hst]. split; [|done].
  split; try done; try (unfold sock_at, read_at, asked_ok; rewrite Es; done).
  - apply (kp_inv _ _ _ _ K).
  - eapply keeps_quiet; [exact K|done].
  - by rewrite Ea.
Qed.

Lemma reading_ask x r w buf len : reading x r w -> pkt <= buf -> 0 <= len -> buf + len <= pkt + max ->
  reading x r (ask o buf len w).
Proof.
  intros Hr H1 H2 H3. eapply reading_env; [exact Hr|done..|]. apply Forall_cons. split; [done|]. apply (rd_asked _ _ _ Hr).
Qed.

Lemma read_next_ok x r w loop : reading x r w -> 0 <= loop < PJ_ACTIVESOCK_MAX_LOOP ->
  exists st n w', read_next this w h a o loop = Some (st, n, w') /\ reading x r w' /\
    (ends st \/ loop + 1 < PJ_ACTIVESOCK_MAX_LOOP /\ recv_outcome (max - r_size r) st n).
Proof.
  intros Hr Hl. unfold read_next. rewrite (rd_sock _ _ _ Hr), (rd_read _ _ _ Hr). bind_step. bind_step.
  destruct (rd_pkt _ _ _ Hr) as [Ep Em]. pose proof (rd_size _ _ _ Hr) as Hsz. rewrite Em, (rd_loop _ _ _ Hr).
  unfold PJ_ACTIVESOCK_MAX_LOOP in *. rewrite (u32_small (max - r_size r)), i32_small, (u32_small (loop + 1)) by lia.
  set (flags := if 50 <=? loop + 1 then _ else _).
  assert (Hfl : Z.land flags PJ_IOQUEUE_ALWAYS_ASYNC = 0 -> loop + 1 < 50).
  { unfold flags. destruct (Z.leb_spec 50 (loop + 1)); [|done]. intros []%async_flag. }
  set (buf := r_pkt r + r_size r). set (len := max - r_size r).
  assert (Hbuf : buf <> 0 /\ pkt <= buf /\ buf + len <= pkt + max) by (unfold buf, len; lia).
  destruct Hbuf as (Hb1 & Hb2 & Hb3). assert (Hlen : 0 <= len) by (unfold len; lia).
  assert (Hout : forall st n, ends st \/ Z.land flags PJ_IOQUEUE_ALWAYS_ASYNC = 0 /\ recv_outcome len st n ->
    ends st \/ loop + 1 < 50 /\ recv_outcome len st n) by (intros ?? [|[]]; auto).
  case_bool_decide.
  - destruct (start_read_keeps x r (fun s fd => pj_sock_recv s fd buf len flags)
      (fun r : operation_key => set_o_op OP_RECV (set_o_buf buf (set_o_size len (set_o_flags (without_async flags) r))))
      (ask o buf len w) buf len flags) as (st & n & w' & E & Hr' & Ho);
      [by apply reading_ask|done|by apply recv_receives|]. unfold pj_ioqueue_recv. rewrite E. eauto 10.
  - destruct (start_read_keeps x r (fun s fd => pj_sock_recvfrom s fd buf len flags (src_addr o) (src_addr_len o))
      (fun r : operation_key => set_o_op OP_RECV_FROM (set_o_buf buf (set_o_size len (set_o_flags (without_async flags)
         (set_o_addr (src_addr o) (set_o_addrlen (src_addr_len o) r))))))
      (ask o buf len (set_cell (src_addr_len o) SIZEOF_SOCKADDR w)) buf len flags) as (st & n & w' & E & Hr' & Ho);
      [apply reading_ask; try done; by eapply reading_env; [exact Hr|..|apply (rd_asked _ _ _ Hr)]|done|by apply recvfrom_receives|].
    unfold pj_ioqueue_recvfrom. rewrite E. eauto 10.
Qed.

(** ** The loop *)

Lemma read_loop_ends (fuel : nat) : forall x r w n loop, reading x r w -> n <= max - r_size r ->
  0 <= loop < PJ_ACTIVESOCK_MAX_LOOP -> PJ_ACTIVESOCK_MAX_LOOP - loop <= Z.of_nat fuel ->
  exists w', read_loop this user fuel w h a o n loop = Some w' /\ asked_ok w'.
Proof.
  induction fuel as [|fuel IH]; intros x r w n loop Hr Hn Hl Hf; [lia|]. cbn [read_loop].
  destruct (deliver_ok x r w n Hr Hn) as (go & w1 & -> & Ha1 & Hgo). rewrite bind_some_eq. cbv beta iota.
  destruct go; cbn [negb]; [|eauto]. destruct (Hgo eq_refl) as (x1 & r1 & Hr1).
  destruct (read_next_ok x1 r1 w1 loop Hr1 Hl) as (st & m & w2 & -> & Hr2 & Hst). rewrite bind_some_eq. cbv beta iota.
  pose proof (rd_asked _ _ _ Hr2) as Ha2. unfold PJ_ACTIVESOCK_MAX_LOOP in *. rewrite (u32_small (loop + 1)) by lia.
  pose proof (rd_size _ _ _ Hr2) as Hsz. destruct Hst as [[->| ->]|[Hlt Ho]]; [simpl; eauto..|]. unfold recv_outcome in Ho.
  destruct (Z.eqb_spec st PJ_SUCCESS) as [->|Hst]; [eapply IH; [exact Hr2|lia..]|].
  destruct (_ && _); [|eauto]. assert (0 < PJ_ERRNO_START_SYS) by done. eapply IH; [exact Hr2|lia..].
Qed.

(** C14 A completed read of an active socket is handled in at most [max_loop]
    turns, whatever the socket returns, for streams and datagrams, and whatever
    length the application says it leaves in the buffer: the function returns, and
    every request for data is within the buffer of the read operation. *)
Theorem on_read_complete_contained x r w n : reading x r w -> pj_ioqueue_get_user_data w h = Some a ->
  n <= max - r_size r ->
  exists w', ioqueue_on_read_complete this user w h o n = Some w' /\ Forall in_buffer (e_asked (w_sys w')).
Proof.
  intros Hr Hu Hn. unfold ioqueue_on_read_complete. rewrite Hu. bind_step. rewrite (rd_sock _ _ _ Hr). bind_step.
  destruct (shut x SHUT_RX); [exists w; split; [done|apply (rd_asked _ _ _ Hr)]|]. rewrite (rd_loop _ _ _ Hr).
  eapply read_loop_ends; [exact Hr|done|done|done].
Qed.
End Read.
