(* ===== verification/ActiveSockStream.v ===== *)
(** * The order of the bytes received

    From the socket to the application: what the application has taken, what it
    has left in the buffer and what the system still has for the socket is the
    same sequence of bytes before and after every event, however the data comes
    in pieces and whatever part of it the application leaves for the next time. *)
From S2P Require Import Prelude TimeVal SockBsd IoQueueData IoQueue IoQueueInv IoQueueDispatch IoQueuePoll IoQueueKeys IoQueueOps IoQueueThreads IoQueueStream ActiveSockData ActiveSock ActiveSockRead.

(** What the development relies on of [recv] without flags: it takes the next
    bytes of the stream and puts them where it was told to.  [mem] is the memory,
    [incoming] what the system has yet to deliver for a socket, [taken] what the
    application has taken of it. *)
Class RecvStream (T : Type) `{!SystemSockets T} := {
  mem : T -> Z -> Z;
  incoming : T -> Z -> list Z;
  taken : T -> list Z;
  recv_takes s fd buf len n s' : sys_recv s fd buf len 0 = (n, s') -> 0 <= len ->
    n <= len /\ (n < 0 -> 0 < errno s') /\
    incoming s fd = map (mem s') (seqZ buf n) ++ incoming s' fd /\ taken s' = taken s /\
    (forall p, ~ (buf <= p < buf + n) -> mem s' p = mem s p)
}.

Section ReadStream.
Context `{!SystemConstants} {T : Type} `{!SystemSockets T} `{!RecvStream T}.
Abbreviation world := (world (env T)).
Context (this : Z) (user : user_call -> world -> option (bool * Z * world)) (others : world -> world).
Context (held : Z -> Z) (h a o pkt max fd : Z).
Implicit Types (w : world) (x : pj_activesock_t) (r : read_op) (k : pj_ioqueue_key_t).

(** The bytes from [p] on in memory. *)
Definition bytes_at (s : T) (p n : Z) : list Z := map (mem s) (seqZ p n).

(** The whole stream, when [n] more bytes are in the buffer than the application
    knows of. *)
Definition total (n : Z) r w : list Z :=
  taken (e_sys (w_sys w)) ++ bytes_at (e_sys (w_sys w)) pkt (r_size r + Z.max 0 n) ++ incoming (e_sys (w_sys w)) fd.

(** An active socket that reads a stream, with its key. *)
Record stream_sock x r k w : Prop := {
  st_inv : ioq_inv held w;
  st_quiet : quiet this w;
  st_live : live_key w h k;
  st_key : k_fd k = fd /\ k_accept k = [] /\ k_read_cb k = [] /\ k_user k = a /\ on_read_complete (k_cb k) = true;
  st_sock : sock_at w a = Some x;
  st_read : read_at w o = Some r;
  st_type : a_stream x = true /\ a_read_type x = TYPE_RECV /\ cb_data_read (a_cb x) = true;
  st_set : a_read_flags x = 0 /\ a_shutdown x = 0 /\ a_max_loop x = PJ_ACTIVESOCK_MAX_LOOP;
  st_buf : r_pkt r = pkt /\ r_max_size r = max /\ 0 <= r_size r <= max
}.

(** In the callback, and waiting for data: the operation asks for the rest of
    the buffer. *)
Definition idle x r k w : Prop :=
  stream_sock x r k w /\ k_read k = [] /\ exists op, w_ops w !! o = Some op /\ o_op op = OP_NONE.

Definition armed x r k w : Prop :=
  stream_sock x r k w /\ k_read k = [o] /\ exists op, w_ops w !! o = Some op /\
    o_op op = OP_RECV /\ o_buf op = pkt + r_size r /\ o_size op = max - r_size r /\ o_flags op = 0.

(** The application no longer reads: what it has taken is a part of the stream,
    from the first byte on. *)
Definition stopped (whole : list Z) w : Prop :=
  ioq_inv held w /\ quiet this w /\ (exists k, h ∈ q_active (w_q w) /\ w_keys w !! h = Some k /\ k_read_cb k = []) /\
  taken (e_sys (w_sys w)) `prefix_of` whole.

(** The contract of [on_data_read]: it returns; what it takes is from the front
    of the buffer and the rest is moved there; and where it returns false it may
    close the active socket. *)
Class StreamReader : Prop := stream_reader st x r k w :
  idle x r k w -> exists b rem w', user (OnDataRead a pkt (r_size r) st) w = Some (b, rem, w') /\
    if b then 0 <= rem <= r_size r /\ (exists x' k', idle x' r k' w') /\
      incoming (e_sys (w_sys w')) fd = incoming (e_sys (w_sys w)) fd /\
      taken (e_sys (w_sys w')) ++ bytes_at (e_sys (w_sys w')) pkt rem =
        taken (e_sys (w_sys w)) ++ bytes_at (e_sys (w_sys w)) pkt (r_size r)
    else stopped (total 0 r w) w'.

Context `{!StreamReader}.
Hypothesis Hpkt : 0 < pkt.
Hypothesis Hmax : 0 <= max < 2 ^ 31.

(** ** Small changes *)

Lemma stream_sock_env x r k w w' :
  stream_sock x r k w -> w_keys w' = w_keys w -> w_ops w' = w_ops w -> w_q w' = w_q w -> w_locks w' = w_locks w ->
  w_grp w' = w_grp w -> sock_at w' a = sock_at w a -> read_at w' o = read_at w o -> stream_sock x r k w'.
Proof.
  intros [I Q L K X R Ty S B] Ek Eo Eq El Eg Ex Er. unfold live_key in *. rewrite <-Ek, <-Eq in L. split; try done; try congruence.
  - destruct I. by split; unfold live_key, is_live in *; rewrite ?Ek, ?Eo, ?Eq, ?Eg.
  - by eapply quiet_ext.
Qed.

Lemma stream_sock_put_read x r r' k w : stream_sock x r k w -> r_pkt r' = r_pkt r -> r_max_size r' = r_max_size r ->
  0 <= r_size r' <= max -> stream_sock x r' k (put_read o r' w).
Proof.
  intros [I Q L K X R Ty S (B1 & B2 & B3)] E1 E2 Hs. split; try done.
  - by apply inv_sys.
  - unfold read_at. simpl. by rewrite lookup_insert_eq.
  - by rewrite E1, E2.
Qed.

Lemma bytes_at_app s p n m : 0 <= n -> 0 <= m -> bytes_at s p (n + m) = bytes_at s p n ++ bytes_at s (p + n) m.
Proof. intros. unfold bytes_at. by rewrite seqZ_app, map_app. Qed.

Lemma bytes_at_ext s s' p n : (forall q, p <= q < p + n -> mem s' q = mem s q) -> bytes_at s' p n = bytes_at s p n.
Proof. intros Hm. apply map_ext_in. intros q Hq. apply list_elem_of_In, elem_of_seqZ in Hq. apply Hm. lia. Qed.

(** ** The application is called *)

Definition went_on (whole : list Z) (res : option (bool * world)) : Prop := exists go w', res = Some (go, w') /\
  if (go : bool) then exists x r k, idle x r k w' /\ total 0 r w' = whole else stopped whole w'.

Lemma tell_stream x r k w st (rest : Z -> world -> option (bool * world)) : idle x r k w ->
  (forall x' k' rem w', idle x' r k' w' -> 0 <= rem <= r_size r -> total 0 (set_r_size rem r) w' = total 0 r w ->
    went_on (total 0 r w) (rest rem w')) ->
  went_on (total 0 r w) ('(ret, rem, w') ← tell_read user w a o st; if negb ret then Some (false, w') else rest rem w').
Proof.
  intros Hi Hrest. pose proof Hi as ([I Q L K X R Ty S (B1 & B2 & B3)] & Hkr & op & Hop & Hnone).
  unfold tell_read, tell. rewrite R. bind_step. rewrite B1.
  set (w1 := upd_env w _).
  assert (Hi1 : idle x r k w1) by (split; [|eauto]; by eapply stream_sock_env; [apply Hi|..]).
  destruct (stream_reader st x r k w1 Hi1) as (b & rem & w' & -> & Hb). rewrite bind_some_eq. cbv beta iota.
  destruct b; cbn [negb]; [|rewrite bind_some_eq; by do 2 eexists].
  destruct Hb as (Hrem & (x' & k' & Hi') & Hinc & Htk). pose proof Hi' as (Hs' & _).
  rewrite (st_sock _ _ _ _ Hs'). bind_step. rewrite (st_read _ _ _ _ Hs'). bind_step.
  destruct (st_type _ _ _ _ Hs') as (-> & _). cbn [negb orb]. destruct (Z.leb_spec rem (r_size r)); [|lia].
  rewrite bind_some_eq. cbn [negb]. apply (Hrest x' k' rem w' Hi' Hrem). unfold total. simpl.
  rewrite Z.max_l, !Z.add_0_r by lia. rewrite Hinc, !app_assoc. f_equal. exact Htk.
Qed.

Lemma kept_stream x r k w rem whole : idle x r k w -> 0 <= rem <= r_size r -> total 0 (set_r_size rem r) w = whole ->
  went_on whole (w ← keep_remainder w a o rem; Some (true, w)).
Proof.
  intros (Hs & Hk & Hop) Hrem Ht. unfold keep_remainder, upd_read. destruct (st_type _ _ _ _ Hs) as (Hst & _).
  rewrite (st_sock _ _ _ _ Hs). bind_step. rewrite (st_read _ _ _ _ Hs), Hst. rewrite bind_some_eq. bind_step.
  do 2 eexists. split; [done|]. exists x, (set_r_size rem r), k. split; [|done]. split; [|done].
  destruct (st_buf _ _ _ _ Hs) as (_ & _ & ?). apply (stream_sock_put_read x r); try done. simpl. lia.
Qed.

Lemma on_data_stream x r k w n : idle x r k w -> 0 < n <= max - r_size r ->
  went_on (total n r w) (on_data user w a o n).
Proof.
  intros (Hs & Hk & Hop) Hn. destruct (st_buf _ _ _ _ Hs) as (_ & _ & Hsz). unfold on_data, upd_read.
  rewrite (st_read _ _ _ _ Hs). rewrite bind_some_eq. rewrite bind_some_eq. set (r1 := set_r_size _ r).
  assert (Hr1 : r_size r1 = r_size r + n) by (simpl; apply u32_small; lia).
  assert (Hi1 : idle x r1 k (put_read o r1 w)).
  { split; [|done]. apply (stream_sock_put_read x r); try done. lia. }
  assert (Ht : total n r w = total 0 r1 (put_read o r1 w)).
  { unfold total. rewrite Hr1. simpl. by rewrite (Z.max_r 0 n), Z.add_0_r by lia. }
  pose proof Hi1 as (Hs1 & _). rewrite (st_sock _ _ _ _ Hs1). bind_step. destruct (st_type _ _ _ _ Hs) as (_ & Ety & Ecb).
  rewrite bool_decide_eq_true_2, Ecb by done. cbn [andb]. rewrite Ht.
  apply (tell_stream x r1 k _ PJ_SUCCESS (fun rem w => w ← keep_remainder w a o rem; Some (true, w))); [done|].
  intros. by eapply kept_stream.
Qed.

Lemma on_error_stream x r k w n : idle x r k w -> went_on (total 0 r w) (on_error user w a o n).
Proof.
  intros Hi. pose proof Hi as (Hs & _). unfold on_error. rewrite (st_sock _ _ _ _ Hs). bind_step.
  destruct (st_type _ _ _ _ Hs) as (Hst & Ety & Ecb). rewrite bool_decide_eq_true_2, Ecb by done. cbn [andb].
  apply (tell_stream x r k w _ (fun rem w => x ← sock_at w a; if shut x SHUT_RX then Some (false, w) else
    w ← keep_remainder w a o rem; Some (true, w))); [done|].
  intros x' k' rem w' Hi' Hrem Ht. pose proof Hi' as (Hs' & _). rewrite (st_sock _ _ _ _ Hs'). bind_step.
  destruct (st_set _ _ _ _ Hs') as (_ & Hsh & _). unfold shut. rewrite Hsh. simpl. by eapply kept_stream.
Qed.

Lemma deliver_stream x r k w n : idle x r k w -> n <= max - r_size r ->
  went_on (total n r w) (deliver user w a o n).
Proof.
  intros Hi Hn. pose proof Hi as (Hs & _). unfold deliver. rewrite (st_sock _ _ _ _ Hs). bind_step.
  destruct (Z.ltb_spec 0 n); [eapply on_data_stream; [done|lia]|].
  assert (total n r w = total 0 r w) as -> by (unfold total; by rewrite !Z.max_l by lia).
  destruct (is_error x n); [by eapply on_error_stream|]. do 2 eexists. split; [done|]. by exists x, r, k.
Qed.

(** ** Receiving *)

(** The next bytes of the stream come into the buffer behind those that are
    there. *)
Lemma recv_total r w n s' : sys_recv (e_sys (w_sys w)) fd (pkt + r_size r) (max - r_size r) 0 = (n, s') ->
  0 <= r_size r <= max -> n <= max - r_size r /\ (n < 0 -> 0 < errno s') /\
  total n r (set_w_sys (set_e_sys s' (w_sys w)) w) = total 0 r w.
Proof.
  intros E Hsz. destruct (recv_takes _ _ _ _ _ _ E) as (Hle & He & Hin & Ht & Hm); [lia|]. split; [done|]. split; [done|].
  unfold total. simpl. rewrite Ht, Hin. f_equal. change (Z.max 0 0) with 0. rewrite (Z.add_0_r (r_size r)).
  destruct (Z.le_ge_cases n 0) as [Hn|Hn].
  - rewrite (Z.max_l 0 n), Z.add_0_r, seqZ_nil by lia. simpl. f_equal. apply bytes_at_ext. intros q Hq. apply Hm. lia.
  - rewrite (Z.max_r 0 n), bytes_at_app, <-app_assoc by lia. f_equal. apply bytes_at_ext. intros q Hq. apply Hm. lia.
Qed.

(** The same through [pj_sock_recv]: bytes, or an error of the system. *)
Lemma sock_recv_total r w st n e' : pj_sock_recv (w_sys w) fd (pkt + r_size r) (max - r_size r) 0 = (st, n, e') ->
  0 <= r_size r <= max ->
  (exists s', e' = set_e_sys s' (w_sys w)) /\
  (if st =? PJ_SUCCESS then 0 <= n <= max - r_size r else PJ_ERRNO_START_SYS < st) /\
  total (if st =? PJ_SUCCESS then n else - st) r (set_w_sys e' w) = total 0 r w.
Proof.
  intros E Hsz. unfold pj_sock_recv in E. destruct (Z.eqb_spec (pkt + r_size r) 0); [lia|].
  destruct (sys_recv (w_sys w) fd (pkt + r_size r) (max - r_size r) 0) as [rc e1] eqn:Er.
  simpl in Er. unfold lift in Er. injection Er as Er <-.
  destruct (sys_recv (e_sys (w_sys w)) fd (pkt + r_size r) (max - r_size r) 0) as [m s'] eqn:Es. simpl in Er. subst m.
  destruct (recv_total r w rc s' Es Hsz) as (Hle & He & Ht).
  destruct (io_outcome _ _ _ (max - r_size r) _ _ E Hle He) as [-> Ho]. unfold recv_outcome in Ho.
  split; [by eexists|]. split; [done|]. rewrite <-Ht. unfold io_status in E.
  assert (0 < PJ_ERRNO_START_SYS) by done.
  destruct (Z.ltb_spec rc 0); injection E as Est En; [|by rewrite <-Est, <-En].
  destruct (Z.eqb_spec st PJ_SUCCESS); [lia|]. unfold total. by rewrite !Z.max_l by lia.
Qed.

Lemma idle_sys x r k w e : idle x r k w -> e_socks e = e_socks (w_sys w) -> e_reads e = e_reads (w_sys w) ->
  idle x r k (set_w_sys e w).
Proof.
  intros (Hs & Hk & Hop) Ex Er. split; [|done]. eapply stream_sock_env; [exact Hs|done..| |].
  - unfold sock_at. simpl. by rewrite Ex.
  - unfold read_at. simpl. by rewrite Er.
Qed.

(** The operation of the active socket as [pj_ioqueue_recv] fills it in. *)
Definition recv_fill (buf len flags : Z) (op : operation_key) : operation_key :=
  set_o_op OP_RECV (set_o_buf buf (set_o_size len (set_o_flags flags op))).

Lemma queued_armed x r k w op : idle x r k w -> w_ops w !! o = Some op ->
  armed x r (push_read o k) (queued h o READABLE_EVENT (push_read o k)
    (recv_fill (pkt + r_size r) (max - r_size r) 0 op) w).
Proof.
  intros (Hs & Hk & _) Hop. pose proof Hs as [I Q L (F & A & C & U & B) X R Ty S Bf]. split_and!.
  - split; try done.
    + apply (queued_keeps held w h k o op READABLE_EVENT (push_read o k)); try done. apply push_read_change.
    + destruct L as (La & _ & Lc). split_and!; [done|simpl; by rewrite lookup_insert_eq|done].
  - simpl. by rewrite Hk.
  - simpl. rewrite lookup_insert_eq. by eexists.
Qed.

Lemma read_next_stream x r k w loop : idle x r k w -> 0 <= loop < PJ_ACTIVESOCK_MAX_LOOP ->
  exists st n w', read_next this w h a o loop = Some (st, n, w') /\
    (st = PJ_EPENDING /\ armed x r (push_read o k) w' /\ total 0 r w' = total 0 r w \/
     loop + 1 < PJ_ACTIVESOCK_MAX_LOOP /\ idle x r k w' /\ recv_outcome (max - r_size r) st n /\
       total (if st =? PJ_SUCCESS then n else - st) r w' = total 0 r w).
Proof.
  intros Hi Hl. pose proof Hi as ([I Q L (F & A & C & U & B) X R (Ty1 & Ty2 & Ty3) (S1 & S2 & S3) (B1 & B2 & B3)] & Hk & op & Hop & Hno).
  unfold read_next. rewrite X, R. bind_step. bind_step. rewrite bool_decide_eq_true_2, S1, S3, B1, B2 by done.
  unfold PJ_ACTIVESOCK_MAX_LOOP in *. rewrite (u32_small (max - r_size r)), i32_small, (u32_small (loop + 1)) by lia.
  set (buf := pkt + r_size r). set (len := max - r_size r). set (w1 := ask o buf len w).
  assert (Hi1 : idle x r k w1) by by apply idle_sys.
  set (flags := if 50 <=? loop + 1 then _ else _). pose proof Hi1 as (Hs1 & _). destruct L as (La & Lk & Lc).
  unfold pj_ioqueue_recv.
  rewrite (start_read_eq this held _ _ w1 h k o op); [|apply Hs1|apply Hs1|done|done|done|unfold buf; lia].
  unfold read_result. rewrite Lc, bool_decide_eq_true_2 by done. cbn [negb].
  assert (Hwf : without_async flags = 0) by (unfold flags; by destruct (50 <=? loop + 1)). rewrite Hwf.
  change (set_o_op OP_RECV _) with (recv_fill buf len 0 op).
  assert (Hpend : forall e, e_socks e = e_socks (w_sys w1) -> e_reads e = e_reads (w_sys w1) ->
    total 0 r (set_w_sys e w1) = total 0 r w -> let w' := queued h o READABLE_EVENT (push_read o k) (recv_fill buf len 0 op) (set_w_sys e w1) in
    armed x r (push_read o k) w' /\ total 0 r w' = total 0 r w).
  { intros e E1 E2 Et. split; [|done]. apply queued_armed; [by apply idle_sys|done]. }
  unfold flags in *. clear flags. destruct (Z.leb_spec 50 (loop + 1)).
  - destruct (Z.eqb_spec (Z.land (Z.lor 0 PJ_IOQUEUE_ALWAYS_ASYNC) PJ_IOQUEUE_ALWAYS_ASYNC) 0) as [E|_]; [done|].
    do 3 eexists. split; [done|]. left. split; [done|]. by apply (Hpend (w_sys w1)).
  - cbn [Z.land Z.eqb]. destruct (pj_sock_recv (w_sys w1) (k_fd k) buf len 0) as [[st n] e'] eqn:Er. rewrite F in Er.
    destruct (sock_recv_total r w1 st n e' Er B3) as ([s' ->] & Ho & Ht). unfold recv_outcome.
    assert (0 < PJ_ERRNO_START_SYS) by done.
    destruct (Z.eqb_spec st PJ_SUCCESS) as [->|Hst].
    + do 3 eexists. split; [done|]. right. split_and!; [done|by apply idle_sys|done..|]. simpl. exact Ht.
    + destruct (would_block st).
      * do 3 eexists. split; [done|]. left. split; [done|]. apply Hpend; try done. etrans; [|exact Ht]. unfold total.
        by rewrite !Z.max_l by lia.
      * do 3 eexists. split; [done|]. right. destruct (Z.eqb_spec st PJ_SUCCESS); [done|].
        split_and!; [done|by apply idle_sys|done..].
Qed.

(** ** The loop *)

Definition read_on (whole : list Z) w : Prop :=
  (exists x r k, armed x r k w /\ total 0 r w = whole) \/ stopped whole w.

Lemma read_loop_stream (fuel : nat) : forall x r k w n loop, idle x r k w -> n <= max - r_size r ->
  0 <= loop < PJ_ACTIVESOCK_MAX_LOOP -> PJ_ACTIVESOCK_MAX_LOOP - loop <= Z.of_nat fuel ->
  exists w', read_loop this user fuel w h a o n loop = Some w' /\ read_on (total n r w) w'.
Proof.
  induction fuel as [|fuel IH]; intros x r k w n loop Hi Hn Hl Hf; [lia|]. cbn [read_loop].
  destruct (deliver_stream x r k w n Hi Hn) as (go & w1 & -> & Hgo). rewrite bind_some_eq. cbv beta iota.
  destruct go; cbn [negb]; [|by eexists; split; [|right]]. destruct Hgo as (x1 & r1 & k1 & Hi1 & <-).
  destruct (read_next_stream x1 r1 k1 w1 loop Hi1 Hl) as (st & m & w2 & -> & Hst). rewrite bind_some_eq. cbv beta iota.
  unfold PJ_ACTIVESOCK_MAX_LOOP in *. rewrite (u32_small (loop + 1)) by lia.
  destruct Hst as [(-> & Ha & <-)|(Hlt & Hi2 & Ho & <-)]; [eexists; split; [done|left]; by do 3 eexists|].
  destruct Hi1 as (Hs1 & _). destruct (st_buf _ _ _ _ Hs1) as (_ & _ & Hsz). unfold recv_outcome in Ho.
  destruct (Z.eqb_spec st PJ_SUCCESS) as [->|Hst]; [eapply IH; [done|lia..]|].
  assert (PJ_EPENDING < PJ_ERRNO_START_SYS /\ PJ_ECANCELLED < PJ_ERRNO_START_SYS /\ 0 < PJ_ERRNO_START_SYS) as (? & ? & ?) by done.
  destruct (Z.eqb_spec st PJ_EPENDING); [lia|]. destruct (Z.eqb_spec st PJ_ECANCELLED); [lia|]. cbn [negb andb].
  eapply IH; [done|lia..].
Qed.

(** ** The event *)

(** A section of the queue on the key leaves the active socket as it was. *)
Lemma stream_sock_touch x r k k1 w w1 :
  stream_sock x r k w -> touch h w w1 -> w_locks w1 = w_locks w -> w_keys w1 !! h = Some k1 ->
  k_accept k1 = k_accept k -> k_read_cb k1 = k_read_cb k -> k_user k1 = k_user k -> k_cb k1 = k_cb k ->
  e_socks (w_sys w1) = e_socks (w_sys w) -> e_reads (w_sys w1) = e_reads (w_sys w) -> stream_sock x r k1 w1.
Proof.
  intros [I Q L (F & A & C & U & B) X R Ty S Bf] Ht Hl Hk1 Ea Ec Eu Eb Es Er. pose proof L as (La & Lk & Lc).
  destruct (touch_live_back _ _ _ _ _ Ht L) as (k2 & L2 & Hc). pose proof L2 as (_ & Hk2 & _). simplify_eq.
  split; try done.
  - eapply inv_touch; [exact I|by left|exact Ht].
  - by eapply quiet_ext.
  - destruct Hc as (-> & _). by rewrite Ea, Ec, Eu, Eb.
  - unfold sock_at. by rewrite Es.
  - unfold read_at. by rewrite Er.
Qed.

(** The end of the section: the callback is due. *)
Lemma read_finish_due w0 w k : in_section this w0 h w -> w_keys w !! h = Some k -> k_read_thread k = None ->
  exists w1 k1, read_finish this w h o true = Some (w1, ReadDone o true) /\ touch h w0 w1 /\
    w_locks w1 = w_locks w0 /\ w_keys w1 !! h = Some k1 /\ w_ops w1 = w_ops w /\ w_sys w1 = w_sys w /\
    (k1 = k \/ k1 = set_k_read_thread (Some this) k).
Proof.
  intros Hin Hk Ht. unfold read_finish. rewrite Hk. bind_step. rewrite Ht. destruct (k_conc k).
  - destruct (section_end _ _ _ _ Hin) as [-> Htc]. bind_step. do 2 eexists. split_and!; try done. by left.
  - destruct (section_upd_key this w0 h w k (set_k_read_thread (Some this)) Hin Hk) as [-> Hin1]; [done|by left|].
    bind_step. destruct (section_end _ _ _ _ Hin1) as [-> Htc]. bind_step. do 2 eexists. split_and!; try done.
    + simpl. by rewrite lookup_insert_eq.
    + by right.
Qed.

Lemma read_begin_armed x r k w : armed x r k w -> k_read_thread k = None ->
  exists w1 k1 op, read_begin this w h = Some (w1, ReadDone o true) /\ idle x r k1 w1 /\ w_ops w1 !! o = Some op /\
    o_bytes_read op <= max - r_size r /\ total (o_bytes_read op) r w1 = total 0 r w.
Proof.
  intros (Hs & Hkr & op & Hop & O1 & O2 & O3 & O4) Hth. pose proof Hs as [I Q L (F & A & C & U & B) X R Ty S (B1 & B2 & B3)].
  pose proof L as (La & Lk & Lc). destruct (iv_fd _ _ I h k L) as [Hfd _].
  unfold read_begin. rewrite (trylock_key_some _ _ _ k) by (done || apply Q). rewrite bind_some_eq. cbv beta iota. cbn [negb].
  pose proof (section_begin this w h k Lk Q (iv_sets _ _ I)) as Hin. set (wl := locked this _ w) in *.
  assert (Hkl : w_keys wl !! h = Some k) by done. rewrite Hkl. bind_step. rewrite Lc, A, Hkr. unfold read_first.
  destruct (erase_read_eq this w h wl k [] Hin Hkl Hfd) as (-> & Hin1 & Hk1 & Eo1 & Es1); [by intros ? ?%elem_of_nil|].
  set (w2 := if bool_decide _ then _ else _) in *. bind_step. rewrite Eo1. change (w_ops wl) with (w_ops w). rewrite Hop. bind_step.
  rewrite Es1. change (w_sys wl) with (w_sys w). unfold recv_op. rewrite O1, O2, O3, O4, F.
  destruct (pj_sock_recv (w_sys w) fd (pkt + r_size r) (max - r_size r) 0) as [[st n] e'] eqn:Er.
  destruct (sock_recv_total r w st n e' Er B3) as ([s' ->] & Ho & Ht).
  set (n' := if st =? PJ_SUCCESS then n else - st) in *.
  assert (Hn' : n' <= max - r_size r).
  { unfold n'. assert (0 < PJ_ERRNO_START_SYS) by done. destruct (st =? PJ_SUCCESS); lia. }
  destruct (section_upd_op this w h (set_w_sys (set_e_sys s' (w_sys w)) w2) o op
    (fun q => set_o_bytes_read n' (set_o_op OP_NONE q))) as [-> Hin2]; [by apply section_sys|cbn [w_ops set_w_sys]; by rewrite Eo1|]. bind_step.
  rewrite B. match type of Hin2 with in_section _ _ _ ?v => destruct (read_finish_due w v (set_k_read [] k) Hin2) as
    (w1 & k1 & -> & Htc & Hl1 & Hkk & Eo & Es & Hk1c) end; [exact Hk1|done|].
  exists w1, k1, (set_o_bytes_read n' (set_o_op OP_NONE op)). cbn [w_ops w_sys put_op set_w_ops set_w_sys] in Eo, Es.
  assert (Hops : w_ops w1 !! o = Some (set_o_bytes_read n' (set_o_op OP_NONE op))) by (rewrite Eo; by rewrite lookup_insert_eq).
  split; [done|]. split; [|split_and!; [done..|]].
  - split; [|split; [by destruct Hk1c as [->| ->]|by eexists]].
    apply (stream_sock_touch x r k k1 w w1); try done; try (by destruct Hk1c as [->| ->]); by rewrite Es.
  - simpl. rewrite <-Ht. unfold total. by rewrite Es.
Qed.

(** After the callback. *)
Definition waiting_again (whole : list Z) w : Prop :=
  (exists x r k, armed x r k w /\ k_read_thread k = None /\ total 0 r w = whole) \/ stopped whole w.

Lemma next_cb_done fuel whole w : (0 < fuel)%nat -> read_on whole w ->
  exists c w', ioqueue_dispatch_read_event_no_lock this (activesock_app this user others fuel) fuel w h 0 0 = Some (c, w') /\
    waiting_again whole w'.
Proof.
  intros Hf Hon. destruct fuel as [|fuel]; [lia|]. cbn [ioqueue_dispatch_read_event_no_lock].
  assert (Hst : exists k, ioq_inv held w /\ quiet this w /\ h ∈ q_active (w_q w) /\ w_keys w !! h = Some k /\ k_read_cb k = []).
  { destruct Hon as [(x & r & k & (Hs & _) & _)|(I & Q & (k & ?) & _)]; [|naive_solver]. exists k.
    destruct Hs as [I Q (La & Lk & _) (F & A & C & U & B) X R Ty S Bf]. done. }
  destruct Hst as (k & I & Q & La & Lk & Hcb). unfold next_read_cb. rewrite (lock_key_some _ _ _ k) by (done || apply Q). bind_step.
  pose proof (section_begin this w h k Lk Q (iv_sets _ _ I)) as Hin. set (wl := locked this _ w) in *.
  assert (Hkl : w_keys wl !! h = Some k) by done. rewrite Hkl. bind_step. rewrite Hcb.
  destruct (section_upd_key this w h wl k (set_k_read_thread None) Hin Hkl) as [-> Hin1]; [done|by left|]. bind_step.
  destruct (section_end _ _ _ _ Hin1) as [-> Htc]. bind_step. rewrite bind_some_eq. cbv beta iota.
  do 2 eexists. split; [done|]. set (w' := set_w_locks _ _) in *.
  assert (Hk' : w_keys w' !! h = Some (set_k_read_thread None k)) by (simpl; by rewrite lookup_insert_eq).
  destruct Hon as [(x & r & k0 & (Hs & Hkr & Hop) & Ht)|(_ & _ & _ & Hp)].
  - left. pose proof (st_live _ _ _ _ Hs) as (_ & Hk0 & _). simplify_eq. exists x, r, (set_k_read_thread None k). split; [|done]. split; [|done].
    by apply (stream_sock_touch x r k _ w w').
  - right. split; [eapply inv_touch; [exact I|by left|exact Htc]|]. split; [by eapply quiet_ext|]. split; [|done].
    eexists. split; [|by split; [exact Hk'|]]. destruct (tc_lists _ _ _ Htc) as (-> & _). done.
Qed.

(** C12 From the socket to the application: when a readable event of an active
    socket that reads a stream is dispatched, every function returns, and what the
    application has taken, what is in the buffer and what the system still has for
    the socket is the same sequence of bytes as before, in order, however much
    of the data comes at once and however much of it the application leaves in
    the buffer; the active socket waits for the rest of the buffer, or the
    application has stopped reading. *)
Theorem recv_in_order fuel x r k w : armed x r k w -> k_read_thread k = None -> (0 < fuel)%nat ->
  exists w', ioqueue_dispatch_read_event this (activesock_app this user others fuel) fuel w h = Some (true, w') /\
    waiting_again (total 0 r w) w'.
Proof.
  intros Ha Hth Hf. unfold ioqueue_dispatch_read_event.
  destruct (read_begin_armed x r k w Ha Hth) as (w1 & k1 & op & -> & Hi & Hop & Hle & <-). rewrite bind_some_eq. cbv beta iota.
  pose proof Hi as ([I Q (La & Lk & Lc) (F & A & C & U & B) X R Ty (S1 & S2 & S3) Bf] & _). rewrite Lk. bind_step.
  rewrite Hop. bind_step. rewrite Lc. cbn [negb andb].
  unfold call. cbn [activesock_app]. set (w2 := set_w_calls _ w1).
  assert (Hi2 : idle x r k1 w2) by (destruct Hi as (Hs & ?); split; [|done]; by eapply stream_sock_env).
  destruct (read_loop_stream (Z.to_nat PJ_ACTIVESOCK_MAX_LOOP) x r k1 w2 (o_bytes_read op) 0 Hi2 Hle) as (w3 & E3 & Hon);
    [done|done|].
  unfold ioqueue_on_read_complete, pj_ioqueue_get_user_data. change (w_keys w2) with (w_keys w1). rewrite Lk. bind_step. rewrite U. bind_step.
  change (sock_at w2 a) with (sock_at w1 a). rewrite X. bind_step. unfold shut. rewrite S2, S3. change (negb (Z.land 0 SHUT_RX =? 0)) with false. cbv iota.
  rewrite E3. bind_step. destruct (next_cb_done fuel _ w3 Hf Hon) as (c & w4 & -> & Hw). rewrite bind_some_eq. cbv beta iota.
  eexists. split; [done|]. exact Hw.
Qed.
End ReadStream.
