(* ===== verification/ActiveSockSend.v ===== *)
(** * Sending with an active socket

    With the option [whole_data], which is the default, a send either hands over
    all of the data, at once or in the queue, or reports an error; and when the
    rest of a send that was done in parts has gone out, the application is told
    the length of the whole. *)
From S2P Require Import Prelude TimeVal SockBsd IoQueueData IoQueue IoQueueInv IoQueueDispatch IoQueuePoll IoQueueKeys IoQueueOps IoQueueThreads IoQueueStream ActiveSockData ActiveSock.

(** A send of some bytes takes at least one, or fails. *)
Class SendProgress (S : Type) `{!SystemSockets S} := {
  send_some s fd buf len flags n s' : sys_send s fd buf len flags = (n, s') -> 0 < len -> n <> 0
}.

Lemma lift_eq {T A} (e : env T) (p : A * T) n e' : lift e p = (n, e') -> p = (n, e_sys e') /\ e' = set_e_sys (e_sys e') e.
Proof. unfold lift. destruct p. by intros [= <- <-]. Qed.

#[export] Program Instance env_stream_laws {T} `{!SystemSockets T} `{!StreamLaws T} : StreamLaws (env T) := {|
  sent e fd := sent (e_sys e) fd
|}.
Next Obligation. intros T ?? e fd buf len flags n e' [E ->]%lift_eq Hl. simpl. by eapply send_taken. Qed.
Next Obligation. intros T ?? e fd buf len flags n e' [E ->]%lift_eq Hl. simpl. by eapply send_errno. Qed.

#[export] Instance env_send_progress {T} `{!SystemSockets T} `{!SendProgress T} : SendProgress (env T).
Proof. split. intros e fd buf len flags n e' [E _]%lift_eq Hl. by eapply send_some. Qed.

Section Send.
Context `{!SystemConstants} {T : Type} `{!SystemSockets T} `{!StreamLaws T} `{!SendProgress T}.
Abbreviation world := (world (env T)).
Context (this : Z) (user : user_call -> world -> option (bool * Z * world)) (held : Z -> Z) (h a o : Z).
Implicit Types (w : world) (x : pj_activesock_t) (k : pj_ioqueue_key_t).

Lemma stream_state_env k w e : stream_state this h held k w -> e_sys e = e_sys (w_sys w) ->
  stream_state this h held k (set_w_sys e w) /\ all_bytes k (set_w_sys e w) = all_bytes k w.
Proof.
  intros [I Q L C D N O] E. split.
  - split; try done. by apply inv_sys.
  - unfold all_bytes. simpl. by rewrite E.
Qed.

(** The queue leaves the active sockets alone. *)
Definition same_env (w w' : world) : Prop := exists s, w_sys w' = set_e_sys s (w_sys w).

Lemma send_sys_env fd data len st n (e e' : env T) : send_sys fd data len st n e e' -> exists s, e' = set_e_sys s e.
Proof.
  unfold send_sys. destruct (_ =? _).
  - intros (_ & f & [_ ->]%lift_eq). eauto.
  - intros [->|(m & f & [_ ->]%lift_eq)]; [|eauto]. exists (e_sys e). by destruct e.
Qed.

(** One call on the key of the active socket. *)
Lemma send_on_step k w data len flags : stream_state this h held k w -> is_Some (w_ops w !! o) -> 0 <= len ->
  exists st n w' k', send_on this id (Some h) w o data len flags = Some (st, n, w') /\
    stream_state this h held k' w' /\ k_fd k' = k_fd k /\ is_Some (w_ops w' !! o) /\ same_env w w' /\
    all_bytes k' w' = all_bytes k w ++ accepted data len st n /\
    (st = PJ_SUCCESS -> 0 <= n <= len /\ (0 < len -> 0 < n)).
Proof.
  intros Hss Ho Hlen. simpl.
  destruct (send_step this h held k w o data len flags Hss Ho Hlen) as (st & n & w' & k' & E & S1 & S2 & S3 & S4 & S5).
  exists st, n, w', k'. split_and!; try done; [by apply S3|by eapply send_sys_env|]. intros ->.
  destruct S5 as (Hn & f & Hs). split; [done|]. intros Hp. pose proof (send_some _ _ _ _ _ _ _ Hs Hp). lia.
Qed.

(** ** What is left of the data *)

Lemma send_remaining_ok data len flags (fuel : nat) : forall k w x done,
  stream_state this h held k w -> sock_at w a = Some x -> a_key x = Some h ->
  a_send_data x = mk_send_data data len done flags -> 0 <= done < len -> is_Some (w_ops w !! o) ->
  len - done <= Z.of_nat fuel ->
  exists st w' k' done', send_remaining this id fuel w a a o = Some (st, w') /\
    stream_state this h held k' w' /\ k_fd k' = k_fd k /\ is_Some (w_ops w' !! o) /\
    e_sending (w_sys w') = e_sending (w_sys w) /\
    sock_at w' a = Some (set_a_send_data (mk_send_data data len done' flags) x) /\ done <= done' <= len /\
    all_bytes k' w' = all_bytes k w ++ seqZ (data + done) ((if st =? PJ_EPENDING then len else done') - done) /\
    (st = PJ_SUCCESS -> done' = len).
Proof.
  induction fuel as [|fuel IH]; intros k w x done Hss Hx Hkey Hsd Hd Ho Hf; [lia|]. cbn [send_remaining].
  rewrite Hx. bind_step. bind_step. rewrite Hkey, Hsd. cbn [sd_data sd_len sd_sent sd_flags].
  destruct (send_on_step k w (data + done) (len - done) flags Hss Ho) as (st & n & w1 & k1 & -> & S1 & S2 & S3 & [s Es] & S4 & S5); [lia|].
  rewrite bind_some_eq. cbv beta iota.
  assert (Hx1 : sock_at w1 a = Some x) by (unfold sock_at; by rewrite Es).
  assert (Hid : set_a_send_data (mk_send_data data len done flags) x = x) by (destruct x; simpl in *; by rewrite Hsd).
  destruct (Z.eqb_spec st PJ_SUCCESS) as [->|Hst]; cbn [negb].
  - rewrite Hx1. bind_step. rewrite Hsd. cbn [sd_sent set_sd_sent sd_len sd_data sd_flags].
    destruct (S5 eq_refl) as [Hn Hpos]. set (x2 := set_a_send_data _ x).
    destruct (stream_state_env k1 w1 (set_e_socks (<[a := x2]> (e_socks (w_sys w1))) (w_sys w1)) S1 eq_refl) as [S1' S4'].
    change (set_w_sys _ w1) with (put_sock a x2 w1) in S1', S4'.
    assert (Hx2 : sock_at (put_sock a x2 w1) a = Some x2) by (unfold sock_at; simpl; by rewrite lookup_insert_eq).
    rewrite S4 in S4'. unfold accepted in S4'. simpl in S4'.
    destruct (Z.eqb_spec (done + n) len).
    + exists PJ_SUCCESS, (put_sock a x2 w1), k1, (done + n). split_and!; try done; [simpl; by rewrite Es|lia..|].
      rewrite S4'. simpl. do 2 f_equal. lia.
    + destruct (Z.ltb_spec (done + n) len); [|lia].
      destruct (IH k1 (put_sock a x2 w1) x2 (done + n)) as (st & w' & k' & done' & -> & R1 & R2 & R3 & R4 & R5 & R6 & R7 & R8);
        try done; [lia..|]. exists st, w', k', done'. split_and!; try done; [congruence|by rewrite R4; simpl; rewrite Es|lia..|].
      rewrite R7, S4', <-app_assoc. f_equal. replace (data + (done + n)) with (data + done + n) by lia.
      rewrite <-seqZ_app by (destruct (st =? PJ_EPENDING); lia). f_equal. lia.
  - exists st, w1, k1, done. rewrite Hid. split_and!; try done; [by rewrite Es|lia..|].
    rewrite S4. f_equal. unfold accepted. destruct (Z.eqb_spec st PJ_SUCCESS); [done|].
    destruct (st =? PJ_EPENDING); [done|]. by rewrite Z.sub_diag.
Qed.

(** C13 A send with [whole_data] on a connected stream: the function returns;
    where it says success or pending, exactly the bytes of the data have been
    added to what the system has taken and the queue holds, in order, and success
    reports the whole length; any other status means that a front part of the data
    has been added, and nothing else. *)
Theorem whole_send k w x data size flags fuel :
  stream_state this h held k w -> sock_at w a = Some x -> a_key x = Some h -> a_whole_data x = true ->
  shut x SHUT_TX = false -> is_Some (w_ops w !! o) -> 0 <= size <= Z.of_nat fuel ->
  exists st n w' k' m, pj_activesock_send this id fuel w a o data size flags = Some (st, n, w') /\
    stream_state this h held k' w' /\ k_fd k' = k_fd k /\ 0 <= m <= size /\
    sent (w_sys w') (k_fd k) ++ unsent w' k' = sent (w_sys w) (k_fd k) ++ unsent w k ++ seqZ data m /\
    (st = PJ_SUCCESS \/ st = PJ_EPENDING -> m = size) /\ (st = PJ_SUCCESS -> n = size).
Proof.
  intros Hss Hx Hkey Hw Hsh Ho Hsz.
  enough (exists st n w' k' m, pj_activesock_send this id fuel w a o data size flags = Some (st, n, w') /\
    stream_state this h held k' w' /\ k_fd k' = k_fd k /\ 0 <= m <= size /\
    all_bytes k' w' = all_bytes k w ++ seqZ data m /\
    (st = PJ_SUCCESS \/ st = PJ_EPENDING -> m = size) /\ (st = PJ_SUCCESS -> n = size)) as (st & n & w' & k' & m & E & ? & Hf & ? & Hall & ?).
  { exists st, n, w', k', m. unfold all_bytes in Hall. rewrite Hf, <-app_assoc in Hall. done. }
  unfold pj_activesock_send. destruct (Z.eqb_spec data 0) as [?|_].
  { exists PJ_EINVAL, size, w, k, 0. split_and!; try done; try lia; [by rewrite app_nil_r|]. by intros [?|?]. }
  rewrite Hx. bind_step. rewrite Hsh, Hw, Hkey. set (w0 := set_sending o None w).
  destruct (stream_state_env k w (set_e_sending (partial_alter (fun _ => None) o (e_sending (w_sys w))) (w_sys w)) Hss eq_refl) as [Hss0 Hall0].
  change (set_w_sys _ w) with w0 in Hss0, Hall0.
  destruct (send_on_step k w0 data size flags Hss0 Ho) as (st & n & w1 & k1 & -> & S1 & S2 & S3 & [s Es] & S4 & S5); [lia|].
  rewrite bind_some_eq. cbv beta iota. rewrite Hall0 in S4.
  destruct (Z.eqb_spec st PJ_SUCCESS) as [->|Hst]; cbn [negb].
  2: { exists st, n, w1, k1, (if st =? PJ_EPENDING then size else 0). unfold accepted in S4. destruct (Z.eqb_spec st PJ_SUCCESS); [done|].
       destruct (Z.eqb_spec st PJ_EPENDING) as [->|]; split_and!; try done; try lia; by intros [?|?]. }
  destruct (S5 eq_refl) as [Hn Hpos]. unfold accepted in S4. simpl in S4.
  destruct (Z.eqb_spec n size) as [->|Hpart].
  { exists PJ_SUCCESS, size, w1, k1, size. split_and!; try done; lia. }
  assert (Hx1 : sock_at w1 a = Some x) by (unfold sock_at; by rewrite Es).
  unfold upd_sock. rewrite Hx1. bind_step. bind_step. set (x2 := set_a_send_data _ x). set (w2 := set_sending o (Some a) _).
  destruct (stream_state_env k1 w1 (w_sys w2) S1 eq_refl) as [Hss2 Hall2]. change (set_w_sys (w_sys w2) w1) with w2 in Hss2, Hall2.
  destruct (send_remaining_ok data size flags fuel k1 w2 x2 n) as (st & w3 & k3 & d & -> & R1 & R2 & R3 & R4 & R5 & R6 & R7 & R8);
    try done; [unfold sock_at; simpl; by rewrite lookup_insert_eq|lia..|].
  rewrite bind_some_eq. cbv beta iota.
  exists st, (if st =? PJ_SUCCESS then size else n), w3, k3, (if st =? PJ_EPENDING then size else d).
  split_and!; try done; try congruence; try (destruct (st =? PJ_EPENDING); lia).
  - rewrite R7, Hall2, S4, <-app_assoc. f_equal. rewrite <-seqZ_app by (destruct (st =? PJ_EPENDING); lia). f_equal. lia.
  - intros [->| ->]; [simpl; by apply R8|done].
  - by intros ->.
Qed.

(** ** The end of a send *)

(** The members of a key that an active socket depends on. *)
Definition same_user k k1 : Prop := k_user k1 = k_user k /\ k_cb k1 = k_cb k /\ k_write_cb k1 = k_write_cb k.

Lemma write_finish_due w0 w k : in_section this w0 h w -> w_keys w !! h = Some k -> k_write_thread k = None ->
  exists w1 k1, write_finish this w h o = Some (w1, Written o) /\ touch h w0 w1 /\ w_locks w1 = w_locks w0 /\
    w_keys w1 !! h = Some k1 /\ w_ops w1 = w_ops w /\ w_sys w1 = w_sys w /\ k_write k1 = k_write k /\ same_user k k1.
Proof.
  intros Hin Hk Ht. unfold write_finish. rewrite Hk. bind_step. rewrite Ht. destruct (k_conc k).
  - destruct (section_end _ _ _ _ Hin) as [-> Htc]. bind_step. exists (set_w_locks (w_locks w0) w), k. by split_and!.
  - destruct (section_upd_key this w0 h w k (set_k_write_thread (Some this)) Hin Hk) as [-> Hin1]; [done|by left|].
    bind_step. destruct (section_end _ _ _ _ Hin1) as [-> Htc]. bind_step.
    eexists _, (set_k_write_thread (Some this) k). split_and!; try done.
    simpl. by rewrite lookup_insert_eq.
Qed.

(** The only pending send goes on: it is done, or not yet. *)
Lemma write_begin_last k w (r : operation_key) rc m s :
  stream_state this h held k w -> k_write k = [o] -> k_write_thread k = None -> w_ops w !! o = Some r ->
  send_op (w_sys w) k r = (rc, m, s) -> let r1 := sent_op r rc m in
  exists w1 k1, write_begin this w h = Some (w1, if finished r1 rc then Written o else Done true) /\
    touch h w w1 /\ w_locks w1 = w_locks w /\ w_sys w1 = s /\ w_keys w1 !! h = Some k1 /\ same_user k k1 /\
    k_write k1 = (if finished r1 rc then [] else [o]) /\
    w_ops w1 !! o = Some (if finished r1 rc then set_o_op OP_NONE r1 else r1) /\ (finished r1 rc = false -> k1 = k).
Proof.
  intros [I Q L C D N O] Hw Hth Hr Es r1. pose proof L as (La & Lk & Lc). destruct (iv_fd _ _ I h k L) as [Hfd _].
  destruct (O o) as (r0 & Hr0 & [Hop _]); [rewrite Hw; by left|]. simplify_eq.
  unfold write_begin. rewrite (trylock_key_some _ _ _ k) by (done || apply Q). rewrite bind_some_eq. cbv beta iota. cbn [negb].
  pose proof (section_begin this w h k Lk Q (iv_sets _ _ I)) as Hin. set (wl := locked this _ w) in *.
  assert (Hkl : w_keys wl !! h = Some k) by done. rewrite Hkl. bind_step. rewrite Lc, C, Hw. unfold write_first. rewrite D.
  bind_step. assert (Hrl : w_ops wl !! o = Some r) by done. rewrite Hrl. bind_step. change (w_sys wl) with (w_sys w). rewrite Es, Hop.
  change (set_o_written _ r) with r1.
  destruct (section_upd_op this w h (set_w_sys s wl) o r (fun _ => r1)) as [-> Hin1]; [by apply section_sys|done|]. bind_step.
  set (w2 := put_op o r1 (set_w_sys s wl)) in *. rewrite orb_false_r. fold (finished r1 rc). destruct (finished r1 rc).
  - destruct (section_upd_op this w h w2 o r1 (set_o_op OP_NONE) Hin1) as [-> Hin2]; [simpl; by rewrite lookup_insert_eq|]. bind_step.
    destruct (erase_write_eq this w h (put_op o (set_o_op OP_NONE r1) w2) k [] Hin2 Hkl Hfd) as (-> & Hin3 & Hk3 & Eo3 & Es3);
      [by intros ? ?%elem_of_nil|]. bind_step.
    match type of Hin3 with in_section _ _ _ ?v => destruct (write_finish_due w v (set_k_write [] k) Hin3) as
      (w1 & k1 & -> & Htc & Hl1 & Hk1 & Eo & Esy & Hkw & Hu) end; [exact Hk3|done|].
    exists w1, k1. split_and!; try done. rewrite Eo, Eo3. simpl. by rewrite lookup_insert_eq.
  - destruct (section_end _ _ _ _ Hin1) as [-> Htc]. bind_step. exists (set_w_locks (w_locks w) w2), k. split_and!; try done.
    simpl. by rewrite lookup_insert_eq.
Qed.

(** The contract of [on_data_sent]: it returns, and does not send. *)
Class SentUser : Prop := sent_user n w : ioq_inv held w -> quiet this w -> exists b rem w',
  user (OnDataSent a o n) w = Some (b, rem, w') /\ keeps 0 held w w' /\
  e_told (w_sys w') = e_told (w_sys w) /\ forall fd, sent (w_sys w') fd = sent (w_sys w) fd.

Context `{!SentUser}.

Lemma tell_sent_ok x n w : sock_at w a = Some x -> cb_data_sent (a_cb x) = true -> ioq_inv held w -> quiet this w ->
  exists w', tell_sent user w a o n = Some w' /\ keeps 0 held w w' /\
    e_told (w_sys w') = OnDataSent a o n :: e_told (w_sys w) /\ forall fd, sent (w_sys w') fd = sent (w_sys w) fd.
Proof.
  intros Hx Hcb I Q. unfold tell_sent, tell. rewrite Hx. bind_step. rewrite Hcb. set (w1 := upd_env w _).
  destruct (sent_user n w1) as (b & rem & w' & -> & K & Ht & Hs); [by apply inv_sys|done|]. rewrite bind_some_eq. cbv beta iota.
  eexists. split; [done|]. split_and!; try done. eapply (keeps_trans 0 0); [by apply (keeps_sys_only held w (w_sys w1))|exact K].
Qed.

(** No callback was put off meanwhile. *)
Lemma write_cbs_done app (fuel : nat) w : (0 < fuel)%nat -> ioq_inv held w -> quiet this w -> h ∈ q_active (w_q w) ->
  (forall k, w_keys w !! h = Some k -> k_write_cb k = []) ->
  exists w', ioqueue_dispatch_write_event_no_lock this app fuel w h 0 0 = Some (0, w') /\ w_sys w' = w_sys w.
Proof.
  intros Hf I Q La Hcb. destruct fuel as [|fuel]; [lia|]. cbn [ioqueue_dispatch_write_event_no_lock].
  destruct (iv_keys _ _ I h) as [k Lk]; [apply elem_of_app; by left|].
  unfold next_write_cb. rewrite (lock_key_some _ _ _ k) by (done || apply Q). bind_step.
  pose proof (section_begin this w h k Lk Q (iv_sets _ _ I)) as Hin. set (wl := locked this _ w) in *.
  assert (Hkl : w_keys wl !! h = Some k) by done. rewrite Hkl. bind_step. rewrite (Hcb k Lk).
  destruct (section_upd_key this w h wl k (set_k_write_thread None) Hin Hkl) as [-> Hin1]; [done|by left|]. bind_step.
  destruct (section_end _ _ _ _ Hin1) as [-> Htc]. bind_step. rewrite bind_some_eq. cbv beta iota. by eexists.
Qed.

(** The rest of a send that was done in parts is in the queue: [done] bytes of
    the [len] at [data] had gone out before. *)
Record sending_rest (data len done flags : Z) x k (r : operation_key) w : Prop := {
  sr_stream : stream_state this h held k w;
  sr_held : 0 < held h;
  sr_queue : k_write k = [o] /\ k_write_cb k = [] /\ k_write_thread k = None;
  sr_key : k_user k = a /\ on_write_complete (k_cb k) = true;
  sr_op : w_ops w !! o = Some r /\ o_buf r = data + done /\ o_size r = len - done;
  sr_done : 0 <= done < len;
  sr_sock : sock_at w a = Some x /\ e_sending (w_sys w) !! o = Some a;
  sr_data : a_send_data x = mk_send_data data len done flags;
  sr_user : shut x SHUT_TX = false /\ cb_data_sent (a_cb x) = true
}.

Lemma send_op_env w k (r : operation_key) rc m e : o_op r = OP_SEND -> send_op (w_sys w) k r = (rc, m, e) ->
  exists s, e = set_e_sys s (w_sys w).
Proof.
  intros Ho E. unfold send_op, pj_sock_send, io_status in E. rewrite Ho in E.
  destruct (sys_send _ _ _ _ _) as [n e'] eqn:Es. apply lift_eq in Es as [_ Es].
  destruct (n <? 0); injection E as _ _ <-; eauto.
Qed.

(** What the application is told. *)
Definition told_now (n : Z) (w w' : world) : Prop := e_told (w_sys w') = OnDataSent a o n :: e_told (w_sys w).

(** The callback of the queue, when the operation has ended with [n]. *)
Lemma on_write_told data len done flags x k w n fuel :
  sock_at w a = Some x -> e_sending (w_sys w) !! o = Some a -> a_send_data x = mk_send_data data len done flags ->
  shut x SHUT_TX = false -> cb_data_sent (a_cb x) = true -> ioq_inv held w -> quiet this w ->
  w_keys w !! h = Some k -> k_user k = a -> n <= 0 \/ n = len - done ->
  exists w', ioqueue_on_write_complete this user id fuel w h o n = Some w' /\ keeps 0 held w w' /\
    told_now (if 0 <? n then len else n) w w' /\ forall fd, sent (w_sys w') fd = sent (w_sys w) fd.
Proof.
  intros Hx He Hd Hs Hc I Q Hk Hu Hn. unfold ioqueue_on_write_complete, pj_ioqueue_get_user_data.
  rewrite Hk. bind_step. rewrite Hu. bind_step. rewrite Hx. bind_step. rewrite Hs, He.
  destruct (Z.ltb_spec 0 n); [|by apply (tell_sent_ok x)]. rewrite Hx. bind_step. rewrite Hd. cbn [sd_sent set_sd_sent sd_len sd_data sd_flags].
  destruct (Z.eqb_spec (done + n) len) as [->|]; [|lia]. set (w1 := set_sending o None _).
  destruct (tell_sent_ok (set_a_send_data (set_sd_sent len (a_send_data x)) x) len w1) as (w' & -> & K & Ht & Hse).
  - unfold sock_at. simpl. rewrite lookup_insert_eq, Hd. done.
  - by destruct x.
  - exact (inv_sys held w (w_sys w1) I).
  - done.
  - exists w'. split_and!; try done. eapply (keeps_trans 0 0); [by apply (keeps_sys_only held w (w_sys w1))|exact K].
Qed.

(** The application is told the length of the whole: when a writable event of
    an active socket whose send was done in parts is dispatched, the function
    returns, and either the rest is still pending and nothing is told; or all of
    it has been taken by the system, and the application is told, once, the length
    of all of the data; or the send has failed, and it is told the error. *)
Theorem whole_sent_told data len done flags x k (r : operation_key) w fuel :
  sending_rest data len done flags x k r w -> (0 < fuel)%nat ->
  exists w', ioqueue_dispatch_write_event this (activesock_app this user id fuel) fuel w h = Some (true, w') /\
    (e_told (w_sys w') = e_told (w_sys w) /\ (exists r', sending_rest data len done flags x k r' w') \/
     told_now len w w' /\ sent (w_sys w') (k_fd k) = sent (w_sys w) (k_fd k) ++ left_of w o \/
     exists st, 0 < st /\ told_now (- st) w w').
Proof.
  intros [Hss Hh (Hw & Hcb & Hth) (Hu & Hon) (Hr & Hbuf & Hsize) Hd (Hx & He) Hsd (Hs & Hc)] Hf.
  pose proof Hss as [I Q L C D N O]. pose proof L as (La & Lk & Lc).
  destruct (O o) as (r0 & Hr0 & Hp); [rewrite Hw; by left|]. simplify_eq. pose proof Hp as [Hop Hwr].
  destruct (send_op (w_sys w) k r) as [[rc m] e] eqn:Es. destruct (send_op_env _ _ _ _ _ _ Hop Es) as [s ->].
  pose proof (send_op_taken w k r rc m _ Hp Es) as Htk.
  destruct (write_begin_last k w r rc m _ Hss Hw Hth Hr Es) as (w1 & k1 & E & Ht & Hl & Esy & Hk1 & (U1 & U2 & U3) & Hkw & Hop1 & Hsame).
  destruct (writable_step this h held k w Hss) as (w1' & n' & k1' & E' & Hss1 & _). rewrite E in E'. injection E' as <- _.
  pose proof (ss_live _ _ _ _ _ Hss1) as (La1 & Hk1' & _). rewrite Hk1 in Hk1'. injection Hk1' as <-.
  unfold ioqueue_dispatch_write_event. rewrite E. rewrite bind_some_eq. cbv beta iota.
  assert (Hx1 : sock_at w1 a = Some x) by (unfold sock_at; by rewrite Esy).
  assert (He1 : e_sending (w_sys w1) !! o = Some a) by by rewrite Esy.
  destruct (finished (sent_op r rc m) rc) eqn:Hfin.
  2: { exists w1. split; [done|]. left. rewrite Esy. split; [done|]. rewrite (Hsame eq_refl) in *. exists (sent_op r rc m). by split. }
  rewrite Hk1. bind_step. rewrite Hop1. bind_step. rewrite U2, Hon. unfold call. cbn [activesock_app]. set (w2 := set_w_calls _ w1).
  cbn [o_written set_o_op]. set (n := o_written (sent_op r rc m)) in *.
  assert (Hn : if rc =? PJ_SUCCESS then n = len - done else n = - rc /\ 0 < rc).
  { unfold n, finished, sent_op in *. simpl in *. destruct (Z.eqb_spec rc PJ_SUCCESS); [|by destruct Htk]. simpl in Hfin. lia. }
  destruct (on_write_told data len done flags x k1 w2 n fuel) as (w3 & E3 & K3 & T3 & S3); try done;
    [apply inv_calls, Hss1|apply Hss1|congruence|destruct (rc =? PJ_SUCCESS); lia|]. rewrite E3. bind_step.
  destruct (write_cbs_done (activesock_app this user id fuel) fuel w3 Hf) as (w4 & -> & Es4).
  - apply K3.
  - eapply keeps_quiet; [exact K3|apply Hss1].
  - by apply (iv_held _ _ (kp_inv _ _ _ _ K3)).
  - intros k3 Hk3. destruct (kp_grow _ _ _ _ K3 h k1 k3 Hk1 Hk3) as [_ Hle]. rewrite U3, Hcb in Hle. by destruct (k_write_cb k3); [|simpl in Hle; lia].
  - rewrite bind_some_eq. cbv beta iota. eexists. split; [done|]. right. unfold told_now in *. rewrite Es4, T3.
    change (e_told (w_sys w2)) with (e_told (w_sys w1)). rewrite Esy.
    destruct (Z.eqb_spec rc PJ_SUCCESS) as [->|_].
    + left. destruct (Z.ltb_spec 0 n); [|lia]. split; [done|]. rewrite S3. change (w_sys w2) with (w_sys w1). rewrite Esy.
      destruct Htk as [Hm ->]. f_equal. unfold left_of. rewrite Hr. f_equal.
      unfold n, sent_op in Hn. simpl in Hn. lia.
    + right. destruct Hn as [-> Hrc]. exists rc. split; [done|]. destruct (Z.ltb_spec 0 (- rc)); [lia|]. done.
Qed.
End Send.
