(* ===== verification/ActiveSockAccept.v ===== *)
(** * Accepting with an active socket

    A listener whose [accept] keeps failing does not keep its thread busy: after
    as many equal errors in a row as the configuration allows it stops
    accepting.  The application hears of it only when the error is that there was
    no connection. *)
From S2P Require Import Prelude TimeVal SockBsd IoQueueData IoQueue IoQueueInv IoQueueDispatch IoQueuePoll IoQueueKeys IoQueueOps ActiveSockData ActiveSock.

Section Accept.
Context `{!SystemConstants} {T : Type} `{!SystemSockets T}.
Abbreviation world := (world (env T)).
Context (this : Z) (user : user_call -> world -> option (bool * Z * world)) (held : Z -> Z) (h a o fd e : Z).
Implicit Types (w : world) (x : pj_activesock_t) (k : pj_ioqueue_key_t).

(** [accept] on the listening socket fails with the error [e]. *)
Definition accept_fails : Prop := forall (s : T) addr len, exists s',
  sys_accept s fd addr len = (PJ_INVALID_SOCKET, s') /\ errno s' = e.

Hypothesis Hfails : accept_fails.
Hypothesis He : 0 < e /\ e <> EWOULDBLOCK.
Hypothesis Ho : 0 < o.

(** An active socket that listens, in the callback. *)
Record listening x k w : Prop := {
  ls_inv : ioq_inv held w;
  ls_quiet : quiet this w;
  ls_live : live_key w h k;
  ls_key : k_fd k = fd /\ k_accept k = [] /\ k_user k = a;
  ls_op : exists op, w_ops w !! o = Some op /\ o_op op = OP_NONE;
  ls_sock : sock_at w a = Some x;
  ls_open : a_key x = Some h /\ a_shutdown x = 0;
  ls_count : 0 <= a_err_counter x < PJ_ACTIVESOCK_MAX_CONSECUTIVE_ACCEPT_ERROR
}.

Definition failure : Z := PJ_STATUS_FROM_OS e.

Lemma failure_not : failure = e + PJ_ERRNO_START_SYS /\ (failure =? PJ_SUCCESS) = false /\
  (failure =? PJ_EPENDING) = false /\ (failure =? PJ_ECANCELLED) = false /\ would_block failure = false.
Proof.
  assert (failure = e + PJ_ERRNO_START_SYS) as Hf.
  { unfold failure, PJ_STATUS_FROM_OS. destruct (Z.eqb_spec e 0); [lia|done]. }
  unfold would_block. rewrite Hf. unfold PJ_STATUS_FROM_OS, PJ_ERRNO_START_SYS, PJ_SUCCESS, PJ_EPENDING, PJ_ECANCELLED, PJ_ERRNO_START_STATUS.
  destruct (EWOULDBLOCK =? 0); split_and!; try done; apply Z.eqb_neq; lia.
Qed.

(** What changes is the active socket, not the queue. *)
Definition only_env w w' : Prop := w_keys w' = w_keys w /\ w_ops w' = w_ops w /\ w_q w' = w_q w /\
  w_locks w' = w_locks w /\ w_grp w' = w_grp w /\ e_told (w_sys w') = e_told (w_sys w).

Lemma only_env_trans w1 w2 w3 : only_env w1 w2 -> only_env w2 w3 -> only_env w1 w3.
Proof. unfold only_env. intuition congruence. Qed.

Lemma listening_env x x' k w w' : listening x k w -> only_env w w' -> sock_at w' a = Some x' ->
  a_key x' = a_key x -> a_shutdown x' = a_shutdown x ->
  0 <= a_err_counter x' < PJ_ACTIVESOCK_MAX_CONSECUTIVE_ACCEPT_ERROR -> listening x' k w'.
Proof.
  intros [I Q L K O X Op C] (Ek & Eo & Eq & El & Eg & _) Hx Ekey Esh Hc. unfold live_key in *.
  rewrite <-Ek, <-Eq in L. rewrite <-Eo in O. rewrite <-Ekey, <-Esh in Op. split; try done.
  - destruct I. by split; unfold live_key, is_live in *; rewrite ?Ek, ?Eo, ?Eq, ?Eg.
  - by eapply quiet_ext.
Qed.

(** One more attempt fails. *)
Lemma accept_on_fails x k w : listening x k w ->
  exists w', accept_on this (a_key x) w o = Some (failure, w') /\ only_env w w' /\ sock_at w' a = Some x.
Proof.
  intros [I Q (La & Lk & Lc) (F & A & U) (op & Hop & Hno) X (Key & Sh) C]. unfold accept_on. rewrite Key.
  unfold pj_ioqueue_accept. assert ((new_sock o =? 0) = false) as -> by (apply Z.eqb_neq; unfold new_sock, SIZEOF_OP_KEY; lia).
  set (w0 := set_cell _ _ _). change (w_keys w0) with (w_keys w). rewrite Lk. bind_step. rewrite Lc.
  change (w_ops w0) with (w_ops w). rewrite Hop. bind_step. rewrite bool_decide_eq_true_2, A by done. cbn [negb].
  rewrite bool_decide_eq_true_2, F by done. unfold pj_sock_accept. change (w_sys w0) with (w_sys w). simpl sys_accept. unfold lift.
  destruct (Hfails (e_sys (w_sys w)) (rem_addr o) (rem_addr_len o)) as (s' & -> & Her). simpl.
  assert (PJ_RETURN_OS_ERROR (errno s') = failure) as ->.
  { rewrite Her. unfold PJ_RETURN_OS_ERROR, failure. by destruct (Z.eqb_spec e 0); [lia|]. }
  destruct failure_not as (_ & -> & _ & _ & ->). by eexists.
Qed.

Lemma accept_loop_gives_up (fuel : nat) : forall x k w, listening x k w -> a_last_err x = failure ->
  PJ_ACTIVESOCK_MAX_CONSECUTIVE_ACCEPT_ERROR - a_err_counter x <= Z.of_nat fuel ->
  exists w' x', accept_loop this user fuel w a o failure = Some w' /\ only_env w w' /\ sock_at w' a = Some x' /\
    a_err_counter x' = PJ_ACTIVESOCK_MAX_CONSECUTIVE_ACCEPT_ERROR.
Proof.
  unfold PJ_ACTIVESOCK_MAX_CONSECUTIVE_ACCEPT_ERROR.
  induction fuel as [|fuel IH]; intros x k w Hl Hlast Hf; pose proof (ls_count _ _ _ Hl) as Hc;
    unfold PJ_ACTIVESOCK_MAX_CONSECUTIVE_ACCEPT_ERROR in Hc; [lia|]. cbn [accept_loop].
  destruct failure_not as (_ & F1 & F2 & F3 & F4). unfold count_error. rewrite (ls_sock _ _ _ Hl). bind_step.
  rewrite Hlast, Z.eqb_refl, F1. cbn [andb negb]. rewrite bind_some_eq. cbv beta iota. rewrite u32_small by lia.
  unfold PJ_ACTIVESOCK_MAX_CONSECUTIVE_ACCEPT_ERROR.
  set (x1 := set_a_err_counter _ x). set (w1 := put_sock a x1 w).
  assert (Hx1 : sock_at w1 a = Some x1) by (unfold sock_at; simpl; by rewrite lookup_insert_eq).
  destruct (Z.leb_spec 50 (a_err_counter x + 1)) as [Hle|Hlt].
  - unfold too_many_errors. rewrite Hx1. bind_step. fold (would_block failure). rewrite F4. cbn [andb].
    exists w1, x1. split_and!; try done. simpl. lia.
  - unfold on_connection. rewrite Hx1. bind_step. rewrite F1. cbn [negb]. rewrite bind_some_eq. cbv beta iota. cbn [negb].
    rewrite Hx1. bind_step. destruct (ls_open _ _ _ Hl) as [Hkey Hsh]. change (a_shutdown x1) with (a_shutdown x). rewrite Hsh. simpl negb.
    assert (Hl1 : listening x1 k w1).
    { apply (listening_env x x1 k w w1); try done. simpl. unfold PJ_ACTIVESOCK_MAX_CONSECUTIVE_ACCEPT_ERROR. lia. }
    destruct (accept_on_fails x1 k w1 Hl1) as (w2 & -> & Ho2 & Hx2). rewrite bind_some_eq. cbv beta iota. rewrite F2, F3. cbn [negb andb].
    destruct (IH x1 k w2) as (w' & x' & -> & Ho' & Hx' & Hc'); try done; [|simpl; lia|].
    + apply (listening_env x1 x1 k w1 w2); try done. apply Hl1.
    + exists w', x'. split_and!; try done. apply (only_env_trans _ w1); [done|]. by apply (only_env_trans _ w2).
Qed.

(** C25 A listener whose [accept] keeps failing with an error other than that
    there is no connection: the completion of an accept with that error returns
    after at most as many further attempts as errors in a row are allowed, the
    counter says so, no accept is pending any more, and the application has not
    been told. *)
Theorem accept_gives_up fuel x k w : listening x k w -> (52 <= fuel)%nat ->
  exists w' x', ioqueue_on_accept_complete this user fuel w h o failure = Some w' /\
    sock_at w' a = Some x' /\ a_err_counter x' = PJ_ACTIVESOCK_MAX_CONSECUTIVE_ACCEPT_ERROR /\
    live_key w' h k /\ k_accept k = [] /\ e_told (w_sys w') = e_told (w_sys w).
Proof.
  intros Hl Hf. destruct (ls_key _ _ _ Hl) as (F & A & U). pose proof (ls_live _ _ _ Hl) as (La & Lk & Lc).
  destruct (ls_open _ _ _ Hl) as [Hkey Hsh].
  enough (exists w' x', accept_loop this user fuel w a o failure = Some w' /\ only_env w w' /\ sock_at w' a = Some x' /\
    a_err_counter x' = PJ_ACTIVESOCK_MAX_CONSECUTIVE_ACCEPT_ERROR) as (w' & x' & E & (Ek & _ & Eq & _ & _ & Et) & Hx' & Hc').
  { exists w', x'. unfold ioqueue_on_accept_complete, pj_ioqueue_get_user_data. rewrite Lk. bind_step. rewrite U. bind_step.
    rewrite (ls_sock _ _ _ Hl). bind_step. rewrite Hsh. simpl negb. split_and!; try done. unfold live_key. by rewrite Ek, Eq. }
  unfold PJ_ACTIVESOCK_MAX_CONSECUTIVE_ACCEPT_ERROR in *.
  destruct (decide (a_last_err x = failure)) as [Hlast|Hlast].
  { eapply accept_loop_gives_up; [exact Hl|done|]. pose proof (ls_count _ _ _ Hl). unfold PJ_ACTIVESOCK_MAX_CONSECUTIVE_ACCEPT_ERROR in *. lia. }
  destruct fuel as [|fuel]; [lia|]. cbn [accept_loop]. destruct failure_not as (_ & F1 & F2 & F3 & F4).
  unfold count_error. rewrite (ls_sock _ _ _ Hl). bind_step. destruct (Z.eqb_spec failure (a_last_err x)); [congruence|]. cbn [andb].
  rewrite bind_some_eq. cbv beta iota. set (x1 := set_a_err_counter _ _). set (w1 := put_sock a x1 w).
  assert (Hx1 : sock_at w1 a = Some x1) by (unfold sock_at; simpl; by rewrite lookup_insert_eq).
  unfold on_connection. rewrite Hx1. bind_step. rewrite F1. cbn [negb]. rewrite bind_some_eq. cbv beta iota. cbn [negb].
  rewrite Hx1. bind_step. change (a_shutdown x1) with (a_shutdown x). rewrite Hsh. simpl negb.
  assert (Hl1 : listening x1 k w1) by (by apply (listening_env x x1 k w w1)).
  destruct (accept_on_fails x1 k w1 Hl1) as (w2 & -> & Ho2 & Hx2). rewrite bind_some_eq. cbv beta iota. rewrite F2, F3. cbn [negb andb].
  destruct (accept_loop_gives_up fuel x1 k w2) as (w' & x' & -> & Ho' & Hx' & Hc'); try done; [|unfold PJ_ACTIVESOCK_MAX_CONSECUTIVE_ACCEPT_ERROR; simpl; lia|].
  - apply (listening_env x1 x1 k w1 w2); try done.
  - exists w', x'. split_and!; try done. apply (only_env_trans _ w1); [done|]. by apply (only_env_trans _ w2).
Qed.
End Accept.
