(* ===== verification/ActiveSockExamples.v ===== *)
(** * Active sockets on concrete inputs

    A system with memory whose sockets take and deliver bytes in pieces, the
    theorems applied to concrete active sockets, and two behaviours that differ
    from what the code means to do. *)
From S2P Require Import Prelude TimeVal SockBsd IoQueueData IoQueue IoQueueInv IoQueueDispatch IoQueuePoll IoQueueKeys IoQueueOps IoQueueThreads IoQueueStream IoQueueExamples ActiveSockData ActiveSock ActiveSockRead ActiveSockStream ActiveSockSend ActiveSockAccept.

(** [n_room] is how much each of the next sends takes, [n_in] the bytes to come,
    at most [n_chunk] at a time. *)
Record net := mk_net {
  n_errno : Z;
  n_room : list Z;
  n_sent : list (Z * Z);
  n_mem : gmap Z Z;
  n_in : list Z;
  n_chunk : nat;
  n_taken : list Z
}.

Definition with_errno (e : Z) (s : net) : net :=
  mk_net e (n_room s) (n_sent s) (n_mem s) (n_in s) (n_chunk s) (n_taken s).

Definition net_send (s : net) (fd buf len flags : Z) : Z * net :=
  if len <? 0 then (-1, with_errno 22 s) else
  match n_room s with
  | [] => (-1, with_errno EWOULDBLOCK s)
  | r :: rest =>
      let n := Z.min len (Z.max 1 r) in
      (n, mk_net (n_errno s) rest (n_sent s ++ map (pair fd) (seqZ buf n)) (n_mem s) (n_in s) (n_chunk s) (n_taken s))
  end.

Fixpoint store (p : Z) (l : list Z) (m : gmap Z Z) : gmap Z Z :=
  match l with [] => m | b :: l => <[p := b]> (store (p + 1) l m) end.

Definition net_recv (s : net) (fd buf len flags : Z) : Z * net :=
  if len <? 0 then (-1, with_errno 22 s) else
  let l := take (Nat.min (Z.to_nat len) (n_chunk s)) (n_in s) in
  if bool_decide (n_in s = []) && (0 <? len) then (-1, with_errno EWOULDBLOCK s) else
  (Z.of_nat (length l),
   mk_net (n_errno s) (n_room s) (n_sent s) (store buf l (n_mem s)) (drop (length l) (n_in s)) (n_chunk s) (n_taken s)).

#[export] Instance net_sockets : SystemSockets net := {|
  errno := n_errno;
  sys_send := net_send;
  sys_sendto s fd buf len flags to tolen := net_send s fd buf len flags;
  sys_recv := net_recv;
  sys_recvfrom s fd buf len flags from fromlen := net_recv s fd buf len flags;
  sys_read s fd buf len := net_recv s fd buf len 0;
  sys_accept s fd addr addrlen := (-1, with_errno 24 s);
  sys_connect s fd addr addrlen := (0, s);
  sys_getsockname s fd addr addrlen := (0, s);
  sys_getsockopt s fd o := (0, match o with SO_TYPE => SOCK_STREAM | SO_ERROR => 0 end, s);
  sys_close s fd := (0, s);
  sys_getfl s fd := (0, s);
  sys_setfl s fd flags := (0, s);
  sys_select s n r w x t := (1, r, w, x, s);
  pj_gettickcount s := (mk_time_val 1000 0, s)
|}.

(** ** The laws of the system *)

Lemma net_recv_bound s fd buf len flags n s' : net_recv s fd buf len flags = (n, s') -> 0 <= len ->
  n <= len /\ (n < 0 -> 0 < n_errno s').
Proof.
  unfold net_recv. intros E Hl. destruct (Z.ltb_spec len 0); [lia|]. destruct (_ && _); injection E as <- <-.
  - split; [lia|done].
  - split; [|lia]. rewrite length_take. lia.
Qed.

#[export] Instance net_recv_laws : RecvLaws net.
Proof. split; simpl; [apply net_recv_bound|]. intros s fd buf len flags from fromlen. apply net_recv_bound. Qed.

Lemma store_lookup l : forall p m q, store p l m !! q =
  (if bool_decide (p <= q < p + Z.of_nat (length l)) then l !! Z.to_nat (q - p) else m !! q).
Proof.
  induction l as [|b l IH]; intros p m q; cbn [store length].
  { rewrite bool_decide_eq_false_2 by lia. done. }
  destruct (decide (q = p)) as [->|Hne].
  - rewrite lookup_insert_eq, bool_decide_eq_true_2, Z.sub_diag by lia. done.
  - rewrite lookup_insert_ne, IH by done. destruct (decide (p <= q)).
    + replace (Z.to_nat (q - p)) with (S (Z.to_nat (q - (p + 1)))) by lia. cbn [lookup list_lookup].
      repeat case_bool_decide; try done; lia.
    + rewrite !bool_decide_eq_false_2 by lia. done.
Qed.

Lemma store_bytes l p m : map (fun q => default 0 (store p l m !! q)) (seqZ p (Z.of_nat (length l))) = l.
Proof.
  apply list_eq. intros i. change @map with @list_fmap. rewrite list_lookup_fmap.
  destruct (decide (i < length l)%nat) as [Hi|Hi].
  - rewrite lookup_seqZ_lt by lia. simpl. rewrite store_lookup, bool_decide_eq_true_2 by lia.
    replace (Z.to_nat (p + Z.of_nat i - p)) with i by lia. destruct (lookup_lt_is_Some_2 l i Hi) as [b ->]. done.
  - rewrite lookup_seqZ_ge by lia. symmetry. apply lookup_ge_None. lia.
Qed.

#[export] Program Instance net_stream : RecvStream net := {|
  mem s p := default 0 (n_mem s !! p);
  incoming s fd := n_in s;
  taken := n_taken
|}.
Next Obligation.
  intros s fd buf len n s' E Hl. simpl in *. destruct (net_recv_bound _ _ _ _ _ _ _ E Hl) as [H1 H2].
  split; [done|]. split; [done|]. unfold net_recv in E. destruct (Z.ltb_spec len 0); [lia|].
  destruct (_ && _); injection E as <- <-; [done|]. simpl. set (l := take _ _).
  rewrite store_bytes. split_and!; [|done|].
  - unfold l. rewrite length_take. set (j := Nat.min _ _). rewrite <-(take_drop j (n_in s)) at 1. f_equal.
    destruct (decide (j <= length (n_in s))%nat); [by rewrite Nat.min_l|].
    rewrite Nat.min_r, !drop_ge by lia. done.
  - intros q Hq. rewrite store_lookup, bool_decide_eq_false_2 by lia. done.
Qed.

#[export] Program Instance net_send_laws : StreamLaws net := {|
  sent s fd := map snd (filter (fun p => fst p = fd) (n_sent s))
|}.
Next Obligation.
  intros s fd buf len flags n s' E Hl. simpl in *. unfold net_send in E. destruct (Z.ltb_spec len 0); [lia|].
  destruct (n_room s) as [|r rest]; injection E as <- <-; simpl.
  - split; [lia|]. by rewrite app_nil_r.
  - split; [lia|]. by rewrite filter_app, map_app, filter_pairs.
Qed.
Next Obligation.
  intros s fd buf len flags n s' E Hn. simpl in *. unfold net_send in E. destruct (Z.ltb_spec len 0).
  - by injection E as <- <-.
  - destruct (n_room s) as [|r rest]; injection E as <- <-; simpl; [done|lia].
Qed.

#[export] Instance net_progress : SendProgress net.
Proof.
  split. intros s fd buf len flags n s' E Hn. simpl in *. unfold net_send in E. destruct (Z.ltb_spec len 0); [lia|].
  destruct (n_room s) as [|r rest]; injection E as <- <-; lia.
Qed.

(** ** An application

    It takes at most two bytes at a time, and moves the others to the front. *)
Definition two_at_a_time (c : user_call) (w : world (env net)) : option (bool * Z * world (env net)) :=
  match c with
  | OnDataRead a data size st =>
      let s := e_sys (w_sys w) in
      let l := bytes_at s data size in
      let s' := mk_net (n_errno s) (n_room s) (n_sent s) (store data (drop 2 l) (n_mem s)) (n_in s) (n_chunk s)
                  (n_taken s ++ take 2 l) in
      Some (true, Z.of_nat (length (drop 2 l)), upd_env w (set_e_sys s'))
  | _ => Some (true, 0, w)
  end.

Lemma bytes_at_size (s : net) p n : 0 <= n -> Z.of_nat (length (bytes_at s p n)) = n.
Proof. intros. unfold bytes_at. rewrite length_map, length_seqZ. lia. Qed.

Lemma two_reads this held h a o pkt max : 0 <= max < 2 ^ 31 -> UserReads this two_at_a_time held h a o pkt max.
Proof.
  intros Hmax c w x r Hr Hc. pose proof (rd_size _ _ _ _ _ _ _ _ _ _ Hr) as Hsz.
  destruct c; try done; simpl.
  - destruct Hc as (-> & -> & ->). do 3 eexists. split; [done|].
    pose proof (bytes_at_size (e_sys (w_sys w)) pkt (r_size r)). rewrite length_drop. split; [lia|].
    split; [apply (rd_asked _ _ _ _ _ _ _ _ _ _ Hr)|]. intros _. exists x.
    eapply reading_env; [exact Hr|done..|apply (rd_asked _ _ _ _ _ _ _ _ _ _ Hr)].
  - eexists _, _, w. split; [done|]. split; [done|]. split; [apply (rd_asked _ _ _ _ _ _ _ _ _ _ Hr)|by eauto].
Qed.

Lemma two_stream this held h a o pkt max fd : 0 <= max < 2 ^ 31 ->
  StreamReader this two_at_a_time held h a o pkt max fd.
Proof.
  intros Hmax st x r k w Hi. pose proof Hi as (Hs & _). destruct (st_buf _ _ _ _ _ _ _ _ _ _ _ _ Hs) as (_ & _ & Hsz).
  do 3 eexists. split; [done|]. cbv beta iota. set (l := bytes_at _ _ _).
  assert (Hl : Z.of_nat (length l) = r_size r) by (apply bytes_at_size; lia). split_and!.
  - lia.
  - rewrite length_drop. lia.
  - exists x, k. by apply idle_sys.
  - done.
  - unfold bytes_at at 1. simpl. rewrite store_bytes, <-app_assoc. by rewrite take_drop.
Qed.

Lemma two_sent this held a o : SentUser this two_at_a_time held a o.
Proof. intros n w Hi Hq. simpl. eexists _, _, w. split; [done|]. split; [by apply keeps_refl|done]. Qed.

(** ** The active socket at 900, with the key 100 *)

Definition as_key (reads writes : list Z) : pj_ioqueue_key_t :=
  mk_key 5 1 None false false 900 (mk_cb true true true true) false reads writes [] [] [] None None 1 (mk_time_val 0 0).

Definition as_sock (ty : read_type) (sd : send_data) : pj_activesock_t :=
  mk_activesock (Some 100) true true 0 1 0 PJ_ACTIVESOCK_MAX_LOOP (mk_activesock_cb true true true true true true)
    0 0 sd (match ty with TYPE_NONE => None | _ => Some 200 end) 0 ty None.

Definition as_env (x : pj_activesock_t) (r : read_op) (sending : gmap Z Z) (s : net) : env net :=
  mk_env s {[900 := x]} {[200 := r]} sending [] [].

(** Ten bytes to come, four at a time, into a buffer of eight at 5000. *)
Definition ten_bytes : net := mk_net 0 [6; 3] [] ∅ (seqZ 1 10) 4 [].

Definition read_env : env net := as_env (as_sock TYPE_RECV zero_send_data) (mk_read_op 5000 8 0) ∅ ten_bytes.

Definition idle_world : world (env net) := one (as_key [] []) {[200 := idle_op]} ∅ ∅ ∅ read_env.
Definition armed_world : world (env net) := one (as_key [200] []) {[200 := recv_op_of 5000 8]} {[5]} ∅ ∅ read_env.

Lemma idle_world_inv : ioq_inv (fun _ => 0) idle_world.
Proof. apply one_inv; try done. by intros o ?%elem_of_nil. Qed.

Lemma armed_world_inv : ioq_inv (fun _ => 0) armed_world.
Proof. apply one_inv; try done. intros o. unfold op_lists. simpl. intros ->%list_elem_of_singleton. by eexists. Qed.

Lemma idle_world_reading : reading 1 (fun _ => 0) 100 900 200 5000 8 (as_sock TYPE_RECV zero_send_data) (mk_read_op 5000 8 0) idle_world.
Proof.
  split; try done; first [by left|apply idle_world_inv|apply one_quiet|by eexists|by apply Forall_nil|simpl; lia].
Qed.

Lemma armed_world_armed : armed 1 (fun _ => 0) 100 900 200 5000 8 5 (as_sock TYPE_RECV zero_send_data) (mk_read_op 5000 8 0)
  (as_key [200] []) armed_world.
Proof.
  split; [|split; [done|by eexists]]. split; try done; first [split; [by left|done]|apply armed_world_inv|apply one_quiet|simpl; lia].
Qed.

Lemma on_read_complete_contained_witness : exists w',
  ioqueue_on_read_complete 1 two_at_a_time idle_world 100 200 0 = Some w' /\ Forall (in_buffer 200 5000 8) (e_asked (w_sys w')).
Proof.
  apply (on_read_complete_contained (H0 := two_reads 1 (fun _ => 0) 100 900 200 5000 8 ltac:(lia)) 1 two_at_a_time
    (fun _ => 0) 100 900 200 5000 8) with (x := as_sock TYPE_RECV zero_send_data) (r := mk_read_op 5000 8 0);
    [lia|lia|exact idle_world_reading|done|simpl; lia].
Defined.

Lemma recv_in_order_witness : exists w',
  ioqueue_dispatch_read_event 1 (activesock_app 1 two_at_a_time id 1) 1 armed_world 100 = Some (true, w') /\
  waiting_again 1 (fun _ => 0) 100 900 200 5000 8 5 (seqZ 1 10) w'.
Proof.
  exact (recv_in_order 1 two_at_a_time id (fun _ => 0) 100 900 200 5000 8 5
    (H0 := two_stream 1 (fun _ => 0) 100 900 200 5000 8 5 ltac:(lia)) ltac:(lia) ltac:(lia)
    1 _ _ _ _ armed_world_armed eq_refl ltac:(lia)).
Defined.

(** ** Sending *)

(** The system takes six bytes, then three. *)
Definition send_world : world (env net) :=
  one (as_key [] []) {[201 := idle_op]} ∅ ∅ ∅
    (as_env (as_sock TYPE_NONE zero_send_data) (mk_read_op 0 0 0) ∅ ten_bytes).

Lemma send_world_stream : stream_state 1 100 (fun _ => 0) (as_key [] []) send_world.
Proof.
  split; try done.
  - apply one_inv; try done. by intros o ?%elem_of_nil.
  - split; [by left|done].
  - apply NoDup_nil_2.
  - by intros o ?%elem_of_nil.
Qed.

Lemma whole_send_witness : exists st n w' k' m,
  pj_activesock_send 1 id 20 send_world 900 201 2000 20 0 = Some (st, n, w') /\
  stream_state 1 100 (fun _ => 0) k' w' /\ k_fd k' = 5 /\ 0 <= m <= 20 /\
  sent (w_sys w') 5 ++ unsent w' k' = sent (w_sys send_world) 5 ++ unsent send_world (as_key [] []) ++ seqZ 2000 m /\
  (st = PJ_SUCCESS \/ st = PJ_EPENDING -> m = 20) /\ (st = PJ_SUCCESS -> n = 20).
Proof.
  apply (whole_send 1 (fun _ => 0) 100 900 201 (as_key [] []) send_world (as_sock TYPE_NONE zero_send_data) 2000 20 0 20);
    try done. exact send_world_stream.
Defined.

(** Four of the ten bytes at 1000 have gone out, the other six are pending. *)
Definition rest_sock : pj_activesock_t := as_sock TYPE_NONE (mk_send_data 1000 10 4 0).

Definition rest_key : pj_ioqueue_key_t := set_k_ref 2 (as_key [] [201]).

Definition rest_world : world (env net) :=
  one rest_key {[201 := send_op_of 1004 6; 202 := idle_op]} ∅ {[5]} ∅
    (as_env rest_sock (mk_read_op 0 0 0) {[201 := 900]} ten_bytes).

Lemma rest_world_stream : stream_state 1 100 (holding 1) rest_key rest_world.
Proof.
  split; try done.
  - apply one_inv_held; try done. intros o. unfold op_lists. simpl. intros ->%list_elem_of_singleton. by eexists.
  - split; [by left|done].
  - apply NoDup_singleton.
  - intros o ->%list_elem_of_singleton. by eexists.
Qed.

Lemma whole_sent_told_witness : exists w',
  ioqueue_dispatch_write_event 1 (activesock_app 1 two_at_a_time id 1) 1 rest_world 100 = Some (true, w') /\
  (e_told (w_sys w') = e_told (w_sys rest_world) /\
     (exists r', sending_rest 1 (holding 1) 100 900 201 1000 10 4 0 rest_sock rest_key r' w') \/
   told_now 900 201 10 rest_world w' /\ sent (w_sys w') 5 = sent (w_sys rest_world) 5 ++ left_of rest_world 201 \/
   exists st, 0 < st /\ told_now 900 201 (- st) rest_world w').
Proof.
  apply (whole_sent_told 1 two_at_a_time (holding 1) 100 900 201 (H0 := two_sent 1 (holding 1) 900 201)
    1000 10 4 0 rest_sock rest_key (send_op_of 1004 6) rest_world 1); [|lia].
  split; try done. apply rest_world_stream.
Defined.

(** The rest of a send shares one record with the next send of the socket:
    between the end of the pending part, in the thread that polls, and its
    callback, which runs without the lock of the key, another thread can start a
    second send.  The callback then takes what is left of the second send for
    its own: the end of the second send is put into the queue twice, and the
    application is not told that the first has been sent. *)
Theorem send_data_shared : exists w1 w2 w3 k3,
  write_begin 1 rest_world 100 = Some (w1, Written 201) /\
  pj_activesock_send 2 id 20 w1 900 202 2000 20 0 = Some (PJ_EPENDING, 3, w2) /\
  o_written <$> w_ops w2 !! 201 = Some 6 /\
  ioqueue_on_write_complete 1 two_at_a_time id 20 w2 100 201 6 = Some w3 /\
  w_keys w3 !! 100 = Some k3 /\ unsent w3 k3 = seqZ 2003 17 ++ seqZ 2009 11 /\ e_told (w_sys w3) = [].
Proof.
  do 4 eexists. split; [vm_compute; reflexivity|]. split; [vm_compute; reflexivity|]. split; [vm_compute; reflexivity|].
  split; [vm_compute; reflexivity|]. split; [vm_compute; reflexivity|]. split; vm_compute; reflexivity.
Qed.

(** ** A buffer that is full *)

(** An application that waits for more, and leaves everything in the buffer. *)
Definition leaves_all (c : user_call) (w : world (env net)) : option (bool * Z * world (env net)) :=
  match c with OnDataRead _ _ size _ => Some (true, size, w) | _ => Some (true, 0, w) end.

(** When the application leaves a full buffer, the next read asks for no
    bytes; the zero it returns is taken for the end of the stream, and reported
    as such in every turn of the loop that is left, although the peer has not
    closed and bytes are still to come. *)
Theorem full_buffer_is_eof : exists w',
  ioqueue_dispatch_read_event 1 (activesock_app 1 leaves_all id 1) 1 armed_world 100 = Some (true, w') /\
  e_told (w_sys w') = repeat (OnDataRead 900 5000 8 PJ_EEOF) 48 ++
    [OnDataRead 900 5000 8 PJ_SUCCESS; OnDataRead 900 5000 4 PJ_SUCCESS] /\
  incoming (e_sys (w_sys w')) 5 = [9; 10].
Proof. eexists. split; [vm_compute; reflexivity|]. split; vm_compute; reflexivity. Qed.

(** ** Accepting *)

Definition listen_world : world (env net) :=
  one (as_key [] []) {[200 := idle_op]} ∅ ∅ ∅ (as_env (as_sock TYPE_NONE zero_send_data) (mk_read_op 0 0 0) ∅ ten_bytes).

Lemma accept_gives_up_witness : exists w' x',
  ioqueue_on_accept_complete 1 two_at_a_time 52 listen_world 100 200 (failure 24) = Some w' /\
  sock_at w' 900 = Some x' /\ a_err_counter x' = PJ_ACTIVESOCK_MAX_CONSECUTIVE_ACCEPT_ERROR /\
  live_key w' 100 (as_key [] []) /\ k_accept (as_key [] []) = [] /\ e_told (w_sys w') = e_told (w_sys listen_world).
Proof.
  apply (accept_gives_up 1 two_at_a_time (fun _ => 0) 100 900 200 5 24) with (x := as_sock TYPE_NONE zero_send_data);
    [intros s addr len; by eexists|done|done| |lia].
  split; try done; [|split; [by left|done]|by eexists].
  apply one_inv; try done. by intros o ?%elem_of_nil.
Defined.

(** ** The life of an active socket

    The socket 7 is registered, reads three pieces, sends in parts, and is closed
    while the rest of the send is pending: the rest is reported as cancelled. *)

Definition empty_world : world (env net) :=
  mk_world {[100 := idle_key; 101 := idle_key]} {[201 := idle_op]}
    (mk_ioqueue 2 0 0 [] [] [100; 101] (mkset ∅) (mkset ∅) (mkset ∅) true) ∅ ∅ ∅ ∅ []
    (mk_env (mk_net 0 [6; 3] [] ∅ (seqZ 1 10) 4 []) ∅ ∅ ∅ [] []).

Definition life : option (list Z * list user_call * option Z * bool) :=
  '(st1, _, w) ← pj_activesock_create 1 two_at_a_time id 5 empty_world 900 7 1 (Some pj_activesock_cfg_default)
    (mk_activesock_cb true true true true true true) 0;
  '(st2, w) ← pj_activesock_start_read 1 w 900 600 8 [5000] 0;
  '(_, w) ← ioqueue_dispatch_read_event 1 (activesock_app 1 two_at_a_time id 5) 5 w 100;
  '(st3, _, w) ← pj_activesock_send 1 id 20 w 900 201 2000 20 0;
  '(st4, w) ← pj_activesock_close 1 two_at_a_time id 5 w 900;
  '(st5, _, w) ← pj_activesock_send 1 id 20 w 900 201 2000 20 0;
  '(st6, w) ← pj_activesock_close 1 two_at_a_time id 5 w 900;
  x ← sock_at w 900;
  k ← w_keys w !! 100;
  Some ([st1; st2; st3; st4; st5; st6], e_told (w_sys w), a_key x, k_closing k).

Example life_of_a_socket : life = Some (
  [PJ_SUCCESS; PJ_SUCCESS; PJ_EPENDING; PJ_SUCCESS; PJ_EINVALIDOP; PJ_SUCCESS],
  [OnDataSent 900 201 (- PJ_ECANCELLED); OnDataRead 900 5000 6 PJ_SUCCESS; OnDataRead 900 5000 6 PJ_SUCCESS;
   OnDataRead 900 5000 4 PJ_SUCCESS], None, true).
Proof. vm_compute. reflexivity. Qed.
