(* ===== verification/SockAddr.v ===== *)
(** * Socket addresses

    The socket addresses of [pjlib/include/pj/sock.h] and the operations on
    them of [pjlib/src/pj/sock_common.c], with the conversions of
    [pjlib/src/pj/sock_bsd.c] they use.  A [pj_sockaddr] is the union of the
    IPv4 and the IPv6 address: the 28 bytes both overlay,

      - 0-1 the address family, in the byte order of the processor;
      - 2-3 the port, in network byte order, in both;
      - 4-7 [sin_addr], or [sin6_flowinfo];
      - 8-15 [sin_zero_pad], 8-23 [sin6_addr], 24-27 [sin6_scope_id].

    Reading or writing past the bytes an address has is undefined.  Strings are
    as in [PjString]; the text functions of the system are a class. *)
From S2P Require Import Prelude Bytes Hash PjString SockBsd.

Definition PJ_ENAMETOOLONG : Z := PJ_ERRNO_START_STATUS + 5.
Definition PJ_ERESOLVE : Z := PJ_ERRNO_START_STATUS + 18.
Definition PJ_EIPV6NOTSUP : Z := PJ_ERRNO_START_STATUS + 21.
Definition PJ_EAFNOTSUP : Z := PJ_ERRNO_START_STATUS + 22.

Definition PJ_INADDR_ANY : Z := 0.
Definition PJ_INADDR_NONE : Z := 0xFFFFFFFF.
Definition PJ_INET_ADDRSTRLEN : Z := 16.
Definition PJ_INET6_ADDRSTRLEN : Z := 46.
Definition PJ_MAX_HOSTNAME : Z := 254.

(** The address families of the system, and whether the library is built with
    IPv6. *)
Class AddressConstants := {
  PJ_AF_UNSPEC : Z;
  PJ_AF_INET : Z;
  PJ_AF_INET6 : Z;
  (** [sizeof(struct sockaddr_in)]. *)
  sizeof_native_sockaddr_in : Z;
  PJ_HAS_IPV6 : bool
}.

(** One answer of [getaddrinfo]. *)
Record addrinfo := mk_addrinfo {
  ai_family : Z;
  ai_socktype : Z;
  (** A C string, if there is one. *)
  ai_canonname_ptr : option (list Z);
  ai_addrlen : Z;
  ai_addr_ptr : list Z
}.

(** The text functions and the resolver of the system.  Their strings are C
    strings, given without the terminator. *)
Class SystemAddresses (S : Type) := {
  inet_addr : list Z -> Z;
  (** What is stored when it returns 1. *)
  inet_pton : S -> Z -> list Z -> option (list Z) * S;
  (** The text, which fits with its terminator into the size given. *)
  inet_ntop : S -> Z -> list Z -> Z -> option (list Z) * S;
  (** For a name, a family, a socket type and whether the canonical name is
      asked for: the result and the list of answers. *)
  getaddrinfo : S -> list Z -> Z -> Z -> bool -> Z * list addrinfo * S
}.

(** ** Byte order

    The processor is little-endian. *)

Definition pj_ntohs (netshort : Z) : Z := Z.lor (Z.shiftl (Z.land netshort 255) 8) (Z.shiftr netshort 8).
Definition pj_htons (hostshort : Z) : Z := pj_ntohs hostshort.

Definition pj_ntohl (netlong : Z) : Z :=
  Z.lor (Z.lor (Z.shiftl (Z.land netlong 255) 24) (Z.shiftl (Z.land (Z.shiftr netlong 8) 255) 16))
        (Z.lor (Z.shiftl (Z.land (Z.shiftr netlong 16) 255) 8) (Z.shiftr netlong 24)).
Definition pj_htonl (hostlong : Z) : Z := pj_ntohl hostlong.

(** ** Formatting *)

(** ["%d"] of a number that is not negative. *)
Definition fmt_d (n : Z) : option (list Z) := ds ← utoa_digits 20 n; Some (rev ds).

(** What [snprintf] leaves in a buffer of [size] bytes, terminator included. *)
Definition snprintf (size : Z) (txt : list Z) : option (list Z) :=
  if size <? 0 then None
  else if size =? 0 then Some []
  else Some (take (Z.to_nat (size - 1)) txt ++ [0]).

Section Addresses.
Context `{!AddressConstants}.
Implicit Types (a : list Z).

Definition is_inet (af : Z) : bool := (af =? PJ_AF_INET) || (af =? PJ_AF_INET6).

(** ** The fields *)

Definition sa_family a : option Z := of_le <$> bytes_at a 0 2.
Definition set_family a (af : Z) : option (list Z) := write_at a 0 (to_le 2 af).

(** The value of [sin_port] and of [sin6_port]. *)
Definition sin_port a : option Z := of_le <$> bytes_at a 2 2.
Definition set_sin_port a (netport : Z) : option (list Z) := write_at a 2 (to_le 2 netport).

(** The value of [sin_addr.s_addr]. *)
Definition s_addr a : option Z := of_le <$> bytes_at a 4 4.
Definition set_s_addr a (v : Z) : option (list Z) := write_at a 4 (to_le 4 v).

Definition sin6_addr a : option (list Z) := bytes_at a 8 16.

(** [pj_bzero(addr->sin_zero_pad, ..)]. *)
Definition zero_pad a : option (list Z) := write_at a 8 (replicate 8 0).

Definition sizeof_in_addr : Z := 4.
Definition sizeof_in6_addr : Z := 16.
Definition sizeof_sockaddr_in : Z := 16.
Definition sizeof_sockaddr_in6 : Z := 28.
Definition sizeof_sockaddr : Z := 28.

(** The offset of the address part, 0 for [NULL]. *)
Definition pj_sockaddr_get_addr a : option Z :=
  af ← sa_family a;
  if negb (is_inet af) then Some 0
  else if af =? PJ_AF_INET6 then Some 8
  else Some 4.

Definition pj_sockaddr_get_addr_len a : option Z :=
  af ← sa_family a;
  if negb (is_inet af) then Some 0
  else if af =? PJ_AF_INET6 then Some sizeof_in6_addr
  else Some sizeof_in_addr.

Definition pj_sockaddr_get_len a : option Z :=
  af ← sa_family a;
  if negb (is_inet af) then Some 0
  else if af =? PJ_AF_INET6 then Some sizeof_sockaddr_in6
  else Some sizeof_sockaddr_in.

Definition pj_sockaddr_get_port a : option Z :=
  af ← sa_family a;
  if negb (is_inet af) then Some 0xFFFF
  else p ← sin_port a; Some (pj_ntohs p).

Definition pj_sockaddr_in_get_port a : option Z := p ← sin_port a; Some (pj_ntohs p).

Definition pj_sockaddr_in_set_port a (hostport : Z) : option (list Z) := set_sin_port a (pj_htons hostport).

Definition pj_sockaddr_set_port a (hostport : Z) : option (Z * list Z) :=
  af ← sa_family a;
  if negb (is_inet af) then Some (PJ_EINVAL, a)
  else a ← set_sin_port a (pj_htons hostport); Some (PJ_SUCCESS, a).

Definition pj_sockaddr_in_get_addr a : option Z := v ← s_addr a; Some (pj_ntohl v).
Definition pj_sockaddr_in_set_addr a (hostaddr : Z) : option (list Z) := set_s_addr a (pj_htonl hostaddr).

Definition pj_sockaddr_has_addr a : option bool :=
  af ← sa_family a;
  if negb (is_inet af) then Some false
  else if af =? PJ_AF_INET6 then
    x ← sin6_addr a; Some (negb (memcmp x (replicate 24 0) 16 =? 0))
  else v ← s_addr a; Some (negb (v =? PJ_INADDR_ANY)).

(** [memcpy] of [n] bytes at the same offset. *)
Definition copy_bytes (dst src : list Z) (off n : Z) : option (list Z) :=
  bs ← bytes_at src off n; write_at dst off bs.

Definition pj_sockaddr_copy_addr (dst src : list Z) : option (list Z) :=
  off ← pj_sockaddr_get_addr src;
  n ← pj_sockaddr_get_addr_len src;
  copy_bytes dst src off n.

Definition pj_sockaddr_cp (dst src : list Z) : option (list Z) :=
  n ← pj_sockaddr_get_len src;
  copy_bytes dst src 0 n.

(** ** Comparison

    Of the result of [memcmp] only the sign is specified. *)
Definition pj_sockaddr_cmp (a1 a2 : list Z) : option Z :=
  f1 ← sa_family a1;
  f2 ← sa_family a2;
  if f1 <? f2 then Some (-1)
  else if f2 <? f1 then Some 1
  else
    o1 ← pj_sockaddr_get_addr a1;
    o2 ← pj_sockaddr_get_addr a2;
    n ← pj_sockaddr_get_addr_len a1;
    b1 ← bytes_at a1 o1 n;
    b2 ← bytes_at a2 o2 n;
    let result := memcmp b1 b2 (Z.to_nat n) in
    if negb (result =? 0) then Some result
    else
      port1 ← pj_sockaddr_get_port a1;
      port2 ← pj_sockaddr_get_port a2;
      if port1 <? port2 then Some (-1)
      else if port2 <? port1 then Some 1
      else Some 0.

(** ** Classification *)

Definition PJ_ADDR_TYPE_DISABLED : Z := 1.
Definition PJ_ADDR_TYPE_LOOPBACK : Z := 2.
Definition PJ_ADDR_TYPE_LINK_LOCAL : Z := 4.
Definition PJ_ADDR_TYPE_PRIVATE : Z := 8.
Definition PJ_ADDR_TYPE_MULTICAST : Z := 16.

Definition asked (type flag : Z) : bool := negb (Z.land type flag =? 0).

Definition check_ipv4 (a type : Z) : bool :=
  (asked type PJ_ADDR_TYPE_DISABLED && (Z.land a 0xFF000000 =? 0x00000000))
  || (asked type PJ_ADDR_TYPE_LOOPBACK && (Z.land a 0xFF000000 =? 0x7f000000))
  || (asked type PJ_ADDR_TYPE_LINK_LOCAL && (Z.land a 0xFFFF0000 =? 0xa9fe0000))
  || (asked type PJ_ADDR_TYPE_PRIVATE &&
      (let b1 := u8 (Z.shiftr a 24) in
       let b2 := u8 (Z.land (Z.shiftr a 16) 0x0ff) in
       (b1 =? 10) || ((b1 =? 172) && (16 <=? b2) && (b2 <=? 31)) || ((b1 =? 192) && (b2 =? 168))))
  || (asked type PJ_ADDR_TYPE_MULTICAST && (Z.land a 0xF0000000 =? 0xE0000000)).

Definition check_ipv6 (x : list Z) (type : Z) : option bool :=
  b0 ← x.[0];
  Some ((asked type PJ_ADDR_TYPE_DISABLED && (memcmp (replicate 16 0) x 16 =? 0))
    || (asked type PJ_ADDR_TYPE_LOOPBACK && (memcmp (replicate 15 0 ++ [1]) x 16 =? 0))
    || (asked type PJ_ADDR_TYPE_LINK_LOCAL && (memcmp (0xfe :: 0x80 :: replicate 14 0) x 8 =? 0))
    || (asked type PJ_ADDR_TYPE_PRIVATE && (Z.land b0 0xfe =? 0xfc))
    || (asked type PJ_ADDR_TYPE_MULTICAST && (b0 =? 0xff))).

(** The result is a [pj_bool_t], an [int]. *)
Definition pj_check_addr_type a (type : Z) : option Z :=
  if type =? 0 then Some PJ_EINVAL else
  af ← sa_family a;
  if negb (is_inet af) then Some PJ_EINVAL
  else
    r ← (if af =? PJ_AF_INET then v ← s_addr a; Some (check_ipv4 (pj_ntohl v) type)
         else x ← sin6_addr a; check_ipv6 x type);
    Some (if (r : bool) then 1 else 0).

(** ** Parsing *)

Fixpoint pj_strchr_loop (str : list Z) (c i : Z) : option Z :=
  match str with
  | [] => None
  | x :: str => if x =? c then Some i else pj_strchr_loop str c (i + 1)
  end.
Definition pj_strchr (str : list Z) (c : Z) : option Z := pj_strchr_loop str c 0.

(** The number of colons and the offset of the last. *)
Fixpoint scan_colons (str : list Z) (i colon_cnt : Z) (last : option Z) : Z * option Z :=
  match str with
  | [] => (colon_cnt, last)
  | c :: str =>
      if c =? 58 then scan_colons str (i + 1) (colon_cnt + 1) (Some i)
      else scan_colons str (i + 1) colon_cnt last
  end.

(** The port, if all is digits and the value is at most 65535. *)
Definition parse_port (port_part : list Z) : option Z :=
  if negb (forallb pj_isdigit port_part) then None
  else let port := pj_strtoul port_part in
       if 65535 <? port then None else Some port.

(** The status, and what is stored in the host part, the port and the family. *)
Record parsed := mk_parsed { p_status : Z; p_hostpart : option (list Z); p_port : option Z; p_raf : option Z }.

Definition parse_ipv4 (str : list Z) (last_colon_pos : option Z) : parsed :=
  match last_colon_pos with
  | Some c =>
      match parse_port (drop (Z.to_nat (c + 1)) str) with
      | None => mk_parsed PJ_EINVAL None None (Some PJ_AF_INET)
      | Some port => mk_parsed PJ_SUCCESS (Some (take (Z.to_nat c) str)) (Some port) (Some PJ_AF_INET)
      end
  | None => mk_parsed PJ_SUCCESS (Some str) (Some 0) (Some PJ_AF_INET)
  end.

Definition parse_ipv6 (str : list Z) (last_colon_pos : option Z) : parsed :=
  if bool_decide (head str = Some 91) then
    match last_colon_pos, pj_strchr str 93 with
    | None, _ | _, None => mk_parsed PJ_EINVAL None None (Some PJ_AF_INET6)
    | Some c, Some end_bracket =>
        let hostpart := take (Z.to_nat (end_bracket - 1)) (drop 1 str) in
        let port_part := if c <? end_bracket then [] else drop (Z.to_nat (c + 1)) str in
        match parse_port port_part with
        | None => mk_parsed PJ_EINVAL None None (Some PJ_AF_INET6)
        | Some port => mk_parsed PJ_SUCCESS (Some hostpart) (Some port) (Some PJ_AF_INET6)
        end
    end
  else mk_parsed PJ_SUCCESS (Some str) (Some 0) (Some PJ_AF_INET6).

Definition pj_sockaddr_parse2 (af options : Z) (str : list Z) : parsed :=
  if negb ((is_inet af || (af =? PJ_AF_UNSPEC)) && (options =? 0)) then mk_parsed PJ_EINVAL None None None
  else match str with
  | [] => mk_parsed PJ_SUCCESS (Some []) (Some 0) (Some PJ_AF_INET)
  | _ =>
      let '(colon_cnt, last_colon_pos) := scan_colons str 0 0 None in
      match
        (if af =? PJ_AF_UNSPEC then Some (if 1 <? colon_cnt then PJ_AF_INET6 else PJ_AF_INET)
         else if (af =? PJ_AF_INET) && (1 <? colon_cnt) then None
         else Some af)
      with
      | None => mk_parsed PJ_EINVAL None None None
      | Some af =>
          if af =? PJ_AF_INET then parse_ipv4 str last_colon_pos
          else if af =? PJ_AF_INET6 then parse_ipv6 str last_colon_pos
          else mk_parsed PJ_EAFNOTSUP None None (Some af)
      end
  end.
End Addresses.

(** ** Text *)

Section Text.
Context `{!AddressConstants} {S : Type} `{!SystemSockets S} `{!SystemAddresses S}.
Implicit Types (s : S) (a : list Z).

(** The result and what is stored. *)
Definition pj_inet_aton (cp : list Z) : Z * Z :=
  match cp with
  | [] => (0, PJ_INADDR_NONE)
  | _ =>
      if PJ_INET_ADDRSTRLEN <=? Z.of_nat (length cp) then (0, PJ_INADDR_NONE)
      else let v := inet_addr (c_chars cp) in (if v =? PJ_INADDR_NONE then 0 else 1, v)
  end.

Definition pj_inet_addr (cp : list Z) : Z := (pj_inet_aton cp).2.

(** The status, and what is stored. *)
Definition pj_inet_pton s (af : Z) (src : list Z) : Z * option (list Z) * S :=
  if negb (is_inet af) then (PJ_EAFNOTSUP, None, s)
  else match src with
  | [] => (PJ_EINVAL, None, s)
  | _ =>
      let none := if af =? PJ_AF_INET then Some (to_le 4 PJ_INADDR_NONE) else None in
      if PJ_INET6_ADDRSTRLEN <=? Z.of_nat (length src) then (PJ_ENAMETOOLONG, none, s)
      else match inet_pton s af (c_chars src) with
      | (Some bs, s) => (PJ_SUCCESS, Some bs, s)
      | (None, s) =>
          let status := pj_get_netos_error s in
          (if status =? PJ_SUCCESS then PJ_EUNKNOWN else status, none, s)
      end
  end.

(** The status and the text; [None] for a null [src].  [dst] is never null. *)
Definition pj_inet_ntop s (af : Z) (src : option (list Z)) (size : Z) : Z * list Z * S :=
  match src with
  | None => (PJ_EINVAL, [], s)
  | Some src =>
      if size =? 0 then (PJ_EINVAL, [], s)
      else if negb (is_inet af) then (PJ_EAFNOTSUP, [], s)
      else match inet_ntop s af src size with
      | (Some txt, s) => (PJ_SUCCESS, txt, s)
      | (None, s) =>
          let status := pj_get_netos_error s in
          (if status =? PJ_SUCCESS then PJ_EUNKNOWN else status, [], s)
      end
  end.

(** The address part, [None] for [NULL]. *)
Definition addr_part a : option (option (list Z)) :=
  off ← pj_sockaddr_get_addr a;
  if off =? 0 then Some None
  else n ← pj_sockaddr_get_addr_len a; bs ← bytes_at a off n; Some (Some bs).

Definition WITH_PORT (flags : Z) : bool := negb (Z.land flags 1 =? 0).
Definition WITH_BRACKETS (flags : Z) : bool := negb (Z.land flags 2 =? 0).

(** What is left in [buf], terminator included; [None] when the empty literal
    is returned and [buf] is not touched. *)
Definition pj_sockaddr_print s a (size flags : Z) : option (option (list Z) * S) :=
  af ← sa_family a;
  src ← addr_part a;
  let '(status, txt, s) := pj_inet_ntop s af src PJ_INET6_ADDRSTRLEN in
  if negb (status =? PJ_SUCCESS) then Some (None, s)
  else
    let '(bquote, equote) :=
      if negb (af =? PJ_AF_INET6) || negb (WITH_BRACKETS flags) then ([], []) else ([91], [93]) in
    port ← (if WITH_PORT flags then
              p ← pj_sockaddr_get_port a; d ← fmt_d p; snprintf 32 (58 :: d)
            else Some [0]);
    buf ← snprintf size (bquote ++ txt ++ equote ++ c_chars port);
    Some (Some buf, s).

(** What is left in [buf]; the port is an [int] that is not negative. *)
Definition pj_addr_str_print s (host_str : list Z) (port size flag : Z) : option (list Z * S) :=
  let '(status, _, s) := pj_inet_pton s PJ_AF_INET6 host_str in
  let af := if status =? PJ_SUCCESS then PJ_AF_INET6 else PJ_AF_UNSPEC in
  let '(bquote, equote) := if af =? PJ_AF_INET6 then ([91], [93]) else ([], []) in
  tail ← (if WITH_PORT flag then d ← fmt_d port; Some (58 :: d) else Some []);
  buf ← snprintf size (bquote ++ c_chars host_str ++ equote ++ tail);
  Some (buf, s).
End Text.
