(* ===== verification/SockAddrSpec.v ===== *)
(** * Socket addresses are what their fields say

    What the accessors of an address read, that the comparison is a total order
    on the family, the address and the port, and that the classification is the
    one of the documented address ranges. *)
From S2P Require Import Prelude Bytes Hash PjString PjStringSpec SockBsd SockAddr.

(** ** Byte order *)

Lemma lor_add a b n : 0 <= n -> 0 <= b < 2 ^ n -> Z.lor (Z.shiftl a n) b = a * 2 ^ n + b.
Proof.
  intros Hn Hb. assert (Z.land (Z.shiftl a n) b = 0) as E.
  { apply Z.bits_inj'. intros i Hi. rewrite Z.land_spec, Z.bits_0, Z.shiftl_spec by lia.
    destruct (Z.ltb_spec i n); [by rewrite Z.testbit_neg_r by lia|].
    destruct (decide (b = 0)) as [->|]; [by rewrite Z.bits_0, andb_false_r|].
    rewrite (Z.bits_above_log2 b), andb_false_r; [done|lia|].
    apply Z.log2_lt_pow2; [lia|]. apply Z.lt_le_trans with (2 ^ n); [lia|]. apply Z.pow_le_mono_r; lia. }
  rewrite <- Z.lxor_lor, <- Z.add_nocarry_lxor by done. by rewrite Z.shiftl_mul_pow2.
Qed.

Lemma land255 v : Z.land v 255 = v mod 256.
Proof. change 255 with (Z.ones 8). by rewrite Z.land_ones. Qed.

Lemma ntohs_bytes x y : 0 <= x < 256 -> 0 <= y < 256 -> pj_ntohs (of_le [x; y]) = of_le [y; x].
Proof.
  intros Hx Hy. unfold pj_ntohs. simpl. rewrite land255, Z.shiftr_div_pow2 by lia.
  rewrite lor_add; [|lia|]; change (2 ^ 8) with 256; div_lia.
Qed.

Lemma ntohl_bytes x y z w : 0 <= x < 256 -> 0 <= y < 256 -> 0 <= z < 256 -> 0 <= w < 256 ->
  pj_ntohl (of_le [x; y; z; w]) = of_le [w; z; y; x].
Proof.
  intros Hx Hy Hz Hw. unfold pj_ntohl. cbn [of_le]. rewrite !land255, !Z.shiftr_div_pow2 by lia.
  change (2 ^ 8) with 256. change (2 ^ 16) with 65536. change (2 ^ 24) with 16777216.
  set (v := x + _).
  assert (v mod 256 = x) as -> by (unfold v; div_lia).
  assert ((v / 256) mod 256 = y) as -> by (unfold v; div_lia).
  assert ((v / 65536) mod 256 = z) as -> by (unfold v; div_lia).
  assert (v / 16777216 = w) as -> by (unfold v; div_lia).
  rewrite <- Z.lor_assoc, (lor_add z w), (lor_add y), (lor_add x); try lia;
    change (2 ^ 8) with 256; change (2 ^ 16) with 65536; change (2 ^ 24) with 16777216; lia.
Qed.

(** ** Well-formed addresses *)

(** The families of the system are different 16-bit numbers. *)
Class FamilyLaws `{!AddressConstants} : Prop := {
  inet_inet6 : PJ_AF_INET <> PJ_AF_INET6;
  inet_unspec : PJ_AF_INET <> PJ_AF_UNSPEC;
  inet6_unspec : PJ_AF_INET6 <> PJ_AF_UNSPEC;
  inet_width : 0 <= PJ_AF_INET < 2 ^ 16;
  inet6_width : 0 <= PJ_AF_INET6 < 2 ^ 16
}.

Section Spec.
Context `{AC : !AddressConstants} `{FL : !FamilyLaws}.
Implicit Types (a b c : list Z).

Definition family_of a : Z := of_le (take 2 a).
(** The port, in the byte order of the processor. *)
Definition port_of a : Z := of_le (rev (take 2 (drop 2 a))).
Definition addr_of a : list Z :=
  if family_of a =? PJ_AF_INET6 then take 16 (drop 8 a) else take 4 (drop 4 a).

(** An address that has been set: the bytes reach to the end of the address. *)
Definition sockaddr_ok a : Prop :=
  octets a /\ is_inet (family_of a) = true /\
  (if family_of a =? PJ_AF_INET6 then (24 <= length a)%nat else (8 <= length a)%nat).

Lemma ok_length a : sockaddr_ok a -> (8 <= length a)%nat.
Proof. intros (_ & _ & Hl). destruct (_ =? _); lia. Qed.

Lemma sa_family_of a : (2 <= length a)%nat -> sa_family a = Some (family_of a).
Proof. intros L. unfold sa_family. by rewrite bytes_at_in by lia. Qed.

Lemma ntohs_rev l : octets l -> length l = 2%nat -> pj_ntohs (of_le l) = of_le (rev l).
Proof.
  destruct l as [|x [|y [|]]]; try done. intros Ho _. inversion_clear Ho as [|?? Hx H2].
  inversion_clear H2 as [|?? Hy _]. simpl rev. by apply ntohs_bytes.
Qed.

Lemma octets_field a n k : octets a -> octets (take k (drop n a)).
Proof. intros. by apply Forall_take, Forall_drop. Qed.

Lemma get_port_of a : sockaddr_ok a -> pj_sockaddr_get_port a = Some (port_of a).
Proof.
  intros Ha. pose proof (ok_length a Ha). destruct Ha as (Ho & Hf & _). unfold pj_sockaddr_get_port.
  rewrite sa_family_of by lia. bind_step. rewrite Hf. simpl negb. cbv iota. unfold sin_port.
  rewrite bytes_at_in by lia. simpl. f_equal.
  apply ntohs_rev; [by apply octets_field|]. rewrite length_take, length_drop. lia.
Qed.

Lemma get_addr_of a : sockaddr_ok a -> exists off n,
  pj_sockaddr_get_addr a = Some off /\ pj_sockaddr_get_addr_len a = Some n /\ off <> 0 /\
  (family_of a = PJ_AF_INET6 /\ off = 8 /\ n = 16 \/ family_of a <> PJ_AF_INET6 /\ off = 4 /\ n = 4) /\
  bytes_at a off n = Some (addr_of a).
Proof.
  intros Ha. pose proof (ok_length a Ha). destruct Ha as (Ho & Hf & Hl).
  unfold pj_sockaddr_get_addr, pj_sockaddr_get_addr_len, addr_of.
  rewrite sa_family_of by lia. do 2 bind_step. rewrite Hf. simpl negb. cbv iota.
  destruct (Z.eqb_spec (family_of a) PJ_AF_INET6).
  - exists 8, 16. split_and!; [done..|lia|tauto|]. by rewrite bytes_at_in by lia.
  - exists 4, 4. split_and!; [done..|lia|tauto|]. by rewrite bytes_at_in by lia.
Qed.

Lemma addr_part_of a : sockaddr_ok a -> addr_part a = Some (Some (addr_of a)).
Proof.
  intros H. destruct (get_addr_of a H) as (off & n & E1 & E2 & Hz & _ & E3). unfold addr_part.
  rewrite E1. bind_step. destruct (Z.eqb_spec off 0); [done|]. rewrite E2. bind_step. by rewrite E3.
Qed.

Lemma addr_of_length a : sockaddr_ok a ->
  length (addr_of a) = if family_of a =? PJ_AF_INET6 then 16%nat else 4%nat.
Proof.
  intros (_ & _ & L). unfold addr_of. destruct (_ =? _); rewrite length_take, length_drop; lia.
Qed.

Lemma addr_of_octets a : sockaddr_ok a -> octets (addr_of a).
Proof. intros (Ho & _ & _). unfold addr_of. destruct (_ =? _); by apply octets_field. Qed.

(** ** Comparison *)

(** What is compared: the family, then the address, then the port. *)
Definition cmp_key a : list Z := family_of a :: addr_of a ++ [port_of a].

Lemma memcmp_lex (x y : list Z) : length x = length y -> memcmp x y (length x) = lex x y.
Proof.
  revert y. induction x as [|p x IH]; intros [|q y]; try done. intros [= L]. simpl.
  destruct (p =? q); [by apply IH|done].
Qed.

Lemma lex_app (x y p q : list Z) : length x = length y ->
  lex (x ++ p) (y ++ q) = if lex x y =? 0 then lex p q else lex x y.
Proof.
  revert y. induction x as [|u x IH]; intros [|v y]; try done. intros [= L]. simpl.
  destruct (u =? v); [by apply IH|]. by destruct (u <? v).
Qed.

Lemma cmp_lex a b : sockaddr_ok a -> sockaddr_ok b ->
  pj_sockaddr_cmp a b = Some (lex (cmp_key a) (cmp_key b)).
Proof.
  intros Ha Hb. unfold pj_sockaddr_cmp, cmp_key.
  pose proof (ok_length a Ha). pose proof (ok_length b Hb).
  rewrite (sa_family_of a), (sa_family_of b) by lia. do 2 bind_step. cbn [lex].
  destruct (Z.ltb_spec (family_of a) (family_of b)); [by rewrite (proj2 (Z.eqb_neq _ _)) by lia|].
  destruct (Z.ltb_spec (family_of b) (family_of a)); [by rewrite (proj2 (Z.eqb_neq _ _)) by lia|].
  assert (family_of a = family_of b) as Ef by lia. rewrite (proj2 (Z.eqb_eq _ _) Ef).
  destruct (get_addr_of a Ha) as (o1 & n1 & E1 & E2 & _ & D1 & E3).
  destruct (get_addr_of b Hb) as (o2 & n2 & F1 & F2 & _ & D2 & F3).
  rewrite E1, F1, E2. do 3 bind_step. assert (n1 = n2) as -> by (rewrite Ef in D1; tauto || lia).
  rewrite E3, F3. do 2 bind_step. rewrite <- (bytes_at_length _ _ _ _ F3), Nat2Z.id.
  assert (length (addr_of a) = length (addr_of b)) as L by (rewrite !addr_of_length, Ef; done).
  rewrite <- L, memcmp_lex, lex_app by done.
  destruct (lex (addr_of a) (addr_of b) =? 0); simpl negb; [|done]. cbv iota.
  rewrite (get_port_of a), (get_port_of b) by done. do 2 bind_step. cbn [lex].
  destruct (Z.ltb_spec (port_of a) (port_of b)); [by rewrite (proj2 (Z.eqb_neq _ _)) by lia|].
  destruct (Z.ltb_spec (port_of b) (port_of a)); [by rewrite (proj2 (Z.eqb_neq _ _)) by lia|].
  by rewrite (proj2 (Z.eqb_eq _ _)) by lia.
Qed.

(** [pj_sockaddr_cmp] is a total order on socket addresses: the lexicographic
    order of the family, the bytes of the address and the port, so that its
    result is zero exactly for addresses that agree on these. *)
Theorem sockaddr_cmp_order a b c :
  sockaddr_ok a -> sockaddr_ok b -> sockaddr_ok c -> exists ab ba bc ac,
  pj_sockaddr_cmp a b = Some ab /\ pj_sockaddr_cmp b a = Some ba /\
  pj_sockaddr_cmp b c = Some bc /\ pj_sockaddr_cmp a c = Some ac /\
  ab = lex (cmp_key a) (cmp_key b) /\ ba = - ab /\ (ab <= 0 -> bc <= 0 -> ac <= 0) /\
  (ab = 0 <-> family_of a = family_of b /\ addr_of a = addr_of b /\ port_of a = port_of b).
Proof.
  intros Ha Hb Hc. do 4 eexists. rewrite !cmp_lex by done. split_and!; [done..|apply lex_sym|apply lex_trans|].
  rewrite lex_eq. unfold cmp_key. split.
  - intros [= Ef Ek]. apply app_inj_tail in Ek as [??]. done.
  - by intros (-> & -> & ->).
Qed.

(** ** Classification *)

Inductive addr_type := Disabled | Loopback | Link_local | Private | Multicast.

Definition type_flag (t : addr_type) : Z :=
  match t with
  | Disabled => PJ_ADDR_TYPE_DISABLED
  | Loopback => PJ_ADDR_TYPE_LOOPBACK
  | Link_local => PJ_ADDR_TYPE_LINK_LOCAL
  | Private => PJ_ADDR_TYPE_PRIVATE
  | Multicast => PJ_ADDR_TYPE_MULTICAST
  end.

(** The documented ranges, on the bytes of the address. *)
Definition in_range4 (t : addr_type) (x : list Z) : Prop :=
  let b0 := nth 0 x 0 in
  let b1 := nth 1 x 0 in
  match t with
  | Disabled => b0 = 0
  | Loopback => b0 = 127
  | Link_local => b0 = 169 /\ b1 = 254
  | Private => b0 = 10 \/ b0 = 172 /\ 16 <= b1 <= 31 \/ b0 = 192 /\ b1 = 168
  | Multicast => 224 <= b0 <= 239
  end.

Definition in_range6 (t : addr_type) (x : list Z) : Prop :=
  match t with
  | Disabled => x = replicate 16 0
  | Loopback => x = replicate 15 0 ++ [1]
  | Link_local => take 8 x = [0xfe; 0x80; 0; 0; 0; 0; 0; 0]
  | Private => 0xfc <= nth 0 x 0 <= 0xfd
  | Multicast => nth 0 x 0 = 0xff
  end.

Lemma land_field v k n : 0 <= k -> 0 <= n ->
  Z.land v (Z.shiftl (Z.ones k) n) = (v / 2 ^ n) mod 2 ^ k * 2 ^ n.
Proof.
  intros Hk Hn. rewrite <- Z.land_ones, <- Z.shiftr_div_pow2, <- Z.shiftl_mul_pow2 by lia.
  apply Z.bits_inj'. intros i Hi. rewrite Z.land_spec, !Z.shiftl_spec by lia.
  destruct (Z.ltb_spec i n).
  - rewrite !(Z.testbit_neg_r _ (i - n)) by lia. by rewrite andb_false_r.
  - rewrite Z.land_spec, Z.shiftr_spec by lia. by replace (i - n + n) with i by lia.
Qed.

(** The first bytes of the 32-bit value of four bytes. *)
Lemma quad_fields (b0 b1 b2 b3 : Z) : octets [b0; b1; b2; b3] -> let v := of_le [b3; b2; b1; b0] in
  Z.land v 0xFF000000 = b0 * 2 ^ 24 /\ Z.land v 0xFFFF0000 = (b1 + 256 * b0) * 2 ^ 16 /\
  Z.land v 0xF0000000 = b0 / 16 * 2 ^ 28 /\ u8 (Z.shiftr v 24) = b0 /\ u8 (Z.land (Z.shiftr v 16) 0x0ff) = b1.
Proof.
  intros Ho. do 4 (inversion_clear Ho as [|?? ? Ho']; rename Ho' into Ho). intros v.
  assert (Hv : v = b3 + 256 * b2 + 65536 * b1 + 16777216 * b0) by (unfold v; cbn [of_le]; lia).
  change 0xFF000000 with (Z.shiftl (Z.ones 8) 24). change 0xFFFF0000 with (Z.shiftl (Z.ones 16) 16).
  change 0xF0000000 with (Z.shiftl (Z.ones 4) 28). change 0x0ff with 255.
  rewrite !land_field, land255, !Z.shiftr_div_pow2, Hv by lia. unfold u8, wrap.
  change (2 ^ 24) with 16777216. change (2 ^ 16) with 65536. change (2 ^ 28) with 268435456.
  change (2 ^ 8) with 256. change (2 ^ 4) with 16. clear v Hv. split_and!; div_lia.
Qed.

Lemma memcmp_zero (x y : list Z) n : (n <= length x)%nat -> (n <= length y)%nat ->
  memcmp x y n = 0 <-> take n x = take n y.
Proof.
  revert x y. induction n as [|n IH]; intros [|p x] [|q y]; simpl; try (done || lia). intros Hx Hy.
  destruct (Z.eqb_spec p q) as [->|Hpq].
  - rewrite IH by lia. split; [by intros ->|by intros [= ->]].
  - split; [destruct (p <? q); done|by intros [= ]].
Qed.

(** Some kind of address is asked for and the address is of it. *)
Definition matches (type : Z) (P : addr_type -> Prop) : Prop :=
  exists t, Z.land type (type_flag t) <> 0 /\ P t.

Lemma asked_or type (P : addr_type -> Prop) (d l k p m : bool) :
  (d = true <-> P Disabled) -> (l = true <-> P Loopback) -> (k = true <-> P Link_local) ->
  (p = true <-> P Private) -> (m = true <-> P Multicast) ->
  (asked type PJ_ADDR_TYPE_DISABLED && d) || (asked type PJ_ADDR_TYPE_LOOPBACK && l)
  || (asked type PJ_ADDR_TYPE_LINK_LOCAL && k) || (asked type PJ_ADDR_TYPE_PRIVATE && p)
  || (asked type PJ_ADDR_TYPE_MULTICAST && m) = true <-> matches type P.
Proof.
  intros Hd Hl Hk Hp Hm. unfold matches, asked.
  rewrite !orb_true_iff, !andb_true_iff, !negb_true_iff, !Z.eqb_neq. split.
  - intros [[[[[]|[]]|[]]|[]]|[]];
      [exists Disabled|exists Loopback|exists Link_local|exists Private|exists Multicast]; tauto.
  - intros ([] & Hf & Ht); simpl in Hf; tauto.
Qed.

Lemma list_of_4 (x : list Z) : length x = 4%nat -> exists b0 b1 b2 b3 : Z, x = [b0; b1; b2; b3].
Proof. destruct x as [|b0 [|b1 [|b2 [|b3 [|]]]]]; try done. by exists b0, b1, b2, b3. Qed.

Lemma check_ipv4_spec (x : list Z) type : length x = 4%nat -> octets x ->
  check_ipv4 (pj_ntohl (of_le x)) type = true <-> matches type (fun t => in_range4 t x).
Proof.
  intros (b0 & b1 & b2 & b3 & ->)%list_of_4 Ho.
  assert (Hb : 0 <= b0 < 256 /\ 0 <= b1 < 256) by (inversion_clear Ho as [|??? Ho']; inversion_clear Ho'; done).
  rewrite ntohl_bytes; [|by (unfold octets in Ho; rewrite !Forall_cons in Ho; tauto)..].
  destruct (quad_fields b0 b1 b2 b3 Ho) as (E1 & E2 & E3 & E4 & E5). unfold check_ipv4.
  rewrite E1, E2, E3, E4, E5. cbv zeta.
  apply asked_or; simpl; rewrite ?orb_true_iff, ?andb_true_iff, ?Z.eqb_eq, ?Z.leb_le; try lia; div_lia.
Qed.

Lemma check_ipv6_spec (x : list Z) type : length x = 16%nat -> octets x -> exists r,
  check_ipv6 x type = Some r /\ (r = true <-> matches type (fun t => in_range6 t x)).
Proof.
  intros L Ho. destruct x as [|b0 x]; [done|].
  assert (Hb : 0 <= b0 < 256) by by inversion Ho.
  eexists. split; [done|].
  apply asked_or; simpl in_range6; rewrite ?Z.eqb_eq, ?memcmp_zero by (simpl in *; lia).
  - rewrite !take_ge by (simpl in *; lia). split; intros E; by symmetry.
  - rewrite !take_ge by (simpl in *; lia). split; intros E; by symmetry.
  - simpl (take 8 (254 :: _)). split; intros E; by symmetry.
  - change 0xfe with (Z.shiftl (Z.ones 7) 1). rewrite land_field by lia. change (2 ^ 1) with 2.
    change (2 ^ 7) with 128. simpl. div_lia.
  - done.
Qed.

(** [pj_check_addr_type] answers 1 for a valid address exactly when one of the
    kinds asked for is the one of the address by the documented ranges, and 0
    otherwise. *)
Theorem check_addr_type_spec a type : sockaddr_ok a -> type <> 0 -> exists r,
  pj_check_addr_type a type = Some r /\ (r = 0 \/ r = 1) /\
  (r = 1 <-> matches type (fun t =>
     if family_of a =? PJ_AF_INET then in_range4 t (addr_of a) else in_range6 t (addr_of a))).
Proof.
  intros Ha Ht. pose proof (addr_of_length a Ha) as L. pose proof (addr_of_octets a Ha) as Ho.
  pose proof (ok_length a Ha) as La. destruct Ha as (Hoa & Hf & Hl). unfold pj_check_addr_type. destruct (Z.eqb_spec type 0) as [?|_]; [done|].
  rewrite sa_family_of by lia. bind_step. rewrite Hf. simpl negb. cbv iota.
  unfold addr_of in *. destruct (Z.eqb_spec (family_of a) PJ_AF_INET) as [E4|E4].
  - rewrite E4, (proj2 (Z.eqb_neq _ _) inet_inet6) in *. unfold s_addr.
    rewrite bytes_at_in by lia. cbn [fmap option_fmap option_map]. do 2 bind_step.
    change (Z.to_nat 4) with 4%nat.
    pose proof (check_ipv4_spec (take 4 (drop 4 a)) type L Ho) as Hc. eexists. split; [done|].
    destruct (check_ipv4 _ _); split; try tauto; rewrite <- Hc; done.
  - assert (E6 : family_of a = PJ_AF_INET6) by (unfold is_inet in Hf; bool_lia).
    rewrite E6, Z.eqb_refl in *. unfold sin6_addr. rewrite bytes_at_in by lia. bind_step.
    change (Z.to_nat 16) with 16%nat. change (Z.to_nat 8) with 8%nat.
    destruct (check_ipv6_spec (take 16 (drop 8 a)) type L Ho) as (r & -> & Hc). bind_step. eexists.
    split; [done|]. destruct r; split; try tauto; rewrite <- Hc; done.
Qed.
End Spec.
