(* ===== verification/SockAddrParse.v ===== *)
(** * What the address parser accepts

    The grammar of the strings [pj_sockaddr_parse2] accepts, as an inductive
    relation, and that the function accepts exactly these with the host part,
    the port and the family of the relation. *)
From S2P Require Import Prelude Bytes Hash PjString PjStringSpec SockBsd SockAddr SockAddrSpec.

Definition colons (str : list Z) : Z := Z.of_nat (length (filter (fun c => c = 58) str)).

(** ** The port *)

(** [pj_strtoul] computes with 32 bits. *)
Definition port_value (ds : list Z) : Z := u32 (numeral 10 (values ds)).

Lemma digits_decimal ds : forallb pj_isdigit ds = true <-> Forall decimal ds.
Proof.
  rewrite forallb_forall, Forall_forall. unfold pj_isdigit. split; intros Hd c Hc.
  - specialize (Hd c (proj1 (list_elem_of_In ds c) Hc)). lia.
  - specialize (Hd c (proj2 (list_elem_of_In ds c) Hc)). simpl in Hd. lia.
Qed.

Lemma strtoul_loop_digits ds v : Forall decimal ds ->
  strtoul_loop ds (u32 v) = u32 (foldl (fun v d => v * 10 + d) v (values ds)).
Proof.
  intros Hd. revert v. induction Hd as [|c ds Hc _ IH]; intros v; [done|]. cbn [strtoul_loop map foldl].
  assert (pj_isdigit c = true) as -> by (unfold pj_isdigit; lia). simpl negb. cbv iota.
  rewrite <- (IH (v * 10 + (c - 48))). f_equal. unfold u32, wrap.
  by rewrite Z.add_mod, Z.mul_mod, Z.mod_mod, <- Z.mul_mod, <- Z.add_mod by lia.
Qed.

Lemma parse_port_spec ds p :
  parse_port ds = Some p <-> Forall decimal ds /\ p = port_value ds /\ p <= 65535.
Proof.
  unfold parse_port. destruct (forallb pj_isdigit ds) eqn:E; simpl negb; cbv iota.
  - apply digits_decimal in E. unfold pj_strtoul. change (strtoul_loop ds 0) with (strtoul_loop ds (u32 0)).
    rewrite strtoul_loop_digits by done. fold (numeral 10 (values ds)). fold (port_value ds).
    destruct (Z.ltb_spec 65535 (port_value ds)).
    + split; [done|]. intros (_ & -> & ?). lia.
    + split; [intros [= <-]; auto|]. by intros (_ & -> & _).
  - split; [done|]. intros (Hd%digits_decimal & _). congruence.
Qed.

Lemma decimal_not_colon ds : Forall decimal ds -> 58 ∉ ds.
Proof. rewrite Forall_forall. intros Hd Hc. specialize (Hd 58 Hc). simpl in Hd. lia. Qed.

(** ** The colons *)

Lemma colons_none str : colons str = 0 <-> 58 ∉ str.
Proof.
  unfold colons. split.
  - intros E Hc. assert (58 ∈ filter (fun c => c = 58) str) as Hf by by apply list_elem_of_filter.
    destruct (filter _ str); [by apply elem_of_nil in Hf|simpl in E; lia].
  - intros Hc. destruct (filter _ str) as [|x l] eqn:E; [done|].
    assert (x ∈ filter (fun c => c = 58) str) as [-> Hx]%list_elem_of_filter by (rewrite E; by left). done.
Qed.

Lemma colons_app x y : colons (x ++ y) = colons x + colons y.
Proof. unfold colons. rewrite filter_app, length_app. lia. Qed.

Lemma colons_cons c str : colons (c :: str) = (if c =? 58 then 1 else 0) + colons str.
Proof.
  unfold colons. rewrite filter_cons. destruct (Z.eqb_spec c 58); destruct (decide (c = 58)); simpl; try done; lia.
Qed.

Lemma colons_nonneg str : 0 <= colons str.
Proof. unfold colons. lia. Qed.

Lemma scan_app x y i n l : scan_colons (x ++ y) i n l =
  let '(n', l') := scan_colons x i n l in scan_colons y (i + Z.of_nat (length x)) n' l'.
Proof.
  revert i n l. induction x as [|c x IH]; intros i n l; simpl; [by rewrite Z.add_0_r|].
  destruct (c =? 58); rewrite IH; replace (i + 1 + Z.of_nat (length x)) with (i + Z.of_nat (S (length x))) by lia; done.
Qed.

Lemma scan_none str i n l : 58 ∉ str -> scan_colons str i n l = (n, l).
Proof.
  revert i. induction str as [|c str IH]; intros i Hc; [done|]. apply not_elem_of_cons in Hc as [Hc Hs]. simpl.
  destruct (Z.eqb_spec c 58) as [->|_]; [done|]. by apply IH.
Qed.

Lemma scan_count str i n l : (scan_colons str i n l).1 = n + colons str.
Proof.
  revert i n l. induction str as [|c str IH]; intros i n l; [unfold colons; simpl; lia|].
  rewrite colons_cons. simpl. destruct (c =? 58); rewrite IH; lia.
Qed.

Lemma scan_last x t : 58 ∉ t ->
  scan_colons (x ++ 58 :: t) 0 0 None = (colons x + 1, Some (Z.of_nat (length x))).
Proof.
  intros Ht. rewrite scan_app. pose proof (scan_count x 0 0 None) as Hc.
  destruct (scan_colons x 0 0 None) as [n l]. simpl in *. subst n. by rewrite scan_none.
Qed.

Lemma drop_past (x t : list Z) c : drop (Z.to_nat (Z.of_nat (length x) + 1)) (x ++ c :: t) = t.
Proof.
  rewrite drop_app_ge by lia. by replace (_ - length x)%nat with 1%nat by lia.
Qed.

(** The split at the last colon is unique. *)
Lemma app_cons_split (x t y u : list Z) c : c ∉ t -> c ∉ u -> x ++ c :: t = y ++ c :: u -> x = y /\ t = u.
Proof.
  intros Ht Hu. revert y. induction x as [|p x IH]; intros [|q y] E; simpl in E.
  - by injection E.
  - injection E as -> ->. destruct Ht. apply elem_of_app. right. by left.
  - injection E as <- <-. destruct Hu. apply elem_of_app. right. by left.
  - injection E as -> E. apply IH in E as [-> ->]. done.
Qed.

Lemma first_split (x t y u : list Z) c : c ∉ x -> c ∉ y -> x ++ c :: t = y ++ c :: u -> x = y /\ t = u.
Proof.
  intros Hx. revert y. induction x as [|p x IH]; intros [|q y] Hy E; simpl in E.
  - by injection E.
  - injection E as -> _. by apply not_elem_of_cons in Hy as [? _].
  - injection E as -> _. by apply not_elem_of_cons in Hx as [? _].
  - injection E as -> E. apply not_elem_of_cons in Hx as [_ Hx], Hy as [_ Hy].
    apply (IH Hx y Hy) in E as [-> ->]. done.
Qed.

(** A string has no colon, or is split at its last. *)
Lemma last_colon str : 58 ∉ str \/ exists x t, str = x ++ 58 :: t /\ 58 ∉ t.
Proof.
  induction str as [|c str IH]; [left; by apply not_elem_of_nil|].
  destruct IH as [Hn|(x & t & -> & Ht)]; [|right; by exists (c :: x), t].
  destruct (decide (c = 58)) as [->|].
  - right. by exists [], str.
  - left. by apply not_elem_of_cons.
Qed.

Lemma colons_last x t : 58 ∉ t -> colons (x ++ 58 :: t) = colons x + 1.
Proof. intros Ht%colons_none. rewrite colons_app, colons_cons, Ht. simpl. lia. Qed.

(** ** The bracket *)

Lemma strchr_loop_split str c i k :
  pj_strchr_loop str c i = Some k <-> (exists x r, str = x ++ c :: r /\ (c ∉ x) /\ k = i + Z.of_nat (length x)).
Proof.
  revert i. induction str as [|y str IH]; intros i; simpl.
  - split; [done|]. by intros ([] & ? & ? & _).
  - destruct (Z.eqb_spec y c) as [->|Hy].
    + split.
      * intros [= <-]. exists [], str. split_and!; [done|by apply not_elem_of_nil|simpl; lia].
      * intros ([|z x] & r & E & Hx & ->); [simpl; f_equal; lia|]. injection E as -> _.
        by apply not_elem_of_cons in Hx as [? _].
    + rewrite IH. split.
      * intros (x & r & -> & Hx & ->). exists (y :: x), r. split_and!; [done| |simpl; lia].
        by apply not_elem_of_cons.
      * intros ([|z x] & r & E & Hx & ->); [by injection E|]. injection E as -> ->.
        exists x, r. apply not_elem_of_cons in Hx as [_ ?]. split_and!; [done..|simpl; lia].
Qed.

Lemma strchr_some host rest : 93 ∉ host ->
  pj_strchr (91 :: host ++ 93 :: rest) 93 = Some (Z.of_nat (length host) + 1).
Proof.
  intros Hh. unfold pj_strchr. apply strchr_loop_split. exists (91 :: host), rest.
  split_and!; [done|by apply not_elem_of_cons|simpl; lia].
Qed.

Lemma strchr_inv str k : pj_strchr (91 :: str) 93 = Some k ->
  exists host rest, str = host ++ 93 :: rest /\ 93 ∉ host.
Proof.
  intros ([|z x] & r & E & Hx & ->)%strchr_loop_split; [done|]. injection E as <- ->.
  apply not_elem_of_cons in Hx as [_ ?]. by exists x, r.
Qed.

(** ** The grammar *)

Section Grammar.
Context `{AC : !AddressConstants} `{FL : !FamilyLaws}.

(** The strings, with the family asked for, the host part, the port and the
    family found. *)
Inductive address_string (af : Z) : list Z -> list Z -> Z -> Z -> Prop :=
  | as_empty : address_string af [] [] 0 PJ_AF_INET
  (** ["10.0.0.1"] *)
  | as_host4 host : af <> PJ_AF_INET6 -> host <> [] -> 58 ∉ host ->
      address_string af host host 0 PJ_AF_INET
  (** ["10.0.0.1:80"], ["10.0.0.1:"], [":80"] and [":"] *)
  | as_port4 host ds : af <> PJ_AF_INET6 -> 58 ∉ host -> Forall decimal ds -> port_value ds <= 65535 ->
      address_string af (host ++ 58 :: ds) host (port_value ds) PJ_AF_INET
  (** ["fe::01"], ["fe::01:80"] and ["::"] *)
  | as_host6 str : str <> [] -> head str <> Some 91 -> (af = PJ_AF_INET6 \/ af = PJ_AF_UNSPEC /\ 1 < colons str) ->
      address_string af str str 0 PJ_AF_INET6
  (** ["[fe::01]"]; what follows the bracket is not looked at. *)
  | as_bracket host rest : 93 ∉ host -> 58 ∈ host -> 58 ∉ rest ->
      (af = PJ_AF_INET6 \/ af = PJ_AF_UNSPEC /\ 1 < colons host) ->
      address_string af (91 :: host ++ 93 :: rest) host 0 PJ_AF_INET6
  (** ["[fe::01]:80"] and ["[fe::01]:"]; nor is what stands between. *)
  | as_bracket_port host rest ds : 93 ∉ host -> Forall decimal ds -> port_value ds <= 65535 ->
      (af = PJ_AF_INET6 \/ af = PJ_AF_UNSPEC /\ 0 < colons host + colons rest) ->
      address_string af (91 :: host ++ 93 :: rest ++ 58 :: ds) host (port_value ds) PJ_AF_INET6.

Definition accepts (r : parsed) (host : list Z) (port raf : Z) : Prop :=
  r = mk_parsed PJ_SUCCESS (Some host) (Some port) (Some raf).

Lemma parse_ipv4_spec str host port raf : str <> [] -> colons str <= 1 ->
  accepts (parse_ipv4 str (scan_colons str 0 0 None).2) host port raf <->
  raf = PJ_AF_INET /\ ((58 ∉ str) /\ host = str /\ port = 0 \/
    exists ds, str = host ++ 58 :: ds /\ (58 ∉ host) /\ Forall decimal ds /\ port = port_value ds /\ port <= 65535).
Proof.
  intros Hne Hc. unfold accepts. destruct (last_colon str) as [Hn|(x & t & -> & Ht)].
  - rewrite scan_none by done. simpl. split.
    + intros [= <- <- <-]. split; [done|]. by left.
    + intros (-> & [(_ & -> & ->)|(ds & -> & _)]); [done|]. destruct Hn. apply elem_of_app. right. by left.
  - rewrite scan_last by done. cbn [snd parse_ipv4].
    rewrite colons_last in Hc by done. pose proof (colons_nonneg x).
    assert (Hx : 58 ∉ x) by (apply colons_none; lia).
    rewrite drop_past, Nat2Z.id, take_app_length.
    destruct (parse_port t) as [p|] eqn:E.
    + apply parse_port_spec in E as (Hd & -> & Hp). split.
      * intros E. injection E as ? ? ?. subst. split; [done|]. right. by exists t.
      * intros (-> & [(Hno & _)|(ds & E & Hh & Hds & -> & _)]).
        { destruct Hno. apply elem_of_app. right. by left. }
        apply decimal_not_colon in Hds. pose proof (app_cons_split x t host ds 58 Ht Hds E) as [-> ->]. done.
    + split; [done|]. intros (_ & [(Hno & _)|(ds & E' & Hh & Hds & -> & Hp)]).
      { destruct Hno. apply elem_of_app. right. by left. }
      pose proof (app_cons_split x t host ds 58 Ht (decimal_not_colon ds Hds) E') as [-> ->].
      assert (parse_port ds = Some (port_value ds)) by by apply parse_port_spec. congruence.
Qed.

(** A bracketed host, with what follows it. *)
Definition bracketed (rest host : list Z) (port : Z) : Prop :=
  (58 ∈ host) /\ (58 ∉ rest) /\ port = 0 \/
  exists r ds, rest = r ++ 58 :: ds /\ Forall decimal ds /\ port = port_value ds /\ port <= 65535.

Lemma parse_bracket host0 rest0 host port raf : 93 ∉ host0 -> let str := 91 :: host0 ++ 93 :: rest0 in
  accepts (parse_ipv6 str (scan_colons str 0 0 None).2) host port raf <->
  raf = PJ_AF_INET6 /\ host = host0 /\ bracketed rest0 host0 port.
Proof.
  intros Hb str. unfold accepts, parse_ipv6, bracketed. rewrite bool_decide_eq_true_2 by done.
  assert (pj_strchr str 93 = Some (Z.of_nat (length host0) + 1)) as -> by by apply strchr_some.
  replace (Z.to_nat (Z.of_nat (length host0) + 1 - 1)) with (length host0) by lia.
  change (drop 1 str) with (host0 ++ 93 :: rest0). rewrite take_app_length.
  destruct (last_colon rest0) as [Hn|(r & ds & -> & Hds)].
  - assert (E : scan_colons str 0 0 None = scan_colons (91 :: host0) 0 0 None).
    { change str with ((91 :: host0) ++ 93 :: rest0). rewrite scan_app.
      destruct (scan_colons (91 :: host0) 0 0 None) as [n l]. simpl. by rewrite scan_none. }
    rewrite E. destruct (last_colon host0) as [Hh|(x & t & -> & Ht)].
    + rewrite scan_none by by apply not_elem_of_cons. simpl. split; [done|].
      intros (_ & _ & [(? & _)|(r & ds & -> & _)]); [done|]. destruct Hn. apply elem_of_app. right. by left.
    + change (91 :: x ++ 58 :: t) with ((91 :: x) ++ 58 :: t). rewrite scan_last by done. cbn [snd].
      rewrite (proj2 (Z.ltb_lt _ _)) by (rewrite length_app; simpl; lia). simpl. split.
      * intros [= <- <- <-]. split_and!; [done..|]. left. split_and!; [|done..]. apply elem_of_app. right. by left.
      * intros (-> & -> & [(_ & _ & ->)|(r & ds & -> & _)]); [done|]. destruct Hn. apply elem_of_app. right. by left.
  - assert (E : str = (91 :: host0 ++ 93 :: r) ++ 58 :: ds) by (unfold str; simpl; by rewrite <- app_assoc).
    rewrite E, scan_last by done. cbn [snd].
    rewrite (proj2 (Z.ltb_ge _ _)) by (simpl; rewrite length_app; simpl; lia). rewrite drop_past.
    destruct (parse_port ds) as [p|] eqn:Ep.
    + apply parse_port_spec in Ep as (Hd & -> & Hp). split.
      * intros [= <- <- <-]. split_and!; [done..|]. right. by exists r, ds.
      * intros (-> & -> & [(_ & Hno & _)|(r' & ds' & E' & Hd' & -> & _)]).
        { destruct Hno. apply elem_of_app. right. by left. }
        apply app_cons_split in E' as [-> ->]; [done..|by apply decimal_not_colon].
    + split; [done|]. intros (_ & _ & [(_ & Hno & _)|(r' & ds' & E' & Hd' & -> & Hp)]).
      { destruct Hno. apply elem_of_app. right. by left. }
      apply app_cons_split in E' as [-> ->]; [|done|by apply decimal_not_colon].
      assert (parse_port ds' = Some (port_value ds')) by by apply parse_port_spec. congruence.
Qed.

Lemma parse_ipv6_spec str host port raf : str <> [] ->
  accepts (parse_ipv6 str (scan_colons str 0 0 None).2) host port raf <->
  raf = PJ_AF_INET6 /\ (head str <> Some 91 /\ host = str /\ port = 0 \/
    exists rest, str = 91 :: host ++ 93 :: rest /\ (93 ∉ host) /\ bracketed rest host port).
Proof.
  intros Hne. destruct (decide (head str = Some 91)) as [Hh|Hh].
  - destruct str as [|c str]; [done|]. injection Hh as ->.
    destruct (pj_strchr (91 :: str) 93) as [k|] eqn:E.
    + apply strchr_inv in E as (host0 & rest0 & -> & Hb). rewrite parse_bracket by done. split.
      * intros (-> & -> & Hr). split; [done|]. right. by exists rest0.
      * intros (-> & [(? & _)|(rest & E & Hn & Hr)]); [done|]. injection E as E.
        apply first_split in E as [-> ->]; done.
    + unfold accepts, parse_ipv6. rewrite bool_decide_eq_true_2, E by done. split.
      * by destruct (scan_colons _ _ _ _).2.
      * intros (_ & [(? & _)|(rest & Es & Hn & _)]); [done|]. injection Es as ->.
        by rewrite strchr_some in E.
  - unfold accepts, parse_ipv6. rewrite bool_decide_eq_false_2 by done. split.
    + intros [= <- <- <-]. split; [done|]. by left.
    + intros (-> & [(_ & -> & ->)|(rest & -> & _)]); [done|]. by destruct Hh.
Qed.

Lemma colons_bracketed host rest : colons (91 :: host ++ 93 :: rest) = colons host + colons rest.
Proof. rewrite colons_cons, colons_app, colons_cons. simpl. lia. Qed.

(** The grammar by the family found. *)
Lemma address_string_forms af str host port raf : str <> [] ->
  address_string af str host port raf <->
  (raf = PJ_AF_INET /\ af <> PJ_AF_INET6 /\ colons str <= 1 /\
   ((58 ∉ str) /\ host = str /\ port = 0 \/
    exists ds, str = host ++ 58 :: ds /\ (58 ∉ host) /\ Forall decimal ds /\ port = port_value ds /\ port <= 65535))
  \/ (raf = PJ_AF_INET6 /\ (af = PJ_AF_INET6 \/ af = PJ_AF_UNSPEC /\ 1 < colons str) /\
   (head str <> Some 91 /\ host = str /\ port = 0 \/
    exists rest, str = 91 :: host ++ 93 :: rest /\ (93 ∉ host) /\ bracketed rest host port)).
Proof.
  intros Hne. split.
  - intros HA. destruct HA as [|h ?? Hn|h ds ? Hn Hd ?|s ??|h r ?? Hn Ha|h r ds ??? Ha]; [done|left|left|right|right|right].
    + rewrite (proj2 (colons_none h) Hn). split_and!; [done..|lia|]. by left.
    + rewrite colons_last, (proj2 (colons_none h) Hn) by by apply decimal_not_colon.
      split_and!; [done..|lia|]. right. by exists ds.
    + split_and!; [done..|]. by left.
    + rewrite colons_bracketed, (proj2 (colons_none r) Hn), Z.add_0_r. split_and!; [done..|].
      right. exists r. split_and!; [done..|]. by left.
    + rewrite colons_bracketed, colons_last by by apply decimal_not_colon. split_and!; [done|lia|].
      right. exists (r ++ 58 :: ds). split_and!; [done..|]. right. by exists r, ds.
  - intros [(-> & Ha & _ & [(Hn & -> & ->)|(ds & -> & Hn & Hd & -> & Hp)])
      |(-> & Ha & [(Hh & -> & ->)|(rest & -> & Hn & [(H1 & H2 & ->)|(r & ds & -> & Hd & -> & Hp)])])].
    + by apply as_host4.
    + by apply as_port4.
    + by apply as_host6.
    + apply as_bracket; try done. by rewrite colons_bracketed, (proj2 (colons_none rest) H2), Z.add_0_r in Ha.
    + apply as_bracket_port; try done.
      rewrite colons_bracketed, colons_last in Ha by by apply decimal_not_colon. lia.
Qed.

Lemma parse2_cases af str : str <> [] -> af = PJ_AF_UNSPEC \/ af = PJ_AF_INET \/ af = PJ_AF_INET6 ->
  let r := pj_sockaddr_parse2 af 0 str in let last := (scan_colons str 0 0 None).2 in
  (af = PJ_AF_INET6 \/ af = PJ_AF_UNSPEC /\ 1 < colons str) /\ r = parse_ipv6 str last \/
  af <> PJ_AF_INET6 /\ colons str <= 1 /\ r = parse_ipv4 str last \/
  af = PJ_AF_INET /\ 1 < colons str /\ r = mk_parsed PJ_EINVAL None None None.
Proof.
  intros Hne Ha r last. unfold r, pj_sockaddr_parse2, is_inet. destruct str as [|c str]; [done|]. clear Hne.
  pose proof (scan_count (c :: str) 0 0 None) as Hc. fold last.
  destruct (scan_colons (c :: str) 0 0 None) as [n l]. cbn [fst snd] in Hc, last. rewrite Z.add_0_l in Hc. subst n last.
  pose proof inet_inet6. pose proof inet_unspec. pose proof inet6_unspec.
  destruct Ha as [->|[->| ->]].
  - rewrite Z.eqb_refl, !orb_true_r. simpl negb. cbv iota. destruct (Z.ltb_spec 1 (colons (c :: str))).
    + rewrite (proj2 (Z.eqb_neq PJ_AF_INET6 PJ_AF_INET)), Z.eqb_refl by congruence. left. auto.
    + rewrite Z.eqb_refl. right. left. split_and!; [congruence|lia|done].
  - rewrite Z.eqb_refl, (proj2 (Z.eqb_neq PJ_AF_INET PJ_AF_UNSPEC)) by done. simpl.
    destruct (Z.ltb_spec 1 (colons (c :: str))).
    + right. right. auto.
    + rewrite Z.eqb_refl. right. left. split_and!; [done|lia|done].
  - rewrite Z.eqb_refl, (proj2 (Z.eqb_neq PJ_AF_INET6 PJ_AF_UNSPEC)),
      (proj2 (Z.eqb_neq PJ_AF_INET6 PJ_AF_INET)) by congruence. simpl. left.
    rewrite Z.eqb_refl, (proj2 (Z.eqb_neq PJ_AF_INET6 PJ_AF_INET)) by congruence. auto.
Qed.

(** Nothing is stored without being accepted, and only [PJ_EINVAL] refuses. *)
Lemma parse_outcome str l r : r = parse_ipv4 str l \/ r = parse_ipv6 str l ->
  (exists host port raf, accepts r host port raf) \/ p_status r = PJ_EINVAL.
Proof.
  unfold accepts. intros [->| ->].
  - unfold parse_ipv4. destruct l as [c|]; [|by left; eauto]. destruct (parse_port _); [by left; eauto|by right].
  - unfold parse_ipv6. case_bool_decide; [|by left; eauto]. destruct l as [c|]; [|by right].
    destruct (pj_strchr str 93); [|by right]. destruct (parse_port _); [by left; eauto|by right].
Qed.

Lemma address_string_empty af host port raf :
  address_string af [] host port raf <-> host = [] /\ port = 0 /\ raf = PJ_AF_INET.
Proof.
  split; [|intros (-> & -> & ->); apply as_empty].
  inversion 1 as [| |h ds ???? E| | |]; try done. by destruct h.
Qed.

Lemma parse2_accepts af str host port raf : af = PJ_AF_UNSPEC \/ af = PJ_AF_INET \/ af = PJ_AF_INET6 ->
  accepts (pj_sockaddr_parse2 af 0 str) host port raf <-> address_string af str host port raf.
Proof.
  intros Ha. destruct (decide (str = [])) as [->|Hne].
  { assert (pj_sockaddr_parse2 af 0 [] = mk_parsed PJ_SUCCESS (Some []) (Some 0) (Some PJ_AF_INET)) as ->.
    { unfold pj_sockaddr_parse2, is_inet. destruct Ha as [->|[->| ->]]; by rewrite Z.eqb_refl, ?orb_true_r. }
    rewrite address_string_empty. split; [by intros [= <- <- <-]|by intros (-> & -> & ->)]. }
  rewrite address_string_forms by done. pose proof inet_inet6.
  destruct (parse2_cases af str Hne Ha) as [[H6 ->]|[(H4 & Hc & ->)|(-> & Hc & ->)]].
  - rewrite parse_ipv6_spec by done. split; [tauto|]. intros [(_ & ? & ? & _)|]; [lia|tauto].
  - rewrite parse_ipv4_spec by done. split; [tauto|]. intros [|(_ & ? & _)]; [tauto|lia].
  - split; [done|]. intros [(_ & _ & ? & _)|(_ & [?|[? _]] & _)]; [lia|done|]. by destruct inet_unspec.
Qed.

(** C16 [pj_sockaddr_parse2] accepts exactly the strings of the grammar, with the
    host part, the port and the family of the grammar: every other string is
    refused with [PJ_EINVAL]. *)
Theorem parse2_grammar af str : af = PJ_AF_UNSPEC \/ af = PJ_AF_INET \/ af = PJ_AF_INET6 ->
  let r := pj_sockaddr_parse2 af 0 str in
  (forall host port raf,
     r = mk_parsed PJ_SUCCESS (Some host) (Some port) (Some raf) <-> address_string af str host port raf) /\
  ((forall host port raf, ~ address_string af str host port raf) -> p_status r = PJ_EINVAL).
Proof.
  intros Ha r. split; [intros; by apply parse2_accepts|]. intros Hno.
  destruct (decide (str = [])) as [->|Hne]; [by destruct (Hno [] 0 PJ_AF_INET); apply as_empty|].
  destruct (parse2_cases af str Hne Ha) as [[_ E]|[(_ & _ & E)|(_ & _ & E)]]; [| |by unfold r; rewrite E];
    (edestruct (parse_outcome str) as [(h & p & f & Hacc)|Hs];
     [|destruct (Hno h p f); apply parse2_accepts; [done|]; rewrite E; exact Hacc|unfold r; rewrite E; exact Hs]; auto).
Qed.
End Grammar.
