(* ===== verification/AddrResolv.v ===== *)
(** * Name resolution and setting addresses

    [pj_getaddrinfo] and [pj_gethostbyname] of
    [pjlib/src/pj/addr_resolv_sock.c], in the branches the Zephyr port compiles,
    and the operations of [pjlib/src/pj/sock_common.c] that resolve a name: the
    ones that set an address from a string, the parser, and the synthesis of an
    address of another family. *)
From S2P Require Import Prelude Bytes Hash PjString SockBsd SockAddr PjStringSpec SockAddrSpec.

Record pj_addrinfo := mk_pj_addrinfo {
  (** [PJ_MAX_HOSTNAME] bytes. *)
  ai_canonname : list Z;
  ai_addr : list Z
}.

(** The static data of [pj_gethostbyname], which the [pj_hostent] of every call
    points to: the canonical name, and the addresses up to the null pointer. *)
Record host_static := mk_host_static {
  canonical_name : list Z;
  address_list : list (list Z)
}.

Section Resolver.
Context `{!SystemConstants} `{!AddressConstants} {S : Type} `{!SystemSockets S} `{!SystemAddresses S}.
Implicit Types (s : S) (ai : list pj_addrinfo).

(** ** [pj_getaddrinfo] *)

(** The loop over [j < i]. *)
Fixpoint duplicate_of (n : nat) ai (addr : list Z) : option bool :=
  match n, ai with
  | Datatypes.S n, x :: ai =>
      r ← pj_sockaddr_cmp (ai_addr x) addr;
      if r =? 0 then Some true else duplicate_of n ai addr
  | _, _ => Some false
  end.

(** [pj_ansi_strxcpy] into [ai_canonname]. *)
Definition store_name (name src : list Z) : option (list Z) :=
  '(_, out) ← pj_ansi_strxcpy src PJ_MAX_HOSTNAME; write_at name 0 out.

Definition wanted (af : Z) (res : addrinfo) : bool :=
  ((af =? PJ_AF_UNSPEC) || (ai_family res =? af))
  && ((ai_socktype res =? SOCK_DGRAM) || (ai_socktype res =? SOCK_STREAM) || (ai_socktype res =? 0)).

(** One answer: the next free slot and the slots. *)
Definition store_answer (af : Z) (nodecopy : list Z) (res : addrinfo) (i : Z) ai :
    option (Z * list pj_addrinfo) :=
  if negb (wanted af res) then Some (i, ai) else
  duplicate_found ← duplicate_of (Z.to_nat i) ai (ai_addr_ptr res);
  if (duplicate_found : bool) then Some (i, ai) else
  x ← ai.[i];
  name ← store_name (ai_canonname x) (default (nodecopy ++ [0]) (ai_canonname_ptr res));
  ai ← ai.[i <- mk_pj_addrinfo name (ai_addr x)];
  if negb (ai_addrlen res <=? sizeof_sockaddr) then Some (i, ai) else
  bs ← bytes_at (ai_addr_ptr res) 0 (ai_addrlen res);
  addr ← write_at (ai_addr x) 0 bs;
  ai ← ai.[i <- mk_pj_addrinfo name addr];
  Some (i + 1, ai).

Fixpoint store_answers (af : Z) (nodecopy : list Z) (res : list addrinfo) (count i : Z) ai :
    option (Z * list pj_addrinfo) :=
  match res with
  | [] => Some (i, ai)
  | r :: res =>
      if i <? count then
        '(i, ai) ← store_answer af nodecopy r i ai; store_answers af nodecopy res count i ai
      else Some (i, ai)
  end.

(** The call of the system and the end of [pj_getaddrinfo]. *)
Definition resolve_node s (af : Z) (nodecopy : list Z) (count : Z) ai :
    option (Z * Z * list pj_addrinfo * S) :=
  let '(rc, res, s) := getaddrinfo s nodecopy af 0 false in
  if negb (rc =? 0) then Some (PJ_ERESOLVE, count, ai, s)
  else
    '(i, ai) ← store_answers af nodecopy res count 0 ai;
    Some (if 0 <? i then PJ_SUCCESS else PJ_ERESOLVE, i, ai, s).

(** The status, the count and the answers. *)
Definition pj_getaddrinfo s (af : Z) (nodename : list Z) (count : Z) ai :
    option (Z * Z * list pj_addrinfo * S) :=
  if (count =? 0) || (Z.of_nat (length nodename) =? 0) then Some (PJ_EINVAL, count, ai, s)
  else if negb (is_inet af || (af =? PJ_AF_UNSPEC)) then Some (PJ_EINVAL, count, ai, s)
  else if PJ_MAX_HOSTNAME <=? Z.of_nat (length nodename) then Some (PJ_ENAMETOOLONG, count, ai, s)
  else resolve_node s af (c_chars nodename) count ai.

(** ** [pj_gethostbyname] *)

Definition MAX_ADDRESSES : Z := 8.

(** The loop: the canonical name and the addresses so far. *)
Fixpoint host_addresses (res : list addrinfo) (name : list Z) (addresses : list (list Z)) :
    option (list Z * list (list Z)) :=
  match res with
  | [] => Some (name, addresses)
  | item :: res =>
      if negb (Z.of_nat (length addresses) <? MAX_ADDRESSES) then Some (name, addresses)
      else if negb (ai_family item =? PJ_AF_INET) || (ai_addrlen item <? sizeof_native_sockaddr_in)
      then host_addresses res name addresses
      else
        name ←
          match addresses, ai_canonname_ptr item with
          | [], Some n => store_name name n
          | _, _ => Some name
          end;
        a ← bytes_at (ai_addr_ptr item) 4 4;
        host_addresses res name (addresses ++ [a])
  end.

(** The status and the static data; [None] for a host name that is a null
    pointer.  The [pj_hostent] is filled when the status is [PJ_SUCCESS]. *)
Definition pj_gethostbyname s (st : host_static) (hostname : option (list Z)) :
    option (Z * host_static * S) :=
  match hostname with
  | None => Some (PJ_EINVAL, st, s)
  | Some hostname =>
      if PJ_MAX_HOSTNAME <=? Z.of_nat (length hostname) then Some (PJ_ENAMETOOLONG, st, s)
      else
        let copy := c_chars hostname in
        let '(rc, result, s) := getaddrinfo s copy PJ_AF_INET SOCK_STREAM true in
        if negb (rc =? 0) then Some (PJ_ERESOLVE, st, s)
        else
          name ← store_name (canonical_name st) (copy ++ [0]);
          '(name, addresses) ← host_addresses result name [];
          Some (if (length addresses =? 0)%nat then PJ_ERESOLVE else PJ_SUCCESS,
                mk_host_static name addresses, s)
  end.

(** ** Setting an address

    [junk] is what the [pj_addrinfo] on the stack holds before it is written. *)
Context (junk : pj_addrinfo).

Definition pj_sockaddr_in_set_str_addr s (addr : list Z) (str_addr : option (list Z)) :
    option (Z * list Z * S) :=
  let str := default [] str_addr in
  if negb (Z.of_nat (length str) <? PJ_MAX_HOSTNAME) then
    addr ← set_s_addr addr PJ_INADDR_NONE; Some (PJ_EINVAL, addr, s)
  else
    addr ← set_family addr PJ_AF_INET;
    addr ← zero_pad addr;
    match str with
    | [] => addr ← set_s_addr addr 0; Some (PJ_SUCCESS, addr, s)
    | _ =>
        let v := pj_inet_addr str in
        addr ← set_s_addr addr v;
        if v =? PJ_INADDR_NONE then
          '(status, _, ai, s) ← pj_getaddrinfo s PJ_AF_INET str 1 [junk];
          if status =? PJ_SUCCESS then
            x ← ai.[0];
            bs ← bytes_at (ai_addr x) 4 4;
            addr ← write_at addr 4 bs;
            Some (PJ_SUCCESS, addr, s)
          else Some (status, addr, s)
        else Some (PJ_SUCCESS, addr, s)
    end.

Definition store_opt (a : list Z) (off : Z) (w : option (list Z)) : option (list Z) :=
  match w with
  | None => Some a
  | Some bs => write_at a off bs
  end.

Definition pj_sockaddr_set_str_addr s (af : Z) (addr : list Z) (str_addr : option (list Z)) :
    option (Z * list Z * S) :=
  if af =? PJ_AF_INET then pj_sockaddr_in_set_str_addr s addr str_addr
  else if negb (af =? PJ_AF_INET6) then Some (PJ_EAFNOTSUP, addr, s)
  else
    addr ← set_family addr PJ_AF_INET6;
    match default [] str_addr with
    | [] => Some (PJ_SUCCESS, addr, s)
    | str =>
        let '(status, w, s) := pj_inet_pton s PJ_AF_INET6 str in
        addr ← store_opt addr 8 w;
        if negb (status =? PJ_SUCCESS) then
          '(status, _, ai, s) ← pj_getaddrinfo s PJ_AF_INET6 str 1 [junk];
          if status =? PJ_SUCCESS then
            x ← ai.[0];
            bs ← sin6_addr (ai_addr x);
            addr ← write_at addr 8 bs;
            scope ← bytes_at (ai_addr x) 24 4;
            addr ← write_at addr 24 scope;
            Some (status, addr, s)
          else Some (status, addr, s)
        else Some (status, addr, s)
    end.

Definition pj_sockaddr_in_init s (addr : list Z) (str_addr : option (list Z)) (port : Z) :
    option (Z * list Z * S) :=
  addr ← set_family addr PJ_AF_INET;
  addr ← zero_pad addr;
  addr ← pj_sockaddr_in_set_port addr port;
  pj_sockaddr_in_set_str_addr s addr str_addr.

Definition pj_sockaddr_init s (af : Z) (addr : list Z) (cp : option (list Z)) (port : Z) :
    option (Z * list Z * S) :=
  if af =? PJ_AF_INET then pj_sockaddr_in_init s addr cp port
  else if negb (af =? PJ_AF_INET6) then Some (PJ_EAFNOTSUP, addr, s)
  else
    addr ← write_at addr 0 (replicate (Z.to_nat sizeof_sockaddr_in6) 0);
    addr ← set_family addr PJ_AF_INET6;
    '(status, addr, s) ← pj_sockaddr_set_str_addr s af addr cp;
    if negb (status =? PJ_SUCCESS) then Some (status, addr, s)
    else addr ← set_sin_port addr (pj_htons port); Some (PJ_SUCCESS, addr, s).

(** ** Parsing an address *)

(** The last portion after a colon as the port number. *)
Definition parse_as_ipv6_port s (status : Z) (str addr : list Z) : option (Z * list Z * S) :=
  match (scan_colons str 0 0 None).2 with
  | None => Some (status, addr, s)
  | Some c =>
      match parse_port (drop (Z.to_nat (c + 1)) str) with
      | None => Some (status, addr, s)
      | Some port => pj_sockaddr_init s PJ_AF_INET6 addr (Some (take (Z.to_nat c) str)) port
      end
  end.

(** On success [pj_sockaddr_parse2] stores all three of its results. *)
Definition pj_sockaddr_parse s (af options : Z) (str addr : list Z) : option (Z * list Z * S) :=
  if negb (is_inet af || (af =? PJ_AF_UNSPEC)) then Some (PJ_EINVAL, addr, s)
  else if negb (options =? 0) then Some (PJ_EINVAL, addr, s)
  else
    let r := pj_sockaddr_parse2 af options str in
    if negb (p_status r =? PJ_SUCCESS) then Some (p_status r, addr, s)
    else
      hostpart ← p_hostpart r;
      port ← p_port r;
      af ← p_raf r;
      if negb PJ_HAS_IPV6 && (af =? PJ_AF_INET6) then Some (PJ_EIPV6NOTSUP, addr, s)
      else
        '(status, addr, s) ← pj_sockaddr_init s af addr (Some hostpart) port;
        if PJ_HAS_IPV6 && negb (status =? PJ_SUCCESS) && (af =? PJ_AF_INET6)
        then parse_as_ipv6_port s status str addr
        else Some (status, addr, s).

(** ** Synthesis

    [buf0] is what the text buffer on the stack holds: it is read even when
    nothing was printed. *)
Definition pj_sockaddr_synthesize s (buf0 : list Z) (dst_af : Z) (dst src : list Z) :
    option (Z * list Z * S) :=
  af ← sa_family src;
  if dst_af =? af then dst ← pj_sockaddr_cp dst src; Some (PJ_SUCCESS, dst, s)
  else
    '(r, s) ← pj_sockaddr_print s src PJ_INET6_ADDRSTRLEN 0;
    n ← strlen (default buf0 r);
    let ip_addr := take n (default buf0 r) in
    '(status, count, ai, s) ← pj_getaddrinfo s dst_af ip_addr 1 [junk];
    if (status =? PJ_SUCCESS) && (0 <? count) then
      x ← ai.[0];
      dst ← pj_sockaddr_cp dst (ai_addr x);
      port ← pj_sockaddr_get_port src;
      '(_, dst) ← pj_sockaddr_set_port dst port;
      Some (status, dst, s)
    else Some (status, dst, s).
End Resolver.

(** ** Name resolution

    [pj_getaddrinfo] hands on the answers of the system that are wanted,
    without repetitions and in their order, as many as there is room for. *)

Section Resolution.
Context `{SC : !SystemConstants} `{AC : !AddressConstants} {S : Type} `{SS : !SystemSockets S} `{SA : !SystemAddresses S}.
Implicit Types (r : addrinfo) (x : pj_addrinfo).

(** ** The answers *)

(** An answer whose address is complete and whose canonical name, if there is
    one, is a C string. *)
Definition answer_ok r : Prop :=
  sockaddr_ok (ai_addr_ptr r) /\ Z.of_nat (length (ai_addr_ptr r)) = ai_addrlen r /\
  forall n, ai_canonname_ptr r = Some n -> exists cs, c_string n cs.

Definition slot_ok x : Prop :=
  Z.of_nat (length (ai_canonname x)) = PJ_MAX_HOSTNAME /\ length (ai_addr x) = 28%nat /\ octets (ai_addr x).

(** The wanted answers that fit. *)
Definition useful (af : Z) r : bool := wanted af r && (ai_addrlen r <=? sizeof_sockaddr).

(** The answers whose address is not the one of an earlier answer; [seen] are
    the addresses before. *)
Fixpoint distinct (seen : list (list Z)) (rs : list addrinfo) : list addrinfo :=
  match rs with
  | [] => []
  | r :: rs =>
      if decide (cmp_key (ai_addr_ptr r) ∈ seen) then distinct seen rs
      else r :: distinct (seen ++ [cmp_key (ai_addr_ptr r)]) rs
  end.

Definition answers (af count : Z) (res : list addrinfo) : list addrinfo :=
  take (Z.to_nat count) (distinct [] (filter (fun r => useful af r = true) res)).

(** The name of an answer is its canonical name, or the name asked for. *)
Definition name_of (nodecopy : list Z) r : list Z :=
  match ai_canonname_ptr r with
  | Some n => c_chars n
  | None => nodecopy
  end.

(** A slot holds an answer: its address, and its name, cut to the slot. *)
Definition holds (nodecopy : list Z) x r : Prop :=
  (exists rest, ai_addr x = ai_addr_ptr r ++ rest) /\
  (exists rest, ai_canonname x = truncated PJ_MAX_HOSTNAME (name_of nodecopy r) ++ rest).

(** ** Keys of longer buffers *)

Lemma key_app (b t : list Z) : sockaddr_ok b -> octets t ->
  sockaddr_ok (b ++ t) /\ cmp_key (b ++ t) = cmp_key b.
Proof.
  intros Hb Ht. pose proof (ok_length b Hb) as L. destruct Hb as (Ho & Hf & Hl).
  assert (Ef : family_of (b ++ t) = family_of b) by (unfold family_of; by rewrite take_app_le by lia).
  assert (Ed : forall n k, (n + k <= length b)%nat -> take k (drop n (b ++ t)) = take k (drop n b)).
  { intros n k Hk. rewrite drop_app_le by lia. by rewrite take_app_le by (rewrite length_drop; lia). }
  split.
  - split_and!; [by apply Forall_app|by rewrite Ef|]. rewrite Ef, length_app.
    destruct (family_of b =? PJ_AF_INET6); lia.
  - unfold cmp_key, addr_of, port_of. rewrite Ef, (Ed 2%nat 2%nat) by lia.
    destruct (family_of b =? PJ_AF_INET6); by rewrite Ed by lia.
Qed.

(** ** Duplicates *)

Lemma holds_key nodecopy x r : answer_ok r -> slot_ok x -> holds nodecopy x r ->
  sockaddr_ok (ai_addr x) /\ cmp_key (ai_addr x) = cmp_key (ai_addr_ptr r).
Proof.
  intros (Hr & _) (_ & _ & Hx) ((rest & E) & _). rewrite E in *. apply key_app; [done|].
  unfold octets in *. by apply Forall_app in Hx as [_ ?].
Qed.

Lemma duplicate_spec nodecopy ks ai r : answer_ok r -> Forall answer_ok ks -> Forall slot_ok ai ->
  Forall2 (holds nodecopy) (take (length ks) ai) ks -> (length ks <= length ai)%nat ->
  duplicate_of (length ks) ai (ai_addr_ptr r) =
  Some (bool_decide (cmp_key (ai_addr_ptr r) ∈ map (fun k => cmp_key (ai_addr_ptr k)) ks)).
Proof.
  intros Hr Hks. revert ai. induction Hks as [|k ks Hk _ IH]; intros ai Hai Hh Hl.
  - done.
  - destruct ai as [|x ai]; [simpl in Hl; lia|]. simpl in Hh. inversion_clear Hh as [|???? Hxk Hh'].
    inversion_clear Hai as [|?? Hx Hai']. cbn [duplicate_of length map].
    destruct (holds_key nodecopy x k Hk Hx Hxk) as [Hok Ek]. rewrite cmp_lex by (done || apply Hr). bind_step.
    rewrite Ek. destruct (Z.eqb_spec (lex (cmp_key (ai_addr_ptr k)) (cmp_key (ai_addr_ptr r))) 0) as [E|E].
    + apply lex_eq in E. rewrite E. f_equal. symmetry. apply bool_decide_eq_true_2. by left.
    + rewrite IH by (done || simpl in Hl; lia). f_equal. apply bool_decide_ext. rewrite elem_of_cons.
      split; [by right|]. intros [E'|]; [|done]. destruct E. by apply lex_eq.
Qed.

(** ** The loop *)

Lemma c_string_chars n cs : c_string n cs -> c_chars n = cs.
Proof.
  intros (Hz & junk & ->). induction cs as [|c cs IH]; [done|]. apply not_elem_of_cons in Hz as [Hc Hz]. simpl.
  destruct (Z.eqb_spec c 0) as [->|_]; [done|]. by rewrite IH.
Qed.

Lemma c_chars_nonzero l : 0 ∉ c_chars l.
Proof.
  induction l as [|c l IH]; simpl; [apply not_elem_of_nil|].
  destruct (Z.eqb_spec c 0) as [_|?]; [apply not_elem_of_nil|]. by apply not_elem_of_cons.
Qed.

Lemma store_name_spec name src cs : Z.of_nat (length name) = PJ_MAX_HOSTNAME -> c_string src cs -> exists out rest,
  store_name name src = Some out /\ length out = length name /\ out = truncated PJ_MAX_HOSTNAME cs ++ rest.
Proof.
  intros L Hs. unfold store_name. rewrite (strxcpy_spec _ _ _ Hs) by done. rewrite bind_some_eq. cbv beta iota.
  assert (Ht : Z.of_nat (length (truncated PJ_MAX_HOSTNAME cs)) <= PJ_MAX_HOSTNAME).
  { unfold truncated, PJ_MAX_HOSTNAME. change (254 =? 0) with false. cbv iota.
    rewrite length_app, length_take. cbn [length]. lia. }
  do 2 eexists. split; [apply write_at_in; lia|]. split; [|done].
  rewrite !length_app, length_drop, length_take. lia.
Qed.

(** The state of the loop after the answers that led to [ks]. *)
Record loop_inv (nodecopy : list Z) (ks : list addrinfo) (ai : list pj_addrinfo) : Prop := {
  li_slots : Forall slot_ok ai;
  li_room : (length ks <= length ai)%nat;
  li_ok : Forall answer_ok ks;
  li_holds : Forall2 (holds nodecopy) (take (length ks) ai) ks
}.

Lemma loop_inv_store nodecopy ks ai r x : loop_inv nodecopy ks ai -> (length ks < length ai)%nat ->
  answer_ok r -> slot_ok x -> holds nodecopy x r ->
  loop_inv nodecopy (ks ++ [r]) (<[length ks := x]> ai).
Proof.
  intros [Hs Hroom Hok Hh] Hl Hr Hx Hxr. split.
  - by apply Forall_insert.
  - rewrite length_app, length_insert. simpl. lia.
  - apply Forall_app. by split; [|constructor].
  - rewrite length_app. simpl. rewrite Nat.add_1_r.
    rewrite (take_S_r _ _ x) by by rewrite list_lookup_insert_eq. rewrite take_insert_ge by lia.
    apply Forall2_app; [done|by constructor].
Qed.

(** From the [n]-th slot on the addresses are as they were, and behind it the
    names are, too. *)
Definition untouched (n : nat) (ai ai' : list pj_addrinfo) : Prop :=
  map ai_addr (drop n ai') = map ai_addr (drop n ai) /\
  drop (Datatypes.S n) ai' = drop (Datatypes.S n) ai.

Lemma untouched_refl n ai : untouched n ai ai.
Proof. done. Qed.

Lemma untouched_trans n m ai ai1 ai2 : (n <= m)%nat ->
  untouched n ai ai1 -> untouched m ai1 ai2 -> untouched m ai ai2.
Proof.
  intros Hnm [H1 H2] [H3 H4]. unfold untouched. rewrite H3, H4.
  replace m with (n + (m - n))%nat by lia. rewrite <-!drop_drop. split.
  - rewrite <-!(skipn_map _ (m - n)). by rewrite H1.
  - change (Datatypes.S (n + (m - n))) with (Datatypes.S n + (m - n))%nat. by rewrite <-!drop_drop, H2.
Qed.

(** The name of the next slot written over, and the next slot filled. *)
Lemma untouched_name (ai : list pj_addrinfo) i x name : ai !! i = Some x ->
  untouched i ai (<[i := mk_pj_addrinfo name (ai_addr x)]> ai).
Proof.
  intros Hi. split; [|by rewrite drop_insert_lt by lia].
  rewrite !(drop_S _ _ _ Hi), (drop_S _ (mk_pj_addrinfo name (ai_addr x)) i), drop_insert_lt by
    (lia || by apply list_lookup_insert_eq, (lookup_lt_Some _ _ _ Hi)).
  done.
Qed.

Lemma untouched_filled (ai : list pj_addrinfo) i x :
  untouched (Datatypes.S i) ai (<[i := x]> ai).
Proof. unfold untouched. by rewrite !drop_insert_lt by lia. Qed.

Definition keys (ks : list addrinfo) : list (list Z) := map (fun k => cmp_key (ai_addr_ptr k)) ks.

Lemma store_answer_spec af nodecopy r ks ai : loop_inv nodecopy ks ai ->
  (wanted af r = true -> answer_ok r) -> (length ks < length ai)%nat -> 0 ∉ nodecopy -> exists ai',
  let keep := useful af r && negb (bool_decide (cmp_key (ai_addr_ptr r) ∈ keys ks)) in
  let ks' := if keep then ks ++ [r] else ks in
  store_answer af nodecopy r (Z.of_nat (length ks)) ai = Some (Z.of_nat (length ks'), ai') /\
  loop_inv nodecopy ks' ai' /\ length ai' = length ai /\ untouched (length ks') ai ai'.
Proof.
  intros Hi Hr Hl Hz. pose proof Hi as Hi0. unfold store_answer, useful.
  destruct (wanted af r); simpl negb; cbv iota; [|by exists ai]. specialize (Hr eq_refl). pose proof Hr as Hr0.
  rewrite Nat2Z.id. destruct Hi as [Hs Hroom Hok Hh]. rewrite (duplicate_spec nodecopy) by done. bind_step.
  fold (keys ks). destruct (bool_decide _); [rewrite andb_false_r; by exists ai|].
  destruct (lookup_lt_is_Some_2 ai (length ks) Hl) as [x Ex].
  assert (Hx : slot_ok x) by (by apply (Forall_lookup_1 _ _ _ _ Hs Ex)).
  rewrite arr_get_nat, Ex. bind_step. destruct Hx as (Ln & La & Oa).
  destruct Hr as (Hra & Hlen & Hname).
  assert (exists src cs, default (nodecopy ++ [0]) (ai_canonname_ptr r) = src /\ c_string src cs /\
    name_of nodecopy r = cs) as (src & cs & -> & Hcs & Hnm).
  { unfold name_of. destruct (ai_canonname_ptr r) as [n|].
    - destruct (Hname n eq_refl) as [cs Hcs]. exists n, cs. split_and!; [done..|by apply c_string_chars].
    - exists (nodecopy ++ [0]), nodecopy. split_and!; [done|split; [done|by exists []]|done]. }
  destruct (store_name_spec (ai_canonname x) src cs Ln Hcs) as (out & rest & -> & Lo & Eo). bind_step.
  rewrite arr_set_in by lia. bind_step. rewrite Nat2Z.id.
  set (ai1 := <[length ks := mk_pj_addrinfo out (ai_addr x)]> ai).
  destruct (Z.leb_spec (ai_addrlen r) sizeof_sockaddr) as [Hsz|Hsz]; simpl negb; cbv iota.
  - rewrite bytes_at_in by lia. rewrite take_ge by (rewrite length_drop; lia). change (Z.to_nat 0) with 0%nat.
    rewrite drop_0. bind_step.
    rewrite write_at_in by (unfold sizeof_sockaddr in Hsz; lia). change (Z.to_nat 0) with 0%nat. rewrite take_0, app_nil_l.
    bind_step. rewrite arr_set_in by (unfold ai1; rewrite length_insert; lia). bind_step. rewrite Nat2Z.id. unfold ai1.
    rewrite list_insert_insert_eq. eexists. cbv zeta. cbn [andb negb]. split; [by rewrite length_app, Nat2Z.inj_add|].
    split; [|split; [by rewrite length_insert|rewrite length_app, Nat.add_1_r; apply untouched_filled]].
    apply (loop_inv_store _ _ _ _ _ Hi0 Hl Hr0).
    + split_and!; simpl; [by rewrite Lo|rewrite length_app, length_drop; unfold sizeof_sockaddr in *; lia|].
      apply Forall_app. split; [apply Hra|by apply Forall_drop].
    + split; [by eexists|]. rewrite Hnm. by exists rest.
  - eexists. cbv zeta. cbn [andb negb]. split; [done|].
    split; [|split; [by unfold ai1; rewrite length_insert|by apply untouched_name]].
    split; [| |done|].
    + apply Forall_insert; [done|]. split_and!; simpl; [by rewrite Lo|done..].
    + unfold ai1. rewrite length_insert. lia.
    + unfold ai1. by rewrite take_insert_ge by lia.
Qed.

(** The loop goes on as the specification does. *)
Lemma store_answers_spec af nodecopy count res ks ai : loop_inv nodecopy ks ai ->
  Forall (fun r => wanted af r = true -> answer_ok r) res -> 0 ∉ nodecopy ->
  (length ks <= Z.to_nat count)%nat -> (Z.to_nat count <= length ai)%nat -> exists ai',
  let ks' := ks ++ take (Z.to_nat count - length ks)
                     (distinct (keys ks) (filter (fun r => useful af r = true) res)) in
  store_answers af nodecopy res count (Z.of_nat (length ks)) ai = Some (Z.of_nat (length ks'), ai') /\
  loop_inv nodecopy ks' ai' /\ length ai' = length ai /\ untouched (length ks') ai ai'.
Proof.
  intros Hi Hres Hz. revert ks ai Hi. induction Hres as [|r res Hr _ IH]; intros ks ai Hi Hk Hc.
  { exists ai. cbn [filter list_filter distinct store_answers]. rewrite take_nil, app_nil_r. done. }
  cbn [store_answers]. destruct (Z.ltb_spec (Z.of_nat (length ks)) count).
  - destruct (store_answer_spec af nodecopy r ks ai Hi Hr) as (ai1 & E & Hi1 & L1 & U1); [lia|done|].
    cbv zeta in E, Hi1, U1.
    set (ks1 := if useful af r && negb (bool_decide (cmp_key (ai_addr_ptr r) ∈ keys ks)) then ks ++ [r] else ks) in *.
    rewrite E, bind_some_eq. cbv beta iota.
    assert ((length ks1 <= Z.to_nat count)%nat /\
      ks1 ++ take (Z.to_nat count - length ks1) (distinct (keys ks1) (filter (fun r => useful af r = true) res)) =
      ks ++ take (Z.to_nat count - length ks) (distinct (keys ks) (filter (fun r => useful af r = true) (r :: res))))
      as [Hk1 Ek].
    { unfold ks1. destruct (useful af r) eqn:Eu; simpl andb; cbv iota.
      - rewrite filter_cons_True by done. cbn [distinct].
        destruct (decide (cmp_key (ai_addr_ptr r) ∈ keys ks)) as [Hd|Hd].
        + rewrite bool_decide_eq_true_2 by done. simpl negb. cbv iota. split; [lia|done].
        + rewrite bool_decide_eq_false_2 by done. simpl negb. cbv iota.
          unfold keys. rewrite map_app, length_app. simpl length. split; [lia|].
          replace (Z.to_nat count - length ks)%nat with (Datatypes.S (Z.to_nat count - (length ks + 1))) by lia.
          by rewrite <- app_assoc.
      - rewrite filter_cons_False by congruence. split; [lia|done]. }
    destruct (IH ks1 ai1 Hi1 Hk1) as (ai' & E' & Hi' & L' & U'); [lia|].
    rewrite Ek in E', Hi', U'. exists ai'. split_and!; [done|done|congruence|].
    eapply untouched_trans; [|exact U1|exact U']. rewrite <-Ek, length_app. lia.
  - exists ai. replace (Z.to_nat count - length ks)%nat with 0%nat by lia. rewrite take_0, app_nil_r. done.
Qed.

Lemma distinct_NoDup seen rs : NoDup seen -> NoDup (seen ++ keys (distinct seen rs)).
Proof.
  revert seen. induction rs as [|r rs IH]; intros seen Hs; cbn [distinct]; [by rewrite app_nil_r|].
  destruct (decide _) as [|Hn]; [by apply IH|]. cbn [keys map].
  specialize (IH (seen ++ [cmp_key (ai_addr_ptr r)])). rewrite <- app_assoc in IH. apply IH.
  apply NoDup_app. split_and!; [done| |apply NoDup_singleton]. by intros k Hk ->%list_elem_of_singleton.
Qed.

Lemma answers_NoDup af count res : NoDup (keys (answers af count res)).
Proof.
  unfold answers. set (rs := filter _ res). pose proof (distinct_NoDup [] rs NoDup_nil_2) as Hn.
  unfold keys in *. rewrite <- firstn_map. by apply (sublist_NoDup _ _ Hn), sublist_take.
Qed.

(** C17 A name that the system resolves: [pj_getaddrinfo] stores the wanted answers
    that fit into an address, in the order of the system and without
    repetitions, as many as there is room for, each with its name; it succeeds
    exactly when there is one.  The slots behind keep their addresses and, but
    for the first of them, their names, which a wanted answer that does not fit
    may have written over. *)
Theorem getaddrinfo_correct (s s' : S) af nodename count ai res :
  af = PJ_AF_UNSPEC \/ af = PJ_AF_INET \/ af = PJ_AF_INET6 ->
  nodename <> [] -> Z.of_nat (length nodename) < PJ_MAX_HOSTNAME ->
  0 < count <= Z.of_nat (length ai) -> Forall slot_ok ai ->
  getaddrinfo s (c_chars nodename) af 0 false = (0, res, s') ->
  Forall (fun r => wanted af r = true -> answer_ok r) res ->
  let found := answers af count res in exists ai',
  pj_getaddrinfo s af nodename count ai =
    Some (if (length found =? 0)%nat then PJ_ERESOLVE else PJ_SUCCESS, Z.of_nat (length found), ai', s') /\
  Forall2 (holds (c_chars nodename)) (take (length found) ai') found /\ NoDup (keys found) /\
  Forall slot_ok ai' /\ length ai' = length ai /\ untouched (length found) ai ai'.
Proof.
  intros Ha Hne Hl Hc Hs Eg Hr found. unfold pj_getaddrinfo.
  assert (is_inet af || (af =? PJ_AF_UNSPEC) = true) as ->.
  { unfold is_inet. destruct Ha as [->|[->| ->]]; by rewrite Z.eqb_refl, ?orb_true_r. }
  rewrite (proj2 (Z.eqb_neq count 0)), (proj2 (Z.eqb_neq (Z.of_nat (length nodename)) 0)) by (destruct nodename; simpl; done || lia).
  rewrite (proj2 (Z.leb_gt _ _)) by done. simpl orb. simpl negb. cbv iota. unfold resolve_node. rewrite Eg.
  simpl negb. cbv iota.
  destruct (store_answers_spec af (c_chars nodename) count res [] ai) as (ai' & E & [H1 H2 H3 H4] & L & U);
    [by split; simpl; [|lia|constructor..]|done|apply c_chars_nonzero|simpl; lia|lia|].
  cbn [length app keys map] in *. rewrite Nat.sub_0_r in *. fold (answers af count res) in E, H4, U.
  fold found in E, H4, U.
  change (Z.of_nat 0) with 0 in E. rewrite E, bind_some_eq. cbv beta iota. exists ai'. split_and!; [|done|apply answers_NoDup|done..].
  destruct found; simpl; done.
Qed.
End Resolution.
