(* ===== verification/SockAddrRoundtrip.v ===== *)
(** * Printed addresses parse back

    What the operations that set an address leave in it, what
    [pj_sockaddr_print] prints, and that [pj_sockaddr_parse] finds the address
    printed. *)
From S2P Require Import Prelude Bytes Hash PjString PjStringSpec SockBsd SockAddr SockAddrSpec SockAddrParse AddrResolv.

(** What is relied on of the text functions of the system, for addresses of
    both families: a buffer of the documented size is enough, the text of an
    address has the characters of its notation, and it is read back. *)
Class TextLaws (S : Type) `{!AddressConstants} `{!SystemAddresses S} : Prop := {
  ntop_inet s a size : length a = 4%nat -> octets a -> PJ_INET_ADDRSTRLEN <= size -> exists t s',
    inet_ntop s PJ_AF_INET a size = (Some t, s') /\ t <> [] /\
    Forall (fun c => decimal c \/ c = 46) t /\ Z.of_nat (length t) < PJ_INET_ADDRSTRLEN /\ inet_addr t = of_le a;
  ntop_inet6 s a size : length a = 16%nat -> octets a -> PJ_INET6_ADDRSTRLEN <= size -> exists t s',
    inet_ntop s PJ_AF_INET6 a size = (Some t, s') /\ 1 < colons t /\
    Forall (fun c => pj_isxdigit c = true \/ c = 46 \/ c = 58) t /\ Z.of_nat (length t) < PJ_INET6_ADDRSTRLEN /\
    forall s, exists s', inet_pton s PJ_AF_INET6 t = (Some a, s')
}.

(** ** Fields after writes *)

Lemma write_28 a off bs : length a = 28%nat -> octets a -> octets bs -> 0 <= off ->
  off + Z.of_nat (length bs) <= 28 -> exists a',
  write_at a off bs = Some a' /\ length a' = 28%nat /\ octets a' /\
  bytes_at a' off (Z.of_nat (length bs)) = Some bs /\
  forall o n, o + n <= off \/ off + Z.of_nat (length bs) <= o -> bytes_at a' o n = bytes_at a o n.
Proof.
  intros L Ho Hb H1 H2. eexists. split; [apply write_at_in; lia|]. set (a' := take _ _ ++ _).
  assert (E : write_at a off bs = Some a') by (apply write_at_in; lia).
  split_and!; [by rewrite (write_at_length _ _ _ _ E)|by apply (write_at_octets _ _ _ _ E)
              |by apply (read_write_eq _ _ _ _ _ E)|]. intros o n. by apply (read_write_other _ _ _ _ _ _ E).
Qed.

Ltac store a off bs a' E L O F K :=
  destruct (write_28 a off bs) as (a' & E & L & O & F & K);
  [done|done|first [by apply to_le_octets|by repeat constructor|done]|lia
  |rewrite ?length_to_le, ?length_replicate; simpl; lia|];
  rewrite ?length_to_le, ?length_replicate in F, K.

Lemma htons_bytes p : 0 <= p < 2 ^ 16 -> pj_htons p = of_le [p / 256; p mod 256].
Proof.
  intros Hp. unfold pj_htons. rewrite <- (ntohs_bytes (p mod 256) (p / 256)) by div_lia.
  f_equal. simpl. div_lia.
Qed.

Section Fields.
Context `{AC : !AddressConstants} `{FL : !FamilyLaws}.

(** An address is known by the bytes of its fields. *)
Lemma fields_of a f p x : length a = 28%nat -> octets a -> is_inet f = true -> 0 <= p < 2 ^ 16 ->
  bytes_at a 0 2 = Some (to_le 2 f) -> bytes_at a 2 2 = Some (to_le 2 (pj_htons p)) ->
  (if f =? PJ_AF_INET6 then bytes_at a 8 16 else bytes_at a 4 4) = Some x ->
  sockaddr_ok a /\ family_of a = f /\ port_of a = p /\ addr_of a = x.
Proof.
  intros L Ho Hf Hp E0 E2 Ex. pose proof inet_width. pose proof inet6_width.
  assert (Hw : 0 <= f < 2 ^ (8 * Z.of_nat 2)) by (unfold is_inet in Hf; simpl; lia).
  rewrite bytes_at_in in E0, E2 by lia. apply (inj Some) in E0, E2.
  assert (Ef : family_of a = f).
  { unfold family_of. change (take 2 a) with (take (Z.to_nat 2) (drop (Z.to_nat 0) a)). rewrite E0. by apply of_to_le. }
  split; [split_and!; [done|by rewrite Ef|destruct (family_of a =? PJ_AF_INET6); rewrite L; lia]|]. split; [done|]. split.
  - unfold port_of. change (take 2 (drop 2 a)) with (take (Z.to_nat 2) (drop (Z.to_nat 2) a)).
    rewrite E2, htons_bytes by done.
    assert (to_le 2 (of_le [p / 256; p mod 256]) = [p / 256; p mod 256]) as ->.
    { apply (to_of_le [p / 256; p mod 256]). repeat constructor; div_lia. }
    simpl. div_lia.
  - unfold addr_of. rewrite Ef. destruct (_ =? _); rewrite bytes_at_in in Ex by lia; by injection Ex.
Qed.
End Fields.

(** ** Setting an address *)

Section Set_.
Context `{SC : !SystemConstants} `{AC : !AddressConstants} `{FL : !FamilyLaws} {S : Type} `{SS : !SystemSockets S}
  `{SA : !SystemAddresses S} (junk : pj_addrinfo).
Implicit Types (s : S).

Lemma c_chars_all l : 0 ∉ l -> c_chars l = l.
Proof.
  induction l as [|c l IH]; [done|]. intros [Hc Hl]%not_elem_of_cons. simpl.
  destruct (Z.eqb_spec c 0) as [->|_]; [done|]. by rewrite IH.
Qed.

Lemma c_chars_end l : 0 ∉ l -> c_chars (l ++ [0]) = l.
Proof.
  induction l as [|c l IH]; [done|]. intros [Hc Hl]%not_elem_of_cons. simpl.
  destruct (Z.eqb_spec c 0) as [->|_]; [done|]. by rewrite IH.
Qed.

Lemma inet_addr_short t : t <> [] -> Z.of_nat (length t) < PJ_INET_ADDRSTRLEN -> 0 ∉ t ->
  pj_inet_addr t = inet_addr t.
Proof.
  intros Hne Hl Hz. unfold pj_inet_addr, pj_inet_aton. destruct t as [|c t]; [done|].
  rewrite (proj2 (Z.leb_gt _ _)) by done. cbv zeta. cbn [snd]. by rewrite c_chars_all.
Qed.

(** A numeric IPv4 address other than the broadcast address. *)
Lemma init_inet s a t port : length a = 28%nat -> octets a -> 0 <= port < 2 ^ 16 ->
  t <> [] -> Z.of_nat (length t) < PJ_INET_ADDRSTRLEN -> 0 ∉ t ->
  0 <= inet_addr t < PJ_INADDR_NONE -> exists a',
  pj_sockaddr_init junk s PJ_AF_INET a (Some t) port = Some (PJ_SUCCESS, a', s) /\
  length a' = 28%nat /\ sockaddr_ok a' /\ family_of a' = PJ_AF_INET /\ port_of a' = port /\
  addr_of a' = to_le 4 (inet_addr t).
Proof.
  intros L Ho Hp Hne Hl Hz Hv. unfold pj_sockaddr_init, pj_sockaddr_in_init. rewrite Z.eqb_refl.
  store a 0 (to_le 2 PJ_AF_INET) a1 E1 L1 O1 F1 K1.
  store a1 8 (replicate 8 0) a2 E2 L2 O2 F2 K2.
  store a2 2 (to_le 2 (pj_htons port)) a3 E3 L3 O3 F3 K3.
  store a3 0 (to_le 2 PJ_AF_INET) a4 E4 L4 O4 F4 K4.
  store a4 8 (replicate 8 0) a5 E5 L5 O5 F5 K5.
  store a5 4 (to_le 4 (inet_addr t)) a6 E6 L6 O6 F6 K6.
  unfold set_family, zero_pad, pj_sockaddr_in_set_port, set_sin_port.
  rewrite E1. bind_step. rewrite E2. bind_step. rewrite E3. bind_step.
  unfold pj_sockaddr_in_set_str_addr. simpl default. unfold PJ_INET_ADDRSTRLEN, PJ_MAX_HOSTNAME in *.
  rewrite (proj2 (Z.ltb_lt _ _)) by lia. simpl negb. cbv iota. unfold set_family, zero_pad.
  rewrite E4. bind_step. rewrite E5. bind_step. destruct t as [|c t]; [done|].
  rewrite inet_addr_short by done. unfold set_s_addr. rewrite E6. bind_step.
  rewrite (proj2 (Z.eqb_neq _ _)) by lia. exists a6. split; [done|]. split; [done|].
  apply fields_of; [done..| | | | |].
  - unfold is_inet. by rewrite Z.eqb_refl.
  - done.
  - rewrite K6, K5 by lia. exact F4.
  - rewrite K6, K5, K4 by lia. exact F3.
  - rewrite (proj2 (Z.eqb_neq _ _)) by apply inet_inet6. exact F6.
Qed.

(** A numeric IPv6 address. *)
Lemma init_inet6 s s' a t x port : length a = 28%nat -> octets a -> 0 <= port < 2 ^ 16 ->
  t <> [] -> Z.of_nat (length t) < PJ_INET6_ADDRSTRLEN -> 0 ∉ t ->
  inet_pton s PJ_AF_INET6 t = (Some x, s') -> length x = 16%nat -> octets x -> exists a',
  pj_sockaddr_init junk s PJ_AF_INET6 a (Some t) port = Some (PJ_SUCCESS, a', s') /\
  length a' = 28%nat /\ sockaddr_ok a' /\ family_of a' = PJ_AF_INET6 /\ port_of a' = port /\ addr_of a' = x.
Proof.
  intros L Ho Hp Hne Hl Hz Ept Lx Ox. unfold pj_sockaddr_init.
  rewrite (proj2 (Z.eqb_neq PJ_AF_INET6 PJ_AF_INET)), Z.eqb_refl by (pose proof inet_inet6; congruence).
  simpl negb. cbv iota. change (Z.to_nat sizeof_sockaddr_in6) with 28%nat.
  store a 0 (replicate 28 0) a1 E1 L1 O1 F1 K1.
  store a1 0 (to_le 2 PJ_AF_INET6) a2 E2 L2 O2 F2 K2.
  store a2 0 (to_le 2 PJ_AF_INET6) a3 E3 L3 O3 F3 K3.
  destruct (write_28 a3 8 x) as (a4 & E4 & L4 & O4 & F4 & K4); [done|done|done|lia|lia|].
  rewrite Lx in F4, K4.
  store a4 2 (to_le 2 (pj_htons port)) a5 E5 L5 O5 F5 K5.
  unfold set_family. rewrite E1. bind_step. rewrite E2. bind_step. unfold pj_sockaddr_set_str_addr.
  rewrite (proj2 (Z.eqb_neq PJ_AF_INET6 PJ_AF_INET)), Z.eqb_refl by (pose proof inet_inet6; congruence).
  simpl negb. cbv iota. unfold set_family. rewrite E3. bind_step. simpl default.
  destruct t as [|c t]; [done|]. unfold pj_inet_pton, is_inet. rewrite Z.eqb_refl, orb_true_r. simpl negb. cbv iota.
  rewrite (proj2 (Z.leb_gt _ _)), c_chars_all, Ept by done. cbn [store_opt]. rewrite E4. bind_step.
  rewrite Z.eqb_refl. simpl negb. cbv iota. bind_step. rewrite Z.eqb_refl. simpl negb. cbv iota.
  unfold set_sin_port. rewrite E5. bind_step. exists a5. split; [done|]. split; [done|].
  apply fields_of; [done..| | | | |].
  - unfold is_inet. by rewrite Z.eqb_refl, orb_true_r.
  - done.
  - rewrite K5, K4 by lia. exact F3.
  - exact F5.
  - rewrite Z.eqb_refl, K5 by lia. exact F4.
Qed.
End Set_.

(** ** Printing *)

Lemma utoa_digits_bound fuel val ds k : utoa_digits fuel val = Some ds -> 0 <= val < 10 ^ Z.of_nat k ->
  (0 < k)%nat -> (length ds <= k)%nat.
Proof.
  revert val ds k. induction fuel as [|fuel IH]; intros val ds k; [done|]. cbn [utoa_digits]. intros E Hv Hk.
  destruct (Z.ltb_spec 0 (val / 10)); [|injection E as <-; simpl; lia]. bind_inv E. injection E as <-.
  destruct k as [|[|k]]; [lia|simpl in Hv; div_lia|]. simpl.
  assert (val / 10 < 10 ^ Z.of_nat (Datatypes.S k)).
  { apply Z.div_lt_upper_bound; [lia|]. rewrite (Nat2Z.inj_succ (Datatypes.S k)), Z.pow_succ_r in Hv; lia. }
  apply le_n_S, (IH (val / 10)); [done|lia|lia].
Qed.

(** The decimal digits of a port. *)
Lemma fmt_port p : 0 <= p < 2 ^ 16 -> exists ds,
  fmt_d p = Some ds /\ Forall decimal ds /\ port_value ds = p /\ (length ds <= 5)%nat.
Proof.
  intros Hp. destruct (utoa_digits_spec 20 p) as (ds & E & Hd & Hn & _); [lia|lia|].
  exists (reverse ds). unfold fmt_d. rewrite E. split_and!.
  - simpl. f_equal. apply rev_alt.
  - by apply Forall_reverse.
  - unfold port_value. rewrite Hn. by apply u32_small; lia.
  - rewrite length_reverse. by apply (utoa_digits_bound 20 p); [|lia|lia].
Qed.

Section Roundtrip.
Context `{SC : !SystemConstants} `{AC : !AddressConstants} `{FL : !FamilyLaws} {S : Type} `{SS : !SystemSockets S}
  `{SA : !SystemAddresses S} `{TL : !TextLaws S} (junk : pj_addrinfo).
Implicit Types (s : S).

(** What is printed of the port and of the address. *)
Definition port_text (flags p : Z) (ds : list Z) : Prop :=
  if WITH_PORT flags then exists d, ds = 58 :: d /\ Forall decimal d /\ port_value d = p /\ (length d <= 5)%nat
  else ds = [].

Definition quoted (b : bool) (t : list Z) : list Z := if b then 91 :: t ++ [93] else t.

Lemma port_of_bound a : sockaddr_ok a -> 0 <= port_of a < 2 ^ 16.
Proof.
  intros Ha. pose proof (ok_length a Ha). destruct Ha as (Ho & _). unfold port_of.
  pose proof (of_le_bound (rev (take 2 (drop 2 a)))) as Hb. rewrite length_rev, length_take, length_drop in Hb.
  replace (2 `min` (length a - 2))%nat with 2%nat in Hb by lia.
  apply Hb. apply Forall_rev. by apply octets_field.
Qed.

Lemma printed_port flags a : sockaddr_ok a -> exists ds,
  port_text flags (port_of a) ds /\
  (port ← (if WITH_PORT flags then p ← pj_sockaddr_get_port a; d ← fmt_d p; snprintf 32 (58 :: d) else Some [0]);
   Some (c_chars port)) = Some ds.
Proof.
  intros Ha. unfold port_text. destruct (WITH_PORT flags); [|by exists []].
  destruct (fmt_port _ (port_of_bound a Ha)) as (d & E & Hd & Hv & Hl). exists (58 :: d). split; [by exists d|].
  rewrite get_port_of by done. bind_step. rewrite E. bind_step. unfold snprintf.
  change (32 <? 0) with false. change (32 =? 0) with false. cbv iota. bind_step.
  rewrite take_ge by (simpl; lia). f_equal. apply c_chars_end. intros [?|Hz]%elem_of_cons; [done|].
  rewrite Forall_forall in Hd. specialize (Hd 0 Hz). simpl in Hd. lia.
Qed.

Lemma printed s a size flags : sockaddr_ok a -> PJ_INET6_ADDRSTRLEN + 10 <= size -> exists t ds s',
  pj_sockaddr_print s a size flags = Some (Some ((quoted ((family_of a =? PJ_AF_INET6) && WITH_BRACKETS flags) t ++ ds) ++ [0]), s') /\
  port_text flags (port_of a) ds /\
  inet_ntop s (family_of a) (addr_of a) PJ_INET6_ADDRSTRLEN = (Some t, s').
Proof.
  intros Ha Hs. pose proof (addr_of_length a Ha) as L. pose proof (addr_of_octets a Ha) as Ho.
  assert (exists t s', inet_ntop s (family_of a) (addr_of a) PJ_INET6_ADDRSTRLEN = (Some t, s') /\
    Z.of_nat (length t) < PJ_INET6_ADDRSTRLEN) as (t & s' & E & Hl).
  { destruct Ha as (_ & Hf & _). destruct (Z.eqb_spec (family_of a) PJ_AF_INET6) as [E6|E6].
    - rewrite E6. destruct (ntop_inet6 s (addr_of a) PJ_INET6_ADDRSTRLEN) as (t & s' & ? & _ & _ & ? & _); [done..|]. eauto.
    - assert (family_of a = PJ_AF_INET) as -> by (unfold is_inet in Hf; lia).
      destruct (ntop_inet s (addr_of a) PJ_INET6_ADDRSTRLEN) as (t & s' & ? & _ & _ & ? & _); [done..|].
      exists t, s'. split; [done|]. unfold PJ_INET_ADDRSTRLEN, PJ_INET6_ADDRSTRLEN in *. lia. }
  destruct (printed_port flags a Ha) as (ds & Hds & Ep). exists t, ds, s'.
  split; [|done]. unfold pj_sockaddr_print. pose proof (ok_length a Ha). rewrite sa_family_of by lia. bind_step.
  rewrite addr_part_of by done. bind_step. unfold pj_inet_ntop.
  change (PJ_INET6_ADDRSTRLEN =? 0) with false. destruct Ha as (_ & Hf & _). rewrite Hf, E. simpl negb. cbv iota.
  rewrite <- negb_andb. destruct ((family_of a =? PJ_AF_INET6) && WITH_BRACKETS flags); simpl negb; cbv iota;
    bind_inv Ep; rewrite E0; bind_step; injection Ep as ->; unfold snprintf, quoted;
    unfold PJ_INET6_ADDRSTRLEN in *; rewrite (proj2 (Z.ltb_ge _ _)), (proj2 (Z.eqb_neq _ _)) by lia; bind_step;
    (rewrite take_ge; [|unfold port_text in Hds; destruct (WITH_PORT flags); [destruct Hds as (d & -> & _ & _ & ?)|subst];
      rewrite ?length_app; simpl; rewrite ?length_app; simpl; lia]); simpl; by rewrite <- ?app_assoc.
Qed.

(** Parsing a string of the grammar is setting the address. *)
Lemma parse_of s s' af str b host port raf b' :
  af = PJ_AF_UNSPEC \/ af = PJ_AF_INET \/ af = PJ_AF_INET6 -> address_string af str host port raf ->
  (raf = PJ_AF_INET6 -> PJ_HAS_IPV6 = true) ->
  pj_sockaddr_init junk s raf b (Some host) port = Some (PJ_SUCCESS, b', s') ->
  pj_sockaddr_parse junk s af 0 str b = Some (PJ_SUCCESS, b', s').
Proof.
  intros Ha Hs H6 Ei. unfold pj_sockaddr_parse.
  assert (is_inet af || (af =? PJ_AF_UNSPEC) = true) as ->.
  { unfold is_inet. destruct Ha as [->|[->| ->]]; by rewrite Z.eqb_refl, ?orb_true_r. }
  apply (parse2_accepts af str host port raf Ha) in Hs. unfold accepts in Hs. simpl negb. cbv iota.
  change (negb (0 =? 0)) with false. cbv iota. rewrite Hs. cbv zeta. cbn [p_status p_hostpart p_port p_raf].
  change (negb (PJ_SUCCESS =? PJ_SUCCESS)) with false. cbv iota. do 3 bind_step.
  assert (negb PJ_HAS_IPV6 && (raf =? PJ_AF_INET6) = false) as ->.
  { destruct (Z.eqb_spec raf PJ_AF_INET6); [by rewrite H6|apply andb_false_r]. }
  rewrite Ei, bind_some_eq. cbv beta iota. change (negb (PJ_SUCCESS =? PJ_SUCCESS)) with false.
  by rewrite andb_false_r.
Qed.

Lemma not_in_class (P : Z -> Prop) l c : Forall P l -> ~ P c -> c ∉ l.
Proof. rewrite Forall_forall. intros Hl Hc Hin. by apply Hc, Hl. Qed.

Definition parses_back (af : Z) (txt a : list Z) (port : Z) : Prop :=
  forall s b, length b = 28%nat -> octets b -> exists b' s',
  pj_sockaddr_parse junk s af 0 txt b = Some (PJ_SUCCESS, b', s') /\ sockaddr_ok b' /\
  family_of b' = family_of a /\ addr_of b' = addr_of a /\ port_of b' = port.

Lemma inet_back s s' af a t flags ds : sockaddr_ok a -> family_of a = PJ_AF_INET ->
  of_le (addr_of a) <> PJ_INADDR_NONE -> af = PJ_AF_UNSPEC \/ af = PJ_AF_INET ->
  inet_ntop s PJ_AF_INET (addr_of a) PJ_INET6_ADDRSTRLEN = (Some t, s') -> port_text flags (port_of a) ds ->
  parses_back af (t ++ ds) a (if WITH_PORT flags then port_of a else 0).
Proof.
  intros Ha Hf Hb Haf Ent Hd s2 b Lb Ob.
  pose proof (addr_of_length a Ha) as L. rewrite Hf, (proj2 (Z.eqb_neq _ _) inet_inet6) in L.
  pose proof (addr_of_octets a Ha) as Ho.
  destruct (ntop_inet s (addr_of a) PJ_INET6_ADDRSTRLEN) as (t' & s'' & E & Hne & Hc & Hl & Hv); [done..|].
  rewrite Ent in E. injection E as <- _.
  pose proof (of_le_bound _ Ho) as Hw. rewrite L in Hw. change (2 ^ (8 * Z.of_nat 4)) with (PJ_INADDR_NONE + 1) in Hw.
  assert (Hn0 : 0 ∉ t) by (apply (not_in_class _ _ _ Hc); lia).
  assert (Hn58 : 58 ∉ t) by (apply (not_in_class _ _ _ Hc); lia).
  assert (H6 : af <> PJ_AF_INET6) by (pose proof inet_inet6; pose proof inet6_unspec; intuition congruence).
  assert (Hs : exists p, address_string af (t ++ ds) t p PJ_AF_INET /\ 0 <= p < 2 ^ 16 /\
    p = if WITH_PORT flags then port_of a else 0).
  { unfold port_text in Hd. destruct (WITH_PORT flags).
    - destruct Hd as (d & -> & Hdd & Hp & _). exists (port_of a).
      pose proof (port_of_bound a Ha). rewrite <- Hp in *. split_and!; [|lia..|done]. apply as_port4; done || lia.
    - subst ds. rewrite app_nil_r. exists 0. split_and!; [by apply as_host4|lia..|done]. }
  destruct Hs as (p & Hs & Hp & ->).
  destruct (init_inet junk s2 b t (if WITH_PORT flags then port_of a else 0)) as (b' & Ei & _ & Hok & E1 & E2 & E3); try done; [lia|].
  exists b', s2. split; [|split_and!; [done|congruence| |done]].
  - eapply parse_of; [tauto|exact Hs| |exact Ei]. intros E. by destruct inet_inet6.
  - rewrite E3, Hv. pose proof (to_of_le (addr_of a) Ho) as Et. by rewrite L in Et.
Qed.

Lemma inet6_back s s' af a t flags ds : sockaddr_ok a -> family_of a = PJ_AF_INET6 -> PJ_HAS_IPV6 = true ->
  (WITH_PORT flags = true -> WITH_BRACKETS flags = true) -> af = PJ_AF_UNSPEC \/ af = PJ_AF_INET6 ->
  inet_ntop s PJ_AF_INET6 (addr_of a) PJ_INET6_ADDRSTRLEN = (Some t, s') -> port_text flags (port_of a) ds ->
  parses_back af (quoted (WITH_BRACKETS flags) t ++ ds) a (if WITH_PORT flags then port_of a else 0).
Proof.
  intros Ha Hf Hv6 Hfl Haf Ent Hd s2 b Lb Ob.
  pose proof (addr_of_length a Ha) as L. rewrite Hf, Z.eqb_refl in L. pose proof (addr_of_octets a Ha) as Ho.
  destruct (ntop_inet6 s (addr_of a) PJ_INET6_ADDRSTRLEN) as (t' & s'' & E & Hcol & Hc & Hl & Hback); [done..|].
  rewrite Ent in E. injection E as <- _. destruct (Hback s2) as (s3 & Ept).
  assert (Hn0 : 0 ∉ t) by (apply (not_in_class _ _ _ Hc); unfold pj_isxdigit, pj_isdigit; lia).
  assert (Hn91 : 91 ∉ t) by (apply (not_in_class _ _ _ Hc); unfold pj_isxdigit, pj_isdigit; lia).
  assert (Hn93 : 93 ∉ t) by (apply (not_in_class _ _ _ Hc); unfold pj_isxdigit, pj_isdigit; lia).
  assert (H58 : 58 ∈ t) by (destruct (decide (58 ∈ t)) as [|Hno%colons_none]; [done|lia]).
  assert (Hne : t <> []) by (by intros ->; apply elem_of_nil in H58).
  assert (Hs : exists p, address_string af (quoted (WITH_BRACKETS flags) t ++ ds) t p PJ_AF_INET6 /\ 0 <= p < 2 ^ 16 /\
    p = if WITH_PORT flags then port_of a else 0).
  { unfold port_text in Hd. destruct (WITH_PORT flags).
    - destruct Hd as (d & -> & Hdd & Hp & _). rewrite Hfl by done. exists (port_of a).
      pose proof (port_of_bound a Ha). rewrite <- Hp in *. split_and!; [|lia..|done]. unfold quoted. simpl.
      rewrite <- app_assoc. apply (as_bracket_port af t [] d); [done..|lia|].
      pose proof (colons_nonneg []). destruct Haf as [->| ->]; [right; split; [done|lia]|by left].
    - subst ds. rewrite app_nil_r. exists 0. split_and!; [|lia..|done]. unfold quoted. destruct (WITH_BRACKETS flags).
      + apply as_bracket; [done..|by apply not_elem_of_nil|]. destruct Haf as [->| ->]; auto.
      + apply as_host6; [done| |destruct Haf as [->| ->]; auto].
        destruct t as [|c t]; [done|]. intros [= ->]. destruct Hn91. by left. }
  destruct Hs as (p & Hs & Hp & ->).
  destruct (init_inet6 junk s2 s3 b t (addr_of a) (if WITH_PORT flags then port_of a else 0))
    as (b' & Ei & _ & Hok & E1 & E2 & E3); [done..|].
  exists b', s3. split; [|split_and!; [done|congruence|done..]].
  eapply parse_of; [tauto|exact Hs|done|exact Ei].
Qed.

End Roundtrip.
