(* ===== verification/SockNet.v ===== *)
(** * Sockets with their addresses

    The calls of [pjlib/src/pj/sock_bsd.c] that create, bind and name sockets,
    with the bytes of the addresses, and the operations of
    [pjlib/src/pj/sock_common.c] made of them: binding to a random port, the size
    of the socket buffers, and the pair of connected sockets.  The system calls
    are a class. *)
From S2P Require Import Prelude Bytes Hash PjString SockBsd SockAddr AddrResolv SockAddrSpec SockAddrRoundtrip.

(** The constants of the system's headers.  [PJ_SOCK_CLOEXEC] is the system's
    flag if [native_cloexec], and else one of the library's own. *)
Class NetConstants := {
  native_cloexec : bool;
  PJ_SOCK_CLOEXEC : Z;
  SO_NOSIGPIPE : Z;
  SO_RCVBUF : Z;
  SO_SNDBUF : Z
}.

Class SystemNet (S : Type) := {
  sys_socket : S -> Z -> Z -> Z -> Z * S;
  (** [bind] and [connect] with the bytes of the address. *)
  sys_bind : S -> Z -> list Z -> Z * S;
  sys_connect_to : S -> Z -> list Z -> Z * S;
  sys_listen : S -> Z -> Z -> Z * S;
  (** [getsockname]: the result, and what it stores and the length. *)
  sys_sockname : S -> Z -> Z -> Z * list Z * Z * S;
  (** An option of the level [SOL_SOCKET] with an [int] as its value. *)
  sys_setsockopt : S -> Z -> Z -> Z -> Z * S;
  sys_intopt : S -> Z -> Z -> Z * Z * S;
  (** The [fcntl] calls that set [FD_CLOEXEC]. *)
  sys_cloexec : S -> Z -> Z * S;
  sys_rand : S -> Z * S
}.

Section Net.
Context `{!SystemConstants} `{!AddressConstants} `{!NetConstants} {S : Type}
  `{!SystemSockets S} `{!SystemAddresses S} `{!SystemNet S}.
Implicit Types (s : S).

Definition pj_set_cloexec_flag s (fd : Z) : Z * S :=
  let '(rc, s) := sys_cloexec s fd in
  if rc =? -1 then (PJ_RETURN_OS_ERROR (errno s), s) else (PJ_SUCCESS, s).

Definition wants_cloexec (type : Z) : bool := negb native_cloexec && (Z.land type PJ_SOCK_CLOEXEC =? PJ_SOCK_CLOEXEC).

(** [type &= ~pj_SOCK_CLOEXEC()], if the system does not know the flag. *)
Definition clear_cloexec (type : Z) : Z := if wants_cloexec type then Z.ldiff type PJ_SOCK_CLOEXEC else type.

(** The status and the socket. *)
Definition pj_sock_socket s (af type0 proto : Z) : Z * Z * S :=
  let type := clear_cloexec type0 in
  let '(sock, s) := sys_socket s af type proto in
  if sock =? PJ_INVALID_SOCKET then (PJ_RETURN_OS_ERROR (errno s), sock, s)
  else
    let s := if Z.land type 0xF =? SOCK_STREAM then (sys_setsockopt s sock SO_NOSIGPIPE 1).2 else s in
    let s := if wants_cloexec type0 then (pj_set_cloexec_flag s sock).2 else s in
    (PJ_SUCCESS, sock, s).

Definition pj_sock_bind s (sock : Z) (addr : list Z) (len : Z) : option (Z * S) :=
  if negb (sizeof_native_sockaddr_in <=? len) then Some (PJ_EINVAL, s)
  else
    bs ← bytes_at addr 0 len;
    let '(rc, s) := sys_bind s sock bs in Some (zero_status rc s).

Definition pj_sock_bind_in s (addr0 : list Z) (sock addr32 port : Z) : option (Z * S) :=
  addr ← set_family addr0 PJ_AF_INET;
  addr ← zero_pad addr;
  addr ← set_s_addr addr (pj_htonl addr32);
  addr ← set_sin_port addr (pj_htons port);
  pj_sock_bind s sock addr sizeof_sockaddr_in.

Definition pj_sock_listen s (sock backlog : Z) : Z * S :=
  let '(rc, s) := sys_listen s sock backlog in zero_status rc s.

Definition sock_connect s (sock : Z) (addr : list Z) (namelen : Z) : option (Z * S) :=
  bs ← bytes_at addr 0 namelen;
  let '(rc, s) := sys_connect_to s sock bs in Some (zero_status rc s).

(** The status, the address and its length. *)
Definition sock_getsockname s (sock : Z) (addr : list Z) (namelen : Z) : option (Z * list Z * Z * S) :=
  let '(rc, bs, len, s) := sys_sockname s sock namelen in
  addr ← write_at addr 0 bs;
  let '(status, s) := zero_status rc s in Some (status, addr, len, s).

(** ** Binding to a random port *)

Definition pj_rand s : Z * S := sys_rand s.

(** [n] tries are left, [status] is the one of the last. *)
Fixpoint bind_tries (n : nat) s (sockfd : Z) (bind_addr : list Z) (addr_len base_port port_range status : Z) :
    option (Z * S) :=
  match n with
  | O => Some (status, s)
  | Datatypes.S n =>
      let '(r, s) := pj_rand s in
      let port := u16 (base_port + Z.rem r (port_range + 1)) in
      '(_, bind_addr) ← pj_sockaddr_set_port bind_addr port;
      '(status, s) ← pj_sock_bind s sockfd bind_addr addr_len;
      if status =? PJ_SUCCESS then Some (status, s)
      else bind_tries n s sockfd bind_addr addr_len base_port port_range status
  end.

(** [buf] is the address on the stack before it is written. *)
Definition pj_sock_bind_random s (buf : list Z) (sockfd : Z) (addr : list Z) (port_range max_try : Z) :
    option (Z * S) :=
  bind_addr ← pj_sockaddr_cp buf addr;
  addr_len ← pj_sockaddr_get_len addr;
  base_port ← pj_sockaddr_get_port addr;
  if (base_port =? 0) || (port_range =? 0) then pj_sock_bind s sockfd bind_addr addr_len
  else bind_tries (Z.to_nat max_try) s sockfd bind_addr addr_len base_port port_range PJ_SUCCESS.

(** ** The size of the buffers *)

Definition MAX_TRY : Z := 20.

Definition sock_setintopt s (sock opt v : Z) : Z * S :=
  let '(rc, s) := sys_setsockopt s sock opt v in zero_status rc s.

Definition sock_getintopt s (sock opt : Z) : Z * Z * S :=
  let '(rc, v, s) := sys_intopt s sock opt in
  let '(status, s) := zero_status rc s in (status, v, s).

(** The loop: [n] turns are left; the status and [*buf_size]. *)
Fixpoint sobuf_loop (n : nat) s (sockfd optname : Z) (auto_retry : bool)
    (status try_size cur_size step buf_size : Z) : Z * Z * S :=
  match n with
  | O => (status, buf_size, s)
  | Datatypes.S n =>
      if try_size <=? cur_size then (status, cur_size, s)
      else
        let '(status, s) := sock_setintopt s sockfd optname try_size in
        if status =? PJ_SUCCESS then
          let '(status, v, s) := sock_getintopt s sockfd optname in
          if negb (status =? PJ_SUCCESS) then (status, try_size, s)
          else if negb auto_retry then (status, buf_size, s)
          else sobuf_loop n s sockfd optname auto_retry status (i32 (try_size - step)) v step buf_size
        else if negb auto_retry then (status, buf_size, s)
        else sobuf_loop n s sockfd optname auto_retry status (i32 (try_size - step)) cur_size step buf_size
  end.

Definition pj_sock_setsockopt_sobuf s (sockfd optname : Z) (auto_retry : bool) (buf_size : Z) : Z * Z * S :=
  if negb (negb (sockfd =? PJ_INVALID_SOCKET) && (0 <? buf_size)
           && ((optname =? SO_RCVBUF) || (optname =? SO_SNDBUF))) then (PJ_EINVAL, buf_size, s)
  else
    let '(status, cur_size, s) := sock_getintopt s sockfd optname in
    if negb (status =? PJ_SUCCESS) then (status, buf_size, s)
    else
      let try_size := i32 buf_size in
      let step := Z.quot (i32 (try_size - cur_size)) MAX_TRY in
      let step := if step <? 4096 then 4096 else step in
      sobuf_loop (Z.to_nat (MAX_TRY - 1)) s sockfd optname auto_retry status try_size cur_size step buf_size.

(** ** The pair of sockets *)

Definition close_if s (fd : Z) : S := if negb (fd =? PJ_INVALID_SOCKET) then (pj_sock_close s fd).2 else s.

(** [on_error]: the status, no pair, and the sockets closed. *)
Definition pair_error s (status lfd cfd : Z) : option (Z * option (Z * Z) * S) :=
  Some (status, None, close_if (close_if s lfd) cfd).

Definition loopback (family : Z) : list Z :=
  if family =? PJ_AF_INET then [49; 50; 55; 46; 48; 46; 48; 46; 49] else [58; 58; 49].

(** The end of the function: the pair is known. *)
Definition pair_done s (type0 fd0 fd1 : Z) : option (Z * option (Z * Z) * S) :=
  let s := if wants_cloexec type0 then (pj_set_cloexec_flag (pj_set_cloexec_flag s fd0).2 fd1).2 else s in
  Some (PJ_SUCCESS, Some (fd0, fd1), s).

(** The client is connected to the address the listener was bound to.  The type
    is one of the two. *)
Definition pair_finish s (type type0 lfd cfd : Z) (sa : list Z) (salen : Z) :
    option (Z * option (Z * Z) * S) :=
  if Z.land type 0xF =? SOCK_DGRAM then
    '(status, sa, salen, s) ← sock_getsockname s cfd sa salen;
    if negb (status =? PJ_SUCCESS) then pair_error s status lfd cfd
    else
      '(status, s) ← sock_connect s lfd sa salen;
      if negb (status =? PJ_SUCCESS) then pair_error s status lfd cfd
      else pair_done s type0 lfd cfd
  else if Z.land type 0xF =? SOCK_STREAM then
    let '(status, newfd, s) := pj_sock_accept s lfd 0 0 in
    if negb (status =? PJ_SUCCESS) then pair_error s status lfd cfd
    else pair_done (pj_sock_close s lfd).2 type0 newfd cfd
  else None.

(** [junk] and [sa0] are what the variables on the stack hold. *)
Definition socketpair_imp (junk : pj_addrinfo) s (sa0 : list Z) (family type0 protocol : Z) :
    option (Z * option (Z * Z) * S) :=
  if negb ((Z.land type0 0xF =? SOCK_DGRAM) || (Z.land type0 0xF =? SOCK_STREAM)) then Some (PJ_EINVAL, None, s)
  else if negb ((family =? PJ_AF_INET) || (family =? PJ_AF_INET6)) then Some (PJ_EINVAL, None, s)
  else
    let type := clear_cloexec type0 in
    let '(status, lfd, s) := pj_sock_socket s family type protocol in
    if negb (status =? PJ_SUCCESS) then pair_error s status lfd PJ_INVALID_SOCKET
    else
      '(_, sa, s) ← pj_sockaddr_init junk s family sa0 (Some (loopback family)) 0;
      salen ← pj_sockaddr_get_len sa;
      '(status, s) ← pj_sock_bind s lfd sa salen;
      if negb (status =? PJ_SUCCESS) then pair_error s status lfd PJ_INVALID_SOCKET
      else
        '(status, sa, salen, s) ← sock_getsockname s lfd sa salen;
        if negb (status =? PJ_SUCCESS) then pair_error s status lfd PJ_INVALID_SOCKET
        else
          let '(status, s) :=
            if Z.land type 0xF =? SOCK_STREAM then pj_sock_listen s lfd 1 else (PJ_SUCCESS, s) in
          if negb (status =? PJ_SUCCESS) then pair_error s status lfd PJ_INVALID_SOCKET
          else
            let '(status, cfd, s) := pj_sock_socket s family type protocol in
            if negb (status =? PJ_SUCCESS) then pair_error s status lfd cfd
            else
              '(status, s) ← sock_connect s cfd sa salen;
              if negb (status =? PJ_SUCCESS) then pair_error s status lfd cfd
              else pair_finish s type type0 lfd cfd sa salen.

Definition pj_sock_socketpair (junk : pj_addrinfo) s (sa0 : list Z) (family type protocol : Z) :
    option (Z * option (Z * Z) * S) := socketpair_imp junk s sa0 family type protocol.
End Net.

(** ** The pair of sockets leaks no descriptor

    [pj_sock_socketpair] opens up to three sockets; whatever call of the system
    fails, those it does not return are closed. *)

(** What is relied on of the system: which calls open and close descriptors,
    and that a name fits into the length it was given. *)
Class NetLaws (S : Type) `{!SystemConstants} `{!AddressConstants} `{!NetConstants} `{!SystemSockets S}
    `{!SystemAddresses S} `{!SystemNet S} := {
  open_fds : S -> gset Z;
  errno_nonneg s : 0 <= errno s;
  socket_opens s af type proto fd s' : sys_socket s af type proto = (fd, s') ->
    fd = PJ_INVALID_SOCKET /\ open_fds s' = open_fds s \/
    fd <> PJ_INVALID_SOCKET /\ (fd ∉ open_fds s) /\ open_fds s' = {[fd]} ∪ open_fds s;
  accept_opens s lfd fd s' : sys_accept s lfd 0 0 = (fd, s') ->
    fd = PJ_INVALID_SOCKET /\ open_fds s' = open_fds s \/
    fd <> PJ_INVALID_SOCKET /\ (fd ∉ open_fds s) /\ open_fds s' = {[fd]} ∪ open_fds s;
  close_closes s fd : open_fds (sys_close s fd).2 = open_fds s ∖ {[fd]};
  bind_keeps s fd a : open_fds (sys_bind s fd a).2 = open_fds s;
  connect_keeps s fd a : open_fds (sys_connect_to s fd a).2 = open_fds s;
  listen_keeps s fd n : open_fds (sys_listen s fd n).2 = open_fds s;
  sockname_keeps s fd n : open_fds (sys_sockname s fd n).2 = open_fds s;
  setsockopt_keeps s fd o v : open_fds (sys_setsockopt s fd o v).2 = open_fds s;
  cloexec_keeps s fd : open_fds (sys_cloexec s fd).2 = open_fds s;
  pton_keeps s af t : open_fds (inet_pton s af t).2 = open_fds s;
  sockname_fits s fd n rc bs len s' : sys_sockname s fd n = (rc, bs, len, s') -> 0 <= n ->
    octets bs /\ Z.of_nat (length bs) <= n /\ 0 <= len <= n;
  (** The flag is none of the bits of the type. *)
  cloexec_bits : Z.land PJ_SOCK_CLOEXEC 0xF = 0;
  stream_dgram : SOCK_STREAM <> SOCK_DGRAM;
  (** "127.0.0.1" and "::1" are numeric addresses. *)
  loopback_inet : 0 <= inet_addr (loopback PJ_AF_INET) < PJ_INADDR_NONE;
  loopback_inet6 s : exists x s', inet_pton s PJ_AF_INET6 (loopback PJ_AF_INET6) = (Some x, s') /\
    length x = 16%nat /\ octets x
}.

Section Pair.
Context `{SC : !SystemConstants} `{AC : !AddressConstants} `{NC : !NetConstants} `{FL : !FamilyLaws} {S : Type}
  `{SS : !SystemSockets S} `{SA : !SystemAddresses S} `{SN : !SystemNet S} `{NL : !NetLaws S} (junk : pj_addrinfo).
Implicit Types (s : S).

Lemma os_error_nonzero s : PJ_RETURN_OS_ERROR (errno s) <> PJ_SUCCESS.
Proof.
  pose proof (errno_nonneg s). unfold PJ_RETURN_OS_ERROR, PJ_STATUS_FROM_OS, PJ_ERRNO_START_SYS, PJ_SUCCESS.
  destruct (Z.eqb_spec (errno s) 0); lia.
Qed.

(** ** The calls *)

Lemma socket_spec s af type proto status fd s' : pj_sock_socket s af type proto = (status, fd, s') ->
  status <> PJ_SUCCESS /\ fd = PJ_INVALID_SOCKET /\ open_fds s' = open_fds s \/
  status = PJ_SUCCESS /\ fd <> PJ_INVALID_SOCKET /\ (fd ∉ open_fds s) /\ open_fds s' = {[fd]} ∪ open_fds s.
Proof.
  unfold pj_sock_socket. destruct (sys_socket _ _ _ _) as [k s1] eqn:E. apply socket_opens in E.
  destruct (Z.eqb_spec k PJ_INVALID_SOCKET) as [Hk|Hk].
  - intros [= <- <- <-]. left. destruct E as [[_ E]|[? _]]; [|done]. split_and!; [apply os_error_nonzero|done..].
  - intros [= <- <- <-]. right. destruct E as [[? _]|(_ & Hn & E)]; [done|]. split_and!; [done..|].
    set (s2 := if _ =? _ then _ else s1). assert (E2 : open_fds s2 = open_fds s1).
    { unfold s2. destruct (_ =? _); [apply setsockopt_keeps|done]. }
    rewrite <- E, <- E2. destruct (wants_cloexec type); [|done]. unfold pj_set_cloexec_flag.
    pose proof (cloexec_keeps s2 k) as Hc. destruct (sys_cloexec s2 k) as [rc s3]. simpl in Hc.
    by destruct (rc =? -1).
Qed.

Lemma zero_status_state rc s : (zero_status rc s).2 = s.
Proof. unfold zero_status. by destruct (negb _). Qed.

Lemma close_spec s fd : open_fds (pj_sock_close s fd).2 = open_fds s ∖ {[fd]}.
Proof.
  unfold pj_sock_close. pose proof (close_closes s fd) as Hc. destruct (sys_close s fd) as [rc s1].
  by rewrite zero_status_state.
Qed.

Lemma bind_spec s fd sa n : length sa = 28%nat -> 0 <= n <= 28 -> exists status s',
  pj_sock_bind s fd sa n = Some (status, s') /\ open_fds s' = open_fds s.
Proof.
  intros L Hn. unfold pj_sock_bind. destruct (negb _); [eauto|]. rewrite bytes_at_in by lia. bind_step.
  pose proof (bind_keeps s fd (take (Z.to_nat n) (drop (Z.to_nat 0) sa))) as Hb.
  destruct (sys_bind _ _ _) as [rc s1]. destruct (zero_status rc s1) as [st s2] eqn:E.
  exists st, s2. split; [done|]. pose proof (zero_status_state rc s1) as Hz. rewrite E in Hz. simpl in *. congruence.
Qed.

Lemma connect_spec s fd sa n : length sa = 28%nat -> 0 <= n <= 28 -> exists status s',
  sock_connect s fd sa n = Some (status, s') /\ open_fds s' = open_fds s.
Proof.
  intros L Hn. unfold sock_connect. rewrite bytes_at_in by lia. bind_step.
  pose proof (connect_keeps s fd (take (Z.to_nat n) (drop (Z.to_nat 0) sa))) as Hb.
  destruct (sys_connect_to _ _ _) as [rc s1]. destruct (zero_status rc s1) as [st s2] eqn:E.
  exists st, s2. split; [done|]. pose proof (zero_status_state rc s1) as Hz. rewrite E in Hz. simpl in *. congruence.
Qed.

Lemma sockname_spec s fd sa n : length sa = 28%nat -> 0 <= n <= 28 -> exists status sa' n' s',
  sock_getsockname s fd sa n = Some (status, sa', n', s') /\ open_fds s' = open_fds s /\
  length sa' = 28%nat /\ 0 <= n' <= 28.
Proof.
  intros L Hn. unfold sock_getsockname. pose proof (sockname_keeps s fd n) as Hk.
  destruct (sys_sockname s fd n) as [[[rc bs] len] s1] eqn:E. apply sockname_fits in E as (Ho & Hb & Hl); [|lia].
  rewrite write_at_in by lia. bind_step. destruct (zero_status rc s1) as [st s2] eqn:Ez.
  pose proof (zero_status_state rc s1) as Hz. rewrite Ez in Hz. simpl in *. subst s2.
  do 4 eexists. split_and!; [done..| |lia|lia]. rewrite length_app, length_drop. lia.
Qed.

Lemma listen_spec s fd n : open_fds (pj_sock_listen s fd n).2 = open_fds s.
Proof.
  unfold pj_sock_listen. pose proof (listen_keeps s fd n) as Hc. destruct (sys_listen s fd n) as [rc s1].
  by rewrite zero_status_state.
Qed.

Lemma accept_spec s lfd status fd s' : pj_sock_accept s lfd 0 0 = (status, fd, s') ->
  status <> PJ_SUCCESS /\ open_fds s' = open_fds s \/
  status = PJ_SUCCESS /\ fd <> PJ_INVALID_SOCKET /\ (fd ∉ open_fds s) /\ open_fds s' = {[fd]} ∪ open_fds s.
Proof.
  unfold pj_sock_accept. destruct (sys_accept s lfd 0 0) as [k s1] eqn:E. apply accept_opens in E.
  destruct (Z.eqb_spec k PJ_INVALID_SOCKET) as [Hk|Hk]; intros [= <- <- <-].
  - left. split; [apply os_error_nonzero|]. by destruct E as [[_ ?]|[? _]].
  - right. destruct E as [[? _]|(? & ? & ?)]; done.
Qed.

(** ** The outcome *)

(** Success with two new descriptors, or an error and no new descriptor. *)
Definition pair_outcome s (r : option (Z * option (Z * Z) * S)) : Prop :=
  exists status sv s', r = Some (status, sv, s') /\
  (status = PJ_SUCCESS -> exists a b, sv = Some (a, b) /\ a <> b /\ (a ∉ open_fds s) /\ (b ∉ open_fds s) /\
     open_fds s' = {[a; b]} ∪ open_fds s) /\
  (status <> PJ_SUCCESS -> sv = None /\ open_fds s' = open_fds s).

Definition fds (fd : Z) : gset Z := if fd =? PJ_INVALID_SOCKET then ∅ else {[fd]}.

Lemma close_if_spec s fd : open_fds (close_if s fd) = open_fds s ∖ fds fd.
Proof.
  unfold close_if, fds. destruct (fd =? PJ_INVALID_SOCKET); simpl; [set_solver|apply close_spec].
Qed.

Lemma pair_error_outcome s0 s status lfd cfd : status <> PJ_SUCCESS ->
  open_fds s ∖ fds lfd ∖ fds cfd = open_fds s0 -> pair_outcome s0 (pair_error s status lfd cfd).
Proof.
  intros Hs Ho. unfold pair_error. do 3 eexists. split; [done|]. split; [done|]. intros _.
  split; [done|]. by rewrite !close_if_spec.
Qed.

Lemma pair_done_outcome s0 s type0 a b : a <> b -> a ∉ open_fds s0 -> b ∉ open_fds s0 ->
  open_fds s = {[a; b]} ∪ open_fds s0 -> pair_outcome s0 (pair_done s type0 a b).
Proof.
  intros Hab Ha Hb Ho. unfold pair_done. do 3 eexists. split; [done|]. split; [|done]. intros _.
  exists a, b. split_and!; [done..|]. destruct (wants_cloexec type0); [|done].
  assert (Hc : forall s fd, open_fds (pj_set_cloexec_flag s fd).2 = open_fds s).
  { intros s1 fd. unfold pj_set_cloexec_flag. pose proof (cloexec_keeps s1 fd) as Hc.
    destruct (sys_cloexec s1 fd) as [rc s2]. by destruct (rc =? -1). }
  by rewrite !Hc.
Qed.

Lemma pair_finish_outcome s0 s type type0 lfd cfd sa n :
  Z.land type 0xF = SOCK_DGRAM \/ Z.land type 0xF = SOCK_STREAM -> length sa = 28%nat -> 0 <= n <= 28 ->
  lfd <> PJ_INVALID_SOCKET -> cfd <> PJ_INVALID_SOCKET -> lfd <> cfd -> lfd ∉ open_fds s0 -> cfd ∉ open_fds s0 ->
  open_fds s = {[lfd; cfd]} ∪ open_fds s0 -> pair_outcome s0 (pair_finish s type type0 lfd cfd sa n).
Proof.
  intros Ht L Hn Hl Hc Hlc Hlo Hco Ho.
  assert (He : forall s1 status, status <> PJ_SUCCESS -> open_fds s1 = open_fds s ->
    pair_outcome s0 (pair_error s1 status lfd cfd)).
  { intros s1 status Hs E. apply pair_error_outcome; [done|]. rewrite E, Ho. unfold fds.
    rewrite !(proj2 (Z.eqb_neq _ _)) by done. set_solver. }
  unfold pair_finish. destruct (Z.eqb_spec (Z.land type 0xF) SOCK_DGRAM) as [_|Hd].
  - destruct (sockname_spec s cfd sa n L Hn) as (st & sa1 & n1 & s1 & -> & E1 & L1 & Hn1).
    rewrite bind_some_eq. cbv beta iota. destruct (Z.eqb_spec st PJ_SUCCESS) as [_|Hst]; simpl negb; cbv iota; [|by apply He].
    destruct (connect_spec s1 lfd sa1 n1 L1 Hn1) as (st2 & s2 & -> & E2). rewrite bind_some_eq. cbv beta iota.
    destruct (Z.eqb_spec st2 PJ_SUCCESS) as [_|Hst2]; simpl negb; cbv iota; [|apply He; congruence].
    apply pair_done_outcome; [done..|]. congruence.
  - destruct Ht as [Ht|Ht]; [done|]. rewrite (proj2 (Z.eqb_eq _ _) Ht).
    destruct (pj_sock_accept s lfd 0 0) as [[st fd] s1] eqn:Ea.
    apply accept_spec in Ea as [[Hst E1]|(-> & Hfd & Hfo & E1)].
    + rewrite (proj2 (Z.eqb_neq _ _) Hst). by apply He.
    + simpl negb. cbv iota. rewrite Ho in Hfo.
      apply pair_done_outcome; [set_solver..|]. rewrite close_spec, E1, Ho. set_solver.
Qed.

Lemma clear_cloexec_type type : Z.land (clear_cloexec type) 0xF = Z.land type 0xF.
Proof.
  unfold clear_cloexec. destruct (wants_cloexec type); [|done]. apply Z.bits_inj'. intros i Hi.
  pose proof (f_equal (fun v => Z.testbit v i) cloexec_bits) as Hc. simpl in Hc.
  rewrite Z.land_spec, Z.bits_0 in Hc. rewrite !Z.land_spec, Z.ldiff_spec.
  destruct (Z.testbit type i), (Z.testbit PJ_SOCK_CLOEXEC i), (Z.testbit 15 i); done.
Qed.

Lemma init_loopback s sa0 family : length sa0 = 28%nat -> octets sa0 -> family = PJ_AF_INET \/ family = PJ_AF_INET6 ->
  exists st sa s' n, pj_sockaddr_init junk s family sa0 (Some (loopback family)) 0 = Some (st, sa, s') /\
  length sa = 28%nat /\ open_fds s' = open_fds s /\ pj_sockaddr_get_len sa = Some n /\ 0 <= n <= 28.
Proof.
  intros L Ho Hf.
  assert (Hlen : forall a, length a = 28%nat -> sockaddr_ok a -> exists n, pj_sockaddr_get_len a = Some n /\ 0 <= n <= 28).
  { intros a La (_ & Hi & _). unfold pj_sockaddr_get_len. rewrite sa_family_of by lia. bind_step. rewrite Hi. simpl.
    destruct (_ =? _); eexists; (split; [done|]); unfold sizeof_sockaddr_in6, sizeof_sockaddr_in; lia. }
  destruct Hf as [->| ->].
  - assert (Et : loopback PJ_AF_INET = [49; 50; 55; 46; 48; 46; 48; 46; 49]) by (unfold loopback; by rewrite Z.eqb_refl).
    pose proof loopback_inet as Hl. rewrite Et in *.
    destruct (init_inet junk s sa0 [49; 50; 55; 46; 48; 46; 48; 46; 49] 0) as (a & E & La & Hok & _);
      [done|done|lia|done|done|by apply (not_in_class (fun c => c <> 0)); [repeat constructor|auto]|done|].
    destruct (Hlen a La Hok) as (n & En & Hn). by exists PJ_SUCCESS, a, s, n.
  - assert (Et : loopback PJ_AF_INET6 = [58; 58; 49]).
    { unfold loopback. rewrite (proj2 (Z.eqb_neq _ _)); [done|]. pose proof inet_inet6. congruence. }
    destruct (loopback_inet6 s) as (x & s' & Ep & Lx & Ox). pose proof (pton_keeps s PJ_AF_INET6 (loopback PJ_AF_INET6)) as Hk.
    rewrite Et in *. rewrite Ep in Hk.
    destruct (init_inet6 junk s s' sa0 [58; 58; 49] x 0) as (a & E & La & Hok & _);
      [done|done|lia|done|done|by apply (not_in_class (fun c => c <> 0)); [repeat constructor|auto]|done|done|done|].
    destruct (Hlen a La Hok) as (n & En & Hn). by exists PJ_SUCCESS, a, s', n.
Qed.

(** C18 [pj_sock_socketpair] gives two different new descriptors, or an error; no
    other descriptor is left open, and none of the caller's is closed. *)
Theorem socketpair_no_leak s sa0 family type protocol :
  length sa0 = 28%nat -> octets sa0 ->
  exists status sv s', pj_sock_socketpair junk s sa0 family type protocol = Some (status, sv, s') /\
  (status = PJ_SUCCESS -> exists a b, sv = Some (a, b) /\ a <> b /\ (a ∉ open_fds s) /\ (b ∉ open_fds s) /\
     open_fds s' = {[a; b]} ∪ open_fds s) /\
  (status <> PJ_SUCCESS -> sv = None /\ open_fds s' = open_fds s).
Proof.
  intros L Ho. change (pair_outcome s (pj_sock_socketpair junk s sa0 family type protocol)).
  unfold pj_sock_socketpair, socketpair_imp.
  assert (Hinv : pair_outcome s (Some (PJ_EINVAL, None, s))) by (by do 3 eexists; split; [done|]).
  destruct ((Z.land type 15 =? SOCK_DGRAM) || (Z.land type 15 =? SOCK_STREAM)) eqn:Ht; simpl negb; cbv iota; [|done].
  destruct ((family =? PJ_AF_INET) || (family =? PJ_AF_INET6)) eqn:Hf; simpl negb; cbv iota; [|done].
  destruct (pj_sock_socket _ _ _ _) as [[st lfd] s1] eqn:E1.
  apply socket_spec in E1 as [(Hst & -> & O1)|(-> & Hl & Hlo & O1)].
  { rewrite (proj2 (Z.eqb_neq _ _) Hst). apply pair_error_outcome; [done|]. unfold fds. simpl. set_solver. }
  simpl negb. cbv iota.
  assert (He : forall s2 status, status <> PJ_SUCCESS -> open_fds s2 = open_fds s1 ->
    pair_outcome s (pair_error s2 status lfd PJ_INVALID_SOCKET)).
  { intros s2 status Hs E. apply pair_error_outcome; [done|]. rewrite E, O1. unfold fds.
    rewrite (proj2 (Z.eqb_neq _ _) Hl). simpl. set_solver. }
  destruct (init_loopback s1 sa0 family L Ho) as (st2 & sa & s2 & n & -> & La & O2 & En & Hn); [lia|].
  rewrite bind_some_eq. cbv beta iota. rewrite En. bind_step.
  destruct (bind_spec s2 lfd sa n La Hn) as (st3 & s3 & -> & O3). rewrite bind_some_eq. cbv beta iota.
  destruct (Z.eqb_spec st3 PJ_SUCCESS) as [_|?]; simpl negb; cbv iota; [|apply He; congruence].
  destruct (sockname_spec s3 lfd sa n La Hn) as (st4 & sa4 & n4 & s4 & -> & O4 & L4 & Hn4).
  rewrite bind_some_eq. cbv beta iota.
  destruct (Z.eqb_spec st4 PJ_SUCCESS) as [_|?]; simpl negb; cbv iota; [|apply He; congruence].
  set (r5 := if _ =? SOCK_STREAM then _ else _). assert (O5 : open_fds r5.2 = open_fds s4).
  { unfold r5. destruct (Z.land (clear_cloexec type) 15 =? SOCK_STREAM); [apply listen_spec|done]. }
  destruct r5 as [st5 s5]. simpl in O5.
  destruct (Z.eqb_spec st5 PJ_SUCCESS) as [_|?]; simpl negb; cbv iota; [|apply He; congruence].
  destruct (pj_sock_socket s5 _ _ _) as [[st6 cfd] s6] eqn:E6.
  apply socket_spec in E6 as [(Hst & -> & O6)|(-> & Hc & Hco & O6)].
  { rewrite (proj2 (Z.eqb_neq _ _) Hst). apply He; congruence. }
  simpl negb. cbv iota. rewrite O5, O4, O3, O2, O1 in O6, Hco.
  destruct (connect_spec s6 cfd sa4 n4 L4 Hn4) as (st7 & s7 & -> & O7). rewrite bind_some_eq. cbv beta iota.
  destruct (Z.eqb_spec st7 PJ_SUCCESS) as [_|Hst7]; simpl negb; cbv iota.
  - apply not_elem_of_union in Hco as [Hcl Hcs]. rewrite not_elem_of_singleton in Hcl.
    apply pair_finish_outcome; [rewrite clear_cloexec_type; lia|done|done|done|done|congruence|done|done|].
    rewrite O7, O6. clear. set_solver.
  - apply pair_error_outcome; [done|]. rewrite O7, O6. unfold fds. rewrite !(proj2 (Z.eqb_neq _ _)) by done.
    clear - Hlo Hco. set_solver.
Qed.
End Pair.
