(* ===== verification/HostIp.v ===== *)
(** * The address of the host

    [pj_gethostname] of [pjlib/src/pj/sock_bsd.c], the queries of the interface
    addresses of [pjlib/src/pj/ip_helper_generic.c] in the branch of a system
    without [net/if.h], and the choice of the address of the host of
    [pjlib/src/pj/sock_common.c]. *)
From S2P Require Import Prelude Bytes Hash PjString SockBsd SockAddr AddrResolv SockNet PjStringSpec SockAddrSpec SockAddrRoundtrip.

Class SystemHost (S : Type) := {
  (** The host name, if the call succeeds: it fits into the buffer. *)
  sys_gethostname : S -> option (list Z) * S
}.

Section Host.
Context `{!SystemConstants} `{!AddressConstants} `{!NetConstants} {S : Type}
  `{!SystemSockets S} `{!SystemAddresses S} `{!SystemNet S} `{!SystemHost S} (junk : pj_addrinfo).
Implicit Types (s : S).

(** The name and the static variable, [None] before the first call. *)
Definition pj_gethostname s (hostname : option (list Z)) : list Z * option (list Z) * S :=
  match hostname with
  | Some name => (name, hostname, s)
  | None =>
      let '(r, s) := sys_gethostname s in
      let name := default [] r in (name, Some name, s)
  end.

(** ** The interface to a destination *)

(** ["1.1.1.1"] and ["1::1"]. *)
Definition probe (af : Z) : list Z :=
  if af =? PJ_AF_INET then [49; 46; 49; 46; 49; 46; 49] else [49; 58; 58; 49].

(** [IN6_IS_ADDR_LINKLOCAL]: fe80::/10. *)
Definition is_linklocal (a : list Z) : option bool :=
  b0 ← a.[8]; b1 ← a.[9]; Some ((b0 =? 0xfe) && (Z.land b1 0xc0 =? 0x80)).

(** The status, the interface address and the destination; [dst0] is what the
    destination on the stack holds. *)
Definition pj_getipinterface s (dst0 : list Z) (af : Z) (dst itf_addr : list Z) (allow_resolve : bool) :
    option (Z * list Z * list Z * S) :=
  '(_, dst_addr, s) ← pj_sockaddr_init junk s af dst0 None 53;
  off ← pj_sockaddr_get_addr dst_addr;
  let '(status, w, s) := pj_inet_pton s af dst in
  dst_addr ← store_opt dst_addr off w;
  '(status, dst_addr, s) ←
    (if negb (status =? PJ_SUCCESS) then
       pj_sockaddr_init junk s af dst_addr (Some (if allow_resolve then dst else probe af)) 53
     else Some (status, dst_addr, s));
  if negb (status =? PJ_SUCCESS) then Some (status, itf_addr, dst_addr, s)
  else
    let '(status, fd, s) := pj_sock_socket s af SOCK_DGRAM 0 in
    if negb (status =? PJ_SUCCESS) then Some (status, itf_addr, dst_addr, s)
    else
      len ← pj_sockaddr_get_len dst_addr;
      '(status, s) ← sock_connect s fd dst_addr len;
      if negb (status =? PJ_SUCCESS) then Some (status, itf_addr, dst_addr, (pj_sock_close s fd).2)
      else
        '(status, itf_addr, _, s) ← sock_getsockname s fd itf_addr sizeof_sockaddr;
        if negb (status =? PJ_SUCCESS) then Some (status, itf_addr, dst_addr, (pj_sock_close s fd).2)
        else
          let s := (pj_sock_close s fd).2 in
          off ← pj_sockaddr_get_addr itf_addr;
          n ← pj_sockaddr_get_addr_len itf_addr;
          x ← bytes_at itf_addr off n;
          if memcmp x (replicate 64 0) (Z.to_nat n) =? 0 then Some (PJ_ENOTFOUND, itf_addr, dst_addr, s)
          else
            outside ←
              (if PJ_HAS_IPV6 && (af =? PJ_AF_INET6) then
                 i ← is_linklocal itf_addr; d ← is_linklocal dst_addr; Some (i && negb d)
               else Some false);
            if (outside : bool) then Some (PJ_ENOTFOUND, itf_addr, dst_addr, s)
            else Some (PJ_SUCCESS, itf_addr, dst_addr, s).

(** The status and the address. *)
Definition pj_getdefaultipinterface s (dst0 : list Z) (af : Z) (addr : list Z) : option (Z * list Z * S) :=
  '(status, addr, _, s) ← pj_getipinterface s dst0 af (probe af) addr false;
  Some (status, addr, s).

(** ** Enumeration *)

Definition zeros : list Z := replicate 28 0.

(** The array [ifs] has [cnt] entries: the status, the count and the entries. *)
Definition if_enum_by_af s (dst0 : list Z) (af : Z) (ifs : list (list Z)) : option (Z * Z * list (list Z) * S) :=
  if (length ifs =? 0)%nat then Some (PJ_EINVAL, 0, ifs, s)
  else
    let cnt := Z.of_nat (length ifs) in
    let ifs := map (fun _ => zeros) ifs in
    x ← ifs.[0];
    '(status, x, s) ← pj_getdefaultipinterface s dst0 af x;
    ifs ← ifs.[0 <- x];
    if negb (status =? PJ_SUCCESS) then Some (status, cnt, ifs, s) else Some (PJ_SUCCESS, 1, ifs, s).

(** One of the two families, from the entry [start] on; the next free entry. *)
Definition enum_family (on : bool) s (dst0 : list Z) (af start : Z) (ifs : list (list Z)) :
    option (Z * list (list Z) * S) :=
  if negb on then Some (start, ifs, s)
  else
    '(status, max, tail, s) ← if_enum_by_af s dst0 af (drop (Z.to_nat start) ifs);
    Some (if status =? PJ_SUCCESS then start + max else start, take (Z.to_nat start) ifs ++ tail, s).

Definition pj_enum_ip_interface s (dst0 : list Z) (af : Z) (ifs : list (list Z)) :
    option (Z * Z * list (list Z) * S) :=
  if (length ifs =? 0)%nat then Some (PJ_EINVAL, 0, ifs, s)
  else
    let ifs := map (fun _ => zeros) ifs in
    '(start, ifs, s) ← enum_family ((af =? PJ_AF_INET6) || (af =? PJ_AF_UNSPEC)) s dst0 PJ_AF_INET6 0 ifs;
    '(start, ifs, s) ← enum_family ((af =? PJ_AF_INET) || (af =? PJ_AF_UNSPEC)) s dst0 PJ_AF_INET start ifs;
    Some (if negb (start =? 0) then PJ_SUCCESS else PJ_ENOTFOUND, start, ifs, s).

(** ** The candidates *)

Definition CAND_CNT : Z := 8.
Definition WEIGHT_HOSTNAME : Z := 1.
Definition WEIGHT_DEF_ROUTE : Z := 2.
Definition WEIGHT_INTERFACE : Z := 1.
Definition WEIGHT_LOOPBACK : Z := -5.
Definition WEIGHT_LINK_LOCAL : Z := -4.
Definition WEIGHT_DISABLED : Z := -50.
Definition MIN_WEIGHT : Z := WEIGHT_DISABLED + 1.

Record candidates := mk_cands { cand_addr : list (list Z); cand_weight : list Z; cand_cnt : Z }.

Definition add_weight (c : candidates) (i d : Z) : option candidates :=
  w ← (cand_weight c).[i];
  ws ← (cand_weight c).[i <- w + d];
  Some (mk_cands (cand_addr c) ws (cand_cnt c)).

(** The first [i] from [i] on, of [n], that is the address, or the end. *)
Fixpoint find_addr (n : nat) (addrs : list (list Z)) (i : Z) (addr : list Z) : option Z :=
  match n with
  | O => Some i
  | Datatypes.S n =>
      x ← addrs.[i];
      r ← pj_sockaddr_cmp x addr;
      if r =? 0 then Some i else find_addr n addrs (i + 1) addr
  end.

(** [pj_sockaddr_copy_addr] into a candidate. *)
Definition copy_cand (addrs : list (list Z)) (i : Z) (src : list Z) : option (list (list Z)) :=
  x ← addrs.[i]; x ← pj_sockaddr_copy_addr x src; addrs.[i <- x].

Definition add_hostname (c : candidates) (h : list Z) : option candidates :=
  addrs ← copy_cand (cand_addr c) (cand_cnt c) h;
  x ← addrs.[cand_cnt c];
  '(_, x) ← pj_sockaddr_set_port x 0;
  addrs ← addrs.[cand_cnt c <- x];
  c' ← add_weight (mk_cands addrs (cand_weight c) (cand_cnt c)) (cand_cnt c) WEIGHT_HOSTNAME;
  Some (mk_cands (cand_addr c') (cand_weight c') (cand_cnt c + 1)).

Definition add_default (c : candidates) (addr : list Z) : option candidates :=
  i ← find_addr (Z.to_nat (cand_cnt c)) (cand_addr c) 0 addr;
  c ← add_weight c i WEIGHT_DEF_ROUTE;
  if cand_cnt c <=? i then
    addrs ← copy_cand (cand_addr c) i addr; Some (mk_cands addrs (cand_weight c) (cand_cnt c + 1))
  else Some c.

(** [pj_sockaddr_set_port(.., 0)] on [n] entries from [i] on. *)
Fixpoint clear_ports (n : nat) (addrs : list (list Z)) (i : Z) : option (list (list Z)) :=
  match n with
  | O => Some addrs
  | Datatypes.S n =>
      x ← addrs.[i];
      '(_, x) ← pj_sockaddr_set_port x 0;
      addrs ← addrs.[i <- x];
      clear_ports n addrs (i + 1)
  end.

(** The first [j] of [n] for which the entry [base + j] is the address, or the
    end. *)
Fixpoint find_from (n : nat) (addrs : list (list Z)) (x : list Z) (base j : Z) : option Z :=
  match n with
  | O => Some j
  | Datatypes.S n =>
      y ← addrs.[base + j];
      r ← pj_sockaddr_cmp x y;
      if r =? 0 then Some j else find_from n addrs x base (j + 1)
  end.

(** The candidates so far that are, or are not, among the [count] interfaces
    from [start_if] on. *)
Fixpoint weigh_found (n : nat) (c : candidates) (i start_if count : Z) : option candidates :=
  match n with
  | O => Some c
  | Datatypes.S n =>
      x ← (cand_addr c).[i];
      j ← find_from (Z.to_nat count) (cand_addr c) x start_if 0;
      c ← add_weight c i (if j =? count then - WEIGHT_INTERFACE else WEIGHT_INTERFACE);
      weigh_found n c (i + 1) start_if count
  end.

(** The interfaces that are not candidates yet. *)
Fixpoint add_remaining (n : nat) (c : candidates) (i start_if : Z) : option candidates :=
  match n with
  | O => Some c
  | Datatypes.S n =>
      x ← (cand_addr c).[start_if + i];
      j ← find_from (Z.to_nat (cand_cnt c)) (cand_addr c) x 0 0;
      c ← (if j =? cand_cnt c then
             addrs ← (if negb (cand_cnt c =? start_if + i) then copy_cand (cand_addr c) (cand_cnt c) x
                      else Some (cand_addr c));
             c' ← add_weight (mk_cands addrs (cand_weight c) (cand_cnt c)) (cand_cnt c) WEIGHT_INTERFACE;
             Some (mk_cands (cand_addr c') (cand_weight c') (cand_cnt c + 1))
           else Some c);
      add_remaining n c (i + 1) start_if
  end.

Definition add_interfaces (c : candidates) (start_if count : Z) : option candidates :=
  addrs ← clear_ports (Z.to_nat count) (cand_addr c) start_if;
  c ← weigh_found (Z.to_nat (cand_cnt c)) (mk_cands addrs (cand_weight c) (cand_cnt c)) 0 start_if count;
  add_remaining (Z.to_nat count) c 0 start_if.

(** ** Special addresses *)

(** Address, mask and weight. *)
Definition spec_ipv4 : list (Z * Z * Z) :=
  [(0x7f000000, 0xFF000000, WEIGHT_LOOPBACK);
   (0x00000000, 0xFF000000, WEIGHT_DISABLED);
   (0xa9fe0000, 0xFFFF0000, WEIGHT_LINK_LOCAL)].

(** The weight of the first entry that fits. *)
Fixpoint special_weight (l : list (Z * Z * Z)) (a : Z) : Z :=
  match l with
  | [] => 0
  | (pa, pm, w) :: l => if Z.land a pm =? pa then w else special_weight l a
  end.

Fixpoint weigh_ipv4 (n : nat) (c : candidates) (i : Z) : option candidates :=
  match n with
  | O => Some c
  | Datatypes.S n =>
      x ← (cand_addr c).[i];
      v ← s_addr x;
      c ← add_weight c i (special_weight spec_ipv4 (pj_ntohl v));
      weigh_ipv4 n c (i + 1)
  end.

Definition spec_ipv6 : list (list Z * list Z * Z) :=
  [(replicate 15 0 ++ [1], replicate 16 0xff, WEIGHT_LOOPBACK);
   ([0xfe; 0x80] ++ replicate 14 0, [0xff; 0xc0] ++ replicate 14 0, WEIGHT_LINK_LOCAL);
   (replicate 16 0, replicate 16 0xff, WEIGHT_DISABLED)].

(** One special address, on the candidates from [j] on. *)
Fixpoint weigh_ipv6 (n : nat) (c : candidates) (j : Z) (spec : list Z * list Z * Z) : option candidates :=
  match n with
  | O => Some c
  | Datatypes.S n =>
      let '(pa, pm, w) := spec in
      x ← (cand_addr c).[j];
      a ← sin6_addr x;
      let am := zip_with Z.land a pm in
      c ← (if memcmp am pa 16 =? 0 then add_weight c j w else Some c);
      weigh_ipv6 n c (j + 1) spec
  end.

Fixpoint weigh_specs (specs : list (list Z * list Z * Z)) (c : candidates) : option candidates :=
  match specs with
  | [] => Some c
  | spec :: specs =>
      c ← weigh_ipv6 (Z.to_nat (cand_cnt c)) c 0 spec; weigh_specs specs c
  end.

(** ** The choice *)

(** The index of the best candidate from [i] on, given the best before. *)
Fixpoint select_cand (n : nat) (ws : list Z) (i selected : Z) : option Z :=
  match n with
  | O => Some selected
  | Datatypes.S n =>
      w ← ws.[i];
      if w <? MIN_WEIGHT then select_cand n ws (i + 1) selected
      else if selected =? -1 then select_cand n ws (i + 1) i
      else best ← ws.[selected]; select_cand n ws (i + 1) (if best <? w then i else selected)
  end.

(** The loopback address, as the last resort. *)
Definition set_loopback (af : Z) (addr : list Z) : option (list Z) :=
  if af =? PJ_AF_INET then set_s_addr addr (pj_htonl 0x7f000001)
  else
    off ← pj_sockaddr_get_addr addr;
    if off =? 0 then None
    else write_at addr off (replicate 15 0 ++ [1]).

Definition finish (af : Z) (addr : list Z) (c : candidates) : option (list Z) :=
  sel ← select_cand (Z.to_nat (cand_cnt c)) (cand_weight c) 0 (-1);
  if sel =? -1 then set_loopback af addr
  else x ← (cand_addr c).[sel]; pj_sockaddr_copy_addr addr x.

(** The address the host name resolves to. *)
Definition hostname_addr s (hostname : list Z) (af : Z) : option (option (list Z) * S) :=
  match hostname with
  | [] => Some (None, s)
  | _ =>
      '(status, _, ai, s) ← pj_getaddrinfo s af hostname 1 [junk];
      if status =? PJ_SUCCESS then x ← ai.[0]; Some (Some (ai_addr x), s) else Some (None, s)
  end.

(** The interface of the default route. *)
Definition default_step s (dst0 : list Z) (af : Z) (addr : list Z) (c : candidates) :
    option (list Z * candidates * S) :=
  if cand_cnt c <? CAND_CNT then
    '(status, addr, s) ← pj_getdefaultipinterface s dst0 af addr;
    if status =? PJ_SUCCESS then
      '(_, addr) ← pj_sockaddr_set_port addr 0; c ← add_default c addr; Some (addr, c, s)
    else Some (addr, c, s)
  else Some (addr, c, s).

(** All interfaces, stored behind the candidates there are. *)
Definition interface_step s (dst0 : list Z) (af : Z) (c : candidates) : option (candidates * S) :=
  if cand_cnt c <? CAND_CNT then
    let start_if := cand_cnt c in
    '(status, count, ifs, s) ← pj_enum_ip_interface s dst0 af (drop (Z.to_nat start_if) (cand_addr c));
    let c := mk_cands (take (Z.to_nat start_if) (cand_addr c) ++ ifs) (cand_weight c) (cand_cnt c) in
    if (status =? PJ_SUCCESS) && negb (count =? 0) then
      c ← add_interfaces c start_if count; Some (c, s)
    else Some (c, s)
  else Some (c, s).

(** [dst0] is what the destination address on the stack holds, in every probe.
    The status, the address and the static host name. *)
Definition pj_gethostip s (dst0 : list Z) (name0 : option (list Z)) (af : Z) (addr : list Z) :
    option (Z * list Z * option (list Z) * S) :=
  x ← set_family zeros af;
  let c := mk_cands (replicate (Z.to_nat CAND_CNT) x) (replicate (Z.to_nat CAND_CNT) 0) 0 in
  addr ← set_family addr af;
  let '(hostname, name0, s) := pj_gethostname s name0 in
  '(h, s) ← hostname_addr s hostname af;
  c ← match h with Some h => add_hostname c h | None => Some c end;
  '(addr, c, s) ← default_step s dst0 af addr c;
  '(c, s) ← interface_step s dst0 af c;
  if af =? PJ_AF_INET then
    c ← weigh_ipv4 (Z.to_nat (cand_cnt c)) c 0;
    addr ← finish af addr c; Some (PJ_SUCCESS, addr, name0, s)
  else if af =? PJ_AF_INET6 then
    c ← weigh_specs spec_ipv6 c;
    addr ← finish af addr c; Some (PJ_SUCCESS, addr, name0, s)
  else Some (PJ_EAFNOTSUP, addr, name0, s).

(** [pj_gethostaddr]: the address the host name resolves to. *)
Definition pj_gethostaddr s (addr0 : list Z) (name0 : option (list Z)) : option (Z * option (list Z) * S) :=
  let '(hostname, name0, s) := pj_gethostname s name0 in
  '(_, addr, s) ← pj_sockaddr_in_set_str_addr junk s addr0 (Some hostname);
  v ← s_addr addr; Some (v, name0, s).
End Host.

(** ** Which address is the host's

    What [pj_gethostip] answers for IPv4: the address of the interface of the
    default route, if it is an ordinary one; without one, the address the host
    name resolves to; and else the loopback address. *)

Section Host.
Context `{SC : !SystemConstants} `{AC : !AddressConstants} `{NC : !NetConstants} `{FL : !FamilyLaws} {S : Type}
  `{SS : !SystemSockets S} `{SA : !SystemAddresses S} `{SN : !SystemNet S} `{SH : !SystemHost S} (junk : pj_addrinfo).
Implicit Types (s : S) (x y A P : list Z).

(** ** IPv4 addresses by their bytes *)

Record inet4 x A P : Prop := {
  i4_length : length x = 28%nat;
  i4_octets : octets x;
  i4_family : bytes_at x 0 2 = Some (to_le 2 PJ_AF_INET);
  i4_port : bytes_at x 2 2 = Some P;
  i4_addr : bytes_at x 4 4 = Some A
}.

Definition no_port : list Z := [0; 0].

Lemma i4_fields x A P : inet4 x A P ->
  sockaddr_ok x /\ family_of x = PJ_AF_INET /\ addr_of x = A /\ port_of x = of_le (rev P).
Proof.
  intros [L Ho Hf Hp Ha]. rewrite bytes_at_in in Hf, Hp, Ha by lia. apply (inj Some) in Hf, Hp, Ha.
  assert (Ef : family_of x = PJ_AF_INET).
  { unfold family_of. change (take 2 x) with (take (Z.to_nat 2) (drop (Z.to_nat 0) x)). rewrite Hf.
    apply of_to_le. apply inet_width. }
  assert (Hi : is_inet PJ_AF_INET = true) by (unfold is_inet; by rewrite Z.eqb_refl).
  assert (H6 : (PJ_AF_INET =? PJ_AF_INET6) = false) by (apply Z.eqb_neq, inet_inet6).
  split; [split_and!; [done|by rewrite Ef|rewrite Ef, H6; lia]|]. split; [done|]. split.
  - unfold addr_of. rewrite Ef, H6. exact Ha.
  - unfold port_of. f_equal. f_equal. exact Hp.
Qed.

(** An address of the family, of the size of the union. *)
Lemma i4_intro x : length x = 28%nat -> sockaddr_ok x -> family_of x = PJ_AF_INET ->
  exists P, inet4 x (addr_of x) P.
Proof.
  intros L (Ho & _ & _) Hf. exists (take 2 (drop 2 x)). split; [done..| | |].
  - rewrite bytes_at_in by lia. f_equal.
    assert (L2 : length (take 2 x) = 2%nat) by (rewrite length_take; lia).
    pose proof (to_of_le (take 2 x) ltac:(by apply Forall_take)) as E. rewrite L2 in E. rewrite <- Hf. symmetry. exact E.
  - by rewrite bytes_at_in by lia.
  - rewrite bytes_at_in by lia. unfold addr_of. rewrite Hf, (proj2 (Z.eqb_neq _ _) inet_inet6). done.
Qed.

(** ** The operations on candidates *)

Lemma i4_set_port x A P : inet4 x A P -> exists x', pj_sockaddr_set_port x 0 = Some (PJ_SUCCESS, x') /\ inet4 x' A no_port.
Proof.
  intros Hx. destruct (i4_fields x A P Hx) as (Hok & Ef & _). destruct Hx as [L Ho Hf Hp Ha].
  store x 2 (to_le 2 (pj_htons 0)) x' E L' O' F' K'.
  exists x'. unfold pj_sockaddr_set_port. rewrite sa_family_of by lia. bind_step. destruct Hok as (_ & -> & _).
  simpl negb. cbv iota. unfold set_sin_port. rewrite E. bind_step. split; [done|].
  split; [done..|rewrite K' by lia; done|exact F'|rewrite K' by lia; done].
Qed.

Lemma i4_copy x A P y B Q : inet4 x A P -> inet4 y B Q -> exists x', pj_sockaddr_copy_addr x y = Some x' /\ inet4 x' B P.
Proof.
  intros [L Ho Hf Hp Ha] Hy. destruct (i4_fields y B Q Hy) as (Hok & Ef & Ea & _).
  destruct (get_addr_of y Hok) as (off & n & E1 & E2 & _ & D & E3).
  assert (off = 4 /\ n = 4) as [-> ->].
  { pose proof inet_inet6. destruct D as [(? & _)|(_ & ? & ?)]; [congruence|done]. }
  rewrite Ea in E3. pose proof (bytes_at_length _ _ _ _ E3) as Lb.
  pose proof (bytes_at_octets _ _ _ _ (i4_octets _ _ _ Hy) E3) as Ob.
  destruct (write_28 x 4 B) as (x' & E & L' & O' & F' & K'); [done|done|done|lia|lia|].
  exists x'. unfold pj_sockaddr_copy_addr, copy_bytes. rewrite E1. bind_step. rewrite E2. bind_step. rewrite E3. bind_step.
  split; [done|]. rewrite Lb in F', K'. split; [done..|rewrite K' by lia; done|rewrite K' by lia; done|exact F'].
Qed.

(** Without ports, two candidates are the same if their addresses are. *)
Lemma i4_cmp x y A B : inet4 x A no_port -> inet4 y B no_port ->
  exists r, pj_sockaddr_cmp x y = Some r /\ (r =? 0) = bool_decide (A = B).
Proof.
  intros Hx Hy. destruct (i4_fields x A _ Hx) as (Ox & Fx & Ax & Px).
  destruct (i4_fields y B _ Hy) as (Oy & Fy & Ay & Py). rewrite cmp_lex by done. eexists. split; [done|].
  apply Bool.eq_iff_eq_true. rewrite Z.eqb_eq, bool_decide_eq_true, lex_eq. unfold cmp_key.
  rewrite Fx, Fy, Ax, Ay, Px, Py. split; [|by intros ->]. intros [= E]. by apply app_inj_tail in E as [? _].
Qed.

Lemma i4_s_addr x A P : inet4 x A P -> s_addr x = Some (of_le A).
Proof. intros Hx. unfold s_addr. by rewrite (i4_addr _ _ _ Hx). Qed.

(** ** Weights *)

Definition weight_of A : Z := special_weight spec_ipv4 (pj_ntohl (of_le A)).

Lemma weight_nonpos A : -50 <= weight_of A <= 0.
Proof.
  unfold weight_of, spec_ipv4, special_weight, WEIGHT_LOOPBACK, WEIGHT_DISABLED, WEIGHT_LINK_LOCAL.
  destruct (_ =? _); [lia|]. destruct (_ =? _); [lia|]. destruct (_ =? _); lia.
Qed.

(** An ordinary address: not one of the special ranges. *)
Definition ordinary A : Prop := ~ in_range4 Disabled A /\ ~ in_range4 Loopback A /\ ~ in_range4 Link_local A.

Lemma ordinary_weight A : length A = 4%nat -> octets A -> ordinary A -> weight_of A = 0.
Proof.
  intros (b0 & b1 & b2 & b3 & ->)%list_of_4 Ho (Hd & Hl & Hk). simpl in Hd, Hl, Hk.
  unfold weight_of. rewrite ntohl_bytes; [|by (unfold octets in Ho; rewrite !Forall_cons in Ho; tauto)..].
  destruct (quad_fields b0 b1 b2 b3 Ho) as (E1 & E2 & _).
  assert (Hb : 0 <= b0 < 256 /\ 0 <= b1 < 256) by (unfold octets in Ho; rewrite !Forall_cons in Ho; tauto).
  unfold spec_ipv4, special_weight. rewrite E1, E2.
  rewrite !(proj2 (Z.eqb_neq _ _)); [done|..]; lia.
Qed.

Lemma i4_ordinary x A P : inet4 x A P -> ordinary A -> weight_of A = 0.
Proof.
  intros Hx Ho. apply ordinary_weight; [|by apply (bytes_at_octets _ _ _ _ (i4_octets _ _ _ Hx) (i4_addr _ _ _ Hx))|done].
  pose proof (bytes_at_length _ _ _ _ (i4_addr _ _ _ Hx)). lia.
Qed.

(** ** The steps, by the number of candidates *)

#[local] Arguments pj_sockaddr_copy_addr : simpl never.
#[local] Arguments pj_sockaddr_set_port : simpl never.
#[local] Arguments pj_sockaddr_cmp : simpl never.
#[local] Arguments s_addr : simpl never.
#[local] Arguments special_weight : simpl never.

(** Evaluation of operations on arrays whose entries are listed. *)
Ltac arr_run :=
  cbv [arr_get arr_set in_range Z.of_nat Z.to_nat Pos.of_succ_nat Pos.to_nat Pos.iter_op Pos.succ Nat.add length
    Z.ltb Z.leb Z.compare Pos.compare Pos.compare_cont Z.add Pos.add Z.opp Z.pos_sub Pos.pred_double
    lookup list_lookup insert list_insert mbind option_bind andb negb replicate CAND_CNT find_addr find_from clear_ports
    weigh_found add_remaining select_cand add_weight cand_addr cand_weight cand_cnt WEIGHT_HOSTNAME WEIGHT_DEF_ROUTE WEIGHT_INTERFACE];
  cbn [Z.eqb Pos.eqb negb].

(** The probe of the default route succeeds with an address [D]. *)
Definition default_is s (dst0 : list Z) (addr D : list Z) s' : Prop :=
  exists d P, pj_getdefaultipinterface junk s dst0 PJ_AF_INET addr = Some (PJ_SUCCESS, d, s') /\ inet4 d D P.

(** The probe fails and leaves [d] as the address. *)
Definition default_fails s (dst0 : list Z) (addr d : list Z) s' : Prop :=
  exists status, pj_getdefaultipinterface junk s dst0 PJ_AF_INET addr = Some (status, d, s') /\ status <> PJ_SUCCESS.

Lemma arr_get_0 {B} (x : B) l : (x :: l).[0] = Some x.
Proof. by rewrite (arr_get_nat _ 0). Qed.

Lemma arr_set_0 {B} (x y : B) l : (x :: l).[0 <- y] = Some (y :: l).
Proof. by rewrite arr_set_in by (simpl; lia). Qed.

Lemma arr_get_1 {B} (x y : B) l : (x :: y :: l).[1] = Some y.
Proof. by rewrite (arr_get_nat _ 1). Qed.

Lemma arr_set_1 {B} (x y z : B) l : (x :: y :: l).[1 <- z] = Some (x :: z :: l).
Proof. by rewrite arr_set_in by (simpl; lia). Qed.

Lemma start_cand : exists x0, set_family zeros PJ_AF_INET = Some x0 /\ inet4 x0 [0; 0; 0; 0] no_port.
Proof.
  assert (Lz : length zeros = 28%nat) by done.
  assert (Oz : octets zeros) by (by apply Forall_replicate).
  store zeros 0 (to_le 2 PJ_AF_INET) x0 E L1 O1 F K. exists x0. split; [exact E|].
  split; [done..|exact F|rewrite K by lia; done|rewrite K by lia; done].
Qed.

Lemma first_cand x0 h A P : inet4 x0 [0; 0; 0; 0] no_port -> inet4 h A P -> exists x1,
  add_hostname (mk_cands (replicate 8 x0) (replicate 8 0) 0) h =
    Some (mk_cands (x1 :: replicate 7 x0) (1 :: replicate 7 0) 1) /\ inet4 x1 A no_port.
Proof.
  intros H0 Hh. destruct (i4_copy _ _ _ _ _ _ H0 Hh) as (x & E & Hx). destruct (i4_set_port _ _ _ Hx) as (x1 & E1 & H1).
  exists x1. split; [|done]. unfold add_hostname, copy_cand, add_weight. arr_run. rewrite E. arr_run. rewrite E1. done.
Qed.

(** The default route, as the first candidate, as one that is known, or as the
    second. *)
Lemma default_first x0 d D : inet4 x0 [0; 0; 0; 0] no_port -> inet4 d D no_port -> exists y,
  add_default (mk_cands (replicate 8 x0) (replicate 8 0) 0) d =
    Some (mk_cands (y :: replicate 7 x0) (2 :: replicate 7 0) 1) /\ inet4 y D no_port.
Proof.
  intros H0 Hd. destruct (i4_copy _ _ _ _ _ _ H0 Hd) as (y & E & Hy). exists y. split; [|done].
  unfold add_default, copy_cand, add_weight. arr_run. by rewrite E.
Qed.

Lemma default_known x1 x0 d D : inet4 x1 D no_port -> inet4 d D no_port ->
  add_default (mk_cands (x1 :: replicate 7 x0) (1 :: replicate 7 0) 1) d =
    Some (mk_cands (x1 :: replicate 7 x0) (3 :: replicate 7 0) 1).
Proof.
  intros H1 Hd. destruct (i4_cmp _ _ _ _ H1 Hd) as (r & E & Er). rewrite bool_decide_eq_true_2 in Er by done.
  unfold add_default, add_weight. arr_run. rewrite E. arr_run. by rewrite Er.
Qed.

Lemma default_second x1 x0 d A D : inet4 x0 [0; 0; 0; 0] no_port -> inet4 x1 A no_port -> inet4 d D no_port -> A <> D ->
  exists y, add_default (mk_cands (x1 :: replicate 7 x0) (1 :: replicate 7 0) 1) d =
    Some (mk_cands (x1 :: y :: replicate 6 x0) (1 :: 2 :: replicate 6 0) 2) /\ inet4 y D no_port.
Proof.
  intros H0 H1 Hd Hne. destruct (i4_cmp _ _ _ _ H1 Hd) as (r & E & Er). rewrite bool_decide_eq_false_2 in Er by done.
  destruct (i4_copy _ _ _ _ _ _ H0 Hd) as (y & Ec & Hy). exists y. split; [|done].
  unfold add_default, copy_cand, add_weight. arr_run. rewrite E. arr_run. rewrite Er. arr_run. by rewrite Ec.
Qed.

(** ** The interfaces *)

Lemma enum_found s s' dst0 D i0 ifs : default_is s dst0 zeros D s' -> exists d P,
  pj_enum_ip_interface junk s dst0 PJ_AF_INET (i0 :: ifs) =
    Some (PJ_SUCCESS, 1, d :: map (fun _ => zeros) ifs, s') /\ inet4 d D P.
Proof.
  intros (d & P & E & Hd). exists d, P. split; [|done]. unfold pj_enum_ip_interface, enum_family, if_enum_by_af.
  rewrite (proj2 (Z.eqb_neq PJ_AF_INET PJ_AF_INET6)), (proj2 (Z.eqb_neq PJ_AF_INET PJ_AF_UNSPEC)), Z.eqb_refl
    by (apply inet_inet6 || apply inet_unspec).
  cbn [length Nat.eqb map orb negb]. cbv iota. rewrite bind_some_eq. cbv beta iota.
  change (drop (Z.to_nat 0) (zeros :: map (fun _ => zeros) ifs)) with (zeros :: map (fun _ => zeros) ifs).
  cbn [length Nat.eqb map]. rewrite arr_get_0. bind_step. rewrite E, bind_some_eq. cbv beta iota.
  rewrite arr_set_0. bind_step. change (negb (PJ_SUCCESS =? PJ_SUCCESS)) with false. cbv iota.
  rewrite bind_some_eq. cbv beta iota. rewrite bind_some_eq. cbv beta iota. by rewrite map_map.
Qed.

Lemma enum_not_found s s' dst0 d i0 ifs : default_fails s dst0 zeros d s' ->
  pj_enum_ip_interface junk s dst0 PJ_AF_INET (i0 :: ifs) =
    Some (PJ_ENOTFOUND, 0, d :: map (fun _ => zeros) ifs, s').
Proof.
  intros (st & E & Hst). unfold pj_enum_ip_interface, enum_family, if_enum_by_af.
  rewrite (proj2 (Z.eqb_neq PJ_AF_INET PJ_AF_INET6)), (proj2 (Z.eqb_neq PJ_AF_INET PJ_AF_UNSPEC)), Z.eqb_refl
    by (apply inet_inet6 || apply inet_unspec).
  cbn [length Nat.eqb map orb negb]. cbv iota. rewrite bind_some_eq. cbv beta iota.
  change (drop (Z.to_nat 0) (zeros :: map (fun _ => zeros) ifs)) with (zeros :: map (fun _ => zeros) ifs).
  cbn [length Nat.eqb map]. rewrite arr_get_0. bind_step. rewrite E, bind_some_eq. cbv beta iota.
  rewrite arr_set_0. bind_step. rewrite (proj2 (Z.eqb_neq _ _) Hst). simpl negb. cbv iota.
  rewrite bind_some_eq. cbv beta iota. rewrite (proj2 (Z.eqb_neq _ _) Hst). rewrite bind_some_eq. cbv beta iota. by rewrite map_map.
Qed.

Lemma interface_known s s' dst0 y x0 w D : w = 2 \/ w = 3 -> inet4 y D no_port -> default_is s dst0 zeros D s' ->
  exists rest, interface_step junk s dst0 PJ_AF_INET (mk_cands (y :: replicate 7 x0) (w :: replicate 7 0) 1) =
    Some (mk_cands (y :: rest) (w + 1 :: replicate 7 0) 1, s').
Proof.
  intros Hw Hy Hd. unfold interface_step. cbn [cand_cnt cand_addr]. change (1 <? CAND_CNT) with true. cbv iota zeta.
  change (drop (Z.to_nat 1) (y :: replicate 7 x0)) with (x0 :: replicate 6 x0).
  destruct (enum_found s s' dst0 D x0 (replicate 6 x0) Hd) as (d & P & -> & H4). rewrite bind_some_eq. cbv beta iota.
  change ((PJ_SUCCESS =? PJ_SUCCESS) && negb (1 =? 0)) with true. cbv iota.
  destruct (i4_set_port _ _ _ H4) as (d' & E1 & H5).
  destruct (i4_cmp _ _ _ _ Hy H5) as (r & E2 & Er). destruct (i4_cmp _ _ _ _ H5 Hy) as (r' & E3 & Er').
  rewrite bool_decide_eq_true_2 in Er, Er' by done. eexists.
  change (take (Z.to_nat 1) (y :: replicate 7 x0)) with [y]. cbn [app map replicate cand_weight].
  unfold add_interfaces, add_weight. destruct Hw as [->| ->].
  - arr_run. rewrite E1. arr_run. rewrite E2. arr_run. rewrite Er. arr_run. rewrite E3. arr_run. rewrite Er'. arr_run. done.
  - arr_run. rewrite E1. arr_run. rewrite E2. arr_run. rewrite Er. arr_run. rewrite E3. arr_run. rewrite Er'. arr_run. done.
Qed.

Lemma interface_second s s' dst0 x1 y x0 A D : inet4 x1 A no_port -> inet4 y D no_port -> A <> D ->
  default_is s dst0 zeros D s' ->
  exists rest, interface_step junk s dst0 PJ_AF_INET (mk_cands (x1 :: y :: replicate 6 x0) (1 :: 2 :: replicate 6 0) 2) =
    Some (mk_cands (x1 :: y :: rest) (0 :: 3 :: replicate 6 0) 2, s').
Proof.
  intros H1 Hy Hne Hd. unfold interface_step. cbn [cand_cnt cand_addr]. change (2 <? CAND_CNT) with true. cbv iota zeta.
  change (drop (Z.to_nat 2) (x1 :: y :: replicate 6 x0)) with (x0 :: replicate 5 x0).
  destruct (enum_found s s' dst0 D x0 (replicate 5 x0) Hd) as (d & P & -> & H4). rewrite bind_some_eq. cbv beta iota.
  change ((PJ_SUCCESS =? PJ_SUCCESS) && negb (1 =? 0)) with true. cbv iota.
  destruct (i4_set_port _ _ _ H4) as (d' & E1 & H5).
  destruct (i4_cmp _ _ _ _ H1 H5) as (r1 & E2 & Er1). destruct (i4_cmp _ _ _ _ Hy H5) as (r2 & E3 & Er2).
  destruct (i4_cmp _ _ _ _ H5 H1) as (r3 & E4 & Er3). destruct (i4_cmp _ _ _ _ H5 Hy) as (r4 & E5 & Er4).
  rewrite bool_decide_eq_true_2 in Er2, Er4 by done. rewrite bool_decide_eq_false_2 in Er1, Er3 by congruence. eexists.
  change (take (Z.to_nat 2) (x1 :: y :: replicate 6 x0)) with [x1; y]. cbn [app map replicate cand_weight].
  unfold add_interfaces, add_weight.
  arr_run. rewrite E1. arr_run. rewrite E2. arr_run. rewrite Er1. arr_run. rewrite E3. arr_run. rewrite Er2. arr_run.
  rewrite E4. arr_run. rewrite Er3. arr_run. rewrite E5. arr_run. rewrite Er4. arr_run. done.
Qed.

(** ** The choice *)

Lemma add_weight_0 a w ws n d : add_weight (mk_cands a (w :: ws) n) 0 d = Some (mk_cands a (w + d :: ws) n).
Proof. unfold add_weight. cbn [cand_weight cand_addr cand_cnt]. rewrite arr_get_0. bind_step. rewrite arr_set_0. by bind_step. Qed.

Lemma add_weight_1 a v w ws n d : add_weight (mk_cands a (v :: w :: ws) n) 1 d = Some (mk_cands a (v :: w + d :: ws) n).
Proof. unfold add_weight. cbn [cand_weight cand_addr cand_cnt]. rewrite arr_get_1. bind_step. rewrite arr_set_1. by bind_step. Qed.

Lemma weigh_one y D Q l w ws : inet4 y D Q ->
  weigh_ipv4 1 (mk_cands (y :: l) (w :: ws) 1) 0 = Some (mk_cands (y :: l) (w + weight_of D :: ws) 1).
Proof.
  intros Hy. cbn [weigh_ipv4 cand_addr]. rewrite arr_get_0. bind_step. rewrite (i4_s_addr _ _ _ Hy). bind_step.
  rewrite add_weight_0. by bind_step.
Qed.

Lemma weigh_two x A P y D Q l v w ws : inet4 x A P -> inet4 y D Q ->
  weigh_ipv4 2 (mk_cands (x :: y :: l) (v :: w :: ws) 2) 0 =
    Some (mk_cands (x :: y :: l) (v + weight_of A :: w + weight_of D :: ws) 2).
Proof.
  intros Hx Hy. cbn [weigh_ipv4 cand_addr]. rewrite arr_get_0. bind_step. rewrite (i4_s_addr _ _ _ Hx). bind_step.
  rewrite add_weight_0. bind_step. change (0 + 1) with 1. cbn [cand_addr].
  rewrite arr_get_1. bind_step. rewrite (i4_s_addr _ _ _ Hy). bind_step. rewrite add_weight_1. by bind_step.
Qed.

Lemma finish_one addr B P y D Q l w ws : inet4 addr B P -> inet4 y D Q -> MIN_WEIGHT <= w ->
  exists addr', finish PJ_AF_INET addr (mk_cands (y :: l) (w :: ws) 1) = Some addr' /\ inet4 addr' D P.
Proof.
  intros Ha Hy Hw. destruct (i4_copy _ _ _ _ _ _ Ha Hy) as (addr' & E & H'). exists addr'. split; [|done].
  unfold finish. cbn [cand_cnt cand_weight cand_addr].
  change (Z.to_nat 1) with 1%nat. cbn [select_cand]. rewrite arr_get_0. bind_step.
  rewrite (proj2 (Z.ltb_ge _ _)) by done. change (-1 =? -1) with true. cbv iota. bind_step.
  change (0 =? -1) with false. cbv iota. rewrite arr_get_0. bind_step. exact E.
Qed.

Lemma finish_second addr B P x y D Q l v w ws : inet4 addr B P -> inet4 y D Q -> MIN_WEIGHT <= w -> v < w ->
  exists addr', finish PJ_AF_INET addr (mk_cands (x :: y :: l) (v :: w :: ws) 2) = Some addr' /\ inet4 addr' D P.
Proof.
  intros Ha Hy Hw Hv. destruct (i4_copy _ _ _ _ _ _ Ha Hy) as (addr' & E & H'). exists addr'. split; [|done].
  unfold finish. cbn [cand_cnt cand_weight cand_addr].
  assert (Es : select_cand (Z.to_nat 2) (v :: w :: ws) 0 (-1) = Some 1).
  { change (Z.to_nat 2) with 2%nat. cbn [select_cand]. rewrite !arr_get_0. bind_step. change (0 + 1) with 1.
    rewrite !arr_get_1. change (-1 =? -1) with true. cbv iota. rewrite !bind_some_eq. cbv beta.
    rewrite (proj2 (Z.ltb_ge w _)) by done. change (0 =? -1) with false. cbv iota.
    rewrite (proj2 (Z.ltb_lt v w)) by done. by destruct (v <? MIN_WEIGHT). }
  rewrite Es. bind_step. change (1 =? -1) with false. cbv iota. rewrite arr_get_1. bind_step. exact E.
Qed.

Lemma finish_none addr B P l ws : inet4 addr B P ->
  exists addr', finish PJ_AF_INET addr (mk_cands l ws 0) = Some addr' /\ inet4 addr' [127; 0; 0; 1] P.
Proof.
  intros [L Ho Hf Hp Ha]. unfold finish. cbn [cand_cnt]. change (Z.to_nat 0) with 0%nat.
  cbn [select_cand]. bind_step. change (-1 =? -1) with true. cbv iota. unfold set_loopback, set_s_addr.
  rewrite Z.eqb_refl. store addr 4 (to_le 4 (pj_htonl 0x7f000001)) a' E L' O' F' K'. exists a'. split; [done|].
  split; [done..|rewrite K' by lia; done|rewrite K' by lia; done|exact F'].
Qed.

(** ** The whole choice *)

Lemma default_step_is s s' dst0 addr D l ws n : n < CAND_CNT -> default_is s dst0 addr D s' -> exists d,
  default_step junk s dst0 PJ_AF_INET addr (mk_cands l ws n) =
    (c ← add_default (mk_cands l ws n) d; Some (d, c, s')) /\ inet4 d D no_port.
Proof.
  intros Hn (d0 & P & E & H0). destruct (i4_set_port _ _ _ H0) as (d & Ed & Hd). exists d. split; [|done].
  unfold default_step. cbn [cand_cnt]. rewrite (proj2 (Z.ltb_lt _ _) Hn), E, bind_some_eq. cbv beta iota.
  change (PJ_SUCCESS =? PJ_SUCCESS) with true. cbv iota. rewrite Ed, bind_some_eq. reflexivity.
Qed.

Lemma default_step_fails s s' dst0 addr d l ws n : n < CAND_CNT -> default_fails s dst0 addr d s' ->
  default_step junk s dst0 PJ_AF_INET addr (mk_cands l ws n) = Some (d, mk_cands l ws n, s').
Proof.
  intros Hn (st & E & Hst).
  unfold default_step. cbn [cand_cnt]. rewrite (proj2 (Z.ltb_lt _ _) Hn), E, bind_some_eq. cbv beta iota.
  by rewrite (proj2 (Z.eqb_neq _ _) Hst).
Qed.

Lemma interface_fails_0 s s' dst0 d x l ws : default_fails s dst0 zeros d s' -> exists l',
  interface_step junk s dst0 PJ_AF_INET (mk_cands (x :: l) ws 0) = Some (mk_cands l' ws 0, s').
Proof.
  intros Hf. pose proof (enum_not_found s s' dst0 d x l Hf) as E. eexists. unfold interface_step.
  cbn [cand_cnt cand_addr cand_weight]. change (0 <? CAND_CNT) with true. cbv iota zeta.
  change (drop (Z.to_nat 0) (x :: l)) with (x :: l). rewrite E, bind_some_eq. cbv beta iota.
  change (PJ_ENOTFOUND =? PJ_SUCCESS) with false. reflexivity.
Qed.

Lemma interface_fails_1 s s' dst0 d x y l ws : default_fails s dst0 zeros d s' -> exists l',
  interface_step junk s dst0 PJ_AF_INET (mk_cands (x :: y :: l) ws 1) = Some (mk_cands (x :: l') ws 1, s').
Proof.
  intros Hf. pose proof (enum_not_found s s' dst0 d y l Hf) as E. eexists. unfold interface_step.
  cbn [cand_cnt cand_addr cand_weight]. change (1 <? CAND_CNT) with true. cbv iota zeta.
  change (drop (Z.to_nat 1) (x :: y :: l)) with (y :: l). rewrite E, bind_some_eq. cbv beta iota.
  change (PJ_ENOTFOUND =? PJ_SUCCESS) with false. reflexivity.
Qed.

(** The steps after the host name. *)
Definition after_name s (dst0 addr : list Z) (c : candidates) : option (list Z * S) :=
  '(addr, c, s) ← default_step junk s dst0 PJ_AF_INET addr c;
  '(c, s) ← interface_step junk s dst0 PJ_AF_INET c;
  c ← weigh_ipv4 (Z.to_nat (cand_cnt c)) c 0;
  addr ← finish PJ_AF_INET addr c; Some (addr, s).

Lemma gethostip_after s s0 s1 dst0 name0 name1 hostname addr addr1 x0 h c addr' s' :
  set_family zeros PJ_AF_INET = Some x0 -> set_family addr PJ_AF_INET = Some addr1 ->
  pj_gethostname s name0 = (hostname, name1, s0) -> hostname_addr junk s0 hostname PJ_AF_INET = Some (h, s1) ->
  match h with
  | Some h => add_hostname (mk_cands (replicate 8 x0) (replicate 8 0) 0) h = Some c
  | None => c = mk_cands (replicate 8 x0) (replicate 8 0) 0
  end ->
  after_name s1 dst0 addr1 c = Some (addr', s') ->
  pj_gethostip junk s dst0 name0 PJ_AF_INET addr = Some (PJ_SUCCESS, addr', name1, s').
Proof.
  intros E0 E1 En Eh Ec Ea. unfold pj_gethostip. rewrite E0. bind_step. rewrite E1. bind_step. rewrite En.
  cbv beta iota. rewrite Eh, bind_some_eq. cbv beta iota. change (Z.to_nat CAND_CNT) with 8%nat.
  replace (match h with Some _ => _ | None => _ end) with (Some c) by (destruct h; [done|by rewrite Ec]).
  bind_step. unfold after_name in Ea. bind_inv Ea. destruct x as [[addr2 c2] s2]. rewrite E, bind_some_eq. cbv beta iota in Ea |- *.
  bind_inv Ea. destruct x as [c3 s3]. rewrite E2, bind_some_eq. cbv beta iota in Ea |- *. rewrite Z.eqb_refl.
  bind_inv Ea. rewrite E3. bind_step. bind_inv Ea. rewrite E4. bind_step. by simplify_eq.
Qed.

(** The default route has been added, and its address is the first candidate. *)
Lemma after_first s s' s'' dst0 addr D d y x0 w l ws n : w = 2 \/ w = 3 -> inet4 d D no_port -> inet4 y D no_port ->
  default_step junk s dst0 PJ_AF_INET addr (mk_cands l ws n) = Some (d, mk_cands (y :: replicate 7 x0) (w :: replicate 7 0) 1, s') ->
  default_is s' dst0 zeros D s'' -> ordinary D -> exists addr',
  after_name s dst0 addr (mk_cands l ws n) = Some (addr', s'') /\ inet4 addr' D no_port.
Proof.
  intros Hw Hd Hy E H2 Ho. pose proof (i4_ordinary _ _ _ Hy Ho) as W.
  destruct (interface_known s' s'' dst0 y x0 w D) as (rest & Er); [done..|].
  destruct (finish_one d D no_port y D no_port rest (w + 1 + weight_of D) (replicate 7 0)) as (a' & Ef & Ha);
    [done..|rewrite W; unfold MIN_WEIGHT, WEIGHT_DISABLED; lia|].
  exists a'. split; [|done]. unfold after_name. rewrite E, bind_some_eq. cbv beta iota.
  rewrite Er, bind_some_eq. cbv beta iota. cbn [cand_cnt]. change (Z.to_nat 1) with 1%nat.
  rewrite (weigh_one _ _ _ _ _ _ Hy). bind_step. by rewrite Ef.
Qed.

Lemma route_alone s s' s'' dst0 addr D x0 : inet4 x0 [0; 0; 0; 0] no_port ->
  default_is s dst0 addr D s' -> default_is s' dst0 zeros D s'' -> ordinary D -> exists addr',
  after_name s dst0 addr (mk_cands (replicate 8 x0) (replicate 8 0) 0) = Some (addr', s'') /\ inet4 addr' D no_port.
Proof.
  intros H0 H1 H2 Ho. destruct (default_step_is s s' dst0 addr D (replicate 8 x0) (replicate 8 0) 0) as (d & E & Hd); [done..|].
  destruct (default_first x0 d D) as (y & Ey & Hy); [done..|]. rewrite Ey in E.
  by apply (after_first s s' s'' dst0 addr D d y x0 2); [left|..].
Qed.

(** With an address of the host name before it, the same or another one. *)
Lemma route_named s s' s'' dst0 addr D x0 x1 A : inet4 x0 [0; 0; 0; 0] no_port -> inet4 x1 A no_port ->
  default_is s dst0 addr D s' -> default_is s' dst0 zeros D s'' -> ordinary D -> exists addr',
  after_name s dst0 addr (mk_cands (x1 :: replicate 7 x0) (1 :: replicate 7 0) 1) = Some (addr', s'') /\
  inet4 addr' D no_port.
Proof.
  intros H0 Hx1 H1 H2 Ho.
  destruct (default_step_is s s' dst0 addr D (x1 :: replicate 7 x0) (1 :: replicate 7 0) 1) as (d & E & Hd); [done..|].
  destruct (decide (A = D)) as [->|Hne].
  { rewrite (default_known x1 x0 d D) in E by done. by apply (after_first s s' s'' dst0 addr D d x1 x0 3); [right|..]. }
  destruct (default_second x1 x0 d A D) as (y & Ey & Hy); [done..|]. rewrite Ey in E.
  destruct (interface_second s' s'' dst0 x1 y x0 A D) as (rest & Er); [done..|].
  pose proof (weight_nonpos A). pose proof (i4_ordinary _ _ _ Hy Ho) as W.
  destruct (finish_second d D no_port x1 y D no_port rest (0 + weight_of A) (3 + weight_of D) (replicate 6 0))
    as (a' & Ef & Ha); [done..|rewrite W; unfold MIN_WEIGHT, WEIGHT_DISABLED; lia|lia|].
  exists a'. split; [|done]. unfold after_name. rewrite E, bind_some_eq. cbv beta. rewrite bind_some_eq. cbv beta iota.
  rewrite Er, bind_some_eq. cbv beta iota. cbn [cand_cnt]. change (Z.to_nat 2) with 2%nat.
  rewrite (weigh_two _ _ _ _ _ _ _ _ _ _ Hx1 Hy). bind_step. by rewrite Ef.
Qed.

(** Without a default route. *)
Lemma no_route_alone s s' s'' dst0 addr d d2 B P0 x0 :
  default_fails s dst0 addr d s' -> inet4 d B P0 -> default_fails s' dst0 zeros d2 s'' ->
  exists addr' P, after_name s dst0 addr (mk_cands (replicate 8 x0) (replicate 8 0) 0) = Some (addr', s'') /\
  inet4 addr' [127; 0; 0; 1] P.
Proof.
  intros H1 Hd H2. pose proof (default_step_fails s s' dst0 addr d (replicate 8 x0) (replicate 8 0) 0 ltac:(done) H1) as E.
  destruct (interface_fails_0 s' s'' dst0 d2 x0 (replicate 7 x0) (replicate 8 0) H2) as (l' & Er).
  destruct (finish_none d B P0 l' (replicate 8 0) Hd) as (a' & Ef & Ha). exists a', P0. split; [|done].
  unfold after_name. rewrite E, bind_some_eq. cbv beta iota. change (replicate 8 x0) with (x0 :: replicate 7 x0).
  rewrite Er, bind_some_eq. cbv beta iota. cbn [cand_cnt]. change (Z.to_nat 0) with 0%nat. cbn [weigh_ipv4].
  bind_step. by rewrite Ef.
Qed.

Lemma no_route_named s s' s'' dst0 addr d d2 B P0 x0 x1 A : inet4 x1 A no_port ->
  default_fails s dst0 addr d s' -> inet4 d B P0 -> default_fails s' dst0 zeros d2 s'' ->
  exists addr' P, after_name s dst0 addr (mk_cands (x1 :: replicate 7 x0) (1 :: replicate 7 0) 1) = Some (addr', s'') /\
  inet4 addr' A P.
Proof.
  intros Hx H1 Hd H2.
  pose proof (default_step_fails s s' dst0 addr d (x1 :: replicate 7 x0) (1 :: replicate 7 0) 1 ltac:(done) H1) as E.
  destruct (interface_fails_1 s' s'' dst0 d2 x1 x0 (replicate 6 x0) (1 :: replicate 7 0) H2) as (l' & Er).
  pose proof (weight_nonpos A).
  destruct (finish_one d B P0 x1 A no_port l' (1 + weight_of A) (replicate 7 0)) as (a' & Ef & Ha);
    [done..|unfold MIN_WEIGHT, WEIGHT_DISABLED; lia|]. exists a', P0. split; [|done].
  unfold after_name. rewrite E, bind_some_eq. cbv beta iota. change (replicate 7 x0) with (x0 :: replicate 6 x0).
  rewrite Er, bind_some_eq. cbv beta iota. cbn [cand_cnt]. change (Z.to_nat 1) with 1%nat.
  rewrite (weigh_one _ _ _ _ _ _ Hx). bind_step. by rewrite Ef.
Qed.

(** C19 The address of the host.  The host name resolves to [h], or to nothing.
    If both probes of the default route give the same ordinary address, this is
    the address of the host, whatever the host name resolves to.  If both fail,
    the first leaving an IPv4 address in the buffer, it is the address of the host name, and the loopback address if there is
    none.  The operation succeeds in each case. *)
Theorem gethostip_choice s s0 s1 s2 s3 dst0 name0 name1 hostname addr addr1 d d2 h :
  set_family addr PJ_AF_INET = Some addr1 ->
  pj_gethostname s name0 = (hostname, name1, s0) -> hostname_addr junk s0 hostname PJ_AF_INET = Some (h, s1) ->
  (forall x, h = Some x -> length x = 28%nat /\ sockaddr_ok x /\ family_of x = PJ_AF_INET) ->
  (forall D, default_is s1 dst0 addr1 D s2 -> default_is s2 dst0 zeros D s3 -> ordinary D ->
     exists a, pj_gethostip junk s dst0 name0 PJ_AF_INET addr = Some (PJ_SUCCESS, a, name1, s3) /\
     family_of a = PJ_AF_INET /\ addr_of a = D /\ port_of a = 0) /\
  (default_fails s1 dst0 addr1 d s2 -> length d = 28%nat -> sockaddr_ok d -> family_of d = PJ_AF_INET ->
   default_fails s2 dst0 zeros d2 s3 ->
     exists a, pj_gethostip junk s dst0 name0 PJ_AF_INET addr = Some (PJ_SUCCESS, a, name1, s3) /\
     family_of a = PJ_AF_INET /\ addr_of a = match h with Some x => addr_of x | None => [127; 0; 0; 1] end).
Proof.
  intros E1 En Eh Hh. destruct start_cand as (x0 & E0 & H0).
  assert (exists c, match h with
    | Some h => add_hostname (mk_cands (replicate 8 x0) (replicate 8 0) 0) h = Some c
    | None => c = mk_cands (replicate 8 x0) (replicate 8 0) 0 end /\
    match h with
    | Some h => exists x1, c = mk_cands (x1 :: replicate 7 x0) (1 :: replicate 7 0) 1 /\ inet4 x1 (addr_of h) no_port
    | None => c = mk_cands (replicate 8 x0) (replicate 8 0) 0 end) as (c & Ec & Hc).
  { destruct h as [x|]; [|by eexists]. destruct (Hh x eq_refl) as (L & Hok & Hf).
    destruct (i4_intro x L Hok Hf) as (P & Hx). destruct (first_cand x0 x _ P H0 Hx) as (x1 & E & Hx1). by eauto. }
  pose proof (fun a s' => gethostip_after s s0 s1 dst0 name0 name1 hostname addr addr1 x0 h c a s' E0 E1 En Eh Ec) as K.
  split.
  - intros D D1 D2 Ho.
    assert (exists a, after_name s1 dst0 addr1 c = Some (a, s3) /\ inet4 a D no_port) as (a & Ea & Ha).
    { destruct h; [destruct Hc as (x1 & -> & Hx1); by eapply route_named|subst c; by eapply route_alone]. }
    exists a. destruct (i4_fields a D _ Ha) as (_ & -> & -> & ->). by rewrite (K a s3 Ea).
  - intros D1 Ld Od Fd D2. destruct (i4_intro d Ld Od Fd) as (P0 & Hd).
    assert (exists a P, after_name s1 dst0 addr1 c = Some (a, s3) /\
      inet4 a (match h with Some x => addr_of x | None => [127; 0; 0; 1] end) P) as (a & P & Ea & Ha).
    { destruct h; [destruct Hc as (x1 & -> & Hx1); by eapply no_route_named|subst c; by eapply no_route_alone]. }
    exists a. destruct (i4_fields a _ _ Ha) as (_ & -> & -> & _). by rewrite (K a s3 Ea).
Qed.
End Host.
