(* ===== verification/SockAddrExamples.v ===== *)
(** * Socket addresses on concrete inputs

    A small system with the dotted notation of IPv4 and the full notation of
    IPv6, which satisfies what the theorems ask of the system; the theorems
    applied to concrete addresses, the examples of the documentation, and the
    inputs on which the code differs from what it means to do. *)
From Stdlib Require Import String.
From S2P Require Import Prelude Bytes Hash PjString PjStringSpec Log SockBsd SockAddr SockAddrSpec SockAddrParse AddrResolv SockAddrRoundtrip SockNet HostIp TimeVal IoQueueExamples.

(** ** The system *)

#[export] Instance sim_families : AddressConstants := {|
  PJ_AF_UNSPEC := 0; PJ_AF_INET := 1; PJ_AF_INET6 := 2; sizeof_native_sockaddr_in := 8; PJ_HAS_IPV6 := true
|}.

#[export] Instance sim_family_laws : FamilyLaws.
Proof. by split. Qed.

(** The parts between the separators. *)
Fixpoint split_at (c : Z) (s cur : list Z) : list (list Z) :=
  match s with
  | [] => [cur]
  | x :: s => if x =? c then cur :: split_at c s [] else split_at c s (cur ++ [x])
  end.

Fixpoint join (c : Z) (parts : list (list Z)) : list Z :=
  match parts with
  | [] => []
  | [p] => p
  | p :: parts => p ++ c :: join c parts
  end.

Definition dec (b : Z) : list Z := default [] (fmt_d b).
Definition undec (s : list Z) : option Z :=
  if forallb pj_isdigit s && (0 <? Z.of_nat (length s)) && (pj_strtoul s <? 256) then Some (pj_strtoul s) else None.

Definition hexd (v : Z) : Z := if v <? 10 then v + 48 else v + 87.
(** Two bytes as a group of four digits, and back. *)
Definition hex4 (hi lo : Z) : list Z := [hexd (hi / 16); hexd (hi mod 16); hexd (lo / 16); hexd (lo mod 16)].
Definition unhex4 (s : list Z) : option (list Z) :=
  match s with
  | [a; b; c; d] =>
      if forallb pj_isxdigit s then
        Some [16 * pj_hex_digit_to_val a + pj_hex_digit_to_val b; 16 * pj_hex_digit_to_val c + pj_hex_digit_to_val d]
      else None
  | _ => None
  end.

Fixpoint groups (x : list Z) : list (list Z) :=
  match x with
  | hi :: lo :: x => hex4 hi lo :: groups x
  | _ => []
  end.

Definition sim_inet_addr (t : list Z) : Z :=
  match mapM undec (split_at 46 t []) with
  | Some ([_; _; _; _] as bs) => of_le bs
  | _ => PJ_INADDR_NONE
  end.

Definition sim_pton6 (t : list Z) : option (list Z) :=
  gs ← mapM unhex4 (split_at 58 t []); if (length gs =? 8)%nat then Some (concat gs) else None.

Definition sim_ntop (af : Z) (a : list Z) (size : Z) : option (list Z) :=
  let t := if af =? PJ_AF_INET then join 46 (map dec a) else join 58 (groups a) in
  if Z.of_nat (length t) <? size then Some t else None.

(** The host "pbx" has three addresses; two are the same. *)
Definition answer (af socktype : Z) (name : option (list Z)) (addr : list Z) : addrinfo :=
  mk_addrinfo af socktype name (Z.of_nat (length addr)) addr.

Definition pbx_answers : list addrinfo :=
  [answer 1 1 (Some (text "pbx.lan"%string ++ [0])) [1; 0; 0; 0; 192; 168; 1; 9];
   answer 1 2 None [1; 0; 0; 0; 192; 168; 1; 9];
   answer 2 1 None ([2; 0; 0; 0; 0; 0; 0; 0; 0xfe; 0x80] ++ replicate 13 0 ++ [1]);
   answer 1 2 None [1; 0; 0; 0; 10; 0; 0; 1]].

#[export] Instance sim_addresses : SystemAddresses sim := {|
  inet_addr := sim_inet_addr;
  inet_pton s af t := (if af =? PJ_AF_INET then None else sim_pton6 t, s);
  inet_ntop s af a size := (sim_ntop af a size, s);
  getaddrinfo s name af socktype canon :=
    if bool_decide (name = text "pbx"%string) then (0, pbx_answers, s) else (-2, [], s)
|}.

(** ** It satisfies the laws *)

Lemma split_one c x cur : c ∉ x -> split_at c x cur = [cur ++ x].
Proof.
  revert cur. induction x as [|y x IH]; intros cur Hx; simpl; [by rewrite app_nil_r|].
  apply not_elem_of_cons in Hx as [Hy Hx]. rewrite (proj2 (Z.eqb_neq _ _)) by done. by rewrite IH, <- app_assoc.
Qed.

Lemma split_app c x y cur : c ∉ x -> split_at c (x ++ c :: y) cur = (cur ++ x) :: split_at c y [].
Proof.
  revert cur. induction x as [|z x IH]; intros cur Hx; simpl; [by rewrite Z.eqb_refl, app_nil_r|].
  apply not_elem_of_cons in Hx as [Hz Hx]. rewrite (proj2 (Z.eqb_neq _ _)) by done. by rewrite IH, <- app_assoc.
Qed.

Lemma split_join c parts : parts <> [] -> Forall (fun p => c ∉ p) parts -> split_at c (join c parts) [] = parts.
Proof.
  intros Hne Hp. induction Hp as [|p parts Hp Hps IH]; [done|]. destruct parts as [|q parts].
  - simpl. by rewrite split_one.
  - change (join c (p :: q :: parts)) with (p ++ c :: join c (q :: parts)). by rewrite split_app, IH.
Qed.

Lemma join_Forall (P : Z -> Prop) c parts : P c -> Forall (Forall P) parts -> Forall P (join c parts).
Proof.
  intros Hc Hp. induction Hp as [|p parts Hp Hps IH]; [constructor|]. destruct parts as [|q parts]; [done|].
  change (join c (p :: q :: parts)) with (p ++ c :: join c (q :: parts)). apply Forall_app. split; [done|by constructor].
Qed.

Lemma join_length c parts k : parts <> [] -> Forall (fun p => length p <= k)%nat parts ->
  (length (join c parts) < length parts * (k + 1))%nat.
Proof.
  intros Hne Hp. induction Hp as [|p parts Hp Hps IH]; [done|]. destruct parts as [|q parts]; [simpl; lia|].
  change (join c (p :: q :: parts)) with (p ++ c :: join c (q :: parts)). rewrite length_app.
  specialize (IH ltac:(done)). simpl in *. lia.
Qed.

Lemma join_colons parts : parts <> [] -> Forall (fun p => 58 ∉ p) parts ->
  colons (join 58 parts) = Z.of_nat (length parts) - 1.
Proof.
  intros Hne Hp. induction Hp as [|p parts Hp Hps IH]; [done|]. destruct parts as [|q parts].
  - simpl. by rewrite (proj2 (colons_none p) Hp).
  - change (join 58 (p :: q :: parts)) with (p ++ 58 :: join 58 (q :: parts)).
    rewrite colons_app, colons_cons, IH, (proj2 (colons_none p) Hp) by done. simpl. lia.
Qed.

Definition dec_good (b : Z) : bool :=
  match undec (dec b) with Some v => v =? b | None => false end && forallb pj_isdigit (dec b)
  && (1 <=? length (dec b))%nat && (length (dec b) <=? 3)%nat.

Lemma dec_all : forallb dec_good (seqZ 0 256) = true.
Proof. vm_compute. reflexivity. Qed.

Lemma dec_byte b : 0 <= b < 256 ->
  undec (dec b) = Some b /\ forallb pj_isdigit (dec b) = true /\ (1 <= length (dec b) <= 3)%nat.
Proof.
  intros Hb. pose proof (all_bytes _ dec_all b Hb) as H. unfold dec_good in H.
  rewrite !andb_true_iff, !Nat.leb_le in H. destruct H as (((H1 & H2) & H3) & H4).
  destruct (undec (dec b)); [|done]. apply Z.eqb_eq in H1 as ->. auto.
Qed.

Definition hex_good (v : Z) : bool :=
  negb (v <? 16) || (pj_isxdigit (hexd v) && (pj_hex_digit_to_val (hexd v) =? v)).

Lemma hex_all : forallb hex_good (seqZ 0 256) = true.
Proof. vm_compute. reflexivity. Qed.

Lemma hexd_val v : 0 <= v < 16 -> pj_isxdigit (hexd v) = true /\ pj_hex_digit_to_val (hexd v) = v.
Proof.
  intros Hv. pose proof (all_bytes _ hex_all v ltac:(lia)) as H. unfold hex_good in H.
  rewrite (proj2 (Z.ltb_lt _ _)) in H by lia. simpl in H. apply andb_true_iff in H as [H1 H2%Z.eqb_eq]. done.
Qed.

Lemma unhex_hex hi lo : 0 <= hi < 256 -> 0 <= lo < 256 ->
  unhex4 (hex4 hi lo) = Some [hi; lo] /\ Forall (fun c => pj_isxdigit c = true) (hex4 hi lo).
Proof.
  intros Hh Hl.
  destruct (hexd_val (hi / 16)) as [A1 A2]; [div_lia|]. destruct (hexd_val (hi mod 16)) as [B1 B2]; [div_lia|].
  destruct (hexd_val (lo / 16)) as [C1 C2]; [div_lia|]. destruct (hexd_val (lo mod 16)) as [D1 D2]; [div_lia|].
  split; [|by repeat constructor]. unfold unhex4, hex4. simpl forallb. rewrite A1, B1, C1, D1. simpl.
  rewrite A2, B2, C2, D2. repeat f_equal; div_lia.
Qed.

Lemma undec_dec a : octets a -> mapM undec (map dec a) = Some a.
Proof.
  induction 1 as [|b a Hb _ IH]; [done|]. cbn [map mapM]. destruct (dec_byte b Hb) as (-> & _).
  bind_step. by rewrite IH.
Qed.

Lemma dec_parts a : octets a ->
  Forall (Forall (fun c => decimal c \/ c = 46)) (map dec a) /\ Forall (fun p => 46 ∉ p) (map dec a) /\
  Forall (fun p => length p <= 3)%nat (map dec a) /\ (a <> [] -> join 46 (map dec a) <> []).
Proof.
  intros Ho. assert (H : Forall (fun p => Forall decimal p /\ (1 <= length p <= 3)%nat) (map dec a)).
  { apply Forall_map. apply (Forall_impl _ _ _ Ho). intros b Hb. simpl. destruct (dec_byte b Hb) as (_ & Hd%digits_decimal & Hl).
    done. }
  split_and!.
  - apply (Forall_impl _ _ _ H). intros p [Hp _]. apply (Forall_impl _ _ _ Hp). simpl. lia.
  - apply (Forall_impl _ _ _ H). intros p [Hp _]. rewrite Forall_forall in Hp. intros Hc. specialize (Hp 46 Hc). simpl in Hp. lia.
  - apply (Forall_impl _ _ _ H). simpl. lia.
  - intros Hne. destruct a as [|b a]; [done|]. simpl map in *. inversion_clear H as [|?? [_ Hl] _].
    destruct (map dec a) as [|q qs]; simpl; destruct (dec b); simpl in *; done || lia.
Qed.

Lemma unhex_groups n x : length x = (2 * n)%nat -> octets x -> exists gs,
  mapM unhex4 (groups x) = Some gs /\ concat gs = x /\ length gs = n /\ length (groups x) = n /\
  Forall (Forall (fun c => pj_isxdigit c = true)) (groups x) /\ Forall (fun p => length p <= 4)%nat (groups x).
Proof.
  revert x. induction n as [|n IH]; intros x L Ho.
  { destruct x; [|done]. exists []. split_and!; done || constructor. }
  destruct x as [|hi [|lo x]]; [simpl in L; lia..|]. inversion_clear Ho as [|?? Hh Ho'].
  inversion_clear Ho' as [|?? Hl Ho]. destruct (IH x) as (gs & E & Ec & L1 & L2 & H1 & H2); [simpl in L; lia|done|].
  destruct (unhex_hex hi lo Hh Hl) as [E1 E2]. exists ([hi; lo] :: gs). cbn [groups mapM]. rewrite E1. bind_step.
  rewrite E. bind_step. split_and!; [done|simpl; by rewrite Ec|simpl; lia|simpl; lia|by constructor|constructor; [simpl; lia|done]].
Qed.

#[export] Instance sim_text : TextLaws sim.
Proof.
  split.
  - intros s a size L Ho Hs. destruct (dec_parts a Ho) as (Hc & Hn & Hl & Hne).
    assert (Ha : a <> []) by (by destruct a).
    assert (Hm : map dec a <> []) by (by destruct a).
    pose proof (join_length 46 _ 3 Hm Hl) as Hj. rewrite length_map, L in Hj.
    exists (join 46 (map dec a)), s. split_and!.
    + simpl. unfold sim_ntop. simpl. unfold PJ_INET_ADDRSTRLEN in Hs. by rewrite (proj2 (Z.ltb_lt _ _)) by lia.
    + by apply Hne.
    + apply join_Forall; [by right|done].
    + unfold PJ_INET_ADDRSTRLEN. lia.
    + simpl. unfold sim_inet_addr. rewrite split_join, undec_dec by done.
      by destruct (list_of_4 a L) as (b0 & b1 & b2 & b3 & ->).
  - intros s a size L Ho Hs. destruct (unhex_groups 8 a L Ho) as (gs & E & Ec & L1 & L2 & H1 & H2).
    assert (Hm : groups a <> []) by (by intros Hm; rewrite Hm in L2).
    assert (Hn : Forall (fun p => 58 ∉ p) (groups a)).
    { apply (Forall_impl _ _ _ H1). intros p Hp Hc. rewrite Forall_forall in Hp. by specialize (Hp 58 Hc). }
    pose proof (join_length 58 _ 4 Hm H2) as Hj. rewrite L2 in Hj.
    exists (join 58 (groups a)), s. split_and!.
    + simpl. unfold sim_ntop. simpl. unfold PJ_INET6_ADDRSTRLEN in Hs. by rewrite (proj2 (Z.ltb_lt _ _)) by lia.
    + rewrite join_colons, L2 by done. lia.
    + apply join_Forall; [by right; right|]. apply (Forall_impl _ _ _ H1). intros p Hp. apply (Forall_impl _ _ _ Hp). auto.
    + unfold PJ_INET6_ADDRSTRLEN. lia.
    + intros s2. exists s2. simpl. unfold sim_pton6. rewrite split_join, E by done. bind_step. by rewrite L1, Ec.
Qed.

(** ** The theorems on concrete addresses *)

Definition sys0 : sim := mk_sim 0 [] 10 0.
Definition slot0 : pj_addrinfo := mk_pj_addrinfo (replicate 254 0) (replicate 28 0).

(** 192.168.1.9:5060 and [fe80::1]:5061. *)
Definition sip4 : list Z := [1; 0; 19; 196; 192; 168; 1; 9] ++ replicate 20 0.
Definition sip6 : list Z := [2; 0; 19; 197; 0; 0; 0; 0; 0xfe; 0x80] ++ replicate 13 0 ++ [1; 0; 0; 0; 0].

Lemma octets_all l : forallb (fun b => (0 <=? b) && (b <? 256)) l = true -> octets l.
Proof.
  intros H. apply Forall_forall. intros b Hb. rewrite forallb_forall in H.
  specialize (H b (proj1 (list_elem_of_In l b) Hb)). simpl in H. lia.
Qed.

Ltac octets_tac := apply octets_all; reflexivity.

Lemma sip4_ok : sockaddr_ok sip4.
Proof. split_and!; [octets_tac|done|vm_compute; lia]. Qed.

Lemma sip6_ok : sockaddr_ok sip6.
Proof. split_and!; [octets_tac|done|vm_compute; lia]. Qed.


Lemma sockaddr_cmp_order_witness : exists ab ba,
  pj_sockaddr_cmp sip4 sip6 = Some ab /\ pj_sockaddr_cmp sip6 sip4 = Some ba /\ ba = - ab.
Proof.
  destruct (sockaddr_cmp_order sip4 sip6 sip6 sip4_ok sip6_ok sip6_ok) as (ab & ba & bc & ac & E1 & E2 & _ & _ & _ & E & _).
  exists ab, ba. auto.
Defined.

Lemma check_addr_type_spec_witness :
  pj_check_addr_type sip4 (PJ_ADDR_TYPE_LOOPBACK + PJ_ADDR_TYPE_PRIVATE) = Some 1.
Proof.
  destruct (check_addr_type_spec sip4 (PJ_ADDR_TYPE_LOOPBACK + PJ_ADDR_TYPE_PRIVATE) sip4_ok) as (r & E & _ & Hr); [done|].
  rewrite E. f_equal. apply Hr. exists Private. split; [done|]. right. right. done.
Defined.

Lemma parse2_grammar_witness :
  pj_sockaddr_parse2 PJ_AF_UNSPEC 0 (text "[fe::01]:80"%string) =
    mk_parsed PJ_SUCCESS (Some (text "fe::01"%string)) (Some 80) (Some PJ_AF_INET6).
Proof.
  apply (parse2_grammar PJ_AF_UNSPEC (text "[fe::01]:80"%string)); [by left|].
  apply (as_bracket_port PJ_AF_UNSPEC (text "fe::01"%string) [] [56; 48]).
  - apply (not_in_class (fun c => c <> 93)); [|tauto]. repeat constructor; done.
  - repeat constructor; lia.
  - done.
  - right. done.
Defined.

Lemma answer_ok_pbx af : Forall (fun r => wanted af r = true -> answer_ok r) pbx_answers.
Proof.
  repeat constructor; try octets_tac; try done; cbn; try lia.
  intros n [= <-]. exists (text "pbx.lan"%string). split; [|by exists []].
  apply (not_in_class (fun c => c <> 0)); [|tauto]. repeat constructor; done.
Qed.

(** Two of the four answers: one is repeated, one is of the other family. *)
Lemma getaddrinfo_correct_witness : exists ai',
  pj_getaddrinfo sys0 PJ_AF_INET (text "pbx"%string) 3 (replicate 3 slot0) = Some (PJ_SUCCESS, 2, ai', sys0) /\
  length ai' = 3%nat /\ untouched 2 (replicate 3 slot0) ai'.
Proof.
  destruct (getaddrinfo_correct sys0 sys0 PJ_AF_INET (text "pbx"%string) 3 (replicate 3 slot0) pbx_answers)
    as (ai' & E & _ & _ & _ & L & U); [by right; left|done|done|cbn; lia| |done|apply answer_ok_pbx|].
  - apply Forall_replicate. split_and!; [done|done|octets_tac].
  - exists ai'. split; [exact E|]. split; [exact L|exact U].
Defined.

(** ** A host with descriptors

    The system keeps the list of the open descriptors and gives the next number
    to a new one, as long as there are less than [host_max]; the address of its
    interface is 192.168.1.7, if it is up. *)

Record host := mk_host { host_fds : list Z; host_max : Z; host_up : bool }.

Definition next_fd (l : list Z) : Z := 1 + foldr Z.max 0 l.

Definition host_open (h : host) : Z * host :=
  if Z.of_nat (length (host_fds h)) <? host_max h then
    let fd := next_fd (host_fds h) in (fd, mk_host (fd :: host_fds h) (host_max h) (host_up h))
  else (PJ_INVALID_SOCKET, h).

#[export] Instance host_sockets : SystemSockets host := {|
  errno h := 24;
  sys_send h fd buf len flags := (len, h);
  sys_sendto h fd buf len flags to tolen := (len, h);
  sys_recv h fd buf len flags := (0, h);
  sys_recvfrom h fd buf len flags from fromlen := (0, h);
  sys_read h fd buf len := (0, h);
  sys_accept h fd addr addrlen := host_open h;
  sys_connect h fd addr addrlen := (0, h);
  sys_getsockname h fd addr addrlen := (0, h);
  sys_getsockopt h fd o := (0, match o with SO_TYPE => SOCK_STREAM | SO_ERROR => 0 end, h);
  sys_close h fd := (0, mk_host (filter (fun x => x <> fd) (host_fds h)) (host_max h) (host_up h));
  sys_getfl h fd := (0, h);
  sys_setfl h fd flags := (0, h);
  sys_select h n r w x t := (1, r, w, x, h);
  pj_gettickcount h := (mk_time_val 1000 0, h)
|}.

#[export] Instance host_resolver : SystemAddresses host := {|
  inet_addr := sim_inet_addr;
  inet_pton h af t :=
    (if af =? PJ_AF_INET then None else if bool_decide (t = [58; 58; 49]) then Some (replicate 15 0 ++ [1]) else sim_pton6 t, h);
  inet_ntop h af a size := (sim_ntop af a size, h);
  getaddrinfo h name af socktype canon :=
    if bool_decide (name = text "pbx"%string) then (0, pbx_answers, h) else (-2, [], h)
|}.

#[export] Instance host_constants : NetConstants := {|
  native_cloexec := false; PJ_SOCK_CLOEXEC := 02000000; SO_NOSIGPIPE := 0; SO_RCVBUF := 8; SO_SNDBUF := 7
|}.

Definition if_addr : list Z := [1; 0; 200; 10; 192; 168; 1; 7].

#[export] Instance host_net : SystemNet host := {|
  sys_socket h af type proto := host_open h;
  sys_bind h fd a := (0, h);
  sys_connect_to h fd a := (if host_up h then 0 else -1, h);
  sys_listen h fd n := (0, h);
  sys_sockname h fd n := if 8 <=? n then (0, if_addr, 8, h) else (-1, [], 0, h);
  sys_setsockopt h fd o v := (0, h);
  sys_intopt h fd o := (0, 65536, h);
  sys_cloexec h fd := (0, h);
  sys_rand h := (4, h)
|}.

#[export] Instance host_name : SystemHost host := {| sys_gethostname h := (Some (text "pbx"%string), h) |}.

Lemma next_fd_fresh l : Forall (fun x => x < next_fd l) l /\ 0 < next_fd l.
Proof.
  unfold next_fd. induction l as [|x l [IH Hp]]; simpl; [split; [constructor|lia]|].
  split; [|lia]. constructor; [lia|]. apply (Forall_impl _ _ _ IH). simpl. lia.
Qed.

Lemma host_open_spec h fd h' : host_open h = (fd, h') ->
  fd = PJ_INVALID_SOCKET /\ list_to_set (C := gset Z) (host_fds h') = list_to_set (host_fds h) \/
  fd <> PJ_INVALID_SOCKET /\ (fd ∉ list_to_set (C := gset Z) (host_fds h)) /\
  list_to_set (C := gset Z) (host_fds h') = {[fd]} ∪ list_to_set (host_fds h).
Proof.
  unfold host_open. destruct (next_fd_fresh (host_fds h)) as [Hf Hp]. destruct (_ <? _); intros [= <- <-]; [right|by left].
  split; [unfold PJ_INVALID_SOCKET; lia|]. split; [|done]. rewrite elem_of_list_to_set. intros Hi.
  rewrite Forall_forall in Hf. specialize (Hf _ Hi). simpl in Hf. lia.
Qed.

#[export] Instance host_laws : NetLaws host.
Proof.
  refine {| open_fds h := list_to_set (host_fds h) |}; intros; simpl in *; try done.
  - by apply host_open_spec.
  - by apply host_open_spec.
  - apply set_eq. intros x. rewrite elem_of_difference, !elem_of_list_to_set, elem_of_singleton, list_elem_of_filter. tauto.
  - by destruct (8 <=? n).
  - destruct (Z.leb_spec 8 n); simplify_eq; split_and!; try octets_tac; simpl; lia.
  - do 2 eexists. split_and!; [done|done|octets_tac].
Defined.

(** A pair is made with the descriptors 4 and 5, 5 of them being allowed; not
    one more descriptor is open if there is room for one only. *)
Lemma socketpair_no_leak_witness :
  (exists h', pj_sock_socketpair slot0 (mk_host [3] 5 true) zeros PJ_AF_INET6 SOCK_DGRAM 0 = Some (PJ_SUCCESS, Some (4, 5), h') /\
     open_fds h' = {[4; 5; 3]}) /\
  exists status h', pj_sock_socketpair slot0 (mk_host [3] 2 true) zeros PJ_AF_INET6 SOCK_DGRAM 0 = Some (status, None, h') /\
     open_fds h' = {[3]}.
Proof.
  split.
  - destruct (socketpair_no_leak slot0 (mk_host [3] 5 true) zeros PJ_AF_INET6 SOCK_DGRAM 0) as (st & sv & h' & E & Hs & _);
      [done|octets_tac|].
    assert (E2 := E). vm_compute in E2. apply (inj Some) in E2. injection E2 as E2 E3 E4. subst st sv.
    destruct (Hs eq_refl) as (a & b & Ev & _ & _ & _ & Ho). injection Ev as <- <-.
    exists h'. split; [exact E|]. rewrite Ho. simpl. set_solver.
  - destruct (socketpair_no_leak slot0 (mk_host [3] 2 true) zeros PJ_AF_INET6 SOCK_DGRAM 0) as (st & sv & h' & E & _ & Hf);
      [done|octets_tac|].
    assert (E2 := E). vm_compute in E2. apply (inj Some) in E2. injection E2 as E2 E3 E4. subst st sv.
    destruct (Hf ltac:(done)) as (_ & Ho). eexists _, h'. split; [exact E|]. rewrite Ho. simpl. set_solver.
Defined.

(** The host name "pbx" resolves to 192.168.1.9.  With the interface up, the
    address of the host is that of the interface; with it down, that of the
    name. *)
Definition start_addr : list Z := [1; 0] ++ replicate 26 0.
Definition pbx_addr : list Z := [1; 0; 0; 0; 192; 168; 1; 9] ++ replicate 20 0.

Lemma default_up : let h := mk_host [] 3 true in
  default_is slot0 h zeros start_addr [192; 168; 1; 7] h /\ default_is slot0 h zeros zeros [192; 168; 1; 7] h.
Proof. split; do 2 eexists; (split; [vm_compute; reflexivity|]); (split; [done|octets_tac|reflexivity..]). Qed.

Lemma default_down : let h := mk_host [] 3 false in
  default_fails slot0 h zeros start_addr start_addr h /\ default_fails slot0 h zeros zeros zeros h.
Proof. split; eexists; (split; [vm_compute; reflexivity|done]). Qed.

Lemma gethostip_choice_witness :
  (exists a, pj_gethostip slot0 (mk_host [] 3 true) zeros None PJ_AF_INET zeros =
     Some (PJ_SUCCESS, a, Some (text "pbx"%string), mk_host [] 3 true) /\ addr_of a = [192; 168; 1; 7]) /\
  exists a, pj_gethostip slot0 (mk_host [] 3 false) zeros None PJ_AF_INET zeros =
     Some (PJ_SUCCESS, a, Some (text "pbx"%string), mk_host [] 3 false) /\ addr_of a = [192; 168; 1; 9].
Proof.
  assert (Hx : forall x, Some pbx_addr = Some x -> length x = 28%nat /\ sockaddr_ok x /\ family_of x = PJ_AF_INET).
  { intros x E. apply (inj Some) in E. subst x. split_and!; [done|split_and!; [octets_tac|done|vm_compute; lia]|done]. }
  split.
  - destruct (gethostip_choice slot0 (mk_host [] 3 true) (mk_host [] 3 true) (mk_host [] 3 true) (mk_host [] 3 true) (mk_host [] 3 true)
      zeros None (Some (text "pbx"%string)) (text "pbx"%string) zeros start_addr start_addr zeros (Some pbx_addr)) as [H _];
      [done|done|vm_compute; reflexivity|exact Hx|].
    destruct (H _ (proj1 default_up) (proj2 default_up)) as (a & E & _ & Ea & _); [repeat split; vm_compute; lia|].
    exists a. split; [exact E|exact Ea].
  - destruct (gethostip_choice slot0 (mk_host [] 3 false) (mk_host [] 3 false) (mk_host [] 3 false) (mk_host [] 3 false) (mk_host [] 3 false)
      zeros None (Some (text "pbx"%string)) (text "pbx"%string) zeros start_addr start_addr zeros (Some pbx_addr)) as [_ H];
      [done|done|vm_compute; reflexivity|exact Hx|].
    destruct (H (proj1 default_down)) as (a & E & _ & Ea); [done|split_and!; [octets_tac|done|vm_compute; lia]|done|exact (proj2 default_down)|].
    exists a. split; [exact E|exact Ea].
Defined.

(** ** The examples of the documentation *)

Definition parsed_as (s : string) (host : string) (port af : Z) : Prop :=
  pj_sockaddr_parse2 PJ_AF_UNSPEC 0 (text s) = mk_parsed PJ_SUCCESS (Some (text host)) (Some port) (Some af).

Example documented_formats :
  parsed_as "10.0.0.1:80" "10.0.0.1" 80 1 /\ parsed_as "10.0.0.1" "10.0.0.1" 0 1 /\
  parsed_as "10.0.0.1:" "10.0.0.1" 0 1 /\ parsed_as ":80" "" 80 1 /\ parsed_as ":" "" 0 1 /\
  parsed_as "[fe::01]:80" "fe::01" 80 2 /\ parsed_as "[fe::01]" "fe::01" 0 2 /\
  parsed_as "fe::01" "fe::01" 0 2 /\ parsed_as "fe::01:80" "fe::01:80" 0 2 /\ parsed_as "[::]:" "::" 0 2.
Proof. vm_compute. split_and!; reflexivity. Qed.

(** ** Where the code differs *)

(** [pj_strtoul] wraps around, so that a port of ten digits is taken for a
    small one. *)
Theorem port_number_wraps : parsed_as "10.0.0.1:4294967376" "10.0.0.1" 80 1.
Proof. vm_compute. reflexivity. Qed.

(** What stands between the bracket and the colon is not looked at, and the
    documentation gives the port 0 for the last of these. *)
Theorem junk_after_bracket :
  parsed_as "[fe::01]junk:80" "fe::01" 80 2 /\ parsed_as "[fe::01]junk" "fe::01" 0 2 /\ parsed_as "[::]:80" "::" 80 2.
Proof. vm_compute. split_and!; reflexivity. Qed.

(** The empty string is an IPv4 address, also when IPv6 is asked for. *)
Theorem empty_is_inet :
  pj_sockaddr_parse2 PJ_AF_INET6 0 [] = mk_parsed PJ_SUCCESS (Some []) (Some 0) (Some PJ_AF_INET).
Proof. reflexivity. Qed.

(** An address that was not set, or no kind asked for: the result is an error
    code, which is a true [pj_bool_t]. *)
Theorem unset_is_every_type type : exists r,
  pj_check_addr_type (replicate 28 0) type = Some r /\ r <> 0.
Proof.
  exists PJ_EINVAL. split; [|done]. unfold pj_check_addr_type. destruct (type =? 0); [done|]. reflexivity.
Qed.

(** The broadcast address has the value of an error, and is looked up as a
    name. *)
Theorem broadcast_is_resolved s :
  pj_sockaddr_parse slot0 s PJ_AF_UNSPEC 0 (text "255.255.255.255"%string) (replicate 28 0) =
  Some (PJ_ERESOLVE, [1; 0; 0; 0; 255; 255; 255; 255] ++ replicate 20 0, s).
Proof. vm_compute. reflexivity. Qed.

(** Nothing is printed of an address of another family, and the text buffer on
    the stack is resolved with what it happens to hold. *)
Theorem synthesize_reads_uninitialised : exists dst' s',
  pj_sockaddr_synthesize slot0 sys0 (text "pbx"%string ++ [0]) PJ_AF_INET (replicate 28 0)
    ([9; 0] ++ replicate 26 0) = Some (PJ_SUCCESS, dst', s') /\ addr_of dst' = [192; 168; 1; 9].
Proof. vm_compute. eauto. Qed.

(** With no tries allowed, binding to a random port succeeds, and binds
    nothing. *)
Theorem no_try_succeeds (h : host) : pj_sock_bind_random h zeros 4 sip4 100 0 = Some (PJ_SUCCESS, h).
Proof. reflexivity. Qed.

(** The range goes past the last port: the port 65535 and a range of 10 give the
    port 3. *)
Definition last_port : list Z := [1; 0; 255; 255; 192; 168; 1; 9] ++ replicate 20 0.

Theorem random_port_wraps (h : host) : exists a,
  pj_sockaddr_set_port last_port (u16 (65535 + Z.rem (pj_rand h).1 (10 + 1))) = Some (PJ_SUCCESS, a) /\ port_of a = 3 /\
  pj_sock_bind_random h zeros 4 last_port 10 1 = pj_sock_bind h 4 a sizeof_sockaddr_in.
Proof. eexists. split; [reflexivity|]. split; reflexivity. Qed.

(** Without retries, the size that was applied is not returned. *)
Theorem applied_size_lost (h : host) : pj_sock_setsockopt_sobuf h 4 SO_RCVBUF false 100000 = (PJ_SUCCESS, 100000, h).
Proof. reflexivity. Qed.

(** The name resolves to an address of 0.0.0.0/8, which is to be disabled; its
    weight is the smallest one that is chosen. *)
Theorem disabled_is_chosen ws l : exists c,
  weigh_ipv4 1 (mk_cands (([1; 0; 0; 0; 0; 1; 2; 3] ++ replicate 20 0) :: l) (WEIGHT_HOSTNAME :: ws) 1) 0 = Some c /\
  select_cand 1 (cand_weight c) 0 (-1) = Some 0.
Proof. eexists. split; reflexivity. Qed.
