(* ===== verification/Dns.v ===== *)
(** * DNS packets

    [pjlib-util/src/pjlib-util/dns.c]: making a query, parsing a packet with
    compressed names, and duplicating a parsed packet.

    A packet is the list of its bytes and a pointer into it is an offset, so that
    a read behind the end of the packet is [None].  Memory from the pool is a
    buffer of the size asked for: a write outside of it is [None] too.  The
    function [fresh] gives what such a buffer holds. *)
From S2P Require Import Prelude Bytes Hash PjString SockAddr.

Definition PJLIB_UTIL_ERRNO_START : Z := 320000.
Definition PJLIB_UTIL_EDNSQRYTOOSMALL : Z := PJLIB_UTIL_ERRNO_START + 40.
Definition PJLIB_UTIL_EDNSINSIZE : Z := PJLIB_UTIL_ERRNO_START + 41.
Definition PJLIB_UTIL_EDNSINCLASS : Z := PJLIB_UTIL_ERRNO_START + 42.
Definition PJLIB_UTIL_EDNSINNAMEPTR : Z := PJLIB_UTIL_ERRNO_START + 43.

Definition PJ_DNS_TYPE_A : Z := 1.
Definition PJ_DNS_TYPE_NS : Z := 2.
Definition PJ_DNS_TYPE_CNAME : Z := 5.
Definition PJ_DNS_TYPE_PTR : Z := 12.
Definition PJ_DNS_TYPE_AAAA : Z := 28.
Definition PJ_DNS_TYPE_SRV : Z := 33.

Definition PJ_DNS_MAX_SECTION_COUNT : Z := 256.
Definition PJ_DNS_MAX_NAMES_IN_NAMETABLE : Z := 16.
Definition MAX_NAME_RECURSION : Z := 5.
Definition sizeof_dns_hdr : Z := 12.

(** ** Functions that return a status

    [None] is undefined behaviour, [Some (inl status)] an early return with an
    error, [Some (inr x)] success with a result. *)

Definition res (A : Type) : Type := option (Z + A).
Definition ret {A} (a : A) : res A := Some (inr a).
Definition fail {A} (status : Z) : res A := Some (inl status).

Definition rbind {A B} (m : res A) (f : A -> res B) : res B :=
  match m with
  | None => None
  | Some (inl status) => Some (inl status)
  | Some (inr a) => f a
  end.

(** An access to memory. *)
Definition mem {A} (m : option A) : res A := match m with Some a => ret a | None => None end.

Declare Scope dns_scope.
Notation "x '<?-' m ; k" := (rbind m (fun x => k)) (at level 20, m at level 100, k at level 200, only parsing) : dns_scope.
Notation "' x '<?-' m ; k" := (rbind m (fun x => k))
  (at level 20, x pattern, m at level 100, k at level 200, only parsing) : dns_scope.
Open Scope dns_scope.

(** ** Data *)

(** A [pj_str_t]: the buffer at [ptr] and the length. *)
Record dns_str := mk_dns_str { str_buf : list Z; str_slen : Z }.

Definition str_val (s : dns_str) : list Z := take (Z.to_nat (str_slen s)) (str_buf s).

Record pj_dns_hdr := mk_dns_hdr {
  hdr_id : Z; hdr_flags : Z; hdr_qdcount : Z; hdr_anscount : Z; hdr_nscount : Z; hdr_arcount : Z
}.

Record pj_dns_parsed_query := mk_dns_query { q_name : dns_str; q_type : Z; q_dnsclass : Z }.

(** The union [rdata]; the names of CNAME, NS and PTR records share one place. *)
Inductive rr_data :=
  | Rd_none
  | Rd_a (ip_addr : list Z)
  | Rd_aaaa (ip_addr : list Z)
  | Rd_name (name : dns_str)
  | Rd_srv (prio weight port : Z) (target : dns_str).

Record pj_dns_parsed_rr := mk_dns_rr {
  rr_name : dns_str;
  rr_type : Z;
  rr_dnsclass : Z;
  rr_ttl : Z;
  rr_rdlength : Z;
  (** The raw data, of a record of another type. *)
  rr_raw : option (list Z);
  rr_rdata : rr_data
}.

Record pj_dns_parsed_packet := mk_dns_packet {
  pkt_hdr : pj_dns_hdr;
  pkt_q : list pj_dns_parsed_query;
  pkt_ans : list pj_dns_parsed_rr;
  pkt_ns : list pj_dns_parsed_rr;
  pkt_arr : list pj_dns_parsed_rr
}.

(** ** Making a query *)

Definition write16 (p : list Z) (off val : Z) : option (list Z) :=
  write_at p off [u8 (Z.shiftr val 8); u8 (Z.land val 0xFF)].

(** The characters up to the next dot, and the rest from the dot on. *)
Fixpoint scan_label (name : list Z) : list Z * list Z :=
  match name with
  | [] => ([], [])
  | c :: rest => if c =? 46 then ([], name) else let '(l, r) := scan_label rest in (c :: l, r)
  end.

(** The loop over the labels; it ends with the offset behind the last. *)
Fixpoint write_labels (n : nat) (packet : list Z) (p : Z) (name : list Z) : option (list Z * Z) :=
  match n, name with
  | _, [] => Some (packet, p)
  | O, _ => None
  | S n, _ =>
      let '(label, rest) := scan_label name in
      let len := Z.of_nat (length label) in
      packet ← write_at packet p [u8 len];
      packet ← write_at packet (p + 1) label;
      write_labels n packet (p + 1 + len) (match rest with c :: r => if c =? 46 then r else rest | [] => [] end)
  end.

(** The status, the packet and the size. *)
Definition pj_dns_make_query (packet : list Z) (size id qtype : Z) (name : list Z) : option (Z * list Z * Z) :=
  if qtype =? 0 then Some (PJ_EINVAL, packet, size)
  else
    let d := sizeof_dns_hdr + Z.of_nat (length name) + 4 in
    if negb (d <=? size) then Some (PJLIB_UTIL_EDNSQRYTOOSMALL, packet, size)
    else
      packet ← write_at packet 0 (replicate 12 0);
      packet ← write16 packet 0 id;
      packet ← write16 packet 2 (u16 (Z.shiftl 1 8));
      packet ← write16 packet 4 1;
      '(packet, p) ← write_labels (length name) packet sizeof_dns_hdr name;
      packet ← write_at packet p [0];
      packet ← write16 packet (p + 1) (u16 qtype);
      packet ← write16 packet (p + 3) 1;
      Some (PJ_SUCCESS, packet, p + 5).

(** ** Names *)

Section Parse.
Context (fresh : Z -> list Z).
Implicit Types (pkt : list Z).

(** The 14 bits of a compression pointer. *)
Definition name_offset pkt (p : Z) : option Z :=
  bs ← bytes_at pkt p 2;
  Some (pj_ntohs (Z.lxor (of_le bs) (pj_htons (u16 (Z.shiftl 0xc0 8))))).

(** The loop, with the recursive call as [jump]: the length of the part at [p]
    and the length of the name. *)
Fixpoint name_len_loop (n : nat) (jump : Z -> res (Z * Z)) pkt (max p parsed_len name_len : Z) : res (Z * Z) :=
  match n with
  | O => None
  | S n =>
      if negb (p <? max) then ret (parsed_len + 1, name_len)
      else
        b <?- mem (pkt.[p]);
        if b =? 0 then ret (parsed_len + 1, name_len)
        else if Z.land b 0xc0 =? 0xc0 then
          if max <=? p + 1 then fail PJLIB_UTIL_EDNSINNAMEPTR
          else
            offset <?- mem (name_offset pkt p);
            if max <=? offset then fail PJLIB_UTIL_EDNSINNAMEPTR
            else '(_, ptr_len) <?- jump offset; ret (parsed_len + 2, name_len + ptr_len)
        else
          let label_len := b in
          if max <? p + 1 + label_len + 1 then fail PJLIB_UTIL_EDNSINNAMEPTR
          else
            let p := p + (label_len + 1) in
            c <?- mem (pkt.[p]);
            name_len_loop n jump pkt max p (parsed_len + (label_len + 1))
              (name_len + (if negb (c =? 0) then label_len + 1 else label_len))
  end.

(** The depth [k] is that of the calls below this one. *)
Fixpoint get_name_len (k : nat) (rec_counter : Z) pkt (start max : Z) : res (Z * Z) :=
  match k with
  | O => None
  | S k =>
      if MAX_NAME_RECURSION <? rec_counter then fail PJLIB_UTIL_EDNSINNAMEPTR
      else if max <=? start then fail PJLIB_UTIL_EDNSINNAMEPTR
      else name_len_loop (length pkt) (fun offset => get_name_len k (rec_counter + 1) pkt offset max) pkt max start 0 0
  end.

Fixpoint name_loop (n : nat) (jump : Z -> dns_str -> res dns_str) pkt (max p : Z) (name : dns_str) : res dns_str :=
  match n with
  | O => None
  | S n =>
      if negb (p <? max) then ret name
      else
        b <?- mem (pkt.[p]);
        if b =? 0 then ret name
        else if Z.land b 0xc0 =? 0xc0 then
          if max <=? p + 1 then fail PJLIB_UTIL_EDNSINNAMEPTR
          else
            offset <?- mem (name_offset pkt p);
            if max <=? offset then fail PJLIB_UTIL_EDNSINNAMEPTR
            else jump offset name
        else
          let label_len := b in
          if max <? p + 1 + label_len + 1 then fail PJLIB_UTIL_EDNSINNAMEPTR
          else
            label <?- mem (bytes_at pkt (p + 1) label_len);
            buf <?- mem (write_at (str_buf name) (str_slen name) label);
            let name := mk_dns_str buf (str_slen name + label_len) in
            let p := p + (label_len + 1) in
            c <?- mem (pkt.[p]);
            if negb (c =? 0) then
              buf <?- mem (write_at (str_buf name) (str_slen name) [46]);
              name_loop n jump pkt max p (mk_dns_str buf (str_slen name + 1))
            else name_loop n jump pkt max p name
  end.

Fixpoint get_name (k : nat) (rec_counter : Z) pkt (start max : Z) (name : dns_str) : res dns_str :=
  match k with
  | O => None
  | S k =>
      if MAX_NAME_RECURSION <? rec_counter then fail PJLIB_UTIL_EDNSINNAMEPTR
      else if max <=? start then fail PJLIB_UTIL_EDNSINNAMEPTR
      else name_loop (length pkt) (fun offset name => get_name k (rec_counter + 1) pkt offset max name) pkt max start name
  end.

(** Seven calls: the counter goes from 0 to 6. *)
Definition name_depth : nat := 7.

(** The two calls that each name takes, with [extra] bytes more than needed: the
    name and the length of its part. *)
Definition parse_name pkt (start max extra : Z) : res (dns_str * Z) :=
  '(name_part_len, name_len) <?- get_name_len name_depth 0 pkt start max;
  name <?- get_name name_depth 0 pkt start max (mk_dns_str (fresh (name_len + extra)) 0);
  ret (name, name_part_len).

(** ** Records *)

Definition get16 pkt (p : Z) : res Z := bs <?- mem (bytes_at pkt p 2); ret (pj_ntohs (of_le bs)).
Definition get32 pkt (p : Z) : res Z := bs <?- mem (bytes_at pkt p 4); ret (pj_ntohl (of_le bs)).

(** The query and the length of what was parsed. *)
Definition parse_query pkt (start max : Z) : res (pj_dns_parsed_query * Z) :=
  '(name, name_part_len) <?- parse_name pkt start max 4;
  let p := start + name_part_len in
  if max <? p + 4 then fail PJLIB_UTIL_EDNSINSIZE
  else
    type <?- get16 pkt p;
    dnsclass <?- get16 pkt (p + 2);
    ret (mk_dns_query name type dnsclass, p + 4 - start).

Definition known_type (type : Z) : bool :=
  (type =? PJ_DNS_TYPE_A) || (type =? PJ_DNS_TYPE_AAAA) || (type =? PJ_DNS_TYPE_CNAME)
  || (type =? PJ_DNS_TYPE_NS) || (type =? PJ_DNS_TYPE_PTR) || (type =? PJ_DNS_TYPE_SRV).

(** The resource data from [p] on: the raw data, the data and the end. *)
Definition parse_rdata pkt (type rdlength p max : Z) : res (option (list Z) * rr_data * Z) :=
  if type =? PJ_DNS_TYPE_A then
    if max <? p + 4 then fail PJLIB_UTIL_EDNSINSIZE
    else a <?- mem (bytes_at pkt p 4); ret (None, Rd_a a, p + 4)
  else if type =? PJ_DNS_TYPE_AAAA then
    if max <? p + 16 then fail PJLIB_UTIL_EDNSINSIZE
    else a <?- mem (bytes_at pkt p 16); ret (None, Rd_aaaa a, p + 16)
  else if (type =? PJ_DNS_TYPE_CNAME) || (type =? PJ_DNS_TYPE_NS) || (type =? PJ_DNS_TYPE_PTR) then
    '(name, name_part_len) <?- parse_name pkt p max 0;
    ret (None, Rd_name name, p + name_part_len)
  else if type =? PJ_DNS_TYPE_SRV then
    if max <? p + 6 then fail PJLIB_UTIL_EDNSINSIZE
    else
      prio <?- get16 pkt p;
      weight <?- get16 pkt (p + 2);
      port <?- get16 pkt (p + 4);
      '(target, name_part_len) <?- parse_name pkt (p + 6) max 0;
      ret (None, Rd_srv prio weight port target, p + 6 + name_part_len)
  else
    raw <?- mem (bytes_at pkt p rdlength);
    data <?- mem (write_at (fresh rdlength) 0 raw);
    ret (Some data, Rd_none, p + rdlength).

Definition parse_rr pkt (start max : Z) : res (pj_dns_parsed_rr * Z) :=
  '(name, name_part_len) <?- parse_name pkt start max 4;
  let p := start + name_part_len in
  if max <? p + 10 then fail PJLIB_UTIL_EDNSINSIZE
  else
    type <?- get16 pkt p;
    dnsclass <?- get16 pkt (p + 2);
    if negb (dnsclass =? 1) && known_type type then fail PJLIB_UTIL_EDNSINCLASS
    else
      ttl <?- get32 pkt (p + 4);
      rdlength <?- get16 pkt (p + 8);
      let p := p + 10 in
      if max <? p + rdlength then fail PJLIB_UTIL_EDNSINSIZE
      else
        '(raw, rdata, p) <?- parse_rdata pkt type rdlength p max;
        ret (mk_dns_rr name type dnsclass ttl rdlength raw rdata, p - start).

(** A section of [count] records: the records and the offset behind them. *)
Fixpoint parse_section {A} (parse : Z -> res (A * Z)) (count : nat) (start : Z) : res (list A * Z) :=
  match count with
  | O => ret ([], start)
  | S count =>
      '(x, parsed_len) <?- parse start;
      '(xs, start) <?- parse_section parse count (start + parsed_len);
      ret (x :: xs, start)
  end.

Definition parse_hdr pkt : res pj_dns_hdr :=
  id <?- get16 pkt 0;
  flags <?- get16 pkt 2;
  qdcount <?- get16 pkt 4;
  anscount <?- get16 pkt 6;
  nscount <?- get16 pkt 8;
  arcount <?- get16 pkt 10;
  ret (mk_dns_hdr id flags qdcount anscount nscount arcount).

(** The packet has [size] bytes: they are all there is to be read. *)
Definition pj_dns_parse_packet pkt : res pj_dns_parsed_packet :=
  let size := Z.of_nat (length pkt) in
  if size =? 0 then fail PJ_EINVAL
  else if size <? sizeof_dns_hdr then fail PJLIB_UTIL_EDNSINSIZE
  else
    hdr <?- parse_hdr pkt;
    if (PJ_DNS_MAX_SECTION_COUNT <? hdr_qdcount hdr) || (PJ_DNS_MAX_SECTION_COUNT <? hdr_anscount hdr)
       || (PJ_DNS_MAX_SECTION_COUNT <? hdr_nscount hdr) || (PJ_DNS_MAX_SECTION_COUNT <? hdr_arcount hdr)
    then fail PJ_ETOOMANY
    else
      '(q, start) <?- parse_section (fun p => parse_query pkt p size) (Z.to_nat (hdr_qdcount hdr)) sizeof_dns_hdr;
      '(ans, start) <?- parse_section (fun p => parse_rr pkt p size) (Z.to_nat (hdr_anscount hdr)) start;
      '(ns, start) <?- parse_section (fun p => parse_rr pkt p size) (Z.to_nat (hdr_nscount hdr)) start;
      '(arr, _) <?- parse_section (fun p => parse_rr pkt p size) (Z.to_nat (hdr_arcount hdr)) start;
      ret (mk_dns_packet hdr q ans ns arr).
End Parse.

(** ** Duplicating a packet *)

Section Dup.
Context (fresh : Z -> list Z).

(** [pj_strdup] into a structure that was copied from the source, so that an
    empty string keeps its pointer. *)
Definition strdup (src : dns_str) : option dns_str :=
  if 0 <? str_slen src then
    val ← bytes_at (str_buf src) 0 (str_slen src);
    buf ← write_at (fresh (str_slen src)) 0 val;
    Some (mk_dns_str buf (str_slen src))
  else Some (mk_dns_str (str_buf src) (if str_slen src <? 0 then 0 else str_slen src)).

(** The first name of the table that is the same without regard to case. *)
Fixpoint find_name (nametable : list dns_str) (src : dns_str) : option dns_str :=
  match nametable with
  | [] => None
  | x :: nametable => if pj_stricmp (str_val x) (str_val src) =? 0 then Some x else find_name nametable src
  end.

(** The table, of at most 16 names, and the name of the copy. *)
Definition apply_name_table (nametable : list dns_str) (src : dns_str) : option (list dns_str * dns_str) :=
  match find_name nametable src with
  | Some x => Some (nametable, x)
  | None =>
      dst ← strdup src;
      Some (if Z.of_nat (length nametable) <? PJ_DNS_MAX_NAMES_IN_NAMETABLE then nametable ++ [dst] else nametable, dst)
  end.

Definition copy_query (nametable : list dns_str) (src : pj_dns_parsed_query) :
    option (list dns_str * pj_dns_parsed_query) :=
  '(nametable, name) ← apply_name_table nametable (q_name src);
  Some (nametable, mk_dns_query name (q_type src) (q_dnsclass src)).

(** The member of the union that goes with the type is copied. *)
Definition copy_rdata (nametable : list dns_str) (type : Z) (rdata : rr_data) : option (list dns_str * rr_data) :=
  if type =? PJ_DNS_TYPE_SRV then
    match rdata with
    | Rd_srv prio weight port target =>
        '(nametable, target) ← apply_name_table nametable target; Some (nametable, Rd_srv prio weight port target)
    | _ => None
    end
  else if (type =? PJ_DNS_TYPE_CNAME) || (type =? PJ_DNS_TYPE_NS) || (type =? PJ_DNS_TYPE_PTR) then
    match rdata with
    | Rd_name name => name ← strdup name; Some (nametable, Rd_name name)
    | _ => None
    end
  else Some (nametable, rdata).

Definition copy_rr (nametable : list dns_str) (src : pj_dns_parsed_rr) : option (list dns_str * pj_dns_parsed_rr) :=
  '(nametable, name) ← apply_name_table nametable (rr_name src);
  raw ← match rr_raw src with
        | Some data =>
            bs ← bytes_at data 0 (rr_rdlength src);
            buf ← write_at (fresh (rr_rdlength src)) 0 bs; Some (Some buf)
        | None => Some None
        end;
  '(nametable, rdata) ← copy_rdata nametable (rr_type src) (rr_rdata src);
  Some (nametable, mk_dns_rr name (rr_type src) (rr_dnsclass src) (rr_ttl src) (rr_rdlength src) raw rdata).

(** The first [count] records of a section: the table and the copies. *)
Fixpoint copy_section {A} (copy : list dns_str -> A -> option (list dns_str * A)) (count : nat)
    (nametable : list dns_str) (src : list A) : option (list dns_str * list A) :=
  match count, src with
  | O, _ => Some (nametable, [])
  | S _, [] => None
  | S count, x :: src =>
      '(nametable, x) ← copy nametable x;
      '(nametable, xs) ← copy_section copy count nametable src;
      Some (nametable, x :: xs)
  end.

Definition PJ_DNS_NO_QD : Z := 1.
Definition PJ_DNS_NO_ANS : Z := 2.
Definition PJ_DNS_NO_NS : Z := 4.
Definition PJ_DNS_NO_AR : Z := 8.

(** How many records of a section are copied. *)
Definition copied (options flag count : Z) : Z :=
  if negb (count =? 0) && (Z.land options flag =? 0) then count else 0.

Definition pj_dns_packet_dup (p : pj_dns_parsed_packet) (options : Z) : option pj_dns_parsed_packet :=
  let h := pkt_hdr p in
  let qd := copied options PJ_DNS_NO_QD (hdr_qdcount h) in
  let an := copied options PJ_DNS_NO_ANS (hdr_anscount h) in
  let ns := copied options PJ_DNS_NO_NS (hdr_nscount h) in
  let ar := copied options PJ_DNS_NO_AR (hdr_arcount h) in
  '(nametable, q') ← copy_section copy_query (Z.to_nat qd) [] (pkt_q p);
  '(nametable, ans') ← copy_section copy_rr (Z.to_nat an) nametable (pkt_ans p);
  '(nametable, ns') ← copy_section copy_rr (Z.to_nat ns) nametable (pkt_ns p);
  '(_, arr') ← copy_section copy_rr (Z.to_nat ar) nametable (pkt_arr p);
  Some (mk_dns_packet (mk_dns_hdr (hdr_id h) (hdr_flags h) qd an ns ar) q' ans' ns' arr').
End Dup.

(** ** Making records *)

Definition pj_dns_init_srv_rr (res_name : dns_str) (dnsclass ttl prio weight port : Z) (target : dns_str) :
    pj_dns_parsed_rr :=
  mk_dns_rr res_name PJ_DNS_TYPE_SRV (u16 dnsclass) ttl 0 None (Rd_srv (u16 prio) (u16 weight) (u16 port) target).

Definition pj_dns_init_cname_rr (res_name : dns_str) (dnsclass ttl : Z) (name : dns_str) : pj_dns_parsed_rr :=
  mk_dns_rr res_name PJ_DNS_TYPE_CNAME (u16 dnsclass) ttl 0 None (Rd_name name).

Definition pj_dns_init_a_rr (res_name : dns_str) (dnsclass ttl : Z) (ip_addr : list Z) : pj_dns_parsed_rr :=
  mk_dns_rr res_name PJ_DNS_TYPE_A (u16 dnsclass) ttl 0 None (Rd_a ip_addr).

Definition pj_dns_init_aaaa_rr (res_name : dns_str) (dnsclass ttl : Z) (ip_addr : list Z) : pj_dns_parsed_rr :=
  mk_dns_rr res_name PJ_DNS_TYPE_AAAA (u16 dnsclass) ttl 0 None (Rd_aaaa ip_addr).
