(* ===== verification/DnsSpec.v ===== *)
(** * What a DNS packet means

    The format of names, queries and records on the wire as relations between
    the bytes of a packet and the structures; the parser accepts exactly the
    packets of the format, gives what they mean, and reads and writes nothing
    outside of the packet and of its buffers. *)
From S2P Require Import Prelude Bytes Hash PjString SockAddr PjStringSpec SockAddrSpec Dns.

(** ** The format *)

(** A name at [p] with its text and the length of its part, where at most [k]
    compression pointers may be followed. *)
Inductive name_at (pkt : list Z) : nat -> Z -> list Z -> Z -> Prop :=
  | na_end k p : pkt.[p] = Some 0 -> name_at pkt k p [] 1
  | na_label k p b label c t n :
      pkt.[p] = Some b -> b <> 0 -> Z.land b 0xc0 <> 0xc0 -> bytes_at pkt (p + 1) b = Some label ->
      pkt.[p + (b + 1)] = Some c -> name_at pkt k (p + (b + 1)) t n ->
      name_at pkt k p (label ++ (if c =? 0 then [] else [46]) ++ t) (b + 1 + n)
  | na_pointer k p b x t n :
      pkt.[p] = Some b -> Z.land b 0xc0 = 0xc0 -> pkt.[p + 1] = Some x ->
      name_at pkt k (256 * (b - 0xc0) + x) t n -> name_at pkt (S k) p t 2.

(** A 16-bit and a 32-bit number in network byte order. *)
Definition be pkt (p n : Z) : option Z := (fun b => of_le (rev b)) <$> bytes_at pkt p n.

Definition str_ok (s : dns_str) : Prop := 0 <= str_slen s <= Z.of_nat (length (str_buf s)).

Definition text_at pkt (p : Z) (s : dns_str) (n : Z) : Prop := str_ok s /\ name_at pkt 5 p (str_val s) n.

Record query_at pkt (p : Z) (q : pj_dns_parsed_query) (n : Z) : Prop := {
  qa_name : text_at pkt p (q_name q) (n - 4);
  qa_type : be pkt (p + n - 4) 2 = Some (q_type q);
  qa_class : be pkt (p + n - 2) 2 = Some (q_dnsclass q)
}.

Definition is_name_type (type : Z) : bool :=
  (type =? PJ_DNS_TYPE_CNAME) || (type =? PJ_DNS_TYPE_NS) || (type =? PJ_DNS_TYPE_PTR).

(** The resource data of a type, and the end of it. *)
Inductive rdata_at (pkt : list Z) (rdlength p type : Z) : option (list Z) -> rr_data -> Z -> Prop :=
  | rd_a a : type = PJ_DNS_TYPE_A -> bytes_at pkt p 4 = Some a ->
      rdata_at pkt rdlength p type None (Rd_a a) (p + 4)
  | rd_aaaa a : type = PJ_DNS_TYPE_AAAA -> bytes_at pkt p 16 = Some a ->
      rdata_at pkt rdlength p type None (Rd_aaaa a) (p + 16)
  | rd_name s n : is_name_type type = true -> text_at pkt p s n ->
      rdata_at pkt rdlength p type None (Rd_name s) (p + n)
  | rd_srv prio weight port s n : type = PJ_DNS_TYPE_SRV -> be pkt p 2 = Some prio -> be pkt (p + 2) 2 = Some weight ->
      be pkt (p + 4) 2 = Some port -> text_at pkt (p + 6) s n ->
      rdata_at pkt rdlength p type None (Rd_srv prio weight port s) (p + 6 + n)
  | rd_raw raw : known_type type = false -> bytes_at pkt p rdlength = Some raw ->
      rdata_at pkt rdlength p type (Some raw) Rd_none (p + rdlength).

(** A record whose name has [m] bytes in the packet. *)
Definition rr_at pkt (p : Z) (r : pj_dns_parsed_rr) (n : Z) : Prop := exists m,
  text_at pkt p (rr_name r) m /\ be pkt (p + m) 2 = Some (rr_type r) /\ be pkt (p + m + 2) 2 = Some (rr_dnsclass r) /\
  (known_type (rr_type r) = true -> rr_dnsclass r = 1) /\
  be pkt (p + m + 4) 4 = Some (rr_ttl r) /\ be pkt (p + m + 8) 2 = Some (rr_rdlength r) /\
  p + m + 10 + rr_rdlength r <= Z.of_nat (length pkt) /\
  rdata_at pkt (rr_rdlength r) (p + m + 10) (rr_type r) (rr_raw r) (rr_rdata r) (p + n).

(** Records one after the other. *)
Inductive section_at {A} (R : Z -> A -> Z -> Prop) : Z -> list A -> Z -> Prop :=
  | sa_nil p : section_at R p [] p
  | sa_cons p x n xs e : R p x n -> section_at R (p + n) xs e -> section_at R p (x :: xs) e.

Definition hdr_at pkt (h : pj_dns_hdr) : Prop :=
  be pkt 0 2 = Some (hdr_id h) /\ be pkt 2 2 = Some (hdr_flags h) /\ be pkt 4 2 = Some (hdr_qdcount h) /\
  be pkt 6 2 = Some (hdr_anscount h) /\ be pkt 8 2 = Some (hdr_nscount h) /\ be pkt 10 2 = Some (hdr_arcount h).

Definition counts {A} (n : Z) (l : list A) : Prop := n = Z.of_nat (length l) /\ n <= PJ_DNS_MAX_SECTION_COUNT.

(** A packet: the header, and the sections with as many records as it says. *)
Definition packet_at pkt (r : pj_dns_parsed_packet) : Prop :=
  hdr_at pkt (pkt_hdr r) /\
  counts (hdr_qdcount (pkt_hdr r)) (pkt_q r) /\ counts (hdr_anscount (pkt_hdr r)) (pkt_ans r) /\
  counts (hdr_nscount (pkt_hdr r)) (pkt_ns r) /\ counts (hdr_arcount (pkt_hdr r)) (pkt_arr r) /\
  exists p1 p2 p3 p4, section_at (query_at pkt) 12 (pkt_q r) p1 /\ section_at (rr_at pkt) p1 (pkt_ans r) p2 /\
  section_at (rr_at pkt) p2 (pkt_ns r) p3 /\ section_at (rr_at pkt) p3 (pkt_arr r) p4.

(** ** Numbers *)

Section Spec.
Context (fresh : Z -> list Z) (Hfresh : forall n, 0 <= n -> Z.of_nat (length (fresh n)) = n)
  (pkt : list Z) (Hpkt : octets pkt).

Abbreviation max := (Z.of_nat (length pkt)).

Lemma pkt_in p : 0 <= p < max -> exists b, pkt.[p] = Some b /\ 0 <= b < 256.
Proof.
  intros Hp. destruct (arr_get_is_Some pkt p Hp) as [b Hb]. exists b. split; [done|].
  unfold octets in Hpkt. rewrite Forall_lookup in Hpkt.
  replace p with (Z.of_nat (Z.to_nat p)) in Hb by lia. rewrite arr_get_nat in Hb. by apply Hpkt in Hb.
Qed.

Lemma pkt_byte p b : pkt.[p] = Some b -> 0 <= p < max /\ 0 <= b < 256.
Proof.
  intros E. assert (Hp : 0 <= p < max) by (by apply arr_get_bound in E). split; [done|].
  destruct (pkt_in p Hp) as (b' & E' & Hb). congruence.
Qed.

Lemma pkt_bytes p n : 0 <= p -> 0 <= n -> p + n <= max -> exists bs, bytes_at pkt p n = Some bs /\ octets bs /\
  Z.of_nat (length bs) = n.
Proof.
  intros Hp Hn Hm. eexists. split; [by apply bytes_at_in|].
  pose proof (bytes_at_in pkt p n Hp Hn Hm) as E.
  split; [by apply (bytes_at_octets _ _ _ _ Hpkt E)|by apply (bytes_at_length _ _ _ _ E)].
Qed.

Lemma get16_be p : 0 <= p -> p + 2 <= max -> exists v, get16 pkt p = ret v /\ be pkt p 2 = Some v /\ 0 <= v < 65536.
Proof.
  intros Hp Hm. destruct (pkt_bytes p 2) as (bs & E & Ho & L); [lia..|]. exists (of_le (rev bs)).
  unfold get16, be. rewrite E. simpl. rewrite ntohs_rev by (done || lia). split_and!; [done..| |].
  all: pose proof (of_le_bound (rev bs)) as B; rewrite length_rev, L in B; apply B; by apply Forall_rev.
Qed.

Lemma get32_be p : 0 <= p -> p + 4 <= max -> exists v, get32 pkt p = ret v /\ be pkt p 4 = Some v.
Proof.
  intros Hp Hm. destruct (pkt_bytes p 4) as (bs & E & Ho & L); [lia..|]. exists (of_le (rev bs)).
  unfold get32, be. rewrite E. simpl. destruct (list_of_4 bs) as (b0 & b1 & b2 & b3 & ->); [lia|].
  unfold octets in Ho. rewrite !Forall_cons in Ho. rewrite ntohl_bytes by tauto. done.
Qed.

Lemma be_bound p n v : be pkt p n = Some v -> 0 <= p /\ 0 <= n /\ p + n <= max.
Proof. unfold be, bytes_at. destruct (_ && _) eqn:E; [lia|done]. Qed.

(** The offset of a compression pointer. *)
Definition offset_good (b : Z) : bool :=
  negb (Z.land b 0xc0 =? 0xc0) ||
  ((0xc0 <=? b) && forallb (fun x => pj_ntohs (Z.lxor (of_le [b; x]) (pj_htons (u16 (Z.shiftl 0xc0 8)))) =? 256 * (b - 0xc0) + x)
    (seqZ 0 256)).

Lemma offset_all : forallb offset_good (seqZ 0 256) = true.
Proof. vm_compute. reflexivity. Qed.

Lemma name_offset_spec p b x : pkt.[p] = Some b -> pkt.[p + 1] = Some x -> Z.land b 0xc0 = 0xc0 ->
  name_offset pkt p = Some (256 * (b - 0xc0) + x) /\ 0 <= 256 * (b - 0xc0) + x.
Proof.
  intros Eb Ex Hb. destruct (pkt_byte _ _ Eb) as [Hp Hb8]. destruct (pkt_byte _ _ Ex) as [Hp1 Hx8].
  pose proof (all_bytes _ offset_all b Hb8) as H. unfold offset_good in H. rewrite (proj2 (Z.eqb_eq _ _) Hb) in H. cbn [negb orb] in H.
  apply andb_true_iff in H as [H1%Z.leb_le H2]. pose proof (all_bytes _ H2 x Hx8) as H3. apply Z.eqb_eq in H3.
  split; [|lia]. unfold name_offset. rewrite bytes_at_in by lia. bind_step.
  replace p with (Z.of_nat (Z.to_nat p)) in Eb by lia. replace (p + 1) with (Z.of_nat (S (Z.to_nat p))) in Ex by lia.
  rewrite arr_get_nat in Eb, Ex. rewrite (drop_S _ _ _ Eb), (drop_S _ _ _ Ex).
  change (take (Z.to_nat 2) (b :: x :: drop (S (S (Z.to_nat p))) pkt)) with [b; x]. by rewrite H3.
Qed.

(** ** Names *)

Lemma name_at_start d p t m : name_at pkt d p t m -> 0 <= p < max /\ 0 < m.
Proof.
  induction 1 as [k p E|k p b label c t n E Hb Hl El Ec Hn IH|k p b x t n E Hb Ex Hn IH].
  - apply pkt_byte in E as [? _]. lia.
  - apply pkt_byte in E as [? ?]. lia.
  - apply pkt_byte in E as [? _]. lia.
Qed.

Lemma in_packet p : 0 <= p < max -> (p <? max) = true /\ (max <=? p) = false.
Proof. intros. split; [apply Z.ltb_lt|apply Z.leb_gt]; lia. Qed.

Lemma sep_length c (t : list Z) l : Z.of_nat (length ((l : list Z) ++ (if c =? 0 then [] else [46]) ++ t)) =
  Z.of_nat (length l) + (if c =? 0 then 0 else 1) + Z.of_nat (length t).
Proof. rewrite !length_app. destruct (c =? 0); simpl; lia. Qed.

(** A name of the format is measured. *)
Lemma name_len_complete d p t m : name_at pkt d p t m -> forall r k n pl nl,
  r + Z.of_nat d <= 5 -> (d < k)%nat -> max - p <= Z.of_nat n ->
  name_len_loop n (fun off => get_name_len k (r + 1) pkt off max) pkt max p pl nl = ret (pl + m, nl + Z.of_nat (length t)).
Proof.
  induction 1 as [d p E|d p b label c t m E Hb Hl El Ec Hn IH|d p b x t m E Hb Ex Hn IH]; intros r k n pl nl Hr Hk Hm.
  all: destruct (pkt_byte _ _ E) as [Hp Hb8]; destruct n as [|n]; [lia|].
  all: cbn [name_len_loop]; rewrite (proj1 (in_packet p Hp)), E; cbn [negb mem ret rbind]; cbv iota.
  - change (0 =? 0) with true. cbv iota. simpl length. by rewrite Z.add_0_r.
  - destruct (pkt_byte _ _ Ec) as [Hc _]. rewrite (proj2 (Z.eqb_neq b 0) Hb), (proj2 (Z.eqb_neq _ _) Hl). cbv iota.
    rewrite (proj2 (Z.ltb_ge _ _)) by lia. rewrite Ec. cbn [mem ret rbind].
    rewrite IH by (lia || done). rewrite sep_length, (bytes_at_length _ _ _ _ El).
    unfold ret. do 3 f_equal; [lia|]. destruct (c =? 0); simpl; lia.
  - destruct (pkt_byte _ _ Ex) as [Hx _]. destruct (name_offset_spec p b x E Ex Hb) as [Eo Ho].
    assert (b <> 0) by (by intros ->). rewrite (proj2 (Z.eqb_neq b 0)), (proj2 (Z.eqb_eq _ _) Hb) by done. cbv iota.
    rewrite (proj2 (in_packet (p + 1) Hx)), Eo. cbn [mem ret rbind].
    destruct (name_at_start _ _ _ _ Hn) as [Hs _]. rewrite (proj2 (in_packet _ Hs)).
    destruct k as [|k]; [lia|]. cbn [get_name_len]. unfold MAX_NAME_RECURSION.
    rewrite (proj2 (Z.ltb_ge 5 (r + 1))), (proj2 (in_packet _ Hs)) by lia. rewrite IH by lia. cbn [ret rbind].
    by rewrite Z.add_0_l.
Qed.

(** What is measured is a name of the format. *)
Lemma name_len_sound d : forall r k n p pl nl, r + Z.of_nat d = 5 -> (d < k)%nat -> 0 <= p < max -> max - p <= Z.of_nat n ->
  match name_len_loop n (fun off => get_name_len k (r + 1) pkt off max) pkt max p pl nl with
  | None => False
  | Some (inl st) => st = PJLIB_UTIL_EDNSINNAMEPTR
  | Some (inr (pl', nl')) => exists t m, name_at pkt d p t m /\ pl' = pl + m /\ nl' = nl + Z.of_nat (length t)
  end.
Proof.
  induction d as [d IHd] using lt_wf_ind. intros r k n. induction n as [|n IH]; intros p pl nl Hr Hk Hp Hm; [lia|].
  cbn [name_len_loop]. rewrite (proj1 (in_packet p Hp)). cbn [negb]. cbv iota.
  destruct (pkt_in p Hp) as (b & E & Hb). rewrite E. cbn [mem ret rbind].
  destruct (Z.eqb_spec b 0) as [->|Hb0]; [exists [], 1; split_and!; [by constructor|done|simpl; lia]|].
  destruct (Z.eqb_spec (Z.land b 192) 192) as [Hc|Hc].
  - destruct (Z.leb_spec max (p + 1)); [done|]. destruct (pkt_in (p + 1)) as (x & Ex & Hx); [lia|].
    destruct (name_offset_spec p b x E Ex Hc) as [Eo Ho]. rewrite Eo. cbn [mem ret rbind].
    destruct (Z.leb_spec max (256 * (b - 192) + x)); [done|]. destruct k as [|k]; [lia|].
    cbn [get_name_len]. unfold MAX_NAME_RECURSION. destruct (Z.ltb_spec 5 (r + 1)); [done|].
    rewrite (proj2 (in_packet (256 * (b - 192) + x) ltac:(lia))). destruct d as [|d]; [lia|].
    pose proof (IHd d ltac:(lia) (r + 1) k (length pkt) (256 * (b - 192) + x) 0 0) as HJ.
    specialize (HJ ltac:(lia) ltac:(lia) ltac:(lia) ltac:(lia)).
    destruct (name_len_loop _ _ _ _ _ _ _) as [[st|[pl' nl']]|]; [done| |done]. cbn [rbind ret].
    destruct HJ as (t & m & Hn & -> & ->). exists t, 2. split_and!; [by econstructor|lia|lia].
  - destruct (Z.ltb_spec max (p + 1 + b + 1)); [done|]. destruct (pkt_in (p + (b + 1))) as (c & Ec & _); [lia|].
    rewrite Ec. cbn [mem ret rbind]. destruct (pkt_bytes (p + 1) b) as (label & El & _ & Ll); [lia..|].
    specialize (IH (p + (b + 1)) (pl + (b + 1)) (nl + (if negb (c =? 0) then b + 1 else b)) Hr Hk ltac:(lia) ltac:(lia)).
    destruct (name_len_loop _ _ _ _ _ _ _) as [[st|[pl' nl']]|]; [done| |done].
    destruct IH as (t & m & Hn & -> & ->). eexists _, (b + 1 + m). split_and!; [by econstructor|lia|].
    rewrite sep_length, Ll. destruct (c =? 0); simpl; lia.
Qed.

(** A text is put behind a string. *)
Lemma put_text name (t : list Z) : 0 <= str_slen name -> str_slen name + Z.of_nat (length t) <= Z.of_nat (length (str_buf name)) ->
  exists buf, write_at (str_buf name) (str_slen name) t = Some buf /\ length buf = length (str_buf name) /\
  take (Z.to_nat (str_slen name + Z.of_nat (length t))) buf = str_val name ++ t.
Proof.
  intros Hs Ht. pose proof (write_at_in (str_buf name) (str_slen name) t Hs Ht) as E. eexists. split; [exact E|].
  split; [by apply (write_at_length _ _ _ _ E)|]. rewrite app_assoc. apply take_app_length'.
  unfold str_val. rewrite length_app, length_take. lia.
Qed.

(** What is read is the text of the name, in the room for it. *)
Lemma get_name_complete d p t m : name_at pkt d p t m -> forall r k n name,
  r + Z.of_nat d <= 5 -> (d < k)%nat -> max - p <= Z.of_nat n ->
  0 <= str_slen name -> str_slen name + Z.of_nat (length t) <= Z.of_nat (length (str_buf name)) ->
  exists buf, name_loop n (fun off name => get_name k (r + 1) pkt off max name) pkt max p name =
    ret (mk_dns_str buf (str_slen name + Z.of_nat (length t))) /\ length buf = length (str_buf name) /\
    take (Z.to_nat (str_slen name + Z.of_nat (length t))) buf = str_val name ++ t.
Proof.
  induction 1 as [d p E|d p b label c t m E Hb Hl El Ec Hn IH|d p b x t m E Hb Ex Hn IH]; intros r k n name Hr Hk Hm Hs Ht.
  all: destruct (pkt_byte _ _ E) as [Hp Hb8]; destruct n as [|n]; [lia|].
  all: cbn [name_loop]; rewrite (proj1 (in_packet p Hp)), E; cbn [negb mem ret rbind]; cbv iota.
  - change (0 =? 0) with true. cbv iota. exists (str_buf name). destruct name as [bf sl]. unfold str_val. simpl. by rewrite Z.add_0_r, app_nil_r.
  - destruct (pkt_byte _ _ Ec) as [Hc _]. rewrite (proj2 (Z.eqb_neq b 0) Hb), (proj2 (Z.eqb_neq _ _) Hl). cbv iota.
    rewrite (proj2 (Z.ltb_ge _ _)) by lia. rewrite El. cbn [mem ret rbind].
    rewrite sep_length in Ht |- *. pose proof (bytes_at_length _ _ _ _ El) as Ll. subst b.
    destruct (put_text name label) as (buf & Ew & L1 & V1); [done|destruct (c =? 0); lia|].
    rewrite Ew. cbn [mem ret rbind]. rewrite Ec. cbn [mem ret rbind str_buf str_slen].
    destruct (Z.eqb_spec c 0) as [->|Hc0]; cbn [negb]; cbv iota.
    + destruct (IH r k n (mk_dns_str buf (str_slen name + Z.of_nat (length label)))) as (buf' & E' & L' & V');
        cbn [str_slen str_buf] in *; [lia..|].
      exists buf'. rewrite E', Z.add_0_r, Z.add_assoc. split; [done|]. split; [lia|].
      rewrite V'. unfold str_val at 1. cbn [str_slen str_buf]. by rewrite V1, <- app_assoc.
    + destruct (put_text (mk_dns_str buf (str_slen name + Z.of_nat (length label))) [46]) as (buf2 & Ew2 & L2 & V2);
        cbn [str_slen str_buf length] in *; [lia..|]. rewrite Ew2. cbn [mem ret rbind].
      destruct (IH r k n (mk_dns_str buf2 (str_slen name + Z.of_nat (length label) + 1))) as (buf' & E' & L' & V');
        cbn [str_slen str_buf] in *; [lia..|].
      exists buf'. rewrite E'.
      replace (str_slen name + (Z.of_nat (length label) + 1 + Z.of_nat (length t)))
        with (str_slen name + Z.of_nat (length label) + 1 + Z.of_nat (length t)) by lia.
      split; [done|]. split; [lia|]. rewrite V'. unfold str_val at 1. cbn [str_slen str_buf].
      change (Z.of_nat 1) with 1 in V2. rewrite V2. unfold str_val at 1. cbn [str_slen str_buf].
      by rewrite V1, <- !app_assoc.
  - destruct (pkt_byte _ _ Ex) as [Hx _]. destruct (name_offset_spec p b x E Ex Hb) as [Eo Ho].
    assert (b <> 0) by (by intros ->). rewrite (proj2 (Z.eqb_neq b 0)), (proj2 (Z.eqb_eq _ _) Hb) by done. cbv iota.
    rewrite (proj2 (in_packet (p + 1) Hx)), Eo. cbn [mem ret rbind].
    destruct (name_at_start _ _ _ _ Hn) as [Hst _]. rewrite (proj2 (in_packet _ Hst)).
    destruct k as [|k]; [lia|]. cbn [get_name]. unfold MAX_NAME_RECURSION.
    rewrite (proj2 (Z.ltb_ge 5 (r + 1))), (proj2 (in_packet _ Hst)) by lia. by apply IH; lia.
Qed.

(** ** Parsers that accept exactly a format *)

(** The parser does not fail to return; it refuses what is not of the format,
    and of what is it gives a structure and the only length. *)
Definition decides {A} (parse : Z -> res (A * Z)) (R : Z -> A -> Z -> Prop) : Prop := forall p, 0 <= p ->
  match parse p with
  | None => False
  | Some (inl st) => st <> PJ_SUCCESS /\ forall x n, ~ R p x n
  | Some (inr (x, n)) => 0 <= n /\ R p x n /\ forall x' n', R p x' n' -> n' = n
  end.

Lemma get_name_len_S k r p : get_name_len (S k) r pkt p max =
  if MAX_NAME_RECURSION <? r then fail PJLIB_UTIL_EDNSINNAMEPTR
  else if max <=? p then fail PJLIB_UTIL_EDNSINNAMEPTR
  else name_len_loop (length pkt) (fun off => get_name_len k (r + 1) pkt off max) pkt max p 0 0.
Proof. reflexivity. Qed.

Lemma get_name_S k r p name : get_name (S k) r pkt p max name =
  if MAX_NAME_RECURSION <? r then fail PJLIB_UTIL_EDNSINNAMEPTR
  else if max <=? p then fail PJLIB_UTIL_EDNSINNAMEPTR
  else name_loop (length pkt) (fun off name => get_name k (r + 1) pkt off max name) pkt max p name.
Proof. reflexivity. Qed.

Lemma parse_name_decides extra : 0 <= extra -> decides (fun p => parse_name fresh pkt p max extra) (text_at pkt).
Proof.
  intros He p Hp. unfold parse_name. change name_depth with 7%nat. rewrite get_name_len_S.
  change (MAX_NAME_RECURSION <? 0) with false. cbv iota. destruct (Z.leb_spec max p) as [Hm|Hm].
  { split; [done|]. intros x n [_ Hn]. apply name_at_start in Hn. lia. }
  pose proof (fun t m H => name_len_complete 5 p t m H 0 6 (length pkt) 0 0 ltac:(lia) ltac:(lia) ltac:(lia)) as Hc.
  pose proof (name_len_sound 5 0 6 (length pkt) p 0 0 ltac:(lia) ltac:(lia) ltac:(lia) ltac:(lia)) as Hs.
  destruct (name_len_loop _ _ _ _ _ _ _) as [[st|[m l]]|] eqn:E; [|clear Hc|done].
  { cbn [rbind]. split; [by subst st|]. intros x n [_ Hn]. by apply Hc in Hn. }
  cbn [rbind]. destruct Hs as (t & m' & Hn & -> & ->). rewrite !Z.add_0_l.
  destruct (get_name_complete 5 p t m' Hn 0 6 (length pkt) (mk_dns_str (fresh (Z.of_nat (length t) + extra)) 0)) as (buf & Eb & Lb & Vb);
    cbn [str_slen str_buf] in *; [lia..|rewrite Hfresh by lia; lia|].
  rewrite get_name_S. change (MAX_NAME_RECURSION <? 0) with false. cbv iota. rewrite (proj2 (Z.leb_gt _ _) Hm), Eb.
  cbn [rbind ret]. rewrite Z.add_0_l in *.
  pose proof (Hfresh (Z.of_nat (length t) + extra) ltac:(lia)) as Lf.
  split; [apply name_at_start in Hn; lia|]. split.
  - split; [split; simpl; lia|]. unfold str_val. cbn [str_slen str_buf]. by rewrite Vb.
  - intros x' n' [_ Hn']. pose proof (name_len_complete 5 p _ _ Hn' 0 6 (length pkt) 0 0 ltac:(lia) ltac:(lia) ltac:(lia)) as E'.
    change (0 + 1) with 1 in E'. rewrite E in E'. unfold ret in E'. injection E' as E' _. lia.
Qed.

(** The use of a parser inside another. *)
Lemma decides_bind {A B} (parse : Z -> res (A * Z)) R (K : A * Z -> res (B * Z)) (P : res (B * Z) -> Prop) p :
  decides parse R -> 0 <= p ->
  (forall st, st <> PJ_SUCCESS -> (forall x n, ~ R p x n) -> P (fail st)) ->
  (forall x n, 0 <= n -> R p x n -> (forall x' n', R p x' n' -> n' = n) -> P (K (x, n))) ->
  P (rbind (parse p) K).
Proof.
  intros Hd Hp Hf Hk. specialize (Hd p Hp). destruct (parse p) as [[st|[x n]]|]; [|cbn [rbind]|done].
  - destruct Hd as [? ?]. by apply Hf.
  - destruct Hd as (? & ? & ?). by apply Hk.
Qed.

Lemma parse_query_decides : decides (fun p => parse_query fresh pkt p max) (query_at pkt).
Proof.
  intros p Hp. unfold parse_query.
  apply (decides_bind (fun p => parse_name fresh pkt p max 4) (text_at pkt)); [by apply parse_name_decides|done|..].
  { intros st Hst Hn. split; [done|]. intros q n [Hq _ _]. by apply Hn in Hq. }
  intros x m Hm Hx Hu. cbv beta iota zeta. destruct (Z.ltb_spec max (p + m + 4)) as [Hl|Hl].
  { split; [done|]. intros q n [Hq _ Hc]. apply Hu in Hq. apply be_bound in Hc. lia. }
  destruct (get16_be (p + m)) as (ty & E1 & B1 & _); [lia..|]. destruct (get16_be (p + m + 2)) as (cl & E2 & B2 & _); [lia..|].
  rewrite E1. cbn [rbind ret]. rewrite E2. cbn [rbind ret].
  replace (p + m + 4 - p) with (m + 4) by lia. split; [lia|]. split.
  - split; cbn [q_name q_type q_dnsclass].
    + by replace (m + 4 - 4) with m by lia.
    + by replace (p + (m + 4) - 4) with (p + m) by lia.
    + by replace (p + (m + 4) - 2) with (p + m + 2) by lia.
  - intros q n [Hq _ _]. apply Hu in Hq. lia.
Qed.

(** ** Records *)

Definition rdata_outcome (rdlength p type : Z) (r : res (option (list Z) * rr_data * Z)) : Prop :=
  match r with
  | None => False
  | Some (inl st) => st <> PJ_SUCCESS /\ forall raw rd e, ~ rdata_at pkt rdlength p type raw rd e
  | Some (inr (raw, rd, e)) => p <= e /\ rdata_at pkt rdlength p type raw rd e /\
      forall raw' rd' e', rdata_at pkt rdlength p type raw' rd' e' -> e' = e
  end.

Lemma address_outcome rdlength p type n (mk : list Z -> rr_data) :
  0 <= p -> 0 <= n -> (forall a, bytes_at pkt p n = Some a -> rdata_at pkt rdlength p type None (mk a) (p + n)) ->
  (forall raw rd e, rdata_at pkt rdlength p type raw rd e -> e = p + n /\ exists a, bytes_at pkt p n = Some a) ->
  rdata_outcome rdlength p type
    (if max <? p + n then fail PJLIB_UTIL_EDNSINSIZE else a <?- mem (bytes_at pkt p n); ret (None, mk a, p + n)).
Proof.
  intros Hp Hn Hc Hi. destruct (Z.ltb_spec max (p + n)) as [Hl|Hl].
  - split; [done|]. intros raw rd e H. apply Hi in H as (_ & a & E). unfold bytes_at in E.
    destruct (_ && _) eqn:C; [lia|done].
  - destruct (pkt_bytes p n) as (a & E & _); [lia..|]. rewrite E. cbn [mem ret rbind rdata_outcome].
    split; [lia|]. split; [by apply Hc|]. intros raw rd e H. by apply Hi in H as [-> _].
Qed.

(** The cases of the resource data of a type that is known to be or not to be
    one of the six. *)
Ltac dns_types :=
  exfalso; unfold known_type, is_name_type, PJ_DNS_TYPE_A, PJ_DNS_TYPE_AAAA, PJ_DNS_TYPE_CNAME, PJ_DNS_TYPE_NS,
    PJ_DNS_TYPE_PTR, PJ_DNS_TYPE_SRV in *; lia.

Ltac rdata_cases H :=
  destruct H as [? Ht ?|? Ht ?|? ? Ht ?|? ? ? ? ? Ht ? ? Hport ?|? Ht ?]; try dns_types.

Lemma parse_rdata_outcome rdlength p type : 0 <= p -> 0 <= rdlength -> p + rdlength <= max ->
  rdata_outcome rdlength p type (parse_rdata fresh pkt type rdlength p max).
Proof.
  intros Hp Hr Hm. unfold parse_rdata.
  destruct (Z.eqb_spec type PJ_DNS_TYPE_A) as [HA|HA].
  { apply address_outcome; [done|done|by constructor|]. intros raw rd e H. rdata_cases H. eauto. }
  destruct (Z.eqb_spec type PJ_DNS_TYPE_AAAA) as [HAAAA|HAAAA].
  { apply address_outcome; [done|done|by constructor|]. intros raw rd e H. rdata_cases H. eauto. }
  fold (is_name_type type). destruct (is_name_type type) eqn:Hname.
  { pose proof (parse_name_decides 0 ltac:(lia) p Hp) as Hd. cbv beta in Hd. destruct (parse_name _ _ _ _ _) as [[st|[x n]]|]; [| |done].
    - destruct Hd as [Hst Hn]. split; [done|]. intros raw rd e H. rdata_cases H. by eapply Hn.
    - destruct Hd as (Hn & Hx & Hu). cbn [rbind ret rdata_outcome]. split; [lia|]. split; [by constructor|].
      intros raw rd e H. rdata_cases H. f_equal. by eapply Hu. }
  destruct (Z.eqb_spec type PJ_DNS_TYPE_SRV) as [HSRV|HSRV].
  { destruct (Z.ltb_spec max (p + 6)) as [Hl|Hl].
    { split; [done|]. intros raw rd e H. rdata_cases H. apply be_bound in Hport. lia. }
    destruct (get16_be p) as (a & E1 & B1 & _); [lia..|]. destruct (get16_be (p + 2)) as (b & E2 & B2 & _); [lia..|].
    destruct (get16_be (p + 4)) as (c & E3 & B3 & _); [lia..|].
    rewrite E1. cbn [rbind ret]. rewrite E2. cbn [rbind ret]. rewrite E3. cbn [rbind ret].
    pose proof (parse_name_decides 0 ltac:(lia) (p + 6) ltac:(lia)) as Hd. cbv beta in Hd. clear E1 E2 E3.
    destruct (parse_name _ _ _ _ _) as [[st|[x n]]|]; [| |done].
    - destruct Hd as [Hst Hn]. split; [done|]. intros raw rd e H. rdata_cases H. by eapply Hn.
    - destruct Hd as (Hn & Hx & Hu). cbn [rbind ret rdata_outcome]. split; [lia|]. split; [by constructor|].
      intros raw rd e H. rdata_cases H. f_equal. by eapply Hu. }
  assert (Hk : known_type type = false) by (unfold known_type; unfold is_name_type in Hname; lia).
  destruct (pkt_bytes p rdlength) as (raw & E & _ & L); [lia..|]. rewrite E. cbn [mem ret rbind].
  pose proof (Hfresh rdlength Hr) as Lf. rewrite write_at_in by lia. cbn [mem ret rbind rdata_outcome].
  rewrite take_0, drop_ge, app_nil_r by lia. split; [lia|]. split; [by constructor|].
  intros raw' rd e H. by rdata_cases H.
Qed.

Lemma parse_rr_decides : decides (fun p => parse_rr fresh pkt p max) (rr_at pkt).
Proof.
  intros p Hp. unfold parse_rr.
  apply (decides_bind (fun p => parse_name fresh pkt p max 4) (text_at pkt)); [by apply parse_name_decides|done|..].
  { intros st Hst Hn. split; [done|]. intros r n (m & Hq & _). by apply Hn in Hq. }
  intros x m Hm Hx Hu. cbv beta iota zeta. destruct (Z.ltb_spec max (p + m + 10)) as [Hl|Hl].
  { split; [done|]. intros r n (m' & Hq & _ & _ & _ & _ & Hb & _). apply Hu in Hq as ->. apply be_bound in Hb. lia. }
  destruct (get16_be (p + m)) as (ty & E1 & B1 & _); [lia..|]. destruct (get16_be (p + m + 2)) as (cl & E2 & B2 & _); [lia..|].
  destruct (get32_be (p + m + 4)) as (tl & E3 & B3); [lia..|]. destruct (get16_be (p + m + 8)) as (rl & E4 & B4 & Hrl); [lia..|].
  rewrite E1. cbn [rbind ret]. rewrite E2. cbn [rbind ret].
  destruct (negb (cl =? 1) && known_type ty) eqn:Hcl.
  { split; [done|]. intros r n (m' & Hq & Ht & Hc & Hk & _). apply Hu in Hq as ->. rewrite B1 in Ht. rewrite B2 in Hc.
    simplify_eq. apply andb_true_iff in Hcl as [Hc1 Hc2]. apply Hk in Hc2. lia. }
  rewrite E3. cbn [rbind ret]. rewrite E4. cbn [rbind ret].
  destruct (Z.ltb_spec max (p + m + 10 + rl)) as [Hl2|Hl2].
  { split; [done|]. intros r n (m' & Hq & _ & _ & _ & _ & Hr & Hm' & _). apply Hu in Hq as ->. rewrite B4 in Hr. simplify_eq. lia. }
  pose proof (parse_rdata_outcome rl (p + m + 10) ty ltac:(lia) ltac:(lia) ltac:(lia)) as Hd.
  destruct (parse_rdata _ _ _ _ _ _) as [[st|[[raw rd] e]]|]; [| |done].
  - destruct Hd as [Hst Hn]. split; [done|]. intros r n (m' & Hq & Ht & _ & _ & _ & Hr & _ & Hrd). apply Hu in Hq as ->.
    rewrite B1 in Ht. rewrite B4 in Hr. simplify_eq. by apply Hn in Hrd.
  - destruct Hd as (He & Hrd & Hue). cbn [rbind ret]. split; [lia|]. split.
    + exists m. cbn [rr_name rr_type rr_dnsclass rr_ttl rr_rdlength rr_raw rr_rdata]. replace (p + (e - p)) with e by lia.
      split_and!; try done. intros Hk. rewrite Hk, andb_true_r in Hcl. by apply negb_false_iff, Z.eqb_eq in Hcl.
    + intros r n (m' & Hq & Ht & _ & _ & _ & Hr & _ & Hrd'). apply Hu in Hq as ->.
      rewrite B1 in Ht. rewrite B4 in Hr. simplify_eq. apply Hue in Hrd'. lia.
Qed.

(** ** Sections *)

Lemma parse_section_decides {A} (parse : Z -> res (A * Z)) R count : decides parse R ->
  forall p, 0 <= p ->
  match parse_section parse count p with
  | None => False
  | Some (inl st) => st <> PJ_SUCCESS /\ forall xs e, length xs = count -> ~ section_at R p xs e
  | Some (inr (xs, e)) => p <= e /\ length xs = count /\ section_at R p xs e /\
      forall xs' e', length xs' = count -> section_at R p xs' e' -> e' = e
  end.
Proof.
  intros Hd. induction count as [|count IH]; intros p Hp; cbn [parse_section].
  { cbn [ret]. split_and!; [lia|done|constructor|]. intros xs' e' L H. destruct H; [done|done]. }
  specialize (Hd p Hp) as Hq. destruct (parse p) as [[st|[x n]]|]; [| |done]; cbn [rbind].
  { destruct Hq as [Hst Hn]. split; [done|]. intros xs e L H. destruct H as [|p x n xs e Hx _]; [done|]. by apply Hn in Hx. }
  destruct Hq as (Hn & Hx & Hu). specialize (IH (p + n) ltac:(lia)).
  destruct (parse_section _ _ _) as [[st|[xs e]]|]; [| |done]; cbn [rbind ret].
  - destruct IH as [Hst Hs]. split; [done|]. intros xs e L H. destruct H as [|p x' n' xs e Hx' Hr]; [done|].
    apply Hu in Hx' as ->. apply Hs in Hr; [done|]. by injection L.
  - destruct IH as (He & L & Hs & Hue). split_and!; [lia|by simpl; rewrite L|by econstructor|].
    intros xs' e' L' H. destruct H as [|p x' n' xs' e' Hx' Hr]; [done|]. apply Hu in Hx' as ->.
    eapply Hue; [|done]. by injection L'.
Qed.

Lemma parse_hdr_spec : sizeof_dns_hdr <= max -> exists h, parse_hdr pkt = ret h /\ hdr_at pkt h /\
  0 <= hdr_qdcount h /\ 0 <= hdr_anscount h /\ 0 <= hdr_nscount h /\ 0 <= hdr_arcount h.
Proof.
  unfold sizeof_dns_hdr. intros Hm. unfold parse_hdr.
  destruct (get16_be 0) as (v0 & E0 & B0 & _); [lia..|]. destruct (get16_be 2) as (v1 & E1 & B1 & _); [lia..|].
  destruct (get16_be 4) as (v2 & E2 & B2 & ?); [lia..|]. destruct (get16_be 6) as (v3 & E3 & B3 & ?); [lia..|].
  destruct (get16_be 8) as (v4 & E4 & B4 & ?); [lia..|]. destruct (get16_be 10) as (v5 & E5 & B5 & ?); [lia..|].
  rewrite E0. cbn [rbind ret]. rewrite E1. cbn [rbind ret]. rewrite E2. cbn [rbind ret]. rewrite E3. cbn [rbind ret].
  rewrite E4. cbn [rbind ret]. rewrite E5. cbn [rbind ret]. eexists. split; [done|]. split; [done|]. simpl. lia.
Qed.

Lemma hdr_at_unique h h' : hdr_at pkt h -> hdr_at pkt h' -> h = h'.
Proof.
  intros (E0 & E1 & E2 & E3 & E4 & E5) (F0 & F1 & F2 & F3 & F4 & F5). destruct h, h'. simpl in *.
  rewrite E0 in F0. rewrite E1 in F1. rewrite E2 in F2. rewrite E3 in F3. rewrite E4 in F4. rewrite E5 in F5. by simplify_eq.
Qed.
End Spec.

Definition outcome pkt (r : res pj_dns_parsed_packet) : Prop :=
  match r with
  | None => False
  | Some (inl status) => status <> PJ_SUCCESS /\ forall r, ~ packet_at pkt r
  | Some (inr r) => packet_at pkt r
  end.

(** The use of a section. *)
Lemma section_bind {A B} (parse : Z -> res (A * Z)) R count p (K : list A * Z -> res B) (P : res B -> Prop) :
  decides parse R -> 0 <= p ->
  (forall st, st <> PJ_SUCCESS -> (forall xs e, length xs = count -> ~ section_at R p xs e) -> P (fail st)) ->
  (forall xs e, p <= e -> length xs = count -> section_at R p xs e ->
     (forall xs' e', length xs' = count -> section_at R p xs' e' -> e' = e) -> P (K (xs, e))) ->
  P (rbind (parse_section parse count p) K).
Proof.
  intros Hd Hp Hf Hk. pose proof (parse_section_decides parse R count Hd p Hp) as H.
  destruct (parse_section parse count p) as [[st|[xs e]]|]; [|cbn [rbind]|done].
  - destruct H as [? ?]. by apply Hf.
  - destruct H as (? & ? & ? & ?). by apply Hk.
Qed.

(** C20 The parser of DNS packets, on any bytes: it returns, without a read outside of
    the packet or a write outside of the memory it took for a name; it refuses
    exactly the packets that are not of the format; and what it gives is what the
    packet says. *)
Theorem parse_packet_exact (fresh : Z -> list Z) pkt :
  (forall n, 0 <= n -> Z.of_nat (length (fresh n)) = n) -> octets pkt ->
  match pj_dns_parse_packet fresh pkt with
  | None => False
  | Some (inl status) => status <> PJ_SUCCESS /\ forall r, ~ packet_at pkt r
  | Some (inr r) => packet_at pkt r
  end.
Proof.
  intros Hfresh Ho. unfold pj_dns_parse_packet. set (size := Z.of_nat (length pkt)).
  assert (Hsmall : size < 12 -> forall r, ~ packet_at pkt r).
  { intros Hs r ((_ & _ & _ & _ & _ & E) & _). apply be_bound in E. lia. }
  destruct (Z.eqb_spec size 0) as [H00|H00]; [split; [done|apply Hsmall; lia]|].
  destruct (Z.ltb_spec size sizeof_dns_hdr) as [H12|H12]; [split; [done|by apply Hsmall]|].
  destruct (parse_hdr_spec pkt Ho) as (h & Eh & Hh & Hq & Ha & Hn & Hr); [done|]. rewrite Eh. cbn [rbind ret].
  destruct (_ || _) eqn:Hc.
  { split; [done|]. intros r (Hh' & [_ C1] & [_ C2] & [_ C3] & [_ C4] & _).
    rewrite <- (hdr_at_unique pkt h _ Hh Hh') in *. lia. }
  assert (Hcount : forall r, packet_at pkt r -> length (pkt_q r) = Z.to_nat (hdr_qdcount h) /\
    length (pkt_ans r) = Z.to_nat (hdr_anscount h) /\ length (pkt_ns r) = Z.to_nat (hdr_nscount h) /\
    length (pkt_arr r) = Z.to_nat (hdr_arcount h)).
  { intros r (Hh' & [C1 _] & [C2 _] & [C3 _] & [C4 _] & _). rewrite <- (hdr_at_unique pkt h _ Hh Hh') in *. lia. }
  pose proof (parse_query_decides fresh Hfresh pkt Ho) as Dq. pose proof (parse_rr_decides fresh Hfresh pkt Ho) as Dr.
  fold size in Dq, Dr. change (outcome pkt
    ('(q, start) <?- parse_section (fun p => parse_query fresh pkt p size) (Z.to_nat (hdr_qdcount h)) sizeof_dns_hdr;
     '(ans, start) <?- parse_section (fun p => parse_rr fresh pkt p size) (Z.to_nat (hdr_anscount h)) start;
     '(ns, start) <?- parse_section (fun p => parse_rr fresh pkt p size) (Z.to_nat (hdr_nscount h)) start;
     '(arr, _) <?- parse_section (fun p => parse_rr fresh pkt p size) (Z.to_nat (hdr_arcount h)) start;
     ret (mk_dns_packet h q ans ns arr))).
  eapply section_bind; [exact Dq|done|..].
  { intros st Hst Hs. split; [done|]. intros r H. destruct (Hcount r H) as (L1 & _).
    destruct H as (_ & _ & _ & _ & _ & p1 & p2 & p3 & p4 & S1 & _). by apply Hs in S1. }
  intros q e1 He1 L1 S1 U1. change sizeof_dns_hdr with 12 in *. eapply section_bind; [exact Dr|lia|..].
  { intros st Hst Hs. split; [done|]. intros r H. destruct (Hcount r H) as (L1' & L2' & _).
    destruct H as (_ & _ & _ & _ & _ & p1 & p2 & p3 & p4 & S1' & S2' & _). apply U1 in S1' as ->; [|done]. by apply Hs in S2'. }
  intros ans e2 He2 L2 S2 U2. eapply section_bind; [exact Dr|lia|..].
  { intros st Hst Hs. split; [done|]. intros r H. destruct (Hcount r H) as (L1' & L2' & L3' & _).
    destruct H as (_ & _ & _ & _ & _ & p1 & p2 & p3 & p4 & S1' & S2' & S3' & _).
    apply U1 in S1' as ->; [|done]. apply U2 in S2' as ->; [|done]. by apply Hs in S3'. }
  intros ns e3 He3 L3 S3 U3. eapply section_bind; [exact Dr|lia|..].
  { intros st Hst Hs. split; [done|]. intros r H. destruct (Hcount r H) as (L1' & L2' & L3' & L4').
    destruct H as (_ & _ & _ & _ & _ & p1 & p2 & p3 & p4 & S1' & S2' & S3' & S4').
    apply U1 in S1' as ->; [|done]. apply U2 in S2' as ->; [|done]. apply U3 in S3' as ->; [|done]. by apply Hs in S4'. }
  intros arr e4 He4 L4 S4 _. cbn [ret outcome]. split; [done|]. unfold counts. cbn [pkt_hdr pkt_q pkt_ans pkt_ns pkt_arr].
  rewrite L1, L2, L3, L4. split_and!; [lia..|]. by exists e1, e2, e3, e4.
Qed.

(** ** Making a query and parsing it *)

(** The labels of a name with dots between, and on the wire. *)
Fixpoint dotted (ls : list (list Z)) : list Z :=
  match ls with
  | [] => []
  | [l] => l
  | l :: ls => l ++ 46 :: dotted ls
  end.

Fixpoint wire (ls : list (list Z)) : list Z :=
  match ls with
  | [] => []
  | l :: ls => Z.of_nat (length l) :: l ++ wire ls
  end.

Definition label_ok (l : list Z) : Prop := l <> [] /\ (46 ∉ l) /\ (length l < 192)%nat /\ octets l.

Lemma dotted_cons l l' ls : dotted (l :: l' :: ls) = l ++ 46 :: dotted (l' :: ls).
Proof. reflexivity. Qed.

Lemma wire_length l ls : length (wire (l :: ls)) = S (length (dotted (l :: ls))).
Proof.
  revert l. induction ls as [|l' ls IH]; intros l; [simpl; by rewrite app_nil_r|].
  rewrite dotted_cons. change (wire (l :: l' :: ls)) with (Z.of_nat (length l) :: l ++ wire (l' :: ls)).
  cbn [length]. rewrite !length_app, IH. cbn [length]. lia.
Qed.

Lemma scan_label_end l : 46 ∉ l -> scan_label l = (l, []).
Proof.
  induction l as [|c l IH]; intros Hl; [done|]. apply not_elem_of_cons in Hl as [Hc Hl]. cbn [scan_label].
  rewrite (proj2 (Z.eqb_neq c 46)) by done. by rewrite IH.
Qed.

Lemma scan_label_dot l r : 46 ∉ l -> scan_label (l ++ 46 :: r) = (l, 46 :: r).
Proof.
  induction l as [|c l IH]; intros Hl; [done|]. apply not_elem_of_cons in Hl as [Hc Hl]. cbn [scan_label app].
  rewrite (proj2 (Z.eqb_neq c 46)) by done. by rewrite IH.
Qed.

Lemma write_labels_wire ls : Forall label_ok ls -> forall n pre tl p, (length (dotted ls) <= n)%nat ->
  (length (wire ls) <= length tl)%nat -> p = Z.of_nat (length pre) ->
  write_labels n (pre ++ tl) p (dotted ls) =
    Some ((pre ++ wire ls) ++ drop (length (wire ls)) tl, p + Z.of_nat (length (wire ls))).
Proof.
  induction 1 as [|l ls (Hne & Hdot & Hlen & _) Hls IH]; intros n pre tl p Hn Ht Hp.
  { destruct n; cbn [write_labels dotted wire length]; by rewrite app_nil_r, drop_0, Z.add_0_r. }
  assert (Hu : u8 (Z.of_nat (length l)) = Z.of_nat (length l)) by (apply u8_small; lia).
  assert (Hstep : forall rest n, scan_label (dotted (l :: ls)) = (l, rest) -> dotted (l :: ls) <> [] ->
    match rest with c :: r => if c =? 46 then r else rest | [] => [] end = dotted ls -> (length (dotted ls) <= n)%nat ->
    write_labels (S n) (pre ++ tl) p (dotted (l :: ls)) =
    Some ((pre ++ wire (l :: ls)) ++ drop (length (wire (l :: ls))) tl, p + Z.of_nat (length (wire (l :: ls))))).
  { intros rest n' Es Hd Er Hn'. cbn [wire length] in Ht. rewrite length_app in Ht.
    destruct (dotted (l :: ls)) as [|c0 d0] eqn:Ed; [done|]. cbn [write_labels]. rewrite Es. cbv beta iota zeta. rewrite Er, Hu.
    rewrite write_app by (simpl; lia). bind_step.
    rewrite write_app by (rewrite ?length_app, ?length_drop; simpl; lia). bind_step.
    rewrite IH by (rewrite ?length_app, ?length_drop; simpl; lia). cbn [wire length]. rewrite !drop_drop, !length_app.
    do 2 f_equal; [|simpl; lia]. rewrite <- !app_assoc. cbn [app]. by rewrite <- !app_assoc. }
  destruct n as [|n]; [destruct l; [done|]; destruct ls; simpl in Hn; lia|].
  destruct ls as [|l' ls].
  - apply (Hstep []); [by apply scan_label_end|done|done|simpl; lia].
  - rewrite dotted_cons, length_app in Hn. apply (Hstep (46 :: dotted (l' :: ls))).
    + rewrite dotted_cons. by apply scan_label_dot.
    + rewrite dotted_cons. by destruct l.
    + done.
    + simpl in Hn |- *. lia.
Qed.

Lemma get_app (pre tl : list Z) x p : p = Z.of_nat (length pre) -> (pre ++ x :: tl).[p] = Some x.
Proof. intros ->. rewrite arr_get_nat, lookup_app_r by lia. by rewrite Nat.sub_diag. Qed.

Lemma bytes_app (pre bs tl : list Z) p n : p = Z.of_nat (length pre) -> n = Z.of_nat (length bs) ->
  bytes_at (pre ++ bs ++ tl) p n = Some bs.
Proof.
  intros -> ->. rewrite bytes_at_in by (rewrite ?length_app; lia). f_equal. rewrite !Nat2Z.id, drop_app_length.
  by rewrite take_app_length.
Qed.

Lemma be_app (pre tl : list Z) a b p : p = Z.of_nat (length pre) -> be (pre ++ a :: b :: tl) p 2 = Some (b + 256 * a).
Proof.
  intros Hp. unfold be. change (a :: b :: tl) with ([a; b] ++ tl). rewrite (bytes_app pre [a; b] tl p 2) by done. simpl. f_equal. lia.
Qed.

Definition label_good (b : Z) : bool := negb (b <? 192) || negb (Z.land b 0xc0 =? 0xc0).

Lemma label_all : forallb label_good (seqZ 0 256) = true.
Proof. vm_compute. reflexivity. Qed.

Lemma label_byte b : 0 <= b < 192 -> Z.land b 0xc0 <> 0xc0.
Proof.
  intros Hb. pose proof (all_bytes _ label_all b ltac:(lia)) as H. unfold label_good in H.
  rewrite (proj2 (Z.ltb_lt _ _)) in H by lia. cbn [negb orb] in H. by apply negb_true_iff, Z.eqb_neq in H.
Qed.

(** The labels on the wire are the name. *)
Lemma name_at_wire ls : Forall label_ok ls -> forall k pre tl p, p = Z.of_nat (length pre) ->
  name_at (pre ++ wire ls ++ 0 :: tl) k p (dotted ls) (Z.of_nat (length (wire ls)) + 1).
Proof.
  induction 1 as [|l ls (Hne & Hdot & Hlen & Ho) Hls IH]; intros k pre tl p Hp.
  { apply na_end. by apply get_app. }
  assert (Ll : length l <> 0%nat) by (by destruct l).
  replace (pre ++ wire (l :: ls) ++ 0 :: tl) with ((pre ++ Z.of_nat (length l) :: l) ++ wire ls ++ 0 :: tl)
    by (cbn [wire]; rewrite <- !app_assoc; cbn [app]; by rewrite <- ?app_assoc).
  set (c := match ls with [] => 0 | l' :: _ => Z.of_nat (length l') end).
  assert (Ed : dotted (l :: ls) = l ++ (if c =? 0 then [] else [46]) ++ dotted ls).
  { destruct ls as [|l' ls]; [simpl; by rewrite app_nil_r|]. rewrite dotted_cons. subst c.
    inversion_clear Hls as [|?? (Hne' & _) _]. rewrite (proj2 (Z.eqb_neq _ _)); [done|]. by destruct l'. }
  rewrite Ed. replace (Z.of_nat (length (wire (l :: ls))) + 1) with (Z.of_nat (length l) + 1 + (Z.of_nat (length (wire ls)) + 1))
    by (cbn [wire length]; rewrite length_app; lia).
  apply na_label.
  - rewrite <- app_assoc. by apply get_app.
  - lia.
  - apply label_byte. lia.
  - change (pre ++ Z.of_nat (length l) :: l) with (pre ++ [Z.of_nat (length l)] ++ l).
    rewrite (app_assoc pre), <- (app_assoc _ l). apply bytes_app; [rewrite length_app; simpl; lia|done].
  - destruct ls as [|l' ls]; subst c; apply get_app; rewrite length_app; simpl; lia.
  - apply IH. rewrite length_app. simpl. lia.
Qed.

(** A name at a place has one text and one length. *)
Lemma name_at_fun pkt k p t n : name_at pkt k p t n -> forall t' n', name_at pkt k p t' n' -> t' = t /\ n' = n.
Proof.
  induction 1 as [k p E|k p b label c t n E Hb Hl El Ec Hn IH|k p b x t n E Hb Ex Hn IH]; intros t' n' H'.
  - inversion H'; simplify_eq; done.
  - inversion H' as [|? ? b' label' c' t2 n2 E' Hb' Hl' El' Ec' Hn'|]; simplify_eq; try done.
    destruct (IH _ _ Hn') as [-> ->]. done.
  - inversion H' as [|? ? b' label' c' t2 n2 E' Hb' Hl' El' Ec' Hn'|? ? b' x' t2 n2 E' Hb' Ex' Hn']; simplify_eq; try done.
    by destruct (IH _ _ Hn') as [-> _].
Qed.

(** The bytes of a query. *)
Definition query_bytes (id qtype : Z) (ls : list (list Z)) : list Z :=
  [id / 256; id mod 256; 1; 0; 0; 1; 0; 0; 0; 0; 0; 0] ++ wire ls ++ 0 :: [qtype / 256; qtype mod 256; 0; 1].

Lemma write16_app (pre tl : list Z) p v : p = Z.of_nat (length pre) -> (2 <= length tl)%nat -> 0 <= v < 65536 ->
  write16 (pre ++ tl) p v = Some ((pre ++ [v / 256; v mod 256]) ++ drop 2 tl).
Proof.
  intros Hp Hl Hv. unfold write16.
  assert (E1 : u8 (Z.shiftr v 8) = v / 256) by (rewrite Z.shiftr_div_pow2 by lia; apply u8_small; div_lia).
  assert (E2 : u8 (Z.land v 255) = v mod 256).
  { change 255 with (Z.ones 8). rewrite Z.land_ones by lia. apply u8_small. change (2 ^ 8) with 256. div_lia. }
  rewrite E1, E2. by apply write_app.
Qed.

(** The header and the labels are written if they have room. *)
Lemma make_query_start packet size id qtype ls : Forall label_ok ls -> 0 <= id < 65536 -> qtype <> 0 ->
  12 + Z.of_nat (length (dotted ls)) + 4 <= size -> (12 + length (wire ls) <= length packet)%nat ->
  let pre := [id / 256; id mod 256; 1; 0; 0; 1; 0; 0; 0; 0; 0; 0] ++ wire ls in
  let p := Z.of_nat (length pre) in
  pj_dns_make_query packet size id qtype (dotted ls) =
  (packet ← write_at (pre ++ drop (length pre) packet) p [0];
   packet ← write16 packet (p + 1) (u16 qtype);
   packet ← write16 packet (p + 3) 1;
   Some (PJ_SUCCESS, packet, p + 5)).
Proof.
  intros Hls Hid Hq Hs Hp pre p. unfold pj_dns_make_query, sizeof_dns_hdr.
  rewrite (proj2 (Z.eqb_neq _ _) Hq), (proj2 (Z.leb_le _ _) Hs). cbn [negb]. cbv iota zeta.
  change packet with ([] ++ packet) at 1. rewrite (write_app [] packet) by (done || (rewrite length_replicate; lia)). bind_step.
  rewrite length_replicate. change (([] ++ replicate 12 0) ++ drop 12 packet) with ([] ++ (replicate 12 0 ++ drop 12 packet)).
  rewrite (write16_app [] _ 0 id) by (done || (rewrite length_app; simpl; lia)). bind_step.
  change (u16 (Z.shiftl 1 8)) with 256. change (drop 2 (replicate 12 0 ++ drop 12 packet)) with (replicate 10 0 ++ drop 12 packet).
  rewrite (write16_app _ _ 2 256) by (done || (rewrite length_app; simpl; lia)). bind_step.
  change (drop 2 (replicate 10 0 ++ drop 12 packet)) with (replicate 8 0 ++ drop 12 packet).
  rewrite (write16_app _ _ 4 1) by (done || (rewrite length_app; simpl; lia)). bind_step.
  change (drop 2 (replicate 8 0 ++ drop 12 packet)) with (replicate 6 0 ++ drop 12 packet). rewrite app_assoc.
  rewrite (write_labels_wire ls Hls (length (dotted ls))) by (done || (rewrite length_drop; lia)).
  rewrite bind_some_eq. cbv beta iota. rewrite drop_drop.
  replace p with (12 + Z.of_nat (length (wire ls))) by (subst p pre; rewrite length_app; simpl; lia). reflexivity.
Qed.

Lemma make_query_bytes packet size id qtype ls : Forall label_ok ls -> 0 <= id < 65536 -> 0 < qtype < 65536 ->
  12 + Z.of_nat (length (dotted ls)) + 4 <= size -> (length (query_bytes id qtype ls) <= length packet)%nat ->
  pj_dns_make_query packet size id qtype (dotted ls) =
    Some (PJ_SUCCESS, query_bytes id qtype ls ++ drop (length (query_bytes id qtype ls)) packet,
          Z.of_nat (length (query_bytes id qtype ls))).
Proof.
  intros Hls Hid Hq Hs Hp. unfold query_bytes in Hp. rewrite !length_app in Hp. cbn [length] in Hp.
  rewrite make_query_start by (done || lia). cbv zeta.
  set (pre := [id / 256; id mod 256; 1; 0; 0; 1; 0; 0; 0; 0; 0; 0] ++ wire ls).
  assert (Lp : length pre = (12 + length (wire ls))%nat) by done.
  rewrite write_app by (rewrite ?length_drop; simpl; lia). bind_step.
  assert (Eu : u16 qtype = qtype) by (apply wrap_small; lia). rewrite Eu.
  rewrite write16_app by (rewrite ?length_app, ?length_drop; simpl; lia). bind_step.
  rewrite write16_app by (rewrite ?length_app, ?length_drop; simpl; lia). bind_step.
  rewrite !drop_drop. change (1 / 256) with 0. change (1 mod 256) with 1.
  assert (Eq : ((pre ++ [0]) ++ [qtype / 256; qtype mod 256]) ++ [0; 1] = query_bytes id qtype ls).
  { unfold query_bytes, pre. by rewrite <- !app_assoc. }
  rewrite Eq. unfold query_bytes. rewrite !length_app. cbn [length]. repeat f_equal; rewrite ?length_drop; simpl; lia.
Qed.

Lemma wire_octets ls : Forall label_ok ls -> octets (wire ls).
Proof.
  induction 1 as [|l ls (_ & _ & Hlen & Ho) _ IH]; [constructor|]. cbn [wire]. constructor; [lia|].
  apply Forall_app. by split.
Qed.

Lemma query_bytes_octets id qtype ls : Forall label_ok ls -> 0 <= id < 65536 -> 0 < qtype < 65536 ->
  octets (query_bytes id qtype ls).
Proof.
  intros Hls Hid Hq. unfold query_bytes. apply Forall_app. split; [repeat constructor; div_lia|].
  apply Forall_app. split; [by apply wire_octets|repeat constructor; div_lia].
Qed.

Definition plain (t : list Z) : dns_str := mk_dns_str t (Z.of_nat (length t)).

Lemma plain_val t : str_val (plain t) = t.
Proof. unfold str_val, plain. cbn [str_slen str_buf]. by rewrite Nat2Z.id, firstn_all. Qed.

(** The bytes of a query are a packet with one query for the name. *)
Lemma query_packet_at id qtype ls : Forall label_ok ls ->
  hdr_at (query_bytes id qtype ls) (mk_dns_hdr (id mod 256 + 256 * (id / 256)) 256 1 0 0 0) /\
  query_at (query_bytes id qtype ls) 12
    (mk_dns_query (plain (dotted ls)) (qtype mod 256 + 256 * (qtype / 256)) 1) (Z.of_nat (length (wire ls)) + 1 + 4).
Proof.
  intros Hls. unfold query_bytes. set (rest := wire ls ++ 0 :: [qtype / 256; qtype mod 256; 0; 1]). split.
  { split_and!; cbn [hdr_id hdr_flags hdr_qdcount hdr_anscount hdr_nscount hdr_arcount].
    - apply (be_app []). done.
    - apply (be_app [id / 256; id mod 256]). done.
    - apply (be_app [id / 256; id mod 256; 1; 0]). done.
    - apply (be_app [id / 256; id mod 256; 1; 0; 0; 1]). done.
    - apply (be_app [id / 256; id mod 256; 1; 0; 0; 1; 0; 0]). done.
    - apply (be_app [id / 256; id mod 256; 1; 0; 0; 1; 0; 0; 0; 0]). done. }
  set (hdr := [id / 256; id mod 256; 1; 0; 0; 1; 0; 0; 0; 0; 0; 0]).
  split; cbn [q_name q_type q_dnsclass].
  - replace (Z.of_nat (length (wire ls)) + 1 + 4 - 4) with (Z.of_nat (length (wire ls)) + 1) by lia.
    split; [split; simpl; lia|]. rewrite plain_val. by apply name_at_wire.
  - unfold rest. change (0 :: [qtype / 256; qtype mod 256; 0; 1]) with ([0] ++ qtype / 256 :: qtype mod 256 :: [0; 1]).
    rewrite !app_assoc. apply be_app. rewrite !length_app. simpl. lia.
  - unfold rest. change (0 :: [qtype / 256; qtype mod 256; 0; 1]) with ([0; qtype / 256; qtype mod 256] ++ 0 :: 1 :: []).
    rewrite !app_assoc. rewrite (be_app _ [] 0 1); [done|]. rewrite !length_app. simpl. lia.
Qed.

(** C21 A query that is made for a name of labels of at most 191 characters, in a
    buffer that holds it, is parsed as one query for that name. *)
Theorem query_roundtrip (fresh : Z -> list Z) packet size id qtype ls :
  (forall n, 0 <= n -> Z.of_nat (length (fresh n)) = n) -> Forall label_ok ls -> 0 <= id < 65536 -> 0 < qtype < 65536 ->
  12 + Z.of_nat (length (dotted ls)) + 6 <= size <= Z.of_nat (length packet) ->
  exists packet' n q, pj_dns_make_query packet size id qtype (dotted ls) = Some (PJ_SUCCESS, packet', n) /\
  0 <= n <= size /\
  pj_dns_parse_packet fresh (take (Z.to_nat n) packet') = ret (mk_dns_packet (mk_dns_hdr id 256 1 0 0 0) [q] [] [] []) /\
  str_val (q_name q) = dotted ls /\ q_type q = qtype /\ q_dnsclass q = 1.
Proof.
  intros Hfresh Hls Hid Hq Hs. set (bytes := query_bytes id qtype ls).
  assert (Hw : (length (wire ls) <= S (length (dotted ls)))%nat) by (destruct ls; [simpl; lia|by rewrite wire_length]).
  assert (Lb : length bytes = (17 + length (wire ls))%nat) by (unfold bytes, query_bytes; rewrite !length_app; simpl; lia).
  rewrite make_query_bytes by (done || (fold bytes; lia)). fold bytes.
  eexists _, _. destruct (query_packet_at id qtype ls Hls) as [Hh Hqa]. fold bytes in Hh, Hqa.
  rewrite (Z.add_comm (id mod 256)), <- Z_div_mod_eq_full in Hh. rewrite (Z.add_comm (qtype mod 256)), <- Z_div_mod_eq_full in Hqa.
  assert (Hp : packet_at bytes (mk_dns_packet (mk_dns_hdr id 256 1 0 0 0) [mk_dns_query (plain (dotted ls)) qtype 1] [] [] [])).
  { split; [done|]. split_and!; [done..|]. do 4 eexists. split_and!; [|constructor..]. econstructor; [exact Hqa|constructor]. }
  pose proof (parse_packet_exact fresh bytes Hfresh (query_bytes_octets id qtype ls Hls Hid Hq)) as Hx.
  rewrite Nat2Z.id, take_app_length.
  destruct (pj_dns_parse_packet fresh bytes) as [[st|r]|] eqn:E; [by destruct Hx as [_ Hx]; apply Hx in Hp| |done].
  destruct Hx as (Hh' & [C1 _] & [C2 _] & [C3 _] & [C4 _] & p1 & p2 & p3 & p4 & S1 & _).
  pose proof (hdr_at_unique bytes _ _ Hh Hh') as Er. destruct r as [h q ans ns arr].
  cbn [pkt_hdr pkt_q pkt_ans pkt_ns pkt_arr] in *. subst h.
  cbn [hdr_qdcount hdr_anscount hdr_nscount hdr_arcount] in *.
  destruct ans; [|done]. destruct ns; [|done]. destruct arr; [|done]. destruct q as [|q [|]]; [done| |simpl in C1; lia].
  exists q. split; [done|]. split; [lia|]. split; [done|].
  inversion S1 as [|? ? n ? ? Hq' _]; subst. destruct Hqa as [[_ N1] T1 K1], Hq' as [[_ N2] T2 K2].
  cbn [q_name q_type q_dnsclass] in *. rewrite plain_val in N1. destruct (name_at_fun _ _ _ _ _ N1 _ _ N2) as [-> En].
  replace n with (Z.of_nat (length (wire ls)) + 1 + 4) in * by lia. rewrite T1 in T2. rewrite K1 in K2. by simplify_eq.
Qed.

(** C40 The space that is asked for is two bytes too small: with exactly this space,
    the last two bytes of the query are written behind the buffer. *)
Theorem make_query_overflows packet id qtype l ls :
  Forall label_ok (l :: ls) -> 0 <= id < 65536 -> 0 < qtype < 65536 ->
  Z.of_nat (length packet) = sizeof_dns_hdr + Z.of_nat (length (dotted (l :: ls))) + 4 ->
  pj_dns_make_query packet (Z.of_nat (length packet)) id qtype (dotted (l :: ls)) = None.
Proof.
  intros Hls Hid Hq Hp. unfold sizeof_dns_hdr in Hp. pose proof (wire_length l ls) as Hw.
  rewrite make_query_start by (done || lia). cbv zeta.
  set (pre := [id / 256; id mod 256; 1; 0; 0; 1; 0; 0; 0; 0; 0; 0] ++ wire (l :: ls)).
  assert (Lp : length pre = (12 + length (wire (l :: ls)))%nat) by done. clearbody pre.
  rewrite write_app by (rewrite ?length_drop; simpl; lia). bind_step.
  assert (Eu : u16 qtype = qtype) by (apply wrap_small; lia). rewrite Eu.
  rewrite write16_app by (rewrite ?length_app, ?length_drop; simpl; lia). bind_step.
  unfold write16, write_at. rewrite !length_app, !length_drop. cbn [length].
  rewrite (proj2 (Z.leb_gt (_ + _) _)) by lia. by rewrite andb_false_r.
Qed.

(** ** Duplicating a packet *)

Section Dup.
Context (fresh : Z -> list Z) (Hfresh : forall n, 0 <= n -> Z.of_nat (length (fresh n)) = n).

(** Names as [pj_stricmp] compares them: of the same length, and the same up to
    the case of letters and up to a null character, if there is one. *)
Record same_name (a b : dns_str) : Prop := {
  sn_length : length (str_val a) = length (str_val b);
  sn_chars : map pj_tolower (c_chars (str_val a)) = map pj_tolower (c_chars (str_val b));
  sn_whole : 0 ∉ str_val a -> map pj_tolower (str_val a) = map pj_tolower (str_val b)
}.

Lemma c_chars_whole l : 0 ∉ l -> c_chars l = l.
Proof.
  induction l as [|c l IH]; [done|]. intros [Hc Hl]%not_elem_of_cons. cbn [c_chars].
  destruct (Z.eqb_spec c 0) as [->|]; [done|]. by rewrite IH.
Qed.

Lemma c_chars_length l : (length (c_chars l) <= length l)%nat.
Proof. induction l as [|c l IH]; [done|]. cbn [c_chars]. destruct (c =? 0); simpl; lia. Qed.

Lemma c_chars_full l : length (c_chars l) = length l -> c_chars l = l.
Proof.
  induction l as [|c l IH]; [done|]. cbn [c_chars]. destruct (c =? 0); [done|].
  cbn [length]. intros [= H]. by rewrite IH.
Qed.

Lemma same_name_intro a b : length (str_val a) = length (str_val b) ->
  map pj_tolower (c_chars (str_val a)) = map pj_tolower (c_chars (str_val b)) -> same_name a b.
Proof.
  intros Hl Hc. split; [done..|]. intros Hz. pose proof Hc as Hc'. rewrite (c_chars_whole _ Hz) in Hc'.
  assert (Hb : c_chars (str_val b) = str_val b); [|by rewrite Hb in Hc'].
  apply c_chars_full. rewrite <-Hl. apply (f_equal length) in Hc'. rewrite !length_map in Hc'. done.
Qed.

Lemma strnicmp_zero a b : length a = length b -> strnicmp a b (length b) = 0 ->
  map pj_tolower (c_chars a) = map pj_tolower (c_chars b).
Proof.
  revert b. induction a as [|x a IH]; intros [|y b] Hl; try done. cbn [length strnicmp c_chars] in *.
  destruct (Z.eqb_spec (pj_tolower x) (pj_tolower y)) as [E|]; [|by destruct (_ <? _)].
  pose proof (tolower_nonzero x) as Hx. pose proof (tolower_nonzero y) as Hy.
  destruct (Z.eqb_spec (pj_tolower x) 0) as [E0|E0].
  - rewrite (proj2 (Z.eqb_eq x 0)), (proj2 (Z.eqb_eq y 0)) by (apply dec_stable; rewrite <-?E in Hy; tauto). done.
  - rewrite !(proj2 (Z.eqb_neq _ 0)) by (intros ->; done). intros H. cbn [map]. rewrite E. f_equal. apply IH; [lia|done].
Qed.

Lemma stricmp_same a b : pj_stricmp (str_val a) (str_val b) = 0 -> same_name b a.
Proof.
  unfold pj_stricmp, strcmp_with. intros H.
  assert (Hl : length (str_val a) = length (str_val b)).
  { revert H. destruct (Nat.eqb_spec (length (str_val a)) 0), (Nat.eqb_spec (length (str_val b)) 0); try done; [lia|].
    destruct (Z.eqb_spec (strnicmp (str_val a) (str_val b)
      (if (length (str_val a) <? length (str_val b))%nat then length (str_val a) else length (str_val b))) 0);
      [|done]. destruct (_ <? _)%nat; [done|]. by destruct (Nat.eqb_spec (length (str_val a)) (length (str_val b))). }
  rewrite Hl, Nat.ltb_irrefl, Nat.eqb_refl in H.
  assert (Hc : strnicmp (str_val a) (str_val b) (length (str_val b)) = 0).
  { destruct (Nat.eqb_spec (length (str_val b)) 0) as [E|]; [rewrite E; by destruct (str_val a)|].
    destruct (Z.eqb_spec (strnicmp (str_val a) (str_val b) (length (str_val b))) 0); done. }
  apply same_name_intro; [done|]. symmetry. by apply strnicmp_zero.
Qed.

Definition same_query (a b : pj_dns_parsed_query) : Prop :=
  same_name (q_name a) (q_name b) /\ q_type a = q_type b /\ q_dnsclass a = q_dnsclass b.

Definition same_rdata (a b : rr_data) : Prop :=
  match a, b with
  | Rd_none, Rd_none => True
  | Rd_a x, Rd_a y => x = y
  | Rd_aaaa x, Rd_aaaa y => x = y
  | Rd_name x, Rd_name y => str_val x = str_val y
  | Rd_srv p w o x, Rd_srv p' w' o' y => p = p' /\ w = w' /\ o = o' /\ same_name x y
  | _, _ => False
  end.

Definition same_rr (a b : pj_dns_parsed_rr) : Prop :=
  same_name (rr_name a) (rr_name b) /\ rr_type a = rr_type b /\ rr_dnsclass a = rr_dnsclass b /\ rr_ttl a = rr_ttl b /\
  rr_rdlength a = rr_rdlength b /\ rr_raw a = rr_raw b /\ same_rdata (rr_rdata a) (rr_rdata b).

(** The member of the union is the one of the type. *)
Definition rdata_wf (type : Z) (rd : rr_data) : Prop :=
  match rd with
  | Rd_srv _ _ _ target => type = PJ_DNS_TYPE_SRV /\ str_ok target
  | Rd_name name => is_name_type type = true /\ str_ok name
  | _ => is_name_type type = false /\ type <> PJ_DNS_TYPE_SRV
  end.

Definition rr_wf (r : pj_dns_parsed_rr) : Prop :=
  str_ok (rr_name r) /\ rdata_wf (rr_type r) (rr_rdata r) /\
  (forall data, rr_raw r = Some data -> Z.of_nat (length data) = rr_rdlength r).

(** The header counts the records of a packet, whose strings are within their
    buffers. *)
Record packet_wf (p : pj_dns_parsed_packet) : Prop := {
  pwf_qd : hdr_qdcount (pkt_hdr p) = Z.of_nat (length (pkt_q p));
  pwf_an : hdr_anscount (pkt_hdr p) = Z.of_nat (length (pkt_ans p));
  pwf_ns : hdr_nscount (pkt_hdr p) = Z.of_nat (length (pkt_ns p));
  pwf_ar : hdr_arcount (pkt_hdr p) = Z.of_nat (length (pkt_arr p));
  pwf_q : Forall (fun q => str_ok (q_name q)) (pkt_q p);
  pwf_ans : Forall rr_wf (pkt_ans p);
  pwf_nss : Forall rr_wf (pkt_ns p);
  pwf_arr : Forall rr_wf (pkt_arr p)
}.

Lemma section_forall {A} (R : Z -> A -> Z -> Prop) (P : A -> Prop) p xs e :
  (forall p x n, R p x n -> P x) -> section_at R p xs e -> Forall P xs.
Proof. intros H. induction 1; constructor; eauto. Qed.

Lemma known_type_false type : known_type type = false -> is_name_type type = false /\ type <> PJ_DNS_TYPE_SRV.
Proof.
  unfold known_type, is_name_type. intros H. split; [|by intros ->].
  destruct (_ =? PJ_DNS_TYPE_CNAME) eqn:?, (_ =? PJ_DNS_TYPE_NS) eqn:?, (_ =? PJ_DNS_TYPE_PTR) eqn:?; try done;
    by rewrite ?orb_true_r in H.
Qed.

Lemma rr_at_wf pkt p r n : rr_at pkt p r n -> rr_wf r.
Proof.
  intros (m & [Hn _] & _ & _ & _ & _ & _ & _ & Hrd). split; [done|]. unfold rdata_wf.
  destruct Hrd as [a -> _|a -> _|s k Ht [Hs _]|pr we po s k Ht _ _ _ [Hs _]|raw Hk Hr]; try by split.
  split; [by apply known_type_false|]. intros data [= <-]. by apply bytes_at_length in Hr.
Qed.

(** What the parser gives is in order. *)
Lemma packet_at_wf pkt p : packet_at pkt p -> packet_wf p.
Proof.
  intros (_ & [C1 _] & [C2 _] & [C3 _] & [C4 _] & p1 & p2 & p3 & p4 & S1 & S2 & S3 & S4).
  split; try done; eapply section_forall; try done; try apply rr_at_wf. by intros ? ? ? [[? _] _ _].
Qed.

Lemma strdup_spec src : str_ok src -> exists dst, strdup fresh src = Some dst /\ str_ok dst /\ str_val dst = str_val src.
Proof.
  intros [H0 Hl]. unfold strdup. destruct (Z.ltb_spec 0 (str_slen src)) as [Hs|Hs].
  - rewrite bytes_at_in by lia. bind_step. change (drop (Z.to_nat 0) (str_buf src)) with (str_buf src).
    fold (str_val src). assert (Lv : Z.of_nat (length (str_val src)) = str_slen src) by (unfold str_val; rewrite length_take; lia).
    pose proof (Hfresh (str_slen src) H0) as Lf. rewrite write_at_in by lia. bind_step. rewrite take_0, drop_ge, app_nil_r by lia.
    eexists. split; [done|]. split; [split; cbn [str_slen str_buf app]; lia|].
    unfold str_val at 1. cbn [str_slen str_buf app]. apply take_ge. lia.
  - rewrite (proj2 (Z.ltb_ge (str_slen src) 0)) by lia. exists src. by destruct src.
Qed.

Lemma find_name_same nt src x : Forall str_ok nt -> find_name nt src = Some x -> str_ok x /\ same_name src x.
Proof.
  induction 1 as [|y nt Hok Hnt IH]; [done|]. cbn [find_name].
  destruct (Z.eqb_spec (pj_stricmp (str_val y) (str_val src)) 0) as [E|]; [|done].
  intros [= <-]. split; [done|]. by apply stricmp_same.
Qed.

Lemma apply_name_table_spec nt src : Forall str_ok nt -> str_ok src -> exists nt' dst,
  apply_name_table fresh nt src = Some (nt', dst) /\ Forall str_ok nt' /\ same_name src dst.
Proof.
  intros Hnt Hok. unfold apply_name_table. destruct (find_name nt src) as [x|] eqn:E.
  - apply find_name_same in E as [Hx Hs]; [|done]. eauto.
  - destruct (strdup_spec src Hok) as (dst & -> & Hd & Hv). bind_step. eexists _, dst. split; [done|].
    split; [|apply same_name_intro; by rewrite Hv].
    destruct (_ <? _); [|done]. apply Forall_app. split; [done|by constructor].
Qed.

Lemma copy_query_spec nt q : Forall str_ok nt -> str_ok (q_name q) -> exists nt' q',
  copy_query fresh nt q = Some (nt', q') /\ Forall str_ok nt' /\ same_query q q'.
Proof.
  intros Hnt Hq. unfold copy_query. destruct (apply_name_table_spec nt (q_name q) Hnt Hq) as (nt' & dst & -> & Hnt' & Hs).
  rewrite bind_some_eq. cbv beta iota. eexists _, _. split; [done|]. split; [done|]. by split.
Qed.

Lemma copy_rdata_spec nt type rd : Forall str_ok nt -> rdata_wf type rd -> exists nt' rd',
  copy_rdata fresh nt type rd = Some (nt', rd') /\ Forall str_ok nt' /\ same_rdata rd rd'.
Proof.
  intros Hnt Hrd. unfold copy_rdata. fold (is_name_type type). destruct rd as [|a|a|name|pr we po target]; cbn [rdata_wf] in Hrd.
  1-3: destruct Hrd as [-> Hne]; rewrite (proj2 (Z.eqb_neq _ _) Hne); by eexists _, _.
  - destruct Hrd as [Ht Hok]. rewrite Ht. destruct (Z.eqb_spec type PJ_DNS_TYPE_SRV) as [->|_]; [done|].
    destruct (strdup_spec name Hok) as (dst & -> & _ & Hv). bind_step. eexists _, _. split; [done|]. by split.
  - destruct Hrd as [-> Hc]. rewrite Z.eqb_refl. destruct (apply_name_table_spec nt target Hnt Hc) as (nt' & dst & -> & Hnt' & Hs).
    rewrite bind_some_eq. cbv beta iota. by eexists _, _.
Qed.

Lemma copy_rr_spec nt r : Forall str_ok nt -> rr_wf r -> exists nt' r',
  copy_rr fresh nt r = Some (nt', r') /\ Forall str_ok nt' /\ same_rr r r'.
Proof.
  intros Hnt (Hn & Hrd & Hraw). unfold copy_rr.
  destruct (apply_name_table_spec nt (rr_name r) Hnt Hn) as (nt1 & name & -> & Hnt1 & Hs1). rewrite bind_some_eq. cbv beta iota.
  assert (E : (match rr_raw r with
    | Some data => bs ← bytes_at data 0 (rr_rdlength r); buf ← write_at (fresh (rr_rdlength r)) 0 bs; Some (Some buf)
    | None => Some None end) = Some (rr_raw r)).
  { destruct (rr_raw r) as [data|]; [|done]. specialize (Hraw data eq_refl). pose proof (Hfresh (rr_rdlength r) ltac:(lia)) as Lf.
    rewrite bytes_at_in by lia. bind_step. rewrite drop_0, take_ge, write_at_in by lia. bind_step.
    by rewrite take_0, drop_ge, app_nil_r by lia. }
  rewrite E. bind_step. destruct (copy_rdata_spec nt1 (rr_type r) (rr_rdata r) Hnt1 Hrd) as (nt2 & rd & -> & Hnt2 & Hs2).
  rewrite bind_some_eq. cbv beta iota. eexists _, _. split; [done|]. split; [done|]. by split_and!.
Qed.

Lemma copy_section_spec {A} (copy : list dns_str -> A -> option (list dns_str * A)) (wf : A -> Prop) same count :
  (forall nt x, Forall str_ok nt -> wf x -> exists nt' x', copy nt x = Some (nt', x') /\ Forall str_ok nt' /\ same x x') ->
  forall nt src, Forall str_ok nt -> Forall wf src -> (count <= length src)%nat -> exists nt' xs,
  copy_section copy count nt src = Some (nt', xs) /\ Forall str_ok nt' /\ Forall2 same (take count src) xs.
Proof.
  intros Hc. induction count as [|count IH]; intros nt src Hnt Hsrc Hl; cbn [copy_section].
  { eexists _, _. split; [done|]. split; [done|constructor]. }
  destruct Hsrc as [|x src Hx Hsrc]; [simpl in Hl; lia|]. destruct (Hc nt x Hnt Hx) as (nt1 & x' & -> & Hnt1 & Hs).
  rewrite bind_some_eq. cbv beta iota. destruct (IH nt1 src Hnt1 Hsrc) as (nt2 & xs & -> & Hnt2 & Hss); [simpl in Hl; lia|].
  rewrite bind_some_eq. cbv beta iota. eexists _, _. split; [done|]. split; [done|by constructor].
Qed.

(** The records of a section that are to be copied. *)
Definition kept {A} (options flag : Z) (l : list A) : list A := if Z.land options flag =? 0 then l else [].

Lemma copied_kept {A} options flag (l : list A) n : n = Z.of_nat (length l) ->
  take (Z.to_nat (copied options flag n)) l = kept options flag l /\ (Z.to_nat (copied options flag n) <= length l)%nat /\
  copied options flag n = Z.of_nat (length (kept options flag l)).
Proof.
  intros ->. unfold copied, kept. destruct (Z.land options flag =? 0).
  - rewrite andb_true_r. destruct (Z.eqb_spec (Z.of_nat (length l)) 0) as [E|_]; cbn [negb].
    + destruct l; [done|simpl in E; lia].
    + rewrite Nat2Z.id, firstn_all. split_and!; [done|lia|done].
  - rewrite andb_false_r. split_and!; [done|simpl; lia|done].
Qed.
End Dup.

(** C24 A packet is duplicated, any packet the parser may have made: the sections
    that are not left out have the same records, and the header counts them; the
    names are those of [pj_stricmp], the same up to the case of the letters if
    they hold no null character, and else of the same length and the same up to
    case before it. *)
Theorem packet_dup_same (fresh : Z -> list Z) p options :
  (forall n, 0 <= n -> Z.of_nat (length (fresh n)) = n) ->
  (forall pkt, packet_at pkt p -> packet_wf p) /\
  let h := pkt_hdr p in
  (packet_wf p -> exists p', pj_dns_packet_dup fresh p options = Some p' /\
  Forall2 same_query (kept options PJ_DNS_NO_QD (pkt_q p)) (pkt_q p') /\
  Forall2 same_rr (kept options PJ_DNS_NO_ANS (pkt_ans p)) (pkt_ans p') /\
  Forall2 same_rr (kept options PJ_DNS_NO_NS (pkt_ns p)) (pkt_ns p') /\
  Forall2 same_rr (kept options PJ_DNS_NO_AR (pkt_arr p)) (pkt_arr p') /\
  pkt_hdr p' = mk_dns_hdr (hdr_id h) (hdr_flags h) (Z.of_nat (length (pkt_q p'))) (Z.of_nat (length (pkt_ans p')))
    (Z.of_nat (length (pkt_ns p'))) (Z.of_nat (length (pkt_arr p')))).
Proof.
  intros Hf. split; [intros pkt; apply packet_at_wf|]. cbv zeta. intros [C1 C2 C3 C4 W1 W2 W3 W4]. unfold pj_dns_packet_dup.
  destruct (copied_kept options PJ_DNS_NO_QD (pkt_q p) _ C1) as (T1 & L1 & N1).
  destruct (copied_kept options PJ_DNS_NO_ANS (pkt_ans p) _ C2) as (T2 & L2 & N2).
  destruct (copied_kept options PJ_DNS_NO_NS (pkt_ns p) _ C3) as (T3 & L3 & N3).
  destruct (copied_kept options PJ_DNS_NO_AR (pkt_arr p) _ C4) as (T4 & L4 & N4). cbv zeta.
  destruct (copy_section_spec (copy_query fresh) (fun q => str_ok (q_name q)) same_query _ (copy_query_spec fresh Hf) [] (pkt_q p)
    ltac:(constructor) W1 L1) as (n1 & q' & -> & Hn1 & S1). rewrite bind_some_eq. cbv beta iota.
  destruct (copy_section_spec (copy_rr fresh) rr_wf same_rr _ (copy_rr_spec fresh Hf) n1 _ Hn1 W2 L2) as (n2 & a' & -> & Hn2 & S2).
  rewrite bind_some_eq. cbv beta iota.
  destruct (copy_section_spec (copy_rr fresh) rr_wf same_rr _ (copy_rr_spec fresh Hf) n2 _ Hn2 W3 L3) as (n3 & ns' & -> & Hn3 & S3).
  rewrite bind_some_eq. cbv beta iota.
  destruct (copy_section_spec (copy_rr fresh) rr_wf same_rr _ (copy_rr_spec fresh Hf) n3 _ Hn3 W4 L4) as (n4 & r' & -> & Hn4 & S4).
  rewrite bind_some_eq. cbv beta iota. rewrite T1 in S1. rewrite T2 in S2. rewrite T3 in S3. rewrite T4 in S4.
  eexists. split; [done|]. cbn [pkt_hdr pkt_q pkt_ans pkt_ns pkt_arr]. split_and!; [done..|].
  by rewrite N1, N2, N3, N4, (Forall2_length _ _ _ S1), (Forall2_length _ _ _ S2), (Forall2_length _ _ _ S3), (Forall2_length _ _ _ S4).
Qed.
