(* ===== verification/DnsExamples.v ===== *)
(** * DNS packets on concrete inputs

    A response with compressed names, the theorems applied to it, and the packets
    and names on which the code differs from what it means to do. *)
From Stdlib Require Import String.
From S2P Require Import Prelude Bytes Hash PjString SockAddr PjStringSpec SockAddrSpec Log Dns DnsSpec.

Definition fresh0 (n : Z) : list Z := replicate (Z.to_nat n) 170.

Lemma fresh0_length n : 0 <= n -> Z.of_nat (length (fresh0 n)) = n.
Proof. intros. unfold fresh0. rewrite length_replicate. lia. Qed.

Lemma octets_check l : forallb (fun b => (0 <=? b) && (b <? 256)) l = true -> octets l.
Proof.
  intros H. apply Forall_forall. intros b Hb. rewrite forallb_forall in H.
  specialize (H b (proj1 (list_elem_of_In l b) Hb)). simpl in H. lia.
Qed.

(** A response to a query for the addresses of [www.pj.org]: an alias, whose name
    is a pointer to the question and whose target ends with a pointer, and the
    address of the target. *)
Definition response : list Z :=
  [18; 52; 129; 128; 0; 1; 0; 2; 0; 0; 0; 0] ++
  [3; 119; 119; 119; 2; 112; 106; 3; 111; 114; 103; 0; 0; 1; 0; 1] ++
  [192; 12; 0; 5; 0; 1; 0; 0; 0; 60; 0; 4; 1; 97; 192; 16] ++
  [192; 40; 0; 1; 0; 1; 0; 0; 0; 60; 0; 4; 10; 0; 0; 1].

Lemma parse_packet_exact_witness : exists r, pj_dns_parse_packet fresh0 response = ret r /\ packet_at response r /\
  map (fun a => str_val (rr_name a)) (pkt_ans r) = [text "www.pj.org"%string; text "a.pj.org"%string].
Proof.
  pose proof (parse_packet_exact fresh0 response fresh0_length ltac:(apply octets_check; reflexivity)) as H.
  destruct (pj_dns_parse_packet fresh0 response) as [[st|r]|] eqn:E; [|exists r; split; [done|]; split; [exact H|]|].
  - vm_compute in E. discriminate.
  - vm_compute in E. apply (inj Some), (inj inr) in E. subst r. vm_compute. reflexivity.
  - vm_compute in E. discriminate.
Defined.

(** A name that points to itself is refused. *)
Example pointer_loop :
  pj_dns_parse_packet fresh0 ([0; 1; 1; 0; 0; 1; 0; 0; 0; 0; 0; 0] ++ [192; 12; 0; 1; 0; 1]) = fail PJLIB_UTIL_EDNSINNAMEPTR.
Proof. vm_compute. reflexivity. Qed.

Definition pj_org : list (list Z) := [text "pj"%string; text "org"%string].

Lemma label_check l : match l with [] => false | _ => true end && forallb (fun c => negb (c =? 46) && (0 <=? c) && (c <? 256)) l
  && (length l <? 192)%nat = true -> label_ok l.
Proof.
  intros H. apply andb_true_iff in H as [[H1 H2]%andb_true_iff H3%Nat.ltb_lt]. rewrite forallb_forall in H2.
  assert (Hc : forall c, c ∈ l -> c <> 46 /\ 0 <= c < 256).
  { intros c Hc. specialize (H2 c (proj1 (list_elem_of_In l c) Hc)). simpl in H2. lia. }
  split_and!; [by destruct l|intros Hi; by destruct (Hc 46 Hi)|done|]. apply Forall_forall. intros c Hi. by apply Hc.
Qed.

Lemma pj_org_ok : Forall label_ok pj_org.
Proof. constructor; [|constructor; [|constructor]]; apply label_check; reflexivity. Qed.

Lemma query_roundtrip_witness : exists packet' n q,
  pj_dns_make_query (replicate 40 0) 40 4660 PJ_DNS_TYPE_SRV (text "pj.org"%string) = Some (PJ_SUCCESS, packet', n) /\
  pj_dns_parse_packet fresh0 (take (Z.to_nat n) packet') = ret (mk_dns_packet (mk_dns_hdr 4660 256 1 0 0 0) [q] [] [] []) /\
  str_val (q_name q) = text "pj.org"%string.
Proof.
  destruct (query_roundtrip fresh0 (replicate 40 0) 40 4660 PJ_DNS_TYPE_SRV pj_org fresh0_length pj_org_ok)
    as (packet' & n & q & E1 & _ & E2 & E3 & _); [lia|done|simpl; lia|].
  exists packet', n, q. split; [exact E1|]. split; [exact E2|exact E3].
Defined.

Lemma make_query_overflows_witness :
  pj_dns_make_query (replicate 22 0) 22 4660 PJ_DNS_TYPE_A (text "pj.org"%string) = None.
Proof.
  apply (make_query_overflows (replicate 22 0) 4660 PJ_DNS_TYPE_A (text "pj"%string) [text "org"%string]);
    [exact pj_org_ok|lia|done|reflexivity].
Defined.

(** Two records for the same name in different letters. *)
Definition srv_packet : pj_dns_parsed_packet :=
  mk_dns_packet (mk_dns_hdr 1 0x8180 1 1 0 1)
    [mk_dns_query (plain (text "_sip.pj.org"%string)) PJ_DNS_TYPE_SRV 1]
    [mk_dns_rr (plain (text "_SIP.pj.org"%string)) PJ_DNS_TYPE_SRV 1 60 14 None (Rd_srv 1 2 5060 (plain (text "a.pj.org"%string)))]
    []
    [mk_dns_rr (plain (text "a.pj.org"%string)) PJ_DNS_TYPE_A 1 60 4 None (Rd_a [10; 0; 0; 1])].

Lemma srv_packet_wf : packet_wf srv_packet.
Proof. split; try reflexivity; repeat constructor; simpl; try lia; done. Qed.

Lemma packet_dup_same_witness : exists p', pj_dns_packet_dup fresh0 srv_packet PJ_DNS_NO_QD = Some p' /\
  pkt_q p' = [] /\ Forall2 same_rr (pkt_ans srv_packet) (pkt_ans p').
Proof.
  destruct (packet_dup_same fresh0 srv_packet PJ_DNS_NO_QD fresh0_length) as [_ H].
  destruct (H srv_packet_wf) as (p' & E & H1 & H2 & _).
  exists p'. split; [exact E|]. split; [|exact H2]. inversion H1. reflexivity.
Defined.

(** ** Where the code differs *)

(** A label of 200 characters is written, and read as a compression pointer. *)
Theorem long_label_is_pointer : exists packet n,
  pj_dns_make_query (replicate 300 0) 300 1 PJ_DNS_TYPE_A (replicate 200 97) = Some (PJ_SUCCESS, packet, n) /\
  pj_dns_parse_packet fresh0 (take (Z.to_nat n) packet) = fail PJLIB_UTIL_EDNSINNAMEPTR.
Proof. eexists _, _. split; vm_compute; reflexivity. Qed.

(** An empty label ends the name early. *)
Theorem empty_label_truncates : exists packet n r,
  pj_dns_make_query (replicate 40 0) 40 1 PJ_DNS_TYPE_A (text "a..b"%string) = Some (PJ_SUCCESS, packet, n) /\
  pj_dns_parse_packet fresh0 (take (Z.to_nat n) packet) = ret r /\ map (fun q => str_val (q_name q)) (pkt_q r) = [text "a"%string].
Proof. eexists _, _, _. split; [vm_compute; reflexivity|]. split; vm_compute; reflexivity. Qed.

(** An address record that says it has eight bytes of data: the next record is
    looked for after four of them. *)
Theorem address_length_ignored :
  let hdr := [0; 1; 129; 128; 0; 0; 0; 2; 0; 0; 0; 0] in
  let rr1 := [0; 0; 1; 0; 1; 0; 0; 0; 60; 0; 8; 10; 0; 0; 1; 1; 120; 1; 121] in
  let rr2 := [0; 0; 1; 0; 1; 0; 0; 0; 60; 0; 4; 10; 0; 0; 2] in
  exists r, pj_dns_parse_packet fresh0 (hdr ++ rr1 ++ rr2) = ret r /\
  map (fun a => str_val (rr_name a)) (pkt_ans r) = [[]; text "x.y"%string].
Proof. eexists. split; vm_compute; reflexivity. Qed.

(** Names that differ behind a null character are taken for the same when a
    packet is duplicated. *)
Theorem null_names_conflated : exists p',
  pj_dns_packet_dup fresh0 (mk_dns_packet (mk_dns_hdr 1 0 2 0 0 0)
    [mk_dns_query (plain [97; 0; 98]) 1 1; mk_dns_query (plain [97; 0; 99]) 1 1] [] [] []) 0 = Some p' /\
  map (fun q => str_val (q_name q)) (pkt_q p') = [[97; 0; 98]; [97; 0; 98]].
Proof. eexists. split; vm_compute; reflexivity. Qed.
