(* ===== verification/UtilText.v ===== *)
(** * Base64 and escaped text

    [pjlib-util/src/pjlib-util/base64.c] and [pjlib-util/src/pjlib-util/string.c]:
    both directions of each, with their buffers, and that the way back gives the
    text that was encoded or escaped. *)
From S2P Require Import Prelude Bytes Hash PjString SockAddr.

(** ** Base64 *)

Definition INV : Z := -1.
Definition PADDING : Z := 61.

(** The letters, the digits and two more. *)
Definition base64_char : list Z := seqZ 65 26 ++ seqZ 97 26 ++ seqZ 48 10 ++ [43; 47].
Definition base64url_char : list Z := seqZ 65 26 ++ seqZ 97 26 ++ seqZ 48 10 ++ [45; 95].

Definition base256_char (c : Z) (url : bool) : Z :=
  if (65 <=? c) && (c <=? 90) then c - 65
  else if (97 <=? c) && (c <=? 122) then c - 97 + 26
  else if (48 <=? c) && (c <=? 57) then c - 48 + 52
  else if (negb url && (c =? 43)) || (url && (c =? 45)) then 62
  else if (negb url && (c =? 47)) || (url && (c =? 95)) then 63
  else INV.

(** The four characters. *)
Definition base256to64 (c1 c2 c3 padding : Z) (url : bool) : option (list Z) :=
  let b64 := if url then base64url_char else base64_char in
  o1 ← b64.[Z.shiftr c1 2];
  o2 ← b64.[Z.lor (Z.shiftl (Z.land c1 0x3) 4) (Z.shiftr (Z.land c2 0xF0) 4)];
  if padding =? 0 then
    o3 ← b64.[Z.lor (Z.shiftl (Z.land c2 0xF) 2) (Z.shiftr (Z.land c3 0xC0) 6)];
    o4 ← b64.[Z.land c3 0x3F];
    Some [o1; o2; o3; o4]
  else if padding =? 1 then
    o3 ← b64.[Z.lor (Z.shiftl (Z.land c2 0xF) 2) (Z.shiftr (Z.land c3 0xC0) 6)];
    Some [o1; o2; o3; PADDING]
  else Some [o1; o2; PADDING; PADDING].

(** In C these are computed in [int]: exact for lengths below 2^29. *)
Definition PJ_BASE256_TO_BASE64_LEN (len : Z) : Z := len * 4 / 3 + 3.
Definition PJ_BASE64_TO_BASE256_LEN (len : Z) : Z := len * 3 / 4.

(** The loop; the input is what is left of it, [po] the offset in the output. *)
Fixpoint encode_loop (n : nat) (input output : list Z) (po : Z) (url : bool) : option (list Z * Z) :=
  match n, input with
  | _, [] => Some (output, po)
  | O, _ => None
  | S n, [c1] => g ← base256to64 c1 0 0 2 url; output ← write_at output po g; Some (output, po + 4)
  | S n, [c1; c2] => g ← base256to64 c1 c2 0 1 url; output ← write_at output po g; Some (output, po + 4)
  | S n, c1 :: c2 :: c3 :: input =>
      g ← base256to64 c1 c2 c3 0 url;
      output ← write_at output po g;
      encode_loop n input output (po + 4) url
  end.

(** The status, the output and its length. *)
Definition b64_encode (input output : list Z) (out_len : Z) (url : bool) : option (Z * list Z * Z) :=
  if negb (PJ_BASE256_TO_BASE64_LEN (Z.of_nat (length input)) <=? out_len) then Some (PJ_ETOOSMALL, output, out_len)
  else '(output, po) ← encode_loop (length input) input output 0 url; Some (PJ_SUCCESS, output, po).

Definition pj_base64_encode (input output : list Z) (out_len : Z) := b64_encode input output out_len false.
Definition pj_base64url_encode (input output : list Z) (out_len : Z) := b64_encode input output out_len true.

(** The length without the padding at the end. *)
Fixpoint trim_padding (len : nat) (buf : list Z) : nat :=
  match len with
  | O => O
  | S l => if bool_decide (buf !! l = Some PADDING) then trim_padding l buf else len
  end.

(** The [do] loop: one value, and what is left of the input. *)
Fixpoint next_value (c : Z) (rest : list Z) (url : bool) : Z * list Z :=
  let v := base256_char c url in
  match rest with
  | [] => (v, [])
  | c' :: rest' => if v =? INV then next_value c' rest' url else (v, rest)
  end.

(** At most [k] values. *)
Fixpoint fill_group (k : nat) (rest : list Z) (url : bool) : list Z * list Z :=
  match k, rest with
  | S k, c :: rest =>
      let '(v, rest) := next_value c rest url in
      let '(vs, rest) := fill_group k rest url in (v :: vs, rest)
  | _, _ => ([], rest)
  end.

Definition byte1 (c0 c1 : Z) : Z := u8 (Z.lor (Z.shiftl c0 2) (Z.shiftr (Z.land c1 0x30) 4)).
Definition byte2 (c1 c2 : Z) : Z := u8 (Z.lor (Z.shiftl (Z.land c1 0x0F) 4) (Z.shiftr (Z.land c2 0x3C) 2)).
Definition byte3 (c2 c3 : Z) : Z := u8 (Z.lor (Z.shiftl (Z.land c2 0x03) 6) (Z.land c3 0x3F)).

Fixpoint decode_loop (n : nat) (rest out : list Z) (j : Z) (url : bool) : option (list Z * Z) :=
  match n, rest with
  | _, [] => Some (out, j)
  | O, _ => None
  | S n, _ =>
      let '(c, rest) := fill_group 4 rest url in
      match c with
      | [c0; c1; c2; c3] =>
          out ← write_at out j [byte1 c0 c1];
          out ← write_at out (j + 1) [byte2 c1 c2];
          out ← write_at out (j + 2) [byte3 c2 c3];
          decode_loop n rest out (j + 3) url
      | [c0; c1; c2] =>
          out ← write_at out j [byte1 c0 c1];
          out ← write_at out (j + 1) [byte2 c1 c2];
          Some (out, j + 2)
      | [c0; c1] => out ← write_at out j [byte1 c0 c1]; Some (out, j + 1)
      | _ => Some (out, j)
      end
  end.

Definition b64_decode (input out : list Z) (out_len : Z) (url : bool) : option (Z * list Z * Z) :=
  let len := trim_padding (length input) input in
  if negb (PJ_BASE64_TO_BASE256_LEN (Z.of_nat len) <=? out_len) then Some (PJ_ETOOSMALL, out, out_len)
  else '(out, j) ← decode_loop len (take len input) out 0 url; Some (PJ_SUCCESS, out, j).

Definition pj_base64_decode (input out : list Z) (out_len : Z) := b64_decode input out out_len false.
Definition pj_base64url_decode (input out : list Z) (out_len : Z) := b64_decode input out out_len true.

(** ** Escaped text *)

(** A ["%"] and two characters to come. *)
Definition hex_pair (a b : Z) : Z := u8 (Z.shiftl (pj_hex_digit_to_val a) 4 + pj_hex_digit_to_val b).

(** The loop of both ways to unescape; [check] is whether the two characters must
    be hexadecimal digits. *)
Fixpoint unescape_loop (check : bool) (n : nat) (src dst : list Z) (j : Z) : option (list Z * Z) :=
  match n, src with
  | _, [] => Some (dst, j)
  | O, _ => None
  | S n, c :: src' =>
      match src' with
      | a :: b :: src'' =>
          if (c =? 37) && (negb check || (pj_isxdigit a && pj_isxdigit b)) then
            dst ← write_at dst j [hex_pair a b]; unescape_loop check n src'' dst (j + 1)
          else dst ← write_at dst j [c]; unescape_loop check n src' dst (j + 1)
      | _ => dst ← write_at dst j [c]; unescape_loop check n src' dst (j + 1)
      end
  end.

(** The string: the source itself if it has no ["%"]. *)
Definition pj_str_unescape (fresh : Z -> list Z) (src_str : list Z) : option (list Z) :=
  match pj_strchr src_str 37 with
  | None => Some src_str
  | Some _ =>
      '(dst, j) ← unescape_loop true (length src_str) src_str (fresh (Z.of_nat (length src_str))) 0;
      Some (take (Z.to_nat j) dst)
  end.

(** The buffer of the destination and the length. *)
Definition pj_strcpy_unescape (dst src_str : list Z) : option (list Z * Z) :=
  unescape_loop false (length src_str) src_str dst 0.

(** [pj_val_to_hex_digit]: the two characters. *)
Definition hex_chars (value : Z) : list Z :=
  [hex_digit (Z.shiftr (Z.land value 0xF0) 4); hex_digit (Z.land value 0x0F)].

Section Escape.
(** [pj_cis_match] on the unreserved characters. *)
Context (unres : Z -> bool).

(** The buffer, the offset and what is left of the source. *)
Fixpoint escape_loop (src dst : list Z) (d dst_end : Z) : option (list Z * Z * list Z) :=
  match src with
  | [] => Some (dst, d, [])
  | c :: src' =>
      if negb (d =? dst_end) then
        if unres c then dst ← write_at dst d [c]; escape_loop src' dst (d + 1) dst_end
        else if d <? dst_end - 2 then
          dst ← write_at dst d [37];
          dst ← write_at dst (d + 1) (hex_chars c);
          escape_loop src' dst (d + 3) dst_end
        else Some (dst, d, src)
      else Some (dst, d, src)
  end.

(** The buffer and the length, or -1. *)
Definition pj_strncpy2_escape (dst src_str : list Z) (max : Z) : option (list Z * Z) :=
  if max <? Z.of_nat (length src_str) then Some (dst, -1)
  else
    '(dst, d, rest) ← escape_loop src_str dst 0 max;
    Some (dst, match rest with [] => d | _ => -1 end).

(** The buffer, the length, and whether the result is not NULL. *)
Definition pj_strncpy_escape (dst src_str : list Z) (max : Z) : option (list Z * Z * bool) :=
  '(dst, slen) ← pj_strncpy2_escape dst src_str max;
  Some (dst, slen, negb (slen <? 0)).
End Escape.

(** ** Base64 there and back *)

Section Base64.
Context (url : bool).

(** A character and its value. *)
Definition valid (x v : Z) : Prop := base256_char x url = v /\ 0 <= v < 64.

(** The characters of bytes, in groups, and the length of the padding. *)
Inductive coded : list Z -> list Z -> nat -> Prop :=
  | coded_nil : coded [] [] 0
  | coded_1 c1 x1 x2 v1 v2 : valid x1 v1 -> valid x2 v2 -> byte1 v1 v2 = c1 -> coded [c1] [x1; x2] 2
  | coded_2 c1 c2 x1 x2 x3 v1 v2 v3 : valid x1 v1 -> valid x2 v2 -> valid x3 v3 -> byte1 v1 v2 = c1 -> byte2 v2 v3 = c2 ->
      coded [c1; c2] [x1; x2; x3] 1
  | coded_3 c1 c2 c3 x1 x2 x3 x4 v1 v2 v3 v4 input body pad :
      valid x1 v1 -> valid x2 v2 -> valid x3 v3 -> valid x4 v4 ->
      byte1 v1 v2 = c1 -> byte2 v2 v3 = c2 -> byte3 v3 v4 = c3 -> coded input body pad ->
      coded (c1 :: c2 :: c3 :: input) (x1 :: x2 :: x3 :: x4 :: body) pad.

Definition table : list Z := if url then base64url_char else base64_char.

Definition table_good (v : Z) : bool :=
  negb (v <? 64) || match table.[v] with Some x => base256_char x url =? v | None => false end.

Lemma table_valid v : 0 <= v < 64 -> exists x, table.[v] = Some x /\ valid x v.
Proof.
  intros Hv. assert (Ha : forallb table_good (seqZ 0 256) = true) by (unfold table_good, table; destruct url; vm_compute; reflexivity).
  pose proof (all_bytes _ Ha v ltac:(lia)) as H. unfold table_good in H. rewrite (proj2 (Z.ltb_lt _ _)) in H by lia.
  cbn [negb orb] in H. destruct (table.[v]) as [x|]; [|done]. exists x. split; [done|]. split; [by apply Z.eqb_eq|done].
Qed.

(** The indices of the four characters of three bytes. *)
Definition idx1 (c1 : Z) : Z := Z.shiftr c1 2.
Definition idx2 (c1 c2 : Z) : Z := Z.lor (Z.shiftl (Z.land c1 0x3) 4) (Z.shiftr (Z.land c2 0xF0) 4).
Definition idx3 (c2 c3 : Z) : Z := Z.lor (Z.shiftl (Z.land c2 0xF) 2) (Z.shiftr (Z.land c3 0xC0) 6).
Definition idx4 (c3 : Z) : Z := Z.land c3 0x3F.

Definition small (v : Z) : bool := (0 <=? v) && (v <? 64).

(** Two bytes: their part of the bits, whatever the next byte. *)
Definition pair_good (a b : Z) : bool :=
  small (idx1 a) && small (idx2 a b) && small (idx3 a b) && small (idx4 b) && (byte1 (idx1 a) (idx2 a b) =? a)
  && (byte3 (idx3 a b) (idx4 b) =? b).

Definition middle_good (b : Z) : bool :=
  forallb (fun a => forallb (fun c => byte2 (idx2 a b) (idx3 b c) =? b) [0; 64; 128; 192]) [0; 1; 2; 3].

Lemma pair_all : forallb (fun a => forallb (pair_good a) (seqZ 0 256)) (seqZ 0 256) = true.
Proof. vm_compute. reflexivity. Qed.

Lemma middle_all : forallb middle_good (seqZ 0 256) = true.
Proof. vm_compute. reflexivity. Qed.

Lemma pair_spec a b : 0 <= a < 256 -> 0 <= b < 256 ->
  0 <= idx1 a < 64 /\ 0 <= idx2 a b < 64 /\ 0 <= idx3 a b < 64 /\ 0 <= idx4 b < 64 /\
  byte1 (idx1 a) (idx2 a b) = a /\ byte3 (idx3 a b) (idx4 b) = b.
Proof.
  intros Ha Hb. pose proof (all_bytes _ (all_bytes _ pair_all a Ha) b Hb) as H. unfold pair_good, small in H. lia.
Qed.

Lemma middle_spec a b c : 0 <= a < 256 -> 0 <= b < 256 -> 0 <= c < 256 -> byte2 (idx2 a b) (idx3 b c) = b.
Proof.
  intros Ha Hb Hc. pose proof (all_bytes _ middle_all b Hb) as H. unfold middle_good in H. rewrite forallb_forall in H.
  assert (Ea : Z.land a 3 = a mod 4) by (change 3 with (Z.ones 2); by rewrite Z.land_ones).
  assert (Ec : Z.land c 0xC0 = 64 * (c / 64)).
  { assert (Hg : forallb (fun c => Z.land c 0xC0 =? 64 * (c / 64)) (seqZ 0 256) = true) by (vm_compute; reflexivity).
    by apply Z.eqb_eq, (all_bytes _ Hg). }
  specialize (H (Z.land a 3)). rewrite forallb_forall in H. specialize (H ltac:(rewrite Ea; simpl; div_lia) (Z.land c 0xC0)).
  apply Z.eqb_eq in H; [|rewrite Ec; simpl; div_lia].
  unfold idx2, idx3 in *. by rewrite <- !Z.land_assoc in H.
Qed.

Definition byte (c : Z) : Prop := 0 <= c < 256.

Lemma group_3 c1 c2 c3 : byte c1 -> byte c2 -> byte c3 -> exists x1 x2 x3 x4 v1 v2 v3 v4,
  base256to64 c1 c2 c3 0 url = Some [x1; x2; x3; x4] /\ valid x1 v1 /\ valid x2 v2 /\ valid x3 v3 /\ valid x4 v4 /\
  byte1 v1 v2 = c1 /\ byte2 v2 v3 = c2 /\ byte3 v3 v4 = c3.
Proof.
  intros H1 H2 H3. destruct (pair_spec c1 c2 H1 H2) as (I1 & I2 & _ & _ & B1 & _).
  destruct (pair_spec c2 c3 H2 H3) as (_ & _ & I3 & I4 & _ & B3). pose proof (middle_spec c1 c2 c3 H1 H2 H3) as B2.
  destruct (table_valid _ I1) as (x1 & E1 & V1). destruct (table_valid _ I2) as (x2 & E2 & V2).
  destruct (table_valid _ I3) as (x3 & E3 & V3). destruct (table_valid _ I4) as (x4 & E4 & V4).
  exists x1, x2, x3, x4. do 4 eexists. split; [|by split_and!]. unfold base256to64. fold table.
  fold (idx1 c1) (idx2 c1 c2) (idx3 c2 c3) (idx4 c3). rewrite E1. bind_step. rewrite E2. bind_step. change (0 =? 0) with true.
  cbv iota. rewrite E3. bind_step. rewrite E4. by bind_step.
Qed.

Lemma group_2 c1 c2 : byte c1 -> byte c2 -> exists x1 x2 x3 v1 v2 v3,
  base256to64 c1 c2 0 1 url = Some [x1; x2; x3; PADDING] /\ valid x1 v1 /\ valid x2 v2 /\ valid x3 v3 /\
  byte1 v1 v2 = c1 /\ byte2 v2 v3 = c2.
Proof.
  intros H1 H2. assert (H3 : byte 0) by (by unfold byte). destruct (pair_spec c1 c2 H1 H2) as (I1 & I2 & _ & _ & B1 & _).
  destruct (pair_spec c2 0 H2 H3) as (_ & _ & I3 & _). pose proof (middle_spec c1 c2 0 H1 H2 H3) as B2.
  destruct (table_valid _ I1) as (x1 & E1 & V1). destruct (table_valid _ I2) as (x2 & E2 & V2).
  destruct (table_valid _ I3) as (x3 & E3 & V3).
  exists x1, x2, x3. do 3 eexists. split; [|by split_and!]. unfold base256to64. fold table.
  fold (idx1 c1) (idx2 c1 c2) (idx3 c2 0). rewrite E1. bind_step. rewrite E2. bind_step.
  change (1 =? 0) with false. change (1 =? 1) with true. cbv iota. rewrite E3. by bind_step.
Qed.

Lemma group_1 c1 : byte c1 -> exists x1 x2 v1 v2,
  base256to64 c1 0 0 2 url = Some [x1; x2; PADDING; PADDING] /\ valid x1 v1 /\ valid x2 v2 /\ byte1 v1 v2 = c1.
Proof.
  intros H1. assert (H2 : byte 0) by (by unfold byte). destruct (pair_spec c1 0 H1 H2) as (I1 & I2 & _ & _ & B1 & _).
  destruct (table_valid _ I1) as (x1 & E1 & V1). destruct (table_valid _ I2) as (x2 & E2 & V2).
  exists x1, x2. do 2 eexists. split; [|by split_and!]. unfold base256to64. fold table.
  fold (idx1 c1) (idx2 c1 0). rewrite E1. bind_step. rewrite E2. by bind_step.
Qed.

(** The length of the text. *)
Definition text_len (n : nat) : Z := 4 * ((Z.of_nat n + 2) / 3).

Lemma text_len_3 n : text_len (3 + n) = 4 + text_len n.
Proof. unfold text_len. replace (Z.of_nat (3 + n) + 2) with (Z.of_nat n + 2 + 1 * 3) by lia. rewrite Z.div_add by lia. lia. Qed.

Lemma encode_loop_coded n input pre tl po : (length input <= n)%nat -> octets input -> po = Z.of_nat (length pre) ->
  text_len (length input) <= Z.of_nat (length tl) -> exists body pad,
  let t := body ++ replicate pad PADDING in
  encode_loop n input (pre ++ tl) po url = Some ((pre ++ t) ++ drop (length t) tl, po + Z.of_nat (length t)) /\
  coded input body pad /\ Z.of_nat (length t) = text_len (length input).
Proof.
  revert input pre tl po. induction n as [|n IH]; intros input pre tl po Hn Ho Hp Ht.
  { destruct input; [|simpl in Hn; lia]. exists [], 0%nat. cbn. rewrite app_nil_r, drop_0, Z.add_0_r. split; [done|].
    split; [constructor|done]. }
  destruct input as [|c1 [|c2 [|c3 input]]].
  - exists [], 0%nat. cbn. rewrite app_nil_r, drop_0, Z.add_0_r. split; [done|]. split; [constructor|done].
  - unfold octets in Ho. rewrite Forall_singleton in Ho. destruct (group_1 c1 Ho) as (x1 & x2 & v1 & v2 & E & V1 & V2 & B1).
    exists [x1; x2], 2%nat. cbn [encode_loop]. rewrite E. bind_step. change (text_len (length [c1])) with 4 in *.
    rewrite write_app by (done || (simpl; lia)). bind_step. split; [done|]. split; [by econstructor|done].
  - unfold octets in Ho. rewrite !Forall_cons in Ho. destruct Ho as (H1 & H2 & _).
    destruct (group_2 c1 c2 H1 H2) as (x1 & x2 & x3 & v1 & v2 & v3 & E & V1 & V2 & V3 & B1 & B2).
    exists [x1; x2; x3], 1%nat. cbn [encode_loop]. rewrite E. bind_step. change (text_len (length [c1; c2])) with 4 in *.
    rewrite write_app by (done || (simpl; lia)). bind_step. split; [done|]. split; [by econstructor|done].
  - unfold octets in Ho. rewrite !Forall_cons in Ho. destruct Ho as (H1 & H2 & H3 & Ho).
    destruct (group_3 c1 c2 c3 H1 H2 H3) as (x1 & x2 & x3 & x4 & v1 & v2 & v3 & v4 & E & V1 & V2 & V3 & V4 & B1 & B2 & B3).
    change (length (c1 :: c2 :: c3 :: input)) with (3 + length input)%nat in *. rewrite text_len_3 in *.
    assert (Hpos : 0 <= text_len (length input)) by (unfold text_len; div_lia).
    cbn [encode_loop]. rewrite E. bind_step. rewrite write_app by (done || (simpl; lia)). bind_step.
    destruct (IH input (pre ++ [x1; x2; x3; x4]) (drop 4 tl) (po + 4)) as (body & pad & E2 & Hc & L);
      [lia|done|rewrite length_app; simpl; lia|rewrite length_drop; lia|].
    exists (x1 :: x2 :: x3 :: x4 :: body), pad. cbv zeta in E2, L |- *. change (length [x1; x2; x3; x4]) with 4%nat. rewrite E2.
    split; [|split; [by econstructor|]].
    + rewrite drop_drop, <- !app_assoc. cbn [app length]. do 2 f_equal. rewrite Nat2Z.inj_succ. lia.
    + cbn [app length]. lia.
Qed.

(** ** The way back *)

Lemma next_valid x v rest : valid x v -> next_value x rest url = (v, rest).
Proof.
  intros [E Hv]. destruct rest as [|c rest]; cbn [next_value]; rewrite E; [done|].
  unfold INV. by rewrite (proj2 (Z.eqb_neq v (-1))) by lia.
Qed.

Lemma decode_coded input body pad : coded input body pad -> forall n pre tl j, (length body <= n)%nat ->
  j = Z.of_nat (length pre) -> (length input <= length tl)%nat ->
  decode_loop n body (pre ++ tl) j url = Some ((pre ++ input) ++ drop (length input) tl, j + Z.of_nat (length input)).
Proof.
  induction 1 as [|c1 x1 x2 v1 v2 V1 V2 B1|c1 c2 x1 x2 x3 v1 v2 v3 V1 V2 V3 B1 B2|
    c1 c2 c3 x1 x2 x3 x4 v1 v2 v3 v4 input body pad V1 V2 V3 V4 B1 B2 B3 Hc IH]; intros n pre tl j Hn Hj Ht.
  - destruct n; cbn [decode_loop length]; by rewrite app_nil_r, drop_0, Z.add_0_r.
  - destruct n as [|n]; [simpl in Hn; lia|]. cbn [decode_loop fill_group].
    rewrite (next_valid _ _ _ V1). cbn [fill_group]. rewrite (next_valid _ _ _ V2). cbn [fill_group]. cbv iota.
    rewrite B1. rewrite write_app by (done || (simpl in *; lia)). by bind_step.
  - destruct n as [|n]; [simpl in Hn; lia|]. cbn [decode_loop fill_group].
    rewrite (next_valid _ _ _ V1). cbn [fill_group]. rewrite (next_valid _ _ _ V2). cbn [fill_group].
    rewrite (next_valid _ _ _ V3). cbn [fill_group]. cbv iota. rewrite B1, B2.
    rewrite write_app by (done || (simpl in *; lia)). bind_step.
    rewrite write_app by (rewrite ?length_app, ?length_drop; simpl in *; lia). bind_step.
    by rewrite drop_drop, <- !app_assoc.
  - destruct n as [|n]; [simpl in Hn; lia|]. cbn [decode_loop fill_group].
    rewrite (next_valid _ _ _ V1). cbn [fill_group]. rewrite (next_valid _ _ _ V2). cbn [fill_group].
    rewrite (next_valid _ _ _ V3). cbn [fill_group]. rewrite (next_valid _ _ _ V4). cbv iota. rewrite B1, B2, B3.
    rewrite write_app by (done || (simpl in *; lia)). bind_step.
    rewrite write_app by (rewrite ?length_app, ?length_drop; simpl in *; lia). bind_step.
    rewrite write_app by (rewrite ?length_app, ?length_drop; simpl in *; lia). bind_step.
    rewrite IH by (rewrite ?length_app, ?length_drop; simpl in *; lia).
    rewrite !drop_drop, <- !app_assoc. cbn [app length]. do 2 f_equal. lia.
Qed.

Lemma coded_body input body pad : coded input body pad ->
  Forall (fun x => x <> PADDING) body /\ Z.of_nat (length body) * 3 / 4 = Z.of_nat (length input).
Proof.
  assert (Hv : forall x v, valid x v -> x <> PADDING).
  { intros x v [E Hv] ->. assert (base256_char PADDING url = INV) by (by destruct url). unfold INV in *. lia. }
  induction 1 as [|c1 x1 x2 v1 v2 V1 V2 B1|c1 c2 x1 x2 x3 v1 v2 v3 V1 V2 V3 B1 B2|
    c1 c2 c3 x1 x2 x3 x4 v1 v2 v3 v4 input body pad V1 V2 V3 V4 B1 B2 B3 Hc [IH1 IH2]].
  1-3: split; [repeat constructor; eauto|done].
  split; [repeat constructor; eauto|]. cbn [length].
  replace (Z.of_nat (S (S (S (S (length body))))) * 3) with (Z.of_nat (length body) * 3 + 3 * 4) by lia.
  rewrite Z.div_add by lia. lia.
Qed.

Lemma trim_body body pad : Forall (fun x => x <> PADDING) body ->
  trim_padding (length (body ++ replicate pad PADDING)) (body ++ replicate pad PADDING) = length body.
Proof.
  intros Hb. rewrite length_app, length_replicate.
  assert (H : forall k, (k <= pad)%nat -> trim_padding (length body + k) (body ++ replicate pad PADDING) = length body);
    [|by apply H].
  induction k as [|k IH]; intros Hk.
  - rewrite Nat.add_0_r. destruct (length body) as [|l] eqn:L; [done|]. cbn [trim_padding].
    rewrite bool_decide_eq_false_2; [done|]. rewrite lookup_app_l by lia. intros E. rewrite Forall_lookup in Hb. by apply Hb in E.
  - rewrite Nat.add_succ_r. cbn [trim_padding]. rewrite bool_decide_eq_true_2; [apply IH; lia|].
    rewrite lookup_app_r by lia. apply lookup_replicate_2. lia.
Qed.

(** ** Any text *)

(** A group takes at least as many characters as it has values, and is full
    unless the text ends. *)
Lemma next_value_length x rest v rest' : next_value x rest url = (v, rest') -> (length rest' <= length rest)%nat.
Proof.
  revert x v. induction rest as [|c rest IH]; intros x v; cbn [next_value]; [by intros [= <- <-]|].
  destruct (_ =? _); [|by intros [= <- <-]]. intros E%IH. simpl. lia.
Qed.

Lemma fill_group_length k rest vs rest' : fill_group k rest url = (vs, rest') ->
  (length vs + length rest' <= length rest)%nat /\ (length vs <= k)%nat /\ ((length vs < k)%nat -> rest' = []).
Proof.
  revert rest vs rest'. induction k as [|k IH]; intros rest vs rest' E; [cbn in E; destruct rest; injection E as <- <-; simpl; lia|].
  destruct rest as [|c rest]; [injection E as <- <-; simpl; split_and!; [lia|lia|done]|]. cbn [fill_group] in E.
  destruct (next_value c rest url) as [v rest1] eqn:E1. apply next_value_length in E1.
  destruct (fill_group k rest1 url) as [vs1 rest2] eqn:E2. injection E as <- <-. apply IH in E2 as (H1 & H2 & H3).
  simpl. split_and!; [lia|lia|]. intros. apply H3. lia.
Qed.

Lemma decode_loop_fits n rest out j : (length rest <= n)%nat -> 0 <= j ->
  j + Z.of_nat (length rest) * 3 / 4 <= Z.of_nat (length out) ->
  exists out' j', decode_loop n rest out j url = Some (out', j') /\ length out' = length out /\
  0 <= j' <= j + Z.of_nat (length rest) * 3 / 4.
Proof.
  revert rest out j. induction n as [|n IH]; intros rest out j Hn Hj Hl.
  { destruct rest; [|simpl in Hn; lia]. exists out, j. split_and!; [done..|]. change (Z.of_nat (@length Z []) * 3 / 4) with 0. lia. }
  destruct rest as [|c rest].
  { exists out, j. split_and!; [done..|]. change (Z.of_nat (@length Z []) * 3 / 4) with 0. lia. }
  cbn [decode_loop].
  destruct (fill_group 4 (c :: rest) url) as [vs rest'] eqn:E. apply fill_group_length in E as (H1 & H2 & H3).
  assert (Hw : forall o k b, length o = length out -> 0 <= k -> k + 1 <= Z.of_nat (length out) ->
    exists o', write_at o k [b] = Some o' /\ length o' = length out).
  { intros o k b Lo Hk Hb. pose proof (write_at_in o k [b] Hk ltac:(simpl; lia)) as Ew. eexists. split; [exact Ew|].
    by rewrite (write_at_length _ _ _ _ Ew). }
  assert (HL : exists L, L = Z.of_nat (length (c :: rest))) by eauto. destruct HL as [L HL]. rewrite <- HL in *.
  destruct vs as [|c0 [|c1 [|c2 [|c3 [|]]]]]; cbn [length] in *; [..|lia].
  1-2: assert (0 <= L * 3 / 4) by div_lia; exists out, j; split_and!; done || lia.
  - assert (1 <= L * 3 / 4) by div_lia. destruct (Hw out j (byte1 c0 c1)) as (o1 & -> & L1); [done|lia|lia|]. bind_step.
    exists o1, (j + 1). split_and!; [done|done|lia|lia].
  - assert (2 <= L * 3 / 4) by div_lia. destruct (Hw out j (byte1 c0 c1)) as (o1 & -> & L1); [done|lia|lia|]. bind_step.
    destruct (Hw o1 (j + 1) (byte2 c1 c2)) as (o2 & -> & L2); [done|lia|lia|]. bind_step.
    exists o2, (j + 2). split_and!; [done|done|lia|lia].
  - assert (Hr : 3 + Z.of_nat (length rest') * 3 / 4 <= L * 3 / 4) by div_lia.
    assert (Hz : 0 <= Z.of_nat (length rest') * 3 / 4) by div_lia.
    destruct (Hw out j (byte1 c0 c1)) as (o1 & -> & L1); [done|lia|lia|]. bind_step.
    destruct (Hw o1 (j + 1) (byte2 c1 c2)) as (o2 & -> & L2); [done|lia|lia|]. bind_step.
    destruct (Hw o2 (j + 2) (byte3 c2 c3)) as (o3 & -> & L3); [done|lia|lia|]. bind_step.
    destruct (IH rest' o3 (j + 3)) as (o' & j' & -> & L' & Hj'); [lia|lia|lia|].
    exists o', j'. split_and!; [done|lia|lia|lia].
Qed.
End Base64.

Lemma encode_len_enough n : text_len n <= PJ_BASE256_TO_BASE64_LEN (Z.of_nat n).
Proof. unfold text_len, PJ_BASE256_TO_BASE64_LEN. div_lia. Qed.

(** C22 Bytes that are encoded and decoded again, in either alphabet and in buffers of
    the sizes the code asks for, are the same. *)
Theorem base64_roundtrip (url : bool) input output out_len output2 out_len2 :
  octets input -> PJ_BASE256_TO_BASE64_LEN (Z.of_nat (length input)) <= out_len <= Z.of_nat (length output) ->
  Z.of_nat (length input) <= out_len2 <= Z.of_nat (length output2) ->
  exists text n, b64_encode input output out_len url = Some (PJ_SUCCESS, text, n) /\ 0 <= n <= out_len /\
  exists bytes, b64_decode (take (Z.to_nat n) text) output2 out_len2 url =
    Some (PJ_SUCCESS, bytes, Z.of_nat (length input)) /\ take (length input) bytes = input.
Proof.
  intros Ho H1 H2. unfold b64_encode. rewrite (proj2 (Z.leb_le _ _)) by lia. cbn [negb]. cbv iota.
  pose proof (encode_len_enough (length input)) as Hl.
  destruct (encode_loop_coded url (length input) input [] output 0) as (body & pad & E & Hc & L); [done..|lia|].
  cbv zeta in E, L. cbn [app] in E. rewrite E, bind_some_eq. cbv beta iota. rewrite Z.add_0_l. eexists _, _. split; [done|].
  split; [lia|]. rewrite Nat2Z.id, take_app_length. destruct (coded_body _ _ _ _ Hc) as [Hb L3]. unfold b64_decode.
  rewrite trim_body, take_app_length by done. unfold PJ_BASE64_TO_BASE256_LEN. rewrite L3, (proj2 (Z.leb_le _ _)) by lia.
  cbn [negb]. cbv iota zeta. pose proof (decode_coded url _ _ _ Hc (length body) [] output2 0) as Ed. cbn [app length] in Ed.
  rewrite Ed by (done || lia). rewrite bind_some_eq. cbv beta iota. rewrite Z.add_0_l. eexists. split; [done|]. apply take_app_length.
Qed.

(** Any text is decoded within the length given for the output. *)
Theorem base64_decode_safe (url : bool) input out out_len : out_len <= Z.of_nat (length out) ->
  exists status out' n, b64_decode input out out_len url = Some (status, out', n) /\ length out' = length out /\
  (status = PJ_SUCCESS -> 0 <= n <= out_len).
Proof.
  intros Hl. unfold b64_decode. set (len := trim_padding (length input) input). unfold PJ_BASE64_TO_BASE256_LEN.
  destruct (Z.leb_spec (Z.of_nat len * 3 / 4) out_len) as [Ho|Ho]; cbn [negb]; cbv iota zeta.
  2: { do 3 eexists. split; [done|]. by split. }
  pose proof (length_take input len) as Lt.
  destruct (decode_loop_fits url len (take len input) out 0) as (out' & j & E & L & Hj).
  - lia.
  - lia.
  - assert (Z.of_nat (length (take len input)) * 3 / 4 <= Z.of_nat len * 3 / 4) by (apply Z.div_le_mono; lia). lia.
  - rewrite E, bind_some_eq. cbv beta iota. do 3 eexists. split; [done|]. split; [done|]. intros _.
    assert (Z.of_nat (length (take len input)) * 3 / 4 <= Z.of_nat len * 3 / 4) by (apply Z.div_le_mono; lia). lia.
Qed.

(** ** Escaped text there and back *)

Section Escaped.
Context (unres : Z -> bool).

(** A character, or ["%"] and its two digits. *)
Definition escaped_char (c : Z) : list Z := if unres c then [c] else 37 :: hex_chars c.
Definition escaped (src : list Z) : list Z := concat (map escaped_char src).

Definition digits_good (c : Z) : bool :=
  match hex_chars c with
  | [a; b] => (hex_pair a b =? c) && pj_isxdigit a && pj_isxdigit b
  | _ => false
  end.

Lemma digits_good_all : forallb digits_good (seqZ 0 256) = true.
Proof. vm_compute. reflexivity. Qed.

Lemma hex_spec c : 0 <= c < 256 -> exists a b, hex_chars c = [a; b] /\ hex_pair a b = c /\
  pj_isxdigit a = true /\ pj_isxdigit b = true.
Proof.
  intros Hc. pose proof (all_bytes _ digits_good_all c Hc) as H. unfold digits_good in H.
  destruct (hex_chars c) as [|a [|b [|]]]; try done. exists a, b. rewrite !andb_true_iff in H.
  destruct H as [[H1%Z.eqb_eq H2] H3]. done.
Qed.

Lemma escaped_char_length c : 0 <= c < 256 -> length (escaped_char c) = if unres c then 1%nat else 3%nat.
Proof. intros Hc. unfold escaped_char. by destruct (unres c). Qed.

Lemma escaped_length src : octets src -> (length src <= length (escaped src))%nat.
Proof.
  induction 1 as [|c src Hc _ IH]; [done|]. cbn [escaped map concat]. rewrite length_app, escaped_char_length by done.
  unfold escaped in IH. destruct (unres c); simpl; lia.
Qed.

(** What is copied, if it fits; and else some of the source is left. *)
Lemma escape_loop_spec src pre tl d dst_end : octets src -> d = Z.of_nat (length pre) -> d <= dst_end ->
  dst_end <= Z.of_nat (length (pre ++ tl)) ->
  if d + Z.of_nat (length (escaped src)) <=? dst_end then
    escape_loop unres src (pre ++ tl) d dst_end =
      Some ((pre ++ escaped src) ++ drop (length (escaped src)) tl, d + Z.of_nat (length (escaped src)), [])
  else exists dst d' rest, escape_loop unres src (pre ++ tl) d dst_end = Some (dst, d', rest) /\ rest <> [].
Proof.
  intros Ho. revert pre tl d. induction Ho as [|c src Hc Ho IH]; intros pre tl d Hd He Hl.
  { cbn [escaped map concat length]. rewrite Z.add_0_r, (proj2 (Z.leb_le _ _) He). cbn [escape_loop].
    by rewrite app_nil_r, drop_0. }
  rewrite length_app in Hl. change (escaped (c :: src)) with (escaped_char c ++ escaped src).
  rewrite !length_app, escaped_char_length by done. cbn [escape_loop].
  destruct (Z.eqb_spec d dst_end) as [Hdd|Hdd]; cbn [negb].
  { rewrite (proj2 (Z.leb_gt _ _)) by (destruct (unres c); lia). eauto. }
  unfold escaped_char. destruct (unres c).
  - rewrite write_app by (done || (simpl; lia)). bind_step.
    specialize (IH (pre ++ [c]) (drop 1 tl) (d + 1)). rewrite !length_app, length_drop in IH. simpl (length [c]) in *.
    specialize (IH ltac:(lia) ltac:(lia) ltac:(lia)).
    replace (d + Z.of_nat (1 + length (escaped src))) with (d + 1 + Z.of_nat (length (escaped src))) by lia.
    destruct (_ <=? _); [|done]. rewrite IH, drop_drop, <- !app_assoc. done.
  - destruct (hex_spec c Hc) as (a & b & Eh2 & _). destruct (Z.ltb_spec d (dst_end - 2)) as [Hr|Hr].
    2: { rewrite (proj2 (Z.leb_gt _ _)) by lia. eauto. }
    rewrite write_app by (done || (simpl; lia)). bind_step. rewrite Eh2.
    rewrite write_app by (rewrite ?length_app, ?length_drop; simpl; lia). bind_step.
    specialize (IH ((pre ++ [37]) ++ [a; b]) (drop 2 (drop 1 tl)) (d + 3)).
    rewrite !length_app, !length_drop in IH. simpl (length [_]) in IH. simpl (length [a; b]) in *.
    specialize (IH ltac:(lia) ltac:(lia) ltac:(lia)).
    replace (d + Z.of_nat (3 + length (escaped src))) with (d + 3 + Z.of_nat (length (escaped src))) by lia.
    destruct (_ <=? _); [|done]. change (length [37]) with 1%nat. rewrite IH, !drop_drop, <- !app_assoc. done.
Qed.

(** A ["%"] of the text is escaped itself. *)
Definition percent_safe (src : list Z) : Prop := unres 37 = false \/ 37 ∉ src.

Lemma percent_safe_cons c src : percent_safe (c :: src) -> (unres c = true -> c <> 37) /\ percent_safe src.
Proof.
  intros [H|H]; [split; [congruence|by left]|]. apply not_elem_of_cons in H as [H1 H2].
  split; [congruence|by right].
Qed.

Lemma unescape_escaped check src n pre tl j : octets src -> percent_safe src -> (length (escaped src) <= n)%nat -> j = Z.of_nat (length pre) ->
  (length src <= length tl)%nat ->
  unescape_loop check n (escaped src) (pre ++ tl) j =
    Some ((pre ++ src) ++ drop (length src) tl, j + Z.of_nat (length src)).
Proof.
  intros Ho Hp. revert n pre tl j. induction Ho as [|c src Hc Ho IH]; intros n pre tl j Hn Hj Hl.
  { destruct n; cbn [unescape_loop escaped map concat length]; by rewrite app_nil_r, drop_0, Z.add_0_r. }
  apply percent_safe_cons in Hp as [Hc' Hp]. specialize (IH Hp).
  change (escaped (c :: src)) with (escaped_char c ++ escaped src) in *. rewrite length_app, escaped_char_length in Hn by done.
  cbn [length] in Hl. unfold escaped_char. destruct (unres c) eqn:Hu.
  - destruct n as [|n]; [lia|]. assert (Hc37 : (c =? 37) = false) by (by apply Z.eqb_neq, Hc').
    assert (E : unescape_loop check (S n) ([c] ++ escaped src) (pre ++ tl) j =
      (dst ← write_at (pre ++ tl) j [c]; unescape_loop check n (escaped src) dst (j + 1))).
    { cbn [unescape_loop app]. rewrite Hc37. cbn [andb]. by destruct (escaped src) as [|? [|]]. }
    rewrite E, write_app by (done || (simpl; lia)). bind_step.
    rewrite IH by (rewrite ?length_app, ?length_drop; simpl; lia). cbn [length]. rewrite drop_drop, <- !app_assoc.
    cbn [app]. do 2 f_equal. lia.
  - destruct (hex_spec c Hc) as (a & b & -> & Ep & Ha & Hb). destruct n as [|n]; [lia|].
    cbn [unescape_loop app]. rewrite Ha, Hb, orb_true_r. change ((37 =? 37) && true) with true. cbv iota. rewrite Ep.
    rewrite write_app by (done || (simpl; lia)). bind_step.
    rewrite IH by (rewrite ?length_app, ?length_drop; simpl; lia). cbn [length]. rewrite drop_drop, <- !app_assoc.
    cbn [app]. do 2 f_equal. lia.
Qed.

Lemma strchr_none s c i : pj_strchr_loop s c i = None -> c ∉ s.
Proof.
  revert i. induction s as [|x s IH]; intros i; [intros _; apply not_elem_of_nil|]. cbn [pj_strchr_loop].
  destruct (Z.eqb_spec x c) as [->|Hx]; [done|]. intros E%IH. apply not_elem_of_cons. by split; [congruence|].
Qed.

Lemma escaped_plain src : 37 ∉ escaped src -> escaped src = src.
Proof.
  induction src as [|c src IH]; [done|]. change (escaped (c :: src)) with (escaped_char c ++ escaped src).
  unfold escaped_char. destruct (unres c); intros H.
  - cbn [app] in *. apply not_elem_of_cons in H as [_ H]. by rewrite IH.
  - exfalso. apply H. cbn [app]. by left.
Qed.
End Escaped.

(** C23 A text is escaped if and only if its escaped form fits into the length
    given.  Unescaped again, by either function, it is the same text, when the
    percent sign is not one of the characters that are left as they are, or
    does not occur in the text. *)
Theorem escape_roundtrip (unres : Z -> bool) dst src max : octets src -> 0 <= max <= Z.of_nat (length dst) ->
  exists dst' n, pj_strncpy2_escape unres dst src max = Some (dst', n) /\
  (n = -1 <-> max < Z.of_nat (length (escaped unres src))) /\
  (n <> -1 -> take (Z.to_nat n) dst' = escaped unres src /\ 0 <= n <= max /\
   (unres 37 = false \/ 37 ∉ src ->
   (forall buf, (length src <= length buf)%nat -> exists buf',
      pj_strcpy_unescape buf (take (Z.to_nat n) dst') = Some (buf', Z.of_nat (length src)) /\ take (length src) buf' = src) /\
   (forall fresh, (forall k, 0 <= k -> Z.of_nat (length (fresh k)) = k) ->
      pj_str_unescape fresh (take (Z.to_nat n) dst') = Some src))).
Proof.
  intros Ho Hm. unfold pj_strncpy2_escape. pose proof (escaped_length unres src Ho) as Hl.
  destruct (Z.ltb_spec max (Z.of_nat (length src))) as [Hs|Hs]; [do 2 eexists; split; [done|]; split; [lia|done]|].
  pose proof (escape_loop_spec unres src [] dst 0 max Ho eq_refl ltac:(lia) ltac:(simpl; lia)) as E.
  rewrite Z.add_0_l in E. destruct (Z.leb_spec (Z.of_nat (length (escaped unres src))) max) as [Hf|Hf].
  2: { destruct E as (dst' & d' & rest & E & Hr). cbn [app] in E. rewrite E, bind_some_eq. cbv beta iota.
       do 2 eexists. split; [done|]. destruct rest; [done|]. split; [lia|done]. }
  cbn [app] in E. rewrite E, bind_some_eq. cbv beta iota. do 2 eexists. split; [done|]. split; [lia|]. intros _.
  rewrite Nat2Z.id, take_app_length. split; [done|]. split; [lia|]. intros Hp. split.
  - intros buf Hb. unfold pj_strcpy_unescape.
    pose proof (unescape_escaped unres false src (length (escaped unres src)) [] buf 0 Ho Hp ltac:(lia) eq_refl Hb) as Eu.
    cbn [app] in Eu. rewrite Eu, Z.add_0_l. eexists. split; [done|]. apply take_app_length.
  - intros fresh Hfr. unfold pj_str_unescape, pj_strchr. destruct (pj_strchr_loop _ _ _) as [i|] eqn:Ec.
    + specialize (Hfr (Z.of_nat (length (escaped unres src))) ltac:(lia)).
      pose proof (unescape_escaped unres true src (length (escaped unres src)) [] (fresh (Z.of_nat (length (escaped unres src)))) 0
        Ho Hp ltac:(lia) eq_refl ltac:(lia)) as Eu.
      cbn [app] in Eu. rewrite Eu, bind_some_eq, Z.add_0_l. cbv beta iota. by rewrite Nat2Z.id, take_app_length.
    + apply strchr_none in Ec. by rewrite (escaped_plain unres src Ec).
Qed.

(** ** Concrete texts *)

(** "Hi!?" as "SGkhPw==". *)
Definition hi : list Z := [72; 105; 33; 63].

Lemma base64_roundtrip_witness : exists text n bytes,
  pj_base64_encode hi (replicate 12 0) 12 = Some (PJ_SUCCESS, text, n) /\
  pj_base64_decode (take (Z.to_nat n) text) (replicate 4 0) 4 = Some (PJ_SUCCESS, bytes, 4) /\ take 4 bytes = hi.
Proof.
  destruct (base64_roundtrip false hi (replicate 12 0) 12 (replicate 4 0) 4) as (text & n & E1 & _ & bytes & E2 & E3).
  - repeat constructor; lia.
  - vm_compute. split; congruence.
  - simpl. lia.
  - exists text, n, bytes. split; [exact E1|]. split; [exact E2|exact E3].
Defined.

Example hi_text : pj_base64_encode hi (replicate 8 0) 8 = Some (PJ_SUCCESS, [83; 71; 107; 104; 80; 119; 61; 61], 8).
Proof. vm_compute. reflexivity. Qed.

(** "S?G" with a character that is none of the alphabet. *)
Lemma base64_decode_safe_witness : exists status out' n,
  b64_decode [83; 63; 71] [0; 0] 2 false = Some (status, out', n) /\ length out' = 2%nat.
Proof.
  destruct (base64_decode_safe false [83; 63; 71] [0; 0] 2) as (status & out' & n & E & L & _); [simpl; lia|].
  exists status, out', n. split; [exact E|exact L].
Defined.

(** The letters are unreserved. *)
Definition letter (c : Z) : bool := (97 <=? c) && (c <=? 122).

Lemma escape_roundtrip_witness : exists dst' n,
  pj_strncpy2_escape letter (replicate 9 0) [97; 32; 98] 9 = Some (dst', n) /\
  (n <> -1 -> pj_str_unescape (fun k => replicate (Z.to_nat k) 0) (take (Z.to_nat n) dst') = Some [97; 32; 98]).
Proof.
  destruct (escape_roundtrip letter (replicate 9 0) [97; 32; 98] 9) as (dst' & n & E & _ & H); [repeat constructor; lia|simpl; lia|].
  exists dst', n. split; [exact E|]. intros Hn. destruct (H Hn) as (_ & _ & Hu). apply Hu; [by left|].
  intros k Hk. rewrite length_replicate. lia.
Defined.

Example escaped_space : pj_strncpy2_escape letter (replicate 5 0) [97; 32; 98] 5 = Some ([97; 37; 50; 48; 98], 5).
Proof. vm_compute. reflexivity. Qed.

(** With the percent sign among the characters left as they are, as in the
    sets [pjsip_USER_SPEC], [pjsip_PASSWD_SPEC], [pjsip_PARAM_CHAR_SPEC] and
    [pjsip_HDR_CHAR_SPEC] that URIs are printed with, the text "%41" is not
    escaped, and comes back as "A". *)
Theorem percent_not_escaped (unres : Z -> bool) :
  unres 37 = true -> unres 52 = true -> unres 49 = true ->
  pj_strncpy2_escape unres (replicate 9 0) [37; 52; 49] 9 = Some ([37; 52; 49; 0; 0; 0; 0; 0; 0], 3) /\
  pj_str_unescape (fun k => replicate (Z.to_nat k) 0) [37; 52; 49] = Some [65].
Proof.
  intros H1 H2 H3. split; [|reflexivity]. unfold pj_strncpy2_escape.
  cbn [length escape_loop Z.of_nat]. rewrite H1, H2, H3. reflexivity.
Qed.

(** "QUI=" is "AB"; with a line feed at its end it is three bytes. *)
Theorem trailing_newline_adds_byte :
  pj_base64_decode [81; 85; 73; 61] (replicate 3 0) 3 = Some (PJ_SUCCESS, [65; 66; 0], 2) /\
  pj_base64_decode [81; 85; 73; 61; 10] (replicate 3 0) 3 = Some (PJ_SUCCESS, [65; 66; 63], 3).
Proof. vm_compute. split; reflexivity. Qed.

(** The digits behind a ["%"] are not looked at: "%zz" is one character. *)
Theorem unescape_takes_any : pj_strcpy_unescape (replicate 3 0) [37; 122; 122] = Some ([51; 0; 0], 1).
Proof. vm_compute. reflexivity. Qed.
